(* ===== verification/_CoqProject ===== *)
-Q . S2P
Prelude.v
Text.v
Effects.v
Types.v
ResourceStore.v
UpdateStrategy.v
Compat.v
UpdatePlan.v
UpdatePlanProps.v
UpdateConverge.v
StrategyProps.v
Status.v
StatusProps.v
ResourceStoreProps.v
StoreWatchProps.v
Ensure.v
Teardown.v
TeardownProps.v
EnsureProps.v
Deletion.v
DeletionProps.v
WorkQueue.v
WorkQueueProps.v
EventCodec.v
OrderedLog.v
OrderedLogProps.v
WatchProps.v
Gpu.v
GpuProps.v
Ipv4.v
Vip.v
VipProps.v
Policy.v
PolicyProps.v
Endpoints.v
EndpointsProps.v
Release.v
ReleaseProps.v
ReleaseService.v
ReleaseApply.v
ReleaseApplyProps.v
Authz.v
Names.v
Sessions.v
ApiGate.v
AuthzProps.v
Health.v
HealthProps.v
Scaling.v
ScalingProps.v
Ingress.v
IngressProps.v
Storage.v
StorageProps.v
Snapshots.v
SnapshotProps.v
StorageApi.v
StorageApiProps.v
Mounts.v
MountsProps.v
InitSteps.v
InitProps.v
AgentVolumes.v
AgentVolumesProps.v
DependencyGraph.v
DependencyProps.v
ServiceApi.v
ServiceApiProps.v
ServiceApiEdges.v
ScalingWatch.v
Creation.v
CreationProps.v
SessionProps.v
GateProps.v
Dataplane.v
DataplaneProps.v
DataplaneLogProps.v
Dns.v
Secrets.v
SecretProps.v
