(* ===== verification/Prelude.v ===== *)
(** * Rune: a verification library for the orchestrator's core

    Rune (github.com/runestack/rune) is a container orchestrator in Go.  A
    server process keeps the desired state in a Badger store, reconciles it
    against what the runners report, and pushes the resulting network state to
    node agents through an ordered log.  Casts (releases) and API writes change
    the desired state; controllers for health, scaling, volumes and snapshots
    change it too.  This
    library models the decision logic of that core and proves what makes it
    correct.  Paths below are relative to src/pkg unless they start with internal.

    ** Parts and files

    A component [X] has its definitions in [X], shared lemmas in [XFacts] where
    there are many, and its theorems in [XProps].

    - Prelude (this file): results of fallible functions, 64-bit arithmetic,
      time, the tactics [break] and [bools], counting over lists, the stable sort
      and its laws, the hint database [rune].  Text: separators, prefixes and
      splitting of strings.  Effects: programs over a world that may fail, and
      the rules of their postconditions.  Names: DNS labels and Go's path.Clean,
      Join and Rel.
    - Types: the records and constants of types/{instance,service,update_strategy,
      network_policy,volume,constants,deletion}.go the modelled code reads or writes.

    The reconciler (orchestrator/reconciler, orchestrator/instance):

    - UpdateStrategy (types/update_strategy.go) resolves a service's update
      strategy into a floor, a surge and a drain window; StrategyProps has its
      bounds.
    - Compat (orchestrator/instance/instance_compat.go) classifies an instance
      against its service; StrategyProps states it as a decision table.
    - UpdatePlan (reconciler/update_plan.go) is the pure planner, one definition
      per phase of [planUpdate]; UpdatePlanProps has the floor, the surge cap, one action per instance and the
      recreate strategy, UpdateConverge the closed loop of planner and cluster,
      with a ranking that bounds the number of passes.
    - Status (reconciler/status.go, events.go and the store's UpdateFunc) computes
      and writes the service status by compare-and-swap; StatusProps.
    - Teardown (orchestrator/instance: stop, delete, withdraw, drain) as traces of
      calls; TeardownProps has withdraw-before-stop and the single batch drain.
    - Ensure (reconciler/{ensure,sync,naming,housekeeping,dependencies}.go and
      UpdateInstance) carries a plan out through the class [OpsLaws] of the
      instance controller, which EnsureProps proves of the modelled controller
      ([controllerOps_laws]).
    - Deletion (reconciler/reconciler_deletion.go, types/deletion.go and the
      abandoning of finalizers in orchestrator/service/service_controller.go):
      finalizers run in order over the stored record; DeletionProps has safety over
      any history of failures and other writers, abandoning included, and
      termination of reliable passes of an undisturbed teardown.
    - Creation (orchestrator/instance/{instance_lifecycle,instance_failure}.go):
      the create pipeline, its retries on one record, and the restart that keeps
      the failed container.  CreationProps bounds the attempts and shows that no
      attempt leaves a container behind, and has the restart.
    - WorkQueue (orchestrator/queue) is the keyed work queue and its rate
      limiter; WorkQueueProps by rule induction over its operations.
    - Health (orchestrator/health) is the health controller as a world of
      goroutines; HealthProps has the invariants of every interleaving: writes are
      guarded and evidenced, promotions are not lost, restarts are paced.
    - Scaling (orchestrator/scaling, types/scaling.go): immediate and gradual
      scaling operations; ScalingProps has convergence, and two behaviours the
      comments of the source rule out.

    The store:

    - ResourceStore (store/{badger_store,util,interface}.go): keys, versions, the
      CRUD operations, the optimistic update loop, transactions, listing and the
      watch subscriptions with their pumps.  What Go decodes into an untyped value
      (a listing, the event of a deletion) goes through the parameter [Generic].
      ResourceStoreProps proves that the byte-keyed store refines a map, and that
      the update loop is atomic under other writers; StoreWatchProps what a watcher
      receives.
    - EventCodec and OrderedLog (store/orderedlog): the event codec, the
      registered appliers, [Propose] as a transaction over a Badger map whose every
      answer to a transaction is a field of [badger], watch fan-out, snapshots,
      reopening and retention.  OrderedLogProps and WatchProps.

    Releases and authorization:

    - Release (release/, types/release.go): planning and reconciling a cast
      against the classes of the record store, the live lookup and the applier;
      ReleaseProps has the plan, the order of a cast's calls, and atomic rollback
      from the contract [Revertible].
    - ReleaseService (releasectl/controller.go, types/service.go) merges a payload
      into a stored service; ReleaseApply is the applier over store rows, and
      ReleaseApplyProps discharges [Revertible] for it, and keeps the stored records
      well-formed over casts and uninstalls.
    - Authz (authz/, types/{ref,policy,init_step}.go, instance_env.go): policies,
      the admission gate, and the environment resolver that runs without a
      subject; AuthzProps relates what is read to what was granted, and a cast's
      changes to the verb the RPC table of ApiGate asks of the direct call.

    Volumes, from the request to the device:

    - Storage (types/volume.go, types/storageclass.go, store/repos/volume.go,
      orchestrator/volume/volume_controller.go): the rows, and the controller
      that provisions and reclaims.  StorageProps (storage is deleted only when
      the policy asks, an Available volume is backed, provisioning ends in
      Available or Failed; one default class, and the edges).
    - Snapshots (orchestrator/volume/snapshot_controller.go); SnapshotProps has
      the lifecycle as an invariant of the rows.
    - StorageApi (api/service/{volume,storageclass,snapshot}.go); StorageApiProps.
    - Mounts (orchestrator/instance/{instance_mounts,volume_fs_ownership}.go):
      binding a service's mounts to volumes and waiting for them; MountsProps,
      with what the cast-time checks guarantee.
    - InitSteps (types/init_step.go, orchestrator/instance/instance_init_steps.go);
      InitProps proves a pass a trace of the abstract attempts, and what a
      restart runs.
    - AgentVolumes (internal/agent/volumes): attach, mount, unmount and detach on
      a node, with the disks that could not be detached.  AgentVolumesProps has
      the safety of every call on the host, that no attached disk is forgotten over
      a restart, and the path from cast to mount.

    The service API:

    - DependencyGraph (types/dependency_graph.go and the checks of
      api/service/service.go); DependencyProps proves the search exact.
    - ServiceApi (api/service/service.go, orchestrator/orchestrator.go, and the
      operations of orchestrator/service/service_controller.go): create, update,
      scale, restart, delete.  ServiceApiProps keeps the stored dependencies
      acyclic, states what the API needs of the
      allocator as the class [VIPAllocatorLaws], which Vip's allocator meets, and
      proves that addresses are not shared; ServiceApiEdges has the handlers' results
      and concrete requests.
    - ScalingWatch: the stream a client waits on for a scaling.

    Credentials, the API gate and secrets:

    - Sessions (store/repos/{token,user}.go, api/session/manager.go,
      api/server/{handoff,refresh}.go, api/service/{auth,auth_enroll}.go): tokens,
      the rotation of refresh grants with its grace window, the sweep, the
      one-time codes.  SessionProps: what a bearer is, that a replayed secret
      revokes its grant, what the sweep deletes, that a code works once.
    - ApiGate (api/server/{server,auth,utils,http,bootstrap,exec_ws}.go,
      store/repos/policy.go, api/service/admin.go): the interceptors in their
      order, the method table, the dashboard and exec gates, the built-in policies
      and the handlers that change policies and users.  GateProps: a call that
      passes was granted, a refresh grant opens nothing, seeding adds exactly the
      built-in rules, bootstrap is local and happens once; and the calls the table
      forgets.
    - Secrets (crypto/{encryption,kek,util}.go, store/repos/secret.go,
      api/service/secret.go): the master key, envelope sealing and the handlers,
      on the store of ResourceStore.  SecretProps: base64 and master-key round
      trips, a sealed row opens only as itself, create, patch and rollback on the
      Badger rows, the limits, the audit trail and the rate limiter.

    Admission and networking:

    - Gpu (types/gpu_ledger.go, orchestrator/gpu): the device ledger and every
      operation on it; GpuProps.
    - Ipv4: Go's net package for IPv4 text and prefixes, with the print/parse
      round trip.  Vip (networking/vip): the allocator as appliers of OrderedLog;
      VipProps.
    - Policy (networking/policy): compile, evaluate and the identity table;
      PolicyProps states the meaning of a written policy and that evaluation
      refines it, and the table's answers.
    - Endpoints (orchestrator/instance/instance_endpoints.go and PublishService
      of internal/agent/dns/wire.go); EndpointsProps.
    - Ingress (networking/ingress, internal/agent/ingressctl): the route table,
      the client-CA pools, the request gate and the controller that rebuilds
      them; IngressProps.
    - Dataplane (internal/agent/dataplane, networking/{endpoints,localinstances}):
      how the network state reaches a node and what the node does with it.
      [applyUpdateEndpoints] and its siblings are appliers of OrderedLog, and
      [Subsystem] is the node: its copy of the log ([hydrate], [consumeEvent],
      [watchRound]), its policies, listeners and loopback addresses ([svc] events),
      and a connection as the function [route].  DataplaneProps is about every
      state service events and log events reach ([dp_reachable]): a connection is
      dialled only if the log is fresh and the written policies admit it, loopback
      references count the registered services, and what a registration opens.
      DataplaneLogProps follows a node from its snapshot through every step of the
      log and shows its cache to be the log's records; the class of facts it needs
      of an applier is [feeds].
    - Dns (internal/agent/dns): query handling, the store-backed zone and its
      cache, the forwarder's upstreams; a name resolves to the address the data
      plane listens on.

    ** How the code is modelled

    Go functions returning an error are [result]s.  State a function mutates is
    passed and returned; handlers whose order of calls matters also return the
    trace of their calls ([effect], [call]).  The store, the runners and the
    clock are records of the answers they give to one call (runner_env,
    teardown_env, InstanceOps, ep_env) or oracles of faults, one entry per call
    (ReleaseApply, Scaling), so a theorem quantifies over every such answer,
    failures included.  Concurrent writers appear as the list of values
    successive compare-and-swap attempts read ([Status.UpdateFunc]), as a
    function of the state applied between a read and a write
    ([processScalingStep]), or as steps of a transition relation interleaved with
    the modelled ones (StoreWatchProps, HealthProps); a goroutine is then a task
    that a step runs up to its next lock or store call.  Where Go ranges over a
    map, the order is an argument or the statement is up to permutation.
    The volume controllers, the binder, the init steps and the agent run against
    an environment indexed by a tick that every call advances: what the drivers,
    the host and the node answer may differ at every call, and [others] is what
    other writers do to the rows at that tick.
    Integers that can leave 64 bits are wrapped in the definitions; elsewhere
    they are counts and [Z] is exact.

    ** Fuel

    [OrderedLog.pruneLoop] runs with one unit more than the database has keys and
    each batch but the last deletes a key ([pruneLoop_spec]); [Vip.pickFrom] runs
    with one unit more than there are used addresses, and skips only used ones
    ([pickFrom_spec]); the template scanners of Authz run with one unit more than
    the text has characters, and each turn shortens it; [UpdateFunc] stops after
    the source's own 100 retries; [DependencyGraph.dfs] runs with the number of
    nodes, and every call colors one ([dfs_ends]); the two waits of Mounts poll at
    most 32 and 92 times, which is more than their deadlines leave room for
    ([waits_end]).  No other recursion is bounded.

    ** Parameters

    [types.ParseMemory] (floating point), the JSON codec of VIP ops and state and
    of stored resources, Go's url, net and x509 packages, SHA-256, AES-GCM, the test
    whether a peer is local, the order [sort.Slice]
    leaves equal elements in, and the views the service hashes are taken of are
    section variables; the random suffixes of generated instance names are an
    input list of [Ensure.createLoop].  What is assumed of each is a hypothesis of
    the theorems that use it.

    ** Not modelled

    The composition of a reconcile pass from these parts (reconcileService,
    syncService), the runners, piping and draining of connections, DNS sockets, the
    log forwarder, the storage drivers, the read-only and streaming API handlers, the registry
    administration, the CLI and the other
    subsystems of the agent: either I/O, or work that follows the core.  Timers appear only as steps that may run at any time.  In
    the modelled files: log lines, error wrapping beyond what callers inspect,
    IPv6 (an IPv6 peer of a policy compiles to nothing, as
    if it were malformed), the probes themselves, and the Explain output of policies. *)

From stdpp Require Export base tactics list numbers strings gmap sorting.
From Stdlib Require Export ZArith Lia.

#[global] Open Scope Z_scope.

(** ** Results of fallible Go functions

    A Go function returning [(T, error)] is a [result E T]; [E] is the type the
    component gives its errors (a sentinel enumeration, or the message). *)

Inductive result (E A : Type) : Type :=
| Ok (a : A)
| Err (e : E).
Arguments Ok {E A} a.
Arguments Err {E A} e.

Declare Scope go_scope.
Delimit Scope go_scope with go.

Definition rbind {E A B} (m : result E A) (f : A → result E B) : result E B :=
  match m with Ok a => f a | Err e => Err e end.

Notation "'let?' x := m 'in' k" := (rbind m (fun x => k))
  (at level 10, x name, k at level 200) : go_scope.

Lemma Ok_inj {E A} (a b : A) : @Ok E A a = Ok b → a = b.
Proof. by intros [= ->]. Qed.

Definition is_ok {E A} (r : result E A) : bool :=
  match r with Ok _ => true | Err _ => false end.

(** ** Machine integers

    Go's [int] and [int64] are 64-bit two's complement; [uint64] is modulo
    [2^64].  Where a component's arithmetic can leave the range its definitions
    use [wrap64]/[wrapU64]; everywhere else the values are lengths and counters
    and plain [Z] is used. *)

Definition int64_min : Z := - 2 ^ 63.
Definition int64_max : Z := 2 ^ 63 - 1.
Definition wrap64 (z : Z) : Z := (z + 2 ^ 63) mod 2 ^ 64 - 2 ^ 63.
Definition wrapU64 (z : Z) : Z := z mod 2 ^ 64.
Definition in_int64 (z : Z) : Prop := int64_min ≤ z ≤ int64_max.

Lemma wrap64_id z : in_int64 z → wrap64 z = z.
Proof.
  unfold in_int64, int64_min, int64_max, wrap64. intros ?.
  rewrite Z.mod_small; lia.
Qed.

Lemma wrap64_range z : in_int64 (wrap64 z).
Proof.
  unfold in_int64, int64_min, int64_max, wrap64.
  pose proof (Z.mod_pos_bound (z + 2 ^ 63) (2 ^ 64)). lia.
Qed.

Lemma wrapU64_id z : 0 ≤ z < 2 ^ 64 → wrapU64 z = z.
Proof. apply Z.mod_small. Qed.

(** ** Time

    [time.Time] is an integer number of nanoseconds since the zero time, so
    that [IsZero] is [= 0]; [Time.Sub] saturates at the bounds of
    [time.Duration], as the Go documentation states. *)

Definition Time := Z.
Definition Duration := Z.
Definition IsZero (t : Time) : bool := t =? 0.
Definition Before (t u : Time) : bool := t <? u.
Definition After (t u : Time) : bool := u <? t.
Definition Sub (t u : Time) : Duration := Z.max int64_min (Z.min int64_max (t - u)).
Definition Second : Duration := 1000000000.

(** ** Tactics *)

(** Case analysis on the scrutinee of every [match]/[if] of the goal or a
    hypothesis, remembering the equation. *)
Ltac break_goal :=
  match goal with
  | |- context [match ?x with _ => _ end] =>
      lazymatch x with context [match _ with _ => _ end] => fail | _ => destruct x eqn:? end
  end.

Ltac break_hyp :=
  match goal with
  | H : context [match ?x with _ => _ end] |- _ =>
      lazymatch x with context [match _ with _ => _ end] => fail | _ => destruct x eqn:? end
  end.

Ltac break := repeat (break_hyp; simplify_eq/=); repeat (break_goal; simplify_eq/=).

(** Turn boolean connectives and comparisons of hypotheses into propositions. *)
Ltac bools :=
  repeat match goal with
  | H : (_ && _)%bool = true |- _ => apply andb_prop in H as [? ?]
  | H : (_ || _)%bool = false |- _ => apply orb_false_elim in H as [? ?]
  | H : negb _ = true |- _ => apply negb_true_iff in H
  | H : negb _ = false |- _ => apply negb_false_iff in H
  | H : bool_decide _ = true |- _ => apply bool_decide_eq_true_1 in H
  | H : bool_decide _ = false |- _ => apply bool_decide_eq_false_1 in H
  | H : (_ =? _)%Z = true |- _ => apply Z.eqb_eq in H
  | H : (_ =? _)%Z = false |- _ => apply Z.eqb_neq in H
  | H : (_ <? _)%Z = true |- _ => apply Z.ltb_lt in H
  | H : (_ <? _)%Z = false |- _ => apply Z.ltb_ge in H
  | H : (_ <=? _)%Z = true |- _ => apply Z.leb_le in H
  | H : (_ <=? _)%Z = false |- _ => apply Z.leb_gt in H
  end.

(** ** Counting

    [countb f l] is the number of elements of [l] on which [f] holds, as the
    integer the Go loops compute with a counter. *)

Section Counting.
Context {A : Type}.
Implicit Types (f g : A → bool) (l k : list A).

Fixpoint countb f l : Z :=
  match l with
  | [] => 0
  | x :: l => (if f x then 1 else 0) + countb f l
  end.

Lemma countb_app f l k : countb f (l ++ k) = countb f l + countb f k.
Proof. induction l as [|x l IH]; simpl; lia. Qed.

Lemma countb_nonneg f l : 0 ≤ countb f l.
Proof. induction l as [|x l IH]; simpl; [lia|]. destruct (f x); lia. Qed.

Lemma countb_le_length f l : countb f l ≤ Z.of_nat (length l).
Proof. induction l as [|x l IH]; simpl; [lia|]. destruct (f x); lia. Qed.

Lemma countb_perm f l k : l ≡ₚ k → countb f l = countb f k.
Proof. induction 1; simpl; lia. Qed.

Lemma countb_ext f g l : (∀ x, x ∈ l → f x = g x) → countb f l = countb g l.
Proof.
  induction l as [|x l IH]; intros H; simpl; [done|].
  rewrite (H x), IH; [done| |]; intros; try apply H; set_solver.
Qed.

Lemma countb_none f l : (∀ x, x ∈ l → f x = false) → countb f l = 0.
Proof.
  induction l as [|x l IH]; intros H; simpl; [done|].
  rewrite (H x) by set_solver. rewrite IH; [done|]. set_solver.
Qed.

Lemma countb_all f l : (∀ x, x ∈ l → f x = true) → countb f l = Z.of_nat (length l).
Proof.
  induction l as [|x l IH]; intros H; simpl; [done|].
  rewrite (H x) by set_solver. rewrite IH; [lia|]. set_solver.
Qed.

Lemma countb_filter f g l : countb f (List.filter g l) = countb (λ x, g x && f x) l.
Proof. induction l as [|x l IH]; simpl; [done|]. destruct (g x); simpl; lia. Qed.

Lemma countb_length_filter f l : Z.of_nat (length (List.filter f l)) = countb f l.
Proof. induction l as [|x l IH]; simpl; [done|]. destruct (f x); simpl; lia. Qed.

Lemma countb_negb f l : countb f l + countb (λ x, negb (f x)) l = Z.of_nat (length l).
Proof. induction l as [|x l IH]; simpl; [done|]. destruct (f x); simpl; lia. Qed.

Lemma countb_mono f g l : (∀ x, x ∈ l → f x = true → g x = true) → countb f l ≤ countb g l.
Proof.
  induction l as [|x l IH]; intros H; simpl; [done|].
  assert (countb f l ≤ countb g l) by (apply IH; set_solver).
  specialize (H x). destruct (f x); [|destruct (g x); lia].
  rewrite H by set_solver. lia.
Qed.

Lemma countb_pos f l : 0 < countb f l ↔ ∃ x, x ∈ l ∧ f x = true.
Proof.
  induction l as [|x l IH]; simpl.
  - split; [lia|]. intros (x & H & _). set_solver.
  - pose proof (countb_nonneg f l). destruct (f x) eqn:E.
    + split; [|lia]. intros _. exists x. set_solver.
    + rewrite Z.add_0_l, IH. split; intros (y & ? & ?); exists y; [set_solver|].
      split; [|done]. assert (y ≠ x) by congruence. set_solver.
Qed.

(** Elements failing [f] come before elements satisfying it: what a prefix
    of such a list contains. *)
Lemma countb_take_ordered f l k n :
  (∀ x, x ∈ l → f x = false) → (∀ x, x ∈ k → f x = true) →
  (n ≤ length (l ++ k))%nat →
  countb f (take n (l ++ k)) = Z.max 0 (Z.of_nat n - Z.of_nat (length l)).
Proof.
  intros Hl Hk Hn. rewrite length_app in Hn. rewrite take_app, countb_app.
  rewrite (countb_none f (take n l)) by (intros x ?%elem_of_take; naive_solver eauto using list_elem_of_lookup_2).
  rewrite (countb_all f (take (n - length l) k)) by (intros x ?%elem_of_take; naive_solver eauto using list_elem_of_lookup_2).
  rewrite length_take. lia.
Qed.

Lemma filter_perm f l k : l ≡ₚ k → List.filter f l ≡ₚ List.filter f k.
Proof.
  induction 1; simpl.
  - done.
  - destruct (f x); [by constructor|done].
  - destruct (f x), (f y); try done. constructor.
  - by etrans.
Qed.

Lemma elem_of_filterb f l x : x ∈ List.filter f l ↔ f x = true ∧ x ∈ l.
Proof. rewrite !list_elem_of_In, filter_In. tauto. Qed.

Lemma sublist_filterb f l : List.filter f l `sublist_of` l.
Proof. induction l as [|x l IH]; simpl; [done|]. destruct (f x); by constructor. Qed.

Lemma NoDup_filterb f l : NoDup l → NoDup (List.filter f l).
Proof. intros H. eapply sublist_NoDup; [exact H|apply sublist_filterb]. Qed.

Lemma NoDup_fmap_filterb {B} (h : A → B) f l : NoDup (h <$> l) → NoDup (h <$> List.filter f l).
Proof. intros H. eapply sublist_NoDup; [exact H|]. apply fmap_sublist, sublist_filterb. Qed.

Lemma filterb_all f l : (∀ x, x ∈ l → f x = true) → List.filter f l = l.
Proof.
  induction l as [|x l IH]; intros H; simpl; [done|].
  rewrite H by set_solver. f_equal. apply IH. set_solver.
Qed.

Lemma filterb_none f l : (∀ x, x ∈ l → f x = false) → List.filter f l = [].
Proof.
  induction l as [|x l IH]; intros H; simpl; [done|].
  rewrite H by set_solver. apply IH. set_solver.
Qed.

Lemma filter_split_perm f l : l ≡ₚ List.filter f l ++ List.filter (λ x, negb (f x)) l.
Proof.
  induction l as [|x l IH]; simpl; [done|].
  destruct (f x); simpl; [by constructor|].
  rewrite <- Permutation_middle. by constructor.
Qed.

End Counting.

Lemma countb_fmap {A B} (h : A → B) (f : B → bool) (l : list A) :
  countb f (h <$> l) = countb (λ x, f (h x)) l.
Proof. induction l as [|x l IH]; [done|]. rewrite fmap_cons. simpl. by rewrite IH. Qed.

Lemma seqZ_sorted m n : StronglySorted Z.lt (seqZ m n).
Proof.
  destruct (decide (0 ≤ n)) as [Hn|Hn]; [|rewrite seqZ_nil by lia; constructor].
  revert m. apply natlike_ind with (P := λ n, ∀ m, StronglySorted Z.lt (seqZ m n)); [intros m; constructor| |done].
  intros k Hk IH m. rewrite seqZ_cons by lia. replace (Z.pred (Z.succ k)) with k by lia.
  constructor; [apply IH|]. apply Forall_forall. intros x Hx%elem_of_seqZ. lia.
Qed.

(** In a list with distinct keys, elements with the same key are the same. *)
Lemma NoDup_key_inj {A B} (h : A → B) (l : list A) x y :
  NoDup (h <$> l) → x ∈ l → y ∈ l → h x = h y → x = y.
Proof.
  intros Hn (i & Hi)%list_elem_of_lookup (j & Hj)%list_elem_of_lookup Heq.
  assert (i = j).
  { eapply (NoDup_lookup (h <$> l)); [done|rewrite list_lookup_fmap, Hi; done|].
    rewrite list_lookup_fmap, Hj. simpl. by rewrite Heq. }
  naive_solver.
Qed.

(** ** String order *)

Lemma string_ltb_asym a b : String.ltb a b = true → String.ltb b a = false.
Proof.
  unfold String.ltb. rewrite (String.compare_antisym a b).
  destruct (String.compare b a); simpl; congruence.
Qed.

Lemma string_ltb_negtrans a b c : String.ltb a b = false → String.ltb b c = false → String.ltb a c = false.
Proof.
  revert b c. induction a as [|x a IH]; intros [|y b] [|z c]; try done.
  unfold String.ltb. cbn [String.compare]. unfold Ascii.compare.
  destruct (N.compare_spec (Ascii.N_of_ascii x) (Ascii.N_of_ascii y)) as [E1|E1|E1];
  destruct (N.compare_spec (Ascii.N_of_ascii y) (Ascii.N_of_ascii z)) as [E2|E2|E2];
  destruct (N.compare_spec (Ascii.N_of_ascii x) (Ascii.N_of_ascii z)) as [E3|E3|E3]; try done; try lia.
  apply IH.
Qed.

Lemma string_ltb_total a b : String.ltb a b = false → String.ltb b a = false → a = b.
Proof.
  unfold String.ltb. intros H1 H2. apply String.compare_eq_iff.
  pose proof (String.compare_antisym a b) as H. destruct (String.compare a b), (String.compare b a); done.
Qed.

(** ** Stable sorting

    [sort.SliceStable] as its insertion sort: each element moves left past the
    elements it is strictly less than.  For a strict weak order every stable
    sort returns the same slice, so this is also what the block-merge variant
    used for longer slices returns. *)

Section StableSort.
Context {A : Type} (less : A → A → bool).
Implicit Types (x y : A) (l r : list A).

(** [r] is the sorted prefix, reversed: its head is the element just left of
    the one being inserted. *)
Fixpoint insert_left x r : list A :=
  match r with
  | [] => [x]
  | y :: r' => if less x y then y :: insert_left x r' else x :: y :: r'
  end.

Definition SliceStable l : list A := rev (fold_left (λ r x, insert_left x r) l []).

Lemma insert_left_perm x r : insert_left x r ≡ₚ x :: r.
Proof.
  induction r as [|y r IH]; simpl; [done|].
  destruct (less x y); [|done]. rewrite IH. constructor.
Qed.

Lemma fold_insert_perm l r : fold_left (λ r x, insert_left x r) l r ≡ₚ l ++ r.
Proof.
  revert r. induction l as [|x l IH]; intros r; simpl; [done|].
  rewrite IH, insert_left_perm. symmetry. apply Permutation_middle.
Qed.

Lemma SliceStable_perm l : SliceStable l ≡ₚ l.
Proof. unfold SliceStable. rewrite <- Permutation_rev, fold_insert_perm, app_nil_r. done. Qed.

Lemma SliceStable_length l : length (SliceStable l) = length l.
Proof. by rewrite SliceStable_perm. Qed.

Lemma elem_of_SliceStable x l : x ∈ SliceStable l ↔ x ∈ l.
Proof. by rewrite SliceStable_perm. Qed.

(** [a] may precede [b] in the result. *)
Definition not_after (a b : A) : Prop := less b a = false.

Class StrictWeak : Prop := {
  sw_asym : ∀ a b, less a b = true → less b a = false;
  sw_negtrans : ∀ a b c, less a b = false → less b c = false → less a c = false;
}.

Context `{SW : StrictWeak}.

Lemma insert_left_sorted x r :
  StronglySorted (λ a b, not_after b a) r → StronglySorted (λ a b, not_after b a) (insert_left x r).
Proof.
  unfold not_after. induction r as [|y r IH]; simpl; intros Hr.
  - constructor; [constructor|constructor].
  - apply StronglySorted_inv in Hr as [Hr Hy].
    destruct (less x y) eqn:E.
    + constructor; [by apply IH|].
      apply Forall_forall. intros z Hz.
      rewrite insert_left_perm in Hz. apply elem_of_cons in Hz as [->|Hz].
      * by apply sw_asym.
      * rewrite Forall_forall in Hy. by apply Hy.
    + constructor; [by constructor|]. constructor; [done|].
      eapply Forall_impl; [exact Hy|]. intros z Hz. simpl in *.
      eapply sw_negtrans; eauto.
Qed.

Lemma StronglySorted_rev (R : A → A → Prop) l :
  StronglySorted (λ a b, R b a) l → StronglySorted R (rev l).
Proof.
  induction 1 as [|a l Hl IH Ha]; simpl; [constructor|].
  apply StronglySorted_app_2; [|done|by repeat constructor].
  intros x y Hx ->%list_elem_of_singleton.
  rewrite Forall_forall in Ha. apply Ha.
  by rewrite <- Permutation_rev in Hx.
Qed.

(** The result is ordered: nothing is strictly less than an element before it. *)
Lemma SliceStable_sorted l : StronglySorted not_after (SliceStable l).
Proof.
  apply StronglySorted_rev.
  enough (∀ r, StronglySorted (λ a b, not_after b a) r →
    StronglySorted (λ a b, not_after b a) (fold_left (λ r x, insert_left x r) l r)) as H
    by (apply H; constructor).
  induction l as [|x l IH]; intros r Hr; simpl; [done|].
  by apply IH, insert_left_sorted.
Qed.

End StableSort.

#[global] Arguments StrictWeak {A} less.

(** Sorting commutes with a map that keeps the order. *)
Lemma SliceStable_fmap {A B} (f : A → B) (lessA : A → A → bool) (lessB : B → B → bool) (l : list A) :
  (∀ x y, lessB (f x) (f y) = lessA x y) → SliceStable lessB (f <$> l) = f <$> SliceStable lessA l.
Proof.
  intros Hf. unfold SliceStable.
  assert (∀ x r, insert_left lessB (f x) (f <$> r) = f <$> insert_left lessA x r) as Hins.
  { intros x r. induction r as [|y r IH]; cbn; [done|]. rewrite Hf. destruct (lessA x y); cbn; [by f_equal|done]. }
  assert (∀ r, rev (f <$> r) = f <$> rev r) as Hrev.
  { intros r. induction r as [|y r IH]; cbn; [done|]. by rewrite fmap_app, <- IH. }
  rewrite <- Hrev. f_equal. change (@nil B) with (f <$> @nil A). generalize (@nil A).
  induction l as [|x l IH]; intros r; cbn; [done|]. by rewrite Hins, IH.
Qed.

(** ** Automation *)

Create HintDb rune.

#[export] Hint Resolve countb_nonneg countb_le_length wrap64_range SliceStable_perm SliceStable_length
  sublist_filterb NoDup_fmap_filterb : rune.
#[export] Hint Rewrite @countb_app @countb_filter @countb_fmap : rune.
