(* ===== verification/Text.v ===== *)
(** * Text: separators, prefixes and splitting

    The string lemmas the components share: texts without a separator, cutting
    at one, [strings.HasPrefix], [strings.Split], decimal numbers. *)

From stdpp Require Import pretty.
From Stdlib Require Import Ascii.
From S2P Require Import Prelude.

#[local] Arguments String.append !_ _ : simpl nomatch.

(** ** Texts without a separator *)

Fixpoint free (c : ascii) (s : string) : bool :=
  match s with EmptyString => true | String d s => negb (Ascii.eqb c d) && free c s end.

Lemma free_app c a b : free c (a +:+ b) = free c a && free c b.
Proof. induction a as [|d a IH]; [done|]. cbn [String.append free]. by rewrite IH, andb_assoc. Qed.

Lemma cut_inj c a b x y :
  free c a = true → free c b = true → a +:+ String c x = b +:+ String c y → a = b ∧ x = y.
Proof.
  revert b. induction a as [|d a IH]; intros [|e b]; cbn [String.append free]; intros Ha Hb Heq.
  - by injection Heq as ->.
  - injection Heq as -> _. by rewrite Ascii.eqb_refl in Hb.
  - injection Heq as -> _. by rewrite Ascii.eqb_refl in Ha.
  - injection Heq as -> Heq. bools. destruct (IH b) as [-> ->]; done.
Qed.

Lemma string_app_assoc a b c : (a +:+ b) +:+ c = a +:+ (b +:+ c).
Proof. induction a as [|d a IH]; [done|]. cbn [String.append]. by rewrite IH. Qed.

Lemma string_app_length a b : String.length (a +:+ b) = (String.length a + String.length b)%nat.
Proof. induction a as [|c a IH]; cbn; [done|]. by f_equal. Qed.

Lemma string_app_inj a b c : a +:+ b = a +:+ c → b = c.
Proof. induction a as [|d a IH]; [done|]. cbn [String.append]. intros [= H]. by apply IH. Qed.

(** ** Decimal numbers *)

(** Neither a digit nor the minus sign. *)
Definition not_decimal (c : ascii) : bool :=
  forallb (λ d, negb (Ascii.eqb c d)) ["0"; "1"; "2"; "3"; "4"; "5"; "6"; "7"; "8"; "9"; "-"]%char.

Lemma pretty_N_char_free c n : not_decimal c = true → Ascii.eqb c (pretty_N_char n) = false.
Proof. cbn [not_decimal forallb]. intros H. bools. unfold pretty_N_char. by repeat case_match. Qed.

Lemma pretty_N_go_free c n s : not_decimal c = true → free c s = true → free c (pretty_N_go n s) = true.
Proof.
  intros Hc. revert s. induction (N.lt_wf_0 n) as [n _ IH]; intros s Hs.
  destruct (decide (n = 0)%N) as [->|Hn]; [by rewrite pretty_N_go_0|].
  rewrite pretty_N_go_step by lia. apply IH; [apply N.div_lt; lia|]. cbn [free].
  by rewrite pretty_N_char_free.
Qed.

Lemma pretty_positive_free c (p : positive) : not_decimal c = true → free c (pretty p) = true.
Proof.
  intros Hc. unfold pretty, pretty_positive, pretty, pretty_N. case_decide; [done|]. by apply pretty_N_go_free.
Qed.

Lemma pretty_Z_free c (z : Z) : not_decimal c = true → free c (pretty z) = true.
Proof.
  intros Hc. destruct z as [|p|p].
  - cbn [not_decimal forallb] in Hc. bools. unfold pretty, pretty_Z. cbn [free]. match goal with H : Ascii.eqb c "0" = false |- _ => by rewrite H end.
  - by apply pretty_positive_free.
  - change (free c ("-" +:+ pretty p) = true). rewrite free_app, pretty_positive_free by done.
    cbn [not_decimal forallb] in Hc. bools. cbn [free]. match goal with H : Ascii.eqb c "-" = false |- _ => by rewrite H end.
Qed.

(** ** Prefixes *)

(** [strings.HasPrefix s p] is [String.prefix p s]. *)
Lemma prefix_spec p s : String.prefix p s = true ↔ ∃ t, s = p +:+ t.
Proof.
  revert s. induction p as [|a p IH]; intros s.
  { split; [|by destruct s]. intros _. by exists s. }
  destruct s as [|b s]; cbn [String.append String.prefix].
  { split; [done|]. by intros [t ?]. }
  destruct (Ascii.ascii_dec a b) as [->|Hne].
  - rewrite IH. split; intros [t Ht]; exists t; [by subst|by injection Ht].
  - split; [done|]. intros [t [= ? ?]]. congruence.
Qed.

(** A text is cut at its first separator in one way: with both heads free of
    it, one being a prefix is equality. *)
Lemma prefix_cut c a b x :
  free c a = true → free c b = true → String.prefix (a +:+ String c "") (b +:+ String c x) = bool_decide (a = b).
Proof.
  intros Ha Hb. apply eq_true_iff_eq. rewrite prefix_spec, bool_decide_eq_true. split.
  - intros [t Ht]. rewrite string_app_assoc in Ht. cbn [String.append] in Ht.
    by apply cut_inj in Ht as [-> _].
  - intros ->. exists x. by rewrite string_app_assoc.
Qed.

(** ** Splitting *)

(** [strings.Split] at a one-byte separator. *)
Fixpoint Split (c : ascii) (s : string) : list string :=
  match s with
  | EmptyString => [EmptyString]
  | String d s =>
      if Ascii.eqb c d then EmptyString :: Split c s
      else match Split c s with h :: t => String d h :: t | [] => [String d EmptyString] end
  end.

Lemma Split_nonempty c s : Split c s ≠ [].
Proof. destruct s as [|d s]; [done|]. cbn. destruct (Ascii.eqb c d); [done|]. by destruct (Split c s). Qed.

Lemma Split_free c s : free c s = true → Split c s = [s].
Proof.
  induction s as [|d s IH]; [done|]. cbn [free Split]. intros H. bools.
  match goal with Hd : Ascii.eqb c d = false |- _ => rewrite Hd end. by rewrite IH.
Qed.

Lemma Split_cut c a x : free c a = true → Split c (a +:+ String c x) = a :: Split c x.
Proof.
  induction a as [|d a IH]; cbn [free String.append Split]; intros H.
  - by rewrite Ascii.eqb_refl.
  - bools. match goal with Hd : Ascii.eqb c d = false |- _ => rewrite Hd end. by rewrite IH.
Qed.

(** ** Cutting *)

Fixpoint string_drop (n : nat) (s : string) : string :=
  match n, s with S n, String _ s => string_drop n s | _, _ => s end.

(** [strings.Cut]: what is before and after the first occurrence of [pat]. *)
Fixpoint Cut (pat s : string) : option (string * string) :=
  if String.prefix pat s then Some ("", string_drop (String.length pat) s)
  else match s with
       | EmptyString => None
       | String d s => match Cut pat s with Some (a, b) => Some (String d a, b) | None => None end
       end.

Lemma string_drop_length n s : String.length (string_drop n s) = (String.length s - n)%nat.
Proof. revert s. induction n as [|n IH]; intros [|c s]; cbn; [done..|apply IH]. Qed.

Lemma Cut_length pat s a b : Cut pat s = Some (a, b) → (String.length a + String.length pat + String.length b ≤ String.length s)%nat ∨ s = "".
Proof.
  revert a b. induction s as [|d s IH]; intros a b Hc; [by right|left]. revert Hc. cbn [Cut].
  destruct (String.prefix pat (String d s)) eqn:Hp.
  - intros [= <- <-]. apply prefix_spec in Hp as [t Ht]. rewrite string_drop_length, Ht, string_app_length. cbn. lia.
  - destruct (Cut pat s) as [[a' b']|] eqn:Hc; [|done]. intros [= <- <-].
    destruct (IH _ _ eq_refl) as [Hl| ->]; [cbn; lia|]. destruct pat; [done|]. done.
Qed.

(** What follows the first occurrence of a non-empty text is shorter. *)
Lemma Cut_shorter pat s a b : pat ≠ "" → Cut pat s = Some (a, b) → (String.length b < String.length s)%nat.
Proof.
  intros Hne Hc. destruct (Cut_length _ _ _ _ Hc) as [Hl| ->]; [destruct pat; cbn in *; [done|lia]|].
  by destruct pat.
Qed.

(** [strings.HasSuffix]. *)
Fixpoint HasSuffix (s suffix : string) : bool :=
  bool_decide (s = suffix) || match s with EmptyString => false | String _ s => HasSuffix s suffix end.

(** [strings.Join] with a separator. *)
Fixpoint JoinWith (sep : string) (l : list string) : string :=
  match l with [] => "" | [x] => x | x :: l => x +:+ sep +:+ JoinWith sep l end.

(** Dropping the white space of a text: [strings.Join(strings.Fields(s), "")],
    and [strings.Map] with [unicode.IsSpace], on ASCII text. *)
Definition is_space (c : ascii) : bool :=
  let n := nat_of_ascii c in bool_decide (n = 32%nat ∨ 9 ≤ n ≤ 13)%nat.

Fixpoint strip_spaces (s : string) : string :=
  match s with EmptyString => EmptyString | String c s => if is_space c then strip_spaces s else String c (strip_spaces s) end.

(** [strings.TrimSpace] on ASCII text. *)
Fixpoint trimLeft (s : string) : string :=
  match s with
  | String c s' => if is_space c then trimLeft s' else s
  | EmptyString => EmptyString
  end.

Fixpoint trimRight (s : string) : string :=
  match s with
  | EmptyString => EmptyString
  | String c s => match trimRight s with
      | EmptyString => if is_space c then EmptyString else String c EmptyString
      | t => String c t
      end
  end.

Definition TrimSpace (s : string) : string := trimRight (trimLeft s).

(** [strings.TrimPrefix]. *)
Definition TrimPrefix (s p : string) : string := if String.prefix p s then string_drop (String.length p) s else s.

(** [strings.ToLower] and [strings.EqualFold] on ASCII text. *)
Definition lower (c : ascii) : ascii :=
  let n := nat_of_ascii c in if bool_decide (65 ≤ n ≤ 90)%nat then ascii_of_nat (n + 32) else c.

Fixpoint ToLower (s : string) : string :=
  match s with EmptyString => EmptyString | String c s => String (lower c) (ToLower s) end.

Definition EqualFold (s t : string) : bool := bool_decide (ToLower s = ToLower t).

(** [strings.Contains]. *)
Fixpoint Contains (s sub : string) : bool :=
  String.prefix sub s ||
  match s with EmptyString => false | String _ s' => Contains s' sub end.
