(* ===== verification/Effects.v ===== *)
(** * Programs with a state and an error

    The handlers that thread a store, in-memory tables and errors through many
    calls are written in this monad: a function of the world that returns the new
    world and, unless it failed, a value.  Effects made before a failure stay.
    [post] is the postcondition of a program, with one rule per construct. *)

From S2P Require Import Prelude.

Definition prog (W A : Type) : Type := W → W * option A.

#[global] Instance prog_ret {W} : MRet (prog W) := λ A a w, (w, Some a).
#[global] Instance prog_bind {W} : MBind (prog W) := λ A B f m w,
  match m w with (w', Some a) => f a w' | (w', None) => (w', None) end.

Section Effects.
Context {W : Type}.

Definition fail {A} : prog W A := λ w, (w, None).
Definition gets {A} (f : W → A) : prog W A := λ w, (w, Some (f w)).
Definition modify (f : W → W) : prog W unit := λ w, (f w, Some tt).

(** The error of [m] as a value. *)
Definition try {A} (m : prog W A) : prog W (option A) := λ w, let '(w', r) := m w in (w', Some r).

Definition guardp (b : bool) : prog W unit := if b then mret tt else fail.

Definition from_option {A} (o : option A) : prog W A := match o with Some a => mret a | None => fail end.

(** The loop [for _, x := range l], leaving at the first error. *)
Fixpoint each {A} (f : A → prog W unit) (l : list A) : prog W unit :=
  match l with [] => mret tt | x :: l => f x;; each f l end.

(** ** Postconditions

    [Q] of the value and the world when it succeeds, [X] of the world when it
    fails. *)
Definition post {A} (P : W → Prop) (m : prog W A) (Q : A → W → Prop) (X : W → Prop) : Prop :=
  ∀ w, P w → match m w with (w', Some a) => Q a w' | (w', None) => X w' end.

Lemma post_ret {A} (P : W → Prop) (a : A) Q X : (∀ w, P w → Q a w) → post P (mret a) Q X.
Proof. intros H w Hw. exact (H w Hw). Qed.

Lemma post_fail {A} (P : W → Prop) (Q : A → W → Prop) (X : W → Prop) : (∀ w, P w → X w) → post P fail Q X.
Proof. intros H w Hw. exact (H w Hw). Qed.

Lemma post_bind {A B} P (m : prog W A) (f : A → prog W B) Q R X :
  post P m R X → (∀ a, post (R a) (f a) Q X) → post P (m ≫= f) Q X.
Proof.
  intros Hm Hf w Hw. specialize (Hm w Hw). unfold mbind, prog_bind. destruct (m w) as [w' [a|]]; [|done].
  exact (Hf a w' Hm).
Qed.

Lemma post_try {A} P (m : prog W A) Q X :
  post P m (λ a, Q (Some a)) (Q None) → post P (try m) Q X.
Proof. intros Hm w Hw. specialize (Hm w Hw). unfold try. destruct (m w) as [w' [a|]]; exact Hm. Qed.

Lemma post_gets {A} P (f : W → A) (Q : A → W → Prop) X : (∀ w, P w → Q (f w) w) → post P (gets f) Q X.
Proof. intros H w Hw. exact (H w Hw). Qed.

Lemma post_modify P (f : W → W) (Q : unit → W → Prop) X : (∀ w, P w → Q tt (f w)) → post P (modify f) Q X.
Proof. intros H w Hw. exact (H w Hw). Qed.

Lemma post_guard P (b : bool) (Q : unit → W → Prop) (X : W → Prop) :
  (b = true → ∀ w, P w → Q tt w) → (b = false → ∀ w, P w → X w) → post P (guardp b) Q X.
Proof. intros H1 H2 w Hw. destruct b; [exact (H1 eq_refl w Hw)|exact (H2 eq_refl w Hw)]. Qed.

Lemma post_from {A} P (o : option A) Q (X : W → Prop) :
  (∀ a, o = Some a → ∀ w, P w → Q a w) → (o = None → ∀ w, P w → X w) → post P (from_option o) Q X.
Proof. intros H1 H2 w Hw. destruct o; [exact (H1 _ eq_refl w Hw)|exact (H2 eq_refl w Hw)]. Qed.

Lemma post_weaken {A} (P P' : W → Prop) (m : prog W A) (Q Q' : A → W → Prop) (X X' : W → Prop) :
  post P' m Q' X' → (∀ w, P w → P' w) → (∀ a w, Q' a w → Q a w) → (∀ w, X' w → X w) → post P m Q X.
Proof. intros Hm HP HQ HX w Hw. specialize (Hm w (HP w Hw)). destruct (m w) as [w' [a|]]; auto. Qed.

Lemma post_true {A} P (m : prog W A) : post P m (λ _ _, True) (λ _, True).
Proof. intros w _. by destruct (m w) as [w' [a|]]. Qed.

(** A pure part of the precondition. *)
Lemma post_pure {A} (φ : Prop) P (m : prog W A) Q X : (φ → post P m Q X) → post (λ w, P w ∧ φ) m Q X.
Proof. intros H w [Hw Hφ]. exact (H Hφ w Hw). Qed.

Lemma post_exists {A B} (P : B → W → Prop) (m : prog W A) Q X : (∀ b, post (P b) m Q X) → post (λ w, ∃ b, P b w) m Q X.
Proof. intros H w [b Hb]. exact (H b w Hb). Qed.

(** An assertion the program keeps, whether or not it fails. *)
Definition keeps {A} (I : W → Prop) (m : prog W A) : Prop := post I m (λ _, I) I.

Lemma keeps_state {A} I (m : prog W A) w : keeps I m → I w → I (m w).1.
Proof. intros H Hw. specialize (H w Hw). by destruct (m w) as [w' [a|]]. Qed.

Lemma keeps_ret {A} I (a : A) : keeps I (mret a).
Proof. by apply post_ret. Qed.

Lemma keeps_fail {A} I : keeps I (fail (A := A)).
Proof. by apply post_fail. Qed.

Lemma keeps_bind {A B} I (m : prog W A) (f : A → prog W B) : keeps I m → (∀ a, keeps I (f a)) → keeps I (m ≫= f).
Proof. apply post_bind. Qed.

Lemma keeps_try {A} I (m : prog W A) : keeps I m → keeps I (try m).
Proof. intros H. by apply post_try. Qed.

Lemma keeps_gets {A} I (f : W → A) : keeps I (gets f).
Proof. by apply post_gets. Qed.

Lemma keeps_modify I f : (∀ w, I w → I (f w)) → keeps I (modify f).
Proof. intros H. by apply post_modify. Qed.

Lemma keeps_from {A} I (o : option A) : keeps I (from_option o).
Proof. by apply post_from. Qed.

Lemma keeps_guard I b : keeps I (guardp b).
Proof. by apply post_guard. Qed.

Lemma keeps_each {A} I (f : A → prog W unit) l : (∀ x, x ∈ l → keeps I (f x)) → keeps I (each f l).
Proof.
  induction l as [|x l IH]; intros H; [by apply keeps_ret|].
  apply keeps_bind; [apply H; left|intros _; apply IH; intros y Hy; apply H; by right].
Qed.
(** ** Runs whose first part is known *)

Lemma bind_run {A B} (m : prog W A) (f : A → prog W B) w w' a : m w = (w', Some a) → (m ≫= f) w = f a w'.
Proof. intros E. unfold mbind, prog_bind. by rewrite E. Qed.

Lemma bind_fails {A B} (m : prog W A) (f : A → prog W B) w w' : m w = (w', None) → (m ≫= f) w = (w', None).
Proof. intros E. unfold mbind, prog_bind. by rewrite E. Qed.

Lemma try_run {A} (m : prog W A) w w' o : m w = (w', o) → try m w = (w', Some o).
Proof. intros E. unfold try. by rewrite E. Qed.
End Effects.

#[export] Hint Resolve keeps_ret keeps_fail keeps_gets keeps_from keeps_guard : rune.

(** Walks a program, splitting its tests; what is left are the calls. *)
Ltac keep :=
  repeat first
    [ progress intros
    | solve [eauto with rune]
    | match goal with
      | |- keeps _ (_ ≫= _) => apply keeps_bind
      | |- keeps _ (try _) => apply keeps_try
      | |- keeps _ (each _ _) => apply keeps_each
      end
    | match goal with |- keeps _ (match ?x with _ => _ end) => let E := fresh "E" in destruct x eqn:E end ].
