(* ===== verification/Types.v ===== *)
(** * The data model shared by the components (pkg/types)

    The fields of [types.Service] and [types.Instance] the modelled code reads
    or writes.  A Go pointer that may be nil is an [option]; a string-typed Go
    enumeration that is only ever compared with its constants is an inductive
    type with one constructor per constant and, because the Go type is open, a
    last constructor for any other string. *)

From S2P Require Import Prelude.

(** ** Resource kinds (pkg/types/constants.go) *)

Definition ResourceType := string.
Definition ResourceTypeService : ResourceType := "service".
Definition ResourceTypeNamespace : ResourceType := "namespace".
Definition ResourceTypeSecret : ResourceType := "secret".
Definition ResourceTypeConfigmap : ResourceType := "configmap".
Definition ResourceTypeVolume : ResourceType := "volume".
Definition ResourceTypeStorageClass : ResourceType := "storage_class".
Definition ResourceTypeSnapshot : ResourceType := "snapshot".

(** ** Instances (pkg/types/instance.go) *)

Inductive InstanceStatus :=
| InstanceStatusPending
| InstanceStatusRunning
| InstanceStatusStopped
| InstanceStatusFailed
| InstanceStatusDeleted
| InstanceStatusTerminating
| InstanceStatusStalled
| InstanceStatusCreated
| InstanceStatusStarting
| InstanceStatusExited
| InstanceStatusUnknown
| InstanceStatusOther (s : string).

#[global] Instance InstanceStatus_eq_dec : EqDecision InstanceStatus.
Proof. solve_decision. Defined.

Definition InstanceStatus_string (s : InstanceStatus) : string :=
  match s with
  | InstanceStatusPending => "Pending"
  | InstanceStatusRunning => "Running"
  | InstanceStatusStopped => "Stopped"
  | InstanceStatusFailed => "Failed"
  | InstanceStatusDeleted => "Deleted"
  | InstanceStatusTerminating => "Terminating"
  | InstanceStatusStalled => "Stalled"
  | InstanceStatusCreated => "Created"
  | InstanceStatusStarting => "Starting"
  | InstanceStatusExited => "Exited"
  | InstanceStatusUnknown => "Unknown"
  | InstanceStatusOther s => s
  end.

(** [types.ResourceLimit] and the two limits of [types.Resources]. *)
Record Resources := mkResources { res_CPULimit : string; res_MemoryLimit : string }.

(** [types.ProcessSpec], the fields classification compares. *)
Record ProcessSpec := mkProcessSpec {
  proc_Command : string;
  proc_Args : list string;
  proc_WorkingDir : string;
}.

(** [types.InstanceMetadata]. *)
Record InstanceMetadata := mkInstanceMetadata {
  im_Image : string;
  im_ServiceGeneration : Z;
  im_DeletionTimestamp : option Time;
  im_ContainerIP : string;
  im_RestartCount : Z;
}.

(** [types.Instance]. *)
Record Instance := mkInstance {
  i_ID : string;
  i_Namespace : string;
  i_Name : string;
  i_ServiceName : string;
  i_ServiceID : string;
  i_Status : InstanceStatus;
  i_StatusMessage : string;
  i_IP : string;
  i_ContainerID : string;
  i_PID : Z;
  i_CreatedAt : Time;
  i_UpdatedAt : Time;
  i_LastTransitionAt : option Time;
  i_Ready : bool;
  i_ReadyChangedAt : option Time;
  i_ContainerEverCreatedAt : option Time;
  i_NextCreateAttemptAt : option Time;
  i_FailedAt : option Time;
  i_LastLogs : string;
  i_Process : option ProcessSpec;
  i_Resources : option Resources;
  i_Environment : gmap string string;
  i_Metadata : option InstanceMetadata;
}.

(** [Instance.IsReady]: no recorded verdict counts as ready. *)
Definition IsReady (i : Instance) : bool :=
  match i_ReadyChangedAt i with None => true | Some _ => i_Ready i end.

(** ** Services (pkg/types/service.go, update_strategy.go, network_policy.go) *)

Record ServicePort := mkServicePort {
  sp_Name : string;
  sp_Port : Z;
  sp_TargetPort : Z;
  sp_Protocol : string;
  sp_HostPort : Z;
}.

(** [types.VolumeMount]: the claim's name, whether a claim template is set. *)
Record VolumeMount := mkVolumeMount {
  vm_ReadOnly : bool;
  vm_Claim : option string;
  vm_ClaimTemplate : option (gmap string string);
}.

Definition UpdateStrategyType := string.
Definition UpdateRolling : UpdateStrategyType := "rolling".
Definition UpdateRecreate : UpdateStrategyType := "recreate".

Record UpdateStrategy := mkUpdateStrategy {
  us_Type : UpdateStrategyType;
  us_MinServing : option Z;
}.

(** [types.UpdateStatus]: the progress block of an in-flight update. *)
Record UpdateStatus := mkUpdateStatus {
  u_TemplateGeneration : Z;
  u_Desired : Z;
  u_Updated : Z;
  u_UpdatedReady : Z;
  u_Available : Z;
  u_Outdated : Z;
  u_StartedAt : Time;
  u_LastProgressAt : Time;
  u_Message : string;
  u_PeakUpdated : Z;
  u_PeakUpdatedReady : Z;
  u_PeakAvailable : Z;
}.

(** [types.FinalizerType] (pkg/types/deletion.go). *)
Definition FinalizerType := string.
Definition FinalizerTypeInstanceCleanup : FinalizerType := "instance-cleanup".
Definition FinalizerTypeVolumeCleanup : FinalizerType := "volume-cleanup".

Record ServiceMetadata := mkServiceMetadata {
  md_Generation : Z;
  md_TemplateGeneration : Z;
  md_ObservedGeneration : Z;
  md_DeletionTimestamp : option Time;
  md_Finalizers : list FinalizerType;
}.

Inductive ServiceStatus :=
| ServiceStatusPending
| ServiceStatusRunning
| ServiceStatusDeploying
| ServiceStatusStopping
| ServiceStatusFailed
| ServiceStatusDeleted
| ServiceStatusOther (s : string).

#[global] Instance ServiceStatus_eq_dec : EqDecision ServiceStatus.
Proof. solve_decision. Defined.

Definition RuntimeType := string.
Definition RuntimeTypeContainer : RuntimeType := "container".
Definition RuntimeTypeProcess : RuntimeType := "process".

(** [types.NetworkPolicyPeer] and the two rule kinds. *)
Record NetworkPolicyPeer := mkPeer {
  peer_Service : string;
  peer_Namespace : string;
  peer_ServiceSelector : gmap string string;
  peer_CIDR : string;
}.

Record IngressRule := mkIngressRule { in_From : list NetworkPolicyPeer; in_Ports : list string }.
Record EgressRule := mkEgressRule { eg_To : list NetworkPolicyPeer; eg_Ports : list string }.
Record ServiceNetworkPolicy := mkNetworkPolicy {
  np_Ingress : list IngressRule;
  np_Egress : list EgressRule;
}.

(** [types.DependencyRef]. *)
Record DependencyRef := mkDependencyRef {
  dep_Service : string;
  dep_Secret : string;
  dep_Configmap : string;
  dep_Namespace : string;
}.

Definition GetDependencyResourceType (d : DependencyRef) : ResourceType :=
  if negb (bool_decide (dep_Secret d = "")) then ResourceTypeSecret
  else if negb (bool_decide (dep_Configmap d = "")) then ResourceTypeConfigmap
  else ResourceTypeService.

Definition GetDependencyResourceName (d : DependencyRef) : string :=
  if negb (bool_decide (dep_Secret d = "")) then dep_Secret d
  else if negb (bool_decide (dep_Configmap d = "")) then dep_Configmap d
  else dep_Service d.

(** [types.Service]. [s_HasHealth] is [Health != nil]; [s_HasReadiness] is
    [Health != nil && Health.Readiness != nil]. *)
Record Service := mkService {
  s_ID : string;
  s_Name : string;
  s_Namespace : string;
  s_Image : string;
  s_Env : gmap string string;
  s_Scale : Z;
  s_Ports : list ServicePort;
  s_Resources : Resources;
  s_HasHealth : bool;
  s_HasReadiness : bool;
  s_NetworkPolicy : option ServiceNetworkPolicy;
  s_Volumes : list VolumeMount;
  s_Dependencies : list DependencyRef;
  s_Status : ServiceStatus;
  s_StatusReason : string;
  s_StatusMessage : string;
  s_Runtime : RuntimeType;
  s_Process : option ProcessSpec;
  s_UpdateStrategy : option UpdateStrategy;
  s_DrainSeconds : option Z;
  s_Update : option UpdateStatus;
  s_Metadata : option ServiceMetadata;
}.
