(* ===== verification/ResourceStore.v ===== *)
(** * The resource store (pkg/store/{badger_store,util,interface}.go)

    Resources live in Badger under [type/namespace/name], with a copy of every
    write under a version key.  A watch subscription has an unbounded backlog
    and a pump goroutine that feeds its channel.  Badger's transactions are
    atomic: a transaction is a function of the database that is kept when the
    commit succeeds.  JSON is a parameter, with the detour through an untyped Go
    value that a listing and the event of a deletion take ([Generic]). *)

From stdpp Require Import pretty.
From Stdlib Require Import Ascii.
From S2P Require Import Prelude Text Types.

(** ** Keys (util.go) *)

Definition MakeKey (resourceType : ResourceType) (namespace name : string) : string :=
  resourceType +:+ "/" +:+ namespace +:+ "/" +:+ name.

Definition MakeVersionKey (resourceType : ResourceType) (namespace name version : string) : string :=
  resourceType +:+ "-versions/" +:+ namespace +:+ "/" +:+ name +:+ "/" +:+ version.

(** The namespaces that mean every namespace. *)
Definition every_namespace (namespace : string) : bool :=
  bool_decide (namespace = "") || bool_decide (namespace = "all") || bool_decide (namespace = "*").

Definition MakePrefix (resourceType : ResourceType) (namespace : string) : string :=
  if every_namespace namespace then resourceType +:+ "/" else resourceType +:+ "/" +:+ namespace +:+ "/".

Definition MakeVersionPrefix (resourceType : ResourceType) (namespace name : string) : string :=
  if bool_decide (namespace = "all") || bool_decide (namespace = "*") then resourceType +:+ "-versions/" +:+ name +:+ "/"
  else resourceType +:+ "-versions/" +:+ namespace +:+ "/" +:+ name +:+ "/".

Definition ParseKey (key : string) : option (string * string * string) :=
  match Split "/"%char key with [t; ns; name] => Some (t, ns, name) | _ => None end.

(** ** Events (interface.go) *)

Inductive WatchEventType := WatchEventCreated | WatchEventUpdated | WatchEventDeleted.

#[global] Instance WatchEventType_eq_dec : EqDecision WatchEventType.
Proof. solve_decision. Defined.

Definition EventSource := string.
Definition EventSourceOrchestrator : EventSource := "orchestrator".
Definition EventSourceReconciler : EventSource := "reconciler".
Definition EventSourceHealthController : EventSource := "health-controller".

Inductive StoreError :=
| SEExists
| SENotFound
| SESerialize (e : string)
| SEDeserialize (e : string)
| SERead
| SECommit
| SEConflict
| SEMutate (e : string)
| SEClosed.

(** How a commit ends. *)
Inductive commit := Committed | Conflicted | CommitFailed.

(** What a mutate callback makes of the value it was given. *)
Inductive mutation (V : Type) := MSet (v : V) | MSkip | MErr (e : string).
Arguments MSet {V} v.
Arguments MSkip {V}.
Arguments MErr {V} e.

Definition watchBacklogWarn : nat := 1024.

(** An event carries a resource of type [R]. *)
Section Events.
Context {R : Type}.

Record WatchEvent := mkWatchEvent {
  we_Type : WatchEventType;
  we_ResourceType : ResourceType;
  we_Namespace : string;
  we_Name : string;
  we_Resource : R;
  we_Source : EventSource;
}.

(** ** Subscriptions *)

(** Where the pump goroutine of a subscription is. *)
Inductive pump_state :=
| PumpTop                      (* about to look at the backlog *)
| PumpWaits                    (* blocked on notify or done *)
| PumpSends (ev : WatchEvent)  (* blocked on the channel or done *)
| PumpExited.

Record watchSub := mkWatchSub {
  ws_key : string;
  ws_buf : list WatchEvent;
  ws_notify : bool;            (* the one-slot wake-up channel is full *)
  ws_pump : pump_state;
  ws_out : list WatchEvent;    (* what the consumer has received *)
  ws_done : bool;
  ws_warned : bool;
}.

Definition newWatchSub (key : string) : watchSub := mkWatchSub key [] false PumpTop [] false false.

Definition enqueue (ev : WatchEvent) (s : watchSub) : watchSub :=
  let buf := ws_buf s ++ [ev] in
  let large := bool_decide (watchBacklogWarn ≤ length buf)%nat in
  let warned := if large && negb (ws_warned s) then true else if negb large then false else ws_warned s in
  mkWatchSub (ws_key s) buf true (ws_pump s) (ws_out s) (ws_done s) warned.

(** One step of the pump; [consumer] is whether the receiver is ready.  [None]
    when it is blocked. *)
Definition pumpStep (consumer : bool) (s : watchSub) : option watchSub :=
  let goto p := Some (mkWatchSub (ws_key s) (ws_buf s) (ws_notify s) p (ws_out s) (ws_done s) (ws_warned s)) in
  match ws_pump s with
  | PumpTop =>
      match ws_buf s with
      | [] => goto PumpWaits
      | ev :: rest =>
          Some (mkWatchSub (ws_key s) rest (ws_notify s) (PumpSends ev) (ws_out s) (ws_done s) (ws_warned s))
      end
  | PumpWaits =>
      if ws_notify s then Some (mkWatchSub (ws_key s) (ws_buf s) false PumpTop (ws_out s) (ws_done s) (ws_warned s))
      else if ws_done s then goto PumpExited
      else None
  | PumpSends ev =>
      if consumer then
        Some (mkWatchSub (ws_key s) (ws_buf s) (ws_notify s) PumpTop (ws_out s ++ [ev]) (ws_done s) (ws_warned s))
      else if ws_done s then goto PumpExited
      else None
  | PumpExited => None
  end.

(** A closed [done] may also win the race against a ready notify or consumer. *)
Definition pumpQuit (s : watchSub) : option watchSub :=
  match ws_pump s with
  | PumpWaits | PumpSends _ =>
      if ws_done s
      then Some (mkWatchSub (ws_key s) (ws_buf s) (ws_notify s) PumpExited (ws_out s) (ws_done s) (ws_warned s))
      else None
  | _ => None
  end.

Definition stop (s : watchSub) : watchSub :=
  mkWatchSub (ws_key s) (ws_buf s) (ws_notify s) (ws_pump s) (ws_out s) true (ws_warned s).
End Events.

Arguments WatchEvent : clear implicits.
Arguments watchSub : clear implicits.

Section Store.
Context {V D : Type}.
Context (Marshal : V → result string D) (MarshalVersion : string → Time → V → result string D).
Context (Unmarshal : D → result string V) (UnmarshalVersion : D → result string (string * Time * V)).
(** Decoding into an empty interface, by what [json.Marshal] then makes of it. *)
Context (Generic : D → result string D).

(** What an event's resource is: the caller's value, or the untyped value that
    [Delete] decoded, by its encoding. *)
#[local] Abbreviation event := (WatchEvent (V + D)).

(** ** Transactions over the database *)

#[local] Abbreviation database := (gmap string D).

(** The version record every write leaves. *)
Definition putVersion (now : Time) (t : ResourceType) (ns name : string) (v : V) (d : database)
    : result StoreError database :=
  let versionID := "v" +:+ pretty now in
  match MarshalVersion versionID now v with
  | Err e => Err (SESerialize e)
  | Ok data => Ok (<[MakeVersionKey t ns name versionID := data]> d)
  end.

(** [BadgerTransaction.Create]; [readable] is whether Badger's read succeeds. *)
Definition txCreate (readable : bool) (now : Time) (t : ResourceType) (ns name : string) (v : V) (d : database)
    : result StoreError database :=
  match Marshal v with
  | Err e => Err (SESerialize e)
  | Ok data =>
      if negb readable then Err SERead
      else match d !! MakeKey t ns name with
           | Some _ => Err SEExists
           | None => putVersion now t ns name v (<[MakeKey t ns name := data]> d)
           end
  end.

(** [BadgerTransaction.Get]. *)
Definition txGet (readable : bool) (t : ResourceType) (ns name : string) (d : database) : result StoreError V :=
  if negb readable then Err SERead
  else match d !! MakeKey t ns name with
       | None => Err SENotFound
       | Some data => match Unmarshal data with Ok v => Ok v | Err e => Err (SEDeserialize e) end
       end.

(** [BadgerTransaction.Update]. *)
Definition txUpdate (readable : bool) (now : Time) (t : ResourceType) (ns name : string) (v : V) (d : database)
    : result StoreError database :=
  match Marshal v with
  | Err e => Err (SESerialize e)
  | Ok data =>
      if negb readable then Err SERead
      else match d !! MakeKey t ns name with
           | None => Err SENotFound
           | Some _ => putVersion now t ns name v (<[MakeKey t ns name := data]> d)
           end
  end.

(** [BadgerTransaction.Delete]: the versions stay. *)
Definition txDelete (readable : bool) (t : ResourceType) (ns name : string) (d : database)
    : result StoreError database :=
  if negb readable then Err SERead
  else match d !! MakeKey t ns name with
       | None => Err SENotFound
       | Some _ => Ok (delete (MakeKey t ns name) d)
       end.

(** Badger's iterator: the pairs under a prefix, in key order. *)
Definition key_less (a b : string * D) : bool := String.ltb a.1 b.1.

Definition scanPrefix (prefix : string) (d : database) : list (string * D) :=
  SliceStable key_less (List.filter (λ kv, String.prefix prefix kv.1) (map_to_list d)).

Fixpoint decodeAll {A} (decode : D → result string A) (l : list (string * D)) : result StoreError (list A) :=
  match l with
  | [] => Ok []
  | (_, data) :: l =>
      match decode data with
      | Err e => Err (SEDeserialize e)
      | Ok v => match decodeAll decode l with Ok vs => Ok (v :: vs) | Err e => Err e end
      end
  end.

(** ** The store *)

(** [watchConns] holds subscription numbers by scope key; nil once closed. *)
Record BadgerStore := mkBadgerStore {
  bs_db : database;
  bs_watchConns : option (gmap string (list nat));
  bs_subs : list (watchSub (V + D));
}.

Definition NewBadgerStore : BadgerStore := mkBadgerStore ∅ (Some ∅) [].

Definition with_bs_db (s : BadgerStore) (d : database) : BadgerStore := mkBadgerStore d (bs_watchConns s) (bs_subs s).

Definition dispatch (conns : gmap string (list nat)) (ev : event) (key : string) (subs : list (watchSub (V + D)))
    : list (watchSub (V + D)) :=
  fold_left (λ subs id, alter (enqueue ev) id subs) (default [] (conns !! key)) subs.

Definition scope_key (t : ResourceType) (ns : string) : string := t +:+ ":" +:+ ns.

(** The four scopes an event is dispatched to, in order. *)
Definition scopes {R} (ev : WatchEvent R) : list string :=
  [scope_key (we_ResourceType ev) (we_Namespace ev); scope_key "" (we_Namespace ev);
   scope_key (we_ResourceType ev) ""; scope_key "" ""].

Definition emitWatchEvent (ev : event) (s : BadgerStore) : BadgerStore :=
  match bs_watchConns s with
  | None => s
  | Some conns =>
      mkBadgerStore (bs_db s) (Some conns)
        (fold_left (λ subs key, dispatch conns ev key subs) (scopes ev) (bs_subs s))
  end.

Definition Create (readable commits : bool) (now : Time) (t : ResourceType) (ns name : string) (v : V) (s : BadgerStore)
    : BadgerStore * result StoreError unit :=
  match txCreate readable now t ns name v (bs_db s) with
  | Err e => (s, Err e)
  | Ok d =>
      if negb commits then (s, Err SECommit)
      else (emitWatchEvent (mkWatchEvent WatchEventCreated t ns name (inl v) "") (with_bs_db s d), Ok tt)
  end.

Definition Get (readable : bool) (t : ResourceType) (ns name : string) (s : BadgerStore) : result StoreError V :=
  txGet readable t ns name (bs_db s).

Definition Update (readable commits : bool) (now : Time) (source : EventSource) (t : ResourceType) (ns name : string)
    (v : V) (s : BadgerStore) : BadgerStore * result StoreError unit :=
  match txUpdate readable now t ns name v (bs_db s) with
  | Err e => (s, Err e)
  | Ok d =>
      if negb commits then (s, Err SECommit)
      else (emitWatchEvent (mkWatchEvent WatchEventUpdated t ns name (inl v) source) (with_bs_db s d), Ok tt)
  end.

Definition Delete (readable commits : bool) (t : ResourceType) (ns name : string) (s : BadgerStore)
    : BadgerStore * result StoreError unit :=
  if negb readable then (s, Err SERead)
  else match bs_db s !! MakeKey t ns name with
  | None => (s, Err SENotFound)
  | Some data =>
      match Generic data with
      | Err e => (s, Err (SEDeserialize e))
      | Ok resource =>
          if negb commits then (s, Err SECommit)
          else (emitWatchEvent (mkWatchEvent WatchEventDeleted t ns name (inr resource) "")
                  (with_bs_db s (delete (MakeKey t ns name) (bs_db s))), Ok tt)
      end
  end.

Definition updateFuncMaxRetries : nat := 100.

(** The optimistic loop of [UpdateFunc].  Each attempt is what its transaction
    read at the key and how its commit ended; [Ok None] is a skipped write.
    [None]: the attempts given do not finish the call. *)
Fixpoint updateAttempts (readable : bool) (mutate : V → mutation V) (attempt : nat) (tries : list (option D * commit))
    : option (result StoreError (option (V * D))) :=
  match tries with
  | [] => None
  | (stored, outcome) :: rest =>
      if negb readable then Some (Err SERead)
      else match stored with
      | None => Some (Err SENotFound)
      | Some data =>
          match Unmarshal data with
          | Err e => Some (Err (SEDeserialize e))
          | Ok cur =>
              match mutate cur with
              | MErr e => Some (Err (SEMutate e))
              | MSkip => Some (Ok None)
              | MSet v =>
                  match Marshal v with
                  | Err e => Some (Err (SESerialize e))
                  | Ok data' =>
                      match outcome with
                      | Committed => Some (Ok (Some (v, data')))
                      | CommitFailed => Some (Err SECommit)
                      | Conflicted =>
                          if bool_decide (attempt < updateFuncMaxRetries)%nat
                          then updateAttempts readable mutate (S attempt) rest
                          else Some (Err SEConflict)
                      end
                  end
              end
          end
      end
  end.

(** [UpdateFunc] when the last attempt reads the current value; [earlier] are
    the attempts that lost a conflict before it. *)
Definition UpdateFunc (readable : bool) (outcome : commit) (earlier : list (option D)) (now : Time) (source : EventSource)
    (t : ResourceType) (ns name : string) (mutate : V → mutation V) (s : BadgerStore)
    : BadgerStore * option (result StoreError unit) :=
  let tries := ((λ x, (x, Conflicted)) <$> earlier) ++ [(bs_db s !! MakeKey t ns name, outcome)] in
  match updateAttempts readable mutate 0 tries with
  | None => (s, None)
  | Some (Err e) => (s, Some (Err e))
  | Some (Ok None) => (s, Some (Ok tt))
  | Some (Ok (Some (v, data))) =>
      match putVersion now t ns name v (<[MakeKey t ns name := data]> (bs_db s)) with
      | Err e => (s, Some (Err e))
      | Ok d =>
          (emitWatchEvent (mkWatchEvent WatchEventUpdated t ns name (inl v) source) (with_bs_db s d), Some (Ok tt))
      end
  end.

(** [List] decodes every value into an empty interface, and [UnmarshalResource]
    encodes them again and decodes them into the caller's type. *)
Definition ListResources (t : ResourceType) (ns : string) (s : BadgerStore) : result StoreError (list V) :=
  match decodeAll Generic (scanPrefix (MakePrefix t ns) (bs_db s)) with
  | Err e => Err e
  | Ok resources => decodeAll Unmarshal (pair "" <$> resources)
  end.

(** [Transaction]: the callback works on the transaction's view; no event is
    emitted for what it wrote. *)
Definition Transaction (commits : bool) (fn : database → result StoreError database) (s : BadgerStore)
    : BadgerStore * result StoreError unit :=
  match fn (bs_db s) with
  | Err e => (s, Err e)
  | Ok d => if commits then (with_bs_db s d, Ok tt) else (s, Err SECommit)
  end.

(** Newest first: the reverse of the key order. *)
Definition GetHistory (t : ResourceType) (ns name : string) (s : BadgerStore)
    : result StoreError (list (string * Time * V)) :=
  decodeAll UnmarshalVersion (rev (scanPrefix (MakeVersionPrefix t ns name) (bs_db s))).

Definition GetVersion (t : ResourceType) (ns name version : string) (s : BadgerStore) : result StoreError V :=
  match bs_db s !! MakeVersionKey t ns name version with
  | None => Err SENotFound
  | Some data => match UnmarshalVersion data with Ok (_, _, v) => Ok v | Err e => Err (SEDeserialize e) end
  end.

(** [Watch]: the number of the new subscription. *)
Definition Watch (t : ResourceType) (ns : string) (s : BadgerStore) : BadgerStore * result StoreError nat :=
  match bs_watchConns s with
  | None => (s, Err SEClosed)
  | Some conns =>
      let key := scope_key t ns in
      let id := length (bs_subs s) in
      (mkBadgerStore (bs_db s) (Some (<[key := default [] (conns !! key) ++ [id]]> conns))
         (bs_subs s ++ [newWatchSub key]), Ok id)
  end.

(** What happens when the watcher's context ends. *)
Definition cancelWatch (id : nat) (s : BadgerStore) : BadgerStore :=
  match bs_subs s !! id with
  | None => s
  | Some sub =>
      let conns := match bs_watchConns s with
        | None => None
        | Some conns =>
            let l := List.filter (λ i, negb (Nat.eqb i id)) (default [] (conns !! ws_key sub)) in
            Some (match l with [] => delete (ws_key sub) conns | _ => <[ws_key sub := l]> conns end)
        end in
      mkBadgerStore (bs_db s) conns (alter stop id (bs_subs s))
  end.

(** [Close]: every registered subscription is stopped. *)
Definition Close (s : BadgerStore) : BadgerStore :=
  match bs_watchConns s with
  | None => s
  | Some conns =>
      mkBadgerStore (bs_db s) None
        (fold_left (λ subs id, alter stop id subs) (List.concat (map_to_list conns).*2) (bs_subs s))
  end.
End Store.

Arguments BadgerStore : clear implicits.
