(* ===== verification/UpdateStrategy.v ===== *)
(** * The update strategy and its derived parameters (pkg/types/update_strategy.go)

    [ResolveUpdateParams] turns a service spec into the numbers the planner
    runs on; [Validate]/[ValidateForService] are the admission checks on the
    strategy; [Progressed]/[CarryPeaksFrom] are the high-water-mark arithmetic
    behind stall detection. *)

From S2P Require Import Prelude Types.

Definition DefaultDrainSeconds : Z := 5.
Definition MinDrainSeconds : Z := 1.
Definition MinReadySecondsWithoutProbe : Z := 5.
Definition UpdateStallSeconds : Z := 600.

(** ** Predicates on the service spec *)

Definition HasClaimTemplateVolume (s : option Service) : bool :=
  match s with
  | None => false
  | Some s => existsb (λ v, bool_decide (is_Some (vm_ClaimTemplate v))) (s_Volumes s)
  end.

Definition HasWritableClaimVolume (s : option Service) : bool :=
  match s with
  | None => false
  | Some s => existsb (λ v, bool_decide (is_Some (vm_Claim v)) && negb (vm_ReadOnly v)) (s_Volumes s)
  end.

Definition hasHostPort (s : Service) : bool := existsb (λ p, negb (sp_HostPort p =? 0)) (s_Ports s).

Definition IsSurgeCapable (s : option Service) : bool :=
  match s with
  | None => false
  | Some svc =>
      if HasClaimTemplateVolume s then false
      else if HasWritableClaimVolume s then false
      else if bool_decide (s_Runtime svc = RuntimeTypeProcess) then false
      else negb (hasHostPort svc)
  end.

Definition HasReadinessProbe (s : option Service) : bool :=
  match s with None => false | Some s => s_HasReadiness s end.

Definition DrainWindow (s : option Service) : Duration :=
  let secs := match s with
              | Some svc => default DefaultDrainSeconds (s_DrainSeconds svc)
              | None => DefaultDrainSeconds
              end in
  let secs := if secs <? MinDrainSeconds then MinDrainSeconds else secs in
  wrap64 (secs * Second).

(** ** Admission checks *)

(** [surgeBlocker] names the exclusive resource. *)
Definition surgeBlocker (svc : Service) : string :=
  if HasClaimTemplateVolume (Some svc) then "a per-replica claimTemplate volume"
  else if HasWritableClaimVolume (Some svc) then "a writable claim volume"
  else if bool_decide (s_Runtime svc = RuntimeTypeProcess) then "the process runtime"
  else if hasHostPort svc then "a hostPort"
  else "an exclusive resource".

Inductive StrategyError :=
| ErrInvalidStrategy (t : string)
| ErrMinServingNegative
| ErrMinServingExceedsScale (minServing scale : Z)
| ErrMinServingDeadlock (minServing : Z) (blocker : string).

(** [UpdateStrategy.Validate]. *)
Definition Validate (u : option UpdateStrategy) : result StrategyError unit :=
  match u with
  | None => Ok tt
  | Some u =>
      if bool_decide (us_Type u = "") || bool_decide (us_Type u = UpdateRolling)
         || bool_decide (us_Type u = UpdateRecreate)
      then match us_MinServing u with
           | Some m => if m <? 0 then Err ErrMinServingNegative else Ok tt
           | None => Ok tt
           end
      else Err (ErrInvalidStrategy (us_Type u))
  end.

(** [UpdateStrategy.ValidateForService]. *)
Definition ValidateForService (u : option UpdateStrategy) (svc : option Service) : result StrategyError unit :=
  match u, svc with
  | Some u, Some s =>
      match us_MinServing u with
      | None => Ok tt
      | Some minServing =>
          if s_Scale s <? minServing then Err (ErrMinServingExceedsScale minServing (s_Scale s))
          else if (minServing =? s_Scale s) && negb (IsSurgeCapable svc)
          then Err (ErrMinServingDeadlock minServing (surgeBlocker s))
          else Ok tt
      end
  | _, _ => Ok tt
  end.

(** ** Derived parameters *)

Record UpdateParams := mkUpdateParams {
  p_Type : UpdateStrategyType;
  p_Extra : Z;
  p_Dip : Z;
  p_MinReady : Duration;
  p_StallDeadline : Duration;
  p_Drain : Duration;
}.

Definition ResolveUpdateParams (s : option Service) : UpdateParams :=
  let strategy := s ≫= s_UpdateStrategy in
  let ty := match strategy with
            | Some u => if bool_decide (us_Type u = "") then UpdateRolling else us_Type u
            | None => UpdateRolling
            end in
  let '(extra, dip) := if IsSurgeCapable s then (1, 0) else (0, 1) in
  let scale := match s with Some svc => s_Scale svc | None => 0 end in
  let dip := match strategy ≫= us_MinServing with
             | Some m => if dip <? scale - m then scale - m else dip
             | None => dip
             end in
  let '(extra, dip) := if bool_decide (ty = UpdateRecreate)
                       then (0, if scale <? 1 then 1 else scale)
                       else (extra, dip) in
  {| p_Type := ty;
     p_Extra := extra;
     p_Dip := dip;
     p_MinReady := if HasReadinessProbe s then 0 else MinReadySecondsWithoutProbe * Second;
     p_StallDeadline := UpdateStallSeconds * Second;
     p_Drain := DrainWindow s |}.

Definition RunsTwoCopiesDuringUpdate (s : option Service) : bool :=
  match s with
  | None => false
  | Some svc =>
      if negb (s_Scale svc =? 1) || negb (IsSurgeCapable s) then false
      else bool_decide (p_Type (ResolveUpdateParams s) = UpdateRolling)
  end.

(** ** Stall detection: high-water marks *)

Definition Progressed (u next : option UpdateStatus) : bool :=
  match u, next with
  | Some u, Some next =>
      (u_PeakUpdatedReady u <? u_UpdatedReady next) ||
      (u_PeakAvailable u <? u_Available next) ||
      (u_PeakUpdated u <? u_Updated next)
  | _, _ => true
  end.

Definition raise (v peak : Z) : Z := if peak <? v then v else peak.

Definition CarryPeaksFrom (next : UpdateStatus) (prev : option UpdateStatus) : UpdateStatus :=
  let '(pu, pr, pa) := match prev with
    | Some p => (u_PeakUpdated p, u_PeakUpdatedReady p, u_PeakAvailable p)
    | None => (u_PeakUpdated next, u_PeakUpdatedReady next, u_PeakAvailable next)
    end in
  {| u_TemplateGeneration := u_TemplateGeneration next;
     u_Desired := u_Desired next;
     u_Updated := u_Updated next;
     u_UpdatedReady := u_UpdatedReady next;
     u_Available := u_Available next;
     u_Outdated := u_Outdated next;
     u_StartedAt := u_StartedAt next;
     u_LastProgressAt := u_LastProgressAt next;
     u_Message := u_Message next;
     u_PeakUpdated := raise (u_Updated next) pu;
     u_PeakUpdatedReady := raise (u_UpdatedReady next) pr;
     u_PeakAvailable := raise (u_Available next) pa |}.
