(* ===== verification/Compat.v ===== *)
(** * Instance-versus-service classification (pkg/orchestrator/instance/instance_compat.go)

    Store-only pre-checks, then the runner observation, then the pure
    classifier.  The runner is the environment: [runner_env] holds what
    [runnerManager.GetInstanceRunner] and [runner.Status] answer for an
    instance, including the container id the Docker runner leaves on the
    in-hand record when it heals a stale mapping. *)

From stdpp Require Import pretty.
From S2P Require Import Prelude Types.

Inductive CompatClass := CompatOK | CompatBroken | CompatOutdated.

#[global] Instance CompatClass_eq_dec : EqDecision CompatClass.
Proof. solve_decision. Defined.

Record CompatVerdict := mkVerdict { cv_Class : CompatClass; cv_Reason : string }.

Definition Compatible (v : CompatVerdict) : bool := bool_decide (cv_Class v = CompatOK).

(** [instanceObservation]; a non-empty [brokenReason] is an observation that failed. *)
Record instanceObservation := mkObs { obs_status : InstanceStatus; obs_brokenReason : string }.

(** [preClassifyInstance]: [Some v] is [(v, true)], [None] is [done = false]. *)
Definition preClassifyInstance (instance : Instance) (service : Service) : option CompatVerdict :=
  if negb (bool_decide (i_ServiceID instance = s_ID service)) then
    Some (mkVerdict CompatBroken "instance belongs to different service")
  else if bool_decide (i_ContainerEverCreatedAt instance = None) &&
          (bool_decide (i_Status instance = InstanceStatusFailed) ||
           bool_decide (i_Status instance = InstanceStatusStalled)) then
    Some (mkVerdict CompatOK "")
  else if bool_decide (i_Status instance = InstanceStatusFailed) ||
          bool_decide (i_Status instance = InstanceStatusExited) ||
          bool_decide (i_Status instance = InstanceStatusUnknown) then
    Some (mkVerdict CompatBroken
            ("instance is in failed state: " +:+ InstanceStatus_string (i_Status instance)))
  else None.

(** ** Observing the runner *)

Record runner_env := mkRunnerEnv {
  GetInstanceRunner : Instance → result string unit;
  (** status reported, and the container it resolved to: its id, and its
      address when that could be read *)
  runner_Status : Instance → result string (InstanceStatus * (string * string));
}.

(** The record after [runner.Status]: a stale container id is replaced by the
    live container's, and the recorded address with it. *)
Definition healStaleContainerMapping (i : Instance) (live : string * string) : Instance :=
  if bool_decide (live.1 = i_ContainerID i) then i
  else
    let m := default (mkInstanceMetadata "" 0 None "" 0) (i_Metadata i) in
    {| i_ID := i_ID i; i_Namespace := i_Namespace i; i_Name := i_Name i;
       i_ServiceName := i_ServiceName i; i_ServiceID := i_ServiceID i; i_Status := i_Status i;
       i_StatusMessage := i_StatusMessage i; i_IP := i_IP i; i_ContainerID := live.1; i_PID := i_PID i;
       i_CreatedAt := i_CreatedAt i; i_UpdatedAt := i_UpdatedAt i;
       i_LastTransitionAt := i_LastTransitionAt i;
       i_Ready := i_Ready i; i_ReadyChangedAt := i_ReadyChangedAt i;
       i_ContainerEverCreatedAt := i_ContainerEverCreatedAt i;
       i_NextCreateAttemptAt := i_NextCreateAttemptAt i; i_FailedAt := i_FailedAt i;
       i_LastLogs := i_LastLogs i; i_Process := i_Process i;
       i_Resources := i_Resources i; i_Environment := i_Environment i;
       i_Metadata := Some (mkInstanceMetadata (im_Image m) (im_ServiceGeneration m) (im_DeletionTimestamp m)
                             (if bool_decide (live.2 = "") then im_ContainerIP m else live.2)
                             (im_RestartCount m)) |}.

(** [observeInstance]: the observation, the in-hand record after the call, and
    the record handed to [persistHealedContainerMapping], if any. *)
Definition observeInstance (env : runner_env) (instance : Instance)
    : instanceObservation * Instance * option Instance :=
  match GetInstanceRunner env instance with
  | Err e => (mkObs (InstanceStatusOther "") ("failed to get runner: " +:+ e), instance, None)
  | Ok _ =>
      match runner_Status env instance with
      | Err e => (mkObs (InstanceStatusOther "") ("instance not found in runner: " +:+ e), instance, None)
      | Ok (status, live) =>
          let instance' := healStaleContainerMapping instance live in
          let healed := negb (bool_decide (i_ContainerID instance' = i_ContainerID instance)) in
          (mkObs status "", instance', if healed then Some instance' else None)
      end
  end.

(** ** The pure classifier *)

Definition areStringSlicesEqual (a b : list string) : bool := bool_decide (a = b).

(** [len(key) > 5 && key[:5] == "RUNE_"]. *)
Definition runeInternalKey (key : string) : bool :=
  bool_decide (5 < String.length key)%nat && bool_decide (String.substring 0 5 key = "RUNE_").

(** The environment loop.  Go ranges over the map in an unspecified order: the
    verdict's class does not depend on it, the key named in the reason does. *)
Fixpoint envDrift (env : list (string * string)) (instanceEnv : gmap string string) : option string :=
  match env with
  | [] => None
  | (key, value) :: env =>
      if runeInternalKey key then envDrift env instanceEnv
      else match instanceEnv !! key with
           | Some v => if bool_decide (v = value) then envDrift env instanceEnv else Some key
           | None => Some key
           end
  end.

(** The Docker-specific template checks. *)
Definition dockerChecks (instance : Instance) (service : Service) : option CompatVerdict :=
  let image := match i_Metadata instance with
    | Some m =>
        if negb (bool_decide (im_Image m = "")) then
          if negb (bool_decide (im_Image m = s_Image service)) then
            Some ("image changed: " +:+ im_Image m +:+ " -> " +:+ s_Image service)
          else None
        else Some "cannot determine original image"
    | None => None
    end in
  let resources :=
    if negb (bool_decide (res_CPULimit (s_Resources service) = "")) ||
       negb (bool_decide (res_MemoryLimit (s_Resources service) = ""))
    then match i_Resources instance with
         | None => true
         | Some r =>
             negb (bool_decide (res_CPULimit r = res_CPULimit (s_Resources service))) ||
             negb (bool_decide (res_MemoryLimit r = res_MemoryLimit (s_Resources service)))
         end
    else false in
  match image with
  | Some reason => Some (mkVerdict CompatOutdated reason)
  | None =>
      if resources then Some (mkVerdict CompatOutdated "resource requirements changed")
      else match envDrift (map_to_list (s_Env service)) (i_Environment instance) with
           | Some key => Some (mkVerdict CompatOutdated
               ("environment variable " +:+ key +:+ " changed or missing"))
           | None => None
           end
  end.

(** The process-specific checks. *)
Definition processChecks (instance : Instance) (service : Service) : option CompatVerdict :=
  match i_Process instance, s_Process service with
  | Some ip, Some sp =>
      if negb (bool_decide (proc_Command ip = proc_Command sp)) ||
         negb (areStringSlicesEqual (proc_Args ip) (proc_Args sp))
      then Some (mkVerdict CompatOutdated "process command or arguments changed")
      else if negb (bool_decide (proc_WorkingDir ip = proc_WorkingDir sp))
      then Some (mkVerdict CompatOutdated "process working directory changed")
      else None
  | _, _ => None
  end.

(** The template-generation comparison.  [Err tt] is the nil dereference of
    [service.Metadata]. *)
Definition generationCheck (instance : Instance) (service : Service) : result unit (option CompatVerdict) :=
  match i_Metadata instance with
  | None => Ok None
  | Some im =>
      match s_Metadata service with
      | None => Err tt
      | Some md =>
          if negb (im_ServiceGeneration im =? 0) then
            if im_ServiceGeneration im <? md_TemplateGeneration md then
              Ok (Some (mkVerdict CompatOutdated
                ("service template changed: " +:+ pretty (im_ServiceGeneration im)
                 +:+ " -> " +:+ pretty (md_TemplateGeneration md))))
            else Ok None
          else if 0 <? md_TemplateGeneration md then
            Ok (Some (mkVerdict CompatOutdated "instance missing service template generation"))
          else Ok None
      end
  end.

Definition orElse {A} (o : option A) (k : option A) : option A :=
  match o with Some _ => o | None => k end.

(** [classifyObserved]. *)
Definition classifyObserved (instance : Instance) (service : Service) (obs : instanceObservation)
    : result unit CompatVerdict :=
  if negb (bool_decide (obs_brokenReason obs = "")) then
    Ok (mkVerdict CompatBroken (obs_brokenReason obs))
  else if bool_decide (obs_status obs = InstanceStatusExited) ||
          bool_decide (obs_status obs = InstanceStatusFailed) then
    Ok (mkVerdict CompatBroken "instance is in terminal state in the runner")
  else
    match generationCheck instance service with
    | Err e => Err e
    | Ok (Some v) => Ok v
    | Ok None =>
        let docker :=
          if negb (bool_decide (i_ContainerID instance = "")) && bool_decide (s_Runtime service = "docker")
          then dockerChecks instance service else None in
        let process :=
          if negb (i_PID instance =? 0) && bool_decide (s_Runtime service = "process")
          then processChecks instance service else None in
        Ok (default (mkVerdict CompatOK "") (orElse docker process))
    end.

(** [Controller.ClassifyInstance]: the verdict and the healed mapping persisted
    on the way, whatever the verdict. *)
Definition ClassifyInstance (env : runner_env) (instance : Instance) (service : Service)
    : result unit CompatVerdict * option Instance :=
  match preClassifyInstance instance service with
  | Some v => (Ok v, None)
  | None =>
      let '(obs, instance', healed) := observeInstance env instance in
      (classifyObserved instance' service obs, healed)
  end.

(** [Controller.IsInstanceCompatibleWithService]. *)
Definition IsInstanceCompatibleWithService (env : runner_env) (instance : Instance) (service : Service)
    : result unit (bool * string) :=
  match ClassifyInstance env instance service with
  | (Ok v, _) => Ok (Compatible v, cv_Reason v)
  | (Err e, _) => Err e
  end.
