(* ===== verification/UpdatePlan.v ===== *)
(** * The update planner (pkg/orchestrator/reconciler/update_plan.go) *)

From stdpp Require Import pretty.
From S2P Require Import Prelude Types UpdateStrategy Compat.

(** ** Instance views *)

Record instanceView := mkView {
  v_Instance : Instance;
  v_Class : CompatClass;
  v_Running : bool;
  v_Ready : bool;
  v_Available : bool;
  v_Terminating : bool;
}.

Definition v_ID (v : instanceView) : string := i_ID (v_Instance v).

Definition routed (v : instanceView) : bool := v_Running v && negb (v_Terminating v).

Definition serving (v : instanceView) : bool :=
  v_Available v && negb (v_Terminating v) && negb (bool_decide (v_Class v = CompatBroken)).

(** [newInstanceView]. *)
Definition newInstanceView (inst : Instance) (class : CompatClass) (minReady : Duration) (now : Time)
    : instanceView :=
  let running := bool_decide (i_Status inst = InstanceStatusRunning) in
  let ready := running && IsReady inst in
  let since := i_LastTransitionAt inst in
  let since := match i_ReadyChangedAt inst with
    | Some r => match since with
                | None => Some r
                | Some s => if After r s then Some r else Some s
                end
    | None => since
    end in
  let available := match since with
    | Some s => if ready && (0 <? minReady) then minReady <=? Sub now s else ready
    | None => ready
    end in
  {| v_Instance := inst;
     v_Class := class;
     v_Running := running;
     v_Ready := ready;
     v_Available := available;
     v_Terminating := bool_decide (i_Status inst = InstanceStatusTerminating) |}.

Record updateInput := mkInput {
  in_Scale : Z;
  in_Params : UpdateParams;
  in_Instances : list instanceView;
  in_Now : Time;
  in_CreatesBlocked : bool;
}.

Record updatePlan := mkPlan {
  plan_Create : Z;
  plan_Retire : list Instance;
  plan_Repair : list Instance;
  plan_Holding : bool;
  plan_Reason : string;
}.

(** ** Ranking *)

Definition splitByAvailability (vs : list instanceView) : list instanceView * list instanceView :=
  (List.filter (λ v, negb (serving v)) vs, List.filter serving vs).

(** The comparison of [sortOldestFirst]. *)
Definition olderFirst (a b : instanceView) : bool :=
  let a := v_Instance a in
  let b := v_Instance b in
  if negb (IsZero (i_CreatedAt a)) || negb (IsZero (i_CreatedAt b))
  then Before (i_CreatedAt a) (i_CreatedAt b)
  else String.ltb (i_Name a) (i_Name b).

Definition sortOldestFirst (vs : list instanceView) : list instanceView := SliceStable olderFirst vs.

Definition excessOrder (broken outdated current : list instanceView) : list instanceView :=
  let '(staleNotServing, staleServing) := splitByAvailability outdated in
  let '(freshNotServing, freshServing) := splitByAvailability current in
  broken ++ sortOldestFirst staleNotServing ++ sortOldestFirst freshNotServing ++
  sortOldestFirst staleServing ++ sortOldestFirst freshServing.

(** ** The retirement accumulator

    [plan.Retire] (kept as views until the plan is assembled) and the [retired]
    set of instance ids. *)

Record retirement := mkRetirement {
  ret_views : list instanceView;
  ret_ids : gset string;
}.

Definition no_retirement : retirement := mkRetirement [] ∅.

Definition retire (r : retirement) (v : instanceView) : retirement :=
  mkRetirement (ret_views r ++ [v]) ({[v_ID v]} ∪ ret_ids r).

Definition isRetired (r : retirement) (v : instanceView) : bool := bool_decide (v_ID v ∈ ret_ids r).

(** Step 1: retire down the ranking until the excess is spent. *)
Fixpoint retireExcess (excess : Z) (order : list instanceView) (r : retirement) : retirement :=
  match order with
  | [] => r
  | v :: order => if excess =? 0 then r else retireExcess (excess - 1) order (retire r v)
  end.

(** The recreate branch: retire every outdated instance. *)
Definition retireAll (vs : list instanceView) (r : retirement) : retirement := fold_left retire vs r.

(** Step 3: outdated instances the dataplane is not routing to. *)
Fixpoint retireUnrouted (vs : list instanceView) (r : retirement) : retirement :=
  match vs with
  | [] => r
  | v :: vs =>
      retireUnrouted vs (if negb (routed v) && negb (isRetired r v) then retire r v else r)
  end.

(** Step 3b: outdated instances withdrawn by their readiness probe. *)
Fixpoint retireUnready (unreadyBudget : Z) (vs : list instanceView) (r : retirement) : retirement :=
  match vs with
  | [] => r
  | v :: vs =>
      if unreadyBudget <=? 0 then r
      else if v_Running v && negb (v_Ready v) && negb (isRetired r v)
      then retireUnready (unreadyBudget - 1) vs (retire r v)
      else retireUnready unreadyBudget vs r
  end.

(** Step 4: the remaining outdated instances, up to the budget. *)
Fixpoint retireBudgeted (retireBudget : Z) (vs : list instanceView) (r : retirement) : retirement :=
  match vs with
  | [] => r
  | v :: vs => if retireBudget <=? 0 then r else retireBudgeted (retireBudget - 1) vs (retire r v)
  end.

(** ** Narration *)

Definition describePlan (plan : updatePlan) (outdated : Z) : string :=
  let retires := Z.of_nat (length (plan_Retire plan)) in
  let repairs := Z.of_nat (length (plan_Repair plan)) in
  if plan_Holding plan then "waiting for replacements to become ready"
  else if (0 <? plan_Create plan) && (0 <? retires) then
    "creating " +:+ pretty (plan_Create plan) +:+ " replacement(s), retiring "
    +:+ pretty retires +:+ " instance(s)"
  else if 0 <? plan_Create plan then
    "creating " +:+ pretty (plan_Create plan) +:+ " replacement(s); "
    +:+ pretty outdated +:+ " instance(s) still outdated"
  else if 0 <? retires then "retiring " +:+ pretty retires +:+ " instance(s)"
  else if 0 <? repairs then "replacing " +:+ pretty repairs +:+ " unhealthy instance(s)"
  else "".

(** ** planUpdate *)

Definition is_class (c : CompatClass) (v : instanceView) : bool := bool_decide (v_Class v = c).

(** The instances not already being torn down; every count is over these. *)
Definition standing (vs : list instanceView) : list instanceView :=
  List.filter (λ v, negb (v_Terminating v)) vs.

(** The surge allowance: [Extra] while an outdated instance is standing. *)
Definition surgeAllowance (inp : updateInput) : Z :=
  match List.filter (is_class CompatOutdated) (standing (in_Instances inp)) with
  | [] => 0
  | _ => p_Extra (in_Params inp)
  end.

(** Step 1 of [planUpdate]. *)
Definition planExcess (inp : updateInput) : retirement :=
  let st := standing (in_Instances inp) in
  let broken := List.filter (is_class CompatBroken) st in
  let outdated := List.filter (is_class CompatOutdated) st in
  let current := List.filter (is_class CompatOK) st in
  let excess := Z.of_nat (length st) - (in_Scale inp + surgeAllowance inp) in
  if 0 <? excess then retireExcess excess (excessOrder broken outdated current) no_retirement
  else no_retirement.

(** What survives step 1: the views, of which [live] is the number and
    [available] the number serving. *)
Definition survivors (inp : updateInput) (r : retirement) : list instanceView :=
  List.filter (λ v, negb (isRetired r v || v_Terminating v)) (in_Instances inp).

(** The budget of step 3b: replacements that may be waiting to serve. *)
Definition unreadyBudgetOf (inp : updateInput) (live : Z) (r : retirement) : Z :=
  let b := if p_Dip (in_Params inp) <? 1 then 1 else p_Dip (in_Params inp) in
  let missing := in_Scale inp - live in
  let b := if 0 <? missing then b - missing else b in
  b - countb (λ v, is_class CompatOK v && negb (v_Terminating v) && negb (isRetired r v)
                   && negb (serving v)) (in_Instances inp).

(** Step 2: the broken instances step 1 did not retire. *)
Definition planRepair (inp : updateInput) : list instanceView :=
  List.filter (λ v, negb (isRetired (planExcess inp) v))
    (List.filter (is_class CompatBroken) (standing (in_Instances inp))).

(** The recount over what survives step 1. *)
Definition left_of (inp : updateInput) : list instanceView := survivors inp (planExcess inp).
Definition live_of (inp : updateInput) : Z := Z.of_nat (length (left_of inp)).
Definition available_of (inp : updateInput) : Z := countb serving (left_of inp).
Definition liveOutdated_of (inp : updateInput) : list instanceView :=
  List.filter (is_class CompatOutdated) (left_of inp).

(** Step 3 of [planUpdate]. *)
Definition planUnrouted (inp : updateInput) : retirement :=
  retireUnrouted (liveOutdated_of inp) (planExcess inp).

(** Step 3b of [planUpdate]. *)
Definition planUnready (inp : updateInput) : retirement :=
  let r3 := planUnrouted inp in
  if in_CreatesBlocked inp then r3
  else retireUnready (unreadyBudgetOf inp (live_of inp) r3) (liveOutdated_of inp) r3.

(** Step 4 of [planUpdate]. *)
Definition planBudgeted (inp : updateInput) : retirement :=
  let r3b := planUnready inp in
  let budgeted := List.filter (λ v, negb (isRetired r3b v)) (liveOutdated_of inp) in
  let '(notYetAvailable, alreadyServing) := splitByAvailability budgeted in
  let ordered := sortOldestFirst notYetAvailable ++ sortOldestFirst alreadyServing in
  let retireBudget := available_of inp - (in_Scale inp - p_Dip (in_Params inp)) in
  retireBudgeted retireBudget ordered r3b.

(** Step 5 of [planUpdate]. *)
Definition planCreate (inp : updateInput) : Z :=
  let r4 := planBudgeted inp in
  let currentTemplate := countb (λ v, negb (isRetired r4 v) && negb (v_Terminating v)
                                      && is_class CompatOK v) (in_Instances inp) in
  let createBudget := in_Scale inp + surgeAllowance inp - live_of inp in
  let useful := in_Scale inp - currentTemplate - Z.of_nat (length (planRepair inp)) in
  let wanted := if useful <? createBudget then useful else createBudget in
  if 0 <? wanted then wanted else 0.

Definition planUpdate (inp : updateInput) : updatePlan :=
  let repair := v_Instance <$> planRepair inp in
  let liveOutdated := liveOutdated_of inp in
  let outdated := Z.of_nat (length liveOutdated) in
  if bool_decide (p_Type (in_Params inp) = UpdateRecreate) && negb (bool_decide (liveOutdated = []))
  then
    {| plan_Create := 0;
       plan_Retire := v_Instance <$> ret_views (retireAll liveOutdated (planExcess inp));
       plan_Repair := repair;
       plan_Holding := false;
       plan_Reason := "recreate: retiring " +:+ pretty outdated
                      +:+ " instance(s) before replacing them" |}
  else
    let create := planCreate inp in
    let retireList := v_Instance <$> ret_views (planBudgeted inp) in
    let holding := negb (bool_decide (liveOutdated = [])) && (create =? 0)
                   && bool_decide (retireList = []) in
    let plan := mkPlan create retireList repair holding "" in
    mkPlan create retireList repair holding (describePlan plan outdated).
