(* ===== verification/UpdatePlanProps.v ===== *)
(** * Facts about the planner's steps

    The retirement accumulator, the ranking and the counts over what is left:
    the lemmas the properties of [planUpdate] are assembled from. *)

From S2P Require Import Prelude Types UpdateStrategy Compat UpdatePlan.

(** ** Well-formed inputs

    Instance ids are the store's keys, so they are distinct; the readiness
    flags are nested the way [newInstanceView] computes them. *)

Record wf_view (v : instanceView) : Prop := {
  wf_available_ready : v_Available v = true → v_Ready v = true;
  wf_ready_running : v_Ready v = true → v_Running v = true;
  wf_running_standing : v_Running v = true → v_Terminating v = false;
}.

Record wf_input (inp : updateInput) : Prop := {
  wf_ids : NoDup (v_ID <$> in_Instances inp);
  wf_views : ∀ v, v ∈ in_Instances inp → wf_view v;
  wf_scale : 0 ≤ in_Scale inp;
  wf_extra : 0 ≤ p_Extra (in_Params inp);
  wf_dip : 0 ≤ p_Dip (in_Params inp);
}.

Lemma newInstanceView_wf inst class minReady now : wf_view (newInstanceView inst class minReady now).
Proof.
  unfold newInstanceView. split; simpl.
  - destruct (bool_decide _ && IsReady _); [done|].
    destruct (i_ReadyChangedAt inst), (i_LastTransitionAt inst); simpl; repeat case_match; done.
  - intros []%andb_prop. done.
  - intros ->%bool_decide_eq_true_1. done.
Qed.

Lemma serving_not_terminating v : serving v = true → v_Terminating v = false.
Proof. unfold serving. intros. bools. done. Qed.

Lemma serving_not_broken v : serving v = true → v_Class v ≠ CompatBroken.
Proof. unfold serving. intros. bools. done. Qed.

Lemma serving_ready v : wf_view v → serving v = true → v_Ready v = true.
Proof. unfold serving. intros ? ?. bools. by apply wf_available_ready. Qed.

Lemma serving_routed v : wf_view v → serving v = true → routed v = true.
Proof.
  intros Hwf Hs. unfold routed. rewrite (wf_ready_running _ Hwf) by eauto using serving_ready.
  by rewrite serving_not_terminating.
Qed.

(** ** The ranking *)

Lemma class_cases_perm vs :
  List.filter (is_class CompatBroken) vs ++ List.filter (is_class CompatOutdated) vs ++
  List.filter (is_class CompatOK) vs ≡ₚ vs.
Proof.
  induction vs as [|v vs IH]; [done|].
  assert (Hc : ∀ c, List.filter (is_class c) (v :: vs) =
    if decide (v_Class v = c) then v :: List.filter (is_class c) vs else List.filter (is_class c) vs).
  { intros c. simpl. unfold is_class at 1. case_decide; [by rewrite bool_decide_true|by rewrite bool_decide_false]. }
  rewrite !Hc. destruct (v_Class v); simpl.
  - rewrite app_assoc, <- Permutation_middle, <- app_assoc. by constructor.
  - by constructor.
  - rewrite <- Permutation_middle. by constructor.
Qed.

(** The ranking with its sorts left out of the order: non-serving instances
    first, then the serving ones. *)
Definition excess_front (broken outdated current : list instanceView) : list instanceView :=
  broken ++ sortOldestFirst (List.filter (λ v, negb (serving v)) outdated) ++
  sortOldestFirst (List.filter (λ v, negb (serving v)) current).

Definition excess_back (outdated current : list instanceView) : list instanceView :=
  sortOldestFirst (List.filter serving outdated) ++ sortOldestFirst (List.filter serving current).

Lemma excessOrder_split broken outdated current :
  excessOrder broken outdated current = excess_front broken outdated current ++ excess_back outdated current.
Proof. unfold excessOrder, excess_front, excess_back, splitByAvailability. by rewrite <- !app_assoc. Qed.

Lemma excessOrder_perm broken outdated current :
  excessOrder broken outdated current ≡ₚ broken ++ outdated ++ current.
Proof.
  unfold excessOrder, splitByAvailability, sortOldestFirst. simpl.
  rewrite !SliceStable_perm.
  rewrite (filter_split_perm serving outdated) at 3.
  rewrite (filter_split_perm serving current) at 3.
  solve_Permutation.
Qed.

Lemma excess_back_serving outdated current v : v ∈ excess_back outdated current → serving v = true.
Proof.
  unfold excess_back, sortOldestFirst. rewrite elem_of_app, !elem_of_SliceStable, !elem_of_filterb. tauto.
Qed.

Lemma excess_front_not_serving broken outdated current v :
  (∀ v, v ∈ broken → v_Class v = CompatBroken) →
  v ∈ excess_front broken outdated current → serving v = false.
Proof.
  intros Hb. unfold excess_front, sortOldestFirst.
  rewrite !elem_of_app, !elem_of_SliceStable, !elem_of_filterb, !negb_true_iff.
  intros [Hv|[[? _]|[? _]]]; [|done..].
  unfold serving. rewrite (Hb _ Hv). simpl. by rewrite andb_false_r.
Qed.

(** ** The accumulator

    [ret_ok pool r]: the id set is the ids of the views, without repetition,
    all taken from [pool]. *)

Record ret_ok (pool : list instanceView) (r : retirement) : Prop := {
  ro_ids : ret_ids r = list_to_set (v_ID <$> ret_views r);
  ro_nodup : NoDup (v_ID <$> ret_views r);
  ro_pool : ∀ v, v ∈ ret_views r → v ∈ pool;
}.

Lemma isRetired_iff pool r v : ret_ok pool r → isRetired r v = true ↔ v_ID v ∈ v_ID <$> ret_views r.
Proof. intros [Hi _ _]. unfold isRetired. rewrite bool_decide_eq_true, Hi. set_solver. Qed.

Lemma isRetired_false_iff pool r v : ret_ok pool r → isRetired r v = false ↔ v_ID v ∉ v_ID <$> ret_views r.
Proof. intros H. rewrite <- not_true_iff_false, (isRetired_iff _ _ _ H). done. Qed.

Lemma no_retirement_ok pool : ret_ok pool no_retirement.
Proof. split; simpl; [done|constructor|set_solver]. Qed.

Lemma retire_ok pool r v :
  ret_ok pool r → v ∈ pool → v_ID v ∉ v_ID <$> ret_views r → ret_ok pool (retire r v).
Proof.
  intros [Hi Hn Hp] Hv Hnot. split; simpl.
  - rewrite Hi, fmap_app. simpl. set_solver.
  - rewrite fmap_app. simpl. apply NoDup_app. split; [done|]. split; [|by apply NoDup_singleton].
    intros x Hx ->%list_elem_of_singleton. done.
  - intros w [Hw| ->%list_elem_of_singleton]%elem_of_app; [by apply Hp|done].
Qed.

(** [r'] retires, after what [r] retired, the views [ext], each satisfying [P]. *)
Definition extends (P : instanceView → Prop) (r r' : retirement) : Prop :=
  ∃ ext, ret_views r' = ret_views r ++ ext ∧ Forall P ext.

Lemma extends_refl P r : extends P r r.
Proof. exists []. rewrite app_nil_r. by split. Qed.

Lemma extends_retire (P : instanceView → Prop) r v r' :
  P v → extends P (retire r v) r' → extends P r r'.
Proof.
  intros Hv (ext & Heq & Hext). exists (v :: ext). rewrite Heq. simpl. rewrite <- app_assoc.
  split; [done|by constructor].
Qed.

Lemma retireUnrouted_spec pool vs r :
  ret_ok pool r → (∀ v, v ∈ vs → v ∈ pool) →
  ret_ok pool (retireUnrouted vs r) ∧
  extends (λ v, v ∈ vs ∧ routed v = false) r (retireUnrouted vs r).
Proof.
  revert r. induction vs as [|v vs IH]; intros r Hok Hp; simpl; [split; [done|apply extends_refl]|].
  assert (∀ r', ret_ok pool r' → ret_ok pool (retireUnrouted vs r') ∧
    extends (λ w, w ∈ v :: vs ∧ routed w = false) r' (retireUnrouted vs r')) as IH'.
  { intros r' Hr'. destruct (IH r' Hr') as [? (ext & ? & Hext)]; [set_solver|].
    split; [done|]. exists ext. split; [done|]. eapply Forall_impl; [exact Hext|]. set_solver. }
  destruct (negb (routed v) && negb (isRetired r v)) eqn:E; [|by apply IH'].
  bools. destruct (IH' (retire r v)) as [? ?].
  - apply retire_ok; [done|set_solver|]. by apply (isRetired_false_iff pool).
  - split; [done|]. eapply extends_retire; [|done]. set_solver.
Qed.

Lemma retireUnready_spec pool b vs r :
  ret_ok pool r → (∀ v, v ∈ vs → v ∈ pool) →
  ret_ok pool (retireUnready b vs r) ∧
  extends (λ v, v ∈ vs ∧ v_Ready v = false) r (retireUnready b vs r).
Proof.
  revert b r. induction vs as [|v vs IH]; intros b r Hok Hp; simpl; [split; [done|apply extends_refl]|].
  assert (∀ b r', ret_ok pool r' → ret_ok pool (retireUnready b vs r') ∧
    extends (λ w, w ∈ v :: vs ∧ v_Ready w = false) r' (retireUnready b vs r')) as IH'.
  { intros b' r' Hr'. destruct (IH b' r' Hr') as [? (ext & ? & Hext)]; [set_solver|].
    split; [done|]. exists ext. split; [done|]. eapply Forall_impl; [exact Hext|]. set_solver. }
  destruct (b <=? 0); [split; [done|apply extends_refl]|].
  destruct (v_Running v && negb (v_Ready v) && negb (isRetired r v)) eqn:E; [|by apply IH'].
  bools. destruct (IH' (b - 1) (retire r v)) as [? ?].
  - apply retire_ok; [done|set_solver|]. by apply (isRetired_false_iff pool).
  - split; [done|]. eapply extends_retire; [|done]. set_solver.
Qed.

(** Steps 1 and 4 retire a prefix of the list they walk. *)
Lemma retireExcess_views e order r :
  0 ≤ e → ret_views (retireExcess e order r) = ret_views r ++ take (Z.to_nat e) order.
Proof.
  revert e r. induction order as [|v order IH]; intros e r He; simpl.
  - by rewrite take_nil, app_nil_r.
  - destruct (e =? 0) eqn:E; bools.
    + subst. by rewrite app_nil_r.
    + rewrite IH by lia. simpl. rewrite <- app_assoc.
      replace (Z.to_nat e) with (S (Z.to_nat (e - 1))) by lia. done.
Qed.

Lemma retireBudgeted_views b vs r :
  ret_views (retireBudgeted b vs r) = ret_views r ++ take (Z.to_nat b) vs.
Proof.
  revert b r. induction vs as [|v vs IH]; intros b r; simpl.
  - by rewrite take_nil, app_nil_r.
  - destruct (b <=? 0) eqn:E; bools.
    + replace (Z.to_nat b) with 0%nat by lia. by rewrite app_nil_r.
    + rewrite IH. simpl. rewrite <- app_assoc.
      replace (Z.to_nat b) with (S (Z.to_nat (b - 1))) by lia. done.
Qed.

Lemma retireAll_views vs r : ret_views (retireAll vs r) = ret_views r ++ vs.
Proof.
  unfold retireAll. revert r. induction vs as [|v vs IH]; intros r; simpl; [by rewrite app_nil_r|].
  rewrite IH. simpl. by rewrite <- app_assoc.
Qed.

(** The accumulator after retiring a fresh, duplicate-free list. *)
Lemma fold_retire_ok pool vs r :
  ret_ok pool r → (∀ v, v ∈ vs → v ∈ pool) →
  NoDup (v_ID <$> ret_views r ++ vs) → ret_ok pool (fold_left retire vs r).
Proof.
  revert r. induction vs as [|v vs IH]; intros r Hok Hp Hn; simpl; [done|].
  rewrite fmap_app, fmap_cons, NoDup_app in Hn. destruct Hn as (Hn1 & Hn2 & Hn3).
  apply IH.
  - apply retire_ok; [done|set_solver|]. intros Hin. eapply Hn2; [exact Hin|]. set_solver.
  - set_solver.
  - simpl. rewrite <- app_assoc, fmap_app, NoDup_app. done.
Qed.

Lemma retireExcess_fold e order r :
  0 ≤ e → retireExcess e order r = fold_left retire (take (Z.to_nat e) order) r.
Proof.
  revert e r. induction order as [|v order IH]; intros e r He; simpl.
  - by rewrite take_nil.
  - destruct (e =? 0) eqn:E; bools; [by subst|].
    rewrite IH by lia. replace (Z.to_nat e) with (S (Z.to_nat (e - 1))) by lia. done.
Qed.

Lemma retireBudgeted_fold b vs r : retireBudgeted b vs r = fold_left retire (take (Z.to_nat b) vs) r.
Proof.
  revert b r. induction vs as [|v vs IH]; intros b r; simpl.
  - by rewrite take_nil.
  - destruct (b <=? 0) eqn:E; bools.
    + by replace (Z.to_nat b) with 0%nat by lia.
    + rewrite IH. replace (Z.to_nat b) with (S (Z.to_nat (b - 1))) by lia. done.
Qed.

(** ** Counting over what is left *)

Lemma NoDup_ids_views vs : NoDup (v_ID <$> vs) → NoDup vs.
Proof. apply NoDup_fmap_1. Qed.

Lemma same_id_same_view vs v w : NoDup (v_ID <$> vs) → v ∈ vs → w ∈ vs → v_ID v = v_ID w → v = w.
Proof. apply NoDup_key_inj. Qed.

(** Removing retired instances removes exactly the retired ones from any count. *)
Lemma countb_not_retired f vs r :
  NoDup (v_ID <$> vs) → ret_ok vs r →
  countb (λ v, f v && negb (isRetired r v)) vs = countb f vs - countb f (ret_views r).
Proof.
  intros Hn Hok.
  assert (ret_views r ⊆+ vs) as Hsub.
  { apply NoDup_submseteq; [apply NoDup_ids_views, (ro_nodup _ _ Hok)|apply (ro_pool _ _ Hok)]. }
  apply submseteq_Permutation in Hsub as (rest & Hperm).
  assert (Hn' : NoDup (v_ID <$> ret_views r ++ rest)) by (by rewrite <- Hperm).
  rewrite fmap_app, NoDup_app in Hn'. destruct Hn' as (_ & Hdisj & _).
  rewrite (countb_perm _ _ _ Hperm), (countb_perm f _ _ Hperm), !countb_app.
  rewrite (countb_none _ (ret_views r)).
  - rewrite (countb_ext _ f rest); [lia|]. intros v Hv.
    assert (isRetired r v = false) as ->; [|apply andb_true_r].
    apply (isRetired_false_iff vs); [done|]. intros Hin.
    eapply Hdisj; [exact Hin|]. by apply list_elem_of_fmap_2.
  - intros v Hv. assert (isRetired r v = true) as ->; [|by rewrite andb_false_r].
    apply (isRetired_iff vs); [done|]. by apply list_elem_of_fmap_2.
Qed.

(** ** Step 1 as a whole *)

Definition excess_of (inp : updateInput) : Z :=
  Z.of_nat (length (standing (in_Instances inp))) - (in_Scale inp + surgeAllowance inp).

Definition order_of (inp : updateInput) : list instanceView :=
  let st := standing (in_Instances inp) in
  excessOrder (List.filter (is_class CompatBroken) st) (List.filter (is_class CompatOutdated) st)
              (List.filter (is_class CompatOK) st).

Lemma elem_of_standing vs v : v ∈ standing vs ↔ v ∈ vs ∧ v_Terminating v = false.
Proof. unfold standing. rewrite elem_of_filterb, negb_true_iff. tauto. Qed.

Lemma order_of_perm inp : order_of inp ≡ₚ standing (in_Instances inp).
Proof. unfold order_of. by rewrite excessOrder_perm, class_cases_perm. Qed.

Lemma planExcess_fold inp :
  planExcess inp = fold_left retire (take (Z.to_nat (excess_of inp)) (order_of inp)) no_retirement.
Proof.
  unfold planExcess. fold (excess_of inp). fold (order_of inp).
  destruct (0 <? excess_of inp) eqn:E; bools.
  - by rewrite retireExcess_fold by lia.
  - by replace (Z.to_nat (excess_of inp)) with 0%nat by lia.
Qed.

Lemma planExcess_views inp :
  ret_views (planExcess inp) = take (Z.to_nat (excess_of inp)) (order_of inp).
Proof. rewrite planExcess_fold. fold (retireAll (take (Z.to_nat (excess_of inp)) (order_of inp)) no_retirement). by rewrite retireAll_views. Qed.

Lemma standing_ids_nodup vs : NoDup (v_ID <$> vs) → NoDup (v_ID <$> standing vs).
Proof. apply NoDup_fmap_filterb. Qed.

Lemma planExcess_ok inp :
  NoDup (v_ID <$> in_Instances inp) → ret_ok (standing (in_Instances inp)) (planExcess inp).
Proof.
  intros Hn. rewrite planExcess_fold. apply fold_retire_ok.
  - apply no_retirement_ok.
  - intros v (i & Hi & _)%elem_of_take. rewrite <- order_of_perm. by eapply list_elem_of_lookup_2.
  - simpl. eapply sublist_NoDup; [|apply fmap_sublist, sublist_take].
    rewrite order_of_perm. by apply standing_ids_nodup.
Qed.

Lemma ret_ok_weaken pool pool' r : (∀ v, v ∈ pool → v ∈ pool') → ret_ok pool r → ret_ok pool' r.
Proof. intros Hsub [? ? Hp]. split; [done|done|]. intros v Hv. by apply Hsub, Hp. Qed.

Lemma ret_ok_instances inp r : ret_ok (standing (in_Instances inp)) r → ret_ok (in_Instances inp) r.
Proof. apply ret_ok_weaken. intros v [? _]%elem_of_standing. done. Qed.

Lemma countb_serving_standing vs : countb serving (standing vs) = countb serving vs.
Proof.
  unfold standing. rewrite countb_filter. apply countb_ext. intros v _.
  destruct (serving v) eqn:E; [|apply andb_false_r].
  by rewrite (serving_not_terminating _ E).
Qed.

(** How many serving instances step 1 retires: only those it cannot avoid. *)
Lemma planExcess_serving inp :
  0 ≤ in_Scale inp + surgeAllowance inp →
  countb serving (ret_views (planExcess inp)) =
  Z.max 0 (excess_of inp - (Z.of_nat (length (standing (in_Instances inp))) - countb serving (in_Instances inp))).
Proof.
  intros Hpos. rewrite planExcess_views.
  pose proof (order_of_perm inp) as Hperm. revert Hperm. unfold order_of. rewrite excessOrder_split.
  set (front := excess_front _ _ _). set (back := excess_back _ _). intros Hperm.
  assert (Hf : ∀ v, v ∈ front → serving v = false).
  { intros v. apply excess_front_not_serving. intros w [Hw _]%elem_of_filterb.
    by apply bool_decide_eq_true_1 in Hw. }
  assert (Hb : ∀ v, v ∈ back → serving v = true) by (intros v; apply excess_back_serving).
  assert (Hlen : (length (standing (in_Instances inp)) = length front + length back)%nat).
  { by rewrite <- Hperm, length_app. }
  assert (Hserv : countb serving (in_Instances inp) = Z.of_nat (length back)).
  { rewrite <- countb_serving_standing, <- (countb_perm serving _ _ Hperm), countb_app.
    rewrite (countb_none serving front Hf), (countb_all serving back Hb). lia. }
  rewrite countb_take_ordered; [|done|done|].
  - unfold excess_of in *. lia.
  - rewrite length_app. unfold excess_of. lia.
Qed.

Lemma planExcess_length inp :
  0 ≤ in_Scale inp + surgeAllowance inp →
  Z.of_nat (length (ret_views (planExcess inp))) = Z.max 0 (excess_of inp).
Proof.
  intros Hpos. rewrite planExcess_views, length_take, order_of_perm. unfold excess_of in *. lia.
Qed.

(** ** What survives step 1 *)

Lemma survivors_count f inp r :
  NoDup (v_ID <$> in_Instances inp) → ret_ok (standing (in_Instances inp)) r →
  countb f (survivors inp r) = countb f (standing (in_Instances inp)) - countb f (ret_views r).
Proof.
  intros Hn Hok. unfold survivors. rewrite countb_filter.
  rewrite <- (countb_not_retired f (standing (in_Instances inp)) r); [|by apply standing_ids_nodup|done].
  unfold standing. rewrite countb_filter. apply countb_ext. intros v _.
  destruct (isRetired r v), (v_Terminating v), (f v); done.
Qed.

Lemma survivors_length inp r :
  NoDup (v_ID <$> in_Instances inp) → ret_ok (standing (in_Instances inp)) r →
  Z.of_nat (length (survivors inp r)) =
  Z.of_nat (length (standing (in_Instances inp))) - Z.of_nat (length (ret_views r)).
Proof.
  intros Hn Hok. rewrite <- !(countb_all (λ _, true)) by done. by apply survivors_count.
Qed.

Lemma elem_of_survivors inp r v :
  v ∈ survivors inp r ↔ v ∈ in_Instances inp ∧ isRetired r v = false ∧ v_Terminating v = false.
Proof. unfold survivors. rewrite elem_of_filterb, negb_true_iff, orb_false_iff. tauto. Qed.

Lemma survivors_ids_nodup inp r : NoDup (v_ID <$> in_Instances inp) → NoDup (v_ID <$> survivors inp r).
Proof. apply NoDup_fmap_filterb. Qed.

(** ** Sample instances, for evaluating the planner on concrete fleets *)

Definition sample_instance (id : string) (status : InstanceStatus) (created : Time) : Instance :=
  {| i_ID := id; i_Namespace := "default"; i_Name := id; i_ServiceName := "svc"; i_ServiceID := "svc";
     i_Status := status; i_StatusMessage := ""; i_IP := ""; i_ContainerID := "c"; i_PID := 0;
     i_CreatedAt := created; i_UpdatedAt := created; i_LastTransitionAt := None;
     i_Ready := true; i_ReadyChangedAt := None; i_ContainerEverCreatedAt := Some created;
     i_NextCreateAttemptAt := None; i_FailedAt := None; i_LastLogs := "";
     i_Process := None; i_Resources := None; i_Environment := ∅; i_Metadata := None |}.

Definition sample_view (id : string) (created : Time) (c : CompatClass) : instanceView :=
  newInstanceView (sample_instance id InstanceStatusRunning created) c 0 0.

Definition sample_params (ty : UpdateStrategyType) (extra dip : Z) : UpdateParams :=
  {| p_Type := ty; p_Extra := extra; p_Dip := dip; p_MinReady := 0; p_StallDeadline := 0; p_Drain := 0 |}.

(** Two outdated, one broken and one current instance of a service at scale 3. *)
Definition sample_input (ty : UpdateStrategyType) : updateInput :=
  mkInput 3 (sample_params ty 1 1)
    [sample_view "a" 1 CompatOutdated; sample_view "b" 2 CompatOutdated;
     sample_view "c" 3 CompatBroken; sample_view "d" 4 CompatOK] 0 false.

Lemma sample_input_wf ty : wf_input (sample_input ty).
Proof.
  split; simpl; [|intros v Hv|lia..].
  - by apply (bool_decide_eq_true_1 (NoDup _)).
  - rewrite !elem_of_cons, elem_of_nil in Hv.
    destruct Hv as [->|[->|[->|[->|[]]]]]; apply newInstanceView_wf.
Qed.

(** ** Properties of the update planner *)

(** ** The rolling steps after the excess *)

Section Rolling.
Context (inp : updateInput) (Hwf : wf_input inp).
Let pool := standing (in_Instances inp).

Lemma liveOutdated_pool v : v ∈ liveOutdated_of inp → v ∈ pool.
Proof.
  unfold liveOutdated_of, left_of. rewrite elem_of_filterb, elem_of_survivors.
  intros (_ & ? & _ & ?). by apply elem_of_standing.
Qed.

Lemma planExcess_pool : ret_ok pool (planExcess inp).
Proof. apply planExcess_ok, Hwf. Qed.

Lemma pool_wf v : v ∈ pool → wf_view v ∧ v_Terminating v = false.
Proof. intros [? ?]%elem_of_standing. split; [by apply Hwf|done]. Qed.

Lemma planUnrouted_spec :
  ret_ok pool (planUnrouted inp) ∧
  extends (λ v, v ∈ liveOutdated_of inp ∧ routed v = false) (planExcess inp) (planUnrouted inp).
Proof. apply retireUnrouted_spec; [apply planExcess_pool|apply liveOutdated_pool]. Qed.

Lemma planUnready_spec :
  ret_ok pool (planUnready inp) ∧
  extends (λ v, v ∈ liveOutdated_of inp ∧ v_Ready v = false) (planUnrouted inp) (planUnready inp).
Proof.
  unfold planUnready. destruct planUnrouted_spec as [Hok _].
  destruct (in_CreatesBlocked inp); [split; [done|apply extends_refl]|].
  apply retireUnready_spec; [done|apply liveOutdated_pool].
Qed.

(** Steps 3 and 3b retire no serving instance. *)
Lemma planUnready_serving :
  countb serving (ret_views (planUnready inp)) = countb serving (ret_views (planExcess inp)).
Proof.
  destruct planUnready_spec as [_ (e2 & -> & He2)].
  destruct planUnrouted_spec as [_ (e1 & -> & He1)].
  rewrite !countb_app, (countb_none _ e1), (countb_none _ e2); [lia| |].
  - intros v Hv. rewrite Forall_forall in He2. destruct (He2 v Hv) as [Hin Hr].
    apply not_true_iff_false. intros Hs. apply serving_ready in Hs; [congruence|].
    by apply pool_wf, liveOutdated_pool.
  - intros v Hv. rewrite Forall_forall in He1. destruct (He1 v Hv) as [Hin Hr].
    apply not_true_iff_false. intros Hs. apply serving_routed in Hs; [congruence|].
    by apply pool_wf, liveOutdated_pool.
Qed.

(** The candidates of step 4, in the order they are taken. *)
Definition budgeted_order : list instanceView :=
  let budgeted := List.filter (λ v, negb (isRetired (planUnready inp) v)) (liveOutdated_of inp) in
  sortOldestFirst (List.filter (λ v, negb (serving v)) budgeted) ++ sortOldestFirst (List.filter serving budgeted).

Definition retire_budget : Z := available_of inp - (in_Scale inp - p_Dip (in_Params inp)).

Lemma planBudgeted_fold :
  planBudgeted inp = fold_left retire (take (Z.to_nat retire_budget) budgeted_order) (planUnready inp).
Proof. unfold planBudgeted, splitByAvailability. by rewrite retireBudgeted_fold. Qed.

Lemma budgeted_order_perm :
  budgeted_order ≡ₚ List.filter (λ v, negb (isRetired (planUnready inp) v)) (liveOutdated_of inp).
Proof.
  unfold budgeted_order, sortOldestFirst. rewrite !SliceStable_perm.
  rewrite Permutation_app_comm. symmetry. apply filter_split_perm.
Qed.

Lemma elem_of_budgeted_order v :
  v ∈ budgeted_order ↔ v ∈ liveOutdated_of inp ∧ isRetired (planUnready inp) v = false.
Proof. rewrite budgeted_order_perm, elem_of_filterb, negb_true_iff. tauto. Qed.

Lemma liveOutdated_ids_nodup : NoDup (v_ID <$> liveOutdated_of inp).
Proof. apply NoDup_fmap_filterb, survivors_ids_nodup, Hwf. Qed.

Lemma budgeted_order_ids_nodup : NoDup (v_ID <$> budgeted_order).
Proof. rewrite budgeted_order_perm. apply NoDup_fmap_filterb, liveOutdated_ids_nodup. Qed.

Lemma planBudgeted_views :
  ret_views (planBudgeted inp) = ret_views (planUnready inp) ++ take (Z.to_nat retire_budget) budgeted_order.
Proof. rewrite planBudgeted_fold. apply retireAll_views. Qed.

Lemma planBudgeted_ok : ret_ok pool (planBudgeted inp).
Proof.
  destruct planUnready_spec as [Hok _]. rewrite planBudgeted_fold. apply fold_retire_ok; [done| |].
  - intros v (i & Hi & _)%elem_of_take. apply list_elem_of_lookup_2, elem_of_budgeted_order in Hi as [Hi _].
    by apply liveOutdated_pool.
  - rewrite fmap_app. apply NoDup_app. split; [apply Hok|]. split.
    + intros id Hid (w & -> & Hw)%list_elem_of_fmap.
      apply elem_of_take in Hw as (i & Hi & _). apply list_elem_of_lookup_2, elem_of_budgeted_order in Hi as [_ Hw].
      by apply (isRetired_false_iff pool) in Hw.
    + eapply sublist_NoDup; [apply budgeted_order_ids_nodup|]. apply fmap_sublist, sublist_take.
Qed.

End Rolling.

(** ** The properties *)

(** The serving instances that remain once every retirement of the plan is done. *)
Definition serving_after (inp : updateInput) (plan : updatePlan) : Z :=
  countb (λ v, serving v && negb (bool_decide (v_ID v ∈ i_ID <$> plan_Retire plan))) (in_Instances inp).

Lemma serving_after_retired inp r plan :
  plan_Retire plan = v_Instance <$> ret_views r → ret_ok (in_Instances inp) r →
  NoDup (v_ID <$> in_Instances inp) →
  serving_after inp plan = countb serving (in_Instances inp) - countb serving (ret_views r).
Proof.
  intros Heq Hok Hn. rewrite <- countb_not_retired by done. unfold serving_after. apply countb_ext.
  intros v _. f_equal. f_equal. rewrite Heq, <- list_fmap_compose.
  destruct (isRetired r v) eqn:E.
  - apply bool_decide_eq_true_2. by apply (isRetired_iff (in_Instances inp)) in E.
  - apply bool_decide_eq_false_2. by apply (isRetired_false_iff (in_Instances inp)) in E.
Qed.

Lemma allowance_nonneg inp : wf_input inp → 0 ≤ surgeAllowance inp.
Proof. intros Hwf. unfold surgeAllowance. case_match; [lia|apply Hwf]. Qed.

Lemma rolling_retire inp :
  p_Type (in_Params inp) ≠ UpdateRecreate →
  plan_Retire (planUpdate inp) = v_Instance <$> ret_views (planBudgeted inp).
Proof. intros Hty. unfold planUpdate. rewrite (bool_decide_false _ Hty). done. Qed.

Lemma available_of_eq inp : wf_input inp →
  available_of inp = countb serving (in_Instances inp) - countb serving (ret_views (planExcess inp)).
Proof.
  intros Hwf. unfold available_of, left_of.
  rewrite survivors_count; [|apply Hwf|apply planExcess_ok, Hwf].
  by rewrite countb_serving_standing.
Qed.

Lemma rolling_floor inp :
  wf_input inp → p_Type (in_Params inp) ≠ UpdateRecreate →
  Z.min (countb serving (in_Instances inp)) (in_Scale inp - p_Dip (in_Params inp))
  ≤ serving_after inp (planUpdate inp).
Proof.
  intros Hwf Hty.
  rewrite (serving_after_retired _ (planBudgeted inp)); [|by apply rolling_retire|
    by apply ret_ok_instances, planBudgeted_ok|apply Hwf].
  rewrite planBudgeted_views by done. rewrite countb_app, planUnready_serving by done.
  pose proof (countb_le_length serving (take (Z.to_nat (retire_budget inp)) (budgeted_order inp))) as Hle.
  rewrite length_take in Hle. unfold retire_budget in *. rewrite available_of_eq in * by done.
  pose proof (allowance_nonneg _ Hwf). pose proof (wf_scale _ Hwf). pose proof (wf_dip _ Hwf).
  rewrite planExcess_serving in * by lia. unfold excess_of in *. lia.
Qed.

(** C1: the availability floor.  Executing every retirement of a rolling plan
    leaves at least [Scale - Dip] instances serving, or all of those that were
    serving when fewer were. *)
Theorem planUpdate_floor inp :
  wf_input inp → p_Type (in_Params inp) ≠ UpdateRecreate →
  Z.min (countb serving (in_Instances inp)) (in_Scale inp - p_Dip (in_Params inp))
  ≤ serving_after inp (planUpdate inp).
Proof. apply rolling_floor. Qed.

Lemma planUpdate_floor_witness :
  countb serving (in_Instances (sample_input UpdateRolling)) = 3 ∧
  2 ≤ serving_after (sample_input UpdateRolling) (planUpdate (sample_input UpdateRolling)).
Proof.
  split; [vm_compute; reflexivity|].
  exact (planUpdate_floor (sample_input UpdateRolling) (sample_input_wf _) ltac:(discriminate)).
Defined.

Lemma live_of_eq inp : wf_input inp →
  live_of inp = Z.of_nat (length (standing (in_Instances inp))) - Z.max 0 (excess_of inp).
Proof.
  intros Hwf. unfold live_of, left_of.
  rewrite survivors_length; [|apply Hwf|apply planExcess_ok, Hwf].
  rewrite planExcess_length; [done|]. pose proof (allowance_nonneg _ Hwf). pose proof (wf_scale _ Hwf). lia.
Qed.

(** The current-template instances the plan leaves alone. *)
Definition current_after (inp : updateInput) : Z :=
  countb (λ v, negb (isRetired (planBudgeted inp) v) && negb (v_Terminating v) && is_class CompatOK v)
         (in_Instances inp).

Lemma planUpdate_create inp :
  plan_Create (planUpdate inp) = 0 ∨ plan_Create (planUpdate inp) = planCreate inp.
Proof. unfold planUpdate. case_match; auto. Qed.

(** C13: the surge cap.  Even if every creation lands before a single step-3 or
    step-4 retirement has finished, no more than [Scale] plus the allowance
    (which is [Extra] while an outdated instance stands, and 0 otherwise)
    instances exist; and a plan never provisions past [Scale]
    current-template instances, counting the repairs it also makes. *)
Theorem planUpdate_surge_cap inp :
  wf_input inp →
  live_of inp + plan_Create (planUpdate inp) ≤ in_Scale inp + surgeAllowance inp ∧
  0 ≤ surgeAllowance inp ≤ p_Extra (in_Params inp) ∧
  (0 < plan_Create (planUpdate inp) →
   current_after inp + Z.of_nat (length (plan_Repair (planUpdate inp)))
   + plan_Create (planUpdate inp) ≤ in_Scale inp).
Proof.
  intros Hwf. pose proof (allowance_nonneg _ Hwf). pose proof (wf_scale _ Hwf).
  pose proof (live_of_eq _ Hwf) as Hl. unfold excess_of in Hl.
  assert (Hrep : length (plan_Repair (planUpdate inp)) = length (planRepair inp)).
  { unfold planUpdate. case_match; simpl; by rewrite length_fmap. }
  rewrite Hrep. split_and!.
  - destruct (planUpdate_create inp) as [-> | ->]; [lia|]. unfold planCreate. repeat case_match; bools; lia.
  - lia.
  - unfold surgeAllowance. case_match; [apply Hwf|lia].
  - destruct (planUpdate_create inp) as [-> | ->]; [lia|]. unfold planCreate. fold (current_after inp).
    intros Hpos. repeat case_match; bools; lia.
Qed.

Lemma planUpdate_surge_cap_witness :
  live_of (sample_input UpdateRolling) = 4 ∧
  live_of (sample_input UpdateRolling) + plan_Create (planUpdate (sample_input UpdateRolling)) ≤ 4.
Proof.
  split; [vm_compute; reflexivity|].
  exact (proj1 (planUpdate_surge_cap (sample_input UpdateRolling) (sample_input_wf _))).
Defined.

(** ** Shape of the plan *)

Lemma planRepair_elem inp v :
  v ∈ planRepair inp →
  v ∈ standing (in_Instances inp) ∧ v_Class v = CompatBroken ∧ isRetired (planExcess inp) v = false.
Proof.
  unfold planRepair. rewrite !elem_of_filterb, negb_true_iff. intros (? & Hc & ?).
  by apply bool_decide_eq_true_1 in Hc.
Qed.

(** Every retirement list of a plan is the excess followed by outdated instances. *)
Lemma plan_retire_shape inp : wf_input inp →
  ∃ r, plan_Retire (planUpdate inp) = v_Instance <$> ret_views r ∧
       ret_ok (standing (in_Instances inp)) r ∧
       extends (λ v, v ∈ liveOutdated_of inp) (planExcess inp) r.
Proof.
  intros Hwf. unfold planUpdate. case_match.
  - exists (retireAll (liveOutdated_of inp) (planExcess inp)). split; [done|]. split.
    + apply fold_retire_ok; [by apply planExcess_pool|apply liveOutdated_pool|].
      rewrite fmap_app. apply NoDup_app. split_and!.
      * apply planExcess_pool; done.
      * intros id Hid (w & -> & Hw)%list_elem_of_fmap.
        unfold liveOutdated_of, left_of in Hw. rewrite elem_of_filterb, elem_of_survivors in Hw.
        destruct Hw as (_ & _ & Hw & _). by apply (isRetired_false_iff _ _ _ (planExcess_pool _ Hwf)) in Hw.
      * by apply liveOutdated_ids_nodup.
    + exists (liveOutdated_of inp). split; [apply retireAll_views|]. by apply Forall_forall.
  - exists (planBudgeted inp). split; [done|]. split; [by apply planBudgeted_ok|].
    destruct (planUnready_spec inp Hwf) as [_ (e2 & He2 & Hf2)].
    destruct (planUnrouted_spec inp Hwf) as [_ (e1 & He1 & Hf1)].
    exists (e1 ++ e2 ++ take (Z.to_nat (retire_budget inp)) (budgeted_order inp)).
    split; [rewrite planBudgeted_views, He2, He1 by done; by rewrite <- !app_assoc|].
    rewrite !Forall_app. split_and!.
    + eapply Forall_impl; [exact Hf1|]. naive_solver.
    + eapply Forall_impl; [exact Hf2|]. naive_solver.
    + apply Forall_take, Forall_forall. intros v [? _]%elem_of_budgeted_order. done.
Qed.

Lemma map_ids_views (vs : list instanceView) : i_ID <$> (v_Instance <$> vs) = v_ID <$> vs.
Proof. by rewrite <- list_fmap_compose. Qed.

(** A plan acts at most once on an instance.  The ids of [Retire] and
    [Repair] together are distinct, each names an input instance that is not
    already terminating, and exactly the repaired ones may be ones that serve
    nobody: they are classified broken. *)
Theorem planUpdate_acts_once inp :
  wf_input inp →
  NoDup (i_ID <$> plan_Retire (planUpdate inp) ++ plan_Repair (planUpdate inp)) ∧
  (∀ i, i ∈ plan_Retire (planUpdate inp) ++ plan_Repair (planUpdate inp) →
     ∃ v, v ∈ in_Instances inp ∧ v_Instance v = i ∧ v_Terminating v = false) ∧
  (∀ i, i ∈ plan_Repair (planUpdate inp) →
     ∃ v, v ∈ in_Instances inp ∧ v_Instance v = i ∧ v_Class v = CompatBroken).
Proof.
  intros Hwf. destruct (plan_retire_shape inp Hwf) as (r & -> & Hok & ext & Hext & Hout).
  assert (Hrep : plan_Repair (planUpdate inp) = v_Instance <$> planRepair inp)
    by (unfold planUpdate; by case_match).
  rewrite Hrep. split_and!.
  - rewrite fmap_app, !map_ids_views. apply NoDup_app. split_and!.
    + apply Hok.
    + intros id (w & -> & Hw)%list_elem_of_fmap (v & Hid & Hv)%list_elem_of_fmap.
      apply planRepair_elem in Hv as (Hst & Hb & Hnot).
      assert (w = v) as -> by (eapply same_id_same_view;
        [apply standing_ids_nodup, (wf_ids _ Hwf)|by apply (ro_pool _ _ Hok)|done|done]).
      rewrite Hext in Hw. apply elem_of_app in Hw as [Hw|Hw].
      * apply (isRetired_false_iff _ _ _ (planExcess_pool _ Hwf)) in Hnot. apply Hnot.
        by apply list_elem_of_fmap_2.
      * rewrite Forall_forall in Hout. specialize (Hout _ Hw).
        unfold liveOutdated_of in Hout. apply elem_of_filterb in Hout as [Hc _].
        apply bool_decide_eq_true_1 in Hc. congruence.
    + apply NoDup_fmap_filterb, NoDup_fmap_filterb, standing_ids_nodup, Hwf.
  - intros i [Hi|Hi]%elem_of_app; apply list_elem_of_fmap in Hi as (v & -> & Hv); exists v.
    + apply (ro_pool _ _ Hok), elem_of_standing in Hv as [? ?]. done.
    + apply planRepair_elem in Hv as ([? ?]%elem_of_standing & _). done.
  - intros i (v & -> & Hv)%list_elem_of_fmap. exists v.
    apply planRepair_elem in Hv as ([? ?]%elem_of_standing & ? & _). done.
Qed.

Lemma planUpdate_acts_once_witness :
  (i_ID <$> plan_Retire (planUpdate (sample_input UpdateRolling)) ++ plan_Repair (planUpdate (sample_input UpdateRolling)))
    = ["a"; "c"] ∧
  NoDup (i_ID <$> plan_Retire (planUpdate (sample_input UpdateRolling)) ++ plan_Repair (planUpdate (sample_input UpdateRolling))).
Proof.
  split; [vm_compute; reflexivity|].
  exact (proj1 (planUpdate_acts_once (sample_input UpdateRolling) (sample_input_wf _))).
Defined.

(** Recreate takes the whole outdated set down before it creates
    anything: while an outdated instance survives the excess step, the plan
    retires every one of them and creates nothing. *)
Theorem planUpdate_recreate inp :
  wf_input inp → p_Type (in_Params inp) = UpdateRecreate → liveOutdated_of inp ≠ [] →
  plan_Create (planUpdate inp) = 0 ∧ plan_Holding (planUpdate inp) = false ∧
  ∀ v, v ∈ in_Instances inp → v_Class v = CompatOutdated → v_Terminating v = false →
       v_Instance v ∈ plan_Retire (planUpdate inp).
Proof.
  intros Hwf Hty Hne. unfold planUpdate.
  rewrite (bool_decide_true _ Hty), (bool_decide_false _ Hne). simpl. split_and!; [done|done|].
  intros v Hv Hc Hst. apply list_elem_of_fmap_2. rewrite retireAll_views, elem_of_app.
  destruct (isRetired (planExcess inp) v) eqn:E.
  - left. apply (isRetired_iff _ _ _ (planExcess_pool _ Hwf)) in E.
    apply list_elem_of_fmap in E as (w & Hid & Hw).
    assert (v = w) as ->; [|done].
    eapply same_id_same_view; [apply Hwf|done| |done].
    by apply (ro_pool _ _ (planExcess_pool _ Hwf)), elem_of_standing in Hw as [? _].
  - right. unfold liveOutdated_of, left_of. rewrite elem_of_filterb, elem_of_survivors.
    split; [by apply bool_decide_eq_true_2|done].
Qed.

Lemma planUpdate_recreate_witness :
  (i_ID <$> plan_Retire (planUpdate (sample_input UpdateRecreate))) = ["a"; "b"] ∧
  plan_Create (planUpdate (sample_input UpdateRecreate)) = 0.
Proof.
  split; [vm_compute; reflexivity|].
  refine (proj1 (planUpdate_recreate (sample_input UpdateRecreate) (sample_input_wf _) eq_refl _)).
  vm_compute. discriminate.
Defined.
