(* ===== verification/UpdateConverge.v ===== *)
(** * Rolling updates terminate

    A closed-loop argument about [planUpdate]: the reconciler executes a plan,
    the replacements it created become ready before the next tick, and the
    planner runs again.  Under that assumption every rolling update reaches the
    desired scale on the current template in a bounded number of ticks, and the
    planner then plans nothing. *)

From S2P Require Import Prelude Types UpdateStrategy Compat UpdatePlan UpdatePlanProps.

(** ** The closed loop *)

(** Every instance is serving: none is broken, terminating, or waiting. *)
Definition settled (vs : list instanceView) : Prop := ∀ v, v ∈ vs → serving v = true ∧ wf_view v.

Definition loop_input (scale : Z) (params : UpdateParams) (now : Time) (vs : list instanceView) : updateInput :=
  mkInput scale params vs now false.

(** One tick of a responsive environment: creates are not blocked ([loop_input]),
    retired instances are gone by the next pass, and as many new ones as the
    plan creates (or repairs) have come up on the current template and serve. *)
Inductive tick (scale : Z) (params : UpdateParams) (vs : list instanceView) : list instanceView → Prop :=
| tick_intro now fresh :
    let plan := planUpdate (loop_input scale params now vs) in
    let vs' := List.filter (λ v, negb (bool_decide (v_ID v ∈ i_ID <$> plan_Retire plan))) vs ++ fresh in
    (∀ v, v ∈ fresh → serving v = true ∧ wf_view v ∧ v_Class v = CompatOK) →
    Z.of_nat (length fresh) = plan_Create plan + Z.of_nat (length (plan_Repair plan)) →
    NoDup (v_ID <$> vs') →
    tick scale params vs vs'.

Inductive ticks (scale : Z) (params : UpdateParams) : nat → list instanceView → list instanceView → Prop :=
| ticks_O vs : ticks scale params 0 vs vs
| ticks_S n vs1 vs2 vs3 : tick scale params vs1 vs2 → ticks scale params n vs2 vs3 →
    ticks scale params (S n) vs1 vs3.

Definition outdated_count (vs : list instanceView) : Z := countb (is_class CompatOutdated) vs.
Definition current_count (vs : list instanceView) : Z := countb (is_class CompatOK) vs.

(** ** One tick on counts *)

Section OneTick.
Context (scale : Z) (params : UpdateParams) (now : Time) (vs : list instanceView).
Context (Hset : settled vs) (Hids : NoDup (v_ID <$> vs)).
Context (Hscale : 0 ≤ scale) (Hextra : 0 ≤ p_Extra params) (Hdip : 0 ≤ p_Dip params).
Context (Hroll : p_Type params ≠ UpdateRecreate).
Let inp := loop_input scale params now vs.
Let o := outdated_count vs.
Let c := current_count vs.

Lemma loop_wf : wf_input inp.
Proof. split; simpl; [done|intros v Hv; by apply Hset|done|done|done]. Qed.

Lemma settled_class v : v ∈ vs → v_Class v = CompatOutdated ∨ v_Class v = CompatOK.
Proof.
  intros Hv. destruct (Hset v Hv) as [Hs%serving_not_broken _]. destruct (v_Class v); auto. done.
Qed.

Lemma settled_standing : standing vs = vs.
Proof.
  apply filterb_all. intros v Hv. destruct (Hset v Hv) as [Hs _].
  by rewrite (serving_not_terminating _ Hs).
Qed.

Lemma settled_total : Z.of_nat (length vs) = o + c.
Proof.
  unfold o, c, outdated_count, current_count. rewrite <- (countb_negb (is_class CompatOutdated) vs). f_equal.
  apply countb_ext. intros v Hv. unfold is_class. destruct (settled_class v Hv) as [-> | ->]; done.
Qed.

Lemma settled_broken : List.filter (is_class CompatBroken) vs = [].
Proof.
  apply filterb_none. intros v Hv. unfold is_class. by destruct (settled_class v Hv) as [-> | ->].
Qed.

Lemma settled_repair : planRepair inp = [].
Proof. unfold planRepair, inp. simpl. by rewrite settled_standing, settled_broken. Qed.

(** The allowance is granted exactly while an outdated instance is left. *)
Lemma settled_allowance : surgeAllowance inp = if o =? 0 then 0 else p_Extra params.
Proof.
  unfold surgeAllowance, inp. simpl. rewrite settled_standing.
  pose proof (countb_length_filter (is_class CompatOutdated) vs) as Hl.
  fold (outdated_count vs) in Hl. fold o in Hl.
  destruct (List.filter (is_class CompatOutdated) vs) as [|v l]; simpl in Hl.
  - by replace (o =? 0) with true by lia.
  - by replace (o =? 0) with false by lia.
Qed.

(** Step 1 takes the outdated instances first. *)
Lemma settled_order_split :
  ∃ l k, order_of inp = l ++ k ∧ Z.of_nat (length l) = o ∧
    (∀ v, v ∈ l → v_Class v = CompatOutdated) ∧ (∀ v, v ∈ k → v_Class v = CompatOK).
Proof.
  unfold order_of, inp. simpl. rewrite settled_standing, settled_broken. unfold excessOrder, splitByAvailability.
  assert (Hns : ∀ f, List.filter (λ v, negb (serving v)) (List.filter f vs) = []).
  { intros f. apply filterb_none. intros v [_ Hv]%elem_of_filterb. by destruct (Hset v Hv) as [-> _]. }
  assert (Hs : ∀ f, List.filter serving (List.filter f vs) = List.filter f vs).
  { intros f. apply filterb_all. intros v [_ Hv]%elem_of_filterb. by destruct (Hset v Hv) as [-> _]. }
  rewrite !Hns, !Hs. simpl. unfold sortOldestFirst at 1 2. simpl.
  eexists _, _. split; [done|]. split_and!.
  - unfold sortOldestFirst. rewrite SliceStable_length. apply countb_length_filter.
  - intros v. unfold sortOldestFirst. rewrite elem_of_SliceStable, elem_of_filterb.
    intros [Hc _]. by apply bool_decide_eq_true_1 in Hc.
  - intros v. unfold sortOldestFirst. rewrite elem_of_SliceStable, elem_of_filterb.
    intros [Hc _]. by apply bool_decide_eq_true_1 in Hc.
Qed.

Let e := Z.max 0 (excess_of inp).

Lemma settled_excess : e = Z.max 0 (o + c - (scale + if o =? 0 then 0 else p_Extra params)).
Proof.
  unfold e, excess_of. rewrite settled_allowance. simpl. rewrite settled_standing.
  by rewrite settled_total.
Qed.

Lemma excess_le : e ≤ o + c.
Proof.
  rewrite settled_excess. pose proof (countb_nonneg (is_class CompatOutdated) vs).
  pose proof (countb_nonneg (is_class CompatOK) vs).
  unfold o, c, outdated_count, current_count in *. case_match; lia.
Qed.

Lemma excess_current : countb (is_class CompatOK) (ret_views (planExcess inp)) = Z.max 0 (e - o).
Proof.
  rewrite planExcess_views. destruct settled_order_split as (l & k & Heq & Hl & Hol & Hok).
  pose proof (order_of_perm inp) as Hp. apply Permutation_length in Hp.
  simpl in Hp. rewrite settled_standing, Heq in Hp. rewrite Heq.
  rewrite countb_take_ordered.
  - rewrite Hl. unfold e. lia.
  - intros v Hv. unfold is_class. by rewrite (Hol v Hv).
  - intros v Hv. unfold is_class. by rewrite (Hok v Hv).
  - pose proof settled_total. pose proof excess_le. unfold e in *. lia.
Qed.

Lemma excess_outdated : countb (is_class CompatOutdated) (ret_views (planExcess inp)) = Z.min e o.
Proof.
  pose proof excess_current as Hc.
  assert (Hlen : Z.of_nat (length (ret_views (planExcess inp))) = e).
  { apply planExcess_length. rewrite settled_allowance. simpl. case_match; lia. }
  rewrite <- (countb_negb (is_class CompatOutdated)) in Hlen.
  rewrite (countb_ext (λ x, negb (is_class CompatOutdated x)) (is_class CompatOK)) in Hlen; [lia|].
  intros v Hv. assert (v ∈ vs) as Hin.
  { eapply (ro_pool _ _ (planExcess_ok inp Hids)), elem_of_standing in Hv as [? _]. done. }
  unfold is_class. by destruct (settled_class v Hin) as [-> | ->].
Qed.

Lemma left_count f : countb f (left_of inp) = countb f vs - countb f (ret_views (planExcess inp)).
Proof.
  unfold left_of. rewrite survivors_count; [|done|by apply planExcess_ok].
  unfold inp. simpl. by rewrite settled_standing.
Qed.

Lemma left_sub v : v ∈ left_of inp → v ∈ vs.
Proof. unfold left_of. rewrite elem_of_survivors. tauto. Qed.

Lemma extends_none (P : instanceView → Prop) r r' :
  (∀ v, ¬ P v) → extends P r r' → ret_views r' = ret_views r.
Proof.
  intros Hno (ext & -> & Hext). destruct ext as [|v ext]; [apply app_nil_r|].
  apply Forall_cons in Hext as [Hv _]. by apply Hno in Hv.
Qed.

(** Steps 3 and 3b find nothing to retire. *)
Lemma settled_unready : ret_views (planUnready inp) = ret_views (planExcess inp).
Proof.
  destruct (planUnready_spec inp loop_wf) as [_ H2]. destruct (planUnrouted_spec inp loop_wf) as [_ H1].
  assert (Hserv : ∀ v, v ∈ liveOutdated_of inp → serving v = true ∧ wf_view v).
  { intros v [_ Hv]%elem_of_filterb. by apply Hset, left_sub. }
  apply extends_none in H1, H2; [congruence| |].
  - intros v [Hv Hr]. destruct (Hserv v Hv) as [Hs Hw]. apply serving_ready in Hs; congruence.
  - intros v [Hv Hr]. destruct (Hserv v Hv) as [Hs Hw]. apply serving_routed in Hs; congruence.
Qed.

Lemma liveOutdated_length : Z.of_nat (length (liveOutdated_of inp)) = o - Z.min e o.
Proof.
  unfold liveOutdated_of. rewrite countb_length_filter, left_count, excess_outdated. done.
Qed.

Lemma budgeted_length : Z.of_nat (length (budgeted_order inp)) = o - Z.min e o.
Proof.
  rewrite budgeted_order_perm, <- liveOutdated_length. f_equal. f_equal.
  apply filterb_all. intros v [_ Hv]%elem_of_filterb. apply negb_true_iff.
  apply (isRetired_false_iff _ _ _ (proj1 (planUnready_spec inp loop_wf))).
  rewrite settled_unready. apply elem_of_survivors in Hv as (_ & Hv & _).
  by apply (isRetired_false_iff _ _ _ (planExcess_ok inp Hids)) in Hv.
Qed.

Lemma settled_available : available_of inp = o + c - e.
Proof.
  unfold available_of. rewrite left_count.
  rewrite !countb_all.
  - rewrite settled_total. f_equal. apply planExcess_length. rewrite settled_allowance. simpl. case_match; lia.
  - intros v Hv. apply Hset. eapply (ro_pool _ _ (planExcess_ok inp Hids)), elem_of_standing in Hv as [? _]. done.
  - intros v Hv. by apply Hset.
Qed.

Let b := Z.max 0 (o + c - e - (scale - p_Dip params)).

Lemma budgeted_outdated :
  countb (is_class CompatOutdated) (ret_views (planBudgeted inp)) = Z.min e o + Z.min b (o - Z.min e o) ∧
  countb (is_class CompatOK) (ret_views (planBudgeted inp)) = Z.max 0 (e - o).
Proof.
  assert (Hcl : ∀ v, v ∈ take (Z.to_nat (retire_budget inp)) (budgeted_order inp) → v_Class v = CompatOutdated).
  { intros v (i & Hi & _)%elem_of_take. apply list_elem_of_lookup_2, elem_of_budgeted_order in Hi as [Hi _].
    apply elem_of_filterb in Hi as [Hc _]. by apply bool_decide_eq_true_1 in Hc. }
  rewrite planBudgeted_views by apply loop_wf. rewrite !countb_app, settled_unready, excess_outdated, excess_current.
  rewrite (countb_all (is_class CompatOutdated) (take _ _)), (countb_none (is_class CompatOK) (take _ _)).
  - split; [|lia]. rewrite length_take. pose proof budgeted_length.
    unfold b, retire_budget. rewrite settled_available. simpl. lia.
  - intros v Hv. unfold is_class. by rewrite (Hcl v Hv).
  - intros v Hv. unfold is_class. by rewrite (Hcl v Hv).
Qed.

Let c1 := c - Z.max 0 (e - o).

Lemma settled_currentTemplate :
  countb (λ v, negb (isRetired (planBudgeted inp) v) && negb (v_Terminating v) && is_class CompatOK v) vs = c1.
Proof.
  unfold c1. destruct budgeted_outdated as [_ <-]. unfold c, current_count.
  rewrite <- (countb_not_retired (is_class CompatOK) vs); [|done|].
  - apply countb_ext. intros v Hv. destruct (Hset v Hv) as [Hs _].
    rewrite (serving_not_terminating _ Hs). destruct (isRetired _ v), (is_class CompatOK v); done.
  - apply (ret_ok_instances inp), planBudgeted_ok, loop_wf.
Qed.

Lemma settled_create :
  planCreate inp =
  Z.max 0 (Z.min (scale + (if o =? 0 then 0 else p_Extra params) - (o + c - e)) (scale - c1)).
Proof.
  pose proof settled_currentTemplate as Hcur.
  assert (Hlive : live_of inp = o + c - e).
  { rewrite live_of_eq by apply loop_wf. simpl. rewrite settled_standing, settled_total. done. }
  unfold planCreate. rewrite settled_repair, settled_allowance, Hlive.
  change (in_Instances inp) with vs. change (in_Scale inp) with scale. rewrite Hcur. simpl.
  repeat case_match; bools; lia.
Qed.

Let o' := o - (Z.min e o + Z.min b (o - Z.min e o)).
Let c' := c1 + planCreate inp.

Lemma rolling_create : plan_Create (planUpdate inp) = planCreate inp.
Proof. unfold planUpdate. by rewrite (bool_decide_false _ Hroll). Qed.

Lemma rolling_repair : plan_Repair (planUpdate inp) = [].
Proof.
  assert (H : plan_Repair (planUpdate inp) = v_Instance <$> planRepair inp) by (unfold planUpdate; case_match; done).
  by rewrite H, settled_repair.
Qed.

(** The views left by the plan's retirements, counted by class. *)
Lemma kept_count f :
  countb f (List.filter (λ v, negb (bool_decide (v_ID v ∈ i_ID <$> plan_Retire (planUpdate inp)))) vs)
  = countb f vs - countb f (ret_views (planBudgeted inp)).
Proof.
  pose proof (ret_ok_instances inp _ (planBudgeted_ok inp loop_wf)) as Hok.
  rewrite countb_filter, (rolling_retire inp Hroll).
  rewrite <- (countb_not_retired f vs (planBudgeted inp) Hids Hok). apply countb_ext. intros v _.
  rewrite <- list_fmap_compose. rewrite andb_comm. f_equal. f_equal.
  destruct (isRetired (planBudgeted inp) v) eqn:E.
  - apply (isRetired_iff _ _ _ Hok) in E. by apply bool_decide_eq_true_2.
  - apply (isRetired_false_iff _ _ _ Hok) in E. by apply bool_decide_eq_false_2.
Qed.

Section Fresh.
Context (fresh : list instanceView).
Context (Hfresh : ∀ v, v ∈ fresh → serving v = true ∧ wf_view v ∧ v_Class v = CompatOK).
Context (Hlen : Z.of_nat (length fresh) =
  plan_Create (planUpdate inp) + Z.of_nat (length (plan_Repair (planUpdate inp)))).
Let vs' :=
  List.filter (λ v, negb (bool_decide (v_ID v ∈ i_ID <$> plan_Retire (planUpdate inp)))) vs ++ fresh.

Lemma tick_settled : settled vs'.
Proof.
  intros v. unfold vs'. rewrite elem_of_app, elem_of_filterb. intros [[_ Hv]|Hv]; [by apply Hset|].
  destruct (Hfresh v Hv) as (? & ? & _). done.
Qed.

Lemma tick_outdated : outdated_count vs' = o'.
Proof.
  unfold outdated_count, vs'. rewrite countb_app, kept_count.
  destruct budgeted_outdated as [-> _].
  rewrite (countb_none (is_class CompatOutdated) fresh); [unfold o', o, outdated_count; lia|].
  intros v Hv. destruct (Hfresh v Hv) as (_ & _ & Hc). unfold is_class. by rewrite Hc.
Qed.

Lemma tick_current : current_count vs' = c'.
Proof.
  unfold current_count, vs'. rewrite countb_app, kept_count.
  destruct budgeted_outdated as [_ ->].
  rewrite (countb_all (is_class CompatOK) fresh).
  - rewrite Hlen, rolling_create, rolling_repair. unfold c', c1, c, current_count. simpl. lia.
  - intros v Hv. destruct (Hfresh v Hv) as (_ & _ & Hc). unfold is_class. by rewrite Hc.
Qed.
End Fresh.

(** Distance to the goal: the outdated instances still standing, the current
    ones still missing, and one tick to trim the surge. *)
Definition distance (o c : Z) : Z :=
  if o =? 0 then (if c =? scale then 0 else 1) else o + Z.max 0 (scale - c) + 1.

Lemma distance_decreases :
  1 ≤ p_Extra params + p_Dip params → 0 < distance o c → 0 ≤ distance o' c' < distance o c.
Proof.
  intros Hpos. unfold c'. rewrite settled_create.
  unfold o', b, c1. rewrite settled_excess.
  assert (0 ≤ o) by apply countb_nonneg. assert (0 ≤ c) by apply countb_nonneg.
  unfold distance. clearbody o c. clear -Hscale Hextra Hdip Hpos H H0.
  destruct (o =? 0) eqn:Eo; bools; [subst|]; repeat case_match; bools; lia.
Qed.

Lemma distance_zero_stays : distance o c = 0 → distance o' c' = 0.
Proof.
  unfold c'. rewrite settled_create. unfold o', b, c1. rewrite settled_excess.
  assert (0 ≤ o) by apply countb_nonneg. assert (0 ≤ c) by apply countb_nonneg.
  unfold distance. clearbody o c. clear -Hscale Hextra Hdip H H0.
  destruct (o =? 0) eqn:Eo; bools; [subst|]; repeat case_match; bools; lia.
Qed.

End OneTick.

(** ** Convergence *)

Section Converge.
Context (scale : Z) (params : UpdateParams).
Context (Hscale : 0 ≤ scale) (Hextra : 0 ≤ p_Extra params) (Hdip : 0 ≤ p_Dip params).
Context (Hroll : p_Type params ≠ UpdateRecreate) (Hprogress : 1 ≤ p_Extra params + p_Dip params).

Definition dist (vs : list instanceView) : Z := distance scale (outdated_count vs) (current_count vs).

Definition good (vs : list instanceView) : Prop := settled vs ∧ NoDup (v_ID <$> vs).

Lemma dist_nonneg vs : 0 ≤ dist vs.
Proof.
  unfold dist, distance. pose proof (countb_nonneg (is_class CompatOutdated) vs).
  unfold outdated_count. repeat case_match; lia.
Qed.

Lemma tick_good vs vs' : good vs → tick scale params vs vs' →
  good vs' ∧ (0 < dist vs → dist vs' < dist vs) ∧ (dist vs = 0 → dist vs' = 0).
Proof.
  intros [Hset Hids] Ht. destruct Ht as [now fresh plan vs' Hfresh Hlen Hids'].
  assert (Hn : settled vs') by (by eapply tick_settled).
  assert (Ho := tick_outdated scale params now vs Hset Hids Hscale Hextra Hdip Hroll fresh Hfresh).
  assert (Hc := tick_current scale params now vs Hset Hids Hscale Hextra Hdip Hroll fresh Hfresh Hlen).
  split; [done|]. unfold dist. subst vs' plan. rewrite Ho, Hc. split; intros Hd.
  - by apply distance_decreases.
  - by apply distance_zero_stays.
Qed.

Lemma ticks_good n vs vs' : good vs → ticks scale params n vs vs' →
  good vs' ∧ dist vs' ≤ Z.max 0 (dist vs - Z.of_nat n).
Proof.
  intros Hg Ht. induction Ht as [vs|n vs1 vs2 vs3 Ht _ IH].
  - split; [done|]. lia.
  - destruct (tick_good _ _ Hg Ht) as (Hg2 & Hdec & Hstay). destruct (IH Hg2) as [Hg3 Hd].
    split; [done|]. pose proof (dist_nonneg vs1). destruct (decide (dist vs1 = 0)) as [E|E].
    + rewrite (Hstay E) in Hd. lia.
    + lia.
Qed.

Lemma dist_zero vs : good vs → dist vs = 0 →
  outdated_count vs = 0 ∧ current_count vs = scale.
Proof.
  intros _. unfold dist, distance. pose proof (countb_nonneg (is_class CompatOutdated) vs).
  unfold outdated_count. repeat case_match; bools; lia.
Qed.

Lemma outdated_none vs v : outdated_count vs = 0 → v ∈ vs → v_Class v ≠ CompatOutdated.
Proof.
  intros H Hv Hc. enough (0 < outdated_count vs) by lia. apply countb_pos. exists v.
  split; [done|]. by apply bool_decide_eq_true_2.
Qed.

Lemma plan_at_goal now vs : good vs → dist vs = 0 →
  plan_Create (planUpdate (loop_input scale params now vs)) = 0 ∧
  plan_Retire (planUpdate (loop_input scale params now vs)) = [] ∧
  plan_Repair (planUpdate (loop_input scale params now vs)) = [] ∧
  plan_Holding (planUpdate (loop_input scale params now vs)) = false.
Proof.
  intros Hg Hd. destruct (dist_zero vs Hg Hd) as [Ho Hc]. destruct Hg as [Hset Hids].
  set (inp := loop_input scale params now vs).
  assert (Hlive : liveOutdated_of inp = []).
  { apply filterb_none. intros v Hv. unfold is_class. apply bool_decide_eq_false_2.
    apply (outdated_none vs); [done|]. by eapply left_sub. }
  assert (Hex : excess_of inp = 0).
  { unfold excess_of. unfold inp at 3. rewrite settled_allowance by done. simpl.
    rewrite settled_standing, settled_total by done. rewrite Ho, Hc. simpl. lia. }
  assert (Hret : plan_Retire (planUpdate inp) = []).
  { rewrite (rolling_retire inp Hroll), planBudgeted_views by (by apply loop_wf).
    unfold inp at 1. rewrite (settled_unready scale params now vs) by done. fold inp.
    rewrite planExcess_views, Hex.
    unfold budgeted_order, sortOldestFirst. rewrite Hlive. simpl.
    by destruct (Z.to_nat (retire_budget inp)). }
  split_and!; [|done|by apply rolling_repair|].
  - unfold inp. rewrite (rolling_create scale params now vs) by done. rewrite settled_create by done.
    rewrite settled_excess, Ho, Hc by done. simpl. lia.
  - unfold planUpdate. fold inp. rewrite Hlive, (bool_decide_false _ Hroll). done.
Qed.

(** A tick is always possible: the created instances take fresh ids. *)
Definition fresh_view (id : string) : instanceView := sample_view id 0 CompatOK.

Lemma tick_exists vs : good vs → ∃ vs', tick scale params vs vs'.
Proof.
  intros [Hset Hids].
  set (plan := planUpdate (loop_input scale params 0 vs)).
  set (kept := List.filter (λ v, negb (bool_decide (v_ID v ∈ i_ID <$> plan_Retire plan))) vs).
  set (ids := fresh_list (Z.to_nat (plan_Create plan)) (list_to_set (C := gset string) (v_ID <$> vs))).
  assert (Hids' : v_ID <$> (fresh_view <$> ids) = ids).
  { rewrite <- list_fmap_compose. apply list_fmap_id. }
  eexists. apply (tick_intro scale params vs 0 (fresh_view <$> ids)).
  - intros v (id & -> & _)%list_elem_of_fmap. split_and!; [done|apply newInstanceView_wf|done].
  - rewrite length_fmap. unfold ids. rewrite length_fresh_list. unfold plan.
    rewrite (rolling_repair scale params 0 vs Hset), (rolling_create scale params 0 vs Hroll).
    rewrite settled_create by done. simpl. lia.
  - fold plan kept. rewrite fmap_app, Hids'. apply NoDup_app. split_and!.
    + by apply NoDup_fmap_filterb.
    + intros id Hid Hf. apply fresh_list_is_fresh in Hf. apply Hf, elem_of_list_to_set.
      eapply elem_of_submseteq; [exact Hid|]. apply sublist_submseteq, fmap_sublist, sublist_filterb.
    + apply NoDup_fresh_list.
Qed.

Lemma ticks_exist n vs : good vs → ∃ vs', ticks scale params n vs vs'.
Proof.
  revert vs. induction n as [|n IH]; intros vs Hg; [by exists vs; constructor|].
  destruct (tick_exists vs Hg) as [vs2 Ht]. destruct (tick_good vs vs2 Hg Ht) as [Hg2 _].
  destruct (IH vs2 Hg2) as [vs3 Hts]. exists vs3. by econstructor.
Qed.

End Converge.

(** C2: rolling updates converge when the fleet follows the plans.  Assume the
    environment of [tick]: no create is ever blocked, and by the next pass every
    instance a plan retires is gone and as many instances as it creates or
    repairs have come up on the current template, under identifiers of their
    own, and serve; the template, the scale and the strategy stay as they are
    and nothing else comes or goes.  Then from any fleet whose instances all
    serve, with a strategy other than recreate that may add or remove at least
    one copy, every run of [o + Scale + 1] ticks ([o] outdated instances), and
    there is one, brings every instance to the current template at exactly the
    desired scale, and the planner then plans nothing and does not report itself
    blocked. *)
Theorem rolling_update_converges scale params n vs :
  0 ≤ scale → 0 ≤ p_Extra params → 0 ≤ p_Dip params → 1 ≤ p_Extra params + p_Dip params →
  p_Type params ≠ UpdateRecreate →
  settled vs → NoDup (v_ID <$> vs) →
  outdated_count vs + scale + 1 ≤ Z.of_nat n →
  (∃ vs', ticks scale params n vs vs') ∧
  ∀ vs', ticks scale params n vs vs' →
  (∀ v, v ∈ vs' → v_Class v = CompatOK) ∧ Z.of_nat (length vs') = scale ∧
  ∀ now, let plan := planUpdate (loop_input scale params now vs') in
    plan_Create plan = 0 ∧ plan_Retire plan = [] ∧ plan_Repair plan = [] ∧ plan_Holding plan = false.
Proof.
  intros Hscale Hextra Hdip Hprog Hroll Hset Hids Hn.
  split; [by apply ticks_exist|]. intros vs' Ht.
  destruct (ticks_good scale params Hscale Hextra Hdip Hroll Hprog n vs vs') as [Hg Hd]; [done|done|].
  assert (dist scale vs ≤ outdated_count vs + scale + 1) as Hbound.
  { unfold dist, distance. pose proof (countb_nonneg (is_class CompatOutdated) vs).
    pose proof (countb_nonneg (is_class CompatOK) vs). unfold outdated_count, current_count in *.
    repeat case_match; bools; lia. }
  assert (dist scale vs' = 0) as Hz by (pose proof (dist_nonneg scale vs'); lia).
  destruct (dist_zero scale vs' Hg Hz) as [Ho Hc]. destruct Hg as [Hset' Hids']. split_and!.
  - intros v Hv. destruct (settled_class vs' Hset' v Hv) as [Hcl|Hcl]; [|done].
    by destruct (outdated_none vs' v Ho Hv).
  - rewrite settled_total by done. lia.
  - intros now. by apply plan_at_goal.
Qed.

Lemma rolling_update_converges_witness :
  (∃ vs', ticks 2 (sample_params UpdateRolling 1 0) 5
            [sample_view "a" 1 CompatOutdated; sample_view "b" 2 CompatOutdated] vs') ∧
  ∀ vs', ticks 2 (sample_params UpdateRolling 1 0) 5
           [sample_view "a" 1 CompatOutdated; sample_view "b" 2 CompatOutdated] vs' →
         Z.of_nat (length vs') = 2.
Proof.
  pose proof (rolling_update_converges 2 (sample_params UpdateRolling 1 0) 5
    [sample_view "a" 1 CompatOutdated; sample_view "b" 2 CompatOutdated]) as H.
  destruct H as [Hex H]; try (simpl; lia); try done.
  - intros v. rewrite !elem_of_cons, elem_of_nil. intros [->|[->|[]]]; split; try done; apply newInstanceView_wf.
  - by apply (bool_decide_eq_true_1 (NoDup _)).
  - split; [exact Hex|]. intros vs' Ht. exact (proj1 (proj2 (H vs' Ht))).
Defined.
