(* ===== verification/StrategyProps.v ===== *)
(** * Properties of the update strategy and of instance classification *)

From S2P Require Import Prelude Types UpdateStrategy Compat.

(** ** Derived parameters *)

Section Resolve.
Context (s : option Service).

(** Surge and dip before recreate overrides them. *)
Lemma resolve_recreate :
  p_Type (ResolveUpdateParams s) = UpdateRecreate →
  p_Extra (ResolveUpdateParams s) = 0 ∧
  p_Dip (ResolveUpdateParams s) = Z.max 1 (from_option s_Scale 0 s).
Proof.
  unfold ResolveUpdateParams. destruct (IsSurgeCapable s); simpl;
    (case_bool_decide as Hty; simpl; [intros _|done]);
    (split; [done|]); unfold from_option; repeat case_match; bools; lia.
Qed.

Lemma resolve_bounds :
  0 ≤ p_Extra (ResolveUpdateParams s) ≤ 1 ∧ 0 ≤ p_Dip (ResolveUpdateParams s) ∧
  1 ≤ p_Extra (ResolveUpdateParams s) + p_Dip (ResolveUpdateParams s).
Proof.
  unfold ResolveUpdateParams. destruct (IsSurgeCapable s); simpl;
    case_bool_decide; simpl; repeat case_match; bools; lia.
Qed.

End Resolve.

(** The service passed the admission checks on its strategy. *)
Definition validated (svc : Service) : Prop :=
  Validate (s_UpdateStrategy svc) = Ok tt ∧
  ValidateForService (s_UpdateStrategy svc) (Some svc) = Ok tt.

(** The explicit availability floor, when it is set. *)
Definition MinServing (svc : Service) : option Z := s_UpdateStrategy svc ≫= us_MinServing.

(** What the admission checks establish about an explicit floor. *)
Lemma validated_range svc m :
  validated svc → MinServing svc = Some m →
  0 ≤ m ≤ s_Scale svc ∧ (IsSurgeCapable (Some svc) = false → m < s_Scale svc).
Proof.
  unfold validated, MinServing, Validate, ValidateForService.
  generalize (IsSurgeCapable (Some svc)). intros b.
  destruct (s_UpdateStrategy svc) as [u|] eqn:Eu; simpl; [|discriminate].
  intros [Hv Hf] Hm. rewrite Hm in Hv, Hf.
  destruct (bool_decide _ || bool_decide _ || bool_decide _); [|discriminate].
  destruct (m <? 0) eqn:?; [discriminate|]. destruct (s_Scale svc <? m) eqn:?; [discriminate|].
  destruct ((m =? s_Scale svc) && negb b) eqn:E; [discriminate|].
  bools. split; [lia|]. intros ->. rewrite andb_true_r in E. bools. lia.
Qed.

(** An explicit floor fixes the dip of a rolling update. *)
Lemma resolve_minServing svc m :
  validated svc → MinServing svc = Some m →
  p_Type (ResolveUpdateParams (Some svc)) ≠ UpdateRecreate →
  p_Dip (ResolveUpdateParams (Some svc)) = s_Scale svc - m.
Proof.
  intros Hv Hm. destruct (validated_range svc m Hv Hm) as [Hr Hns].
  unfold ResolveUpdateParams. unfold MinServing in Hm. cbn [mbind option_bind]. rewrite Hm.
  revert Hns. generalize (IsSurgeCapable (Some svc)). intros []; simpl; intros Hns; case_bool_decide; simpl; try done;
    intros _; try specialize (Hns eq_refl); repeat case_match; bools; simplify_eq/=; lia.
Qed.

(** An admitted strategy is neither stuck nor unsafe.  Whatever the
    service, the derived parameters let the planner add or remove at least one
    copy (at most one added), and for an admitted rolling strategy with an
    explicit [minServing] the planner's floor [Scale - Dip] is exactly it. *)
Theorem resolve_admitted svc m :
  validated svc → MinServing svc = Some m →
  let p := ResolveUpdateParams (Some svc) in
  1 ≤ p_Extra p + p_Dip p ∧ 0 ≤ p_Extra p ≤ 1 ∧ 0 ≤ p_Dip p ∧
  (p_Type p = UpdateRecreate → p_Extra p = 0) ∧
  (p_Type p ≠ UpdateRecreate → s_Scale svc - p_Dip p = m).
Proof.
  intros Hv Hm. simpl. destruct (resolve_bounds (Some svc)) as (? & ? & ?). split_and!; try lia.
  - intros Hty. by apply resolve_recreate.
  - intros Hty. rewrite (resolve_minServing svc m) by done. lia.
Qed.

Definition sample_service (scale : Z) (strategy : option UpdateStrategy) : Service :=
  {| s_ID := "svc"; s_Name := "svc"; s_Namespace := "default"; s_Image := "img"; s_Env := ∅;
     s_Scale := scale; s_Ports := []; s_Resources := mkResources "" ""; s_HasHealth := false;
     s_HasReadiness := false; s_NetworkPolicy := None; s_Volumes := []; s_Dependencies := [];
     s_Status := ServiceStatusRunning; s_StatusReason := ""; s_StatusMessage := "";
     s_Runtime := RuntimeTypeContainer; s_Process := None; s_UpdateStrategy := strategy;
     s_DrainSeconds := None; s_Update := None;
     s_Metadata := Some (mkServiceMetadata 1 2 1 None []) |}.

Lemma resolve_admitted_witness :
  let svc := sample_service 4 (Some (mkUpdateStrategy UpdateRolling (Some 2))) in
  validated svc ∧ s_Scale svc - p_Dip (ResolveUpdateParams (Some svc)) = 2.
Proof.
  simpl. split; [by split|].
  refine (proj2 (proj2 (proj2 (proj2 (resolve_admitted
    (sample_service 4 (Some (mkUpdateStrategy UpdateRolling (Some 2)))) 2 _ _)))) _).
  - by split.
  - reflexivity.
  - discriminate.
Defined.

(** ** Classification *)

(** What the runner says of an instance, as classification reads it. *)
Definition dead_in_runner (env : runner_env) (instance : Instance) : bool :=
  match GetInstanceRunner env instance with
  | Err _ => true
  | Ok _ => match runner_Status env instance with
            | Err _ => true
            | Ok (st, _) => bool_decide (st = InstanceStatusExited) || bool_decide (st = InstanceStatusFailed)
            end
  end.

(** The class a container instance gets, as one decision table. *)
Definition container_class (env : runner_env) (instance : Instance) (service : Service)
    (gen template : Z) : CompatClass :=
  if negb (bool_decide (i_ServiceID instance = s_ID service)) then CompatBroken
  else if bool_decide (i_ContainerEverCreatedAt instance = None) &&
          (bool_decide (i_Status instance = InstanceStatusFailed) ||
           bool_decide (i_Status instance = InstanceStatusStalled)) then CompatOK
  else if bool_decide (i_Status instance = InstanceStatusFailed) ||
          bool_decide (i_Status instance = InstanceStatusExited) ||
          bool_decide (i_Status instance = InstanceStatusUnknown) then CompatBroken
  else if dead_in_runner env instance then CompatBroken
  else if gen <? template then CompatOutdated
  else CompatOK.

(** The generation comparison, for non-negative generations. *)
Lemma generationCheck_spec instance service im md :
  i_Metadata instance = Some im → s_Metadata service = Some md →
  0 ≤ im_ServiceGeneration im →
  ∃ o, generationCheck instance service = Ok o ∧
       match o with
       | Some v => cv_Class v = CompatOutdated ∧ im_ServiceGeneration im < md_TemplateGeneration md
       | None => md_TemplateGeneration md ≤ im_ServiceGeneration im
       end.
Proof.
  intros Hi Hs Hpos. unfold generationCheck. rewrite Hi, Hs.
  repeat case_match; bools; simplify_eq; eexists; (split; [done|]); simpl; try split; try done; lia.
Qed.

(** Healing the container mapping does not touch the generation. *)
Lemma healed_generationCheck instance live service im md :
  i_Metadata instance = Some im → s_Metadata service = Some md →
  0 ≤ im_ServiceGeneration im →
  ∃ o, generationCheck (healStaleContainerMapping instance live) service = Ok o ∧
       match o with
       | Some v => cv_Class v = CompatOutdated ∧ im_ServiceGeneration im < md_TemplateGeneration md
       | None => md_TemplateGeneration md ≤ im_ServiceGeneration im
       end.
Proof.
  intros Hi Hs Hpos. unfold healStaleContainerMapping. case_bool_decide; [by apply generationCheck_spec|].
  rewrite Hi. eapply (generationCheck_spec _ service (mkInstanceMetadata _ _ _ _ _) md); done.
Qed.

(** An observation is broken exactly when the instance is dead in the runner. *)
Lemma observe_dead env instance service obs instance' healed :
  observeInstance env instance = (obs, instance', healed) →
  (dead_in_runner env instance = true →
   ∃ v, classifyObserved instance' service obs = Ok v ∧ cv_Class v = CompatBroken) ∧
  (dead_in_runner env instance = false →
   obs_brokenReason obs = "" ∧ obs_status obs ≠ InstanceStatusExited ∧
   obs_status obs ≠ InstanceStatusFailed ∧ ∃ live, instance' = healStaleContainerMapping instance live).
Proof.
  unfold observeInstance, dead_in_runner.
  destruct (GetInstanceRunner env instance) as [[]|e].
  2:{ intros [= <- <- <-]. split; [|done]. intros _. eexists. split; [done|done]. }
  destruct (runner_Status env instance) as [[st cid]|e].
  2:{ intros [= <- <- <-]. split; [|done]. intros _. eexists. split; [done|done]. }
  intros [= <- <- <-]. split; intros Hd.
  - unfold classifyObserved. simpl. rewrite Hd. eexists. by split.
  - bools. split_and!; [done|done|done|by eexists].
Qed.

(** Classification of container instances.  With service metadata present
    the classifier never dereferences nil, and its class is the decision table
    [container_class]: ownership and stuck-in-create first, then death (in the
    store or in the runner) before any template comparison, then the template
    generation and nothing else: image, resource and environment drift are
    never consulted. *)
Theorem ClassifyInstance_container env instance service im md :
  s_Runtime service = RuntimeTypeContainer →
  i_Metadata instance = Some im → s_Metadata service = Some md →
  0 ≤ im_ServiceGeneration im →
  ∃ v, fst (ClassifyInstance env instance service) = Ok v ∧
       cv_Class v = container_class env instance service
                      (im_ServiceGeneration im) (md_TemplateGeneration md).
Proof.
  intros Hrt Hi Hs Hpos. unfold ClassifyInstance, container_class, preClassifyInstance.
  destruct (negb (bool_decide (i_ServiceID instance = s_ID service))); [by eexists|].
  destruct (bool_decide (i_ContainerEverCreatedAt instance = None) && _); [by eexists|].
  destruct (bool_decide (i_Status instance = InstanceStatusFailed) || _ || _); [by eexists|].
  destruct (observeInstance env instance) as [[obs instance'] healed] eqn:Eo.
  destruct (observe_dead _ _ service _ _ _ Eo) as [Hdead Halive].
  destruct (dead_in_runner env instance); [by apply Hdead|].
  destruct (Halive eq_refl) as (Hb & He & Hf & live & ->). simpl.
  destruct (healed_generationCheck instance live service im md) as (o & Hg & Ho); [done..|].
  unfold classifyObserved. rewrite Hb, (bool_decide_false _ He), (bool_decide_false _ Hf), Hg. simpl.
  destruct o as [v|].
  - exists v. split; [done|]. destruct Ho as [Hc Hlt]. by rewrite (proj2 (Z.ltb_lt _ _) Hlt).
  - rewrite Hrt. change (bool_decide (RuntimeTypeContainer = "docker")) with false.
    change (bool_decide (RuntimeTypeContainer = "process")) with false.
    rewrite !andb_false_r. eexists. split; [done|].
    by rewrite (proj2 (Z.ltb_ge _ _) Ho).
Qed.

Definition sample_env (st : InstanceStatus) : runner_env :=
  {| GetInstanceRunner := λ _, Ok tt; runner_Status := λ i, Ok (st, (i_ContainerID i, "")) |}.

(** A running instance of [sample_service] created from an older template. *)
Definition outdated_instance : Instance :=
  {| i_ID := "a"; i_Namespace := "default"; i_Name := "svc-a"; i_ServiceName := "svc"; i_ServiceID := "svc";
     i_Status := InstanceStatusRunning; i_StatusMessage := ""; i_IP := ""; i_ContainerID := "c"; i_PID := 0;
     i_CreatedAt := 1; i_UpdatedAt := 1; i_LastTransitionAt := None;
     i_Ready := true; i_ReadyChangedAt := None; i_ContainerEverCreatedAt := Some 1;
     i_NextCreateAttemptAt := None; i_FailedAt := None; i_LastLogs := "";
     i_Process := None; i_Resources := None; i_Environment := ∅;
     i_Metadata := Some (mkInstanceMetadata "other" 1 None "" 0) |}.

Lemma ClassifyInstance_container_witness :
  ∃ v, fst (ClassifyInstance (sample_env InstanceStatusRunning) outdated_instance (sample_service 1 None)) = Ok v ∧
       cv_Class v = CompatOutdated.
Proof.
  exact (ClassifyInstance_container (sample_env InstanceStatusRunning) outdated_instance
    (sample_service 1 None) _ _ eq_refl eq_refl eq_refl ltac:(simpl; lia)).
Defined.
