(* ===== verification/Status.v ===== *)
(** * Service status roll-up (pkg/orchestrator/reconciler/status.go, events.go)

    [computeUpdateStatus] derives the progress block of an in-flight update and
    the stall verdict; [updateServiceStatus] rolls instances up to the service
    and writes the status fields through the store's compare-and-swap
    [UpdateFunc] (pkg/store/badger_store.go). *)

From stdpp Require Import pretty.
From S2P Require Import Prelude Text Types UpdateStrategy Compat UpdatePlan.

(** ** Reasons (pkg/types/service.go)

    Messages are ASCII strings. *)

Definition is_lower (c : Ascii.ascii) : bool :=
  let n := Ascii.nat_of_ascii c in bool_decide (97 ≤ n ∧ n ≤ 122)%nat.

(** [(^|[^a-z])oom([^a-z]|$)]; [start] is whether the position is one the
    left alternative accepts. *)
Fixpoint oomToken (start : bool) (s : string) : bool :=
  (start && String.prefix "oom" s &&
   match String.get 3 s with None => true | Some c => negb (is_lower c) end) ||
  match s with EmptyString => false | String c s' => oomToken (negb (is_lower c)) s' end.

Definition ServiceReasonUpdating : string := "Updating".
Definition ServiceReasonUpdateStalled : string := "UpdateStalled".

Definition DeriveServiceReason (status : InstanceStatus) (message : string) : string :=
  let m := ToLower message in
  let has := Contains m in
  let byStatus := match status with
    | InstanceStatusExited => "Exited"
    | InstanceStatusFailed => "LaunchFailed"
    | InstanceStatusUnknown => "Unknown"
    | _ => "LaunchFailed"
    end in
  if has "pull access denied" || has "manifest unknown" || has "image not found" ||
     has "no such image" || has "imagepullbackoff" || has "errimagepull" ||
     has "pull failed" || (has "unauthorized" && has "image") then "ImageUnreachable"
  else if has "oomkilled" || has "out of memory" || oomToken true m then "OutOfMemory"
  else if has "probe" || has "health check" then "Unhealthy"
  else if has "no node" || has "no capacity" || has "schedule" then "Unplaceable"
  else if has "secret" || has "configmap" || has "config map" || has "env" then
    if has "not found" || has "unresolvable" then "ConfigMissing" else byStatus
  else if has "crashloop" || has "restart" then "Restarting"
  else byStatus.

(** ** The progress block *)

(** The counting loop of [computeUpdateStatus]. *)
Definition count_view (u : UpdateStatus) (v : instanceView) : UpdateStatus :=
  let outd := is_class CompatOutdated v && negb (v_Terminating v) in
  let upd := negb outd && is_class CompatOK v in
  {| u_TemplateGeneration := u_TemplateGeneration u;
     u_Desired := u_Desired u;
     u_Updated := u_Updated u + (if upd then 1 else 0);
     u_UpdatedReady := u_UpdatedReady u + (if upd && v_Ready v then 1 else 0);
     u_Available := u_Available u + (if serving v then 1 else 0);
     u_Outdated := u_Outdated u + (if outd then 1 else 0);
     u_StartedAt := u_StartedAt u;
     u_LastProgressAt := u_LastProgressAt u;
     u_Message := u_Message u;
     u_PeakUpdated := u_PeakUpdated u;
     u_PeakUpdatedReady := u_PeakUpdatedReady u;
     u_PeakAvailable := u_PeakAvailable u |}.

Definition set_times (u : UpdateStatus) (started progress : Time) : UpdateStatus :=
  mkUpdateStatus (u_TemplateGeneration u) (u_Desired u) (u_Updated u) (u_UpdatedReady u)
    (u_Available u) (u_Outdated u) started progress (u_Message u)
    (u_PeakUpdated u) (u_PeakUpdatedReady u) (u_PeakAvailable u).

Definition set_message (u : UpdateStatus) (m : string) : UpdateStatus :=
  mkUpdateStatus (u_TemplateGeneration u) (u_Desired u) (u_Updated u) (u_UpdatedReady u)
    (u_Available u) (u_Outdated u) (u_StartedAt u) (u_LastProgressAt u) m
    (u_PeakUpdated u) (u_PeakUpdatedReady u) (u_PeakAvailable u).

Definition templateGen (service : Service) : Z :=
  match s_Metadata service with Some md => md_TemplateGeneration md | None => 0 end.

(** What one status pass reads besides the service: the instances, the two
    classifications (the runner is asked once for the counters and once for
    the planner's sentence), the dependency gate, the clock. *)
Record status_obs := mkObservation {
  so_instances : list Instance;
  so_classify : Instance → CompatClass;
  so_classify2 : Instance → CompatClass;
  so_dependenciesReady : result string bool;
  so_now : Time;
}.

Definition views_of (classify : Instance → CompatClass) (service : Service) (o : status_obs)
    : list instanceView :=
  (λ inst, newInstanceView inst (classify inst)
             (p_MinReady (ResolveUpdateParams (Some service))) (so_now o)) <$> so_instances o.

Definition count_block (service : Service) (o : status_obs) : UpdateStatus :=
  fold_left count_view (views_of (so_classify o) service o)
    (mkUpdateStatus (templateGen service) (s_Scale service) 0 0 0 0 0 0 "" 0 0 0).

(** The clock and the peaks, from the block persisted for this generation. *)
Definition carry_block (next : UpdateStatus) (prev : option UpdateStatus) (now : Time) : UpdateStatus :=
  let next := match prev with
    | None => set_times next now now
    | Some p =>
        let next := set_times next (u_StartedAt p) (u_LastProgressAt p) in
        if Progressed prev (Some next) then set_times next (u_StartedAt p) now else next
    end in
  CarryPeaksFrom next prev.

(** The persisted block, unless it belongs to another template generation. *)
Definition previous_block (service : Service) : option UpdateStatus :=
  match s_Update service with
  | Some p => if u_TemplateGeneration p =? templateGen service then Some p else None
  | None => None
  end.

Definition computeUpdateStatus (service : Service) (o : status_obs) : option UpdateStatus * bool :=
  let params := ResolveUpdateParams (Some service) in
  let next := count_block service o in
  if u_Outdated next =? 0 then (None, false)
  else
    let next := carry_block next (previous_block service) (so_now o) in
    let gated := match s_Dependencies service with
      | [] => false
      | _ => match so_dependenciesReady o with Ok ready => negb ready | Err _ => false end
      end in
    if gated then
      (Some (set_message (set_times next (u_StartedAt next) (so_now o)) "blocked on dependency"), false)
    else
      let next :=
        if bool_decide (u_Message next = "") then
          set_message next (plan_Reason (planUpdate
            (mkInput (s_Scale service) params (views_of (so_classify2 o) service o) (so_now o) false)))
        else next in
      (Some next, p_StallDeadline params <? Sub (so_now o) (u_LastProgressAt next)).

Definition stalledMessage (upd : option UpdateStatus) : string :=
  let base := "update made no progress within the stall deadline" in
  match upd with
  | None => base
  | Some u => if bool_decide (u_Message u = "") then base else base +:+ ": " +:+ u_Message u
  end.

Definition updateStatusChanged (a b : option UpdateStatus) : bool :=
  match a, b with
  | None, None => false
  | Some a, Some b =>
      negb (u_TemplateGeneration a =? u_TemplateGeneration b) ||
      negb (u_Desired a =? u_Desired b) ||
      negb (u_Updated a =? u_Updated b) ||
      negb (u_UpdatedReady a =? u_UpdatedReady b) ||
      negb (u_Available a =? u_Available b) ||
      negb (u_Outdated a =? u_Outdated b) ||
      negb (bool_decide (u_Message a = u_Message b)) ||
      negb (u_LastProgressAt a =? u_LastProgressAt b)
  | _, _ => true
  end.

(** ** Roll-up *)

Definition is_pending (i : Instance) : bool :=
  match i_Status i with
  | InstanceStatusPending | InstanceStatusCreated | InstanceStatusStarting => true
  | _ => false
  end.

Definition is_running (i : Instance) : bool :=
  match i_Status i with InstanceStatusRunning => true | _ => false end.

Definition is_failed (i : Instance) : bool :=
  match i_Status i with
  | InstanceStatusFailed | InstanceStatusExited | InstanceStatusUnknown | InstanceStatusStalled => true
  | _ => false
  end.

(** Status, reason and message from the instances and the update block. *)
Definition rollup (service : Service) (instances : list Instance)
    (upd : option UpdateStatus) (stalled : bool) : ServiceStatus * string * string :=
  let pending := countb is_pending instances in
  let running := countb is_running instances in
  let failed := countb is_failed instances in
  let total := Z.of_nat (length instances) in
  if (0 <? failed) && (negb (bool_decide (is_Some upd)) || stalled) then
    if stalled then (ServiceStatusFailed, ServiceReasonUpdateStalled, stalledMessage upd)
    else match List.find is_failed instances with
         | Some w => (ServiceStatusFailed, DeriveServiceReason (i_Status w) (i_StatusMessage w), i_StatusMessage w)
         | None => (ServiceStatusFailed, "", "")
         end
  else if stalled then (ServiceStatusFailed, ServiceReasonUpdateStalled, stalledMessage upd)
  else match upd with
    | Some u => (ServiceStatusDeploying, ServiceReasonUpdating, u_Message u)
    | None =>
        if s_Scale service <? total then (ServiceStatusStopping, "", "")
        else if 0 <? pending then
          (ServiceStatusDeploying, "",
           match List.find is_pending instances with Some w => i_StatusMessage w | None => "" end)
        else if running =? total then (ServiceStatusRunning, "", "")
        else (ServiceStatusPending, "", "")
    end.

(** ** The compare-and-swap write *)

(** [store.UpdateFunc]: each attempt reads the record and applies [mutate];
    [None] is [ErrSkipUpdate].  [seen] lists what successive attempts read: all
    but the last attempt lose to a concurrent writer, who leaves the next
    value.  The result is what the key holds in the end. *)
Inductive UpdateFuncError := ErrNotFound | ErrConflict.
Definition updateFuncMaxRetries : nat := 100.

Fixpoint UpdateFunc {A} (retries : nat) (seen : list (option A)) (mutate : A → option A)
    {struct seen} : result UpdateFuncError (option A) :=
  match seen with
  | [] => Err ErrNotFound
  | None :: _ => Err ErrNotFound
  | Some cur :: later =>
      match mutate cur with
      | None => Ok (Some cur)
      | Some v =>
          match later with
          | [] => Ok (Some v)
          | _ => match retries with O => Err ErrConflict | S n => UpdateFunc n later mutate end
          end
      end
  end.

Definition set_status (s : Service) (st : ServiceStatus) (reason message : string)
    (upd : option UpdateStatus) (md : option ServiceMetadata) : Service :=
  {| s_ID := s_ID s; s_Name := s_Name s; s_Namespace := s_Namespace s; s_Image := s_Image s;
     s_Env := s_Env s; s_Scale := s_Scale s; s_Ports := s_Ports s; s_Resources := s_Resources s;
     s_HasHealth := s_HasHealth s; s_HasReadiness := s_HasReadiness s;
     s_NetworkPolicy := s_NetworkPolicy s; s_Volumes := s_Volumes s;
     s_Dependencies := s_Dependencies s; s_Status := st; s_StatusReason := reason;
     s_StatusMessage := message; s_Runtime := s_Runtime s; s_Process := s_Process s;
     s_UpdateStrategy := s_UpdateStrategy s; s_DrainSeconds := s_DrainSeconds s;
     s_Update := upd; s_Metadata := md |}.

Definition zero_metadata : ServiceMetadata := mkServiceMetadata 0 0 0 None [].

Definition observe_gen (md : option ServiceMetadata) (gen : Z) : ServiceMetadata :=
  let m := default zero_metadata md in
  mkServiceMetadata (md_Generation m) (md_TemplateGeneration m) gen
    (md_DeletionTimestamp m) (md_Finalizers m).

(** The callback [updateServiceStatus] hands to [UpdateFunc]. *)
Definition status_mutate (st : ServiceStatus) (reason message : string) (upd : option UpdateStatus)
    (reconciledGen : Z) (fresh : Service) : option Service :=
  if bool_decide (s_Status fresh = ServiceStatusDeleted) then None
  else
    let md := default zero_metadata (s_Metadata fresh) in
    if bool_decide (s_Status fresh = st) && bool_decide (s_StatusReason fresh = reason) &&
       bool_decide (s_StatusMessage fresh = message) && negb (updateStatusChanged (s_Update fresh) upd) &&
       (md_ObservedGeneration md =? reconciledGen)
    then None
    else Some (set_status fresh st reason message upd (Some (observe_gen (Some md) reconciledGen))).

(** ** Events *)

Inductive EventLevel := EventLevelInfo | EventLevelWarn.
Record Event := mkEvent { ev_Level : EventLevel; ev_Reason : string; ev_Message : string }.

(** [emitUpdateTransitions]; [age] renders [time.Since(LastProgressAt)]. *)
Definition emitUpdateTransitions (service : Service) (prev next : option UpdateStatus)
    (stalled : bool) (age : Time → string) : list Event :=
  match prev, next with
  | None, Some n =>
      [mkEvent EventLevelInfo "UpdateStarted"
        ("updating " +:+ pretty (u_Outdated n) +:+ " instance(s) to template generation "
         +:+ pretty (u_TemplateGeneration n))]
  | Some p, None =>
      [mkEvent EventLevelInfo "UpdateComplete"
        ("update to template generation " +:+ pretty (u_TemplateGeneration p) +:+ " complete; "
         +:+ pretty (u_Available p) +:+ " instance(s) serving")]
  | Some p, Some n =>
      if negb (u_TemplateGeneration p =? u_TemplateGeneration n) then
        [mkEvent EventLevelInfo "UpdateStarted"
          ("superseded by template generation " +:+ pretty (u_TemplateGeneration n) +:+ "; "
           +:+ pretty (u_Outdated n) +:+ " instance(s) outdated")]
      else if stalled && negb (bool_decide (s_StatusReason service = ServiceReasonUpdateStalled)) then
        [mkEvent EventLevelWarn "UpdateStalled"
          ("no progress for " +:+ age (u_LastProgressAt n) +:+ ": " +:+ u_Message n)]
      else if negb stalled && negb (bool_decide (u_Message n = "")) &&
              negb (bool_decide (u_Message n = u_Message p)) then
        [mkEvent EventLevelInfo "UpdateHolding" (u_Message n)]
      else []
  | None, None => []
  end.

(** ** updateServiceStatus *)

(** The outcome: the caller's copy, what the store holds for the key (when the
    write was attempted), and the events emitted. *)
Record status_outcome := mkOutcome {
  out_service : Service;
  out_stored : option (option Service);
  out_events : list Event;
}.

Definition status_of (service : Service) (o : status_obs)
    : ServiceStatus * string * string * option UpdateStatus * bool :=
  match so_instances o with
  | [] => (ServiceStatusPending, "", "", None, false)
  | instances =>
      let '(upd, stalled) := computeUpdateStatus service o in
      let '(st, reason, message) := rollup service instances upd stalled in
      (st, reason, message, upd, stalled)
  end.

Definition updateServiceStatus (service : Service) (obs : result string status_obs)
    (seen : list (option Service)) (age : Time → string) : result string status_outcome :=
  if bool_decide (s_Status service = ServiceStatusDeleted) then Ok (mkOutcome service None [])
  else match obs with
  | Err e => Err ("failed to get latest instances for status update: " +:+ e)
  | Ok o =>
      let '(st, reason, message, upd, stalled) := status_of service o in
      let reconciledGen := match s_Metadata service with Some md => md_Generation md | None => 0 end in
      let statusChanged :=
        negb (bool_decide (s_Status service = st)) ||
        negb (bool_decide (s_StatusReason service = reason)) ||
        negb (bool_decide (s_StatusMessage service = message)) ||
        updateStatusChanged (s_Update service) upd in
      let genNeedsObserve := match s_Metadata service with
        | None => true
        | Some md => negb (md_ObservedGeneration md =? reconciledGen)
        end in
      if statusChanged || genNeedsObserve then
        match UpdateFunc updateFuncMaxRetries seen (status_mutate st reason message upd reconciledGen) with
        | Err e => Err "failed to update service status"
        | Ok stored =>
            Ok (mkOutcome
              (set_status service st reason message upd (Some (observe_gen (s_Metadata service) reconciledGen)))
              (Some stored)
              (emitUpdateTransitions service (s_Update service) upd stalled age))
        end
      else Ok (mkOutcome service None [])
  end.
