(* ===== verification/StatusProps.v ===== *)
(** * Properties of the status roll-up *)

From S2P Require Import Prelude Types UpdateStrategy Compat UpdatePlan StrategyProps Status.

(** ** The write touches status fields only *)

(** Two records that agree on everything but the status fields, the update
    block and the observed generation. *)
Definition same_spec (a b : Service) : Prop :=
  set_status a ServiceStatusPending "" "" None (Some (observe_gen (s_Metadata a) 0)) =
  set_status b ServiceStatusPending "" "" None (Some (observe_gen (s_Metadata b) 0)).

#[global] Instance same_spec_equiv : Equivalence same_spec.
Proof. unfold same_spec. split; [intros ?|intros ???|intros ?????]; congruence. Qed.

Lemma status_mutate_spec st reason message upd gen cur r :
  status_mutate st reason message upd gen cur = Some r →
  s_Status cur ≠ ServiceStatusDeleted ∧ same_spec cur r ∧
  s_Status r = st ∧ s_StatusReason r = reason ∧ s_StatusMessage r = message ∧ s_Update r = upd ∧
  md_ObservedGeneration <$> s_Metadata r = Some gen.
Proof.
  unfold status_mutate. case_bool_decide as Hd; [done|]. case_match; [done|]. intros [= <-].
  split_and!; done.
Qed.

(** [UpdateFunc] never loses a concurrent write: a value it stores is the
    callback applied to the last value any attempt read, and a value it leaves
    is one it read. *)
Lemma UpdateFunc_spec {A} n (seen : list (option A)) mutate r :
  UpdateFunc n seen mutate = Ok r →
  ∃ cur, Some cur ∈ seen ∧
    ((r = Some cur ∧ mutate cur = None) ∨ (r = mutate cur ∧ last seen = Some (Some cur) ∧ is_Some (mutate cur))).
Proof.
  revert n. induction seen as [|[cur|] later IH]; intros n; simpl; [done| |done].
  - destruct (mutate cur) as [v|] eqn:E.
    + destruct later as [|x later].
      * intros [= <-]. exists cur; (split; [set_solver|]); right; rewrite E; eauto.
      * destruct n; [done|]. intros H. destruct (IH _ H) as (c & Hc & Hr). exists c.
        split; [set_solver|]. by rewrite last_cons_cons.
    + intros [= <-]. exists cur. set_solver.
Qed.

(** A status write never clobbers a concurrent writer.  However many times
    the record changed under [updateServiceStatus], what ends up stored agrees
    with the last version read on every field but the status fields, the update
    block and the observed generation; a deleted record is left as it is. *)
Theorem status_write_isolated service obs seen age out r :
  updateServiceStatus service obs seen age = Ok out → out_stored out = Some r →
  ∃ cur stored, r = Some stored ∧ Some cur ∈ seen ∧ same_spec cur stored ∧
    (s_Status cur = ServiceStatusDeleted → stored = cur) ∧
    (stored ≠ cur → last seen = Some (Some cur) ∧ s_Status stored = s_Status (out_service out) ∧
       s_Update stored = s_Update (out_service out)).
Proof.
  unfold updateServiceStatus. case_bool_decide; [intros [= <-]; done|].
  destruct obs as [o|e]; [|done].
  destruct (status_of service o) as [[[[st reason] message] upd] stalled].
  destruct (_ || match s_Metadata service with Some _ => _ | None => _ end); [|intros [= <-]; done].
  match goal with |- context [UpdateFunc ?n ?s ?m] => destruct (UpdateFunc n s m) as [x|] eqn:E end; [|done].
  intros [= <-] [= <-]. apply UpdateFunc_spec in E as (cur & Hin & [[-> Hm]|(-> & Hlast & [v Hv])]).
  - exists cur, cur. split_and!; done.
  - exists cur, v. rewrite Hv. apply status_mutate_spec in Hv as (? & ? & ? & ? & ? & ? & _).
    split_and!; done.
Qed.

(** An observation of one outdated instance. *)
Definition sample_obs (now : Time) : status_obs :=
  mkObservation [outdated_instance] (λ _, CompatOutdated) (λ _, CompatOutdated) (Ok true) now.

(** The service was scaled from 2 to 5 between two attempts of the write: the
    new scale survives. *)
Lemma status_write_isolated_witness :
  ∃ out stored,
    updateServiceStatus (sample_service 2 None) (Ok (sample_obs 100))
      [Some (sample_service 2 None); Some (sample_service 5 None)] (λ _, "") = Ok out ∧
    out_stored out = Some (Some stored) ∧ s_Scale stored = 5 ∧
    ∃ cur stored', Some stored = Some stored' ∧
      Some cur ∈ [Some (sample_service 2 None); Some (sample_service 5 None)] ∧ same_spec cur stored'.
Proof.
  eexists _, _. split; [reflexivity|]. split; [reflexivity|]. split; [reflexivity|].
  destruct (status_write_isolated (sample_service 2 None) (Ok (sample_obs 100))
    [Some (sample_service 2 None); Some (sample_service 5 None)] (λ _, "") _ _ eq_refl eq_refl)
    as (cur & stored & H1 & H2 & H3 & _).
  exists cur, stored. exact (conj H1 (conj H2 H3)).
Defined.

(** ** The counters of a block *)

Definition is_updated (v : instanceView) : bool :=
  negb (is_class CompatOutdated v && negb (v_Terminating v)) && is_class CompatOK v.

Lemma fold_count_view vs u :
  let r := fold_left count_view vs u in
  u_TemplateGeneration r = u_TemplateGeneration u ∧ u_Message r = u_Message u ∧
  u_Updated r = u_Updated u + countb is_updated vs ∧
  u_UpdatedReady r = u_UpdatedReady u + countb (λ v, is_updated v && v_Ready v) vs ∧
  u_Available r = u_Available u + countb serving vs ∧
  u_PeakUpdated r = u_PeakUpdated u ∧ u_PeakUpdatedReady r = u_PeakUpdatedReady u ∧
  u_PeakAvailable r = u_PeakAvailable u.
Proof.
  revert u. induction vs as [|v vs IH]; intros u; simpl; [split_and!; try done; lia|].
  destruct (IH (count_view u v)) as (-> & -> & -> & -> & -> & -> & -> & ->). simpl. unfold is_updated.
  split_and!; try done; lia.
Qed.

Section Block.
Context (service : Service) (o : status_obs).
Let N := Z.of_nat (length (so_instances o)).

Lemma count_block_spec :
  u_TemplateGeneration (count_block service o) = templateGen service ∧
  u_Message (count_block service o) = "" ∧
  0 ≤ u_Updated (count_block service o) ≤ N ∧
  0 ≤ u_UpdatedReady (count_block service o) ≤ N ∧
  0 ≤ u_Available (count_block service o) ≤ N ∧
  u_PeakUpdated (count_block service o) = 0 ∧ u_PeakUpdatedReady (count_block service o) = 0 ∧
  u_PeakAvailable (count_block service o) = 0.
Proof.
  assert (Hlen : Z.of_nat (length (views_of (so_classify o) service o)) = N)
    by (unfold views_of; by rewrite length_fmap).
  unfold count_block.
  destruct (fold_count_view (views_of (so_classify o) service o)
    (mkUpdateStatus (templateGen service) (s_Scale service) 0 0 0 0 0 0 "" 0 0 0)) as (-> & -> & -> & -> & -> & -> & -> & ->).
  simpl. rewrite <- Hlen. split_and!; try done; try apply Z.add_nonneg_nonneg; try lia;
    auto with rune; rewrite ?Z.add_0_l; auto with rune.
Qed.
End Block.

(** ** The stall clock *)

(** A block whose counters are within its peaks, and those within [n]. *)
Record block_ok (n : Z) (u : UpdateStatus) : Prop := {
  bo_updated : 0 ≤ u_Updated u ≤ u_PeakUpdated u;
  bo_ready : 0 ≤ u_UpdatedReady u ≤ u_PeakUpdatedReady u;
  bo_available : 0 ≤ u_Available u ≤ u_PeakAvailable u;
  bo_bound : u_PeakUpdated u ≤ n ∧ u_PeakUpdatedReady u ≤ n ∧ u_PeakAvailable u ≤ n;
}.

Definition peaks (u : UpdateStatus) : Z := u_PeakUpdated u + u_PeakUpdatedReady u + u_PeakAvailable u.

Lemma peaks_bound n u : block_ok n u → 0 ≤ peaks u ≤ 3 * n.
Proof. intros [? ? ? ?]. unfold peaks. lia. Qed.

(** Carrying a block forward: the marks only rise, and the clock is refreshed
    only when one of them does. *)
Lemma carry_block_spec n next prev now :
  0 ≤ u_Updated next ≤ n → 0 ≤ u_UpdatedReady next ≤ n → 0 ≤ u_Available next ≤ n →
  u_PeakUpdated next = 0 → u_PeakUpdatedReady next = 0 → u_PeakAvailable next = 0 →
  (∀ p, prev = Some p → block_ok n p) →
  let r := carry_block next prev now in
  block_ok n r ∧ u_TemplateGeneration r = u_TemplateGeneration next ∧ u_Message r = u_Message next ∧
  ∀ p, prev = Some p →
    peaks p ≤ peaks r ∧ (peaks r = peaks p → u_LastProgressAt r = u_LastProgressAt p) ∧
    (Progressed prev (Some next) = false → peaks r = peaks p).
Proof.
  intros H1 H2 H3 Hp1 Hp2 Hp3 Hprev. simpl.
  unfold carry_block, CarryPeaksFrom, raise, Progressed. destruct prev as [p|].
  - destruct (Hprev p eq_refl) as [? ? ? (? & ? & ?)].
    repeat match goal with |- context [if ?b then _ else _] => destruct b eqn:? end;
      simpl in *; bools; (split; [split; simpl; lia|]); (split; [done|]); (split; [done|]);
      intros p' [= <-]; unfold peaks; simpl;
      repeat match goal with H : _ || _ = true |- _ => apply orb_true_iff in H as [H|H] end; bools;
      split_and!; intros; bools; lia.
  - simpl. rewrite Hp1, Hp2, Hp3. split; [|split; [done|split; [done|done]]].
    split; simpl; repeat case_match; bools; lia.
Qed.

(** One status pass with no concurrent writer: the record the store holds
    afterwards. *)
Definition status_pass (s : Service) (o : status_obs) : Service :=
  match updateServiceStatus s (Ok o) [Some s] (λ _, "") with
  | Ok out => match out_stored out with Some (Some s') => s' | _ => s end
  | Err _ => s
  end.

(** What a pass leaves: the computed block, or the old one when they differ in
    nothing [updateStatusChanged] compares; the status is never [Deleted]. *)
Lemma status_pass_spec s o st reason message upd stalled :
  s_Status s ≠ ServiceStatusDeleted → status_of s o = (st, reason, message, upd, stalled) →
  same_spec s (status_pass s o) ∧
  s_Status (status_pass s o) = st ∧ s_StatusReason (status_pass s o) = reason ∧
  (s_Update (status_pass s o) = upd ∨
   (s_Update (status_pass s o) = s_Update s ∧ updateStatusChanged (s_Update s) upd = false)).
Proof.
  intros Hnd Hst. unfold status_pass, updateServiceStatus. rewrite (bool_decide_false _ Hnd), Hst.
  set (gen := match s_Metadata s with Some md => md_Generation md | None => 0 end).
  set (chg := negb (bool_decide (s_Status s = st)) || negb (bool_decide (s_StatusReason s = reason))
    || negb (bool_decide (s_StatusMessage s = message)) || updateStatusChanged (s_Update s) upd).
  assert (Hsame : chg = false → s_Status s = st ∧ s_StatusReason s = reason ∧
            updateStatusChanged (s_Update s) upd = false).
  { intros Hc. unfold chg in Hc. bools. done. }
  destruct (chg || _) eqn:Eb; [|bools; naive_solver].
  simpl. unfold status_mutate. rewrite (bool_decide_false _ Hnd).
  destruct (bool_decide (s_Status s = st) && bool_decide (s_StatusReason s = reason) && _ && _ && _) eqn:Ec;
    simpl; [|naive_solver].
  bools. naive_solver.
Qed.

Lemma same_spec_params a b : same_spec a b →
  ResolveUpdateParams (Some a) = ResolveUpdateParams (Some b) ∧
  s_Dependencies a = s_Dependencies b ∧ s_Scale a = s_Scale b ∧ templateGen a = templateGen b.
Proof.
  unfold same_spec, set_status, ResolveUpdateParams, templateGen, IsSurgeCapable, HasClaimTemplateVolume,
    HasWritableClaimVolume, hasHostPort, HasReadinessProbe, DrainWindow.
  intros H. injection H. intros. split_and!; [|done|done|].
  - cbn [mbind option_bind]. repeat match goal with H : ?f a = ?f b |- _ => rewrite H; clear H end. done.
  - clear H. destruct (s_Metadata a), (s_Metadata b); done.
Qed.

(** ** Runs of passes *)

(** When progress was last recorded for the current template generation. *)
Definition progress_at (s : Service) : option Time := u_LastProgressAt <$> previous_block s.

(** How many passes of a run move that mark. *)
Fixpoint refreshes (s : Service) (os : list status_obs) : Z :=
  match os with
  | [] => 0
  | o :: os =>
      (if bool_decide (progress_at (status_pass s o) = progress_at s) then 0 else 1)
      + refreshes (status_pass s o) os
  end.

(** An observation of an update in flight over at most [n] instances. *)
Definition in_flight (n : Z) (s : Service) (o : status_obs) : Prop :=
  Z.of_nat (length (so_instances o)) ≤ n ∧ u_Outdated (count_block s o) ≠ 0.

Definition in_flight_nonempty (s : Service) (o : status_obs) : Prop := u_Outdated (count_block s o) ≠ 0.

Lemma in_flight_same n a b o : same_spec a b → in_flight n a o → in_flight n b o.
Proof.
  intros (Hp & _ & Hs & Ht)%same_spec_params. unfold in_flight, count_block, views_of. by rewrite Hp, Hs, Ht.
Qed.

(** The computed block, for a service with no dependency gate. *)
Lemma computeUpdateStatus_inflight n s o :
  s_Dependencies s = [] → in_flight n s o → (∀ p, previous_block s = Some p → block_ok n p) →
  ∃ next, fst (computeUpdateStatus s o) = Some next ∧ block_ok n next ∧
    u_TemplateGeneration next = templateGen s ∧
    snd (computeUpdateStatus s o) =
      (p_StallDeadline (ResolveUpdateParams (Some s)) <? Sub (so_now o) (u_LastProgressAt next)) ∧
    ∀ p, previous_block s = Some p →
      peaks p ≤ peaks next ∧ (peaks next = peaks p → u_LastProgressAt next = u_LastProgressAt p) ∧
      (Progressed (Some p) (Some (count_block s o)) = false → peaks next = peaks p).
Proof.
  intros Hdep [Hn Hout] Hprev. unfold computeUpdateStatus. rewrite Hdep.
  destruct (u_Outdated (count_block s o) =? 0) eqn:E; bools; [done|].
  destruct (count_block_spec s o) as (Ht & Hm & Hu & Hr & Ha & ? & ? & ?).
  destruct (carry_block_spec n (count_block s o) (previous_block s) (so_now o)) as (Hok & Hg & Hmsg & Hp);
    [lia..|done|].
  set (r := carry_block _ _ _) in *. clearbody r.
  rewrite Hmsg, Hm, bool_decide_true by done. simpl.
  eexists. split; [done|]. split_and!; [by destruct Hok; split|by simpl; rewrite Hg, Ht|done|].
  intros p Hpp. destruct (Hp p Hpp) as (? & ? & Hnp). rewrite Hpp in Hnp. done.
Qed.

(** What [status_of] returns with an update in flight. *)
Lemma status_of_nonempty s o : in_flight_nonempty s o → ∃ i l, so_instances o = i :: l.
Proof.
  unfold in_flight_nonempty, count_block, views_of. destruct (so_instances o) as [|i l]; [done|eauto].
Qed.

Lemma status_of_upd n s o st reason message upd stalled next :
  in_flight n s o → status_of s o = (st, reason, message, upd, stalled) →
  fst (computeUpdateStatus s o) = Some next → upd = Some next.
Proof.
  intros [_ Hout]. destruct (status_of_nonempty s o Hout) as (i & l & Hi).
  unfold status_of. rewrite Hi. destruct (computeUpdateStatus s o) as [u b]. simpl. intros H ->.
  destruct (rollup _ _ _ _) as [[? ?] ?]. by simplify_eq.
Qed.

Lemma status_of_stalled n s o st reason message upd stalled next :
  in_flight n s o → status_of s o = (st, reason, message, upd, stalled) →
  fst (computeUpdateStatus s o) = Some next → snd (computeUpdateStatus s o) = true →
  st = ServiceStatusFailed ∧ reason = ServiceReasonUpdateStalled.
Proof.
  intros [_ Hout]. destruct (status_of_nonempty s o Hout) as (i & l & Hi).
  unfold status_of. rewrite Hi. destruct (computeUpdateStatus s o) as [u b]. simpl. intros H -> ->.
  unfold rollup in H. repeat case_match; by simplify_eq.
Qed.

(** One pass over an update in flight: the potential [peaks] pays for a moved mark. *)
Lemma status_pass_inflight n s o p :
  s_Status s ≠ ServiceStatusDeleted → s_Dependencies s = [] → in_flight n s o →
  previous_block s = Some p → block_ok n p →
  ∃ p', previous_block (status_pass s o) = Some p' ∧ block_ok n p' ∧ peaks p ≤ peaks p' ∧
        (peaks p' = peaks p → u_LastProgressAt p' = u_LastProgressAt p).
Proof.
  intros Hnd Hdep Hfl Hp Hok.
  destruct (computeUpdateStatus_inflight n s o) as (next & Hc & Hnok & Hg & _ & Hpk);
    [done|done|intros; simplify_eq; done|].
  destruct (Hpk p Hp) as (Hle & Heq & _).
  destruct (status_of s o) as [[[[st reason] message] upd] stalled] eqn:Est.
  assert (upd = Some next) as ->.
  { by eapply status_of_upd. }
  destruct (status_pass_spec s o _ _ _ _ _ Hnd Est) as (Hsame & _ & _ & Hu).
  apply same_spec_params in Hsame as (_ & _ & _ & Ht).
  unfold previous_block in Hp |- *. rewrite <- Ht. destruct Hu as [-> | [-> Hun]].
  - exists next. by rewrite Hg, Z.eqb_refl.
  - destruct (s_Update s) as [q|]; [|done]. destruct (u_TemplateGeneration q =? templateGen s); [|done].
    exists p. split_and!; naive_solver.
Qed.

Lemma status_of_not_deleted s o st reason message upd stalled :
  status_of s o = (st, reason, message, upd, stalled) → st ≠ ServiceStatusDeleted.
Proof.
  unfold status_of, rollup. destruct (so_instances o) as [|i l]; [by intros [= <- _ _ _ _]|].
  destruct (computeUpdateStatus s o) as [u b].
  repeat case_match; intros; simplify_eq; done.
Qed.

Lemma status_pass_not_deleted s o :
  s_Status s ≠ ServiceStatusDeleted →
  s_Status (status_pass s o) ≠ ServiceStatusDeleted ∧ same_spec s (status_pass s o).
Proof.
  intros Hnd. destruct (status_of s o) as [[[[st reason] message] upd] stalled] eqn:Est.
  destruct (status_pass_spec s o _ _ _ _ _ Hnd Est) as (Hsame & -> & _).
  split; [|done]. by eapply status_of_not_deleted.
Qed.

(** The first pass of a generation starts the block. *)
Lemma status_pass_starts n s o :
  s_Status s ≠ ServiceStatusDeleted → s_Dependencies s = [] → in_flight n s o →
  previous_block s = None → ∃ p, previous_block (status_pass s o) = Some p ∧ block_ok n p.
Proof.
  intros Hnd Hdep Hfl Hp.
  destruct (computeUpdateStatus_inflight n s o) as (next & Hc & Hnok & Hg & _ & _);
    [done|done|intros; simplify_eq|].
  destruct (status_of s o) as [[[[st reason] message] upd] stalled] eqn:Est.
  assert (upd = Some next) as ->.
  { by eapply status_of_upd. }
  destruct (status_pass_spec s o _ _ _ _ _ Hnd Est) as (Hsame & _ & _ & Hu).
  apply same_spec_params in Hsame as (_ & _ & _ & Ht).
  unfold previous_block in Hp |- *. rewrite <- Ht. destruct Hu as [-> | [-> Hun]].
  - exists next. by rewrite Hg, Z.eqb_refl.
  - destruct (s_Update s) as [q|]; [|done]. unfold updateStatusChanged in Hun. bools.
    destruct (u_TemplateGeneration q =? templateGen s) eqn:E; [done|]. bools. congruence.
Qed.

Lemma refreshes_from n os s p :
  s_Status s ≠ ServiceStatusDeleted → s_Dependencies s = [] →
  (∀ o, o ∈ os → in_flight n s o) → previous_block s = Some p → block_ok n p →
  refreshes s os ≤ 3 * n - peaks p.
Proof.
  revert s p. induction os as [|o os IH]; intros s p Hnd Hdep Hfl Hp Hok; simpl.
  { pose proof (peaks_bound _ _ Hok). lia. }
  destruct (status_pass_inflight n s o p) as (p' & Hp' & Hok' & Hle & Heq); try done; [by apply Hfl; left|].
  destruct (status_pass_not_deleted s o Hnd) as [Hnd' Hsame].
  assert (refreshes (status_pass s o) os ≤ 3 * n - peaks p').
  { apply IH; try done.
    - by destruct (same_spec_params _ _ Hsame) as (_ & <- & _).
    - intros o' Ho'. eapply in_flight_same; [exact Hsame|]. apply Hfl. by right. }
  case_bool_decide as Hm; [lia|].
  assert (peaks p' ≠ peaks p); [|lia]. intros He. apply Hm. unfold progress_at. rewrite Hp', Hp. simpl.
  by rewrite Heq.
Qed.

(** A crash-looping update cannot hide a stall.  While an update over at
    most [n] instances is in flight, at most [3n + 1] passes ever move the mark
    the stall deadline is measured from, however the counters oscillate. *)
Theorem stall_clock_bounded n os s :
  s_Status s ≠ ServiceStatusDeleted → s_Dependencies s = [] → 0 ≤ n →
  (∀ o, o ∈ os → in_flight n s o) → (∀ p, previous_block s = Some p → block_ok n p) →
  refreshes s os ≤ 3 * n + 1.
Proof.
  intros Hnd Hdep Hn Hfl Hprev. destruct (previous_block s) as [p|] eqn:Hp.
  - pose proof (refreshes_from n os s p Hnd Hdep Hfl Hp (Hprev p eq_refl)).
    pose proof (peaks_bound n p (Hprev p eq_refl)). lia.
  - destruct os as [|o os]; simpl; [lia|].
    destruct (status_pass_starts n s o) as (p & Hp' & Hok); try done; [by apply Hfl; left|].
    destruct (status_pass_not_deleted s o Hnd) as [Hnd' Hsame].
    assert (refreshes (status_pass s o) os ≤ 3 * n - peaks p).
    { apply refreshes_from; try done.
      - by destruct (same_spec_params _ _ Hsame) as (_ & <- & _).
      - intros o' Ho'. eapply in_flight_same; [exact Hsame|]. apply Hfl. by right. }
    pose proof (peaks_bound n p Hok). case_match; lia.
Qed.

Lemma stall_clock_bounded_witness :
  refreshes (sample_service 2 None) [sample_obs 100; sample_obs 200; sample_obs 300] ≤ 4.
Proof.
  apply (stall_clock_bounded 1).
  - discriminate.
  - reflexivity.
  - lia.
  - intros o. rewrite !elem_of_cons, elem_of_nil. intros [->|[->|[->|[]]]]; (split; [simpl; lia|done]).
  - discriminate.
Defined.

(** A stall is reported.  A pass that finds an update in flight with no
    mark risen since [LastProgressAt], and the deadline past, stores [Failed]
    with reason [UpdateStalled], and leaves the mark where it is. *)
Theorem stall_reported n s o p :
  s_Status s ≠ ServiceStatusDeleted → s_Dependencies s = [] → in_flight n s o →
  previous_block s = Some p → block_ok n p →
  Progressed (Some p) (Some (count_block s o)) = false →
  p_StallDeadline (ResolveUpdateParams (Some s)) < Sub (so_now o) (u_LastProgressAt p) →
  s_Status (status_pass s o) = ServiceStatusFailed ∧
  s_StatusReason (status_pass s o) = ServiceReasonUpdateStalled ∧
  progress_at (status_pass s o) = progress_at s.
Proof.
  intros Hnd Hdep Hfl Hp Hok Hprog Hlate.
  destruct (computeUpdateStatus_inflight n s o) as (next & Hc & Hnok & Hg & Hst & Hpk);
    [done|done|intros; simplify_eq; done|].
  assert (Hlast : u_LastProgressAt next = u_LastProgressAt p).
  { destruct (Hpk p Hp) as (_ & Heq & Hnp). by apply Heq, Hnp. }
  rewrite Hlast, (proj2 (Z.ltb_lt _ _) Hlate) in Hst.
  destruct (status_of s o) as [[[[st reason] message] upd] stalled] eqn:Est.
  destruct (status_of_stalled _ _ _ _ _ _ _ _ _ Hfl Est Hc Hst) as [-> ->].
  assert (upd = Some next) as -> by (by eapply status_of_upd).
  destruct (status_pass_spec s o _ _ _ _ _ Hnd Est) as (Hsame & -> & -> & Hu).
  split_and!; [done|done|].
  apply same_spec_params in Hsame as (_ & _ & _ & Ht).
  unfold progress_at, previous_block in *. rewrite <- Ht. destruct Hu as [-> | [-> Hun]]; [|done].
  rewrite Hg, Z.eqb_refl, Hp. simpl. by rewrite Hlast.
Qed.

(** The block a first pass stores, and a pass eleven minutes later. *)
Lemma stall_reported_witness :
  let s := status_pass (sample_service 2 None) (sample_obs 100) in
  s_Status (status_pass s (sample_obs (100 + 660 * Second))) = ServiceStatusFailed.
Proof.
  simpl. refine (proj1 (stall_reported 1 (status_pass (sample_service 2 None) (sample_obs 100))
    (sample_obs (100 + 660 * Second)) _ _ _ _ eq_refl _ _ _)).
  - vm_compute. discriminate.
  - reflexivity.
  - split; [simpl; lia|]. vm_compute. discriminate.
  - split; vm_compute; repeat split; discriminate.
  - vm_compute. reflexivity.
  - vm_compute. reflexivity.
Defined.
