(* ===== verification/ResourceStoreProps.v ===== *)
(** * The resource store refines a map

    The byte keys of the store against the abstract map from (type, namespace,
    name) to values: every operation answers as the map does, listings are exact
    and in key order; and an update under other writers writes once, over the
    value it saw, or not at all. *)

From Stdlib Require Import Ascii.
From stdpp Require Import pretty.
From S2P Require Import Prelude Text Types Status ResourceStore.

#[local] Arguments String.append !_ _ : simpl nomatch.

(** ** Keys *)

(** No resource type reads like the version records of another. *)
Definition valid_type (t : ResourceType) : Prop := free "/" t = true ∧ ∀ t', t ≠ t' +:+ "-versions".

Definition rkey := (string * string * string)%type.
Definition key_of (k : rkey) : string := MakeKey k.1.1 k.1.2 k.2.
Definition valid_rkey (k : rkey) : Prop := valid_type k.1.1 ∧ free "/" k.1.2 = true.

Lemma short_type t : free "/" t = true → (String.length t < 9)%nat → valid_type t.
Proof. intros Hf Hl. split; [done|]. intros t' ->. rewrite string_app_length in Hl. cbn in Hl. lia. Qed.

Lemma MakeKey_inj a b : valid_rkey a → valid_rkey b → key_of a = key_of b → a = b.
Proof.
  destruct a as [[t ns] n], b as [[t' ns'] n']. unfold valid_rkey, valid_type, key_of, MakeKey. cbn.
  intros [[Ht _] Hn] [[Ht' _] Hn'] Heq. apply cut_inj in Heq as [-> Heq]; [|done..].
  by apply cut_inj in Heq as [-> ->].
Qed.

Lemma MakeVersionKey_cut t ns name ver :
  MakeVersionKey t ns name ver = (t +:+ "-versions") +:+ String "/" (ns +:+ "/" +:+ name +:+ "/" +:+ ver).
Proof. unfold MakeVersionKey. by rewrite string_app_assoc. Qed.

Lemma MakeKey_not_version k t ns name ver :
  valid_rkey k → free "/" t = true → key_of k ≠ MakeVersionKey t ns name ver.
Proof.
  destruct k as [[t' ns'] n']. intros [[Ht Hv] _] Hft. rewrite MakeVersionKey_cut. unfold key_of, MakeKey. cbn.
  intros Heq. apply cut_inj in Heq as [Heq _]; [by apply (Hv t)|done|]. by rewrite free_app, Hft.
Qed.

(** A key that parses back is the one made. *)
Lemma ParseKey_MakeKey k : valid_rkey k → free "/" k.2 = true → ParseKey (key_of k) = Some k.
Proof.
  destruct k as [[t ns] n]. intros [[Ht _] Hn] Hname. unfold ParseKey, key_of, MakeKey. cbn in *.
  rewrite (Split_cut "/" t) by done. rewrite (Split_cut "/" ns) by done. by rewrite (Split_free "/" n).
Qed.

(** Which resources a listing asks for. *)
Definition asked (t : ResourceType) (ns : string) (k : rkey) : bool :=
  bool_decide (k.1.1 = t) && (every_namespace ns || bool_decide (k.1.2 = ns)).

Lemma MakePrefix_spec t ns k :
  free "/" t = true → free "/" ns = true → valid_rkey k → String.prefix (MakePrefix t ns) (key_of k) = asked t ns k.
Proof.
  destruct k as [[t' ns'] n']. intros Ht Hns [[Ht' _] Hns']. unfold MakePrefix, asked, key_of, MakeKey. cbn in *.
  destruct (every_namespace ns); cbn [orb].
  - rewrite andb_true_r. rewrite (prefix_cut "/" t t') by done. by apply bool_decide_ext.
  - apply eq_true_iff_eq. rewrite prefix_spec, andb_true_iff, !bool_decide_eq_true. split.
    + intros [x Hx]. rewrite !string_app_assoc in Hx. apply cut_inj in Hx as [-> Hx]; [|done..].
      rewrite !string_app_assoc in Hx. by apply cut_inj in Hx as [-> _].
    + intros [-> ->]. exists n'. rewrite string_app_assoc. cbn [String.append]. by rewrite string_app_assoc.
Qed.

Lemma MakePrefix_version t ns t' ns' name ver :
  valid_type t → free "/" t' = true →
  String.prefix (MakePrefix t ns) (MakeVersionKey t' ns' name ver) = false.
Proof.
  intros [Ht Hv] Ht'. rewrite MakeVersionKey_cut. apply not_true_iff_false. rewrite prefix_spec. intros [x Hx].
  assert (∃ y, (t' +:+ "-versions") +:+ String "/" (ns' +:+ "/" +:+ name +:+ "/" +:+ ver) = t +:+ String "/" y) as [y Hy].
  { rewrite Hx. unfold MakePrefix. destruct (every_namespace ns); rewrite !string_app_assoc; by eexists. }
  apply cut_inj in Hy as [Hy _]; [by apply (Hv t')| |done]. by rewrite free_app, Ht'.
Qed.

(** ** Sorted listings *)

#[local] Instance key_less_weak {A} : StrictWeak (@key_less A).
Proof. split; unfold key_less; intros; [by apply string_ltb_asym|by eapply string_ltb_negtrans]. Qed.

Lemma sorted_by_key {A} (l : list (string * A)) :
  NoDup l.*1 → StronglySorted (λ a b, String.ltb a.1 b.1 = true) (SliceStable key_less l).
Proof.
  intros Hnd. assert (NoDup (SliceStable key_less l).*1) as Hnd'.
  { by rewrite (fmap_Permutation fst _ _ (SliceStable_perm key_less l)). }
  pose proof (SliceStable_sorted key_less l) as Hs. revert Hnd'. induction Hs as [|a r Hr IH Ha]; [constructor|].
  rewrite fmap_cons, NoDup_cons. intros [Hnin Hnd']. constructor; [by apply IH|].
  rewrite Forall_forall in Ha |- *. intros b Hb. specialize (Ha b Hb). unfold not_after, key_less in Ha.
  destruct (String.ltb a.1 b.1) eqn:Hlt; [done|]. destruct Hnin.
  rewrite (string_ltb_total a.1 b.1) by done. by apply list_elem_of_fmap_2.
Qed.

(** Two listings with the same entries are equal. *)
Lemma sorted_by_key_eq {A} (l k : list (string * A)) :
  NoDup l.*1 → NoDup k.*1 → (∀ x, x ∈ l ↔ x ∈ k) → SliceStable key_less l = SliceStable key_less k.
Proof.
  intros Hl Hk Hin. assert (AntiSymm eq (λ a b : string * A, String.ltb a.1 b.1 = true)) as Hanti.
  { intros a b Hab Hba. apply string_ltb_asym in Hab. congruence. }
  eapply (StronglySorted_unique (λ a b, String.ltb a.1 b.1 = true)); [by apply sorted_by_key..|].
  rewrite !SliceStable_perm. apply NoDup_Permutation; [by eapply NoDup_fmap_1..|done].
Qed.

(** ** The abstract store *)

Section Refinement.
Context {V D : Type}.
Context (Marshal : V → result string D) (MarshalVersion : string → Time → V → result string D).
Context (Unmarshal : D → result string V) (Generic : D → result string D).
(** JSON: encoding succeeds, and decoding undoes it; through an empty interface
    a value comes back as [coarse] makes it (numbers as float64). *)
Context (enc : V → D) (Henc : ∀ v, Marshal v = Ok (enc v)) (Hdec : ∀ v, Unmarshal (enc v) = Ok v).
Context (coarse : V → V) (Hgen : ∀ v, ∃ d, Generic (enc v) = Ok d ∧ Unmarshal d = Ok (coarse v)).
Context (Hver : ∀ id now v, is_ok (MarshalVersion id now v) = true).

Inductive store_op :=
| OCreate (readable commits : bool) (now : Time) (k : rkey) (v : V)
| OUpdate (readable commits : bool) (now : Time) (source : EventSource) (k : rkey) (v : V)
| OUpdateFunc (readable commits : bool) (now : Time) (source : EventSource) (k : rkey) (f : V → mutation V)
| ODelete (readable commits : bool) (k : rkey)
| OGet (readable : bool) (k : rkey)
| OList (t : ResourceType) (ns : string).

Definition valid_op (op : store_op) : Prop :=
  match op with
  | OCreate _ _ _ k _ | OUpdate _ _ _ _ k _ | OUpdateFunc _ _ _ _ k _ | ODelete _ _ k | OGet _ k => valid_rkey k
  | OList t ns => valid_type t ∧ free "/" ns = true
  end.

(** The call, and what it returned. *)
Definition exec_op (op : store_op) (s : BadgerStore V D) : BadgerStore V D * result StoreError (list V) :=
  let unit_ r : result StoreError (list V) := match r with Ok _ => Ok [] | Err e => Err e end in
  match op with
  | OCreate r c now (t, ns, n) v =>
      let '(s', res) := Create Marshal MarshalVersion r c now t ns n v s in (s', unit_ res)
  | OUpdate r c now src (t, ns, n) v =>
      let '(s', res) := Update Marshal MarshalVersion r c now src t ns n v s in (s', unit_ res)
  | OUpdateFunc r c now src (t, ns, n) f =>
      let outcome := if c then Committed else CommitFailed in
      match UpdateFunc Marshal MarshalVersion Unmarshal r outcome [] now src t ns n f s with
      | (s', Some res) => (s', unit_ res)
      | (s', None) => (s', Err SEConflict)
      end
  | ODelete r c (t, ns, n) => let '(s', res) := Delete Generic r c t ns n s in (s', unit_ res)
  | OGet r (t, ns, n) => (s, match Get Unmarshal r t ns n s with Ok v => Ok [v] | Err e => Err e end)
  | OList t ns => (s, ListResources Unmarshal Generic t ns s)
  end.

(** The same calls on a map. *)
Definition guarded (commits : bool) (m m' : gmap rkey V) : gmap rkey V * result StoreError (list V) :=
  if commits then (m', Ok []) else (m, Err SECommit).

Definition spec_list (t : ResourceType) (ns : string) (m : gmap rkey V) : list V :=
  (SliceStable key_less ((λ kv : rkey * V, (key_of kv.1, kv.2)) <$>
     List.filter (λ kv : rkey * V, asked t ns kv.1) (map_to_list m))).*2.

Definition spec_op (op : store_op) (m : gmap rkey V) : gmap rkey V * result StoreError (list V) :=
  match op with
  | OCreate r c _ k v =>
      if negb r then (m, Err SERead)
      else match m !! k with Some _ => (m, Err SEExists) | None => guarded c m (<[k := v]> m) end
  | OUpdate r c _ _ k v =>
      if negb r then (m, Err SERead)
      else match m !! k with None => (m, Err SENotFound) | Some _ => guarded c m (<[k := v]> m) end
  | OUpdateFunc r c _ _ k f =>
      if negb r then (m, Err SERead)
      else match m !! k with
           | None => (m, Err SENotFound)
           | Some cur => match f cur with
               | MErr e => (m, Err (SEMutate e))
               | MSkip => (m, Ok [])
               | MSet v => guarded c m (<[k := v]> m)
               end
           end
  | ODelete r c k =>
      if negb r then (m, Err SERead)
      else match m !! k with None => (m, Err SENotFound) | Some _ => guarded c m (delete k m) end
  | OGet r k =>
      (m, if negb r then Err SERead else match m !! k with None => Err SENotFound | Some v => Ok [v] end)
  | OList t ns => (m, Ok (coarse <$> spec_list t ns m))
  end.

(** Running a history of calls and collecting the answers. *)
Definition run_store (ops : list store_op) (s : BadgerStore V D) : BadgerStore V D * list (result StoreError (list V)) :=
  fold_left (λ acc op, let '(s', r) := exec_op op acc.1 in (s', acc.2 ++ [r])) ops (s, []).
Definition run_spec (ops : list store_op) (m : gmap rkey V) : gmap rkey V * list (result StoreError (list V)) :=
  fold_left (λ acc op, let '(m', r) := spec_op op acc.1 in (m', acc.2 ++ [r])) ops (m, []).

(** The database holds the map's entries, and otherwise version records. *)
Definition represents (d : gmap string D) (m : gmap rkey V) : Prop :=
  (∀ k v, m !! k = Some v → valid_rkey k) ∧
  (∀ k, valid_rkey k → d !! key_of k = enc <$> m !! k) ∧
  (∀ s x, d !! s = Some x →
     (∃ k, valid_rkey k ∧ s = key_of k) ∨ ∃ t ns n ver, free "/" t = true ∧ s = MakeVersionKey t ns n ver).

Lemma putVersion_represents now k v d d' m :
  valid_rkey k → represents d m → putVersion MarshalVersion now k.1.1 k.1.2 k.2 v d = Ok d' → represents d' m.
Proof.
  intros [[Ht Hv] Hns] (H1 & H2 & H3). unfold putVersion.
  destruct (MarshalVersion _ now v) as [x|]; [|done]. intros <-%Ok_inj. split; [done|]. split.
  - intros k' Hk'. rewrite lookup_insert_ne; [by apply H2|]. symmetry. by apply MakeKey_not_version.
  - intros s y Hs. apply lookup_insert_Some in Hs as [[<- _]|[_ Hs]]; [right|by eapply H3]. by repeat eexists.
Qed.

Lemma putVersion_ok now t ns n v d : ∃ d', putVersion MarshalVersion now t ns n v d = Ok d'.
Proof.
  unfold putVersion. specialize (Hver ("v" +:+ pretty.pretty now) now v).
  destruct (MarshalVersion _ now v); [eauto|done].
Qed.

Lemma insert_represents k v d m : valid_rkey k → represents d m → represents (<[key_of k := enc v]> d) (<[k := v]> m).
Proof.
  intros Hk (H1 & H2 & H3). split; [|split].
  - intros k' v' Hl. apply lookup_insert_Some in Hl as [[<- _]|[_ Hl]]; [done|by eapply H1].
  - intros k' Hk'. destruct (decide (k = k')) as [<-|Hne]; [by rewrite !lookup_insert_eq|].
    rewrite !lookup_insert_ne; [by apply H2|done|]. intros Heq. by apply MakeKey_inj in Heq.
  - intros s x Hs. apply lookup_insert_Some in Hs as [[<- _]|[_ Hs]]; [left; eauto|by eapply H3].
Qed.

Lemma delete_represents k d m : valid_rkey k → represents d m → represents (delete (key_of k) d) (delete k m).
Proof.
  intros Hk (H1 & H2 & H3). split; [|split].
  - intros k' v' Hl. apply lookup_delete_Some in Hl as [_ Hl]. by eapply H1.
  - intros k' Hk'. destruct (decide (k = k')) as [<-|Hne]; [by rewrite !lookup_delete_eq|].
    rewrite !lookup_delete_ne; [by apply H2|done|]. intros Heq. by apply MakeKey_inj in Heq.
  - intros s x Hs. apply lookup_delete_Some in Hs as [_ Hs]. by eapply H3.
Qed.

(** What a listing walks over. *)
Lemma scan_elem d m t ns s x :
  represents d m → valid_type t → free "/" ns = true →
  (s, x) ∈ List.filter (λ kv, String.prefix (MakePrefix t ns) kv.1) (map_to_list d) ↔
  (s, x) ∈ (λ kv : rkey * V, (key_of kv.1, enc kv.2)) <$> List.filter (λ kv : rkey * V, asked t ns kv.1) (map_to_list m).
Proof.
  intros (H1 & H2 & H3) [Ht Hv] Hns. rewrite elem_of_filterb, elem_of_map_to_list, list_elem_of_fmap. split.
  - intros [Hp Hd]. destruct (H3 _ _ Hd) as [(k & Hk & ->)|(t' & ns' & n & ver & Ht' & ->)].
    + cbn in Hp. rewrite MakePrefix_spec in Hp by done. rewrite H2 in Hd by done.
      apply fmap_Some in Hd as (v & Hm & ->). exists (k, v). split; [done|].
      by rewrite elem_of_filterb, elem_of_map_to_list.
    + cbn in Hp. by rewrite MakePrefix_version in Hp.
  - intros ([k v] & [= -> ->] & Hin). rewrite elem_of_filterb, elem_of_map_to_list in Hin. destruct Hin as [Ha Hm].
    pose proof (H1 _ _ Hm) as Hk. cbn in *. rewrite MakePrefix_spec by done. by rewrite H2, Hm.
Qed.

Lemma SliceStable_encode (l : list (string * V)) :
  SliceStable key_less ((λ kv, (kv.1, enc kv.2)) <$> l) = (λ kv, (kv.1, enc kv.2)) <$> SliceStable key_less l.
Proof. by apply SliceStable_fmap. Qed.

Lemma decodeAll_encode (l : list (string * V)) : ∃ ds,
  decodeAll Generic ((λ kv, (kv.1, enc kv.2)) <$> l) = Ok ds ∧ decodeAll Unmarshal (pair "" <$> ds) = Ok (coarse <$> l.*2).
Proof.
  induction l as [|[s v] l (ds & IH1 & IH2)]; [by exists []|]. destruct (Hgen v) as (d & Hg & Hu). exists (d :: ds).
  cbn [fmap list_fmap decodeAll fst snd]. rewrite Hg, IH1. split; [done|]. cbn [fmap list_fmap decodeAll] in *. by rewrite Hu, IH2.
Qed.

(** A listing is exactly what the map holds, in key order. *)
Lemma ListResources_spec s m t ns :
  represents (bs_db s) m → valid_type t → free "/" ns = true →
  ListResources Unmarshal Generic t ns s = Ok (coarse <$> spec_list t ns m).
Proof.
  intros Hrep Ht Hns. unfold ListResources, scanPrefix, spec_list.
  rewrite (sorted_by_key_eq _ ((λ kv : rkey * V, (key_of kv.1, enc kv.2)) <$>
     List.filter (λ kv : rkey * V, asked t ns kv.1) (map_to_list m))).
  - destruct (decodeAll_encode (SliceStable key_less ((λ kv : rkey * V, (key_of kv.1, kv.2)) <$>
      List.filter (λ kv : rkey * V, asked t ns kv.1) (map_to_list m)))) as (ds & H1 & H2).
    rewrite <- SliceStable_encode, <- list_fmap_compose in H1.
    replace ((λ kv : rkey * V, (key_of kv.1, enc kv.2)) <$> _) with
      ((λ kv : string * V, (kv.1, enc kv.2)) ∘ (λ kv : rkey * V, (key_of kv.1, kv.2)) <$>
        List.filter (λ kv : rkey * V, asked t ns kv.1) (map_to_list m)) by done.
    by rewrite H1.
  - apply NoDup_fmap_filterb, NoDup_fst_map_to_list.
  - rewrite <- list_fmap_compose. apply NoDup_fmap_2_strong; [|apply NoDup_filterb, NoDup_map_to_list].
    intros [k v] [k' v'] Hin Hin' Heq. cbn in Heq.
    rewrite elem_of_filterb, elem_of_map_to_list in Hin, Hin'. destruct Hrep as [H1 _].
    apply MakeKey_inj in Heq as ->; [|eapply H1, Hin|eapply H1, Hin']. destruct Hin, Hin'. congruence.
  - intros [key x]. by apply scan_elem.
Qed.

(** Every call keeps the representation and answers as the map does. *)
Lemma emit_db (ev : WatchEvent (V + D)) (s : BadgerStore V D) : bs_db (emitWatchEvent ev s) = bs_db s.
Proof. unfold emitWatchEvent. by destruct (bs_watchConns s). Qed.

(** A committed write of an accepted value, with its version record. *)
Lemma put_represents now k v d m :
  valid_rkey k → represents d m →
  ∃ d', putVersion MarshalVersion now k.1.1 k.1.2 k.2 v (<[key_of k := enc v]> d) = Ok d' ∧ represents d' (<[k := v]> m).
Proof.
  intros Hk Hrep. destruct (putVersion_ok now k.1.1 k.1.2 k.2 v (<[key_of k := enc v]> d)) as [d' Hd].
  exists d'. split; [done|]. eapply putVersion_represents; [done| |done]. by apply insert_represents.
Qed.

#[local] Ltac lookup_with H2 := match goal with
  |- context [_ !! MakeKey ?t ?ns ?n] => change (MakeKey t ns n) with (key_of (t, ns, n)); rewrite (H2 (t, ns, n)) by done end.

Lemma exec_op_sim op s m :
  valid_op op → represents (bs_db s) m →
  represents (bs_db (exec_op op s).1) (spec_op op m).1 ∧ (exec_op op s).2 = (spec_op op m).2.
Proof.
  intros Hop Hrep. pose proof Hrep as (_ & H2 & _).
  destruct op as [r c now [[t ns] n] v|r c now src [[t ns] n] v|r c now src [[t ns] n] f|r c [[t ns] n]|r [[t ns] n]|t ns];
    cbn [valid_op] in Hop; cbn [exec_op spec_op].
  - unfold Create, txCreate. rewrite Henc. destruct r; cbn [negb]; [|done]. lookup_with H2.
    destruct (m !! _); cbn [fmap option_fmap option_map]; [done|].
    destruct (put_represents now (t, ns, n) v (bs_db s) m) as (d' & Hd & Hr); [done..|]. cbn [fst snd] in Hd. rewrite Hd.
    destruct c; cbn [negb guarded fst snd]; [|done]. by rewrite emit_db.
  - unfold Update, txUpdate. rewrite Henc. destruct r; cbn [negb]; [|done]. lookup_with H2.
    destruct (m !! _); cbn [fmap option_fmap option_map]; [|done].
    destruct (put_represents now (t, ns, n) v (bs_db s) m) as (d' & Hd & Hr); [done..|]. cbn [fst snd] in Hd. rewrite Hd.
    destruct c; cbn [negb guarded fst snd]; [|done]. by rewrite emit_db.
  - unfold UpdateFunc. cbn [fmap list_fmap app updateAttempts]. destruct r; cbn [negb]; [|done]. lookup_with H2.
    destruct (m !! _) as [cur|]; cbn [fmap option_fmap option_map]; [|done].
    rewrite Hdec. destruct (f cur) as [v| |e]; [|done..]. rewrite Henc.
    destruct c; cbn [guarded fst snd]; [|done].
    destruct (put_represents now (t, ns, n) v (bs_db s) m) as (d' & Hd & Hr); [done..|]. cbn [fst snd] in Hd. rewrite Hd.
    cbn [fst snd]. by rewrite emit_db.
  - unfold Delete. destruct r; cbn [negb]; [|done]. lookup_with H2.
    destruct (m !! _) as [v|]; cbn [fmap option_fmap option_map]; [|done]. destruct (Hgen v) as (g & Hg & _). rewrite Hg.
    destruct c; cbn [negb guarded fst snd]; [|done]. rewrite emit_db. split; [|done].
    by apply (delete_represents (t, ns, n)).
  - unfold Get, txGet. destruct r; cbn [negb fst snd]; [|done]. lookup_with H2.
    destruct (m !! _); cbn [fmap option_fmap option_map]; [|done]. by rewrite Hdec.
  - destruct Hop. split; [done|]. cbn [snd]. by apply ListResources_spec.
Qed.

Lemma run_sim ops s m acc :
  Forall valid_op ops → represents (bs_db s) m →
  let rs := fold_left (λ acc op, let '(s', r) := exec_op op acc.1 in (s', acc.2 ++ [r])) ops (s, acc) in
  let rm := fold_left (λ acc op, let '(m', r) := spec_op op acc.1 in (m', acc.2 ++ [r])) ops (m, acc) in
  represents (bs_db rs.1) rm.1 ∧ rs.2 = rm.2.
Proof.
  intros Hops. revert s m acc. induction Hops as [|op ops Hop _ IH]; intros s m acc Hrep; [done|].
  cbn [fold_left fst snd]. destruct (exec_op_sim op s m Hop Hrep) as [Hrep' Heq].
  destruct (exec_op op s) as [s' r], (spec_op op m) as [m' r']. cbn in Heq, Hrep'. subst. by apply IH.
Qed.

(** ** The compare-and-swap loop *)

(** What a callback leaves, as the status component reads it. *)
Definition kept (m : mutation V) : option V := match m with MSet v => Some v | _ => None end.

(** The attempts that lost a conflict had something to write. *)
Definition writes (mutate : V → mutation V) (cur : V) : Prop := is_Some (kept (mutate cur)).

Lemma updateAttempts_conflicts mutate attempt earlier rest :
  Forall (writes mutate) earlier → (attempt + length earlier ≤ updateFuncMaxRetries)%nat →
  updateAttempts Marshal Unmarshal true mutate attempt
    (((λ x, (Some (enc x), Conflicted)) <$> earlier) ++ rest) =
  updateAttempts Marshal Unmarshal true mutate (attempt + length earlier) rest.
Proof.
  intros Hw. revert attempt. induction Hw as [|cur l [v Hv] _ IH]; intros a Hle; cbn [length fmap list_fmap app] in *.
  { by rewrite Nat.add_0_r. }
  cbn [updateAttempts negb]. rewrite Hdec. destruct (mutate cur); [|done..]. rewrite Henc.
  rewrite bool_decide_true by lia. rewrite IH by lia. f_equal. lia.
Qed.

Lemma updateAttempts_exhausted mutate attempt earlier rest :
  Forall (writes mutate) earlier → (attempt ≤ updateFuncMaxRetries < attempt + length earlier)%nat →
  updateAttempts Marshal Unmarshal true mutate attempt
    (((λ x, (Some (enc x), Conflicted)) <$> earlier) ++ rest) = Some (Err SEConflict).
Proof.
  intros Hw. revert attempt. induction Hw as [|cur l [v Hv] _ IH]; intros a Hle; cbn [length fmap list_fmap app] in *; [lia|].
  cbn [updateAttempts negb]. rewrite Hdec. destruct (mutate cur); [|done..]. rewrite Henc.
  destruct (bool_decide_reflect (a < updateFuncMaxRetries)%nat); [|done]. apply IH. lia.
Qed.

Lemma status_conflicts mutate retries earlier (last : option V) :
  Forall (writes mutate) earlier → 
  Status.UpdateFunc retries ((Some <$> earlier) ++ [last]) (kept ∘ mutate) =
  if bool_decide (length earlier ≤ retries)%nat
  then Status.UpdateFunc (retries - length earlier) [last] (kept ∘ mutate) else Err ErrConflict.
Proof.
  intros Hw. revert retries. induction Hw as [|cur l [v Hv] _ IH]; intros r.
  { cbn [length fmap list_fmap app]. by rewrite bool_decide_true, Nat.sub_0_r by lia. }
  cbn [length fmap list_fmap app Status.UpdateFunc]. unfold compose at 1. rewrite Hv.
  destruct ((Some <$> l) ++ [last]) as [|x k] eqn:Hk; [by destruct l|].
  destruct r as [|r]; [by rewrite bool_decide_false by lia|]. rewrite IH. cbn [Nat.sub].
  by rewrite (bool_decide_ext (S (length l) ≤ S r) (length l ≤ r))%nat by lia.
Qed.
End Refinement.

(** ** The optimistic loop *)

Section Attempts.
Context {V D : Type} (Marshal : V → result string D) (Unmarshal : D → result string V).
Context (readable : bool) (mutate : V → mutation V).

(** A read whose mutation writes [v], encoded as [data']. *)
Definition would_write (x : option D) (v : V) (data' : D) : Prop :=
  ∃ data v0, x = Some data ∧ Unmarshal data = Ok v0 ∧ mutate v0 = MSet v ∧ Marshal v = Ok data'.

Definition would_lose (x : option D) : Prop := ∃ v data', would_write x v data'.

(** A read whose mutation skips the write. *)
Definition would_skip (x : option D) : Prop := ∃ data v0, x = Some data ∧ Unmarshal data = Ok v0 ∧ mutate v0 = MSkip.

(** What an error of the loop says of the reads and of the last commit. *)
Definition explains (seen : list (option D)) (outcome : commit) (e : StoreError) : Prop :=
  match e with
  | SERead => readable = false
  | SENotFound => None ∈ seen
  | SEDeserialize m => ∃ data, Some data ∈ seen ∧ Unmarshal data = Err m
  | SEMutate m => ∃ data v0, Some data ∈ seen ∧ Unmarshal data = Ok v0 ∧ mutate v0 = MErr m
  | SESerialize m => ∃ data v0 v, Some data ∈ seen ∧ Unmarshal data = Ok v0 ∧ mutate v0 = MSet v ∧ Marshal v = Err m
  | SECommit => outcome = CommitFailed
  | SEConflict => Forall would_lose seen
  | SEExists | SEClosed => False
  end.

Lemma explains_cons x seen outcome e :
  would_lose x → explains seen outcome e → explains (x :: seen) outcome e.
Proof.
  intros Hx. destruct e; cbn; try done.
  - by right.
  - intros (data & v0 & v & Hin & H). exists data, v0, v. split; [by right|done].
  - intros (data & Hin & H). exists data. split; [by right|done].
  - by constructor.
  - intros (data & v0 & Hin & H). exists data, v0. split; [by right|done].
Qed.

(** The first attempt that does not lose its commit decides. *)
Lemma updateAttempts_spec a earlier cur outcome :
  (a ≤ updateFuncMaxRetries)%nat →
  let seen := earlier ++ [cur] in
  match updateAttempts Marshal Unmarshal readable mutate a (((λ x, (x, Conflicted)) <$> earlier) ++ [(cur, outcome)]) with
  | Some (Ok (Some (v, data'))) =>
      outcome = Committed ∧ (a + length earlier ≤ updateFuncMaxRetries)%nat ∧ Forall would_lose earlier ∧ would_write cur v data'
  | Some (Ok None) => ∃ x, x ∈ seen ∧ would_skip x
  | Some (Err SEConflict) => ∃ lost, lost `prefix_of` seen ∧ Forall would_lose lost ∧ (a + length lost = S updateFuncMaxRetries)%nat
  | Some (Err e) => explains seen outcome e
  | None => outcome = Conflicted ∧ Forall would_lose seen
  end.
Proof.
  revert a. induction earlier as [|x earlier IH]; intros a Ha; cbn [fmap list_fmap app updateAttempts].
  - destruct readable eqn:Hr; cbn [negb]; [|done]. destruct cur as [data|]; [|by left].
    destruct (Unmarshal data) as [v0|e] eqn:Hu; [|exists data; split; [by left|done]].
    destruct (mutate v0) as [v| |e] eqn:Hm; [|by exists (Some data); split; [left|exists data, v0]|by exists data, v0; split; [left|]].
    destruct (Marshal v) as [data'|e] eqn:He; [|by exists data, v0, v; split; [left|]].
    assert (would_write (Some data) v data') as Hw by (by exists data, v0).
    destruct outcome; [split_and!; [done|cbn; lia|done|done]| |done].
    case_bool_decide; [split; [done|]; apply Forall_singleton; by exists v, data'|].
    exists [Some data]. split; [done|]. split; [apply Forall_singleton; by exists v, data'|cbn; lia].
  - destruct readable eqn:Hr; cbn [negb]; [|done]. destruct x as [data|]; [|by left].
    destruct (Unmarshal data) as [v0|e] eqn:Hu; [|exists data; split; [by left|done]].
    destruct (mutate v0) as [v| |e] eqn:Hm; [|by exists (Some data); split; [left|exists data, v0]|by exists data, v0; split; [left|]].
    destruct (Marshal v) as [data'|e] eqn:He; [|by exists data, v0, v; split; [left|]].
    assert (would_lose (Some data)) as Hw by (by exists v, data', data, v0).
    case_bool_decide.
    2:{ exists [Some data]. split; [by apply prefix_cons, prefix_nil|]. split; [by apply Forall_singleton|cbn; lia]. }
    specialize (IH (S a) ltac:(lia)). rewrite <-?Hr in *. destruct (updateAttempts _ _ _ _ _ _) as [[[[w d]|]|e]|].
    + destruct IH as (-> & Hle & Hall & Hlast). split_and!; [done|cbn; lia|by constructor|done].
    + destruct IH as (y & Hin & Hs). exists y. split; [by right|done].
    + destruct e; try (by apply explains_cons). destruct IH as (lost & Hp & Hall & Hl).
      exists (Some data :: lost). split; [by apply prefix_cons|]. split; [by constructor|cbn; lia].
    + destruct IH as [-> Hall]. split; [done|by constructor].
Qed.

Lemma updateAttempts_writes_from a earlier cur v data' :
  readable = true → (a + length earlier ≤ updateFuncMaxRetries)%nat → Forall would_lose earlier → would_write cur v data' →
  updateAttempts Marshal Unmarshal readable mutate a (((λ x, (x, Conflicted)) <$> earlier) ++ [(cur, Committed)]) =
  Some (Ok (Some (v, data'))).
Proof.
  intros Hr. revert a. induction earlier as [|x earlier IH]; intros a Hle Hall (data & v0 & -> & Hu & Hm & He);
    cbn [fmap list_fmap app updateAttempts]; rewrite Hr; cbn [negb].
  - by rewrite Hu, Hm, He.
  - apply Forall_cons in Hall as [(w & d & data1 & v1 & -> & -> & -> & ->) Hall]. cbn [length] in Hle.
    rewrite bool_decide_true by lia. rewrite <-Hr. apply IH; [lia|done|by exists data, v0].
Qed.
End Attempts.

(** ** Claims *)

(** C4: for every history of Create, Update, UpdateFunc, Delete, Get and List
    calls, failed reads and commits included, the store over byte keys answers
    exactly as a map from (type, namespace, name) to values does: the version
    records never surface, a listing is every matching resource once, in key
    order, and a call that fails changes nothing.  JSON encodes and decodes
    every value; a listing, which decodes without a type first, returns each
    value as [coarse] makes it (the identity but for integers a float64 cannot
    hold). *)
Theorem store_refines_map {V D} (Marshal : V → result string D) MarshalVersion Unmarshal Generic (enc : V → D) (coarse : V → V)
    (Henc : ∀ v, Marshal v = Ok (enc v)) (Hdec : ∀ v, Unmarshal (enc v) = Ok v)
    (Hgen : ∀ v, ∃ d, Generic (enc v) = Ok d ∧ Unmarshal d = Ok (coarse v))
    (Hver : ∀ id now v, is_ok (MarshalVersion id now v) = true) (ops : list store_op) (Hops : Forall valid_op ops) :
  (run_store Marshal MarshalVersion Unmarshal Generic ops NewBadgerStore).2 = (run_spec coarse ops ∅).2.
Proof.
  unfold run_store, run_spec. eapply run_sim; [done..|]. split; [|split].
  - intros k v Hl. by rewrite lookup_empty in Hl.
  - intros k _. by rewrite !lookup_empty.
  - intros s x Hl. cbn in Hl. by rewrite lookup_empty in Hl.
Qed.

(** A float64 keeps even integers only, just above 2^53. *)
Definition as_float64 (v : Z) : Z := if 2 ^ 53 <? v then v - v mod 2 else v.

Lemma store_refines_map_witness :
  (run_store (Ok (E:=string)) (λ _ _ v, Ok v) Ok (λ d, Ok (as_float64 d))
     [OCreate true true 1 ("service", "prod", "web") 7; OCreate true true 2 ("service", "prod", "web") 8;
      OCreate true true 3 ("service", "dev", "api") 5; OUpdateFunc true true 4 "" ("service", "prod", "web") (λ v, MSet (v + 1));
      OList "service" "all"; OList "service" "prod"; ODelete true true ("service", "prod", "web");
      OUpdate true false 5 "" ("service", "dev", "api") 6; OGet true ("service", "prod", "web");
      OGet true ("service", "dev", "api"); OUpdate true true 6 "" ("service", "dev", "api") (2 ^ 53 + 1);
      OGet true ("service", "dev", "api"); OList "service" "dev"] NewBadgerStore).2
  = [Ok []; Err SEExists; Ok []; Ok []; Ok [5; 8]; Ok [8]; Ok []; Err SECommit; Err SENotFound; Ok [5];
     Ok []; Ok [2 ^ 53 + 1]; Ok [2 ^ 53]].
Proof.
  rewrite (store_refines_map Ok (λ _ _ v, Ok v) Ok (λ d, Ok (as_float64 d)) id as_float64 (λ _, eq_refl) (λ _, eq_refl)
    (λ v, ex_intro _ (as_float64 v) (conj eq_refl eq_refl)) (λ _ _ _, eq_refl)).
  - by vm_compute.
  - repeat (apply Forall_cons_2; [split; [apply short_type; [done|cbn; lia]|done]|]). apply Forall_nil_2.
Defined.

(** C30: [UpdateFunc] is an atomic read-modify-write.  Let it read the key any
    number of times, each but the last losing its commit, with any callback and
    any encoding, and let its last attempt read what the key holds.
    When it succeeds, either it wrote: the commit was accepted, no more than the
    retries allowed were lost, the new value is the callback's for the very
    value the key held, the database is the old one with that value and its
    version record, and the one event sent is an update with that value and the
    caller's source; or some attempt's callback skipped the write and nothing
    changed.  When it fails, nothing changed and the error says why: a failed
    read, a missing record, a record that does not decode, the callback's own
    error for a value read, a value that does not encode, a refused commit, or
    one more lost attempt than the retries allowed.  It is left undecided only
    while conflicts within the retries are all it met; and when every lost
    attempt would have written, within the retries, and the last one commits a
    value that encodes, it does write. *)
Theorem UpdateFunc_atomic {V D} (Marshal : V → result string D) MarshalVersion Unmarshal
    (readable : bool) (outcome : commit) (earlier : list (option D)) (now : Time) (source : EventSource)
    (t : ResourceType) (ns name : string) (mutate : V → mutation V) (s : BadgerStore V D) :
  let key := MakeKey t ns name in
  let version := "v" +:+ pretty now in
  let seen := earlier ++ [bs_db s !! key] in
  let lost := would_lose Marshal Unmarshal mutate in
  let wrote v data' copy s' :=
    outcome = Committed ∧ (length earlier ≤ updateFuncMaxRetries)%nat ∧ Forall lost earlier ∧
    would_write Marshal Unmarshal mutate (bs_db s !! key) v data' ∧ MarshalVersion version now v = Ok copy ∧
    s' = emitWatchEvent (mkWatchEvent WatchEventUpdated t ns name (inl v) source)
           (mkBadgerStore (<[MakeVersionKey t ns name version := copy]> (<[key := data']> (bs_db s))) (bs_watchConns s) (bs_subs s)) in
  let '(s', r) := UpdateFunc Marshal MarshalVersion Unmarshal readable outcome earlier now source t ns name mutate s in
  match r with
  | Some (Ok _) => (∃ v data' copy, wrote v data' copy s') ∨ s' = s ∧ ∃ x, x ∈ seen ∧ would_skip Unmarshal mutate x
  | Some (Err e) => s' = s ∧
      match e with
      | SEConflict => ∃ l, l `prefix_of` seen ∧ Forall lost l ∧ length l = S updateFuncMaxRetries
      | SESerialize m => explains Marshal Unmarshal readable mutate seen outcome e ∨ ∃ v data',
          would_write Marshal Unmarshal mutate (bs_db s !! key) v data' ∧ MarshalVersion version now v = Err m
      | _ => explains Marshal Unmarshal readable mutate seen outcome e
      end
  | None => s' = s ∧ outcome = Conflicted ∧ Forall lost seen
  end ∧
  (∀ v data' copy, readable = true → outcome = Committed → (length earlier ≤ updateFuncMaxRetries)%nat → Forall lost earlier →
     would_write Marshal Unmarshal mutate (bs_db s !! key) v data' → MarshalVersion version now v = Ok copy → wrote v data' copy s').
Proof.
  cbv zeta. unfold UpdateFunc.
  pose proof (updateAttempts_spec Marshal Unmarshal readable mutate 0 earlier (bs_db s !! MakeKey t ns name) outcome ltac:(lia)) as H.
  cbv zeta in H.
  assert (Hdec : readable = true → outcome = Committed → (length earlier ≤ updateFuncMaxRetries)%nat →
    Forall (would_lose Marshal Unmarshal mutate) earlier → ∀ v data', would_write Marshal Unmarshal mutate (bs_db s !! MakeKey t ns name) v data' →
    updateAttempts Marshal Unmarshal readable mutate 0 (((λ x, (x, Conflicted)) <$> earlier) ++ [(bs_db s !! MakeKey t ns name, outcome)]) =
    Some (Ok (Some (v, data')))).
  { intros -> -> Hle Hall v data' Hw. by apply updateAttempts_writes_from. }
  destruct (updateAttempts _ _ _ _ _ _) as [[[[v data']|]|e]|] eqn:E.
  - unfold putVersion. destruct H as (-> & Hle & Hall & Hw). destruct (MarshalVersion _ now v) as [copy|m] eqn:Hv.
    + split; [left; by exists v, data', copy|]. intros w d c Hr _ _ _ Hw' Hc.
      specialize (Hdec Hr eq_refl Hle Hall w d Hw'). injection Hdec as <- <-.
      rewrite Hv in Hc. injection Hc as <-. split_and!; done.
    + split; [split; [done|]; right; by exists v, data'|]. intros w d c Hr _ _ _ Hw' Hc.
      specialize (Hdec Hr eq_refl Hle Hall w d Hw'). injection Hdec as <- <-. congruence.
  - split; [by right|]. intros v data' copy Hr Ho Hle Hall Hw _. by specialize (Hdec Hr Ho Hle Hall v data' Hw).
  - split; [|intros v data' copy Hr Ho Hle Hall Hw _; by specialize (Hdec Hr Ho Hle Hall v data' Hw)].
    split; [done|]. destruct e; try done. by left.
  - split; [done|]. intros v data' copy Hr Ho Hle Hall Hw _. by specialize (Hdec Hr Ho Hle Hall v data' Hw).
Qed.

(** A lost attempt read 1; the key holds 5, so 10 is written with its version;
    with a callback that refuses 5, nothing is. *)
Lemma UpdateFunc_atomic_witness :
  (∃ s', UpdateFunc (Ok (E:=string)) (λ _ _ v, Ok v) Ok true Committed [Some 1] 9 "" "service" "prod" "web"
     (λ v, MSet (v * 2)) (mkBadgerStore {[ "service/prod/web" := 5 ]} (Some ∅) []) = (s', Some (Ok tt)) ∧
     bs_db s' !! "service/prod/web" = Some 10 ∧ bs_db s' !! "service-versions/prod/web/v9" = Some 10) ∧
  (UpdateFunc (Ok (E:=string)) (λ _ _ v, Ok v) Ok true Committed [Some 1] 9 "" "service" "prod" "web"
     (λ v, if v =? 5 then MErr "busy" else MSet v) (mkBadgerStore {[ "service/prod/web" := 5 ]} (Some ∅) [])).1 =
  mkBadgerStore {[ "service/prod/web" := 5 ]} (Some ∅) [].
Proof.
  set (s := mkBadgerStore {[ "service/prod/web" := 5 ]} (Some ∅) [] : BadgerStore Z Z).
  pose proof (λ f, UpdateFunc_atomic (Ok (E:=string)) (λ _ _ v, Ok v) Ok true Committed [Some 1] 9 "" "service" "prod" "web" f s) as H.
  cbv zeta in H. split.
  - destruct (UpdateFunc _ _ _ _ _ _ _ _ _ _ _ (λ v, MSet (v * 2)) s) as [s' r] eqn:E.
    assert (Hr : r = Some (Ok tt)) by (vm_compute in E; by injection E).
    specialize (H (λ v, MSet (v * 2))). rewrite E in H. destruct H as [_ H].
    destruct (H 10 10 10 eq_refl eq_refl) as (_ & _ & _ & _ & _ & ->).
    + cbn. unfold updateFuncMaxRetries. lia.
    + apply Forall_singleton. by exists 2, 2, 1, 1.
    + by exists 5, 5.
    + done.
    + exists (emitWatchEvent (mkWatchEvent WatchEventUpdated "service" "prod" "web" (inl 10) "")
        (mkBadgerStore (<["service-versions/prod/web/v9" := 10]> (<["service/prod/web" := 10]> (bs_db s))) (bs_watchConns s) (bs_subs s))).
      rewrite <-Hr. split; [reflexivity|]. split; vm_compute; reflexivity.
  - specialize (H (λ v, if v =? 5 then MErr "busy" else MSet v)).
    destruct (UpdateFunc _ _ _ _ _ _ _ _ _ _ _ _ s) as [s' [[[]|e]|]] eqn:E; [vm_compute in E; discriminate E| |vm_compute in E; discriminate E].
    exact (proj1 (proj1 H)).
Defined.

(** The optimistic loop on encoded records is the compare-and-swap the status
    write is verified against ([Status.UpdateFunc]): with readable records, a
    callback that never fails, lost attempts that would have written and a last
    commit that is accepted, both end with the same value under the key over the
    same sequence of reads, or both report a missing record or exhausted retries
    and leave the store alone. *)
Lemma UpdateFunc_is_cas {V D} (Marshal : V → result string D) MarshalVersion Unmarshal (enc : V → D)
    (Henc : ∀ v, Marshal v = Ok (enc v)) (Hdec : ∀ v, Unmarshal (enc v) = Ok v)
    (Hver : ∀ id now v, is_ok (MarshalVersion id now v) = true)
    (k : rkey) (Hk : valid_rkey k) (mutate : V → mutation V) (Hmut : ∀ v e, mutate v ≠ MErr e)
    (earlier : list V) (Hearlier : Forall (writes mutate) earlier) (last : option V) (s : BadgerStore V D)
    (Hlast : bs_db s !! key_of k = enc <$> last) (now : Time) (source : EventSource) :
  let '(s', r) := UpdateFunc Marshal MarshalVersion Unmarshal true Committed ((λ v, Some (enc v)) <$> earlier)
                    now source k.1.1 k.1.2 k.2 mutate s in
  match Status.UpdateFunc updateFuncMaxRetries ((Some <$> earlier) ++ [last]) (kept ∘ mutate) with
  | Ok final => r = Some (Ok tt) ∧ bs_db s' !! key_of k = enc <$> final
  | Err ErrNotFound => r = Some (Err SENotFound) ∧ s' = s
  | Err ErrConflict => r = Some (Err SEConflict) ∧ s' = s
  end.
Proof.
  rewrite status_conflicts by done. unfold UpdateFunc. rewrite <- list_fmap_compose. unfold compose at 1.
  fold (key_of k). rewrite Hlast.
  destruct (bool_decide_reflect (length earlier ≤ updateFuncMaxRetries)%nat) as [Hle|Hgt].
  - rewrite (updateAttempts_conflicts Marshal Unmarshal enc Henc Hdec) by (done || lia). cbn [Status.UpdateFunc updateAttempts negb].
    destruct last as [cur|]; cbn [fmap option_fmap option_map]; [|done]. rewrite Hdec. unfold compose.
    destruct (mutate cur) as [v| |e] eqn:Hm; cbn [kept]; [|by rewrite Hlast|by destruct (Hmut cur e)].
    rewrite Henc. destruct (putVersion_ok MarshalVersion Hver now k.1.1 k.1.2 k.2 v (<[key_of k := enc v]> (bs_db s))) as [d' Hd].
    rewrite Hd. split; [done|]. rewrite emit_db. cbn. unfold putVersion in Hd.
    destruct (MarshalVersion _ _ _) as [x|]; [|done]. apply Ok_inj in Hd as <-.
    rewrite lookup_insert_ne, lookup_insert_eq; [done|]. symmetry. apply MakeKey_not_version; [done|apply Hk].
  - by rewrite (updateAttempts_exhausted Marshal Unmarshal enc Henc Hdec) by (done || lia).
Qed.

Lemma UpdateFunc_is_cas_witness :
  (UpdateFunc (Ok (E:=string)) (λ _ _ v, Ok v) Ok true Committed [Some 1] 9 "" "service" "prod" "web"
     (λ v, MSet (v * 2)) (mkBadgerStore {[ "service/prod/web" := 5 ]} (Some ∅) [])).2 = Some (Ok tt).
Proof.
  assert (valid_rkey ("service", "prod", "web")) as Hk by (split; [apply short_type; [done|cbn; lia]|done]).
  pose proof (UpdateFunc_is_cas Ok (λ _ _ v, Ok v) Ok id (λ _, eq_refl) (λ _, eq_refl) (λ _ _ _, eq_refl)
    ("service", "prod", "web") Hk (λ v, MSet (v * 2)) ltac:(done) [1] ltac:(repeat econstructor) (Some 5)
    (mkBadgerStore {[ "service/prod/web" := 5 ]} (Some ∅) []) ltac:(by vm_compute) 9 "") as H.
  cbn [fmap list_fmap fst snd] in H. 
  destruct (UpdateFunc _ _ _ _ _ _ _ _ _ _ _ _ _) as [s' r]. exact (proj1 H).
Defined.
