(* ===== verification/StoreWatchProps.v ===== *)
(** * What the store's watchers receive

    Writers commit and then emit, each on its own goroutine, while every
    subscription's pump drains its backlog: a run interleaves commits, emissions,
    pump steps, new watches, cancellations and the store's close.  A live
    subscription holds exactly the events emitted since it was made, in order, as
    often as the fan-out reaches it: once for a namespaced resource. *)

From Stdlib Require Import Ascii.
From S2P Require Import Prelude Text Types ResourceStore ResourceStoreProps.

(** ** Scopes *)

(** Events of namespaced resources, whose type has no colon. *)
Definition namespaced {V} (ev : WatchEvent V) : Prop :=
  we_ResourceType ev ≠ "" ∧ free ":" (we_ResourceType ev) = true ∧ we_Namespace ev ≠ "".

Lemma scope_key_inj t ns t' ns' :
  free ":" t = true → free ":" t' = true → scope_key t ns = scope_key t' ns' → t = t' ∧ ns = ns'.
Proof. unfold scope_key. cbn. intros Ht Ht' Heq. by apply cut_inj in Heq. Qed.

Lemma scopes_NoDup {V} (ev : WatchEvent V) : namespaced ev → NoDup (scopes ev).
Proof.
  intros (Ht & Hf & Hn). unfold scopes.
  assert (∀ a b a' b', (a = "" ∨ a = we_ResourceType ev) → (a' = "" ∨ a' = we_ResourceType ev) →
    (a, b) ≠ (a', b') → scope_key a b ≠ scope_key a' b') as Hne.
  { intros a b a' b' Ha Ha' Hd Heq. apply Hd.
    apply scope_key_inj in Heq as [-> ->]; [done|by destruct Ha as [->| ->]|by destruct Ha' as [->| ->]]. }
  repeat (constructor; [rewrite ?not_elem_of_cons; repeat split; try apply not_elem_of_nil; apply Hne; auto; congruence|]).
  constructor.
Qed.

(** Does a subscription ask for an event? *)
Definition in_scope {V} (key : string) (ev : WatchEvent V) : bool := bool_decide (key ∈ scopes ev).

Lemma scopes_count {V} key (ev : WatchEvent V) :
  namespaced ev → count_occ String.string_dec (scopes ev) key = if in_scope key ev then 1%nat else 0%nat.
Proof.
  intros Hn%scopes_NoDup. unfold in_scope. destruct (bool_decide_reflect (key ∈ scopes ev)) as [Hin|Hin].
  - apply NoDup_count_occ'; [by apply NoDup_ListNoDup|by apply list_elem_of_In].
  - apply count_occ_not_In. by rewrite <- list_elem_of_In.
Qed.

(** ** Dispatch *)

Section Watchers.
Context {V D : Type}.
#[local] Abbreviation event := (WatchEvent (V + D)).
Implicit Types (s : BadgerStore V D) (sub : watchSub (V + D)) (subs : list (watchSub (V + D))) (ev : event).

Lemma alter_fold_lookup {A} (f : A → A) (ids : list nat) (l : list A) j :
  fold_left (λ l i, alter f i l) ids l !! j = Nat.iter (count_occ Nat.eq_dec ids j) f <$> l !! j.
Proof.
  revert l. induction ids as [|i ids IH]; intros l; cbn [fold_left count_occ]; [by destruct (l !! j)|].
  rewrite IH. destruct (Nat.eq_dec i j) as [->|Hne].
  - rewrite list_lookup_alter_eq. destruct (l !! j); cbn; [|done]. by rewrite <- Nat.iter_succ_r.
  - by rewrite list_lookup_alter_ne.
Qed.

Lemma alter_fold_length {A} (f : A → A) (ids : list nat) (l : list A) :
  length (fold_left (λ l i, alter f i l) ids l) = length l.
Proof. revert l. induction ids as [|i ids IH]; intros l; cbn; [done|]. by rewrite IH, length_alter. Qed.

(** The subscriptions a scope reaches. *)
Definition registered (conns : gmap string (list nat)) (key : string) : list nat := default [] (conns !! key).

Lemma dispatch_concat conns ev keys subs :
  fold_left (λ subs key, dispatch conns ev key subs) keys subs =
  fold_left (λ l i, alter (enqueue ev) i l) (List.concat (registered conns <$> keys)) subs.
Proof.
  revert subs. induction keys as [|key keys IH]; intros subs; cbn; [done|]. by rewrite fold_left_app, IH.
Qed.

(** The registry: a live subscription is listed once, under its own key. *)
Definition registry_ok s : Prop :=
  match bs_watchConns s with
  | None => ∀ id sub, bs_subs s !! id = Some sub → ws_done sub = true
  | Some conns =>
      ∀ id key, count_occ Nat.eq_dec (registered conns key) id =
        match bs_subs s !! id with
        | Some sub => if bool_decide (key = ws_key sub) && negb (ws_done sub) then 1%nat else 0%nat
        | None => 0%nat
        end
  end.

Lemma registered_count conns subs id sub keys :
  (∀ key, count_occ Nat.eq_dec (registered conns key) id =
     if bool_decide (key = ws_key sub) && negb (ws_done sub) then 1%nat else 0%nat) →
  count_occ Nat.eq_dec (List.concat (registered conns <$> keys)) id =
  if ws_done sub then 0%nat else count_occ String.string_dec keys (ws_key sub).
Proof.
  intros Hreg. induction keys as [|key keys IH]; cbn; [by destruct (ws_done sub)|].
  rewrite count_occ_app, IH, Hreg. destruct (ws_done sub); cbn [negb]; [by rewrite andb_false_r|].
  rewrite andb_true_r. destruct (String.string_dec key (ws_key sub)) as [->|Hne].
  - by rewrite bool_decide_true.
  - by rewrite bool_decide_false.
Qed.

(** An emission reaches a live subscription once for each scope that is its
    own, and no other subscription. *)
Lemma emit_lookup ev s id sub :
  registry_ok s → bs_subs s !! id = Some sub →
  bs_subs (emitWatchEvent ev s) !! id =
  Some (Nat.iter (if ws_done sub then 0 else count_occ String.string_dec (scopes ev) (ws_key sub))%nat (enqueue ev) sub).
Proof.
  intros Hreg Hid. unfold emitWatchEvent, registry_ok in *. destruct (bs_watchConns s) as [conns|]; cbn [bs_subs].
  - rewrite dispatch_concat, alter_fold_lookup, Hid.
    rewrite (registered_count conns (bs_subs s) id sub); [done|]. intros key. by rewrite Hreg, Hid.
  - rewrite (Hreg id sub) by done. done.
Qed.

Lemma emit_length ev s : length (bs_subs (emitWatchEvent ev s)) = length (bs_subs s).
Proof.
  unfold emitWatchEvent. destruct (bs_watchConns s); [|done]. cbn [bs_subs].
  by rewrite dispatch_concat, alter_fold_length.
Qed.

(** ** One subscription *)

Definition in_flight sub : list event := match ws_pump sub with PumpSends ev => [ev] | _ => [] end.
(** Received, on the channel, and waiting. *)
Definition held sub : list event := ws_out sub ++ in_flight sub ++ ws_buf sub.

(** What a scope is sent of a sequence of events. *)
Definition fanout (key : string) (evs : list event) : list event :=
  List.concat ((λ ev, replicate (count_occ String.string_dec (scopes ev) key) ev) <$> evs).

Lemma fanout_snoc key evs ev :
  fanout key (evs ++ [ev]) = fanout key evs ++ replicate (count_occ String.string_dec (scopes ev) key) ev.
Proof. unfold fanout. rewrite fmap_app, List.concat_app. cbn [fmap list_fmap List.concat]. by rewrite app_nil_r. Qed.

Lemma fanout_namespaced key evs : Forall namespaced evs → fanout key evs = List.filter (in_scope key) evs.
Proof.
  induction 1 as [|ev evs Hev _ IH]; [done|]. unfold fanout in *. cbn [fmap list_fmap List.concat List.filter].
  rewrite IH, scopes_count by done. by destruct (in_scope key ev).
Qed.

Record sub_ok (evs : list event) sub : Prop := {
  so_live : ws_done sub = false → held sub = fanout (ws_key sub) evs ∧ ws_pump sub ≠ PumpExited;
  so_held : ws_pump sub ≠ PumpExited → held sub `prefix_of` fanout (ws_key sub) evs;
  so_out : ws_out sub `prefix_of` fanout (ws_key sub) evs;
  so_wake : ws_pump sub = PumpWaits → ws_buf sub ≠ [] → ws_notify sub = true;
}.

Lemma sub_ok_new key : sub_ok [] (newWatchSub key).
Proof. by split. Qed.

Lemma sub_ok_stop evs sub : sub_ok evs sub → sub_ok evs (stop sub).
Proof. by intros []; split. Qed.

Lemma enqueue_iter n ev sub :
  let sub' := Nat.iter n (enqueue ev) sub in
  ws_key sub' = ws_key sub ∧ ws_buf sub' = ws_buf sub ++ replicate n ev ∧ ws_pump sub' = ws_pump sub ∧
  ws_out sub' = ws_out sub ∧ ws_done sub' = ws_done sub ∧ (ws_notify sub' = match n with O => ws_notify sub | S _ => true end).
Proof.
  induction n as [|n (IHk & IHb & IHp & IHo & IHd & IHn)]; [by cbn; rewrite app_nil_r|].
  change (Nat.iter (S n) (enqueue ev) sub) with (enqueue ev (Nat.iter n (enqueue ev) sub)).
  cbn in *. rewrite IHb, <- app_assoc. repeat split; try done. by rewrite <- replicate_S_end.
Qed.

Lemma sub_ok_emit evs ev sub :
  sub_ok evs sub →
  sub_ok (evs ++ [ev])
    (Nat.iter (if ws_done sub then 0 else count_occ String.string_dec (scopes ev) (ws_key sub))%nat (enqueue ev) sub).
Proof.
  intros [Hl Hh Ho Hw].
  destruct (ws_done sub) eqn:Hd.
  - change (Nat.iter 0 (enqueue ev) sub) with sub. split; [intros Hd'; congruence|intros ?; rewrite fanout_snoc; by apply prefix_app_r, Hh|
      rewrite fanout_snoc; by apply prefix_app_r|done].
  - destruct (Hl eq_refl) as [Heq Hp].
    pose proof (fanout_snoc (ws_key sub) evs ev) as Hf. revert Hf.
    generalize (count_occ String.string_dec (scopes ev) (ws_key sub)). intros n Hf. destruct (enqueue_iter n ev sub) as (Hk & Hb & Hpu & Hou & Hdo & Hno).
    set (sub' := Nat.iter _ _ _) in *. cbn in Hk, Hb, Hpu, Hou, Hdo, Hno.
    assert (held sub' = fanout (ws_key sub') (evs ++ [ev])) as Hheld.
    { unfold held, in_flight. rewrite Hk, Hb, Hpu, Hou, Hf, <- Heq. unfold held, in_flight. by rewrite <- !app_assoc. }
    split; [intros _; by rewrite Hpu|intros _; by rewrite Hheld| |].
    + rewrite <- Hheld. unfold held. by apply prefix_app_r.
    + rewrite Hpu, Hb, Hno. destruct n; [|done]. rewrite app_nil_r. apply Hw.
Qed.

Lemma sub_ok_pump evs consumer sub sub' : pumpStep consumer sub = Some sub' → sub_ok evs sub → sub_ok evs sub'.
Proof.
  destruct sub as [key buf notify pump out done warned]. intros Hstep [Hl Hh Ho Hw].
  unfold pumpStep in Hstep. unfold held, in_flight in *. cbn in *. destruct pump as [| |ev|].
  - destruct buf as [|ev rest]; injection Hstep as <-; split; cbn in *; try done; intros H; try (by apply Hl in H as []); by apply Hh.
  - destruct notify; [|destruct done; [|done]]; injection Hstep as <-; split; cbn in *; try done.
    + intros H. by apply Hl in H as [].
    + intros _. by apply Hh.
  - destruct consumer; [|destruct done; [|done]]; injection Hstep as <-; split; cbn in *; try done.
    + intros H. apply Hl in H as [H _]. by rewrite <- app_assoc.
    + intros _. rewrite <- app_assoc. by apply Hh.
    + etransitivity; [|by apply Hh]. by apply prefix_app, prefix_cons, prefix_nil.
  - done.
Qed.

Lemma sub_ok_quit evs sub sub' : pumpQuit sub = Some sub' → sub_ok evs sub → sub_ok evs sub'.
Proof.
  destruct sub as [key buf notify pump out done warned]. intros Hstep [Hl Hh Ho Hw].
  unfold pumpQuit in Hstep. cbn in *. destruct pump, done; try done; injection Hstep as <-; by split.
Qed.

(** ** Runs *)

Context (Marshal : V → result string D) (MarshalVersion : string → Time → V → result string D).
Context (Unmarshal : D → result string V) (Generic : D → result string D).
#[local] Abbreviation exec := (exec_op Marshal MarshalVersion Unmarshal Generic).

(** The event a call owes its watchers: one for a call that wrote. *)
Definition event_of (typ : WatchEventType) (k : rkey) (v : V + D) (src : EventSource) : event :=
  mkWatchEvent typ k.1.1 k.1.2 k.2 v src.

Definition events_of (op : store_op) s : list event :=
  match (exec op s).2 with
  | Err _ => []
  | Ok _ =>
      match op with
      | OCreate _ _ _ k v => [event_of WatchEventCreated k (inl v) ""]
      | OUpdate _ _ _ src k v => [event_of WatchEventUpdated k (inl v) src]
      | OUpdateFunc r _ _ src k f =>
          match Get Unmarshal r k.1.1 k.1.2 k.2 s with
          | Ok cur => match f cur with MSet v => [event_of WatchEventUpdated k (inl v) src] | _ => [] end
          | Err _ => []
          end
      | ODelete r _ k =>
          match bs_db s !! MakeKey k.1.1 k.1.2 k.2 with
          | Some data => match Generic data with Ok d => [event_of WatchEventDeleted k (inr d) ""] | Err _ => [] end
          | None => []
          end
      | OGet _ _ | OList _ _ => []
      end
  end.

(** A call is its commit followed by the emission of its event. *)
Lemma exec_emits op s :
  (exec op s).1 = fold_left (λ s ev, emitWatchEvent ev s) (events_of op s) (with_bs_db s (bs_db (exec op s).1)).
Proof.
  assert (∀ d ev, emitWatchEvent ev (with_bs_db s d) =
    emitWatchEvent ev (with_bs_db s (bs_db (emitWatchEvent ev (with_bs_db s d))))) as Hemit.
  { intros d ev. by rewrite emit_db. }
  assert (with_bs_db s (bs_db s) = s) as Hsame by by destruct s.
  unfold events_of. destruct op as [r c now [[t ns] n] v|r c now src [[t ns] n] v|r c now src [[t ns] n] f|r c [[t ns] n]|r [[t ns] n]|t ns];
    cbn [exec_op fst snd].
  - unfold Create. destruct (txCreate _ _ _ _ _ _ _ _ _) as [d|e]; [|by cbn; rewrite Hsame].
    destruct c; cbn [negb fst snd fold_left event_of]; [apply Hemit|by rewrite Hsame].
  - unfold Update. destruct (txUpdate _ _ _ _ _ _ _ _ _) as [d|e]; [|by cbn; rewrite Hsame].
    destruct c; cbn [negb fst snd fold_left event_of]; [apply Hemit|by rewrite Hsame].
  - unfold UpdateFunc, Get, txGet. cbn [fmap list_fmap app updateAttempts].
    destruct r; cbn [negb]; [|by cbn; rewrite Hsame].
    destruct (bs_db s !! MakeKey t ns n) as [x|]; [|by cbn; rewrite Hsame].
    destruct (Unmarshal x) as [cur|]; [|by cbn; rewrite Hsame].
    destruct (f cur) as [v| |e]; [|by cbn; rewrite Hsame..].
    destruct (Marshal v) as [y|]; [|by cbn; rewrite Hsame]. destruct c; [|by cbn; rewrite Hsame].
    destruct (putVersion _ _ _ _ _ _ _) as [d|]; [|by cbn; rewrite Hsame].
    cbn [fst snd fold_left event_of]. apply Hemit.
  - unfold Delete. destruct r; cbn [negb]; [|by cbn; rewrite Hsame].
    destruct (bs_db s !! MakeKey t ns n) as [data|]; [|by cbn; rewrite Hsame].
    destruct (Generic data) as [d|]; [|by cbn; rewrite Hsame]. destruct c; cbn [negb fst snd fold_left event_of]; [apply Hemit|by rewrite Hsame].
  - rewrite Hsame. by destruct (Get _ _ _ _ _ _).
  - rewrite Hsame. by destruct (ListResources _ _ _ _ _).
Qed.

(** A configuration, with what was committed and emitted so far and how much
    had been emitted when each subscription was made. *)
Record config := mkConfig {
  cf_store : BadgerStore V D;
  cf_pending : list event;
  cf_emitted : list event;
  cf_committed : list event;
  cf_start : list nat;
}.

Definition with_sub s (id : nat) sub : BadgerStore V D := mkBadgerStore (bs_db s) (bs_watchConns s) (<[id := sub]> (bs_subs s)).

Inductive wstep : config → config → Prop :=
| W_commit s p e c st op :
    wstep (mkConfig s p e c st)
      (mkConfig (with_bs_db s (bs_db (exec op s).1)) (p ++ events_of op s) e (c ++ events_of op s) st)
| W_transaction s p e c st commits fn :
    wstep (mkConfig s p e c st) (mkConfig (Transaction commits fn s).1 p e c st)
| W_emit s p e c st i ev :
    p !! i = Some ev → wstep (mkConfig s p e c st) (mkConfig (emitWatchEvent ev s) (delete i p) (e ++ [ev]) c st)
| W_watch s p e c st t ns s' id :
    Watch t ns s = (s', Ok id) → wstep (mkConfig s p e c st) (mkConfig s' p e c (st ++ [length e]))
| W_cancel s p e c st id : wstep (mkConfig s p e c st) (mkConfig (cancelWatch id s) p e c st)
| W_close s p e c st : wstep (mkConfig s p e c st) (mkConfig (Close s) p e c st)
| W_pump s p e c st id consumer sub sub' :
    bs_subs s !! id = Some sub → pumpStep consumer sub = Some sub' →
    wstep (mkConfig s p e c st) (mkConfig (with_sub s id sub') p e c st)
| W_quit s p e c st id sub sub' :
    bs_subs s !! id = Some sub → pumpQuit sub = Some sub' →
    wstep (mkConfig s p e c st) (mkConfig (with_sub s id sub') p e c st).

Definition start_config : config := mkConfig NewBadgerStore [] [] [] [].
Definition reachable : config → Prop := rtc wstep start_config.

Record watch_inv (c : config) : Prop := {
  wi_registry : registry_ok (cf_store c);
  wi_start : length (cf_start c) = length (bs_subs (cf_store c));
  wi_events : cf_emitted c ++ cf_pending c ≡ₚ cf_committed c;
  wi_subs : ∀ id sub n, bs_subs (cf_store c) !! id = Some sub → cf_start c !! id = Some n →
    (n ≤ length (cf_emitted c))%nat ∧ sub_ok (drop n (cf_emitted c)) sub;
}.

(** The registry reads the key and the stop flag of a subscription only. *)
Definition view sub : string * bool := (ws_key sub, ws_done sub).

Lemma registry_view s s' :
  bs_watchConns s' = bs_watchConns s → (∀ id, view <$> bs_subs s' !! id = view <$> bs_subs s !! id) →
  registry_ok s → registry_ok s'.
Proof.
  intros Hc Hv. unfold registry_ok. rewrite Hc. destruct (bs_watchConns s) as [conns|].
  - intros H id key. rewrite H. specialize (Hv id). unfold view in Hv.
    destruct (bs_subs s' !! id), (bs_subs s !! id); cbn in Hv; [|done..]. injection Hv as Hk Hd. by rewrite Hk, Hd.
  - intros H id sub Hid. specialize (Hv id). rewrite Hid in Hv. cbn in Hv. symmetry in Hv.
    apply fmap_Some in Hv as (sub0 & Hid0 & Heq). injection Heq as _ ->. by eapply H.
Qed.

Lemma registry_emit ev s : registry_ok s → registry_ok (emitWatchEvent ev s).
Proof.
  intros Hreg. eapply registry_view; [| |exact Hreg].
  { unfold emitWatchEvent. by destruct (bs_watchConns s) eqn:?. }
  intros id. destruct (bs_subs s !! id) as [sub|] eqn:Hid.
  - rewrite (emit_lookup ev s id sub) by done. cbn [fmap option_fmap option_map]. unfold view.
    destruct (enqueue_iter (if ws_done sub then 0 else count_occ String.string_dec (scopes ev) (ws_key sub))%nat ev sub)
      as (Hk & _ & _ & _ & Hd & _). by rewrite Hk, Hd.
  - rewrite (proj2 (lookup_ge_None _ _)); [done|]. rewrite emit_length. by apply lookup_ge_None.
Qed.

Lemma registry_sub s id sub sub' :
  bs_subs s !! id = Some sub → view sub' = view sub → registry_ok s → registry_ok (with_sub s id sub').
Proof.
  intros Hid Hv. apply registry_view; [done|]. intros i. cbn. destruct (decide (i = id)) as [->|Hne].
  - rewrite list_lookup_insert_eq, Hid; [cbn; by rewrite Hv|]. by eapply lookup_lt_Some.
  - by rewrite list_lookup_insert_ne.
Qed.

Lemma snoc_lookup_ne {A} (l : list A) x i : length l ≠ i → (l ++ [x]) !! i = l !! i.
Proof.
  intros Hi. destruct (decide (i < length l)%nat) as [Hlt|Hge]; [by apply lookup_app_l|].
  rewrite !lookup_ge_None_2; [done|lia|]. rewrite length_app. cbn. lia.
Qed.

Lemma registry_Watch t ns s s' id : Watch t ns s = (s', Ok id) → registry_ok s → registry_ok s'.
Proof.
  unfold Watch, registry_ok. destruct (bs_watchConns s) as [conns|]; [|done]. intros [= <- <-] H i key. cbn.
  unfold registered in *. rewrite lookup_insert. destruct (decide (scope_key t ns = key)) as [<-|Hne]; cbn [from_option id].
  - rewrite count_occ_app, H. cbn [count_occ]. destruct (Nat.eq_dec (length (bs_subs s)) i) as [<-|Hi].
    + rewrite lookup_ge_None_2 by done. rewrite lookup_app_r, Nat.sub_diag by done. cbn. by rewrite bool_decide_true.
    + rewrite snoc_lookup_ne by done. lia.
  - destruct (Nat.eq_dec (length (bs_subs s)) i) as [<-|Hi].
    + rewrite H, lookup_ge_None_2 by done. rewrite lookup_app_r, Nat.sub_diag by done. cbn.
      by rewrite bool_decide_false.
    + rewrite snoc_lookup_ne by done. apply H.
Qed.

Lemma registered_remove conns key l key' :
  registered (match l with [] => delete key conns | _ => <[key := l]> conns end) key' =
  if bool_decide (key = key') then l else registered conns key'.
Proof.
  unfold registered. destruct (bool_decide_reflect (key = key')) as [->|Hne]; destruct l.
  - by rewrite lookup_delete_eq.
  - by rewrite lookup_insert_eq.
  - by rewrite lookup_delete_ne.
  - by rewrite lookup_insert_ne.
Qed.

Lemma count_occ_remove (l : list nat) id i :
  count_occ Nat.eq_dec (List.filter (λ j, negb (Nat.eqb j id)) l) i =
  if bool_decide (i = id) then 0%nat else count_occ Nat.eq_dec l i.
Proof.
  induction l as [|j l IH]; cbn; [by destruct (bool_decide _)|]. destruct (Nat.eqb_spec j id) as [->|Hj]; cbn; rewrite IH.
  - destruct (Nat.eq_dec id i) as [->|]; [by rewrite bool_decide_true|done].
  - destruct (Nat.eq_dec j i) as [->|]; [by rewrite bool_decide_false|done].
Qed.

Lemma cancelWatch_registry s id : registry_ok s → registry_ok (cancelWatch id s).
Proof.
  unfold cancelWatch. destruct (bs_subs s !! id) as [sub|] eqn:Hid; [|done]. unfold registry_ok.
  destruct (bs_watchConns s) as [conns|]; cbn [bs_watchConns bs_subs].
  - intros H i key. rewrite registered_remove.
    destruct (bool_decide_reflect (ws_key sub = key)) as [<-|Hk].
    + fold (registered conns (ws_key sub)). rewrite count_occ_remove, H. destruct (decide (i = id)) as [->|Hne].
      * rewrite list_lookup_alter_eq, Hid, bool_decide_true by done. cbn. by rewrite andb_false_r.
      * by rewrite list_lookup_alter_ne, (bool_decide_false (i = id)) by done.
    + rewrite H. destruct (decide (i = id)) as [->|Hne].
      * rewrite list_lookup_alter_eq, Hid. cbn. rewrite andb_false_r. by rewrite bool_decide_false by congruence.
      * by rewrite list_lookup_alter_ne.
  - intros H i sub' Hi. destruct (decide (i = id)) as [->|Hne].
    + rewrite list_lookup_alter_eq, Hid in Hi. by injection Hi as <-.
    + rewrite list_lookup_alter_ne in Hi by done. by eapply H.
Qed.

Lemma stop_iter n sub : Nat.iter (S n) stop sub = stop sub.
Proof. induction n as [|n IH]; [done|]. change (Nat.iter (S (S n)) stop sub) with (stop (Nat.iter (S n) stop sub)). by rewrite IH. Qed.

(** [Close] stops every live subscription. *)
Lemma Close_lookup s id sub :
  registry_ok s → bs_subs s !! id = Some sub →
  ∃ n, bs_subs (Close s) !! id = Some (Nat.iter n stop sub) ∧ ws_done (Nat.iter n stop sub) = true.
Proof.
  intros Hreg Hid. unfold Close, registry_ok in *. destruct (bs_watchConns s) as [conns|]; cbn [bs_subs].
  - rewrite alter_fold_lookup, Hid. eexists. split; [done|].
    destruct (ws_done sub) eqn:Hd; [induction (count_occ _ _ _); done|].
    assert (count_occ Nat.eq_dec (List.concat (map_to_list conns).*2) id > 0)%nat as Hpos.
    { apply count_occ_In, in_concat. specialize (Hreg id (ws_key sub)). rewrite Hid, bool_decide_true, Hd in Hreg by done.
      cbn in Hreg. exists (registered conns (ws_key sub)). split; [|apply (count_occ_In Nat.eq_dec); lia].
      unfold registered in *. destruct (conns !! ws_key sub) as [l|] eqn:Hl; [|done].
      apply list_elem_of_In, list_elem_of_fmap. exists (ws_key sub, l). by rewrite elem_of_map_to_list. }
    destruct (count_occ _ _ _) as [|n]; [lia|]. by rewrite stop_iter.
  - exists 0%nat. split; [done|]. by eapply Hreg.
Qed.

Lemma pump_view consumer sub sub' : pumpStep consumer sub = Some sub' → view sub' = view sub.
Proof.
  destruct sub as [key buf notify pump out done warned]. unfold pumpStep, view. cbn.
  destruct pump, buf, notify, done, consumer; cbn; intros; simplify_eq; done.
Qed.

Lemma quit_view sub sub' : pumpQuit sub = Some sub' → view sub' = view sub.
Proof. unfold pumpQuit, view. destruct (ws_pump sub), (ws_done sub) eqn:?; intros; simplify_eq; cbn; congruence. Qed.

Lemma stop_all evs n sub : sub_ok evs sub → sub_ok evs (Nat.iter n stop sub).
Proof. intros H. induction n; [done|]. by apply sub_ok_stop. Qed.

(** A step that only moves one subscription. *)
Lemma inv_sub s p e c st id sub sub' :
  watch_inv (mkConfig s p e c st) → bs_subs s !! id = Some sub → view sub' = view sub →
  (∀ evs, sub_ok evs sub → sub_ok evs sub') → watch_inv (mkConfig (with_sub s id sub') p e c st).
Proof.
  intros [Hr Hs He Hsub] Hid Hv Hok. split; cbn in *; [by eapply registry_sub|by rewrite length_insert|done|].
  intros i sub0 n Hi Hn. destruct (decide (i = id)) as [->|Hne].
  - rewrite list_lookup_insert_eq in Hi by (by eapply lookup_lt_Some). injection Hi as <-.
    destruct (Hsub _ _ _ Hid Hn). auto.
  - rewrite list_lookup_insert_ne in Hi by done. eauto.
Qed.

Lemma inv_emit s p e c st i ev :
  p !! i = Some ev → watch_inv (mkConfig s p e c st) →
  watch_inv (mkConfig (emitWatchEvent ev s) (delete i p) (e ++ [ev]) c st).
Proof.
  intros Hi [Hr Hs He Hsub]. split; cbn in *.
  - by apply registry_emit.
  - by rewrite emit_length.
  - rewrite <- He, <- app_assoc. f_equiv. cbn. by rewrite <- delete_Permutation.
  - intros id sub n Hid Hn.
    assert (is_Some (bs_subs s !! id)) as [sub0 Hid0].
    { apply lookup_lt_is_Some. rewrite <- (emit_length ev). by eapply lookup_lt_Some. }
    rewrite (emit_lookup ev s id sub0) in Hid by done. injection Hid as <-.
    destruct (Hsub _ _ _ Hid0 Hn) as [Hle Hok]. rewrite length_app, drop_app_le by done. split; [cbn; lia|].
    by apply sub_ok_emit.
Qed.

Lemma inv_watch s p e c st t ns s' id :
  Watch t ns s = (s', Ok id) → watch_inv (mkConfig s p e c st) → watch_inv (mkConfig s' p e c (st ++ [length e])).
Proof.
  intros Hw [Hr Hs He Hsub]. pose proof (registry_Watch _ _ _ _ _ Hw Hr) as Hr'.
  unfold Watch in Hw. destruct (bs_watchConns s) as [conns|]; [|done]. injection Hw as <- <-.
  split; cbn [cf_store cf_start cf_emitted cf_pending cf_committed bs_subs] in *; [done| |done|].
  { rewrite !length_app. cbn. lia. }
  intros i sub n Hi Hn. destruct (Nat.eq_dec (length (bs_subs s)) i) as [<-|Hne].
  - rewrite lookup_app_r, Nat.sub_diag in Hi by done. injection Hi as <-.
    rewrite <- Hs, lookup_app_r, Nat.sub_diag in Hn by done. injection Hn as <-.
    split; [done|]. rewrite drop_all. apply sub_ok_new.
  - rewrite snoc_lookup_ne in Hi by done. rewrite snoc_lookup_ne in Hn by congruence. eauto.
Qed.

Lemma inv_close s p e c st : watch_inv (mkConfig s p e c st) → watch_inv (mkConfig (Close s) p e c st).
Proof.
  intros [Hr Hs He Hsub]. cbn in *.
  assert (length (bs_subs (Close s)) = length (bs_subs s)) as Hlen.
  { unfold Close. destruct (bs_watchConns s); [|done]. apply alter_fold_length. }
  assert (∀ id sub, bs_subs (Close s) !! id = Some sub → ws_done sub = true ∧
    ∃ sub0 n, bs_subs s !! id = Some sub0 ∧ sub = Nat.iter n stop sub0) as Hst.
  { intros id sub Hid. assert (is_Some (bs_subs s !! id)) as [sub0 Hid0].
    { apply lookup_lt_is_Some. rewrite <- Hlen. by eapply lookup_lt_Some. }
    destruct (Close_lookup s id sub0 Hr Hid0) as (n & Hn & Hd). rewrite Hn in Hid. injection Hid as <-. eauto. }
  split; cbn; [|by rewrite Hlen|done|].
  - assert (bs_watchConns (Close s) = None) as Hc by (unfold Close; by destruct (bs_watchConns s) eqn:?).
    unfold registry_ok. rewrite Hc. intros id sub Hid. by apply Hst in Hid as [].
  - intros id sub n Hid Hn. apply Hst in Hid as (_ & sub0 & m & Hid0 & ->).
    destruct (Hsub _ _ _ Hid0 Hn). split; [done|]. by apply stop_all.
Qed.

Lemma inv_cancel s p e c st id : watch_inv (mkConfig s p e c st) → watch_inv (mkConfig (cancelWatch id s) p e c st).
Proof.
  intros [Hr Hs He Hsub]. split; cbn in *; [by apply cancelWatch_registry| |done|].
  - rewrite Hs. unfold cancelWatch. destruct (bs_subs s !! id); [|done]. cbn [bs_subs]. by rewrite length_alter.
  - unfold cancelWatch. destruct (bs_subs s !! id) as [sub0|] eqn:Hid; [|done]. cbn [bs_subs]. intros i sub n Hi Hn.
    destruct (decide (i = id)) as [->|Hne].
    + rewrite list_lookup_alter_eq, Hid in Hi. injection Hi as <-. destruct (Hsub _ _ _ Hid Hn). split; [done|].
      by apply sub_ok_stop.
    + rewrite list_lookup_alter_ne in Hi by done. eauto.
Qed.

Lemma inv_step c c' : wstep c c' → watch_inv c → watch_inv c'.
Proof.
  intros Hstep Hinv. destruct Hstep.
  - destruct Hinv as [Hr Hs He Hsub]. split; cbn in *; [by apply (registry_view s)|done| |done]. by rewrite app_assoc, He.
  - destruct Hinv as [Hr Hs He Hsub]. unfold Transaction.
    destruct (fn (bs_db s)); [destruct commits|]; split; cbn in *; try done.
  - by apply inv_emit.
  - by eapply inv_watch.
  - by apply inv_cancel.
  - by apply inv_close.
  - eapply inv_sub; [done..|by eapply pump_view|]. intros evs. by eapply sub_ok_pump.
  - eapply inv_sub; [done..|by eapply quit_view|]. intros evs. by eapply sub_ok_quit.
Qed.

Lemma store_reachable_inv c : reachable c → watch_inv c.
Proof.
  unfold reachable. intros Hr. remember start_config as c0 eqn:Hc0. assert (watch_inv c0) as H0.
  { subst. split; cbn; [|done..]. intros id key. unfold registered. by rewrite lookup_empty. }
  clear Hc0. induction Hr as [x|x y z Hs _ IH]; [exact H0|]. apply IH. by eapply inv_step.
Qed.

(** ** Draining *)

Fixpoint pumps (n : nat) sub : watchSub (V + D) :=
  match n with O => sub | S n => match pumpStep true sub with Some sub' => pumps n sub' | None => sub end end.

Lemma pumps_S n sub sub' : pumpStep true sub = Some sub' → pumps (S n) sub = pumps n sub'.
Proof. intros H. cbn [pumps]. by rewrite H. Qed.

(** From the top of its loop a pump with a ready consumer hands over its backlog. *)
Lemma pumps_top buf key notify out warned :
  pumps (2 * length buf) (mkWatchSub key buf notify PumpTop out false warned) =
  mkWatchSub key [] notify PumpTop (out ++ buf) false warned.
Proof.
  revert out. induction buf as [|ev buf IH]; intros out; cbn [length]; [cbn; by rewrite app_nil_r|].
  replace (2 * S (length buf))%nat with (S (S (2 * length buf))) by lia. do 2 erewrite pumps_S by done.
  cbn [ws_key ws_buf ws_notify ws_out ws_warned ws_done]. rewrite IH. by rewrite <- app_assoc.
Qed.

Lemma pumps_drain evs sub : sub_ok evs sub → ws_done sub = false → ∃ n, ws_out (pumps n sub) = fanout (ws_key sub) evs.
Proof.
  intros [Hl _ _ Hw] Hd. destruct (Hl Hd) as [<- Hne]. destruct sub as [key buf notify pump out done warned].
  unfold held, in_flight in *. cbn in *. subst done. destruct pump as [| |ev|]; [| | |done].
  - exists (2 * length buf)%nat. by rewrite pumps_top.
  - destruct buf as [|b buf]; [exists 0%nat; cbn; by rewrite app_nil_r|]. rewrite Hw by done.
    exists (S (2 * length (b :: buf)))%nat. erewrite pumps_S by done. by rewrite pumps_top.
  - exists (S (2 * length buf))%nat. erewrite pumps_S by done. cbn [ws_key ws_buf ws_notify ws_out ws_warned ws_done].
    rewrite pumps_top. cbn. by rewrite <- app_assoc.
Qed.
End Watchers.

(** ** Claims *)


(** A watcher of one namespace, and a write it is told of. *)
Definition demo_event : WatchEvent (nat + nat) := event_of WatchEventCreated ("service", "prod", "web") (inl 7%nat) "".
Definition demo_watched : BadgerStore nat nat := (Watch "service" "prod" NewBadgerStore).1.
Definition demo_op : store_op := OCreate true true 1 ("service", "prod", "web") 7%nat.
Definition demo_written : BadgerStore nat nat :=
  with_bs_db demo_watched (bs_db (exec_op Ok (λ _ _ v, Ok v) Ok Ok demo_op demo_watched).1).
Definition demo_config : config := mkConfig (emitWatchEvent demo_event demo_written) [] [demo_event] [demo_event] [0%nat].

Lemma demo_reachable : reachable Ok (λ _ _ v, Ok v) Ok Ok demo_config.
Proof.
  eapply rtc_l; [by apply (W_watch _ _ _ _ _ _ _ _ _ "service" "prod" demo_watched 0%nat)|].
  eapply rtc_l; [by apply (W_commit _ _ _ _ _ _ _ _ _ demo_op)|].
  eapply rtc_l; [by apply (W_emit _ _ _ _ _ _ _ _ _ 0%nat demo_event)|]. apply rtc_refl.
Qed.

Lemma demo_namespaced : Forall namespaced (cf_emitted demo_config).
Proof. by repeat constructor. Qed.


(** A live subscription whose consumer keeps receiving is handed every event
    of its scope: no event waits in the backlog behind a missed wake-up. *)
Theorem watch_delivers {V D} (Marshal : V → result string D) MarshalVersion Unmarshal Generic (c : config)
    (Hc : reachable Marshal MarshalVersion Unmarshal Generic c) (Hns : Forall namespaced (cf_emitted c))
    (id n : nat) (sub : watchSub (V + D)) (Hid : bs_subs (cf_store c) !! id = Some sub) (Hn : cf_start c !! id = Some n)
    (Hlive : ws_done sub = false) :
  ∃ steps, ws_out (pumps steps sub) = List.filter (in_scope (ws_key sub)) (drop n (cf_emitted c)).
Proof.
  apply store_reachable_inv in Hc as [_ _ He Hsub]. destruct (Hsub _ _ _ Hid Hn) as [_ Hok].
  rewrite <- fanout_namespaced by (by apply Forall_drop). by apply pumps_drain.
Qed.

Lemma watch_delivers_witness :
  ∃ sub, bs_subs (cf_store demo_config) !! 0%nat = Some sub ∧ ∃ steps, ws_out (pumps steps sub) = [demo_event].
Proof.
  eexists. split; [by vm_compute|].
  apply (watch_delivers _ _ _ _ demo_config demo_reachable demo_namespaced 0%nat 0%nat); by vm_compute.
Defined.

(** An event of a resource stored with an empty namespace is enqueued
    twice for every live subscription to all namespaces of its type. *)
Theorem cluster_scoped_twice {V D} (s : BadgerStore V D) (Hreg : registry_ok s) (ev : WatchEvent (V + D))
    (Ht : we_ResourceType ev ≠ "") (Hns : we_Namespace ev = "") (id : nat) (sub : watchSub (V + D))
    (Hid : bs_subs s !! id = Some sub) (Hkey : ws_key sub = scope_key (we_ResourceType ev) "") (Hlive : ws_done sub = false) :
  ws_buf <$> bs_subs (emitWatchEvent ev s) !! id = Some (ws_buf sub ++ [ev; ev]).
Proof.
  rewrite (emit_lookup ev s id sub), Hlive by done.
  assert (count_occ String.string_dec (scopes ev) (ws_key sub) = 2%nat) as ->.
  { unfold scopes. rewrite Hkey, Hns. cbn [count_occ].
    assert (scope_key "" "" ≠ scope_key (we_ResourceType ev) "") as Hne.
    { unfold scope_key. destruct (we_ResourceType ev) as [|a r]; [done|]. cbn. intros [= _ Heq].
      destruct r; discriminate. }
    repeat destruct (String.string_dec _ _); congruence. }
  cbn [fmap option_fmap option_map]. f_equal. by destruct (enqueue_iter 2 ev sub) as (_ & -> & _).
Qed.

Lemma cluster_scoped_twice_witness :
  let s := (Watch "node" "" (NewBadgerStore : BadgerStore nat nat)).1 in
  let ev := event_of WatchEventCreated ("node", "", "n1") (inl 7%nat) "" in
  ws_buf <$> bs_subs (emitWatchEvent ev s) !! 0%nat = Some [ev; ev].
Proof.
  intros s ev. change [ev; ev] with (ws_buf (newWatchSub (R:=nat + nat) "node:") ++ [ev; ev]).
  apply (cluster_scoped_twice s); [|by vm_compute..].
  intros [|[|id]] key; cbn; unfold registered; rewrite lookup_insert; destruct (decide _) as [<-|Hne]; cbn; try done.
  by rewrite bool_decide_false.
Defined.
