(* ===== verification/Ensure.v ===== *)
(** * Bringing instances to the desired state
      (pkg/orchestrator/reconciler/{ensure,sync,naming,housekeeping,dependencies}.go,
       UpdateInstance of pkg/orchestrator/instance/instance_lifecycle.go)

    The reconciler's executing half.  Each function returns the sequence of
    calls it makes on the instance and health controllers, in order; the
    answers of the controllers are those of an [InstanceOps] record, the
    interface the reconciler declares.  Errors of deletions and creations are
    only logged by the source and do not change the sequence. *)

From stdpp Require Import pretty.
From S2P Require Import Prelude Text Types UpdateStrategy Compat UpdatePlan Status.

(** ** The interface and the calls *)

(** [reconciler.InstanceOps]: what the calls answer.  [io_Delete] also returns
    the caller's record after the call, which [DeleteInstance] mutates. *)
Record InstanceOps := mkOps {
  io_Classify : Instance → CompatVerdict;
  io_Compatible : Instance → bool;
  io_Update : Instance → result string unit;
  io_Retry : Instance → result string unit;
  io_Create : string → result string Instance;
  io_Recreate : Instance → result string Instance;
  io_Delete : Instance → Instance * result string unit;
}.

Inductive effect :=
| EWithdraw (l : list Instance)
| EEmitRetired (name reason : string)
| ERemoveHealth (id : string)
| EAddHealth (id : string)
| EDelete (i : Instance)
| ECreate (name : string) (ordinal : Z)
| ERetryCreate (i : Instance)
| EUpdate (i : Instance)
| ERecreate (i : Instance)
| EStoreDelete (namespace id : string).

(** ** Naming (naming.go) *)

Definition serviceHasStableIdentity (service : Service) : bool := HasClaimTemplateVolume (Some service).

Definition generateInstanceName (service : Service) (index : Z) : string :=
  s_Name service +:+ "-" +:+ pretty index.

(** [hashes] are the short hashes drawn; [None] is a draw beyond them. *)
Fixpoint generateHashInstanceName (service : Service) (taken : gset string) (hashes : list string)
    : option (string * list string) :=
  match hashes with
  | [] => None
  | h :: rest =>
      let name := s_Name service +:+ "-" +:+ h in
      if bool_decide (name ∈ taken) then generateHashInstanceName service taken rest
      else Some (name, rest)
  end.

(** ** Instance collection (sync.go) *)

Record ServiceInstanceData := mkInstanceData {
  sid_Instances : list Instance;
  sid_Orphaned : list Instance;
}.

(** Whether a stored record counts for the service. *)
Definition counts_for (service : Service) (i : Instance) : bool :=
  bool_decide (i_ServiceName i = s_Name service) &&
  negb (bool_decide (i_Status i = InstanceStatusDeleted)) &&
  negb (bool_decide (i_Status i = InstanceStatusFailed) && bool_decide (is_Some (i_FailedAt i))).

(** [runners] lists the running instances by id, [None] for a nil record. *)
Definition getServiceInstances (service : Service) (runners : list (string * option Instance))
    (stored : list Instance) : ServiceInstanceData :=
  let instances := List.filter (counts_for service) stored in
  let known : gset string := list_to_set (i_ID <$> instances) in
  let orphans := omap (λ p : string * option Instance,
    if bool_decide (p.1 ∈ known) then None
    else match p.2 with
         | None => None
         | Some inst =>
             if negb (bool_decide (i_Namespace inst = s_Namespace service)) then None
             else if negb (bool_decide (i_ServiceName inst = s_Name service)) then None
             else Some inst
         end) runners in
  mkInstanceData instances orphans.

(** ** Existing instances (sync.go) *)

Definition isRecreationRequired (err : string) : bool :=
  Contains err "requires recreation" || Contains err "incompatible" ||
  Contains err "cannot be updated in-place".

Definition recreateInstance (ops : InstanceOps) (service : Service) (instance : Instance)
    : list effect * result string unit :=
  let pre := if s_HasHealth service then [ERemoveHealth (i_ID instance)] else [] in
  match io_Recreate ops instance with
  | Err e => (pre ++ [ERecreate instance], Err ("failed to recreate instance: " +:+ e))
  | Ok new =>
      (pre ++ [ERecreate instance] ++ (if s_HasHealth service then [EAddHealth (i_ID new)] else []), Ok tt)
  end.

Definition reconcileExistingInstance (ops : InstanceOps) (service : Service) (now : Time) (instance : Instance)
    : list effect * result string unit :=
  let stuck := bool_decide (i_ContainerEverCreatedAt instance = None) in
  if stuck && bool_decide (i_Status instance = InstanceStatusStalled) then ([], Ok tt)
  else if stuck && bool_decide (i_Status instance = InstanceStatusFailed) then
    match i_NextCreateAttemptAt instance with
    | Some t => if Before now t then ([], Ok tt) else ([ERetryCreate instance], Ok tt)
    | None => ([ERetryCreate instance], Ok tt)
    end
  else
    let health := if s_HasHealth service then [EAddHealth (i_ID instance)] else [] in
    match io_Update ops instance with
    | Ok _ => (health ++ [EUpdate instance], Ok tt)
    | Err e =>
        if isRecreationRequired e then
          let '(effs, r) := recreateInstance ops service instance in
          (health ++ [EUpdate instance] ++ effs, r)
        else (health ++ [EUpdate instance], Err ("failed to update instance: " +:+ e))
    end.

Definition createNewInstance (ops : InstanceOps) (service : Service) (name : string) (ordinal : Z)
    : list effect :=
  ECreate name ordinal ::
  match io_Create ops name with
  | Ok new => if s_HasHealth service then [EAddHealth (i_ID new)] else []
  | Err _ => []
  end.

(** The pair of calls every teardown in this package makes. *)
Definition teardown (i : Instance) : list effect := [ERemoveHealth (i_ID i); EDelete i].

(** ** Scale-down of services with stable identity (sync.go) *)

(** The comparison handed to [sort.Slice]. *)
Definition newerFirst (a b : Instance) : bool :=
  if negb (IsZero (i_CreatedAt a)) || negb (IsZero (i_CreatedAt b))
  then After (i_CreatedAt a) (i_CreatedAt b)
  else String.ltb (i_Name a) (i_Name b).

Definition scaleDownService (service : Service) (data : ServiceInstanceData) : list effect :=
  if Z.of_nat (length (sid_Instances data)) <=? s_Scale service then []
  else List.concat (teardown <$> drop (Z.to_nat (s_Scale service)) (SliceStable newerFirst (sid_Instances data))).

(** ** Slots: services with stable identity (ensure.go) *)

(** The search for a slot's instance: incompatible ones found on the way are
    torn down; the first compatible one ends the search. *)
Fixpoint findSlot (ops : InstanceOps) (name : string) (instances : list Instance)
    : list effect * option Instance :=
  match instances with
  | [] => ([], None)
  | i :: rest =>
      if bool_decide (i_Name i = name) then
        if io_Compatible ops i then ([], Some i)
        else let '(effs, r) := findSlot ops name rest in (teardown i ++ effs, r)
      else findSlot ops name rest
  end.

Definition ensureSlot (ops : InstanceOps) (service : Service) (now : Time) (instances : list Instance) (i : Z)
    : list effect :=
  let name := generateInstanceName service i in
  let '(effs, existing) := findSlot ops name instances in
  effs ++ match existing with
          | Some inst => (reconcileExistingInstance ops service now inst).1
          | None => createNewInstance ops service name i
          end.

Definition ensureStatefulInstances (ops : InstanceOps) (service : Service) (now : Time)
    (data : ServiceInstanceData) : list effect :=
  List.concat (ensureSlot ops service now (sid_Instances data) <$> seqZ 0 (s_Scale service)).

(** ** Stranded teardowns (housekeeping.go) *)

Definition stuckTerminating (service : Service) (now : Time) (i : Instance) : bool :=
  bool_decide (i_Status i = InstanceStatusTerminating) &&
  negb (Sub now (i_UpdatedAt i) <? wrap64 (DrainWindow (Some service) + 30 * Second)).

(** The calls, and the instance data afterwards: the planner that runs next
    sees the records as the deletions left them. *)
Definition reapStuckTerminating (ops : InstanceOps) (service : Service) (now : Time)
    (data : ServiceInstanceData) : list effect * ServiceInstanceData :=
  (List.concat (teardown <$> List.filter (stuckTerminating service now) (sid_Instances data)),
   mkInstanceData
     ((λ i, if stuckTerminating service now i then (io_Delete ops i).1 else i) <$> sid_Instances data)
     (sid_Orphaned data)).

(** ** Stateless services (ensure.go) *)

Definition planServiceUpdate (ops : InstanceOps) (service : Service) (now : Time)
    (data : ServiceInstanceData) (createsBlocked : bool) : updatePlan * list instanceView :=
  let params := ResolveUpdateParams (Some service) in
  let views := (λ i, newInstanceView i (cv_Class (io_Classify ops i)) (p_MinReady params) now)
                 <$> sid_Instances data in
  (planUpdate (mkInput (s_Scale service) params views now createsBlocked), views).

(** Step 3 keeps these views. *)
Definition kept_views (plan : updatePlan) (views : list instanceView) : list instanceView :=
  let retired : gset string := list_to_set (i_ID <$> plan_Retire plan) in
  List.filter (λ v, negb (bool_decide (v_ID v ∈ retired) || is_class CompatBroken v)) views.

(** Step 4. [None] when more hashes would be drawn than given. *)
Fixpoint createLoop (ops : InstanceOps) (service : Service) (total : nat) (taken : gset string)
    (hashes : list string) : option (list effect) :=
  match total with
  | O => Some []
  | S total =>
      match generateHashInstanceName service taken hashes with
      | None => None
      | Some (name, rest) =>
          let taken := {[name]} ∪ taken in
          effs ← createLoop ops service total taken rest;
          Some (createNewInstance ops service name (Z.of_nat (size taken) - 1) ++ effs)
      end
  end.

Definition ensureStatelessInstances (ops : InstanceOps) (service : Service) (now : Time)
    (data : ServiceInstanceData) (createsBlocked : bool) (hashes : list string) : option (list effect) :=
  let '(reaped, data) := reapStuckTerminating ops service now data in
  let '(plan, views) := planServiceUpdate ops service now data createsBlocked in
  let withdraw := if (1 <? Z.of_nat (length (plan_Retire plan))) then [EWithdraw (plan_Retire plan)] else [] in
  let retire := List.concat ((λ i, EEmitRetired (i_Name i) (plan_Reason plan) :: teardown i) <$> plan_Retire plan) in
  let repair := List.concat (teardown <$> plan_Repair plan) in
  let kept := kept_views plan views in
  let survive := List.concat ((λ v, (reconcileExistingInstance ops service now (v_Instance v)).1) <$> kept) in
  let taken : gset string := list_to_set ((λ v, i_Name (v_Instance v)) <$> kept) in
  let total := Z.of_nat (length (plan_Repair plan)) + plan_Create plan in
  let total := if createsBlocked && (0 <? total) then 0 else total in
  effs ← createLoop ops service (Z.to_nat total) taken hashes;
  Some (reaped ++ withdraw ++ retire ++ repair ++ survive ++ effs).

(** ** Dependencies (dependencies.go) *)

(** What the store answers for dependency lookups: the dependency's kind and,
    for a service, its namespace; and the instances of a service. *)
Inductive dependency := DepService (namespace : string) | DepOther.

Record dep_env := mkDepEnv {
  store_Get : ResourceType → string → string → result string dependency;
  store_ListInstances : string → string → result string (list Instance);
}.

Definition fetchDependencyResource (env : dep_env) (dep : DependencyRef) (service : Service)
    : result string dependency :=
  let ns := if bool_decide (dep_Namespace dep = "") then s_Namespace service else dep_Namespace dep in
  let ty := GetDependencyResourceType dep in
  let name := GetDependencyResourceName dep in
  if bool_decide (ty = ResourceTypeService) then
    let name := if bool_decide (dep_Service dep = "") then name else dep_Service dep in
    match store_Get env ty ns name with
    | Ok d => Ok d
    | Err e => Err ("failed to get dependency " +:+ ns +:+ "/" +:+ name +:+ ": " +:+ e)
    end
  else
    match store_Get env ty ns name with
    | Ok _ => Ok DepOther
    | Err e => Err ("failed to get dependency " +:+ ns +:+ "/" +:+ name +:+ ": " +:+ e)
    end.

Definition instanceReady (i : Instance) : bool :=
  bool_decide (i_Status i = InstanceStatusRunning) && IsReady i.

Fixpoint dependenciesReadyList (env : dep_env) (service : Service) (deps : list DependencyRef)
    : result string bool :=
  match deps with
  | [] => Ok true
  | dep :: deps =>
      match fetchDependencyResource env dep service with
      | Err e => Err e
      | Ok DepOther => dependenciesReadyList env service deps
      | Ok (DepService ns) =>
          match store_ListInstances env ns (dep_Service dep) with
          | Err e => Err ("failed to list instances for dependency " +:+ ns +:+ "/" +:+ dep_Service dep)
          | Ok l => if existsb instanceReady l then dependenciesReadyList env service deps else Ok false
          end
      end
  end.

Definition dependenciesReady (env : dep_env) (service : Service) : result string bool :=
  dependenciesReadyList env service (s_Dependencies service).

(** ** ensureServiceInstances (ensure.go) *)

Definition createsBlockedBy (env : dep_env) (service : Service) : bool :=
  match s_Dependencies service with
  | [] => false
  | _ => match dependenciesReady env service with Ok ready => negb ready | Err _ => true end
  end.

Definition ensureServiceInstances (ops : InstanceOps) (env : dep_env) (service : Service) (now : Time)
    (data : result string ServiceInstanceData) (hashes : list string)
    : result string (option (list effect)) :=
  let createsBlocked := createsBlockedBy env service in
  match data with
  | Err e => Err e
  | Ok data =>
      if serviceHasStableIdentity service then
        if createsBlocked then Ok (Some []) else Ok (Some (ensureStatefulInstances ops service now data))
      else Ok (ensureStatelessInstances ops service now data createsBlocked hashes)
  end.

(** ** Garbage collection (housekeeping.go) *)

Definition deletedInstanceRetentionTime : Duration := 600 * Second.
Definition failedInstancePerServiceCap : Z := 3.
Definition failedInstanceTTL : Duration := 3600 * Second.

(** A tombstone: Failed with a failure time. *)
Definition tombstone (i : Instance) : bool :=
  bool_decide (i_Status i = InstanceStatusFailed) && bool_decide (is_Some (i_FailedAt i)).

Definition failedAt (i : Instance) : Time := default 0 (i_FailedAt i).
Definition hasLogs (i : Instance) : bool := negb (bool_decide (i_LastLogs i = "")).

(** The comparison of [gcFailedInstances]. *)
Definition keepFirst (a b : Instance) : bool :=
  if negb (Bool.eqb (hasLogs a) (hasLogs b)) then hasLogs a else After (failedAt a) (failedAt b).

Definition serviceKey (i : Instance) : string := i_Namespace i +:+ "/" +:+ i_ServiceName i.

Definition tooOld (now : Time) (i : Instance) : bool := failedInstanceTTL <? Sub now (failedAt i).

(** The walk over one service's sorted tombstones, from position [pos]. *)
Fixpoint evictFrom (now : Time) (pos : Z) (tombs : list Instance) : list Instance :=
  match tombs with
  | [] => []
  | t :: rest =>
      if tooOld now t || (failedInstancePerServiceCap <=? pos)
      then t :: evictFrom now (pos + 1) rest else evictFrom now (pos + 1) rest
  end.

Definition tombstonesOf (key : string) (instances : list Instance) : list Instance :=
  List.filter (λ i, tombstone i && bool_decide (serviceKey i = key)) instances.

Definition gcService (now : Time) (key : string) (instances : list Instance) : list Instance :=
  evictFrom now 0 (SliceStable keepFirst (tombstonesOf key instances)).

(** Go ranges over the bucket map in an unspecified order; here the keys come
    in the order of their first tombstone. *)
Definition gcFailedInstances (now : Time) (instances : list Instance) : list effect :=
  let keys := remove_dups (serviceKey <$> List.filter tombstone instances) in
  EDelete <$> List.concat ((λ key, gcService now key instances) <$> keys).

(** The deleted-instance sweep of [runGarbageCollection]. *)
Definition expired (now : Time) (i : Instance) : bool :=
  bool_decide (i_Status i = InstanceStatusDeleted) &&
  match i_Metadata i with
  | Some m => match im_DeletionTimestamp m with
              | Some t => deletedInstanceRetentionTime <? Sub now t
              | None => false
              end
  | None => false
  end.

Definition runGarbageCollection (now : Time) (instances : list Instance) : list effect :=
  gcFailedInstances now instances ++
  ((λ i, EStoreDelete (i_Namespace i) (i_ID i)) <$> List.filter (expired now) instances).

(** [cleanUpOrphanedInstances]: stops at the first deletion that fails. *)
Fixpoint cleanUpOrphanedInstances (ops : InstanceOps) (orphans : list Instance)
    : list effect * result string unit :=
  match orphans with
  | [] => ([], Ok tt)
  | i :: rest =>
      match (io_Delete ops i).2 with
      | Err e => ([EDelete i], Err e)
      | Ok _ => let '(effs, r) := cleanUpOrphanedInstances ops rest in (EDelete i :: effs, r)
      end
  end.

(** [runHousekeeping]: the orphans of every service whose data could be read. *)
Definition runHousekeeping (ops : InstanceOps) (services : result string (list Service))
    (instances : Service → result string ServiceInstanceData) : list effect :=
  match services with
  | Err _ => []
  | Ok services =>
      (cleanUpOrphanedInstances ops (List.concat
        ((λ s, match instances s with Ok d => sid_Orphaned d | Err _ => [] end) <$> services))).1
  end.

(** ** UpdateInstance (instance_lifecycle.go) *)

Section UpdateInstance.
Context (env : runner_env) (prepareEnvVars : Instance → result string (gmap string string)) (now : Time).

Definition set_update (i : Instance) (environment : gmap string string) (message : string)
    (gen : Z) (updatedAt : Time) : Instance :=
  let im := default (mkInstanceMetadata "" 0 None "" 0) (i_Metadata i) in
  {| i_ID := i_ID i; i_Namespace := i_Namespace i; i_Name := i_Name i;
     i_ServiceName := i_ServiceName i; i_ServiceID := i_ServiceID i; i_Status := i_Status i;
     i_StatusMessage := message; i_IP := i_IP i; i_ContainerID := i_ContainerID i; i_PID := i_PID i;
     i_CreatedAt := i_CreatedAt i; i_UpdatedAt := updatedAt;
     i_LastTransitionAt := i_LastTransitionAt i;
     i_Ready := i_Ready i; i_ReadyChangedAt := i_ReadyChangedAt i;
     i_ContainerEverCreatedAt := i_ContainerEverCreatedAt i;
     i_NextCreateAttemptAt := i_NextCreateAttemptAt i; i_FailedAt := i_FailedAt i;
     i_LastLogs := i_LastLogs i; i_Process := i_Process i;
     i_Resources := i_Resources i; i_Environment := environment;
     i_Metadata := Some (mkInstanceMetadata (im_Image im) gen (im_DeletionTimestamp im) (im_ContainerIP im) (im_RestartCount im)) |}.

(** The environment sync: internal keys are skipped, others added or changed. *)
Definition syncEnv (wanted current : gmap string string) : gmap string string :=
  filter (λ kv : string * string, runeInternalKey kv.1 = false) wanted ∪ current.

(** The store callback. *)
Definition update_mutate (inst fresh : Instance) : option Instance :=
  if negb (bool_decide (i_Status fresh = InstanceStatusRunning)) then None
  else Some (set_update fresh (i_Environment inst) (i_StatusMessage inst)
               (match i_Metadata inst with Some m => im_ServiceGeneration m | None => 0 end)
               (i_UpdatedAt inst)).

(** The error, or the record the store holds for the instance afterwards
    ([None]: no write was due).  A missing service metadata is the nil
    dereference of the source. *)
Definition UpdateInstance (service : Service) (instance : Instance) (seen : list (option Instance))
    : result string (option (option Instance)) :=
  match GetInstanceRunner env instance with
  | Err e => Err ("failed to get runner for instance: " +:+ e)
  | Ok _ =>
      match fst (ClassifyInstance env instance service) with
      | Err _ => Err "nil dereference"
      | Ok verdict =>
          match cv_Class verdict with
          | CompatBroken =>
              Err ("instance " +:+ i_ID instance +:+ " requires recreation to update: " +:+ cv_Reason verdict)
          | CompatOutdated => Ok None
          | CompatOK =>
              match runner_Status env instance with
              | Err e => Err ("failed to get instance status: " +:+ e)
              | Ok (status, _) =>
                  if negb (bool_decide (status = InstanceStatusRunning)) then
                    Err ("instance " +:+ i_ID instance +:+ " is in state "
                         +:+ InstanceStatus_string status +:+ " and cannot be updated in-place")
                  else
                    match prepareEnvVars instance with
                    | Err e => Err ("failed to prepare environment variables: " +:+ e)
                    | Ok wanted =>
                        let environment := syncEnv wanted (i_Environment instance) in
                        let envUpdated := negb (bool_decide (environment = i_Environment instance)) in
                        let msgUpdated := bool_decide (i_StatusMessage instance = "") ||
                                          bool_decide (i_StatusMessage instance = "Created") in
                        let message := if msgUpdated then "Updated" else i_StatusMessage instance in
                        match s_Metadata service with
                        | None => Err "nil dereference"
                        | Some md =>
                            let gen := match i_Metadata instance with Some m => im_ServiceGeneration m | None => 0 end in
                            let genUpdated := negb (gen =? md_TemplateGeneration md) in
                            if envUpdated || msgUpdated || genUpdated then
                              let inst := set_update instance environment message (md_TemplateGeneration md) now in
                              match UpdateFunc updateFuncMaxRetries seen (update_mutate inst) with
                              | Err _ => Err "failed to update instance in store"
                              | Ok r => Ok (Some r)
                              end
                            else Ok None
                        end
                    end
              end
          end
      end
  end.
End UpdateInstance.
