(* ===== verification/Teardown.v ===== *)
(** * Tearing instances down (pkg/orchestrator/instance/instance_lifecycle.go,
      instance_endpoints.go)

    [StopInstance], [DeleteInstance], [RecreateInstance] and the batch
    withdrawal.  Each returns the calls it makes on the store, the dataplane
    publisher and the runner, in order, and the caller's record afterwards (the
    source mutates it through its pointer). *)

From S2P Require Import Prelude Types UpdateStrategy Compat UpdatePlan Status.

Inductive call :=
| CStore (i : Instance)             (* store.Update / UpdateFunc on the instance's record *)
| CRepublish (service : string)     (* republishService: endpoints from the store *)
| CRepublishLocal
| CDrain (window : Duration)
| CSnapshotLogs
| CStop
| CRemove.

(** What the environment answers during one teardown. *)
Record teardown_env := mkTeardownEnv {
  te_publisher : bool;                           (* a dataplane publisher is bound *)
  te_nodeID : bool;                              (* a node id is bound *)
  te_drainOverride : Duration;                   (* Controller.drainWindowOverride *)
  te_service : string → string → option Service; (* store.Get of the owning service *)
  te_update : Instance → option (option Instance); (* UpdateFunc: the fresh record, [None] on error *)
  te_store_ok : Instance → bool;                 (* store.Update succeeds *)
  te_runner : Instance → result string unit;     (* GetInstanceRunner *)
  te_stop : Instance → result string unit;
  te_remove : Instance → result string unit;
  te_now : Time;
}.

Definition with_status (i : Instance) (st : InstanceStatus) (message : string) (updatedAt : Time)
    (md : option InstanceMetadata) : Instance :=
  {| i_ID := i_ID i; i_Namespace := i_Namespace i; i_Name := i_Name i;
     i_ServiceName := i_ServiceName i; i_ServiceID := i_ServiceID i; i_Status := st;
     i_StatusMessage := message; i_IP := i_IP i; i_ContainerID := i_ContainerID i; i_PID := i_PID i;
     i_CreatedAt := i_CreatedAt i; i_UpdatedAt := updatedAt;
     i_LastTransitionAt := i_LastTransitionAt i;
     i_Ready := i_Ready i; i_ReadyChangedAt := i_ReadyChangedAt i;
     i_ContainerEverCreatedAt := i_ContainerEverCreatedAt i;
     i_NextCreateAttemptAt := i_NextCreateAttemptAt i; i_FailedAt := i_FailedAt i;
     i_LastLogs := i_LastLogs i; i_Process := i_Process i;
     i_Resources := i_Resources i; i_Environment := i_Environment i; i_Metadata := md |}.

Definition is_Running (i : Instance) : bool := bool_decide (i_Status i = InstanceStatusRunning).

Section Teardown.
Context (env : teardown_env).

(** [drainAfterWithdraw]. *)
Definition drainAfterWithdraw (service : option Service) (wasServing : bool) : list call :=
  match service with
  | None => []
  | Some s =>
      if negb wasServing || negb (te_publisher env) || bool_decide (s_Ports s = []) then []
      else [CDrain (if 0 <? te_drainOverride env then te_drainOverride env else DrainWindow service)]
  end.

Definition republishService (service : Service) : list call :=
  if te_publisher env then [CRepublish (s_Name service)] else [].

Definition republishServiceByInstance (i : Instance) : list call :=
  if negb (te_publisher env) || bool_decide (i_ServiceName i = "") then []
  else match te_service env (i_Namespace i) (i_ServiceName i) with
       | Some s => republishService s
       | None => []
       end.

Definition republishLocalInstances : list call :=
  if te_publisher env && te_nodeID env then [CRepublishLocal] else [].

Definition owningService (i : Instance) : option Service :=
  if bool_decide (i_ServiceName i = "") then None
  else te_service env (i_Namespace i) (i_ServiceName i).

(** [UpdateFunc] flipping a record from [from] to [st]; [None] is an error,
    otherwise the write made, if any (a record in another state is skipped). *)
Definition flip (from st : InstanceStatus) (message : string) (i : Instance) : option (list call) :=
  match te_update env i with
  | None => None
  | Some None => None
  | Some (Some fresh) =>
      if negb (bool_decide (i_Status fresh = from)) then Some []
      else Some [CStore (with_status fresh st message (te_now env) (i_Metadata fresh))]
  end.

(** [WithdrawServiceInstances]: the loop, then one publish and one drain. *)
Fixpoint withdrawLoop (instances : list Instance) : list call * bool * list Instance :=
  match instances with
  | [] => ([], false, [])
  | i :: rest =>
      let '(calls, any, rest') := withdrawLoop rest in
      if negb (is_Running i) then (calls, any, i :: rest')
      else match flip InstanceStatusRunning InstanceStatusTerminating "Withdrawn from routing; draining" i with
           | None => (calls, any, i :: rest')
           | Some c =>
               (c ++ calls, true,
                with_status i InstanceStatusTerminating (i_StatusMessage i) (i_UpdatedAt i) (i_Metadata i) :: rest')
           end
  end.

Definition WithdrawServiceInstances (service : option Service) (instances : list Instance)
    : list call * list Instance :=
  let '(calls, any, instances') := withdrawLoop instances in
  if negb any then (calls, instances')
  else (calls ++ match service with Some s => republishService s | None => [] end
        ++ republishLocalInstances ++ drainAfterWithdraw service true, instances').

(** [StopInstance]. *)
Definition StopInstance (i : Instance) : list call * Instance * result string unit :=
  match te_runner env i with
  | Err e => ([], i, Err ("failed to get runner for instance: " +:+ e))
  | Ok _ =>
      let wasServing := is_Running i in
      let '(withdraw, i1, owner) :=
        if wasServing then
          let '(c, i1) := match flip InstanceStatusRunning InstanceStatusTerminating "Stopping" i with
            | Some c => (c, with_status i InstanceStatusTerminating (i_StatusMessage i) (i_UpdatedAt i) (i_Metadata i))
            | None => ([], i)
            end in
          let owner := owningService i in
          (c ++ match owner with Some s => republishService s ++ republishLocalInstances | None => [] end, i1, owner)
        else ([], i, None) in
      let pre := withdraw ++ drainAfterWithdraw owner wasServing in
      match te_stop env i1 with
      | Err e =>
          let '(revert, i2) :=
            if wasServing then
              match flip InstanceStatusTerminating InstanceStatusRunning "Stop failed; still running" i1 with
              | Some c =>
                  let i2 := with_status i1 InstanceStatusRunning (i_StatusMessage i1) (i_UpdatedAt i1) (i_Metadata i1) in
                  (c ++ republishServiceByInstance i2 ++ republishLocalInstances, i2)
              | None => ([], i1)
              end
            else ([], i1) in
          (pre ++ [CStop] ++ revert, i2, Err ("failed to stop instance: " +:+ e))
      | Ok _ =>
          match te_update env i1 with
          | Some (Some fresh) =>
              let stopped x := with_status x InstanceStatusStopped "Stopped by user" (te_now env) (i_Metadata x) in
              (pre ++ [CStop; CStore (stopped fresh)] ++ republishServiceByInstance (stopped i1)
                 ++ republishLocalInstances, stopped i1, Ok tt)
          | _ => (pre ++ [CStop], i1, Err "failed to update instance status")
          end
      end
  end.

(** The flip to Terminating at the head of [DeleteInstance]. *)
Definition terminatingFlip (i : Instance) : list call * Instance :=
  if negb (bool_decide (i_Status i = InstanceStatusDeleted)) &&
     negb (bool_decide (i_Status i = InstanceStatusFailed)) &&
     negb (bool_decide (i_Status i = InstanceStatusStalled)) then
    let i1 := with_status i InstanceStatusTerminating "Stopping and removing container" (te_now env) (i_Metadata i) in
    (if te_store_ok env i1 then [CStore i1] else [], i1)
  else ([], i).

(** [DeleteInstance]. *)
Definition DeleteInstance (i : Instance) : list call * Instance * result string unit :=
  let wasServing := is_Running i in
  let '(flipped, i1) := terminatingFlip i in
  let owner := owningService i1 in
  let publish := if wasServing then
      match owner with Some s => republishService s ++ republishLocalInstances | None => [] end
    else [] in
  let pre := flipped ++ publish ++ drainAfterWithdraw owner wasServing ++ [CSnapshotLogs] in
  match te_runner env i1 with
  | Err e => (pre, i1, Err ("failed to get runner for instance: " +:+ e))
  | Ok _ =>
      let failedToStop := negb (is_ok (te_stop env i1)) in
      let failedToRemove := negb (is_ok (te_remove env i1)) in
      let md := default (mkInstanceMetadata "" 0 None "" 0) (i_Metadata i1) in
      let i2 := with_status i1 InstanceStatusDeleted "Marked for deletion" (te_now env)
                  (Some (mkInstanceMetadata (im_Image md) (im_ServiceGeneration md) (Some (te_now env)) (im_ContainerIP md) (im_RestartCount md))) in
      (pre ++ [CStop; CRemove] ++ (if te_store_ok env i2 then [CStore i2] else [])
         ++ republishServiceByInstance i2 ++ republishLocalInstances,
       i2,
       if failedToStop && failedToRemove then
         Err "failed to both stop and remove instance; instance marked as deleted but resources may remain"
       else if failedToStop then
         Err "failed to stop instance; instance marked as deleted but may still be running"
       else if failedToRemove then
         Err "failed to remove instance; instance marked as deleted but resources may remain"
       else Ok tt)
  end.

(** [RecreateInstance], with [create] standing for [CreateInstance] at the
    existing ordinal. *)
Definition RecreateInstance (create : string → result string Instance) (existing : Instance)
    : list call * result string Instance :=
  let '(calls, _, r) := DeleteInstance existing in
  match r with
  | Err e => (calls, Err ("failed to delete instance for recreation: " +:+ e))
  | Ok _ => (calls, create (i_Name existing))
  end.

(** The retirement of a batch, as the reconciler drives it: one withdrawal when
    there is more than one instance, then a deletion each. *)
Definition deleteAll (instances : list Instance) : list call :=
  List.concat ((λ i, (DeleteInstance i).1.1) <$> instances).

Definition retireBatch (service : Service) (instances : list Instance) : list call :=
  if 1 <? Z.of_nat (length instances) then
    let '(calls, instances') := WithdrawServiceInstances (Some service) instances in
    calls ++ deleteAll instances'
  else deleteAll instances.

End Teardown.
