(* ===== verification/TeardownProps.v ===== *)
(** * Properties of teardown *)

From S2P Require Import Prelude Types UpdateStrategy Compat UpdatePlan StrategyProps Status Teardown.

(** ** Drain window *)

(** The largest grace, in seconds, whose nanosecond count is an [int64]. *)
Definition maxDrainSeconds : Z := 9223372036.

Definition drain_seconds_ok (s : Service) : Prop :=
  match s_DrainSeconds s with Some d => d ≤ maxDrainSeconds | None => True end.

(** The grace is floored at one second, whatever the spec says. *)
Lemma DrainWindow_floor s : drain_seconds_ok s → Second ≤ DrainWindow (Some s).
Proof.
  unfold drain_seconds_ok, DrainWindow, maxDrainSeconds, MinDrainSeconds, DefaultDrainSeconds, Second.
  intros Hd. destruct (s_DrainSeconds s) as [d|]; simpl; repeat case_match; bools; rewrite wrap64_id;
    unfold in_int64, int64_min, int64_max; lia.
Qed.

(** ** Order of one deletion *)

Definition is_stop (c : call) : bool := match c with CStop => true | _ => false end.
Definition is_drain (c : call) : bool := match c with CDrain _ => true | _ => false end.

(** An instance is withdrawn before it is stopped.  Deleting a Running
    instance of a published service first persists it as [Terminating], then
    republishes the service's endpoints, then drains for at least a second, and
    only then stops the container; the record ends [Deleted]. *)
Theorem DeleteInstance_withdraws_first env i s :
  i_Status i = InstanceStatusRunning → te_publisher env = true →
  owningService env i = Some s → s_Ports s ≠ [] → drain_seconds_ok s →
  te_drainOverride env = 0 → te_store_ok env (terminatingFlip env i).2 = true →
  te_runner env (terminatingFlip env i).2 = Ok tt →
  ∃ i1 loc window rest,
    (DeleteInstance env i).1.1 = [CStore i1; CRepublish (s_Name s)] ++ loc ++ CDrain window :: CSnapshotLogs :: CStop :: rest ∧
    i_Status i1 = InstanceStatusTerminating ∧ i_ID i1 = i_ID i ∧
    Second ≤ window ∧ countb is_stop (loc ++ rest) = 0 ∧
    i_Status (DeleteInstance env i).1.2 = InstanceStatusDeleted.
Proof.
  intros Hrun Hpub Hown Hports Hdrain Hov Hst Hrt.
  assert (Hi1 : i_Status (terminatingFlip env i).2 = InstanceStatusTerminating ∧
                i_ID (terminatingFlip env i).2 = i_ID i ∧
                owningService env (terminatingFlip env i).2 = Some s ∧
                (terminatingFlip env i).1 = [CStore (terminatingFlip env i).2]).
  { unfold terminatingFlip in *. rewrite Hrun in *. simpl in *. rewrite Hst. by rewrite <- Hown. }
  destruct Hi1 as (Hterm & Hid & Hown' & Hfl).
  unfold DeleteInstance. destruct (terminatingFlip env i) as [fl i1]. simpl in *. subst fl.
  rewrite Hown', Hrt. unfold is_Running, republishService, drainAfterWithdraw.
  rewrite Hrun, Hpub, (bool_decide_false _ Hports), Hov. simpl.
  exists i1, (republishLocalInstances env), (DrainWindow (Some s)). eexists.
  rewrite <- !app_assoc. simpl. split; [done|]. split_and!; try done; [by apply DrainWindow_floor|].
  apply countb_none. intros c. unfold republishLocalInstances, republishServiceByInstance, republishService.
  repeat case_match; simpl; set_solver.
Qed.

Definition sample_teardown_env (svc : Service) : teardown_env :=
  {| te_publisher := true; te_nodeID := true; te_drainOverride := 0;
     te_service := λ _ _, Some svc; te_update := λ i, Some (Some i); te_store_ok := λ _, true;
     te_runner := λ _, Ok tt; te_stop := λ _, Ok tt; te_remove := λ _, Ok tt; te_now := 7 |}.

Definition published_service : Service :=
  {| s_ID := "svc"; s_Name := "svc"; s_Namespace := "default"; s_Image := "img"; s_Env := ∅;
     s_Scale := 2; s_Ports := [mkServicePort "http" 80 0 "" 0]; s_Resources := mkResources "" "";
     s_HasHealth := false; s_HasReadiness := false; s_NetworkPolicy := None; s_Volumes := [];
     s_Dependencies := []; s_Status := ServiceStatusRunning; s_StatusReason := "";
     s_StatusMessage := ""; s_Runtime := RuntimeTypeContainer; s_Process := None;
     s_UpdateStrategy := None; s_DrainSeconds := Some 0; s_Update := None;
     s_Metadata := Some (mkServiceMetadata 1 2 1 None []) |}.

Lemma DeleteInstance_withdraws_first_witness :
  ∃ i1 loc window rest,
    (DeleteInstance (sample_teardown_env published_service) outdated_instance).1.1 =
      [CStore i1; CRepublish "svc"] ++ loc ++ CDrain window :: CSnapshotLogs :: CStop :: rest ∧ Second ≤ window.
Proof.
  destruct (DeleteInstance_withdraws_first (sample_teardown_env published_service) outdated_instance
    published_service) as (i1 & loc & w & rest & H1 & _ & _ & H2 & _);
    try reflexivity; try discriminate.
  exists i1, loc, w, rest. exact (conj H1 H2).
Defined.

(** ** One drain for a batch *)

Lemma countb_concat {A B} (f : B → bool) (h : A → list B) (l : list A) :
  (∀ x, x ∈ l → countb f (h x) = 0) → countb f (List.concat (h <$> l)) = 0.
Proof.
  induction l as [|x l IH]; intros H; [done|].
  rewrite fmap_cons. cbn [List.concat]. rewrite countb_app, (H x) by set_solver.
  rewrite IH; [done|]. set_solver.
Qed.

Lemma drain_at_most_one env s b : countb is_drain (drainAfterWithdraw env s b) ≤ 1.
Proof. unfold drainAfterWithdraw. repeat case_match; simpl; lia. Qed.

Lemma not_serving_no_drain env s : drainAfterWithdraw env s false = [].
Proof. unfold drainAfterWithdraw. by destruct s. Qed.

Lemma republish_no_drain env s i :
  countb is_drain (republishService env s) = 0 ∧ countb is_drain (republishLocalInstances env) = 0 ∧
  countb is_drain (republishServiceByInstance env i) = 0.
Proof.
  unfold republishService, republishLocalInstances, republishServiceByInstance, republishService.
  repeat case_match; done.
Qed.

(** Drains of one deletion: only its own, and only if it was Running. *)
Lemma DeleteInstance_drains env i :
  countb is_drain (DeleteInstance env i).1.1 ≤ if is_Running i then 1 else 0.
Proof.
  unfold DeleteInstance.
  assert (Hf : countb is_drain (terminatingFlip env i).1 = 0) by (unfold terminatingFlip; repeat case_match; done).
  destruct (terminatingFlip env i) as [fl i1]. simpl in Hf.
  assert (Hd : countb is_drain (drainAfterWithdraw env (owningService env i1) (is_Running i))
               ≤ if is_Running i then 1 else 0).
  { destruct (is_Running i); [apply drain_at_most_one|by rewrite not_serving_no_drain]. }
  assert (Hp : countb is_drain (if is_Running i then
      match owningService env i1 with Some s => republishService env s ++ republishLocalInstances env | None => [] end
      else []) = 0).
  { repeat case_match; try done. autorewrite with rune.
    destruct (republish_no_drain env s i1) as (-> & -> & _). done. }
  destruct (te_runner env i1); cbn [fst]; rewrite !countb_app, Hf, Hp; cbn [countb is_drain].
  - match goal with |- context [countb is_drain (republishServiceByInstance env ?x)] =>
      destruct (republish_no_drain env published_service x) as (_ & -> & ->) end.
    destruct (te_store_ok env _); cbn [countb is_drain]; lia.
  - lia.
Qed.

(** A batch withdrawal leaves no instance Running. *)
Lemma withdrawLoop_spec env l :
  (∀ i, i ∈ l → is_Running i = true → ∃ fresh, te_update env i = Some (Some fresh)) →
  countb is_drain (withdrawLoop env l).1.1 = 0 ∧
  (∀ i, i ∈ (withdrawLoop env l).2 → is_Running i = false) ∧
  (i_ID <$> (withdrawLoop env l).2) = i_ID <$> l.
Proof.
  induction l as [|i l IH]; intros H; simpl; [split_and!; [done|set_solver|done]|].
  destruct IH as (Hd & Hr & Hids); [intros; apply H; set_solver|].
  destruct (withdrawLoop env l) as [[calls any] rest]. simpl in *.
  destruct (is_Running i) eqn:E; simpl.
  - destruct (H i) as [fresh Hf]; [set_solver|done|]. unfold flip. rewrite Hf. simpl.
    destruct (negb (bool_decide (i_Status fresh = InstanceStatusRunning))); simpl;
      (split_and!; [done| |by f_equal]);
      intros j [->|Hj]%elem_of_cons; try done; by apply Hr.
  - split_and!; [done| |by f_equal]. intros j [->|Hj]%elem_of_cons; [done|by apply Hr].
Qed.

(** A batch costs one drain.  Retiring any number of instances, with the
    batch withdrawal first when there are several, drains at most once. *)
Theorem retireBatch_one_drain env service l :
  (∀ i, i ∈ l → is_Running i = true → ∃ fresh, te_update env i = Some (Some fresh)) →
  countb is_drain (retireBatch env service l) ≤ 1.
Proof.
  intros H. unfold retireBatch. destruct (1 <? Z.of_nat (length l)) eqn:E; bools.
  - destruct (withdrawLoop_spec env l H) as (Hd & Hr & _).
    unfold WithdrawServiceInstances. destruct (withdrawLoop env l) as [[calls any] l'] eqn:El. simpl in *.
    assert (Hdel : countb is_drain (deleteAll env l') = 0).
    { apply countb_concat. intros i Hi. pose proof (DeleteInstance_drains env i) as Hle.
      rewrite (Hr i Hi) in Hle. pose proof (countb_nonneg is_drain (DeleteInstance env i).1.1). lia. }
    destruct any; cbn [negb]; autorewrite with rune; rewrite Hdel, Hd. 2: done.
    destruct (republish_no_drain env service outdated_instance) as (-> & -> & _).
    repeat case_match; simpl; lia.
  - destruct l as [|i [|j l]]; simpl in E; [done| |lia]. unfold deleteAll. rewrite fmap_cons. cbn [List.concat].
    autorewrite with rune. pose proof (DeleteInstance_drains env i). destruct (is_Running i); simpl; lia.
Qed.

Lemma retireBatch_one_drain_witness :
  countb is_drain (retireBatch (sample_teardown_env published_service) published_service
    [outdated_instance; outdated_instance; outdated_instance]) ≤ 1.
Proof.
  apply retireBatch_one_drain. intros i _ _. exists i. reflexivity.
Defined.
