(* ===== verification/EnsureProps.v ===== *)
(** * Properties of the executing half of the reconciler *)

From stdpp Require Import pretty.
From S2P Require Import Prelude Types UpdateStrategy Compat UpdatePlan UpdatePlanProps StrategyProps Status Ensure Teardown.

(** ** The laws the reconciler relies on

    [running i] is whether the runner reports the instance Running throughout
    the pass. *)
Class OpsLaws (ops : InstanceOps) (running : Instance → bool) : Prop := {
  ol_delete_id : ∀ i, i_ID (io_Delete ops i).1 = i_ID i;
  ol_delete_stopped : ∀ i, i_Status (io_Delete ops i).1 ≠ InstanceStatusRunning;
  ol_update : ∀ i e, running i = true → io_Update ops i = Err e → isRecreationRequired e = true →
                cv_Class (io_Classify ops i) = CompatBroken;
}.

(** The instance controller as an implementation of the interface. *)
Definition controllerOps (renv : runner_env) (tenv : teardown_env)
    (prepareEnvVars : Instance → result string (gmap string string))
    (create : string → result string Instance) (retry : Instance → result string unit)
    (seen : Instance → list (option Instance)) (service : Service) : InstanceOps :=
  {| io_Classify := λ i, match fst (ClassifyInstance renv i service) with
                         | Ok v => v | Err _ => mkVerdict CompatBroken "nil dereference" end;
     io_Compatible := λ i, match IsInstanceCompatibleWithService renv i service with
                           | Ok (b, _) => b | Err _ => false end;
     io_Update := λ i, match UpdateInstance renv prepareEnvVars (te_now tenv) service i (seen i) with
                       | Ok _ => Ok tt | Err e => Err e end;
     io_Retry := retry;
     io_Create := create;
     io_Recreate := λ i, (RecreateInstance tenv create i).2;
     io_Delete := λ i, ((DeleteInstance tenv i).1.2, (DeleteInstance tenv i).2) |}.

Definition running_in (renv : runner_env) (i : Instance) : bool :=
  is_ok (GetInstanceRunner renv i) &&
  match runner_Status renv i with Ok (st, _) => bool_decide (st = InstanceStatusRunning) | Err _ => false end.

Lemma DeleteInstance_record tenv i :
  i_ID (DeleteInstance tenv i).1.2 = i_ID i ∧ i_Status (DeleteInstance tenv i).1.2 ≠ InstanceStatusRunning.
Proof.
  assert (Hf : i_ID (terminatingFlip tenv i).2 = i_ID i ∧
               i_Status (terminatingFlip tenv i).2 ≠ InstanceStatusRunning).
  { unfold terminatingFlip. destruct (_ && _ && _) eqn:E; [done|]. split; [done|]. simpl. intros Hr.
    by rewrite Hr in E. }
  unfold DeleteInstance. destruct (terminatingFlip tenv i) as [fl i1]. simpl in Hf.
  destruct (te_runner tenv i1); simpl; [|done]. by destruct Hf.
Qed.

(** The controller keeps the laws, as long as an environment-resolution error
    does not read like a recreation request. *)
#[global] Instance controllerOps_laws renv tenv prep create retry seen service
    (Hprep : ∀ i e, prep i = Err e → isRecreationRequired ("failed to prepare environment variables: " +:+ e) = false) :
  OpsLaws (controllerOps renv tenv prep create retry seen service) (running_in renv).
Proof.
  split; intros i; [apply DeleteInstance_record|apply DeleteInstance_record|].
  intros e Hrun. simpl. unfold UpdateInstance, running_in in *.
  destruct (GetInstanceRunner renv i) as [[]|]; [|done].
  destruct (runner_Status renv i) as [[st c]|]; [|by rewrite andb_false_r in Hrun]. simpl in Hrun. bools. subst st.
  destruct (ClassifyInstance renv i service) as [[v|] h]; simpl; [|done].
  destruct (cv_Class v) eqn:Ev; [|done|done].
  destruct (prep i) as [wanted|e'] eqn:Ep; simpl; [|intros [= <-] Hrec; by rewrite (Hprep i e' Ep) in Hrec].
  destruct (s_Metadata service) as [md|]; [|intros [= <-]; done].
  destruct (negb (bool_decide (syncEnv _ _ = _)) || _ || _); [|done].
  destruct (UpdateFunc _ _ _); [done|]. intros [= <-]. done.
Qed.

(** ** Reading a pass *)

Definition deleted_id (e : effect) : option string :=
  match e with EDelete i => Some (i_ID i) | _ => None end.
Definition created_name (e : effect) : option string :=
  match e with ECreate n _ => Some n | _ => None end.
Definition recreated_id (e : effect) : option string :=
  match e with ERecreate i => Some (i_ID i) | _ => None end.

Definition deleted (effs : list effect) : list string := omap deleted_id effs.
Definition created (effs : list effect) : list string := omap created_name effs.
Definition recreated (effs : list effect) : list string := omap recreated_id effs.

Lemma omap_concat {A B C} (f : B → option C) (h : A → list B) (l : list A) :
  omap f (List.concat (h <$> l)) = List.concat ((λ x, omap f (h x)) <$> l).
Proof. induction l as [|x l IH]; [done|]. rewrite !fmap_cons. cbn [List.concat]. by rewrite omap_app, IH. Qed.

Lemma concat_singletons {A B} (g : A → B) (h : A → list B) (l : list A) :
  (∀ x, x ∈ l → h x = [g x]) → List.concat (h <$> l) = g <$> l.
Proof.
  induction l as [|x l IH]; intros H; [done|]. rewrite !fmap_cons. cbn [List.concat].
  rewrite (H x) by set_solver. rewrite IH by set_solver. done.
Qed.

Lemma concat_nils {A B} (h : A → list B) (l : list A) :
  (∀ x, x ∈ l → h x = []) → List.concat (h <$> l) = [].
Proof.
  induction l as [|x l IH]; intros H; [done|]. rewrite !fmap_cons. cbn [List.concat].
  rewrite (H x) by set_solver. rewrite IH by set_solver. done.
Qed.

Lemma elem_of_concat_fmap {A B} (h : A → list B) (l : list A) y :
  y ∈ List.concat (h <$> l) ↔ ∃ x, x ∈ l ∧ y ∈ h x.
Proof.
  induction l as [|x l IH]; [set_solver|]. rewrite fmap_cons. cbn [List.concat].
  rewrite elem_of_app, IH. set_solver.
Qed.

Lemma teardown_reads i :
  deleted (teardown i) = [i_ID i] ∧ created (teardown i) = [] ∧ recreated (teardown i) = [].
Proof. done. Qed.

(** What reconciling a survivor can do. *)
Lemma reconcileExisting_reads ops service now i :
  deleted (reconcileExistingInstance ops service now i).1 = [] ∧
  created (reconcileExistingInstance ops service now i).1 = [] ∧
  (recreated (reconcileExistingInstance ops service now i).1 ≠ [] →
   ∃ e, io_Update ops i = Err e ∧ isRecreationRequired e = true) ∧
  (∀ id, id ∈ recreated (reconcileExistingInstance ops service now i).1 → id = i_ID i).
Proof.
  unfold reconcileExistingInstance, recreateInstance.
  repeat case_match; simpl; split_and!; try done; try set_solver; try (intros; by eexists);
    simplify_eq/=; repeat case_match; simplify_eq/=; try done; try set_solver; intros; eauto.
Qed.

(** ** Creation *)

Section Create.
Context (ops : InstanceOps) (service : Service).
Implicit Types (taken : gset string) (hashes : list string).

Definition name_of (h : string) : string := s_Name service +:+ "-" +:+ h.

#[local] Instance name_of_inj : Inj (=) (=) name_of.
Proof. intros a b H. unfold name_of in H. by do 2 apply (inj _) in H. Qed.

Definition free taken hashes : Z := countb (λ h, bool_decide (name_of h ∉ taken)) hashes.

Lemma generate_spec taken hashes name rest :
  generateHashInstanceName service taken hashes = Some (name, rest) →
  name ∉ taken ∧ ∃ h skipped, hashes = skipped ++ h :: rest ∧ name = name_of h ∧ free taken skipped = 0.
Proof.
  induction hashes as [|h hashes IH]; simpl; [done|]. fold (name_of h).
  case_bool_decide as Hin; intros H.
  - destruct (IH H) as (? & h' & sk & -> & -> & Hsk). split; [done|].
    exists h', (h :: sk). split_and!; [done|done|]. unfold free in *. simpl.
    rewrite Hsk, bool_decide_false by (by intros ?). done.
  - simplify_eq. split; [done|]. exists h, []. done.
Qed.

Lemma generate_total taken hashes :
  0 < free taken hashes → ∃ name rest, generateHashInstanceName service taken hashes = Some (name, rest).
Proof.
  unfold free. induction hashes as [|h hashes IH]; simpl; [lia|]. fold (name_of h).
  intros H. destruct (decide (name_of h ∈ taken)) as [Hin|Hin].
  - rewrite (bool_decide_true (name_of h ∈ taken)) by done. apply IH.
    rewrite (bool_decide_false (name_of h ∉ taken)) in H; [lia|]. by intros ?.
  - rewrite bool_decide_false by done. by eexists _, _.
Qed.

Lemma free_shrink taken hashes h :
  h ∉ hashes → free ({[name_of h]} ∪ taken) hashes = free taken hashes.
Proof.
  intros Hn. apply countb_ext. intros x Hx. apply bool_decide_ext.
  assert (name_of x ≠ name_of h) by (intros ->%(inj _); done). set_solver.
Qed.

Lemma createLoop_total total taken hashes :
  NoDup hashes → Z.of_nat total ≤ free taken hashes →
  ∃ effs, createLoop ops service total taken hashes = Some effs.
Proof.
  revert taken hashes. induction total as [|total IH]; intros taken hashes Hn Hf; simpl; [by eexists|].
  destruct (generate_total taken hashes) as (name & rest & Hg); [lia|]. rewrite Hg.
  destruct (generate_spec _ _ _ _ Hg) as (_ & h & sk & -> & -> & Hsk).
  apply NoDup_app in Hn as (_ & _ & Hn). apply NoDup_cons in Hn as [Hh Hn].
  destruct (IH ({[name_of h]} ∪ taken) rest Hn) as [effs Heffs].
  - rewrite free_shrink by done. unfold free in *. rewrite countb_app, Hsk in Hf. simpl in Hf.
    case_bool_decide; lia.
  - rewrite Heffs. simpl. by eexists.
Qed.

(** Enough distinct draws: more than there are names taken. *)
Lemma free_bound taken hashes :
  NoDup hashes → Z.of_nat (length hashes) - Z.of_nat (size taken) ≤ free taken hashes.
Proof.
  intros Hn. unfold free. pose proof (countb_negb (λ h, bool_decide (name_of h ∉ taken)) hashes) as Hc.
  enough (countb (λ h, negb (bool_decide (name_of h ∉ taken))) hashes ≤ Z.of_nat (size taken)) by lia.
  rewrite <- countb_length_filter. apply inj_le.
  rewrite <- (length_fmap name_of). unfold size, set_size. simpl.
  apply submseteq_length, NoDup_submseteq.
  - apply NoDup_fmap_2; [apply _|]. eapply sublist_NoDup; [exact Hn|]. auto with rune.
  - intros x (h & -> & Hh)%list_elem_of_fmap. apply elem_of_filterb in Hh as [Hh _]. bools.
    apply elem_of_elements. destruct (decide (name_of h ∈ taken)); [done|contradiction].
Qed.

Lemma createLoop_spec total taken hashes effs :
  createLoop ops service total taken hashes = Some effs →
  deleted effs = [] ∧ recreated effs = [] ∧ length (created effs) = total ∧
  NoDup (created effs) ∧ ∀ n, n ∈ created effs → n ∉ taken.
Proof.
  revert taken hashes effs. induction total as [|total IH]; intros taken hashes effs; cbn [createLoop].
  { intros [= <-]. split_and!; [done..|constructor|set_solver]. }
  destruct (generateHashInstanceName service taken hashes) as [[name rest]|] eqn:Hg; [|done].
  destruct (createLoop ops service total ({[name]} ∪ taken) rest) as [effs'|] eqn:Hc; cbn [mbind option_bind]; [|done].
  intros Heq. apply (inj Some) in Heq. subst effs. destruct (IH _ _ _ Hc) as (Hd & Hr & Hl & Hn & Hnot).
  destruct (generate_spec _ _ _ _ Hg) as [Hfresh _].
  assert (Hcn : deleted (createNewInstance ops service name (Z.of_nat (size ({[name]} ∪ taken)) - 1)) = [] ∧
    recreated (createNewInstance ops service name (Z.of_nat (size ({[name]} ∪ taken)) - 1)) = [] ∧
    created (createNewInstance ops service name (Z.of_nat (size ({[name]} ∪ taken)) - 1)) = [name]).
  { unfold createNewInstance. repeat case_match; done. }
  destruct Hcn as (Hcd & Hcr & Hcc). unfold deleted, recreated, created in *.
  rewrite !omap_app, Hcd, Hcr, Hcc, Hd, Hr. simpl. split_and!; [done|done|by rewrite Hl| |].
  - constructor; [|done]. intros Hin%Hnot. set_solver.
  - intros n [->|Hin]%elem_of_cons; [done|]. apply Hnot in Hin. set_solver.
Qed.
End Create.

(** ** A stateless pass *)

Lemma planUpdate_create_nonneg inp : 0 ≤ plan_Create (planUpdate inp).
Proof.
  destruct (planUpdate_create inp) as [-> | ->]; [done|]. unfold planCreate.
  destruct (0 <? _) eqn:E; bools; lia.
Qed.

Lemma plan_repair_broken inp j :
  j ∈ plan_Repair (planUpdate inp) →
  ∃ v, v ∈ in_Instances inp ∧ v_Instance v = j ∧ v_Class v = CompatBroken.
Proof.
  assert (plan_Repair (planUpdate inp) = v_Instance <$> planRepair inp) as -> by (unfold planUpdate; by case_match).
  intros (v & -> & Hv)%list_elem_of_fmap. apply planRepair_elem in Hv as ([Hv _]%elem_of_standing & Hc & _).
  by exists v.
Qed.

Lemma size_list_to_set_le (l : list string) : (size (list_to_set (C := gset string) l) ≤ length l)%nat.
Proof.
  apply submseteq_length, NoDup_submseteq; [apply NoDup_elements|].
  intros x. by rewrite elem_of_elements, elem_of_list_to_set.
Qed.

Section Stateless.
Context (ops : InstanceOps) (service : Service) (now : Time) (data : ServiceInstanceData) (blocked : bool).
Let data' := (reapStuckTerminating ops service now data).2.
Let plan := (planServiceUpdate ops service now data' blocked).1.
Let views := (planServiceUpdate ops service now data' blocked).2.

(** How many instances step 4 makes. *)
Definition to_create : Z :=
  if blocked then 0 else Z.of_nat (length (plan_Repair plan)) + plan_Create plan.

Definition kept_names : list string := (λ v, i_Name (v_Instance v)) <$> kept_views plan views.

Lemma kept_names_length : (length kept_names ≤ length (sid_Instances data))%nat.
Proof.
  unfold kept_names, kept_views. rewrite length_fmap.
  etrans; [apply sublist_length, sublist_filterb|].
  unfold views, planServiceUpdate, data', reapStuckTerminating. simpl. by rewrite !length_fmap.
Qed.

(** The total of step 4, as the source computes it. *)
Lemma total_eq : 0 ≤ plan_Create plan →
  (let total := Z.of_nat (length (plan_Repair plan)) + plan_Create plan in
   if blocked && (0 <? total) then 0 else total) = to_create.
Proof. intros H. unfold to_create. simpl. destruct blocked; simpl; repeat case_match; bools; lia. Qed.

Lemma plan_create_nonneg : 0 ≤ plan_Create plan.
Proof.
  apply planUpdate_create_nonneg.
Qed.

Lemma to_create_nonneg : 0 ≤ to_create.
Proof. unfold to_create. pose proof plan_create_nonneg as H. destruct blocked; [done|]. by apply Z.add_nonneg_nonneg; [lia|]. Qed.

Lemma stateless_eq hashes :
  ensureStatelessInstances ops service now data blocked hashes =
  effs ← createLoop ops service (Z.to_nat to_create) (list_to_set kept_names) hashes;
  Some ((reapStuckTerminating ops service now data).1
        ++ (if (1 <? Z.of_nat (length (plan_Retire plan))) then [EWithdraw (plan_Retire plan)] else [])
        ++ List.concat ((λ i, EEmitRetired (i_Name i) (plan_Reason plan) :: teardown i) <$> plan_Retire plan)
        ++ List.concat (teardown <$> plan_Repair plan)
        ++ List.concat ((λ v, (reconcileExistingInstance ops service now (v_Instance v)).1) <$> kept_views plan views)
        ++ effs).
Proof.
  rewrite <- (total_eq plan_create_nonneg). done.
Qed.

Definition stuck_ids : list string := i_ID <$> List.filter (stuckTerminating service now) (sid_Instances data).

Lemma survivors_reads effs :
  effs = List.concat ((λ v, (reconcileExistingInstance ops service now (v_Instance v)).1) <$> kept_views plan views) →
  deleted effs = [] ∧ created effs = [] ∧
  (∀ id, id ∈ recreated effs → ∃ v e, v ∈ kept_views plan views ∧ v_ID v = id ∧
     io_Update ops (v_Instance v) = Err e ∧ isRecreationRequired e = true).
Proof.
  intros ->. unfold deleted, created, recreated. rewrite !omap_concat. split_and!.
  - apply concat_nils. intros v _. apply reconcileExisting_reads.
  - apply concat_nils. intros v _. apply reconcileExisting_reads.
  - intros id (v & Hv & Hid)%elem_of_concat_fmap.
    destruct (reconcileExisting_reads ops service now (v_Instance v)) as (_ & _ & Hne & Hall).
    destruct Hne as (e & He & Hrec); [intros Hnil; unfold recreated in Hnil; by rewrite Hnil in Hid; apply elem_of_nil in Hid|].
    exists v, e. split_and!; [done| |done|done]. symmetry. by apply Hall.
Qed.

(** What a pass that returns did, read off its effects. *)
Lemma stateless_reads hashes effs :
  ensureStatelessInstances ops service now data blocked hashes = Some effs →
  deleted effs = stuck_ids ++ (i_ID <$> plan_Retire plan) ++ (i_ID <$> plan_Repair plan) ∧
  Z.of_nat (length (created effs)) = to_create ∧ NoDup (created effs) ∧
  (∀ n, n ∈ created effs → n ∉ kept_names) ∧
  (∀ id, id ∈ recreated effs → ∃ v e, v ∈ kept_views plan views ∧ v_ID v = id ∧
     io_Update ops (v_Instance v) = Err e ∧ isRecreationRequired e = true).
Proof.
  rewrite stateless_eq.
  destruct (createLoop _ _ _ _ _) as [ceffs|] eqn:Hc; [|done]. intros Heq. apply (inj Some) in Heq. subst effs.
  destruct (createLoop_spec _ _ _ _ _ _ Hc) as (Hcd & Hcr & Hcl & Hcn & Hcf).
  destruct (survivors_reads _ eq_refl) as (Hsd & Hsc & Hsr).
  assert (Hw : ∀ (f : effect → option string), (∀ l, f (EWithdraw l) = None) →
    omap f (if 1 <? Z.of_nat (length (plan_Retire plan)) then [EWithdraw (plan_Retire plan)] else []) = []).
  { intros f Hf. case_match; simpl; by rewrite ?Hf. }
  unfold deleted, created, recreated in *. rewrite !omap_app, Hsd, Hsc, Hcd, Hcr, !Hw by done.
  unfold reapStuckTerminating. cbn [fst]. rewrite !omap_concat. rewrite omap_concat in Hsr.
  rewrite !(concat_nils (λ x, omap created_name (teardown x))) by done.
  rewrite !(concat_nils (λ x, omap recreated_id (teardown x))) by done.
  rewrite !(concat_singletons i_ID (λ x, omap deleted_id (teardown x))) by done.
  rewrite !(concat_nils (λ x, omap created_name (EEmitRetired (i_Name x) (plan_Reason plan) :: teardown x))) by done.
  rewrite !(concat_nils (λ x, omap recreated_id (EEmitRetired (i_Name x) (plan_Reason plan) :: teardown x))) by done.
  rewrite !(concat_singletons i_ID (λ x, omap deleted_id (EEmitRetired (i_Name x) (plan_Reason plan) :: teardown x))) by done.
  simpl. rewrite !app_nil_r. split_and!.
  - done.
  - rewrite Hcl. pose proof to_create_nonneg. lia.
  - done.
  - intros n Hn. apply Hcf in Hn. by rewrite elem_of_list_to_set in Hn.
  - done.
Qed.

Lemma stateless_total hashes :
  NoDup hashes → Z.of_nat (length (sid_Instances data)) + to_create ≤ Z.of_nat (length hashes) →
  ∃ effs, ensureStatelessInstances ops service now data blocked hashes = Some effs.
Proof.
  intros Hn Hlen. rewrite stateless_eq.
  destruct (createLoop_total ops service (Z.to_nat to_create) (list_to_set kept_names) hashes) as [ceffs ->];
    [done| |by eexists].
  pose proof (free_bound service (list_to_set kept_names) hashes Hn) as Hb.
  pose proof (size_list_to_set_le kept_names) as Hs.
  pose proof kept_names_length. pose proof to_create_nonneg. lia.
Qed.
End Stateless.

(** C32: a stateless pass executes its plan and nothing else.  Given enough
    random names it returns; the instances it deletes are exactly the stranded
    ones, the plan's retirements and its repairs; it creates the plan's number
    of instances (none while dependencies are not ready), under names that are
    new and distinct; and it recreates in place only instances whose update
    asked for it. *)
Theorem ensureStateless_executes ops service now data blocked hashes :
  let data' := (reapStuckTerminating ops service now data).2 in
  let plan := (planServiceUpdate ops service now data' blocked).1 in
  NoDup hashes →
  Z.of_nat (length (sid_Instances data)) + Z.of_nat (length (plan_Repair plan)) + plan_Create plan
    ≤ Z.of_nat (length hashes) →
  ∃ effs, ensureStatelessInstances ops service now data blocked hashes = Some effs ∧
    deleted effs = (i_ID <$> List.filter (stuckTerminating service now) (sid_Instances data))
                   ++ (i_ID <$> plan_Retire plan) ++ (i_ID <$> plan_Repair plan) ∧
    Z.of_nat (length (created effs)) =
      (if blocked then 0 else Z.of_nat (length (plan_Repair plan)) + plan_Create plan) ∧
    NoDup (created effs) ∧
    (∀ n, n ∈ created effs → n ∉ kept_names ops service now data blocked) ∧
    (∀ id, id ∈ recreated effs →
       ∃ i e, i_ID i = id ∧ io_Update ops i = Err e ∧ isRecreationRequired e = true).
Proof.
  simpl. intros Hn Hlen.
  destruct (stateless_total ops service now data blocked hashes) as [effs Heffs]; [done| |].
  { pose proof (plan_create_nonneg ops service now data blocked). unfold to_create. destruct blocked; simpl in *; lia. }
  exists effs. destruct (stateless_reads _ _ _ _ _ _ _ Heffs) as (Hd & Hc & Hcn & Hcf & Hr).
  split_and!; try done. intros id Hid. destruct (Hr id Hid) as (v & e & _ & Hv & He). by exists (v_Instance v), e.
Qed.

Lemma ensureStateless_executes_witness :
  ∃ effs, ensureStatelessInstances
    (mkOps (λ _, mkVerdict CompatOutdated "") (λ _, false) (λ _, Ok tt) (λ _, Ok tt) (λ _, Err "full")
       (λ _, Err "full") (λ i, (i, Ok tt)))
    (sample_service 1 None) 10 (mkInstanceData [outdated_instance] []) false ["x"; "y"] = Some effs ∧
    created effs = ["svc-x"] ∧ NoDup (created effs).
Proof.
  destruct (ensureStateless_executes
    (mkOps (λ _, mkVerdict CompatOutdated "") (λ _, false) (λ _, Ok tt) (λ _, Ok tt) (λ _, Err "full")
       (λ _, Err "full") (λ i, (i, Ok tt)))
    (sample_service 1 None) 10 (mkInstanceData [outdated_instance] []) false ["x"; "y"])
    as (effs & Heq & _ & _ & Hn & _).
  - by apply (bool_decide_eq_true_1 (NoDup _)).
  - vm_compute. discriminate.
  - exists effs. split; [exact Heq|]. split; [|exact Hn]. revert Heq. vm_compute. intros [= <-]. reflexivity.
Defined.

(** ** The availability floor, end to end *)

Section Floor.
Context (ops : InstanceOps) (running : Instance → bool) `{Hlaws : !OpsLaws ops running}.
Context (service : Service) (now : Time) (data : ServiceInstanceData) (blocked : bool).

Definition view_of (i : Instance) : instanceView :=
  newInstanceView i (cv_Class (io_Classify ops i)) (p_MinReady (ResolveUpdateParams (Some service))) now.

Definition reaped (i : Instance) : Instance :=
  if stuckTerminating service now i then (io_Delete ops i).1 else i.

Lemma view_not_running i : i_Status i ≠ InstanceStatusRunning → serving (view_of i) = false.
Proof.
  intros Hs. unfold serving, view_of, newInstanceView. simpl. rewrite (bool_decide_false _ Hs). simpl.
  by destruct (i_ReadyChangedAt i), (i_LastTransitionAt i); simpl; repeat case_match.
Qed.

Lemma stuck_not_running i : stuckTerminating service now i = true → i_Status i ≠ InstanceStatusRunning.
Proof. unfold stuckTerminating. intros H. bools. congruence. Qed.

Lemma reaped_id i : i_ID (reaped i) = i_ID i.
Proof. unfold reaped. case_match; [|done]. apply (ol_delete_id (OpsLaws := Hlaws)). Qed.

Lemma serving_reaped i :
  serving (view_of (reaped i)) = serving (view_of i) ∧
  (serving (view_of i) = true → reaped i = i ∧ stuckTerminating service now i = false).
Proof.
  unfold reaped. destruct (stuckTerminating service now i) eqn:E; [|done].
  rewrite !view_not_running; [done|by apply stuck_not_running|apply (ol_delete_stopped (OpsLaws := Hlaws))].
Qed.

Let instances := sid_Instances data.
Let inp := mkInput (s_Scale service) (ResolveUpdateParams (Some service))
             (view_of <$> (reaped <$> instances)) now blocked.

Lemma floor_wf : NoDup (i_ID <$> instances) → 0 ≤ s_Scale service → wf_input inp.
Proof.
  intros Hids Hscale. destruct (resolve_bounds (Some service)) as (? & ? & ?). split; simpl; try lia.
  - rewrite <- !list_fmap_compose. erewrite list_fmap_ext; [exact Hids|].
    intros _ i _. apply reaped_id.
  - intros v (i & -> & _)%list_elem_of_fmap. apply newInstanceView_wf.
Qed.

(** Instances a pass takes away, even if only to recreate them. *)
Definition disrupted (effs : list effect) : list string := deleted effs ++ recreated effs.

(** A serving instance the plan does not retire is left alone. *)
Lemma serving_undisturbed hashes effs i :
  NoDup (i_ID <$> instances) → (∀ j, j ∈ instances → serving (view_of j) = true → running j = true) →
  0 ≤ s_Scale service →
  ensureStatelessInstances ops service now data blocked hashes = Some effs →
  i ∈ instances → serving (view_of i) = true →
  i_ID i ∉ i_ID <$> plan_Retire (planUpdate inp) → i_ID i ∉ disrupted effs.
Proof.
  intros Hids Hrun Hscale Heffs Hi Hs Hret. pose proof (floor_wf Hids Hscale) as Hwf.
  destruct (serving_reaped i) as [_ Hre]. destruct (Hre Hs) as [Hri Hns].
  assert (Hin : view_of i ∈ in_Instances inp).
  { simpl. rewrite <- Hri at 1. by do 2 apply list_elem_of_fmap_2. }
  assert (Huniq : ∀ v, v ∈ in_Instances inp → v_ID v = i_ID i → v = view_of i).
  { intros v Hv Hid. eapply same_id_same_view; [apply Hwf|done|done|done]. }
  destruct (stateless_reads _ _ _ _ _ _ _ Heffs) as (Hd & _ & _ & _ & Hr).
  unfold disrupted. rewrite elem_of_app, Hd, !elem_of_app. intros [[H|[H|H]]|H].
  - unfold stuck_ids in H. apply list_elem_of_fmap in H as (j & Hij & [Hj1 Hj2]%elem_of_filterb).
    assert (i = j) as -> by (by eapply (NoDup_key_inj i_ID)). congruence.
  - done.
  - apply list_elem_of_fmap in H as (j & Hij & Hj).
    destruct (plan_repair_broken inp j Hj) as (v & Hv & Hvi & Hb).
    rewrite (Huniq v Hv) in Hb by (unfold v_ID; congruence). by apply serving_not_broken in Hs.
  - destruct (Hr _ H) as (v & e & Hv & Hid & Hup & Hrec).
    assert (v = view_of i) as ->.
    { apply Huniq; [|done]. unfold kept_views in Hv. by apply elem_of_filterb in Hv as [_ Hv]. }
    apply (serving_not_broken _ Hs). unfold view_of. simpl.
    eapply (ol_update (OpsLaws := Hlaws)); [|exact Hup|exact Hrec]. by apply Hrun.
Qed.
Lemma pass_floor hashes effs :
  NoDup (i_ID <$> instances) → (∀ j, j ∈ instances → serving (view_of j) = true → running j = true) →
  0 ≤ s_Scale service → p_Type (ResolveUpdateParams (Some service)) ≠ UpdateRecreate →
  ensureStatelessInstances ops service now data blocked hashes = Some effs →
  Z.min (countb (λ i, serving (view_of i)) instances)
        (s_Scale service - p_Dip (ResolveUpdateParams (Some service)))
  ≤ countb (λ i, serving (view_of i) && negb (bool_decide (i_ID i ∈ disrupted effs))) instances.
Proof.
  intros Hids Hrun Hscale Hty Heffs.
  pose proof (rolling_floor inp (floor_wf Hids Hscale) Hty) as Hf. unfold serving_after in Hf.
  simpl in Hf. rewrite !countb_fmap in Hf.
  rewrite (countb_ext (λ x, serving (view_of (reaped x))) (λ i, serving (view_of i))) in Hf
    by (intros; apply serving_reaped).
  etrans; [exact Hf|]. apply countb_mono. intros i Hi. rewrite !andb_true_iff, !negb_true_iff.
  destruct (serving_reaped i) as [-> Hre]. intros [Hs Hret]. split; [done|].
  destruct (Hre Hs) as [Hri _]. rewrite Hri in Hret. bools. apply bool_decide_eq_false_2.
  by eapply serving_undisturbed.
Qed.
End Floor.

(** The operator's floor, end to end.  One reconcile pass over a rolling
    service with an admitted [minServing = m], driven through any instance
    controller that keeps the interface's laws, leaves [m] serving instances
    untouched by deletion or recreation, or all of those serving if fewer. *)
Theorem reconcile_minServing ops running service now data blocked hashes effs m :
  OpsLaws ops running →
  validated service → MinServing service = Some m →
  p_Type (ResolveUpdateParams (Some service)) ≠ UpdateRecreate →
  NoDup (i_ID <$> sid_Instances data) →
  (∀ i, i ∈ sid_Instances data → serving (view_of ops service now i) = true → running i = true) →
  ensureStatelessInstances ops service now data blocked hashes = Some effs →
  Z.min (countb (λ i, serving (view_of ops service now i)) (sid_Instances data)) m
  ≤ countb (λ i, serving (view_of ops service now i) && negb (bool_decide (i_ID i ∈ disrupted effs)))
      (sid_Instances data).
Proof.
  intros Hlaws Hv Hm Hty Hids Hrun Heffs. destruct (validated_range service m Hv Hm) as [Hr _].
  pose proof (pass_floor ops running service now data blocked hashes effs Hids Hrun ltac:(lia) Hty Heffs) as Hf.
  rewrite (resolve_minServing service m Hv Hm Hty) in Hf.
  by replace (s_Scale service - (s_Scale service - m)) with m in Hf by lia.
Qed.

(** The controller over a runner that reports everything Running. *)
Definition sample_ops (svc : Service) : InstanceOps :=
  controllerOps (sample_env InstanceStatusRunning)
    {| te_publisher := true; te_nodeID := true; te_drainOverride := 0;
       te_service := λ _ _, Some svc; te_update := λ i, Some (Some i); te_store_ok := λ _, true;
       te_runner := λ _, Ok tt; te_stop := λ _, Ok tt; te_remove := λ _, Ok tt; te_now := 7 |}
    (λ _, Ok ∅) (λ n, Err "no capacity") (λ _, Ok tt) (λ i, [Some i]) svc.

Definition named (id : string) (created : Time) : Instance :=
  {| i_ID := id; i_Namespace := "default"; i_Name := id; i_ServiceName := "svc"; i_ServiceID := "svc";
     i_Status := InstanceStatusRunning; i_StatusMessage := "up"; i_IP := ""; i_ContainerID := "c"; i_PID := 0;
     i_CreatedAt := created; i_UpdatedAt := created; i_LastTransitionAt := None;
     i_Ready := true; i_ReadyChangedAt := Some created; i_ContainerEverCreatedAt := Some created;
     i_NextCreateAttemptAt := None; i_FailedAt := None; i_LastLogs := "";
     i_Process := None; i_Resources := None; i_Environment := ∅;
     i_Metadata := Some (mkInstanceMetadata "img" 1 None "" 0) |}.

(** Three outdated instances of a service at scale 3 with [minServing: 2]. *)
Definition floor_service : Service := sample_service 3 (Some (mkUpdateStrategy UpdateRolling (Some 2))).
Definition floor_data : ServiceInstanceData :=
  mkInstanceData [named "svc-a" 1; named "svc-b" 2; named "svc-c" 3] [].
Definition floor_now : Time := 100 * Second.

Lemma reconcile_minServing_witness :
  ∃ effs, ensureStatelessInstances (sample_ops floor_service) floor_service floor_now floor_data false
            ["x"; "y"; "z"] = Some effs ∧
    deleted effs = ["svc-a"] ∧
    2 ≤ countb (λ i, serving (view_of (sample_ops floor_service) floor_service floor_now i)
                     && negb (bool_decide (i_ID i ∈ disrupted effs))) (sid_Instances floor_data).
Proof.
  eexists. split; [vm_compute; reflexivity|]. split; [vm_compute; reflexivity|].
  refine (reconcile_minServing (sample_ops floor_service) (running_in (sample_env InstanceStatusRunning))
    floor_service floor_now floor_data false ["x"; "y"; "z"] _ 2 _ _ eq_refl _ _ _ _).
  - apply controllerOps_laws. discriminate.
  - by split.
  - discriminate.
  - by apply (bool_decide_eq_true_1 (NoDup _)).
  - reflexivity.
  - vm_compute. reflexivity.
Defined.

(** ** Stable slots, scale-down and retention of failed instances *)

(** ** Slots *)

Definition slot_name (service : Service) (i : Z) : string := generateInstanceName service i.

#[global] Instance generateInstanceName_inj service : Inj (=) (=) (generateInstanceName service).
Proof. intros i j H. unfold generateInstanceName in H. do 2 apply (inj _) in H. by apply (inj pretty). Qed.

(** The instance that keeps a slot: the first compatible one of that name. *)
Definition holder (ops : InstanceOps) (instances : list Instance) (name : string) : option Instance :=
  List.find (λ i, bool_decide (i_Name i = name) && io_Compatible ops i) instances.

Lemma findSlot_spec ops name instances :
  (findSlot ops name instances).2 = holder ops instances name ∧
  created (findSlot ops name instances).1 = [] ∧
  ∀ id, id ∈ deleted (findSlot ops name instances).1 →
    ∃ i, i ∈ instances ∧ i_ID i = id ∧ i_Name i = name ∧ io_Compatible ops i = false.
Proof.
  induction instances as [|i l IH]; simpl; [split_and!; [done|done|set_solver]|].
  destruct IH as (Hh & Hc & Hd). unfold holder in *. simpl.
  destruct (bool_decide (i_Name i = name)) eqn:En; simpl.
  2:{ rewrite Hh. split_and!; [done|done|]. intros id Hid. destruct (Hd id Hid) as (j & ? & ?). exists j. set_solver. }
  destruct (io_Compatible ops i) eqn:Eo; simpl; [split_and!; [done|done|set_solver]|].
  destruct (findSlot ops name l) as [effs r]. simpl in *. split_and!; [done|done|].
  intros id [->|Hid]%elem_of_cons.
  - exists i. bools. set_solver.
  - destruct (Hd id Hid) as (j & ? & ?). exists j. set_solver.
Qed.

Lemma ensureSlot_spec ops service now instances i :
  created (ensureSlot ops service now instances i) =
    (match holder ops instances (generateInstanceName service i) with
     | Some _ => [] | None => [generateInstanceName service i] end) ∧
  ∀ id, id ∈ deleted (ensureSlot ops service now instances i) →
    ∃ j, j ∈ instances ∧ i_ID j = id ∧ i_Name j = generateInstanceName service i ∧ io_Compatible ops j = false.
Proof.
  destruct (findSlot_spec ops (generateInstanceName service i) instances) as (Hh & Hc & Hd).
  unfold ensureSlot. destruct (findSlot ops (generateInstanceName service i) instances) as [effs r]. simpl in *.
  rewrite <- Hh. unfold created, deleted in *. rewrite !omap_app, Hc. destruct r as [inst|].
  - destruct (reconcileExisting_reads ops service now inst) as (Hrd & Hrc & _).
    unfold deleted, created in *. rewrite Hrd, Hrc, !app_nil_r. done.
  - assert (Hcn : omap deleted_id (createNewInstance ops service (generateInstanceName service i) i) = [] ∧
      omap created_name (createNewInstance ops service (generateInstanceName service i) i) = [generateInstanceName service i]).
    { unfold createNewInstance. repeat case_match; done. }
    destruct Hcn as [-> ->]. rewrite !app_nil_r. done.
Qed.

(** Slots.  A pass over a service with stable identity creates exactly the
    slots [0 .. Scale-1] that no compatible instance holds, each once and under
    its own name, and deletes only incompatible instances of those slots. *)
Theorem ensureStateful_slots ops service now data :
  let effs := ensureStatefulInstances ops service now data in
  created effs =
    generateInstanceName service <$>
      List.filter (λ i, bool_decide (holder ops (sid_Instances data) (generateInstanceName service i) = None))
        (seqZ 0 (s_Scale service)) ∧
  NoDup (created effs) ∧
  ∀ id, id ∈ deleted effs → ∃ j i, j ∈ sid_Instances data ∧ i_ID j = id ∧ 0 ≤ i < s_Scale service ∧
    i_Name j = generateInstanceName service i ∧ io_Compatible ops j = false.
Proof.
  simpl. unfold ensureStatefulInstances.
  assert (Hcr : created (List.concat (ensureSlot ops service now (sid_Instances data) <$> seqZ 0 (s_Scale service))) =
    generateInstanceName service <$>
      List.filter (λ i, bool_decide (holder ops (sid_Instances data) (generateInstanceName service i) = None))
        (seqZ 0 (s_Scale service))).
  { generalize (seqZ 0 (s_Scale service)). intros l. unfold created. rewrite omap_concat.
    induction l as [|i l IH]; [done|]. rewrite fmap_cons. cbn [List.concat List.filter]. rewrite IH.
    destruct (ensureSlot_spec ops service now (sid_Instances data) i) as [Hc _]. unfold created in Hc. rewrite Hc.
    destruct (holder ops (sid_Instances data) (generateInstanceName service i)); done. }
  split_and!; [done| |].
  - rewrite Hcr. apply NoDup_fmap_2; [apply _|]. eapply sublist_NoDup; [apply (NoDup_seqZ 0 (s_Scale service))|].
    auto with rune.
  - unfold deleted. rewrite omap_concat. intros id (i & Hi & Hid)%elem_of_concat_fmap.
    destruct (ensureSlot_spec ops service now (sid_Instances data) i) as [_ Hd].
    destruct (Hd id Hid) as (j & ? & ? & ? & ?). exists j, i. apply elem_of_seqZ in Hi. split_and!; try done; lia.
Qed.

(** ** Scale-down *)

(** Instances in the order they were created. *)
Definition in_creation_order (l : list Instance) : Prop :=
  Forall (λ i, 0 < i_CreatedAt i) l ∧ StronglySorted (λ a b, i_CreatedAt a < i_CreatedAt b) l.

Lemma insert_left_last x r :
  Forall (λ y, newerFirst x y = true) r → insert_left newerFirst x r = r ++ [x].
Proof. induction 1 as [|y r Hy _ IH]; simpl; [done|]. by rewrite Hy, IH. Qed.

Lemma newerFirst_sort l : in_creation_order l → SliceStable newerFirst l = rev l.
Proof.
  intros [Hpos Hsort]. unfold SliceStable. f_equal.
  enough (∀ r, (∀ y x, y ∈ r → x ∈ l → 0 < i_CreatedAt y ∧ i_CreatedAt y < i_CreatedAt x) →
    fold_left (λ r x, insert_left newerFirst x r) l r = r ++ l) as H by (by rewrite H; [|set_solver]).
  induction l as [|x l IH]; intros r Hr; simpl; [by rewrite app_nil_r|].
  apply Forall_cons in Hpos as [Hx Hpos]. apply StronglySorted_inv in Hsort as [Hsort Hlt].
  rewrite insert_left_last.
  - rewrite IH; [by rewrite <- app_assoc|done|done|]. rewrite Forall_forall in Hlt.
    intros y z. rewrite elem_of_app, list_elem_of_singleton. intros [Hy| ->] Hz; [|by split; [|apply Hlt]].
    apply Hr; [done|by right].
  - apply Forall_forall. intros y Hy. destruct (Hr y x) as [Hy0 Hlt']; [done|by left|].
    unfold newerFirst, IsZero, After. replace (i_CreatedAt x =? 0) with false by lia. simpl. lia.
Qed.

(** Scale-down of a service with stable identity removes its lowest
    slots.  With the slots created in order, scaling from [n] to [k] deletes
    the first [n - k] instances, which are slots the next step creates again,
    instead of the slots above the new scale. *)
Theorem scaleDown_removes_oldest service data :
  in_creation_order (sid_Instances data) →
  0 ≤ s_Scale service < Z.of_nat (length (sid_Instances data)) →
  deleted (scaleDownService service data) =
  rev (take (length (sid_Instances data) - Z.to_nat (s_Scale service)) (i_ID <$> sid_Instances data)).
Proof.
  intros Hord Hlt. unfold scaleDownService. replace (_ <=? s_Scale service) with false by lia.
  unfold deleted. rewrite omap_concat, (concat_singletons i_ID) by done.
  rewrite newerFirst_sort by done. rewrite skipn_rev, <- fmap_take.
  generalize (take (length (sid_Instances data) - Z.to_nat (s_Scale service)) (sid_Instances data)).
  intros l. induction l as [|x l IH]; [done|]. simpl. rewrite fmap_app, IH. done.
Qed.

(** Slots 0, 1, 2 of a service scaled down to 2: slot 0 goes, and the pass that
    follows creates it again while slot 2 stays. *)
Definition stateful_service : Service :=
  {| s_ID := "svc"; s_Name := "svc"; s_Namespace := "default"; s_Image := "img"; s_Env := ∅;
     s_Scale := 2; s_Ports := []; s_Resources := mkResources "" ""; s_HasHealth := false;
     s_HasReadiness := false; s_NetworkPolicy := None;
     s_Volumes := [mkVolumeMount false None (Some ∅)]; s_Dependencies := [];
     s_Status := ServiceStatusRunning; s_StatusReason := ""; s_StatusMessage := "";
     s_Runtime := RuntimeTypeContainer; s_Process := None; s_UpdateStrategy := None;
     s_DrainSeconds := None; s_Update := None; s_Metadata := Some (mkServiceMetadata 1 1 1 None []) |}.

Lemma scaleDown_removes_oldest_witness :
  serviceHasStableIdentity stateful_service = true ∧
  deleted (scaleDownService stateful_service
    (mkInstanceData [named "svc-0" 1; named "svc-1" 2; named "svc-2" 3] [])) = ["svc-0"] ∧
  created (ensureStatefulInstances (sample_ops stateful_service) stateful_service 10
    (mkInstanceData [named "svc-1" 2; named "svc-2" 3] [])) = ["svc-0"].
Proof.
  split; [reflexivity|]. split; [|vm_compute; reflexivity].
  refine (scaleDown_removes_oldest stateful_service
    (mkInstanceData [named "svc-0" 1; named "svc-1" 2; named "svc-2" 3] []) _ _).
  - split; repeat constructor.
  - simpl. lia.
Defined.

(** ** Retention of failed instances *)

#[global] Instance keepFirst_weak : StrictWeak keepFirst.
Proof.
  split; unfold keepFirst, After; intros a b.
  - destruct (hasLogs a), (hasLogs b); simpl; try done; lia.
  - intros c. destruct (hasLogs a), (hasLogs b), (hasLogs c); simpl; try done; lia.
Qed.

Definition keptFrom (now : Time) (pos : Z) (l : list Instance) : list Instance :=
  List.filter (λ t, negb (tooOld now t)) (take (Z.to_nat (failedInstancePerServiceCap - pos)) l).

(** The walk splits the ranking into what it keeps and what it evicts. *)
Lemma evictFrom_split now pos l : 0 ≤ pos →
  l ≡ₚ keptFrom now pos l ++ evictFrom now pos l ∧
  ∀ R e k, StronglySorted R l → e ∈ evictFrom now pos l → k ∈ keptFrom now pos l → tooOld now e = true ∨ R k e.
Proof.
  unfold keptFrom. revert pos. induction l as [|t l IH]; intros pos Hpos.
  { split; [by rewrite take_nil|set_solver]. }
  simpl.
  destruct (IH (pos + 1) ltac:(lia)) as [Hp Hr]. unfold failedInstancePerServiceCap in *.
  destruct (3 <=? pos) eqn:E; bools.
  - replace (Z.to_nat (3 - pos)) with 0%nat by lia. rewrite orb_true_r. simpl.
    replace (Z.to_nat (3 - (pos + 1))) with 0%nat in Hp by lia. simpl in Hp.
    split; [by constructor|]. intros R e k _ _ Hk. set_solver.
  - rewrite orb_false_r. replace (Z.to_nat (3 - pos)) with (S (Z.to_nat (3 - (pos + 1)))) by lia. simpl.
    destruct (tooOld now t) eqn:Et; simpl.
    + split; [rewrite <- Permutation_middle; by constructor|].
      intros R e k Hs [->|He]%elem_of_cons Hk; [by left|].
      apply StronglySorted_inv in Hs as [Hs _]. by eapply Hr.
    + split; [by constructor|]. intros R e k Hs He [->|Hk]%elem_of_cons.
      * apply StronglySorted_inv in Hs as [_ Hall]. right. rewrite Forall_forall in Hall. apply Hall.
        rewrite Hp, elem_of_app. by right.
      * apply StronglySorted_inv in Hs as [Hs _]. by eapply Hr.
Qed.

(** Retention of tombstones.  Per service the sweep keeps at most three,
    none older than an hour, and evicts one that is young enough only when
    everything kept ranks at least as high: logs before no logs, then the more
    recent failure. *)
Theorem gc_retention now key instances :
  ∃ kept,
    tombstonesOf key instances ≡ₚ kept ++ gcService now key instances ∧
    Z.of_nat (length kept) ≤ failedInstancePerServiceCap ∧
    (∀ k, k ∈ kept → Sub now (failedAt k) ≤ failedInstanceTTL) ∧
    (∀ e k, e ∈ gcService now key instances → k ∈ kept →
       failedInstanceTTL < Sub now (failedAt e) ∨ keepFirst e k = false) ∧
    (∀ e, e ∈ gcService now key instances → EDelete e ∈ gcFailedInstances now instances).
Proof.
  exists (keptFrom now 0 (SliceStable keepFirst (tombstonesOf key instances))).
  destruct (evictFrom_split now 0 (SliceStable keepFirst (tombstonesOf key instances))) as [Hp Hr]; [lia|].
  split_and!.
  - unfold gcService. rewrite <- Hp. symmetry. auto with rune.
  - unfold keptFrom. etrans; [apply inj_le, sublist_length, sublist_filterb|].
    rewrite length_take. unfold failedInstancePerServiceCap. lia.
  - unfold keptFrom. intros k [Hk _]%elem_of_filterb. unfold tooOld in Hk. bools. done.
  - intros e k He Hk. destruct (Hr (not_after keepFirst) e k) as [Hold|Hn]; [apply SliceStable_sorted; apply _|done|done| |].
    + left. unfold tooOld in Hold. bools. done.
    + by right.
  - intros e He. unfold gcFailedInstances. apply list_elem_of_fmap_2, elem_of_concat_fmap. exists key.
    split; [|done]. apply elem_of_remove_dups.
    assert (Ht : e ∈ tombstonesOf key instances).
    { rewrite <- (SliceStable_perm keepFirst), Hp, elem_of_app. by right. }
    apply elem_of_filterb in Ht as [Ht Hin]. bools. subst key. apply list_elem_of_fmap_2, elem_of_filterb. done.
Qed.
