(* ===== verification/Deletion.v ===== *)
(** * Foreground deletion (pkg/orchestrator/reconciler/reconciler_deletion.go and
      the way out of it in pkg/orchestrator/service/service_controller.go)

    The teardown state machine of a tombstoned service.  The state is the part
    of the store one namespace holds; a pass is one run of [reconcileDeletion]
    and the environment decides which store calls fail. *)

From S2P Require Import Prelude Types UpdateStrategy Compat UpdatePlan Status.

(** [types.Volume]: the binding and ownership fields. *)
Record Volume := mkVolume {
  vol_Name : string;
  vol_OwnerService : string;
  vol_BoundNode : string;
  vol_BoundClaim : string;
  vol_Handle : string;
  vol_Status : string;
}.
Definition VolumeStatusAvailable : string := "Available".

Inductive DeletionOperationStatus :=
| DelInitializing | DelDeletingInstances | DelRunningFinalizers | DelCompleted | DelFailed.
#[global] Instance DeletionOperationStatus_eq_dec : EqDecision DeletionOperationStatus.
Proof. solve_decision. Defined.

(** [types.DeletionOperation], the shim the CLI polls. *)
Record DeletionOperation := mkDeletionOp {
  op_ID : string;
  op_ServiceName : string;
  op_Status : DeletionOperationStatus;
  op_TotalInstances : Z;
  op_DeletedInstances : Z;
  op_EndTime : option Time;
}.

(** One namespace of the store, and the keys enqueued on the reconcile queue. *)
Record dstate := mkDstate {
  d_services : gmap string Service;
  d_instances : list Instance;
  d_volumes : list Volume;
  d_ops : list DeletionOperation;
  d_enqueued : list string;
}.

(** Which store calls of a pass succeed.  [de_mark] is what [StopInstance] and
    [DeleteInstance] leave of an instance record. *)
Record del_env := mkDelEnv {
  de_listInstances : bool;
  de_relistInstances : bool;
  de_listVolumes : bool;
  de_listForVolumes : bool;
  de_listOps : bool;
  de_updateOp : bool;
  de_deleteInstance : string → bool;
  de_updateVolume : string → bool;
  de_deleteVolume : string → bool;
  de_updateService : bool;
  de_deleteService : bool;
  de_mark : Instance → Instance;
  de_now : Time;
}.

Section Deletion.
Context (namespace : string) (env : del_env).

(** ** The deletion-operation shim *)

Definition findDeletionOp (st : dstate) (service : Service) : option DeletionOperation :=
  if de_listOps env then
    List.find (λ op, bool_decide (op_ServiceName op = s_Name service) &&
                     negb (bool_decide (op_Status op = DelCompleted))) (d_ops st)
  else None.

Definition update_op (st : dstate) (op : DeletionOperation) : dstate :=
  if de_updateOp env then
    mkDstate (d_services st) (d_instances st) (d_volumes st)
      ((λ o, if bool_decide (op_ID o = op_ID op) then op else o) <$> d_ops st) (d_enqueued st)
  else st.

Definition setDeletionOpStatus (st : dstate) (service : Service) (status : DeletionOperationStatus) : dstate :=
  match findDeletionOp st service with
  | None => st
  | Some op =>
      if bool_decide (op_Status op = status) then st
      else update_op st (mkDeletionOp (op_ID op) (op_ServiceName op) status (op_TotalInstances op)
                           (op_DeletedInstances op) (op_EndTime op))
  end.

Definition markDeletionOpCompleted (st : dstate) (service : Service) : dstate :=
  match findDeletionOp st service with
  | None => st
  | Some op =>
      update_op st (mkDeletionOp (op_ID op) (op_ServiceName op) DelCompleted (op_TotalInstances op)
                      (op_TotalInstances op) (Some (de_now env)))
  end.

(** ** Instances *)

Definition of_service (service : Service) (i : Instance) : bool :=
  bool_decide (i_ServiceName i = s_Name service).

(** The teardown loop: each instance is stopped and deleted through the
    controller (best effort), then its record is hard-removed. *)
Fixpoint removeLoop (mine : list Instance) (store : list Instance) : list Instance * Z :=
  match mine with
  | [] => (store, 0)
  | i :: rest =>
      let marked := (λ x, if bool_decide (i_ID x = i_ID i) then de_mark env x else x) <$> store in
      if de_deleteInstance env (i_ID i) then
        let '(store', n) := removeLoop rest (List.filter (λ x, negb (bool_decide (i_ID x = i_ID i))) marked) in
        (store', n + 1)
      else removeLoop rest marked
  end.

Definition set_instances (st : dstate) (l : list Instance) : dstate :=
  mkDstate (d_services st) l (d_volumes st) (d_ops st) (d_enqueued st).

Definition cleanupServiceInstances (st : dstate) (service : Service) : dstate * result string bool :=
  if negb (de_listInstances env) then (st, Err "failed to list instances")
  else
    let mine := List.filter (of_service service) (d_instances st) in
    match mine with
    | [] => (st, Ok true)
    | _ =>
        let '(store', removed) := removeLoop mine (d_instances st) in
        let st' := set_instances st store' in
        if removed =? Z.of_nat (length mine) then (st', Ok true)
        else if negb (de_relistInstances env) then (st', Ok false)
        else if existsb (of_service service) store' then (st', Ok false)
        else (st', Ok true)
    end.

(** ** Volumes *)

Definition owner_of (service : Service) : string := namespace +:+ "/" +:+ s_Name service.

(** Step 1 of the volume loop. *)
Definition releaseVolume (claims : gset string) (owner : string) (v : Volume) : Volume :=
  if (bool_decide (vol_BoundClaim v ∈ claims) || bool_decide (vol_OwnerService v = owner)) &&
     (negb (bool_decide (vol_BoundNode v = "")) || negb (bool_decide (vol_BoundClaim v = "")))
  then mkVolume (vol_Name v) (vol_OwnerService v) "" "" (vol_Handle v)
         (if bool_decide (vol_Handle v = "") then vol_Status v else VolumeStatusAvailable)
  else v.

(** The loop: what is left of each row, and whether its deletion failed. *)
Fixpoint volumeLoop (claims : gset string) (owner : string) (vols : list Volume) : list Volume * list string :=
  match vols with
  | [] => ([], [])
  | v :: rest =>
      let '(rest', errs) := volumeLoop claims owner rest in
      let released := releaseVolume claims owner v in
      let stored := if de_updateVolume env (vol_Name v) then released else v in
      if negb (bool_decide (vol_OwnerService v = owner)) then (stored :: rest', errs)
      else if de_deleteVolume env (vol_Name v) then (rest', errs)
      else (stored :: rest', vol_Name v :: errs)
  end.

Definition cleanupServiceVolumes (st : dstate) (service : Service) : dstate * result string unit :=
  if negb (de_listVolumes env) then (st, Err "failed to list volumes")
  else
    let claims : gset string :=
      if de_listForVolumes env then
        list_to_set ((λ i, namespace +:+ "/" +:+ i_Name i) <$> List.filter (of_service service) (d_instances st))
      else ∅ in
    let '(vols', errs) := volumeLoop claims (owner_of service) (d_volumes st) in
    let st' := mkDstate (d_services st) (d_instances st) vols' (d_ops st) (d_enqueued st) in
    (st', if bool_decide (errs = []) then Ok tt else Err "owned volume cleanup incomplete").

(** ** The pass *)

Definition enqueue (st : dstate) (name : string) : dstate :=
  mkDstate (d_services st) (d_instances st) (d_volumes st) (d_ops st) (d_enqueued st ++ [name]).

Definition finalizers (service : Service) : list FinalizerType :=
  match s_Metadata service with Some md => md_Finalizers md | None => [] end.

Definition set_finalizers (service : Service) (md : ServiceMetadata) (fins : list FinalizerType) : Service :=
  set_status service (s_Status service) (s_StatusReason service) (s_StatusMessage service) (s_Update service)
    (Some (mkServiceMetadata (md_Generation md) (md_TemplateGeneration md) (md_ObservedGeneration md)
             (md_DeletionTimestamp md) fins)).

(** The callback that pops the head finalizer. *)
Definition pop_mutate (head : FinalizerType) (fresh : Service) : option Service :=
  match s_Metadata fresh with
  | None => None
  | Some md =>
      match md_Finalizers md with
      | [] => None
      | f :: rest => if bool_decide (f = head) then Some (set_finalizers fresh md rest) else None
      end
  end.

Definition popFinalizer (st : dstate) (name : string) (head : FinalizerType) : dstate * result string unit :=
  if negb (de_updateService env) then (st, Err "failed to advance finalizers")
  else match UpdateFunc updateFuncMaxRetries [d_services st !! name] (pop_mutate head) with
       | Err _ => (st, Err "failed to advance finalizers")
       | Ok None => (st, Ok tt)
       | Ok (Some s) =>
           (mkDstate (<[name := s]> (d_services st)) (d_instances st) (d_volumes st) (d_ops st) (d_enqueued st), Ok tt)
       end.

Definition reconcileDeletion (st : dstate) (service : Service) : dstate * result string unit :=
  let name := s_Name service in
  match finalizers service with
  | [] =>
      let st := markDeletionOpCompleted st service in
      if de_deleteService env then
        (mkDstate (delete name (d_services st)) (d_instances st) (d_volumes st) (d_ops st) (d_enqueued st), Ok tt)
      else (st, Err "failed to remove tombstoned service record")
  | head :: _ =>
      (* [None]: go on and pop the head *)
      let '(st, r) :=
        if bool_decide (head = FinalizerTypeInstanceCleanup) then
          let st := setDeletionOpStatus st service DelDeletingInstances in
          match cleanupServiceInstances st service with
          | (st, Err e) => (st, Some (Err e))
          | (st, Ok false) => (enqueue st name, Some (Ok tt))
          | (st, Ok true) => (st, None)
          end
        else if bool_decide (head = FinalizerTypeVolumeCleanup) then
          let st := setDeletionOpStatus st service DelRunningFinalizers in
          match cleanupServiceVolumes st service with
          | (st, Err e) => (st, Some (Err e))
          | (st, Ok _) => (st, None)
          end
        else (st, None) in
      match r with
      | Some r => (st, r)
      | None =>
          match popFinalizer st name head with
          | (st, Err e) => (st, Err e)
          | (st, Ok _) => (enqueue st name, Ok tt)
          end
      end
  end.

(** ** Abandoning a teardown (service_controller.go) *)

(** Why a record's finalizers may not be abandoned, if so. *)
Definition abandon_check (svc : Service) : option string :=
  match s_Metadata svc with
  | None => Some "service is not being deleted"
  | Some md =>
      match md_DeletionTimestamp md, md_Finalizers md with
      | None, _ => Some "service is not being deleted"
      | Some _, f :: _ =>
          if bool_decide (f = FinalizerTypeInstanceCleanup) then Some "service is still removing its instances" else None
      | Some _, [] => None
      end
  end.

(** The callback that clears the finalizers; [None] is [ErrSkipUpdate]. *)
Definition abandon_mutate (fresh : Service) : option Service :=
  match abandon_check fresh, s_Metadata fresh with
  | None, Some md => match md_Finalizers md with [] => None | _ => Some (set_finalizers fresh md []) end
  | _, _ => None
  end.

(** [abandonFinalizers] on the record [service] its caller read: the finalizers
    it abandoned. *)
Definition abandonFinalizers (st : dstate) (service : Service) (dryRun : bool) : dstate * result string (list FinalizerType) :=
  let name := s_Name service in
  match abandon_check service with
  | Some e => (st, Err e)
  | None =>
      if dryRun then (st, Ok (finalizers service))
      else if negb (de_updateService env) then (st, Err "failed to clear finalizers")
      else match UpdateFunc updateFuncMaxRetries [d_services st !! name] abandon_mutate, d_services st !! name with
           | Ok (Some s), Some fresh =>
               let st := mkDstate (<[name := s]> (d_services st)) (d_instances st) (d_volumes st) (d_ops st) (d_enqueued st) in
               match abandon_check fresh with
               | Some e => (st, Err e)
               | None =>
                   match finalizers fresh with
                   | [] => (st, Ok [])
                   | abandoned => (enqueue st name, Ok abandoned)
                   end
               end
           | _, _ => (st, Err "failed to clear finalizers")
           end
  end.
End Deletion.
