(* ===== verification/DeletionProps.v ===== *)
(** * Properties of foreground deletion

    Whatever fails and whoever else writes, a service record goes only when its
    instances and volumes are gone or an operator abandoned its finalizers; and a
    teardown left alone ends. *)

From S2P Require Import Prelude Types UpdateStrategy Compat UpdatePlan StrategyProps Status Deletion.

(** The controller's marks keep an instance's identity. *)
Definition marks_ok (env : del_env) : Prop :=
  ∀ i, i_ID (de_mark env i) = i_ID i ∧ i_ServiceName (de_mark env i) = i_ServiceName i.

Section Props.
Context (ns name : string).

Definition instance_free (st : dstate) : Prop := ∀ i, i ∈ d_instances st → i_ServiceName i ≠ name.
Definition volume_free (st : dstate) : Prop :=
  ∀ v, v ∈ d_volumes st → vol_OwnerService v ≠ ns +:+ "/" +:+ name.

(** ** The cleanup steps *)

Section Pass.
Context (env : del_env) (Hmark : marks_ok env).

Lemma removeLoop_spec mine store :
  let '(store', n) := removeLoop env mine store in
  n ≤ Z.of_nat (length mine) ∧
  (∀ x, x ∈ store' → ∃ y, y ∈ store ∧ i_ID y = i_ID x ∧ i_ServiceName y = i_ServiceName x) ∧
  (n = Z.of_nat (length mine) → ∀ x, x ∈ store' → i_ID x ∉ i_ID <$> mine).
Proof.
  revert store. induction mine as [|i mine IH]; intros store; simpl.
  { split_and!; [lia|eauto|set_solver]. }
  set (marked := _ <$> store).
  assert (Hm : ∀ x, x ∈ marked → ∃ y, y ∈ store ∧ i_ID y = i_ID x ∧ i_ServiceName y = i_ServiceName x).
  { intros x (y & -> & Hy)%list_elem_of_fmap. exists y. destruct (Hmark y). case_bool_decide; done. }
  destruct (de_deleteInstance env (i_ID i)).
  - specialize (IH (List.filter (λ x, negb (bool_decide (i_ID x = i_ID i))) marked)).
    destruct (removeLoop env mine _) as [store' n]. destruct IH as (Hle & Hsub & Hall).
    assert (Hx : ∀ x, x ∈ store' → (∃ y, y ∈ store ∧ i_ID y = i_ID x ∧ i_ServiceName y = i_ServiceName x) ∧ i_ID x ≠ i_ID i).
    { intros x Hx. destruct (Hsub x Hx) as (y & Hy & Hyi & Hys). apply elem_of_filterb in Hy as [Hne Hy].
      bools. destruct (Hm y Hy) as (z & ? & ? & ?). split; [|congruence]. exists z. split_and!; congruence. }
    split_and!; [lia|by apply Hx|]. intros Hn x Hxs. destruct (Hx x Hxs) as [_ Hne].
    rewrite elem_of_cons. intros [?|Hin]; [done|]. revert Hin. apply Hall; [lia|done].
  - specialize (IH marked). destruct (removeLoop env mine marked) as [store' n].
    destruct IH as (Hle & Hsub & _). split_and!; [lia| |lia].
    intros x Hx. destruct (Hsub x Hx) as (y & Hy & ? & ?). destruct (Hm y Hy) as (z & ? & ? & ?).
    exists z. split_and!; congruence.
Qed.

Lemma cleanupInstances_spec st s :
  s_Name s = name →
  let '(st', r) := cleanupServiceInstances env st s in
  d_services st' = d_services st ∧ d_volumes st' = d_volumes st ∧
  (instance_free st → instance_free st') ∧ (r = Ok true → instance_free st').
Proof.
  intros Hname. unfold cleanupServiceInstances. destruct (negb (de_listInstances env)); [done|].
  destruct (List.filter (of_service s) (d_instances st)) as [|i0 l0] eqn:Emine.
  { split_and!; try done. intros _ i Hi Hs.
    assert (i ∈ List.filter (of_service s) (d_instances st)) as Hin.
    { apply elem_of_filterb. split; [|done]. unfold of_service. apply bool_decide_eq_true_2. congruence. }
    rewrite Emine in Hin. set_solver. }
  rewrite <- Emine. pose proof (removeLoop_spec (List.filter (of_service s) (d_instances st)) (d_instances st)) as Hl.
  destruct (removeLoop env _ (d_instances st)) as [store' n]. destruct Hl as (Hle & Hsub & Hall).
  assert (Hfree : instance_free st → instance_free (set_instances st store')).
  { intros Hf i Hi. destruct (Hsub i Hi) as (y & Hy & _ & <-). by apply Hf. }
  destruct (n =? _) eqn:En; bools.
  - split_and!; try done. intros _ i Hi Hs. apply (Hall En i Hi).
    destruct (Hsub i Hi) as (y & Hy & <- & Hys). apply list_elem_of_fmap_2, elem_of_filterb. split; [|done].
    unfold of_service. apply bool_decide_eq_true_2. congruence.
  - destruct (negb (de_relistInstances env)); [done|].
    destruct (existsb (of_service s) store') eqn:Ee; [done|]. split_and!; try done.
    intros _ i Hi Hs. apply not_true_iff_false in Ee. apply Ee. apply existsb_exists. exists i.
    split; [by apply list_elem_of_In|]. unfold of_service. apply bool_decide_eq_true_2. congruence.
Qed.

Lemma releaseVolume_owner claims owner v : vol_OwnerService (releaseVolume claims owner v) = vol_OwnerService v.
Proof. unfold releaseVolume. by case_match. Qed.

Lemma volumeLoop_spec claims owner vols :
  let '(vols', errs) := volumeLoop env claims owner vols in
  (∀ v, v ∈ vols' → ∃ w, w ∈ vols ∧ vol_OwnerService w = vol_OwnerService v) ∧
  (errs = [] → ∀ v, v ∈ vols' → vol_OwnerService v ≠ owner).
Proof.
  induction vols as [|v vols IH]; simpl; [set_solver|].
  destruct (volumeLoop env claims owner vols) as [vols' errs]. destruct IH as [Hsub Hown].
  set (stored := if de_updateVolume env (vol_Name v) then releaseVolume claims owner v else v).
  assert (Hst : vol_OwnerService stored = vol_OwnerService v).
  { unfold stored. case_match; [apply releaseVolume_owner|done]. }
  case_bool_decide as Ho; simpl; [destruct (de_deleteVolume env (vol_Name v))|].
  - split; [|done]. intros w Hw. destruct (Hsub w Hw) as (x & ? & ?). exists x. set_solver.
  - split; [|done]. intros w [->|Hw]%elem_of_cons; [exists v; set_solver|].
    destruct (Hsub w Hw) as (x & ? & ?). exists x. set_solver.
  - split.
    + intros w [->|Hw]%elem_of_cons; [exists v; set_solver|].
      destruct (Hsub w Hw) as (x & ? & ?). exists x. set_solver.
    + intros He w [->|Hw]%elem_of_cons; [congruence|by apply Hown].
Qed.

Lemma cleanupVolumes_spec st s :
  s_Name s = name →
  let '(st', r) := cleanupServiceVolumes ns env st s in
  d_services st' = d_services st ∧ d_instances st' = d_instances st ∧
  (volume_free st → volume_free st') ∧ (r = Ok tt → volume_free st').
Proof.
  intros Hname. unfold cleanupServiceVolumes, volume_free, owner_of. rewrite Hname.
  destruct (negb (de_listVolumes env)); [done|].
  match goal with |- context [volumeLoop env ?c ?o ?v] => pose proof (volumeLoop_spec c o v) as Hl;
    destruct (volumeLoop env c o v) as [vols' errs] end.
  destruct Hl as [Hsub Hown]. simpl. split_and!; [done|done| |].
  - intros Hf v Hv. destruct (Hsub v Hv) as (w & Hw & <-). by apply Hf.
  - case_bool_decide as He; [|done]. intros _. by apply Hown.
Qed.

Lemma update_op_frame st op :
  d_services (update_op env st op) = d_services st ∧ d_instances (update_op env st op) = d_instances st ∧
  d_volumes (update_op env st op) = d_volumes st.
Proof. unfold update_op. by case_match. Qed.

Lemma setDeletionOp_frame st s status :
  d_services (setDeletionOpStatus env st s status) = d_services st ∧
  d_instances (setDeletionOpStatus env st s status) = d_instances st ∧
  d_volumes (setDeletionOpStatus env st s status) = d_volumes st.
Proof. unfold setDeletionOpStatus. repeat case_match; try done. apply update_op_frame. Qed.

Lemma markCompleted_frame st s :
  d_services (markDeletionOpCompleted env st s) = d_services st ∧
  d_instances (markDeletionOpCompleted env st s) = d_instances st ∧
  d_volumes (markDeletionOpCompleted env st s) = d_volumes st.
Proof. unfold markDeletionOpCompleted. case_match; [apply update_op_frame|done]. Qed.

(** Popping a head finalizer. *)
Lemma popFinalizer_spec st s head rest :
  d_services st !! name = Some s → finalizers s = head :: rest →
  let '(st', r) := popFinalizer env st name head in
  d_instances st' = d_instances st ∧ d_volumes st' = d_volumes st ∧
  (d_services st' = d_services st ∨
   ∃ s', d_services st' = <[name := s']> (d_services st) ∧ s_Name s' = s_Name s ∧ finalizers s' = rest) ∧
  (de_updateService env = true → r = Ok tt ∧
     ∃ s', d_services st' = <[name := s']> (d_services st) ∧ s_Name s' = s_Name s ∧ finalizers s' = rest).
Proof.
  intros Hs Hf. unfold popFinalizer. destruct (de_updateService env) eqn:E; simpl; [|split_and!; try done; by left].
  rewrite Hs. simpl. unfold pop_mutate. unfold finalizers in Hf.
  destruct (s_Metadata s) as [md|] eqn:Emd; [|done]. rewrite Hf. rewrite bool_decide_true by done. simpl.
  split_and!; [done|done| |]; try (intros _; split; [done|]); try right; eexists; done.
Qed.
End Pass.

(** ** Safety *)

(** Whether an operator may abandon finalizers meanwhile. *)
Context (abandons : bool).

(** What holds of the store while the service is being torn down: instance
    cleanup comes first or is done, and so is volume cleanup unless it was
    abandoned. *)
Definition deletion_inv (st : dstate) : Prop :=
  match d_services st !! name with
  | Some s => s_Name s = name ∧ FinalizerTypeInstanceCleanup ∉ tail (finalizers s) ∧
      (FinalizerTypeInstanceCleanup ∉ finalizers s → instance_free st) ∧
      (abandons = false → FinalizerTypeVolumeCleanup ∉ finalizers s → volume_free st)
  | None => instance_free st ∧ (abandons = false → volume_free st)
  end.

(** What a teardown goes by of the record. *)
Definition plan_of (st : dstate) : option (string * list FinalizerType) :=
  (λ s, (s_Name s, finalizers s)) <$> d_services st !! name.

(** The steps of a teardown: a reconcile pass over the stored record, with any
    failures; an operator abandoning the finalizers, on whatever record the
    operator's call read; or anything else that leaves the record's name and
    finalizers alone and creates no instance and no owned volume of a service
    that has none. *)
Inductive del_step : dstate → dstate → Prop :=
| del_pass st env s :
    d_services st !! name = Some s → marks_ok env →
    del_step st (reconcileDeletion ns env st s).1
| del_abandon st env read dryRun :
    abandons = true → s_Name read = name → del_step st (abandonFinalizers env st read dryRun).1
| del_other st st' :
    plan_of st' = plan_of st →
    (instance_free st → instance_free st') → (volume_free st → volume_free st') →
    del_step st st'.

(** Dropping the head finalizer once its work is done keeps the invariant. *)
Lemma pop_inv env st s head rest :
  d_services st !! name = Some s → s_Name s = name → finalizers s = head :: rest → FinalizerTypeInstanceCleanup ∉ rest →
  (FinalizerTypeInstanceCleanup ∉ finalizers s ∨ head = FinalizerTypeInstanceCleanup → instance_free st) →
  (abandons = false → FinalizerTypeVolumeCleanup ∉ finalizers s ∨ head = FinalizerTypeVolumeCleanup → volume_free st) →
  deletion_inv (popFinalizer env st name head).1.
Proof.
  intros Hs Hn Hf Hrest Hi Hv. pose proof (popFinalizer_spec env st s head rest Hs Hf) as Hp.
  destruct (popFinalizer env st name head) as [st' r]. destruct Hp as (Hin & Hvol & Hsv & _). simpl.
  unfold deletion_inv, instance_free, volume_free in *. rewrite Hin, Hvol.
  destruct Hsv as [-> | (s' & -> & Hn' & Hf')].
  - rewrite Hs, Hf in *. split_and!; auto.
  - rewrite lookup_insert_eq, Hf'. rewrite Hf in Hi, Hv. split_and!; [congruence| | |].
    + destruct rest; set_solver.
    + intros Hnot. apply Hi. destruct (decide (head = FinalizerTypeInstanceCleanup)); [by right|left; set_solver].
    + intros Ha Hnot. apply Hv; [done|]. destruct (decide (head = FinalizerTypeVolumeCleanup)); [by right|left; set_solver].
Qed.

Lemma pass_inv env st s :
  marks_ok env → d_services st !! name = Some s → deletion_inv st → deletion_inv (reconcileDeletion ns env st s).1.
Proof.
  intros Hmark Hs Hinv. unfold deletion_inv in Hinv. rewrite Hs in Hinv. destruct Hinv as (Hn & Ho & Hi & Hv).
  unfold reconcileDeletion. rewrite Hn. destruct (finalizers s) as [|head rest] eqn:Hf.
  { destruct (markCompleted_frame env st s) as (Hsv & Hin & Hvol).
    assert (Hfree : instance_free st ∧ (abandons = false → volume_free st)) by (split; [apply Hi; set_solver|intros ?; apply Hv; set_solver]).
    destruct (de_deleteService env); simpl; unfold deletion_inv, instance_free, volume_free in *;
      simpl; rewrite ?Hin, ?Hvol, ?Hsv.
    - by rewrite lookup_delete_eq.
    - rewrite Hs. rewrite Hf. split_and!; [done|set_solver| |]; by destruct Hfree. }
  assert (Hrest : FinalizerTypeInstanceCleanup ∉ rest) by exact Ho.
  case_bool_decide as Hic; [|case_bool_decide as Hvc].
  - destruct (setDeletionOp_frame env st s DelDeletingInstances) as (Hsv & Hin & Hvol).
    pose proof (cleanupInstances_spec env Hmark (setDeletionOpStatus env st s DelDeletingInstances) s Hn) as Hc.
    destruct (cleanupServiceInstances env _ s) as [st1 r]. destruct Hc as (Hsv1 & Hvol1 & Hfree & Hdone).
    assert (Hs1 : d_services st1 !! name = Some s) by congruence.
    assert (Hkeep : (FinalizerTypeInstanceCleanup ∉ finalizers s → instance_free st1) ∧
                    (abandons = false → FinalizerTypeVolumeCleanup ∉ finalizers s → volume_free st1)).
    { rewrite Hf. split; [intros Hnot; apply Hfree; unfold instance_free; rewrite Hin; by apply Hi|].
      intros Ha Hnot. unfold volume_free. rewrite Hvol1, Hvol. by apply Hv. }
    destruct r as [[]|e]; simpl.
    + pose proof (pop_inv env st1 s head rest Hs1 Hn Hf Hrest) as Hp.
      destruct (popFinalizer env st1 name head) as [st2 [[]|e]]; simpl in *; unfold deletion_inv in *; simpl in *;
        (apply Hp; [intros [?|?]|intros Ha [?|?]]); rewrite ?Hf in *; first [by apply Hdone|by apply Hkeep|exfalso; subst head; discriminate].
    + unfold deletion_inv. simpl. rewrite Hs1. destruct Hkeep. split_and!; [done|by rewrite Hf|done|done].
    + unfold deletion_inv. rewrite Hs1. destruct Hkeep. split_and!; [done|by rewrite Hf|done|done].
  - destruct (setDeletionOp_frame env st s DelRunningFinalizers) as (Hsv & Hin & Hvol).
    pose proof (cleanupVolumes_spec env Hmark (setDeletionOpStatus env st s DelRunningFinalizers) s Hn) as Hc.
    destruct (cleanupServiceVolumes ns env _ s) as [st1 r]. destruct Hc as (Hsv1 & Hin1 & Hfree & Hdone).
    assert (Hs1 : d_services st1 !! name = Some s) by congruence.
    assert (Hkeep : (FinalizerTypeInstanceCleanup ∉ finalizers s → instance_free st1) ∧
                    (abandons = false → FinalizerTypeVolumeCleanup ∉ finalizers s → volume_free st1)).
    { rewrite Hf. split; [intros Hnot; unfold instance_free; rewrite Hin1, Hin; by apply Hi|].
      intros Ha Hnot. apply Hfree. unfold volume_free. rewrite Hvol. by apply Hv. }
    destruct r as [[]|e]; simpl.
    + pose proof (pop_inv env st1 s head rest Hs1 Hn Hf Hrest) as Hp.
      destruct (popFinalizer env st1 name head) as [st2 [[]|e]]; simpl in *; unfold deletion_inv in *; simpl in *;
        (apply Hp; [intros [?|?]|intros Ha [?|?]]); rewrite ?Hf in *; first [by apply Hdone|by apply Hkeep|exfalso; subst head; discriminate].
    + unfold deletion_inv. rewrite Hs1. destruct Hkeep. split_and!; [done|by rewrite Hf|done|done].
  - pose proof (pop_inv env st s head rest Hs Hn Hf Hrest) as Hp. rewrite Hf in Hp.
    destruct (popFinalizer env st name head) as [st2 [[]|e]]; simpl in *; unfold deletion_inv in *; simpl in *;
      (apply Hp; [intros [?|?]|intros Ha [?|?]]); try done; by (apply Hi || apply Hv).
Qed.

(** Only finalizers other than instance cleanup are ever abandoned. *)
Lemma abandon_inv env st read dryRun :
  abandons = true → s_Name read = name → deletion_inv st → deletion_inv (abandonFinalizers env st read dryRun).1.
Proof.
  intros Ha Hn Hinv. unfold abandonFinalizers. rewrite Hn. destruct (abandon_check read); [done|]. destruct dryRun; [done|].
  destruct (negb _); [done|]. destruct (d_services st !! name) as [s|] eqn:Hs; [|done]. cbn [UpdateFunc].
  assert (Hskip : ∀ o e, deletion_inv (mkDstate (<[name := s]> (d_services st)) (d_instances st) (d_volumes st) o e)).
  { intros o e. unfold deletion_inv in *. cbn [d_services]. rewrite lookup_insert_eq. by rewrite Hs in Hinv. }
  unfold abandon_mutate. destruct (abandon_check s) eqn:Hc; [by apply Hskip|].
  destruct (s_Metadata s) as [md|] eqn:Hmd; [|by unfold abandon_check in Hc; rewrite Hmd in Hc].
  assert (Hfs : finalizers s = md_Finalizers md) by (unfold finalizers; by rewrite Hmd). rewrite Hfs.
  destruct (md_Finalizers md) as [|f fins] eqn:Hf; [by apply Hskip|]. unfold deletion_inv in *. rewrite Hs in Hinv.
  cbn [enqueue fst d_services]. rewrite lookup_insert_eq. destruct Hinv as (Hsn & Ho & Hi & Hv).
  split_and!; [done|cbn; set_solver| |congruence]. intros _. apply Hi. rewrite Hfs in Ho |- *.
  unfold abandon_check in Hc. rewrite Hmd, Hf in Hc. destruct (md_DeletionTimestamp md); [|done]. case_bool_decide; [done|]. set_solver.
Qed.

Lemma steps_inv st st' : rtc del_step st st' → deletion_inv st → deletion_inv st'.
Proof.
  induction 1 as [|st st1 st2 Hstep _ IH]; [done|]. intros Hinv. apply IH.
  destruct Hstep as [st env s Hs Hmark|st env read dry Ha Hn|st st1 Hsame Hi Hv]; [by apply pass_inv|by apply abandon_inv|].
  unfold deletion_inv, plan_of in *.
  destruct (d_services st !! name) as [s|], (d_services st1 !! name) as [s1|]; cbn in Hsame; simplify_eq; [|naive_solver].
  rewrite H, H0. naive_solver.
Qed.

(** ** Completion *)

(** No store call fails. *)
Record reliable (env : del_env) : Prop := {
  rel_list : de_listInstances env = true;
  rel_vols : de_listVolumes env = true;
  rel_upd : de_updateService env = true;
  rel_del : de_deleteService env = true;
  rel_inst : ∀ id, de_deleteInstance env id = true;
  rel_vol : ∀ v, de_deleteVolume env v = true;
}.

Lemma removeLoop_reliable env mine store :
  reliable env → (removeLoop env mine store).2 = Z.of_nat (length mine).
Proof.
  intros Hr. revert store. induction mine as [|i mine IH]; intros store; simpl; [done|].
  rewrite (rel_inst _ Hr). specialize (IH (List.filter (λ x, negb (bool_decide (i_ID x = i_ID i)))
    ((λ x, if bool_decide (i_ID x = i_ID i) then de_mark env x else x) <$> store))).
  destruct (removeLoop env mine _) as [store' n]. simpl in *. lia.
Qed.

Lemma cleanupInstances_reliable env st s :
  reliable env → (cleanupServiceInstances env st s).2 = Ok true.
Proof.
  intros Hr. unfold cleanupServiceInstances. rewrite (rel_list _ Hr). simpl.
  pose proof (removeLoop_reliable env (List.filter (of_service s) (d_instances st)) (d_instances st) Hr) as Hn.
  destruct (List.filter (of_service s) (d_instances st)) as [|i l]; [done|].
  destruct (removeLoop env (i :: l) (d_instances st)) as [store' n]. cbn [snd] in Hn. subst n. by rewrite Z.eqb_refl.
Qed.

Lemma volumeLoop_reliable env claims owner vols : reliable env → (volumeLoop env claims owner vols).2 = [].
Proof.
  intros Hr. induction vols as [|v vols IH]; simpl; [done|].
  destruct (volumeLoop env claims owner vols) as [vols' errs]. simpl in IH. subst errs.
  rewrite (rel_vol _ Hr). by case_match.
Qed.

Lemma cleanupVolumes_reliable env st s : reliable env → (cleanupServiceVolumes ns env st s).2 = Ok tt.
Proof.
  intros Hr. unfold cleanupServiceVolumes. rewrite (rel_vols _ Hr). simpl.
  match goal with |- context [volumeLoop env ?c ?o ?v] => pose proof (volumeLoop_reliable env c o v Hr) as Hv;
    destruct (volumeLoop env c o v) as [vols' errs] end. simpl in Hv. subst errs. done.
Qed.

(** A reliable pass pops the head finalizer, or removes the record. *)
Lemma reliable_pass env st s :
  reliable env → marks_ok env → d_services st !! name = Some s → s_Name s = name →
  match finalizers s with
  | [] => d_services (reconcileDeletion ns env st s).1 !! name = None
  | _ :: rest => ∃ s', d_services (reconcileDeletion ns env st s).1 !! name = Some s' ∧ s_Name s' = name ∧ finalizers s' = rest
  end.
Proof.
  intros Hr Hmark Hs Hn. unfold reconcileDeletion. rewrite Hn.
  destruct (finalizers s) as [|head rest] eqn:Hf.
  { rewrite (rel_del _ Hr). simpl. apply lookup_delete_eq. }
  assert (Hpop : ∀ st1, d_services st1 = d_services st →
    ∃ s', d_services (match popFinalizer env st1 name head with
                      | (st', Ok _) => (enqueue st' name, Ok tt) | (st', Err e) => (st', Err e) end).1 !! name = Some s'
      ∧ s_Name s' = name ∧ finalizers s' = rest).
  { intros st1 Hsv. rewrite <- Hsv in Hs. pose proof (popFinalizer_spec env st1 s head rest Hs Hf) as Hp.
    destruct (popFinalizer env st1 name head) as [st2 r]. destruct Hp as (_ & _ & _ & Hok).
    destruct (Hok (rel_upd _ Hr)) as (-> & s' & Hsv' & Hn' & Hf'). exists s'. simpl.
    rewrite Hsv', lookup_insert_eq. split_and!; [done|congruence|done]. }
  case_bool_decide; [|case_bool_decide].
  - destruct (setDeletionOp_frame env st s DelDeletingInstances) as (Hsv & _).
    pose proof (cleanupInstances_spec env Hmark (setDeletionOpStatus env st s DelDeletingInstances) s Hn) as Hc.
    pose proof (cleanupInstances_reliable env (setDeletionOpStatus env st s DelDeletingInstances) s Hr) as Hrel.
    destruct (cleanupServiceInstances env _ s) as [st1 r]. simpl in Hrel. subst r. apply Hpop. destruct Hc; congruence.
  - destruct (setDeletionOp_frame env st s DelRunningFinalizers) as (Hsv & _).
    pose proof (cleanupVolumes_spec env Hmark (setDeletionOpStatus env st s DelRunningFinalizers) s Hn) as Hc.
    pose proof (cleanupVolumes_reliable env (setDeletionOpStatus env st s DelRunningFinalizers) s Hr) as Hrel.
    destruct (cleanupServiceVolumes ns env _ s) as [st1 r]. simpl in Hrel. subst r. apply Hpop. destruct Hc; congruence.
  - by apply Hpop.
Qed.

(** Reconcile passes over the stored record, until it is gone. *)
Fixpoint passes (env : del_env) (n : nat) (st : dstate) : dstate :=
  match n with
  | O => st
  | S n => match d_services st !! name with
           | None => st
           | Some s => passes env n (reconcileDeletion ns env st s).1
           end
  end.

Lemma passes_absent env n st : d_services st !! name = None → passes env n st = st.
Proof. intros H. destruct n; simpl; [done|]. by rewrite H. Qed.

Lemma passes_complete env st s fins :
  reliable env → marks_ok env → d_services st !! name = Some s → s_Name s = name → finalizers s = fins →
  d_services (passes env (S (length fins)) st) !! name = None.
Proof.
  intros Hr Hmark. revert st s. induction fins as [|f fins IH]; intros st s Hs Hn Hf.
  - pose proof (reliable_pass env st s Hr Hmark Hs Hn) as Hp. rewrite Hf in Hp. simpl. by rewrite Hs.
  - pose proof (reliable_pass env st s Hr Hmark Hs Hn) as Hp. rewrite Hf in Hp.
    destruct Hp as (s' & Hs' & Hn' & Hf'). cbn [length]. cbn [passes]. rewrite Hs. by eapply IH.
Qed.

Lemma passes_steps env n st : marks_ok env → rtc del_step st (passes env n st).
Proof.
  intros Hm. revert st. induction n as [|n IH]; intros st; simpl; [done|].
  destruct (d_services st !! name) as [s|] eqn:E; [|done].
  eapply rtc_l; [by apply (del_pass st env s)|apply IH].
Qed.
End Props.


(** C7: deletion completes.  Take a tombstone whose finalizers are instance
    cleanup, first, and others among which is volume cleanup.  When every store
    call of the passes succeeds ([reliable]), stopping an instance keeps its
    identity ([marks_ok]), and nothing but those passes writes to the namespace
    meanwhile ([passes]), one pass per finalizer and one more remove the record,
    its instances and its owned volumes. *)
Theorem deletion_completes ns name env st s rest :
  reliable env → marks_ok env →
  d_services st !! name = Some s → s_Name s = name →
  finalizers s = FinalizerTypeInstanceCleanup :: rest → FinalizerTypeInstanceCleanup ∉ rest → FinalizerTypeVolumeCleanup ∈ rest →
  let st' := passes ns name env (S (length (finalizers s))) st in
  d_services st' !! name = None ∧ instance_free name st' ∧ volume_free ns name st'.
Proof.
  intros Hr Hm Hs Hn Hf Hrest Hv. cbv zeta.
  pose proof (passes_complete ns name env st s (finalizers s) Hr Hm Hs Hn eq_refl) as Hgone. split; [done|].
  assert (deletion_inv ns name false st) as Hinv by (unfold deletion_inv; rewrite Hs, Hf; split_and!; set_solver).
  apply (steps_inv ns name false st _ (passes_steps ns name false env (S (length (finalizers s))) st Hm)) in Hinv.
  unfold deletion_inv in Hinv. rewrite Hgone in Hinv. split; [apply Hinv|by apply Hinv].
Qed.

(** ** A concrete teardown *)

Definition tombstoned : Service :=
  set_status (sample_service 1 None) ServiceStatusDeleted "" "" None
    (Some (mkServiceMetadata 1 1 1 (Some 5) [FinalizerTypeInstanceCleanup; FinalizerTypeVolumeCleanup])).


Definition sample_dstate : dstate :=
  mkDstate {["svc" := tombstoned]} [outdated_instance]
    [mkVolume "data-svc-0" "default/svc" "node" "default/svc-a" "h" "Bound"; mkVolume "shared" "" "" "" "" ""]
    [mkDeletionOp "op" "svc" DelInitializing 1 0 None] [].

Definition sample_del_env : del_env :=
  {| de_listInstances := true; de_relistInstances := true; de_listVolumes := true; de_listForVolumes := true;
     de_listOps := true; de_updateOp := true; de_deleteInstance := λ _, true; de_updateVolume := λ _, true;
     de_deleteVolume := λ _, true; de_updateService := true; de_deleteService := true;
     de_mark := λ i, i; de_now := 9 |}.

Lemma deletion_completes_witness :
  let st' := passes "default" "svc" sample_del_env 3 sample_dstate in
  d_services st' !! "svc" = None ∧ d_instances st' = [] ∧ (vol_Name <$> d_volumes st') = ["shared"] ∧
  instance_free "svc" st'.
Proof.
  cbv zeta. split; [vm_compute; reflexivity|]. split; [vm_compute; reflexivity|]. split; [vm_compute; reflexivity|].
  refine (proj1 (proj2 (deletion_completes "default" "svc" sample_del_env sample_dstate tombstoned [FinalizerTypeVolumeCleanup] _ _ _ _ _ _ _))).
  - by split.
  - by split.
  - reflexivity.
  - reflexivity.
  - reflexivity.
  - set_solver.
  - set_solver.
Defined.



