(* ===== verification/WorkQueue.v ===== *)
(** * The reconcile work queue (pkg/orchestrator/queue/{queue,ratelimiter}.go)

    The queue's methods run under its mutex, so each is one atomic function on
    the queue state.  [Work] is a step relation: workers, timers armed by
    [AddAfter] and outside callers interleave between those atomic steps. *)

From S2P Require Import Prelude.

(** ** Rate limiter *)

Record rateLimiter := mkRateLimiter {
  rl_failures : gmap string Z;
  rl_base : Duration;
  rl_max : Duration;
}.

Definition NumRequeues (rl : rateLimiter) (key : string) : Z := default 0 (rl_failures rl !! key).

(** [When]: the delay and the limiter afterwards.  The source multiplies in
    [float64]; [base * 2^exp] is exact there (doubling only moves the exponent,
    and an infinite product is above [max]). *)
Definition When (rl : rateLimiter) (key : string) : Duration * rateLimiter :=
  let exp := NumRequeues rl key in
  let backoff := rl_base rl * 2 ^ exp in
  (if rl_max rl <? backoff then rl_max rl else backoff,
   mkRateLimiter (<[key := exp + 1]> (rl_failures rl)) (rl_base rl) (rl_max rl)).

Definition rl_Forget (rl : rateLimiter) (key : string) : rateLimiter :=
  mkRateLimiter (delete key (rl_failures rl)) (rl_base rl) (rl_max rl).

Definition Millisecond : Duration := 1000000.
Definition NewItemExponentialRateLimiter (base max : Duration) : rateLimiter := mkRateLimiter ∅ base max.
Definition DefaultRateLimiter : rateLimiter :=
  NewItemExponentialRateLimiter (5 * Millisecond) (1000 * Second).

(** ** The queue *)

Record Stats := mkStats {
  st_Adds : Z;
  st_Coalesced : Z;
  st_Requeues : Z;
  st_Processed : Z;
  st_Depth : Z;
  st_MaxDepth : Z;
}.

Record Queue := mkQueue {
  q_order : list string;
  q_dirty : gset string;
  q_processing : gset string;
  q_rl : rateLimiter;
  q_shuttingDown : bool;
  q_stats : Stats;
}.

Definition New (rl : option rateLimiter) : Queue :=
  mkQueue [] ∅ ∅ (default DefaultRateLimiter rl) false (mkStats 0 0 0 0 0 0).

(** Appending to [order] raises the high-water mark. *)
Definition push (q : Queue) (key : string) (dirty processing : gset string) (st : Stats) : Queue :=
  let order := q_order q ++ [key] in
  let d := Z.of_nat (length order) in
  mkQueue order dirty processing (q_rl q) (q_shuttingDown q)
    (mkStats (st_Adds st) (st_Coalesced st) (st_Requeues st) (st_Processed st) (st_Depth st)
       (if st_MaxDepth st <? d then d else st_MaxDepth st)).

Definition bump_coalesced (s : Stats) : Stats :=
  mkStats (st_Adds s) (wrapU64 (st_Coalesced s + 1)) (st_Requeues s) (st_Processed s) (st_Depth s) (st_MaxDepth s).
Definition bump_adds (s : Stats) : Stats :=
  mkStats (wrapU64 (st_Adds s + 1)) (st_Coalesced s) (st_Requeues s) (st_Processed s) (st_Depth s) (st_MaxDepth s).
Definition bump_requeues (s : Stats) : Stats :=
  mkStats (st_Adds s) (st_Coalesced s) (wrapU64 (st_Requeues s + 1)) (st_Processed s) (st_Depth s) (st_MaxDepth s).
Definition bump_processed (s : Stats) : Stats :=
  mkStats (st_Adds s) (st_Coalesced s) (st_Requeues s) (wrapU64 (st_Processed s + 1)) (st_Depth s) (st_MaxDepth s).

Definition set_stats (q : Queue) (s : Stats) : Queue :=
  mkQueue (q_order q) (q_dirty q) (q_processing q) (q_rl q) (q_shuttingDown q) s.
Definition set_rl (q : Queue) (rl : rateLimiter) : Queue :=
  mkQueue (q_order q) (q_dirty q) (q_processing q) rl (q_shuttingDown q) (q_stats q).

Definition Add (q : Queue) (key : string) : Queue :=
  if q_shuttingDown q then q
  else if bool_decide (key ∈ q_dirty q) then set_stats q (bump_coalesced (q_stats q))
  else
    let dirty := {[key]} ∪ q_dirty q in
    let st := bump_adds (q_stats q) in
    if bool_decide (key ∈ q_processing q)
    then mkQueue (q_order q) dirty (q_processing q) (q_rl q) (q_shuttingDown q) st
    else push q key dirty (q_processing q) st.

Inductive get_result := GotKey (key : string) | GotShutdown | GetBlocks.

(** [Get]: [GetBlocks] is the wait on the condition variable. *)
Definition Get (q : Queue) : get_result * Queue :=
  match q_order q with
  | [] => if q_shuttingDown q then (GotShutdown, q) else (GetBlocks, q)
  | key :: rest =>
      (GotKey key, mkQueue rest (q_dirty q ∖ {[key]}) ({[key]} ∪ q_processing q) (q_rl q)
                     (q_shuttingDown q) (q_stats q))
  end.

Definition Done (q : Queue) (key : string) : Queue :=
  let processing := q_processing q ∖ {[key]} in
  if bool_decide (key ∈ q_dirty q) then push q key (q_dirty q) processing (q_stats q)
  else mkQueue (q_order q) (q_dirty q) processing (q_rl q) (q_shuttingDown q) (q_stats q).

Definition Len (q : Queue) : Z := Z.of_nat (length (q_order q)).

Definition ShutDown (q : Queue) : Queue :=
  mkQueue (q_order q) (q_dirty q) (q_processing q) (q_rl q) true (q_stats q).

Definition Forget (q : Queue) (key : string) : Queue := set_rl q (rl_Forget (q_rl q) key).

(** [AddAfter]: the queue afterwards, and the timer it arms. *)
Definition AddAfter (q : Queue) (key : string) (d : Duration) : Queue * option string :=
  if d <=? 0 then (Add q key, None) else (q, Some key).

(** [AddRateLimited]: count, ask the limiter, add later. *)
Definition AddRateLimited (q : Queue) (key : string) : Queue * option string :=
  let q := set_stats q (bump_requeues (q_stats q)) in
  let '(d, rl) := When (q_rl q) key in
  AddAfter (set_rl q rl) key d.

(** ** Work *)

(** Where a worker is in its loop. *)
Inductive worker :=
| WGet                  (* about to call Get *)
| WRun (key : string)   (* the handler runs *)
| WDone (key : string)  (* handled and counted; Done is next *)
| WExit.

Record sys := mkSys {
  sys_q : Queue;
  sys_workers : list worker;
  sys_timers : list string;
}.

(** The key a worker holds. *)
Definition held (w : worker) : option string :=
  match w with WRun k | WDone k => Some k | _ => None end.

Definition init (n : nat) (rl : option rateLimiter) : sys := mkSys (New rl) (replicate n WGet) [].

(** After the handler: count the run, then requeue with backoff or forget. *)
Definition finish (q : Queue) (key : string) (failed : bool) : Queue * option string :=
  let q := set_stats q (bump_processed (q_stats q)) in
  if failed then AddRateLimited q key else (Forget q key, None).

(** One atomic step; the label is the key it delivers to a worker, if any. *)
Inductive lstep : sys → option string → sys → Prop :=
| step_add q ws ts k : lstep (mkSys q ws ts) None (mkSys (Add q k) ws ts)
| step_shutdown q ws ts : lstep (mkSys q ws ts) None (mkSys (ShutDown q) ws ts)
| step_timer q ws ts1 k ts2 :
    lstep (mkSys q ws (ts1 ++ k :: ts2)) None (mkSys (Add q k) ws (ts1 ++ ts2))
| step_get q ws ts i k q' :
    ws !! i = Some WGet → Get q = (GotKey k, q') →
    lstep (mkSys q ws ts) (Some k) (mkSys q' (<[i := WRun k]> ws) ts)
| step_exit q ws ts i q' :
    ws !! i = Some WGet → Get q = (GotShutdown, q') →
    lstep (mkSys q ws ts) None (mkSys q' (<[i := WExit]> ws) ts)
| step_finish q ws ts i k failed q' t :
    ws !! i = Some (WRun k) → finish q k failed = (q', t) →
    lstep (mkSys q ws ts) None (mkSys q' (<[i := WDone k]> ws) (ts ++ option_list t))
| step_done q ws ts i k :
    ws !! i = Some (WDone k) →
    lstep (mkSys q ws ts) None (mkSys (Done q k) (<[i := WGet]> ws) ts).

Definition step (s s' : sys) : Prop := ∃ l, lstep s l s'.

(** A run, with the keys it delivers in order. *)
Inductive run : sys → list string → sys → Prop :=
| run_nil s : run s [] s
| run_cons s l s1 ds s2 : lstep s l s1 → run s1 ds s2 → run s (option_list l ++ ds) s2.
