(* ===== verification/WorkQueueProps.v ===== *)
(** * Properties of the work queue *)

From S2P Require Import Prelude WorkQueue.

(** ** The queue's own invariant *)

Record q_inv (q : Queue) : Prop := {
  qi_nodup : NoDup (q_order q);
  qi_dirty : ∀ k, k ∈ q_order q → k ∈ q_dirty q;
  qi_free : ∀ k, k ∈ q_order q → k ∉ q_processing q;
  qi_cover : ∀ k, k ∈ q_dirty q → k ∈ q_order q ∨ k ∈ q_processing q;
}.

Create HintDb queue.
#[export] Hint Resolve qi_nodup qi_dirty qi_free qi_cover : queue.

Lemma q_inv_ext q q' :
  q_order q' = q_order q → q_dirty q' = q_dirty q → q_processing q' = q_processing q → q_inv q → q_inv q'.
Proof. intros Ho Hd Hp [? ? ? ?]. split; rewrite ?Ho, ?Hd, ?Hp; done. Qed.

Lemma New_inv rl : q_inv (New rl).
Proof. split; simpl; [constructor|set_solver..]. Qed.

Lemma push_inv q k dirty processing st :
  NoDup (q_order q) → k ∉ q_order q → k ∈ dirty → k ∉ processing →
  (∀ x, x ∈ q_order q → x ∈ dirty ∧ x ∉ processing) →
  (∀ x, x ∈ dirty → x = k ∨ x ∈ q_order q ∨ x ∈ processing) →
  q_inv (push q k dirty processing st).
Proof.
  intros Hn Hk Hd Hp Ho Hc. split; simpl.
  - apply NoDup_app. split; [done|]. split; [set_solver|by apply NoDup_singleton].
  - intros x. rewrite elem_of_app, list_elem_of_singleton. intros [?| ->]; [by apply Ho|done].
  - intros x. rewrite elem_of_app, list_elem_of_singleton. intros [?| ->]; [by apply Ho|done].
  - intros x Hx. rewrite elem_of_app, list_elem_of_singleton. destruct (Hc x Hx) as [->|[?|?]]; auto.
Qed.

Lemma Add_inv q k : q_inv q → q_inv (Add q k).
Proof.
  intros H. unfold Add. destruct (q_shuttingDown q); [done|].
  case_bool_decide as Hd; [by apply (q_inv_ext q)|]. case_bool_decide as Hp.
  - split; simpl.
    + eauto with queue.
    + intros x Hx. apply elem_of_union_r. eauto with queue.
    + eauto with queue.
    + intros x [->%elem_of_singleton|Hx]%elem_of_union; [by right|eauto with queue].
  - apply push_inv; try done.
    + eauto with queue.
    + intros Hin. apply Hd. eauto with queue.
    + set_solver.
    + intros x Hx. split; [apply elem_of_union_r|]; eauto with queue.
    + intros x [->%elem_of_singleton|Hx]%elem_of_union; [by left|right; eauto with queue].
Qed.

Lemma Get_inv q k q' : q_inv q → Get q = (GotKey k, q') →
  q_inv q' ∧ q_order q = k :: q_order q' ∧ q_processing q' = {[k]} ∪ q_processing q ∧
  q_dirty q' = q_dirty q ∖ {[k]} ∧ k ∉ q_processing q ∧ q_shuttingDown q' = q_shuttingDown q.
Proof.
  intros H. unfold Get. destruct (q_order q) as [|x rest] eqn:Eo; [by case_match|].
  intros [= <- <-]. simpl.
  assert (Hn := qi_nodup _ H). rewrite Eo in Hn. apply NoDup_cons in Hn as [Hnot Hn].
  assert (Hin : ∀ y, y ∈ rest → y ∈ q_order q) by (rewrite Eo; set_solver).
  assert (Hfree : x ∉ q_processing q) by (apply (qi_free _ H); rewrite Eo; set_solver).
  split_and!; try done. split; simpl.
  - done.
  - intros y Hy. apply elem_of_difference. split; [eauto with queue|set_solver].
  - intros y Hy. rewrite not_elem_of_union. split; [set_solver|eauto with queue].
  - intros y [Hy Hne]%elem_of_difference. destruct (qi_cover _ H y Hy) as [Ho|Hp]; [|set_solver].
    rewrite Eo in Ho. left. set_solver.
Qed.

Lemma Done_inv q k : q_inv q → k ∈ q_processing q → q_inv (Done q k).
Proof.
  intros H Hk. unfold Done. case_bool_decide as Hd.
  - apply push_inv; try done.
    + eauto with queue.
    + intros Hin%(qi_free _ H). done.
    + set_solver.
    + intros x Hx. split; [eauto with queue|]. apply (qi_free _ H) in Hx. set_solver.
    + intros x Hx. destruct (decide (x = k)); [by left|]. destruct (qi_cover _ H x Hx); set_solver.
  - split; simpl; try (eauto with queue).
    + intros x Hx. apply (qi_free _ H) in Hx. set_solver.
    + intros x Hx. destruct (qi_cover _ H x Hx); [by left|]. right. set_solver.
Qed.

(** What the operations leave of the queue's sets. *)
Lemma Add_frame q k :
  q_processing (Add q k) = q_processing q ∧ q_shuttingDown (Add q k) = q_shuttingDown q ∧
  (q_shuttingDown q = true → Add q k = q) ∧ q_dirty q ⊆ q_dirty (Add q k) ∧
  (q_shuttingDown q = false → k ∈ q_dirty (Add q k)) ∧
  ∃ app, q_order (Add q k) = q_order q ++ app.
Proof.
  unfold Add. destruct (q_shuttingDown q) eqn:E; [split_and!; try done; exists []; by rewrite app_nil_r|].
  case_bool_decide; [split_and!; try done; exists []; by rewrite app_nil_r|].
  case_bool_decide; simpl; (split_and!; try done; [set_solver|set_solver|]);
    [exists []; by rewrite app_nil_r|by exists [k]].
Qed.

Lemma finish_frame q k failed q' t : finish q k failed = (q', t) →
  (q_inv q → q_inv q') ∧
  q_processing q' = q_processing q ∧ q_shuttingDown q' = q_shuttingDown q ∧
  (q_shuttingDown q = true → q_order q' = q_order q) ∧ q_dirty q ⊆ q_dirty q' ∧
  ∃ app, q_order q' = q_order q ++ app.
Proof.
  assert (Hsame : ∀ x : Queue, q_order x = q_order q → q_dirty x = q_dirty q → q_processing x = q_processing q →
    q_shuttingDown x = q_shuttingDown q →
    (q_inv q → q_inv x) ∧ q_processing x = q_processing q ∧ q_shuttingDown x = q_shuttingDown q ∧
    (q_shuttingDown q = true → q_order x = q_order q) ∧ q_dirty q ⊆ q_dirty x ∧ ∃ app, q_order x = q_order q ++ app).
  { intros x Ho Hd Hp Hs. split_and!; try done; [by apply (q_inv_ext q)|by rewrite Hd|exists []; by rewrite Ho, app_nil_r]. }
  unfold finish, AddRateLimited, AddAfter. destruct failed; [|intros [= <- <-]; by apply Hsame].
  destruct (When _ k) as [d rl]. case_match; intros [= <- <-]; [|by apply Hsame].
  match goal with |- context [Add ?x k] => set (y := x) end.
  destruct (Add_frame y k) as (Hp & Hs & Hno & Hd & _ & Happ). split_and!; try done.
  - intros Hi. apply Add_inv. by apply (q_inv_ext q).
  - intros Hsd. by rewrite Hno.
Qed.

(** ** Workers *)

Definition held_keys (ws : list worker) : list string := omap held ws.

Lemma delete_insert_same {A} (l : list A) i x : delete i (<[i := x]> l) = delete i l.
Proof. revert i. induction l as [|y l IH]; intros [|i]; simpl; [done..|]. f_equal. apply IH. Qed.

Lemma held_keys_split ws i w w' :
  ws !! i = Some w →
  held_keys ws ≡ₚ option_list (held w) ++ held_keys (delete i ws) ∧
  held_keys (<[i := w']> ws) ≡ₚ option_list (held w') ++ held_keys (delete i ws).
Proof.
  intros Hi. unfold held_keys.
  assert (Hone : ∀ (x : worker) l, omap held (x :: l) = option_list (held x) ++ omap held l).
  { intros x l. simpl. by destruct (held x). }
  split.
  - rewrite (delete_Permutation ws i w Hi) at 1. by rewrite Hone.
  - assert (Hlt : (i < length ws)%nat) by (by eapply lookup_lt_Some).
    rewrite (delete_Permutation (<[i := w']> ws) i w') by (by apply list_lookup_insert_eq).
    rewrite Hone. by rewrite delete_insert_same.
Qed.

Record sys_inv (s : sys) : Prop := {
  si_q : q_inv (sys_q s);
  si_held : NoDup (held_keys (sys_workers s));
  si_processing : ∀ k, k ∈ q_processing (sys_q s) ↔ k ∈ held_keys (sys_workers s);
  si_exit : WExit ∈ sys_workers s → q_shuttingDown (sys_q s) = true;
  si_drained : Forall (λ w, w = WExit) (sys_workers s) → WExit ∈ sys_workers s → q_order (sys_q s) = [];
}.

Lemma init_inv n rl : sys_inv (init n rl).
Proof.
  assert (Hh : held_keys (replicate n WGet) = []) by (induction n; [done|]; simpl; done).
  split; simpl.
  - apply New_inv.
  - rewrite Hh. constructor.
  - intros k. rewrite Hh. set_solver.
  - by intros [? _]%elem_of_replicate.
  - by intros _ [? _]%elem_of_replicate.
Qed.

(** A worker that moves without changing the key it holds. *)
Lemma held_keys_same (ws : list worker) i w w' :
  ws !! i = Some w → held w = held w' → held_keys (<[i := w']> ws) ≡ₚ held_keys ws.
Proof. intros Hi He. destruct (held_keys_split ws i w w' Hi) as [-> ->]. by rewrite He. Qed.

Lemma exit_elem (ws : list worker) i w w' :
  ws !! i = Some w → w' ≠ WExit → WExit ∈ <[i := w']> ws → WExit ∈ ws.
Proof.
  intros Hi Hw' (j & Hj)%list_elem_of_lookup. destruct (decide (i = j)) as [->|Hne].
  - rewrite list_lookup_insert_eq in Hj by (by eapply lookup_lt_Some). congruence.
  - rewrite list_lookup_insert_ne in Hj by done. by eapply list_elem_of_lookup_2.
Qed.

Lemma not_all_exit (ws : list worker) i w : (i < length ws)%nat → w ≠ WExit → ¬ Forall (λ x, x = WExit) (<[i := w]> ws).
Proof.
  intros Hi Hw Hall. rewrite Forall_lookup in Hall. apply Hw. apply (Hall i). by apply list_lookup_insert_eq.
Qed.

(** Additions keep the system invariant. *)
Lemma add_sys_inv q ws ts ts' k : sys_inv (mkSys q ws ts) → sys_inv (mkSys (Add q k) ws ts').
Proof.
  intros [Hq Hh Hp He Hdr]. simpl in *. destruct (Add_frame q k) as (Hpr & Hsd & Hno & _). split; simpl.
  - by apply Add_inv.
  - done.
  - intros x. by rewrite Hpr.
  - intros Hx. rewrite Hsd. by apply He.
  - intros Hall Hx. rewrite Hno by (by apply He). by apply Hdr.
Qed.

Lemma step_inv s s' : step s s' → sys_inv s → sys_inv s'.
Proof.
  intros [l Hstep] Hinv. destruct Hstep as [q ws ts k|q ws ts|q ws ts1 k ts2|q ws ts i k q' Hi Hg|q ws ts i q' Hi Hg
    |q ws ts i k failed q' t Hi Hf|q ws ts i k Hi].
  - by eapply add_sys_inv.
  - destruct Hinv as [Hq Hh Hp He Hdr]. split; simpl in *; try done. by apply (q_inv_ext q).
  - by eapply add_sys_inv.
  - destruct Hinv as [Hq Hh Hp He Hdr]. simpl in *.
    destruct (Get_inv q k q' Hq Hg) as (Hq' & _ & Hpr & _ & Hfree & Hsd).
    destruct (held_keys_split ws i WGet (WRun k) Hi) as [H1 H2]. simpl in H1, H2. split; simpl.
    + done.
    + rewrite H2, <- H1. constructor; [by rewrite <- Hp|done].
    + intros x. rewrite H2, <- H1, Hpr, elem_of_cons, <- Hp. set_solver.
    + intros Hx. rewrite Hsd. apply He. eapply exit_elem; [exact Hi| |exact Hx]. done.
    + intros Hall. exfalso. eapply not_all_exit; [by eapply lookup_lt_Some| |exact Hall]. done.
  - destruct Hinv as [Hq Hh Hp He Hdr]. simpl in *. unfold Get in Hg.
    destruct (q_order q) as [|x rest] eqn:Eo; [|done]. destruct (q_shuttingDown q) eqn:Es; [|done].
    injection Hg as <-. pose proof (held_keys_same ws i WGet WExit Hi eq_refl) as Hsame. split; simpl; try done.
    + by rewrite Hsame.
    + intros x. by rewrite Hsame.
  - destruct Hinv as [Hq Hh Hp He Hdr]. simpl in *.
    destruct (finish_frame q k failed q' t Hf) as (Hqi & Hpr & Hsd & _).
    pose proof (held_keys_same ws i (WRun k) (WDone k) Hi eq_refl) as Hsame. split; simpl.
    + by apply Hqi.
    + by rewrite Hsame.
    + intros x. by rewrite Hsame, Hpr.
    + intros Hx. rewrite Hsd. apply He. eapply exit_elem; [exact Hi| |exact Hx]. done.
    + intros Hall. exfalso. eapply not_all_exit; [by eapply lookup_lt_Some| |exact Hall]. done.
  - destruct Hinv as [Hq Hh Hp He Hdr]. simpl in *.
    destruct (held_keys_split ws i (WDone k) WGet Hi) as [H1 H2]. simpl in H1, H2.
    assert (Hk : k ∈ q_processing q) by (rewrite Hp, H1; left).
    assert (Hpd : q_processing (Done q k) = q_processing q ∖ {[k]} ∧ q_shuttingDown (Done q k) = q_shuttingDown q)
      by (unfold Done; by case_bool_decide).
    destruct Hpd as [Hpd Hsd]. rewrite H1 in Hh. apply NoDup_cons in Hh as [Hnot Hh]. split; simpl.
    + by apply Done_inv.
    + by rewrite H2.
    + intros x. rewrite H2, Hpd, elem_of_difference, Hp, H1. set_solver.
    + intros Hx. rewrite Hsd. apply He. eapply exit_elem; [exact Hi| |exact Hx]. done.
    + intros Hall. exfalso. eapply not_all_exit; [by eapply lookup_lt_Some| |exact Hall]. done.
Qed.

Lemma reachable_inv n rl s : rtc step (init n rl) s → sys_inv s.
Proof.
  intros H. remember (init n rl) as s0 eqn:E. assert (sys_inv s0) as Hi by (subst; apply init_inv).
  clear E. induction H; [done|]. by eapply IHrtc, step_inv.
Qed.

(** ** Order of delivery *)

Lemma lstep_order s l s' : q_inv (sys_q s) → lstep s l s' →
  ∃ app, q_order (sys_q s) ++ app = option_list l ++ q_order (sys_q s').
Proof.
  intros Hq Hstep. destruct Hstep as [q ws ts k|q ws ts|q ws ts1 k ts2|q ws ts i k q' Hi Hg|q ws ts i q' Hi Hg
    |q ws ts i k failed q' t Hi Hf|q ws ts i k Hi]; simpl in *.
  - destruct (Add_frame q k) as (_ & _ & _ & _ & _ & app & ->). by exists app.
  - exists []. by rewrite app_nil_r.
  - destruct (Add_frame q k) as (_ & _ & _ & _ & _ & app & ->). by exists app.
  - destruct (Get_inv q k q' Hq Hg) as (_ & Ho & _). exists []. by rewrite app_nil_r.
  - unfold Get in Hg. exists []. rewrite app_nil_r. repeat case_match; by simplify_eq.
  - destruct (finish_frame q k failed q' t Hf) as (_ & _ & _ & _ & _ & app & ->). by exists app.
  - unfold Done. case_bool_decide; simpl; [by exists [k]|exists []; by rewrite app_nil_r].
Qed.

Lemma run_order s ds s' : sys_inv s → run s ds s' →
  sys_inv s' ∧ ∃ app, q_order (sys_q s) ++ app = ds ++ q_order (sys_q s').
Proof.
  intros Hinv Hrun. induction Hrun as [s|s l s1 ds s2 Hstep _ IH].
  - split; [done|]. exists []. by rewrite app_nil_r.
  - destruct IH as [Hinv2 [app2 Happ2]]; [by eapply step_inv; [eexists|]|]. split; [done|].
    destruct (lstep_order s l s1 (si_q _ Hinv) Hstep) as [app1 Happ1].
    exists (app1 ++ app2). rewrite app_assoc, Happ1, <- !app_assoc. by rewrite Happ2.
Qed.

(** ** Sample states: two workers, keys [a] and [b] added, [a] taken by worker 0 *)

Definition sample_pending : sys := mkSys (Add (Add (New None) "a") "b") [WGet; WGet] [].
Definition sample_busy : sys :=
  mkSys (snd (Get (Add (Add (New None) "a") "b"))) [WRun "a"; WGet] [].

Lemma sample_pending_reachable : rtc step (init 2 None) sample_pending.
Proof.
  eapply rtc_l; [eexists; apply (step_add (New None) [WGet; WGet] [] "a")|].
  eapply rtc_l; [eexists; apply (step_add (Add (New None) "a") [WGet; WGet] [] "b")|]. apply rtc_refl.
Qed.

Lemma sample_get : lstep sample_pending (Some "a") sample_busy.
Proof. by apply (step_get _ [WGet; WGet] [] 0 "a"). Qed.

Lemma sample_busy_reachable : rtc step (init 2 None) sample_busy.
Proof. eapply rtc_r; [apply sample_pending_reachable|]. eexists. apply sample_get. Qed.

(** ** Properties *)

(** Exclusivity.  In every state the system reaches, whatever the
    interleaving of workers, timers and callers, no two workers hold the same
    key, and a key a worker holds is not pending. *)
Theorem queue_exclusive n rl s i j k wi wj :
  rtc step (init n rl) s →
  sys_workers s !! i = Some wi → sys_workers s !! j = Some wj → held wi = Some k → held wj = Some k →
  i = j ∧ k ∉ q_order (sys_q s).
Proof.
  intros Hr Hi Hj Hwi Hwj. pose proof (reachable_inv n rl s Hr) as [Hq Hh Hp _ _].
  destruct (held_keys_split (sys_workers s) i wi wi Hi) as [H1 _]. rewrite Hwi in H1. simpl in H1.
  split.
  - destruct (decide (i = j)) as [|Hne]; [done|exfalso].
    rewrite H1 in Hh. apply NoDup_cons in Hh as [Hnot _]. apply Hnot.
    unfold held_keys. apply list_elem_of_omap. exists wj. split; [|done].
    apply list_elem_of_lookup. destruct (decide (j < i)%nat).
    + exists j. by rewrite list_lookup_delete_lt.
    + exists (pred j). rewrite list_lookup_delete_ge by lia. by replace (S (pred j)) with j by lia.
  - intros Ho%(qi_free _ Hq). apply Ho, Hp. rewrite H1. left.
Qed.

Lemma queue_exclusive_witness :
  sys_workers sample_busy !! 0%nat = Some (WRun "a") ∧ "a" ∉ q_order (sys_q sample_busy).
Proof.
  split; [reflexivity|].
  exact (proj2 (queue_exclusive 2 None sample_busy 0 0 "a" (WRun "a") (WRun "a")
    sample_busy_reachable eq_refl eq_refl eq_refl eq_refl)).
Defined.

Lemma Add_marks q k : q_shuttingDown q = false → k ∈ q_dirty (Add q k).
Proof. intros Hs. unfold Add. rewrite Hs. repeat case_bool_decide; simpl; set_solver. Qed.

(** A failed run marks its key at once or arms a timer for it. *)
Lemma finish_failed q k q' t :
  q_shuttingDown q = false → finish q k true = (q', t) → k ∈ q_dirty q' ∨ t = Some k.
Proof.
  intros Hs Hf. unfold finish, AddRateLimited, AddAfter in Hf.
  repeat case_match; simplify_eq; [left|by right].
  all: by apply Add_marks.
Qed.

(** A step keeps a marked key marked unless it delivers it. *)
Lemma step_keeps_mark s l s' k :
  q_inv (sys_q s) → lstep s l s' → k ∈ q_dirty (sys_q s) → k ∈ q_dirty (sys_q s') ∨ l = Some k.
Proof.
  intros Hq Hstep Hk.
  destruct Hstep as [q ws ts x|q ws ts|q ws ts1 x ts2|q ws ts i x q' Hi Hg|q ws ts i q' Hi Hg
    |q ws ts i x failed q' t Hi Hf|q ws ts i x Hi]; simpl in *.
  - left. by apply (proj1 (proj2 (proj2 (proj2 (Add_frame q x))))).
  - by left.
  - left. by apply (proj1 (proj2 (proj2 (proj2 (Add_frame q x))))).
  - destruct (Get_inv q x q' Hq Hg) as (_ & _ & _ & -> & _). destruct (decide (k = x)) as [->|]; [by right|left; set_solver].
  - left. unfold Get in Hg. repeat case_match; by simplify_eq.
  - destruct (finish_frame q x failed q' t Hf) as (_ & _ & _ & _ & Hd & _). left. by apply Hd.
  - left. unfold Done. by case_bool_decide.
Qed.

(** A step keeps an armed timer, or fires it and marks its key. *)
Lemma step_keeps_timer s l s' k :
  q_shuttingDown (sys_q s) = false → lstep s l s' →
  k ∈ sys_timers s → k ∈ sys_timers s' ∨ k ∈ q_dirty (sys_q s').
Proof.
  intros Hs Hstep Hk. destruct Hstep; simpl in *; auto.
  - rewrite elem_of_app, elem_of_cons in Hk. rewrite elem_of_app.
    destruct Hk as [Hk|[->|Hk]]; [auto|right; by apply Add_marks|auto].
  - left. apply elem_of_app. by left.
Qed.

(** C34: no key is lost.  In every state the system reaches, while it is not
    shutting down: [Add] marks its key for a run, also when a worker is
    processing that key; a run that fails marks its key or arms a timer for
    it; and an armed timer stays armed until it fires and marks its key.  A
    marked key, also during shutdown, stays marked until a step delivers it
    to a worker, and all that time it is pending or its current run is not
    finished. *)
Theorem queue_no_lost_key n rl s l s' k :
  rtc step (init n rl) s → lstep s l s' →
  (q_shuttingDown (sys_q s) = false →
    k ∈ q_dirty (Add (sys_q s) k) ∧
    (∀ q' t, finish (sys_q s) k true = (q', t) → k ∈ q_dirty q' ∨ t = Some k) ∧
    (k ∈ sys_timers s → k ∈ sys_timers s' ∨ k ∈ q_dirty (sys_q s'))) ∧
  (k ∈ q_dirty (sys_q s) →
    (k ∈ q_dirty (sys_q s') ∨ l = Some k) ∧
    (k ∈ q_order (sys_q s) ∨ k ∈ held_keys (sys_workers s))).
Proof.
  intros Hr Hstep. pose proof (reachable_inv n rl s Hr) as [Hq _ Hp _ _]. split.
  - intros Hs. split_and!; [by apply Add_marks|by intros q' t; apply finish_failed|by eapply step_keeps_timer].
  - intros Hk. split; [by eapply step_keeps_mark|].
    destruct (qi_cover _ Hq k Hk); [by left|right; by apply Hp].
Qed.

(** Worker 0 runs [a]; asking for [a] again marks it, and the next step keeps
    [b], which was pending all along. *)
Lemma queue_no_lost_key_witness :
  "a" ∈ q_dirty (Add (sys_q sample_busy) "a") ∧
  "b" ∈ q_dirty (sys_q (mkSys (Add (sys_q sample_busy) "a") [WRun "a"; WGet] [])).
Proof.
  pose proof (λ k, queue_no_lost_key 2 None sample_busy None _ k sample_busy_reachable
    (step_add (sys_q sample_busy) [WRun "a"; WGet] [] "a")) as H. split.
  - exact (proj1 (proj1 (H "a") eq_refl)).
  - destruct (proj1 (proj2 (H "b") ltac:(apply (bool_decide_unpack _); vm_compute; exact I))) as [Hd|Hl];
      [exact Hd|discriminate Hl].
Defined.

(** First in, first out, with a bound.  A key pending at position [p] is
    the [p]-th delivery (from 0) of every run that makes more than [p] of them. *)
Theorem queue_fifo n rl s ds s' p k :
  rtc step (init n rl) s → run s ds s' →
  q_order (sys_q s) !! p = Some k → (p < length ds)%nat → ds !! p = Some k.
Proof.
  intros Hr Hrun Hp Hlt. destruct (run_order s ds s' (reachable_inv n rl s Hr) Hrun) as [_ [app Happ]].
  assert (H1 : (q_order (sys_q s) ++ app) !! p = Some k) by (by apply lookup_app_l_Some).
  rewrite Happ in H1. by rewrite lookup_app_l in H1.
Qed.

Lemma queue_fifo_witness : ["a"; "b"] !! 1%nat = Some "b".
Proof.
  refine (queue_fifo 2 None sample_pending ["a"; "b"]
    (mkSys (snd (Get (sys_q sample_busy))) [WRun "a"; WRun "b"] []) 1 "b" sample_pending_reachable _ eq_refl _).
  - apply (run_cons _ (Some "a") sample_busy ["b"]); [apply sample_get|].
    apply (run_cons _ (Some "b") (mkSys (snd (Get (sys_q sample_busy))) [WRun "a"; WRun "b"] []) []);
      [|apply run_nil]. by apply (step_get _ [WRun "a"; WGet] [] 1 "b").
  - simpl. lia.
Defined.

(** Shutdown drains.  Once every worker has exited, nothing is pending,
    marked or in progress. *)
Theorem queue_shutdown_drains n rl s :
  rtc step (init n rl) s → sys_workers s ≠ [] → Forall (λ w, w = WExit) (sys_workers s) →
  q_order (sys_q s) = [] ∧ q_dirty (sys_q s) = ∅ ∧ q_processing (sys_q s) = ∅.
Proof.
  intros Hr Hne Hall. pose proof (reachable_inv n rl s Hr) as [Hq Hh Hp _ Hdr].
  assert (Hx : WExit ∈ sys_workers s).
  { destruct (sys_workers s) as [|w ws]; [done|]. apply Forall_cons in Hall as [-> _]. left. }
  assert (Hheld : held_keys (sys_workers s) = []).
  { clear -Hall. induction Hall as [|w ws -> _ IH]; [done|]. simpl. done. }
  assert (Ho := Hdr Hall Hx). split; [done|].
  assert (Hproc : ∀ k, k ∉ q_processing (sys_q s)) by (intros k; rewrite Hp, Hheld; set_solver).
  split; apply set_eq; intros k; (split; [|set_solver]); intros Hk; exfalso.
  - destruct (qi_cover _ Hq k Hk) as [H|H]; [rewrite Ho in H; set_solver|by apply (Hproc k)].
  - by apply (Hproc k).
Qed.

Lemma queue_shutdown_drains_witness :
  q_order (sys_q (mkSys (ShutDown (New None)) [WExit] [])) = [].
Proof.
  refine (proj1 (queue_shutdown_drains 1 None (mkSys (ShutDown (New None)) [WExit] []) _ _ _)).
  - eapply rtc_l; [eexists; apply (step_shutdown (New None) [WGet] [])|].
    eapply rtc_l; [eexists; by apply (step_exit (ShutDown (New None)) [WGet] [] 0)|]. apply rtc_refl.
  - discriminate.
  - repeat constructor.
Defined.

(** [n] consecutive calls of [When] for one key. *)
Fixpoint whens (rl : rateLimiter) (key : string) (n : nat) : list Duration :=
  match n with
  | O => []
  | S n => let '(d, rl') := When rl key in d :: whens rl' key n
  end.

(** Exponential backoff.  After [Forget] the [n]-th consecutive failure of
    a key waits [min (max, base * 2^n)], whatever the other keys do. *)
Theorem backoff_exponential rl key n m :
  (n < m)%nat →
  whens (rl_Forget rl key) key m !! n = Some (Z.min (rl_max rl) (rl_base rl * 2 ^ Z.of_nat n)).
Proof.
  assert (Hgen : ∀ m rl' j n, NumRequeues rl' key = j → (n < m)%nat → 0 ≤ j →
    whens rl' key m !! n = Some (Z.min (rl_max rl') (rl_base rl' * 2 ^ (j + Z.of_nat n)))).
  { clear. induction m as [|m IH]; intros rl' j n Hj Hlt Hpos; [lia|]. simpl. rewrite Hj.
    destruct n as [|n]; simpl.
    - rewrite Z.add_0_r. f_equal. case_match; bools; lia.
    - rewrite (IH _ (j + 1)); [|unfold NumRequeues; simpl; by rewrite lookup_insert_eq|lia|lia].
      simpl. do 3 f_equal. f_equal. lia. }
  intros Hlt. rewrite (Hgen m (rl_Forget rl key) 0 n); [done| |done|lia].
  unfold NumRequeues, rl_Forget. simpl. by rewrite lookup_delete_eq.
Qed.

Lemma backoff_exponential_witness :
  whens (rl_Forget DefaultRateLimiter "svc") "svc" 20 !! 2%nat = Some (20 * Millisecond).
Proof. exact (backoff_exponential DefaultRateLimiter "svc" 2 20 ltac:(lia)). Defined.
