(* ===== verification/EventCodec.v ===== *)
(** * Log keys and event framing (pkg/store/orderedlog/badger_backend.go)

    Byte strings are lists of integers; [encoding/binary]'s big-endian
    encodings are [be].  A Go string is its bytes. *)

From S2P Require Import Prelude.

Notation bytes := (list Z).

(** The bytes of an ASCII literal. *)
Fixpoint bytes_of (s : string) : bytes :=
  match s with
  | EmptyString => []
  | String c s => Z.of_nat (Ascii.nat_of_ascii c) :: bytes_of s
  end.

(** ** Big-endian integers *)

Fixpoint be (n : nat) (z : Z) : bytes :=
  match n with
  | O => []
  | S n => (z / 256 ^ Z.of_nat n) mod 256 :: be n z
  end.

Definition debe (l : bytes) : Z := fold_left (λ a b, a * 256 + b) l 0.

Definition PutUint16 (z : Z) : bytes := be 2 z.
Definition PutUint32 (z : Z) : bytes := be 4 z.
Definition PutUint64 (z : Z) : bytes := be 8 z.

(** ** Keys *)

Definition keyPrefix : bytes := bytes_of "_olog/".
Definition seqKey : bytes := keyPrefix ++ bytes_of "seq".
Definition eventKeyPrefix : bytes := keyPrefix ++ bytes_of "event/".

Definition eventKey (seq : Z) : bytes := eventKeyPrefix ++ PutUint64 seq.

Fixpoint HasPrefix (s prefix : bytes) : bool :=
  match prefix, s with
  | [], _ => true
  | p :: prefix, x :: s => (x =? p) && HasPrefix s prefix
  | _ :: _, [] => false
  end.

(** Byte-wise lexicographic order, the iteration order of the store. *)
Fixpoint lex (a b : bytes) : bool :=
  match a, b with
  | [], [] => false
  | [], _ :: _ => true
  | _ :: _, [] => false
  | x :: a, y :: b => if x <? y then true else if y <? x then false else lex a b
  end.

(** ** Events *)

Record Mutation := mkMutation {
  mut_Kind : Z;
  mut_ResourceType : bytes;
  mut_Namespace : bytes;
  mut_Name : bytes;
  mut_Payload : bytes;
}.

Definition MutationPut : Z := 1.
Definition MutationDelete : Z := 2.

Record Event := mkLogEvent {
  ev_Seq : Z;
  ev_OpType : bytes;
  ev_Mutations : list Mutation;
}.

#[global] Instance Mutation_eq_dec : EqDecision Mutation.
Proof. solve_decision. Defined.
#[global] Instance Event_eq_dec : EqDecision Event.
Proof. solve_decision. Defined.

Definition blen (b : bytes) : Z := Z.of_nat (length b).

Local Open Scope go_scope.

(** ** Encoding *)

Definition writeShortString (s : bytes) : result string bytes :=
  if 65535 <? blen s then Err "orderedlog: string too long" else Ok (PutUint16 (blen s) ++ s).

Definition encodeMutation (m : Mutation) : result string bytes :=
  let? rtype := writeShortString (mut_ResourceType m) in
  let? ns := writeShortString (mut_Namespace m) in
  let? name := writeShortString (mut_Name m) in
  Ok ([mut_Kind m mod 256] ++ rtype ++ ns ++ name ++ PutUint32 (blen (mut_Payload m)) ++ mut_Payload m).

Fixpoint encodeMutations (ms : list Mutation) : result string bytes :=
  match ms with
  | [] => Ok []
  | m :: ms => let? x := encodeMutation m in let? xs := encodeMutations ms in Ok (x ++ xs)
  end.

Definition encodeEvent (ev : Event) : result string bytes :=
  if 65535 <? blen (ev_OpType ev) then Err "orderedlog: op type too long"
  else if 65535 <? Z.of_nat (length (ev_Mutations ev)) then Err "orderedlog: too many mutations"
  else
    let? op := writeShortString (ev_OpType ev) in
    let? muts := encodeMutations (ev_Mutations ev) in
    Ok (PutUint64 (ev_Seq ev) ++ op ++ PutUint16 (Z.of_nat (length (ev_Mutations ev))) ++ muts).

(** ** Decoding

    A reader is the bytes not yet consumed. *)

Definition ReadFull (n : nat) (r : bytes) : result string (bytes * bytes) :=
  if bool_decide (n ≤ length r)%nat then Ok (take n r, drop n r) else Err "unexpected EOF".

Definition readShortString (r : bytes) : result string (bytes * bytes) :=
  let? p := ReadFull 2 r in
  let n := debe p.1 in
  if n =? 0 then Ok ([], p.2) else ReadFull (Z.to_nat n) p.2.

Definition readMutation (r : bytes) : result string (Mutation * bytes) :=
  let? kind := ReadFull 1 r in
  let? rtype := readShortString kind.2 in
  let? ns := readShortString rtype.2 in
  let? name := readShortString ns.2 in
  let? pl := ReadFull 4 name.2 in
  let plen := debe pl.1 in
  let? payload := (if 0 <? plen then ReadFull (Z.to_nat plen) pl.2 else Ok ([], pl.2)) in
  Ok (mkMutation (debe kind.1) rtype.1 ns.1 name.1 payload.1, payload.2).

Fixpoint readMutations (n : nat) (r : bytes) : result string (list Mutation) :=
  match n with
  | O => Ok []
  | S n =>
      let? m := readMutation r in
      let? ms := readMutations n m.2 in
      Ok (m.1 :: ms)
  end.

Definition decodeEvent (data : bytes) : result string Event :=
  let? hdr := ReadFull 8 data in
  let? op := readShortString hdr.2 in
  let? n := ReadFull 2 op.2 in
  let? ms := readMutations (Z.to_nat (debe n.1)) n.2 in
  Ok (mkLogEvent (debe hdr.1) op.1 ms).

(** ** Lemmas *)

Lemma be_length n z : length (be n z) = n.
Proof. induction n as [|n IH]; simpl; [done|]. by rewrite IH. Qed.

Lemma be_bytes n z : Forall (λ b, 0 ≤ b < 256) (be n z).
Proof. induction n as [|n IH]; simpl; constructor; [|done]. by apply Z.mod_pos_bound. Qed.

Lemma debe_fold l a : fold_left (λ a b, a * 256 + b) l a = a * 256 ^ blen l + debe l.
Proof.
  unfold debe, blen. revert a. induction l as [|x l IH]; intros a; cbn [fold_left length]; [simpl; lia|].
  rewrite IH, (IH (0 * 256 + x)). rewrite Nat2Z.inj_succ, Z.pow_succ_r by lia. ring.
Qed.

Lemma debe_cons x l : debe (x :: l) = x * 256 ^ blen l + debe l.
Proof. unfold debe at 1. cbn [fold_left]. by rewrite debe_fold. Qed.

(** Only the low bytes are kept, as the unsigned conversions of the source do. *)
Lemma debe_be_mod n z : debe (be n z) = z mod 256 ^ Z.of_nat n.
Proof.
  induction n as [|n IH]; [simpl; by rewrite Z.mod_1_r|]. cbn [be]. rewrite debe_cons. unfold blen.
  rewrite be_length, IH, Nat2Z.inj_succ, Z.pow_succ_r by lia.
  set (p := 256 ^ Z.of_nat n). assert (0 < p) by (unfold p; lia).
  rewrite (Z.mul_comm 256 p), Z.rem_mul_r by lia. ring.
Qed.

Lemma debe_be n z : 0 ≤ z < 256 ^ Z.of_nat n → debe (be n z) = z.
Proof. intros. rewrite debe_be_mod. by apply Z.mod_small. Qed.

Lemma lex_be n a b :
  0 ≤ a < 256 ^ Z.of_nat n → 0 ≤ b < 256 ^ Z.of_nat n → lex (be n a) (be n b) = (a <? b).
Proof.
  enough (∀ a b, lex (be n a) (be n b) = (a mod 256 ^ Z.of_nat n <? b mod 256 ^ Z.of_nat n)) as H.
  { intros Ha Hb. rewrite H, !Z.mod_small by done. done. }
  clear. induction n as [|n IH]; intros a b; [simpl; by rewrite !Z.mod_1_r|]. cbn [be lex]. rewrite IH.
  rewrite Nat2Z.inj_succ, Z.pow_succ_r by lia. set (p := 256 ^ Z.of_nat n). assert (0 < p) by (unfold p; lia).
  rewrite (Z.mul_comm 256 p), !Z.rem_mul_r by lia.
  pose proof (Z.mod_pos_bound a p). pose proof (Z.mod_pos_bound b p).
  set (x := (a / p) mod 256). set (y := (b / p) mod 256).
  destruct (x <? y) eqn:E1; bools; [symmetry; apply Z.ltb_lt; nia|].
  destruct (y <? x) eqn:E2; bools; [symmetry; apply Z.ltb_ge; nia|].
  assert (x = y) as -> by lia. destruct (a mod p <? b mod p) eqn:E3; bools; symmetry; [apply Z.ltb_lt|apply Z.ltb_ge]; lia.
Qed.

Lemma lex_app p a b : lex (p ++ a) (p ++ b) = lex a b.
Proof. induction p as [|x p IH]; simpl; [done|]. by rewrite Z.ltb_irrefl. Qed.

Lemma lex_asym a b : lex a b = true → lex b a = false.
Proof.
  revert b. induction a as [|x a IH]; intros [|y b]; simpl; try done.
  destruct (x <? y) eqn:E1, (y <? x) eqn:E2; bools; try done; [lia|apply IH].
Qed.

Lemma lex_negtrans a b c : lex a b = false → lex b c = false → lex a c = false.
Proof.
  revert b c. induction a as [|x a IH]; intros [|y b] [|z c]; simpl; try done.
  destruct (x <? y) eqn:E1; [done|]. destruct (y <? z) eqn:E2; [done|]. bools.
  destruct (y <? x) eqn:E3; bools.
  - intros _ _. replace (x <? z) with false by lia. by replace (z <? x) with true by lia.
  - destruct (z <? y) eqn:E4; bools.
    + intros _ _. replace (x <? z) with false by lia. by replace (z <? x) with true by lia.
    + intros H1 H2. replace (x <? z) with false by lia. replace (z <? x) with false by lia. by eapply IH.
Qed.

Definition seq_range (s : Z) : Prop := 0 ≤ s < 2 ^ 64.

(** Key order is sequence order. *)
Lemma eventKey_lex a b : seq_range a → seq_range b → lex (eventKey a) (eventKey b) = (a <? b).
Proof. intros Ha Hb. unfold eventKey, PutUint64. rewrite lex_app. apply lex_be; unfold seq_range in *; simpl; lia. Qed.

Lemma eventKey_inj a b : seq_range a → seq_range b → eventKey a = eventKey b → a = b.
Proof.
  intros Ha Hb H. unfold eventKey, PutUint64 in H. apply app_inv_head in H.
  assert (debe (be 8 a) = debe (be 8 b)) as Hd by (by rewrite H).
  rewrite !debe_be in Hd; unfold seq_range in *; simpl in *; lia.
Qed.

Lemma ReadFull_app a r : ReadFull (length a) (a ++ r) = Ok (a, r).
Proof.
  unfold ReadFull. rewrite bool_decide_true by (rewrite length_app; lia).
  by rewrite take_app_length, drop_app_length.
Qed.

Lemma ReadFull_be n z r : ReadFull n (be n z ++ r) = Ok (be n z, r).
Proof. rewrite <- (be_length n z) at 1. apply ReadFull_app. Qed.

Lemma readShortString_write s w r : writeShortString s = Ok w → readShortString (w ++ r) = Ok (s, r).
Proof.
  unfold writeShortString, readShortString, PutUint16. destruct (65535 <? blen s) eqn:E; [done|]. intros <-%Ok_inj. bools.
  rewrite <- app_assoc, ReadFull_be. cbn [rbind fst snd]. rewrite debe_be by (unfold blen in *; simpl; lia).
  destruct (blen s =? 0) eqn:E0; bools.
  - unfold blen in E0. destruct s; [done|]. simpl in E0. lia.
  - unfold blen. rewrite Nat2Z.id. apply ReadFull_app.
Qed.

(** What the encoder's fixed-width fields can hold. *)
Definition mutation_ok (m : Mutation) : Prop := 0 ≤ mut_Kind m < 256 ∧ blen (mut_Payload m) < 2 ^ 32.

Lemma readMutation_encode m x r :
  mutation_ok m → encodeMutation m = Ok x → readMutation (x ++ r) = Ok (m, r).
Proof.
  intros [Hk Hp]. unfold encodeMutation.
  destruct (writeShortString (mut_ResourceType m)) as [rt|] eqn:E1; [|done].
  destruct (writeShortString (mut_Namespace m)) as [ns|] eqn:E2; [|done].
  destruct (writeShortString (mut_Name m)) as [nm|] eqn:E3; [|done]. cbn [rbind].
  intros <-%Ok_inj. rewrite Z.mod_small by lia.
  unfold readMutation. rewrite <- !app_assoc.
  rewrite (ReadFull_app [mut_Kind m]). cbn [rbind fst snd].
  rewrite (readShortString_write _ _ _ E1). cbn [rbind fst snd].
  rewrite (readShortString_write _ _ _ E2). cbn [rbind fst snd].
  rewrite (readShortString_write _ _ _ E3). cbn [rbind fst snd].
  unfold PutUint32. rewrite ReadFull_be. cbn [rbind fst snd].
  rewrite debe_be by (unfold blen in *; simpl; lia).
  assert (Hkd : debe [mut_Kind m] = mut_Kind m) by done. rewrite Hkd.
  destruct (0 <? blen (mut_Payload m)) eqn:E; bools.
  - unfold blen. rewrite Nat2Z.id, ReadFull_app. cbn [rbind fst snd]. by destruct m.
  - assert (mut_Payload m = []) as Hnil by (unfold blen in E; destruct (mut_Payload m); simpl in *; [done|lia]).
    rewrite Hnil. cbn [rbind fst snd app]. destruct m; simpl in *. by subst.
Qed.

Lemma readMutations_encode ms x r :
  Forall mutation_ok ms → encodeMutations ms = Ok x → readMutations (length ms) (x ++ r) = Ok ms.
Proof.
  intros Hok. revert x. induction Hok as [|m ms Hm _ IH]; intros x; simpl; [by intros [= <-]|].
  destruct (encodeMutation m) as [y|] eqn:E1; [|done]. destruct (encodeMutations ms) as [ys|] eqn:E2; [|done].
  cbn [rbind]. intros <-%Ok_inj. rewrite <- app_assoc, (readMutation_encode m y _ Hm E1). cbn [rbind fst snd].
  by rewrite (IH ys eq_refl).
Qed.

(** The framing round-trips; trailing bytes are ignored. *)
Lemma decode_encode ev raw :
  seq_range (ev_Seq ev) → Forall mutation_ok (ev_Mutations ev) →
  encodeEvent ev = Ok raw → decodeEvent raw = Ok ev.
Proof.
  intros Hs Hm. unfold encodeEvent.
  destruct (65535 <? blen (ev_OpType ev)); [done|]. destruct (65535 <? Z.of_nat _) eqn:En; [done|]. bools.
  destruct (writeShortString (ev_OpType ev)) as [op|] eqn:E1; [|done].
  destruct (encodeMutations (ev_Mutations ev)) as [muts|] eqn:E2; [|done]. cbn [rbind]. intros <-%Ok_inj.
  unfold decodeEvent, PutUint64, PutUint16. rewrite ReadFull_be. cbn [rbind fst snd].
  rewrite (readShortString_write _ _ _ E1). cbn [rbind fst snd]. rewrite ReadFull_be. cbn [rbind fst snd].
  rewrite debe_be by (simpl; lia). rewrite Nat2Z.id.
  pose proof (readMutations_encode (ev_Mutations ev) muts [] Hm E2) as Hr. rewrite app_nil_r in Hr. rewrite Hr.
  cbn [rbind]. rewrite debe_be by (unfold seq_range in Hs; simpl; lia). by destruct ev.
Qed.
