(* ===== verification/OrderedLog.v ===== *)
(** * The ordered log (pkg/store/orderedlog/{orderedlog,badger_backend,retention,snapshot}.go)

    The single-node backend: proposals applied in a transaction, a persisted
    sequence counter, an event per commit, watchers with bounded channels, and
    retention.  Badger is a map from byte keys to byte values, iterated in key
    order; a transaction either commits or leaves it unchanged, and what Badger
    answers to its calls ([badger], one field per call) is an argument. *)

From S2P Require Import Prelude EventCodec.

Notation db := (gmap bytes bytes).

(** ** Transactions

    The [Txn] interface handed to appliers, as the sequence of calls an applier
    makes.  [TGet] answers [Ok None] for a missing key and [Err] for a failed
    read; [TSet]/[TDel] tell the applier about a write that was refused. *)
Inductive txn (A : Type) : Type :=
| TRet (a : A)
| TGet (key : bytes) (k : result string (option bytes) → txn A)
| TSet (key value : bytes) (k : result string unit → txn A)
| TDel (key : bytes) (k : result string unit → txn A).
Arguments TRet {A} a.
Arguments TGet {A} key k.
Arguments TSet {A} key value k.
Arguments TDel {A} key k.

Fixpoint tbind {A B} (t : txn A) (f : A → txn B) : txn B :=
  match t with
  | TRet a => f a
  | TGet key k => TGet key (λ v, tbind (k v) f)
  | TSet key v k => TSet key v (λ r, tbind (k r) f)
  | TDel key k => TDel key (λ r, tbind (k r) f)
  end.

(** What Badger answers in one proposal: the errors of the applier's reads and
    of its writes, in the order of the calls and [None] once a list runs out,
    and the errors of writing the event, of writing the counter and of the
    commit. *)
Record badger := mkBadger {
  bd_reads : list (option string);
  bd_writes : list (option string);
  bd_event : option string;
  bd_seq : option string;
  bd_commit : option string;
}.

(** No call fails. *)
Definition accepting : badger := mkBadger [] [] None None None.

(** Only the commit fails. *)
Definition rejecting : badger := mkBadger [] [] None None (Some "commit failed").

Definition after_read (x : badger) : badger :=
  mkBadger (tail (bd_reads x)) (bd_writes x) (bd_event x) (bd_seq x) (bd_commit x).
Definition after_write (x : badger) : badger :=
  mkBadger (bd_reads x) (tail (bd_writes x)) (bd_event x) (bd_seq x) (bd_commit x).

(** [badgerTxn]: keys under the reserved prefix are refused without asking
    Badger. *)
Fixpoint run_txn {A} (x : badger) (t : txn A) (d : db) : A * db :=
  match t with
  | TRet a => (a, d)
  | TGet key k =>
      match hd None (bd_reads x) with
      | Some e => run_txn (after_read x) (k (Err e)) d
      | None => run_txn (after_read x) (k (Ok (d !! key))) d
      end
  | TSet key v k =>
      if HasPrefix key keyPrefix then run_txn x (k (Err "orderedlog: applier wrote reserved key")) d
      else match hd None (bd_writes x) with
           | Some e => run_txn (after_write x) (k (Err e)) d
           | None => run_txn (after_write x) (k (Ok tt)) (<[key := v]> d)
           end
  | TDel key k =>
      if HasPrefix key keyPrefix then run_txn x (k (Err "orderedlog: applier deleted reserved key")) d
      else match hd None (bd_writes x) with
           | Some e => run_txn (after_write x) (k (Err e)) d
           | None => run_txn (after_write x) (k (Ok tt)) (delete key d)
           end
  end.

(** ** Iteration *)

(** The keys with a prefix, from [start] on, in key order. *)
Definition scan (d : db) (start prefix : bytes) : list (bytes * bytes) :=
  SliceStable (λ a b : bytes * bytes, lex a.1 b.1)
    (List.filter (λ kv : bytes * bytes, HasPrefix kv.1 prefix && negb (lex kv.1 start)) (map_to_list d)).

(** ** State *)

Inductive LogError := ErrCompacted | ErrUnknownOpType | ErrAlreadyRegistered | ErrLogClosed | ErrLogOther (m : string).

(** A watcher's channel: everything ever sent on it, how much was received,
    the last delivered sequence, whether it is closed, and whether the watch
    goroutine that will call [removeSub] is still waiting. *)
Record channel := mkChannel {
  ch_sent : list Event;
  ch_recv : nat;
  ch_from : Z;
  ch_closed : bool;
  ch_goroutine : bool;
}.

Section Backend.
Context {M Op : Type}.
Context (OpType : Op → bytes) (Marshal : Op → result string bytes).

(** An applier reads and writes through the transaction; [M] is whatever it
    keeps in memory outside of it, which a rollback does not undo. *)
Definition Applier := Op → M → txn (M * result string (list Mutation)).

Record BackendOptions := mkOptions {
  o_WatchBuffer : Z;
  o_RetentionAge : Duration;
  o_RetentionMaxEvents : Z;
  o_RetentionInterval : Duration;
}.

(** [BackendOptions.defaults]. *)
Definition defaults (o : BackendOptions) : BackendOptions :=
  {| o_WatchBuffer := if o_WatchBuffer o <=? 0 then 1024 else o_WatchBuffer o;
     o_RetentionAge := if o_RetentionAge o =? 0 then 24 * 3600 * Second else o_RetentionAge o;
     o_RetentionMaxEvents := if o_RetentionMaxEvents o =? 0 then 100000 else o_RetentionMaxEvents o;
     o_RetentionInterval := if o_RetentionInterval o =? 0 then 300 * Second else o_RetentionInterval o |}.

Record Backend := mkBackend {
  b_db : db;
  b_opts : BackendOptions;
  b_lastSeq : Z;
  b_minSeq : Z;
  b_appliers : gmap bytes Applier;
  b_chans : list channel;
  b_subs : option (list nat);   (* the live subscriptions, by channel; [None] after Close *)
  b_closed : bool;
  b_mem : M;
  b_panic : bool;               (* a send on, or a close of, a closed channel *)
}.

Definition NewBadgerBackend (d : db) (o : BackendOptions) (m : M) : Backend :=
  mkBackend d (defaults o) 0 0 ∅ [] (Some []) false m false.

Definition with_db (b : Backend) (d : db) (last min : Z) (m : M) : Backend :=
  mkBackend d (b_opts b) last min (b_appliers b) (b_chans b) (b_subs b) (b_closed b) m (b_panic b).
Definition with_chans (b : Backend) (chans : list channel) (subs : option (list nat)) (panic : bool) : Backend :=
  mkBackend (b_db b) (b_opts b) (b_lastSeq b) (b_minSeq b) (b_appliers b) chans subs (b_closed b) (b_mem b) panic.

(** ** Open *)

Definition refreshMinSeq (d : db) : result LogError Z :=
  match scan d eventKeyPrefix eventKeyPrefix with
  | [] => Ok 0
  | (key, _) :: _ =>
      if negb (blen key =? blen eventKeyPrefix + 8) then Err (ErrLogOther "corrupt event key")
      else Ok (debe (drop (length eventKeyPrefix) key))
  end.

Definition Open (b : Backend) : result LogError Backend :=
  let last := match b_db b !! seqKey with
    | None => Ok 0
    | Some v => if negb (blen v =? 8) then Err (ErrLogOther "corrupt seq key") else Ok (debe v)
    end in
  match last with
  | Err e => Err e
  | Ok last =>
      match refreshMinSeq (b_db b) with
      | Err e => Err e
      | Ok min =>
          Ok (mkBackend (b_db b) (b_opts b) last min (b_appliers b) (b_chans b) (b_subs b) false (b_mem b) (b_panic b))
      end
  end.

(** ** Register *)

Definition Register (b : Backend) (opType : bytes) (applier : Applier) : result LogError Backend :=
  if bool_decide (opType = []) then Err (ErrLogOther "empty op type")
  else match b_appliers b !! opType with
       | Some _ => Err ErrAlreadyRegistered
       | None =>
           Ok (mkBackend (b_db b) (b_opts b) (b_lastSeq b) (b_minSeq b) (<[opType := applier]> (b_appliers b))
                 (b_chans b) (b_subs b) (b_closed b) (b_mem b) (b_panic b))
       end.

(** ** Delivery *)

(** [deliver] on a channel: [None] is the panic of a send on a closed channel. *)
Definition deliver (buffer : Z) (c : channel) (ev : Event) : option (channel * bool) :=
  if ch_closed c then None
  else if Z.of_nat (length (ch_sent c) - ch_recv c) <? buffer then
    Some (mkChannel (ch_sent c ++ [ev]) (ch_recv c) (ev_Seq ev) (ch_closed c) (ch_goroutine c), true)
  else Some (c, false).

(** [removeSub]: forget the subscription and close its channel. *)
Definition removeSub (b : Backend) (id : nat) : Backend :=
  let subs := match b_subs b with
    | Some l => Some (List.filter (λ x, negb (Nat.eqb x id)) l)
    | None => None
    end in
  match b_chans b !! id with
  | None => b
  | Some c =>
      if ch_closed c then with_chans b (b_chans b) subs true
      else with_chans b (<[id := mkChannel (ch_sent c) (ch_recv c) (ch_from c) true (ch_goroutine c)]> (b_chans b))
             subs (b_panic b)
  end.

Definition publishTo (b : Backend) (ev : Event) (id : nat) : Backend :=
  match b_chans b !! id with
  | None => b
  | Some c =>
      match deliver (o_WatchBuffer (b_opts b)) c ev with
      | None => with_chans b (b_chans b) (b_subs b) true
      | Some (c', true) => with_chans b (<[id := c']> (b_chans b)) (b_subs b) (b_panic b)
      | Some (_, false) => removeSub b id
      end
  end.

Definition publish (b : Backend) (ev : Event) : Backend :=
  match b_subs b with
  | None => b
  | Some ids => fold_left (λ b id, publishTo b ev id) ids b
  end.

(** ** Propose *)

(** The transaction body: apply, persist the event, bump the counter. *)
Definition proposeTxn (x : badger) (applier : Applier) (op : Op) (m : M) (nextSeq : Z) (d : db)
    : M * result string (list Mutation * db) :=
  let '((m', r), d1) := run_txn x (applier op m) d in
  (m', match r with
       | Err e => Err e
       | Ok muts =>
           match encodeEvent (mkLogEvent nextSeq (OpType op) muts) with
           | Err e => Err e
           | Ok raw =>
               match bd_event x, bd_seq x with
               | Some e, _ | None, Some e => Err e
               | None, None => Ok (muts, <[seqKey := PutUint64 nextSeq]> (<[eventKey nextSeq := raw]> d1))
               end
           end
       end).

Definition Propose (b : Backend) (op : Op) (ctxErr : option string) (x : badger)
    : Backend * result LogError Z :=
  if b_closed b then (b, Err ErrLogClosed)
  else match b_appliers b !! OpType op with
  | None => (b, Err ErrUnknownOpType)
  | Some applier =>
      match Marshal op, ctxErr with
      | Err e, _ => (b, Err (ErrLogOther e))
      | Ok _, Some e => (b, Err (ErrLogOther e))
      | Ok _, None =>
          let nextSeq := wrapU64 (b_lastSeq b + 1) in
          let '(m', r) := proposeTxn x applier op (b_mem b) nextSeq (b_db b) in
          let failed := with_db b (b_db b) (b_lastSeq b) (b_minSeq b) m' in
          match r with
          | Err e => (failed, Err (ErrLogOther e))
          | Ok (muts, d') =>
              match bd_commit x with
              | Some e => (failed, Err (ErrLogOther e))
              | None =>
                let min := if b_minSeq b =? 0 then nextSeq else b_minSeq b in
                let b' := with_db b d' nextSeq min m' in
                (publish b' (mkLogEvent nextSeq (OpType op) muts), Ok nextSeq)
              end
          end
      end
  end.

(** ** Watch *)

(** The backfill loop: [Err] on an undecodable event; a full channel stops it. *)
Fixpoint backfillLoop (buffer : Z) (entries : list (bytes * bytes)) (c : channel) : result LogError channel :=
  match entries with
  | [] => Ok c
  | (_, v) :: rest =>
      match decodeEvent v with
      | Err e => Err (ErrLogOther e)
      | Ok ev =>
          match deliver buffer c ev with
          | Some (c', true) => backfillLoop buffer rest c'
          | _ => Ok c
          end
      end
  end.

Definition backfill (b : Backend) (c : channel) : result LogError channel :=
  if b_lastSeq b <=? ch_from c then Ok c
  else backfillLoop (o_WatchBuffer (b_opts b))
         (scan (b_db b) (eventKey (wrapU64 (ch_from c + 1))) eventKeyPrefix) c.

(** The channel's identifier, or the error. *)
Definition Watch (b : Backend) (fromSeq : Z) : Backend * result LogError nat :=
  if b_closed b then (b, Err ErrLogClosed)
  else if (0 <? b_minSeq b) && (wrapU64 (fromSeq + 1) <? b_minSeq b) then (b, Err ErrCompacted)
  else match backfill b (mkChannel [] 0 fromSeq false true) with
  | Err e => (b, Err e)
  | Ok c =>
      let id := length (b_chans b) in
      match b_subs b with
      | None => (b, Err ErrLogClosed)
      | Some l => (with_chans b (b_chans b ++ [c]) (Some (l ++ [id])) (b_panic b), Ok id)
      end
  end.

(** The watch goroutine wakes up: its context is done or the backend closed. *)
Definition watchGoroutine (b : Backend) (id : nat) : Backend :=
  match b_chans b !! id with
  | Some c =>
      if ch_goroutine c then
        removeSub (with_chans b (<[id := mkChannel (ch_sent c) (ch_recv c) (ch_from c) (ch_closed c) false]> (b_chans b))
                     (b_subs b) (b_panic b)) id
      else b
  | None => b
  end.

(** The consumer receives one buffered event. *)
Definition receive (b : Backend) (id : nat) : Backend :=
  match b_chans b !! id with
  | Some c =>
      if bool_decide (ch_recv c < length (ch_sent c))%nat then
        with_chans b (<[id := mkChannel (ch_sent c) (S (ch_recv c)) (ch_from c) (ch_closed c) (ch_goroutine c)]> (b_chans b))
          (b_subs b) (b_panic b)
      else b
  | None => b
  end.

(** [Close]: the goroutines wake up by [watchGoroutine] afterwards. *)
Definition Close (b : Backend) : Backend :=
  if b_closed b then b
  else mkBackend (b_db b) (b_opts b) (b_lastSeq b) (b_minSeq b) (b_appliers b) (b_chans b) None true (b_mem b) (b_panic b).

(** [Snapshot]: a read transaction and the sequence it is taken at. *)
Definition Snapshot (b : Backend) (ctxErr : option string) : result LogError (db * Z) :=
  if b_closed b then Err ErrLogClosed
  else match ctxErr with Some e => Err (ErrLogOther e) | None => Ok (b_db b, b_lastSeq b) end.

(** [badgerSnapshot.Range]. *)
Definition Range (d : db) (prefix : bytes) : list (bytes * bytes) := scan d prefix prefix.

(** ** Retention *)

Definition batchSize : nat := 1024.

(** One batch over the entries from the start of the log: delete while below
    [floor], at most [n]. *)
Fixpoint pruneBatch (n : nat) (floor : Z) (entries : list (bytes * bytes)) (d : db) : result LogError (nat * db) :=
  match n, entries with
  | O, _ | _, [] => Ok (O, d)
  | S n, (key, _) :: rest =>
      if negb (blen key =? blen eventKeyPrefix + 8) then Err (ErrLogOther "corrupt event key during prune")
      else if floor <=? debe (drop (length eventKeyPrefix) key) then Ok (O, d)
      else match pruneBatch n floor rest (delete key d) with
           | Err e => Err e
           | Ok (k, d') => Ok (S k, d')
           end
  end.

(** The batches commit one by one: an error leaves the earlier ones done. *)
Fixpoint pruneLoop (fuel : nat) (floor : Z) (d : db) : db * result LogError unit :=
  match fuel with
  | O => (d, Ok tt)
  | S fuel =>
      match pruneBatch batchSize floor (scan d eventKeyPrefix eventKeyPrefix) d with
      | Err e => (d, Err e)
      | Ok (k, d') => if bool_decide (k < batchSize)%nat then (d', Ok tt) else pruneLoop fuel floor d'
      end
  end.

(** [pruneOnce].  A full batch removes 1024 keys, so [size d] rounds and one
    more are enough. *)
Definition pruneOnce (b : Backend) : Backend * result LogError unit :=
  let head := b_lastSeq b in
  let keep := o_RetentionMaxEvents (b_opts b) in
  if head =? 0 then (b, Ok tt)
  else if (0 <? keep) && (keep <? head) then
    let floor := head - keep + 1 in
    let '(d', r) := pruneLoop (S (size (b_db b))) floor (b_db b) in
    match r with
    | Err e => (with_db b d' head (b_minSeq b) (b_mem b), Err e)
    | Ok _ =>
        match refreshMinSeq d' with
        | Err e => (with_db b d' head (b_minSeq b) (b_mem b), Err e)
        | Ok min => (with_db b d' head min (b_mem b), Ok tt)
        end
    end
  else (b, Ok tt).
End Backend.

Arguments Backend M Op : clear implicits.
Arguments Applier M Op : clear implicits.
