(* ===== verification/OrderedLogProps.v ===== *)
(** * A proposal commits whole or not at all

    The invariant of the persisted counter and events over proposals and
    retention, and what the database holds after a proposal under every answer
    Badger may give. *)

From S2P Require Import Prelude EventCodec OrderedLog.

(** ** Reserved keys *)

Lemma HasPrefix_app p x : HasPrefix (p ++ x) p = true.
Proof. induction p as [|y p IH]; simpl; [by destruct x|]. by rewrite Z.eqb_refl. Qed.

Lemma HasPrefix_split s p : HasPrefix s p = true → ∃ x, s = p ++ x.
Proof.
  revert s. induction p as [|y p IH]; intros s; simpl; [by exists s|].
  destruct s as [|z s]; [done|]. intros [H1 H2]%andb_prop. bools. destruct (IH s H2) as [x ->]. subst. by exists x.
Qed.

#[local] Arguments lex _ _ : simpl never.
#[local] Arguments eventKey _ : simpl never.
#[local] Arguments HasPrefix _ _ : simpl never.

Lemma event_reserved k : HasPrefix k eventKeyPrefix = true → HasPrefix k keyPrefix = true.
Proof. intros [x ->]%HasPrefix_split. unfold eventKeyPrefix. rewrite <- app_assoc. apply HasPrefix_app. Qed.

Lemma eventKey_prefix s : HasPrefix (eventKey s) eventKeyPrefix = true.
Proof. apply HasPrefix_app. Qed.

Lemma eventKey_length s : blen (eventKey s) = blen eventKeyPrefix + 8.
Proof. unfold eventKey, blen, PutUint64. rewrite length_app, be_length. lia. Qed.

Lemma eventKey_seq s : seq_range s → debe (drop (length eventKeyPrefix) (eventKey s)) = s.
Proof.
  intros Hs. unfold eventKey. rewrite drop_app_length. unfold PutUint64. apply debe_be.
  unfold seq_range in Hs. simpl. lia.
Qed.

Lemma seqKey_prefix : HasPrefix seqKey eventKeyPrefix = false.
Proof. reflexivity. Qed.

Lemma eventKey_not_seqKey s : eventKey s ≠ seqKey.
Proof. intros H. pose proof (eventKey_prefix s) as He. rewrite H in He. done. Qed.

(** An applier cannot touch the log's keys. *)
Lemma run_txn_reserved {A} x (t : txn A) d k : HasPrefix k keyPrefix = true → (run_txn x t d).2 !! k = d !! k.
Proof.
  intros Hk. revert x d. induction t as [a|key c IH|key v c IH|key c IH]; intros x d; simpl.
  - done.
  - destruct (hd None _); apply IH.
  - destruct (HasPrefix key keyPrefix) eqn:E; [apply IH|]. destruct (hd None _); rewrite IH; [done|].
    rewrite lookup_insert_ne; [done|]. intros ->. congruence.
  - destruct (HasPrefix key keyPrefix) eqn:E; [apply IH|]. destruct (hd None _); rewrite IH; [done|].
    rewrite lookup_delete_ne; [done|]. intros ->. congruence.
Qed.

(** ** The invariant *)

(** The log holds exactly the events [min .. last], each under its key and
    carrying its own sequence number, and the persisted counter is [last]. *)
Record log_ok (d : db) (last min : Z) : Prop := {
  lo_range : 0 ≤ min ≤ last ∧ last < 2 ^ 64;
  lo_zero : min = 0 ↔ last = 0;
  lo_seq : d !! seqKey = if last =? 0 then None else Some (PutUint64 last);
  lo_events : ∀ k v, d !! k = Some v → HasPrefix k eventKeyPrefix = true →
    ∃ s ev, k = eventKey s ∧ 1 ≤ s ∧ min ≤ s ≤ last ∧ decodeEvent v = Ok ev ∧ ev_Seq ev = s;
  lo_present : ∀ s, 1 ≤ s → min ≤ s ≤ last → is_Some (d !! eventKey s);
}.

Definition entry (d : db) (s : Z) : bytes * bytes := (eventKey s, default [] (d !! eventKey s)).

Section Scan.
Context (d : db) (last min : Z) (Hok : log_ok d last min).

Lemma in_seq_range s : 1 ≤ s → s ≤ last → seq_range s.
Proof. pose proof (lo_range _ _ _ Hok). unfold seq_range. lia. Qed.

(** What a scan returns: the retained events from [a] on, in sequence order. *)
Lemma scan_spec start a :
  (∀ s, 1 ≤ s → s ≤ last → lex (eventKey s) start = (s <? a)) →
  let lo := Z.max a (Z.max 1 min) in
  scan d start eventKeyPrefix = entry d <$> seqZ lo (last + 1 - lo).
Proof.
  intros Hstart lo. unfold scan.
  set (l1 := SliceStable _ _). set (l2 := entry d <$> seqZ lo (last + 1 - lo)).
  set (R := not_after (λ x y : bytes * bytes, lex x.1 y.1)).
  assert (Helem : ∀ kv, kv ∈ l1 ↔ ∃ s, lo ≤ s ≤ last ∧ kv = entry d s).
  { intros [k v]. unfold l1. rewrite elem_of_SliceStable, elem_of_filterb, elem_of_map_to_list.
    rewrite andb_true_iff, negb_true_iff. split.
    - intros [[Hp Hs] Hd]. simpl in *. destruct (lo_events _ _ _ Hok k v Hd Hp) as (s & ev & -> & H1 & H2 & _).
      rewrite Hstart in Hs by lia. bools. exists s. split; [unfold lo; lia|]. unfold entry. by rewrite Hd.
    - intros (s & Hs & [= -> ->]). assert (1 ≤ s ∧ min ≤ s ∧ a ≤ s) as (? & ? & ?) by (unfold lo in Hs; lia).
      destruct (lo_present _ _ _ Hok s) as [v Hv]; [lia|lia|]. split; [|by rewrite Hv].
      split; [apply eventKey_prefix|]. simpl. rewrite Hstart by lia. lia. }
  assert (Helem2 : ∀ kv, kv ∈ l2 ↔ ∃ s, lo ≤ s ≤ last ∧ kv = entry d s).
  { intros kv. unfold l2. rewrite list_elem_of_fmap. setoid_rewrite elem_of_seqZ. split.
    - intros (s & -> & Hs). exists s. split; [lia|done].
    - intros (s & Hs & ->). exists s. split; [done|lia]. }
  assert (Hkey : ∀ s t, lo ≤ s ≤ last → lo ≤ t ≤ last → lex (eventKey s) (eventKey t) = (s <? t)).
  { intros s t Hs Ht. apply eventKey_lex; apply in_seq_range; unfold lo in *; lia. }
  apply (StronglySorted_unique_strong R).
  - intros x y (s & Hs & ->)%Helem (t & Ht & ->)%Helem2. unfold R, not_after. simpl.
    rewrite !Hkey by done. intros ? ?. bools. by assert (s = t) as -> by lia.
  - unfold R. apply SliceStable_sorted. split; intros [ka ?] [kb ?]; simpl.
    + apply lex_asym.
    + intros [kc ?]. simpl. apply lex_negtrans.
  - unfold l2. clear -Hkey. assert (Hall : ∀ s, s ∈ seqZ lo (last + 1 - lo) → lo ≤ s ≤ last)
      by (intros s; rewrite elem_of_seqZ; lia).
    pose proof (seqZ_sorted lo (last + 1 - lo)) as Hs. revert Hall Hs.
    generalize (seqZ lo (last + 1 - lo)). induction l as [|x l IH]; intros Hall Hs; [constructor|].
    apply StronglySorted_inv in Hs as [Hs Hx]. rewrite fmap_cons. constructor; [apply IH; set_solver|].
    apply Forall_fmap. rewrite Forall_forall in Hx. apply Forall_forall. intros y Hy. unfold R, not_after. simpl.
    rewrite Hkey by (apply Hall; set_solver). specialize (Hx y Hy). lia.
  - apply NoDup_Permutation.
    + unfold l1. rewrite SliceStable_perm. eapply sublist_NoDup; [apply NoDup_map_to_list|auto with rune].
    + unfold l2. apply NoDup_fmap_2_strong; [|apply NoDup_seqZ].
      intros s t Hs%elem_of_seqZ Ht%elem_of_seqZ Heq%(f_equal fst). cbn [fst entry] in Heq.
      eapply eventKey_inj; [apply in_seq_range..|exact Heq]; unfold lo in *; lia.
    + intros kv. by rewrite Helem, Helem2.
Qed.

Lemma scan_all : scan d eventKeyPrefix eventKeyPrefix = entry d <$> seqZ (Z.max 1 min) (last + 1 - Z.max 1 min).
Proof.
  rewrite (scan_spec eventKeyPrefix 0).
  - by replace (Z.max 0 (Z.max 1 min)) with (Z.max 1 min) by lia.
  - intros s Hs _. rewrite (proj2 (Z.ltb_ge s 0)) by lia. unfold eventKey.
    rewrite <- (app_nil_r eventKeyPrefix) at 2. rewrite lex_app. unfold PutUint64. by destruct (be 8 s).
Qed.

Lemma refreshMinSeq_spec : refreshMinSeq d = Ok min.
Proof.
  unfold refreshMinSeq. rewrite scan_all.
  destruct (lo_range _ _ _ Hok) as [Hr Hl]. pose proof (lo_zero _ _ _ Hok) as Hz.
  destruct (decide (last = 0)) as [E|E].
  - rewrite seqZ_nil by lia. simpl. f_equal. lia.
  - assert (1 ≤ min) by lia. replace (Z.max 1 min) with min by lia. rewrite seqZ_cons by lia. rewrite fmap_cons.
    unfold entry. rewrite eventKey_length, Z.eqb_refl. cbn [negb]. rewrite eventKey_seq; [done|]. by apply in_seq_range; lia.
Qed.
End Scan.

(** ** Properties of the ordered log *)

#[local] Arguments lex _ _ : simpl never.
#[local] Arguments eventKey _ : simpl never.
#[local] Arguments HasPrefix _ _ : simpl never.
#[local] Arguments PutUint64 _ : simpl never.

(** The event framing round-trips.  What [encodeEvent] accepts,
    [decodeEvent] reads back: sequence, op type and every mutation. *)
Theorem event_roundtrip ev raw :
  seq_range (ev_Seq ev) → Forall mutation_ok (ev_Mutations ev) →
  encodeEvent ev = Ok raw → decodeEvent raw = Ok ev.
Proof. apply decode_encode. Qed.

Definition sample_event : Event :=
  mkLogEvent 258 (bytes_of "AllocateVIP")
    [mkMutation MutationPut (bytes_of "vip") (bytes_of "ns") (bytes_of "api") [0; 255; 7];
     mkMutation MutationDelete [] [] [] []].

Lemma event_roundtrip_witness :
  ∃ raw, encodeEvent sample_event = Ok raw ∧ length raw = 56%nat ∧ decodeEvent raw = Ok sample_event.
Proof.
  eexists. split; [vm_compute; reflexivity|]. split; [vm_compute; reflexivity|].
  refine (event_roundtrip sample_event _ _ _ eq_refl).
  - unfold seq_range. simpl. lia.
  - repeat (apply Forall_cons; split; [split; vm_compute; intuition congruence|]). apply Forall_nil. exact I.
Defined.

Section Log.
Context {M Op : Type} (OpType : Op → bytes) (Marshal : Op → result string bytes).
Implicit Types b : Backend M Op.

(** The mutations an applier returns fit the framing's fields. *)
Definition applier_ok (a : Applier M Op) : Prop :=
  ∀ x op m d muts, (run_txn x (a op m) d).1.2 = Ok muts → Forall mutation_ok muts.

Definition appliers_ok b : Prop := ∀ t a, b_appliers b !! t = Some a → applier_ok a.

Definition log_inv b : Prop := log_ok (b_db b) (b_lastSeq b) (b_minSeq b).

(** ** Delivery leaves the log alone *)

Definition same_log b b' : Prop :=
  b_db b' = b_db b ∧ b_opts b' = b_opts b ∧ b_lastSeq b' = b_lastSeq b ∧ b_minSeq b' = b_minSeq b ∧
  b_appliers b' = b_appliers b ∧ b_closed b' = b_closed b ∧ b_mem b' = b_mem b.

Lemma with_chans_log b chans subs p : same_log b (with_chans b chans subs p).
Proof. done. Qed.

Lemma same_log_trans b1 b2 b3 : same_log b1 b2 → same_log b2 b3 → same_log b1 b3.
Proof. unfold same_log. intuition congruence. Qed.

Lemma removeSub_log b id : same_log b (removeSub b id).
Proof. unfold removeSub. repeat case_match; try done; apply with_chans_log. Qed.

Lemma publishTo_log b ev id : same_log b (publishTo b ev id).
Proof. unfold publishTo. repeat case_match; try done; try apply with_chans_log. apply removeSub_log. Qed.

Lemma publish_log b ev : same_log b (publish b ev).
Proof.
  unfold publish. destruct (b_subs b) as [ids|]; [|done]. clear. revert b.
  induction ids as [|id ids IH]; intros b; simpl; [done|].
  eapply same_log_trans; [apply publishTo_log|apply IH].
Qed.

(** ** Propose *)

(** The transaction extends the log by one event and moves the counter. *)
Lemma proposeTxn_ok x applier op m d last min muts d' m' :
  log_ok d last min → last + 1 < 2 ^ 64 → applier_ok applier →
  proposeTxn OpType x applier op m (last + 1) d = (m', Ok (muts, d')) →
  log_ok d' (last + 1) (if min =? 0 then last + 1 else min) ∧
  (∃ raw, d' !! eventKey (last + 1) = Some raw ∧ decodeEvent raw = Ok (mkLogEvent (last + 1) (OpType op) muts)) ∧
  (∀ s, 1 ≤ s ≤ last → d' !! eventKey s = d !! eventKey s).
Proof.
  intros Hok Hlt Happ. unfold proposeTxn.
  pose proof (Happ x op m d) as Hm. pose proof (λ k H, run_txn_reserved x (applier op m) d k H) as Hres.
  destruct (run_txn x (applier op m) d) as [[m1 r] d1]. simpl in *.
  destruct r as [ms|]; [|done]. specialize (Hm ms eq_refl).
  destruct (encodeEvent _) as [raw|] eqn:He; [|done].
  destruct (bd_event x); [done|]. destruct (bd_seq x); [done|]. intros H. injection H as <- <- <-.
  destruct (lo_range _ _ _ Hok) as [Hr Hl]. pose proof (lo_zero _ _ _ Hok) as Hz.
  assert (Hdec : decodeEvent raw = Ok (mkLogEvent (last + 1) (OpType op) ms)).
  { apply decode_encode; [unfold seq_range; simpl; lia|done|done]. }
  assert (Hev : ∀ s, eventKey s ≠ seqKey) by apply eventKey_not_seqKey.
  assert (Hold : ∀ s, 1 ≤ s ≤ last →
    (<[seqKey := PutUint64 (last + 1)]> (<[eventKey (last + 1) := raw]> d1)) !! eventKey s = d !! eventKey s).
  { intros s Hs. rewrite lookup_insert_ne by (symmetry; apply Hev). rewrite lookup_insert_ne.
    - apply Hres, event_reserved, eventKey_prefix.
    - intros Heq%eventKey_inj; [lia|unfold seq_range; lia..]. }
  assert (Hnew : (<[seqKey := PutUint64 (last + 1)]> (<[eventKey (last + 1) := raw]> d1)) !! eventKey (last + 1) = Some raw).
  { rewrite lookup_insert_ne by (symmetry; apply Hev). by rewrite lookup_insert_eq. }
  split_and!; [|by exists raw|done]. split.
  - destruct (min =? 0) eqn:E; bools; lia.
  - destruct (min =? 0) eqn:E; bools; lia.
  - rewrite lookup_insert_eq. by replace (last + 1 =? 0) with false by lia.
  - intros k v Hk Hp. destruct (decide (k = seqKey)) as [->|Hns]; [by rewrite seqKey_prefix in Hp|].
    rewrite lookup_insert_ne in Hk by done. destruct (decide (k = eventKey (last + 1))) as [->|Hne].
    + rewrite lookup_insert_eq in Hk. injection Hk as <-. exists (last + 1), (mkLogEvent (last + 1) (OpType op) ms).
      split_and!; try done; try lia; destruct (min =? 0) eqn:E; bools; lia.
    + rewrite lookup_insert_ne in Hk by done. rewrite Hres in Hk by (by apply event_reserved).
      destruct (lo_events _ _ _ Hok k v Hk Hp) as (s & ev & -> & ? & ? & ? & ?). exists s, ev.
      split_and!; try done; try lia; destruct (min =? 0) eqn:E; bools; lia.
  - intros s Hs1 Hs2. destruct (decide (s = last + 1)) as [->|Hne]; [rewrite Hnew; by eexists|].
    assert (1 ≤ s ≤ last) by lia. rewrite Hold by done. apply (lo_present _ _ _ Hok); [done|].
    destruct (min =? 0) eqn:E; bools; lia.
Qed.

Lemma with_db_id b : with_db b (b_db b) (b_lastSeq b) (b_minSeq b) (b_mem b) = b.
Proof. by destruct b. Qed.

(** What a proposal needs to be accepted, and what its applier then makes of
    the database: its memory, its mutations, the database and the encoded event. *)
Definition accepts b (op : Op) (ctxErr : option string) (x : badger) (m' : M) (muts : list Mutation) (d1 : db) (raw : bytes) : Prop :=
  b_closed b = false ∧ ctxErr = None ∧ is_ok (Marshal op) = true ∧
  bd_event x = None ∧ bd_seq x = None ∧ bd_commit x = None ∧
  ∃ applier, b_appliers b !! OpType op = Some applier ∧
    run_txn x (applier op (b_mem b)) (b_db b) = ((m', Ok muts), d1) ∧
    encodeEvent (mkLogEvent (b_lastSeq b + 1) (OpType op) muts) = Ok raw.

(** The database of an accepted proposal. *)
Definition committed_db b (d1 : db) (raw : bytes) : db :=
  <[seqKey := PutUint64 (b_lastSeq b + 1)]> (<[eventKey (b_lastSeq b + 1) := raw]> d1).

(** A proposal either leaves everything but the applier's memory alone, or
    commits one more event and publishes it. *)
Lemma Propose_spec b (op : Op) ctxErr x :
  log_inv b → b_lastSeq b + 1 < 2 ^ 64 →
  (∃ m' e, Propose OpType Marshal b op ctxErr x =
     (with_db b (b_db b) (b_lastSeq b) (b_minSeq b) m', Err e) ∧ ∀ m' muts d1 raw, ¬ accepts b op ctxErr x m' muts d1 raw) ∨
  (∃ m' muts d1 raw, let seq := b_lastSeq b + 1 in let min := if b_minSeq b =? 0 then seq else b_minSeq b in
     accepts b op ctxErr x m' muts d1 raw ∧
     Propose OpType Marshal b op ctxErr x =
       (publish (with_db b (committed_db b d1 raw) seq min m') (mkLogEvent seq (OpType op) muts), Ok seq)).
Proof.
  intros Hok Hlt. unfold Propose, accepts.
  destruct (b_closed b) eqn:Ec; [left; exists (b_mem b), ErrLogClosed; rewrite with_db_id; split; [done|]; by intros ???? (? & _)|].
  destruct (b_appliers b !! OpType op) as [applier|] eqn:Ea;
    [|left; exists (b_mem b), ErrUnknownOpType; rewrite with_db_id; split; [done|]; by intros ???? (_ & _ & _ & _ & _ & _ & ? & ? & _)].
  destruct (Marshal op) as [w|e];
    [|left; exists (b_mem b), (ErrLogOther e); rewrite with_db_id; split; [done|]; by intros ???? (_ & _ & ? & _)].
  destruct ctxErr as [e|]; [left; exists (b_mem b), (ErrLogOther e); rewrite with_db_id; split; [done|]; by intros ???? (_ & ? & _)|].
  destruct (lo_range _ _ _ Hok) as [Hr Hl]. rewrite wrapU64_id by lia. unfold proposeTxn.
  destruct (run_txn x (applier op (b_mem b)) (b_db b)) as [[m' r] d1] eqn:Er.
  destruct r as [muts|e].
  2:{ left. eexists _, _. split; [done|]. intros ???? (_ & _ & _ & _ & _ & _ & a & Ha & Hrun & _). injection Ha as <-. rewrite Er in Hrun. by injection Hrun. }
  destruct (encodeEvent _) as [raw|e] eqn:Ee.
  2:{ left. eexists _, _. split; [done|]. intros ???? (_ & _ & _ & _ & _ & _ & a & Ha & Hrun & Henc). injection Ha as <-. rewrite Er in Hrun.
      injection Hrun as <- <- <-. by rewrite Ee in Henc. }
  destruct (bd_event x) eqn:E1; [left; eexists _, _; split; [done|]; by intros ???? (_ & _ & _ & ? & _)|].
  destruct (bd_seq x) eqn:E2; [left; eexists _, _; split; [done|]; by intros ???? (_ & _ & _ & _ & ? & _)|].
  destruct (bd_commit x) eqn:E3; [left; eexists _, _; split; [done|]; by intros ???? (_ & _ & _ & _ & _ & ? & _)|].
  right. exists m', muts, d1, raw. split; [|done]. repeat split. by exists applier.
Qed.

Lemma committed_ok b op ctxErr x m' muts d1 raw :
  log_inv b → b_lastSeq b + 1 < 2 ^ 64 → appliers_ok b → accepts b op ctxErr x m' muts d1 raw →
  let seq := b_lastSeq b + 1 in let d' := committed_db b d1 raw in
  log_ok d' seq (if b_minSeq b =? 0 then seq else b_minSeq b) ∧
  d' !! eventKey seq = Some raw ∧ decodeEvent raw = Ok (mkLogEvent seq (OpType op) muts) ∧
  (∀ s, 1 ≤ s ≤ b_lastSeq b → d' !! eventKey s = b_db b !! eventKey s).
Proof.
  intros Hok Hlt Happ (_ & _ & _ & He & Hs & _ & applier & Ha & Hrun & Henc). cbv zeta.
  destruct (proposeTxn_ok x applier op (b_mem b) (b_db b) (b_lastSeq b) (b_minSeq b) muts (committed_db b d1 raw) m')
    as (Hok' & (raw' & Hraw & Hdec) & Hold); [done|done|by eapply Happ| |].
  { unfold proposeTxn. by rewrite Hrun, Henc, He, Hs. }
  assert (committed_db b d1 raw !! eventKey (b_lastSeq b + 1) = Some raw) as Hr.
  { unfold committed_db. rewrite lookup_insert_ne by (symmetry; apply eventKey_not_seqKey). by rewrite lookup_insert_eq. }
  rewrite Hr in Hraw. injection Hraw as <-. done.
Qed.

Lemma Propose_cases b op ctxErr x :
  log_inv b → b_lastSeq b + 1 < 2 ^ 64 → appliers_ok b →
  (∃ m' e, Propose OpType Marshal b op ctxErr x =
     (with_db b (b_db b) (b_lastSeq b) (b_minSeq b) m', Err e)) ∨
  (∃ m' muts d' raw, let seq := b_lastSeq b + 1 in let min := if b_minSeq b =? 0 then seq else b_minSeq b in
     b_closed b = false ∧
     Propose OpType Marshal b op ctxErr x =
       (publish (with_db b d' seq min m') (mkLogEvent seq (OpType op) muts), Ok seq) ∧
     log_ok d' seq min ∧ d' !! eventKey seq = Some raw ∧ decodeEvent raw = Ok (mkLogEvent seq (OpType op) muts) ∧
     (∀ s, 1 ≤ s ≤ b_lastSeq b → d' !! eventKey s = b_db b !! eventKey s)).
Proof.
  intros Hok Hlt Happ.
  destruct (Propose_spec b op ctxErr x Hok Hlt) as [(m' & e & H & _)|(m' & muts & d1 & raw & Hacc & H)]; [left; by exists m', e|right].
  exists m', muts, (committed_db b d1 raw), raw. split; [apply Hacc|]. split; [done|]. by eapply committed_ok.
Qed.

Lemma Propose_log_inv b op ctxErr x :
  log_inv b → b_lastSeq b + 1 < 2 ^ 64 → appliers_ok b →
  log_inv (Propose OpType Marshal b op ctxErr x).1 ∧ appliers_ok (Propose OpType Marshal b op ctxErr x).1.
Proof.
  intros Hok Hlt Happ.
  destruct (Propose_cases b op ctxErr x Hok Hlt Happ) as
    [(m' & e & ->)|(m' & muts & d' & raw & _ & -> & Hok' & _)]; [done|]. simpl.
  match goal with |- context [publish ?y ?e] => destruct (publish_log y e) as (Hd & _ & Hs & Hm & Ha & _) end.
  unfold log_inv, appliers_ok. by rewrite Hd, Hs, Hm, Ha.
Qed.

Lemma log_ok_empty : log_ok ∅ 0 0.
Proof.
  split; try done. intros s Hs1 Hs2. lia.
Qed.

(** C33: proposals are atomic and totally ordered.  A proposal succeeds exactly
    when the log is open, an applier is registered for its operation, the
    operation encodes, the context is alive, the applier returns mutations that
    encode and Badger accepts the event, the counter and the commit.  Then it
    takes the next sequence number; the database is the one the applier's run
    leaves, with the event (this sequence, this type, exactly the applier's
    mutations) under its own key and the counter; the earlier events are as
    they were, the log keeps its invariant, and that event is published.  A
    failed proposal, an applier error and a refused read or write of the
    applier included, changes neither the database nor the counters nor any
    watcher.  The log is one that satisfies its invariant, below 2^64 events,
    whose appliers return mutations that fit the framing. *)
Theorem Propose_atomic b op ctxErr x :
  log_inv b → b_lastSeq b + 1 < 2 ^ 64 → appliers_ok b →
  match Propose OpType Marshal b op ctxErr x with
  | (b', Ok seq) =>
      seq = b_lastSeq b + 1 ∧ b_lastSeq b' = seq ∧ log_inv b' ∧
      ∃ m' muts d1 raw, accepts b op ctxErr x m' muts d1 raw ∧ b_mem b' = m' ∧
        b_db b' = <[seqKey := PutUint64 seq]> (<[eventKey seq := raw]> d1) ∧
        decodeEvent raw = Ok (mkLogEvent seq (OpType op) muts) ∧
        (∀ s, 1 ≤ s ≤ b_lastSeq b → b_db b' !! eventKey s = b_db b !! eventKey s) ∧
        ∃ min, b' = publish (with_db b (b_db b') seq min m') (mkLogEvent seq (OpType op) muts)
  | (b', Err _) =>
      (∀ m' muts d1 raw, ¬ accepts b op ctxErr x m' muts d1 raw) ∧
      b_db b' = b_db b ∧ b_lastSeq b' = b_lastSeq b ∧ b_minSeq b' = b_minSeq b ∧
      b_chans b' = b_chans b ∧ b_subs b' = b_subs b
  end.
Proof.
  intros Hok Hlt Happ.
  destruct (Propose_spec b op ctxErr x Hok Hlt) as [(m' & e & -> & Hno)|(m' & muts & d1 & raw & Hacc & ->)]; [done|].
  destruct (committed_ok b op ctxErr x m' muts d1 raw Hok Hlt Happ Hacc) as (Hok' & Hraw & Hdec & Hold).
  match goal with |- context [publish ?y ?e] => destruct (publish_log y e) as (Hd & _ & Hs & Hm & _ & _ & Hmem) end.
  unfold log_inv. rewrite Hd, Hs, Hm. simpl. split_and!; try done. exists m', muts, d1, raw.
  split_and!; [done..|]. by eexists.
Qed.

(** ** Open *)

(** Recovery.  Opening a backend on the database another one left, at any
    point between its operations, finds the same counter and the same first
    retained event. *)
Theorem Open_recovers b b0 :
  log_inv b → b_db b0 = b_db b →
  ∃ b', Open b0 = Ok b' ∧ b_lastSeq b' = b_lastSeq b ∧ b_minSeq b' = b_minSeq b ∧ b_db b' = b_db b ∧ log_inv b'.
Proof.
  intros Hok Hd. unfold Open. rewrite Hd, (lo_seq _ _ _ Hok).
  rewrite (refreshMinSeq_spec _ _ _ Hok). destruct (lo_range _ _ _ Hok) as [Hr Hl].
  destruct (b_lastSeq b =? 0) eqn:E; bools.
  - eexists. split; [done|]. simpl. unfold log_inv in *. simpl. rewrite E in *. by rewrite ?Hd.
  - unfold PutUint64. replace (blen (be 8 (b_lastSeq b)) =? 8) with true by (unfold blen; by rewrite be_length).
    cbn [negb]. rewrite debe_be by (simpl; lia). eexists. split; [done|]. simpl.
    unfold log_inv in *. simpl. by rewrite ?Hd.
Qed.

(** ** Retention *)

(** [d'] is [d] without the events of a range. *)
Definition events_removed (d d' : db) (lo hi : Z) : Prop :=
  (∀ s, lo ≤ s < hi → d' !! eventKey s = None) ∧
  (∀ key, (∀ s, lo ≤ s < hi → key ≠ eventKey s) → d' !! key = d !! key).

Lemma events_removed_nil d lo hi : hi ≤ lo → events_removed d d lo hi.
Proof. intros. split; [lia|done]. Qed.

(** One batch removes a prefix of the retained range. *)
Lemma pruneBatch_spec n floor d0 last min a cnt d :
  log_ok d0 last min → 1 ≤ a → 0 ≤ cnt → a + cnt = last + 1 → floor ≤ last →
  let k := Z.to_nat (Z.min (Z.of_nat n) (Z.max 0 (floor - a))) in
  ∃ d', pruneBatch n floor (entry d0 <$> seqZ a cnt) d = Ok (k, d') ∧ events_removed d d' a (a + Z.of_nat k).
Proof.
  intros Hok. revert a cnt d. induction n as [|n IH]; intros a cnt d Ha Hc Hsum Hfl; cbv zeta.
  { replace (Z.to_nat _) with 0%nat by lia. exists d. split; [done|]. apply events_removed_nil. lia. }
  destruct (decide (cnt = 0)) as [->|Hc0].
  { rewrite seqZ_nil by lia. replace (Z.to_nat _) with 0%nat by lia. exists d. split; [done|].
    apply events_removed_nil. lia. }
  rewrite seqZ_cons by lia. rewrite fmap_cons. unfold entry at 1. cbn [pruneBatch].
  rewrite eventKey_length, Z.eqb_refl. cbn [negb].
  rewrite eventKey_seq by (apply (in_seq_range d0 last min Hok); lia).
  destruct (floor <=? a) eqn:E; bools.
  { replace (Z.to_nat _) with 0%nat by lia. exists d. split; [done|]. apply events_removed_nil. lia. }
  destruct (IH (Z.succ a) (Z.pred cnt) (delete (eventKey a) d)) as (d' & -> & Hgone & Hkeep); [lia..|].
  exists d'. split; [do 2 f_equal; lia|]. split.
  - intros s Hs. destruct (decide (s = a)) as [->|]; [|apply Hgone; lia].
    rewrite Hkeep; [apply lookup_delete_eq|]. intros t Ht Heq.
    apply eventKey_inj in Heq; [lia|apply (in_seq_range d0 last min Hok); lia..].
  - intros key Hkey. rewrite Hkeep by (intros s Hs; apply Hkey; lia).
    apply lookup_delete_ne. intros Heq. apply (Hkey a); [lia|done].
Qed.

(** Removing the oldest events keeps the invariant. *)
Lemma log_ok_removed d d' last min min' :
  log_ok d last min → 1 ≤ min → min ≤ min' ≤ last → events_removed d d' min min' → log_ok d' last min'.
Proof.
  intros Hok Hmin Hm' [Hgone Hkeep]. destruct (lo_range _ _ _ Hok) as [Hr Hl]. split.
  - lia.
  - lia.
  - rewrite Hkeep; [apply (lo_seq _ _ _ Hok)|]. intros s _ Heq. by apply (eventKey_not_seqKey s).
  - intros k v Hk Hp. assert (d !! k = Some v) as Hd.
    { rewrite <- Hk. symmetry. apply Hkeep. intros s Hs ->. by rewrite Hgone in Hk. }
    destruct (lo_events _ _ _ Hok k v Hd Hp) as (s & ev & -> & ? & ? & ? & ?). exists s, ev.
    split_and!; try done; try lia. destruct (decide (s < min')); [|lia]. by rewrite Hgone in Hk by lia.
  - intros s Hs1 Hs2. rewrite Hkeep; [apply (lo_present _ _ _ Hok); lia|].
    intros t Ht Heq. apply eventKey_inj in Heq; [lia|apply (in_seq_range d last min Hok); lia..].
Qed.

Lemma events_removed_trans d d1 d2 a m c :
  a ≤ m ≤ c → events_removed d d1 a m → events_removed d1 d2 m c → 1 ≤ a → c ≤ 2 ^ 64 → events_removed d d2 a c.
Proof.
  intros Hle [Hg1 Hk1] [Hg2 Hk2] Ha Hc. split.
  - intros s Hs. destruct (decide (m ≤ s)); [apply Hg2; lia|]. rewrite Hk2; [apply Hg1; lia|].
    intros t Ht Heq. apply eventKey_inj in Heq; [lia|unfold seq_range; lia..].
  - intros key Hkey. rewrite Hk2, Hk1; [done| |]; intros s Hs; apply Hkey; lia.
Qed.

(** The loop removes everything below the floor, given a round per event. *)
Lemma pruneLoop_spec fuel floor d last min :
  log_ok d last min → 1 ≤ min → floor ≤ last → (Z.to_nat (floor - min) < fuel)%nat →
  ∃ d', pruneLoop fuel floor d = (d', Ok tt) ∧ events_removed d d' min (Z.max min floor) ∧
        log_ok d' last (Z.max min floor).
Proof.
  revert d min. induction fuel as [|fuel IH]; intros d min Hok Hmin Hfl Hfuel; [lia|]. cbn [pruneLoop].
  destruct (lo_range _ _ _ Hok) as [Hr Hl]. rewrite (scan_all d last min Hok).
  replace (Z.max 1 min) with min by lia.
  destruct (pruneBatch_spec batchSize floor d last min min (last + 1 - min) d) as (d' & -> & Hrm); [done|lia..|].
  set (k := Z.to_nat (_ `min` _)%Z) in *. unfold batchSize in *. case_bool_decide as Hk.
  - exists d'. split; [done|]. replace (min + Z.of_nat k) with (Z.max min floor) in Hrm by lia.
    split; [done|]. eapply log_ok_removed; [done|done| |done]. lia.
  - assert (Hk' : k = 1024%nat) by lia.
    assert (Hok' : log_ok d' last (min + 1024)).
    { replace (min + Z.of_nat k) with (min + 1024) in Hrm by lia. eapply log_ok_removed; [done|done|lia|done]. }
    destruct (IH d' (min + 1024)) as (d2 & Heq & Hrm2 & Hok2); [done|lia|lia|lia|].
    exists d2. split; [done|]. replace (Z.max (min + 1024) floor) with (Z.max min floor) in * by lia.
    split; [|done]. eapply events_removed_trans; [|exact Hrm| |lia|lia]; [lia|].
    by replace (min + Z.of_nat k) with (min + 1024) by lia.
Qed.

(** The database has a key for every retained event. *)
Lemma log_ok_size d last min : log_ok d last min → 1 ≤ min → last + 1 - min ≤ Z.of_nat (size d).
Proof.
  intros Hok Hmin. destruct (lo_range _ _ _ Hok) as [Hr Hl].
  assert (Hsub : (entry d <$> seqZ min (last + 1 - min)) ⊆+ map_to_list d).
  { apply NoDup_submseteq.
    - apply NoDup_fmap_2_strong; [|apply NoDup_seqZ].
      intros s t Hs%elem_of_seqZ Ht%elem_of_seqZ Heq%(f_equal fst). cbn [fst entry] in Heq.
      eapply eventKey_inj; [apply (in_seq_range d last min Hok)..|exact Heq]; lia.
    - intros kv (s & -> & Hs%elem_of_seqZ)%list_elem_of_fmap. unfold entry.
      destruct (lo_present _ _ _ Hok s) as [v Hv]; [lia|lia|]. rewrite Hv. by apply elem_of_map_to_list. }
  apply submseteq_length in Hsub. rewrite length_fmap, length_seqZ, length_map_to_list in Hsub.
  lia.
Qed.

(** Where a sweep leaves the start of the log. *)
Definition prune_floor b : Z :=
  let keep := o_RetentionMaxEvents (b_opts b) in
  if (0 <? keep) && (keep <? b_lastSeq b) then Z.max (b_minSeq b) (b_lastSeq b - keep + 1) else b_minSeq b.

Lemma events_below d last min s : log_ok d last min → 1 ≤ s < min → d !! eventKey s = None.
Proof.
  intros Hok Hs. destruct (d !! eventKey s) as [v|] eqn:E; [|done]. destruct (lo_range _ _ _ Hok).
  destruct (lo_events _ _ _ Hok _ v E (eventKey_prefix s)) as (t & _ & Heq & ? & ? & _).
  apply eventKey_inj in Heq; [lia|unfold seq_range; lia..].
Qed.

Lemma pruneOnce_spec b :
  log_inv b →
  ∃ d', pruneOnce b = (with_db b d' (b_lastSeq b) (prune_floor b) (b_mem b), Ok tt) ∧
    log_ok d' (b_lastSeq b) (prune_floor b) ∧
    (∀ s, prune_floor b ≤ s → 1 ≤ s ≤ b_lastSeq b → d' !! eventKey s = b_db b !! eventKey s) ∧
    (∀ k, HasPrefix k eventKeyPrefix = false → d' !! k = b_db b !! k).
Proof.
  intros Hok. unfold pruneOnce, prune_floor. destruct (lo_range _ _ _ Hok) as [Hr Hl].
  pose proof (lo_zero _ _ _ Hok) as Hz. set (keep := o_RetentionMaxEvents (b_opts b)).
  assert (Hsame : ∃ d', (b, @Ok LogError _ tt) = (with_db b d' (b_lastSeq b) (b_minSeq b) (b_mem b), Ok tt) ∧
    log_ok d' (b_lastSeq b) (b_minSeq b) ∧
    (∀ s, b_minSeq b ≤ s → 1 ≤ s ≤ b_lastSeq b → d' !! eventKey s = b_db b !! eventKey s) ∧
    (∀ k, HasPrefix k eventKeyPrefix = false → d' !! k = b_db b !! k)).
  { exists (b_db b). by rewrite with_db_id. }
  destruct (b_lastSeq b =? 0) eqn:E0; bools.
  { replace ((0 <? keep) && (keep <? b_lastSeq b)) with false; [done|]. destruct (0 <? keep) eqn:Ek; bools; simpl; lia. }
  destruct ((0 <? keep) && _) eqn:Ek; bools; [|done].
  set (floor := b_lastSeq b - keep + 1).
  assert (1 ≤ b_minSeq b) by lia. pose proof (log_ok_size _ _ _ Hok ltac:(lia)).
  destruct (pruneLoop_spec (S (size (b_db b))) floor (b_db b) (b_lastSeq b) (b_minSeq b)) as (d' & -> & [Hgone Hkeep] & Hok');
    [done|lia|unfold floor; lia|unfold floor; lia|].
  rewrite (refreshMinSeq_spec _ _ _ Hok'). exists d'. split_and!; try done.
  2: { intros k Hk. apply Hkeep. intros t _ ->. by rewrite eventKey_prefix in Hk. }
  intros s Hs1 Hs2. apply Hkeep. intros t Ht Heq. apply eventKey_inj in Heq; [lia|unfold seq_range; lia..].
Qed.

(** Retention.  A sweep keeps the newest [RetentionMaxEvents] events, and
    everything when there are fewer; what it removes is the oldest part of the
    log, which stays contiguous up to the head. *)
Theorem pruneOnce_keeps_newest b :
  log_inv b →
  let keep := o_RetentionMaxEvents (b_opts b) in
  let min' := if (0 <? keep) && (keep <? b_lastSeq b) then Z.max (b_minSeq b) (b_lastSeq b - keep + 1) else b_minSeq b in
  ∃ b', pruneOnce b = (b', Ok tt) ∧ b_minSeq b' = min' ∧ b_lastSeq b' = b_lastSeq b ∧ log_inv b' ∧
    (∀ s, min' ≤ s → 1 ≤ s ≤ b_lastSeq b → b_db b' !! eventKey s = b_db b !! eventKey s) ∧
    (∀ s, 1 ≤ s < min' → b_db b' !! eventKey s = None).
Proof.
  intros Hok. cbv zeta. destruct (pruneOnce_spec b Hok) as (d' & -> & Hok' & Hkeep & _).
  eexists. split; [done|]. split_and!; try done. intros s Hs. by apply (events_below d' (b_lastSeq b) (prune_floor b)).
Qed.
End Log.

(** ** A sample backend: one op type, writing one key *)

Definition sampleType (op : bool) : bytes := bytes_of "put".
Definition sampleMarshal (op : bool) : result string bytes := Ok (if op then [1] else [0]).
Definition sampleApplier : Applier unit bool := λ op m,
  let payload := if op then [1] else [0] in
  TSet (bytes_of "demo/key") payload (λ r, TRet (m,
    match r with
    | Ok _ => Ok [mkMutation MutationPut (bytes_of "demo") [] (bytes_of "key") payload]
    | Err e => Err e
    end)).

Definition sampleBackend (buffer keep : Z) : Backend unit bool :=
  match Register (NewBadgerBackend ∅ (mkOptions buffer 0 keep 0) tt) (bytes_of "put") sampleApplier with
  | Ok b => b
  | Err _ => NewBadgerBackend ∅ (mkOptions buffer 0 keep 0) tt
  end.

Definition samplePropose (op : bool) (b : Backend unit bool) : Backend unit bool :=
  (Propose sampleType sampleMarshal b op None accepting).1.

Lemma sampleApplier_ok : applier_ok sampleApplier.
Proof.
  intros x op m d muts H. unfold sampleApplier in H. cbn [run_txn] in H.
  change (HasPrefix (bytes_of "demo/key") keyPrefix) with false in H. cbv iota in H.
  destruct (hd None (bd_writes x)) as [e|]; [discriminate|]. cbn in H. injection H as <-.
  apply Forall_cons. split; [|apply Forall_nil; exact I]. destruct op; split; vm_compute; intuition congruence.
Qed.

Lemma sampleBackend_ok buffer keep : log_inv (sampleBackend buffer keep) ∧ appliers_ok (sampleBackend buffer keep).
Proof.
  split; [apply log_ok_empty|]. intros t a H.
  change (({[bytes_of "put" := sampleApplier]} : gmap bytes (Applier unit bool)) !! t = Some a) in H.
  apply lookup_singleton_Some in H as [_ <-]. apply sampleApplier_ok.
Qed.

Lemma samplePropose_ok op b :
  log_inv b ∧ appliers_ok b → b_lastSeq b + 1 < 2 ^ 64 → log_inv (samplePropose op b) ∧ appliers_ok (samplePropose op b).
Proof. intros [? ?] ?. by apply Propose_log_inv. Qed.

(** Three events, of which two are to be retained. *)
Definition sampleLog : Backend unit bool :=
  samplePropose true (samplePropose false (samplePropose true (sampleBackend 2 2))).

Lemma sampleLog_ok : log_inv sampleLog ∧ appliers_ok sampleLog.
Proof. do 3 (apply samplePropose_ok; [|vm_compute; reflexivity]). apply sampleBackend_ok. Qed.

(** The fourth proposal writes the applier's key and an event that says so;
    the same proposal with that write refused changes nothing. *)
Lemma Propose_atomic_witness :
  match Propose sampleType sampleMarshal sampleLog true None accepting with
  | (b', Ok seq) => seq = 4 ∧ log_inv b' ∧ b_db b' !! bytes_of "demo/key" = Some [1] ∧
      ∃ raw, b_db b' !! eventKey 4 = Some raw ∧
        decodeEvent raw = Ok (mkLogEvent 4 (bytes_of "put") [mkMutation MutationPut (bytes_of "demo") [] (bytes_of "key") [1]])
  | (_, Err _) => False
  end ∧
  match Propose sampleType sampleMarshal sampleLog true None (mkBadger [] [Some "txn too big"] None None None) with
  | (b', Ok _) => False
  | (b', Err _) => b_db b' = b_db sampleLog ∧ b_lastSeq b' = 3
  end.
Proof.
  pose proof (λ x, Propose_atomic sampleType sampleMarshal sampleLog true None x (proj1 sampleLog_ok)
    ltac:(vm_compute; reflexivity) (proj2 sampleLog_ok)) as H.
  assert (Hrun : ∀ a, b_appliers sampleLog !! sampleType true = Some a → a = sampleApplier).
  { intros a Ha. vm_compute in Ha. injection Ha as <-. reflexivity. }
  split.
  - assert (H2 : (Propose sampleType sampleMarshal sampleLog true None accepting).2 = Ok 4) by (vm_compute; reflexivity).
    specialize (H accepting). destruct (Propose _ _ _ _ _ _) as [b' [s|e]]; simpl in H2; [|discriminate].
    apply Ok_inj in H2 as ->. destruct H as (_ & _ & Hi & m' & muts & d1 & raw & Hacc & _ & Hdb & Hdec & _).
    destruct Hacc as (_ & _ & _ & _ & _ & _ & a & Ha & Hr & _). rewrite (Hrun a Ha) in Hr.
    assert (Hm : muts = [mkMutation MutationPut (bytes_of "demo") [] (bytes_of "key") [1]] ∧
                 d1 = <[bytes_of "demo/key" := [1]]> (b_db sampleLog)).
    { unfold sampleApplier in Hr. cbn [run_txn] in Hr. change (HasPrefix (bytes_of "demo/key") keyPrefix) with false in Hr.
      cbn in Hr. injection Hr as _ <- <-. done. }
    destruct Hm as [Hm Hd1].
    split; [reflexivity|]. split; [exact Hi|]. rewrite Hdb, Hd1. split.
    + do 2 rewrite lookup_insert_ne by (vm_compute; discriminate). by rewrite lookup_insert_eq.
    + exists raw. split; [|by rewrite <-Hm]. rewrite lookup_insert_ne by (vm_compute; discriminate). by rewrite lookup_insert_eq.
  - specialize (H (mkBadger [] [Some "txn too big"] None None None)).
    assert (H2 : is_ok (Propose sampleType sampleMarshal sampleLog true None (mkBadger [] [Some "txn too big"] None None None)).2 = false)
      by (vm_compute; reflexivity).
    destruct (Propose _ _ _ _ _ _) as [b' [s|e]]; simpl in H2; [discriminate|].
    destruct H as (_ & Hd & Hs & _). split; [exact Hd|]. rewrite Hs. vm_compute. reflexivity.
Defined.

Lemma Open_recovers_witness :
  ∃ b', Open (NewBadgerBackend (b_db sampleLog) (mkOptions 0 0 0 0) tt : Backend unit bool) = Ok b' ∧
    b_lastSeq b' = 3 ∧ b_minSeq b' = 1.
Proof.
  destruct (Open_recovers sampleLog (NewBadgerBackend (b_db sampleLog) (mkOptions 0 0 0 0) tt) (proj1 sampleLog_ok) eq_refl)
    as (b' & H1 & H2 & H3 & _).
  exists b'. split; [exact H1|]. split; [rewrite H2|rewrite H3]; vm_compute; reflexivity.
Defined.

Lemma pruneOnce_keeps_newest_witness :
  ∃ b', pruneOnce sampleLog = (b', Ok tt) ∧ b_minSeq b' = 2 ∧ b_db b' !! eventKey 1 = None.
Proof.
  destruct (pruneOnce_keeps_newest sampleLog (proj1 sampleLog_ok)) as (b' & H1 & H2 & _ & _ & _ & H3).
  exists b'. split; [exact H1|]. split; [rewrite H2; vm_compute; reflexivity|].
  apply H3. split; [vm_compute; congruence|vm_compute; reflexivity].
Defined.
