(* ===== verification/WatchProps.v ===== *)
(** * Watchers: what a subscription delivers

    The backend's operations as steps, and the channel of one subscription
    followed through any interleaving of them. *)

From S2P Require Import Prelude EventCodec OrderedLog OrderedLogProps.

#[local] Arguments lex _ _ : simpl never.
#[local] Arguments eventKey _ : simpl never.
#[local] Arguments HasPrefix _ _ : simpl never.
#[local] Arguments PutUint64 _ : simpl never.

Section Watchers.
Context {M Op : Type} (OpType : Op → bytes) (Marshal : Op → result string bytes).
Implicit Types b : Backend M Op.

(** Everything that runs against an open backend, in any order. *)
Inductive log_step : Backend M Op → Backend M Op → Prop :=
| step_propose b op ctxErr x :
    b_lastSeq b + 1 < 2 ^ 64 → log_step b (Propose OpType Marshal b op ctxErr x).1
| step_watch b from : log_step b (Watch b from).1
| step_goroutine b id : log_step b (watchGoroutine b id)
| step_receive b id : log_step b (receive b id)
| step_prune b : log_step b (pruneOnce b).1
| step_close b : log_step b (Close b).

(** ** Subscriptions name channels *)

Definition subs_ok b : Prop :=
  (b_subs b = None → b_closed b = true) ∧
  (∀ l, b_subs b = Some l → NoDup l ∧ ∀ x, x ∈ l → (x < length (b_chans b))%nat).

(** What channel [id], subscribed from [from], has been sent so far. *)
Record sent_ok b (id : nat) (from : Z) (c : channel) : Prop := {
  so_seqs : ev_Seq <$> ch_sent c = seqZ (from + 1) (ch_from c - from);
  so_from : 0 ≤ from ≤ ch_from c ∧ ch_from c ≤ b_lastSeq b;
  so_open : ch_closed c = false → ch_from c = b_lastSeq b ∧ ∀ l, b_subs b = Some l → id ∈ l;
  so_events : ∀ ev raw, ev ∈ ch_sent c → b_db b !! eventKey (ev_Seq ev) = Some raw → decodeEvent raw = Ok ev;
}.

Definition watch_inv (id : nat) (from : Z) b : Prop :=
  log_inv b ∧ appliers_ok b ∧ subs_ok b ∧ ∃ c, b_chans b !! id = Some c ∧ sent_ok b id from c.

Lemma sent_range b id from c ev : sent_ok b id from c → ev ∈ ch_sent c → 1 ≤ ev_Seq ev ≤ ch_from c.
Proof.
  intros Hs Hev. destruct (so_from _ _ _ _ Hs). assert (ev_Seq ev ∈ ev_Seq <$> ch_sent c) as Hin by (by apply list_elem_of_fmap_2).
  rewrite (so_seqs _ _ _ _ Hs), elem_of_seqZ in Hin. lia.
Qed.

(** ** Publishing *)

Lemma removeSub_other b id id' : id ≠ id' → b_chans (removeSub b id) !! id' = b_chans b !! id'.
Proof. intros. unfold removeSub. repeat case_match; simpl; try done; by rewrite list_lookup_insert_ne. Qed.

Lemma removeSub_length b id : length (b_chans (removeSub b id)) = length (b_chans b).
Proof. unfold removeSub. repeat case_match; simpl; try done; by rewrite length_insert. Qed.

Lemma removeSub_subs b id l :
  b_subs b = Some l → ∃ l', b_subs (removeSub b id) = Some l' ∧ l' `sublist_of` l ∧ (∀ x, x ≠ id → x ∈ l → x ∈ l').
Proof.
  intros Hl. unfold removeSub. rewrite Hl.
  assert (Hf : ∀ x, x ≠ id → x ∈ l → x ∈ List.filter (λ x, negb (Nat.eqb x id)) l).
  { intros x Hx Hin. apply elem_of_filterb. split; [|done]. apply negb_true_iff. by apply Nat.eqb_neq. }
  assert (List.filter (λ x, negb (Nat.eqb x id)) l `sublist_of` l) by auto with rune.
  repeat case_match; simpl; eauto.
Qed.

Lemma publishTo_other b ev id id' : id ≠ id' → b_chans (publishTo b ev id) !! id' = b_chans b !! id'.
Proof.
  intros. unfold publishTo. repeat case_match; simpl; try done; [by rewrite list_lookup_insert_ne|by apply removeSub_other].
Qed.

Lemma publishTo_length b ev id : length (b_chans (publishTo b ev id)) = length (b_chans b).
Proof. unfold publishTo. repeat case_match; simpl; try done; [by rewrite length_insert|apply removeSub_length]. Qed.

Lemma publishTo_subs b ev id l :
  b_subs b = Some l →
  ∃ l', b_subs (publishTo b ev id) = Some l' ∧ l' `sublist_of` l ∧ (∀ x, x ≠ id → x ∈ l → x ∈ l').
Proof. intros Hl. unfold publishTo. repeat case_match; simpl; eauto. by apply removeSub_subs. Qed.

(** What one delivery makes of an open channel: sent, or dropped and closed. *)
Definition delivered (buffer : Z) (c : channel) (ev : Event) : channel :=
  if Z.of_nat (length (ch_sent c) - ch_recv c) <? buffer
  then mkChannel (ch_sent c ++ [ev]) (ch_recv c) (ev_Seq ev) false (ch_goroutine c)
  else mkChannel (ch_sent c) (ch_recv c) (ch_from c) true (ch_goroutine c).

Lemma publishTo_self b ev id c :
  b_chans b !! id = Some c → ch_closed c = false →
  let c' := delivered (o_WatchBuffer (b_opts b)) c ev in
  b_chans (publishTo b ev id) !! id = Some c' ∧
  (ch_closed c' = false → b_subs (publishTo b ev id) = b_subs b).
Proof.
  intros Hc Hcl. unfold publishTo, delivered. rewrite Hc. unfold deliver. rewrite Hcl.
  pose proof (lookup_lt_Some _ _ _ Hc). destruct (_ <? _).
  - simpl. by rewrite list_lookup_insert_eq.
  - unfold removeSub. rewrite Hc, Hcl. simpl. by rewrite list_lookup_insert_eq.
Qed.

Lemma publish_fold_log ids b ev : same_log b (fold_left (λ b id, publishTo b ev id) ids b).
Proof.
  revert b. induction ids as [|i ids IH]; intros b; simpl; [done|].
  eapply same_log_trans; [apply publishTo_log|apply IH].
Qed.

(** The deliveries of one event to a list of subscriptions without [id]. *)
Lemma publish_others ids b ev id :
  id ∉ ids → b_chans (fold_left (λ b id, publishTo b ev id) ids b) !! id = b_chans b !! id.
Proof.
  revert b. induction ids as [|i ids IH]; intros b Hn; simpl; [done|].
  rewrite IH by set_solver. apply publishTo_other. set_solver.
Qed.

Lemma publish_subs ids b ev l :
  b_subs b = Some l →
  let b' := fold_left (λ b id, publishTo b ev id) ids b in
  length (b_chans b') = length (b_chans b) ∧
  ∃ l', b_subs b' = Some l' ∧ l' `sublist_of` l ∧ (∀ x, x ∉ ids → x ∈ l → x ∈ l').
Proof.
  revert b l. induction ids as [|i ids IH]; intros b l Hl; simpl.
  { split; [done|]. exists l. done. }
  destruct (publishTo_subs b ev i l Hl) as (l1 & Hl1 & Hsub1 & Hin1).
  destruct (IH _ l1 Hl1) as (Hlen & l2 & Hl2 & Hsub2 & Hin2). split; [by rewrite Hlen, publishTo_length|].
  exists l2. split; [done|]. split; [by etrans|]. intros x Hx Hxl. apply Hin2; [set_solver|]. apply Hin1; set_solver.
Qed.

Lemma publish_subs_ok b ev : subs_ok b → subs_ok (publish b ev).
Proof.
  intros Hok. unfold publish. destruct (b_subs b) as [ids|] eqn:E; [|done]. destruct Hok as [Hn Hs].
  destruct (Hs ids E) as [Hnd Hlt]. destruct (publish_subs ids b ev ids E) as (Hlen & l' & Hl' & Hsub & _).
  split; [by rewrite Hl'|]. intros l Hl. rewrite Hl' in Hl. injection Hl as <-. split; [by eapply sublist_NoDup|].
  intros x Hx. rewrite Hlen. apply Hlt. apply sublist_subseteq in Hsub. set_solver.
Qed.

(** A subscription that is live sees every published event once, or is closed. *)
Lemma publish_self b ev id c l :
  b_subs b = Some l → NoDup l → id ∈ l → b_chans b !! id = Some c → ch_closed c = false →
  let c' := delivered (o_WatchBuffer (b_opts b)) c ev in
  b_chans (publish b ev) !! id = Some c' ∧
  (ch_closed c' = false → ∀ l', b_subs (publish b ev) = Some l' → id ∈ l').
Proof.
  intros Hl Hnd Hin Hc Hcl. cbv zeta. unfold publish. rewrite Hl.
  destruct (list_elem_of_split l id Hin) as (l1 & l2 & ->).
  apply NoDup_app in Hnd as (_ & Hn1 & Hn2%NoDup_cons). destruct Hn2 as [Hn2 _].
  assert (id ∉ l1) as Hn by (intros H; apply (Hn1 id H); set_solver). clear Hn1 Hin.
  rewrite fold_left_app. cbn [fold_left]. set (b1 := fold_left _ l1 b).
  destruct (publish_subs l1 b ev _ Hl) as (_ & m1 & Hm1 & _ & Hkeep1). fold b1 in Hm1.
  assert (Hc1 : b_chans b1 !! id = Some c) by (unfold b1; by rewrite publish_others).
  assert (b_opts b1 = b_opts b) as <- by apply publish_fold_log.
  destruct (publishTo_self b1 ev id c Hc1 Hcl) as [Hc' Hs].
  split; [by rewrite publish_others|]. intros H l' Hl'. specialize (Hs H). rewrite Hm1 in Hs.
  destruct (publish_subs l2 _ ev m1 Hs) as (_ & m2 & Hm2 & _ & Hkeep2). rewrite Hm2 in Hl'. injection Hl' as <-.
  apply Hkeep2; [done|]. apply Hkeep1; [done|set_solver].
Qed.

Lemma publish_closed b ev id c :
  b_chans b !! id = Some c → ch_closed c = true → b_chans (publish b ev) !! id = Some c.
Proof.
  intros Hc Hcl. unfold publish. destruct (b_subs b) as [ids|]; [|done]. revert b Hc.
  induction ids as [|i ids IH]; intros b Hc; simpl; [done|]. apply IH.
  destruct (decide (i = id)) as [->|]; [|by rewrite publishTo_other]. unfold publishTo, deliver. by rewrite Hc, Hcl.
Qed.

(** ** Every step keeps the watcher's invariant *)

(** The channel may be closed or received from, the rest of the backend may
    change its other subscriptions. *)
Lemma sent_ok_frame b b' id from c c' :
  sent_ok b id from c →
  b_lastSeq b' = b_lastSeq b → b_db b' = b_db b →
  ch_sent c' = ch_sent c → ch_from c' = ch_from c →
  (ch_closed c' = false → ch_closed c = false ∧ ∀ l', b_subs b' = Some l' → ∃ l, b_subs b = Some l ∧ (id ∈ l → id ∈ l')) →
  sent_ok b' id from c'.
Proof.
  intros [Hseq Hfrom Hopen Hev] El Ed Es Ef Hc. split; rewrite ?El, ?Ed, ?Es, ?Ef; try done.
  intros H. destruct (Hc H) as [Hcl Hsub]. destruct (Hopen Hcl) as [? Hin]. split; [done|].
  intros l' Hl'. destruct (Hsub l' Hl') as (l & Hl & Hi). by apply Hi, Hin.
Qed.

Lemma removeSub_self b id c :
  b_chans b !! id = Some c →
  ∃ c', b_chans (removeSub b id) !! id = Some c' ∧ ch_closed c' = true ∧ ch_sent c' = ch_sent c ∧ ch_from c' = ch_from c.
Proof.
  intros Hc. unfold removeSub. rewrite Hc. pose proof (lookup_lt_Some _ _ _ Hc).
  destruct (ch_closed c) eqn:E; simpl; [by exists c|]. rewrite list_lookup_insert_eq by done. by eexists.
Qed.

Lemma removeSub_subs_ok b id : subs_ok b → subs_ok (removeSub b id).
Proof.
  intros [Hn Hs]. destruct (b_subs b) as [l|] eqn:E.
  - destruct (removeSub_subs b id l E) as (l' & Hl' & Hsub & _). destruct (Hs l eq_refl) as [Hnd Hlt].
    split; [by rewrite Hl'|]. intros k Hk. rewrite Hl' in Hk. injection Hk as <-.
    split; [exact (sublist_NoDup _ _ Hnd Hsub)|]. intros x Hx. rewrite removeSub_length. apply Hlt.
    apply sublist_subseteq in Hsub. set_solver.
  - unfold subs_ok, removeSub. rewrite E. repeat case_match; simpl; rewrite ?E; split; try done; intros; by apply Hn.
Qed.

Lemma same_log_inv b b' : same_log b b' → log_inv b → log_inv b'.
Proof. intros (Hd & _ & Hs & Hm & _). unfold log_inv. by rewrite Hd, Hs, Hm. Qed.

Lemma same_log_appliers b b' : same_log b b' → appliers_ok b → appliers_ok b'.
Proof. intros (_ & _ & _ & _ & Ha & _). unfold appliers_ok. by rewrite Ha. Qed.

Lemma propose_watch b op ctxErr x id from :
  b_lastSeq b + 1 < 2 ^ 64 → watch_inv id from b → watch_inv id from (Propose OpType Marshal b op ctxErr x).1.
Proof.
  intros Hlt (Hlog & Happ & Hsubs & c & Hc & Hs).
  destruct (Propose_cases OpType Marshal b op ctxErr x Hlog Hlt Happ) as
    [(m' & e & ->)|(m' & muts & d' & raw & Hcl & -> & Hok' & Hraw & Hdec & Hold)]; simpl.
  { split_and!; try done. exists c. split; [done|]. eapply sent_ok_frame; try done. intros ?. split; [done|]. by eexists. }
  set (ev := mkLogEvent _ _ muts) in *. set (b1 := with_db b d' _ _ m').
  destruct (publish_log b1 ev) as (Hd & _ & Hl & Hm & Ha & _).
  split_and!.
  - unfold log_inv. by rewrite Hd, Hl, Hm.
  - unfold appliers_ok. by rewrite Ha.
  - by apply publish_subs_ok.
  - destruct (so_from _ _ _ _ Hs) as [? ?].
    assert (Hev : ∀ e raw, e ∈ ch_sent c → d' !! eventKey (ev_Seq e) = Some raw → decodeEvent raw = Ok e).
    { intros e r He. pose proof (sent_range _ _ _ _ _ Hs He). rewrite Hold by lia. by apply (so_events _ _ _ _ Hs). }
    destruct (ch_closed c) eqn:Ecl.
    + exists c. split; [by apply publish_closed|].
      split; rewrite ?Hd, ?Hl; simpl; [apply (so_seqs _ _ _ _ Hs)|lia|by rewrite Ecl|done].
    + destruct (so_open _ _ _ _ Hs Ecl) as [Hlast Hin]. destruct (b_subs b) as [l|] eqn:El; [|by rewrite (proj1 Hsubs El) in Hcl].
      destruct (proj2 Hsubs l El) as [Hnd _].
      destruct (publish_self b1 ev id c l El Hnd (Hin l eq_refl) Hc Ecl) as [Hc' Hin'].
      eexists. split; [exact Hc'|]. revert Hin'. unfold delivered. destruct (_ <? _); simpl; intros Hin'.
      * split; rewrite ?Hd, ?Hl; simpl.
        -- rewrite fmap_app, (so_seqs _ _ _ _ Hs), Hlast. simpl.
           replace (b_lastSeq b + 1 - from) with (b_lastSeq b - from + 1) by lia.
           rewrite seqZ_app by lia. f_equal. unfold seqZ. simpl. f_equal. lia.
        -- lia.
        -- intros _. split; [done|]. by apply Hin'.
        -- intros e r [He|He]%elem_of_app Hr; [by apply (Hev e r)|]. apply list_elem_of_singleton in He as ->.
           simpl in Hr. rewrite Hraw in Hr. by injection Hr as <-.
      * split; rewrite ?Hd, ?Hl; simpl; [apply (so_seqs _ _ _ _ Hs)|lia|done|done].
Qed.

(** A fresh channel joins the subscriptions. *)
Lemma subs_ok_snoc b c l :
  subs_ok b → b_subs b = Some l →
  subs_ok (with_chans b (b_chans b ++ [c]) (Some (l ++ [length (b_chans b)])) (b_panic b)).
Proof.
  intros [Hn Hsubs] Hl. destruct (Hsubs l Hl) as [Hnd Hlt]. split; [done|].
  simpl. intros ? [= <-]. rewrite length_app. simpl. split.
  - apply NoDup_app. split_and!; [done| |apply NoDup_singleton].
    intros x Hx Hx'%list_elem_of_singleton. specialize (Hlt x Hx). lia.
  - intros x [Hx|Hx]%elem_of_app; [specialize (Hlt x Hx); lia|]. apply list_elem_of_singleton in Hx. lia.
Qed.

Lemma Watch_log b from : same_log b (Watch b from).1.
Proof. unfold Watch. repeat case_match; try done. Qed.

Lemma watch_watch b from' id from : watch_inv id from b → watch_inv id from (Watch b from').1.
Proof.
  intros Hinv. unfold Watch. destruct (b_closed b) eqn:Ecl; [done|]. destruct (_ && _); [done|].
  destruct (backfill b _) as [c1|]; [|done]. destruct (b_subs b) as [l|] eqn:El; [|done]. simpl.
  destruct Hinv as (Hlog & Happ & Hsubs & c & Hc & Hs). split_and!; try done.
  - by apply subs_ok_snoc.
  - exists c. simpl. split; [by apply lookup_app_l_Some|]. eapply sent_ok_frame; try done.
    intros ?. split; [done|]. simpl. intros ? [= <-]. exists l. split; [done|]. set_solver.
Qed.

Lemma goroutine_watch b id' id from : watch_inv id from b → watch_inv id from (watchGoroutine b id').
Proof.
  intros Hinv. unfold watchGoroutine. destruct (b_chans b !! id') as [k|] eqn:Ek; [|done].
  destruct (ch_goroutine k); [|done]. set (b1 := with_chans b _ _ _).
  destruct Hinv as (Hlog & Happ & [Hn Hsubs] & c & Hc & Hs).
  pose proof (lookup_lt_Some _ _ _ Ek) as Hlt.
  assert (Hl : same_log b (removeSub b1 id')) by (eapply same_log_trans; [apply with_chans_log|apply removeSub_log]).
  assert (Hs1 : subs_ok b1).
  { split; [done|]. simpl. intros l Hl'. destruct (Hsubs l Hl') as [? Hx]. split; [done|]. by rewrite length_insert. }
  split_and!; [by eapply same_log_inv|by eapply same_log_appliers|by apply removeSub_subs_ok|].
  destruct Hl as (Hd & _ & Hls & _).
  destruct (decide (id' = id)) as [->|Hne].
  - rewrite Hc in Ek. injection Ek as <-.
    destruct (removeSub_self b1 id (mkChannel (ch_sent c) (ch_recv c) (ch_from c) (ch_closed c) false)) as (c' & Hc' & Hcl & ? & ?).
    { simpl. by rewrite list_lookup_insert_eq. }
    exists c'. split; [done|]. eapply sent_ok_frame; try done. by rewrite Hcl.
  - exists c. rewrite removeSub_other by done. simpl. rewrite list_lookup_insert_ne by done. split; [done|].
    eapply sent_ok_frame; try done. intros ?. split; [done|]. intros l' Hl'.
    destruct (b_subs b) as [l|] eqn:El.
    + exists l. split; [done|]. destruct (removeSub_subs b1 id' l eq_refl) as (l1 & Hl1 & _ & Hk).
      rewrite Hl1 in Hl'. injection Hl' as <-. by apply Hk.
    + exfalso. revert Hl'. unfold removeSub. simpl. repeat case_match; simpl; congruence.
Qed.

Lemma receive_watch b id' id from : watch_inv id from b → watch_inv id from (receive b id').
Proof.
  intros Hinv. unfold receive. destruct (b_chans b !! id') as [k|] eqn:Ek; [|done].
  destruct (bool_decide _); [|done]. destruct Hinv as (Hlog & Happ & [Hn Hsubs] & c & Hc & Hs).
  pose proof (lookup_lt_Some _ _ _ Ek) as Hlt. split_and!; try done.
  - split; [done|]. simpl. intros l Hl'. destruct (Hsubs l Hl') as [? Hx]. split; [done|]. by rewrite length_insert.
  - simpl. destruct (decide (id' = id)) as [->|Hne].
    + rewrite Hc in Ek. injection Ek as <-. rewrite list_lookup_insert_eq by done. eexists. split; [done|].
      eapply sent_ok_frame; try done. intros ?. split; [done|]. simpl. eauto.
    + rewrite list_lookup_insert_ne by done. exists c. split; [done|].
      eapply sent_ok_frame; try done. intros ?. split; [done|]. simpl. eauto.
Qed.

Lemma prune_watch b id from : watch_inv id from b → watch_inv id from (pruneOnce b).1.
Proof.
  intros (Hlog & Happ & Hsubs & c & Hc & Hs). destruct (pruneOnce_spec b Hlog) as (d' & -> & Hok' & Hkeep & _).
  split_and!; try done. exists c. split; [done|]. destruct Hs as [? ? ? Hev]. split; simpl; try done.
  intros ev raw He Hr. apply (Hev ev raw He). assert (Hrange := sent_range b id from c ev).
  destruct (lo_events _ _ _ Hok' _ _ Hr (eventKey_prefix _)) as (s & ev' & Heq & H1 & H2 & _).
  rewrite Heq in Hr |- *. rewrite <- Hkeep; [done|lia|lia].
Qed.

Lemma close_watch b id from : watch_inv id from b → watch_inv id from (Close b).
Proof.
  intros Hinv. unfold Close. destruct (b_closed b); [done|]. destruct Hinv as (Hlog & Happ & Hsubs & c & Hc & Hs).
  split_and!; try done. exists c. split; [done|]. eapply sent_ok_frame; try done.
Qed.

(** Every step keeps the subscriptions naming channels. *)
Lemma log_step_subs b b' : log_inv b → appliers_ok b → log_step b b' → subs_ok b → subs_ok b'.
Proof.
  intros Hlog Happ Hst. revert Hlog Happ.
  destruct Hst as [b0 op ctxErr x Hlt|b0 from|b0 id|b0 id|b0|b0]; intros Hlog Happ Hsubs.
  - destruct (Propose_cases OpType Marshal b0 op ctxErr x Hlog Hlt Happ) as
      [(m' & e & ->)|(m' & muts & d' & raw & _ & -> & _)]; [done|]. by apply publish_subs_ok.
  - unfold Watch. repeat case_match; try done. by apply subs_ok_snoc.
  - unfold watchGoroutine. destruct (b_chans b0 !! id) as [k|]; [|done]. destruct (ch_goroutine k); [|done].
    apply removeSub_subs_ok. destruct Hsubs as [Hn Hs]. split; [done|]. cbn. intros l Hl. destruct (Hs l Hl).
    split; [done|]. by rewrite length_insert.
  - unfold receive. repeat case_match; try done. destruct Hsubs as [Hn Hs]. split; [done|]. cbn. intros l Hl.
    destruct (Hs l Hl). split; [done|]. by rewrite length_insert.
  - destruct (pruneOnce_spec b0 Hlog) as (d' & -> & _). done.
  - unfold Close. by destruct (b_closed b0).
Qed.

Lemma log_step_watch id from b b' : log_step b b' → watch_inv id from b → watch_inv id from b'.
Proof.
  intros [] Hinv; [by apply propose_watch|by apply watch_watch|by apply goroutine_watch|by apply receive_watch
    |by apply prune_watch|by apply close_watch].
Qed.

Lemma log_steps_watch id from b b' : rtc log_step b b' → watch_inv id from b → watch_inv id from b'.
Proof. induction 1; eauto using log_step_watch. Qed.

(** ** Subscribing *)

(** The backfill of the log from [a] on: as much of it as the buffer takes. *)
Lemma backfillLoop_spec buffer d last min n c a :
  log_ok d last min → 1 ≤ a → min ≤ a → a + Z.of_nat n = last + 1 →
  ch_closed c = false → ch_recv c = O → Z.of_nat (length (ch_sent c)) ≤ buffer → ch_from c = a - 1 →
  let k := Z.min (Z.of_nat n) (buffer - Z.of_nat (length (ch_sent c))) in
  ∃ evs c', backfillLoop buffer (entry d <$> seqZ a (Z.of_nat n)) c = Ok c' ∧
    ch_sent c' = ch_sent c ++ evs ∧ ch_closed c' = false ∧ ch_goroutine c' = ch_goroutine c ∧ ch_recv c' = O ∧
    ch_from c' = a - 1 + k ∧ ev_Seq <$> evs = seqZ a k ∧
    (∀ ev raw, ev ∈ evs → d !! eventKey (ev_Seq ev) = Some raw → decodeEvent raw = Ok ev).
Proof.
  intros Hok. revert c a. induction n as [|n IH]; intros c a Ha Hmin Hsum Hcl Hrecv Hbuf Hfrom; cbv zeta.
  { exists [], c. rewrite app_nil_r, Z.min_l by lia. split_and!; try done; [lia|]. set_solver. }
  rewrite seqZ_cons by lia. rewrite fmap_cons. unfold entry at 1. cbn [backfillLoop].
  destruct (lo_present _ _ _ Hok a) as [v Hv]; [lia..|]. rewrite Hv. change (default [] (Some v)) with v.
  destruct (lo_events _ _ _ Hok _ _ Hv (eventKey_prefix a)) as (s & ev & Heq & ? & ? & Hdec & Hseq).
  destruct (lo_range _ _ _ Hok). apply eventKey_inj in Heq as <-; [|unfold seq_range; lia..].
  rewrite Hdec. unfold deliver. rewrite Hcl, Hrecv. destruct (_ <? buffer) eqn:Eb; bools.
  2:{ exists [], c. rewrite app_nil_r. replace (Z.min _ _) with 0 by lia. split_and!; try done; [lia|]. set_solver. }
  rewrite Hseq. replace (Z.pred (Z.of_nat (S n))) with (Z.of_nat n) by lia.
  destruct (IH (mkChannel (ch_sent c ++ [ev]) 0 a false (ch_goroutine c)) (Z.succ a)) as
    (evs & c' & -> & Hs & Hc' & Hg' & Hr' & Hf' & Hseqs & Hevs); try done; try lia; try (simpl; rewrite ?length_app; simpl; lia).
  cbn [ch_sent] in Hf', Hseqs. rewrite length_app in Hf', Hseqs. cbn [length] in Hf', Hseqs.
  exists (ev :: evs), c'. split_and!; try done.
  - rewrite Hs. simpl. by rewrite <- app_assoc.
  - lia.
  - rewrite fmap_cons, Hseqs, Hseq. rewrite (seqZ_cons a) by lia. do 2 f_equal. lia.
  - intros e raw [->|He]%elem_of_cons Hr; [|by apply (Hevs e raw)]. rewrite Hseq, Hv in Hr. by injection Hr as <-.
Qed.

Lemma backfill_spec b from :
  log_inv b → 0 ≤ from ≤ b_lastSeq b → (b_minSeq b = 0 ∨ b_minSeq b ≤ from + 1) → 0 ≤ o_WatchBuffer (b_opts b) →
  let k := Z.min (b_lastSeq b - from) (o_WatchBuffer (b_opts b)) in
  ∃ c, backfill b (mkChannel [] 0 from false true) = Ok c ∧ ch_closed c = false ∧ ch_goroutine c = true ∧
    ch_recv c = O ∧ ch_from c = from + k ∧ ev_Seq <$> ch_sent c = seqZ (from + 1) k ∧
    (∀ ev raw, ev ∈ ch_sent c → b_db b !! eventKey (ev_Seq ev) = Some raw → decodeEvent raw = Ok ev).
Proof.
  intros Hok Hfrom Hmin Hbuf. cbv zeta. unfold backfill. cbn [ch_from].
  pose proof (lo_zero _ _ _ Hok) as Hz. destruct (lo_range _ _ _ Hok) as [Hr Hl].
  destruct (b_lastSeq b <=? from) eqn:E; bools.
  { eexists. split; [done|]. simpl. replace (Z.min _ _) with 0 by lia. split_and!; try done; [lia|]. set_solver. }
  assert (1 ≤ b_minSeq b ≤ from + 1) by lia. rewrite wrapU64_id by lia.
  rewrite (scan_spec _ _ _ Hok (eventKey (from + 1)) (from + 1)).
  2:{ intros s Hs1 Hs2. apply eventKey_lex; unfold seq_range; lia. }
  replace (Z.max (from + 1) _) with (from + 1) by lia.
  replace (b_lastSeq b + 1 - (from + 1)) with (Z.of_nat (Z.to_nat (b_lastSeq b - from))) by lia.
  destruct (backfillLoop_spec (o_WatchBuffer (b_opts b)) (b_db b) (b_lastSeq b) (b_minSeq b) (Z.to_nat (b_lastSeq b - from))
    (mkChannel [] 0 from false true) (from + 1)) as (evs & c & -> & Hs & ? & ? & ? & Hf & Hseqs & Hevs);
    try done; try lia; try (simpl; lia).
  cbn [ch_sent length app] in *. exists c. rewrite Hs. rewrite Hf, Hseqs.
  replace (Z.min (Z.of_nat _) _) with (Z.min (b_lastSeq b - from) (o_WatchBuffer (b_opts b))) by lia.
  split_and!; try done. lia.
Qed.

Lemma Watch_spec b from b1 id :
  log_inv b → 0 ≤ from ≤ b_lastSeq b → 0 ≤ o_WatchBuffer (b_opts b) → Watch b from = (b1, Ok id) →
  let k := Z.min (b_lastSeq b - from) (o_WatchBuffer (b_opts b)) in
  ∃ c l, b_subs b = Some l ∧ id = length (b_chans b) ∧
    b1 = with_chans b (b_chans b ++ [c]) (Some (l ++ [id])) (b_panic b) ∧
    ch_closed c = false ∧ ch_goroutine c = true ∧ ch_recv c = O ∧ ch_from c = from + k ∧
    ev_Seq <$> ch_sent c = seqZ (from + 1) k ∧
    (∀ ev raw, ev ∈ ch_sent c → b_db b !! eventKey (ev_Seq ev) = Some raw → decodeEvent raw = Ok ev).
Proof.
  intros Hok Hfrom Hbuf. unfold Watch. destruct (b_closed b); [done|].
  destruct (lo_range _ _ _ Hok) as [Hr Hl].
  destruct ((0 <? b_minSeq b) && (wrapU64 (from + 1) <? b_minSeq b)) eqn:E; [done|].
  assert (Hmin : b_minSeq b = 0 ∨ b_minSeq b ≤ from + 1).
  { apply andb_false_iff in E as [E|E]; bools; [left; lia|]. unfold wrapU64 in E.
    pose proof (Z.mod_le (from + 1) (2 ^ 64)). right. lia. }
  destruct (backfill_spec b from Hok Hfrom Hmin Hbuf) as (c & -> & ? & ? & ? & ? & ? & ?).
  destruct (b_subs b) as [l|]; [|done]. intros H'. injection H' as <- <-. exists c, l. split_and!; done.
Qed.

(** A watcher misses nothing.  Once a subscription starts inside what its
    buffer can hold, then through any interleaving of proposals, deliveries,
    other watches, sweeps, cancellations and shutdown, what it was sent is the
    log's events from [from + 1] on, consecutively and with the persisted
    content, and as long as its channel is open it has been sent up to the head. *)
Theorem Watch_gapless b from b1 id b2 :
  log_inv b → appliers_ok b → subs_ok b →
  0 ≤ from ≤ b_lastSeq b → b_lastSeq b - from ≤ o_WatchBuffer (b_opts b) →
  Watch b from = (b1, Ok id) → rtc log_step b1 b2 →
  ∃ c, b_chans b2 !! id = Some c ∧
    ev_Seq <$> ch_sent c = seqZ (from + 1) (ch_from c - from) ∧
    (ch_closed c = false → ch_from c = b_lastSeq b2) ∧
    (∀ ev raw, ev ∈ ch_sent c → b_db b2 !! eventKey (ev_Seq ev) = Some raw → decodeEvent raw = Ok ev).
Proof.
  intros Hok Happ Hsubs Hfrom Hbuf Hw Hsteps.
  destruct (Watch_spec b from b1 id Hok Hfrom ltac:(lia) Hw) as (c & l & Hl & Hid & -> & Hcl & _ & _ & Hf & Hseqs & Hevs).
  rewrite Z.min_l in Hf, Hseqs by lia.
  enough (watch_inv id from b2) as (_ & _ & _ & c2 & Hc2 & Hs2).
  { exists c2. destruct Hs2 as [? ? Hopen ?]. split_and!; try done. intros H. by destruct (Hopen H). }
  eapply log_steps_watch; [exact Hsteps|].
  split_and!; try done.
  - rewrite Hid. by apply subs_ok_snoc.
  - exists c. simpl. split; [rewrite Hid; apply list_lookup_middle; done|].
    split; simpl; try done; [rewrite Hseqs; f_equal; lia|lia|]. intros _. split; [lia|]. intros ? [= <-]. set_solver.
Qed.

(** A slow watcher takes the process down.  Publishing to a subscription
    whose buffer is full closes its channel, and its watch goroutine, when its
    context ends, closes the same channel again: Go panics. *)
Theorem dropped_watcher_panics b op ctxErr x b' seq id c l :
  log_inv b → b_lastSeq b + 1 < 2 ^ 64 → appliers_ok b →
  b_subs b = Some l → NoDup l → id ∈ l → b_chans b !! id = Some c → ch_closed c = false → ch_goroutine c = true →
  o_WatchBuffer (b_opts b) ≤ Z.of_nat (length (ch_sent c) - ch_recv c) →
  Propose OpType Marshal b op ctxErr x = (b', Ok seq) →
  (∃ c', b_chans b' !! id = Some c' ∧ ch_closed c' = true) ∧ b_panic (watchGoroutine b' id) = true.
Proof.
  intros Hok Hlt Happ Hl Hnd Hin Hc Hcl Hg Hfull Hp.
  destruct (Propose_cases OpType Marshal b op ctxErr x Hok Hlt Happ) as
    [(m' & e & Heq)|(m' & muts & d' & raw & _ & Heq & _)]; rewrite Heq in Hp; [done|]. injection Hp as <- _.
  set (ev := mkLogEvent _ _ _). set (b1 := with_db _ _ _ _ _).
  destruct (publish_self b1 ev id c l Hl Hnd Hin Hc Hcl) as [Hc' _].
  unfold delivered in Hc'. replace (_ <? _) with false in Hc' by (symmetry; by apply Z.ltb_ge).
  split; [by eexists|]. unfold watchGoroutine. rewrite Hc'. cbn [ch_goroutine]. rewrite Hg.
  unfold removeSub. cbn [b_chans with_chans]. rewrite list_lookup_insert_eq by (by eapply lookup_lt_Some). done.
Qed.

(** A backfill larger than the buffer loses events silently.  The
    subscription is registered, its channel stays open, and it was sent only
    the first [WatchBuffer] of the events it asked for; once the consumer
    reads one, the next live event follows the gap. *)
Theorem Watch_backfill_gap b from b1 id op ctxErr x b2 seq :
  log_inv b → appliers_ok b → subs_ok b → b_lastSeq b + 1 < 2 ^ 64 →
  0 ≤ from → 0 < o_WatchBuffer (b_opts b) < b_lastSeq b - from →
  Watch b from = (b1, Ok id) →
  Propose OpType Marshal (receive b1 id) op ctxErr x = (b2, Ok seq) →
  ∃ c, b_chans b2 !! id = Some c ∧ ch_closed c = false ∧
    ev_Seq <$> ch_sent c = seqZ (from + 1) (o_WatchBuffer (b_opts b)) ++ [b_lastSeq b + 1].
Proof.
  intros Hok Happ Hsubs Hlt Hfrom Hbuf Hw Hp.
  destruct (Watch_spec b from b1 id Hok ltac:(lia) ltac:(lia) Hw) as (c & l & Hl & Hid & -> & Hcl & Hg & Hr & Hf & Hseqs & Hevs).
  rewrite Z.min_r in Hf, Hseqs by lia.
  assert (Hlen : Z.of_nat (length (ch_sent c)) = o_WatchBuffer (b_opts b)).
  { apply (f_equal length) in Hseqs. rewrite length_fmap, length_seqZ in Hseqs. lia. }
  assert (Hlook : (b_chans b ++ [c]) !! id = Some c) by (rewrite Hid; by apply list_lookup_middle).
  unfold receive in Hp. cbn [b_chans with_chans] in Hp. rewrite Hlook, bool_decide_true in Hp by lia.
  set (c1 := mkChannel _ (S (ch_recv c)) _ _ _) in Hp. set (b1' := with_chans _ _ _ _) in Hp.
  destruct (Propose_cases OpType Marshal b1' op ctxErr x Hok Hlt Happ) as
    [(m' & e & Heq)|(m' & muts & d' & raw & _ & Heq & _)]; rewrite Heq in Hp; [done|]. injection Hp as <- _.
  set (ev := mkLogEvent _ _ _). set (b3 := with_db _ _ _ _ _).
  pose proof (subs_ok_snoc b c l Hsubs Hl) as [_ Hs]. rewrite <- Hid in Hs. destruct (Hs _ eq_refl) as [Hnd Hlt'].
  assert (Hc1 : b_chans b3 !! id = Some c1) by (simpl; apply list_lookup_insert_eq; by eapply lookup_lt_Some).
  destruct (publish_self b3 ev id c1 (l ++ [id]) eq_refl Hnd ltac:(set_solver) Hc1 Hcl) as [Hc' _].
  unfold delivered in Hc'. cbn [ch_sent ch_recv c1] in Hc'.
  rewrite (proj2 (Z.ltb_lt _ _)) in Hc' by (change (b_opts b3) with (b_opts b); lia).
  eexists. split; [exact Hc'|]. split; [done|]. simpl. by rewrite fmap_app, Hseqs.
Qed.
End Watchers.

(** ** Witnesses *)

Definition watchedLog : Backend unit bool := (Watch sampleLog 1).1.

Lemma sampleLog_subs : subs_ok sampleLog.
Proof. split; [done|]. intros l H. vm_compute in H. injection H as <-. split; [constructor|set_solver]. Qed.

Lemma Watch_gapless_witness :
  ∃ c, b_chans (receive (samplePropose false (receive watchedLog 0)) 0) !! 0%nat = Some c ∧
    ev_Seq <$> ch_sent c = seqZ 2 (ch_from c - 1) ∧ (ch_closed c = false → ch_from c = 4).
Proof.
  destruct (Watch_gapless sampleType sampleMarshal sampleLog 1 watchedLog 0%nat
    (receive (samplePropose false (receive watchedLog 0)) 0)
    (proj1 sampleLog_ok) (proj2 sampleLog_ok) sampleLog_subs) as (c & H1 & H2 & H3 & _).
  - split; vm_compute; congruence.
  - vm_compute. congruence.
  - unfold watchedLog. vm_compute. reflexivity.
  - refine (rtc_l _ _ _ _ (step_receive _ _ watchedLog 0%nat) _).
    refine (rtc_l _ _ _ _ (step_propose _ _ (receive watchedLog 0%nat) false None accepting _) _); [vm_compute; reflexivity|].
    exact (rtc_once _ _ (step_receive _ _ _ 0%nat)).
  - exists c. split; [exact H1|]. split; [exact H2|]. intros H. rewrite (H3 H). vm_compute. reflexivity.
Defined.

(** The watcher of [watchedLog] has two unread events in a buffer of two. *)
Lemma dropped_watcher_panics_witness : b_panic (watchGoroutine (samplePropose true watchedLog) 0) = true.
Proof.
  refine (proj2 (dropped_watcher_panics sampleType sampleMarshal watchedLog true None accepting _ 4 0%nat _ [0%nat] _ _ _ _ _ _ _ _ _ _ _)).
  - apply (same_log_inv sampleLog); [apply Watch_log|apply sampleLog_ok].
  - vm_compute. reflexivity.
  - apply (same_log_appliers sampleLog); [apply Watch_log|apply sampleLog_ok].
  - vm_compute. reflexivity.
  - apply NoDup_singleton.
  - apply list_elem_of_singleton. reflexivity.
  - vm_compute. reflexivity.
  - reflexivity.
  - reflexivity.
  - vm_compute. congruence.
  - vm_compute. reflexivity.
Defined.

Lemma Watch_backfill_gap_witness :
  ∃ c, b_chans (samplePropose false (receive (Watch sampleLog 0).1 0)) !! 0%nat = Some c ∧
    ch_closed c = false ∧ ev_Seq <$> ch_sent c = [1; 2; 4].
Proof.
  refine (Watch_backfill_gap sampleType sampleMarshal sampleLog 0 (Watch sampleLog 0).1 0%nat false None accepting _ 4
    (proj1 sampleLog_ok) (proj2 sampleLog_ok) sampleLog_subs _ _ _ _ _).
  - vm_compute. reflexivity.
  - lia.
  - split; vm_compute; reflexivity.
  - vm_compute. reflexivity.
  - vm_compute. reflexivity.
Defined.
