(* ===== verification/Gpu.v ===== *)
(** * GPU admission (pkg/types/gpu_ledger.go, pkg/orchestrator/gpu/{placement,admission}.go)

    The ledger of device claims and the choice of devices.  Byte counts are
    plain integers: under the invariant proved in GpuProps every sum the code
    forms stays below a device's memory, so its int64 arithmetic does not wrap.
    [types.ParseMemory] works on floats and is a parameter. *)

From S2P Require Import Prelude Types.

(** ** Data (pkg/types/gpu_ledger.go, node.go, service.go) *)

Record GPUDevice := mkGPUDevice {
  gd_UUID : string;
  gd_Product : string;
  gd_VRAMBytes : Z;
  gd_Missing : bool;
}.

Definition GPUResHolder := string.
Definition GPUResHolderInstance : GPUResHolder := "instance".
Definition GPUResHolderIdle : GPUResHolder := "idle".

Record GPURes := mkGPURes {
  gr_DeviceUUID : string;
  gr_Namespace : string;
  gr_ServiceName : string;
  gr_InstanceID : string;
  gr_VRAMBytes : Z;
  gr_WholeDevice : bool;
  gr_Holder : GPUResHolder;
  gr_CreatedAt : Time;
}.

Record NodeDeviceLedger := mkLedger {
  l_NodeID : string;
  l_Reservations : list GPURes;
  l_UpdatedAt : Time;
}.

Definition DefaultReservedVRAMFloor : Z := Z.shiftl 512 20.
Definition DefaultReservedVRAMPerInstance : Z := Z.shiftl 400 20.

Definition on_device (uuid : string) (r : GPURes) : bool := bool_decide (gr_DeviceUUID r = uuid).

Definition FindReservations (l : NodeDeviceLedger) (uuid : string) : list GPURes :=
  List.filter (on_device uuid) (l_Reservations l).

Definition RequestedBytes (l : NodeDeviceLedger) (uuid : string) : Z :=
  fold_left (λ total r, if negb (gr_WholeDevice r) then total + gr_VRAMBytes r else total) (FindReservations l uuid) 0.

Definition HasWholeDeviceHolder (l : NodeDeviceLedger) (uuid : string) : bool :=
  existsb gr_WholeDevice (FindReservations l uuid).

Definition ReservedBytesWith (l : NodeDeviceLedger) (uuid : string) (incoming : Z) : Z :=
  DefaultReservedVRAMFloor +
  DefaultReservedVRAMPerInstance * (Z.of_nat (length (FindReservations l uuid)) + incoming).

Definition ReservedBytes (l : NodeDeviceLedger) (uuid : string) : Z := ReservedBytesWith l uuid 0.

Record GPURequest := mkGPURequest {
  g_Count : Z;
  g_VRAM : string;
  g_AllowHeterogeneous : bool;
}.

Definition DeviceCount (g : GPURequest) : Z := if g_Count g <=? 0 then 1 else g_Count g.
Definition SharesDevice (g : GPURequest) : bool := negb (bool_decide (g_VRAM g = "")).

(** [types.Node]: the inventory and whether it was probed. *)
Record Node := mkNode {
  n_ID : string;
  n_Devices : list GPUDevice;
  n_DevicesProbedAt : option Time;
}.

(** ** Placement (placement.go) *)

(** [AdmissionError] by its reason slug; the operator-facing text is left out. *)
Inductive AdmissionError :=
| GPUReasonNoCapacity
| GPUReasonDeviceMissing
| GPUReasonInventoryUnknown
| ErrNodeMismatch
| ErrStore
| ErrArgument (m : string)
| ErrUnmatched (devices : list string).

Record Placement := mkPlacement {
  p_DeviceUUIDs : list string;
  p_CrossNamespace : bool;
  p_OtherNamespaces : list string;
}.

Definition usable (l : NodeDeviceLedger) (dev : GPUDevice) (incoming : Z) : Z :=
  let free := gd_VRAMBytes dev - ReservedBytesWith l (gd_UUID dev) incoming - RequestedBytes l (gd_UUID dev) in
  if free <? 0 then 0 else free.

Record candidate := mkCandidate {
  c_dev : GPUDevice;
  c_free : Z;
  c_tier : Z;
  c_otherNamespaces : list string;
}.

(** Membership-deduplication keeping first occurrences, then sorted. *)
Fixpoint dedupe (seen : gset string) (l : list string) : list string :=
  match l with
  | [] => []
  | v :: l => if bool_decide (v ∈ seen) then dedupe seen l else v :: dedupe ({[v]} ∪ seen) l
  end.

Definition sortStrings (l : list string) : list string := SliceStable String.ltb l.

Definition dedupeSorted (l : list string) : list string := sortStrings (dedupe ∅ l).

Definition liveDevices (devices : list GPUDevice) : list GPUDevice :=
  List.filter (λ d, negb (gd_Missing d)) devices.

(** Whether [rankCandidates] keeps a device. *)
Definition admissible (l : NodeDeviceLedger) (req : GPURequest) (need : Z) (dev : GPUDevice) : bool :=
  if HasWholeDeviceHolder l (gd_UUID dev) then false
  else if negb (SharesDevice req) && negb (bool_decide (FindReservations l (gd_UUID dev) = [])) then false
  else if SharesDevice req && (usable l dev 1 <? need) then false
  else true.

Definition mk_candidate (l : NodeDeviceLedger) (namespace : string) (dev : GPUDevice) : candidate :=
  let held := FindReservations l (gd_UUID dev) in
  let others := List.filter (λ n, negb (bool_decide (n = namespace))) (gr_Namespace <$> held) in
  let '(tier, names) := match held, others with
    | [], _ => (1, [])
    | _, [] => (0, [])
    | _, _ => (2, dedupeSorted others)
    end in
  mkCandidate dev (usable l dev 1) tier names.

(** The comparison handed to [sort.SliceStable]. *)
Definition better (a b : candidate) : bool :=
  if negb (c_tier a =? c_tier b) then c_tier a <? c_tier b
  else if negb (c_free a =? c_free b) then c_free a <? c_free b
  else String.ltb (gd_UUID (c_dev a)) (gd_UUID (c_dev b)).

Definition rankCandidates (devices : list GPUDevice) (l : NodeDeviceLedger) (namespace : string)
    (req : GPURequest) (need : Z) : list candidate :=
  SliceStable better (mk_candidate l namespace <$> List.filter (admissible l req need) devices).

(** The key [sameProduct] groups by, product and memory. *)
Definition product_key (c : candidate) : string * Z := (gd_Product (c_dev c), gd_VRAMBytes (c_dev c)).

(** Products in the order of their best candidate; the first large enough.  A
    product seen before has the group it had then, so skipping it, as the source
    does, changes nothing. *)
Fixpoint sameProductFrom (cands seen_rest : list candidate) (want : nat) : option (list candidate) :=
  match seen_rest with
  | [] => None
  | c :: rest =>
      let group := List.filter (λ x, bool_decide (product_key x = product_key c)) cands in
      if bool_decide (want ≤ length group)%nat then Some (take want group)
      else sameProductFrom cands rest want
  end.

Definition sameProduct (cands : list candidate) (want : nat) : option (list candidate) :=
  sameProductFrom cands cands want.

Definition errNoDevices (devices : list GPUDevice) : AdmissionError :=
  match devices with [] => GPUReasonNoCapacity | _ => GPUReasonDeviceMissing end.

(** The devices [chosen] of the loop that ends [ChooseDevices]. *)
Definition place (chosen : list candidate) : Placement :=
  let foreign := List.filter (λ c, c_tier c =? 2) chosen in
  mkPlacement ((λ c, gd_UUID (c_dev c)) <$> chosen) (negb (bool_decide (foreign = [])))
    (sortStrings (dedupe ∅ (List.concat (c_otherNamespaces <$> foreign)))).

Section Admission.
Context (ParseMemory : string → result string Z).

Definition ChooseDevices (devices : list GPUDevice) (l : NodeDeviceLedger) (namespace : string)
    (req : GPURequest) : result AdmissionError Placement :=
  let live := liveDevices devices in
  if bool_decide (live = []) then Err (errNoDevices devices)
  else
    let want := if SharesDevice req then 1 else DeviceCount req in
    if Z.of_nat (length live) <? want then Err GPUReasonNoCapacity
    else
      match (if SharesDevice req then ParseMemory (g_VRAM req) else Ok 0) with
      | Err _ => Err GPUReasonNoCapacity
      | Ok need =>
          let cands := rankCandidates live l namespace req need in
          if Z.of_nat (length cands) <? want then Err GPUReasonNoCapacity
          else if (1 <? want) && negb (g_AllowHeterogeneous req) then
            match sameProduct cands (Z.to_nat want) with
            | None => Err GPUReasonNoCapacity
            | Some matched => Ok (place (take (Z.to_nat want) matched))
            end
          else Ok (place (take (Z.to_nat want) cands))
      end.

(** The checks of [validateGPU] (pkg/types/service_spec.go) on the request itself. *)
Definition validateGPU (g : GPURequest) : bool :=
  if g_Count g <? 0 then false
  else if SharesDevice g && negb (match ParseMemory (g_VRAM g) with Ok v => 0 <? v | Err _ => false end) then false
  else if (1 <? g_Count g) && SharesDevice g then false
  else if g_AllowHeterogeneous g && (g_Count g <=? 1) then false
  else true.

(** ** Admission (admission.go) *)

Record Request := mkRequest {
  r_NodeID : string;
  r_Namespace : string;
  r_ServiceName : string;
  r_InstanceID : string;
  r_Holder : GPUResHolder;
  r_GPU : GPURequest;
}.

Definition vramBytes (req : GPURequest) : Z :=
  if negb (SharesDevice req) then 0
  else match ParseMemory (g_VRAM req) with Ok v => v | Err _ => 0 end.

Definition holder_of (req : Request) : GPUResHolder :=
  if bool_decide (r_Holder req = "") then GPUResHolderInstance else r_Holder req.

Definition new_row (req : Request) (now : Time) (uuid : string) : GPURes :=
  mkGPURes uuid (r_Namespace req) (r_ServiceName req) (r_InstanceID req) (vramBytes (r_GPU req))
    (negb (SharesDevice (r_GPU req))) (holder_of req) now.

Definition appendReservations (l : NodeDeviceLedger) (p : Placement) (req : Request) (now : Time) : NodeDeviceLedger :=
  mkLedger (r_NodeID req) (l_Reservations l ++ (new_row req now <$> p_DeviceUUIDs p)) now.

Definition checkInventory (node : option Node) (nodeID : string) : result AdmissionError Node :=
  match node with
  | None => Err GPUReasonInventoryUnknown
  | Some n =>
      match n_DevicesProbedAt n with
      | None => Err GPUReasonInventoryUnknown
      | Some _ =>
          if negb (bool_decide (nodeID = "")) && negb (bool_decide (n_ID n = "")) && negb (bool_decide (nodeID = n_ID n))
          then Err ErrNodeMismatch else Ok n
      end
  end.

(** The ledgers by node.  An operation is one committed read-modify-write of
    its row; attempts that lose to a concurrent writer leave no trace, so only
    the committing one is modelled, and [commits] is whether one did before
    the retries ran out. *)
Definition ledgers := gmap string NodeDeviceLedger.

(** [store.UpdateFunc] with a callback that may refuse or skip. *)
Definition UpdateRow {A} (st : ledgers) (nodeID : string) (commits : bool)
    (mutate : NodeDeviceLedger → result AdmissionError (option NodeDeviceLedger * A))
    : ledgers * result AdmissionError (option A) :=
  match st !! nodeID with
  | None => (st, Ok None)
  | Some l =>
      match mutate l with
      | Err e => (st, Err e)
      | Ok (None, a) => (st, Ok (Some a))
      | Ok (Some l', a) => if commits then (<[nodeID := l']> st, Ok (Some a)) else (st, Err ErrStore)
      end
  end.

(** [updateLedger]: the row is created first when absent ([creates] is whether
    the create succeeds), and stays when the callback then refuses. *)
Definition updateLedger {A} (st : ledgers) (nodeID : string) (creates commits : bool)
    (mutate : NodeDeviceLedger → result AdmissionError (option NodeDeviceLedger * A))
    : ledgers * result AdmissionError A :=
  let st := match st !! nodeID with
    | Some _ => st
    | None => if creates then <[nodeID := mkLedger nodeID [] 0]> st else st
    end in
  match UpdateRow st nodeID commits mutate with
  | (st, Ok (Some a)) => (st, Ok a)
  | (st, Ok None) => (st, Err ErrStore)
  | (st, Err e) => (st, Err e)
  end.

Definition reserve_mutate (n : Node) (req : Request) (now : Time) (l : NodeDeviceLedger)
    : result AdmissionError (option NodeDeviceLedger * Placement) :=
  match ChooseDevices (n_Devices n) l (r_Namespace req) (r_GPU req) with
  | Err e => Err e
  | Ok p => Ok (Some (appendReservations l p req now), p)
  end.

Definition Reserve (st : ledgers) (node : option Node) (req : Request) (now : Time) (creates commits : bool)
    : ledgers * result AdmissionError Placement :=
  match checkInventory node (r_NodeID req) with
  | Err e => (st, Err e)
  | Ok n => updateLedger st (r_NodeID req) creates commits (reserve_mutate n req now)
  end.

Definition dropWhere (l : NodeDeviceLedger) (matches : GPURes → bool) : NodeDeviceLedger :=
  mkLedger (l_NodeID l) (List.filter (λ r, negb (matches r)) (l_Reservations l)) (l_UpdatedAt l).

(** [Admitter.mutate]: no ledger, nothing to do. *)
Definition mutate (st : ledgers) (nodeID : string) (now : Time) (commits : bool)
    (fn : NodeDeviceLedger → option NodeDeviceLedger) : ledgers * result AdmissionError unit :=
  let body l := match fn l with
    | None => Ok (None, tt)
    | Some l' => Ok (Some (mkLedger nodeID (l_Reservations l') now), tt)
    end in
  match UpdateRow st nodeID commits body with
  | (st, Ok _) => (st, Ok tt)
  | (st, Err e) => (st, Err e)
  end.

Definition dropReport (l : NodeDeviceLedger) (matches : GPURes → bool) : option NodeDeviceLedger :=
  if existsb matches (l_Reservations l) then Some (dropWhere l matches) else None.

Definition held_by (instanceID : string) (r : GPURes) : bool :=
  bool_decide (gr_InstanceID r = instanceID) && bool_decide (gr_Holder r = GPUResHolderInstance).

Definition Release (st : ledgers) (nodeID instanceID : string) (now : Time) (commits : bool)
    : ledgers * result AdmissionError unit :=
  if bool_decide (instanceID = "") then (st, Err (ErrArgument "gpu: release requires an instance ID"))
  else mutate st nodeID now commits (λ l, dropReport l (held_by instanceID)).

Definition of_service (namespace service : string) (r : GPURes) : bool :=
  bool_decide (gr_Namespace r = namespace) && bool_decide (gr_ServiceName r = service).

Definition ReleaseService (st : ledgers) (nodeID namespace service : string) (now : Time) (commits : bool)
    : ledgers * result AdmissionError unit :=
  mutate st nodeID now commits (λ l, dropReport l (of_service namespace service)).

Definition ReserveReplacing (st : ledgers) (node : option Node) (releaseInstanceID : string) (req : Request)
    (now : Time) (creates commits : bool) : ledgers * result AdmissionError Placement :=
  match checkInventory node (r_NodeID req) with
  | Err e => (st, Err e)
  | Ok n =>
      updateLedger st (r_NodeID req) creates commits (λ l,
        reserve_mutate n req now
          (if bool_decide (releaseInstanceID = "") then l else dropWhere l (held_by releaseInstanceID)))
  end.

(** ** BindInstance *)

(** The row a device resolves to. *)
Inductive target := NoRow | AlreadyBound | Row (i : nat).

(** A row of this service, held by an instance, on the wanted device. *)
Definition bindable (namespace service want : string) (r : GPURes) : bool :=
  bool_decide (gr_DeviceUUID r = want) && bool_decide (gr_Holder r = GPUResHolderInstance) &&
  of_service namespace service r.

(** The inner loop: [idx] is the first unbound row seen so far. *)
Fixpoint resolve (namespace service instanceID want : string) (rows : list GPURes) (i : nat) (idx : target) : target :=
  match rows with
  | [] => idx
  | r :: rows =>
      if negb (bindable namespace service want r) then resolve namespace service instanceID want rows (S i) idx
      else if bool_decide (gr_InstanceID r = instanceID) then AlreadyBound
      else
        let idx := match idx with
          | NoRow => if bool_decide (gr_InstanceID r = "") then Row i else NoRow
          | _ => idx
          end in
        resolve namespace service instanceID want rows (S i) idx
  end.

Definition set_InstanceID (id : string) (r : GPURes) : GPURes :=
  mkGPURes (gr_DeviceUUID r) (gr_Namespace r) (gr_ServiceName r) id (gr_VRAMBytes r) (gr_WholeDevice r)
    (gr_Holder r) (gr_CreatedAt r).

Definition bind_targets (namespace service instanceID : string) (devices : list string) (rows : list GPURes)
    : list string * list nat :=
  let res := (λ d, (d, resolve namespace service instanceID d rows 0 NoRow)) <$> devices in
  (omap (λ x, match x.2 with NoRow => Some x.1 | _ => None end) res,
   omap (λ x, match x.2 with Row i => Some i | _ => None end) res).

Definition stamp (instanceID : string) (targets : list nat) (rows : list GPURes) : list GPURes :=
  fold_left (λ rows i, alter (set_InstanceID instanceID) i rows) targets rows.

(** The callback: the devices left unmatched, and the ledger if it is written. *)
Definition bind_mutate (namespace service instanceID : string) (devices : list string) (l : NodeDeviceLedger)
    : list string * option NodeDeviceLedger :=
  let '(unmatched, targets) := bind_targets namespace service instanceID devices (l_Reservations l) in
  (unmatched,
   if negb (bool_decide (unmatched = [])) || bool_decide (targets = []) then None
   else Some (mkLedger (l_NodeID l) (stamp instanceID targets (l_Reservations l)) (l_UpdatedAt l))).

Definition BindInstance (st : ledgers) (nodeID namespace service instanceID : string) (devices : list string)
    (now : Time) (commits : bool) : ledgers * result AdmissionError unit :=
  if bool_decide (instanceID = "") then (st, Err (ErrArgument "gpu: bind requires an instance ID"))
  else if bool_decide (devices = []) then (st, Err (ErrArgument "gpu: bind requires at least one device"))
  else if negb (bool_decide (NoDup devices)) then (st, Err (ErrArgument "gpu: device named twice in one bind"))
  else
    let unmatched := match st !! nodeID with
      | None => devices
      | Some l => (bind_mutate namespace service instanceID devices l).1
      end in
    match mutate st nodeID now commits (λ l, (bind_mutate namespace service instanceID devices l).2) with
    | (st, Err e) => (st, Err e)
    | (st, Ok _) => if bool_decide (unmatched = []) then (st, Ok tt) else (st, Err (ErrUnmatched unmatched))
    end.

Definition CanFit (node : option Node) (l : NodeDeviceLedger) (namespace : string) (req : GPURequest)
    : result AdmissionError Placement :=
  match checkInventory node "" with
  | Err e => Err e
  | Ok n => ChooseDevices (n_Devices n) l namespace req
  end.
End Admission.
