(* ===== verification/GpuProps.v ===== *)
(** * GPU admission: no device is overcommitted *)

From S2P Require Import Prelude Types Gpu.

(** ** Sums over the rows of a device *)

Definition row_bytes (r : GPURes) : Z := if gr_WholeDevice r then 0 else gr_VRAMBytes r.
Definition sum_bytes (rows : list GPURes) : Z := foldr (λ r s, row_bytes r + s) 0 rows.

Lemma sum_bytes_app a b : sum_bytes (a ++ b) = sum_bytes a + sum_bytes b.
Proof. induction a as [|r a IH]; simpl; lia. Qed.

Lemma RequestedBytes_sum l uuid : RequestedBytes l uuid = sum_bytes (FindReservations l uuid).
Proof.
  unfold RequestedBytes. generalize (FindReservations l uuid). intros rows.
  enough (∀ z, fold_left (λ total r, if negb (gr_WholeDevice r) then total + gr_VRAMBytes r else total) rows z
    = z + sum_bytes rows) as H by (by rewrite H).
  induction rows as [|r rows IH]; intros z; simpl; [lia|]. rewrite IH. unfold row_bytes.
  destruct (gr_WholeDevice r); simpl; lia.
Qed.

Definition rows_nonneg (rows : list GPURes) : Prop := Forall (λ r, 0 ≤ gr_VRAMBytes r) rows.

Lemma sum_bytes_sublist a b : rows_nonneg b → a `sublist_of` b → sum_bytes a ≤ sum_bytes b.
Proof.
  intros Hn Hs. induction Hs as [|r a b _ IH|r a b _ IH]; simpl; [done| |]; inversion Hn; subst.
  - specialize (IH ltac:(done)). lia.
  - specialize (IH ltac:(done)). unfold row_bytes. destruct (gr_WholeDevice r); lia.
Qed.

Lemma sum_bytes_nonneg a : rows_nonneg a → 0 ≤ sum_bytes a.
Proof. intros. apply (sum_bytes_sublist [] a); [done|apply sublist_nil_l]. Qed.

(** ** The invariant *)

(** The claims [rows] on one device of [capacity] bytes: a whole-device holder
    is alone; otherwise the requests and the system reserve fit. *)
Definition device_ok (capacity : Z) (rows : list GPURes) : Prop :=
  rows = [] ∨
  (∃ r, rows = [r] ∧ gr_WholeDevice r = true) ∨
  (Forall (λ r, gr_WholeDevice r = false) rows ∧
   sum_bytes rows + DefaultReservedVRAMFloor + DefaultReservedVRAMPerInstance * Z.of_nat (length rows) ≤ capacity).

Definition ledger_ok (cap : string → Z) (l : NodeDeviceLedger) : Prop :=
  rows_nonneg (l_Reservations l) ∧ ∀ uuid, device_ok (cap uuid) (FindReservations l uuid).

Lemma floor_pos : 0 < DefaultReservedVRAMFloor.
Proof. done. Qed.
Lemma per_instance_pos : 0 < DefaultReservedVRAMPerInstance.
Proof. done. Qed.

Lemma device_ok_sublist cap a b : rows_nonneg b → a `sublist_of` b → device_ok cap b → device_ok cap a.
Proof.
  intros Hn Hs [->|[(r & -> & Hr)|[Hf Hsum]]].
  - left. by apply sublist_nil_r in Hs.
  - destruct a as [|x a]; [by left|]. right. left. pose proof (sublist_length _ _ Hs) as Hl. simpl in Hl.
    destruct a; [|simpl in Hl; lia]. exists x. split; [done|].
    assert (x ∈ [r]) as ->%list_elem_of_singleton; [|done]. apply sublist_subseteq in Hs. set_solver.
  - right. right. split.
    + apply Forall_forall. intros x Hx. rewrite Forall_forall in Hf. apply Hf. apply sublist_subseteq in Hs. set_solver.
    + pose proof (sum_bytes_sublist a b Hn Hs). pose proof (sublist_length _ _ Hs). pose proof per_instance_pos. nia.
Qed.

Lemma FindReservations_sublist l l' uuid :
  l_Reservations l' `sublist_of` l_Reservations l → FindReservations l' uuid `sublist_of` FindReservations l uuid.
Proof.
  unfold FindReservations. generalize (l_Reservations l) (l_Reservations l'). intros a b.
  induction 1; simpl; [done| |]; destruct (on_device uuid x); (assumption || by constructor).
Qed.

Lemma rows_nonneg_sublist a b : a `sublist_of` b → rows_nonneg b → rows_nonneg a.
Proof.
  unfold rows_nonneg. rewrite !Forall_forall. intros Hs Hn x Hx. apply Hn. apply sublist_subseteq in Hs. set_solver.
Qed.

Lemma ledger_ok_sublist cap l l' :
  l_Reservations l' `sublist_of` l_Reservations l → ledger_ok cap l → ledger_ok cap l'.
Proof.
  intros Hs [Hn Hd]. split; [by eapply rows_nonneg_sublist|]. intros uuid.
  pose proof (FindReservations_sublist l l' uuid Hs) as Hf. eapply device_ok_sublist; [|exact Hf|done].
  eapply rows_nonneg_sublist; [|exact Hn]. apply sublist_filterb.
Qed.

(** ** What the ranking keeps *)

#[global] Instance better_weak : StrictWeak better.
Proof.
  split.
  - intros a b. unfold better. rewrite (Z.eqb_sym (c_tier b)), (Z.eqb_sym (c_free b)).
    destruct (c_tier a =? c_tier b) eqn:E1; simpl; bools; [|lia].
    destruct (c_free a =? c_free b) eqn:E2; simpl; bools; [|lia]. apply string_ltb_asym.
  - intros a b c. unfold better.
    destruct (c_tier a =? c_tier b) eqn:E1, (c_tier b =? c_tier c) eqn:E2, (c_tier a =? c_tier c) eqn:E3; simpl; bools; try lia.
    destruct (c_free a =? c_free b) eqn:E4, (c_free b =? c_free c) eqn:E5, (c_free a =? c_free c) eqn:E6; simpl; bools; try lia.
    apply string_ltb_negtrans.
Qed.

Lemma mk_candidate_dev l ns dev : c_dev (mk_candidate l ns dev) = dev.
Proof. unfold mk_candidate. repeat case_match; done. Qed.

Lemma rankCandidates_perm devices l ns req need :
  rankCandidates devices l ns req need ≡ₚ mk_candidate l ns <$> List.filter (admissible l req need) devices.
Proof. apply SliceStable_perm. Qed.

Lemma sameProductFrom_sublist cands rest want m :
  sameProductFrom cands rest want = Some m → m `sublist_of` cands ∧ length m = want.
Proof.
  induction rest as [|c rest IH]; simpl; [done|]. case_bool_decide as Hw; [|done].
  intros H. injection H as <-. split; [|rewrite length_take; lia].
  etrans; [apply sublist_take|auto with rune].
Qed.

(** A chosen set of candidates: kept by the ranking, one per device. *)
Record choice_ok (devices : list GPUDevice) (l : NodeDeviceLedger) (req : GPURequest) (need : Z)
    (chosen : list candidate) : Prop := {
  ch_in : ∀ c, c ∈ chosen → c_dev c ∈ devices ∧ admissible l req need (c_dev c) = true;
  ch_nodup : NoDup ((λ c, gd_UUID (c_dev c)) <$> chosen);
}.

Lemma ranked_choice devices l ns req need chosen :
  NoDup (gd_UUID <$> devices) →
  chosen `sublist_of` rankCandidates (liveDevices devices) l ns req need →
  choice_ok devices l req need chosen.
Proof.
  intros Hnd Hs. pose proof (rankCandidates_perm (liveDevices devices) l ns req need) as Hp. split.
  - intros c Hc. assert (c ∈ rankCandidates (liveDevices devices) l ns req need) as Hin
      by (apply sublist_subseteq in Hs; set_solver).
    rewrite Hp, list_elem_of_fmap in Hin. destruct Hin as (dev & -> & [Ha Hl]%elem_of_filterb).
    rewrite mk_candidate_dev. unfold liveDevices in Hl. apply elem_of_filterb in Hl as [_ Hl]. done.
  - eapply sublist_NoDup; [|apply fmap_sublist; exact Hs]. rewrite Hp, <- list_fmap_compose.
    rewrite (list_fmap_ext _ gd_UUID) by (intros; simpl; by rewrite mk_candidate_dev).
    apply NoDup_fmap_filterb, NoDup_fmap_filterb, Hnd.
Qed.

Section Gpu.
Context (ParseMemory : string → result string Z).
#[local] Abbreviation ChooseDevices := (ChooseDevices ParseMemory).
#[local] Abbreviation vramBytes := (vramBytes ParseMemory).
#[local] Abbreviation validateGPU := (validateGPU ParseMemory).

Lemma ChooseDevices_chosen devices l ns req p :
  NoDup (gd_UUID <$> devices) → ChooseDevices devices l ns req = Ok p →
  ∃ chosen need, p = place chosen ∧ choice_ok devices l req need chosen ∧
    (SharesDevice req = true → ParseMemory (g_VRAM req) = Ok need ∧ length chosen = 1%nat).
Proof.
  intros Hnd. unfold Gpu.ChooseDevices. case_bool_decide; [done|].
  set (want := if SharesDevice req then 1 else DeviceCount req).
  destruct (Z.of_nat (length (liveDevices devices)) <? want); [done|].
  destruct (if SharesDevice req then ParseMemory (g_VRAM req) else Ok 0) as [need|] eqn:En; [|done].
  set (cands := rankCandidates _ _ _ _ _). destruct (Z.of_nat (length cands) <? want) eqn:Ec; [done|]. bools.
  assert (Hdone : ∀ chosen, chosen `sublist_of` cands → length chosen = Z.to_nat want →
    ∃ chosen' need, place chosen = place chosen' ∧ choice_ok devices l req need chosen' ∧
      (SharesDevice req = true → ParseMemory (g_VRAM req) = Ok need ∧ length chosen' = 1%nat)).
  { intros chosen Hs Hl. exists chosen, need. split; [done|]. split; [by eapply ranked_choice|].
    intros Hsh. unfold want in Hl. rewrite Hsh in Hl, En. done. }
  destruct (_ && _).
  - destruct (sameProduct cands (Z.to_nat want)) as [m|] eqn:Em; [|done]. intros <-%Ok_inj.
    destruct (sameProductFrom_sublist _ _ _ _ Em) as [Hs Hl]. rewrite take_ge by lia. by apply Hdone.
  - intros <-%Ok_inj. apply Hdone; [apply sublist_take|]. rewrite length_take. lia.
Qed.

(** ** Reserving *)

Lemma new_rows_on req now us uuid :
  NoDup us →
  List.filter (on_device uuid) (new_row ParseMemory req now <$> us) =
  if bool_decide (uuid ∈ us) then [new_row ParseMemory req now uuid] else [].
Proof.
  induction 1 as [|u us Hu Hnd IH]; [done|]. rewrite fmap_cons. cbn [List.filter].
  unfold on_device at 1. cbn [gr_DeviceUUID new_row]. rewrite IH.
  destruct (decide (u = uuid)) as [->|Hne].
  - rewrite (bool_decide_true (uuid = uuid)) by done. rewrite (bool_decide_true (uuid ∈ uuid :: us)) by set_solver.
    by rewrite bool_decide_false.
  - rewrite (bool_decide_false (u = uuid)) by done.
    rewrite (bool_decide_ext (uuid ∈ u :: us) (uuid ∈ us)) by set_solver. done.
Qed.

Lemma vram_valid req : validateGPU req = true → SharesDevice req = true → ∀ need, ParseMemory (g_VRAM req) = Ok need → 0 < need.
Proof.
  unfold Gpu.validateGPU. intros Hv Hs need Hn. rewrite Hs, Hn in Hv. destruct (g_Count req <? 0); [done|].
  destruct (0 <? need) eqn:E; bools; [done|]. done.
Qed.

(** Recording a placement keeps the ledger within every device's memory. *)
Lemma reserve_ok cap devices l ns req p r now :
  NoDup (gd_UUID <$> devices) → (∀ d, d ∈ devices → gd_VRAMBytes d = cap (gd_UUID d)) →
  validateGPU req = true → r_GPU r = req →
  ledger_ok cap l → ChooseDevices devices l ns req = Ok p → ledger_ok cap (appendReservations ParseMemory l p r now).
Proof.
  intros Hnd Hcap Hv Hr [Hn Hd] Hc. destruct (ChooseDevices_chosen _ _ _ _ _ Hnd Hc) as (chosen & need & -> & [Hin Hnd'] & Hsh).
  unfold ledger_ok, FindReservations. cbn [l_Reservations appendReservations p_DeviceUUIDs place]. split.
  - apply Forall_app. split; [done|]. apply Forall_fmap, Forall_forall. intros u _. simpl. unfold Gpu.vramBytes. rewrite Hr.
    destruct (SharesDevice req) eqn:Es; [|done]. destruct (ParseMemory (g_VRAM req)) as [v|] eqn:Ep; [|done]. simpl.
    pose proof (vram_valid req Hv Es v Ep). lia.
  - intros uuid. rewrite List.filter_app, (new_rows_on r now _ uuid Hnd').
    case_bool_decide as Hu; [|rewrite app_nil_r; apply Hd]. apply list_elem_of_fmap in Hu as (c & -> & Hcin).
    destruct (Hin c Hcin) as [Hdev Hadm]. specialize (Hd (gd_UUID (c_dev c))). revert Hadm. unfold admissible.
    destruct (HasWholeDeviceHolder l (gd_UUID (c_dev c))) eqn:Ew; [done|].
    fold (FindReservations l (gd_UUID (c_dev c))). set (rows := FindReservations l _) in *.
    destruct (SharesDevice req) eqn:Es; simpl.
    + destruct (Hsh eq_refl) as [Hneed _]. pose proof (vram_valid req Hv Es need Hneed).
      destruct (usable l (c_dev c) 1 <? need) eqn:Eu; [done|]. intros _. bools.
      unfold usable, ReservedBytesWith in Eu. rewrite RequestedBytes_sum in Eu. fold rows in Eu.
      destruct (_ <? 0) eqn:E0; [lia|]. bools. rewrite Hcap in Eu by done.
      right. right. split.
      * apply Forall_app. split; [|by repeat constructor; simpl; rewrite Hr, Es].
        apply Forall_forall. intros x Hx. destruct (gr_WholeDevice x) eqn:Ex; [|done].
        exfalso. apply not_true_iff_false in Ew. apply Ew. unfold HasWholeDeviceHolder. fold rows.
        apply existsb_exists. exists x. split; [by apply list_elem_of_In|done].
      * rewrite sum_bytes_app, length_app. cbn [sum_bytes foldr length]. unfold row_bytes.
        cbn [new_row gr_WholeDevice gr_VRAMBytes]. unfold Gpu.vramBytes. rewrite Hr, Es, Hneed. simpl negb. cbv iota. lia.
    + case_bool_decide as He; [|done]. intros _. right. left. rewrite He. eexists. split; [done|]. simpl. by rewrite Hr, Es.
Qed.

(** ** Every operation keeps every ledger within its node's devices *)

Context (cap : string → string → Z).

Definition all_ok (st : ledgers) : Prop := map_Forall (λ nodeID l, ledger_ok (cap nodeID) l) st.

(** The inventory given with a request describes the node's devices. *)
Definition inventory_ok (nodeID : string) (node : option Node) : Prop :=
  ∀ n, node = Some n →
    NoDup (gd_UUID <$> n_Devices n) ∧ ∀ d, d ∈ n_Devices n → gd_VRAMBytes d = cap nodeID (gd_UUID d).

Inductive gpu_step : ledgers → ledgers → Prop :=
| gs_reserve st node req now creates commits :
    inventory_ok (r_NodeID req) node → validateGPU (r_GPU req) = true →
    gpu_step st (Reserve ParseMemory st node req now creates commits).1
| gs_replacing st node instanceID req now creates commits :
    inventory_ok (r_NodeID req) node → validateGPU (r_GPU req) = true →
    gpu_step st (ReserveReplacing ParseMemory st node instanceID req now creates commits).1
| gs_release st nodeID instanceID now commits : gpu_step st (Release st nodeID instanceID now commits).1
| gs_releaseService st nodeID ns service now commits : gpu_step st (ReleaseService st nodeID ns service now commits).1
| gs_bind st nodeID ns service instanceID devices now commits :
    gpu_step st (BindInstance st nodeID ns service instanceID devices now commits).1.

Lemma UpdateRow_ok {A} st nodeID commits (body : NodeDeviceLedger → result AdmissionError (option NodeDeviceLedger * A)) :
  (∀ l l' a, ledger_ok (cap nodeID) l → body l = Ok (Some l', a) → ledger_ok (cap nodeID) l') →
  all_ok st → all_ok (UpdateRow st nodeID commits body).1.
Proof.
  intros Hb Hst. unfold UpdateRow. destruct (st !! nodeID) as [l|] eqn:El; [|done].
  destruct (body l) as [[[l'|] a]|] eqn:Eb; try done. destruct commits; [|done].
  apply map_Forall_insert_2; [|done]. eapply Hb; [|done]. by apply (Hst nodeID l).
Qed.

Lemma updateLedger_ok {A} st nodeID creates commits (body : NodeDeviceLedger → result AdmissionError (option NodeDeviceLedger * A)) :
  (∀ l l' a, ledger_ok (cap nodeID) l → body l = Ok (Some l', a) → ledger_ok (cap nodeID) l') →
  all_ok st → all_ok (updateLedger st nodeID creates commits body).1.
Proof.
  intros Hb Hst. unfold updateLedger.
  set (st1 := match st !! nodeID with Some _ => st | None => _ end).
  assert (H1 : all_ok st1).
  { unfold st1. destruct (st !! nodeID); [done|]. destruct creates; [|done]. apply map_Forall_insert_2; [|done].
    split; [constructor|]. intros uuid. by left. }
  pose proof (UpdateRow_ok st1 nodeID commits body Hb H1) as H2.
  destruct (UpdateRow st1 nodeID commits body) as [st2 [[a|]|e]]; done.
Qed.

Lemma mutate_ok st nodeID now commits fn :
  (∀ l l', ledger_ok (cap nodeID) l → fn l = Some l' → ledger_ok (cap nodeID) l') →
  all_ok st → all_ok (mutate st nodeID now commits fn).1.
Proof.
  intros Hf Hst. unfold mutate. set (body := λ l, match fn l with None => _ | Some l' => _ end).
  assert (H : all_ok (UpdateRow st nodeID commits body).1).
  { apply UpdateRow_ok; [|done]. intros l l' [] Hl. unfold body. destruct (fn l) as [l1|] eqn:E; [|done].
    intros H. injection H as <-. specialize (Hf l l1 Hl E). done. }
  destruct (UpdateRow st nodeID commits body) as [st2 [a|e]]; done.
Qed.

Lemma dropWhere_ok c l f : ledger_ok c l → ledger_ok c (dropWhere l f).
Proof. apply ledger_ok_sublist, sublist_filterb. Qed.

Lemma dropReport_ok c l f l' : ledger_ok c l → dropReport l f = Some l' → ledger_ok c l'.
Proof. intros Hl. unfold dropReport. destruct (existsb f _); [|done]. intros H. injection H as <-. by apply dropWhere_ok. Qed.

Lemma reserve_mutate_ok n req now l l' p :
  inventory_ok (r_NodeID req) (Some n) → validateGPU (r_GPU req) = true →
  ledger_ok (cap (r_NodeID req)) l → reserve_mutate ParseMemory n req now l = Ok (Some l', p) → ledger_ok (cap (r_NodeID req)) l'.
Proof.
  intros Hinv Hv Hl. unfold reserve_mutate. destruct (ChooseDevices _ _ _ _) as [q|] eqn:Ec; [|done].
  intros H. injection H as <- _. destruct (Hinv n eq_refl) as [Hnd Hcap]. by eapply reserve_ok.
Qed.

(** Binding only renames the holder of a row. *)
Definition claim_of (r : GPURes) : string * Z * bool := (gr_DeviceUUID r, gr_VRAMBytes r, gr_WholeDevice r).

Lemma stamp_claims id targets rows : claim_of <$> stamp id targets rows = claim_of <$> rows.
Proof.
  unfold stamp. revert rows. induction targets as [|i targets IH]; intros rows; simpl; [done|]. rewrite IH.
  apply list_eq. intros j. rewrite !list_lookup_fmap, list_lookup_alter. case_decide; [|done].
  subst. by destruct (rows !! j).
Qed.

Lemma claims_on a b uuid :
  claim_of <$> a = claim_of <$> b →
  claim_of <$> List.filter (on_device uuid) a = claim_of <$> List.filter (on_device uuid) b.
Proof.
  revert b. induction a as [|x a IH]; intros [|y b] H; try done. rewrite !fmap_cons in H. injection H as H1 H2 H3 H.
  cbn [List.filter]. assert (on_device uuid x = on_device uuid y) as -> by (unfold on_device; by rewrite H1).
  specialize (IH b H). destruct (on_device uuid y); [|done]. rewrite !fmap_cons, IH. f_equal. unfold claim_of. congruence.
Qed.

Lemma claims_nonneg a b : claim_of <$> a = claim_of <$> b → rows_nonneg a → rows_nonneg b.
Proof.
  revert b. induction a as [|x a IH]; intros [|y b] H Hn; try done. rewrite !fmap_cons in H. injection H as H1 H2 H3 H.
  apply Forall_cons in Hn as [Hx Hn]. apply Forall_cons. split; [lia|]. by apply IH.
Qed.

Lemma device_ok_claims c a b : claim_of <$> a = claim_of <$> b → device_ok c a → device_ok c b.
Proof.
  intros H. assert (Hs : sum_bytes a = sum_bytes b ∧ length a = length b ∧
    (Forall (λ r, gr_WholeDevice r = false) a → Forall (λ r, gr_WholeDevice r = false) b)).
  { revert b H. induction a as [|x a IH]; intros [|y b] H; try done. rewrite !fmap_cons in H. injection H as H1 H2 H3 H.
    destruct (IH b H) as (E1 & E2 & E3). split_and!.
    - simpl. rewrite E1. unfold row_bytes. by rewrite H2, H3.
    - simpl. by rewrite E2.
    - intros [Hx Hf]%Forall_cons. apply Forall_cons. split; [congruence|auto]. }
  destruct Hs as (E1 & E2 & E3). intros [->|[(r & -> & Hr)|[Hf Hle]]].
  - left. by destruct b.
  - right. left. destruct b as [|y [|]]; try done. rewrite !fmap_cons in H. injection H as _ _ H3. exists y. split; [done|congruence].
  - right. right. split; [auto|]. rewrite <- E1, <- E2. done.
Qed.

Lemma bind_mutate_ok c ns service id devices l l' :
  ledger_ok c l → (bind_mutate ns service id devices l).2 = Some l' → ledger_ok c l'.
Proof.
  intros [Hn Hd]. unfold bind_mutate. destruct (bind_targets _ _ _ _ _) as [unmatched targets]. simpl.
  destruct (_ || _); [done|]. intros H. injection H as <-.
  pose proof (stamp_claims id targets (l_Reservations l)) as Hc. split.
  - by apply (claims_nonneg (l_Reservations l)).
  - intros uuid. apply (device_ok_claims _ (FindReservations l uuid)); [|apply Hd]. by apply claims_on.
Qed.

Lemma gpu_step_ok st st' : gpu_step st st' → all_ok st → all_ok st'.
Proof.
  intros [] Hst.
  - unfold Reserve. destruct (checkInventory node (r_NodeID req)) as [n|] eqn:E; [|done].
    assert (node = Some n) as ->. { revert E. unfold checkInventory. repeat case_match; simplify_eq; congruence. }
    apply updateLedger_ok; [|done]. intros. by eapply reserve_mutate_ok.
  - unfold ReserveReplacing. destruct (checkInventory node (r_NodeID req)) as [n|] eqn:E; [|done].
    assert (node = Some n) as ->. { revert E. unfold checkInventory. repeat case_match; simplify_eq; congruence. }
    apply updateLedger_ok; [|done]. intros l l' a Hl. eapply reserve_mutate_ok; [done..|].
    case_bool_decide; [done|by apply dropWhere_ok].
  - unfold Release. case_bool_decide; [done|]. apply mutate_ok; [|done]. intros. by eapply dropReport_ok.
  - apply mutate_ok; [|done]. intros. by eapply dropReport_ok.
  - unfold BindInstance. do 2 (case_bool_decide; [done|]). destruct (negb _); [done|].
    set (f := λ l, (bind_mutate ns service instanceID devices l).2).
    pose proof (mutate_ok st0 nodeID now commits f) as Hm.
    destruct (mutate st0 nodeID now commits f) as [st1 [[]|e]]; [case_bool_decide|];
      apply Hm; try done; intros; by eapply bind_mutate_ok.
Qed.

Lemma gpu_steps_ok st st' : rtc gpu_step st st' → all_ok st → all_ok st'.
Proof. induction 1; eauto using gpu_step_ok. Qed.

(** C35: no device is overcommitted.  After any sequence of admitted requests,
    replacements, releases and binds by any callers, on every device either a
    whole-device holder is the only holder, or the requested bytes together
    with the system reserve (a floor, and a term per holder) fit its memory. *)
Theorem gpu_no_overcommit st nodeID l uuid :
  rtc gpu_step ∅ st → st !! nodeID = Some l →
  (HasWholeDeviceHolder l uuid = true → length (FindReservations l uuid) = 1%nat) ∧
  (HasWholeDeviceHolder l uuid = false → FindReservations l uuid ≠ [] →
   RequestedBytes l uuid + ReservedBytes l uuid ≤ cap nodeID uuid).
Proof.
  intros Hsteps Hl. destruct (gpu_steps_ok ∅ st Hsteps (map_Forall_empty _) nodeID l Hl) as [_ Hd].
  specialize (Hd uuid). unfold HasWholeDeviceHolder, ReservedBytes, ReservedBytesWith. rewrite RequestedBytes_sum.
  destruct Hd as [->|[(r & -> & Hr)|[Hf Hle]]]; [done| |].
  - simpl. by rewrite Hr.
  - split; [|lia]. intros (x & Hx & Hw)%existsb_exists. rewrite Forall_forall in Hf.
    rewrite (Hf x) in Hw; [done|]. by apply list_elem_of_In.
Qed.
End Gpu.

(** ** The choice of a device *)

Section Choice.
Context (ParseMemory : string → result string Z).

Definition held_by_others (l : NodeDeviceLedger) (ns : string) (d : GPUDevice) : bool :=
  existsb (λ r, negb (bool_decide (gr_Namespace r = ns))) (FindReservations l (gd_UUID d)).

Definition fits (l : NodeDeviceLedger) (need : Z) (d : GPUDevice) : Prop :=
  HasWholeDeviceHolder l (gd_UUID d) = false ∧ need ≤ usable l d 1.

Lemma shared_admissible l req need d : SharesDevice req = true → admissible l req need d = true ↔ fits l need d.
Proof.
  intros Hs. unfold admissible, fits. rewrite Hs. simpl. destruct (HasWholeDeviceHolder l (gd_UUID d)).
  - split; [done|]. by intros [].
  - destruct (usable l d 1 <? need) eqn:E; bools; split; try done; lia.
Qed.

Lemma mk_candidate_tier l ns d :
  (c_tier (mk_candidate l ns d) =? 2) = held_by_others l ns d ∧ 0 ≤ c_tier (mk_candidate l ns d) ≤ 2 ∧
  c_free (mk_candidate l ns d) = usable l d 1.
Proof.
  unfold mk_candidate, held_by_others. generalize (FindReservations l (gd_UUID d)). intros held.
  assert (He : existsb (λ r, negb (bool_decide (gr_Namespace r = ns))) held =
    negb (bool_decide (List.filter (λ n, negb (bool_decide (n = ns))) (gr_Namespace <$> held) = []))).
  { induction held as [|r held IH]; [done|]. rewrite fmap_cons. cbn [existsb List.filter].
    destruct (negb (bool_decide (gr_Namespace r = ns))); [done|]. apply IH. }
  destruct held as [|r held]; [done|]. rewrite He.
  by destruct (List.filter _ _).
Qed.

(** The head of the ranking comes before every other candidate. *)
Lemma rank_head devices l ns req need c rest d :
  rankCandidates devices l ns req need = c :: rest → d ∈ devices → admissible l req need d = true →
  c_tier c ≤ c_tier (mk_candidate l ns d) ∧
  (c_tier c = c_tier (mk_candidate l ns d) → c_free c ≤ c_free (mk_candidate l ns d)).
Proof.
  intros Hr Hd Ha. pose proof (SliceStable_sorted better (mk_candidate l ns <$> List.filter (admissible l req need) devices)) as Hs.
  fold (rankCandidates devices l ns req need) in Hs. rewrite Hr in Hs. apply StronglySorted_inv in Hs as [_ Hf].
  assert (mk_candidate l ns d ∈ c :: rest) as Hin.
  { rewrite <- Hr, rankCandidates_perm. apply list_elem_of_fmap_2. apply elem_of_filterb. done. }
  apply elem_of_cons in Hin as [<-|Hin]; [lia|]. rewrite Forall_forall in Hf. specialize (Hf _ Hin).
  unfold not_after, better in Hf.
  destruct (c_tier (mk_candidate l ns d) =? c_tier c) eqn:E1; simpl in Hf; bools; [|lia].
  destruct (c_free (mk_candidate l ns d) =? c_free c) eqn:E2; simpl in Hf; bools; lia.
Qed.

(** A share is refused only when nothing fits, and placed well.  A vram
    request is refused exactly when no present device without an exclusive
    holder has the bytes free; when placed it goes on a fitting device that no
    other namespace holds if there is one (and reports it when there is none),
    and among equals on the fullest one that fits. *)
Theorem ChooseDevices_shared devices l ns req need :
  SharesDevice req = true → ParseMemory (g_VRAM req) = Ok need →
  match ChooseDevices ParseMemory devices l ns req with
  | Err _ => ∀ d, d ∈ liveDevices devices → ¬ fits l need d
  | Ok p => ∃ dev, p_DeviceUUIDs p = [gd_UUID dev] ∧ dev ∈ liveDevices devices ∧ fits l need dev ∧
      p_CrossNamespace p = held_by_others l ns dev ∧
      (∀ d, d ∈ liveDevices devices → fits l need d → held_by_others l ns dev = true → held_by_others l ns d = true) ∧
      (∀ d, d ∈ liveDevices devices → fits l need d →
         c_tier (mk_candidate l ns d) = c_tier (mk_candidate l ns dev) → usable l dev 1 ≤ usable l d 1)
  end.
Proof.
  intros Hs Hn. unfold Gpu.ChooseDevices. rewrite Hs, Hn. case_bool_decide as Hl.
  { rewrite Hl. intros d Hd. set_solver. }
  set (live := liveDevices devices) in *. assert (length live ≠ 0%nat) by (by destruct live).
  replace (Z.of_nat (length live) <? 1) with false by lia.
  pose proof (rankCandidates_perm live l ns req need) as Hperm.
  destruct (rankCandidates live l ns req need) as [|c rest] eqn:Er.
  - simpl. intros d Hd Hfit. apply (shared_admissible l req need d Hs) in Hfit.
    assert (mk_candidate l ns d ∈ []) as Hin; [|set_solver].
    rewrite Hperm. apply list_elem_of_fmap_2. by apply elem_of_filterb.
  - rewrite (proj2 (Z.ltb_ge (Z.of_nat (length (c :: rest))) 1)) by (simpl; lia). simpl.
    assert (c ∈ c :: rest) as Hc by set_solver. rewrite Hperm, list_elem_of_fmap in Hc.
    destruct Hc as (dev & -> & [Ha Hd]%elem_of_filterb). exists dev.
    destruct (mk_candidate_tier l ns dev) as (Ht & Htr & Hfr). rewrite mk_candidate_dev.
    assert (Hmin : ∀ d, d ∈ live → fits l need d → _) by
      (intros d Hd' Hfit; apply (rank_head _ _ _ _ _ _ _ d Er Hd'); by apply shared_admissible).
    split_and!; try done.
    + by apply shared_admissible in Ha.
    + simpl. rewrite Ht. by destruct (held_by_others l ns dev).
    + intros d Hd' Hfit Ho. destruct (Hmin d Hd' Hfit) as [Hle _]. destruct (mk_candidate_tier l ns d) as (Ht' & Htr' & _).
      rewrite <- Ht'. rewrite Ho in Ht. bools. lia.
    + intros d Hd' Hfit Heq. destruct (Hmin d Hd' Hfit) as [_ Hle]. destruct (mk_candidate_tier l ns d) as (_ & _ & Hfr').
      rewrite <- Hfr, <- Hfr'. by apply Hle.
Qed.
End Choice.

(** ** Witnesses *)

Definition sampleParse (s : string) : result string Z :=
  if bool_decide (s = "20Gi") then Ok (20 * 2 ^ 30) else Err "unparseable".
Definition sampleNode : Node :=
  mkNode "n1" [mkGPUDevice "GPU-a" "L40S" (48 * 2 ^ 30) false; mkGPUDevice "GPU-b" "L40S" (48 * 2 ^ 30) false] (Some 1).
Definition sampleShare : GPURequest := mkGPURequest 0 "20Gi" false.
Definition sampleRequest (ns : string) : Request := mkRequest "n1" ns "engine" "" "" sampleShare.
Definition sampleCap (nodeID uuid : string) : Z := 48 * 2 ^ 30.

Definition sampleLedgers : ledgers :=
  (Reserve sampleParse (Reserve sampleParse ∅ (Some sampleNode) (sampleRequest "a") 5 true true).1
     (Some sampleNode) (sampleRequest "a") 6 true true).1.

Definition sampleLedger : NodeDeviceLedger := default (mkLedger "" [] 0) (sampleLedgers !! "n1").

Lemma sampleInventory_ok : inventory_ok sampleCap "n1" (Some sampleNode).
Proof.
  intros n H. injection H as <-. split; [by apply (bool_decide_eq_true_1 (NoDup _))|].
  intros d Hd. repeat (apply elem_of_cons in Hd as [->|Hd]; [done|]). set_solver.
Qed.

(** Two shares of 20Gi of one namespace end up on the same card. *)
Lemma gpu_no_overcommit_witness :
  length (FindReservations sampleLedger "GPU-a") = 2%nat ∧
  RequestedBytes sampleLedger "GPU-a" + ReservedBytes sampleLedger "GPU-a" ≤ 48 * 2 ^ 30.
Proof.
  split; [vm_compute; reflexivity|].
  refine (proj2 (gpu_no_overcommit sampleParse sampleCap sampleLedgers "n1" sampleLedger "GPU-a" _ _) _ _).
  - refine (rtc_l _ _ _ _ (gs_reserve sampleParse sampleCap ∅ (Some sampleNode) (sampleRequest "a") 5 true true sampleInventory_ok _) _);
      [vm_compute; reflexivity|].
    exact (rtc_once _ _ (gs_reserve sampleParse sampleCap _ (Some sampleNode) (sampleRequest "a") 6 true true sampleInventory_ok eq_refl)).
  - vm_compute. reflexivity.
  - vm_compute. reflexivity.
  - vm_compute. congruence.
Defined.

(** A share of another namespace goes to the empty card. *)
Lemma ChooseDevices_shared_witness :
  ∃ p dev, ChooseDevices sampleParse (n_Devices sampleNode) sampleLedger "b" sampleShare = Ok p ∧
    p_DeviceUUIDs p = ["GPU-b"] ∧ p_DeviceUUIDs p = [gd_UUID dev] ∧ fits sampleLedger (20 * 2 ^ 30) dev ∧
    p_CrossNamespace p = held_by_others sampleLedger "b" dev.
Proof.
  pose proof (ChooseDevices_shared sampleParse (n_Devices sampleNode) sampleLedger "b" sampleShare (20 * 2 ^ 30) eq_refl eq_refl) as H.
  assert (E : ∃ o, ChooseDevices sampleParse (n_Devices sampleNode) sampleLedger "b" sampleShare = Ok (mkPlacement ["GPU-b"] false o))
    by (eexists; vm_compute; reflexivity).
  destruct E as [o E]. rewrite E in H. destruct H as (dev & H1 & _ & H2 & H3 & _).
  eexists. exists dev. split; [exact E|]. split; [reflexivity|]. split; [exact H1|]. split; [exact H2|exact H3].
Defined.

(** ** Binding reservations to instances *)

Section Bind.
Context (ns service id : string).

(** A row on [d] of this service already carrying the instance. *)
Definition bound_row (d : string) (r : GPURes) : Prop :=
  bindable ns service d r = true ∧ gr_InstanceID r = id.

(** ** The row a device resolves to *)

Lemma resolve_bound d rows i idx :
  (∃ r, r ∈ rows ∧ bound_row d r) → resolve ns service id d rows i idx = AlreadyBound.
Proof.
  intros (r & Hr & Hb & Hid). revert i idx. induction rows as [|x rows IH]; intros i idx; simpl; [set_solver|].
  apply elem_of_cons in Hr as [<-|Hr]; [by rewrite Hb, Hid, bool_decide_true|].
  destruct (negb (bindable ns service d x)); [by apply IH|]. case_bool_decide; [done|]. by apply IH.
Qed.

Lemma resolve_already d rows i idx :
  idx ≠ AlreadyBound → resolve ns service id d rows i idx = AlreadyBound → ∃ r, r ∈ rows ∧ bound_row d r.
Proof.
  revert i idx. induction rows as [|x rows IH]; intros i idx Hi; simpl; [done|].
  destruct (bindable ns service d x) eqn:Eb; simpl.
  - case_bool_decide as Hx; [intros _; exists x; split; [set_solver|done]|].
    intros H. apply IH in H; [|destruct idx; [by case_bool_decide|done..]].
    destruct H as (r & Hr & ?). exists r. split; [set_solver|done].
  - intros H. destruct (IH _ _ Hi H) as (r & Hr & ?). exists r. split; [set_solver|done].
Qed.

Lemma resolve_row d rows i idx k :
  resolve ns service id d rows i idx = Row k →
  idx = Row k ∨ ∃ j r, k = (i + j)%nat ∧ rows !! j = Some r ∧ bindable ns service d r = true ∧ gr_InstanceID r = "".
Proof.
  revert i idx. induction rows as [|x rows IH]; intros i idx; simpl; [by left|].
  assert (Hstep : ∀ idx', resolve ns service id d rows (S i) idx' = Row k →
    idx' = Row k ∨ ∃ j r, k = (i + j)%nat ∧ (x :: rows) !! j = Some r ∧ bindable ns service d r = true ∧ gr_InstanceID r = "").
  { intros idx' H. destruct (IH _ _ H) as [?|(j & r & -> & ?)]; [by left|]. right. exists (S j), r. split; [lia|done]. }
  destruct (bindable ns service d x) eqn:Eb; simpl; [|apply Hstep].
  case_bool_decide; [done|]. intros [Heq|?]%Hstep; [|by right].
  destruct idx as [| |k']; try done; [|by left]. case_bool_decide; [|done]. injection Heq as <-. right.
  exists 0%nat, x. split; [lia|]. done.
Qed.

Lemma bindable_device d r : bindable ns service d r = true → gr_DeviceUUID r = d.
Proof. unfold bindable. intros H. by bools. Qed.

(** ** Stamping *)

Lemma stamp_lookup targets rows k :
  stamp id targets rows !! k = (if bool_decide (k ∈ targets) then set_InstanceID id else λ r, r) <$> rows !! k.
Proof.
  unfold stamp. revert rows. induction targets as [|i targets IH]; intros rows; cbn [fold_left].
  { rewrite bool_decide_false by set_solver. by destruct (rows !! k). }
  rewrite IH. destruct (decide (i = k)) as [->|Hne].
  - rewrite list_lookup_alter_eq, (bool_decide_true (k ∈ k :: targets)) by set_solver.
    destruct (rows !! k) as [r|]; [|done]. simpl. by case_bool_decide.
  - rewrite list_lookup_alter_ne by done. by rewrite (bool_decide_ext (k ∈ i :: targets) (k ∈ targets)) by set_solver.
Qed.

Lemma elem_of_unmatched devices rows d :
  d ∈ (bind_targets ns service id devices rows).1 ↔ d ∈ devices ∧ resolve ns service id d rows 0 NoRow = NoRow.
Proof.
  unfold bind_targets. simpl. rewrite list_elem_of_omap. split.
  - intros (x & (e & -> & He)%list_elem_of_fmap & Hx). simpl in Hx. destruct (resolve _ _ _ e _ _ _) eqn:E; try done. by injection Hx as <-.
  - intros [Hd Hr]. exists (d, NoRow). split; [|done]. apply list_elem_of_fmap. exists d. by rewrite Hr.
Qed.

Lemma elem_of_targets devices rows k :
  k ∈ (bind_targets ns service id devices rows).2 ↔ ∃ d, d ∈ devices ∧ resolve ns service id d rows 0 NoRow = Row k.
Proof.
  unfold bind_targets. simpl. rewrite list_elem_of_omap. split.
  - intros (x & (e & -> & He)%list_elem_of_fmap & Hx). simpl in Hx. destruct (resolve _ _ _ e _ _ _) eqn:E; try done.
    injection Hx as <-. by exists e.
  - intros (d & Hd & Hr). exists (d, Row k). split; [|done]. apply list_elem_of_fmap. exists d. by rewrite Hr.
Qed.

Lemma nil_no_elem {A} (l : list A) : (∀ x, x ∉ l) → l = [].
Proof. intros H. destruct l as [|x l]; [done|]. exfalso. apply (H x). set_solver. Qed.

(** What stamping the targets makes of the rows. *)
Definition bind_result (devices : list string) (rows rows' : list GPURes) : Prop :=
  length rows' = length rows ∧
  (∀ i r r', rows !! i = Some r → rows' !! i = Some r' →
     r' = r ∨ r' = set_InstanceID id r ∧ gr_InstanceID r = "" ∧ gr_DeviceUUID r ∈ devices) ∧
  (∀ i j ri rj, rows !! i = Some ri → rows !! j = Some rj → gr_DeviceUUID ri = gr_DeviceUUID rj →
     rows' !! i ≠ Some ri → rows' !! j ≠ Some rj → i = j) ∧
  (∀ d, d ∈ devices → ∃ r, r ∈ rows' ∧ bound_row d r).

Lemma stamped devices rows :
  (bind_targets ns service id devices rows).1 = [] →
  bind_result devices rows (stamp id (bind_targets ns service id devices rows).2 rows).
Proof.
  intros Hun. set (targets := (bind_targets ns service id devices rows).2).
  assert (Ht : ∀ k r, k ∈ targets → rows !! k = Some r →
    ∃ d, d ∈ devices ∧ resolve ns service id d rows 0 NoRow = Row k ∧ bindable ns service d r = true ∧ gr_InstanceID r = "").
  { intros k r (d & Hd & Hr)%elem_of_targets Hk. destruct (resolve_row _ _ _ _ _ Hr) as [?|(j & r' & -> & Hj & Hb & Hi)]; [done|].
    simpl in Hk. rewrite Hk in Hj. injection Hj as <-. by exists d. }
  split_and!.
  - unfold stamp. clear. generalize rows. induction targets as [|i l IH]; intros a; simpl; [done|]. by rewrite IH, length_alter.
  - intros i r r' Hr Hr'. rewrite stamp_lookup, Hr in Hr'. case_bool_decide as Hi; simpl in Hr'; injection Hr' as <-; [|by left].
    right. destruct (Ht i r Hi Hr) as (d & Hd & _ & Hb & Hid). apply bindable_device in Hb as ->. done.
  - intros i j ri rj Hri Hrj Hdev Hi Hj. rewrite stamp_lookup, Hri in Hi. rewrite stamp_lookup, Hrj in Hj.
    case_bool_decide as Ej; [|done]. case_bool_decide as Ei; [|done].
    destruct (Ht i ri Ei Hri) as (d & _ & Rd & Bd & _). destruct (Ht j rj Ej Hrj) as (e & _ & Re & Be & _).
    apply bindable_device in Bd, Be. assert (d = e) as -> by congruence. congruence.
  - intros d Hd. destruct (resolve ns service id d rows 0 NoRow) as [| |k] eqn:E.
    + exfalso. assert (d ∈ (bind_targets ns service id devices rows).1) as H by (by apply elem_of_unmatched).
      rewrite Hun in H. set_solver.
    + destruct (resolve_already d rows 0 NoRow) as (r & (i & Hi)%list_elem_of_lookup & Hb & Hid); [done|done|].
      eexists. split; [apply list_elem_of_lookup; exists i; rewrite stamp_lookup, Hi; done|].
      case_bool_decide; by split.
    + destruct (resolve_row _ _ _ _ _ E) as [?|(j & r & -> & Hj & Hb & Hid)]; [done|]. simpl in *.
      exists (set_InstanceID id r). split; [|by split]. apply list_elem_of_lookup. exists j.
      rewrite stamp_lookup, Hj, bool_decide_true; [done|]. apply elem_of_targets. by exists d.
Qed.

(** Once every device has its row, nothing is left to match or to stamp. *)
Lemma bind_settled devices rows :
  (∀ d, d ∈ devices → ∃ r, r ∈ rows ∧ bound_row d r) → bind_targets ns service id devices rows = ([], []).
Proof.
  intros Hb. destruct (bind_targets ns service id devices rows) as [u t] eqn:E. f_equal.
  - apply nil_no_elem. intros d Hd. assert (d ∈ (bind_targets ns service id devices rows).1) as H by (by rewrite E).
    apply elem_of_unmatched in H as [Hin Hr]. by rewrite resolve_bound in Hr by (by apply Hb).
  - apply nil_no_elem. intros k Hk. assert (k ∈ (bind_targets ns service id devices rows).2) as H by (by rewrite E).
    apply elem_of_targets in H as (d & Hin & Hr). by rewrite resolve_bound in Hr by (by apply Hb).
Qed.
End Bind.

(** Binding is exact, all-or-nothing and idempotent.  A failed bind
    changes no ledger.  A successful one leaves every named device with a row
    of the service carrying the instance, touches at most one row per device,
    only rows that were unbound and on a named device, and repeating it
    changes nothing. *)
Theorem BindInstance_exact st nodeID ns service id devices now commits :
  match BindInstance st nodeID ns service id devices now commits with
  | (st', Err _) => st' = st
  | (st', Ok _) =>
      (∃ l l', st !! nodeID = Some l ∧ st' !! nodeID = Some l' ∧
         bind_result ns service id devices (l_Reservations l) (l_Reservations l')) ∧
      (∀ n, n ≠ nodeID → st' !! n = st !! n) ∧
      (∀ now' commits', BindInstance st' nodeID ns service id devices now' commits' = (st', Ok tt))
  end.
Proof.
  destruct (BindInstance st nodeID ns service id devices now commits) as [st' res] eqn:EB. revert EB.
  unfold BindInstance. case_bool_decide as Hid; [by intros [= <- <-]|]. case_bool_decide as Hdv; [by intros [= <- <-]|].
  destruct (negb (bool_decide (NoDup devices))); [by intros [= <- <-]|].
  assert (Hidem : ∀ (s : ledgers) l, s !! nodeID = Some l → (∀ d, d ∈ devices → ∃ r, r ∈ l_Reservations l ∧ bound_row ns service id d r) →
    ∀ now' commits', (let unmatched := match s !! nodeID with None => devices | Some l => (bind_mutate ns service id devices l).1 end in
      match mutate s nodeID now' commits' (λ l, (bind_mutate ns service id devices l).2) with
      | (s, Err e) => (s, Err e)
      | (s, Ok _) => if bool_decide (unmatched = []) then (s, Ok tt) else (s, Err (ErrUnmatched unmatched))
      end) = (s, Ok tt)).
  { intros s l Hs Hb now' commits'. cbv zeta. unfold mutate, UpdateRow. rewrite Hs. unfold bind_mutate. by rewrite bind_settled. }
  unfold mutate at 1, UpdateRow. destruct (st !! nodeID) as [l|] eqn:El.
  2:{ cbv zeta. rewrite bool_decide_false by done. by intros [= <- <-]. }
  destruct (bind_mutate ns service id devices l) as [u ol] eqn:Em. unfold bind_mutate in Em.
  pose proof (stamped ns service id devices (l_Reservations l)) as Hst.
  destruct (bind_targets ns service id devices (l_Reservations l)) as [u' t] eqn:Et. injection Em as -> <-.
  cbn [fst snd] in *. destruct (decide (u = [])) as [->|Hu].
  2:{ rewrite (bool_decide_false (u = [])) by done. cbn [negb orb]. by intros [= <- <-]. }
  specialize (Hst eq_refl). rewrite (bool_decide_true ([] = [])) by done. cbn [negb orb].
  destruct (decide (t = [])) as [->|Htn].
  - rewrite bool_decide_true by done. intros [= <- <-]. split_and!; [exists l, l; done|done|].
    intros. by apply (Hidem st l El), Hst.
  - rewrite bool_decide_false by done. destruct commits; intros [= <- <-]; [|done]. split_and!.
    + exists l. eexists. split; [done|]. split; [apply lookup_insert_eq|]. done.
    + intros n Hn. by apply lookup_insert_ne.
    + intros. eapply Hidem; [apply lookup_insert_eq|]. apply Hst.
Qed.
