(* ===== verification/Ipv4.v ===== *)
(** * IPv4 addresses and prefixes (Go's package net, as used by the networking code)

    An address is its 32-bit value.  Only dotted IPv4 text is read; IPv6 text
    is refused, which is what the callers modelled here do with it. *)

From S2P Require Import Prelude.
From Stdlib Require Import Ascii.

Definition ip_range (z : Z) : Prop := 0 ≤ z < 2 ^ 32.

(** ** Text *)

Definition digit (c : ascii) : option Z :=
  let n := Z.of_nat (nat_of_ascii c) in
  if (48 <=? n) && (n <=? 57) then Some (n - 48) else None.

Definition digit_char (d : Z) : ascii := ascii_of_nat (Z.to_nat (48 + d)).

(** Decimal digits of a byte, without leading zeros. *)
Definition byte_string (b : Z) : string :=
  if b <? 10 then String (digit_char b) EmptyString
  else if b <? 100 then String (digit_char (b / 10)) (String (digit_char (b mod 10)) EmptyString)
  else String (digit_char (b / 100)) (String (digit_char (b / 10 mod 10)) (String (digit_char (b mod 10)) EmptyString)).

(** [net.IP.String] of an IPv4 address. *)
Definition IP_String (z : Z) : string :=
  byte_string (z / 2 ^ 24 mod 256) +:+ "." +:+ byte_string (z / 2 ^ 16 mod 256) +:+ "." +:+
  byte_string (z / 2 ^ 8 mod 256) +:+ "." +:+ byte_string (z mod 256).

(** The field loop of [net/netip.parseIPv4]: no empty field, no leading zero,
    at most 255, exactly four fields. *)
Fixpoint parseFields (s : string) (pos val digLen acc : Z) : option Z :=
  match s with
  | EmptyString => if (digLen =? 0) || (pos <? 3) then None else Some (acc * 256 + val)
  | String c s =>
      match digit c with
      | Some d =>
          if (digLen =? 1) && (val =? 0) then None
          else if 255 <? val * 10 + d then None
          else parseFields s pos (val * 10 + d) (digLen + 1) acc
      | None =>
          if Ascii.eqb c "." then
            if (digLen =? 0) || (pos =? 3) then None else parseFields s (pos + 1) 0 0 (acc * 256 + val)
          else None
      end
  end.

Definition ParseIP (s : string) : option Z := parseFields s 0 0 0 0.

(** ** Prefixes *)

Record IPNet := mkIPNet { net_IP : Z; net_Ones : Z }.

(** [net.dtoi] on the whole text. *)
Fixpoint dtoi (s : string) (n : Z) : option Z :=
  match s with
  | EmptyString => Some n
  | String c s =>
      match digit c with
      | Some d => if 16777215 <=? n * 10 + d then None else dtoi s (n * 10 + d)
      | None => None
      end
  end.

(** The text before and after the first slash. *)
Fixpoint cut_slash (s : string) : option (string * string) :=
  match s with
  | EmptyString => None
  | String c s =>
      if Ascii.eqb c "/" then Some (EmptyString, s)
      else match cut_slash s with Some (a, b) => Some (String c a, b) | None => None end
  end.

Definition hosts (ones : Z) : Z := 2 ^ (32 - ones).

(** [net.ParseCIDR]: the address masked to its prefix. *)
Definition ParseCIDR (s : string) : option IPNet :=
  match cut_slash s with
  | None => None
  | Some (addr, mask) =>
      match ParseIP addr, (if bool_decide (mask = "") then None else dtoi mask 0) with
      | Some ip, Some n => if 32 <? n then None else Some (mkIPNet (ip - ip mod hosts n) n)
      | _, _ => None
      end
  end.

(** [IPNet.Contains]. *)
Definition Contains (n : IPNet) (ip : Z) : bool := ip - ip mod hosts (net_Ones n) =? net_IP n.

(** The all-ones address of a prefix. *)
Definition broadcast (n : IPNet) : Z := net_IP n + hosts (net_Ones n) - 1.

(** ** Text round trip *)

#[local] Arguments String.append !_ _ : simpl nomatch.

Lemma string_app_nil s : s +:+ "" = s.
Proof. induction s as [|c s IH]; [done|]. cbn [String.append]. by rewrite IH. Qed.

Lemma digit_digit_char d : 0 ≤ d < 10 → digit (digit_char d) = Some d.
Proof.
  intros H. assert (Forall (λ d, digit (digit_char d) = Some d) (seqZ 0 10)) as Hall
    by (repeat (apply Forall_cons; split; [vm_compute; reflexivity|]); apply Forall_nil; exact I).
  rewrite Forall_forall in Hall. apply Hall, elem_of_seqZ. lia.
Qed.

(** A field is consumed up to whatever follows it. *)
Lemma parse_byte b rest pos acc :
  0 ≤ b < 256 → ∃ k, 1 ≤ k ∧ parseFields (byte_string b +:+ rest) pos 0 0 acc = parseFields rest pos b k acc.
Proof.
  intros Hb. unfold byte_string. destruct (b <? 10) eqn:E1; bools.
  { exists 1. split; [lia|]. cbn [String.append parseFields]. rewrite digit_digit_char by lia.
    change ((0 =? 1) && (0 =? 0)) with false. rewrite (proj2 (Z.ltb_ge _ _)) by lia. f_equal. }
  pose proof (Z.div_mod b 10). pose proof (Z.mod_pos_bound b 10). destruct (b <? 100) eqn:E2; bools.
  { exists 2. split; [lia|]. cbn [String.append parseFields]. rewrite !digit_digit_char by lia.
    change ((0 =? 1) && (0 =? 0)) with false. rewrite (proj2 (Z.ltb_ge 255 (0 * 10 + _))) by lia.
    rewrite (proj2 (Z.eqb_neq (0 * 10 + b / 10) 0)), andb_false_r by lia.
    rewrite (proj2 (Z.ltb_ge _ _)) by lia. f_equal. lia. }
  exists 3. split; [lia|]. assert (b / 10 / 10 = b / 100) as Hdd by (rewrite Z.div_div by lia; done).
  pose proof (Z.div_mod (b / 10) 10). pose proof (Z.mod_pos_bound (b / 10) 10).
  cbn [String.append parseFields]. rewrite !digit_digit_char by lia.
  change ((0 =? 1) && (0 =? 0)) with false. rewrite (proj2 (Z.ltb_ge 255 (0 * 10 + _))) by lia.
  rewrite (proj2 (Z.eqb_neq (0 * 10 + b / 100) 0)), andb_false_r by lia.
  rewrite (proj2 (Z.ltb_ge 255 ((0 * 10 + b / 100) * 10 + _))) by lia.
  rewrite (proj2 (Z.eqb_neq (0 + 1 + 1) 1)) by lia. cbn [andb].
  rewrite (proj2 (Z.ltb_ge _ _)) by lia. f_equal. lia.
Qed.

Lemma parse_dot rest pos b k acc :
  1 ≤ k → pos ≠ 3 → parseFields ("." +:+ rest) pos b k acc = parseFields rest (pos + 1) 0 0 (acc * 256 + b).
Proof.
  intros Hk Hp. cbn [String.append parseFields]. change (digit ".") with (@None Z). cbn [Ascii.eqb].
  rewrite (proj2 (Z.eqb_neq k 0)), (proj2 (Z.eqb_neq pos 3)) by lia. done.
Qed.

Lemma ParseIP_String z : ip_range z → ParseIP (IP_String z) = Some z.
Proof.
  intros Hz. unfold ip_range in Hz. unfold ParseIP, IP_String.
  assert (Hm : ∀ x, 0 ≤ x mod 256 < 256) by (intros; apply Z.mod_pos_bound; lia).
  destruct (parse_byte (z / 2 ^ 24 mod 256) ("." +:+ byte_string (z / 2 ^ 16 mod 256) +:+ "." +:+
    byte_string (z / 2 ^ 8 mod 256) +:+ "." +:+ byte_string (z mod 256)) 0 0 (Hm _)) as (k1 & H1 & ->).
  rewrite parse_dot by lia.
  destruct (parse_byte (z / 2 ^ 16 mod 256) ("." +:+ byte_string (z / 2 ^ 8 mod 256) +:+ "." +:+ byte_string (z mod 256))
    (0 + 1) (0 * 256 + z / 2 ^ 24 mod 256) (Hm _)) as (k2 & H2 & ->).
  rewrite parse_dot by lia.
  destruct (parse_byte (z / 2 ^ 8 mod 256) ("." +:+ byte_string (z mod 256)) (0 + 1 + 1)
    ((0 * 256 + z / 2 ^ 24 mod 256) * 256 + z / 2 ^ 16 mod 256) (Hm _)) as (k3 & H3 & ->).
  rewrite parse_dot by lia. rewrite <- (string_app_nil (byte_string (z mod 256))).
  destruct (parse_byte (z mod 256) "" (0 + 1 + 1 + 1)
    (((0 * 256 + z / 2 ^ 24 mod 256) * 256 + z / 2 ^ 16 mod 256) * 256 + z / 2 ^ 8 mod 256) (Hm _)) as (k4 & H4 & ->).
  cbn [parseFields]. rewrite (proj2 (Z.eqb_neq k4 0)) by lia. change (0 + 1 + 1 + 1 <? 3) with false. cbn [orb]. f_equal.
  pose proof (Z.div_mod z 256). pose proof (Z.div_mod (z / 256) 256). pose proof (Z.div_mod (z / 256 / 256) 256).
  change (2 ^ 24) with (256 * 256 * 256). change (2 ^ 16) with (256 * 256). change (2 ^ 8) with 256.
  rewrite <- !Z.div_div by lia. assert (0 ≤ z / 256 / 256 / 256 < 256).
  { split; [repeat apply Z.div_pos; lia|]. rewrite !Z.div_div by lia. apply Z.div_lt_upper_bound; lia. }
  rewrite (Z.mod_small (z / 256 / 256 / 256)) by lia. lia.
Qed.

Lemma IP_String_inj a b : ip_range a → ip_range b → IP_String a = IP_String b → a = b.
Proof. intros Ha Hb H. apply (f_equal ParseIP) in H. rewrite !ParseIP_String in H by done. by injection H. Qed.
