(* ===== verification/Vip.v ===== *)
(** * The VIP allocator (pkg/networking/vip/{allocator,ops}.go)

    The allocator keeps the cluster network as one JSON record in the ordered
    log's store, changed only by the appliers of its three op types, and mirrors
    it in memory; the mirror is the backend's applier memory, which a failed
    commit does not roll back.  A failed read of the record counts as a missing
    record, as in the source.  The JSON encoding of the record is a parameter. *)

From S2P Require Import Prelude EventCodec OrderedLog Ipv4.

(** ** Data (pkg/types/cluster_network.go) *)

Record ClusterNetwork := mkClusterNetwork {
  cn_CIDR : string;
  cn_AllocatedVIPs : gmap string string;
  cn_FreeList : list string;
}.

Definition zero_network : ClusterNetwork := mkClusterNetwork "" ∅ [].

Inductive vip_op :=
| bootstrapOp (CIDR : string)
| allocateOp (ServiceID : string)
| releaseOp (IP : string).

Definition OpTypeBootstrapClusterNetwork : bytes := bytes_of "vip.bootstrap".
Definition OpTypeAllocateVIP : bytes := bytes_of "vip.allocate".
Definition OpTypeReleaseVIP : bytes := bytes_of "vip.release".

Definition vip_OpType (op : vip_op) : bytes :=
  match op with
  | bootstrapOp _ => OpTypeBootstrapClusterNetwork
  | allocateOp _ => OpTypeAllocateVIP
  | releaseOp _ => OpTypeReleaseVIP
  end.

Definition keyClusterNetwork : bytes := bytes_of "network/cluster".

(** The sentinel errors, as the messages the appliers return. *)
Definition ErrCIDRExhausted : string := "vip: cluster CIDR exhausted; expand --cluster-cidr or release unused services".
Definition ErrAlreadyBootstrapped : string :=
  "vip: cluster network already bootstrapped with a different CIDR; reset cluster to change".
Definition ErrInvalidCIDR : string := "vip: invalid CIDR (must be a private IPv4 range)".
Definition ErrCIDRCollision : string := "vip: cluster CIDR overlaps an existing host route".
Definition ErrServiceNotAllocated : string := "vip: service has no VIP allocation".

Definition ReleaseCooldown : Duration := 60 * Second.

(** ** Picking an address *)

Definition incIP (ip : Z) : Z := (ip + 1) mod 2 ^ 32.

Inductive pick := Found (ip : Z) | Exhausted | OutOfFuel.

Fixpoint pickFrom (fuel : nat) (cur bcast : Z) (used : gset string) : pick :=
  match fuel with
  | O => OutOfFuel
  | S fuel =>
      if cur =? bcast then Exhausted
      else if bool_decide (IP_String cur ∈ used) then pickFrom fuel (incIP cur) bcast used
      else Found cur
  end.

(** [net.IP.String] of what [net.ParseIP] returned, nil included. *)
Definition reprint (s : string) : string :=
  match ParseIP s with Some z => IP_String z | None => "<nil>" end.

(** The address to hand out, as text, and the remaining free list.  Every
    address the loop skips is in use, so one round more than there are
    allocations is enough (Lemma [pickFrom_spec] of VipProps). *)
Definition pickIP (cidr : string) (freeList : list string) (allocated : gmap string string)
    : result string (string * list string) :=
  match freeList with
  | ip :: rest => Ok (reprint ip, rest)
  | [] =>
      match ParseCIDR cidr with
      | None => Err ErrInvalidCIDR
      | Some n =>
          let used : gset string := list_to_set (map_to_list allocated).*2 in
          match pickFrom (S (size allocated)) (incIP (incIP (net_IP n))) (broadcast n) used with
          | Found ip => Ok (IP_String ip, [])
          | _ => Err ErrCIDRExhausted
          end
      end
  end.

(** ** Validation *)

Definition privateRanges : list IPNet :=
  omap ParseCIDR ["10.0.0.0/8"; "172.16.0.0/12"; "192.168.0.0/16"; "100.64.0.0/10"].

Definition isPrivateOrCGNAT (ip : Z) : bool := existsb (λ p, Contains p ip) privateRanges.

Definition validatePrivateCIDR (cidr : string) : result string IPNet :=
  match ParseCIDR cidr with
  | None => Err ErrInvalidCIDR
  | Some n => if isPrivateOrCGNAT (net_IP n) then Ok n else Err ErrInvalidCIDR
  end.

Section Vip.
Context (Marshal : ClusterNetwork → bytes) (Unmarshal : bytes → result string ClusterNetwork).
Context (opMarshal : vip_op → result string bytes).

(** ** Appliers *)

Notation answer := (ClusterNetwork * result string (list Mutation))%type.

(** What a stored record decodes to: a missing or empty one is the zero value. *)
Definition decode_state (raw : option bytes) : result string ClusterNetwork :=
  match raw with
  | None | Some [] => Ok zero_network
  | Some r => Unmarshal r
  end.

(** A read that fails is taken for a missing record. *)
Definition loadStateTxn (k : result string ClusterNetwork → txn answer) : txn answer :=
  TGet keyClusterNetwork (λ r, k match r with Err _ => Ok zero_network | Ok raw => decode_state raw end).

(** Save [cn] and, once written, make it the mirror; otherwise keep [m]. *)
Definition saveStateTxn (cn m : ClusterNetwork) : txn answer :=
  TSet keyClusterNetwork (Marshal cn) (λ r, TRet
    match r with
    | Err e => (m, Err e)
    | Ok _ => (cn, Ok [mkMutation MutationPut (bytes_of "clusternetwork") [] (bytes_of "cluster") (Marshal cn)])
    end).

Definition applyBootstrap (op : vip_op) (m : ClusterNetwork) : txn answer :=
  loadStateTxn (λ r,
    match r, op with
    | Err e, _ => TRet (m, Err e)
    | Ok cur, bootstrapOp cidr =>
        if negb (bool_decide (cn_CIDR cur = "")) then
          if negb (bool_decide (cn_CIDR cur = cidr)) then TRet (m, Err ErrAlreadyBootstrapped)
          else TRet (cur, Ok [])
        else saveStateTxn (mkClusterNetwork cidr ∅ []) m
    | Ok _, _ => TRet (m, Err "unexpected op")
    end).

Definition applyAllocate (op : vip_op) (m : ClusterNetwork) : txn answer :=
  loadStateTxn (λ r,
    match r, op with
    | Err e, _ => TRet (m, Err e)
    | Ok cur, allocateOp sid =>
        if bool_decide (cn_CIDR cur = "") then TRet (m, Err "vip: ClusterNetwork not bootstrapped")
        else match cn_AllocatedVIPs cur !! sid with
             | Some _ => TRet (m, Ok [])
             | None =>
                 match pickIP (cn_CIDR cur) (cn_FreeList cur) (cn_AllocatedVIPs cur) with
                 | Err e => TRet (m, Err e)
                 | Ok (ip, free) =>
                     saveStateTxn (mkClusterNetwork (cn_CIDR cur) (<[sid := ip]> (cn_AllocatedVIPs cur)) free) m
                 end
             end
    | Ok _, _ => TRet (m, Err "unexpected op")
    end).

(** The owner found by ranging over the map ("" when there is none). *)
Definition owner_of_ip (allocated : gmap string string) (ip : string) : string :=
  match List.find (λ kv : string * string, bool_decide (kv.2 = ip)) (map_to_list allocated) with
  | Some (sid, _) => sid
  | None => ""
  end.

Definition applyRelease (op : vip_op) (m : ClusterNetwork) : txn answer :=
  loadStateTxn (λ r,
    match r, op with
    | Err e, _ => TRet (m, Err e)
    | Ok cur, releaseOp ip =>
        let owner := owner_of_ip (cn_AllocatedVIPs cur) ip in
        if bool_decide (owner = "") then TRet (m, Ok [])
        else saveStateTxn (mkClusterNetwork (cn_CIDR cur) (delete owner (cn_AllocatedVIPs cur)) (cn_FreeList cur ++ [ip])) m
    | Ok _, _ => TRet (m, Err "unexpected op")
    end).

(** ** The allocator *)

(** [Allocator]: the log it proposes to, whose applier memory is [a.state]; the
    releases waiting for their cooldown. *)
Record Allocator := mkAllocator {
  a_olog : Backend ClusterNetwork vip_op;
  a_pending : gmap string Time;
}.

Definition register_one (b : Backend ClusterNetwork vip_op) (t : bytes) (f : Applier ClusterNetwork vip_op)
    : result LogError (Backend ClusterNetwork vip_op) :=
  match Register b t f with
  | Ok b' => Ok b'
  | Err ErrAlreadyRegistered => Ok b
  | Err e => Err e
  end.

Definition NewAllocator (b : Backend ClusterNetwork vip_op) : result LogError Allocator :=
  match register_one b OpTypeBootstrapClusterNetwork applyBootstrap with
  | Err e => Err e
  | Ok b => match register_one b OpTypeAllocateVIP applyAllocate with
      | Err e => Err e
      | Ok b => match register_one b OpTypeReleaseVIP applyRelease with
          | Err e => Err e
          | Ok b => Ok (mkAllocator b ∅)
          end
      end
  end.

Definition propose (a : Allocator) (op : vip_op) (ctxErr : option string) (x : badger) : Allocator * result LogError Z :=
  let '(b, r) := Propose vip_OpType opMarshal (a_olog a) op ctxErr x in (mkAllocator b (a_pending a), r).

(** [Bootstrap]; [collides] is [checkRouteCollision]. *)
Definition Bootstrap (a : Allocator) (desired : string) (SkipRouteCheck : bool) (collides : IPNet → bool)
    (ctxErr : option string) (x : badger) : Allocator * result LogError unit :=
  let have := cn_CIDR (b_mem (a_olog a)) in
  if negb (bool_decide (have = "")) then
    if negb (bool_decide (desired = "")) && negb (bool_decide (have = desired))
    then (a, Err (ErrLogOther ErrAlreadyBootstrapped)) else (a, Ok tt)
  else if bool_decide (desired = "") then (a, Err (ErrLogOther "vip: no CIDR configured and no existing ClusterNetwork found"))
  else match validatePrivateCIDR desired with
  | Err e => (a, Err (ErrLogOther e))
  | Ok n =>
      if negb SkipRouteCheck && collides n then (a, Err (ErrLogOther ErrCIDRCollision))
      else match propose a (bootstrapOp desired) ctxErr x with
           | (a', Err e) => (a', Err e)
           | (a', Ok _) => (a', Ok tt)
           end
  end.

Definition Allocate (a : Allocator) (serviceID : string) (ctxErr : option string) (x : badger)
    : Allocator * result LogError (option Z) :=
  if bool_decide (serviceID = "") then (a, Err (ErrLogOther "vip: empty serviceID"))
  else match cn_AllocatedVIPs (b_mem (a_olog a)) !! serviceID with
  | Some existing => (a, Ok (ParseIP existing))
  | None =>
      match propose a (allocateOp serviceID) ctxErr x with
      | (a', Err e) => (a', Err e)
      | (a', Ok _) =>
          match cn_AllocatedVIPs (b_mem (a_olog a')) !! serviceID with
          | Some ip => (a', Ok (ParseIP ip))
          | None => (a', Err (ErrLogOther "vip: allocation vanished after commit"))
          end
      end
  end.

Definition Release (a : Allocator) (serviceID : string) (now : Time) : Allocator * result LogError unit :=
  match cn_AllocatedVIPs (b_mem (a_olog a)) !! serviceID with
  | None => (a, Err (ErrLogOther ErrServiceNotAllocated))
  | Some ip =>
      match a_pending a !! ip with
      | Some _ => (a, Ok tt)
      | None => (mkAllocator (a_olog a) (<[ip := now + ReleaseCooldown]> (a_pending a)), Ok tt)
      end
  end.

(** [flushReady] at [now]: the error of the allocator's context, which [Close]
    cancels, and Badger's answers at each proposal. *)
Definition ready_at (now : Time) (pending : gmap string Time) : list string :=
  (List.filter (λ kv : string * Time, negb (Before now kv.2)) (map_to_list pending)).*1.

Definition flushOne (now : Time) (ctxErr : string → option string) (x : string → badger) (a : Allocator) (ip : string) : Allocator :=
  match propose a (releaseOp ip) (ctxErr ip) (x ip) with
  | (a', Ok _) => a'
  | (a', Err _) => mkAllocator (a_olog a') (<[ip := now + Second]> (a_pending a'))
  end.

Definition flushReady (a : Allocator) (now : Time) (ctxErr : string → option string) (x : string → badger) : Allocator :=
  let ready := ready_at now (a_pending a) in
  fold_left (flushOne now ctxErr x) ready
    (mkAllocator (a_olog a) (fold_left (λ p ip, delete ip p) ready (a_pending a))).
End Vip.
