(* ===== verification/VipProps.v ===== *)
(** * The VIP allocator: one address per service, inside the range *)

From S2P Require Import Prelude EventCodec OrderedLog OrderedLogProps Ipv4 Vip.

#[local] Arguments IP_String _ : simpl never.
#[local] Arguments String.append _ _ : simpl never.
#[local] Arguments HasPrefix _ _ : simpl never.
#[local] Arguments eventKey _ : simpl never.

(** ** Parsed prefixes *)

Lemma digit_range c d : digit c = Some d → 0 ≤ d ≤ 9.
Proof. unfold digit. destruct (_ && _) eqn:E; [|done]. bools. intros Heq. injection Heq as <-. lia. Qed.

Lemma parseFields_range s pos val digLen acc z :
  0 ≤ pos ≤ 3 → 0 ≤ val ≤ 255 → 0 ≤ acc < 256 ^ pos → parseFields s pos val digLen acc = Some z → 0 ≤ z < 2 ^ 32.
Proof.
  revert pos val digLen acc. induction s as [|c s IH]; intros pos val digLen acc Hp Hv Ha; cbn [parseFields].
  - destruct (_ || _) eqn:E; [done|]. bools. assert (pos = 3) as -> by lia. intros Heq. injection Heq as <-. lia.
  - destruct (digit c) as [d|] eqn:Ed.
    + apply digit_range in Ed. destruct (_ && _); [done|]. destruct (255 <? _) eqn:E; [done|]. bools. apply IH; lia.
    + destruct (Ascii.eqb c _); [|done]. destruct (_ || _) eqn:E; [done|]. bools. apply IH; [lia|lia|].
      rewrite Z.pow_add_r by lia. lia.
Qed.

Lemma ParseIP_range s z : ParseIP s = Some z → ip_range z.
Proof. unfold ParseIP. intros H. eapply (parseFields_range s 0 0 0 0); [lia|lia|simpl; lia|done]. Qed.

Lemma dtoi_nonneg s n k : 0 ≤ n → dtoi s n = Some k → 0 ≤ k.
Proof.
  revert n. induction s as [|c s IH]; intros n Hn; cbn [dtoi]; [intros Heq; by injection Heq as <-|].
  destruct (digit c) as [d|] eqn:Ed; [|done]. apply digit_range in Ed. destruct (_ <=? _); [done|]. apply IH. lia.
Qed.

(** A prefix is aligned and lies in the address space. *)
Lemma ParseCIDR_range s n :
  ParseCIDR s = Some n →
  0 ≤ net_Ones n ≤ 32 ∧ 0 < hosts (net_Ones n) ∧ 0 ≤ net_IP n ∧ net_IP n + hosts (net_Ones n) ≤ 2 ^ 32 ∧
  net_IP n mod hosts (net_Ones n) = 0.
Proof.
  unfold ParseCIDR. destruct (cut_slash s) as [[addr mask]|]; [|done]. destruct (ParseIP addr) as [ip|] eqn:Ei; [|done].
  destruct (if bool_decide (mask = "") then None else dtoi mask 0) as [k|] eqn:Ek; [|done].
  destruct (32 <? k) eqn:E32; [done|]. bools. intros Heq. injection Heq as <-. cbn [net_IP net_Ones].
  apply ParseIP_range in Ei. unfold ip_range in Ei.
  assert (0 ≤ k) by (case_bool_decide; [done|]; by eapply (dtoi_nonneg _ 0)).
  assert (Hh : 2 ^ 32 = 2 ^ k * hosts k) by (unfold hosts; rewrite <- Z.pow_add_r by lia; f_equal; lia).
  assert (0 < hosts k) by (unfold hosts; apply Z.pow_pos_nonneg; lia). assert (0 < 2 ^ k) by (apply Z.pow_pos_nonneg; lia).
  pose proof (Z.div_mod ip (hosts k) ltac:(lia)). pose proof (Z.mod_pos_bound ip (hosts k) ltac:(lia)).
  assert (ip - ip mod hosts k = ip / hosts k * hosts k) as -> by lia.
  assert (0 ≤ ip / hosts k) by (apply Z.div_pos; lia).
  assert (ip / hosts k < 2 ^ k) by (apply Z.div_lt_upper_bound; lia).
  split_and!; [lia|lia|lia|lia|nia|]. by apply Z.mod_mul; lia.
Qed.

(** ** The scan for a free address *)

Definition usable_ip (n : IPNet) (z : Z) : Prop := net_IP n + 2 ≤ z < broadcast n.

Lemma pickFrom_spec fuel cur bcast used :
  0 ≤ cur ≤ bcast → bcast < 2 ^ 32 →
  countb (λ z, bool_decide (IP_String z ∈ used)) (seqZ cur (bcast - cur)) < Z.of_nat fuel →
  match pickFrom fuel cur bcast used with
  | Found z => cur ≤ z < bcast ∧ IP_String z ∉ used
  | Exhausted => ∀ z, cur ≤ z < bcast → IP_String z ∈ used
  | OutOfFuel => False
  end.
Proof.
  revert cur. induction fuel as [|fuel IH]; intros cur Hc Hb Hf.
  { pose proof (countb_nonneg (λ z, bool_decide (IP_String z ∈ used)) (seqZ cur (bcast - cur))). lia. }
  cbn [pickFrom]. destruct (cur =? bcast) eqn:E; bools; [lia|].
  rewrite seqZ_cons in Hf by lia. cbn [countb] in Hf. case_bool_decide as Hu; [|split; [lia|done]].
  unfold incIP. rewrite Z.mod_small by lia.
  replace (Z.succ cur) with (cur + 1) in Hf by lia. replace (Z.pred (bcast - cur)) with (bcast - (cur + 1)) in Hf by lia.
  specialize (IH (cur + 1) ltac:(lia) Hb ltac:(lia)). destruct (pickFrom _ _ _ _) as [z| |]; [|..].
  - destruct IH. split; [lia|done].
  - intros z Hz. destruct (decide (z = cur)) as [->|]; [done|]. apply IH. lia.
  - done.
Qed.

Lemma used_bound (allocated : gmap string string) a b :
  0 ≤ a → b ≤ 2 ^ 32 →
  countb (λ z, bool_decide (IP_String z ∈ (list_to_set (map_to_list allocated).*2 : gset string))) (seqZ a (b - a))
    ≤ Z.of_nat (size allocated).
Proof.
  intros Ha Hb. set (f := λ z, bool_decide _). rewrite <- (countb_length_filter f).
  rewrite <- length_map_to_list, <- (length_fmap snd (map_to_list allocated)), <- (length_fmap IP_String).
  apply inj_le, submseteq_length, NoDup_submseteq.
  - apply NoDup_fmap_2_strong.
    + intros x y [_ Hx%elem_of_seqZ]%elem_of_filterb [_ Hy%elem_of_seqZ]%elem_of_filterb.
      apply IP_String_inj; unfold ip_range; lia.
    + eapply sublist_NoDup; [apply NoDup_seqZ|auto with rune].
  - intros s (z & -> & [Hz _]%elem_of_filterb)%list_elem_of_fmap. unfold f in Hz.
    apply bool_decide_eq_true_1, elem_of_list_to_set in Hz. done.
Qed.

(** ** What the allocator promises about the record *)

Record net_ok (cn : ClusterNetwork) (n : IPNet) : Prop := {
  no_cidr : ParseCIDR (cn_CIDR cn) = Some n;
  no_ones : net_Ones n ≤ 30;
  no_inj : ∀ s1 s2 ip, cn_AllocatedVIPs cn !! s1 = Some ip → cn_AllocatedVIPs cn !! s2 = Some ip → s1 = s2;
  no_free : NoDup (cn_FreeList cn);
  no_disj : ∀ s ip, cn_AllocatedVIPs cn !! s = Some ip → ip ∉ cn_FreeList cn;
  no_range : ∀ ip, ip ∈ cn_FreeList cn ∨ (∃ s, cn_AllocatedVIPs cn !! s = Some ip) →
    ∃ z, ip = IP_String z ∧ usable_ip n z;
}.

Definition cn_ok (cn : ClusterNetwork) : Prop := cn = zero_network ∨ ∃ n, net_ok cn n.

Lemma usable_range cn n z : net_ok cn n → usable_ip n z → ip_range z.
Proof.
  intros Hok Hz. destruct (ParseCIDR_range _ _ (no_cidr _ _ Hok)) as (? & ? & ? & ? & _).
  unfold usable_ip, broadcast, ip_range in *. lia.
Qed.

Lemma elem_of_values (m : gmap string string) ip : ip ∈ (map_to_list m).*2 ↔ ∃ s, m !! s = Some ip.
Proof.
  rewrite list_elem_of_fmap. split.
  - intros ([s v] & -> & H%elem_of_map_to_list). by exists s.
  - intros [s H]. exists (s, ip). split; [done|]. by apply elem_of_map_to_list.
Qed.

(** The pick: a usable address nobody holds, or there is none. *)
Lemma pickIP_spec cn n :
  net_ok cn n →
  match pickIP (cn_CIDR cn) (cn_FreeList cn) (cn_AllocatedVIPs cn) with
  | Ok (ip, free) => (∃ z, ip = IP_String z ∧ usable_ip n z) ∧ (∀ s, cn_AllocatedVIPs cn !! s ≠ Some ip) ∧
      ip ∉ free ∧ NoDup free ∧ (∀ x, x ∈ free → x ∈ cn_FreeList cn)
  | Err e => e = ErrCIDRExhausted ∧ ∀ z, usable_ip n z → ∃ s, cn_AllocatedVIPs cn !! s = Some (IP_String z)
  end.
Proof.
  intros Hok. unfold pickIP. pose proof (no_free _ _ Hok) as Hnd. destruct (cn_FreeList cn) as [|ip rest] eqn:Ef.
  - rewrite (no_cidr _ _ Hok). destruct (ParseCIDR_range _ _ (no_cidr _ _ Hok)) as (Hones & Hh & Hip & Htop & _).
    assert (4 ≤ hosts (net_Ones n)).
    { unfold hosts. change 4 with (2 ^ 2). apply Z.pow_le_mono_r; [lia|]. pose proof (no_ones _ _ Hok). lia. }
    assert (incIP (incIP (net_IP n)) = net_IP n + 2) as -> by (unfold incIP; rewrite !Z.mod_small; rewrite ?Z.mod_small; lia).
    set (used := list_to_set _ : gset string).
    pose proof (pickFrom_spec (S (size (cn_AllocatedVIPs cn))) (net_IP n + 2) (broadcast n) used) as Hpick.
    pose proof (used_bound (cn_AllocatedVIPs cn) (net_IP n + 2) (broadcast n)) as Hu. fold used in Hu.
    unfold usable_ip, broadcast in *. specialize (Hu ltac:(lia) ltac:(lia)).
    specialize (Hpick ltac:(lia) ltac:(lia) ltac:(lia)).
    destruct (pickFrom _ _ _ used) as [z| |]; [|..].
    + destruct Hpick as [Hz Hnu]. split; [by exists z|]. split; [|split; [set_solver|]; split; [constructor|set_solver]].
      intros s Hs. apply Hnu. unfold used. apply elem_of_list_to_set, elem_of_values. by exists s.
    + split; [done|]. intros z Hz. apply Hpick in Hz. unfold used in Hz. by apply elem_of_list_to_set, elem_of_values in Hz.
    + done.
  - apply NoDup_cons in Hnd as [Hni Hnd].
    destruct (no_range _ _ Hok ip) as (z & -> & Hz); [left; rewrite Ef; set_solver|].
    unfold reprint. rewrite ParseIP_String by (by eapply usable_range).
    split_and!; try done; [by exists z| |set_solver].
    intros s Hs. apply (no_disj _ _ Hok s _ Hs). rewrite Ef. set_solver.
Qed.

(** ** The ops as functions of the record *)

Definition effect (op : vip_op) (cur : ClusterNetwork) : result string (option ClusterNetwork) :=
  match op with
  | bootstrapOp cidr =>
      if negb (bool_decide (cn_CIDR cur = "")) then
        if negb (bool_decide (cn_CIDR cur = cidr)) then Err ErrAlreadyBootstrapped else Ok None
      else Ok (Some (mkClusterNetwork cidr ∅ []))
  | allocateOp sid =>
      if bool_decide (cn_CIDR cur = "") then Err "vip: ClusterNetwork not bootstrapped"
      else match cn_AllocatedVIPs cur !! sid with
           | Some _ => Ok None
           | None =>
               match pickIP (cn_CIDR cur) (cn_FreeList cur) (cn_AllocatedVIPs cur) with
               | Err e => Err e
               | Ok (ip, free) => Ok (Some (mkClusterNetwork (cn_CIDR cur) (<[sid := ip]> (cn_AllocatedVIPs cur)) free))
               end
           end
  | releaseOp ip =>
      let owner := owner_of_ip (cn_AllocatedVIPs cur) ip in
      if bool_decide (owner = "") then Ok None
      else Ok (Some (mkClusterNetwork (cn_CIDR cur) (delete owner (cn_AllocatedVIPs cur)) (cn_FreeList cur ++ [ip])))
  end.

Lemma owner_spec m ip : owner_of_ip m ip ≠ "" → m !! owner_of_ip m ip = Some ip.
Proof.
  unfold owner_of_ip. destruct (List.find _ _) as [[s v]|] eqn:E; [|done]. intros _.
  apply List.find_some in E as [Hin Hv]. apply bool_decide_eq_true_1 in Hv. simpl in Hv. subst.
  by apply elem_of_map_to_list, list_elem_of_In.
Qed.

(** Bootstrap is only attempted with ranges of at least four addresses. *)
Definition op_ok (op : vip_op) : Prop :=
  match op with bootstrapOp cidr => ∃ n, ParseCIDR cidr = Some n ∧ net_Ones n ≤ 30 | _ => True end.

Lemma allocate_net_ok cn n sid ip free :
  net_ok cn n → cn_AllocatedVIPs cn !! sid = None →
  pickIP (cn_CIDR cn) (cn_FreeList cn) (cn_AllocatedVIPs cn) = Ok (ip, free) →
  net_ok (mkClusterNetwork (cn_CIDR cn) (<[sid := ip]> (cn_AllocatedVIPs cn)) free) n.
Proof.
  intros Hok Hs Hp. pose proof (pickIP_spec cn n Hok) as Hspec. rewrite Hp in Hspec.
  destruct Hspec as (Hz & Hnew & Hni & Hnd & Hsub). split; cbn [cn_CIDR cn_AllocatedVIPs cn_FreeList].
  - apply (no_cidr _ _ Hok).
  - apply (no_ones _ _ Hok).
  - intros s1 s2 x [[<- <-]|[Hn1 H1]]%lookup_insert_Some [[<- Heq]|[Hn2 H2]]%lookup_insert_Some; try done.
    + by apply Hnew in H2.
    + subst. by apply Hnew in H1.
    + by apply (no_inj _ _ Hok s1 s2 x).
  - done.
  - intros s x [[<- <-]|[Hn1 H1]]%lookup_insert_Some Hx; [done|]. apply (no_disj _ _ Hok s x H1). by apply Hsub.
  - intros x [Hx|[s Hx]]; [apply (no_range _ _ Hok); left; by apply Hsub|].
    apply lookup_insert_Some in Hx as [[<- <-]|[_ Hx]]; [done|]. apply (no_range _ _ Hok). right. by exists s.
Qed.

Lemma release_net_ok cn n ip :
  net_ok cn n → owner_of_ip (cn_AllocatedVIPs cn) ip ≠ "" →
  net_ok (mkClusterNetwork (cn_CIDR cn) (delete (owner_of_ip (cn_AllocatedVIPs cn) ip) (cn_AllocatedVIPs cn)) (cn_FreeList cn ++ [ip])) n.
Proof.
  intros Hok Ho. pose proof (owner_spec _ _ Ho) as Hown. set (o := owner_of_ip _ _) in *.
  split; cbn [cn_CIDR cn_AllocatedVIPs cn_FreeList].
  - apply (no_cidr _ _ Hok).
  - apply (no_ones _ _ Hok).
  - intros s1 s2 x [_ H1]%lookup_delete_Some [_ H2]%lookup_delete_Some. by apply (no_inj _ _ Hok s1 s2 x).
  - apply NoDup_app. split_and!; [apply (no_free _ _ Hok)| |apply NoDup_singleton].
    intros x Hx ->%list_elem_of_singleton. by apply (no_disj _ _ Hok o ip Hown).
  - intros s x [Hn H]%lookup_delete_Some [Hx|Hx]%elem_of_app; [by apply (no_disj _ _ Hok s x H)|].
    apply list_elem_of_singleton in Hx as ->. apply Hn. by apply (no_inj _ _ Hok o s ip).
  - intros x [[Hx|Hx]%elem_of_app|[s [_ Hx]%lookup_delete_Some]]; apply (no_range _ _ Hok).
    + by left.
    + apply list_elem_of_singleton in Hx as ->. right. by exists o.
    + right. by exists s.
Qed.

Lemma effect_ok op cur cn : op_ok op → cn_ok cur → effect op cur = Ok (Some cn) → cn_ok cn.
Proof.
  intros Hop Hcur. destruct op as [cidr|sid|ip]; cbn [effect op_ok] in *.
  - destruct (negb _); [by destruct (negb _)|]. intros Heq. injection Heq as <-. right. destruct Hop as (n & Hn & Hones).
    exists n. split; cbn [cn_CIDR cn_AllocatedVIPs cn_FreeList]; [done|done|done|constructor|done|].
    intros ip [H|[s H]]; [set_solver|done].
  - case_bool_decide as Hc; [done|]. destruct Hcur as [->|[n Hok]]; [done|].
    destruct (cn_AllocatedVIPs cur !! sid) eqn:Es; [done|].
    destruct (pickIP _ _ _) as [[ip free]|] eqn:Ep; [|done]. intros Heq. injection Heq as <-. right. exists n.
    by apply allocate_net_ok.
  - case_bool_decide as Ho; [done|]. intros Heq. injection Heq as <-. destruct Hcur as [->|[n Hok]].
    + exfalso. apply Ho. reflexivity.
    + right. exists n. by apply release_net_ok.
Qed.

(** ** The allocator over the log *)

Section Vip.
Context (Marshal : ClusterNetwork → bytes) (Unmarshal : bytes → result string ClusterNetwork).
Context (opMarshal : vip_op → result string bytes).

(** Go's encoding/json reads back what it wrote, and writes something. *)
Context (json_roundtrip : ∀ cn, Unmarshal (Marshal cn) = Ok cn).
Context (json_nonempty : ∀ cn, Marshal cn ≠ []).

Definition applier_of (op : vip_op) : Applier ClusterNetwork vip_op :=
  match op with
  | bootstrapOp _ => applyBootstrap Marshal Unmarshal
  | allocateOp _ => applyAllocate Marshal Unmarshal
  | releaseOp _ => applyRelease Marshal Unmarshal
  end.

(** The record the database holds. *)
Definition stored (d : db) : result string ClusterNetwork := decode_state Unmarshal (d !! keyClusterNetwork).

Lemma stored_insert d cn : stored (<[keyClusterNetwork := Marshal cn]> d) = Ok cn.
Proof.
  unfold stored. rewrite lookup_insert_eq. unfold decode_state. pose proof (json_nonempty cn).
  destruct (Marshal cn) as [|x r] eqn:E; [done|]. by rewrite <- E, json_roundtrip.
Qed.

Definition state_mutation (cn : ClusterNetwork) : Mutation :=
  mkMutation MutationPut (bytes_of "clusternetwork") [] (bytes_of "cluster") (Marshal cn).

(** The record an applier sees: a failed read shows the zero value. *)
Definition seen (x : badger) (d : db) : result string ClusterNetwork :=
  match hd None (bd_reads x) with Some _ => Ok zero_network | None => stored d end.

(** Running an applier: the op's effect on the record, mirrored in memory. *)
Lemma applier_run x op m d :
  run_txn x (applier_of op op m) d =
  match seen x d with
  | Err e => ((m, Err e), d)
  | Ok cur =>
      match effect op cur with
      | Err e => ((m, Err e), d)
      | Ok None => (((match op with bootstrapOp _ => cur | _ => m end), Ok []), d)
      | Ok (Some cn) =>
          match hd None (bd_writes x) with
          | Some e => ((m, Err e), d)
          | None => ((cn, Ok [state_mutation cn]), <[keyClusterNetwork := Marshal cn]> d)
          end
      end
  end.
Proof.
  destruct op as [cidr|sid|ip]; cbn [applier_of]; unfold applyBootstrap, applyAllocate, applyRelease, loadStateTxn;
    cbn [run_txn]; unfold seen, stored.
  all: destruct (hd None (bd_reads x)) as [re|]; [generalize zero_network as cur; intros cur|
    destruct (decode_state Unmarshal (d !! keyClusterNetwork)) as [cur|e]; [|done]]; cbn [run_txn effect].
  1,2: destruct (negb (bool_decide (cn_CIDR cur = ""))); [by destruct (negb _)|].
  3,4: case_bool_decide; [done|]; destruct (cn_AllocatedVIPs cur !! sid); [done|];
       destruct (pickIP _ _ _) as [[ip free]|]; [|done].
  5,6: case_bool_decide; [done|].
  all: unfold saveStateTxn; cbn [run_txn]; change (HasPrefix keyClusterNetwork keyPrefix) with false; cbv iota;
    by destruct (hd None _).
Qed.

(** The three appliers are registered. *)
Definition registered (b : Backend ClusterNetwork vip_op) : Prop :=
  ∀ op, b_appliers b !! vip_OpType op = Some (applier_of op).

Lemma key_not_reserved s : keyClusterNetwork ≠ seqKey ∧ keyClusterNetwork ≠ eventKey s.
Proof.
  split; [done|]. intros H. pose proof (event_reserved _ (eventKey_prefix s)) as Hr. rewrite <- H in Hr. done.
Qed.

Lemma encode_state seq op muts :
  muts = [] ∨ (∃ cn, muts = [state_mutation cn]) → is_Some (match encodeEvent (mkLogEvent seq (vip_OpType op) muts) with Ok r => Some r | Err _ => None end).
Proof. intros [->|[cn ->]]; destruct op; unfold encodeEvent; simpl; by eexists. Qed.

(** A proposal commits the op's effect on the record, or changes nothing but
    (when it fails after the applier ran) the mirror. *)
Lemma propose_effect b op ctxErr x :
  registered b →
  let '(b', r) := Propose vip_OpType opMarshal b op ctxErr x in
  registered b' ∧
  match r with
  | Ok _ => b_closed b = false ∧ ctxErr = None ∧
      ∃ cur, seen x (b_db b) = Ok cur ∧
        (effect op cur = Ok None ∧ stored (b_db b') = stored (b_db b) ∧ (b_mem b' = match op with bootstrapOp _ => cur | _ => b_mem b end) ∨
         ∃ cn, effect op cur = Ok (Some cn) ∧ stored (b_db b') = Ok cn ∧ b_mem b' = cn)
  | Err _ => b_db b' = b_db b ∧
      (x = accepting → b_closed b = false → ctxErr = None → is_ok (opMarshal op) = true →
       match stored (b_db b) with
       | Err _ => True
       | Ok cur => ∃ e, effect op cur = Err e ∧ r = Err (ErrLogOther e)
       end)
  end.
Proof.
  intros Hreg. unfold Propose. destruct (b_closed b) eqn:Ec; [by split_and!|]. rewrite (Hreg op).
  destruct (opMarshal op) as [w|] eqn:Em; [|by split_and!]. destruct ctxErr; [by split_and!|].
  unfold proposeTxn. rewrite applier_run. destruct (seen x (b_db b)) as [cur|e] eqn:Es.
  2:{ split_and!; try done. intros -> _ _ _. unfold seen in Es. simpl in Es. by rewrite Es. }
  assert (Hacc : x = accepting → stored (b_db b) = Ok cur) by (by intros ->).
  assert (Hpub : ∀ y ev, registered y → registered (publish y ev) ∧ b_db (publish y ev) = b_db y ∧ b_mem (publish y ev) = b_mem y).
  { intros y ev Hx. destruct (publish_log y ev) as (Hd & _ & _ & _ & Ha & _ & Hm). unfold registered. by rewrite Ha, Hd, Hm. }
  assert (Hkey : ∀ d1 d2 s v, stored (<[seqKey := v]> (<[eventKey s := d2]> d1)) = stored d1).
  { intros d1 d2 s v. unfold stored. destruct (key_not_reserved s). by rewrite !lookup_insert_ne. }
  destruct (effect op cur) as [[cn|]|e] eqn:Ee.
  - destruct (hd None (bd_writes x)) as [we|] eqn:Ew; [split_and!; try done; intros ->; done|].
    destruct (encode_state (wrapU64 (b_lastSeq b + 1)) op [state_mutation cn]) as [raw Hraw]; [right; by exists cn|].
    destruct (encodeEvent _) as [raw'|]; [|done].
    destruct (bd_event x) eqn:E1; [split_and!; try done; intros ->; done|].
    destruct (bd_seq x) eqn:E2; [split_and!; try done; intros ->; done|].
    destruct (bd_commit x) eqn:E3; [split_and!; try done; intros ->; done|].
    destruct (Hpub (with_db b (<[seqKey:=PutUint64 (wrapU64 (b_lastSeq b + 1))]> (<[eventKey (wrapU64 (b_lastSeq b + 1)):=raw']>
      (<[keyClusterNetwork:=Marshal cn]> (b_db b)))) (wrapU64 (b_lastSeq b + 1)) (if b_minSeq b =? 0 then wrapU64 (b_lastSeq b + 1) else b_minSeq b) cn)
      (mkLogEvent (wrapU64 (b_lastSeq b + 1)) (vip_OpType op) [state_mutation cn])) as (Hr & Hd & Hm); [done|].
    split; [done|]. split_and!; try done. exists cur. split; [done|]. right. exists cn. split; [done|].
    rewrite Hd, Hm. cbn [b_db b_mem with_db]. by rewrite Hkey, stored_insert.
  - destruct (encode_state (wrapU64 (b_lastSeq b + 1)) op []) as [raw Hraw]; [by left|].
    destruct (encodeEvent _) as [raw'|]; [|done].
    destruct (bd_event x) eqn:E1; [split_and!; try done; intros ->; done|].
    destruct (bd_seq x) eqn:E2; [split_and!; try done; intros ->; done|].
    destruct (bd_commit x) eqn:E3; [split_and!; try done; intros ->; done|].
    match goal with |- context [publish ?y ?ev] => destruct (Hpub y ev) as (Hr & Hd & Hm) end; [done|].
    split; [done|]. split_and!; try done. exists cur. split; [done|]. left. split; [done|].
    rewrite Hd, Hm. cbn [b_db b_mem with_db]. by rewrite Hkey.
  - split_and!; try done. intros Hx _ _ _. rewrite (Hacc Hx). by exists e.
Qed.

(** ** Steps *)

#[local] Abbreviation Bootstrap := (Bootstrap opMarshal).
#[local] Abbreviation Allocate := (Allocate opMarshal).
#[local] Abbreviation flushReady := (flushReady opMarshal).

(** What can happen to an allocator: its operations, with whatever Badger
    answers to their proposals, and a restart on the same database. *)
Inductive vip_step : Allocator → Allocator → Prop :=
| vs_bootstrap a cidr skip collides ctxErr x :
    (∀ n, ParseCIDR cidr = Some n → net_Ones n ≤ 30) → vip_step a (Bootstrap a cidr skip collides ctxErr x).1
| vs_allocate a sid ctxErr x : vip_step a (Allocate a sid ctxErr x).1
| vs_release a sid now : vip_step a (Release a sid now).1
| vs_flush a now ctxErr x : vip_step a (flushReady a now ctxErr x)
| vs_restart a a' : registered (a_olog a') → b_db (a_olog a') = b_db (a_olog a) → vip_step a a'.

Definition vip_inv (a : Allocator) : Prop :=
  registered (a_olog a) ∧ ∃ cn, stored (b_db (a_olog a)) = Ok cn ∧ cn_ok cn.

Lemma propose_inv a op ctxErr x : op_ok op → vip_inv a → vip_inv (propose opMarshal a op ctxErr x).1.
Proof.
  intros Hop (Hreg & cn & Hst & Hok). unfold propose.
  pose proof (propose_effect (a_olog a) op ctxErr x Hreg) as H.
  destruct (Propose _ _ _ _ _ _) as [b' [s|e]]; destruct H as [Hreg' H].
  - destruct H as (_ & _ & cur & Hcur & H). split; [done|]. assert (Hc : cn_ok cur).
    { unfold seen in Hcur. destruct (hd None _); [injection Hcur as <-; by left|]. rewrite Hst in Hcur. by apply Ok_inj in Hcur as <-. }
    destruct H as [(_ & H & _)|(cn' & He & H & _)]; [exists cn; split; [cbn; by rewrite H|done]|]. exists cn'. split; [done|]. by eapply effect_ok.
  - destruct H as [Hd _]. split; [done|]. exists cn. simpl. by rewrite Hd.
Qed.

Lemma flush_inv now ctxErr x ips a : vip_inv a → vip_inv (fold_left (flushOne opMarshal now ctxErr x) ips a).
Proof.
  revert a. induction ips as [|ip ips IH]; intros a Ha; simpl; [done|]. apply IH. unfold flushOne.
  pose proof (propose_inv a (releaseOp ip) (ctxErr ip) (x ip) I Ha) as H.
  destruct (propose _ _ _ _ _) as [a' [s|e]]; done.
Qed.

Lemma vip_step_inv a a' : vip_step a a' → vip_inv a → vip_inv a'.
Proof.
  intros [] Ha.
  - unfold Vip.Bootstrap. destruct (negb (bool_decide (cn_CIDR _ = ""))); [by destruct (_ && _)|].
    case_bool_decide; [done|]. unfold validatePrivateCIDR. destruct (ParseCIDR cidr) as [n|] eqn:En; [|done].
    destruct (isPrivateOrCGNAT _); [|done]. destruct (_ && _); [done|].
    pose proof (propose_inv a0 (bootstrapOp cidr) ctxErr x) as Hp. destruct (propose _ _ _ _ _) as [a1 [s|e]];
      apply Hp; try done; exists n; split; eauto.
  - unfold Vip.Allocate. case_bool_decide; [done|]. destruct (cn_AllocatedVIPs _ !! sid); [done|].
    pose proof (propose_inv a0 (allocateOp sid) ctxErr x I Ha) as Hp.
    destruct (propose _ _ _ _ _) as [a1 [s|e]]; [|done]. destruct (_ !! sid); done.
  - unfold Release. destruct (_ !! sid); [|done]. destruct (_ !! s); done.
  - by apply flush_inv.
  - destruct Ha as (_ & cn & Hst & Hok). split; [done|]. exists cn. rewrite H0. done.
Qed.

Lemma vip_steps_inv a a' : rtc vip_step a a' → vip_inv a → vip_inv a'.
Proof. induction 1; eauto using vip_step_inv. Qed.

(** C36: VIPs are unique and inside the cluster's range.  From an empty store,
    through any sequence of bootstraps (with a range of at least four
    addresses), allocations, releases, flushes, failed reads, writes and commits
    of Badger, and restarts, the
    persisted record never gives two services one address, never has an
    allocated address on the free list, and every address it names lies
    strictly between the gateway and the broadcast address. *)
Theorem vip_unique a a' :
  registered (a_olog a) → b_db (a_olog a) !! keyClusterNetwork = None → rtc vip_step a a' →
  ∃ cn, stored (b_db (a_olog a')) = Ok cn ∧
    (∀ s1 s2 ip, cn_AllocatedVIPs cn !! s1 = Some ip → cn_AllocatedVIPs cn !! s2 = Some ip → s1 = s2) ∧
    (∀ s ip, cn_AllocatedVIPs cn !! s = Some ip →
       ip ∉ cn_FreeList cn ∧ ∃ n z, ParseCIDR (cn_CIDR cn) = Some n ∧ ip = IP_String z ∧ usable_ip n z).
Proof.
  intros Hreg Hd Hsteps. destruct (vip_steps_inv a a' Hsteps) as (_ & cn & Hst & Hok).
  { split; [done|]. exists zero_network. split; [|by left]. unfold stored. by rewrite Hd. }
  exists cn. split; [done|]. destruct Hok as [->|[n Hok]]; [done|]. split; [apply (no_inj _ _ Hok)|].
  intros s ip Hs. split; [by apply (no_disj _ _ Hok s)|].
  destruct (no_range _ _ Hok ip) as (z & Hz & Hu); [right; by exists s|]. exists n, z. split; [apply (no_cidr _ _ Hok)|done].
Qed.

(** Allocation succeeds exactly while an address is left.  For a service
    with no VIP, on a bootstrapped network and an open log, a committed
    [Allocate] answers with a usable address no other service holds and
    records it; it is refused, leaving the record alone, only when every usable
    address is allocated. *)
Theorem Allocate_total a cn n sid :
  registered (a_olog a) → stored (b_db (a_olog a)) = Ok cn → net_ok cn n →
  b_closed (a_olog a) = false → is_ok (opMarshal (allocateOp sid)) = true → sid ≠ "" →
  cn_AllocatedVIPs (b_mem (a_olog a)) !! sid = None → cn_AllocatedVIPs cn !! sid = None →
  match Allocate a sid None accepting with
  | (a', Ok ip) => ∃ z free, ip = Some z ∧ usable_ip n z ∧ (∀ s, cn_AllocatedVIPs cn !! s ≠ Some (IP_String z)) ∧
      stored (b_db (a_olog a')) = Ok (mkClusterNetwork (cn_CIDR cn) (<[sid := IP_String z]> (cn_AllocatedVIPs cn)) free)
  | (a', Err e) => e = ErrLogOther ErrCIDRExhausted ∧ stored (b_db (a_olog a')) = Ok cn ∧
      ∀ z, usable_ip n z → ∃ s, cn_AllocatedVIPs cn !! s = Some (IP_String z)
  end.
Proof.
  intros Hreg Hst Hok Hcl Hm Hsid Hmem Hnone. unfold Vip.Allocate. rewrite bool_decide_false by done. rewrite Hmem.
  unfold propose. pose proof (propose_effect (a_olog a) (allocateOp sid) None accepting Hreg) as H.
  pose proof (pickIP_spec cn n Hok) as Hp.
  assert (Hc : cn_CIDR cn ≠ "") by (intros Hc; pose proof (no_cidr _ _ Hok) as E; by rewrite Hc in E).
  assert (He : effect (allocateOp sid) cn = match pickIP (cn_CIDR cn) (cn_FreeList cn) (cn_AllocatedVIPs cn) with
    | Err e => Err e
    | Ok (ip, free) => Ok (Some (mkClusterNetwork (cn_CIDR cn) (<[sid := ip]> (cn_AllocatedVIPs cn)) free)) end).
  { cbn [effect]. by rewrite bool_decide_false, Hnone by done. }
  destruct (Propose _ _ _ _ _ _) as [b' [seq|e]]; destruct H as [Hreg' H]; simpl.
  - destruct H as (_ & _ & cur & Hcur & H). change (seen accepting (b_db (a_olog a))) with (stored (b_db (a_olog a))) in Hcur. rewrite Hst in Hcur. apply Ok_inj in Hcur as <-.
    destruct (pickIP _ _ _) as [[ip free]|e]; rewrite He in H; [|by destruct H as [[? _]|(? & ? & _)]].
    destruct H as [[? _]|(cn' & Heq & Hs' & Hmem')]; [done|]. injection Heq as <-. rewrite Hmem'.
    cbn [cn_AllocatedVIPs]. rewrite lookup_insert_eq. destruct Hp as ((z & -> & Hz) & Hnew & _).
    exists z, free. split; [apply ParseIP_String; by eapply usable_range|]. done.
  - destruct H as [Hd H]. specialize (H eq_refl Hcl eq_refl Hm). rewrite Hst in H. destruct H as (e' & Heq & ?).
    rewrite He in Heq. destruct (pickIP _ _ _) as [[ip free]|e'']; [done|]. injection Heq as <-.
    destruct Hp as [-> Hp]. rewrite Hd. split; [congruence|done].
Qed.

Lemma propose_uncommitted b op cur cn :
  registered b → b_closed b = false → is_ok (opMarshal op) = true →
  stored (b_db b) = Ok cur → effect op cur = Ok (Some cn) →
  Propose vip_OpType opMarshal b op None rejecting =
    (with_db b (b_db b) (b_lastSeq b) (b_minSeq b) cn, Err (ErrLogOther "commit failed")).
Proof.
  intros Hreg Hcl Hm Hst He. unfold Propose. rewrite Hcl, (Hreg op). destruct (opMarshal op); [|done].
  unfold proposeTxn. rewrite applier_run. change (seen rejecting (b_db b)) with (stored (b_db b)). rewrite Hst, He. cbn [bd_writes rejecting hd].
  destruct (encode_state (wrapU64 (b_lastSeq b + 1)) op [state_mutation cn]) as [raw Hraw]; [right; by exists cn|].
  destruct (encodeEvent _); done.
Qed.

(** A failed commit can hand one VIP to two services.  The applier sets the
    in-memory mirror before the transaction commits and nothing sets it back:
    when the commit of a first service's allocation fails, its next [Allocate]
    is answered from the mirror without a proposal, and a second service is
    then given the same address. *)
Theorem failed_commit_shares_vip a cur s1 s2 ip free :
  registered (a_olog a) → b_closed (a_olog a) = false → (∀ op, is_ok (opMarshal op) = true) →
  stored (b_db (a_olog a)) = Ok cur → b_mem (a_olog a) = cur → cn_CIDR cur ≠ "" →
  s1 ≠ "" → s2 ≠ "" → s1 ≠ s2 → cn_AllocatedVIPs cur !! s1 = None → cn_AllocatedVIPs cur !! s2 = None →
  pickIP (cn_CIDR cur) (cn_FreeList cur) (cn_AllocatedVIPs cur) = Ok (ip, free) →
  let a1 := (Allocate a s1 None rejecting).1 in
  is_ok (Allocate a s1 None rejecting).2 = false ∧
  Allocate a1 s1 None accepting = (a1, Ok (ParseIP ip)) ∧
  (Allocate a1 s2 None accepting).2 = Ok (ParseIP ip).
Proof.
  intros Hreg Hcl Hm Hst Hmem Hc H1 H2 Hne Hn1 Hn2 Hp. cbv zeta.
  assert (He : ∀ s, cn_AllocatedVIPs cur !! s = None →
    effect (allocateOp s) cur = Ok (Some (mkClusterNetwork (cn_CIDR cur) (<[s := ip]> (cn_AllocatedVIPs cur)) free))).
  { intros s Hs. cbn [effect]. by rewrite bool_decide_false, Hs, Hp by done. }
  set (cn := mkClusterNetwork (cn_CIDR cur) (<[s1 := ip]> (cn_AllocatedVIPs cur)) free).
  set (b1 := with_db (a_olog a) (b_db (a_olog a)) (b_lastSeq (a_olog a)) (b_minSeq (a_olog a)) cn).
  assert (Hfail : Allocate a s1 None rejecting = (mkAllocator b1 (a_pending a), Err (ErrLogOther "commit failed"))).
  { unfold Vip.Allocate. rewrite bool_decide_false by done. rewrite Hmem, Hn1. unfold propose.
    rewrite (propose_uncommitted _ _ _ cn Hreg Hcl (Hm _) Hst) by (by apply He). done. }
  rewrite Hfail. cbn [fst snd]. split_and!; [done| |].
  - unfold Vip.Allocate. rewrite bool_decide_false by done. simpl. by rewrite lookup_insert_eq.
  - unfold Vip.Allocate. rewrite bool_decide_false by done. cbn [a_olog b1 b_mem with_db cn_AllocatedVIPs cn].
    rewrite lookup_insert_ne, Hn2 by done. unfold propose. cbn [a_olog].
    pose proof (propose_effect b1 (allocateOp s2) None accepting Hreg) as H.
    destruct (Propose _ _ _ _ _ _) as [b' [seq|e]]; destruct H as [_ H]; simpl.
    + destruct H as (_ & _ & c & Hcur & H). change (seen accepting (b_db b1)) with (stored (b_db (a_olog a))) in Hcur. rewrite Hst in Hcur.
      apply Ok_inj in Hcur as <-. rewrite (He s2 Hn2) in H. destruct H as [[? _]|(cn' & Heq & _ & ->)]; [done|].
      injection Heq as <-. cbn [cn_AllocatedVIPs]. by rewrite lookup_insert_eq.
    + destruct H as [_ H]. specialize (H eq_refl Hcl eq_refl (Hm _)). change (b_db b1) with (b_db (a_olog a)) in H.
      rewrite Hst in H. destruct H as (e' & Heq & _). by rewrite (He s2 Hn2) in Heq.
Qed.

(** A failed read forgets every allocation.  [loadStateTxn] takes any read
    error for a missing record, so when the first bootstrap after a restart (the
    mirror is empty) cannot read the record, it writes an empty one over it. *)
Theorem failed_read_forgets_vips a desired n (e : string) :
  registered (a_olog a) → b_closed (a_olog a) = false → is_ok (opMarshal (bootstrapOp desired)) = true →
  b_mem (a_olog a) = zero_network → desired ≠ "" → validatePrivateCIDR desired = Ok n →
  let out := Bootstrap a desired true (λ _, false) None (mkBadger [Some e] [] None None None) in
  out.2 = Ok tt ∧ stored (b_db (a_olog out.1)) = Ok (mkClusterNetwork desired ∅ []).
Proof.
  intros Hreg Hcl Hm Hmem Hd Hv. cbv zeta. unfold Vip.Bootstrap. rewrite Hmem. cbn [cn_CIDR zero_network].
  rewrite bool_decide_true by done. cbn [negb]. rewrite bool_decide_false by done. rewrite Hv. cbn [negb andb].
  unfold propose, Propose. rewrite Hcl, (Hreg (bootstrapOp desired)). destruct (opMarshal _); [|done].
  set (cn := mkClusterNetwork desired ∅ []). assert (He : effect (bootstrapOp desired) zero_network = Ok (Some cn)) by done.
  unfold proposeTxn. rewrite applier_run. unfold seen. cbn [bd_reads hd bd_writes]. rewrite He.
  destruct (encode_state (wrapU64 (b_lastSeq (a_olog a) + 1)) (bootstrapOp desired) [state_mutation cn]) as [raw Hraw]; [right; by exists cn|].
  destruct (encodeEvent _) as [raw'|]; [|done]. cbn [bd_event bd_seq bd_commit fst snd a_olog].
  match goal with |- context [publish ?y ?ev] => destruct (publish_log y ev) as (Hdb & _) end.
  split; [done|]. rewrite Hdb. cbn [b_db with_db]. unfold stored.
  destruct (key_not_reserved (wrapU64 (b_lastSeq (a_olog a) + 1))) as [K1 K2]. rewrite !lookup_insert_ne by congruence. apply stored_insert.
Qed.
End Vip.

(** ** Witnesses: a concrete encoding and a /29 *)

Definition sampleMarshalNetwork (cn : ClusterNetwork) : bytes :=
  [Z.pos (countable.encode (cn_CIDR cn, cn_AllocatedVIPs cn, cn_FreeList cn))].
Definition sampleUnmarshalNetwork (b : bytes) : result string ClusterNetwork :=
  match b with
  | [Z.pos p] => match countable.decode p with
      | Some (cidr, allocated, free) => Ok (mkClusterNetwork cidr allocated free)
      | None => Err "invalid"
      end
  | _ => Err "invalid"
  end.

Lemma sample_roundtrip cn : sampleUnmarshalNetwork (sampleMarshalNetwork cn) = Ok cn.
Proof. unfold sampleUnmarshalNetwork, sampleMarshalNetwork. rewrite countable.decode_encode. by destruct cn. Qed.
Lemma sample_nonempty cn : sampleMarshalNetwork cn ≠ [].
Proof. done. Qed.

Definition sampleOpMarshal (op : vip_op) : result string bytes := Ok (vip_OpType op).

Definition sampleAllocator : Allocator :=
  match NewAllocator sampleMarshalNetwork sampleUnmarshalNetwork
          (NewBadgerBackend ∅ (mkOptions 0 0 0 0) zero_network) with
  | Ok a => a
  | Err _ => mkAllocator (NewBadgerBackend ∅ (mkOptions 0 0 0 0) zero_network) ∅
  end.

Lemma sampleAllocator_registered : registered sampleMarshalNetwork sampleUnmarshalNetwork (a_olog sampleAllocator).
Proof. intros []; reflexivity. Qed.

Definition booted : Allocator := (Bootstrap sampleOpMarshal sampleAllocator "10.96.0.0/29" true (λ _, false) None accepting).1.
Definition allocated : Allocator := (Allocate sampleOpMarshal booted "web" None accepting).1.

Lemma booted_step : vip_step sampleMarshalNetwork sampleUnmarshalNetwork sampleOpMarshal sampleAllocator booted.
Proof. apply (vs_bootstrap _ _ _ sampleAllocator "10.96.0.0/29" true (λ _, false) None accepting). intros n H. vm_compute in H. injection H as <-. simpl. lia. Qed.

Lemma booted_registered : registered sampleMarshalNetwork sampleUnmarshalNetwork (a_olog booted).
Proof. apply (vip_step_inv _ _ _ sample_roundtrip sample_nonempty _ _ booted_step). split; [apply sampleAllocator_registered|]. exists zero_network. split; [done|by left]. Qed.

Definition bootedNetwork : ClusterNetwork := mkClusterNetwork "10.96.0.0/29" ∅ [].
Definition bootedNet : IPNet := mkIPNet (10 * 2 ^ 24 + 96 * 2 ^ 16) 29.

Lemma bootedNetwork_ok : net_ok bootedNetwork bootedNet.
Proof.
  split; simpl; [vm_compute; reflexivity|lia|done|constructor|done|].
  intros ip [H|[s H]]; [set_solver|done].
Qed.

Lemma vip_unique_witness :
  ∃ cn, stored sampleUnmarshalNetwork (b_db (a_olog allocated)) = Ok cn ∧
    cn_AllocatedVIPs cn !! "web" = Some "10.96.0.2" ∧
    ∃ n z, ParseCIDR (cn_CIDR cn) = Some n ∧ "10.96.0.2" = IP_String z ∧ usable_ip n z.
Proof.
  destruct (vip_unique sampleMarshalNetwork sampleUnmarshalNetwork sampleOpMarshal sample_roundtrip sample_nonempty
    sampleAllocator allocated sampleAllocator_registered eq_refl) as (cn & H1 & H2 & H3).
  - refine (rtc_l _ _ _ _ booted_step _). exact (rtc_once _ _ (vs_allocate _ _ _ booted "web" None accepting)).
  - assert (Hs : ∃ c, stored sampleUnmarshalNetwork (b_db (a_olog allocated)) = Ok c ∧ cn_AllocatedVIPs c !! "web" = Some "10.96.0.2").
    { eexists. split; vm_compute; reflexivity. }
    destruct Hs as (c & Hc & Hw). rewrite H1 in Hc. apply Ok_inj in Hc. subst c.
    exists cn. split; [exact H1|]. split; [exact Hw|]. exact (proj2 (H3 "web" "10.96.0.2" Hw)).
Defined.

Lemma Allocate_total_witness :
  match Allocate sampleOpMarshal booted "web" None accepting with
  | (a', Ok ip) => ip = Some (10 * 2 ^ 24 + 96 * 2 ^ 16 + 2) ∧ ∃ z, ip = Some z ∧ usable_ip bootedNet z
  | (_, Err _) => False
  end.
Proof.
  pose proof (Allocate_total sampleMarshalNetwork sampleUnmarshalNetwork sampleOpMarshal sample_roundtrip sample_nonempty
    booted bootedNetwork bootedNet "web" booted_registered ltac:(vm_compute; reflexivity) bootedNetwork_ok
    ltac:(vm_compute; reflexivity) eq_refl ltac:(discriminate) ltac:(vm_compute; reflexivity) eq_refl) as H.
  assert (E : (Allocate sampleOpMarshal booted "web" None accepting).2 = Ok (Some (10 * 2 ^ 24 + 96 * 2 ^ 16 + 2)))
    by (vm_compute; reflexivity).
  destruct (Allocate sampleOpMarshal booted "web" None accepting) as [a' [ip|e]]; cbn [snd] in E; [|discriminate].
  apply Ok_inj in E. split; [exact E|]. destruct H as (z & _ & H1 & H2 & _). exists z. exact (conj H1 H2).
Defined.

Lemma failed_commit_shares_vip_witness :
  (Allocate sampleOpMarshal (Allocate sampleOpMarshal booted "web" None rejecting).1 "db" None accepting).2 = Ok (ParseIP "10.96.0.2") ∧
  (Allocate sampleOpMarshal (Allocate sampleOpMarshal booted "web" None rejecting).1 "web" None accepting).2 = Ok (ParseIP "10.96.0.2").
Proof.
  destruct (failed_commit_shares_vip sampleMarshalNetwork sampleUnmarshalNetwork sampleOpMarshal sample_roundtrip sample_nonempty
    booted bootedNetwork "web" "db" "10.96.0.2" [] booted_registered ltac:(vm_compute; reflexivity) (λ _, eq_refl)
    ltac:(vm_compute; reflexivity) ltac:(vm_compute; reflexivity) ltac:(discriminate) ltac:(discriminate) ltac:(discriminate)
    ltac:(discriminate) eq_refl eq_refl ltac:(vm_compute; reflexivity)) as (_ & H1 & H2).
  split; [exact H2|]. rewrite H1. reflexivity.
Defined.
