(* ===== verification/Policy.v ===== *)
(** * Network policy (pkg/networking/policy/{policy,table}.go)

    Compilation of a service's policy, its evaluation on a connection, and the
    table that resolves a peer's address to an identity.  Addresses are IPv4;
    an IPv6 CIDR peer compiles to nothing here, and in the source to a matcher
    that no IPv4 peer satisfies. *)

From S2P Require Import Prelude Text Types Status Ipv4.
From Stdlib Require Import Ascii.

(** ** Results *)

Inductive Decision := DecisionAllow | DecisionDeny | DecisionNoPolicy.

Inductive Reason :=
| ReasonNoPolicy
| ReasonAllowedBySvc
| ReasonAllowedByNamespace
| ReasonAllowedByCIDR
| ReasonDeniedNoMatch
| ReasonDeniedPort
| ReasonDeniedCrossNodeIdent.

Inductive Direction := DirectionNone | DirectionIngress | DirectionEgress.

#[global] Instance Decision_eq_dec : EqDecision Decision.
Proof. solve_decision. Defined.

(** [types.NamespacedName] and [types.InstanceIdentity]. *)
Record NamespacedName := mkNamespacedName { nn_Namespace : string; nn_Name : string }.
Record InstanceIdentity := mkIdentity { id_InstanceID : string; id_Service : string; id_Namespace : string }.

Record Result := mkResult {
  res_Decision : Decision;
  res_Reason : Reason;
  res_MatchedRule : Z;
  res_Direction : Direction;
  res_PolicyOwner : NamespacedName;
}.

Record PeerInfo := mkPeerInfo {
  pi_IP : option Z;
  pi_Identity : option InstanceIdentity;
  pi_SameNode : bool;
}.

Record EgressTarget := mkEgressTarget {
  t_Service : string;
  t_Namespace : string;
  t_Port : Z;
  t_PortNames : list string;
  t_IP : option Z;
}.

(** ** Ports *)

Record portRule := mkPortRule { pr_proto : string; pr_port : Z; pr_name : string }.
Record portSet := mkPortSet { ps_all : bool; ps_ports : list portRule }.

(** Decimal digits to an integer, [None] on another character or no digit. *)
Fixpoint digits (s : string) (acc : Z) : option Z :=
  match s with
  | EmptyString => Some acc
  | String c s => match digit c with Some d => digits s (acc * 10 + d) | None => None end
  end.

(** [strconv.Atoi]: an optional sign, digits, in the range of [int]. *)
Definition Atoi (s : string) : option Z :=
  let '(sign, body) := match s with
    | String c s' => if Ascii.eqb c "-" then (-1, s') else if Ascii.eqb c "+" then (1, s') else (1, s)
    | EmptyString => (1, s)
    end in
  if bool_decide (body = "") then None
  else match digits body 0 with
       | Some v => if (int64_min <=? sign * v) && (sign * v <=? int64_max) then Some (sign * v) else None
       | None => None
       end.

Definition parsePort (s : string) : option portRule :=
  let s := TrimSpace s in
  if bool_decide (s = "") then None
  else
    let split := match cut_slash s with
      | Some (String c a, b) =>
          let proto := ToLower (TrimSpace b) in
          if bool_decide (proto = "tcp") || bool_decide (proto = "udp") then Some (proto, String c a) else None
      | _ => Some ("", s)
      end in
    match split with
    | None => None
    | Some (proto, s) =>
        match Atoi s with
        | None => Some (mkPortRule proto 0 s)
        | Some p => if (p <=? 0) || (65535 <? p) then None else Some (mkPortRule proto p "")
        end
    end.

Definition compilePortSet (raw : list string) : portSet :=
  match raw with
  | [] => mkPortSet true []
  | _ => mkPortSet false (omap parsePort raw)
  end.

Definition rule_matches (port : Z) (proto : string) (names : list string) (p : portRule) : bool :=
  if negb (bool_decide (pr_proto p = "")) && negb (bool_decide (pr_proto p = proto)) then false
  else if negb (bool_decide (pr_name p = "")) then bool_decide (pr_name p ∈ names)
  else pr_port p =? port.

Definition ports_match (ps : portSet) (port : Z) (proto : string) (names : list string) : bool :=
  if ps_all ps then true else existsb (rule_matches port proto names) (ps_ports ps).

(** ** Compilation *)

Inductive peerMatcher :=
| matcherService (service namespace : string)
| matcherNamespace (namespace : string)
| matcherSelector (selector : gmap string string)
| matcherCIDR (cidr : IPNet).

Record rule := mkRule { r_peers : list peerMatcher; r_ports : portSet }.

Record Compiled := mkCompiled {
  c_ServiceID : string;
  c_Namespace : string;
  c_ServiceName : string;
  c_PolicyName : string;
  c_portNames : list (Z * string);
  c_hasIngress : bool;
  c_hasEgress : bool;
  c_ingress : list rule;
  c_egress : list rule;
}.

Definition compilePeer (p : NetworkPolicyPeer) : option peerMatcher :=
  if negb (bool_decide (peer_CIDR p = "")) then
    match ParseCIDR (peer_CIDR p) with Some n => Some (matcherCIDR n) | None => None end
  else if negb (bool_decide (peer_ServiceSelector p = ∅)) then Some (matcherSelector (peer_ServiceSelector p))
  else if negb (bool_decide (peer_Service p = "")) then Some (matcherService (peer_Service p) (peer_Namespace p))
  else if negb (bool_decide (peer_Namespace p = "")) then Some (matcherNamespace (peer_Namespace p))
  else None.

Definition compilePeers (peers : list NetworkPolicyPeer) : list peerMatcher := omap compilePeer peers.

(** The names a spec gives its ports, keyed by port. *)
Definition portNamesOf (ports : list ServicePort) : list (Z * string) :=
  omap (λ sp, if bool_decide (sp_Name sp = "") || (sp_Port sp <=? 0) then None else Some (sp_Port sp, sp_Name sp)) ports.

Definition names_of (portNames : list (Z * string)) (port : Z) : list string :=
  omap (λ pn : Z * string, if pn.1 =? port then Some pn.2 else None) portNames.

Definition Compile (svc : option Service) : option Compiled :=
  match svc with
  | None => None
  | Some svc =>
      match s_NetworkPolicy svc with
      | None => None
      | Some pol =>
          if bool_decide (np_Ingress pol = []) && bool_decide (np_Egress pol = []) then None
          else Some {|
            c_ServiceID := s_ID svc;
            c_Namespace := s_Namespace svc;
            c_ServiceName := if bool_decide (s_Name svc = "") then s_ID svc else s_Name svc;
            c_PolicyName := s_ID svc;
            c_portNames := portNamesOf (s_Ports svc);
            c_hasIngress := negb (bool_decide (np_Ingress pol = []));
            c_hasEgress := negb (bool_decide (np_Egress pol = []));
            c_ingress := (λ r, mkRule (compilePeers (in_From r)) (compilePortSet (in_Ports r))) <$> np_Ingress pol;
            c_egress := (λ r, mkRule (compilePeers (eg_To r)) (compilePortSet (eg_Ports r))) <$> np_Egress pol |}
      end
  end.

(** ** Evaluation *)

Definition matchPeer (m : peerMatcher) (peer : PeerInfo) : option Reason :=
  match m with
  | matcherCIDR n =>
      match pi_IP peer with Some ip => if Contains n ip then Some ReasonAllowedByCIDR else None | None => None end
  | matcherService service namespace =>
      if negb (pi_SameNode peer) then None
      else match pi_Identity peer with
      | None => None
      | Some i =>
          if negb (bool_decide (id_Service i = service)) then None
          else if negb (bool_decide (namespace = "")) && negb (bool_decide (id_Namespace i = namespace)) then None
          else Some ReasonAllowedBySvc
      end
  | matcherNamespace namespace =>
      match pi_Identity peer with
      | Some i => if bool_decide (id_Namespace i = namespace) then Some ReasonAllowedByNamespace else None
      | None => None
      end
  | matcherSelector _ => None
  end.

Definition matchEgressPeer (m : peerMatcher) (t : EgressTarget) : option Reason :=
  match m with
  | matcherCIDR n =>
      match t_IP t with Some ip => if Contains n ip then Some ReasonAllowedByCIDR else None | None => None end
  | matcherService service namespace =>
      if negb (bool_decide (t_Service t = service)) then None
      else if negb (bool_decide (namespace = "")) && negb (bool_decide (t_Namespace t = namespace)) then None
      else Some ReasonAllowedBySvc
  | matcherNamespace namespace =>
      if bool_decide (t_Namespace t = namespace) then Some ReasonAllowedByNamespace else None
  | matcherSelector _ => None
  end.

Fixpoint firstReason (mtch : peerMatcher → option Reason) (ms : list peerMatcher) : option Reason :=
  match ms with
  | [] => None
  | m :: ms => match mtch m with Some r => Some r | None => firstReason mtch ms end
  end.

(** The rule loop: the first rule whose ports and one of whose peers match. *)
Fixpoint firstRule (portsOk : portSet → bool) (mtch : peerMatcher → option Reason) (i : Z) (rules : list rule)
    : option (Z * Reason) :=
  match rules with
  | [] => None
  | r :: rules =>
      if negb (portsOk (r_ports r)) then firstRule portsOk mtch (i + 1) rules
      else match firstReason mtch (r_peers r) with
           | Some reason => Some (i, reason)
           | None => firstRule portsOk mtch (i + 1) rules
           end
  end.

Definition owner (c : Compiled) : NamespacedName := mkNamespacedName (c_Namespace c) (c_ServiceName c).

Definition no_policy : Result :=
  mkResult DecisionNoPolicy ReasonNoPolicy (-1) DirectionNone (mkNamespacedName "" "").

Definition names_service (m : peerMatcher) : bool :=
  match m with matcherService _ _ | matcherSelector _ => true | _ => false end.

Definition EvaluateIngress (c : option Compiled) (peer : PeerInfo) (port : Z) (proto : string) : Result :=
  match c with
  | None => no_policy
  | Some c =>
      if negb (c_hasIngress c) then no_policy
      else
        let names := names_of (c_portNames c) port in
        let portsOk ps := ports_match ps port proto names in
        match firstRule portsOk (λ m, matchPeer m peer) 0 (c_ingress c) with
        | Some (i, reason) => mkResult DecisionAllow reason i DirectionIngress (owner c)
        | None =>
            let reason :=
              if negb (pi_SameNode peer) && bool_decide (pi_Identity peer = None) &&
                 existsb (λ r, existsb names_service (r_peers r)) (c_ingress c)
              then ReasonDeniedCrossNodeIdent
              else if existsb (λ r, portsOk (r_ports r)) (c_ingress c) then ReasonDeniedNoMatch
              else ReasonDeniedPort in
            mkResult DecisionDeny reason (-1) DirectionIngress (owner c)
        end
  end.

Definition EvaluateEgress (c : option Compiled) (t : EgressTarget) (proto : string) : Result :=
  match c with
  | None => no_policy
  | Some c =>
      if negb (c_hasEgress c) then no_policy
      else
        let portsOk ps := ports_match ps (t_Port t) proto (t_PortNames t) in
        match firstRule portsOk (λ m, matchEgressPeer m t) 0 (c_egress c) with
        | Some (i, reason) => mkResult DecisionAllow reason i DirectionEgress (owner c)
        | None =>
            mkResult DecisionDeny
              (if existsb (λ r, portsOk (r_ports r)) (c_egress c) then ReasonDeniedNoMatch else ReasonDeniedPort)
              (-1) DirectionEgress (owner c)
        end
  end.

(** ** The local-instances table (table.go) *)

(** [nodes] is the record per node; [flat] and [reverseNode] are derived. *)
Record LocalInstancesTable := mkTable {
  tb_nodes : gmap string (gmap string InstanceIdentity);
  tb_flat : gmap string InstanceIdentity;
  tb_localNodeID : string;
  tb_reverseNode : gmap string string;
}.

Definition NewLocalInstancesTable (localNodeID : string) : LocalInstancesTable := mkTable ∅ ∅ localNodeID ∅.

(** [rebuildLocked].  [order] is the order in which Go happens to range over
    the nodes: later nodes overwrite earlier ones. *)
Definition rebuildLocked (order : list (string * gmap string InstanceIdentity)) (t : LocalInstancesTable)
    : LocalInstancesTable :=
  let step acc (nm : string * gmap string InstanceIdentity) :=
    (nm.2 ∪ acc.1, ((λ _, nm.1) <$> nm.2) ∪ acc.2) in
  let '(flat, rev) := fold_left step order (∅, ∅) in
  mkTable (tb_nodes t) flat (tb_localNodeID t) rev.

(** The number of entries, which [Apply] and [Remove] return. *)
Definition Size (t : LocalInstancesTable) : Z := Z.of_nat (size (tb_flat t)).

Definition Apply (order : gmap string (gmap string InstanceIdentity) → list (string * gmap string InstanceIdentity))
    (nodeID : string) (instances : gmap string InstanceIdentity) (t : LocalInstancesTable)
    : LocalInstancesTable * Z :=
  if bool_decide (nodeID = "") then (t, Size t)
  else
    let nodes := <[nodeID := instances]> (tb_nodes t) in
    let t' := rebuildLocked (order nodes) (mkTable nodes (tb_flat t) (tb_localNodeID t) (tb_reverseNode t)) in
    (t', Size t').

Definition Remove (order : gmap string (gmap string InstanceIdentity) → list (string * gmap string InstanceIdentity))
    (nodeID : string) (t : LocalInstancesTable) : LocalInstancesTable * Z :=
  match tb_nodes t !! nodeID with
  | None => (t, Size t)
  | Some _ =>
      let nodes := delete nodeID (tb_nodes t) in
      let t' := rebuildLocked (order nodes) (mkTable nodes (tb_flat t) (tb_localNodeID t) (tb_reverseNode t)) in
      (t', Size t')
  end.

Definition Lookup (t : LocalInstancesTable) (ip : option Z) : option InstanceIdentity :=
  match ip with None => None | Some z => tb_flat t !! IP_String z end.

Definition SameNode (t : LocalInstancesTable) (ip : option Z) : bool :=
  match ip with
  | None => false
  | Some z =>
      if bool_decide (tb_localNodeID t = "") then false
      else bool_decide (tb_reverseNode t !! IP_String z = Some (tb_localNodeID t))
  end.

Definition PeerInfoFor (t : LocalInstancesTable) (ip : option Z) : PeerInfo :=
  match ip with
  | None => mkPeerInfo None None false
  | Some z =>
      mkPeerInfo (Some z) (tb_flat t !! IP_String z)
        (bool_decide (tb_reverseNode t !! IP_String z = Some (tb_localNodeID t)))
  end.
