(* ===== verification/PolicyProps.v ===== *)
(** * Network policy: evaluation refines the written rules; the identity table

    What a policy written in a service spec means, stated on the spec and not on
    its compiled form, and that compiling then evaluating decides exactly that;
    and that the node table answers with the identity of the address's owner.  The
    rules are those the comments of the source describe; for a peer of another node
    the table breaks them ([remote_identity_admitted]). *)

From S2P Require Import Prelude Types Status Ipv4 Policy.

(** ** The meaning of a rule *)

(** An address lies in a prefix: between its network and broadcast address. *)
Definition in_prefix (n : IPNet) (ip : Z) : Prop := net_IP n ≤ ip ≤ broadcast n.

(** One entry of a rule's port list admits the port. *)
Definition entry_admits (port : Z) (proto : string) (names : list string) (s : string) : Prop :=
  ∃ p, parsePort s = Some p ∧ (pr_proto p = "" ∨ pr_proto p = proto) ∧
       (pr_name p ≠ "" ∧ pr_name p ∈ names ∨ pr_name p = "" ∧ pr_port p = port).

Definition ports_admit (raw : list string) (port : Z) (proto : string) (names : list string) : Prop :=
  raw = [] ∨ ∃ s, s ∈ raw ∧ entry_admits port proto names s.

(** A prefix is tried on the address; what follows it in the switch only when
    no CIDR and no selector is written. *)
Definition cidr_admits (p : NetworkPolicyPeer) (ip : option Z) : Prop :=
  peer_CIDR p ≠ "" ∧ ∃ n z, ParseCIDR (peer_CIDR p) = Some n ∧ ip = Some z ∧ in_prefix n z.

Definition by_name (p : NetworkPolicyPeer) : Prop := peer_CIDR p = "" ∧ peer_ServiceSelector p = ∅.

Definition service_is (p : NetworkPolicyPeer) (service namespace : string) : Prop :=
  peer_Service p ≠ "" ∧ service = peer_Service p ∧ (peer_Namespace p = "" ∨ namespace = peer_Namespace p).

Definition namespace_is (p : NetworkPolicyPeer) (namespace : string) : Prop :=
  peer_Service p = "" ∧ peer_Namespace p ≠ "" ∧ namespace = peer_Namespace p.

(** A peer of an ingress rule admits the source: the service form only for a
    source on this node, the namespace form for any source with an identity. *)
Definition source_admitted (src : PeerInfo) (p : NetworkPolicyPeer) : Prop :=
  cidr_admits p (pi_IP src) ∨
  (by_name p ∧ ∃ i, pi_Identity src = Some i ∧
    (pi_SameNode src = true ∧ service_is p (id_Service i) (id_Namespace i) ∨ namespace_is p (id_Namespace i))).

(** A peer of an egress rule admits the destination. *)
Definition target_admitted (t : EgressTarget) (p : NetworkPolicyPeer) : Prop :=
  cidr_admits p (t_IP t) ∨
  (by_name p ∧ (service_is p (t_Service t) (t_Namespace t) ∨ namespace_is p (t_Namespace t))).

Definition ingress_rules (svc : Service) : list IngressRule := from_option np_Ingress [] (s_NetworkPolicy svc).
Definition egress_rules (svc : Service) : list EgressRule := from_option np_Egress [] (s_NetworkPolicy svc).

(** The names a spec gives a port. *)
Definition port_names (svc : Service) (port : Z) : list string := names_of (portNamesOf (s_Ports svc)) port.

Definition ingress_admits (svc : Service) (src : PeerInfo) (port : Z) (proto : string) (r : IngressRule) : Prop :=
  ports_admit (in_Ports r) port proto (port_names svc port) ∧ ∃ p, p ∈ in_From r ∧ source_admitted src p.

Definition egress_admits (t : EgressTarget) (proto : string) (r : EgressRule) : Prop :=
  ports_admit (eg_Ports r) (t_Port t) proto (t_PortNames t) ∧ ∃ p, p ∈ eg_To r ∧ target_admitted t p.

(** The decision a list of written rules calls for: open without rules, else
    the first admitting rule allows, else the connection is denied. *)
Definition decides {R} (rules : list R) (admits : R → Prop) (res : Result) : Prop :=
  (res_Decision res = DecisionNoPolicy ↔ rules = []) ∧
  (res_Decision res = DecisionAllow ↔ ∃ r, r ∈ rules ∧ admits r) ∧
  (res_Decision res = DecisionDeny ↔ rules ≠ [] ∧ ∀ r, r ∈ rules → ¬ admits r) ∧
  (res_Decision res = DecisionAllow → ∃ i r, res_MatchedRule res = Z.of_nat i ∧ rules !! i = Some r ∧ admits r ∧
     ∀ j r', (j < i)%nat → rules !! j = Some r' → ¬ admits r').

(** ** Matching agrees with the meaning *)

Lemma ParseCIDR_masked s n : ParseCIDR s = Some n → 0 < hosts (net_Ones n) ∧ net_IP n mod hosts (net_Ones n) = 0.
Proof.
  unfold ParseCIDR. destruct (cut_slash s) as [[a m]|]; [|done].
  destruct (ParseIP a) as [ip|]; [|done]. destruct (if bool_decide (m = "") then None else dtoi m 0) as [k|]; [|done].
  destruct (32 <? k) eqn:Hk; [done|]. intros [= <-]. cbn [net_IP net_Ones]. apply Z.ltb_ge in Hk.
  assert (0 < hosts k) by (apply Z.pow_pos_nonneg; lia). split; [done|].
  rewrite Zminus_mod_idemp_r, Z.sub_diag. apply Z.mod_0_l. lia.
Qed.

Lemma Contains_in_prefix s n ip : ParseCIDR s = Some n → (Contains n ip = true ↔ in_prefix n ip).
Proof.
  intros [Hh Hm]%ParseCIDR_masked. unfold Contains, in_prefix, broadcast. rewrite Z.eqb_eq.
  set (h := hosts (net_Ones n)) in *. pose proof (Z.mod_pos_bound ip h Hh). split; [lia|]. intros Hr.
  pose proof (Z.div_mod (net_IP n) h). pose proof (Z.div_mod ip h).
  assert (ip / h = net_IP n / h) by (symmetry; apply (Z.div_unique ip h _ (ip - net_IP n)); lia). nia.
Qed.

Lemma rule_matches_spec port proto names p :
  rule_matches port proto names p = true ↔
  (pr_proto p = "" ∨ pr_proto p = proto) ∧
  (pr_name p ≠ "" ∧ pr_name p ∈ names ∨ pr_name p = "" ∧ pr_port p = port).
Proof.
  unfold rule_matches. destruct (bool_decide_reflect (pr_proto p = "")), (bool_decide_reflect (pr_proto p = proto)),
    (bool_decide_reflect (pr_name p = "")); cbn [andb negb]; rewrite ?bool_decide_eq_true, ?Z.eqb_eq; naive_solver.
Qed.

Lemma ports_match_spec raw port proto names :
  ports_match (compilePortSet raw) port proto names = true ↔ ports_admit raw port proto names.
Proof.
  unfold ports_match, ports_admit, compilePortSet. destruct raw as [|s0 raw]; cbn [ps_all ps_ports]; [naive_solver|].
  set (l := s0 :: raw). rewrite existsb_exists. split.
  - intros (p & Hp & Hm). apply list_elem_of_In, list_elem_of_omap in Hp as (s & Hs & Hp).
    right. exists s. split; [done|]. exists p. by rewrite <- rule_matches_spec.
  - intros [?|(s & Hs & p & Hp & Ha)]; [done|]. exists p. split.
    + apply list_elem_of_In, list_elem_of_omap. eauto.
    + by apply rule_matches_spec.
Qed.

(** A peer list admits through [mtch] when a written peer does. *)
Lemma firstReason_spec mtch (admits : NetworkPolicyPeer → Prop) peers :
  (∀ p, (∃ m, compilePeer p = Some m ∧ is_Some (mtch m)) ↔ admits p) →
  is_Some (firstReason mtch (compilePeers peers)) ↔ ∃ p, p ∈ peers ∧ admits p.
Proof.
  intros Hspec. induction peers as [|p peers IH]; [cbn; rewrite is_Some_alt; set_solver|].
  unfold compilePeers in *. cbn [omap list_omap]. destruct (compilePeer p) as [m|] eqn:Hp.
  - cbn [firstReason]. destruct (mtch m) as [r|] eqn:Hm.
    + split; [|eauto]. intros _. exists p. split; [set_solver|]. apply Hspec. exists m. by rewrite Hm.
    + rewrite IH. assert (¬ admits p) by (intros (m' & ? & [? ?])%Hspec; congruence). set_solver.
  - rewrite IH. assert (¬ admits p) by (intros (m' & ? & ?)%Hspec; congruence). set_solver.
Qed.

Ltac peer_cases p :=
  destruct (bool_decide_reflect (peer_CIDR p = "")); cbn [negb];
  [destruct (bool_decide_reflect (peer_ServiceSelector p = ∅)); cbn [negb];
   [destruct (bool_decide_reflect (peer_Service p = "")); cbn [negb];
    [destruct (bool_decide_reflect (peer_Namespace p = "")); cbn [negb]|]|]|].

(** The two matchers differ only in what they read names from. *)
Lemma compilePeer_cidr p ip mtch :
  peer_CIDR p ≠ "" →
  (∀ n, mtch (matcherCIDR n) =
    match ip with Some z => if Contains n z then Some ReasonAllowedByCIDR else None | None => None end) →
  (∃ m, compilePeer p = Some m ∧ is_Some (mtch m)) ↔ cidr_admits p ip.
Proof.
  intros Hne Hm. unfold compilePeer, cidr_admits. rewrite bool_decide_eq_false_2 by done. cbn [negb].
  destruct (ParseCIDR (peer_CIDR p)) as [n|] eqn:Hn; [|naive_solver].
  split.
  - intros (m & [= <-] & Hs). rewrite Hm in Hs. destruct ip as [z|]; [|by destruct Hs].
    destruct (Contains n z) eqn:Hc; [|by destruct Hs]. split; [done|]. exists n, z.
    repeat split; try done; by eapply (Contains_in_prefix _ n z).
  - intros (_ & n' & z & [= <-] & -> & Hin). exists (matcherCIDR n). split; [done|]. rewrite Hm.
    apply (Contains_in_prefix _ _ _ Hn) in Hin as ->. eauto.
Qed.

Lemma source_spec src p :
  (∃ m, compilePeer p = Some m ∧ is_Some (matchPeer m src)) ↔ source_admitted src p.
Proof.
  destruct (decide (peer_CIDR p = "")) as [Hc|Hc].
  2: { rewrite (compilePeer_cidr p (pi_IP src) (λ m, matchPeer m src)) by done.
       unfold source_admitted, by_name. naive_solver. }
  unfold compilePeer, source_admitted, cidr_admits, by_name, service_is, namespace_is.
  peer_cases p; try done.
  - naive_solver.
  - split.
    + intros (m & [= <-] & Hs). cbn in Hs. destruct (pi_Identity src) as [i|]; [|by destruct Hs].
      case_bool_decide; [|by destruct Hs]. naive_solver.
    + intros [?|(_ & i & Hi & [?|(_ & _ & Hn)])]; [naive_solver|naive_solver|].
      eexists. split; [done|]. cbn. rewrite Hi, bool_decide_eq_true_2 by done. eauto.
  - split.
    + intros (m & [= <-] & Hs). cbn in Hs. destruct (pi_SameNode src) eqn:Hn; [|by destruct Hs].
      destruct (pi_Identity src) as [i|]; [|by destruct Hs]. right. split; [done|]. exists i. split; [done|]. left.
      cbn [negb] in Hs. repeat case_bool_decide; cbn in Hs; try (by destruct Hs); naive_solver.
    + intros [?|(_ & i & Hi & [(Hn & _ & Hsv & Hns)|?])]; [naive_solver| |naive_solver].
      eexists. split; [done|]. cbn. rewrite Hi, Hn, (bool_decide_eq_true_2 (_ = _)) by done. cbn [negb].
      repeat case_bool_decide; cbn; try naive_solver.
  - split; [|naive_solver]. intros (m & [= <-] & Hs). by destruct Hs.
Qed.

Lemma target_spec t p :
  (∃ m, compilePeer p = Some m ∧ is_Some (matchEgressPeer m t)) ↔ target_admitted t p.
Proof.
  destruct (decide (peer_CIDR p = "")) as [Hc|Hc].
  2: { rewrite (compilePeer_cidr p (t_IP t) (λ m, matchEgressPeer m t)) by done.
       unfold target_admitted, by_name. naive_solver. }
  unfold compilePeer, target_admitted, cidr_admits, by_name, service_is, namespace_is.
  peer_cases p; try done.
  - naive_solver.
  - split.
    + intros (m & [= <-] & Hs). cbn in Hs. case_bool_decide; [|by destruct Hs]. naive_solver.
    + intros [?|(_ & [?|(_ & _ & Hn)])]; [naive_solver|naive_solver|].
      eexists. split; [done|]. cbn. rewrite bool_decide_eq_true_2 by done. eauto.
  - split.
    + intros (m & [= <-] & Hs). cbn in Hs. right. split; [done|]. left.
      repeat case_bool_decide; cbn in Hs; try (by destruct Hs); naive_solver.
    + intros [?|(_ & [(_ & Hsv & Hns)|?])]; [naive_solver| |naive_solver].
      eexists. split; [done|]. cbn. rewrite (bool_decide_eq_true_2 (_ = _)) by done. cbn [negb].
      repeat case_bool_decide; cbn; try naive_solver.
  - split; [|naive_solver]. intros (m & [= <-] & Hs). by destruct Hs.
Qed.

(** ** The rule loop *)

Section RuleLoop.
Context {R : Type} (to_rule : R → rule) (admits : R → Prop).
Context (portsOk : portSet → bool) (mtch : peerMatcher → option Reason).
Context (Hadm : ∀ r, admits r ↔ portsOk (r_ports (to_rule r)) = true ∧ is_Some (firstReason mtch (r_peers (to_rule r)))).

Lemma firstRule_spec k rules :
  match firstRule portsOk mtch k (to_rule <$> rules) with
  | Some (i, _) => ∃ j r, i = k + Z.of_nat j ∧ rules !! j = Some r ∧ admits r ∧
      ∀ j' r', (j' < j)%nat → rules !! j' = Some r' → ¬ admits r'
  | None => ∀ r, r ∈ rules → ¬ admits r
  end.
Proof.
  revert k. induction rules as [|r rules IH]; intros k; [intros r Hr; set_solver|].
  rewrite fmap_cons. cbn [firstRule].
  assert (Hskip : ¬ admits r → match firstRule portsOk mtch (k + 1) (to_rule <$> rules) with
    | Some (i, _) => ∃ j r0, i = k + Z.of_nat j ∧ (r :: rules) !! j = Some r0 ∧ admits r0 ∧
        ∀ j' r', (j' < j)%nat → (r :: rules) !! j' = Some r' → ¬ admits r'
    | None => ∀ r0, r0 ∈ r :: rules → ¬ admits r0 end).
  { intros Hn. specialize (IH (k + 1)). destruct (firstRule portsOk mtch (k + 1) (to_rule <$> rules)) as [[i reason]|].
    - destruct IH as (j & r0 & -> & Hj & Ha & Hlt). exists (S j), r0. repeat split; [lia|done|done|].
      intros [|j'] r' Hj' Hl; [naive_solver|]. eapply (Hlt j'); [lia|done].
    - set_solver. }
  destruct (portsOk (r_ports (to_rule r))) eqn:Hp; cbn [negb].
  - destruct (firstReason mtch (r_peers (to_rule r))) as [reason|] eqn:Hr.
    + exists 0%nat, r. repeat split; [lia| |intros; lia]. apply Hadm. rewrite Hr. eauto.
    + apply Hskip. rewrite Hadm, Hr. by intros [_ []].
  - apply Hskip. rewrite Hadm, Hp. by intros [? _].
Qed.

(** The result built from the loop is the decision the rules call for. *)
Lemma firstRule_decides (rules : list R) dir own reason :
  rules ≠ [] →
  decides rules admits
    match firstRule portsOk mtch 0 (to_rule <$> rules) with
    | Some (i, why) => mkResult DecisionAllow why i dir own
    | None => mkResult DecisionDeny reason (-1) dir own
    end.
Proof.
  intros Hne. pose proof (firstRule_spec 0 rules) as H. unfold decides.
  destruct (firstRule portsOk mtch 0 (to_rule <$> rules)) as [[i why]|]; cbn [res_Decision res_MatchedRule].
  - destruct H as (j & r & -> & Hj & Ha & Hlt). assert (r ∈ rules) by eauto using list_elem_of_lookup_2.
    split; [naive_solver|]. split; [naive_solver|]. split; [naive_solver|]. intros _. exists j, r. auto with lia.
  - naive_solver.
Qed.
End RuleLoop.

Lemma no_policy_decides {R} (admits : R → Prop) : decides [] admits no_policy.
Proof. unfold decides, no_policy. cbn. set_solver. Qed.

Lemma Compile_rules svc :
  match Compile (Some svc) with
  | None => ingress_rules svc = [] ∧ egress_rules svc = []
  | Some c =>
      c_portNames c = portNamesOf (s_Ports svc) ∧
      c_hasIngress c = negb (bool_decide (ingress_rules svc = [])) ∧
      c_hasEgress c = negb (bool_decide (egress_rules svc = [])) ∧
      c_ingress c = (λ r, mkRule (compilePeers (in_From r)) (compilePortSet (in_Ports r))) <$> ingress_rules svc ∧
      c_egress c = (λ r, mkRule (compilePeers (eg_To r)) (compilePortSet (eg_Ports r))) <$> egress_rules svc
  end.
Proof.
  unfold Compile, ingress_rules, egress_rules. destruct (s_NetworkPolicy svc) as [pol|]; [|done]. cbn [from_option].
  destruct (bool_decide (np_Ingress pol = []) && bool_decide (np_Egress pol = [])) eqn:E; [by bools|done].
Qed.

Lemma ingress_decides svc src port proto :
  decides (ingress_rules svc) (ingress_admits svc src port proto) (EvaluateIngress (Compile (Some svc)) src port proto).
Proof.
  pose proof (Compile_rules svc) as Hc. unfold EvaluateIngress. destruct (Compile (Some svc)) as [c|]; cycle 1.
  { destruct Hc as [-> _]. apply no_policy_decides. }
  destruct Hc as (Hpn & Hi & _ & Hin & _).
  rewrite Hpn, Hi, Hin. destruct (bool_decide_reflect (ingress_rules svc = [])) as [->|Hr]; cbn [negb]; [apply no_policy_decides|].
  apply firstRule_decides; [|done]. intros r. cbn [r_ports r_peers]. unfold ingress_admits, port_names.
  rewrite ports_match_spec, (firstReason_spec _ (source_admitted src)) by apply source_spec. done.
Qed.

Lemma egress_decides svc t proto :
  decides (egress_rules svc) (egress_admits t proto) (EvaluateEgress (Compile (Some svc)) t proto).
Proof.
  pose proof (Compile_rules svc) as Hc. unfold EvaluateEgress. destruct (Compile (Some svc)) as [c|]; cycle 1.
  { destruct Hc as [_ ->]. apply no_policy_decides. }
  destruct Hc as (_ & _ & He & _ & Heg).
  rewrite He, Heg. destruct (bool_decide_reflect (egress_rules svc = [])) as [->|Hr]; cbn [negb]; [apply no_policy_decides|].
  apply firstRule_decides; [|done]. intros r. cbn [r_ports r_peers]. unfold egress_admits.
  rewrite ports_match_spec, (firstReason_spec _ (target_admitted t)) by apply target_spec. done.
Qed.

(** *** The rules as they are documented

    Identities belong to sources on this node: both name forms match only those. *)

Definition source_admitted_here (src : PeerInfo) (p : NetworkPolicyPeer) : Prop :=
  cidr_admits p (pi_IP src) ∨
  (pi_SameNode src = true ∧ by_name p ∧ ∃ i, pi_Identity src = Some i ∧
    (service_is p (id_Service i) (id_Namespace i) ∨ namespace_is p (id_Namespace i))).

Definition ingress_admits_here (svc : Service) (src : PeerInfo) (port : Z) (proto : string) (r : IngressRule) : Prop :=
  ports_admit (in_Ports r) port proto (port_names svc port) ∧ ∃ p, p ∈ in_From r ∧ source_admitted_here src p.

Lemma decides_iff {R} (rules : list R) (P Q : R → Prop) res : (∀ r, P r ↔ Q r) → decides rules P res → decides rules Q res.
Proof. intros Heq. unfold decides. setoid_rewrite Heq. done. Qed.

Lemma admitted_here src p :
  (pi_SameNode src = false → pi_Identity src = None) → source_admitted src p ↔ source_admitted_here src p.
Proof.
  intros Hid. unfold source_admitted, source_admitted_here. destruct (pi_SameNode src); [naive_solver|]. rewrite Hid by done. naive_solver.
Qed.

(** C37: compiling a service's policy and evaluating the compiled form decides
    every connection as the rules written in its spec say.  In each direction
    the service is open exactly when the spec has no rule for it; otherwise the
    connection is allowed exactly when some rule's ports admit the port (all
    ports when none is listed, else a parsed entry with the protocol and the
    number or a name the spec gives the port) and one of the rule's peers
    admits the other side (a prefix by address; a service or a namespace by the
    identity, for an incoming connection that of a source on this node), the
    rule reported being the first such one; and every other connection is
    denied, so entries that do not parse and selectors admit nothing.  For
    incoming connections this takes the source's premise that only sources on
    this node come with an identity; what namespace rules do with one that
    breaks it is [remote_identity_admitted]. *)
Theorem policy_decides svc src port proto t (Hid : pi_SameNode src = false → pi_Identity src = None) :
  decides (ingress_rules svc) (ingress_admits_here svc src port proto) (EvaluateIngress (Compile (Some svc)) src port proto) ∧
  decides (egress_rules svc) (egress_admits t proto) (EvaluateEgress (Compile (Some svc)) t proto).
Proof.
  split; [|apply egress_decides]. eapply decides_iff; [|apply ingress_decides]. intros r.
  unfold ingress_admits, ingress_admits_here. by setoid_rewrite (λ p, admitted_here src p Hid).
Qed.

(** A service open to the namespace [prod]. *)
Definition gated : Service :=
  {| s_ID := "svc"; s_Name := "svc"; s_Namespace := "prod"; s_Image := "img"; s_Env := ∅;
     s_Scale := 1; s_Ports := []; s_Resources := mkResources "" ""; s_HasHealth := false; s_HasReadiness := false;
     s_NetworkPolicy := Some (mkNetworkPolicy [mkIngressRule [mkPeer "" "prod" ∅ ""] ["80"]] []);
     s_Volumes := []; s_Dependencies := []; s_Status := ServiceStatusRunning; s_StatusReason := ""; s_StatusMessage := "";
     s_Runtime := RuntimeTypeContainer; s_Process := None; s_UpdateStrategy := None;
     s_DrainSeconds := None; s_Update := None; s_Metadata := None |}.

Lemma policy_decides_witness :
  let src := mkPeerInfo None (Some (mkIdentity "web-1" "web" "prod")) true in
  res_Decision (EvaluateIngress (Compile (Some gated)) src 80 "tcp") = DecisionAllow ∧
  res_Decision (EvaluateIngress (Compile (Some gated)) (mkPeerInfo None None false) 80 "tcp") = DecisionDeny.
Proof.
  pose proof (λ src H, proj1 (policy_decides gated src 80 "tcp" (mkEgressTarget "" "" 0 [] None) H)) as H. split.
  - destruct (H (mkPeerInfo None (Some (mkIdentity "web-1" "web" "prod")) true) ltac:(discriminate)) as (_ & Ha & _). apply Ha.
    eexists. split; [left|]. split; [right; exists "80"; split; [left|]; (exists (mkPortRule "" 80 ""); split; [vm_compute; reflexivity|]; split; [by left|by right])|].
    exists (mkPeer "" "prod" ∅ ""). split; [left|]. right. split; [done|]. split; [done|]. eexists. split; [done|]. by right.
  - destruct (H (mkPeerInfo None None false) (λ _, eq_refl)) as (_ & _ & Hd & _). apply Hd. split; [done|].
    intros r ->%list_elem_of_singleton (_ & p & ->%list_elem_of_singleton & [[Hc _]|(Hs & _)]); [by apply Hc|done].
Defined.

(** A source on another node does come with its identity, and a namespace rule
    admits it. *)
Theorem remote_identity_admitted :
  let t := Apply map_to_list "b" {["10.0.1.2" := mkIdentity "db-1" "db" "prod"]} (NewLocalInstancesTable "a") in
  let src := PeerInfoFor t.1 (Some 167772418) in
  pi_SameNode src = false ∧ pi_Identity src = Some (mkIdentity "db-1" "db" "prod") ∧
  res_Decision (EvaluateIngress (Compile (Some gated)) src 80 "tcp") = DecisionAllow ∧
  (∀ r, r ∈ ingress_rules gated → ¬ ingress_admits_here gated src 80 "tcp" r).
Proof.
  cbv zeta. split_and!; [vm_compute; reflexivity..|].
  intros r ->%list_elem_of_singleton (_ & p & ->%list_elem_of_singleton & [[Hc _]|(Hs & _)]); [by apply Hc|done].
Qed.

(** ** The table *)

(** [order] lists the nodes in the order Go happens to range over them. *)
Definition ranges (order : gmap string (gmap string InstanceIdentity) → list (string * gmap string InstanceIdentity)) : Prop :=
  ∀ nodes, order nodes ≡ₚ map_to_list nodes.

(** No address is listed by two nodes. *)
Definition one_owner (nodes : gmap string (gmap string InstanceIdentity)) : Prop :=
  ∀ n n' m m' ip, nodes !! n = Some m → nodes !! n' = Some m' → is_Some (m !! ip) → is_Some (m' !! ip) → n = n'.

Inductive table_op := OpApply (nodeID : string) (instances : gmap string InstanceIdentity) | OpRemove (nodeID : string).

Definition run_op order (t : LocalInstancesTable) (op : table_op) : LocalInstancesTable :=
  match op with OpApply n m => (Apply order n m t).1 | OpRemove n => (Remove order n t).1 end.

(** The record the operations describe: each node's last applied list. *)
Definition record_op (nodes : gmap string (gmap string InstanceIdentity)) (op : table_op) :=
  match op with
  | OpApply n m => if bool_decide (n = "") then nodes else <[n := m]> nodes
  | OpRemove n => delete n nodes
  end.

Definition owns (nodes : gmap string (gmap string InstanceIdentity)) (n ip : string) (i : InstanceIdentity) : Prop :=
  ∃ m, nodes !! n = Some m ∧ m !! ip = Some i.

(** The derived maps list a node's addresses, and nothing else. *)
Definition derived (t : LocalInstancesTable) : Prop :=
  ∀ ip, (∃ n i, owns (tb_nodes t) n ip i ∧ tb_flat t !! ip = Some i ∧ tb_reverseNode t !! ip = Some n) ∨
        ((∀ n i, ¬ owns (tb_nodes t) n ip i) ∧ tb_flat t !! ip = None ∧ tb_reverseNode t !! ip = None).

#[local] Abbreviation rebuild_step := (λ (acc : gmap string InstanceIdentity * gmap string string)
  (nm : string * gmap string InstanceIdentity), (nm.2 ∪ acc.1, ((λ _, nm.1) <$> nm.2) ∪ acc.2)).

(** The rebuild loop at one address: some listing node wins, or nothing changes. *)
Lemma rebuild_lookup l acc ip :
  let acc' := fold_left rebuild_step l acc in
  (∃ n m i, (n, m) ∈ l ∧ m !! ip = Some i ∧ acc'.1 !! ip = Some i ∧ acc'.2 !! ip = Some n) ∨
  ((∀ n m, (n, m) ∈ l → m !! ip = None) ∧ acc'.1 !! ip = acc.1 !! ip ∧ acc'.2 !! ip = acc.2 !! ip).
Proof.
  cbv zeta in *. revert acc. induction l as [|[n m] l IH]; intros acc; cbn [fold_left fst snd].
  { right. split; [set_solver|done]. }
  destruct (IH (rebuild_step acc (n, m))) as [(n' & m' & i & Hin & Hm & H1 & H2)|(Hno & H1 & H2)].
  { left. exists n', m', i. split; [set_solver|done]. }
  cbn [fst snd] in H1, H2. destruct (m !! ip) as [i|] eqn:Hm.
  - left. exists n, m, i. split; [set_solver|]. split; [done|]. split.
    + rewrite H1. by apply lookup_union_Some_l.
    + rewrite H2. apply lookup_union_Some_l. by rewrite lookup_fmap, Hm.
  - right. split; [set_solver|]. rewrite H1, H2, !lookup_union_r; rewrite ?lookup_fmap, ?Hm; done.
Qed.

Lemma rebuildLocked_derived order t : order ≡ₚ map_to_list (tb_nodes t) → derived (rebuildLocked order t).
Proof.
  intros Hp ip. unfold rebuildLocked. pose proof (rebuild_lookup order (∅, ∅) ip) as H. cbv zeta in H.
  destruct (fold_left rebuild_step order (∅, ∅)) as [flat rev]. cbn [tb_nodes tb_flat tb_reverseNode fst snd] in *.
  assert (Hl : ∀ n m, (n, m) ∈ order ↔ tb_nodes t !! n = Some m)
    by (intros; rewrite Hp; apply elem_of_map_to_list).
  destruct H as [(n & m & i & Hin%Hl & Hm & H1 & H2)|(Hno & H1 & H2)].
  - left. exists n, i. split; [by exists m|done].
  - right. split; [|by rewrite H1, H2]. intros n i (m & Hn & Hm). apply Hl, Hno in Hn. congruence.
Qed.

(** One operation follows the record and keeps the derived maps in step. *)
Lemma run_op_inv order t op :
  ranges order → derived t →
  tb_nodes (run_op order t op) = record_op (tb_nodes t) op ∧
  tb_localNodeID (run_op order t op) = tb_localNodeID t ∧ derived (run_op order t op).
Proof.
  intros Hr Hd. destruct op as [n m|n]; unfold run_op, record_op, Apply, Remove.
  - destruct (bool_decide_reflect (n = "")); [done|]. cbn [fst].
    split_and!; [unfold rebuildLocked; by destruct (fold_left _ _ _)..|by apply rebuildLocked_derived, Hr].
  - destruct (tb_nodes t !! n) as [m|] eqn:Hm; cbn [fst]; [|by rewrite delete_id].
    split_and!; [unfold rebuildLocked; by destruct (fold_left _ _ _)..|by apply rebuildLocked_derived, Hr].
Qed.

Lemma new_table_derived local : derived (NewLocalInstancesTable local).
Proof. intros ip. right. split; [|done]. by intros n i (m & ? & _). Qed.

(** Every sequence of operations keeps the derived maps in step with the record. *)
Lemma run_ops_inv order local ops :
  ranges order →
  let t := fold_left (run_op order) ops (NewLocalInstancesTable local) in
  tb_nodes t = fold_left record_op ops ∅ ∧ tb_localNodeID t = local ∧ derived t.
Proof.
  intros Hr. cbv zeta.
  enough (H : ∀ t, derived t → let t' := fold_left (run_op order) ops t in
    tb_nodes t' = fold_left record_op ops (tb_nodes t) ∧ tb_localNodeID t' = tb_localNodeID t ∧ derived t')
    by apply (H (NewLocalInstancesTable local)), new_table_derived.
  induction ops as [|op ops IH]; intros t Hd; [done|]. cbn [fold_left].
  destruct (run_op_inv order t op Hr Hd) as (<- & <- & Hd'). by apply IH.
Qed.

(** After any sequence of node records applied and removed, if no address
    is listed by two of the current records, then whatever order the nodes are
    ranged over in, a source address resolves to exactly the identity its node
    lists for it, it is flagged as on this node exactly when the local node's
    record lists it, and an address no record lists has no identity and is not
    on this node. *)
Theorem table_resolves order local ops ip :
  ranges order → local ≠ "" → one_owner (fold_left record_op ops ∅) →
  let nodes := fold_left record_op ops ∅ in
  let t := fold_left (run_op order) ops (NewLocalInstancesTable local) in
  (∀ i, pi_Identity (PeerInfoFor t (Some ip)) = Some i ↔ ∃ n, owns nodes n (IP_String ip) i) ∧
  (pi_SameNode (PeerInfoFor t (Some ip)) = true ↔ ∃ i, owns nodes local (IP_String ip) i) ∧
  SameNode t (Some ip) = pi_SameNode (PeerInfoFor t (Some ip)) ∧
  Lookup t (Some ip) = pi_Identity (PeerInfoFor t (Some ip)).
Proof.
  intros Hr Hloc Hone. cbv zeta. destruct (run_ops_inv order local ops Hr) as (Hn & Hl & Hd).
  set (t := fold_left (run_op order) ops (NewLocalInstancesTable local)) in *.
  rewrite <- Hn in *. cbn [PeerInfoFor pi_Identity pi_SameNode SameNode Lookup]. rewrite Hl.
  set (a := IP_String ip).
  assert (Huniq : ∀ n n' i i', owns (tb_nodes t) n a i → owns (tb_nodes t) n' a i' → n = n' ∧ i = i').
  { intros n n' i i' (m & ? & Hm) (m' & ? & Hm'). assert (n = n') as <- by (eapply Hone; [done|done|by rewrite Hm|by rewrite Hm']).
    split; [done|congruence]. }
  rewrite (bool_decide_eq_false_2 (local = "")) by done. rewrite bool_decide_eq_true.
  destruct (Hd a) as [(n & i0 & Ho & -> & ->)|(Hno & -> & ->)].
  - split; [|split; [|done]].
    + intros i. split; [intros [= <-]; eauto|]. intros (n' & Ho'). f_equal. by destruct (Huniq _ _ _ _ Ho Ho').
    + split; [intros [= <-]; eauto|]. intros (i & Ho'). f_equal. by destruct (Huniq _ _ _ _ Ho Ho').
  - split; [|split; [|done]].
    + intros i. split; [done|]. intros (n & Ho). by destruct (Hno n i).
    + split; [done|]. intros (i & Ho). by destruct (Hno local i).
Qed.

Definition two_nodes : list table_op :=
  [OpApply "a" {["10.0.0.2" := mkIdentity "web-1" "web" "prod"]};
   OpApply "b" {["10.0.1.2" := mkIdentity "db-1" "db" "prod"]};
   OpApply "c" {["10.0.0.2" := mkIdentity "old" "old" "old"]}; OpRemove "c"].

Lemma table_resolves_witness :
  let t := fold_left (run_op map_to_list) two_nodes (NewLocalInstancesTable "a") in
  pi_SameNode (PeerInfoFor t (Some 167772162)) = true ∧
  pi_Identity (PeerInfoFor t (Some 167772162)) = Some (mkIdentity "web-1" "web" "prod").
Proof.
  assert (Hnodes : fold_left record_op two_nodes ∅ =
    {["a" := {["10.0.0.2" := mkIdentity "web-1" "web" "prod"]}; "b" := {["10.0.1.2" := mkIdentity "db-1" "db" "prod"]}]})
    by (vm_compute; reflexivity).
  destruct (table_resolves map_to_list "a" two_nodes 167772162) as (Hid & Hsn & _); [by intros ?|done| |].
  - rewrite Hnodes. intros n n' m m' ip Hn Hn' [? Hm] [? Hm'].
    apply lookup_insert_Some in Hn as [[<- <-]|[? [<- <-]%lookup_singleton_Some]];
    apply lookup_insert_Some in Hn' as [[<- <-]|[? [<- <-]%lookup_singleton_Some]]; try done;
    apply lookup_singleton_Some in Hm as [<- _]; by apply lookup_singleton_Some in Hm' as [? _].
  - rewrite Hnodes in Hid, Hsn. split.
    + apply Hsn. eexists. by exists {["10.0.0.2" := mkIdentity "web-1" "web" "prod"]}.
    + apply Hid. exists "a". by exists {["10.0.0.2" := mkIdentity "web-1" "web" "prod"]}.
Defined.
