(* ===== verification/Endpoints.v ===== *)
(** * Endpoint publishing (pkg/orchestrator/instance/instance_endpoints.go)

    [republishService] recomputes a service's endpoint set from the store and
    publishes it unless the signature of the last published set is unchanged.
    The published sets are the [endpoints/] keys the publisher writes through
    the ordered log (internal/agent/dns/wire.go, pkg/networking/endpoints). *)

From S2P Require Import Prelude Types Status.
From stdpp Require Import pretty.

#[local] Open Scope Z_scope.

(** [types.Endpoint], without the check timestamp nobody sets here. *)
Record Endpoint := mkEndpoint {
  ep_InstanceID : string;
  ep_IP : string;
  ep_Port : Z;
  ep_Protocol : string;
  ep_Metadata : gmap string string;
  ep_Healthy : bool;
}.

#[global] Instance Endpoint_eq_dec : EqDecision Endpoint.
Proof. solve_decision. Defined.

(** The instances by namespace and id, the published sets by service id, and
    the controller's [lastPublished]. *)
Record ep_state := mkEpState {
  es_store : gmap (string * string) Instance;
  es_published : gmap string (list Endpoint);
  es_last : gmap string string;
}.

(** One call's surroundings: the binding, what the store's listing returns,
    the address a runner reports, and whether the writes succeed. *)
Record ep_env := mkEpEnv {
  pe_publisher : bool;
  pe_nodeID : string;
  pe_List : gmap (string * string) Instance → string → option (list Instance);
  pe_InstanceIP : Instance → option string;
  pe_persist_ok : Instance → bool;
  pe_publish_ok : bool;
}.

(** ** Addresses *)

Definition set_ip (i : Instance) (ip : string) : Instance :=
  let m := default (mkInstanceMetadata "" 0 None "" 0) (i_Metadata i) in
  {| i_ID := i_ID i; i_Namespace := i_Namespace i; i_Name := i_Name i;
     i_ServiceName := i_ServiceName i; i_ServiceID := i_ServiceID i; i_Status := i_Status i;
     i_StatusMessage := i_StatusMessage i; i_IP := ip; i_ContainerID := i_ContainerID i; i_PID := i_PID i;
     i_CreatedAt := i_CreatedAt i; i_UpdatedAt := i_UpdatedAt i; i_LastTransitionAt := i_LastTransitionAt i;
     i_Ready := i_Ready i; i_ReadyChangedAt := i_ReadyChangedAt i;
     i_ContainerEverCreatedAt := i_ContainerEverCreatedAt i;
     i_NextCreateAttemptAt := i_NextCreateAttemptAt i; i_FailedAt := i_FailedAt i;
     i_LastLogs := i_LastLogs i; i_Process := i_Process i;
     i_Resources := i_Resources i; i_Environment := i_Environment i;
     i_Metadata := Some (mkInstanceMetadata (im_Image m) (im_ServiceGeneration m) (im_DeletionTimestamp m) ip (im_RestartCount m)) |}.

(** The recorded container address. *)
Definition ContainerIP (i : Instance) : string := from_option im_ContainerIP "" (i_Metadata i).

(** The callback of [persistInstanceIP]'s compare-and-swap. *)
Definition ip_mutate (ip : string) (fresh : Instance) : option Instance :=
  if bool_decide (ContainerIP fresh = ip) && bool_decide (i_IP fresh = ip) then None else Some (set_ip fresh ip).

(** The stored instances, and the in-hand record, afterwards. *)
Definition persistInstanceIP (env : ep_env) (ip : string) (inst : Instance) (store : gmap (string * string) Instance)
    : gmap (string * string) Instance * Instance :=
  let key := (i_Namespace inst, i_ID inst) in
  let store' :=
    if pe_persist_ok env inst then
      match UpdateFunc updateFuncMaxRetries [store !! key] (ip_mutate ip) with
      | Ok (Some v) => <[key := v]> store
      | _ => store
      end
    else store in
  (store', set_ip inst ip).

(** The address [instanceEndpointIP] settles on, empty for none. *)
Definition endpointIP (env : ep_env) (inst : Instance) : string :=
  if negb (bool_decide (ContainerIP inst = "")) then ContainerIP inst else default "" (pe_InstanceIP env inst).

Definition instanceEndpointIP (env : ep_env) (inst : Instance) (store : gmap (string * string) Instance)
    : string * Instance * gmap (string * string) Instance :=
  let ip := endpointIP env inst in
  if bool_decide (ip = "") then ("", inst, store)
  else let '(store', inst') := persistInstanceIP env ip inst store in (ip, inst', store').

(** ** The signature *)

Definition part (ep : Endpoint) : string :=
  ep_InstanceID ep +:+ "|" +:+ ep_IP ep +:+ "|" +:+ pretty (ep_Port ep) +:+ "|" +:+ ep_Protocol ep +:+ "|" +:+
  (if ep_Healthy ep then "true" else "false").

(** [strings.Join] with a comma. *)
Fixpoint Join (parts : list string) : string :=
  match parts with
  | [] => ""
  | [p] => p
  | p :: parts => p +:+ "," +:+ Join parts
  end.

Definition endpointsSignature (eps : list Endpoint) : string := Join (SliceStable String.ltb (part <$> eps)).

(** ** Publishing *)

Definition primaryPort (service : Service) : Z :=
  match s_Ports service with
  | [] => 0
  | p :: _ => if sp_TargetPort p =? 0 then sp_Port p else sp_TargetPort p
  end.

Definition primaryProto (service : Service) : string :=
  match s_Ports service with
  | [] => "TCP"
  | p :: _ => if bool_decide (sp_Protocol p = "") then "TCP" else sp_Protocol p
  end.

Definition node_metadata (nodeID : string) : gmap string string :=
  if bool_decide (nodeID = "") then ∅ else {["node_id" := nodeID]}.

(** The instance loop: the endpoints, and the store after the addresses found
    on the way were recorded. *)
Fixpoint endpointLoop (env : ep_env) (service : Service) (instances : list Instance)
    (store : gmap (string * string) Instance) : list Endpoint * gmap (string * string) Instance :=
  match instances with
  | [] => ([], store)
  | inst :: rest =>
      if negb (bool_decide (i_ServiceName inst = s_Name service)) then endpointLoop env service rest store
      else if negb (bool_decide (i_Status inst = InstanceStatusRunning)) then endpointLoop env service rest store
      else
        let '(ip, inst', store') := instanceEndpointIP env inst store in
        if bool_decide (ip = "") then endpointLoop env service rest store'
        else
          let ep := mkEndpoint (i_ID inst') ip (primaryPort service) (primaryProto service)
                      (node_metadata (pe_nodeID env)) (IsReady inst') in
          let '(eps, store'') := endpointLoop env service rest store' in (ep :: eps, store'')
  end.

(** [EndpointPublisher.PublishService]: an empty set deletes the key. *)
Definition PublishService (ok : bool) (service : Service) (eps : list Endpoint) (published : gmap string (list Endpoint))
    : gmap string (list Endpoint) * bool :=
  if bool_decide (s_ID service = "") then (published, true)
  else if negb ok then (published, false)
  else match eps with
       | [] => (delete (s_ID service) published, true)
       | _ => (<[s_ID service := eps]> published, true)
       end.

(** The state afterwards, and whether the publisher was called. *)
Definition republishService (env : ep_env) (service : option Service) (st : ep_state) : ep_state * bool :=
  match service with
  | None => (st, false)
  | Some service =>
      if negb (pe_publisher env) then (st, false)
      else match pe_List env (es_store st) (s_Namespace service) with
      | None => (st, false)
      | Some instances =>
          let '(eps, store') := endpointLoop env service instances (es_store st) in
          let sig := endpointsSignature eps in
          if bool_decide (es_last st !! s_ID service = Some sig) then
            (mkEpState store' (es_published st) (es_last st), false)
          else
            let '(published', ok) := PublishService (pe_publish_ok env) service eps (es_published st) in
            if negb ok then (mkEpState store' published' (es_last st), true)
            else (mkEpState store' published' (<[s_ID service := sig]> (es_last st)), true)
      end
  end.
