(* ===== verification/EndpointsProps.v ===== *)
(** * Endpoint publishing: the signature identifies the set, the set is exact *)

From stdpp Require Import pretty.
From Stdlib Require Import Ascii.
From S2P Require Import Prelude Text Types Status StrategyProps TeardownProps Endpoints.

#[local] Arguments String.append !_ _ : simpl nomatch.

(** ** The signature determines the set *)

Definition clean_text (s : string) : bool := free "|" s && free "," s.

(** What the controller publishes on a node: texts without separators, the
    node's metadata. *)
Definition clean (node : string) (ep : Endpoint) : Prop :=
  clean_text (ep_InstanceID ep) = true ∧ clean_text (ep_IP ep) = true ∧ clean_text (ep_Protocol ep) = true ∧
  ep_Metadata ep = node_metadata node.

Lemma part_free node ep : clean node ep → free "," (part ep) = true ∧ part ep ≠ "".
Proof.
  unfold clean, clean_text, part. intros (H1 & H2 & H3 & _). bools. split.
  - rewrite !free_app. rewrite (pretty_Z_free ","%char) by done.
    repeat match goal with Hx : free _ _ = true |- _ => rewrite Hx; clear Hx end. by destruct (ep_Healthy ep).
  - by destruct (ep_InstanceID ep).
Qed.

Lemma part_inj node a b : clean node a → clean node b → part a = part b → a = b.
Proof.
  unfold clean, clean_text, part. destruct a as [i1 p1 n1 r1 m1 h1], b as [i2 p2 n2 r2 m2 h2]. cbn.
  intros (Ha1 & Ha2 & Ha3 & ->) (Hb1 & Hb2 & Hb3 & ->) Heq. bools.
  apply cut_inj in Heq as [-> Heq]; [|done..]. apply cut_inj in Heq as [-> Heq]; [|done..].
  apply cut_inj in Heq as [Hp Heq]; [|by apply pretty_Z_free..]. apply (inj pretty) in Hp as ->.
  apply cut_inj in Heq as [-> Heq]; [|done..]. by destruct h1, h2.
Qed.

Lemma Join_inj (l k : list string) :
  (∀ s, s ∈ l → free "," s = true ∧ s ≠ "") → (∀ s, s ∈ k → free "," s = true ∧ s ≠ "") → Join l = Join k → l = k.
Proof.
  assert (Hone : ∀ x y k, free "," x = true → x = y +:+ "," +:+ Join k → False).
  { intros x y k' Hx ->. rewrite free_app in Hx. cbn [String.append free] in Hx. bools. done. }
  revert k. induction l as [|x [|x' l] IH]; intros [|y [|y' k]] Hl Hk Heq; try done.
  - cbn in Heq. destruct (Hk y) as [_ []]; [set_solver|done].
  - destruct y; [|done]. by destruct (Hk "") as [_ []]; [set_solver|].
  - cbn in Heq. destruct (Hl x) as [_ []]; [set_solver|done].
  - by cbn in Heq; subst.
  - exfalso. eapply (Hone x y (y' :: k)); [apply Hl; set_solver|done].
  - destruct x; [|done]. by destruct (Hl "") as [_ []]; [set_solver|].
  - exfalso. eapply (Hone y x (x' :: l)); [apply Hk; set_solver|done].
  - change (x +:+ "," +:+ Join (x' :: l) = y +:+ "," +:+ Join (y' :: k)) in Heq.
    apply cut_inj in Heq as [-> Heq]; [|apply Hl; set_solver|apply Hk; set_solver].
    f_equal. apply IH; [set_solver..|done].
Qed.

Lemma Permutation_fmap_inj_on {A B} (P : A → Prop) (f : A → B) (l k : list A) :
  (∀ x y, P x → P y → f x = f y → x = y) → Forall P l → Forall P k → f <$> l ≡ₚ f <$> k → l ≡ₚ k.
Proof.
  intros Hinj. revert k. induction l as [|x l IH]; intros k Hl Hk Hp.
  { apply Permutation_nil_l in Hp. symmetry in Hp. by apply fmap_nil_inv in Hp as ->. }
  apply Forall_cons in Hl as [Hx Hl].
  assert (f x ∈ f <$> k) as (y & Hxy & Hy)%list_elem_of_fmap by (rewrite <- Hp; set_solver).
  assert (x = y) as <- by (rewrite Forall_forall in Hk; eauto).
  apply elem_of_Permutation in Hy as [k' Hk']. rewrite Hk' in Hk. apply Forall_cons in Hk as [_ Hk].
  rewrite Hk' in Hp |- *. constructor. apply IH; [done..|]. rewrite !fmap_cons in Hp. by apply Permutation_cons_inv in Hp.
Qed.

#[local] Instance string_ltb_weak : StrictWeak String.ltb.
Proof. split; [apply string_ltb_asym|apply string_ltb_negtrans]. Qed.

(** Equal signatures are permutations of one set, and conversely. *)
Lemma endpointsSignature_spec node l k :
  Forall (clean node) l → Forall (clean node) k → (endpointsSignature l = endpointsSignature k ↔ l ≡ₚ k).
Proof.
  intros Hl Hk. unfold endpointsSignature.
  assert (Hfree : ∀ eps, Forall (clean node) eps → ∀ s, s ∈ SliceStable String.ltb (part <$> eps) → free "," s = true ∧ s ≠ "").
  { intros eps Heps s Hs. rewrite SliceStable_perm in Hs. apply list_elem_of_fmap in Hs as (ep & -> & Hep).
    rewrite Forall_forall in Heps. eapply part_free, Heps, Hep. }
  split.
  - intros Heq. apply Join_inj in Heq; [|by apply Hfree..].
    eapply (Permutation_fmap_inj_on (clean node) part); [apply part_inj|done..|].
    by rewrite <- (SliceStable_perm String.ltb (part <$> l)), Heq, SliceStable_perm.
  - intros Hp. f_equal. assert (AntiSymm eq (not_after String.ltb)) as Hanti by (intros a b Ha Hb; by apply string_ltb_total).
    eapply (StronglySorted_unique (not_after String.ltb)); [apply SliceStable_sorted, _..|].
    by rewrite !SliceStable_perm, Hp.
Qed.

(** ** Passes *)

(** The endpoint an instance contributes. *)
Definition endpoint_of (env : ep_env) (service : Service) (inst : Instance) : option Endpoint :=
  if bool_decide (i_ServiceName inst = s_Name service) && bool_decide (i_Status inst = InstanceStatusRunning) &&
     negb (bool_decide (endpointIP env inst = ""))
  then Some (mkEndpoint (i_ID inst) (endpointIP env inst) (primaryPort service) (primaryProto service)
               (node_metadata (pe_nodeID env)) (IsReady inst))
  else None.

Lemma endpointLoop_eps env service instances store :
  (endpointLoop env service instances store).1 = omap (endpoint_of env service) instances.
Proof.
  revert store. induction instances as [|inst rest IH]; intros store; [done|].
  cbn [endpointLoop omap list_omap]. unfold endpoint_of at 1, instanceEndpointIP, persistInstanceIP.
  destruct (bool_decide (i_ServiceName inst = s_Name service)); cbn [negb andb]; [|apply IH].
  destruct (bool_decide (i_Status inst = InstanceStatusRunning)); cbn [negb andb]; [|apply IH].
  destruct (bool_decide_reflect (endpointIP env inst = "")) as [He|He]; cbn [negb]; [by rewrite bool_decide_eq_true_2|].
  rewrite bool_decide_eq_false_2 by done. specialize (IH (if pe_persist_ok env inst
      then match UpdateFunc updateFuncMaxRetries [store !! (i_Namespace inst, i_ID inst)] (ip_mutate (endpointIP env inst)) with
           | Ok (Some v) => <[(i_Namespace inst, i_ID inst) := v]> store | _ => store end else store)).
  destruct (endpointLoop env service rest _) as [eps s'']. cbn in IH |- *. by rewrite IH.
Qed.

(** The texts that reach a signature hold no separator: generated ids, dotted
    addresses and protocol names do not. *)
Definition clean_inputs (env : ep_env) (service : Service) (instances : list Instance) : Prop :=
  clean_text (primaryProto service) = true ∧
  ∀ i, i ∈ instances → clean_text (i_ID i) = true ∧ clean_text (endpointIP env i) = true.

Lemma endpoints_clean env service instances :
  clean_inputs env service instances → Forall (clean (pe_nodeID env)) (omap (endpoint_of env service) instances).
Proof.
  intros [Hp Hi]. apply Forall_forall. intros ep Hep. apply list_elem_of_omap in Hep as (i & Hin & He).
  unfold endpoint_of in He. destruct (_ && _ && _); [|done]. injection He as <-. destruct (Hi i Hin). done.
Qed.

(** The life of the controller on a node: passes over any service, failing or
    not, while the store changes at will. *)
Inductive ep_step (node : string) : ep_state → ep_state → Prop :=
| step_store st store : ep_step node st (mkEpState store (es_published st) (es_last st))
| step_pass st env service :
    (pe_publisher env = true → pe_nodeID env = node) →
    (∀ instances, pe_List env (es_store st) (s_Namespace service) = Some instances → clean_inputs env service instances) →
    ep_step node st (republishService env (Some service) st).1.

Definition ep_init (store : gmap (string * string) Instance) : ep_state := mkEpState store ∅ ∅.

(** The cache describes what is published. *)
Definition coherent (node : string) (st : ep_state) : Prop :=
  ∀ id sig, id ≠ "" → es_last st !! id = Some sig →
    Forall (clean node) (default [] (es_published st !! id)) ∧
    sig = endpointsSignature (default [] (es_published st !! id)).

(** One pass with a publisher and a listing, case by case. *)
Lemma republishService_cases env service st instances :
  pe_publisher env = true → pe_List env (es_store st) (s_Namespace service) = Some instances → s_ID service ≠ "" →
  let eps := omap (endpoint_of env service) instances in
  let res := republishService env (Some service) st in
  (es_last st !! s_ID service = Some (endpointsSignature eps) ∧ res.2 = false ∧
     es_published res.1 = es_published st ∧ es_last res.1 = es_last st) ∨
  (es_last st !! s_ID service ≠ Some (endpointsSignature eps) ∧ res.2 = true ∧
    if pe_publish_ok env then
      es_published res.1 = (if bool_decide (eps = []) then delete (s_ID service) (es_published st)
                            else <[s_ID service := eps]> (es_published st)) ∧
      es_last res.1 = <[s_ID service := endpointsSignature eps]> (es_last st)
    else es_published res.1 = es_published st ∧ es_last res.1 = es_last st).
Proof.
  intros Hpub Hl Hid. cbv zeta. unfold republishService. rewrite Hpub, Hl. cbn [negb].
  pose proof (endpointLoop_eps env service instances (es_store st)) as He.
  destruct (endpointLoop env service instances (es_store st)) as [eps store']. cbn [fst] in He. subst eps.
  set (eps := omap (endpoint_of env service) instances).
  case_bool_decide as Hs; [left; done|right]. unfold PublishService. rewrite (bool_decide_eq_false_2 (_ = "")) by done.
  destruct (pe_publish_ok env); cbn [negb]; [|done]. by destruct eps.
Qed.

(** A pass without a publisher, a listing or an id changes nothing cached. *)
Lemma republishService_idle env service st :
  pe_publisher env = false ∨ pe_List env (es_store st) (s_Namespace service) = None →
  (republishService env (Some service) st).1 = st.
Proof. unfold republishService. intros [-> | ->]; [done|]. by destruct (negb (pe_publisher env)). Qed.

Lemma default_publish (published : gmap string (list Endpoint)) id eps :
  default [] ((if bool_decide (eps = []) then delete id published else <[id := eps]> published) !! id) = eps.
Proof. case_bool_decide; [by rewrite lookup_delete_eq|by rewrite lookup_insert_eq]. Qed.

Lemma republishService_noid env service st id :
  s_ID service = "" → id ≠ "" →
  es_published (republishService env (Some service) st).1 = es_published st ∧
  es_last (republishService env (Some service) st).1 !! id = es_last st !! id.
Proof.
  intros Hs Hid. unfold republishService, PublishService. rewrite Hs.
  destruct (negb (pe_publisher env)); [done|]. destruct (pe_List env _ _) as [l|]; [|done].
  destruct (endpointLoop env service l (es_store st)) as [eps s']. case_bool_decide; [done|].
  rewrite (bool_decide_eq_true_2 ("" = "")) by done. cbn [negb fst es_published es_last]. by rewrite lookup_insert_ne.
Qed.

Lemma step_coherent node st st' : ep_step node st st' → coherent node st → coherent node st'.
Proof.
  intros [st0 store|st0 env service Hnode Hclean] Hc; [done|].
  destruct (decide (s_ID service = "")) as [Hid|Hid].
  { intros id sig Hne Hlast. destruct (republishService_noid env service st0 id Hid Hne) as [Hp Hl].
    rewrite Hp. apply Hc; [done|]. by rewrite <- Hl. }
  destruct (pe_publisher env) eqn:Hpub; [|by rewrite republishService_idle by auto].
  destruct (pe_List env (es_store st0) (s_Namespace service)) as [l|] eqn:Hl;
    [|by rewrite republishService_idle by auto].
  destruct (republishService_cases env service st0 l Hpub Hl Hid) as [(_ & _ & Hp & Hs)|(_ & _ & Hr)].
  { intros id sig. rewrite Hp, Hs. apply Hc. }
  destruct (pe_publish_ok env); destruct Hr as [Hp Hs]; intros id sig Hne; rewrite Hp, Hs; [|apply Hc, Hne].
  destruct (decide (id = s_ID service)) as [->|Hd].
  - rewrite lookup_insert_eq, default_publish. intros [= <-]. split; [|done].
    rewrite <- (Hnode eq_refl). by apply endpoints_clean, Hclean.
  - rewrite lookup_insert_ne by done. intros Hlast. destruct (Hc id sig Hne Hlast) as [? ?].
    case_bool_decide; [by rewrite lookup_delete_ne|by rewrite lookup_insert_ne].
Qed.

Lemma reachable_coherent node store st : rtc (ep_step node) (ep_init store) st → coherent node st.
Proof.
  intros Hrtc. assert (Hinit : coherent node (ep_init store)) by done.
  revert Hinit. induction Hrtc; eauto using step_coherent.
Qed.

(** Whatever passes ran before (over any services, with failed listings
    and failed publishes) and however the store changed between them, a pass
    whose listing and publish succeed leaves the service's published endpoint
    set, up to order, exactly the endpoints of its listed Running instances
    that have an address, ready ones healthy; and when the service's cached
    signature exists, the publisher is called exactly when the set that was
    published differs from that, so skipping never leaves a stale set and no
    unchanged set is published again. *)
Theorem republish_exact node store st env service instances :
  rtc (ep_step node) (ep_init store) st →
  pe_publisher env = true → pe_nodeID env = node → pe_publish_ok env = true → s_ID service ≠ "" →
  pe_List env (es_store st) (s_Namespace service) = Some instances → clean_inputs env service instances →
  let eps := omap (endpoint_of env service) instances in
  let '(st', called) := republishService env (Some service) st in
  default [] (es_published st' !! s_ID service) ≡ₚ eps ∧
  (is_Some (es_last st !! s_ID service) →
   (called = false ↔ default [] (es_published st !! s_ID service) ≡ₚ eps)).
Proof.
  intros Hrtc Hpub <- Hok Hid Hl Hclean. cbv zeta.
  pose proof (reachable_coherent _ _ _ Hrtc) as Hc.
  pose proof (endpoints_clean _ _ _ Hclean) as Hce.
  pose proof (republishService_cases env service st instances Hpub Hl Hid) as Hcases. cbv zeta in Hcases. rewrite Hok in Hcases.
  destruct (republishService env (Some service) st) as [st' called]. cbn [fst snd] in Hcases.
  destruct Hcases as [(Hlast & -> & -> & _)|(Hlast & -> & -> & _)].
  - destruct (Hc _ _ Hid Hlast) as [Hcl Hsig]. symmetry in Hsig. by apply (endpointsSignature_spec (pe_nodeID env)) in Hsig.
  - rewrite default_publish. split; [done|]. intros [sig Hsig]. split; [done|]. intros Hp.
    destruct (Hc _ _ Hid Hsig) as [Hcl ->]. destruct Hlast. rewrite Hsig. f_equal. by apply (endpointsSignature_spec (pe_nodeID env)).
Qed.

Definition sample_ep_env : ep_env :=
  {| pe_publisher := true; pe_nodeID := "n1"; pe_List := λ _ _, Some [outdated_instance];
     pe_InstanceIP := λ _, Some "10.0.0.2"; pe_persist_ok := λ _, true; pe_publish_ok := true |}.

Lemma republish_exact_witness :
  let '(st', called) := republishService sample_ep_env (Some published_service) (ep_init ∅) in
  default [] (es_published st' !! "svc") ≡ₚ [mkEndpoint "a" "10.0.0.2" 80 "TCP" {["node_id" := "n1"]} true].
Proof.
  pose proof (republish_exact "n1" ∅ (ep_init ∅) sample_ep_env published_service [outdated_instance]
    ltac:(apply rtc_refl) eq_refl eq_refl eq_refl ltac:(discriminate) eq_refl
    ltac:(split; [reflexivity|]; intros i ->%list_elem_of_singleton; split; reflexivity)) as H.
  cbv zeta in H. destruct (republishService sample_ep_env (Some published_service) (ep_init ∅)) as [st' called].
  exact (proj1 H).
Defined.
