(* ===== verification/Release.v ===== *)
(** * Releases: planning and reconciling a cast (pkg/release, pkg/types/release.go)

    A cast is planned against the release's record and the live cluster, its
    intent is recorded, and the plan is applied, verified and pruned last; an
    atomic cast that fails is reverted.  The record store, the live lookup and
    the applier are interfaces in the source, and type classes here.  Fields of
    the record that are only copied from the spec (source, manifest, values,
    digest, timestamps) are left out. *)

From S2P Require Import Prelude Types.

(** ** Records (pkg/types/release.go) *)

Record OwnerRef := mkOwnerRef {
  or_ResourceType : ResourceType;
  or_Namespace : string;
  or_Name : string;
}.

#[global] Instance OwnerRef_eq_dec : EqDecision OwnerRef.
Proof. solve_decision. Defined.

Definition Key (o : OwnerRef) : string := or_ResourceType o +:+ "/" +:+ or_Namespace o +:+ "/" +:+ or_Name o.

Record OwnedBy := mkOwnedBy {
  ob_Release : string;
  ob_Revision : Z;
  ob_Manager : string;
}.

#[global] Instance OwnedBy_eq_dec : EqDecision OwnedBy.
Proof. solve_decision. Defined.

Definition ManagerRuneset : string := "runeset".

Inductive ReleaseStatus :=
| ReleaseStatusPending
| ReleaseStatusDeployed
| ReleaseStatusSuperseded
| ReleaseStatusFailed
| ReleaseStatusUninstalling
| ReleaseStatusUninstalled.

#[global] Instance ReleaseStatus_eq_dec : EqDecision ReleaseStatus.
Proof. solve_decision. Defined.

Record Release := mkRelease {
  r_ID : string;
  r_Name : string;
  r_Namespace : string;
  r_Status : ReleaseStatus;
  r_Revision : Z;
  r_Owns : list OwnerRef;
  r_References : list OwnerRef;
}.

Definition with_r_Status (r : Release) (st : ReleaseStatus) : Release :=
  mkRelease (r_ID r) (r_Name r) (r_Namespace r) st (r_Revision r) (r_Owns r) (r_References r).

Definition with_r_Owns (r : Release) (owns refs : list OwnerRef) : Release :=
  mkRelease (r_ID r) (r_Name r) (r_Namespace r) (r_Status r) (r_Revision r) owns refs.

(** ** Plans (plan.go) *)

Inductive Action := ActionCreate | ActionUpdate | ActionPrune | ActionAdopt | ActionReference.

#[global] Instance Action_eq_dec : EqDecision Action.
Proof. solve_decision. Defined.

Record Conflict := mkConflict {
  cf_OwnedBy : option OwnedBy;
  cf_Reason : string;
}.

Record PlannedChange := mkPlannedChange {
  pc_Ref : OwnerRef;
  pc_Action : Action;
  pc_Conflict : option Conflict;
}.

Record Plan := mkPlan {
  pl_Release : string;
  pl_Namespace : string;
  pl_Changes : list PlannedChange;
}.

Definition Applyable (p : Plan) : bool :=
  forallb (λ c, match pc_Conflict c with Some _ => false | None => true end) (pl_Changes p).

Definition Counts (p : Plan) (a : Action) : nat :=
  length (List.filter (λ c, bool_decide (pc_Action c = a)) (pl_Changes p)).

Definition HasPrune (p : Plan) : bool := existsb (λ c, bool_decide (pc_Action c = ActionPrune)) (pl_Changes p).

Record LiveState := mkLiveState {
  ls_Exists : bool;
  ls_OwnedBy : option OwnedBy;
}.

Record PlanOptions := mkPlanOptions { po_Adopt : bool }.

Definition isSharedClusterKind (rt : ResourceType) : bool :=
  bool_decide (rt = ResourceTypeStorageClass) || bool_decide (rt = ResourceTypeNamespace).

(** The double quote. *)
Definition quote : string := String (Ascii.ascii_of_nat 34) "".

Definition conflictReason (ob : option OwnedBy) : string :=
  match ob with
  | None => "resource exists and is unmanaged; pass --adopt to take ownership"
  | Some o => "resource is owned by release " +:+ quote +:+ ob_Release o +:+ quote +:+ "; pass --adopt to take ownership"
  end.

Definition change (ref : OwnerRef) (a : Action) : PlannedChange := mkPlannedChange ref a None.

(** What the plan does with a resource that exists but is not in the record. *)
Definition planForeign (releaseName : string) (opts : PlanOptions) (ref : OwnerRef) (ob : option OwnedBy) : PlannedChange :=
  if match ob with Some o => bool_decide (ob_Release o = releaseName) | None => false end then change ref ActionUpdate
  else if po_Adopt opts then change ref ActionAdopt
  else mkPlannedChange ref ActionAdopt (Some (mkConflict ob (conflictReason ob))).

Section Planning.
Context {E : Type} (Lookup : OwnerRef → result E LiveState).

(** The loop over the desired resources; [owned] are the record's keys. *)
Fixpoint planDesired (releaseName : string) (opts : PlanOptions) (owned : gset string) (desired : list OwnerRef)
    : result E (list PlannedChange) :=
  match desired with
  | [] => Ok []
  | d :: rest =>
      let step : result E PlannedChange :=
        if isSharedClusterKind (or_ResourceType d) then Ok (change d ActionReference)
        else if bool_decide (Key d ∈ owned) then Ok (change d ActionUpdate)
        else match Lookup d with
             | Err e => Err e
             | Ok st => Ok (if ls_Exists st then planForeign releaseName opts d (ls_OwnedBy st) else change d ActionCreate)
             end in
      match step with
      | Err e => Err e
      | Ok c => match planDesired releaseName opts owned rest with Ok cs => Ok (c :: cs) | Err e => Err e end
      end
  end.

Definition planPrunes (desiredKeys : gset string) (owns : list OwnerRef) : list PlannedChange :=
  (λ ref, change ref ActionPrune) <$> List.filter (λ ref, negb (bool_decide (Key ref ∈ desiredKeys))) owns.

Definition BuildPlan (releaseName namespace : string) (desired : list OwnerRef) (current : option Release)
    (opts : PlanOptions) : result E Plan :=
  let owns := match current with Some r => r_Owns r | None => [] end in
  match planDesired releaseName opts (list_to_set (Key <$> owns)) desired with
  | Err e => Err e
  | Ok cs => Ok (mkPlan releaseName namespace (cs ++ planPrunes (list_to_set (Key <$> desired)) owns))
  end.
End Planning.

(** ** Execution order (reconcile.go) *)

Definition partitionOwnership (p : Plan) : list OwnerRef * list OwnerRef :=
  (pc_Ref <$> List.filter (λ c, bool_decide (pc_Action c = ActionCreate) || bool_decide (pc_Action c = ActionUpdate) ||
                          bool_decide (pc_Action c = ActionAdopt)) (pl_Changes p),
   pc_Ref <$> List.filter (λ c, bool_decide (pc_Action c = ActionReference)) (pl_Changes p)).

Definition applyRank (rt : ResourceType) : Z :=
  if bool_decide (rt = ResourceTypeNamespace) then 0
  else if bool_decide (rt = ResourceTypeStorageClass) then 1
  else if bool_decide (rt = ResourceTypeVolume) then 2
  else if bool_decide (rt = ResourceTypeConfigmap) then 3
  else if bool_decide (rt = ResourceTypeSecret) then 4
  else if bool_decide (rt = ResourceTypeService) then 5
  else 6.

Definition rank (c : PlannedChange) : Z := applyRank (or_ResourceType (pc_Ref c)).

Definition applyBefore (a b : PlannedChange) : bool :=
  if negb (rank a =? rank b) then rank a <? rank b else String.ltb (Key (pc_Ref a)) (Key (pc_Ref b)).

Definition pruneBefore (a b : PlannedChange) : bool :=
  if negb (rank a =? rank b) then rank b <? rank a else String.ltb (Key (pc_Ref a)) (Key (pc_Ref b)).

Definition is_prune (c : PlannedChange) : bool := bool_decide (pc_Action c = ActionPrune).

Definition splitForExecution (p : Plan) : list PlannedChange * list PlannedChange :=
  (SliceStable applyBefore (List.filter (λ c, negb (is_prune c)) (pl_Changes p)),
   SliceStable pruneBefore (List.filter is_prune (pl_Changes p))).

(** ** Reconciling (reconcile.go) *)

Record ReleaseSpec := mkReleaseSpec {
  sp_Name : string;
  sp_Namespace : string;
  sp_Resources : list OwnerRef;
  sp_Options : PlanOptions;
  sp_Detach : bool;
  sp_Atomic : bool;
}.

(** Why a cast was refused or failed; the wrappers are the ones [fail] adds. *)
Inductive CastError :=
| ErrConflicts
| ErrDetachWouldPrune
| ErrDenied (e : string)
| ErrCluster (e : string)
| RolledBack (cause : CastError)
| RollbackIncomplete (cause : CastError) (lost : list OwnerRef).

(** The interfaces: the record store, the live state and the applier act on a
    cluster state [S]. *)
Class ReleaseRecords (S : Type) := {
  recs_Get : string → string → S → result string (option Release);
  recs_Save : Release → S → S * result string unit;
}.

Class LiveLookup (S : Type) := { Lookup : OwnerRef → S → result string LiveState }.

Class Applier (S : Type) := {
  Apply : PlannedChange → S → S * result string unit;
  Prune : OwnerRef → S → S * result string unit;
  Verify : list OwnerRef → S → S * result string unit;
  Revert : OwnerRef → S → S * result string unit;
}.

Section Reconciling.
Context {S : Type} `{ReleaseRecords S, LiveLookup S, Applier S}.

(** A prepared cast: the pending record and what [Execute] needs. *)
Record execution := mkExecution {
  ex_atomic : bool;
  ex_rel : Release;
  ex_prev : option Release;
  ex_owns : list OwnerRef;
  ex_applies : list PlannedChange;
  ex_prunes : list PlannedChange;
}.

Definition pendingRelease (spec : ReleaseSpec) (prev : option Release) (plan : Plan) : Release :=
  let '(owns, refs) := partitionOwnership plan in
  mkRelease (match prev with Some p => r_ID p | None => "" end) (sp_Name spec) (sp_Namespace spec) ReleaseStatusPending
    (match prev with Some p => wrap64 (r_Revision p + 1) | None => 1 end) owns refs.

Definition Prepare (spec : ReleaseSpec) (admission : Plan → result string unit) (s : S)
    : S * result (CastError * option Plan) (execution * Plan) :=
  match recs_Get (sp_Namespace spec) (sp_Name spec) s with
  | Err e => (s, Err (ErrCluster e, None))
  | Ok prev =>
      match BuildPlan (λ ref, Lookup ref s) (sp_Name spec) (sp_Namespace spec) (sp_Resources spec) prev (sp_Options spec) with
      | Err e => (s, Err (ErrCluster e, None))
      | Ok plan =>
          match admission plan with
          | Err e => (s, Err (ErrDenied e, None))
          | Ok _ =>
              if negb (Applyable plan) then (s, Err (ErrConflicts, Some plan))
              else if sp_Detach spec && HasPrune plan then (s, Err (ErrDetachWouldPrune, Some plan))
              else
                let rel := pendingRelease spec prev plan in
                let '(s1, saved) := recs_Save rel s in
                match saved with
                | Err e => (s1, Err (ErrCluster e, Some plan))
                | Ok _ =>
                    let '(applies, prunes) := splitForExecution plan in
                    (s1, Ok (mkExecution (sp_Atomic spec) rel prev (partitionOwnership plan).1 applies prunes, plan))
                end
          end
      end
  end.

(** The apply and prune loops; [done] is the log of started changes. *)
Fixpoint applyLoop (changes : list PlannedChange) (done : list PlannedChange) (s : S)
    : S * list PlannedChange * option CastError :=
  match changes with
  | [] => (s, done, None)
  | c :: rest =>
      let '(s1, r) := Apply c s in
      match r with Err e => (s1, done ++ [c], Some (ErrCluster e)) | Ok _ => applyLoop rest (done ++ [c]) s1 end
  end.

Fixpoint pruneLoop (changes : list PlannedChange) (done : list PlannedChange) (s : S)
    : S * list PlannedChange * option CastError :=
  match changes with
  | [] => (s, done, None)
  | c :: rest =>
      let '(s1, r) := Prune (pc_Ref c) s in
      match r with Err e => (s1, done ++ [c], Some (ErrCluster e)) | Ok _ => pruneLoop rest (done ++ [c]) s1 end
  end.

(** [revertChanges] over the reversed log: what could not be reverted. *)
Fixpoint revertLoop (changes : list PlannedChange) (s : S) : S * list OwnerRef :=
  match changes with
  | [] => (s, [])
  | c :: rest =>
      if bool_decide (pc_Action c = ActionReference) then revertLoop rest s
      else
        let '(s1, r) := Revert (pc_Ref c) s in
        let '(s2, lost) := revertLoop rest s1 in
        (s2, match r with Err _ => pc_Ref c :: lost | Ok _ => lost end)
  end.

Definition revertChanges (done : list PlannedChange) (s : S) : S * list OwnerRef := revertLoop (rev done) s.

Definition failRelease (rel : Release) (cause : CastError) (s : S) : S * (Release * option CastError) :=
  let rel := with_r_Status rel ReleaseStatusFailed in
  ((recs_Save rel s).1, (rel, Some cause)).

Definition fail (e : execution) (done : list PlannedChange) (cause : CastError) (s : S)
    : S * (Release * option CastError) :=
  if ex_atomic e then
    let '(s1, lost) := revertChanges done s in
    match lost with
    | [] =>
        let rel := match ex_prev e with
          | Some p => with_r_Owns (ex_rel e) (r_Owns p) (r_References p)
          | None => with_r_Owns (ex_rel e) [] []
          end in
        failRelease rel (RolledBack cause) s1
    | _ => failRelease (ex_rel e) (RollbackIncomplete cause lost) s1
    end
  else failRelease (ex_rel e) cause s.

Definition run (e : execution) (s : S) : S * (Release * option CastError) :=
  match applyLoop (ex_applies e) [] s with
  | (s1, done, Some cause) => fail e done cause s1
  | (s1, done, None) =>
      let '(s2, verified) := Verify (ex_owns e) s1 in
      match verified with
      | Err err => fail e done (ErrCluster err) s2
      | Ok _ =>
          match pruneLoop (ex_prunes e) done s2 with
          | (s3, done, Some cause) => fail e done cause s3
          | (s3, done, None) =>
              let rel := with_r_Status (ex_rel e) ReleaseStatusDeployed in
              let '(s4, saved) := recs_Save rel s3 in
              (s4, (rel, match saved with Err err => Some (ErrCluster err) | Ok _ => None end))
          end
      end
  end.

Definition Reconcile (spec : ReleaseSpec) (admission : Plan → result string unit) (s : S)
    : S * (option Release * option Plan * option CastError) :=
  match Prepare spec admission s with
  | (s1, Err (e, plan)) => (s1, (None, plan, Some e))
  | (s1, Ok (ex, plan)) =>
      match run ex s1 with
      | (s2, (rel, Some e)) => (s2, (Some rel, None, Some e))
      | (s2, (rel, None)) => (s2, (Some rel, Some plan, None))
      end
  end.
End Reconciling.
