(* ===== verification/ReleaseProps.v ===== *)
(** * Releases: what a cast does and in which order

    The plan against the record and the live state, the sequence of calls a
    cast makes, and atomic rollback against the contract
    of the applier. *)

From S2P Require Import Prelude Types Release.

(** ** Plans *)

Section Plans.
Context {E : Type} (Lookup : OwnerRef → result E LiveState).

(** Why a change may be made. *)
Definition justified (name : string) (adopt : bool) (owns desired : list OwnerRef) (c : PlannedChange) : Prop :=
  match pc_Action c with
  | ActionPrune => pc_Ref c ∈ owns ∧ Key (pc_Ref c) ∉ Key <$> desired
  | ActionReference => isSharedClusterKind (or_ResourceType (pc_Ref c)) = true
  | ActionCreate => ∃ st, Lookup (pc_Ref c) = Ok st ∧ ls_Exists st = false
  | ActionUpdate => Key (pc_Ref c) ∈ Key <$> owns ∨
      ∃ st o, Lookup (pc_Ref c) = Ok st ∧ ls_OwnedBy st = Some o ∧ ob_Release o = name
  | ActionAdopt => adopt = true ∨ is_Some (pc_Conflict c)
  end.

Lemma planForeign_justified name opts owns desired d st :
  Lookup d = Ok st → justified name (po_Adopt opts) owns desired (planForeign name opts d (ls_OwnedBy st)).
Proof.
  intros Hl. unfold planForeign. destruct (ls_OwnedBy st) as [o|] eqn:Ho.
  - destruct (bool_decide_reflect (ob_Release o = name)) as [<-|]; [right; eauto 10|].
    destruct (po_Adopt opts) eqn:Ha; unfold justified; cbn; eauto.
  - destruct (po_Adopt opts) eqn:Ha; unfold justified; cbn; eauto.
Qed.

Lemma planDesired_spec name opts owns all desired cs :
  planDesired Lookup name opts (list_to_set (Key <$> owns)) desired = Ok cs →
  pc_Ref <$> cs = desired ∧ Forall (justified name (po_Adopt opts) owns all) cs ∧ Forall (λ c, is_prune c = false) cs.
Proof.
  revert cs. induction desired as [|d desired IH]; intros cs; cbn [planDesired]; [by intros <-%Ok_inj|].
  set (stp := if isSharedClusterKind _ then _ else _). destruct stp as [c|e] eqn:Hstep; [|done]. subst stp.
  destruct (planDesired _ _ _ _ desired) as [cs'|]; [|done]. intros <-%Ok_inj. destruct (IH cs' eq_refl) as (IHr & IHj & IHp).
  assert (pc_Ref c = d ∧ justified name (po_Adopt opts) owns all c ∧ is_prune c = false) as (Hr & Hj & Hp).
  { destruct (isSharedClusterKind (or_ResourceType d)) eqn:Hs; [by apply Ok_inj in Hstep as <-|].
    destruct (bool_decide_reflect (Key d ∈ (list_to_set (Key <$> owns) : gset string))) as [Hin|].
    { apply Ok_inj in Hstep as <-. split; [done|]. split; [left; set_solver|done]. }
    destruct (Lookup d) as [st|] eqn:Hl; [|done]. apply Ok_inj in Hstep as <-. destruct (ls_Exists st) eqn:Hx.
    - split; [|split; [by apply planForeign_justified|]]; unfold planForeign;
        destruct (match ls_OwnedBy st with Some _ => _ | None => _ end), (po_Adopt opts); done.
    - split; [done|]. split; [by exists st|done]. }
  rewrite fmap_cons, Hr, IHr. split; [done|]. by split; constructor.
Qed.

Lemma planPrunes_spec name adopt (owns desired : list OwnerRef) :
  let ps := planPrunes (list_to_set (Key <$> desired)) owns in
  Forall (justified name adopt owns desired) ps ∧ Forall (λ c, is_prune c = true) ps.
Proof.
  cbn. unfold planPrunes. rewrite !Forall_fmap, !Forall_forall. split; intros ref Hin; [|done].
  apply elem_of_filterb in Hin as [Hn Hin]. apply negb_true_iff, bool_decide_eq_false in Hn.
  split; [done|]. cbn. set_solver.
Qed.
End Plans.

(** ** The calls of a cast *)

Inductive call :=
| CSave (rel : Release)
| CApply (c : PlannedChange)
| CVerify (refs : list OwnerRef)
| CPrune (ref : OwnerRef)
| CRevert (ref : OwnerRef).

Section Trace.
Context {S : Type} `{ReleaseRecords S, LiveLookup S, Applier S}.
Implicit Types (s : S) (log : list call).

(** The same interfaces, with every call that changes something logged. *)
Definition logged {A} (c : call) (r : S * A) log : (S * list call) * A := ((r.1, log ++ [c]), r.2).

#[global] Instance traced_records : ReleaseRecords (S * list call) := {
  recs_Get ns n st := recs_Get ns n st.1;
  recs_Save rel st := logged (CSave rel) (recs_Save rel st.1) st.2;
}.
#[global] Instance traced_live : LiveLookup (S * list call) := { Lookup ref st := Lookup ref st.1 }.
#[global] Instance traced_applier : Applier (S * list call) := {
  Apply c st := logged (CApply c) (Apply c st.1) st.2;
  Prune ref st := logged (CPrune ref) (Prune ref st.1) st.2;
  Verify refs st := logged (CVerify refs) (Verify refs st.1) st.2;
  Revert ref st := logged (CRevert ref) (Revert ref st.1) st.2;
}.

(** Everything a cast would do if nothing failed. *)
Definition schedule (e : execution) : list call :=
  (CApply <$> ex_applies e) ++ CVerify (ex_owns e) :: ((CPrune ∘ pc_Ref) <$> ex_prunes e).

(** What has to be undone. *)
Definition touched (done : list PlannedChange) : list OwnerRef :=
  pc_Ref <$> List.filter (λ c, negb (bool_decide (pc_Action c = ActionReference))) done.

Lemma applyLoop_log cs done s log :
  ∃ s' k, let r := applyLoop cs done (s, log) in
  r.1 = ((s', log ++ (CApply <$> k)), done ++ k) ∧ k `prefix_of` cs ∧ (r.2 = None → k = cs).
Proof.
  revert done s log. induction cs as [|c cs IH]; intros done s log; cbn.
  { exists s, []. rewrite !app_nil_r. by repeat split. }
  destruct (Apply c s) as [s1 [[]|e]]; cbn.
  - destruct (IH (done ++ [c]) s1 (log ++ [CApply c])) as (s' & k & Heq & Hk & Hn). exists s', (c :: k).
    rewrite Heq. cbn. rewrite <- !app_assoc. repeat split; [by apply prefix_cons|]. intros Hr. by rewrite Hn.
  - exists s1, [c]. repeat split; [by apply prefix_cons, prefix_nil|done].
Qed.

Lemma pruneLoop_log cs done s log :
  ∃ s' k, let r := pruneLoop cs done (s, log) in
  r.1 = ((s', log ++ ((CPrune ∘ pc_Ref) <$> k)), done ++ k) ∧ k `prefix_of` cs ∧ (r.2 = None → k = cs).
Proof.
  revert done s log. induction cs as [|c cs IH]; intros done s log; cbn.
  { exists s, []. rewrite !app_nil_r. by repeat split. }
  destruct (Prune (pc_Ref c) s) as [s1 [[]|e]]; cbn.
  - destruct (IH (done ++ [c]) s1 (log ++ [CPrune (pc_Ref c)])) as (s' & k & Heq & Hk & Hn). exists s', (c :: k).
    rewrite Heq. cbn. rewrite <- !app_assoc. repeat split; [by apply prefix_cons|]. intros Hr. by rewrite Hn.
  - exists s1, [c]. repeat split; [by apply prefix_cons, prefix_nil|done].
Qed.

Lemma revertLoop_log cs s log : ∃ s', (revertLoop cs (s, log)).1 = (s', log ++ (CRevert <$> touched cs)).
Proof.
  revert s log. induction cs as [|c cs IH]; intros s log; cbn; [exists s; by rewrite app_nil_r|].
  unfold touched. cbn. destruct (bool_decide (pc_Action c = ActionReference)); cbn; [apply IH|].
  destruct (IH (Revert (pc_Ref c) s).1 (log ++ [CRevert (pc_Ref c)])) as [s' Hs'].
  destruct (revertLoop cs _) as [s2 lost] eqn:Hl. cbn in *. exists s'. rewrite Hs', <- app_assoc. done.
Qed.

(** How a failing cast ends. *)
Definition undo (e : execution) (done : list PlannedChange) : list call :=
  if ex_atomic e then CRevert <$> touched (rev done) else [].

Lemma fail_log e done cause s log :
  ∃ s' rel cause', fail e done cause (s, log) = ((s', log ++ undo e done ++ [CSave rel]), (rel, Some cause')) ∧
    r_Status rel = ReleaseStatusFailed.
Proof.
  unfold fail, undo, revertChanges. destruct (ex_atomic e).
  - destruct (revertLoop_log (rev done) s log) as [s1 Hs1]. destruct (revertLoop (rev done) (s, log)) as [s2 lost].
    cbn in Hs1. subst s2. destruct lost; unfold failRelease; cbn; do 3 eexists; rewrite <- app_assoc; by split.
  - unfold failRelease. cbn. by do 3 eexists.
Qed.

Lemma fmap_prefix {A B} (f : A → B) (k l : list A) : k `prefix_of` l → (f <$> k) `prefix_of` (f <$> l).
Proof. intros [r ->]. rewrite fmap_app. by apply prefix_app_r. Qed.

(** The resources a sequence of calls has started on. *)
Definition started (calls : list call) : list OwnerRef :=
  omap (λ c, match c with
    | CApply ch => if bool_decide (pc_Action ch = ActionReference) then None else Some (pc_Ref ch)
    | CPrune ref => Some ref
    | _ => None
    end) calls.

Lemma started_app a b : started (a ++ b) = started a ++ started b.
Proof. apply omap_app. Qed.

Lemma started_applies k : started (CApply <$> k) = touched k.
Proof.
  unfold started, touched. induction k as [|c k IH]; [done|]. cbn. destruct (bool_decide (pc_Action c = ActionReference)); cbn;
    [apply IH|]. f_equal. apply IH.
Qed.

Lemma started_prunes k :
  Forall (λ c, is_prune c = true) k → started ((CPrune ∘ pc_Ref) <$> k) = touched k.
Proof.
  unfold started, touched. induction 1 as [|c k Hc _ IH]; [done|]. cbn. apply bool_decide_eq_true in Hc.
  rewrite Hc, bool_decide_false by done. cbn. f_equal. apply IH.
Qed.

Lemma touched_app a b : touched (a ++ b) = touched a ++ touched b.
Proof. unfold touched. by rewrite List.filter_app, fmap_app. Qed.

Lemma touched_rev k : touched (rev k) = rev (touched k).
Proof.
  induction k as [|c k IH]; [done|]. cbn [rev]. rewrite touched_app, IH. unfold touched at 2 3. cbn.
  destruct (bool_decide _); cbn; [by rewrite app_nil_r|done].
Qed.

(** The calls between the two saves of an execution, and its outcome. *)
Definition run_shape (e : execution) (log : list call) (rel : Release) (err : option CastError) : Prop :=
  ∃ calls, calls `prefix_of` schedule e ∧
    log = calls ++ (if bool_decide (r_Status rel = ReleaseStatusFailed) && ex_atomic e
                    then CRevert <$> rev (started calls) else []) ++ [CSave rel] ∧
    (r_Status rel = ReleaseStatusDeployed ∧ calls = schedule e ∨ r_Status rel = ReleaseStatusFailed ∧ is_Some err).

Lemma fail_shape e done cause s log0 calls s' log rel err :
  calls `prefix_of` schedule e → started calls = touched done →
  fail e done cause (s, log0 ++ calls) = ((s', log), (rel, err)) → ∃ l, log = log0 ++ l ∧ run_shape e l rel err.
Proof.
  intros Hp Hst Hf. destruct (fail_log e done cause s (log0 ++ calls)) as (s1 & rel1 & c1 & Heq & Hs).
  rewrite Heq in Hf. injection Hf as <- <- <- <-. rewrite <- app_assoc. eexists. split; [done|]. exists calls.
  rewrite bool_decide_true by done. cbn [andb]. unfold undo. rewrite touched_rev, <- Hst. split; [done|].
  split; [done|]. right. eauto.
Qed.

Lemma run_log e s log0 s' log rel err :
  Forall (λ c, is_prune c = true) (ex_prunes e) → run e (s, log0) = ((s', log), (rel, err)) →
  ∃ l, log = log0 ++ l ∧ run_shape e l rel err.
Proof.
  intros Hpr. unfold run.
  destruct (applyLoop_log (ex_applies e) [] s log0) as (s1 & k & Ha & Hk & Hn).
  destruct (applyLoop (ex_applies e) [] (s, log0)) as [[st done] r]. cbn in Ha, Hn. injection Ha as -> ->.
  assert ((CApply <$> k) `prefix_of` schedule e) as Hpre.
  { unfold schedule. apply prefix_app_r. by apply fmap_prefix. }
  destruct r as [cause|]. { intros Hf. eapply fail_shape; [exact Hpre|apply started_applies|exact Hf]. }
  rewrite (Hn eq_refl) in *. cbn [Verify traced_applier logged fst snd].
  destruct (Verify (ex_owns e) s1) as [s2 v]. cbn [fst snd]. rewrite <- app_assoc. cbn [app].
  assert ((CApply <$> ex_applies e) ++ [CVerify (ex_owns e)] `prefix_of` schedule e) as Hpre2.
  { unfold schedule. apply prefix_app. apply prefix_cons, prefix_nil. }
  assert (started ((CApply <$> ex_applies e) ++ [CVerify (ex_owns e)]) = touched (ex_applies e)) as Hst2.
  { rewrite started_app, started_applies. cbn. by rewrite app_nil_r. }
  destruct v as [[]|er]; [|intros Hf; by eapply fail_shape].
  destruct (pruneLoop_log (ex_prunes e) (ex_applies e) s2 (log0 ++ (CApply <$> ex_applies e) ++ [CVerify (ex_owns e)]))
    as (s3 & k3 & Ha3 & Hk3 & Hn3).
  destruct (pruneLoop (ex_prunes e) _ _) as [[st3 done3] r3]. cbn in Ha3, Hn3. injection Ha3 as -> ->.
  rewrite <- !app_assoc.
  destruct r3 as [cause|].
  - intros Hf. eapply fail_shape; [| |exact Hf].
    + unfold schedule. apply prefix_app. cbn. apply prefix_cons. by apply fmap_prefix.
    + rewrite app_assoc, started_app, Hst2, touched_app, started_prunes; [done|].
      destruct Hk3 as [k4 Hk4]. rewrite Hk4 in Hpr. by apply Forall_app in Hpr as [].
  - rewrite (Hn3 eq_refl). cbn [recs_Save traced_records logged fst snd].
    destruct (recs_Save _ s3) as [s4 sv]. cbn [fst snd]. intros [= <- <- <- <-].
    eexists. rewrite <- !app_assoc. split; [done|]. exists (schedule e). split; [done|]. split; [|left; by split].
    rewrite bool_decide_false by done. unfold schedule. cbn. by rewrite <- !app_assoc.
Qed.

(** ** Prepared casts *)

Lemma Prepare_Ok spec admission s s1 ex plan :
  Prepare spec admission s = (s1, Ok (ex, plan)) →
  ∃ prev, recs_Get (sp_Namespace spec) (sp_Name spec) s = Ok prev ∧
    BuildPlan (λ ref, Lookup ref s) (sp_Name spec) (sp_Namespace spec) (sp_Resources spec) prev (sp_Options spec) = Ok plan ∧
    admission plan = Ok tt ∧ Applyable plan = true ∧ s1 = (recs_Save (pendingRelease spec prev plan) s).1 ∧
    ex = mkExecution (sp_Atomic spec) (pendingRelease spec prev plan) prev (partitionOwnership plan).1
           (splitForExecution plan).1 (splitForExecution plan).2.
Proof.
  unfold Prepare. destruct (recs_Get _ _ s) as [prev|]; [|done]. destruct (BuildPlan _ _ _ _ _ _) as [p|] eqn:Hb; [|done].
  destruct (admission p) as [[]|] eqn:Ha; [|done]. destruct (Applyable p) eqn:Hap; cbn [negb]; [|done].
  destruct (sp_Detach spec && HasPrune p); [done|]. destruct (recs_Save _ s) as [s2 [[]|]] eqn:Hs; [|done].
  intros Heq. unfold splitForExecution in Heq. injection Heq as <- <- <-. exists prev. rewrite Hs. by rewrite Hb.
Qed.

(** A cast that is not prepared has at most tried to save its intent. *)
Lemma Prepare_Err spec admission s s1 log e p :
  Prepare spec admission (s, []) = ((s1, log), Err (e, p)) →
  log = [] ∨ ∃ prev plan x, recs_Get (sp_Namespace spec) (sp_Name spec) s = Ok prev ∧
    BuildPlan (λ ref, Lookup ref s) (sp_Name spec) (sp_Namespace spec) (sp_Resources spec) prev (sp_Options spec) = Ok plan ∧
    log = [CSave (pendingRelease spec prev plan)] ∧ e = ErrCluster x.
Proof.
  unfold Prepare. cbn [recs_Get traced_records fst snd].
  destruct (recs_Get _ _ s) as [prev|]; [|intros [= <- <- <- <-]; by left].
  destruct (BuildPlan _ _ _ _ _ _) as [plan|] eqn:Hb; [|intros [= <- <- <- <-]; by left].
  destruct (admission plan); [|intros [= <- <- <- <-]; by left]. destruct (negb _); [intros [= <- <- <- <-]; by left|].
  destruct (_ && _); [intros [= <- <- <- <-]; by left|]. cbn [recs_Save traced_records logged fst snd].
  destruct (recs_Save _ s) as [s2 [[]|x]]; [done|]. cbn. intros [= <- <- <- <-]. right. by exists prev, plan, x.
Qed.

Lemma Prepare_prunes spec admission s s1 ex plan :
  Prepare spec admission s = (s1, Ok (ex, plan)) → Forall (λ c, is_prune c = true) (ex_prunes ex).
Proof.
  intros (prev & _ & _ & _ & _ & _ & ->)%Prepare_Ok. cbn. rewrite SliceStable_perm. apply Forall_forall.
  by intros c [? _]%elem_of_filterb.
Qed.
End Trace.

#[local] Instance applyBefore_weak : StrictWeak applyBefore.
Proof.
  split; unfold applyBefore; intros a b.
  - destruct (Z.eqb_spec (rank a) (rank b)) as [He|He]; [rewrite He, Z.eqb_refl; cbn; apply string_ltb_asym|].
    destruct (Z.eqb_spec (rank b) (rank a)); [lia|]. cbn. lia.
  - intros c. destruct (Z.eqb_spec (rank a) (rank b)), (Z.eqb_spec (rank b) (rank c)), (Z.eqb_spec (rank a) (rank c)); cbn;
      try lia. apply string_ltb_negtrans.
Qed.

#[local] Instance pruneBefore_weak : StrictWeak pruneBefore.
Proof.
  split; unfold pruneBefore; intros a b.
  - destruct (Z.eqb_spec (rank a) (rank b)) as [He|He]; [rewrite He, Z.eqb_refl; cbn; apply string_ltb_asym|].
    destruct (Z.eqb_spec (rank b) (rank a)); [lia|]. cbn. lia.
  - intros c. destruct (Z.eqb_spec (rank a) (rank b)), (Z.eqb_spec (rank b) (rank c)), (Z.eqb_spec (rank a) (rank c)); cbn;
      try lia. apply string_ltb_negtrans.
Qed.

Lemma StronglySorted_impl {A} (P Q : A → A → Prop) (l : list A) :
  (∀ a b, P a b → Q a b) → StronglySorted P l → StronglySorted Q l.
Proof. intros HPQ. induction 1 as [|a l _ IH Ha]; constructor; [done|]. eapply Forall_impl; eauto. Qed.

(** Dependencies are applied first and pruned last, and nothing is left out. *)
Lemma splitForExecution_order p :
  StronglySorted (λ a b, rank a ≤ rank b) (splitForExecution p).1 ∧
  StronglySorted (λ a b, rank b ≤ rank a) (splitForExecution p).2 ∧
  (splitForExecution p).1 ++ (splitForExecution p).2 ≡ₚ pl_Changes p.
Proof.
  split; [|split].
  - eapply StronglySorted_impl; [|apply SliceStable_sorted, _]. unfold not_after, applyBefore. intros a b.
    destruct (Z.eqb_spec (rank b) (rank a)); cbn; lia.
  - eapply StronglySorted_impl; [|apply SliceStable_sorted, _]. unfold not_after, pruneBefore. intros a b.
    destruct (Z.eqb_spec (rank b) (rank a)); cbn; lia.
  - cbn. rewrite !SliceStable_perm. symmetry. rewrite Permutation_app_comm. apply filter_split_perm.
Qed.

(** ** Records *)

(** A record owns no shared kind and references only those. *)
Definition wf_release (r : Release) : Prop :=
  Forall (λ ref, isSharedClusterKind (or_ResourceType ref) = false) (r_Owns r) ∧
  Forall (λ ref, isSharedClusterKind (or_ResourceType ref) = true) (r_References r).

Definition wf_current (current : option Release) : Prop := match current with Some r => wf_release r | None => True end.

(** Shared kinds are exactly the references of a plan. *)
Lemma planDesired_shared {E} (L : OwnerRef → result E LiveState) name opts owned desired cs :
  planDesired L name opts owned desired = Ok cs →
  Forall (λ c, bool_decide (pc_Action c = ActionReference) = isSharedClusterKind (or_ResourceType (pc_Ref c))) cs.
Proof.
  revert cs. induction desired as [|d desired IH]; intros cs; cbn [planDesired]; [by intros <-%Ok_inj|].
  set (stp := if isSharedClusterKind _ then _ else _). destruct stp as [c|e] eqn:Hstep; [|done]. subst stp.
  destruct (planDesired _ _ _ _ desired) as [cs'|]; [|done]. intros <-%Ok_inj. constructor; [|by apply IH].
  destruct (isSharedClusterKind (or_ResourceType d)) eqn:Hs; [by apply Ok_inj in Hstep as <-|].
  destruct (bool_decide (Key d ∈ owned)); [by apply Ok_inj in Hstep as <-|].
  destruct (L d) as [st|]; [|done]. apply Ok_inj in Hstep as <-. unfold planForeign.
  destruct (ls_Exists st); [|done]. destruct (match ls_OwnedBy st with Some _ => _ | None => _ end), (po_Adopt opts); done.
Qed.

Lemma BuildPlan_shared {E} (L : OwnerRef → result E LiveState) name ns desired current opts plan :
  BuildPlan L name ns desired current opts = Ok plan → wf_current current →
  Forall (λ c, bool_decide (pc_Action c = ActionReference) = isSharedClusterKind (or_ResourceType (pc_Ref c))) (pl_Changes plan).
Proof.
  unfold BuildPlan. destruct (planDesired _ _ _ _ _) as [cs|] eqn:Hp; [|done]. intros <-%Ok_inj Hwf. cbn.
  apply Forall_app. split; [by eapply planDesired_shared|]. unfold planPrunes. rewrite Forall_fmap, Forall_forall.
  intros ref [_ Hin]%elem_of_filterb. cbn. destruct current as [r|]; [|by apply elem_of_nil in Hin].
  destruct Hwf as [Hwf _]. rewrite Forall_forall in Hwf. by rewrite (Hwf ref Hin).
Qed.

Lemma pending_wf spec prev plan :
  Forall (λ c, bool_decide (pc_Action c = ActionReference) = isSharedClusterKind (or_ResourceType (pc_Ref c))) (pl_Changes plan) →
  wf_release (pendingRelease spec prev plan).
Proof.
  rewrite Forall_forall. intros Hsh. unfold wf_release, pendingRelease, partitionOwnership. cbn.
  rewrite !Forall_fmap, !Forall_forall. split; intros c [Ha Hin]%elem_of_filterb; unfold compose; cbn; rewrite <- (Hsh c Hin); [|done].
  destruct (pc_Action c); done.
Qed.

(** ** Causes *)

Section Causes.
Context {S : Type} `{ReleaseRecords S, LiveLookup S, Applier S}.

Lemma applyLoop_cause cs done (s s' : S) done' c : applyLoop cs done s = (s', done', Some c) → ∃ e, c = ErrCluster e.
Proof.
  revert done s. induction cs as [|x cs IH]; intros d st; cbn; [done|].
  destruct (Apply x st) as [? [[]|e]]; [by apply IH|]. intros [= <- <- <-]. by eexists.
Qed.

Lemma pruneLoop_cause cs done (s s' : S) done' c : pruneLoop cs done s = (s', done', Some c) → ∃ e, c = ErrCluster e.
Proof.
  revert done s. induction cs as [|x cs IH]; intros d st; cbn; [done|].
  destruct (Prune (pc_Ref x) st) as [? [[]|e]]; [by apply IH|]. intros [= <- <- <-]. by eexists.
Qed.

(** An execution is never refused: refusals come before it starts. *)
Lemma run_not_denied e (s s' : S) rel err : run e s = (s', (rel, Some err)) → ∀ why, err ≠ ErrDenied why.
Proof.
  assert (∀ done cause (s1 s2 : S) r c, (∃ x, cause = ErrCluster x) → fail e done cause s1 = (s2, (r, Some c)) →
    ∀ why, c ≠ ErrDenied why) as Hfail.
  { intros done cause s1 s2 r c [x ->]. unfold fail. destruct (ex_atomic e); [|by intros [= <- <- <-]].
    destruct (revertChanges done s1) as [s3 [|? ?]]; by intros [= <- <- <-]. }
  unfold run. destruct (applyLoop _ _ _) as [[s1 d1] [c1|]] eqn:Ha; [apply Hfail; by eapply applyLoop_cause|].
  destruct (Verify _ _) as [s2 [[]|]]; [|apply Hfail; by eexists].
  destruct (pruneLoop _ _ _) as [[s3 d3] [c3|]] eqn:Hp; [apply Hfail; by eapply pruneLoop_cause|].
  destruct (recs_Save _ _) as [s4 [[]|]]; intros [=]; by subst.
Qed.
End Causes.

(** ** Atomic casts

    What a cast relies on from its applier to be undone: from a fresh start each
    call disturbs only the resource it names, and a revert that reports success
    puts that resource back. *)

Definition removed (ref : OwnerRef) (T : list OwnerRef) : list OwnerRef :=
  List.filter (λ r, negb (bool_decide (r = ref))) T.

Class Revertible (S : Type) `{ReleaseRecords S, Applier S} (same : OwnerRef → S → S → Prop) := {
  fresh : S → Prop;
  undoable : S → list OwnerRef → S → Prop;
  rv_start s : fresh s → undoable s [] s;
  rv_same base T s ref : undoable base T s → Key ref ∉ Key <$> T → same ref base s;
  rv_save base T s rel : undoable base T s → undoable base T (recs_Save rel s).1;
  rv_reference base T s c : undoable base T s → isSharedClusterKind (or_ResourceType (pc_Ref c)) = true →
    undoable base T (Apply c s).1;
  rv_apply base T s c : undoable base T s → undoable base (pc_Ref c :: T) (Apply c s).1;
  rv_prune base T s ref : undoable base T s → undoable base (ref :: T) (Prune ref s).1;
  rv_verify base T s refs : undoable base T s → undoable base T (Verify refs s).1;
  rv_revert base T s s' ref : undoable base T s → Revert ref s = (s', Ok tt) → undoable base (removed ref T) s';
}.

Section Atomic.
Context {S : Type} `{ReleaseRecords S, LiveLookup S, Applier S} (same : OwnerRef → S → S → Prop) `{!Revertible S same}.

Definition only_shared_referenced (cs : list PlannedChange) : Prop :=
  Forall (λ c, pc_Action c = ActionReference → isSharedClusterKind (or_ResourceType (pc_Ref c)) = true) cs.

(** [T] is what the log has touched. *)
Definition logged_by (T : list OwnerRef) (done : list PlannedChange) : Prop := ∀ ref, ref ∈ T → ref ∈ touched done.

Lemma applyLoop_undoable base T cs done s :
  only_shared_referenced cs → undoable base T s → logged_by T done →
  let '(s', done', _) := applyLoop cs done s in ∃ T', undoable base T' s' ∧ logged_by T' done'.
Proof.
  intros Hcs. revert T done s. induction Hcs as [|c cs Hc _ IH]; intros T done s Hu Hl; cbn; [by exists T|].
  assert (∃ T', undoable base T' (Apply c s).1 ∧ logged_by T' (done ++ [c])) as (T' & Hu' & Hl').
  { destruct (decide (pc_Action c = ActionReference)) as [Ha|Ha].
    - exists T. split; [by apply rv_reference; auto|]. intros ref Hr. rewrite touched_app. by apply elem_of_app; left; apply Hl.
    - exists (pc_Ref c :: T). split; [by apply rv_apply|]. intros ref. rewrite elem_of_cons, touched_app, elem_of_app.
      intros [->|Hr]; [right|left; by apply Hl]. unfold touched. cbn. rewrite bool_decide_false by done. by left. }
  destruct (Apply c s) as [s1 [[]|e]]; cbn in *; [by eapply IH|by exists T'].
Qed.

Lemma pruneLoop_undoable base T cs done s :
  Forall (λ c, is_prune c = true) cs → undoable base T s → logged_by T done →
  let '(s', done', _) := pruneLoop cs done s in ∃ T', undoable base T' s' ∧ logged_by T' done'.
Proof.
  intros Hcs. revert T done s. induction Hcs as [|c cs Hc _ IH]; intros T done s Hu Hl; cbn; [by exists T|].
  assert (logged_by (pc_Ref c :: T) (done ++ [c])) as Hl'.
  { intros ref. rewrite elem_of_cons, touched_app, elem_of_app. intros [->|Hr]; [right|left; by apply Hl].
    unfold touched. cbn. apply bool_decide_eq_true in Hc. rewrite bool_decide_false by congruence. by left. }
  pose proof (rv_prune base T s (pc_Ref c) Hu) as Hu'.
  destruct (Prune (pc_Ref c) s) as [s1 [[]|e]]; cbn in *; [by eapply IH|eauto].
Qed.

(** Reverting the whole log without a failure leaves nothing touched. *)
Lemma revertLoop_undoable base T cs s s' :
  undoable base T s → revertLoop cs s = (s', []) → logged_by T cs → undoable base [] s'.
Proof.
  revert T s. induction cs as [|c cs IH]; intros T s Hu; cbn.
  { intros [= <-] Hl. destruct T as [|r T]; [done|]. specialize (Hl r ltac:(by left)). by apply elem_of_nil in Hl. }
  unfold logged_by, touched. cbn. destruct (bool_decide (pc_Action c = ActionReference)); cbn; [by eapply IH|].
  destruct (Revert (pc_Ref c) s) as [s1 r] eqn:Hrv. destruct (revertLoop cs s1) as [s2 lost] eqn:Hrl.
  destruct r as [[]|e]; [|done]. intros [= <- ->] Hl. eapply IH; [by eapply rv_revert|done|].
  intros ref [Hne Hin]%elem_of_filterb. apply negb_true_iff, bool_decide_eq_false in Hne.
  specialize (Hl ref Hin). by apply elem_of_cons in Hl as [->|?].
Qed.

Lemma logged_by_rev T done : logged_by T done → logged_by T (rev done).
Proof.
  intros Hl ref Hr. specialize (Hl ref Hr). rewrite touched_rev.
  apply list_elem_of_In. apply -> in_rev. by apply list_elem_of_In.
Qed.

Lemma fail_undoable base T e done cause s s' rel cause' :
  undoable base T s → logged_by T done →
  (match cause with RolledBack _ => False | _ => True end) →
  fail e done cause s = (s', (rel, Some (RolledBack cause'))) →
  undoable base [] s' ∧ r_Owns rel = match ex_prev e with Some p => r_Owns p | None => [] end.
Proof.
  intros Hu Hl Hc. unfold fail. destruct (ex_atomic e).
  - destruct (revertChanges done s) as [s1 lost] eqn:Hr. destruct lost as [|r lost].
    + intros [= <- <- <-]. split; [apply rv_save; eapply revertLoop_undoable; [done|exact Hr|by apply logged_by_rev]|].
      by destruct (ex_prev e).
    + by intros [= <- <-].
  - intros [= <- <- ->]. done.
Qed.

Lemma run_undoable base e s s' rel cause :
  undoable base [] s → only_shared_referenced (ex_applies e) → Forall (λ c, is_prune c = true) (ex_prunes e) →
  run e s = (s', (rel, Some (RolledBack cause))) →
  undoable base [] s' ∧ r_Owns rel = match ex_prev e with Some p => r_Owns p | None => [] end.
Proof.
  intros Hu Hsh Hpr. unfold run.
  pose proof (applyLoop_undoable base [] (ex_applies e) [] s Hsh Hu ltac:(by intros ? ?%elem_of_nil)) as Ha.
  destruct (applyLoop (ex_applies e) [] s) as [[s1 done] r] eqn:Har. destruct Ha as (T & Hu1 & Hl1).
  destruct r as [c|].
  { intros Hf. eapply fail_undoable; [exact Hu1|exact Hl1| |exact Hf]. by apply applyLoop_cause in Har as [e' ->]. }
  pose proof (rv_verify base T s1 (ex_owns e) Hu1) as Hu2. destruct (Verify (ex_owns e) s1) as [s2 v]. cbn in Hu2.
  destruct v as [[]|er]; [|intros Hf; by apply (fail_undoable base T e done (ErrCluster er) s2 s' rel cause Hu2 Hl1)].
  pose proof (pruneLoop_undoable base T (ex_prunes e) done s2 Hpr Hu2 Hl1) as Hp.
  destruct (pruneLoop (ex_prunes e) done s2) as [[s3 done3] r3] eqn:Hpr3. destruct Hp as (T3 & Hu3 & Hl3).
  destruct r3 as [c|].
  { intros Hf. eapply fail_undoable; [exact Hu3|exact Hl3| |exact Hf]. by apply pruneLoop_cause in Hpr3 as [e' ->]. }
  destruct (recs_Save _ s3) as [s4 [[]|]]; intros Heq; simplify_eq.
Qed.
End Atomic.

(** ** Claims *)

(** A plan has one change for every desired resource, in order, and a prune
    for exactly the owned resources no longer desired; without [--adopt] a plan
    that can be applied changes a resource only if the release's record or the
    resource's own stamp says it is the release's, or it does not exist yet. *)
Theorem BuildPlan_spec {E} (L : OwnerRef → result E LiveState) (name ns : string) (desired : list OwnerRef)
    (current : option Release) (opts : PlanOptions) (plan : Plan)
    (Hplan : BuildPlan L name ns desired current opts = Ok plan) :
  let owns := match current with Some r => r_Owns r | None => [] end in
  pc_Ref <$> List.filter (λ c, negb (is_prune c)) (pl_Changes plan) = desired ∧
  pc_Ref <$> List.filter is_prune (pl_Changes plan) = List.filter (λ r, negb (bool_decide (Key r ∈ Key <$> desired))) owns ∧
  Forall (justified L name (po_Adopt opts) owns desired) (pl_Changes plan) ∧
  (Applyable plan = true → po_Adopt opts = false → Counts plan ActionAdopt = 0%nat).
Proof.
  intros owns. unfold BuildPlan in Hplan. fold owns in Hplan.
  destruct (planDesired _ _ _ _ _) as [cs|] eqn:Hp; [|done]. apply Ok_inj in Hplan as <-. cbn [pl_Changes].
  destruct (planDesired_spec L name opts owns desired desired cs Hp) as (Hr & Hj & Hnp).
  destruct (planPrunes_spec L name (po_Adopt opts) owns desired) as [Hj2 Hp2].
  set (ps := planPrunes _ _) in *. rewrite Forall_forall in Hnp, Hp2.
  split; [|split; [|split]].
  - rewrite List.filter_app, filterb_all, (filterb_none _ ps), app_nil_r; [done|..].
    + intros c Hc. by rewrite (Hp2 c Hc).
    + intros c Hc. by rewrite (Hnp c Hc).
  - rewrite List.filter_app, (filterb_none _ cs), (filterb_all _ ps); [|done..]. cbn. subst ps. unfold planPrunes.
    rewrite <- list_fmap_compose. rewrite list_fmap_id. apply List.filter_ext. intros r. f_equal.
    apply bool_decide_ext. set_solver.
  - by apply Forall_app.
  - unfold Applyable, Counts. cbn [pl_Changes]. intros Happ Hno. apply length_zero_iff_nil.
    apply filterb_none. intros c Hc. apply bool_decide_eq_false. intros Had.
    assert (justified L name (po_Adopt opts) owns desired c) as Hjc.
    { apply elem_of_app in Hc as [Hc|Hc]; [by apply (Forall_forall (justified _ _ _ _ _) cs)|
      by apply (Forall_forall (justified _ _ _ _ _) ps)]. }
    unfold justified in Hjc. rewrite Had in Hjc. destruct Hjc as [?|[x Hx]]; [congruence|].
    rewrite forallb_forall in Happ. specialize (Happ c (proj1 (list_elem_of_In _ _) Hc)). cbn in Happ. by rewrite Hx in Happ.
Qed.

Definition demo_ref (n : string) : OwnerRef := mkOwnerRef ResourceTypeConfigmap "prod" n.

Lemma BuildPlan_spec_witness :
  let L (r : OwnerRef) : result string LiveState := Ok (mkLiveState false None) in
  let plan := mkPlan "web" "prod" [change (demo_ref "a") ActionUpdate; change (demo_ref "c") ActionCreate;
                                   change (demo_ref "b") ActionPrune] in
  pc_Ref <$> List.filter is_prune (pl_Changes plan) = [demo_ref "b"].
Proof.
  intros L plan. eapply (BuildPlan_spec L "web" "prod" [demo_ref "a"; demo_ref "c"]
    (Some (mkRelease "1" "web" "prod" ReleaseStatusDeployed 1 [demo_ref "a"; demo_ref "b"] [])) (mkPlanOptions false) plan).
  by vm_compute.
Defined.

(** A cast that is refused makes no cluster call.  Any other saves its
    pending record first, then applies in dependency order, verifies, and prunes
    in reverse order, stopping at the first failure: nothing is pruned before
    everything was applied and verified.  A failure is recorded, and if the cast
    is atomic every resource it started on is reverted first, the last one
    first; only a cast that did everything is recorded as deployed. *)
Theorem cast_order {S} `{ReleaseRecords S, LiveLookup S, Applier S} (spec : ReleaseSpec)
    (admission : Plan → result string unit) (s : S) :
  let '((s', log), (rel, plan', err)) := Reconcile spec admission (s, []) in
  match (Prepare spec admission (s, [])).2 with
  | Err _ => rel = None ∧ is_Some err ∧ Forall (λ c, ∃ r, c = CSave r) log
  | Ok (ex, plan) =>
      (∃ r l, rel = Some r ∧ log = CSave (ex_rel ex) :: l ∧ run_shape ex l r err) ∧
      StronglySorted (λ a b, rank a ≤ rank b) (ex_applies ex) ∧
      StronglySorted (λ a b, rank b ≤ rank a) (ex_prunes ex) ∧
      Forall (λ c, is_prune c = true) (ex_prunes ex) ∧ ex_applies ex ++ ex_prunes ex ≡ₚ pl_Changes plan
  end.
Proof.
  unfold Reconcile. destruct (Prepare spec admission (s, [])) as [[s1 log1] [[ex plan]|[e p]]] eqn:Hp; cbn [snd].
  - pose proof (Prepare_prunes _ _ _ _ _ _ Hp) as Hpr. apply Prepare_Ok in Hp as (prev & _ & _ & _ & _ & Hs1 & Hex).
    cbn in Hs1. injection Hs1 as _ Hlog1. destruct (run ex (s1, log1)) as [[s2 log2] [rel err]] eqn:Hr.
    destruct (run_log ex s1 log1 s2 log2 rel err Hpr Hr) as (l & Hl & Hsh).
    assert (log2 = CSave (ex_rel ex) :: l) as Hlog2 by (rewrite Hl, Hlog1, Hex; done).
    destruct (splitForExecution_order plan) as (Ho1 & Ho2 & Ho3).
    destruct err as [err|]; (split; [by exists rel, l|]; by rewrite Hex in Hpr |- *).
  - split; [done|]. split; [done|].
    apply Prepare_Err in Hp as [->|(prev & plan & x & _ & _ & -> & _)]; [constructor|]. constructor; [by eexists|constructor].
Qed.

(** ** What every cast keeps

    An invariant of the cluster that saving a well-formed record, applying,
    verifying, reverting, and pruning anything but a shared kind keep. *)

Section Keeps.
Context {S : Type} `{ReleaseRecords S, LiveLookup S, Applier S} (I : S → Prop).

Record kept : Prop := mkKept {
  kp_get ns n s cur : I s → recs_Get ns n s = Ok cur → wf_current cur;
  kp_save rel s : wf_release rel → I s → I (recs_Save rel s).1;
  kp_apply c s : I s → I (Apply c s).1;
  kp_prune ref s : isSharedClusterKind (or_ResourceType ref) = false → I s → I (Prune ref s).1;
  kp_verify refs s : I s → I (Verify refs s).1;
  kp_revert ref s : I s → I (Revert ref s).1;
}.

Context (Hk : kept).

Lemma applyLoop_keeps cs prior s : I s → I (applyLoop cs prior s).1.1.
Proof.
  revert prior s. induction cs as [|c cs IH]; intros prior s Hs; [done|]. cbn.
  pose proof (kp_apply Hk c s Hs) as Ha. destruct (Apply c s) as [s1 [[]|e]]; [by apply IH|done].
Qed.

Lemma pruneLoop_keeps cs prior s :
  Forall (λ c, isSharedClusterKind (or_ResourceType (pc_Ref c)) = false) cs → I s → I (pruneLoop cs prior s).1.1.
Proof.
  intros Hcs. revert prior s. induction Hcs as [|c cs Hc _ IH]; intros prior s Hs; [done|]. cbn.
  pose proof (kp_prune Hk (pc_Ref c) s Hc Hs) as Ha. destruct (Prune (pc_Ref c) s) as [s1 [[]|e]]; [by apply IH|done].
Qed.

Lemma revertLoop_keeps cs s : I s → I (revertLoop cs s).1.
Proof.
  revert s. induction cs as [|c cs IH]; intros s Hs; [done|]. cbn. case_bool_decide; [by apply IH|].
  pose proof (kp_revert Hk (pc_Ref c) s Hs) as Ha. destruct (Revert (pc_Ref c) s) as [s1 r].
  specialize (IH s1 Ha). by destruct (revertLoop cs s1).
Qed.

Lemma fail_keeps e prior cause s : wf_release (ex_rel e) → wf_current (ex_prev e) → I s → I (fail e prior cause s).1.
Proof.
  intros Hr Hp Hs. unfold fail, failRelease. destruct (ex_atomic e); [|by apply (kp_save Hk)].
  pose proof (revertLoop_keeps (rev prior) s Hs) as Hv. unfold revertChanges. destruct (revertLoop (rev prior) s) as [s1 [|r lost]];
    apply (kp_save Hk); try done. by destruct (ex_prev e) as [p|].
Qed.

Lemma executed_keeps e s :
  wf_release (ex_rel e) → wf_current (ex_prev e) →
  Forall (λ c, isSharedClusterKind (or_ResourceType (pc_Ref c)) = false) (ex_prunes e) → I s → I (run e s).1.
Proof.
  intros Hr Hp Hpr Hs. unfold run. pose proof (applyLoop_keeps (ex_applies e) [] s Hs) as H1'.
  destruct (applyLoop _ _ s) as [[s1 log] [c|]]; [by apply fail_keeps|].
  pose proof (kp_verify Hk (ex_owns e) s1 H1') as H2'. destruct (Verify _ s1) as [s2 [[]|er]]; [|by apply fail_keeps].
  pose proof (pruneLoop_keeps (ex_prunes e) log s2 Hpr H2') as H3'.
  destruct (pruneLoop _ _ s2) as [[s3 log3] [c|]]; [by apply fail_keeps|].
  pose proof (kp_save Hk (with_r_Status (ex_rel e) ReleaseStatusDeployed) s3 Hr H3') as H4'.
  by destruct (recs_Save _ s3).
Qed.

Lemma cast_keeps spec admission s : I s → I (Reconcile spec admission s).1.
Proof.
  intros Hs. unfold Reconcile. destruct (Prepare spec admission s) as [s1 [[ex plan]|[e p]]] eqn:Hp.
  - apply Prepare_Ok in Hp as (prev & Hg & Hb & _ & _ & Hs1 & Hex). pose proof (kp_get Hk _ _ _ _ Hs Hg) as Hwf.
    pose proof (BuildPlan_shared _ _ _ _ _ _ _ Hb Hwf) as Hsh. pose proof (pending_wf spec prev plan Hsh) as Hpend.
    assert (I (run ex s1).1) as Hrun; [|by destruct (run ex s1) as [s2 [rel [err|]]]].
    apply executed_keeps; rewrite ?Hex; [done|done| |rewrite Hs1; by apply (kp_save Hk)].
    cbn. rewrite SliceStable_perm. rewrite Forall_forall in Hsh. apply Forall_forall.
    intros c [Hc Hin]%elem_of_filterb. rewrite <-(Hsh c Hin). apply bool_decide_eq_true in Hc. by rewrite Hc.
  - revert Hp. unfold Prepare. destruct (recs_Get _ _ s) as [prev|er] eqn:Hg; [|by intros [= <- _ _]].
    destruct (BuildPlan _ _ _ _ _ _) as [plan|er] eqn:Hb; [|by intros [= <- _ _]].
    destruct (admission plan); [|by intros [= <- _ _]]. destruct (negb _); [by intros [= <- _ _]|]. destruct (_ && _); [by intros [= <- _ _]|].
    pose proof (kp_save Hk (pendingRelease spec prev plan) s) as Hsv. destruct (recs_Save _ s) as [s2 [[]|er]]; intros [= <- _ _].
    apply Hsv; [|done]. apply pending_wf. eapply BuildPlan_shared; [exact Hb|by eapply (kp_get Hk)].
Qed.
End Keeps.

(** A call on well-formed records: it saves one, or prunes no shared kind. *)
Definition wf_call (c : call) : Prop :=
  match c with
  | CSave r => wf_release r
  | CPrune ref => isSharedClusterKind (or_ResourceType ref) = false
  | _ => True
  end.

Lemma kept_traced {S} `{ReleaseRecords S, LiveLookup S, Applier S} (I : S → Prop) :
  kept I → kept (S := S * list call) (λ st, I st.1 ∧ Forall wf_call st.2).
Proof.
  intros Hk. split; cbn.
  - intros ns n [s l] cur [Hs _]. by apply (kp_get _ Hk).
  - intros rel [s l] Hr [Hs Hl]. split; [by apply (kp_save _ Hk)|]. apply Forall_app; split; [done|by apply Forall_singleton].
  - intros c [s l] [Hs Hl]. split; [by apply (kp_apply _ Hk)|]. apply Forall_app; split; [done|by apply Forall_singleton].
  - intros ref [s l] Hr [Hs Hl]. split; [by apply (kp_prune _ Hk)|]. apply Forall_app; split; [done|by apply Forall_singleton].
  - intros refs [s l] [Hs Hl]. split; [by apply (kp_verify _ Hk)|]. apply Forall_app; split; [done|by apply Forall_singleton].
  - intros ref [s l] [Hs Hl]. split; [by apply (kp_revert _ Hk)|]. apply Forall_app; split; [done|by apply Forall_singleton].
Qed.

(** An atomic cast that reports its changes rolled back has put every resource
    back, for any applier that keeps the contract. *)
Lemma atomic_restores {S} `{ReleaseRecords S, LiveLookup S, Applier S} (same : OwnerRef → S → S → Prop) `{!Revertible S same}
    (spec : ReleaseSpec) (admission : Plan → result string unit) (s s' : S) (rel : option Release) (plan : option Plan)
    (cause : CastError) (current : option Release)
    (Hfresh : fresh s) (Hcur : recs_Get (sp_Namespace spec) (sp_Name spec) s = Ok current) (Hwf : wf_current current)
    (Hcast : Reconcile spec admission s = (s', (rel, plan, Some (RolledBack cause)))) :
  (∀ ref, same ref s s') ∧ r_Owns <$> rel = Some (match current with Some r => r_Owns r | None => [] end).
Proof.
  unfold Reconcile in Hcast. destruct (Prepare spec admission s) as [s1 [[ex pl]|[e p]]] eqn:Hp.
  - pose proof (Prepare_prunes _ _ _ _ _ _ Hp) as Hpr. apply Prepare_Ok in Hp as (prev & Hg & Hb & _ & _ & -> & Hex).
    rewrite Hcur in Hg. apply Ok_inj in Hg as <-. pose proof (BuildPlan_shared _ _ _ _ _ _ _ Hb Hwf) as Hsh.
    destruct (run ex _) as [s2 [r [err|]]] eqn:Hr; [|done]. injection Hcast as <- <- _ ->.
    assert (only_shared_referenced (ex_applies ex)) as Honly.
    { rewrite Hex. unfold only_shared_referenced. cbn. rewrite SliceStable_perm. rewrite Forall_forall in Hsh |- *.
      intros c [_ Hin]%elem_of_filterb Ha. rewrite <- (Hsh c Hin). by apply bool_decide_true. }
    destruct (run_undoable same s ex _ _ _ _ (rv_save _ _ _ _ (rv_start _ Hfresh)) Honly Hpr Hr) as [Hu Ho].
    split; [intros ref; eapply rv_same; [done|by apply not_elem_of_nil]|]. cbn. rewrite Ho, Hex. done.
  - revert Hp. injection Hcast as <- _ _ ->. unfold Prepare. destruct (recs_Get _ _ _); [|done].
    destruct (BuildPlan _ _ _ _ _ _); [|done]. destruct (admission _); [|done]. destruct (negb _); [done|].
    destruct (_ && _); [done|]. by destruct (recs_Save _ _) as [? [[]|]].
Qed.

(** A cast that fails without being rolled back records the new plan's
    resources as all it owns: a resource it was going to prune and did not reach
    is in no later plan of the release that does not ask for it. *)
Theorem failed_cast_forgets_prunes {S} `{ReleaseRecords S, LiveLookup S, Applier S} (spec : ReleaseSpec)
    (admission : Plan → result string unit) (s s1 s2 : S) (ex : execution) (plan : Plan) (rel : Release) (err : CastError)
    (Hprep : Prepare spec admission s = (s1, Ok (ex, plan))) (Hatomic : sp_Atomic spec = false)
    (Hrun : run ex s1 = (s2, (rel, Some err)))
    (c : PlannedChange) (Hc : c ∈ ex_prunes ex)
    (L : OwnerRef → result string LiveState) (desired : list OwnerRef) (opts : PlanOptions) (plan' : Plan)
    (Hnot : Key (pc_Ref c) ∉ Key <$> desired)
    (Hnext : BuildPlan L (sp_Name spec) (sp_Namespace spec) desired (Some rel) opts = Ok plan') :
  Forall (λ c', Key (pc_Ref c') ≠ Key (pc_Ref c)) (pl_Changes plan').
Proof.
  apply Prepare_Ok in Hprep as (prev & _ & Hb & _ & _ & _ & Hex).
  assert (r_Owns rel = (partitionOwnership plan).1) as Howns.
  { revert Hrun. unfold run. assert (∀ done cause (s0 : S), fail ex done cause s0 = failRelease (ex_rel ex) cause s0) as Hf.
    { intros. unfold fail. by rewrite Hex, Hatomic. }
    destruct (applyLoop _ _ _) as [[? ?] [?|]]; [rewrite Hf; intros [= <- <- <-]; by rewrite Hex|].
    destruct (Verify _ _) as [? [[]|?]]; [|rewrite Hf; intros [= <- <- <-]; by rewrite Hex].
    destruct (pruneLoop _ _ _) as [[? ?] [?|]]; [rewrite Hf; intros [= <- <- <-]; by rewrite Hex|].
    destruct (recs_Save _ _) as [? ?]. intros [= <- <- ?]. by rewrite Hex. }
  assert (c ∈ pl_Changes plan ∧ is_prune c = true) as [Hin Hpr].
  { rewrite Hex in Hc. cbn in Hc. rewrite SliceStable_perm in Hc. by apply elem_of_filterb in Hc as []. }
  unfold BuildPlan in Hb. destruct (planDesired _ _ _ _ _) as [cs|] eqn:Hp; [|done]. apply Ok_inj in Hb as <-.
  cbn [pl_Changes] in *. set (owns := match prev with Some r => r_Owns r | None => [] end) in *.
  destruct (planDesired_spec _ _ _ owns (sp_Resources spec) _ _ Hp) as (Hrefs & _ & Hnp).
  destruct (planPrunes_spec L (sp_Name spec) false owns (sp_Resources spec)) as [Hj Hp2].
  apply elem_of_app in Hin as [Hin|Hin]; [by rewrite (proj1 (Forall_forall _ _) Hnp c Hin) in Hpr|].
  rewrite Forall_forall in Hj. specialize (Hj c Hin). unfold justified in Hj.
  apply bool_decide_eq_true in Hpr. rewrite Hpr in Hj. destruct Hj as [_ Hnd].
  assert (∀ ref, ref ∈ r_Owns rel → Key ref ≠ Key (pc_Ref c)) as Hrel.
  { intros ref Hr Heq. rewrite Howns in Hr. cbn in Hr. apply list_elem_of_fmap in Hr as (c0 & -> & Hc0).
    apply elem_of_filterb in Hc0 as [Ha Hc0]. apply elem_of_app in Hc0 as [Hc0|Hc0].
    - apply Hnd. rewrite <- Heq, <- Hrefs, <- list_fmap_compose. by apply (list_elem_of_fmap_2 (Key ∘ pc_Ref)).
    - rewrite Forall_forall in Hp2. specialize (Hp2 c0 Hc0). apply bool_decide_eq_true in Hp2. by rewrite Hp2 in Ha. }
  unfold BuildPlan in Hnext. destruct (planDesired L _ _ _ _) as [cs'|] eqn:Hp'; [|done]. apply Ok_inj in Hnext as <-.
  cbn [pl_Changes]. destruct (planDesired_spec _ _ _ _ desired _ _ Hp') as (Hrefs' & _). apply Forall_app. split.
  - apply Forall_forall. intros c' Hc' Heq. apply Hnot. rewrite <- Heq, <- Hrefs', <- list_fmap_compose.
    by apply (list_elem_of_fmap_2 (Key ∘ pc_Ref)).
  - unfold planPrunes. rewrite Forall_fmap, Forall_forall. intros ref [_ Hr]%elem_of_filterb. by apply Hrel.
Qed.

(** A cluster that holds one record and refuses to apply anything. *)
Module StubbornCluster.
#[global] Instance stubborn_records : ReleaseRecords (option Release) := {
  recs_Get _ _ s := Ok s;
  recs_Save rel _ := (Some rel, Ok tt);
}.
#[global] Instance stubborn_live : LiveLookup (option Release) := { Lookup _ _ := Ok (mkLiveState false None) }.
#[global] Instance stubborn_applier : Applier (option Release) := {
  Apply _ s := (s, Err "refused");
  Prune _ s := (s, Ok tt);
  Verify _ s := (s, Ok tt);
  Revert _ s := (s, Ok tt);
}.
Definition deployed : Release := mkRelease "1" "web" "prod" ReleaseStatusDeployed 1 [demo_ref "a"; demo_ref "b"] [].
Definition spec : ReleaseSpec := mkReleaseSpec "web" "prod" [demo_ref "a"] (mkPlanOptions false) false false.
End StubbornCluster.

Lemma failed_cast_forgets_prunes_witness :
  ∃ rel plan', (run (S:=option Release) (mkExecution false (pendingRelease StubbornCluster.spec (Some StubbornCluster.deployed)
      (mkPlan "web" "prod" [change (demo_ref "a") ActionUpdate; change (demo_ref "b") ActionPrune]))
      (Some StubbornCluster.deployed) [demo_ref "a"] [change (demo_ref "a") ActionUpdate] [change (demo_ref "b") ActionPrune])
    None).2 = (rel, Some (ErrCluster "refused")) ∧
  BuildPlan (E:=string) (λ _, Ok (mkLiveState true None)) "web" "prod" [demo_ref "a"] (Some rel) (mkPlanOptions false) = Ok plan' ∧
  Forall (λ c', Key (pc_Ref c') ≠ Key (demo_ref "b")) (pl_Changes plan').
Proof.
  do 2 eexists. split; [vm_compute; reflexivity|]. split; [vm_compute; reflexivity|].
  eapply (failed_cast_forgets_prunes StubbornCluster.spec (λ _, Ok tt) (Some StubbornCluster.deployed)) with
    (c := change (demo_ref "b") ActionPrune) (desired := [demo_ref "a"]) (opts := mkPlanOptions false)
    (L := λ _, Ok (mkLiveState true None));
    [vm_compute; reflexivity|done|vm_compute; reflexivity|by left| |vm_compute; reflexivity].
  vm_compute. by intros [=]%list_elem_of_singleton.
Defined.
