(* ===== verification/ReleaseService.v ===== *)
(** * Services under a cast (pkg/releasectl/controller.go, pkg/types/{service,discovery_merge}.go)

    A rendered payload replaces a stored service's spec and nothing else: the
    identity, address, generation counters and teardown marks are the server's.
    The two hashes that decide whether a generation moves are compared through
    the views they are taken of; the template view and the desired-state view
    without scale and discovery are type parameters.  Timestamps are left out. *)

From S2P Require Import Prelude Types Release.

Record ServiceDiscovery := mkServiceDiscovery {
  sd_Mode : string;
  sd_VIP : string;
  sd_LocalityPreference : string;
}.

Definition first_nonempty (a b : string) : string := if bool_decide (a = "") then b else a.

Definition MergeServiceDiscovery (existing updated : option ServiceDiscovery) : option ServiceDiscovery :=
  match existing, updated with
  | None, None => None
  | _, _ =>
      let e := default (mkServiceDiscovery "" "" "") existing in
      let out := match updated with
        | None => e
        | Some u => mkServiceDiscovery (first_nonempty (sd_Mode u) (sd_Mode e)) (sd_VIP e)
                      (first_nonempty (sd_LocalityPreference u) (sd_LocalityPreference e))
        end in
      if bool_decide (sd_Mode out = "") && bool_decide (sd_LocalityPreference out = "") && bool_decide (sd_VIP out = "")
      then None else Some out
  end.

(** Puts the operator's fields back under the live address. *)
Definition restoreDiscovery (preImage : option ServiceDiscovery) (vip : string) : option ServiceDiscovery :=
  match preImage with
  | None => if bool_decide (vip = "") then None else Some (mkServiceDiscovery "" vip "")
  | Some d => Some (mkServiceDiscovery (sd_Mode d) vip (sd_LocalityPreference d))
  end.

(** [discoveryWithoutVIP]: what of the discovery block the hash reads. *)
Definition discoveryWithoutVIP (d : option ServiceDiscovery) : option ServiceDiscovery :=
  match d with
  | None => None
  | Some d =>
      if bool_decide (sd_Mode d = "") && bool_decide (sd_LocalityPreference d = "") then None
      else Some (mkServiceDiscovery (sd_Mode d) "" (sd_LocalityPreference d))
  end.

#[global] Instance ServiceDiscovery_eq_dec : EqDecision ServiceDiscovery.
Proof. solve_decision. Defined.

(** [types.ServiceMetadata]. *)
Record StoredMetadata := mkStoredMetadata {
  sm_Generation : Z;
  sm_TemplateGeneration : Z;
  sm_ObservedGeneration : Z;
  sm_LastNonZeroScale : Z;
  sm_DeletionTimestamp : option Time;
  sm_Finalizers : list FinalizerType;
  sm_OwnedBy : option OwnedBy;
}.

Definition no_metadata : StoredMetadata := mkStoredMetadata 0 0 0 0 None [] None.

Definition with_owner (m : StoredMetadata) (o : option OwnedBy) : StoredMetadata :=
  mkStoredMetadata (sm_Generation m) (sm_TemplateGeneration m) (sm_ObservedGeneration m) (sm_LastNonZeroScale m)
    (sm_DeletionTimestamp m) (sm_Finalizers m) o.

Definition with_generations (m : StoredMetadata) (gen tmpl : Z) : StoredMetadata :=
  mkStoredMetadata gen tmpl (sm_ObservedGeneration m) (sm_LastNonZeroScale m) (sm_DeletionTimestamp m) (sm_Finalizers m)
    (sm_OwnedBy m).

Definition with_teardown (m : StoredMetadata) (ts : option Time) (fins : list FinalizerType) : StoredMetadata :=
  mkStoredMetadata (sm_Generation m) (sm_TemplateGeneration m) (sm_ObservedGeneration m) (sm_LastNonZeroScale m) ts fins
    (sm_OwnedBy m).

Definition with_last_scale (m : StoredMetadata) (n : Z) : StoredMetadata :=
  mkStoredMetadata (sm_Generation m) (sm_TemplateGeneration m) (sm_ObservedGeneration m) n (sm_DeletionTimestamp m)
    (sm_Finalizers m) (sm_OwnedBy m).

Section Carry.
Context {T DS : Type} `{EqDecision T, EqDecision DS}.

(** [types.Service], by what the hashes and the carry read of it. *)
Record StoredService := mkStoredService {
  ss_ID : string;
  ss_Template : T;
  ss_Scale : Z;
  ss_Desired : DS;
  ss_Discovery : option ServiceDiscovery;
  ss_IngressCert : option string;
  ss_Instances : list string;
  ss_Status : ServiceStatus;
  ss_StatusReason : string;
  ss_StatusMessage : string;
  ss_Update : option UpdateStatus;
  ss_Metadata : option StoredMetadata;
}.

Definition metadata (s : StoredService) : StoredMetadata := default no_metadata (ss_Metadata s).

(** Equality of [CalculateTemplateHash] and of [CalculateHash]. *)
Definition same_template (a b : StoredService) : bool := bool_decide (ss_Template a = ss_Template b).
Definition same_hash (a b : StoredService) : bool :=
  same_template a b && bool_decide (ss_Scale a = ss_Scale b) && bool_decide (ss_Desired a = ss_Desired b) &&
  bool_decide (discoveryWithoutVIP (ss_Discovery a) = discoveryWithoutVIP (ss_Discovery b)).

Definition with_ss_Metadata (s : StoredService) (m : StoredMetadata) : StoredService :=
  mkStoredService (ss_ID s) (ss_Template s) (ss_Scale s) (ss_Desired s) (ss_Discovery s) (ss_IngressCert s) (ss_Instances s)
    (ss_Status s) (ss_StatusReason s) (ss_StatusMessage s) (ss_Update s) (Some m).

Definition with_ss_Discovery (s : StoredService) (d : option ServiceDiscovery) : StoredService :=
  mkStoredService (ss_ID s) (ss_Template s) (ss_Scale s) (ss_Desired s) d (ss_IngressCert s) (ss_Instances s)
    (ss_Status s) (ss_StatusReason s) (ss_StatusMessage s) (ss_Update s) (ss_Metadata s).

Definition resetObservedState (s : StoredService) : StoredService :=
  mkStoredService (ss_ID s) (ss_Template s) (ss_Scale s) (ss_Desired s) (ss_Discovery s) (ss_IngressCert s) []
    ServiceStatusPending "" "" None (ss_Metadata s).

(** [uuid] is the identity minted for the new service. *)
Definition sanitizeServerFields (uuid : string) (s : StoredService) : StoredService :=
  mkStoredService uuid (ss_Template s) (ss_Scale s) (ss_Desired s)
    (match ss_Discovery s with
     | Some d => Some (mkServiceDiscovery (sd_Mode d) "" (sd_LocalityPreference d))
     | None => None
     end)
    None [] ServiceStatusPending "" "" None
    (Some (with_owner no_metadata (sm_OwnedBy (metadata s)))).

Definition carryServerState (stored rendered : StoredService) : result string StoredService :=
  if bool_decide (sm_Generation (metadata stored) = int64_max) then Err "exhausted generation counter"
  else
    let r := resetObservedState rendered in
    let r := mkStoredService (if bool_decide (ss_ID stored = "") then ss_ID rendered else ss_ID stored)
               (ss_Template r) (ss_Scale r) (ss_Desired r) (MergeServiceDiscovery (ss_Discovery stored) (ss_Discovery r))
               (ss_IngressCert stored) (ss_Instances r) (ss_Status r) (ss_StatusReason r) (ss_StatusMessage r)
               (ss_Update r) (ss_Metadata r) in
    let m := with_owner (metadata stored) (sm_OwnedBy (metadata rendered)) in
    let m := if same_hash stored r then m
             else
               let gen := wrap64 (sm_Generation m + 1) in
               with_generations m gen (if same_template stored r then sm_TemplateGeneration m else gen) in
    let m := if 0 <? ss_Scale r then with_last_scale m (ss_Scale r) else m in
    Ok (with_ss_Metadata r m).

(** What [Apply] writes onto a stored service. *)
Definition applyMutate (payload stored : StoredService) : result string StoredService :=
  match sm_DeletionTimestamp (metadata stored) with
  | Some _ => Err "is being deleted; cast again once teardown finishes"
  | None => carryServerState stored payload
  end.

(** What [Revert] writes onto the live record; [pruned] is whether this cast
    started the teardown it finds. *)
Definition revertMutate (pre : StoredService) (pruned : bool) (cur : StoredService) : result string StoredService :=
  let vip := match ss_Discovery cur with Some d => sd_VIP d | None => "" end in
  match carryServerState cur pre with
  | Err e => Err e
  | Ok next =>
      let next := with_ss_Discovery next (restoreDiscovery (ss_Discovery pre) vip) in
      Ok (if pruned then with_ss_Metadata next (with_teardown (metadata next) None []) else next)
  end.

(** The record [Revert] creates when the live one is gone. *)
Definition revertRecreate (uuid : string) (pre : StoredService) (appliedGen appliedTmpl : Z) : StoredService :=
  let next := sanitizeServerFields uuid pre in
  let m := match ss_Metadata pre with
    | None => metadata next
    | Some pm => with_teardown (with_owner pm (sm_OwnedBy (metadata next))) None []
    end in
  let gen := Z.max (sm_Generation m) appliedGen in
  let gen := if gen <? int64_max then gen + 1 else gen in
  let m := with_generations m gen
             (if sm_TemplateGeneration m <? appliedTmpl then gen else sm_TemplateGeneration m) in
  mkStoredService (ss_ID pre) (ss_Template next) (ss_Scale next) (ss_Desired next) (ss_Discovery next) (ss_IngressCert next)
    (ss_Instances next) (ss_Status next) (ss_StatusReason next) (ss_StatusMessage next) (ss_Update next) (Some m).

(** The defaults [orchestrator.CreateService] fills in. *)
Definition seedMetadata (s : StoredService) : StoredService :=
  let m := metadata s in
  let gen := if sm_Generation m =? 0 then 1 else sm_Generation m in
  let m := with_generations m gen (if sm_TemplateGeneration m =? 0 then gen else sm_TemplateGeneration m) in
  with_ss_Metadata s (if (sm_LastNonZeroScale m =? 0) && (0 <? ss_Scale s) then with_last_scale m (ss_Scale s) else m).

(** The tombstone of [handleRealDeletion]. *)
Definition tombstone (now : Time) (fins : list FinalizerType) (s : StoredService) : StoredService :=
  match sm_DeletionTimestamp (metadata s) with
  | Some _ => s
  | None =>
      mkStoredService (ss_ID s) (ss_Template s) (ss_Scale s) (ss_Desired s) (ss_Discovery s) (ss_IngressCert s)
        (ss_Instances s) ServiceStatusDeleted (ss_StatusReason s) (ss_StatusMessage s) (ss_Update s)
        (Some (with_teardown (metadata s) (Some now) fins))
  end.
End Carry.

Arguments StoredService : clear implicits.
