(* ===== verification/ReleaseApply.v ===== *)
(** * The applier of a cast (pkg/releasectl/{controller,plan}.go, pkg/store/repos)

    Rows of the store by key, the repositories' update rules, and the applier
    that captures a pre-image before it first touches a resource.  Reads and
    writes of the store fail as an oracle says, which stands for every way a call
    can fail, validation included.  A payload is filed under its own key, which
    the API checks; JSON copies are faithful; uuids come from the environment. *)

From S2P Require Import Prelude Types Release ReleaseService.

(** ** Rows (pkg/types/{secret,configmap,volume}.go) *)

(** A secret as stored and read back: its id and type are not kept. *)
Record Secret := mkSecret {
  se_Data : gmap string string;
  se_Version : Z;
  se_OwnedBy : option OwnedBy;
}.

Record Configmap := mkConfigmap {
  cm_ID : string;
  cm_Data : gmap string string;
  cm_Version : Z;
  cm_OwnedBy : option OwnedBy;
}.

Record VolumeRow := mkVolumeRow {
  vr_ID : string;
  vr_Spec : gmap string string;
  vr_DriverParameters : gmap string string;
  vr_Handle : string;
  vr_BoundNode : string;
  vr_BoundClaim : string;
  vr_Status : string;
  vr_OwnedBy : option OwnedBy;
}.

Definition stampSecret (o : OwnedBy) (x : Secret) : Secret := mkSecret (se_Data x) (se_Version x) (Some o).
Definition stampConfigmap (o : OwnedBy) (x : Configmap) : Configmap :=
  mkConfigmap (cm_ID x) (cm_Data x) (cm_Version x) (Some o).
Definition stampVolume (o : OwnedBy) (x : VolumeRow) : VolumeRow :=
  mkVolumeRow (vr_ID x) (vr_Spec x) (vr_DriverParameters x) (vr_Handle x) (vr_BoundNode x) (vr_BoundClaim x) (vr_Status x) (Some o).

(** The repositories' rules (pkg/store/repos/{secret,configmap,volume}.go). *)
Definition secretCreate (x : Secret) : Secret := mkSecret (se_Data x) 1 (se_OwnedBy x).
Definition secretUpdate (cur x : Secret) : Secret := mkSecret (se_Data x) (wrap64 (se_Version cur + 1)) (se_OwnedBy x).

Definition configmapCreate (uuid : string) (x : Configmap) : Configmap :=
  mkConfigmap (if bool_decide (cm_ID x = "") then uuid else cm_ID x) (cm_Data x) (cm_Version x) (cm_OwnedBy x).
Definition configmapUpdate (cur x : Configmap) : Configmap :=
  mkConfigmap (cm_ID x) (cm_Data x) (wrap64 (cm_Version cur + 1)) (cm_OwnedBy x).

Definition volumeCreate (uuid : string) (x : VolumeRow) : VolumeRow :=
  mkVolumeRow (if bool_decide (vr_ID x = "") then uuid else vr_ID x) (vr_Spec x) (vr_DriverParameters x) (vr_Handle x)
    (vr_BoundNode x) (vr_BoundClaim x) (if bool_decide (vr_Status x = "") then "Pending" else vr_Status x) (vr_OwnedBy x).
Definition volumeUpdate (cur x : VolumeRow) : result string VolumeRow :=
  let id := if bool_decide (vr_ID x = "") then vr_ID cur else vr_ID x in
  if negb (bool_decide (id = vr_ID cur)) then Err "id is immutable"
  else Ok (mkVolumeRow id (vr_Spec x) (vr_DriverParameters x) (vr_Handle x) (vr_BoundNode x) (vr_BoundClaim x) (vr_Status x) (vr_OwnedBy x)).

Section Apply.
Context {T DS : Type} `{EqDecision T, EqDecision DS}.

Inductive row :=
| RowService (x : StoredService T DS)
| RowSecret (x : Secret)
| RowConfigmap (x : Configmap)
| RowVolume (x : VolumeRow).

Record preImage := mkPreImage {
  pi_Row : option row;              (* [None] is absent before the cast *)
  pi_AppliedGeneration : Z;
  pi_AppliedTemplateGeneration : Z;
  pi_Pruned : bool;
}.

(** What a cast was given: payloads by key and the ownership stamp. *)
Record cast_env := mkCastEnv {
  ce_payloads : gmap string row;
  ce_stamp : OwnedBy;
  ce_uuid : string;
  ce_now : Time;
  ce_finalizers : list FinalizerType;
}.

(** The store, the applier's pre-images, and the calls that will fail. *)
Record cluster := mkCluster {
  cl_rows : gmap string row;
  cl_releases : gmap (string * string) Release;
  cl_pre : gmap string preImage;
  cl_readFaults : list bool;
  cl_writeFaults : list bool;
  cl_verified : list bool;          (* what each wait for readiness will report *)
}.

Definition with_rows (s : cluster) (m : gmap string row) : cluster :=
  mkCluster m (cl_releases s) (cl_pre s) (cl_readFaults s) (cl_writeFaults s) (cl_verified s).
Definition with_pre (s : cluster) (p : gmap string preImage) : cluster :=
  mkCluster (cl_rows s) (cl_releases s) p (cl_readFaults s) (cl_writeFaults s) (cl_verified s).

(** ** The store's calls *)

(** One read: the row, or nothing when it is absent or the read failed. *)
Definition readRow (ref : OwnerRef) (s : cluster) : cluster * option row :=
  let s' := mkCluster (cl_rows s) (cl_releases s) (cl_pre s) (tail (cl_readFaults s)) (cl_writeFaults s) (cl_verified s) in
  (s', if hd false (cl_readFaults s) then None else cl_rows s !! Key ref).

(** One write; [exists_] is what it requires of the key. *)
Definition writeRow (ref : OwnerRef) (exists_ : bool) (new : option row) (s : cluster) : cluster * result string unit :=
  let s' := mkCluster (cl_rows s) (cl_releases s) (cl_pre s) (cl_readFaults s) (tail (cl_writeFaults s)) (cl_verified s) in
  if hd false (cl_writeFaults s) then (s', Err "store")
  else if negb (Bool.eqb (bool_decide (is_Some (cl_rows s !! Key ref))) exists_) then (s', Err "store")
  else (with_rows s' (partial_alter (λ _, new) (Key ref) (cl_rows s')), Ok tt).

(** A repository update: read the current row, then write. *)
Definition repoUpdate (ref : OwnerRef) (f : row → result string row) (s : cluster) : cluster * result string unit :=
  let '(s1, cur) := readRow ref s in
  match cur with
  | None => (s1, Err "not found")
  | Some r => match f r with Err e => (s1, Err e) | Ok r' => writeRow ref true (Some r') s1 end
  end.

(** [capture]: the first touch wins. *)
Definition capture (ref : OwnerRef) (pi : preImage) (s : cluster) : cluster :=
  match cl_pre s !! Key ref with Some _ => s | None => with_pre s (<[Key ref := pi]> (cl_pre s)) end.

Definition absent : preImage := mkPreImage None 0 0 false.
Definition existed (r : row) : preImage := mkPreImage (Some r) 0 0 false.

Definition noteApplied (ref : OwnerRef) (gen tmpl : Z) (s : cluster) : cluster :=
  match cl_pre s !! Key ref with
  | None => s
  | Some pi =>
      with_pre s (<[Key ref := mkPreImage (pi_Row pi) (Z.max (pi_AppliedGeneration pi) gen)
                                 (Z.max (pi_AppliedTemplateGeneration pi) tmpl) (pi_Pruned pi)]> (cl_pre s))
  end.

Definition markPruned (ref : OwnerRef) (s : cluster) : cluster :=
  match cl_pre s !! Key ref with
  | None => s
  | Some pi =>
      with_pre s (<[Key ref := mkPreImage (pi_Row pi) (pi_AppliedGeneration pi) (pi_AppliedTemplateGeneration pi) true]> (cl_pre s))
  end.

(** How a row of one kind is rewritten by a payload of that kind. *)
Definition updateRow (payload cur : row) : result string row :=
  match payload, cur with
  | RowSecret x, RowSecret c => Ok (RowSecret (secretUpdate c x))
  | RowConfigmap x, RowConfigmap c => Ok (RowConfigmap (configmapUpdate c x))
  | RowVolume x, RowVolume c => match volumeUpdate c x with Ok v => Ok (RowVolume v) | Err e => Err e end
  | _, _ => Err "not found"
  end.

Definition createRow (uuid : string) (payload : row) : row :=
  match payload with
  | RowSecret x => RowSecret (secretCreate x)
  | RowConfigmap x => RowConfigmap (configmapCreate uuid x)
  | RowVolume x => RowVolume (volumeCreate uuid x)
  | RowService x => RowService (seedMetadata x)
  end.

(** The kinds the applier materializes. *)
Inductive kind := KService | KSecret | KConfigmap | KVolume.

Definition kind_of (rt : ResourceType) : option kind :=
  if bool_decide (rt = ResourceTypeService) then Some KService
  else if bool_decide (rt = ResourceTypeSecret) then Some KSecret
  else if bool_decide (rt = ResourceTypeConfigmap) then Some KConfigmap
  else if bool_decide (rt = ResourceTypeVolume) then Some KVolume
  else None.

Definition row_kind (r : row) : kind :=
  match r with RowService _ => KService | RowSecret _ => KSecret | RowConfigmap _ => KConfigmap | RowVolume _ => KVolume end.

#[global] Instance kind_eq_dec : EqDecision kind.
Proof. solve_decision. Defined.

(** A read of the row's own kind. *)
Definition getRow (k : kind) (ref : OwnerRef) (s : cluster) : cluster * option row :=
  let '(s1, r) := readRow ref s in
  (s1, match r with Some r => if bool_decide (row_kind r = k) then Some r else None | None => None end).

(** [stamp]: the ownership written onto the payload. *)
Definition stampRow (o : OwnedBy) (r : row) : row :=
  match r with
  | RowSecret x => RowSecret (stampSecret o x)
  | RowConfigmap x => RowConfigmap (stampConfigmap o x)
  | RowVolume x => RowVolume (stampVolume o x)
  | RowService x => RowService (with_ss_Metadata x (with_owner (metadata x) (Some o)))
  end.

(** ** Apply *)

Definition applyService (env : cast_env) (ref : OwnerRef) (svc : StoredService T DS) (s : cluster) : cluster * result string unit :=
  let create s :=
    let s1 := capture ref absent s in
    let created := sanitizeServerFields (ce_uuid env) svc in
    writeRow ref false (Some (createRow (ce_uuid env) (RowService created))) s1 in
  (* UpdateServiceFunc: only a missing record falls through to a create *)
  if hd false (cl_readFaults s) then ((readRow ref s).1, Err "store")
  else
    let '(s1, cur) := readRow ref s in
    match cur with
    | Some (RowService stored) =>
        match applyMutate svc stored with
        | Err e => (s1, Err e)
        | Ok next =>
            let '(s2, r) := writeRow ref true (Some (RowService next)) s1 in
            match r with
            | Err e => (s2, Err e)
            | Ok _ =>
                let s3 := capture ref (existed (RowService stored)) s2 in
                (noteApplied ref (sm_Generation (metadata next)) (sm_TemplateGeneration (metadata next)) s3, Ok tt)
            end
        end
    | Some _ => (s1, Err "decode")
    | None => create s1
    end.

Definition applyRow (env : cast_env) (k : kind) (ref : OwnerRef) (payload : row) (s : cluster) : cluster * result string unit :=
  let '(s1, cur) := getRow k ref s in
  match cur with
  | Some existing =>
      let s2 := capture ref (existed existing) s1 in
      repoUpdate ref (updateRow payload) s2
  | None =>
      let s2 := capture ref absent s1 in
      writeRow ref false (Some (createRow (ce_uuid env) payload)) s2
  end.

Definition applierApply (env : cast_env) (c : PlannedChange) (s : cluster) : cluster * result string unit :=
  let ref := pc_Ref c in
  match kind_of (or_ResourceType ref) with
  | None => (s, Ok tt)
  | Some k =>
      match ce_payloads env !! Key ref with
      | Some payload =>
          if negb (bool_decide (row_kind payload = k)) then (s, Err "no rendered payload")
          else match stampRow (ce_stamp env) payload with
               | RowService svc => applyService env ref svc s
               | stamped => applyRow env k ref stamped s
               end
      | None => (s, Err "no rendered payload")
      end
  end.

(** ** Prune *)

Definition capturePreDelete (k : kind) (ref : OwnerRef) (s : cluster) : cluster :=
  let '(s1, r) := getRow k ref s in
  match r with Some r => capture ref (existed r) s1 | None => capture ref absent s1 end.

Definition terminating (r : row) : bool :=
  match r with RowService x => bool_decide (is_Some (sm_DeletionTimestamp (metadata x))) | _ => false end.

(** [DeleteService]: the record is marked for teardown; one that already is
    needs nothing. *)
Definition deleteService (env : cast_env) (ref : OwnerRef) (s : cluster) : cluster * result string unit :=
  let '(s1, cur) := readRow ref s in
  match cur with
  | Some (RowService x) =>
      if terminating (RowService x) then (s1, Ok tt)
      else writeRow ref true (Some (RowService (tombstone (ce_now env) (ce_finalizers env) x))) s1
  | _ => (s1, Err "not found")
  end.

Definition applierPrune (env : cast_env) (ref : OwnerRef) (s : cluster) : cluster * result string unit :=
  match kind_of (or_ResourceType ref) with
  | None => (s, Ok tt)
  | Some k =>
      let s1 := capturePreDelete k ref s in
      match k with
      | KService =>
          let alreadyTerminating :=
            match cl_pre s1 !! Key ref with
            | Some pi => match pi_Row pi with Some r => terminating r | None => false end
            | None => false
            end in
          let '(s2, r) := deleteService env ref s1 in
          match r with
          | Err e => (s2, Err e)
          | Ok _ => (if alreadyTerminating then s2 else markPruned ref s2, Ok tt)
          end
      | _ => writeRow ref true None s1
      end
  end.

(** ** Revert *)

Definition revertCreated (env : cast_env) (k : kind) (ref : OwnerRef) (s : cluster) : cluster * result string unit :=
  let '(s1, r) := getRow k ref s in
  match r with
  | None => (s1, Ok tt)
  | Some _ => match k with KService => deleteService env ref s1 | _ => writeRow ref true None s1 end
  end.

Definition revertService (env : cast_env) (ref : OwnerRef) (pi : preImage) (pre : StoredService T DS) (s : cluster)
    : cluster * result string unit :=
  if hd false (cl_readFaults s) then ((readRow ref s).1, Err "store")
  else
    let '(s1, cur) := readRow ref s in
    match cur with
    | Some (RowService c) =>
        match revertMutate pre (pi_Pruned pi) c with
        | Err e => (s1, Err e)
        | Ok next => writeRow ref true (Some (RowService next)) s1
        end
    | Some _ => (s1, Err "decode")
    | None =>
        if negb (pi_Pruned pi) then (s1, Ok tt)
        else writeRow ref false
               (Some (createRow (ce_uuid env) (RowService (revertRecreate (ce_uuid env) pre (pi_AppliedGeneration pi)
                                                            (pi_AppliedTemplateGeneration pi))))) s1
    end.

Definition applierRevert (env : cast_env) (ref : OwnerRef) (s : cluster) : cluster * result string unit :=
  match kind_of (or_ResourceType ref), cl_pre s !! Key ref with
  | _, None | None, _ => (s, Ok tt)
  | Some k, Some pi =>
      match pi_Row pi with
      | None => revertCreated env k ref s
      | Some (RowService pre) => revertService env ref pi pre s
      | Some pre =>
          let '(s1, cur) := getRow k ref s in
          match cur with
          | Some _ => repoUpdate ref (updateRow pre) s1
          | None => writeRow ref false (Some (createRow (ce_uuid env) pre)) s1
          end
      end
  end.

(** The wait for readiness changes nothing; how it ends is the environment's. *)
Definition applierVerify (refs : list OwnerRef) (s : cluster) : cluster * result string unit :=
  match List.filter (λ r, bool_decide (or_ResourceType r = ResourceTypeService)) refs with
  | [] => (s, Ok tt)
  | _ =>
      (mkCluster (cl_rows s) (cl_releases s) (cl_pre s) (cl_readFaults s) (cl_writeFaults s) (tail (cl_verified s)),
       if hd true (cl_verified s) then Ok tt else Err "release verify")
  end.

(** ** Live state and records *)

Definition owner_of_row (r : row) : option OwnedBy :=
  match r with
  | RowService x => sm_OwnedBy (metadata x)
  | RowSecret x => se_OwnedBy x
  | RowConfigmap x => cm_OwnedBy x
  | RowVolume x => vr_OwnedBy x
  end.

Definition liveState (ref : OwnerRef) (s : cluster) : LiveState :=
  match kind_of (or_ResourceType ref) with
  | None => mkLiveState false None
  | Some k =>
      match (getRow k ref s).2 with
      | Some r => mkLiveState true (owner_of_row r)
      | None => mkLiveState false None
      end
  end.

Definition recordGet (ns name : string) (s : cluster) : option Release := cl_releases s !! (ns, name).

Definition recordSave (rel : Release) (s : cluster) : cluster * result string unit :=
  let s' := mkCluster (cl_rows s) (cl_releases s) (cl_pre s) (cl_readFaults s) (tail (cl_writeFaults s)) (cl_verified s) in
  if hd false (cl_writeFaults s) then (s', Err "store")
  else (mkCluster (cl_rows s') (<[(r_Namespace rel, r_Name rel) := rel]> (cl_releases s')) (cl_pre s') (cl_readFaults s')
          (cl_writeFaults s') (cl_verified s'), Ok tt).

(** ** Uninstalling (plan.go) *)

Definition uninstallRank (rt : ResourceType) : Z :=
  if bool_decide (rt = ResourceTypeService) then 0
  else if bool_decide (rt = ResourceTypeSecret) then 1
  else if bool_decide (rt = ResourceTypeConfigmap) then 2
  else if bool_decide (rt = ResourceTypeVolume) then 3
  else 4.

(** Its insertion sort is the stable one. *)
Definition reverseDependencyOrder (refs : list OwnerRef) : list OwnerRef :=
  SliceStable (λ a b, uninstallRank (or_ResourceType a) <? uninstallRank (or_ResourceType b)) refs.

Fixpoint pruneAll (env : cast_env) (refs : list OwnerRef) (s : cluster) : cluster * result string unit :=
  match refs with
  | [] => (s, Ok tt)
  | ref :: rest =>
      let '(s1, r) := applierPrune env ref s in
      match r with Err e => (s1, Err e) | Ok _ => pruneAll env rest s1 end
  end.

(** What an uninstall prunes, in order. *)
Definition uninstallOrder (keepVolumes : bool) (rel : Release) : list OwnerRef :=
  List.filter (λ ref, negb (keepVolumes && bool_decide (or_ResourceType ref = ResourceTypeVolume)))
    (reverseDependencyOrder (r_Owns rel)).

Definition Uninstall (env : cast_env) (admission : list PlannedChange → result string unit) (keepVolumes purge : bool)
    (ns name : string) (s : cluster) : cluster * result string unit :=
  match recordGet ns name s with
  | None => (s, Err "release not found")
  | Some rel =>
      let order := uninstallOrder keepVolumes rel in
      match admission ((λ ref, change ref ActionPrune) <$> order) with
      | Err e => (s, Err e)
      | Ok _ =>
          let s1 := (recordSave (with_r_Status rel ReleaseStatusUninstalling) s).1 in
          let s1 := with_pre s1 ∅ in
          let '(s2, r) := pruneAll env order s1 in
          match r with
          | Err e => (s2, Err e)
          | Ok _ =>
              if purge then
                let s3 := mkCluster (cl_rows s2) (cl_releases s2) (cl_pre s2) (cl_readFaults s2) (tail (cl_writeFaults s2)) (cl_verified s2) in
                if hd false (cl_writeFaults s2) then (s3, Err "store")
                else (mkCluster (cl_rows s3) (delete (ns, name) (cl_releases s3)) (cl_pre s3) (cl_readFaults s3)
                        (cl_writeFaults s3) (cl_verified s3), Ok tt)
              else recordSave (with_r_Status (with_r_Owns rel [] (r_References rel)) ReleaseStatusUninstalled) s2
          end
      end
  end.
End Apply.

Arguments row : clear implicits.
Arguments preImage : clear implicits.
Arguments cast_env : clear implicits.
Arguments cluster : clear implicits.
