(* ===== verification/ReleaseApplyProps.v ===== *)
(** * Casts over the store

    A cast and its revert against the generation counters, which decide whether
    running instances are replaced; an atomic cast end to end; and the records that
    casts and uninstalls leave. *)

From Stdlib Require Import Ascii.
From S2P Require Import Prelude Text Types Release ReleaseProps ReleaseService ReleaseApply.

Section Props.
Context {T DS : Type} `{EqDecision T, EqDecision DS}.
Implicit Types (a b s stored rendered pre cur payload : StoredService T DS).

(** What a castfile says about a service. *)
Definition spec_of s : T * Z * DS * option (string * string) * option OwnedBy :=
  (ss_Template s, ss_Scale s, ss_Desired s,
   (λ d, (sd_Mode d, sd_LocalityPreference d)) <$> ss_Discovery s, sm_OwnedBy (metadata s)).

(** The generations a store holds: the template's never outruns the spec's. *)
Definition wf_generations s : Prop :=
  in_int64 (sm_Generation (metadata s)) ∧ sm_TemplateGeneration (metadata s) ≤ sm_Generation (metadata s).

Lemma with_ss_Metadata_metadata s m : metadata (with_ss_Metadata s m) = m.
Proof. done. Qed.

(** What a carry takes from where. *)
Lemma carry_fields stored rendered s :
  carryServerState stored rendered = Ok s →
  ss_Template s = ss_Template rendered ∧ ss_Scale s = ss_Scale rendered ∧ ss_Desired s = ss_Desired rendered ∧
  ss_Discovery s = MergeServiceDiscovery (ss_Discovery stored) (ss_Discovery rendered) ∧
  sm_DeletionTimestamp (metadata s) = sm_DeletionTimestamp (metadata stored) ∧
  sm_OwnedBy (metadata s) = sm_OwnedBy (metadata rendered).
Proof.
  unfold carryServerState. destruct (bool_decide (sm_Generation (metadata stored) = int64_max)); [done|]. intros <-%Ok_inj.
  repeat (split; [by cbn; repeat (case_match; cbn)|]). cbn. by repeat (case_match; cbn).
Qed.

(** What a carry makes of the counters. *)
Lemma carry_spec stored rendered s :
  carryServerState stored rendered = Ok s → wf_generations stored → wf_generations s ∧
  sm_Generation (metadata s) = sm_Generation (metadata stored) + (if same_hash stored s then 0 else 1) ∧
  sm_TemplateGeneration (metadata s) =
    if same_template stored rendered then sm_TemplateGeneration (metadata stored) else sm_Generation (metadata s).
Proof.
  unfold carryServerState. destruct (bool_decide_reflect (sm_Generation (metadata stored) = int64_max)) as [|Hmax]; [done|].
  intros <-%Ok_inj [Hi Ht]. set (r := mkStoredService _ _ _ _ _ _ _ _ _ _ _ _).
  set (s := with_ss_Metadata _ _).
  assert (same_template stored s = same_template stored rendered) as Hst by done.
  assert (same_template stored r = same_template stored rendered) as Hrt by done.
  assert (same_hash stored s = same_hash stored r) as Hsh by done.
  assert (wrap64 (sm_Generation (metadata stored) + 1) = sm_Generation (metadata stored) + 1) as Hw.
  { apply wrap64_id. unfold in_int64, int64_max, int64_min in *. lia. }
  assert (same_hash stored r = true → same_template stored rendered = true) as Himp.
  { unfold same_hash. rewrite Hrt. by destruct (same_template stored rendered). }
  assert (sm_Generation (metadata s) = sm_Generation (metadata stored) + (if same_hash stored s then 0 else 1)) as Hg.
  { rewrite Hsh. subst s. rewrite with_ss_Metadata_metadata.
    destruct (same_hash stored r), (0 <? ss_Scale r); cbn; rewrite ?Hw; lia. }
  assert (sm_TemplateGeneration (metadata s) =
    if same_template stored rendered then sm_TemplateGeneration (metadata stored) else sm_Generation (metadata s)) as Htg.
  { rewrite <- Hrt in *. subst s. rewrite with_ss_Metadata_metadata.
    destruct (same_hash stored r) eqn:Hh, (same_template stored r) eqn:Htt, (0 <? ss_Scale r); cbn; try done;
      by specialize (Himp eq_refl). }
  split; [|done]. unfold wf_generations. rewrite Htg, Hg. unfold in_int64, int64_max, int64_min in *.
  destruct (same_hash stored s), (same_template stored rendered); lia.
Qed.

Lemma restoreDiscovery_hash d vip : discoveryWithoutVIP (restoreDiscovery d vip) = discoveryWithoutVIP d.
Proof. destruct d as [[m v l]|]; cbn; [done|]. by destruct (bool_decide (vip = "")). Qed.

(** Merging settings onto none keeps them, and merging none onto that changes nothing. *)
Lemma merge_adds d :
  discoveryWithoutVIP d ≠ None →
  MergeServiceDiscovery (MergeServiceDiscovery None d) None = MergeServiceDiscovery None d ∧
  discoveryWithoutVIP (MergeServiceDiscovery None d) ≠ None.
Proof.
  destruct d as [[m v l]|]; [|done]. destruct m, l; done.
Qed.

(** A revert restores the spec, and lifts a teardown of its own. *)
Lemma revert_fields pre pruned cur s :
  revertMutate pre pruned cur = Ok s →
  ss_Template s = ss_Template pre ∧ ss_Scale s = ss_Scale pre ∧ ss_Desired s = ss_Desired pre ∧
  discoveryWithoutVIP (ss_Discovery s) = discoveryWithoutVIP (ss_Discovery pre) ∧
  sm_OwnedBy (metadata s) = sm_OwnedBy (metadata pre) ∧
  sm_DeletionTimestamp (metadata s) = if pruned then None else sm_DeletionTimestamp (metadata cur).
Proof.
  unfold revertMutate. destruct (carryServerState cur pre) as [n|] eqn:Hc; [|done]. intros <-%Ok_inj.
  destruct (carry_fields _ _ _ Hc) as (H1 & H2 & H3 & H4 & H5 & H6).
  destruct pruned; cbn [ss_Template ss_Scale ss_Desired ss_Discovery with_ss_Discovery with_ss_Metadata]; rewrite restoreDiscovery_hash;
    repeat (split; [done|]); done.
Qed.

(** Its counters. *)
Lemma revert_spec pre pruned cur s :
  revertMutate pre pruned cur = Ok s → wf_generations cur → wf_generations s ∧
  sm_Generation (metadata cur) ≤ sm_Generation (metadata s) ∧
  (same_template cur pre = false → sm_Generation (metadata cur) < sm_Generation (metadata s)) ∧
  sm_TemplateGeneration (metadata s) =
    (if same_template cur pre then sm_TemplateGeneration (metadata cur) else sm_Generation (metadata s)).
Proof.
  unfold revertMutate. destruct (carryServerState cur pre) as [n|] eqn:Hc; [|done]. intros Hs%Ok_inj Hw.
  destruct (carry_fields _ _ _ Hc) as (H1 & _). destruct (carry_spec _ _ _ Hc Hw) as (H7 & H8 & H9).
  assert (same_template cur pre = false → same_hash cur n = false) as Himp.
  { unfold same_hash, same_template. rewrite H1. intros ->. done. }
  assert (sm_Generation (metadata s) = sm_Generation (metadata n) ∧ sm_TemplateGeneration (metadata s) = sm_TemplateGeneration (metadata n))
    as (Mg & Mt) by (rewrite <- Hs; by destruct pruned).
  unfold wf_generations in *. rewrite Mg, Mt, H9. split; [by rewrite <- H9|].
  split; [rewrite H8; destruct (same_hash cur n); lia|]. split; [|done]. intros Hst. rewrite H8, (Himp Hst). lia.
Qed.
End Props.

(** ** Claims *)

(** A cast over a stored service and its revert never move a counter
    backwards.  If the cast changed the template, its instances carry a
    generation below the reverted template's, so they are rolled back; if it did
    not, no instance is replaced by either.  The reverted spec is the one before
    the cast. *)
Theorem revert_moves_forward {T DS} `{EqDecision T, EqDecision DS} (s0 payload s1 s2 : StoredService T DS)
    (Hwf : wf_generations s0) (Happly : applyMutate payload s0 = Ok s1) (Hrevert : revertMutate s0 false s1 = Ok s2) :
  ss_Template s2 = ss_Template s0 ∧ ss_Scale s2 = ss_Scale s0 ∧ ss_Desired s2 = ss_Desired s0 ∧
  discoveryWithoutVIP (ss_Discovery s2) = discoveryWithoutVIP (ss_Discovery s0) ∧
  sm_Generation (metadata s0) ≤ sm_Generation (metadata s1) ≤ sm_Generation (metadata s2) ≤ int64_max ∧
  if same_template s0 payload
  then sm_TemplateGeneration (metadata s1) = sm_TemplateGeneration (metadata s0) ∧
       sm_TemplateGeneration (metadata s2) = sm_TemplateGeneration (metadata s0)
  else sm_TemplateGeneration (metadata s0) < sm_TemplateGeneration (metadata s1) < sm_TemplateGeneration (metadata s2).
Proof.
  unfold applyMutate in Happly. destruct (sm_DeletionTimestamp (metadata s0)); [done|].
  destruct (carry_fields _ _ _ Happly) as (H1 & _). destruct (carry_spec _ _ _ Happly Hwf) as (H7 & H8 & H9).
  destruct (revert_fields _ _ _ _ Hrevert) as (R1 & R2 & R3 & R4 & _).
  destruct (revert_spec _ _ _ _ Hrevert H7) as (R6 & R7 & R8 & R9).
  assert (same_template s1 s0 = same_template s0 payload) as Hsym.
  { unfold same_template. rewrite H1. apply bool_decide_ext. split; congruence. }
  assert (same_template s0 payload = false → same_hash s0 s1 = false) as Himp.
  { unfold same_hash, same_template. rewrite H1. intros ->. done. }
  rewrite Hsym in *. repeat (split; [done|]). destruct Hwf as [Hwf Ht], R6 as [Hi2 _].
  unfold in_int64 in *. split; [destruct (same_hash s0 s1); lia|].
  destruct (same_template s0 payload); [by rewrite R9, H9|]. specialize (R8 eq_refl).
  rewrite (Himp eq_refl) in H8. rewrite R9, H9. lia.
Qed.

Definition demo_stored (tmpl gen : Z) : StoredService Z unit :=
  mkStoredService "svc-1" tmpl 2 tt None None [] ServiceStatusRunning "" "" None
    (Some (mkStoredMetadata gen gen gen 2 None [] None)).

Lemma revert_moves_forward_witness :
  ∃ s1 s2, applyMutate (demo_stored 8 99) (demo_stored 7 3) = Ok s1 ∧ revertMutate (demo_stored 7 3) false s1 = Ok s2 ∧
    sm_TemplateGeneration (metadata s1) < sm_TemplateGeneration (metadata s2).
Proof.
  do 2 eexists. split; [vm_compute; reflexivity|]. split; [vm_compute; reflexivity|].
  edestruct (revert_moves_forward (demo_stored 7 3) (demo_stored 8 99)) as (_ & _ & _ & _ & _ & Ht);
    [|vm_compute; reflexivity|vm_compute; reflexivity|exact (proj2 Ht)].
  split; [by vm_compute|done].
Defined.

(** Nothing a payload says about the fields the server owns reaches the
    store: two payloads with the same spec leave the same record, whether the
    service is updated or created. *)
Theorem cast_cannot_forge {T DS} `{EqDecision T, EqDecision DS} (p q stored : StoredService T DS) (uuid : string)
    (Hspec : spec_of p = spec_of q) (Hid : ss_ID stored ≠ "") :
  applyMutate p stored = applyMutate q stored ∧
  seedMetadata (sanitizeServerFields uuid p) = seedMetadata (sanitizeServerFields uuid q).
Proof.
  unfold spec_of in Hspec. injection Hspec as H1 H2 H3 H4 H5.
  assert (MergeServiceDiscovery (ss_Discovery stored) (ss_Discovery p) = MergeServiceDiscovery (ss_Discovery stored) (ss_Discovery q)) as Hm.
  { destruct (ss_Discovery p) as [[]|], (ss_Discovery q) as [[]|]; cbn in H4; simplify_eq; done. }
  split.
  - unfold applyMutate, carryServerState. destruct (sm_DeletionTimestamp _); [done|]. destruct (bool_decide (_ = int64_max)); [done|].
    rewrite bool_decide_false by done. cbn. unfold same_hash, same_template, resetObservedState. cbn.
    by rewrite H1, H2, H3, H5, Hm.
  - unfold sanitizeServerFields. rewrite H1, H2, H3, H5. do 2 f_equal.
    destruct (ss_Discovery p) as [[]|], (ss_Discovery q) as [[]|]; cbn in H4; simplify_eq; done.
Qed.

Lemma cast_cannot_forge_witness :
  applyMutate (demo_stored 8 99) (demo_stored 7 3) =
  applyMutate (mkStoredService "forged" 8 2 tt None (Some "cert") ["i"] ServiceStatusRunning "x" "y" None None) (demo_stored 7 3).
Proof. apply (cast_cannot_forge (T:=Z) (DS:=unit) _ _ (demo_stored 7 3) "u"); by vm_compute. Defined.

(** A cast that only adds discovery settings is reverted without moving the
    generation, although the reverted spec differs from the cast's: the carry
    compares against the settings the revert is about to remove. *)
Theorem revert_discovery_unseen {T DS} `{EqDecision T, EqDecision DS} (s0 payload s1 s2 : StoredService T DS)
    (Hwf : wf_generations s0) (Hnone : ss_Discovery s0 = None)
    (Hadds : discoveryWithoutVIP (ss_Discovery payload) ≠ None)
    (Honly : ss_Template payload = ss_Template s0 ∧ ss_Scale payload = ss_Scale s0 ∧ ss_Desired payload = ss_Desired s0)
    (Happly : applyMutate payload s0 = Ok s1) (Hrevert : revertMutate s0 false s1 = Ok s2) :
  same_hash s1 s2 = false ∧ sm_Generation (metadata s2) = sm_Generation (metadata s1).
Proof.
  unfold applyMutate in Happly. destruct (sm_DeletionTimestamp (metadata s0)); [done|].
  destruct (carry_fields _ _ _ Happly) as (H1 & H2 & H3 & H4 & _). destruct (carry_spec _ _ _ Happly Hwf) as (H7 & _).
  destruct Honly as (O1 & O2 & O3). rewrite Hnone in H4.
  destruct (merge_adds _ Hadds) as [Hmerge Hd1]. rewrite <- H4 in Hmerge, Hd1.
  unfold revertMutate in Hrevert. destruct (carryServerState s1 s0) as [n|] eqn:Hc; [|done]. apply Ok_inj in Hrevert as <-.
  destruct (carry_fields _ _ _ Hc) as (C1 & C2 & C3 & C4 & _). destruct (carry_spec _ _ _ Hc H7) as (_ & C8 & _). rewrite Hnone in *.
  split.
  - unfold same_hash. cbn [ss_Discovery with_ss_Discovery]. apply andb_false_iff. right. apply bool_decide_eq_false.
    rewrite restoreDiscovery_hash. done.
  - change (sm_Generation (metadata n) = sm_Generation (metadata s1)). rewrite C8. assert (same_hash s1 n = true) as ->; [|lia]. unfold same_hash, same_template.
    rewrite C1, C2, C3, C4, Hmerge, H1, H2, H3, O1, O2, O3. by rewrite !bool_decide_true by done.
Qed.

Lemma revert_discovery_unseen_witness :
  let p := with_ss_Discovery (demo_stored 7 3) (Some (mkServiceDiscovery "headless" "" "")) in
  ∃ s1 s2, applyMutate p (demo_stored 7 3) = Ok s1 ∧ revertMutate (demo_stored 7 3) false s1 = Ok s2 ∧
    same_hash s1 s2 = false ∧ sm_Generation (metadata s2) = sm_Generation (metadata s1).
Proof.
  intros p. do 2 eexists. split; [vm_compute; reflexivity|]. split; [vm_compute; reflexivity|].
  eapply (revert_discovery_unseen (demo_stored 7 3) p); [|done|by vm_compute|done|vm_compute; reflexivity|vm_compute; reflexivity].
  split; [by vm_compute|done].
Defined.

(** ** The applier keeps its contract

    With reads that succeed, whatever the writes do, a cast's applier can undo
    itself: the [Revertible] contract of atomic casts.  With a read that fails
    it cannot. *)

Section Contract.
Context {T DS : Type} `{EqDecision T, EqDecision DS} (env : cast_env T DS).
Implicit Types (s base : cluster T DS) (r : row T DS) (ref : OwnerRef) (key : string).

#[global] Instance cluster_records : ReleaseRecords (cluster T DS) := {
  recs_Get ns n st := Ok (recordGet ns n st);
  recs_Save := recordSave;
}.
#[global] Instance cluster_live : LiveLookup (cluster T DS) := { Lookup ref st := Ok (liveState ref st) }.
#[local] Instance cluster_applier : Applier (cluster T DS) := {
  Apply := applierApply env;
  Prune := applierPrune env;
  Verify := applierVerify;
  Revert := applierRevert env;
}.

(** ** What a resource is, for its operator *)

Inductive shape :=
| ShService (spec : T * Z * DS * option ServiceDiscovery * option OwnedBy)
| ShSecret (data : gmap string string) (o : option OwnedBy)
| ShConfigmap (data : gmap string string) (o : option OwnedBy)
| ShVolume (spec params : gmap string string) (handle node claim status : string) (o : option OwnedBy).

(** A service being torn down counts as gone. *)
Definition shape_of r : option shape :=
  if terminating r then None
  else Some (match r with
    | RowService x =>
        ShService (ss_Template x, ss_Scale x, ss_Desired x, discoveryWithoutVIP (ss_Discovery x), sm_OwnedBy (metadata x))
    | RowSecret x => ShSecret (se_Data x) (se_OwnedBy x)
    | RowConfigmap x => ShConfigmap (cm_Data x) (cm_OwnedBy x)
    | RowVolume x =>
        ShVolume (vr_Spec x) (vr_DriverParameters x) (vr_Handle x) (vr_BoundNode x) (vr_BoundClaim x)
          (if bool_decide (vr_Status x = "") then "Pending" else vr_Status x) (vr_OwnedBy x)
    end).

Definition shape_at key s : option shape := cl_rows s !! key ≫= shape_of.
Definition same_shape ref base s : Prop := shape_at (Key ref) base = shape_at (Key ref) s.

(** ** Kinds and keys *)

Definition kname (k : kind) : ResourceType :=
  match k with
  | KService => ResourceTypeService
  | KSecret => ResourceTypeSecret
  | KConfigmap => ResourceTypeConfigmap
  | KVolume => ResourceTypeVolume
  end.

Definition filed key r : Prop := ∃ rest, key = kname (row_kind r) +:+ "/" +:+ rest.

Lemma kind_of_Some rt k : kind_of rt = Some k → rt = kname k.
Proof. unfold kind_of. repeat (case_bool_decide; [intros [= <-]; done|]). done. Qed.

Lemma filed_kind ref k r : kind_of (or_ResourceType ref) = Some k → filed (Key ref) r → row_kind r = k.
Proof.
  intros Hk1%kind_of_Some [rest Hk].
  unfold Key in Hk. rewrite Hk1 in Hk. cbn in Hk. destruct k, (row_kind r); cbn in Hk; done || (exfalso; injection Hk; done).
Qed.

Lemma filed_ref ref k r : kind_of (or_ResourceType ref) = Some k → row_kind r = k → filed (Key ref) r.
Proof. intros Hk%kind_of_Some Hr. unfold filed, Key. rewrite Hr, Hk. by eexists. Qed.

(** ** The store's calls *)

Lemma readRow_ok ref s : cl_readFaults s = [] → readRow ref s = (s, cl_rows s !! Key ref).
Proof. destruct s. unfold readRow. cbn. by intros ->. Qed.

(** A step that leaves [p] and [c] under one key, and the rest alone. *)
Definition at_key ref (p : option (preImage T DS)) (c : option (row T DS)) s s' : Prop :=
  cl_readFaults s' = cl_readFaults s ∧ cl_pre s' !! Key ref = p ∧ cl_rows s' !! Key ref = c ∧
  ∀ key, key ≠ Key ref → cl_pre s' !! key = cl_pre s !! key ∧ cl_rows s' !! key = cl_rows s !! key.

Lemma at_key_refl ref s : at_key ref (cl_pre s !! Key ref) (cl_rows s !! Key ref) s s.
Proof. by repeat split. Qed.

Lemma at_key_trans ref p c p' c' s s1 s2 : at_key ref p c s s1 → at_key ref p' c' s1 s2 → at_key ref p' c' s s2.
Proof.
  intros (H1 & _ & _ & H4) (G1 & G2 & G3 & G4). repeat split; [congruence|done|done|..];
    destruct (H4 _ H), (G4 _ H); congruence.
Qed.

Lemma at_key_write ref ex new s s' res :
  writeRow ref ex new s = (s', res) →
  (res = Ok tt ∧ at_key ref (cl_pre s !! Key ref) new s s') ∨
  ((∃ e, res = Err e) ∧ at_key ref (cl_pre s !! Key ref) (cl_rows s !! Key ref) s s').
Proof.
  unfold writeRow. destruct (hd false (cl_writeFaults s)); [|destruct (negb _)]; intros [= <- <-]; cbn.
  - right. split; [by eexists|by repeat split].
  - right. split; [by eexists|by repeat split].
  - left. split; [done|]. repeat split; cbn; [by rewrite lookup_partial_alter_eq|]. by rewrite lookup_partial_alter_ne.
Qed.

Definition captured (p : option (preImage T DS)) (pi : preImage T DS) : option (preImage T DS) :=
  match p with Some x => Some x | None => Some pi end.

Lemma at_key_capture ref pi s : at_key ref (captured (cl_pre s !! Key ref) pi) (cl_rows s !! Key ref) s (capture ref pi s).
Proof.
  unfold capture. destruct (cl_pre s !! Key ref) as [x|] eqn:Hp; [by repeat split|]. repeat split; cbn; [by rewrite lookup_insert_eq|].
  by rewrite lookup_insert_ne.
Qed.

Definition noted (gen tmpl : Z) (pi : preImage T DS) : preImage T DS :=
  mkPreImage (pi_Row pi) (Z.max (pi_AppliedGeneration pi) gen) (Z.max (pi_AppliedTemplateGeneration pi) tmpl) (pi_Pruned pi).
Definition pruned_mark (pi : preImage T DS) : preImage T DS :=
  mkPreImage (pi_Row pi) (pi_AppliedGeneration pi) (pi_AppliedTemplateGeneration pi) true.

Lemma at_key_note ref gen tmpl s :
  at_key ref (noted gen tmpl <$> cl_pre s !! Key ref) (cl_rows s !! Key ref) s (noteApplied ref gen tmpl s).
Proof.
  unfold noteApplied. destruct (cl_pre s !! Key ref) as [x|] eqn:Hp; [|by repeat split]. repeat split; cbn; [by rewrite lookup_insert_eq|].
  by rewrite lookup_insert_ne.
Qed.

Lemma at_key_mark ref s : at_key ref (pruned_mark <$> cl_pre s !! Key ref) (cl_rows s !! Key ref) s (markPruned ref s).
Proof.
  unfold markPruned. destruct (cl_pre s !! Key ref) as [x|] eqn:Hp; [|by repeat split]. repeat split; cbn; [by rewrite lookup_insert_eq|].
  by rewrite lookup_insert_ne.
Qed.

(** ** The invariant *)

(** One key: its row before the cast, its pre-image, its row now. *)
Definition local_ok (b : option (row T DS)) (p : option (preImage T DS)) (c : option (row T DS)) : Prop :=
  match p with
  | None => (b ≫= shape_of) = (c ≫= shape_of)
  | Some pi =>
      (pi_Row pi ≫= shape_of) = (b ≫= shape_of) ∧
      ∀ x, pi_Row pi = Some (RowService x) →
        (pi_Pruned pi = true → terminating (RowService x) = false) ∧
        ∃ y, c = Some (RowService y) ∧
          (pi_Pruned pi = false → terminating (RowService y) = terminating (RowService x))
  end.

Definition filed_at key (p : option (preImage T DS)) (c : option (row T DS)) : Prop :=
  (∀ r, c = Some r → filed key r) ∧ (∀ pi r, p = Some pi → pi_Row pi = Some r → filed key r).

(** The resources among those touched that the applier materializes. *)
Definition material (L : list OwnerRef) : list OwnerRef :=
  List.filter (λ o, bool_decide (is_Some (kind_of (or_ResourceType o)))) L.

Record undo_inv base (touched : list OwnerRef) s : Prop := {
  ui_reads : cl_readFaults s = [];
  ui_filed : ∀ key, filed_at key (cl_pre s !! key) (cl_rows s !! key);
  ui_local : ∀ key, local_ok (cl_rows base !! key) (cl_pre s !! key) (cl_rows s !! key);
  ui_same : ∀ ref, Key ref ∉ Key <$> material touched → same_shape ref base s;
}.

Lemma inv_at base L L' ref p c s s' :
  undo_inv base L s → at_key ref p c s s' → filed_at (Key ref) p c → local_ok (cl_rows base !! Key ref) p c →
  (∀ ref', Key ref' ∉ Key <$> material L' → Key ref' ≠ Key ref → Key ref' ∉ Key <$> material L) →
  (Key ref ∉ Key <$> material L' → shape_at (Key ref) base = (c ≫= shape_of)) → undo_inv base L' s'.
Proof.
  intros [Hr Hf Hl Hs] (A1 & A2 & A3 & A4) Hfile Hloc Hsub Hself. split.
  - congruence.
  - intros key. destruct (decide (key = Key ref)) as [->|Hne]; [by rewrite A2, A3|]. destruct (A4 key Hne) as [-> ->]. apply Hf.
  - intros key. destruct (decide (key = Key ref)) as [->|Hne]; [by rewrite A2, A3|]. destruct (A4 key Hne) as [-> ->]. apply Hl.
  - intros ref' Hn. unfold same_shape, shape_at. destruct (decide (Key ref' = Key ref)) as [He|Hne].
    + rewrite He in *. rewrite A3. by apply Hself.
    + destruct (A4 _ Hne) as [_ ->]. apply Hs. by apply Hsub.
Qed.

(** A call that touches its resource and keeps the pre-images right. *)
Lemma inv_touch base L ref p c s s' :
  is_Some (kind_of (or_ResourceType ref)) →
  undo_inv base L s → at_key ref p c s s' → filed_at (Key ref) p c → local_ok (cl_rows base !! Key ref) p c →
  undo_inv base (ref :: L) s'.
Proof.
  intros Hk Hu Ha Hf Hl. eapply inv_at; [done..| |].
  - intros ref' Hn _. unfold material in Hn. cbn in Hn. rewrite bool_decide_true in Hn by done. set_solver.
  - unfold material. cbn. rewrite bool_decide_true by done. set_solver.
Qed.

(** A revert that put its resource back. *)
Lemma inv_restore base L ref p c s s' :
  undo_inv base L s → at_key ref p c s s' → filed_at (Key ref) p c → local_ok (cl_rows base !! Key ref) p c →
  shape_at (Key ref) base = (c ≫= shape_of) → undo_inv base (removed ref L) s'.
Proof.
  intros Hu Ha Hf Hl Hsh. eapply inv_at; [done..| |done].
  intros ref' Hn Hne Hin. apply Hn. apply list_elem_of_fmap in Hin as (x & Hx & Hin).
  apply list_elem_of_fmap. exists x. split; [done|]. unfold material, removed in *. rewrite !elem_of_filterb in *.
  destruct Hin as [Hm Hin]. split; [done|]. split; [|done]. apply negb_true_iff, bool_decide_eq_false. congruence.
Qed.

(** ** Rows *)

Lemma terminating_eq (x y : StoredService T DS) :
  sm_DeletionTimestamp (metadata x) = sm_DeletionTimestamp (metadata y) →
  terminating (RowService x) = terminating (RowService y).
Proof. unfold terminating. by intros ->. Qed.

Lemma applyMutate_live payload (stored next : StoredService T DS) :
  applyMutate payload stored = Ok next →
  terminating (RowService stored) = false ∧ terminating (RowService next) = false.
Proof.
  unfold applyMutate. destruct (sm_DeletionTimestamp (metadata stored)) eqn:Hd; [done|].
  intros (_ & _ & _ & _ & Ht & _)%carry_fields. unfold terminating. by rewrite Ht, Hd.
Qed.

Lemma updateRow_shape payload c r :
  updateRow payload c = Ok r → row_kind payload ≠ KService → shape_of r = shape_of payload ∧ row_kind r = row_kind payload.
Proof.
  destruct payload, c; cbn; try done; try (by intros <-%Ok_inj).
  unfold volumeUpdate. destruct (negb _); [done|]. by intros <-%Ok_inj.
Qed.

Lemma createRow_shape uuid r : row_kind r ≠ KService → shape_of (createRow uuid r) = shape_of r ∧ row_kind (createRow uuid r) = row_kind r.
Proof.
  destruct r as [x|x|x|x]; cbn; [done..|]. intros _. split; [|done]. unfold shape_of. cbn.
  by destruct (bool_decide_reflect (vr_Status x = "")) as [He|He]; [|rewrite bool_decide_false].
Qed.

Lemma tombstone_gone now fins (x : StoredService T DS) : shape_of (RowService (tombstone now fins x)) = None.
Proof.
  unfold shape_of, tombstone. destruct (sm_DeletionTimestamp (metadata x)) eqn:Hd; cbn; [by rewrite Hd|done].
Qed.

(** A service row left by a revert is the pre-image again. *)
Lemma revert_shape (pre cur next : StoredService T DS) (pruned : bool) :
  revertMutate pre pruned cur = Ok next →
  (pruned = true → terminating (RowService pre) = false) →
  (pruned = false → terminating (RowService cur) = terminating (RowService pre)) →
  shape_of (RowService next) = shape_of (RowService pre).
Proof.
  intros (H1 & H2 & H3 & H4 & H5 & H6)%revert_fields Hp Hn.
  assert (terminating (RowService next) = terminating (RowService pre)) as Ht.
  { destruct pruned; [rewrite (Hp eq_refl); unfold terminating; by rewrite H6|].
    rewrite <- (Hn eq_refl). by apply terminating_eq. }
  unfold shape_of. rewrite Ht. by rewrite H1, H2, H3, H4, H5.
Qed.

(** ** Local steps *)

(** Capturing what is there, before it changes. *)
Lemma local_capture b p c c' :
  local_ok b p c → (∀ x, c = Some (RowService x) → ∃ y, c' = Some (RowService y) ∧ terminating (RowService y) = terminating (RowService x)) →
  local_ok b (captured p (mkPreImage c 0 0 false)) c'.
Proof.
  destruct p as [pi|]; cbn.
  - intros [Hs Hx] Hc. split; [done|]. intros x Hr. destruct (Hx x Hr) as (Hp & y & -> & Ht). split; [done|].
    destruct (Hc y eq_refl) as (y' & -> & Ht'). exists y'. split; [done|]. intros Hf. by rewrite Ht', Ht.
  - intros Hs Hc. split; [done|]. intros x Hr. split; [done|]. destruct (Hc x Hr) as (y & -> & Ht). by exists y.
Qed.

Lemma local_noted b gen tmpl p c : local_ok b p c → local_ok b (noted gen tmpl <$> p) c.
Proof. by destruct p. Qed.

Lemma filed_captured key p c c' pi :
  filed_at key p c → (∀ r, c' = Some r → filed key r) → (∀ r, pi_Row pi = Some r → filed key r) → filed_at key (captured p pi) c'.
Proof. intros [Hc Hp] Hc' Hpi. split; [done|]. intros pi' r. destruct p as [x|]; cbn; intros [= <-]; [by apply Hp|apply Hpi]. Qed.

Lemma filed_noted key gen tmpl p c : filed_at key p c → filed_at key (noted gen tmpl <$> p) c.
Proof. intros [Hc Hp]. split; [done|]. intros pi r. destruct p as [x|]; [|done]. intros [= <-]. by apply (Hp x). Qed.

Lemma filed_marked key p c : filed_at key p c → filed_at key (pruned_mark <$> p) c.
Proof. intros [Hc Hp]. split; [done|]. intros pi r. destruct p as [x|]; [|done]. intros [= <-]. by apply (Hp x). Qed.

Lemma getRow_ok k ref s :
  cl_readFaults s = [] → (∀ r, cl_rows s !! Key ref = Some r → filed (Key ref) r) →
  kind_of (or_ResourceType ref) = Some k → getRow k ref s = (s, cl_rows s !! Key ref).
Proof.
  intros Hr Hf Hk. unfold getRow. rewrite readRow_ok by done. destruct (cl_rows s !! Key ref) as [r|]; [|done].
  rewrite bool_decide_true; [done|]. by apply (filed_kind ref k r Hk), Hf.
Qed.

(** ** Calls *)

Lemma inv_keep base L ref s : undo_inv base L s → undo_inv base (ref :: L) s.
Proof.
  intros [Hr Hf Hl Hs]. split; [done..|]. intros ref' Hn. apply Hs. revert Hn. unfold material. cbn.
  destruct (bool_decide _); set_solver.
Qed.

Lemma applyService_inv base L ref svc s :
  kind_of (or_ResourceType ref) = Some KService → undo_inv base L s →
  undo_inv base (ref :: L) (applyService env ref svc s).1.
Proof.
  intros Hk Hu. pose proof Hu as [Hr Hf Hl _]. specialize (Hf (Key ref)). specialize (Hl (Key ref)).
  unfold applyService. rewrite Hr, readRow_ok by done. cbn [hd].
  destruct (cl_rows s !! Key ref) as [c|] eqn:Hc.
  - pose proof (filed_kind ref KService c Hk (proj1 Hf c eq_refl)) as Hkc. destruct c as [stored| | |]; try done.
    destruct (applyMutate svc stored) as [next|] eqn:Ha; [|by apply inv_keep].
    destruct (applyMutate_live _ _ _ Ha) as [Hst Hnt].
    destruct (writeRow ref true (Some (RowService next)) s) as [s2 res] eqn:Hw.
    destruct (at_key_write _ _ _ _ _ _ Hw) as [[-> Hat]|[[e ->] Hat]]; cbn [fst].
    + pose proof (at_key_trans _ _ _ _ _ _ _ _ Hat (at_key_capture ref (existed (RowService stored)) s2)) as Hat2.
      pose proof (at_key_trans _ _ _ _ _ _ _ _ Hat2 (at_key_note ref (sm_Generation (metadata next))
        (sm_TemplateGeneration (metadata next)) _)) as Hat3.
      destruct Hat as (_ & Hp2 & Hr2 & _), Hat2 as (_ & Hp3 & Hr3 & _). rewrite Hp3, Hr3, Hp2, Hr2 in Hat3.
      eapply inv_touch; [by eexists|exact Hu|exact Hat3| |].
      * apply filed_noted. eapply filed_captured; [exact Hf|..]; intros r [= <-]; by apply (filed_ref ref KService).
      * apply local_noted, (local_capture _ _ (Some (RowService stored))); [done|]. intros x [= <-]. exists next. by rewrite Hst, Hnt.
    + eapply inv_touch; [by eexists|exact Hu|exact Hat|by rewrite Hc|by rewrite Hc].
  - destruct (writeRow ref false _ (capture ref absent s)) as [s2 res] eqn:Hw. cbn [fst].
    pose proof (at_key_capture ref absent s) as Hat0.
    destruct (at_key_write _ _ _ _ _ _ Hw) as [[-> Hat]|[[e ->] Hat]];
      pose proof (at_key_trans _ _ _ _ _ _ _ _ Hat0 Hat) as Hat2; destruct Hat0 as (_ & Hp & Hr0 & _); rewrite Hp in Hat2.
    + eapply inv_touch; [by eexists|exact Hu|exact Hat2| |].
      * eapply filed_captured; [exact Hf| |done]. intros r [= <-]. by apply (filed_ref ref KService).
      * by apply (local_capture _ _ None).
    + rewrite Hr0, Hc in Hat2. eapply inv_touch; [by eexists|exact Hu|exact Hat2|by eapply filed_captured; [exact Hf|..]|].
      by apply (local_capture _ _ None).
Qed.

(** A repository update of a captured row. *)
Lemma repoUpdate_cases ref f s s' res :
  cl_readFaults s = [] → repoUpdate ref f s = (s', res) →
  (∃ c r, cl_rows s !! Key ref = Some c ∧ f c = Ok r ∧ res = Ok tt ∧ at_key ref (cl_pre s !! Key ref) (Some r) s s') ∨
  ((∃ e, res = Err e) ∧ at_key ref (cl_pre s !! Key ref) (cl_rows s !! Key ref) s s').
Proof.
  intros Hr. unfold repoUpdate. rewrite readRow_ok by done. destruct (cl_rows s !! Key ref) as [c|] eqn:Hc.
  - destruct (f c) as [r|e] eqn:Hf.
    + intros Hw. destruct (at_key_write _ _ _ _ _ _ Hw) as [[-> Hat]|[[e ->] Hat]]; [left; eauto 10|right].
      rewrite Hc in Hat. eauto.
    + intros [= <- <-]. right. split; [eauto|]. rewrite <- Hc. apply at_key_refl.
  - intros [= <- <-]. right. split; [eauto|]. rewrite <- Hc. apply at_key_refl.
Qed.

Lemma applyRow_inv base L ref k payload s :
  kind_of (or_ResourceType ref) = Some k → k ≠ KService → row_kind payload = k → undo_inv base L s →
  undo_inv base (ref :: L) (applyRow env k ref payload s).1.
Proof.
  intros Hk Hne Hpk Hu. pose proof Hu as [Hr Hf Hl _]. specialize (Hf (Key ref)). specialize (Hl (Key ref)).
  unfold applyRow. rewrite getRow_ok by (done || apply Hf). destruct (cl_rows s !! Key ref) as [c|] eqn:Hc.
  - pose proof (filed_kind ref k c Hk (proj1 Hf c eq_refl)) as Hkc. pose proof (at_key_capture ref (existed c) s) as Hat0.
    destruct (repoUpdate ref (updateRow payload) (capture ref (existed c) s)) as [s2 res] eqn:Hrep. cbn [fst].
    assert (cl_readFaults (capture ref (existed c) s) = []) as Hr' by (destruct Hat0; congruence).
    destruct (repoUpdate_cases _ _ _ _ _ Hr' Hrep) as [(c0 & r & _ & Hup & _ & Hat)|[_ Hat]];
      pose proof (at_key_trans _ _ _ _ _ _ _ _ Hat0 Hat) as Hat2; destruct Hat0 as (_ & Hp & Hr0 & _); rewrite Hp in Hat2.
    + apply updateRow_shape in Hup as [_ Hrk]; [|congruence]. eapply inv_touch; [by eexists|exact Hu|exact Hat2| |].
      * eapply filed_captured; [exact Hf|..]; intros r' [= <-]; apply (filed_ref ref k); congruence.
      * apply (local_capture _ _ (Some c)); [done|]. intros x [= ->]. by destruct Hne.
    + rewrite Hr0, Hc in Hat2. eapply inv_touch; [by eexists|exact Hu|exact Hat2| |].
      * eapply filed_captured; [exact Hf|..]; intros r' [= <-]; by apply (filed_ref ref k).
      * apply (local_capture _ _ (Some c)); [done|]. intros x [= ->]. by destruct Hne.
  - destruct (writeRow ref false _ (capture ref absent s)) as [s2 res] eqn:Hw. cbn [fst].
    pose proof (at_key_capture ref absent s) as Hat0.
    destruct (at_key_write _ _ _ _ _ _ Hw) as [[-> Hat]|[[e ->] Hat]];
      pose proof (at_key_trans _ _ _ _ _ _ _ _ Hat0 Hat) as Hat2; destruct Hat0 as (_ & Hp & Hr0 & _); rewrite Hp in Hat2.
    + destruct (createRow_shape (ce_uuid env) payload) as [_ Hck]; [congruence|].
      eapply inv_touch; [by eexists|exact Hu|exact Hat2| |by apply (local_capture _ _ None)].
      eapply filed_captured; [exact Hf| |done]. intros r [= <-]. apply (filed_ref ref k); congruence.
    + rewrite Hr0, Hc in Hat2. eapply inv_touch; [by eexists|exact Hu|exact Hat2|by eapply filed_captured; [exact Hf|..]|].
      by apply (local_capture _ _ None).
Qed.

Lemma apply_inv base L s c : undo_inv base L s → undo_inv base (pc_Ref c :: L) (applierApply env c s).1.
Proof.
  intros Hu. unfold applierApply. destruct (kind_of _) as [k|] eqn:Hk; [|by apply inv_keep].
  destruct (ce_payloads env !! Key (pc_Ref c)) as [payload|]; [|by apply inv_keep].
  destruct (bool_decide_reflect (row_kind payload = k)) as [<-|]; cbn [negb]; [|by apply inv_keep].
  destruct payload as [x|x|x|x]; cbn [stampRow row_kind] in *; [by apply applyService_inv|by apply applyRow_inv..].
Qed.

Lemma capturePreDelete_at k ref s :
  cl_readFaults s = [] → (∀ r, cl_rows s !! Key ref = Some r → filed (Key ref) r) →
  kind_of (or_ResourceType ref) = Some k →
  at_key ref (captured (cl_pre s !! Key ref) (mkPreImage (cl_rows s !! Key ref) 0 0 false)) (cl_rows s !! Key ref)
    s (capturePreDelete k ref s).
Proof.
  intros Hr Hf Hk. unfold capturePreDelete. rewrite getRow_ok by done.
  destruct (cl_rows s !! Key ref) as [c|] eqn:Hc; rewrite <- Hc; [rewrite Hc at 1|rewrite Hc at 1]; apply at_key_capture.
Qed.

Lemma deleteService_cases ref s s' res :
  cl_readFaults s = [] → deleteService env ref s = (s', res) →
  match cl_rows s !! Key ref with
  | Some (RowService x) =>
      if terminating (RowService x) then res = Ok tt ∧ s' = s
      else (res = Ok tt ∧ at_key ref (cl_pre s !! Key ref) (Some (RowService (tombstone (ce_now env) (ce_finalizers env) x))) s s')
           ∨ (∃ e, res = Err e) ∧ at_key ref (cl_pre s !! Key ref) (cl_rows s !! Key ref) s s'
  | _ => (∃ e, res = Err e) ∧ s' = s
  end.
Proof.
  intros Hr. unfold deleteService. rewrite readRow_ok by done. destruct (cl_rows s !! Key ref) as [[x|x|x|x]|] eqn:Hc;
    try (intros [= <- <-]; by eauto).
  destruct (terminating (RowService x)); [by intros [= <- <-]|]. intros Hw.
  destruct (at_key_write _ _ _ _ _ _ Hw) as [[-> Hat]|[[e ->] Hat]]; [by left|right]. rewrite Hc in Hat. eauto.
Qed.

Lemma pruneService_inv base L ref s :
  kind_of (or_ResourceType ref) = Some KService → undo_inv base L s → undo_inv base (ref :: L) (applierPrune env ref s).1.
Proof.
  intros Hk Hu. pose proof Hu as [Hr Hf Hl _]. specialize (Hf (Key ref)). specialize (Hl (Key ref)).
  unfold applierPrune. rewrite Hk. pose proof (capturePreDelete_at KService ref s Hr (proj1 Hf) Hk) as Hat0.
  set (s1 := capturePreDelete KService ref s) in *. set (p1 := captured _ _) in *.
  assert (filed_at (Key ref) p1 (cl_rows s !! Key ref)) as Hf1 by (eapply filed_captured; [exact Hf|apply Hf|apply Hf]).
  assert (local_ok (cl_rows base !! Key ref) p1 (cl_rows s !! Key ref)) as Hl1.
  { apply (local_capture _ _ (cl_rows s !! Key ref)); [done|]. intros x Hx. by exists x. }
  destruct (deleteService env ref s1) as [s2 res] eqn:Hd. pose proof Hat0 as (Hr1 & Hp1 & Hc1 & _). rewrite Hr in Hr1.
  pose proof (deleteService_cases ref s1 s2 res Hr1 Hd) as Hcases. rewrite Hc1, Hp1 in Hcases.
  destruct (cl_rows s !! Key ref) as [[x|x|x|x]|] eqn:Hc;
    try (destruct Hcases as [[e ->] ->]; cbn [fst]; eapply inv_touch; [by eexists|done..]).
  rewrite Hp1. set (already := match p1 with Some pi => _ | None => _ end).
  assert (∃ pi, p1 = Some pi) as [pi Hpi] by (subst p1; unfold captured; destruct (cl_pre s !! Key ref); eauto).
  (* the teardown is marked as the cast's own only when the pre-image was live *)
  assert (∀ s3 y, at_key ref p1 (Some (RowService y)) s s3 →
    (already = true → terminating (RowService y) = terminating (RowService x)) →
    undo_inv base (ref :: L) (if already then s3 else markPruned ref s3)) as Hdone.
  { intros s3 y Hat Hy. destruct already eqn:Hal.
    - eapply inv_touch; [by eexists|exact Hu|exact Hat|split; [intros r [= <-]; by apply (filed_ref ref KService)|apply Hf1]|].
      rewrite Hpi in Hl1 |- *. destruct Hl1 as [Hs Hx]. split; [done|]. intros z Hz.
      destruct (Hx z Hz) as (Hp & y0 & [= <-] & Ht). split; [done|]. exists y. split; [done|]. intros Hpr.
      rewrite Hy by done. by apply Ht.
    - pose proof (at_key_mark ref s3) as Hm. pose proof Hat as (_ & Hp3 & Hc3 & _). rewrite Hp3, Hc3 in Hm.
      eapply inv_touch; [by eexists|exact Hu|exact (at_key_trans _ _ _ _ _ _ _ _ Hat Hm)| |].
      + apply filed_marked. split; [intros r [= <-]; by apply (filed_ref ref KService)|apply Hf1].
      + rewrite Hpi in Hl1 |- *. destruct Hl1 as [Hs Hx]. split; [done|]. intros z Hz.
        split; [|by exists y]. intros _. subst already. change (pi_Row pi = Some (RowService z)) in Hz.
        rewrite Hpi, Hz in Hal. exact Hal. }
  destruct (terminating (RowService x)) eqn:Ht.
  - destruct Hcases as [-> ->]. cbn [fst]. by eapply Hdone; [exact Hat0|].
  - destruct Hcases as [[-> Hat]|[[e ->] Hat]]; cbn [fst].
    + eapply Hdone; [exact (at_key_trans _ _ _ _ _ _ _ _ Hat0 Hat)|]. intros Hal. subst already. rewrite Hpi in Hal, Hl1.
      destruct Hl1 as [_ Hx]. destruct (pi_Row pi) as [r|] eqn:Hrow; [|done]. destruct r as [z|z|z|z]; try done.
      destruct (Hx z eq_refl) as (Hp & y & [= <-] & Htt). destruct (pi_Pruned pi); [by rewrite Hp in Hal|].
      rewrite Htt in Ht by done. congruence.
    + eapply inv_touch; [by eexists|exact Hu|exact (at_key_trans _ _ _ _ _ _ _ _ Hat0 Hat)|done|done].
Qed.

Lemma prune_inv base L s ref : undo_inv base L s → undo_inv base (ref :: L) (applierPrune env ref s).1.
Proof.
  intros Hu. destruct (kind_of (or_ResourceType ref)) as [k|] eqn:Hk;
    [|unfold applierPrune; rewrite Hk; by apply inv_keep].
  destruct (decide (k = KService)) as [->|Hne]; [by apply pruneService_inv|].
  pose proof Hu as [Hr Hf Hl _]. specialize (Hf (Key ref)). specialize (Hl (Key ref)).
  unfold applierPrune. rewrite Hk. pose proof (capturePreDelete_at k ref s Hr (proj1 Hf) Hk) as Hat0.
  set (s1 := capturePreDelete k ref s) in *. set (p1 := captured _ _) in *.
  assert (undo_inv base (ref :: L) (writeRow ref true None s1).1) as Hgoal; [|by destruct k].
  assert (∀ x, cl_rows s !! Key ref ≠ Some (RowService x)) as Hns.
  { intros x Hx. destruct Hne. by rewrite <- (filed_kind ref k (RowService x) Hk (proj1 Hf _ Hx)). }
  destruct (writeRow ref true None s1) as [s2 res] eqn:Hw. pose proof Hat0 as (Hr1 & Hp1 & Hc1 & _). cbn [fst].
  destruct (at_key_write _ _ _ _ _ _ Hw) as [[-> Hat]|[[e ->] Hat]];
    pose proof (at_key_trans _ _ _ _ _ _ _ _ Hat0 Hat) as Hat2; rewrite Hp1 in Hat2.
  - eapply inv_touch; [by eexists|exact Hu|exact Hat2|eapply filed_captured; [exact Hf|done|apply Hf]|].
    apply (local_capture _ _ (cl_rows s !! Key ref)); [done|]. intros x Hx. by destruct (Hns x).
  - rewrite Hc1 in Hat2. eapply inv_touch; [by eexists|exact Hu|exact Hat2|eapply filed_captured; [exact Hf|apply Hf|apply Hf]|].
    apply (local_capture _ _ (cl_rows s !! Key ref)); [done|]. intros x Hx. by exists x.
Qed.

(** A revert that reports success has put its resource back. *)
Lemma revertCreated_inv base L ref k s s' pi :
  undo_inv base L s → kind_of (or_ResourceType ref) = Some k → cl_pre s !! Key ref = Some pi → pi_Row pi = None →
  revertCreated env k ref s = (s', Ok tt) → undo_inv base (removed ref L) s'.
Proof.
  intros Hu Hk Hpi Hrow. pose proof Hu as [Hr Hf Hl _]. specialize (Hf (Key ref)). specialize (Hl (Key ref)).
  rewrite Hpi in Hl. destruct Hl as [Hs _]. rewrite Hrow in Hs. cbn in Hs.
  (* whatever ends up there, there is nothing to see *)
  assert (∀ s2 c, at_key ref (Some pi) c s s2 → (∀ r, c = Some r → filed (Key ref) r) → (c ≫= shape_of) = None →
    undo_inv base (removed ref L) s2) as Hdone.
  { intros s2 c Hat Hfc Hc. eapply inv_restore; [exact Hu|exact Hat| | |].
    - split; [done|]. intros pi' r [= <-]. by rewrite Hrow.
    - split; [by rewrite Hrow|]. intros x. by rewrite Hrow.
    - unfold shape_at. by rewrite Hc. }
  unfold revertCreated. rewrite getRow_ok by (done || apply Hf). destruct (cl_rows s !! Key ref) as [c|] eqn:Hc.
  - destruct (decide (k = KService)) as [->|Hne].
    + intros Hd. pose proof (deleteService_cases ref s s' _ Hr Hd) as Hcases. rewrite Hc, Hpi in Hcases.
      destruct c as [x|x|x|x]; try (by destruct Hcases as [[e [=]] _]).
      destruct (terminating (RowService x)) eqn:Ht.
      * destruct Hcases as [_ ->]. apply (Hdone s (Some (RowService x))); [by rewrite <- Hpi, <- Hc; apply at_key_refl|apply Hf|].
        cbn [mbind option_bind]. unfold shape_of. by rewrite Ht.
      * destruct Hcases as [[_ Hat]|[[e [=]] _]]. eapply Hdone; [exact Hat| |apply tombstone_gone].
        intros r [= <-]. by apply (filed_ref ref KService).
    + intros Hw. assert (writeRow ref true None s = (s', Ok tt)) as Hw' by (destruct k; done).
      destruct (at_key_write _ _ _ _ _ _ Hw') as [[_ Hat]|[[e [=]] _]]. rewrite Hpi in Hat. by eapply Hdone.
  - intros [= <-]. apply (Hdone s None); [by rewrite <- Hpi, <- Hc; apply at_key_refl|done|done].
Qed.

Lemma revertService_inv base L ref s s' pi pre :
  undo_inv base L s → kind_of (or_ResourceType ref) = Some KService → cl_pre s !! Key ref = Some pi →
  pi_Row pi = Some (RowService pre) → revertService env ref pi pre s = (s', Ok tt) → undo_inv base (removed ref L) s'.
Proof.
  intros Hu Hk Hpi Hrow. pose proof Hu as [Hr Hf Hl _]. specialize (Hf (Key ref)). specialize (Hl (Key ref)).
  rewrite Hpi in Hl, Hf. destruct Hl as [Hs Hx]. destruct (Hx pre Hrow) as (Hp & y & Hy & Ht).
  unfold revertService. rewrite Hr, readRow_ok, Hy by done. cbn [hd].
  destruct (revertMutate pre (pi_Pruned pi) y) as [next|] eqn:Hm; [|done]. intros Hw.
  pose proof (revert_shape _ _ _ _ Hm Hp Ht) as Hshape.
  destruct (at_key_write _ _ _ _ _ _ Hw) as [[_ Hat]|[[e [=]] _]]. rewrite Hpi in Hat.
  eapply inv_restore; [exact Hu|exact Hat| | |].
  - split; [|apply Hf]. intros r [= <-]. by apply (filed_ref ref KService).
  - split; [done|]. intros x Hx'. rewrite Hrow in Hx'. injection Hx' as <-. split; [done|]. exists next. split; [done|].
    intros Hn. apply revert_fields in Hm as (_ & _ & _ & _ & _ & Hd). rewrite Hn in Hd. rewrite <- Ht by done.
    by apply terminating_eq.
  - unfold shape_at. rewrite <- Hs, Hrow. cbn [mbind option_bind]. by rewrite Hshape.
Qed.

Lemma revertRow_inv base L ref k s s' pi pre :
  undo_inv base L s → kind_of (or_ResourceType ref) = Some k → k ≠ KService → cl_pre s !! Key ref = Some pi →
  pi_Row pi = Some pre →
  (let '(s1, cur) := getRow k ref s in
   match cur with
   | Some _ => repoUpdate ref (updateRow pre) s1
   | None => writeRow ref false (Some (createRow (ce_uuid env) pre)) s1
   end) = (s', Ok tt) → undo_inv base (removed ref L) s'.
Proof.
  intros Hu Hk Hne Hpi Hrow. pose proof Hu as [Hr Hf Hl _]. specialize (Hf (Key ref)). specialize (Hl (Key ref)).
  rewrite Hpi in Hl, Hf. destruct Hl as [Hs Hx].
  assert (row_kind pre = k) as Hpk by (apply (filed_kind ref k pre Hk); by apply (proj2 Hf pi)).
  assert (∀ s2 r, at_key ref (Some pi) (Some r) s s2 → shape_of r = shape_of pre → row_kind r = row_kind pre →
    undo_inv base (removed ref L) s2) as Hdone.
  { intros s2 r Hat Hsh Hrk. eapply inv_restore; [exact Hu|exact Hat| | |].
    - split; [|apply Hf]. intros r' [= <-]. apply (filed_ref ref k); congruence.
    - split; [done|]. intros x Hx'. rewrite Hrow in Hx'. injection Hx' as ->. by destruct Hne.
    - unfold shape_at. rewrite <- Hs, Hrow. cbn [mbind option_bind]. by rewrite Hsh. }
  rewrite getRow_ok by (done || apply Hf). destruct (cl_rows s !! Key ref) as [c|] eqn:Hc.
  - intros Hrep. destruct (repoUpdate_cases _ _ _ _ _ Hr Hrep) as [(c0 & r & _ & Hup & _ & Hat)|[[e [=]] _]].
    rewrite Hpi in Hat. apply updateRow_shape in Hup as [Hsh Hrk]; [|congruence]. by eapply Hdone.
  - intros Hw. destruct (at_key_write _ _ _ _ _ _ Hw) as [[_ Hat]|[[e [=]] _]]. rewrite Hpi in Hat.
    destruct (createRow_shape (ce_uuid env) pre) as [Hsh Hrk]; [congruence|]. by eapply Hdone.
Qed.

Lemma revert_inv base L s s' ref :
  undo_inv base L s → applierRevert env ref s = (s', Ok tt) → undo_inv base (removed ref L) s'.
Proof.
  intros Hu. pose proof Hu as [Hr Hf Hl Hsame]. unfold applierRevert.
  destruct (kind_of (or_ResourceType ref)) as [k|] eqn:Hk.
  - destruct (cl_pre s !! Key ref) as [pi|] eqn:Hpi.
    + destruct (pi_Row pi) as [pre|] eqn:Hrow; [|by apply revertCreated_inv with (pi := pi)].
      assert (row_kind pre = k) as Hpk.
      { apply (filed_kind ref k pre Hk). destruct (Hf (Key ref)) as [_ Hp]. by apply (Hp pi). }
      destruct pre as [x|x|x|x]; cbn in Hpk; subst k; [by apply revertService_inv|by eapply revertRow_inv..].
    + intros [= <-]. specialize (Hl (Key ref)). rewrite Hpi in Hl.
      eapply inv_restore; [exact Hu|apply at_key_refl|apply Hf|rewrite Hpi; exact Hl|exact Hl].
  - intros Heq. assert (s' = s) as -> by (destruct (cl_pre s !! Key ref); congruence). split; [done..|].
    intros ref' Hn. apply Hsame. intros Hin. apply Hn. apply list_elem_of_fmap in Hin as (x & Hx & Hin).
    apply list_elem_of_fmap. exists x. split; [done|]. unfold material, removed in *. rewrite !elem_of_filterb in *.
    destruct Hin as [Hm Hin]. split; [done|]. split; [|done]. apply negb_true_iff, bool_decide_eq_false. intros ->.
    apply bool_decide_eq_true in Hm as [k Hk']. congruence.
Qed.

(** Only rows, pre-images and pending read faults matter. *)
Lemma inv_ext base L s s' :
  cl_rows s' = cl_rows s → cl_pre s' = cl_pre s → cl_readFaults s' = cl_readFaults s → undo_inv base L s → undo_inv base L s'.
Proof.
  intros H1 H2 H3 [Hr Hf Hl Hs]. split; [congruence|by rewrite H1, H2|by rewrite H1, H2|].
  unfold same_shape, shape_at in *. by rewrite H1.
Qed.

(** ** Uninstalling *)

Definition well_filed s : Prop := cl_readFaults s = [] ∧ ∀ key r, cl_rows s !! key = Some r → filed key r.

(** A prune that succeeds leaves nothing under its key and brings nothing back. *)
Lemma prune_gone ref s s' :
  well_filed s → applierPrune env ref s = (s', Ok tt) →
  well_filed s' ∧ (is_Some (kind_of (or_ResourceType ref)) → shape_at (Key ref) s' = None) ∧
  ∀ key, shape_at key s = None → shape_at key s' = None.
Proof.
  intros [Hr Hf]. unfold applierPrune. destruct (kind_of (or_ResourceType ref)) as [k|] eqn:Hk;
    [|intros [= <-]; split; [done|]; split; [by intros []|done]].
  pose proof (capturePreDelete_at k ref s Hr (Hf (Key ref)) Hk) as Hat0. set (s1 := capturePreDelete k ref s) in *.
  pose proof Hat0 as (Hr1 & _ & Hc1 & _). rewrite Hr in Hr1.
  (* one step to a row without shape settles it *)
  assert (∀ p c s2, at_key ref p c s s2 → (∀ r, c = Some r → filed (Key ref) r) → (c ≫= shape_of) = None →
    well_filed s2 ∧ (is_Some (Some k) → shape_at (Key ref) s2 = None) ∧ ∀ key, shape_at key s = None → shape_at key s2 = None) as Hdone.
  { intros p c s2 (A1 & _ & A3 & A4) Hfc Hc. unfold shape_at, well_filed. repeat split.
    - congruence.
    - intros key r. destruct (decide (key = Key ref)) as [->|Hne]; [rewrite A3; apply Hfc|].
      destruct (A4 key Hne) as [_ ->]. apply Hf.
    - by rewrite A3.
    - intros key Hkey. destruct (decide (key = Key ref)) as [->|Hne]; [by rewrite A3|]. by destruct (A4 key Hne) as [_ ->]. }
  destruct (decide (k = KService)) as [->|Hne].
  - destruct (deleteService env ref s1) as [s2 res] eqn:Hd. pose proof (deleteService_cases ref s1 s2 res Hr1 Hd) as Hcases.
    rewrite Hc1 in Hcases. destruct (cl_rows s !! Key ref) as [[x|x|x|x]|] eqn:Hc; try (by destruct Hcases as [[e ->] _]).
    assert (∀ s3, (∃ p c, at_key ref p c s s3 ∧ (∀ r, c = Some r → filed (Key ref) r) ∧ (c ≫= shape_of) = None) →
      ∀ b : bool, well_filed (if b then s3 else markPruned ref s3) ∧
        (is_Some (Some KService) → shape_at (Key ref) (if b then s3 else markPruned ref s3) = None) ∧
        ∀ key, shape_at key s = None → shape_at key (if b then s3 else markPruned ref s3) = None) as Hmark.
    { intros s3 (p & c & Hat & Hfc & Hsh) [|]; [by eapply Hdone|].
      eapply Hdone; [exact (at_key_trans _ _ _ _ _ _ _ _ Hat (at_key_mark ref s3))|..]; destruct Hat as (_ & _ & -> & _); done. }
    destruct (terminating (RowService x)) eqn:Ht.
    + destruct Hcases as [-> ->]. intros [= <-]. apply Hmark. do 2 eexists. split; [exact Hat0|].
      split; [intros r [= <-]; by apply (filed_ref ref KService)|]. cbn [mbind option_bind]. unfold shape_of. by rewrite Ht.
    + destruct Hcases as [[-> Hat]|[[e ->] _]]; [|done]. intros [= <-]. apply Hmark. do 2 eexists.
      split; [exact (at_key_trans _ _ _ _ _ _ _ _ Hat0 Hat)|]. split; [|apply tombstone_gone].
      intros r [= <-]. by apply (filed_ref ref KService).
  - intros Hw. assert (writeRow ref true None s1 = (s', Ok tt)) as Hw' by (destruct k; done).
    destruct (at_key_write _ _ _ _ _ _ Hw') as [[_ Hat]|[[e [=]] _]].
    by eapply Hdone; [exact (at_key_trans _ _ _ _ _ _ _ _ Hat0 Hat)|..].
Qed.

Lemma pruneAll_gone refs s s' :
  well_filed s → pruneAll env refs s = (s', Ok tt) →
  (∀ key, shape_at key s = None → shape_at key s' = None) ∧
  ∀ ref, ref ∈ refs → is_Some (kind_of (or_ResourceType ref)) → shape_at (Key ref) s' = None.
Proof.
  revert s. induction refs as [|ref refs IH]; intros s Hw; cbn; [intros [= <-]; split; [done|by intros ? ?%elem_of_nil]|].
  destruct (applierPrune env ref s) as [s1 [[]|e]] eqn:Hp; [|done]. intros Hrest.
  destruct (prune_gone ref s s1 Hw Hp) as (Hw1 & Hgone & Hkeep). destruct (IH s1 Hw1 Hrest) as [IHk IHr].
  split; [by auto|]. intros ref' [->|Hin]%elem_of_cons Hk; [by auto|by auto].
Qed.

(** Nothing captured yet, every row under a key of its kind, and reads that work. *)
Definition ready s : Prop := cl_pre s = ∅ ∧ cl_readFaults s = [] ∧ ∀ key r, cl_rows s !! key = Some r → filed key r.

#[local] Instance applier_revertible : Revertible (cluster T DS) same_shape.
Proof.
  refine {| fresh := ready; undoable := undo_inv |}.
  - intros s (Hp & Hr & Hf). split; [done| | |done].
    + intros key. rewrite Hp, lookup_empty. split; [apply Hf|done].
    + intros key. by rewrite Hp, lookup_empty.
  - intros base L s ref [_ _ _ Hs] Hn. apply Hs. intros Hin. apply Hn. apply list_elem_of_fmap in Hin as (x & -> & Hin).
    apply elem_of_filterb in Hin as [_ Hin]. by apply list_elem_of_fmap_2.
  - intros base L s rel. cbn. unfold recordSave. destruct (hd false (cl_writeFaults s)); by apply inv_ext.
  - intros base L s c Hu Hsh. cbn. unfold applierApply. assert (kind_of (or_ResourceType (pc_Ref c)) = None) as ->; [|done].
    unfold isSharedClusterKind in Hsh. apply orb_true_iff in Hsh as [Hsh|Hsh]; apply bool_decide_eq_true in Hsh; by rewrite Hsh.
  - intros base L s c. apply apply_inv.
  - intros base L s ref. apply prune_inv.
  - intros base L s refs. cbn. unfold applierVerify. destruct (List.filter _ refs); by apply inv_ext.
  - intros base L s s' ref. apply revert_inv.
Defined.
End Contract.

(** ** Claims *)

(** C3: with a store whose reads succeed, an atomic cast that fails and reports
    its changes rolled back has put every secret, configmap, volume and service
    of the cluster back to what its operator declared, whichever write, wait or
    prune failed; its record owns what the previous revision owned. *)
Theorem atomic_cast_restores {T DS} `{EqDecision T, EqDecision DS} (env : cast_env T DS) (spec : ReleaseSpec)
    (admission : Plan → result string unit) (s s' : cluster T DS) (rel : option Release) (plan : option Plan) (cause : CastError)
    (Hready : ready s) (Hwf : wf_current (recordGet (sp_Namespace spec) (sp_Name spec) s))
    (Hcast : Reconcile (H1 := cluster_applier env) spec admission s = (s', (rel, plan, Some (RolledBack cause)))) :
  (∀ ref, same_shape ref s s') ∧
  r_Owns <$> rel = Some (match recordGet (sp_Namespace spec) (sp_Name spec) s with Some r => r_Owns r | None => [] end).
Proof.
  eapply (atomic_restores (H1 := cluster_applier env) same_shape (Revertible0 := applier_revertible env)); [exact Hready|reflexivity|exact Hwf|exact Hcast].
Qed.

(** A cluster with one configmap the release owns, whose next write after the
    pending record fails. *)
Definition demo_cm (v : string) : row Z unit := RowConfigmap (mkConfigmap "id" {[ "k" := v ]} 1 None).
Definition demo_cluster (reads writes : list bool) : cluster Z unit :=
  mkCluster {[ "configmap/prod/a" := demo_cm "old"; "configmap/prod/b" := demo_cm "other" ]}
    {[ ("prod", "web") := mkRelease "1" "web" "prod" ReleaseStatusDeployed 1 [demo_ref "a"; demo_ref "b"] [] ]}
    ∅ reads writes [].
Definition demo_env : cast_env Z unit :=
  mkCastEnv {[ "configmap/prod/a" := demo_cm "new"; "configmap/prod/b" := demo_cm "newer" ]}
    (mkOwnedBy "web" 2 ManagerRuneset) "uuid" 0 [].
Definition demo_spec : ReleaseSpec :=
  mkReleaseSpec "web" "prod" [demo_ref "a"; demo_ref "b"] (mkPlanOptions false) false true.

Lemma demo_filed reads writes key r : cl_rows (demo_cluster reads writes) !! key = Some r → filed key r.
Proof.
  cbn. intros [[<- <-]|[_ [<- <-]%lookup_singleton_Some]]%lookup_insert_Some; by eexists.
Qed.

Lemma atomic_cast_restores_witness :
  ∃ s' rel plan cause,
    Reconcile (H1 := cluster_applier demo_env) demo_spec (λ _, Ok tt) (demo_cluster [] [false; false; true]) =
      (s', (rel, plan, Some (RolledBack cause))) ∧
    shape_at "configmap/prod/a" s' = shape_of (demo_cm "old").
Proof.
  do 4 eexists. split; [vm_compute; reflexivity|]. symmetry.
  eapply (atomic_cast_restores demo_env demo_spec (λ _, Ok tt) (demo_cluster [] [false; false; true]))
    with (ref := demo_ref "a"); [|by repeat constructor|vm_compute; reflexivity].
  split; [done|]. split; [done|]. apply demo_filed.
Defined.

(** A read that fails while a secret, configmap or volume is applied is
    taken for its absence: the apply fails, and the rollback that follows deletes
    the resource that was there before the cast. *)
Theorem read_fault_deletes {T DS} `{EqDecision T, EqDecision DS} (env : cast_env T DS) (c : PlannedChange) (k : kind)
    (Hkind : kind_of (or_ResourceType (pc_Ref c)) = Some k) (Hnot : k ≠ KService)
    (payload r : row T DS) (Hpay : ce_payloads env !! Key (pc_Ref c) = Some payload) (Hpk : row_kind payload = k)
    (s : cluster T DS) (Hrow : cl_rows s !! Key (pc_Ref c) = Some r) (Hrk : row_kind r = k)
    (Hpre : cl_pre s !! Key (pc_Ref c) = None) (Hreads : cl_readFaults s = [true]) (Hwrites : cl_writeFaults s = []) :
  let '(s1, applied) := applierApply env c s in
  let '(s2, reverted) := applierRevert env (pc_Ref c) s1 in
  is_ok applied = false ∧ reverted = Ok tt ∧ cl_rows s2 !! Key (pc_Ref c) = None.
Proof.
  set (s1 := mkCluster (cl_rows s) (cl_releases s) (<[Key (pc_Ref c) := absent]> (cl_pre s)) [] [] (cl_verified s)).
  assert (∀ x, row_kind x = k → applyRow env k (pc_Ref c) x s = (s1, Err "store")) as Happly.
  { intros x _. unfold applyRow, getRow, readRow. rewrite Hreads. cbn [hd tail]. unfold capture. cbn [cl_pre]. rewrite Hpre.
    unfold writeRow. cbn. rewrite Hwrites, Hrow. cbn. done. }
  assert (applierApply env c s = (s1, Err "store")) as ->.
  { unfold applierApply. rewrite Hkind, Hpay, bool_decide_true by done. cbn [negb].
    destruct payload as [x|x|x|x]; cbn in Hpk; [by destruct Hnot|..]; by apply Happly. }
  unfold applierRevert. rewrite Hkind. unfold s1 at 1. cbn [cl_pre]. rewrite lookup_insert_eq. cbn [pi_Row absent].
  unfold revertCreated, getRow, readRow. cbn [cl_readFaults s1 hd tail cl_rows]. rewrite Hrow, bool_decide_true by done.
  assert (∀ st, cl_rows st = cl_rows s → cl_writeFaults st = [] → ∃ st', writeRow (pc_Ref c) true None st = (st', Ok tt) ∧
    cl_rows st' !! Key (pc_Ref c) = None) as Hdel.
  { intros st H1 H2. unfold writeRow. rewrite H2, H1, Hrow. cbn. eexists. split; [done|]. cbn. by rewrite lookup_partial_alter_eq. }
  destruct (Hdel (mkCluster (cl_rows s) (cl_releases s) (<[Key (pc_Ref c) := absent]> (cl_pre s)) [] [] (cl_verified s)) eq_refl eq_refl)
    as (st' & Hw & Hnone).
  destruct k; [done|..]; cbn [cl_releases cl_pre cl_writeFaults cl_verified s1]; rewrite Hw; done.
Qed.

Lemma read_fault_deletes_witness :
  let '(s1, applied) := applierApply demo_env (change (demo_ref "a") ActionUpdate) (demo_cluster [true] []) in
  let '(s2, reverted) := applierRevert demo_env (demo_ref "a") s1 in
  is_ok applied = false ∧ reverted = Ok tt ∧ cl_rows s2 !! "configmap/prod/a" = None.
Proof.
  apply (read_fault_deletes demo_env (change (demo_ref "a") ActionUpdate) KConfigmap) with (payload := demo_cm "new") (r := demo_cm "old");
    by vm_compute.
Defined.

(** Applying a volume writes the payload's handle, binding and status over the
    ones the controller and the driver recorded. *)
Lemma apply_volume_overwrites (cur x v : VolumeRow) :
  volumeUpdate cur x = Ok v →
  vr_Handle v = vr_Handle x ∧ vr_BoundNode v = vr_BoundNode x ∧ vr_BoundClaim v = vr_BoundClaim x ∧ vr_Status v = vr_Status x ∧
  vr_DriverParameters v = vr_DriverParameters x.
Proof. unfold volumeUpdate. destruct (negb _); [done|]. by intros <-%Ok_inj. Qed.

(** An uninstall that succeeds has removed, or marked for teardown,
    everything the release owned except the volumes it was told to keep. *)
Theorem uninstall_removes {T DS} `{EqDecision T, EqDecision DS} (env : cast_env T DS)
    (admission : list PlannedChange → result string unit) (keepVolumes purge : bool) (ns name : string) (s s' : cluster T DS)
    (rel : Release) (Hrel : recordGet ns name s = Some rel) (Hreads : cl_readFaults s = [])
    (Hfiled : ∀ key r, cl_rows s !! key = Some r → filed key r)
    (Hun : Uninstall env admission keepVolumes purge ns name s = (s', Ok tt)) :
  ∀ ref, ref ∈ r_Owns rel → is_Some (kind_of (or_ResourceType ref)) →
    keepVolumes = false ∨ or_ResourceType ref ≠ ResourceTypeVolume → shape_at (Key ref) s' = None.
Proof.
  unfold Uninstall in Hun. rewrite Hrel in Hun. unfold uninstallOrder in Hun. set (order := List.filter _ _) in Hun.
  destruct (admission _) as [[]|]; [|done]. set (s1 := with_pre _ ∅) in Hun.
  assert (well_filed s1) as Hw.
  { subst s1. unfold recordSave. by destruct (hd false (cl_writeFaults s)). }
  destruct (pruneAll env order s1) as [s2 [[]|]] eqn:Hp; [|done]. destruct (pruneAll_gone env order s1 s2 Hw Hp) as [_ Hgone].
  intros ref Hin Hk Hkeep. assert (shape_at (Key ref) s2 = None) as Hs2.
  { apply Hgone; [|done]. apply elem_of_filterb. split; [|unfold reverseDependencyOrder; by rewrite SliceStable_perm].
    destruct Hkeep as [->|Hv]; [done|]. rewrite bool_decide_false by done. by rewrite andb_false_r. }
  assert (cl_rows s' = cl_rows s2) as Hrows; [|unfold shape_at in *; by rewrite Hrows].
  destruct purge; [|unfold recordSave in Hun]; destruct (hd false (cl_writeFaults s2)); try done; by injection Hun as <-.
Qed.

Lemma uninstall_removes_witness :
  ∃ s', Uninstall demo_env (λ _, Ok tt) false false "prod" "web" (demo_cluster [] []) = (s', Ok tt) ∧
    shape_at "configmap/prod/a" s' = None.
Proof.
  eexists. split; [vm_compute; reflexivity|].
  eapply (uninstall_removes demo_env (λ _, Ok tt) false false "prod" "web" (demo_cluster [] [])) with (ref := demo_ref "a");
    [vm_compute; reflexivity|done|apply demo_filed|vm_compute; reflexivity|by left|by eexists|by left].
Defined.

(** ** Records over a history *)

Section Records.
Context {T DS : Type} `{EqDecision T, EqDecision DS}.
Implicit Types (s : cluster T DS) (env : cast_env T DS).

Definition records_wf s : Prop := ∀ k rel, cl_releases s !! k = Some rel → wf_release rel.

(** The applier leaves the release records alone. *)
Lemma readRow_releases ref s : cl_releases (readRow ref s).1 = cl_releases s.
Proof. done. Qed.
Lemma getRow_releases k ref s : cl_releases (getRow k ref s).1 = cl_releases s.
Proof. done. Qed.
Lemma writeRow_releases ref b new s : cl_releases (writeRow ref b new s).1 = cl_releases s.
Proof. unfold writeRow. destruct (hd false _); [done|]. by destruct (negb _). Qed.
Lemma capture_releases ref pi s : cl_releases (capture ref pi s) = cl_releases s.
Proof. unfold capture. by destruct (cl_pre s !! _). Qed.
Lemma noteApplied_releases ref g t s : cl_releases (noteApplied ref g t s) = cl_releases s.
Proof. unfold noteApplied. by destruct (cl_pre s !! _). Qed.
Lemma markPruned_releases ref s : cl_releases (markPruned ref s) = cl_releases s.
Proof. unfold markPruned. by destruct (cl_pre s !! _). Qed.
Lemma repoUpdate_releases ref f s : cl_releases (repoUpdate ref f s).1 = cl_releases s.
Proof.
  unfold repoUpdate. pose proof (readRow_releases ref s) as Hr. destruct (readRow ref s) as [s1 [r|]]; [|done].
  destruct (f r); [|done]. by rewrite writeRow_releases.
Qed.

Lemma deleteService_releases env ref s : cl_releases (deleteService env ref s).1 = cl_releases s.
Proof.
  unfold deleteService. pose proof (readRow_releases ref s) as Hr. destruct (readRow ref s) as [s1 [[x|x|x|x]|]]; try done.
  destruct (terminating _); [done|]. by rewrite writeRow_releases.
Qed.

Lemma applierApply_releases env c s : cl_releases (applierApply env c s).1 = cl_releases s.
Proof.
  unfold applierApply. destruct (kind_of _) as [k|]; [|done]. destruct (ce_payloads env !! _) as [payload|]; [|done].
  destruct (negb _); [done|].
  assert (∀ x, cl_releases (applyRow env k (pc_Ref c) x s).1 = cl_releases s) as Hrow.
  { intros x. unfold applyRow. pose proof (getRow_releases k (pc_Ref c) s) as Hg. destruct (getRow _ _ _) as [s1 [r|]]; cbn in Hg;
      rewrite ?repoUpdate_releases, ?writeRow_releases, capture_releases; done. }
  destruct (stampRow _ payload) as [x|x|x|x]; [|apply Hrow..].
  unfold applyService. destruct (hd false _); [done|]. pose proof (readRow_releases (pc_Ref c) s) as Hr.
  destruct (readRow _ s) as [s1 [[y|y|y|y]|]]; cbn in Hr; try done; [|by rewrite writeRow_releases, capture_releases].
  destruct (applyMutate x y) as [next|]; [|done].
  pose proof (writeRow_releases (pc_Ref c) true (Some (RowService next)) s1) as Hw. destruct (writeRow _ _ _ _) as [s2 [[]|]]; cbn in *;
    rewrite ?noteApplied_releases, ?capture_releases; congruence.
Qed.

Lemma applierPrune_releases env ref s : cl_releases (applierPrune env ref s).1 = cl_releases s.
Proof.
  unfold applierPrune. destruct (kind_of _) as [k|]; [|done].
  assert (cl_releases (capturePreDelete k ref s) = cl_releases s) as Hc.
  { unfold capturePreDelete. pose proof (getRow_releases k ref s) as Hg. destruct (getRow k ref s) as [s1 [r|]]; by rewrite capture_releases. }
  destruct k; [|by rewrite writeRow_releases..]. pose proof (deleteService_releases env ref (capturePreDelete KService ref s)) as Hd.
  destruct (deleteService _ _ _) as [s2 [[]|]]; [|cbn in *; congruence]. cbn in *.
  destruct (match cl_pre _ !! _ with Some _ => _ | None => _ end); rewrite ?markPruned_releases; congruence.
Qed.

Lemma applierRevert_releases env ref s : cl_releases (applierRevert env ref s).1 = cl_releases s.
Proof.
  unfold applierRevert. destruct (kind_of _) as [k|]; [|by destruct (cl_pre s !! _)]. destruct (cl_pre s !! _) as [pi|]; [|done].
  assert (∀ x, cl_releases (let '(s1, cur) := getRow k ref s in
    match cur with
    | Some _ => repoUpdate ref (updateRow x) s1
    | None => writeRow ref false (Some (createRow (ce_uuid env) x)) s1
    end).1 = cl_releases s) as Hrow.
  { intros x. pose proof (getRow_releases k ref s) as Hg. destruct (getRow k ref s) as [s1 [r|]];
      rewrite ?repoUpdate_releases, ?writeRow_releases; done. }
  destruct (pi_Row pi) as [[x|x|x|x]|]; [|apply Hrow..|].
  - unfold revertService. destruct (hd false _); [done|]. pose proof (readRow_releases ref s) as Hr.
    destruct (readRow ref s) as [s1 [[y|y|y|y]|]]; cbn in Hr; try done.
    + destruct (revertMutate _ _ _); [|done]. by rewrite writeRow_releases.
    + destruct (negb _); [done|]. by rewrite writeRow_releases.
  - unfold revertCreated. pose proof (getRow_releases k ref s) as Hg. destruct (getRow k ref s) as [s1 [r|]]; [|done].
    destruct k; by rewrite ?deleteService_releases, ?writeRow_releases.
Qed.

Lemma records_wf_same s s' : cl_releases s' = cl_releases s → records_wf s → records_wf s'.
Proof. intros E H k rel. rewrite E. apply H. Qed.

Lemma recordSave_wf rel s : wf_release rel → records_wf s → records_wf (recordSave rel s).1.
Proof.
  intros Hr Hs. unfold recordSave. destruct (hd false _); [exact Hs|]. intros k r. cbn. rewrite lookup_insert_Some.
  intros [[_ <-]|[_ Hk]]; [done|by apply (Hs k)].
Qed.

Lemma cluster_kept env : kept (H1 := cluster_applier env) records_wf.
Proof.
  split; cbn.
  - intros ns n s cur Hs Hg%Ok_inj. subst cur. unfold recordGet. destruct (cl_releases s !! _) as [r|] eqn:E; [by apply (Hs _ _ E)|done].
  - intros. by apply recordSave_wf.
  - intros c s. apply records_wf_same, applierApply_releases.
  - intros ref s _. apply records_wf_same, applierPrune_releases.
  - intros refs s. apply records_wf_same. unfold applierVerify. by destruct (List.filter _ _).
  - intros ref s. apply records_wf_same, applierRevert_releases.
Qed.

Lemma pruneAll_releases env refs s : cl_releases (pruneAll env refs s).1 = cl_releases s.
Proof.
  revert s. induction refs as [|ref refs IH]; intros s; [done|]. cbn. pose proof (applierPrune_releases env ref s) as Hp.
  destruct (applierPrune env ref s) as [s1 [[]|]]; cbn in Hp; [by rewrite IH|done].
Qed.

Lemma Uninstall_wf env admission keep purge ns name s :
  records_wf s → records_wf (Uninstall env admission keep purge ns name s).1.
Proof.
  intros Hs. unfold Uninstall, recordGet. destruct (cl_releases s !! _) as [rel|] eqn:E; [|done]. destruct (admission _); [|done].
  assert (records_wf (with_pre (recordSave (with_r_Status rel ReleaseStatusUninstalling) s).1 ∅)) as H1.
  { apply (records_wf_same (recordSave (with_r_Status rel ReleaseStatusUninstalling) s).1); [done|]. apply recordSave_wf; [by apply (Hs _ _ E)|done]. }
  set (s1 := with_pre _ ∅) in *. pose proof (pruneAll_releases env (uninstallOrder keep rel) s1) as Hp.
  destruct (pruneAll env _ s1) as [s2 [[]|]]; cbn in Hp; [|by apply (records_wf_same s1)].
  assert (records_wf s2) as H2 by by apply (records_wf_same s1). destruct purge.
  - destruct (hd false _); [done|]. intros k r. cbn. intros [_ Hk]%lookup_delete_Some. by apply (H2 k).
  - apply recordSave_wf; [|done]. split; [by constructor|]. apply (Hs _ _ E).
Qed.

(** A cast, an uninstall, or anything else that leaves the release records alone. *)
Inductive release_step : cluster T DS → cluster T DS → Prop :=
| rs_cast env spec admission s : release_step s (Reconcile (H1 := cluster_applier env) spec admission s).1
| rs_uninstall env admission keep purge ns name s : release_step s (Uninstall env admission keep purge ns name s).1
| rs_other s s' : cl_releases s' = cl_releases s → release_step s s'.

Lemma release_steps_wf s s' : rtc release_step s s' → records_wf s → records_wf s'.
Proof.
  induction 1 as [|s1 s2 s3 Hstep _ IH]; [done|]. intros Hs. apply IH. destruct Hstep.
  - apply cast_keeps; [apply cluster_kept|done].
  - by apply Uninstall_wf.
  - by apply (records_wf_same s).
Qed.
End Records.

(** The calls of a cast by the store's applier. *)
Definition cast_log {T DS} `{EqDecision T, EqDecision DS} (env : cast_env T DS) (spec : ReleaseSpec)
    (admission : Plan → result string unit) (s : cluster T DS) : list call :=
  let applier : Applier (cluster T DS) := cluster_applier env in (Reconcile spec admission (s, [])).1.2.

(** C40: records stay well-formed: through any history of casts and uninstalls that
    starts with no release, with any reads, writes and waits failing, and whatever
    other writers do to the rows, a stored record owns no Namespace or StorageClass
    and references nothing else; so no cast prunes a shared kind, or saves a record
    that owns one, and no uninstall prunes one. *)
Theorem cast_records_wf {T DS} `{EqDecision T, EqDecision DS} (s0 s : cluster T DS)
    (Hempty : cl_releases s0 = ∅) (Hsteps : rtc release_step s0 s) :
  records_wf s ∧
  (∀ env spec admission, Forall wf_call (cast_log env spec admission s)) ∧
  (∀ ns name rel keepVolumes, recordGet ns name s = Some rel →
     Forall (λ ref, isSharedClusterKind (or_ResourceType ref) = false) (uninstallOrder keepVolumes rel)).
Proof.
  assert (records_wf s) as Hs by (apply (release_steps_wf s0); [done|intros k rel; by rewrite Hempty]).
  split; [done|]. split.
  - intros env spec admission. unfold cast_log. pose proof (kept_traced (H1 := cluster_applier env) _ (cluster_kept env)) as Hk.
    by apply (cast_keeps _ Hk spec admission (s, [])).
  - intros ns name rel keep Hr. apply Forall_forall. intros ref [_ Hin]%elem_of_filterb.
    unfold reverseDependencyOrder in Hin. rewrite SliceStable_perm in Hin.
    destruct (Hs _ _ Hr) as [Ho _]. rewrite Forall_forall in Ho. by apply Ho.
Qed.

(** Two casts and what the second one prunes. *)
Definition web_spec (names : list string) : ReleaseSpec :=
  mkReleaseSpec "web" "prod" (mkOwnerRef ResourceTypeNamespace "" "prod" :: (demo_ref <$> names)) (mkPlanOptions false) false false.
Definition empty_cluster : cluster Z unit := mkCluster ∅ ∅ ∅ [] [] [].
Definition cast_once : cluster Z unit :=
  (Reconcile (H1 := cluster_applier demo_env) (web_spec ["a"; "b"]) (λ _, Ok tt) empty_cluster).1.

Lemma cast_records_wf_witness :
  r_Owns <$> recordGet "prod" "web" cast_once = Some [demo_ref "a"; demo_ref "b"] ∧
  List.filter (λ c, match c with CPrune _ => true | _ => false end) (cast_log demo_env (web_spec ["a"]) (λ _, Ok tt) cast_once) =
    [CPrune (demo_ref "b")] ∧
  Forall wf_call (cast_log demo_env (web_spec ["a"]) (λ _, Ok tt) cast_once).
Proof.
  split; [vm_compute; reflexivity|]. split; [vm_compute; reflexivity|].
  apply (proj1 (proj2 (cast_records_wf empty_cluster cast_once eq_refl ltac:(apply rtc_once, rs_cast)))).
Defined.
