(* ===== verification/Authz.v ===== *)
(** * Authorization and what the environment resolver reads
      (pkg/authz, pkg/types/{ref,policy,init_step}.go,
       pkg/orchestrator/instance/instance_env.go)

    Policies grant a subject verbs on resources; the gate checks what a payload
    needs before it is written; the resolver later reads secrets and configmaps
    with no subject at all.  Go's URL parser is a parameter, strings are ASCII,
    and a Go map is the list of its entries in the order the loop meets them. *)

From Stdlib Require Import Ascii.
From S2P Require Import Prelude Text Types Release.

(** ** References (types/ref.go) *)

Record ResourceRef := mkResourceRef {
  rr_Type : ResourceType;
  rr_Namespace : string;
  rr_Name : string;
  rr_ID : string;
  rr_Key : string;
}.

Definition HasKey (r : ResourceRef) : bool := negb (bool_decide (rr_Key r = "")).

Definition WithDefaultNamespace (r : ResourceRef) (ns : string) : ResourceRef :=
  mkResourceRef (rr_Type r) (if bool_decide (rr_Namespace r = "") then ns else rr_Namespace r) (rr_Name r) (rr_ID r) (rr_Key r).

Section Refs.
(** [url.Parse]: host and decoded path; [url.PathUnescape] with its error dropped. *)
Context (url_Parse : string → option (string * string)) (PathUnescape : string → string).

Definition parseURI (s : string) : option ResourceRef :=
  match url_Parse s with
  | None => None
  | Some (host, path) =>
      let parts := Split "/" (TrimPrefix path "/") in
      match parts with
      | ns :: second :: rest =>
          match rest with
          | third :: rest' =>
              if bool_decide (second = "id") then
                let id := PathUnescape third in
                if bool_decide (id = "") then None
                else Some (mkResourceRef host ns "" id (match rest' with k :: _ => PathUnescape k | [] => "" end))
              else Some (mkResourceRef host ns (PathUnescape second) "" (PathUnescape third))
          | [] => Some (mkResourceRef host ns (PathUnescape second) "" "")
          end
      | _ => None
      end
  end.

(** The segments of [name.namespace.rune], from the back. *)
Definition parseFQDN (typ rest key : string) : option ResourceRef :=
  match rev (Split "." rest) with
  | last :: ns :: x :: more =>
      if negb (bool_decide (last = "rune")) then None
      else
        let name := JoinWith "." (rev (x :: more)) in
        if bool_decide (ns = "") || bool_decide (name = "") then None else Some (mkResourceRef typ ns name "" key)
  | _ => None
  end.

Definition parseResourceRefInternal (s : string) : option ResourceRef :=
  if String.prefix "rune://" s then parseURI s
  else
    let '(s, key) := match Cut "/" s with Some (a, b) => (a, b) | None => (s, "") end in
    match Cut ":" s with
    | Some (typ, rest) =>
        if bool_decide (typ = "") then None
        else if HasSuffix rest ".rune" then parseFQDN typ rest key
        else if bool_decide (rest = "") then None
        else Some (mkResourceRef typ "" rest "" key)
    | None => None
    end.

Definition ParseResourceRef := parseResourceRefInternal.

Definition ParseResourceRefWithDefaultNamespace (s ns : string) : option ResourceRef :=
  match parseResourceRefInternal s with Some r => Some (WithDefaultNamespace r ns) | None => None end.

Definition ParseResourceRefWithDefaults (s : string) (typ : ResourceType) (ns : string) : option ResourceRef :=
  if bool_decide (s = "") then None
  else if negb (String.prefix "rune://" s) && bool_decide (Cut ":" s = None) then
    match Split "/" s with
    | [_] => Some (mkResourceRef typ ns s "" "")
    | [n; name] => if bool_decide (n = "") || bool_decide (name = "") then None else Some (mkResourceRef typ n name "" "")
    | _ => None
    end
  else
    match parseResourceRefInternal s with
    | None => None
    | Some r =>
        Some (WithDefaultNamespace (mkResourceRef (if bool_decide (rr_Type r = "") then typ else rr_Type r)
                                      (rr_Namespace r) (rr_Name r) (rr_ID r) (rr_Key r)) ns)
    end.
End Refs.

(** ** Policies (store_authorizer.go) *)

Record PolicyRule := mkPolicyRule {
  ru_Resource : string;
  ru_Verbs : list string;
  ru_Namespace : string;
}.

Record User := mkUser {
  us_ID : string;
  us_Name : string;
  us_Policies : list string;
}.

Definition ruleGrants (resource verb namespace : string) (rule : PolicyRule) : bool :=
  (bool_decide (ru_Resource rule = "*") || bool_decide (ru_Resource rule = resource)) &&
  existsb (λ v, bool_decide (v = "*") || bool_decide (v = verb)) (ru_Verbs rule) &&
  (bool_decide (ru_Namespace rule = "") || bool_decide (ru_Namespace rule = "*") || bool_decide (ru_Namespace rule = namespace)).

(** [users] is the listing, or a failed one; a policy that cannot be read is
    skipped. *)
Record auth_store := mkAuthStore {
  as_users : result string (list User);
  as_policies : string → option (list PolicyRule);
}.

Definition Authorize (st : option auth_store) (subjectID resource verb namespace : string) : result string bool :=
  match st with
  | None => Ok false
  | Some st =>
      match as_users st with
      | Err e => Err e
      | Ok users =>
          match List.find (λ u, bool_decide (us_ID u = subjectID) || bool_decide (us_Name u = subjectID)) users with
          | None => Ok false
          | Some u =>
              Ok (existsb (λ pname, match as_policies st pname with
                    | None => false
                    | Some rules => existsb (ruleGrants resource verb namespace) rules
                    end) (us_Policies u))
          end
      end
  end.

(** ** Requirements (authz.go, refs.go) *)

Record Requirement := mkRequirement { rq_Resource : string; rq_Verb : string }.

#[global] Instance Requirement_eq_dec : EqDecision Requirement.
Proof. solve_decision. Defined.

Record NamespacedRequirement := mkNamespacedRequirement { nr_Requirement : Requirement; nr_Namespace : string }.

#[global] Instance NamespacedRequirement_eq_dec : EqDecision NamespacedRequirement.
Proof. solve_decision. Defined.

Record SecurityContext := mkSecurityContext {
  sc_Privileged : bool;
  sc_SeccompUnconfined : bool;
  sc_CapAdd : list string;
}.

Definition RequiresPrivilegedGate (sc : option SecurityContext) : bool :=
  match sc with
  | None => false
  | Some sc => sc_Privileged sc || sc_SeccompUnconfined sc || match sc_CapAdd sc with [] => false | _ => true end
  end.

Record EnvFromSource := mkEnvFromSource {
  ef_SecretName : string;
  ef_ConfigmapName : string;
  ef_Namespace : string;
  ef_Prefix : string;
}.

Record InitStep := mkInitStep {
  in_Env : list (string * string);
  in_EnvFrom : list EnvFromSource;
  in_SecurityContext : option SecurityContext;
}.

(** A mount: the parameters of its claim template, and the claim's name. *)
Record AuthzMount := mkAuthzMount {
  am_Params : option (list (string * string));
  am_Claim : option string;
}.

(** What admission reads of a service. *)
Record AuthzService := mkAuthzService {
  az_Namespace : string;
  az_Env : list (string * string);
  az_EnvFrom : list EnvFromSource;
  az_InitSteps : list InitStep;
  az_Volumes : list AuthzMount;
  az_TLSSecret : string;
  az_CASecret : string;
  az_SecurityContext : option SecurityContext;
}.

Definition privileged : Requirement := mkRequirement "services" "privileged".

Definition ServiceRequirements (svc : AuthzService) : list Requirement :=
  if RequiresPrivilegedGate (az_SecurityContext svc) then [privileged]
  else if existsb (λ i, RequiresPrivilegedGate (in_SecurityContext i)) (az_InitSteps svc) then [privileged]
  else [].

Definition RestoreFromSnapshotParam : string := "rune.io/restoreFromSnapshot".

(** The verb a cross-namespace reference needs. *)
Definition referenceRequirement (rt : ResourceType) : option Requirement :=
  if bool_decide (rt = ResourceTypeSecret) then Some (mkRequirement "secrets" "reveal")
  else if bool_decide (rt = ResourceTypeConfigmap) then Some (mkRequirement "configmaps" "get")
  else if bool_decide (rt = ResourceTypeVolume) then Some (mkRequirement "volumes" "reveal")
  else if bool_decide (rt = ResourceTypeSnapshot) then Some (mkRequirement "snapshots" "reveal")
  else None.

(** The collector: its own namespace, and what it has found. *)
Definition add (own : string) (rt : ResourceType) (ns : string) (out : list NamespacedRequirement) : list NamespacedRequirement :=
  if bool_decide (ns = "") || bool_decide (ns = own) then out
  else match referenceRequirement rt with
       | None => out
       | Some r =>
           let nr := mkNamespacedRequirement r ns in
           if bool_decide (nr ∈ out) then out else out ++ [nr]
       end.

Section Collect.
Context (url_Parse : string → option (string * string)) (PathUnescape : string → string).
#[local] Abbreviation parseNS := (ParseResourceRefWithDefaultNamespace url_Parse PathUnescape).

(** The loop over placeholders; the remaining text shrinks at each one. *)
Fixpoint envTemplatesLoop (fuel : nat) (own value : string) (out : list NamespacedRequirement) : list NamespacedRequirement :=
  match fuel with
  | O => out
  | S fuel =>
      match Cut "{{" value with
      | None => out
      | Some (_, rest) =>
          match Cut "}}" rest with
          | None => out
          | Some (raw, after) =>
              let out := match parseNS (strip_spaces raw) own with
                | Some ref => add own (rr_Type ref) (rr_Namespace ref) out
                | None => out
                end in
              envTemplatesLoop fuel own after out
          end
      end
  end.

Definition envTemplates (own value : string) (out : list NamespacedRequirement) : list NamespacedRequirement :=
  envTemplatesLoop (S (String.length value)) own value out.

Definition collectEnvFrom (own : string) (src : EnvFromSource) (out : list NamespacedRequirement) : list NamespacedRequirement :=
  if negb (bool_decide (ef_SecretName src = "")) then add own ResourceTypeSecret (ef_Namespace src) out
  else if negb (bool_decide (ef_ConfigmapName src = "")) then add own ResourceTypeConfigmap (ef_Namespace src) out
  else out.

Definition collectEnv (own : string) (env : list (string * string)) (from : list EnvFromSource) (out : list NamespacedRequirement)
    : list NamespacedRequirement :=
  let out := fold_left (λ out kv, envTemplates own kv.2 out) env out in
  fold_left (λ out src, collectEnvFrom own src out) from out.

Definition volumeParam (own : string) (kv : string * string) (out : list NamespacedRequirement) : list NamespacedRequirement :=
  if bool_decide (kv.1 = RestoreFromSnapshotParam) then
    match Cut "/" kv.2 with Some (ns, _) => add own ResourceTypeSnapshot ns out | None => out end
  else match ParseResourceRef url_Parse PathUnescape kv.2 with
       | Some ref => if bool_decide (rr_Type ref = ResourceTypeSecret) then add own ResourceTypeSecret (rr_Namespace ref) out else out
       | None => out
       end.

Definition volumeParams (own : string) (params : list (string * string)) (out : list NamespacedRequirement) : list NamespacedRequirement :=
  fold_left (λ out kv, volumeParam own kv out) params out.

Definition collectMount (own : string) (m : AuthzMount) (out : list NamespacedRequirement) : list NamespacedRequirement :=
  let out := match am_Params m with Some ps => volumeParams own ps out | None => out end in
  match am_Claim m with
  | None => out
  | Some name =>
      match Cut "/" name with
      | Some (ns, _) => if negb (bool_decide (ns = "")) then add own ResourceTypeVolume ns out else out
      | None => out
      end
  end.

Definition secretRef (own s : string) (out : list NamespacedRequirement) : list NamespacedRequirement :=
  match ParseResourceRefWithDefaults url_Parse PathUnescape s ResourceTypeSecret own with
  | Some ref => add own (rr_Type ref) (rr_Namespace ref) out
  | None => out
  end.

Definition collectExpose (own tls ca : string) (out : list NamespacedRequirement) : list NamespacedRequirement :=
  let out := if negb (bool_decide (tls = "")) then secretRef own tls out else out in
  if negb (bool_decide (ca = "")) then secretRef own ca out else out.

Definition requirementLess (a b : NamespacedRequirement) : bool :=
  if negb (bool_decide (nr_Namespace a = nr_Namespace b)) then String.ltb (nr_Namespace a) (nr_Namespace b)
  else String.ltb (rq_Resource (nr_Requirement a)) (rq_Resource (nr_Requirement b)).

Definition ServiceReferenceRequirements (svc : AuthzService) : list NamespacedRequirement :=
  let own := az_Namespace svc in
  let out := collectEnv own (az_Env svc) (az_EnvFrom svc) [] in
  let out := fold_left (λ out i, collectEnv own (in_Env i) (in_EnvFrom i) out) (az_InitSteps svc) out in
  let out := fold_left (λ out m, collectMount own m out) (az_Volumes svc) out in
  SliceStable requirementLess (collectExpose own (az_TLSSecret svc) (az_CASecret svc) out).

Definition VolumeReferenceRequirements (namespace : string) (params : list (string * string)) : list NamespacedRequirement :=
  SliceStable requirementLess (volumeParams namespace params []).

(** ** The gate *)

(** Who is calling: nobody, a subject, or the control plane itself. *)
Inductive caller := Unauthenticated | Subject (id : string) | System.

Inductive AdmitError := Denied (subject : string) (r : Requirement) (ns : string) | AuthorizationError (e : string).

(** [g] is the gate's authorizer; [None] is no gate. *)
Definition gate := option (string → string → string → string → result string bool).

Definition require (auth : string → string → string → string → result string bool) (who : caller) (r : Requirement) (ns : string)
    : result AdmitError unit :=
  let subject := match who with Subject id => id | _ => "" end in
  if bool_decide (subject = "") then Err (Denied "" r ns)
  else match auth subject (rq_Resource r) (rq_Verb r) ns with
       | Err e => Err (AuthorizationError e)
       | Ok ok => if ok then Ok tt else Err (Denied subject r ns)
       end.

Fixpoint requireAll (auth : string → string → string → string → result string bool) (who : caller)
    (l : list NamespacedRequirement) : result AdmitError unit :=
  match l with
  | [] => Ok tt
  | nr :: l =>
      match require auth who (nr_Requirement nr) (nr_Namespace nr) with Err e => Err e | Ok _ => requireAll auth who l end
  end.

Definition AdmitService (g : gate) (who : caller) (svc : AuthzService) : result AdmitError unit :=
  match g, who with
  | None, _ | _, System => Ok tt
  | Some auth, _ =>
      match requireAll auth who ((λ r, mkNamespacedRequirement r (az_Namespace svc)) <$> ServiceRequirements svc) with
      | Err e => Err e
      | Ok _ => requireAll auth who (ServiceReferenceRequirements svc)
      end
  end.

Definition AdmitVolume (g : gate) (who : caller) (namespace : string) (params : list (string * string)) : result AdmitError unit :=
  match g, who with
  | None, _ | _, System => Ok tt
  | Some auth, _ => requireAll auth who (VolumeReferenceRequirements namespace params)
  end.

(** ** Releases *)

Definition releaseResource (rt : ResourceType) : string :=
  if bool_decide (rt = ResourceTypeService) then "services"
  else if bool_decide (rt = ResourceTypeSecret) then "secrets"
  else if bool_decide (rt = ResourceTypeConfigmap) then "configmaps"
  else if bool_decide (rt = ResourceTypeVolume) then "volumes"
  else rt.

Definition ReleaseChangeRequirement (c : PlannedChange) : option Requirement :=
  let res := releaseResource (or_ResourceType (pc_Ref c)) in
  match pc_Action c with
  | ActionCreate => Some (mkRequirement res "create")
  | ActionUpdate | ActionAdopt => Some (mkRequirement res "update")
  | ActionPrune => Some (mkRequirement res "delete")
  | ActionReference => None
  end.

Definition changeRequirements (f : Requirement → Requirement) (changes : list PlannedChange) : list NamespacedRequirement :=
  omap (λ c, (λ r, mkNamespacedRequirement (f r) (or_Namespace (pc_Ref c))) <$> ReleaseChangeRequirement c) changes.

Definition AdmitReleaseChanges (g : gate) (who : caller) (changes : list PlannedChange) : result AdmitError unit :=
  match g, who with
  | None, _ | _, System => Ok tt
  | Some auth, _ => requireAll auth who (changeRequirements id changes)
  end.

(** [Controller.admitPlan], as the cast calls it. *)
Definition admitPlan (g : gate) (who : caller) (plan : Plan) : result string unit :=
  match AdmitReleaseChanges g who (pl_Changes plan) with
  | Ok _ => Ok tt
  | Err (Denied _ _ _) => Err "permission denied"
  | Err (AuthorizationError e) => Err ("authorization error: " +:+ e)
  end.

Definition AdmitReleaseReads (g : gate) (who : caller) (changes : list PlannedChange) : result AdmitError unit :=
  match g, who with
  | None, _ | _, System => Ok tt
  | Some auth, _ => requireAll auth who (changeRequirements (λ r, mkRequirement (rq_Resource r) "get") changes)
  end.

(** ** The environment resolver (instance_env.go) *)

(** A read of a secret or configmap by namespace and name. *)
Definition store_read := (ResourceType * string * string)%type.

Record env_store := mkEnvStore {
  es_Secret : string → string → option (gmap string string);
  es_Configmap : string → string → option (gmap string string);
}.

Definition isValidEnvKey (key : string) : bool :=
  let start c := (let n := nat_of_ascii c in bool_decide (65 ≤ n ≤ 90)%nat) || Ascii.eqb c "_" in
  match key with
  | EmptyString => false
  | String c rest =>
      start c && forallb (λ c, start c || (let n := nat_of_ascii c in bool_decide (48 ≤ n ≤ 57)%nat)) (String.list_ascii_of_string rest)
  end.

(** Looks a reference up: the value, and what was read on the way. *)
Definition resolveTemplateVariable (st : env_store) (templateVar ns : string) : option string * list store_read :=
  match parseNS templateVar ns with
  | None => (None, [])
  | Some ref =>
      if negb (HasKey ref) then (None, [])
      else if bool_decide (rr_Type ref = ResourceTypeSecret) then
        (match es_Secret st (rr_Namespace ref) (rr_Name ref) with Some data => data !! rr_Key ref | None => None end,
         [(ResourceTypeSecret, rr_Namespace ref, rr_Name ref)])
      else if bool_decide (rr_Type ref = ResourceTypeConfigmap) then
        (match es_Configmap st (rr_Namespace ref) (rr_Name ref) with Some data => data !! rr_Key ref | None => None end,
         [(ResourceTypeConfigmap, rr_Namespace ref, rr_Name ref)])
      else (None, [])
  end.

(** The replacement loop: [done] is the text up to [start], [value] the rest. *)
Fixpoint interpolateLoop (fuel : nat) (st : env_store) (ns : string) (done value : string) : option string * list store_read :=
  match fuel with
  | O => (Some (done +:+ value), [])
  | S fuel =>
      match Cut "{{" value with
      | None => (Some (done +:+ value), [])
      | Some (before, rest) =>
          match Cut "}}" rest with
          | None => (Some (done +:+ value), [])
          | Some (raw, after) =>
              let '(resolved, reads) := resolveTemplateVariable st (strip_spaces raw) ns in
              match resolved with
              | None => (None, reads)
              | Some v =>
                  let '(out, more) := interpolateLoop fuel st ns (done +:+ before +:+ v) after in (out, reads ++ more)
              end
          end
      end
  end.

Definition interpolateEnv (st : env_store) (value ns : string) : option string * list store_read :=
  match Cut "{{" value, Cut "}}" value with
  | Some _, Some _ => interpolateLoop (S (String.length value)) st ns "" value
  | _, _ => (Some value, [])
  end.

(** [envFrom]: the imported data, prefixed. *)
Definition importFrom (st : env_store) (src : EnvFromSource) : option (list (string * string)) * list store_read :=
  let '(data, reads) :=
    if negb (bool_decide (ef_SecretName src = "")) then
      (es_Secret st (ef_Namespace src) (ef_SecretName src), [(ResourceTypeSecret, ef_Namespace src, ef_SecretName src)])
    else if negb (bool_decide (ef_ConfigmapName src = "")) then
      (es_Configmap st (ef_Namespace src) (ef_ConfigmapName src), [(ResourceTypeConfigmap, ef_Namespace src, ef_ConfigmapName src)])
    else (Some ∅, []) in
  (match data with
   | None => None
   | Some d =>
       let kvs := (λ kv, (ef_Prefix src +:+ kv.1, kv.2)) <$> map_to_list d in
       if forallb (λ kv, isValidEnvKey kv.1) kvs then Some kvs else None
   end, reads).

Fixpoint importAll (st : env_store) (from : list EnvFromSource) : option (list (string * string)) * list store_read :=
  match from with
  | [] => (Some [], [])
  | src :: from =>
      let '(kvs, reads) := importFrom st src in
      match kvs with
      | None => (None, reads)
      | Some kvs =>
          let '(rest, more) := importAll st from in
          (match rest with Some r => Some (kvs ++ r) | None => None end, reads ++ more)
      end
  end.

Fixpoint resolveAll (st : env_store) (ns : string) (env : list (string * string)) : option (list (string * string)) * list store_read :=
  match env with
  | [] => (Some [], [])
  | (k, v) :: env =>
      let '(r, reads) := interpolateEnv st v ns in
      match r with
      | None => (None, reads)
      | Some v' =>
          let '(rest, more) := resolveAll st ns env in
          (match rest with Some l => Some ((k, v') :: l) | None => None end, reads ++ more)
      end
  end.

(** [prepareEnvVars] up to the built-in variables: the assignments in order, and
    every read it makes. *)
Definition prepareEnvVars (st : env_store) (svc : AuthzService) : option (list (string * string)) * list store_read :=
  let '(imported, reads) := importAll st (az_EnvFrom svc) in
  match imported with
  | None => (None, reads)
  | Some kvs =>
      let '(resolved, more) := resolveAll st (az_Namespace svc) (az_Env svc) in
      (match resolved with Some l => Some (kvs ++ l) | None => None end, reads ++ more)
  end.
End Collect.
