(* ===== verification/Names.v ===== *)
(** * Names (pkg/utils/utils.go, pkg/types/{namespace,volume}.go)

    The rules a resource name or volume id has to pass before it becomes part of
    a store key or of a host path. *)

From Stdlib Require Import Ascii.
From S2P Require Import Prelude Text.

Definition DefaultNamespace : string := "default".
Definition NS (namespace : string) : string := if bool_decide (namespace = "") then DefaultNamespace else namespace.

(** A lowercase letter or a digit. *)
Definition alnum (c : ascii) : bool :=
  let n := Ascii.nat_of_ascii c in
  ((97 <=? n) && (n <=? 122) || (48 <=? n) && (n <=? 57))%nat.

Definition is_hyphen (c : ascii) : bool := bool_decide (c = "-"%char).

Fixpoint all_chars (f : ascii → bool) (s : string) : bool :=
  match s with EmptyString => true | String c s => f c && all_chars f s end.

Fixpoint last_char (s : string) : option ascii :=
  match s with EmptyString => None | String c EmptyString => Some c | String _ s => last_char s end.

Definition first_char (s : string) : option ascii := match s with EmptyString => None | String c _ => Some c end.

Definition hyphen_at_end (s : string) : bool :=
  match first_char s with Some c => is_hyphen c | None => false end || match last_char s with Some c => is_hyphen c | None => false end.

Fixpoint double_hyphen (s : string) : bool :=
  match s with
  | String a (String b _ as t) => is_hyphen b && is_hyphen a || double_hyphen t
  | _ => false
  end.

(** [false] is a validation error, here and below. *)
Definition ValidateDNS1123Name (name : string) : bool :=
  if bool_decide (String.length name < 1)%nat || bool_decide (63 < String.length name)%nat then false
  else if hyphen_at_end name then false
  else if negb (all_chars (λ c, alnum c || is_hyphen c) name) then false
  else negb (double_hyphen name).

(** The loop of [ValidateVolumeID] from position [i] of an id of length [n]. *)
Fixpoint volumeIDLoop (n i : nat) (id : string) : bool :=
  match id with
  | EmptyString => true
  | String c id =>
      if negb (alnum c) && (negb (is_hyphen c) || bool_decide (i = 0%nat) || bool_decide (i = (n - 1)%nat)) then false
      else volumeIDLoop n (S i) id
  end.

Definition ValidateVolumeID (id : string) : bool :=
  if bool_decide (String.length id = 0%nat) || bool_decide (253 < String.length id)%nat then false
  else volumeIDLoop (String.length id) 0 id.

Definition ValidateVolumePathSegment (id : string) : bool :=
  negb (bool_decide (id = "") || bool_decide (id = ".") || bool_decide (id = "..") ||
        negb (all_chars (λ c, negb (bool_decide (c = "/"%char) || bool_decide (c = "\"%char) || bool_decide (c = "000"%char))) id)).

(** ** Facts *)

Lemma all_chars_imp f g s : (∀ c, f c = true → g c = true) → all_chars f s = true → all_chars g s = true.
Proof. intros H. induction s as [|c s IH]; [done|]. cbn. rewrite !andb_true_iff. intros [? ?]. auto. Qed.

Lemma all_chars_free c f s : f c = false → all_chars f s = true → free c s = true.
Proof.
  intros Hc. induction s as [|d s IH]; [done|]. cbn. rewrite !andb_true_iff. intros [Hd Hs]. split; [|by apply IH].
  destruct (Ascii.eqb_spec c d) as [<-|]; [congruence|done].
Qed.

(** The loop from [i], on the last [String.length s] characters of [n]. *)
Lemma volumeIDLoop_spec n i s :
  (i + String.length s = n)%nat →
  volumeIDLoop n i s = true ↔
  all_chars (λ c, alnum c || is_hyphen c) s = true ∧
  (i = 0%nat → ∀ c, first_char s = Some c → alnum c = true) ∧
  (∀ c, last_char s = Some c → alnum c = true).
Proof.
  assert (Hh : ∀ c, is_hyphen c = true → alnum c = false) by (intros c ->%bool_decide_eq_true_1; done).
  revert i. induction s as [|c s IH]; intros i Hn; [by cbn|]. cbn [String.length] in Hn. cbn [volumeIDLoop all_chars first_char].
  specialize (IH (S i) ltac:(lia)). destruct (alnum c) eqn:Hc; cbn [negb andb orb].
  - rewrite IH. destruct s as [|d s]; [cbn; naive_solver|]. cbn [last_char]. split.
    + intros (H1 & _ & H3). split_and!; [done| |done]. intros _ ? [= <-]. done.
    + intros (H1 & _ & H3). split_and!; [done|done|done].
  - destruct (is_hyphen c) eqn:Hy; cbn [negb orb andb].
    + destruct (decide (i = 0%nat)) as [->|Hi]; [rewrite bool_decide_true by done; cbn; naive_solver|].
      rewrite (bool_decide_false (i = _)) by done. destruct (decide (i = (n - 1)%nat)) as [E|E].
      * rewrite bool_decide_true by done. cbn. assert (s = "") as -> by (destruct s; [done|cbn in Hn; lia]). cbn. naive_solver.
      * rewrite bool_decide_false by done. cbn [orb]. rewrite IH. destruct s as [|d s]; [cbn in Hn; lia|]. cbn [last_char].
        split; intros (? & ? & ?); split_and!; try done; lia.
    + cbn. split; [done|]. by intros [? _].
Qed.

(** A name the store accepts is usable as a volume id, and an id as one segment
    of a host path. *)
Lemma dns_name_is_volume_id name : ValidateDNS1123Name name = true → ValidateVolumeID name = true.
Proof.
  unfold ValidateDNS1123Name, ValidateVolumeID. intros H.
  destruct (bool_decide (String.length name < 1)%nat || _) eqn:Hl; [done|]. apply orb_false_iff in Hl as [H1%bool_decide_eq_false_1 H2%bool_decide_eq_false_1].
  rewrite !bool_decide_false by lia. cbn [orb]. destruct (hyphen_at_end name) eqn:He; [done|].
  destruct (all_chars _ name) eqn:Ha; [|done]. cbn in H. apply volumeIDLoop_spec; [done|]. unfold hyphen_at_end in He.
  apply orb_false_iff in He as [E1 E2].
  assert (Hstep : ∀ c, (alnum c || is_hyphen c = true) → is_hyphen c = false → alnum c = true) by (intros c [|]%orb_true_iff; congruence).
  split; [done|]. split.
  - intros _ c Hc. rewrite Hc in E1. apply Hstep; [|done]. destruct name as [|d s]; [done|]. cbn in Hc. simplify_eq. by apply andb_true_iff in Ha as [? _].
  - intros c Hc. rewrite Hc in E2. apply Hstep; [|done]. clear -Ha Hc. induction name as [|d s IH]; [done|].
    cbn in Ha. apply andb_true_iff in Ha as [Hd Hs]. destruct s as [|e s]; [cbn in Hc; by simplify_eq|]. by apply IH.
Qed.

Lemma volume_id_is_path_segment id : ValidateVolumeID id = true → ValidateVolumePathSegment id = true.
Proof.
  unfold ValidateVolumeID, ValidateVolumePathSegment. intros H. destruct (bool_decide (String.length id = 0%nat) || _) eqn:Hl; [done|].
  apply orb_false_iff in Hl as [Hl _]. apply bool_decide_eq_false_1 in Hl. apply volumeIDLoop_spec in H as (Ha & Hf & _); [|done].
  assert (Hdot : ∀ s, id = String "." s → False).
  { intros s ->. specialize (Hf eq_refl _ eq_refl). done. }
  rewrite !bool_decide_false; [|by intros ->; eapply Hdot|by intros ->; eapply Hdot|by intros ->]. cbn [orb negb].
  rewrite negb_involutive. eapply all_chars_imp; [|exact Ha]. intros c Hc. cbn in Hc.
  rewrite !bool_decide_false; [done|by intros ->..].
Qed.

(** ** Paths

    Go's [path] package as far as the mount code uses it: [path.IsAbs],
    [path.Clean], [filepath.Rel] and [filepath.Join], with slashes.  A rooted path
    is its list of segments; the facts relate the textual tests of the code to
    prefixes of segment lists. *)

#[local] Arguments String.append !_ _ : simpl nomatch.

#[local] Abbreviation slash := ("/"%char).

Definition IsAbs (p : string) : bool := String.prefix "/" p.

(** One element of the path against what is kept so far, last first: [..] undoes
    an element, stays at the root, and is kept at the front of a relative path. *)
Definition clean_step (rooted : bool) (out : list string) (seg : string) : list string :=
  if bool_decide (seg = "") || bool_decide (seg = ".") then out
  else if bool_decide (seg = "..") then
    match out with
    | [] => if rooted then [] else [".."]
    | d :: rest => if bool_decide (d = "..") then ".." :: out else rest
    end
  else seg :: out.

Definition segments (p : string) : list string := rev (fold_left (clean_step (IsAbs p)) (Split slash p) []).

Definition Clean (p : string) : string :=
  if IsAbs p then "/" +:+ JoinWith "/" (segments p)
  else match segments p with [] => "." | l => JoinWith "/" l end.

Definition Join (elems : list string) : string :=
  match List.filter (λ e, negb (bool_decide (e = ""))) elems with [] => "" | l => Clean (JoinWith "/" l) end.

Fixpoint strip_common (a b : list string) : list string * list string :=
  match a, b with
  | x :: a', y :: b' => if bool_decide (x = y) then strip_common a' b' else (a, b)
  | _, _ => (a, b)
  end.

(** [filepath.Rel] on rooted paths; [None] otherwise. *)
Definition Rel (base targ : string) : option string :=
  if IsAbs base && IsAbs targ then
    let '(up, down) := strip_common (segments base) (segments targ) in
    match up, down with
    | [], [] => Some "."
    | _, _ => Some (JoinWith "/" (((λ _, "..") <$> up) ++ down))
    end
  else None.

(** A relative path that leaves its base. *)
Definition climbs (rel : string) : bool := bool_decide (rel = "..") || String.prefix "../" rel.

(** ** Splitting and joining *)

Lemma Split_all_free c s : Forall (λ x, free c x = true) (Split c s).
Proof.
  induction s as [|d s IH]; cbn; [by repeat constructor|]. destruct (Ascii.eqb c d) eqn:E; [by constructor|].
  destruct (Split c s) as [|h t]; [by repeat constructor; cbn; rewrite E|]. inversion_clear IH. constructor; [|done]. cbn. by rewrite E.
Qed.

Lemma JoinWith_cons sep x l : l ≠ [] → JoinWith sep (x :: l) = x +:+ sep +:+ JoinWith sep l.
Proof. by destruct l. Qed.

Lemma JoinWith_app sep a b : a ≠ [] → b ≠ [] → JoinWith sep (a ++ b) = JoinWith sep a +:+ sep +:+ JoinWith sep b.
Proof.
  intros Ha Hb. induction a as [|x a IH]; [done|]. destruct a as [|y a]; [cbn [app]; rewrite JoinWith_cons by done; done|].
  cbn [app] in IH |- *. rewrite JoinWith_cons by done. rewrite (JoinWith_cons _ x (y :: a)) by done. rewrite IH by done.
  by rewrite !string_app_assoc.
Qed.

Lemma Split_join_app l t : l ≠ [] → Forall (λ x, free slash x = true) l → Split slash (JoinWith "/" l +:+ String slash t) = l ++ Split slash t.
Proof.
  induction l as [|x l IH]; [done|]. intros _ Hl. inversion_clear Hl as [|? ? Hx Hl']. destruct l as [|y l]; [by apply Split_cut|].
  rewrite JoinWith_cons, string_app_assoc by done. change ("/" +:+ ?a) with (String slash a). cbn [String.append].
  rewrite Split_cut by done. by rewrite IH.
Qed.

Lemma Split_join l : l ≠ [] → Forall (λ x, free slash x = true) l → Split slash (JoinWith "/" l) = l.
Proof.
  intros Hne Hl. destruct l as [|x l] using rev_ind; [done|]. clear IHl Hne. apply Forall_app in Hl as [Hl Hx].
  rewrite Forall_singleton in Hx. destruct l as [|y l]; [cbn [app JoinWith]; by apply Split_free|].
  rewrite JoinWith_app by done. change (JoinWith "/" [x]) with x. change ("/" +:+ x) with (String slash x). rewrite Split_join_app by done.
  by rewrite Split_free.
Qed.

(** ** Rooted paths are their segments *)

Definition plain (seg : string) : Prop := seg ≠ "" ∧ seg ≠ "." ∧ seg ≠ ".." ∧ free slash seg = true.

Lemma plain_free l : Forall plain l → Forall (λ x, free slash x = true) l.
Proof. intros H. eapply Forall_impl; [exact H|]. by intros x (_ & _ & _ & ?). Qed.

Lemma clean_step_plain out seg : Forall plain out → free slash seg = true → Forall plain (clean_step true out seg).
Proof.
  intros Ho Hs. unfold clean_step. destruct (bool_decide (seg = "") || _) eqn:E; [done|]. bools.
  case_bool_decide as Hd.
  - destruct out as [|d rest]; [done|]. inversion_clear Ho as [|? ? (? & ? & ? & ?) ?]. by rewrite bool_decide_false.
  - by constructor.
Qed.

Lemma segments_plain p : IsAbs p = true → Forall plain (segments p).
Proof.
  intros Hp. unfold segments. rewrite Hp. apply Forall_rev. generalize (Split_all_free slash p).
  assert (Hn : Forall plain []) by done. revert Hn. generalize (@nil string). induction (Split slash p) as [|x l IH]; [done|].
  intros out Ho Hl. inversion_clear Hl. apply IH; [|done]. by apply clean_step_plain.
Qed.

Lemma clean_fold_plain rooted l out : Forall plain l → fold_left (clean_step rooted) l out = rev l ++ out.
Proof.
  revert out. induction l as [|x l IH]; [done|]. intros out Hl. inversion_clear Hl as [|? ? (H1 & H2 & H3 & _) Hl']. cbn.
  rewrite IH by done. unfold clean_step. rewrite !bool_decide_false by done. cbn. by rewrite <- app_assoc.
Qed.

Lemma segments_render l : Forall plain l → segments ("/" +:+ JoinWith "/" l) = l.
Proof.
  intros Hl. unfold segments. change ("/" +:+ ?a) with (String slash a). cbn [Split]. rewrite Ascii.eqb_refl.
  replace (IsAbs _) with true by (unfold IsAbs; cbn; by destruct (JoinWith _ _)).
  cbn [fold_left]. change (clean_step true [] "") with (@nil string). destruct l as [|x l]; [done|].
  rewrite Split_join; [|done|by apply plain_free]. rewrite clean_fold_plain by done. by rewrite app_nil_r, rev_involutive.
Qed.

Lemma segments_Clean p : IsAbs p = true → segments (Clean p) = segments p.
Proof. intros Hp. unfold Clean. rewrite Hp. by apply segments_render, segments_plain. Qed.

Lemma Clean_abs p : IsAbs p = true → IsAbs (Clean p) = true.
Proof. intros Hp. unfold Clean. rewrite Hp. unfold IsAbs. change ("/" +:+ ?a) with (String slash a). cbn. by destruct (JoinWith _ _). Qed.

Lemma Clean_idem p : IsAbs p = true → Clean (Clean p) = Clean p.
Proof. intros Hp. unfold Clean at 1. rewrite Clean_abs, segments_Clean by done. unfold Clean. by rewrite Hp. Qed.

Lemma Clean_eq p q : IsAbs p = true → IsAbs q = true → Clean p = Clean q ↔ segments p = segments q.
Proof.
  intros Hp Hq. split; intros E; [by rewrite <- (segments_Clean p), E, segments_Clean|]. unfold Clean. by rewrite Hp, Hq, E.
Qed.

(** The textual test for "below" is the prefix order of the segments. *)
Lemma prefix_below p q :
  IsAbs p = true → IsAbs q = true → segments q ≠ [] →
  String.prefix (Clean q +:+ "/") (Clean p) = true ↔ ∃ k, k ≠ [] ∧ segments p = segments q ++ k.
Proof.
  intros Hp Hq Hne. rewrite prefix_spec. unfold Clean. rewrite Hp, Hq. generalize (segments_plain p Hp), (segments_plain q Hq).
  revert Hne. generalize (segments p), (segments q). intros sp sq Hne Hsp Hsq. split.
  - intros [t Ht]. rewrite !string_app_assoc in Ht. apply string_app_inj in Ht. change ("/" +:+ t) with (String slash t) in Ht.
    destruct sp as [|x sp]; [exfalso; cbn in Ht; by destruct (JoinWith _ sq)|].
    exists (Split slash t). split; [apply Split_nonempty|].
    rewrite <- (Split_join (x :: sp)); [|done|by apply plain_free]. rewrite Ht. apply Split_join_app; [done|by apply plain_free].
  - intros (k & Hk & ->). exists (JoinWith "/" k). rewrite JoinWith_app by done. by rewrite !string_app_assoc.
Qed.

(** ** Relative paths *)

Lemma strip_common_spec a b :
  ∃ c, a = c ++ (strip_common a b).1 ∧ b = c ++ (strip_common a b).2 ∧
       ((strip_common a b).1 = [] ∨ ¬ (strip_common a b).1 `prefix_of` (strip_common a b).2).
Proof.
  revert b. induction a as [|x a IH]; intros b; [exists []; split_and!; [done..|by left]|].
  destruct b as [|y b]; [exists []; split_and!; [done..|right; by intros [k Hk]]|]. cbn. case_bool_decide as E.
  - subst. destruct (IH b) as (c & Ha & Hb & Hd). exists (y :: c). cbn. by rewrite <- Ha, <- Hb.
  - exists []. split_and!; [done..|]. right. intros Hpre%prefix_cons_inv_1. done.
Qed.

Lemma Rel_within base targ :
  IsAbs base = true → IsAbs targ = true →
  ∃ rel, Rel base targ = Some rel ∧ (climbs rel = false ↔ segments base `prefix_of` segments targ).
Proof.
  intros Hb Ht. unfold Rel. rewrite Hb, Ht. cbn [andb]. destruct (strip_common_spec (segments base) (segments targ)) as (c & Ea & Eb & Hd).
  destruct (strip_common _ _) as [up down]. cbn [fst snd] in *. generalize (segments_plain targ Ht). rewrite Ea, Eb. intros Hpl.
  destruct up as [|u up].
  - rewrite app_nil_r. assert (c `prefix_of` c ++ down) by (by exists down). destruct down as [|d down]; [by eexists|].
    eexists. split; [done|]. split; [done|]. intros _. apply Forall_app in Hpl as [_ Hpl]. cbn [fmap list_fmap app].
    inversion_clear Hpl as [|? ? (H1 & H2 & H3 & H4) Hpl']. unfold climbs. destruct down as [|e down].
    + cbn [JoinWith]. rewrite bool_decide_false by done. cbn [orb]. destruct (String.prefix "../" d) eqn:E; [|done].
      apply prefix_spec in E as [t ->]. done.
    + rewrite JoinWith_cons by done. rewrite bool_decide_false; cycle 1.
      { intros E. assert (free slash (d +:+ "/" +:+ JoinWith "/" (e :: down)) = true) as Hf by by rewrite E.
        rewrite free_app in Hf. cbn in Hf. by rewrite andb_false_r in Hf. }
      cbn [orb]. destruct (String.prefix "../" _) eqn:E; [|done]. apply prefix_spec in E as [t Et].
      change ("/" +:+ ?a) with (String slash a) in Et. change ("../" +:+ t) with (".." +:+ String slash t) in Et.
      by apply cut_inj in Et as [-> _].
  - destruct Hd as [Hd|Hd]; [done|]. eexists. split; [by destruct down|]. split.
    + intros Hc. exfalso. revert Hc. cbn [fmap list_fmap app]. unfold climbs. destruct (((λ _, "..") <$> up) ++ down) as [|e l] eqn:E.
      * done.
      * rewrite JoinWith_cons by done. change (".." +:+ "/" +:+ ?a) with ("../" +:+ a).
        assert (String.prefix "../" ("../" +:+ JoinWith "/" (e :: l)) = true) as -> by (apply prefix_spec; by eexists).
        by rewrite orb_true_r.
    + intros Hp. exfalso. apply Hd. by apply prefix_app_inv in Hp.
Qed.

(** ** Joining below a rooted path *)

Lemma Split_app c a b : Split c (a +:+ String c b) = Split c a ++ Split c b.
Proof.
  induction a as [|d a IH]; cbn [String.append Split]; [by rewrite Ascii.eqb_refl|]. destruct (Ascii.eqb c d); [by rewrite IH|].
  rewrite IH. destruct (Split c a) as [|h t] eqn:E; [by destruct (Split_nonempty c a)|]. done.
Qed.

Lemma clean_fold_grows rooted l out : ".." ∉ l → ∃ k, fold_left (clean_step rooted) l out = k ++ out.
Proof.
  revert out. induction l as [|x l IH]; intros out Hl; [by exists []|]. apply not_elem_of_cons in Hl as [Hx Hl]. cbn [fold_left].
  destruct (IH (clean_step rooted out x) Hl) as [k ->]. unfold clean_step. destruct (_ || _); [by exists k|].
  rewrite bool_decide_false by done. exists (k ++ [x]). by rewrite <- app_assoc.
Qed.

Lemma JoinWith_Split l : l ≠ [] → Split "/"%char (JoinWith "/" l) = l ≫= Split "/"%char.
Proof.
  induction l as [|x l IH]; [done|]. intros _. destruct l as [|y l]; [cbn; by rewrite app_nil_r|].
  rewrite JoinWith_cons by done. change ("/" +:+ ?a) with (String "/"%char a). rewrite Split_app, IH by done. done.
Qed.

(** Elements without [..] after a rooted one stay below it. *)
Lemma Join_below source elems :
  IsAbs source = true → (∀ e, e ∈ elems → ".." ∉ Split "/"%char e) →
  segments source `prefix_of` segments (Join (source :: elems)).
Proof.
  intros Ha Hne. unfold Join. cbn [List.filter].
  assert (source ≠ "") by (by destruct source). rewrite bool_decide_false by done. cbn [negb].
  set (l := List.filter _ elems). assert (Hl : ∀ e, e ∈ l → ".." ∉ Split "/"%char e) by (intros e [_ ?]%elem_of_filterb; auto).
  clearbody l. assert (Habs : IsAbs (JoinWith "/" (source :: l)) = true).
  { destruct l; [done|]. rewrite JoinWith_cons by done. unfold IsAbs in *. apply prefix_spec in Ha as [t ->]. apply prefix_spec.
    eexists. by rewrite string_app_assoc. }
  rewrite segments_Clean by done. unfold segments. rewrite Habs, Ha, JoinWith_Split by done. cbn [mbind list_bind]. rewrite fold_left_app.
  destruct (clean_fold_grows true (l ≫= Split "/"%char) (fold_left (clean_step true) (Split "/"%char source) [])) as [k ->].
  - intros (e & He & Hin)%list_elem_of_bind. by apply (Hl e Hin).
  - rewrite rev_app_distr. by exists (rev k).
Qed.

Lemma Rel_inside base targ rel :
  IsAbs base = true → IsAbs targ = true → Rel base targ = Some rel → climbs rel = false → ".." ∉ Split "/"%char rel.
Proof.
  intros Hb Ht Hr Hc. destruct (Rel_within base targ) as (rel' & E & Hin); [done..|]. rewrite Hr in E. injection E as <-.
  apply Hin in Hc. revert Hr. unfold Rel. rewrite Hb, Ht. cbn [andb].
  destruct (strip_common_spec (segments base) (segments targ)) as (c & Ea & Eb & Hd). destruct (strip_common _ _) as [up down]. cbn [fst snd] in *.
  pose proof (segments_plain targ Ht) as Hpl. rewrite Ea, Eb in Hc. apply prefix_app_inv in Hc. destruct Hd as [->|Hd]; [|done].
  cbn [fmap list_fmap app]. rewrite Eb in Hpl. apply Forall_app in Hpl as [_ Hpl]. destruct down as [|x down].
  - intros [= <-]. cbn. intros ?%list_elem_of_singleton. done.
  - intros E. apply (inj Some) in E. rewrite <- E, Split_join; [|done|by apply plain_free]. rewrite Forall_forall in Hpl. intros Hin'. by destruct (Hpl _ Hin') as (_ & _ & ? & _).
Qed.
