(* ===== verification/Sessions.v ===== *)
(** * Tokens and sessions (pkg/store/repos/{token,user}.go, pkg/api/session/manager.go,
      pkg/api/server/{handoff,refresh}.go, pkg/api/service/{auth,auth_enroll}.go)

    Tokens are stored by the hash of their secret; refresh grants are rotated by
    the session manager, which keeps the successor of a rotated secret for a grace
    window; enrollment and handoff codes are exchanged for grants once.  The world
    is the stored tokens, users and policies and the in-memory tables.  Every call
    takes a tick: the environment answers it, and [se_tokens] and [se_users] are
    what other writers do to the rows before a store call; [se_policy] says which
    policies can be read.  SHA-256 is the
    parameter [sha256].  Log lines, metrics and response headers other than the
    cookie are left out. *)

From Stdlib Require Import Ascii.
From S2P Require Import Prelude Text Effects Types Release Authz.

(** ** Tokens (types/token.go) *)

Inductive TokenKind := TokenKindStatic | TokenKindAccess | TokenKindRefresh.

#[global] Instance TokenKind_dec : EqDecision TokenKind.
Proof. solve_decision. Defined.

Record Token := mkToken {
  tk_ID : string;
  tk_Name : string;
  tk_SubjectID : string;
  tk_SubjectType : string;
  tk_Description : string;
  tk_IssuedAt : Time;
  tk_ExpiresAt : option Time;
  tk_Revoked : bool;
  tk_SecretHash : string;
  tk_Kind : TokenKind;
  tk_PrevSecretHash : string;
  tk_LastUsedAt : option Time;
}.

Definition TokenSecretPrefix : string := "rune_".

Definition with_revoked (t : Token) : Token :=
  mkToken (tk_ID t) (tk_Name t) (tk_SubjectID t) (tk_SubjectType t) (tk_Description t) (tk_IssuedAt t) (tk_ExpiresAt t) true
    (tk_SecretHash t) (tk_Kind t) (tk_PrevSecretHash t) (tk_LastUsedAt t).

Definition rotated (now : Time) (slidingTTL : Duration) (hash : string) (t : Token) : Token :=
  mkToken (tk_ID t) (tk_Name t) (tk_SubjectID t) (tk_SubjectType t) (tk_Description t) (tk_IssuedAt t)
    (if 0 <? slidingTTL then Some (now + slidingTTL) else tk_ExpiresAt t) (tk_Revoked t)
    hash (tk_Kind t) (tk_SecretHash t) (Some now).

(** Not revoked and not expired. *)
Definition live (now : Time) (t : Token) : bool :=
  negb (tk_Revoked t) && match tk_ExpiresAt t with None => true | Some e => After e now end.

Definition expired (now : Time) (t : Token) : bool := match tk_ExpiresAt t with None => false | Some e => negb (After e now) end.

(** ** Policies (types/policy.go) *)

Record Policy := mkPolicy {
  po_ID : string;
  po_Name : string;
  po_Description : string;
  po_Rules : list PolicyRule;
  po_Builtin : bool;
}.

(** ** The session manager's data *)

Definition Minute : Duration := 60 * Second.
Definition Hour : Duration := 60 * Minute.
Definition DefaultAccessTTL : Duration := 15 * Minute.
Definition DefaultRefreshTTL : Duration := 30 * 24 * Hour.
Definition DefaultGraceWindow : Duration := 30 * Second.
Definition defaultEnrollTTL : Duration := 10 * Minute.

Inductive Result := ResultOK | ResultBreach | ResultInvalid | ResultError.

Record Out := mkOut { out_Access : string; out_Refresh : string; out_AccessExp : option Time }.
Definition no_out : Out := mkOut "" "" None.

Record graceEntry := mkGrace { ge_out : Out; ge_graceExp : Time }.
Record Manager := mkManager { mg_AccessTTL : Duration; mg_RefreshTTL : Duration; mg_GraceWindow : Duration }.

Definition New : Manager := mkManager DefaultAccessTTL DefaultRefreshTTL DefaultGraceWindow.

(** [ensureRefreshManager]: a positive option overrides the default. *)
Definition ensureRefreshManager (access refresh grace : Duration) : Manager :=
  mkManager (if 0 <? access then access else DefaultAccessTTL) (if 0 <? refresh then refresh else DefaultRefreshTTL)
    (if 0 <? grace then grace else DefaultGraceWindow).

Record enrollEntry := mkEnroll { en_subjectName : string; en_subjectType : string; en_policies : list string; en_expiry : Time }.
Record handoffEntry := mkHandoff { ho_token : string; ho_expiry : Time }.
Inductive takeResult := takeClaimed | takeExpired | takeNotFound.

(** A handler either answers or dereferences a nil pointer. *)
Inductive reply (A : Type) := Reply (a : A) | Panics.
Arguments Reply {A} a.
Arguments Panics {A}.

(** ** The world *)

Record sworld := mkSworld {
  sw_tokens : gmap string Token;
  sw_users : gmap string User;
  sw_policies : gmap string Policy;
  sw_grace : gmap string graceEntry;
  sw_enroll : gmap string enrollEntry;
  sw_handoff : gmap string handoffEntry;
  sw_tick : nat;
}.

Record session_env := mkSessionEnv {
  se_now : nat → Time;
  se_store : nat → bool;
  se_uuid : nat → string;
  se_code : nat → option string;
  se_tokens : nat → gmap string Token → gmap string Token;
  se_users : nat → gmap string User → gmap string User;
  se_policy : nat → string → bool;
}.

(** Rows in the order of their keys, as the store lists them. *)
Definition listing {A} (m : gmap string A) : list A := (SliceStable (λ a b, String.ltb a.1 b.1) (map_to_list m)).*2.

Section Sessions.
Context (sha256 : string → string) (env : session_env).

#[local] Abbreviation io := (prog sworld).

Definition tick : io nat := λ w,
  (mkSworld (sw_tokens w) (sw_users w) (sw_policies w) (sw_grace w) (sw_enroll w) (sw_handoff w) (S (sw_tick w)), Some (sw_tick w)).
Definition ask {A} (f : session_env → nat → A) : io A := n ← tick; mret (f env n).

Definition setTokens (f : gmap string Token → gmap string Token) : io unit := modify (λ w,
  mkSworld (f (sw_tokens w)) (sw_users w) (sw_policies w) (sw_grace w) (sw_enroll w) (sw_handoff w) (sw_tick w)).
Definition setUsers (f : gmap string User → gmap string User) : io unit := modify (λ w,
  mkSworld (sw_tokens w) (f (sw_users w)) (sw_policies w) (sw_grace w) (sw_enroll w) (sw_handoff w) (sw_tick w)).
Definition setPolicies (f : gmap string Policy → gmap string Policy) : io unit := modify (λ w,
  mkSworld (sw_tokens w) (sw_users w) (f (sw_policies w)) (sw_grace w) (sw_enroll w) (sw_handoff w) (sw_tick w)).
Definition setGrace (f : gmap string graceEntry → gmap string graceEntry) : io unit := modify (λ w,
  mkSworld (sw_tokens w) (sw_users w) (sw_policies w) (f (sw_grace w)) (sw_enroll w) (sw_handoff w) (sw_tick w)).
Definition setEnroll (f : gmap string enrollEntry → gmap string enrollEntry) : io unit := modify (λ w,
  mkSworld (sw_tokens w) (sw_users w) (sw_policies w) (sw_grace w) (f (sw_enroll w)) (sw_handoff w) (sw_tick w)).
Definition setHandoff (f : gmap string handoffEntry → gmap string handoffEntry) : io unit := modify (λ w,
  mkSworld (sw_tokens w) (sw_users w) (sw_policies w) (sw_grace w) (sw_enroll w) (f (sw_handoff w)) (sw_tick w)).

(** Others write, then the call succeeds or not. *)
Definition access : io bool := n ← tick; setTokens (se_tokens env n);; setUsers (se_users env n);; mret (se_store env n).

(** ** The token repository (store/repos/token.go) *)

Definition hashSecret (secret : string) : string := sha256 secret.

Definition newSecret : io string := a ← ask se_uuid; b ← ask se_uuid; mret (TokenSecretPrefix +:+ a +:+ "." +:+ b).

Definition issue (name subjectID subjectType desc : string) (ttl : Duration) (kind : TokenKind) : io (Token * string) :=
  secret ← newSecret;
  now ← ask se_now;
  id ← ask se_uuid;
  let tok := mkToken id name subjectID subjectType desc now (if 0 <? ttl then Some (now + ttl) else None) false (hashSecret secret) kind "" None in
  ok ← access; guardp ok;;
  tokens ← gets sw_tokens; guardp (negb (bool_decide (is_Some (tokens !! id))));;
  setTokens (<[id := tok]>);;
  mret (tok, secret).

Definition IssueStatic (name subjectID subjectType desc : string) (ttl : Duration) := issue name subjectID subjectType desc ttl TokenKindStatic.
Definition IssueAccess (subjectID subjectType : string) (ttl : Duration) := issue "access" subjectID subjectType "" ttl TokenKindAccess.
Definition IssueRefreshGrant (name subjectID subjectType : string) (ttl : Duration) := issue name subjectID subjectType "" ttl TokenKindRefresh.

Definition Get (id : string) : io Token := ok ← access; guardp ok;; tokens ← gets sw_tokens; from_option (tokens !! id).

Definition Update (t : Token) : io unit :=
  ok ← access; guardp ok;; tokens ← gets sw_tokens; guardp (bool_decide (is_Some (tokens !! tk_ID t)));; setTokens (<[tk_ID t := t]>).

Definition Revoke (id : string) : io unit := t ← Get id; Update (with_revoked t).

Definition Delete (id : string) : io unit :=
  ok ← access; guardp ok;; tokens ← gets sw_tokens; guardp (bool_decide (is_Some (tokens !! id)));; setTokens (base.delete id).

Definition List : io (list Token) := ok ← access; guardp ok;; gets (λ w, listing (sw_tokens w)).

Definition has_prefix (secret : string) : bool := String.prefix TokenSecretPrefix secret.

Definition lookupBySecret (secret : string) : io Token :=
  let secret := TrimSpace secret in
  guardp (has_prefix secret);;
  tokens ← List;
  now ← ask se_now;
  from_option (List.find (λ t, bool_decide (tk_SecretHash t = hashSecret secret) && live now t) tokens).

Definition FindRequestBearer (secret : string) : io Token :=
  tok ← lookupBySecret secret; guardp (negb (bool_decide (tk_Kind tok = TokenKindRefresh)));; mret tok.

Definition FindRefreshGrant (secret : string) : io Token :=
  tok ← lookupBySecret secret; guardp (bool_decide (tk_Kind tok = TokenKindRefresh));; mret tok.

Definition FindRefreshGrantByPrevHash (secret : string) : io Token :=
  let secret := TrimSpace secret in
  guardp (has_prefix secret);;
  tokens ← List;
  from_option (List.find (λ t, bool_decide (tk_Kind t = TokenKindRefresh) && negb (tk_Revoked t) &&
                               bool_decide (tk_PrevSecretHash t = hashSecret secret)) tokens).

(** The grant is the caller's copy. *)
Definition RotateGrantSecret (grant : Token) (slidingTTL : Duration) : io string :=
  newPlain ← newSecret;
  now ← ask se_now;
  Update (rotated now slidingTTL (hashSecret newPlain) grant);;
  mret newPlain.

Fixpoint deleteExpired (now : Time) (tokens : list Token) : io unit :=
  match tokens with
  | [] => mret tt
  | t :: tokens => (if expired now t then Delete (tk_ID t) else mret tt);; deleteExpired now tokens
  end.

Definition DeleteExpiredTokens (now : Time) : io unit := tokens ← List; deleteExpired now tokens.

(** One turn of the sweep [startTokenGC] runs. *)
Definition tokenGC : io unit := now ← ask se_now; try (DeleteExpiredTokens now);; mret tt.

(** ** The session manager (api/session/manager.go) *)

Definition gcGraceLocked (now : Time) : io unit := setGrace (base.filter (λ kv, After now (ge_graceExp kv.2) = false)).

Definition issueAccess (m : Manager) (subjectID subjectType : string) : io (string * option Time) :=
  r ← IssueAccess subjectID subjectType (mg_AccessTTL m); mret (r.2, tk_ExpiresAt r.1).

(** A live grant's current secret. *)
Definition rotateGrant (m : Manager) (now : Time) (secret : string) (grant : Token) : io (Out * Result) :=
  a ← try (issueAccess m (tk_SubjectID grant) (tk_SubjectType grant));
  match a with
  | None => mret (no_out, ResultError)
  | Some (accessSecret, accessExp) =>
      r ← try (RotateGrantSecret grant (mg_RefreshTTL m));
      match r with
      | None => mret (no_out, ResultError)
      | Some newRefresh =>
          let out := mkOut accessSecret newRefresh accessExp in
          setGrace (<[hashSecret (TrimSpace secret) := mkGrace out (now + mg_GraceWindow m)]>);;
          gcGraceLocked now;;
          mret (out, ResultOK)
      end
  end.

(** Any other secret: a replay within the grace window, a replay past it, or
    nothing known. *)
Definition replay (now : Time) (secret : string) : io (Out * Result) :=
  let h := hashSecret (TrimSpace secret) in
  grace ← gets sw_grace;
  match grace !! h with
  | Some e => if Before now (ge_graceExp e) then mret (Some (ge_out e)) else setGrace (base.delete h);; mret None
  | None => mret None
  end ≫= λ served,
  match served with
  | Some out => mret (out, ResultOK)
  | None =>
      g ← try (FindRefreshGrantByPrevHash secret);
      match g with
      | Some g => try (Revoke (tk_ID g));; mret (no_out, ResultBreach)
      | None => mret (no_out, ResultInvalid)
      end
  end.

Definition Rotate (m : Manager) (secret : string) : io (Out * Result) :=
  now ← ask se_now;
  g ← try (FindRefreshGrant secret);
  match g with Some grant => rotateGrant m now secret grant | None => replay now secret end.

(** ** Users (store/repos/user.go) *)

Inductive user_err := UserNotFound | UserError.

Definition GetByNameOrID (nameOrID : string) : io (result user_err User) :=
  ok ← access;
  if negb ok then mret (Err UserError)
  else
    users ← gets sw_users;
    match users !! nameOrID with
    | Some u => mret (Ok u)
    | None =>
        ok ← access;
        if negb ok then mret (Err UserError)
        else
          users ← gets sw_users;
          mret (match List.find (λ u, bool_decide (us_Name u = nameOrID)) (listing users) with Some u => Ok u | None => Err UserNotFound end)
    end.

Definition createUser (name : string) : io User :=
  guardp (negb (bool_decide (name = "")));;
  id ← ask se_uuid;
  let u := mkUser id name [] in
  ok ← access; guardp ok;;
  users ← gets sw_users; guardp (negb (bool_decide (is_Some (users !! id))));;
  setUsers (<[id := u]>);;
  ok ← access; guardp ok;;
  users ← gets sw_users; from_option (users !! id).

Definition updateUser (u : User) : io unit :=
  ok ← access; guardp ok;; users ← gets sw_users; guardp (bool_decide (is_Some (users !! us_ID u)));; setUsers (<[us_ID u := u]>).

(** The user the caller goes on with. *)
Definition ensureUserHasPolicy (u : User) (policyName : string) : io User :=
  if bool_decide (policyName ∈ us_Policies u) then mret u
  else let u := mkUser (us_ID u) (us_Name u) (us_Policies u ++ [policyName]) in updateUser u;; mret u.

Fixpoint ensurePolicies (u : User) (policies : list string) : io User :=
  match policies with
  | [] => mret u
  | p :: policies => u ← (if bool_decide (p = "") then mret u else ensureUserHasPolicy u p); ensurePolicies u policies
  end.

(** Every policy named is there. *)
Fixpoint policiesExist (policies : list string) : io unit :=
  match policies with
  | [] => mret tt
  | p :: policies =>
      (if bool_decide (p = "") then mret tt
       else ok ← access; guardp ok;; known ← gets sw_policies; guardp (bool_decide (is_Some (known !! p))));;
      policiesExist policies
  end.

(** ** Creating and revoking (api/service/auth.go) *)

Record CreateTokenRequest := mkCreateToken {
  ct_Name : string;
  ct_SubjectID : string;
  ct_SubjectName : string;
  ct_SubjectType : string;
  ct_Kind : string;
  ct_Policies : list string;
  ct_Description : string;
  ct_TtlSeconds : Z;
}.

Definition PickFirstNonEmpty (l : list string) : string :=
  match List.find (λ s, negb (bool_decide (s = ""))) l with Some s => s | None => "" end.

Definition subjectTypeOf (s : string) : option string :=
  let s := if bool_decide (s = "") then "user" else s in
  if bool_decide (s = "user") || bool_decide (s = "service") then Some s else None.

Definition kindOf (s : string) : option TokenKind :=
  if bool_decide (s = "") || bool_decide (s = "static") then Some TokenKindStatic
  else if bool_decide (s = "refresh") then Some TokenKindRefresh else None.

(** A subject created on the way gets the policies of the request, or readonly. *)
Definition newSubject (rq : CreateTokenRequest) : io User :=
  let subjectName := PickFirstNonEmpty [ct_SubjectName rq; ct_Name rq] in
  guardp (negb (bool_decide (subjectName = "")));;
  u ← createUser subjectName;
  if existsb (λ p, negb (bool_decide (p = ""))) (ct_Policies rq) then ensurePolicies u (ct_Policies rq)
  else ensureUserHasPolicy u "readonly".

Definition issueFor (rq : CreateTokenRequest) (kind : TokenKind) (subjectType : string) (u : User) : io (Token * string) :=
  let ttl := wrap64 (ct_TtlSeconds rq * Second) in
  match kind with
  | TokenKindRefresh => IssueRefreshGrant (ct_Name rq) (us_ID u) subjectType (if ttl <=? 0 then DefaultRefreshTTL else ttl)
  | _ => IssueStatic (ct_Name rq) (us_ID u) subjectType (ct_Description rq) ttl
  end.

Definition CreateToken (rq : CreateTokenRequest) : io (reply (Token * string)) :=
  subjectType ← from_option (subjectTypeOf (ct_SubjectType rq));
  kind ← from_option (kindOf (ct_Kind rq));
  policiesExist (ct_Policies rq);;
  let nameOrID := PickFirstNonEmpty [ct_SubjectID rq; ct_SubjectName rq; ct_Name rq] in
  guardp (negb (bool_decide (nameOrID = "")));;
  found ← GetByNameOrID nameOrID;
  match found with
  | Err UserError => mret Panics
  | Err UserNotFound => u ← newSubject rq; r ← issueFor rq kind subjectType u; mret (Reply r)
  | Ok u => r ← issueFor rq kind subjectType u; mret (Reply r)
  end.

Definition RevokeToken (id : string) : io unit := Revoke id.

Inductive code := Unauthenticated | Internal | Unimplemented | InvalidArgument.

(** The RPC; no manager is wired when it is [None]. *)
Definition Refresh (m : option Manager) (secret : string) : io (result code Out) :=
  match m with
  | None => mret (Err Unimplemented)
  | Some m =>
      r ← Rotate m secret;
      mret (match r.2 with
            | ResultOK => Ok r.1
            | ResultBreach | ResultInvalid => Err Unauthenticated
            | ResultError => Err Internal
            end)
  end.

(** ** Enrollment (api/service/auth_enroll.go) *)

Definition enroll_gc (now : Time) : io unit := setEnroll (base.filter (λ kv, After now (en_expiry kv.2) = false)).

Definition enroll_put (c : string) (e : enrollEntry) : io unit := now ← ask se_now; enroll_gc now;; setEnroll (<[c := e]>).

Definition enroll_take (c : string) : io (option enrollEntry) :=
  m ← gets sw_enroll;
  match m !! c with
  | None => mret None
  | Some e => setEnroll (base.delete c);; now ← ask se_now; mret (if After now (en_expiry e) then None else Some e)
  end.

Definition newEnrollmentCode : io string := c ← ask se_code; c ← from_option c; mret ("enr_" +:+ c).

Definition Enroll (subjectName subjectType : string) (policies : list string) (ttlSeconds : Z) : io (string * Time) :=
  subjectType ← from_option (subjectTypeOf subjectType);
  guardp (negb (bool_decide (TrimSpace subjectName = "")));;
  policiesExist policies;;
  let ttl := wrap64 (ttlSeconds * Second) in
  let ttl := if ttl <=? 0 then defaultEnrollTTL else ttl in
  c ← newEnrollmentCode;
  now ← ask se_now;
  enroll_put c (mkEnroll subjectName subjectType policies (now + ttl));;
  mret (c, now + ttl).

Record Redeemed := mkRedeemed { rd_Refresh : string; rd_Access : string; rd_SubjectID : string; rd_ExpiresAt : option Time }.

Definition resolveSubject (name : string) : io User :=
  found ← GetByNameOrID name;
  match found with Ok u => mret u | Err UserNotFound => createUser name | Err UserError => Effects.fail end.

Definition RedeemEnrollment (m : option Manager) (c grantName : string) : io Redeemed :=
  entry ← enroll_take c;
  entry ← from_option entry;
  u ← resolveSubject (en_subjectName entry);
  u ← ensurePolicies u (en_policies entry);
  let grantName := if bool_decide (TrimSpace grantName = "") then "enrolled" else grantName in
  g ← IssueRefreshGrant grantName (us_ID u) (en_subjectType entry) (match m with Some m => mg_RefreshTTL m | None => DefaultRefreshTTL end);
  match m with
  | None => mret (mkRedeemed g.2 "" (us_ID u) None)
  | Some m =>
      r ← Rotate m g.2;
      mret (match r.2 with
            | ResultOK => mkRedeemed (out_Refresh r.1) (out_Access r.1) (us_ID u) (out_AccessExp r.1)
            | _ => mkRedeemed g.2 "" (us_ID u) None
            end)
  end.

(** ** Handoff and the refresh endpoint (api/server/{handoff,refresh}.go) *)

Definition newHandoffTTL (ttl : Duration) : Duration := if ttl <=? 0 then 60 * Second else ttl.

Definition handoff_gc : io unit := now ← ask se_now; setHandoff (base.filter (λ kv, After now (ho_expiry kv.2) = false)).

Definition handoff_put (ttl : Duration) (c token : string) : io unit :=
  handoff_gc;; now ← ask se_now; setHandoff (<[c := mkHandoff token (now + newHandoffTTL ttl)]>).

Definition handoff_take (c : string) : io (string * takeResult) :=
  m ← gets sw_handoff;
  match m !! c with
  | None => mret ("", takeNotFound)
  | Some e => setHandoff (base.delete c);; now ← ask se_now; mret (if After now (ho_expiry e) then ("", takeExpired) else (ho_token e, takeClaimed))
  end.

Fixpoint trimSlashes (s : string) : string :=
  match s with
  | EmptyString => EmptyString
  | String c s' => match trimSlashes s' with
      | EmptyString => if bool_decide (c = "/"%char) then EmptyString else String c EmptyString
      | t => String c t
      end
  end.

Fixpoint trimSlashesLeft (s : string) : string :=
  match s with String c s' => if bool_decide (c = "/"%char) then trimSlashesLeft s' else s | EmptyString => EmptyString end.

Definition handoffMountPrefix : string := "/v1/ui/handoff/".

Definition handoffCodeFromPath (p : string) : string :=
  if negb (String.prefix handoffMountPrefix p) then "" else trimSlashes (trimSlashesLeft (TrimPrefix p handoffMountPrefix)).

Definition bearerFromRequest (h : string) : string :=
  if (7 <=? String.length h)%nat && EqualFold (String.substring 0 7 h) "Bearer " then TrimSpace (string_drop 7 h) else "".

(** The refresh cookie; it is HttpOnly, SameSite=Strict and scoped to the refresh
    path.  [ck_MaxAge] is in seconds, zero when it is left out. *)
Record Cookie := mkCookie { ck_Value : string; ck_Secure : bool; ck_MaxAge : Z }.

Record Transport := mkTransport { tr_EnableTLS : bool; tr_TLS : bool; tr_ForwardedProto : string }.

Definition refreshCookie (tr : Transport) (value : string) (ttl : Duration) : Cookie :=
  mkCookie value (tr_EnableTLS tr || tr_TLS tr || EqualFold (tr_ForwardedProto tr) "https")
    (if ttl <? 0 then -1 else if 0 <? ttl then Z.quot ttl Second else 0).

(** An HTTP answer: the status, the cookie set, and the tokens in the body. *)
Record HttpReply := mkHttpReply { hr_Status : Z; hr_Cookie : option Cookie; hr_Access : string; hr_Refresh : string }.
Definition http (status : Z) : HttpReply := mkHttpReply status None "" "".

Inductive Method := POST | GET | OtherMethod.

Definition handoffHandler (enabled : bool) (ttl : Duration) (m : Manager) (tr : Transport) (method : Method) (path authorization : string) : io HttpReply :=
  if negb enabled then mret (http 404)
  else
    let c := handoffCodeFromPath path in
    if bool_decide (c = "") || (256 <? String.length c)%nat then mret (http 400)
    else match method with
    | POST =>
        let token := bearerFromRequest authorization in
        if bool_decide (token = "") then mret (http 401)
        else
          tok ← try (FindRequestBearer token);
          match tok with
          | None => mret (http 401)
          | Some tok =>
              g ← try (IssueRefreshGrant "dashboard" (tk_SubjectID tok) (tk_SubjectType tok) (mg_RefreshTTL m));
              match g with
              | None => mret (http 500)
              | Some (_, grantSecret) => handoff_put ttl c grantSecret;; mret (http 204)
              end
          end
    | GET =>
        r ← handoff_take c;
        match r.2 with
        | takeExpired | takeNotFound => mret (http 404)
        | takeClaimed => mret (mkHttpReply 204 (Some (refreshCookie tr r.1 (mg_RefreshTTL m))) "" "")
        end
    | OtherMethod => mret (http 405)
    end.

(** The secret and whether it came as a cookie. *)
Definition presentedRefresh (cookie body : option string) : string * bool :=
  match cookie with
  | Some v => if negb (bool_decide (TrimSpace v = "")) then (v, true) else (default "" body, false)
  | None => (default "" body, false)
  end.

Definition refreshHandler (m : Manager) (tr : Transport) (method : Method) (cookie body : option string) : io HttpReply :=
  match method with
  | POST =>
      let '(secret, cookieMode) := presentedRefresh cookie body in
      if bool_decide (TrimSpace secret = "") then mret (http 400)
      else
        r ← Rotate m secret;
        mret (match r.2 with
              | ResultOK => mkHttpReply 200 (if cookieMode then Some (refreshCookie tr (out_Refresh r.1) (mg_RefreshTTL m)) else None)
                              (out_Access r.1) (if cookieMode then "" else out_Refresh r.1)
              | ResultBreach | ResultInvalid => mkHttpReply 401 (if cookieMode then Some (refreshCookie tr "" (- Hour)) else None) "" ""
              | ResultError => http 500
              end)
  | _ => mret (http 405)
  end.
End Sessions.
