(* ===== verification/ApiGate.v ===== *)
(** * The gate of the API (pkg/api/server/{server,auth,http,utils,bootstrap,exec_ws}.go,
      pkg/api/service/admin.go)

    Every RPC passes the authentication, admin and policy interceptors before its
    handler; the dashboard's transcoder and the exec bridge add a gate of their own.
    The method table decides which verb of which resource a call needs.  The
    built-in policies are seeded at start, and the admin handlers write users and
    policies.  A request is seen by the namespace fields the reflection reads, a
    peer by its address; [isLocalhost] (Go's net package) is a parameter. *)

From Stdlib Require Import Ascii.
From S2P Require Import Prelude Text Effects Types Names Release Authz Sessions.

(** ** Methods (utils.go, http.go) *)

(** The cases of [methodToAction], in order: prefix, resource and verb. *)
Definition method_table : list (string * (string * string)) :=
  [("/rune.api.ServiceService/Get", ("services", "get"));
   ("/rune.api.ServiceService/List", ("services", "list"));
   ("/rune.api.ServiceService/Create", ("services", "create"));
   ("/rune.api.ServiceService/Update", ("services", "update"));
   ("/rune.api.ServiceService/Delete", ("services", "delete"));
   ("/rune.api.ServiceService/Scale", ("services", "scale"));
   ("/rune.api.ServiceService/Restart", ("services", "scale"));
   ("/rune.api.InstanceService/Get", ("instances", "get"));
   ("/rune.api.InstanceService/List", ("instances", "list"));
   ("/rune.api.InstanceService/Watch", ("instances", "watch"));
   ("/rune.api.LogService/StreamLogs", ("logs", "get"));
   ("/rune.api.LogService/GetLogs", ("logs", "get"));
   ("/rune.api.ExecService/StreamExec", ("exec", "exec"));
   ("/rune.api.PortForwardService/StreamPortForward", ("services", "port-forward"));
   ("/rune.api.HealthService/GetHealth", ("health", "get"));
   ("/rune.api.ConfigmapService/ListConfigmapVersions", ("configmaps", "get"));
   ("/rune.api.ConfigmapService/PatchConfigmap", ("configmaps", "update"));
   ("/rune.api.ConfigmapService/RollbackConfigmap", ("configmaps", "update"));
   ("/rune.api.ConfigmapService/Get", ("configmaps", "get"));
   ("/rune.api.ConfigmapService/List", ("configmaps", "list"));
   ("/rune.api.ConfigmapService/Create", ("configmaps", "create"));
   ("/rune.api.ConfigmapService/Update", ("configmaps", "update"));
   ("/rune.api.ConfigmapService/Delete", ("configmaps", "delete"));
   ("/rune.api.SecretService/RollbackSecret", ("secrets", "update"));
   ("/rune.api.SecretService/Patch", ("secrets", "update"));
   ("/rune.api.SecretService/ListSecretVersions", ("secrets", "get"));
   ("/rune.api.SecretService/RevealSecretVersion", ("secrets", "reveal"));
   ("/rune.api.SecretService/Reveal", ("secrets", "reveal"));
   ("/rune.api.SecretService/Get", ("secrets", "get"));
   ("/rune.api.SecretService/List", ("secrets", "list"));
   ("/rune.api.SecretService/Create", ("secrets", "create"));
   ("/rune.api.SecretService/Update", ("secrets", "update"));
   ("/rune.api.SecretService/Delete", ("secrets", "delete"));
   ("/rune.api.AuditService/List", ("audit", "list"));
   ("/rune.api.AuditService/Get", ("audit", "get"));
   ("/rune.api.StorageClassService/Get", ("storageclasses", "get"));
   ("/rune.api.StorageClassService/List", ("storageclasses", "list"));
   ("/rune.api.StorageClassService/Create", ("storageclasses", "create"));
   ("/rune.api.StorageClassService/Update", ("storageclasses", "update"));
   ("/rune.api.StorageClassService/Delete", ("storageclasses", "delete"));
   ("/rune.api.VolumeService/Get", ("volumes", "get"));
   ("/rune.api.VolumeService/List", ("volumes", "list"));
   ("/rune.api.VolumeService/Create", ("volumes", "create"));
   ("/rune.api.VolumeService/Update", ("volumes", "update"));
   ("/rune.api.VolumeService/Delete", ("volumes", "delete"));
   ("/rune.api.VolumeService/RetryProvision", ("volumes", "update"));
   ("/rune.api.VolumeService/Detach", ("volumes", "update"));
   ("/rune.api.SnapshotService/Get", ("snapshots", "get"));
   ("/rune.api.SnapshotService/List", ("snapshots", "list"));
   ("/rune.api.SnapshotService/Create", ("snapshots", "create"));
   ("/rune.api.SnapshotService/Delete", ("snapshots", "delete"));
   ("/rune.api.SnapshotService/RestoreVolume", ("volumes", "create"));
   ("/rune.api.ReleaseService/Cast", ("releases", "create"));
   ("/rune.api.ReleaseService/Plan", ("releases", "get"));
   ("/rune.api.ReleaseService/ListReleases", ("releases", "list"));
   ("/rune.api.ReleaseService/GetRelease", ("releases", "get"));
   ("/rune.api.ReleaseService/History", ("releases", "get"));
   ("/rune.api.ReleaseService/DeleteRelease", ("releases", "delete"));
   ("/rune.api.ReleaseService/Rollback", ("releases", "update"));
   ("/rune.api.ReleaseService/RevealReleaseValues", ("releases", "reveal"));
   ("/rune.api.ObserveService/PushLogs", ("logs", "observe"));
   ("/rune.api.ObserveService/", ("logs", "observe"));
   ("/rune.api.EventService/", ("*", "get"));
   ("/rune.api.DescribeService/Describe", ("*", "get"));
   ("/rune.api.AuthService/WhoAmI", ("auth", "get"));
   ("/rune.api.AdminService/", ("admin", "*"))
  ].

Definition methodToAction (method : string) : string * string :=
  match List.find (λ c, String.prefix c.1 method) method_table with Some c => c.2 | None => ("*", "*") end.

Definition methodToResource (method : string) : string := if String.prefix "/rune.api.AdminService/" method then "admin" else "".

Definition bootstrapMethod : string := "/rune.api.AdminService/AdminBootstrap".

Definition publicMethodSuffixes : list string :=
  ["/rune.api.HealthService/GetServerVersion"; bootstrapMethod; "/rune.api.AuthService/Refresh"; "/rune.api.AuthService/RedeemEnrollment"].

Definition isPublicMethod (fullMethod : string) : bool := existsb (HasSuffix fullMethod) publicMethodSuffixes.
Definition isPublicGRPCPath (p : string) : bool := isPublicMethod p.

(** ** Requests *)

(** The top-level [Namespace] field, empty when there is none; the same of each
    exported struct field in order, [None] for a nil or another kind of field; and
    the [Default] flag of a storage class in the payload. *)
Record Request := mkRequest { rq_Namespace : string; rq_payloads : list (option string); rq_Default : bool }.

Fixpoint firstNamespace (l : list (option string)) : string :=
  match l with
  | [] => ""
  | Some ns :: l => if negb (bool_decide (ns = "")) then ns else firstNamespace l
  | None :: l => firstNamespace l
  end.

Definition extractNamespace (req : Request) : string :=
  if negb (bool_decide (rq_Namespace req = "")) then rq_Namespace req else firstNamespace (rq_payloads req).

Definition extraRBACRequirements (fullMethod : string) (req : Request) : list Requirement :=
  if (bool_decide (fullMethod = "/rune.api.StorageClassService/CreateStorageClass") ||
      bool_decide (fullMethod = "/rune.api.StorageClassService/UpdateStorageClass")) && rq_Default req
  then [mkRequirement "storageclasses" "set-default"] else [].

(** ** Interceptors (server.go, auth.go) *)

Record AuthInfo := mkAuthInfo { ai_SubjectID : string; ai_SubjectType : string }.

Inductive gate_err := GateUnauthenticated | GatePermissionDenied | GateInternal.

Record Options := mkOptions { op_EnableAuth : bool; op_AllowRemoteAdmin : bool }.

(** A call: the full method, the request, the peer's address and the bearer. *)
Record Call := mkCall { cl_Method : string; cl_Request : Request; cl_Peer : option string; cl_Bearer : option string }.

Section Gate.
Context (sha256 : string → string) (env : session_env) (isLocalhost : string → bool) (o : Options).

#[local] Abbreviation io := (prog sworld).

Definition evaluatePolicies (subjectID resource verb namespace : string) : io (result string bool) :=
  n ← tick;
  w ← gets (λ w, w);
  mret (Authorize (Some (mkAuthStore (if se_store env n then Ok (listing (sw_users w)) else Err "list users")
                           (λ p, if se_policy env n p then po_Rules <$> sw_policies w !! p else None)))
          subjectID resource verb namespace).

(** What the context carries after authentication: nothing when it is off. *)
Definition authFunc (bearer : option string) : io (result gate_err (option AuthInfo)) :=
  if negb (op_EnableAuth o) then mret (Ok None)
  else match bearer with
  | None => mret (Err GateUnauthenticated)
  | Some token =>
      tok ← try (FindRequestBearer sha256 env token);
      mret (match tok with None => Err GateUnauthenticated | Some tok => Ok (Some (mkAuthInfo (tk_SubjectID tok) (tk_SubjectType tok))) end)
  end.

Definition authUnaryInterceptor (c : Call) : io (result gate_err (option AuthInfo)) :=
  if negb (op_EnableAuth o) || isPublicMethod (cl_Method c) then mret (Ok None) else authFunc (cl_Bearer c).

Definition adminUnaryInterceptor (c : Call) : result gate_err unit :=
  if HasSuffix (cl_Method c) bootstrapMethod then
    match cl_Peer c with Some p => if isLocalhost p then Ok tt else Err GatePermissionDenied | None => Err GatePermissionDenied end
  else if bool_decide (methodToResource (cl_Method c) = "admin") && negb (op_AllowRemoteAdmin o) then
    match cl_Peer c with Some p => if isLocalhost p then Ok tt else Err GatePermissionDenied | None => Ok tt end
  else Ok tt.

(** The first requirement that is not granted ends the check. *)
Fixpoint checkAll (subjectID ns : string) (l : list Requirement) : io (result gate_err unit) :=
  match l with
  | [] => mret (Ok tt)
  | r :: l =>
      a ← evaluatePolicies subjectID (Authz.rq_Resource r) (rq_Verb r) ns;
      match a with
      | Err _ => mret (Err GateInternal)
      | Ok false => mret (Err GatePermissionDenied)
      | Ok true => checkAll subjectID ns l
      end
  end.

Definition actionOf (method : string) : Requirement := let a := methodToAction method in mkRequirement a.1 a.2.

Definition subjectOf (ai : option AuthInfo) : string := match ai with Some a => ai_SubjectID a | None => "" end.

Definition rbacUnaryInterceptor (c : Call) (ai : option AuthInfo) : io (result gate_err unit) :=
  if negb (op_EnableAuth o) || isPublicMethod (cl_Method c) then mret (Ok tt)
  else if bool_decide (subjectOf ai = "") then mret (Err GatePermissionDenied)
  else checkAll (subjectOf ai) (extractNamespace (cl_Request c))
         (actionOf (cl_Method c) :: extraRBACRequirements (cl_Method c) (cl_Request c)).

(** A stream is checked before its first message, hence with no namespace. *)
Definition rbacStreamInterceptor (method : string) (ai : option AuthInfo) : io (result gate_err unit) :=
  if negb (op_EnableAuth o) then mret (Ok tt)
  else if bool_decide (subjectOf ai = "") then mret (Err GatePermissionDenied)
  else checkAll (subjectOf ai) "" [actionOf method].

(** The chains of [startGRPCServer]: [Ok] is the identity the handler runs with. *)
Definition unaryChain (c : Call) : io (result gate_err (option AuthInfo)) :=
  a ← authUnaryInterceptor c;
  match a with
  | Err e => mret (Err e)
  | Ok ai =>
      match adminUnaryInterceptor c with
      | Err e => mret (Err e)
      | Ok _ => r ← rbacUnaryInterceptor c ai; mret (match r with Err e => Err e | Ok _ => Ok ai end)
      end
  end.

Definition streamChain (method : string) (bearer : option string) : io (result gate_err (option AuthInfo)) :=
  a ← authFunc bearer;
  match a with
  | Err e => mret (Err e)
  | Ok ai => r ← rbacStreamInterceptor method ai; mret (match r with Err e => Err e | Ok _ => Ok ai end)
  end.

(** ** The dashboard's gates (http.go, exec_ws.go) *)

(** The check both share: the status of a refusal, or [None] to go on. *)
Definition uiAccess (token : string) : io (option Z) :=
  if bool_decide (token = "") then mret (Some 401)
  else
    tok ← try (FindRequestBearer sha256 env token);
    match tok with
    | None => mret (Some 401)
    | Some tok =>
        a ← evaluatePolicies (tk_SubjectID tok) "ui" "access" "";
        mret (match a with Err _ => Some 500 | Ok false => Some 403 | Ok true => None end)
    end.

Definition uiAccessMiddleware (path authorization : string) : io (option Z) :=
  if negb (op_EnableAuth o) || isPublicGRPCPath path then mret None else uiAccess (bearerFromRequest authorization).

Definition execBearerSubproto : string := "rune.bearer.".

(** The values of the header, each a comma-separated list. *)
Definition bearerFromWSSubprotocols (values : list string) : string :=
  match List.find (String.prefix execBearerSubproto) (TrimSpace <$> concat (Split "," <$> values)) with
  | Some p => TrimPrefix p execBearerSubproto
  | None => ""
  end.

Definition execWSHandler (values : list string) : io (option Z) :=
  if negb (op_EnableAuth o) then mret None else uiAccess (bearerFromWSSubprotocols values).
End Gate.

(** ** Policies: repository, seeding (store/repos/policy.go, bootstrap.go) *)

Definition builtin (name description : string) (rules : list PolicyRule) : Policy := mkPolicy "" name description rules true.

Definition any_rule (verbs : list string) : PolicyRule := mkPolicyRule "*" verbs "*".
Definition rule (resource : string) (verbs : list string) : PolicyRule := mkPolicyRule resource verbs "*".

Definition readonlyPolicy : Policy := builtin "readonly" "Read-only" [any_rule ["get"; "list"; "watch"]; rule "ui" ["access"]].

Definition castPolicy : Policy :=
  builtin "cast" "Cast services (CI deploy)"
    [rule "services" ["get"; "list"; "create"; "update"; "scale"];
     rule "instances" ["get"; "list"; "watch"];
     rule "configmaps" ["get"; "list"; "create"; "update"];
     rule "secrets" ["get"; "list"; "create"; "update"];
     rule "volumes" ["get"; "list"; "create"; "update"];
     rule "namespaces" ["get"; "list"; "create"];
     rule "releases" ["get"; "list"; "create"];
     rule "logs" ["get"];
     rule "auth" ["get"]].

Definition builtins : list Policy :=
  [builtin "root" "Full access" [any_rule ["*"]];
   builtin "admin" "Full access" [any_rule ["*"]];
   builtin "readwrite" "Read/write typical ops"
     [any_rule ["get"; "list"; "watch"; "create"; "update"; "delete"; "scale"; "exec"]; rule "ui" ["access"]];
   readonlyPolicy;
   castPolicy].

#[global] Instance PolicyRule_dec : EqDecision PolicyRule.
Proof. solve_decision. Defined.

Definition sameTarget (a b : PolicyRule) : bool := bool_decide (ru_Resource a = ru_Resource b) && bool_decide (ru_Namespace a = ru_Namespace b).

(** Verbs of [want] that are missing, appended one by one. *)
Definition addVerbs (have want : list string) : list string :=
  fold_left (λ have v, if bool_decide (v ∈ have) then have else have ++ [v]) want have.

(** Merges one rule into the first with its target, or appends it. *)
Fixpoint mergeRule (have : list PolicyRule) (want : PolicyRule) : list PolicyRule :=
  match have with
  | [] => [want]
  | r :: have =>
      if sameTarget r want then mkPolicyRule (ru_Resource r) (addVerbs (ru_Verbs r) (ru_Verbs want)) (ru_Namespace r) :: have
      else r :: mergeRule have want
  end.

Definition mergeRules (have want : list PolicyRule) : list PolicyRule := fold_left mergeRule want have.

Section Admin.
Context (sha256 : string → string) (env : session_env).

#[local] Abbreviation io := (prog sworld).

Definition policyGet (name : string) : io Policy := ok ← access env; guardp ok;; ps ← gets sw_policies; from_option (ps !! name).

Definition policyCreate (p : Policy) : io Policy :=
  guardp (ValidateDNS1123Name (po_Name p));;
  id ← ask env se_uuid;
  let p := mkPolicy id (po_Name p) (po_Description p) (po_Rules p) (po_Builtin p) in
  ok ← access env; guardp ok;; ps ← gets sw_policies; guardp (negb (bool_decide (is_Some (ps !! po_Name p))));;
  setPolicies (<[po_Name p := p]>);; mret p.

Definition policyUpdate (p : Policy) : io unit :=
  ok ← access env; guardp ok;; ps ← gets sw_policies; guardp (bool_decide (is_Some (ps !! po_Name p)));; setPolicies (<[po_Name p := p]>).

Definition policyDelete (name : string) : io unit :=
  ok ← access env; guardp ok;; ps ← gets sw_policies; guardp (bool_decide (is_Some (ps !! name)));; setPolicies (base.delete name).

(** The rules after the merge, and whether they changed: a merge only appends. *)
Definition mergePolicyRules (have : Policy) (want : list PolicyRule) : Policy * bool :=
  let rules := mergeRules (po_Rules have) want in
  (mkPolicy (po_ID have) (po_Name have) (po_Description have) rules (po_Builtin have), negb (bool_decide (rules = po_Rules have))).

Definition seedOne (desired : Policy) : io unit :=
  existing ← try (policyGet (po_Name desired));
  match existing with
  | None => policyCreate desired;; mret tt
  | Some existing =>
      if negb (po_Builtin existing) then mret tt
      else let '(merged, changed) := mergePolicyRules existing (po_Rules desired) in if changed then policyUpdate merged else mret tt
  end.

Definition SeedBuiltinPolicies : io unit := each seedOne builtins.

(** ** The admin handlers (api/service/admin.go) *)

Definition GetByName (name : string) : io (result user_err User) :=
  ok ← access env;
  if negb ok then mret (Err UserError)
  else users ← gets sw_users; mret (match List.find (λ u, bool_decide (us_Name u = name)) (listing users) with Some u => Ok u | None => Err UserNotFound end).

Inductive boot_err := AlreadyBootstrapped | BootError.

(** The secret of the root token. *)
Definition AdminBootstrap : io (result boot_err (Token * string)) :=
  found ← GetByName "root";
  match found with
  | Err UserError => mret (Err BootError)
  | Err UserNotFound => mret (Ok None)
  | Ok root =>
      toks ← try (List env);
      mret (match toks with
            | None => Err BootError
            | Some toks => if existsb (λ t, bool_decide (tk_SubjectID t = us_ID root) && negb (tk_Revoked t)) toks then Err AlreadyBootstrapped else Ok (Some root)
            end)
  end ≫= λ root,
  match root with
  | Err e => mret (Err e)
  | Ok root =>
      r ← try (root ← (match root with Some u => mret u | None => createUser env "root" end);
               root ← ensureUserHasPolicy env root "root";
               now ← ask env se_now;
               IssueStatic sha256 env "bootstrap-admin" (us_ID root) "user" "bootstrap-admin" 0);
      mret (match r with None => Err BootError | Some r => Ok r end)
  end.

Definition PolicyCreate (p : Policy) : io unit :=
  let p := mkPolicy "" (po_Name p) (po_Description p) (po_Rules p) false in
  created ← try (policyCreate p);
  match created with Some _ => mret tt | None => policyUpdate p end.

Definition PolicyUpdate (p : Policy) : io unit := policyUpdate (mkPolicy "" (po_Name p) (po_Description p) (po_Rules p) (po_Builtin p)).
Definition PolicyDelete (name id : string) : io unit := policyDelete (if bool_decide (name = "") && negb (bool_decide (id = "")) then id else name).

Definition subject (id name : string) : io User :=
  found ← GetByNameOrID env (PickFirstNonEmpty [id; name]); match found with Ok u => mret u | Err _ => Effects.fail end.

Definition policyNamed (name id : string) : string := if bool_decide (name = "") && negb (bool_decide (id = "")) then id else name.

Definition PolicyAttachToSubject (sid sname pname pid : string) : io unit :=
  u ← subject sid sname; ensureUserHasPolicy env u (policyNamed pname pid);; mret tt.

Definition PolicyDetachFromSubject (sid sname pname pid : string) : io unit :=
  u ← subject sid sname;
  updateUser env (mkUser (us_ID u) (us_Name u) (List.filter (λ p, negb (bool_decide (p = policyNamed pname pid))) (us_Policies u))).

(** The policies end up in the order Go ranges over the set; here that of
    [remove_dups]. *)
Definition UserCreate (name : string) (policies : list string) : io User :=
  found ← GetByName name;
  u ← (match found with Ok u => mret u | Err _ => createUser env name end);
  let u := mkUser (us_ID u) (us_Name u) (remove_dups (us_Policies u ++ policies)) in
  updateUser env u;; mret u.
End Admin.
