(* ===== verification/AuthzProps.v ===== *)
(** * Nothing happens that its caller was not granted

    The resolver's reads against what admission demanded, and a cast's calls
    against the verb the RPC table asks of the same change made directly. *)

From Stdlib Require Import Ascii.
From S2P Require Import Prelude Text ApiGate Types Release ReleaseProps Authz.

(** ** Policies *)

(** A rule attached to the subject that grants the verb. *)
Definition granted (st : auth_store) (subject resource verb ns : string) : Prop :=
  ∃ users u pname rules rule,
    as_users st = Ok users ∧ u ∈ users ∧ (us_ID u = subject ∨ us_Name u = subject) ∧ pname ∈ us_Policies u ∧
    as_policies st pname = Some rules ∧ rule ∈ rules ∧
    (ru_Resource rule = "*" ∨ ru_Resource rule = resource) ∧ ("*" ∈ ru_Verbs rule ∨ verb ∈ ru_Verbs rule) ∧
    (ru_Namespace rule = "" ∨ ru_Namespace rule = "*" ∨ ru_Namespace rule = ns).

Lemma ruleGrants_spec resource verb ns rule :
  ruleGrants resource verb ns rule = true →
  (ru_Resource rule = "*" ∨ ru_Resource rule = resource) ∧ ("*" ∈ ru_Verbs rule ∨ verb ∈ ru_Verbs rule) ∧
  (ru_Namespace rule = "" ∨ ru_Namespace rule = "*" ∨ ru_Namespace rule = ns).
Proof.
  unfold ruleGrants. rewrite !andb_true_iff, !orb_true_iff, !bool_decide_eq_true, existsb_exists.
  intros [[Hr (v & Hv & Hvv)] Hn]. split; [done|]. split; [|tauto].
  apply orb_true_iff in Hvv. rewrite !bool_decide_eq_true in Hvv.
  destruct Hvv as [->| ->]; [left|right]; by apply list_elem_of_In.
Qed.

Lemma Authorize_sound st subject resource verb ns :
  Authorize (Some st) subject resource verb ns = Ok true → granted st subject resource verb ns.
Proof.
  unfold Authorize. destruct (as_users st) as [users|] eqn:Hu; [|done].
  destruct (List.find _ users) as [u|] eqn:Hf; [|done]. intros He%Ok_inj.
  apply find_some in Hf as [Hin Hm]. apply orb_true_iff in Hm. rewrite !bool_decide_eq_true in Hm.
  apply existsb_exists in He as (pname & Hp & Hr). destruct (as_policies st pname) as [rules|] eqn:Hpol; [|done].
  apply existsb_exists in Hr as (rule & Hrule & Hg). exists users, u, pname, rules, rule.
  repeat (split; [first [done|by apply list_elem_of_In]|]). by apply ruleGrants_spec.
Qed.

(** ** The gate *)

Lemma requireAll_spec auth who l :
  requireAll auth who l = Ok tt →
  ∀ nr, nr ∈ l → ∃ subject, who = Subject subject ∧
    auth subject (rq_Resource (nr_Requirement nr)) (rq_Verb (nr_Requirement nr)) (nr_Namespace nr) = Ok true.
Proof.
  induction l as [|x l IH]; cbn; [by intros _ nr ?%elem_of_nil|].
  destruct (require auth who _ _) as [[]|] eqn:Hr; [|done]. intros Hl nr [->|Hin]%elem_of_cons; [|by apply IH].
  unfold require in Hr. destruct who as [|subject|]; [done| |done]. exists subject. split; [done|].
  destruct (bool_decide (subject = "")); [done|]. by destruct (auth _ _ _ _) as [[]|].
Qed.

(** ** Collecting *)

Section Collect.
Context (url_Parse : string → option (string * string)) (PathUnescape : string → string).
Implicit Types (out : list NamespacedRequirement) (own ns : string).

(** What a read outside the service's namespace needs. *)
Definition covered own out (r : store_read) : Prop :=
  let '(rt, ns, _) := r in
  ns = own ∨ ns = "" ∨ ∃ q, referenceRequirement rt = Some q ∧ mkNamespacedRequirement q ns ∈ out.

Lemma covered_mono own out out' r : out ⊆ out' → covered own out r → covered own out' r.
Proof. destruct r as [[rt ns] name]. intros Hs [?|[?|(q & Hq & Hin)]]; [by left|by right; left|]. right; right. eauto. Qed.

Lemma add_mono own rt ns out : out ⊆ add own rt ns out.
Proof. unfold add. destruct (_ || _); [done|]. destruct (referenceRequirement rt); [|done]. destruct (bool_decide _); set_solver. Qed.

Lemma add_covers own rt ns name out : is_Some (referenceRequirement rt) → covered own (add own rt ns out) (rt, ns, name).
Proof.
  intros [q Hq]. unfold covered, add. destruct (bool_decide_reflect (ns = "")) as [|Hne]; [tauto|].
  destruct (bool_decide_reflect (ns = own)) as [|Hno]; [tauto|]. cbn [orb]. rewrite Hq. right; right. exists q. split; [done|].
  case_bool_decide; [done|set_solver].
Qed.

#[local] Hint Resolve add_mono : rune.

Lemma envTemplatesLoop_mono fuel own value out : out ⊆ envTemplatesLoop url_Parse PathUnescape fuel own value out.
Proof.
  revert value out. induction fuel as [|fuel IH]; intros value out; cbn; [done|].
  destruct (Cut "{{" value) as [[a rest]|]; [|done]. destruct (Cut "}}" rest) as [[raw after]|]; [|done].
  etransitivity; [|apply IH]. destruct (ParseResourceRefWithDefaultNamespace _ _ _ _); [apply add_mono|done].
Qed.

Lemma fold_mono {A} (f : list NamespacedRequirement → A → list NamespacedRequirement) l out :
  (∀ out x, out ⊆ f out x) → out ⊆ fold_left f l out.
Proof. intros Hf. revert out. induction l as [|x l IH]; intros out; cbn; [done|]. by etransitivity; [apply Hf|apply IH]. Qed.

Lemma fold_covers {A} (f : list NamespacedRequirement → A → list NamespacedRequirement) (l : list A) own (P : A → store_read → Prop) out :
  (∀ out x, out ⊆ f out x) → (∀ out x r, P x r → covered own (f out x) r) →
  ∀ x r, x ∈ l → P x r → covered own (fold_left f l out) r.
Proof.
  intros Hm Hc. revert out. induction l as [|y l IH]; intros out x r; [by intros ?%elem_of_nil|]. cbn.
  intros [->|Hin]%elem_of_cons HP; [|by eapply IH]. eapply covered_mono; [by apply fold_mono|by apply Hc].
Qed.

(** A resolved placeholder is one the collector saw. *)
Lemma interpolateLoop_covered fuel st own done value out r :
  r ∈ (interpolateLoop url_Parse PathUnescape fuel st own done value).2 →
  covered own (envTemplatesLoop url_Parse PathUnescape fuel own value out) r.
Proof.
  revert done value out. induction fuel as [|fuel IH]; intros done value out; cbn; [by intros ?%elem_of_nil|].
  destruct (Cut "{{" value) as [[a rest]|]; [|by intros ?%elem_of_nil].
  destruct (Cut "}}" rest) as [[raw after]|]; [|by intros ?%elem_of_nil].
  assert (∀ r, r ∈ (resolveTemplateVariable url_Parse PathUnescape st (strip_spaces raw) own).2 →
    ∃ ref, ParseResourceRefWithDefaultNamespace url_Parse PathUnescape (strip_spaces raw) own = Some ref ∧
      r = (rr_Type ref, rr_Namespace ref, rr_Name ref) ∧ is_Some (referenceRequirement (rr_Type ref))) as Hreads.
  { intros r'. unfold resolveTemplateVariable. destruct (ParseResourceRefWithDefaultNamespace _ _ _ _) as [ref|]; [|by intros ?%elem_of_nil].
    destruct (HasKey ref); cbn; [|by intros ?%elem_of_nil].
    destruct (bool_decide_reflect (rr_Type ref = ResourceTypeSecret)) as [Ht|].
    { intros ->%list_elem_of_singleton. exists ref. rewrite Ht. by repeat econstructor. }
    destruct (bool_decide_reflect (rr_Type ref = ResourceTypeConfigmap)) as [Ht|]; [|by intros ?%elem_of_nil].
    intros ->%list_elem_of_singleton. exists ref. rewrite Ht. by repeat econstructor. }
  destruct (resolveTemplateVariable _ _ _ _ _) as [resolved reads]. cbn in Hreads.
  assert (∀ r, r ∈ reads → covered own (match ParseResourceRefWithDefaultNamespace url_Parse PathUnescape (strip_spaces raw) own with
    | Some ref => add own (rr_Type ref) (rr_Namespace ref) out | None => out end) r) as Hnow.
  { intros r' (ref & -> & -> & Hq)%Hreads. by apply add_covers. }
  destruct resolved as [v|]; cbn.
  - destruct (interpolateLoop _ _ fuel st own _ after) as [o more] eqn:Hl. cbn. intros [Hin|Hin]%elem_of_app.
    + eapply covered_mono; [apply envTemplatesLoop_mono|by apply Hnow].
    + eapply IH. by rewrite Hl.
  - intros Hin. eapply covered_mono; [apply envTemplatesLoop_mono|by apply Hnow].
Qed.

(** The loops stop because the text runs out, not the fuel. *)
Lemma interpolateLoop_fuel f f' st own done value :
  (String.length value < f)%nat → (String.length value < f')%nat →
  interpolateLoop url_Parse PathUnescape f st own done value = interpolateLoop url_Parse PathUnescape f' st own done value.
Proof.
  revert f' done value. induction f as [|f IH]; intros f' done value Hf Hf'; [lia|]. destruct f' as [|f']; [lia|]. cbn.
  destruct (Cut "{{" value) as [[a rest]|] eqn:H1; [|done]. destruct (Cut "}}" rest) as [[raw after]|] eqn:H2; [|done].
  apply Cut_shorter in H1, H2; [|done..]. destruct (resolveTemplateVariable _ _ _ _ _) as [[v|] reads]; [|done].
  rewrite (IH f' (done +:+ a +:+ v) after) by lia. done.
Qed.

Lemma envTemplatesLoop_fuel f f' own value out :
  (String.length value < f)%nat → (String.length value < f')%nat →
  envTemplatesLoop url_Parse PathUnescape f own value out = envTemplatesLoop url_Parse PathUnescape f' own value out.
Proof.
  revert f' value out. induction f as [|f IH]; intros f' value out Hf Hf'; [lia|]. destruct f' as [|f']; [lia|]. cbn.
  destruct (Cut "{{" value) as [[a rest]|] eqn:H1; [|done]. destruct (Cut "}}" rest) as [[raw after]|] eqn:H2; [|done].
  apply Cut_shorter in H1, H2; [|done..]. apply IH; lia.
Qed.

Lemma interpolateEnv_covered st own value out r :
  r ∈ (interpolateEnv url_Parse PathUnescape st value own).2 → covered own (envTemplates url_Parse PathUnescape own value out) r.
Proof.
  unfold interpolateEnv. destruct (Cut "{{" value); [|by intros ?%elem_of_nil]. destruct (Cut "}}" value); [|by intros ?%elem_of_nil].
  apply interpolateLoop_covered.
Qed.

Lemma resolveAll_reads st own env r :
  r ∈ (resolveAll url_Parse PathUnescape st own env).2 →
  ∃ kv, kv ∈ env ∧ r ∈ (interpolateEnv url_Parse PathUnescape st kv.2 own).2.
Proof.
  induction env as [|[k v] env IH]; cbn; [by intros ?%elem_of_nil|].
  destruct (interpolateEnv _ _ st v own) as [o reads] eqn:Hi. destruct o as [v'|].
  - destruct (resolveAll _ _ st own env) as [rest more]. cbn. intros [Hin|Hin]%elem_of_app.
    + exists (k, v). cbn. rewrite Hi. split; [by left|done].
    + destruct (IH Hin) as (kv & Hk & Hr). exists kv. split; [by right|done].
  - intros Hin. exists (k, v). cbn. rewrite Hi. split; [by left|done].
Qed.

Lemma importAll_reads st from r : r ∈ (importAll st from).2 → ∃ src, src ∈ from ∧ r ∈ (importFrom st src).2.
Proof.
  induction from as [|src from IH]; cbn; [by intros ?%elem_of_nil|].
  destruct (importFrom st src) as [o reads] eqn:Hi. destruct o as [kvs|].
  - destruct (importAll st from) as [rest more]. cbn. intros [Hin|Hin]%elem_of_app.
    + exists src. rewrite Hi. split; [by left|done].
    + destruct (IH Hin) as (s & Hk & Hr). exists s. split; [by right|done].
  - intros Hin. exists src. rewrite Hi. split; [by left|done].
Qed.

Lemma collectEnvFrom_mono own src out : out ⊆ collectEnvFrom own src out.
Proof. unfold collectEnvFrom. destruct (negb _); [apply add_mono|]. destruct (negb _); [apply add_mono|done]. Qed.

Lemma importFrom_covered st own src out r : r ∈ (importFrom st src).2 → covered own (collectEnvFrom own src out) r.
Proof.
  unfold importFrom, collectEnvFrom. destruct (bool_decide (ef_SecretName src = "")); cbn.
  - destruct (bool_decide (ef_ConfigmapName src = "")); cbn; [by intros ?%elem_of_nil|].
    intros ->%list_elem_of_singleton. apply add_covers. by econstructor.
  - intros ->%list_elem_of_singleton. apply add_covers. by econstructor.
Qed.

Lemma collectEnv_mono own env from out : out ⊆ collectEnv url_Parse PathUnescape own env from out.
Proof.
  unfold collectEnv. etransitivity; [|apply fold_mono; intros; apply collectEnvFrom_mono].
  apply fold_mono. intros. apply envTemplatesLoop_mono.
Qed.

Lemma volumeParams_mono own ps out : out ⊆ volumeParams url_Parse PathUnescape own ps out.
Proof.
  apply fold_mono. intros o x. unfold volumeParam. destruct (bool_decide _).
  - destruct (Cut _ _) as [[]|]; [apply add_mono|done].
  - destruct (ParseResourceRef _ _ _); [|done]. destruct (bool_decide _); [apply add_mono|done].
Qed.

Lemma secretRef_mono own x out : out ⊆ secretRef url_Parse PathUnescape own x out.
Proof. unfold secretRef. destruct (ParseResourceRefWithDefaults _ _ _ _ _); [apply add_mono|done]. Qed.

(** Every read of the resolver is covered by what the service needs. *)
Lemma reads_covered st svc r :
  r ∈ (prepareEnvVars url_Parse PathUnescape st svc).2 →
  covered (az_Namespace svc) (ServiceReferenceRequirements url_Parse PathUnescape svc) r.
Proof.
  intros Hin. set (own := az_Namespace svc).
  assert (covered own (collectEnv url_Parse PathUnescape own (az_Env svc) (az_EnvFrom svc) []) r) as Hc.
  { assert (r ∈ (importAll st (az_EnvFrom svc)).2 ∨ r ∈ (resolveAll url_Parse PathUnescape st own (az_Env svc)).2) as Hr.
    { unfold prepareEnvVars in Hin. destruct (importAll st (az_EnvFrom svc)) as [[kvs|] reads]; [|by left].
      fold own in Hin. destruct (resolveAll _ _ st own (az_Env svc)) as [o more]. cbn in *. by apply elem_of_app in Hin. }
    unfold collectEnv. destruct Hr as [(src & Hsrc & Hr)%importAll_reads|(kv & Hkv & Hr)%resolveAll_reads].
    - eapply (fold_covers _ _ _ (λ src r, r ∈ (importFrom st src).2)); [..|exact Hsrc|exact Hr].
      + intros. apply collectEnvFrom_mono.
      + intros. by eapply importFrom_covered.
    - eapply covered_mono; [apply fold_mono; intros; apply collectEnvFrom_mono|].
      eapply (fold_covers _ _ _ (λ kv r, r ∈ (interpolateEnv url_Parse PathUnescape st kv.2 own).2)); [..|exact Hkv|exact Hr].
      + intros. apply envTemplatesLoop_mono.
      + intros. by eapply interpolateEnv_covered. }
  eapply covered_mono; [|exact Hc]. unfold ServiceReferenceRequirements. fold own.
  intros x Hx. rewrite SliceStable_perm. match goal with |- x ∈ ?l =>
    assert (collectEnv url_Parse PathUnescape own (az_Env svc) (az_EnvFrom svc) [] ⊆ l) as Hsub; [|by apply Hsub] end.
  unfold collectExpose.
  etransitivity; [|destruct (negb (bool_decide (az_CASecret svc = ""))); [apply secretRef_mono|done]].
  etransitivity; [|destruct (negb (bool_decide (az_TLSSecret svc = ""))); [apply secretRef_mono|done]].
  etransitivity; [|apply fold_mono; intros o m; unfold collectMount].
  - apply fold_mono. intros o i. apply collectEnv_mono.
  - etransitivity; [|destruct (am_Claim m) as [n|]; [destruct (Cut "/" n) as [[ns ?]|]; [destruct (negb _); [apply add_mono|]|]|]; done].
    destruct (am_Params m); [apply volumeParams_mono|done].
Qed.
End Collect.

(** ** Claims *)

(** C27: a service admitted by the gate never makes the resolver read another
    namespace's secret or configmap unless a policy of the caller grants
    [secrets:reveal] or [configmaps:get] there: the placeholders and imports the
    resolver follows are exactly the ones admission looked for. *)
Theorem env_reads_admitted (url_Parse : string → option (string * string)) (PathUnescape : string → string)
    (st : auth_store) (who : caller) (svc : AuthzService) (es : env_store) (Hwho : who ≠ System)
    (Hadmit : AdmitService url_Parse PathUnescape (Some (Authorize (Some st))) who svc = Ok tt)
    (rt : ResourceType) (ns name : string)
    (Hread : (rt, ns, name) ∈ (prepareEnvVars url_Parse PathUnescape es svc).2) :
  ns = az_Namespace svc ∨ ns = "" ∨
  ∃ subject q, who = Subject subject ∧ referenceRequirement rt = Some q ∧ granted st subject (rq_Resource q) (rq_Verb q) ns.
Proof.
  destruct (reads_covered _ _ _ _ _ Hread) as [?|[?|(q & Hq & Hin)]]; [by left|by right; left|right; right].
  unfold AdmitService in Hadmit. destruct who as [|subject|]; [| |done];
    (destruct (requireAll _ _ (_ <$> _)) as [[]|]; [|done]);
    destruct (requireAll_spec _ _ _ Hadmit _ Hin) as (subj & Hw & Ha); [done|].
  exists subj, q. split; [done|]. split; [done|]. by apply Authorize_sound in Ha.
Qed.

Definition demo_service : AuthzService :=
  mkAuthzService "dev" [("DB", "postgres://{{ secret:db.prod.rune/url }}")] [] [] [] "" "" None.
Definition demo_auth : auth_store :=
  mkAuthStore (Ok [mkUser "u1" "alice" ["reader"]])
    (λ p, if bool_decide (p = "reader") then Some [mkPolicyRule "secrets" ["reveal"] "prod"] else None).

Lemma env_reads_admitted_witness :
  (ResourceTypeSecret, "prod", "db") ∈
    (prepareEnvVars (λ _, None) id (mkEnvStore (λ _ _, Some {[ "url" := "x" ]}) (λ _ _, None)) demo_service).2 ∧
  ("prod" = "dev" ∨ "prod" = "" ∨
   ∃ subject q, Subject "u1" = Subject subject ∧ referenceRequirement ResourceTypeSecret = Some q ∧
     granted demo_auth subject (rq_Resource q) (rq_Verb q) "prod").
Proof.
  assert ((ResourceTypeSecret, "prod", "db") ∈
    (prepareEnvVars (λ _, None) id (mkEnvStore (λ _ _, Some {[ "url" := "x" ]}) (λ _ _, None)) demo_service).2) as Hr
    by (vm_compute; left).
  split; [exact Hr|].
  apply (env_reads_admitted (λ _, None) id demo_auth (Subject "u1") demo_service
    (mkEnvStore (λ _ _, Some {[ "url" := "x" ]}) (λ _ _, None)) ltac:(done) ltac:(by vm_compute) _ _ "db" Hr).
Defined.

(** ** The direct calls *)

(** What a change does to the resource it names: the RPCs of its kind that do the
    same to one resource. *)
Inductive write := WCreate | WUpdate | WDelete.

Definition write_of (a : Action) : write :=
  match a with
  | ActionCreate => WCreate
  | ActionUpdate | ActionAdopt | ActionReference => WUpdate
  | ActionPrune => WDelete
  end.

Definition rpc_name (w : write) : string :=
  match w with WCreate => "Create" | WUpdate => "Update" | WDelete => "Delete" end.

(** The kinds with RPCs of their own, by the name the API gives them. *)
Definition rpc_kind (rt : ResourceType) : option string :=
  if bool_decide (rt = ResourceTypeService) then Some "Service"
  else if bool_decide (rt = ResourceTypeSecret) then Some "Secret"
  else if bool_decide (rt = ResourceTypeConfigmap) then Some "Configmap"
  else if bool_decide (rt = ResourceTypeVolume) then Some "Volume"
  else None.

Definition direct_rpc (w : write) (kind : string) : string :=
  "/rune.api." +:+ kind +:+ "Service/" +:+ rpc_name w +:+ kind.

(** The caller may call the RPC that does this write, by what the API gate asks of
    that RPC ([ApiGate.methodToAction]); a kind without one takes a grant on its
    raw name. *)
Definition may_write (st : auth_store) (who : caller) (w : write) (ref : OwnerRef) : Prop :=
  ∃ subject, who = Subject subject ∧
  match rpc_kind (or_ResourceType ref) with
  | Some kind =>
      let q := actionOf (direct_rpc w kind) in granted st subject (rq_Resource q) (rq_Verb q) (or_Namespace ref)
  | None => ∃ verb, granted st subject (or_ResourceType ref) verb (or_Namespace ref)
  end.

(** The caller could make the call itself; a reference to a shared kind writes
    nothing. *)
Definition call_granted (st : auth_store) (who : caller) (c : call) : Prop :=
  match c with
  | CApply ch =>
      if bool_decide (pc_Action ch = ActionReference) then isSharedClusterKind (or_ResourceType (pc_Ref ch)) = true
      else may_write st who (write_of (pc_Action ch)) (pc_Ref ch)
  | CPrune ref => may_write st who WDelete ref
  | _ => True
  end.

(** The verb a change needs is the one its RPC needs. *)
Lemma requirement_direct ch q subject st :
  ReleaseChangeRequirement ch = Some q → granted st subject (rq_Resource q) (rq_Verb q) (or_Namespace (pc_Ref ch)) →
  may_write st (Subject subject) (write_of (pc_Action ch)) (pc_Ref ch).
Proof.
  intros Hq Hg. exists subject. split; [done|]. unfold ReleaseChangeRequirement, releaseResource in Hq. unfold rpc_kind.
  destruct (pc_Action ch); try done; injection Hq as <-; cbn [rq_Resource rq_Verb] in Hg; repeat case_bool_decide; try exact Hg; by eexists.
Qed.

Lemma admitPlan_grants st who plan ch :
  who ≠ System → admitPlan (Some (Authorize (Some st))) who plan = Ok tt → ch ∈ pl_Changes plan →
  pc_Action ch ≠ ActionReference → may_write st who (write_of (pc_Action ch)) (pc_Ref ch).
Proof.
  intros Hwho Hadm Hin Ha. destruct (ReleaseChangeRequirement ch) as [q|] eqn:Hq;
    [|exfalso; unfold ReleaseChangeRequirement in Hq; by destruct (pc_Action ch)].
  assert (mkNamespacedRequirement q (or_Namespace (pc_Ref ch)) ∈ changeRequirements id (pl_Changes plan)) as Hnr.
  { apply list_elem_of_omap. exists ch. split; [done|]. by rewrite Hq. }
  unfold admitPlan, AdmitReleaseChanges in Hadm. destruct who as [|subject|]; [| |done];
    (destruct (requireAll _ _ _) as [[]|[]] eqn:Hr; [|done..]); destruct (requireAll_spec _ _ _ Hr _ Hnr) as (subj & Hw & Hok); [done|]; rewrite Hw.
  all: by apply (requirement_direct ch q subj st Hq), Authorize_sound.
Qed.

(** C28: a cast does only what its caller could do directly: for every resource it
    applies or prunes, in whatever namespace, a policy of the caller grants what
    the API gate asks of the RPC that creates, updates or deletes one resource of
    that kind (an adoption is an update, and a kind without RPCs takes a grant on
    its raw name), except references to shared kinds, which write nothing; a cast
    that is denied records nothing and touches nothing. *)
Theorem cast_authorized {S} `{ReleaseRecords S, LiveLookup S, Applier S} (st : auth_store) (who : caller) (Hwho : who ≠ System)
    (spec : ReleaseSpec) (s : S) :
  let '((_, log), (_, _, err)) := Reconcile spec (admitPlan (Some (Authorize (Some st))) who) (s, []) in
  (∀ why, err = Some (ErrDenied why) → log = []) ∧ Forall (call_granted st who) log.
Proof.
  unfold Reconcile. destruct (Prepare spec _ (s, [])) as [[s1 log1] [[ex plan]|[e p]]] eqn:Hp.
  - pose proof (Prepare_prunes _ _ _ _ _ _ Hp) as Hpr. apply Prepare_Ok in Hp as (prev & _ & Hb & Hadm & _ & Hs1 & Hex).
    cbn in Hs1. injection Hs1 as _ ->. destruct (run ex _) as [[s2 log2] [rel err]] eqn:Hr.
    destruct (run_log _ _ _ _ _ _ _ Hpr Hr) as (l & Hl & calls & Hpre & -> & _).
    assert (Forall (call_granted st who) log2) as Hall.
    { rewrite Hl. constructor; [done|]. rewrite !Forall_app. split; [|split; [|by apply Forall_singleton]].
      - destruct Hpre as [k Hk]. assert (Forall (call_granted st who) (schedule ex)) as Hsch; [|by rewrite Hk, Forall_app in Hsch; apply Hsch].
        assert (∀ ch, ch ∈ ex_applies ex ++ ex_prunes ex → ch ∈ pl_Changes plan) as Hin.
        { intros ch. rewrite Hex. cbn [ex_applies ex_prunes]. destruct (splitForExecution_order plan) as (_ & _ & ->). done. }
        destruct (BuildPlan_spec _ _ _ _ _ _ _ Hb) as (_ & _ & Hj & _). rewrite Forall_forall in Hj.
        unfold schedule. rewrite Forall_app, Forall_cons, !Forall_fmap, !Forall_forall. split; [|split; [done|]].
        + intros ch Hch. assert (ch ∈ pl_Changes plan) as Hc by (apply Hin, elem_of_app; by left). cbn.
          destruct (bool_decide_reflect (pc_Action ch = ActionReference)) as [Ha|Ha]; [|by eapply admitPlan_grants]. specialize (Hj ch Hc). unfold justified in Hj. by rewrite Ha in Hj.
        + intros ch Hch. rewrite Forall_forall in Hpr. specialize (Hpr ch Hch). apply bool_decide_eq_true in Hpr.
          pose proof (admitPlan_grants st who plan ch Hwho Hadm (Hin ch ltac:(apply elem_of_app; by right))) as Hm.
          rewrite Hpr in Hm. by apply Hm.
      - destruct (_ && _); [|constructor]. rewrite Forall_fmap. by apply Forall_true. }
    destruct err as [err|]; (split; [|exact Hall]); [|done]. intros why [= ->]. by destruct (run_not_denied _ _ _ _ _ Hr why).
  - apply Prepare_Err in Hp as [->|(prev & plan & x & _ & _ & -> & ->)]; (split; [|by repeat constructor]); [done|].
    by intros why [=].
Qed.

(** A cluster that holds one record and obeys. *)
Module ObedientCluster.
Record state := mkState { record : Release }.
#[global] Instance obedient_records : ReleaseRecords state := {
  recs_Get _ _ s := Ok (Some (record s));
  recs_Save rel _ := (mkState rel, Ok tt);
}.
#[global] Instance obedient_live : LiveLookup state := { Lookup _ _ := Ok (mkLiveState false None) }.
#[global] Instance obedient_applier : Applier state := {
  Apply _ s := (s, Ok tt);
  Prune _ s := (s, Ok tt);
  Verify _ s := (s, Ok tt);
  Revert _ s := (s, Ok tt);
}.
Definition map_ref (n : string) : OwnerRef := mkOwnerRef ResourceTypeConfigmap "prod" n.
Definition deployed : state := mkState (mkRelease "1" "web" "prod" ReleaseStatusDeployed 1 [map_ref "a"; map_ref "b"] []).
Definition spec : ReleaseSpec := mkReleaseSpec "web" "prod" [map_ref "a"; map_ref "c"] (mkPlanOptions false) false false.
Definition editor : auth_store :=
  mkAuthStore (Ok [mkUser "u1" "alice" ["editor"]])
    (λ p, if bool_decide (p = "editor") then Some [mkPolicyRule "configmaps" ["create"; "update"; "delete"] "prod"] else None).
End ObedientCluster.

(** An update, a creation and a prune, each granted. *)
Lemma cast_authorized_witness :
  let '((_, log), (_, _, err)) :=
    Reconcile ObedientCluster.spec (admitPlan (Some (Authorize (Some ObedientCluster.editor))) (Subject "u1"))
      (ObedientCluster.deployed, []) in
  err = None ∧
  List.filter (λ c, match c with CApply _ | CPrune _ => true | _ => false end) log =
    [CApply (change (ObedientCluster.map_ref "a") ActionUpdate); CApply (change (ObedientCluster.map_ref "c") ActionCreate);
     CPrune (ObedientCluster.map_ref "b")] ∧
  Forall (call_granted ObedientCluster.editor (Subject "u1")) log.
Proof.
  pose proof (cast_authorized ObedientCluster.editor (Subject "u1") ltac:(done) ObedientCluster.spec ObedientCluster.deployed) as H.
  destruct (Reconcile _ _ _) as [[s' log] [[rel plan] err]] eqn:E. destruct H as [_ H].
  vm_compute in E. injection E as <- <- <- <- <-. split; [reflexivity|]. split; [reflexivity|exact H].
Defined.
