(* ===== verification/Health.v ===== *)
(** * The health controller (pkg/orchestrator/health/health_controller.go)

    The monitor map, the verdicts drawn from probe results, the promotion of a
    starting instance, the readiness flips and the paced restarts.  Every
    goroutine the source starts is a task in a list, and a step runs one of them
    up to its next lock or store call, so tasks interleave freely.  The probes
    themselves (HTTP, TCP, exec) are I/O: a step is given their result.
    Timers are left out: a probe may start at any time. *)

From S2P Require Import Prelude Types Teardown.

(** ** Probes (pkg/types/service.go) *)

Record Probe := mkProbe {
  pr_Type : string;
  pr_FailureThreshold : Z;
  pr_SuccessThreshold : Z;
}.

(** [service.Health]: absent, or the two probes. *)
Definition HealthCheck := option (option Probe * option Probe).

Inductive check := Liveness | Readiness.

#[global] Instance check_eq_dec : EqDecision check.
Proof. solve_decision. Defined.

Definition probeOf (h : HealthCheck) (c : check) : option Probe :=
  match h with
  | None => None
  | Some (l, r) => match c with Liveness => l | Readiness => r end
  end.

Definition failureThreshold (p : option Probe) : Z :=
  match p with Some p => if 0 <? pr_FailureThreshold p then pr_FailureThreshold p else 3 | None => 3 end.

Definition successThreshold (p : option Probe) : Z :=
  match p with Some p => if 0 <? pr_SuccessThreshold p then pr_SuccessThreshold p else 1 | None => 1 end.

Definition livenessFailureThreshold (h : HealthCheck) : Z := failureThreshold (probeOf h Liveness).

(** ** The monitored state of an instance *)

Record instanceHealth := mkInstanceHealth {
  ih_instance : Instance;
  ih_service : HealthCheck;
  ih_livenessResults : list bool;
  ih_readinessResults : list bool;
  ih_livenessStatus : bool;
  ih_readinessStatus : bool;
  ih_promoted : bool;
  ih_monitoring : bool;
  ih_consecutiveFailures : Z;
  ih_ready : bool;
  ih_readyWriting : bool;
  ih_readinessFailures : Z;
  ih_readinessSuccesses : Z;
  ih_healthRestartCount : Z;
  ih_lastRestartTime : Time;
}.

Definition with_subject (h : instanceHealth) (i : Instance) (svc : HealthCheck) : instanceHealth :=
  mkInstanceHealth i svc (ih_livenessResults h) (ih_readinessResults h) (ih_livenessStatus h) (ih_readinessStatus h)
    (ih_promoted h) (ih_monitoring h) (ih_consecutiveFailures h) (ih_ready h) (ih_readyWriting h) (ih_readinessFailures h)
    (ih_readinessSuccesses h) (ih_healthRestartCount h) (ih_lastRestartTime h).

Definition with_monitoring (h : instanceHealth) (b : bool) : instanceHealth :=
  mkInstanceHealth (ih_instance h) (ih_service h) (ih_livenessResults h) (ih_readinessResults h) (ih_livenessStatus h)
    (ih_readinessStatus h) (ih_promoted h) b (ih_consecutiveFailures h) (ih_ready h) (ih_readyWriting h)
    (ih_readinessFailures h) (ih_readinessSuccesses h) (ih_healthRestartCount h) (ih_lastRestartTime h).

Definition with_liveness (h : instanceHealth) (results : list bool) (st : bool) (failures : Z) : instanceHealth :=
  mkInstanceHealth (ih_instance h) (ih_service h) results (ih_readinessResults h) st (ih_readinessStatus h)
    (ih_promoted h) (ih_monitoring h) failures (ih_ready h) (ih_readyWriting h) (ih_readinessFailures h)
    (ih_readinessSuccesses h) (ih_healthRestartCount h) (ih_lastRestartTime h).

Definition with_readiness (h : instanceHealth) (results : list bool) (st : bool) (failures successes : Z) : instanceHealth :=
  mkInstanceHealth (ih_instance h) (ih_service h) (ih_livenessResults h) results (ih_livenessStatus h) st
    (ih_promoted h) (ih_monitoring h) (ih_consecutiveFailures h) (ih_ready h) (ih_readyWriting h) failures successes
    (ih_healthRestartCount h) (ih_lastRestartTime h).

Definition with_ready (h : instanceHealth) (ready writing : bool) : instanceHealth :=
  mkInstanceHealth (ih_instance h) (ih_service h) (ih_livenessResults h) (ih_readinessResults h) (ih_livenessStatus h)
    (ih_readinessStatus h) (ih_promoted h) (ih_monitoring h) (ih_consecutiveFailures h) ready writing
    (ih_readinessFailures h) (ih_readinessSuccesses h) (ih_healthRestartCount h) (ih_lastRestartTime h).

Definition with_promoted (h : instanceHealth) (promoted ready : bool) : instanceHealth :=
  mkInstanceHealth (ih_instance h) (ih_service h) (ih_livenessResults h) (ih_readinessResults h) (ih_livenessStatus h)
    (ih_readinessStatus h) promoted (ih_monitoring h) (ih_consecutiveFailures h) ready (ih_readyWriting h)
    (ih_readinessFailures h) (ih_readinessSuccesses h) (ih_healthRestartCount h) (ih_lastRestartTime h).

Definition with_restarts (h : instanceHealth) (count : Z) (last : Time) (failures : Z) : instanceHealth :=
  mkInstanceHealth (ih_instance h) (ih_service h) (ih_livenessResults h) (ih_readinessResults h) (ih_livenessStatus h)
    (ih_readinessStatus h) (ih_promoted h) (ih_monitoring h) failures (ih_ready h) (ih_readyWriting h)
    (ih_readinessFailures h) (ih_readinessSuccesses h) count last.

(** ** Goroutines *)

Inductive task :=
| TProbe (id : string) (c : check) (p : Probe) (fresh : option Instance)  (* the store was read; [None]: the read failed *)
| TProbed (id : string) (c : check) (p : Probe)                           (* the probe is running *)
| TPromote (ns id : string)
| TPromoteFailed (id : string)
| TReady (ns id : string) (ready : bool)
| TReadyDone (id : string)
| TRestart (i : Instance).

(** ** Restarts *)

Definition healthBackoffResetWindow : Duration := 600 * Second.
Definition maxBackoff : Duration := 300 * Second.

(** [utils.ToUintNonNegative]. *)
Definition ToUintNonNegative (n : Z) : Z := if n <? 0 then 0 else n.

Definition restartBackoff (count : Z) : Duration :=
  let shift := ToUintNonNegative count in
  let shift := if 5 <? shift then 5 else shift in
  let backoff := 10 * Second * Z.shiftl 1 shift in
  if maxBackoff <? backoff then maxBackoff else backoff.

Inductive restart := Restarted | DeferredByBackoff | Stopping.

(** [running]: the controller's context is set.  The caller drops the entry when
    the answer is [Restarted]. *)
Definition restartInstanceWithBackoff (now : Time) (running : bool) (h : instanceHealth) : instanceHealth * restart :=
  let count := if (0 <? ih_healthRestartCount h) && negb (IsZero (ih_lastRestartTime h)) &&
                  (healthBackoffResetWindow <? Sub now (ih_lastRestartTime h))
               then 0 else ih_healthRestartCount h in
  let h := with_restarts h count (ih_lastRestartTime h) (ih_consecutiveFailures h) in
  if negb (IsZero (ih_lastRestartTime h)) && (Sub now (ih_lastRestartTime h) <? restartBackoff count)
  then (h, DeferredByBackoff)
  else if negb running then (h, Stopping)
  else (with_restarts h (count + 1) now 0, Restarted).

(** ** Verdicts *)

(** Keeps the last ten results. *)
Definition record (results : list bool) (r : bool) : list bool :=
  let l := results ++ [r] in if bool_decide (10 < length l)%nat then tail l else l.

Definition applyReadinessThresholdsLocked (id : string) (h : instanceHealth) : instanceHealth * list task :=
  if negb (bool_decide (i_Status (ih_instance h) = InstanceStatusRunning)) then (h, [])
  else if ih_readyWriting h then (h, [])
  else
    let probe := probeOf (ih_service h) Readiness in
    let flip want := (with_ready h want true, [TReady (i_Namespace (ih_instance h)) id want]) in
    if ih_ready h && (failureThreshold probe <=? ih_readinessFailures h) then flip false
    else if negb (ih_ready h) && (successThreshold probe <=? ih_readinessSuccesses h) then flip true
    else (h, []).

(** [None]: no restart was attempted. *)
Definition livenessResult (now : Time) (running : bool) (success : bool) (h : instanceHealth)
    : instanceHealth * option restart :=
  let failures := if success then 0 else ih_consecutiveFailures h + 1 in
  let h := with_liveness h (record (ih_livenessResults h) success) success failures in
  if negb success && (livenessFailureThreshold (ih_service h) <=? ih_consecutiveFailures h)
  then let '(h, r) := restartInstanceWithBackoff now running h in (h, Some r)
  else (h, None).

Definition readinessResult (id : string) (success : bool) (h : instanceHealth) : instanceHealth * list task :=
  let h := with_readiness h (record (ih_readinessResults h) success) success
             (if success then 0 else ih_readinessFailures h + 1) (if success then ih_readinessSuccesses h + 1 else 0) in
  let '(h, tasks) := applyReadinessThresholdsLocked id h in
  if success && negb (ih_promoted h) then
    let ready := bool_decide (i_Status (ih_instance h) = InstanceStatusStarting) || ih_ready h in
    (with_promoted h true ready, tasks ++ [TPromote (i_Namespace (ih_instance h)) id])
  else (h, tasks).

(** ** The controller *)

Record healthController := mkHealthController {
  hc_instances : gmap string instanceHealth;
  hc_running : bool;
}.

Definition with_instances (c : healthController) (m : gmap string instanceHealth) : healthController :=
  mkHealthController m (hc_running c).

Definition NewController : healthController := mkHealthController ∅ false.
Definition Start (c : healthController) : healthController := mkHealthController (hc_instances c) true.
Definition Stop (c : healthController) : healthController := mkHealthController (hc_instances c) false.

Definition restart_count (i : Instance) : Z :=
  match i_Metadata i with Some m => im_RestartCount m | None => 0 end.

Definition AddInstance (service : HealthCheck) (i : Instance) (c : healthController) : healthController :=
  let put h := with_instances c (<[i_ID i := h]> (hc_instances c)) in
  match hc_instances c !! i_ID i with
  | Some h => put (with_monitoring (with_subject h i service) true)
  | None =>
      let prior := restart_count i in
      let last := if 0 <? prior then i_CreatedAt i else 0 in
      let entry healthy := mkInstanceHealth i service [] [] healthy healthy false (negb healthy) 0 (IsReady i) false 0 0 prior last in
      put (entry match service with None => true | Some _ => false end)
  end.

Definition RemoveInstance (id : string) (c : healthController) : healthController :=
  with_instances c (delete id (hc_instances c)).

(** The end of a monitor goroutine. *)
Definition monitorExit (id : string) (c : healthController) : healthController :=
  with_instances c (alter (λ h, with_monitoring h false) id (hc_instances c)).

(** Liveness and readiness as reported; unknown instances are healthy. *)
Definition GetHealthStatus (id : string) (c : healthController) : bool * bool :=
  match hc_instances c !! id with
  | None => (true, true)
  | Some h => (ih_livenessStatus h, ih_readinessStatus h)
  end.

Definition healthMonitoringTerminal (s : InstanceStatus) : bool :=
  match s with
  | InstanceStatusFailed | InstanceStatusDeleted | InstanceStatusStalled | InstanceStatusExited => true
  | _ => false
  end.

(** The head of [performHealthCheck]: what it does with the record it read. *)
Definition refresh (id : string) (fresh : option Instance) (c : healthController) : healthController * bool :=
  match fresh with
  | None => (c, true)
  | Some i =>
      if healthMonitoringTerminal (i_Status i) then (RemoveInstance id c, false)
      else (with_instances c (alter (λ h,
              let h := with_subject h i (ih_service h) in
              with_ready h (if ih_readyWriting h then ih_ready h else IsReady i) (ih_readyWriting h)) id (hc_instances c)), true)
  end.

Definition knownProbe (t : string) : bool :=
  bool_decide (t = "http") || bool_decide (t = "tcp") || bool_decide (t = "exec").

(** The tail of [performHealthCheck]: the probe's answer, [None] when the
    controller stopped before it ran. *)
Definition checkResult (p : Probe) (running executed : bool) : option bool :=
  if negb (knownProbe (pr_Type p)) then Some false else if running then Some executed else None.

Definition updateHealthStatus (now : Time) (id : string) (success : bool) (k : check) (c : healthController)
    : healthController * list task :=
  match hc_instances c !! id with
  | None => (c, [])
  | Some h =>
      match k with
      | Liveness =>
          let '(h', r) := livenessResult now (hc_running c) success h in
          match r with
          | Some Restarted => (RemoveInstance id c, [TRestart (ih_instance h)])
          | _ => (with_instances c (<[id := h']> (hc_instances c)), [])
          end
      | Readiness =>
          let '(h', tasks) := readinessResult id success h in
          (with_instances c (<[id := h']> (hc_instances c)), tasks)
      end
  end.

(** ** Store writes *)

Definition with_verdict (i : Instance) (st : InstanceStatus) (message : string) (transition : option Time)
    (ready : bool) (now : Time) : Instance :=
  {| i_ID := i_ID i; i_Namespace := i_Namespace i; i_Name := i_Name i;
     i_ServiceName := i_ServiceName i; i_ServiceID := i_ServiceID i; i_Status := st;
     i_StatusMessage := message; i_IP := i_IP i; i_ContainerID := i_ContainerID i; i_PID := i_PID i;
     i_CreatedAt := i_CreatedAt i; i_UpdatedAt := now; i_LastTransitionAt := transition;
     i_Ready := ready; i_ReadyChangedAt := Some now;
     i_ContainerEverCreatedAt := i_ContainerEverCreatedAt i;
     i_NextCreateAttemptAt := i_NextCreateAttemptAt i; i_FailedAt := i_FailedAt i;
     i_LastLogs := i_LastLogs i; i_Process := i_Process i;
     i_Resources := i_Resources i; i_Environment := i_Environment i; i_Metadata := i_Metadata i |}.

(** The callbacks handed to [UpdateFunc]; [None] is [ErrSkipUpdate]. *)
Definition promoteMutate (now : Time) (cur : Instance) : option Instance :=
  if negb (bool_decide (i_Status cur = InstanceStatusStarting)) then None
  else Some (with_verdict cur InstanceStatusRunning "Ready" (Some now) true now).

Definition readyMutate (now : Time) (ready : bool) (cur : Instance) : option Instance :=
  if negb (bool_decide (i_Status cur = InstanceStatusRunning)) ||
     (bool_decide (is_Some (i_ReadyChangedAt cur)) && bool_decide (i_Ready cur = ready))
  then None
  else Some (with_verdict cur InstanceStatusRunning (i_StatusMessage cur) (i_LastTransitionAt cur) ready now).

(** The world: the controller, the instance records, the running goroutines, and
    the republish calls made so far. *)
Record world := mkWorld {
  w_hc : healthController;
  w_store : gmap (string * string) Instance;
  w_tasks : list task;
  w_published : list (string * string);
}.

(** One compare-and-swap: whether it returned without error, and the world. *)
Definition storeUpdate (ok : bool) (ns id : string) (mutate : Instance → option Instance) (w : world) : bool * world :=
  match (if ok then w_store w !! (ns, id) else None) with
  | None => (false, w)
  | Some cur =>
      match mutate cur with
      | None => (true, w)
      | Some i => (true, mkWorld (w_hc w) (<[(ns, id) := i]> (w_store w)) (w_tasks w) (w_published w ++ [(ns, id)]))
      end
  end.

Definition with_tasks (w : world) (l : list task) : world := mkWorld (w_hc w) (w_store w) l (w_published w).
Definition with_hc (w : world) (c : healthController) : world := mkWorld c (w_store w) (w_tasks w) (w_published w).

(** [promoteToRunningOnReady] and what its goroutine does next. *)
Definition promoteToRunningOnReady (now : Time) (ok : bool) (ns id : string) (w : world) : world :=
  let '(done, w) := storeUpdate ok ns id (promoteMutate now) w in
  if done then w else with_tasks w (w_tasks w ++ [TPromoteFailed id]).

(** [setReady] and what its goroutine does next. *)
Definition setReady (now : Time) (ok : bool) (ns id : string) (ready : bool) (w : world) : world :=
  let '(_, w) := storeUpdate ok ns id (readyMutate now ready) w in with_tasks w (w_tasks w ++ [TReadyDone id]).

Definition promoteFailed (id : string) (c : healthController) : healthController :=
  with_instances c (alter (λ h, with_promoted h false (ih_ready h)) id (hc_instances c)).

Definition readyDone (id : string) (c : healthController) : healthController :=
  with_instances c (alter (λ h, with_ready h (ih_ready h) false) id (hc_instances c)).

(** [performHealthCheck] up to its store read; [read] is whether that succeeds.
    [p] is the probe the monitor goroutine started with. *)
Definition performHealthCheck (id : string) (k : check) (p : Probe) (read : bool) (w : world) : world :=
  match hc_instances (w_hc w) !! id with
  | None => w
  | Some h =>
      let i := ih_instance h in
      let fresh := if read && hc_running (w_hc w) then w_store w !! (i_Namespace i, i_ID i) else None in
      with_tasks w (w_tasks w ++ [TProbe id k p fresh])
  end.

(** What one goroutine does when it runs next.  [ok] is whether its store call
    succeeds, [executed] what its probe answers. *)
Definition runTask (now : Time) (ok executed : bool) (t : task) (w : world) : world :=
  match t with
  | TProbe id c p fresh =>
      let '(hc, go) := refresh id fresh (w_hc w) in
      mkWorld hc (w_store w) (w_tasks w ++ (if go then [TProbed id c p] else [])) (w_published w)
  | TProbed id k p =>
      match checkResult p (hc_running (w_hc w)) executed with
      | None => w
      | Some r =>
          let '(hc, tasks) := updateHealthStatus now id r k (w_hc w) in
          mkWorld hc (w_store w) (w_tasks w ++ tasks) (w_published w)
      end
  | TPromote ns id => promoteToRunningOnReady now ok ns id w
  | TPromoteFailed id => with_hc w (promoteFailed id (w_hc w))
  | TReady ns id ready => setReady now ok ns id ready w
  | TReadyDone id => with_hc w (readyDone id (w_hc w))
  | TRestart _ => w
  end.
