(* ===== verification/HealthProps.v ===== *)
(** * Invariants of the health controller's goroutines

    A history is the list of calls and readiness verdicts the controller saw,
    newest first.  Two invariants hold whatever the interleaving of goroutines,
    calls and other writers: the evidence behind every write in flight, and, when
    the other writers respect what instance ids mean, the bookkeeping of
    promotions and readiness flips. *)

From S2P Require Import Prelude Types Teardown Health.

(** ** Histories *)

Inductive hevent :=
| EAdd (id : string) (service : HealthCheck)
| EReady (id : string) (passed : bool).

(** How many of the latest readiness verdicts on [id] are [b]. *)
Fixpoint streak (id : string) (b : bool) (hist : list hevent) : Z :=
  match hist with
  | [] => 0
  | EReady id' b' :: hist =>
      if bool_decide (id' = id) then if Bool.eqb b' b then 1 + streak id b hist else 0 else streak id b hist
  | EAdd _ _ :: hist => streak id b hist
  end.

(** The checks last given for [id]. *)
Fixpoint current_spec (id : string) (hist : list hevent) : option HealthCheck :=
  match hist with
  | [] => None
  | EAdd id' svc :: hist => if bool_decide (id' = id) then Some svc else current_spec id hist
  | EReady _ _ :: hist => current_spec id hist
  end.

(** How many verdicts in a row a flip to [b] takes. *)
Definition threshold (svc : HealthCheck) (b : bool) : Z :=
  if b then successThreshold (probeOf svc Readiness) else failureThreshold (probeOf svc Readiness).

(** At some point of the history the threshold for [b] was met. *)
Definition justified (id : string) (b : bool) (hist : list hevent) : Prop :=
  ∃ past svc, past `suffix_of` hist ∧ current_spec id past = Some svc ∧ threshold svc b ≤ streak id b past.

(** ** Steps *)

(** The verdict a goroutine is about to deliver to a monitored instance. *)
Definition delivered (executed : bool) (t : task) (w : world) : list hevent :=
  match t with
  | TProbed id Readiness p =>
      match hc_instances (w_hc w) !! id, checkResult p (hc_running (w_hc w)) executed with
      | Some _, Some r => [EReady id r]
      | _, _ => []
      end
  | _ => []
  end.

(** The goroutines that write about [id]. *)
Definition promotes (id : string) (t : task) : bool :=
  match t with TPromote _ id' | TPromoteFailed id' => bool_decide (id' = id) | _ => false end.
Definition flips (id : string) (t : task) : bool :=
  match t with TReady _ id' _ | TReadyDone id' => bool_decide (id' = id) | _ => false end.

Section World.
(** Instance ids are unique: [home] is the namespace each one lives in. *)
Context (home : string → string).

Definition keyed (k : string * string) (i : Instance) : Prop := i_ID i = k.2 ∧ i_Namespace i = k.1 ∧ k.1 = home k.2.

(** With [tidy], the other writers respect what ids mean: records are filed
    under their own key, an instance enters monitoring with no write about it
    still running, and becomes Starting only while it is not monitored. *)
Inductive hstep (tidy : Prop) : world → list hevent → world → Prop :=
| st_add svc i w :
    (tidy → i_Namespace i = home (i_ID i) ∧
            (hc_instances (w_hc w) !! i_ID i = None → ∀ t, t ∈ w_tasks w → promotes (i_ID i) t = false ∧ flips (i_ID i) t = false)) →
    hstep tidy w [EAdd (i_ID i) svc] (with_hc w (AddInstance svc i (w_hc w)))
| st_remove id w : hstep tidy w [] (with_hc w (RemoveInstance id (w_hc w)))
| st_exit id w : hstep tidy w [] (with_hc w (monitorExit id (w_hc w)))
| st_start w : hstep tidy w [] (with_hc w (Start (w_hc w)))
| st_stop w : hstep tidy w [] (with_hc w (Stop (w_hc w)))
| st_probe id k p read w : hstep tidy w [] (performHealthCheck id k p read w)
| st_run now ok executed before t after w :
    w_tasks w = before ++ t :: after →
    hstep tidy w (delivered executed t w) (runTask now ok executed t (with_tasks w (before ++ after)))
| st_write k new w :
    (tidy → ∀ i, new = Some i → keyed k i ∧
       (i_Status i = InstanceStatusStarting →
        hc_instances (w_hc w) !! k.2 = None ∨ ∃ j, w_store w !! k = Some j ∧ i_Status j = InstanceStatusStarting)) →
    hstep tidy w [] (mkWorld (w_hc w) (partial_alter (λ _, new) k (w_store w)) (w_tasks w) (w_published w)).

Inductive reachable (tidy : Prop) : list hevent → world → Prop :=
| reach_init store :
    (tidy → map_Forall keyed store) → reachable tidy [] (mkWorld NewController store [] [])
| reach_step hist w ev w' : reachable tidy hist w → hstep tidy w ev w' → reachable tidy (ev ++ hist) w'.

(** ** The evidence invariant *)

Definition task_ok (hist : list hevent) (t : task) : Prop :=
  match t with
  | TPromote _ id => EReady id true ∈ hist
  | TReady _ id want => justified id want hist
  | _ => True
  end.

Definition entry_ok (hist : list hevent) (id : string) (h : instanceHealth) : Prop :=
  current_spec id hist = Some (ih_service h) ∧
  ih_readinessFailures h ≤ streak id false hist ∧ ih_readinessSuccesses h ≤ streak id true hist.

Definition evidence (hist : list hevent) (w : world) : Prop :=
  map_Forall (entry_ok hist) (hc_instances (w_hc w)) ∧ Forall (task_ok hist) (w_tasks w).

Lemma streak_nonneg id b hist : 0 ≤ streak id b hist.
Proof. induction hist as [|[?|? ?] hist IH]; cbn [streak]; [lia|done|]. case_bool_decide; [|done]. destruct (Bool.eqb _ _); lia. Qed.

Lemma task_ok_mono ev hist t : task_ok hist t → task_ok (ev ++ hist) t.
Proof.
  destruct t; cbn [task_ok]; try done.
  - intros H. apply elem_of_app. by right.
  - intros (past & svc & Hp & H). exists past, svc. split; [by apply suffix_app_r|done].
Qed.

(** Every entry comes from one that [R] relates to it. *)
Definition from_entry (R : string → instanceHealth → instanceHealth → Prop) (m m' : gmap string instanceHealth) : Prop :=
  ∀ id h', m' !! id = Some h' → ∃ h, m !! id = Some h ∧ R id h h'.

Section Entries.
Context (R : string → instanceHealth → instanceHealth → Prop) (Rrefl : ∀ id h, R id h h).

Lemma from_refl m : from_entry R m m.
Proof using Rrefl. intros id h H. by exists h. Qed.

Lemma from_alter m id f : (∀ h, R id h (f h)) → from_entry R m (alter f id m).
Proof using Rrefl.
  intros Hf id' h'. destruct (decide (id = id')) as [<-|Hne].
  - rewrite lookup_alter_eq. destruct (m !! id) as [h|]; [|done]. intros [= <-]. exists h. split; [done|apply Hf].
  - rewrite lookup_alter_ne by done. intros H. by exists h'.
Qed.

Lemma from_insert m id h x : m !! id = Some h → R id h x → from_entry R m (<[id := x]> m).
Proof using Rrefl.
  intros Hm Hx id' h'. destruct (decide (id = id')) as [<-|Hne].
  - rewrite lookup_insert_eq. intros [= <-]. by exists h.
  - rewrite lookup_insert_ne by done. intros H. by exists h'.
Qed.

Lemma from_delete m id : from_entry R m (delete id m).
Proof using Rrefl. intros id' h [? H]%lookup_delete_Some. by exists h. Qed.
End Entries.

(** Changes that leave the checks and the counters of every entry alone. *)
Definition same_counters (h h' : instanceHealth) : Prop :=
  ih_service h' = ih_service h ∧ ih_readinessFailures h' = ih_readinessFailures h ∧
  ih_readinessSuccesses h' = ih_readinessSuccesses h.

Definition inherits := from_entry (λ _, same_counters).

Lemma evidence_inherits hist w w' :
  evidence hist w → inherits (hc_instances (w_hc w)) (hc_instances (w_hc w')) →
  (∀ t, t ∈ w_tasks w' → t ∈ w_tasks w ∨ task_ok hist t) → evidence hist w'.
Proof.
  intros [He Ht] Hi Hts. split.
  - intros id h' H. destruct (Hi id h' H) as (h & Hh & E1 & E2 & E3). destruct (He id h Hh) as (? & ? & ?).
    unfold entry_ok. by rewrite E1, E2, E3.
  - apply Forall_forall. intros t H. destruct (Hts t H) as [Hin|]; [|done]. by eapply Forall_forall in Ht.
Qed.

Lemma refresh_inherits id fresh c : inherits (hc_instances c) (hc_instances (refresh id fresh c).1).
Proof.
  unfold refresh. destruct fresh as [i|]; [|by apply (from_refl (λ _, same_counters))]. destruct (healthMonitoringTerminal _); cbn [fst].
  - by apply (from_delete (λ _, same_counters)).
  - by apply (from_alter (λ _, same_counters)).
Qed.

Lemma livenessResult_counters now running r h : same_counters h (livenessResult now running r h).1.
Proof.
  unfold livenessResult, restartInstanceWithBackoff. set (b := (_ && _)). destruct b; [|done].
  destruct (_ && _); [done|]. by destruct running.
Qed.

(** What a readiness verdict does to an entry and the goroutines it starts. *)
Lemma readinessResult_spec id r h h' tasks :
  readinessResult id r h = (h', tasks) →
  ih_service h' = ih_service h ∧ ih_instance h' = ih_instance h ∧
  ih_readinessFailures h' = (if r then 0 else ih_readinessFailures h + 1) ∧
  ih_readinessSuccesses h' = (if r then ih_readinessSuccesses h + 1 else 0) ∧
  ih_promoted h' = (r || ih_promoted h) ∧
  ∃ flip : bool,
    tasks = (if flip then [TReady (i_Namespace (ih_instance h)) id r] else []) ++
            (if r && negb (ih_promoted h) then [TPromote (i_Namespace (ih_instance h)) id] else []) ∧
    ih_readyWriting h' = flip || ih_readyWriting h ∧
    flip = bool_decide (i_Status (ih_instance h) = InstanceStatusRunning) && negb (ih_readyWriting h) &&
           negb (Bool.eqb (ih_ready h) r) &&
           (threshold (ih_service h) r <=? (if r then ih_readinessSuccesses h + 1 else ih_readinessFailures h + 1)).
Proof.
  unfold readinessResult, applyReadinessThresholdsLocked.
  cbn [with_readiness ih_instance ih_service ih_readyWriting ih_ready ih_readinessFailures ih_readinessSuccesses ih_promoted].
  assert (Hf : 0 < failureThreshold (probeOf (ih_service h) Readiness)).
  { unfold failureThreshold. destruct (probeOf _ _) as [p|]; [|lia]. destruct (Z.ltb_spec 0 (pr_FailureThreshold p)); lia. }
  assert (Hs : 0 < successThreshold (probeOf (ih_service h) Readiness)).
  { unfold successThreshold. destruct (probeOf _ _) as [p|]; [|lia]. destruct (Z.ltb_spec 0 (pr_SuccessThreshold p)); lia. }
  unfold threshold.
  destruct (bool_decide (i_Status (ih_instance h) = InstanceStatusRunning)), (ih_readyWriting h) eqn:Hw, (ih_ready h) eqn:Hr, r;
    cbn [negb andb orb Bool.eqb];
    repeat match goal with |- context [?a <=? 0] => replace (a <=? 0) with false by (symmetry; apply Z.leb_gt; lia) end;
    repeat match goal with |- context [?a <=? ?b] => destruct (a <=? b) end;
    cbn [with_ready with_readiness ih_promoted ih_instance ih_ready]; destruct (ih_promoted h) eqn:Hp; cbn [andb orb negb];
    intros Heq; inversion Heq; subst h' tasks; clear Heq; cbn; rewrite ?Hp, ?Hw; repeat split; try done;
    solve [exists true; repeat split; done | exists false; repeat split; done].
Qed.

Lemma evidence_ready hist w id r h h' tasks :
  evidence hist w → hc_instances (w_hc w) !! id = Some h → readinessResult id r h = (h', tasks) →
  evidence (EReady id r :: hist)
    (mkWorld (with_instances (w_hc w) (<[id := h']> (hc_instances (w_hc w)))) (w_store w) (w_tasks w ++ tasks) (w_published w)).
Proof.
  intros [He Ht] Hh Hr. destruct (readinessResult_spec _ _ _ _ _ Hr) as (E1 & _ & E2 & E3 & _ & flip & -> & _ & Hflip).
  destruct (He id h Hh) as (Hs & Hf & Hp). split; cbn [w_hc w_tasks with_instances hc_instances].
  - intros id' x. destruct (decide (id = id')) as [<-|Hne].
    + rewrite lookup_insert_eq. intros [= <-]. unfold entry_ok. cbn [current_spec streak]. rewrite bool_decide_true by done.
      rewrite E1, E2, E3. split; [done|]. pose proof (streak_nonneg id true hist). pose proof (streak_nonneg id false hist).
      destruct r; cbn [Bool.eqb]; lia.
    + rewrite lookup_insert_ne by done. intros Hx. destruct (He id' x Hx) as (? & ? & ?). unfold entry_ok. cbn [current_spec streak].
      by rewrite bool_decide_false.
  - apply Forall_app. split; [eapply Forall_impl; [exact Ht|]; intros t; apply (task_ok_mono [_])|].
    apply Forall_app. split.
    + destruct flip; [|done]. apply Forall_singleton. exists (EReady id r :: hist), (ih_service h). split; [done|].
      cbn [current_spec streak]. rewrite bool_decide_true by done. split; [done|].
      symmetry in Hflip. apply andb_true_iff in Hflip as [_ Hthr]. apply Z.leb_le in Hthr. destruct r; cbn [Bool.eqb]; lia.
    + destruct r; cbn [andb]; [|done]. destruct (ih_promoted h); [done|]. apply Forall_singleton. cbn [task_ok].
      apply elem_of_cons. by left.
Qed.

Lemma evidence_add hist w svc i :
  evidence hist w → evidence (EAdd (i_ID i) svc :: hist) (with_hc w (AddInstance svc i (w_hc w))).
Proof.
  intros [He Ht]. split; cbn [w_hc w_tasks with_hc].
  - assert (Hold : ∀ id h, i_ID i ≠ id → hc_instances (w_hc w) !! id = Some h → entry_ok (EAdd (i_ID i) svc :: hist) id h).
    { intros id h Hne Hh. destruct (He id h Hh) as (? & ? & ?). unfold entry_ok. cbn [current_spec streak]. by rewrite bool_decide_false. }
    pose proof (streak_nonneg (i_ID i) true hist). pose proof (streak_nonneg (i_ID i) false hist).
    intros id x. unfold AddInstance. destruct (hc_instances (w_hc w) !! i_ID i) as [h|] eqn:Hh; cbn [with_instances hc_instances];
      (destruct (decide (i_ID i = id)) as [<-|Hne];
       [rewrite lookup_insert_eq; intros [= <-]; unfold entry_ok; cbn; rewrite bool_decide_true by done|
        rewrite lookup_insert_ne by done; by apply Hold]).
    + destruct (He _ h Hh) as (_ & ? & ?). done.
    + split; [done|]. lia.
  - eapply Forall_impl; [exact Ht|]. intros t. apply (task_ok_mono [_]).
Qed.

Lemma storeUpdate_frame ok ns id mutate w :
  let '(_, w') := storeUpdate ok ns id mutate w in w_hc w' = w_hc w ∧ w_tasks w' = w_tasks w.
Proof. unfold storeUpdate. destruct (if ok then _ else _); [|done]. by destruct (mutate _). Qed.

Lemma evidence_run hist w now ok executed t :
  evidence hist w → task_ok hist t → evidence (delivered executed t w ++ hist) (runTask now ok executed t w).
Proof.
  intros He Ht. destruct t as [id k p fresh|id k p|ns id|id|ns id r|id|i]; cbn [runTask delivered app].
  - destruct (refresh id fresh (w_hc w)) as [hc go] eqn:Hr. apply (evidence_inherits _ w); [done| |].
    + pose proof (refresh_inherits id fresh (w_hc w)) as Hi. rewrite Hr in Hi. exact Hi.
    + cbn [w_tasks]. intros t [|H]%elem_of_app; [by left|]. right. destruct go; [|set_solver]. apply list_elem_of_singleton in H as ->. done.
  - destruct (checkResult _ _ _) as [r|]; [|by destruct k, (hc_instances (w_hc w) !! id)].
    unfold updateHealthStatus. destruct (hc_instances (w_hc w) !! id) as [h|] eqn:Hh.
    + destruct k; cbn [app].
      * destruct (livenessResult _ _ _ _) as [h' o] eqn:Hl. pose proof (livenessResult_counters now (hc_running (w_hc w)) r h) as Hc.
        rewrite Hl in Hc. cbn [fst] in Hc.
        assert (Hput : evidence hist (mkWorld (with_instances (w_hc w) (<[id := h']> (hc_instances (w_hc w)))) (w_store w) (w_tasks w ++ []) (w_published w))).
        { apply (evidence_inherits _ w); [done|by eapply (from_insert (λ _, same_counters))|]. cbn [w_tasks]. intros t. rewrite app_nil_r. by left. }
        destruct o as [[]|]; [|exact Hput|exact Hput|exact Hput].
        apply (evidence_inherits _ w); [done|by apply (from_delete (λ _, same_counters))|]. cbn [w_tasks]. intros t [|H]%elem_of_app; [by left|].
        apply list_elem_of_singleton in H as ->. by right.
      * destruct (readinessResult id r h) as [h' tasks] eqn:Hr. by eapply evidence_ready.
    + replace (match k with Liveness => [] | Readiness => [] end) with (@nil hevent) by by destruct k.
      apply (evidence_inherits _ w); [done|by apply (from_refl (λ _, same_counters))|]. cbn [w_tasks]. intros t. rewrite app_nil_r. by left.
  - unfold promoteToRunningOnReady. pose proof (storeUpdate_frame ok ns id (promoteMutate now) w) as Hf.
    destruct (storeUpdate _ _ _ _ _) as [done' w'], Hf as [E1 E2]. apply (evidence_inherits _ w); [done| |].
    + destruct done'; cbn [with_tasks w_hc]; rewrite E1; by apply (from_refl (λ _, same_counters)).
    + destruct done'; cbn [with_tasks w_tasks]; rewrite E2; [by left|]. intros t [|H]%elem_of_app; [by left|].
      apply list_elem_of_singleton in H as ->. by right.
  - apply (evidence_inherits _ w); [done|by apply (from_alter (λ _, same_counters))|by left].
  - unfold setReady. pose proof (storeUpdate_frame ok ns id (readyMutate now r) w) as Hf.
    destruct (storeUpdate _ _ _ _ _) as [done' w'], Hf as [E1 E2]. apply (evidence_inherits _ w); [done| |]; cbn [with_tasks w_hc w_tasks].
    + rewrite E1. by apply (from_refl (λ _, same_counters)).
    + rewrite E2. intros t [|H]%elem_of_app; [by left|]. apply list_elem_of_singleton in H as ->. by right.
  - apply (evidence_inherits _ w); [done|by apply (from_alter (λ _, same_counters))|by left].
  - done.
Qed.

Lemma evidence_step tidy hist w ev w' : evidence hist w → hstep tidy w ev w' → evidence (ev ++ hist) w'.
Proof.
  intros He Hs. destruct Hs as [svc i w _|id w|id w|w|w|id k p read w|now ok executed before t after w Hts|k new w _]; cbn [app].
  - by apply evidence_add.
  - apply (evidence_inherits _ w); [done|by apply (from_delete (λ _, same_counters))|by left].
  - apply (evidence_inherits _ w); [done|by apply (from_alter (λ _, same_counters))|by left].
  - apply (evidence_inherits _ w); [done|by apply (from_refl (λ _, same_counters))|by left].
  - apply (evidence_inherits _ w); [done|by apply (from_refl (λ _, same_counters))|by left].
  - unfold performHealthCheck. destruct (hc_instances (w_hc w) !! id); [|done].
    apply (evidence_inherits _ w); [done|by apply (from_refl (λ _, same_counters))|]. cbn [with_tasks w_tasks]. intros t [|H]%elem_of_app; [by left|].
    apply list_elem_of_singleton in H as ->. by right.
  - destruct He as [He Ht]. rewrite Hts in Ht. apply Forall_app in Ht as [Hb [Ht Ha]%Forall_cons].
    change (delivered executed t w) with (delivered executed t (with_tasks w (before ++ after))).
    apply evidence_run; [|done]. split; [done|]. by apply Forall_app.
  - apply (evidence_inherits _ w); [done|by apply (from_refl (λ _, same_counters))|by left].
Qed.

Lemma reachable_evidence tidy hist w : reachable tidy hist w → evidence hist w.
Proof. induction 1 as [store _|]; [by split|by eapply evidence_step]. Qed.

(** ** What the controller writes *)

(** A change of a record the controller may make. *)
Inductive verdict (hist : list hevent) (now : Time) (id : string) (i : Instance) : Instance → Prop :=
| v_promote :
    i_Status i = InstanceStatusStarting → EReady id true ∈ hist →
    verdict hist now id i (with_verdict i InstanceStatusRunning "Ready" (Some now) true now)
| v_flip ready :
    i_Status i = InstanceStatusRunning → (i_ReadyChangedAt i = None ∨ i_Ready i ≠ ready) → justified id ready hist →
    verdict hist now id i (with_verdict i InstanceStatusRunning (i_StatusMessage i) (i_LastTransitionAt i) ready now).

Lemma storeUpdate_store hist now ok ns id mutate w :
  (∀ i i', mutate i = Some i' → verdict hist now id i i') →
  ∀ k, (storeUpdate ok ns id mutate w).2.(w_store) !! k = w_store w !! k ∨
       k = (ns, id) ∧ k ∈ w_published (storeUpdate ok ns id mutate w).2 ∧
       ∃ i i', w_store w !! k = Some i ∧ (storeUpdate ok ns id mutate w).2.(w_store) !! k = Some i' ∧ verdict hist now k.2 i i'.
Proof.
  intros Hm k. unfold storeUpdate. destruct ok; [|by left]. destruct (w_store w !! (ns, id)) as [i|] eqn:Hi; [|by left].
  destruct (mutate i) as [i'|] eqn:Hmi; [|by left]. cbn [snd w_store w_published].
  destruct (decide (k = (ns, id))) as [->|Hne]; [right|left; by rewrite lookup_insert_ne].
  split; [done|]. split; [apply elem_of_app; right; by apply list_elem_of_singleton|].
  exists i, i'. rewrite lookup_insert_eq. repeat split; [done|]. by apply Hm.
Qed.

(** ** Identity *)

Definition at_home (id : string) (i : Instance) : Prop := i_ID i = id ∧ i_Namespace i = home id.

Definition task_keyed (t : task) : Prop :=
  match t with
  | TProbe id _ _ (Some i) => at_home id i
  | TPromote ns id | TReady ns id _ => ns = home id
  | _ => True
  end.

Definition filed (w : world) : Prop :=
  map_Forall keyed (w_store w) ∧ map_Forall (λ id h, at_home id (ih_instance h)) (hc_instances (w_hc w)) ∧
  Forall task_keyed (w_tasks w).

Lemma keyed_home k i : keyed k i → at_home k.2 i.
Proof. intros (? & E & ?). split; [done|]. by rewrite E. Qed.

(** ** No promotion is lost, and flips are written one at a time *)

Definition promote_inv (w : world) : Prop :=
  ∀ id h i, hc_instances (w_hc w) !! id = Some h → ih_promoted h = true → w_store w !! (home id, id) = Some i →
    i_Status i = InstanceStatusStarting → 0 < countb (promotes id) (w_tasks w).

Definition flip_inv (w : world) : Prop :=
  ∀ id, countb (flips id) (w_tasks w) ≤ 1 ∧
    ∀ h, hc_instances (w_hc w) !! id = Some h → countb (flips id) (w_tasks w) = if ih_readyWriting h then 1 else 0.

Definition sound (w : world) : Prop := filed w ∧ promote_inv w ∧ flip_inv w.

Lemma sound_perm w l : sound w → w_tasks w ≡ₚ l → sound (with_tasks w l).
Proof.
  intros ((Hk & He & Ht) & Hp & Hf) Hl. split; [|split].
  - split; [done|]. split; [done|]. cbn [with_tasks w_tasks]. by rewrite <-Hl.
  - intros id h i ????. cbn [with_tasks w_tasks]. rewrite <-(countb_perm _ _ _ Hl). by eapply Hp.
  - intros id. cbn [with_tasks w_tasks w_hc]. rewrite <-(countb_perm _ _ _ Hl). apply Hf.
Qed.

(** The identity is kept and no promotion mark is set. *)
Definition keep_entry (id : string) (h h' : instanceHealth) : Prop :=
  (at_home id (ih_instance h) → at_home id (ih_instance h')) ∧ (ih_promoted h' = true → ih_promoted h = true).
Definition same_flag (id : string) (h h' : instanceHealth) : Prop := ih_readyWriting h' = ih_readyWriting h.

Definition keeps := from_entry keep_entry.
Definition same_writing := from_entry same_flag.

(** The store after a step: records stay filed, and none becomes Starting. *)
Definition store_step (w w' : world) : Prop :=
  ∀ k i', w_store w' !! k = Some i' → keyed k i' ∧
    (i_Status i' = InstanceStatusStarting →
     hc_instances (w_hc w') !! k.2 = None ∨ ∃ i, w_store w !! k = Some i ∧ i_Status i = InstanceStatusStarting).

Lemma store_step_same w w' : filed w → w_store w' = w_store w → store_step w w'.
Proof. intros (Hk & _) E k i' H. rewrite E in H. split; [by apply Hk|]. intros ?. right. by exists i'. Qed.

Lemma keeps_home w m' :
  filed w → keeps (hc_instances (w_hc w)) m' → map_Forall (λ id h, at_home id (ih_instance h)) m'.
Proof. intros (_ & He & _) Hm id h' H. destruct (Hm id h' H) as (h & Hh & Hhome & _). by apply Hhome, He. Qed.

Lemma filed_keep w w' :
  filed w → map_Forall (λ id h, at_home id (ih_instance h)) (hc_instances (w_hc w')) → store_step w w' →
  (∀ t, t ∈ w_tasks w' → t ∈ w_tasks w ∨ task_keyed t) → filed w'.
Proof.
  intros (Hk & He & Ht) Hm Hs H3. split; [|split; [done|]].
  - intros k i H. by apply Hs.
  - apply Forall_forall. intros t [H|H]%H3; [|done]. by eapply Forall_forall in Ht.
Qed.

Lemma promote_keep w w' :
  filed w → promote_inv w → keeps (hc_instances (w_hc w)) (hc_instances (w_hc w')) → store_step w w' →
  (∀ id h i, hc_instances (w_hc w') !! id = Some h → ih_promoted h = true → w_store w' !! (home id, id) = Some i →
     i_Status i = InstanceStatusStarting → countb (promotes id) (w_tasks w) ≤ countb (promotes id) (w_tasks w')) →
  promote_inv w'.
Proof.
  intros Hw Hp Hm Hs Hc id h' i' Hh' Hpr Hi' Hst. specialize (Hc id h' i' Hh' Hpr Hi' Hst).
  destruct (Hm id h' Hh') as (h & Hh & _ & Hpr'). destruct (Hs _ _ Hi') as [_ [Hn|(i & Hi & Hsi)]]; [done|cbn [snd] in Hn; by rewrite Hh' in Hn|].
  specialize (Hp id h i Hh (Hpr' Hpr) Hi Hsi). lia.
Qed.

Lemma flip_keep w w' :
  flip_inv w → same_writing (hc_instances (w_hc w)) (hc_instances (w_hc w')) →
  (∀ id, countb (flips id) (w_tasks w') = countb (flips id) (w_tasks w)) → flip_inv w'.
Proof.
  intros Hf Hm Hc id. rewrite Hc. split; [apply Hf|]. intros h' Hh'. destruct (Hm id h' Hh') as (h & Hh & ->). by apply Hf.
Qed.

Lemma sound_keep w w' :
  sound w → keeps (hc_instances (w_hc w)) (hc_instances (w_hc w')) →
  same_writing (hc_instances (w_hc w)) (hc_instances (w_hc w')) → store_step w w' →
  (∀ t, t ∈ w_tasks w' → t ∈ w_tasks w ∨ task_keyed t) →
  (∀ id, countb (promotes id) (w_tasks w') = countb (promotes id) (w_tasks w)) →
  (∀ id, countb (flips id) (w_tasks w') = countb (flips id) (w_tasks w)) → sound w'.
Proof.
  intros (H1 & H2 & H3) Hm Hwr Hs Ht Hcp Hcf. split; [|split].
  - eapply filed_keep; [done| |done|done]. by eapply keeps_home.
  - eapply promote_keep; try done. intros ??????. by rewrite Hcp.
  - by eapply flip_keep.
Qed.

(** A verdict on readiness. *)
Lemma sound_ready w id r h h' tasks :
  sound w → hc_instances (w_hc w) !! id = Some h → readinessResult id r h = (h', tasks) →
  sound (mkWorld (with_instances (w_hc w) (<[id := h']> (hc_instances (w_hc w)))) (w_store w) (w_tasks w ++ tasks) (w_published w)).
Proof.
  intros (Hw & Hp & Hf) Hh Hr. destruct (readinessResult_spec _ _ _ _ _ Hr) as (_ & E1 & _ & _ & Hpr & flip & -> & Hwr & Hflip).
  pose proof Hw as (_ & He & _). pose proof (He id h Hh) as [_ Hns]. cbn beta in Hns. rewrite Hns. split; [|split].
  - apply (filed_keep w); [done| |by apply store_step_same|].
    + apply map_Forall_insert_2; [|done]. rewrite E1. by apply He.
    + cbn [w_tasks]. intros t [|H]%elem_of_app; [by left|right]. destruct flip, r, (ih_promoted h); cbn in H; set_solver.
  - intros id' x i Hx Hpx Hi Hst. cbn [w_tasks]. rewrite countb_app. pose proof (countb_nonneg (promotes id') (w_tasks w)).
    cbn [w_hc with_instances hc_instances w_store] in *. destruct (decide (id = id')) as [<-|Hne].
    + rewrite lookup_insert_eq in Hx. injection Hx as <-. rewrite Hpr in Hpx. destruct (ih_promoted h) eqn:Hph.
      * pose proof (Hp id h i Hh Hph Hi Hst). pose proof (countb_nonneg (promotes id)
          ((if flip then [TReady (home id) id r] else []) ++ (if r && negb true then [TPromote (home id) id] else []))). lia.
      * rewrite orb_false_r in Hpx. subst r. rewrite countb_app. cbn. rewrite bool_decide_true by done.
        pose proof (countb_nonneg (promotes id) (if flip then [TReady (home id) id true] else [])). lia.
    + rewrite lookup_insert_ne in Hx by done. pose proof (Hp id' x i Hx Hpx Hi Hst).
      pose proof (countb_nonneg (promotes id')
          ((if flip then [TReady (home id) id r] else []) ++ (if r && negb (ih_promoted h) then [TPromote (home id) id] else []))). lia.
  - intros id'. cbn [w_tasks w_hc with_instances hc_instances]. rewrite !countb_app.
    replace (countb (flips id') (if r && negb (ih_promoted h) then [TPromote (home id) id] else [])) with 0 by by destruct r, (ih_promoted h).
    destruct (Hf id) as [_ Hwh]. specialize (Hwh h Hh). destruct (decide (id = id')) as [<-|Hne].
    + rewrite lookup_insert_eq. destruct flip.
      * symmetry in Hflip. repeat apply andb_true_iff in Hflip as [Hflip ?]. destruct (ih_readyWriting h); [done|].
        cbn. rewrite bool_decide_true by done. split; [lia|]. intros x [= <-]. rewrite Hwr. cbn. lia.
      * cbn. split; [destruct (ih_readyWriting h); lia|]. intros x [= <-]. rewrite Hwr. cbn. lia.
    + rewrite lookup_insert_ne by done. destruct (Hf id') as [H1 H2].
      replace (countb (flips id') (if flip then [TReady (home id) id r] else [])) with 0
        by (destruct flip; [cbn; by rewrite bool_decide_false|done]).
      split; [lia|]. intros x Hx. rewrite <-(H2 x Hx). lia.
Qed.

(** One compare-and-swap that keeps the record's key. *)
Lemma storeUpdate_step ok ns id mutate w b w' :
  filed w → storeUpdate ok ns id mutate w = (b, w') →
  (∀ i i', mutate i = Some i' → i_ID i' = i_ID i ∧ i_Namespace i' = i_Namespace i ∧ i_Status i' ≠ InstanceStatusStarting) →
  store_step w w' ∧ w_hc w' = w_hc w ∧ w_tasks w' = w_tasks w.
Proof.
  intros Hw Hu Hm. unfold storeUpdate in Hu. destruct (if ok then _ else _) as [cur|] eqn:Hc; [|].
  2: { injection Hu as <- <-. split; [by apply store_step_same|done]. }
  destruct ok; [|done]. destruct (mutate cur) as [i'|] eqn:Hmc; injection Hu as <- <-; [|split; [by apply store_step_same|done]].
  split; [|done]. destruct (Hm _ _ Hmc) as (E1 & E2 & E3). intros k x. cbn [w_store w_hc].
  destruct (decide (k = (ns, id))) as [->|Hne].
  - rewrite lookup_insert_eq. intros [= <-]. destruct Hw as (Hk & _). destruct (Hk _ _ Hc) as (? & ? & ?).
    split; [|done]. repeat split; cbn in *; congruence.
  - rewrite lookup_insert_ne by done. intros Hx. split; [by apply Hw|]. intros ?. right. by exists x.
Qed.

Lemma promoteMutate_keeps now i i' :
  promoteMutate now i = Some i' → i_ID i' = i_ID i ∧ i_Namespace i' = i_Namespace i ∧ i_Status i' ≠ InstanceStatusStarting.
Proof. unfold promoteMutate. destruct (negb _); [done|]. by intros [= <-]. Qed.

Lemma readyMutate_keeps now r i i' :
  readyMutate now r i = Some i' → i_ID i' = i_ID i ∧ i_Namespace i' = i_Namespace i ∧ i_Status i' ≠ InstanceStatusStarting.
Proof. unfold readyMutate. destruct (_ || _); [done|]. by intros [= <-]. Qed.

(** After a successful promotion the record is not Starting. *)
Lemma promoted_record now ns id w w' i :
  storeUpdate true ns id (promoteMutate now) w = (true, w') → w_store w' !! (ns, id) = Some i → i_Status i ≠ InstanceStatusStarting.
Proof.
  unfold storeUpdate, promoteMutate. destruct (w_store w !! (ns, id)) as [cur|] eqn:Hc; [|done].
  case_bool_decide as Hs; cbn [negb].
  - intros [= <-]. cbn [w_store]. rewrite lookup_insert_eq. by intros [= <-].
  - intros [= <-]. rewrite Hc. by intros [= <-].
Qed.

Lemma livenessResult_frame now running r h :
  let h' := (livenessResult now running r h).1 in
  ih_instance h' = ih_instance h ∧ ih_promoted h' = ih_promoted h ∧ ih_readyWriting h' = ih_readyWriting h.
Proof.
  unfold livenessResult, restartInstanceWithBackoff. set (b := (_ && _)). destruct b; [|done].
  destruct (_ && _); [done|]. by destruct running.
Qed.

Lemma sound_probe w rest id k p fresh now ok executed :
  sound (with_tasks w (TProbe id k p fresh :: rest)) → sound (runTask now ok executed (TProbe id k p fresh) (with_tasks w rest)).
Proof.
  intros Hw. cbn [runTask with_tasks w_hc w_store w_published w_tasks].
  assert (Hfresh : ∀ i, fresh = Some i → at_home id i).
  { intros i ->. destruct Hw as ((_ & _ & Ht) & _). by apply Forall_cons in Ht as [Ht _]. }
  assert (Hr : keeps (hc_instances (w_hc w)) (hc_instances (refresh id fresh (w_hc w)).1) ∧
               same_writing (hc_instances (w_hc w)) (hc_instances (refresh id fresh (w_hc w)).1)).
  { unfold refresh. destruct fresh as [i|]; [|split; [by apply (from_refl keep_entry)|by apply (from_refl same_flag)]].
    destruct (healthMonitoringTerminal _); cbn [fst RemoveInstance with_instances hc_instances].
    - split; [by apply (from_delete keep_entry)|by apply (from_delete same_flag)].
    - split; [apply (from_alter keep_entry)|by apply (from_alter same_flag)]; [done|]. intros h. split; [|done]. intros _. by apply Hfresh. }
  destruct (refresh id fresh (w_hc w)) as [hc go]. destruct Hr as [H1 H2].
  eapply sound_keep; [exact Hw|done|done|apply store_step_same; [apply Hw|done]|..]; cbn [w_tasks].
  - intros t [|H]%elem_of_app; [left; by apply elem_of_cons; right|]. right. destruct go; [|by apply elem_of_nil in H].
    by apply list_elem_of_singleton in H as ->.
  - intros id'. cbn [with_tasks w_tasks countb promotes]. rewrite countb_app. destruct go; cbn; lia.
  - intros id'. cbn [with_tasks w_tasks countb flips]. rewrite countb_app. destruct go; cbn; lia.
Qed.

(** Forgetting a goroutine that writes nothing. *)
Lemma sound_drop w t rest :
  (∀ id, promotes id t = false ∧ flips id t = false) → sound (with_tasks w (t :: rest)) → sound (with_tasks w rest).
Proof.
  intros Ht Hw. eapply sound_keep; [exact Hw|by apply (from_refl keep_entry)|by apply (from_refl same_flag)|apply store_step_same; [apply Hw|done]|..]; cbn [with_tasks w_tasks].
  - intros x Hx. left. by apply elem_of_cons; right.
  - intros id. cbn [countb]. destruct (Ht id) as [-> _]. lia.
  - intros id. cbn [countb]. destruct (Ht id) as [_ ->]. lia.
Qed.

Lemma sound_result w now id r k :
  sound w →
  sound (let '(hc, tasks) := updateHealthStatus now id r k (w_hc w) in mkWorld hc (w_store w) (w_tasks w ++ tasks) (w_published w)).
Proof.
  intros Hw. unfold updateHealthStatus. destruct (hc_instances (w_hc w) !! id) as [h|] eqn:Hh.
  2: { rewrite app_nil_r. by destruct w. }
  destruct k.
  - pose proof (livenessResult_frame now (hc_running (w_hc w)) r h) as Hl. destruct (livenessResult _ _ _ _) as [h' o].
    cbn [fst] in Hl. destruct Hl as (E1 & E2 & E3).
    assert (Hput : sound (mkWorld (with_instances (w_hc w) (<[id := h']> (hc_instances (w_hc w)))) (w_store w) (w_tasks w ++ []) (w_published w))).
    { eapply sound_keep; [exact Hw| | |apply store_step_same; [apply Hw|done]|..]; rewrite ?app_nil_r; [| |by left|done|done].
      - eapply (from_insert keep_entry); [done|done|]. unfold keep_entry. by rewrite E1, E2.
      - by eapply (from_insert same_flag). }
    destruct o as [[]|]; try exact Hput.
    eapply sound_keep; [exact Hw|by apply (from_delete keep_entry)|by apply (from_delete same_flag)|apply store_step_same; [apply Hw|done]|..]; cbn [w_tasks].
    + intros t [|H]%elem_of_app; [by left|]. apply list_elem_of_singleton in H as ->. by right.
    + intros id'. rewrite countb_app. cbn. lia.
    + intros id'. rewrite countb_app. cbn. lia.
  - destruct (readinessResult id r h) as [h' tasks] eqn:Hr. by eapply sound_ready.
Qed.

Lemma sound_promote w rest ns id now ok :
  sound (with_tasks w (TPromote ns id :: rest)) → sound (promoteToRunningOnReady now ok ns id (with_tasks w rest)).
Proof.
  intros Hw. destruct (Hw) as ((Hst & He & Ht) & Hp & Hf). apply Forall_cons in Ht as [Hns Ht]. cbn [task_keyed] in Hns. subst ns.
  unfold promoteToRunningOnReady. destruct (storeUpdate ok (home id) id (promoteMutate now) (with_tasks w rest)) as [b w1] eqn:Hu.
  destruct (storeUpdate_step _ _ _ _ _ _ _ (conj Hst (conj He Ht) : filed (with_tasks w rest)) Hu (promoteMutate_keeps now)) as (Hs & E1 & E2).
  cbn [with_tasks w_hc w_tasks] in E1, E2. destruct b.
  - split; [|split].
    + eapply (filed_keep (with_tasks w (TPromote (home id) id :: rest))); [apply Hw| |exact Hs|].
      * by rewrite E1.
      * rewrite E2. intros t H. left. by apply elem_of_cons; right.
    + eapply (promote_keep (with_tasks w (TPromote (home id) id :: rest))); [apply Hw|done| |exact Hs|].
      * rewrite E1. by apply (from_refl keep_entry).
      * intros id' h i Hh Hph Hi Hsi. rewrite E2. cbn [with_tasks w_tasks countb promotes]. case_bool_decide as Hid; [|lia]. subst id'.
        destruct ok; [|done]. by eapply promoted_record in Hi.
    + eapply (flip_keep (with_tasks w (TPromote (home id) id :: rest))); [done|rewrite E1; by apply (from_refl same_flag)|].
      intros id'. rewrite E2. cbn [with_tasks w_tasks countb flips]. lia.
  - eapply sound_keep; [exact Hw|..]; cbn [with_tasks w_hc w_tasks]; rewrite ?E1, ?E2.
    + by apply (from_refl keep_entry).
    + by apply (from_refl same_flag).
    + intros k i Hi. destruct (Hs k i Hi) as [? Hk]. split; [done|]. intros Hsi. by apply Hk.
    + intros t [H|H]%elem_of_app; [left; by apply elem_of_cons; right|]. apply list_elem_of_singleton in H as ->. by right.
    + intros id'. rewrite countb_app. cbn. lia.
    + intros id'. rewrite countb_app. cbn. lia.
Qed.

Lemma sound_setReady w rest ns id r now ok :
  sound (with_tasks w (TReady ns id r :: rest)) → sound (setReady now ok ns id r (with_tasks w rest)).
Proof.
  intros Hw. destruct (Hw) as ((Hst & He & Ht) & Hp & Hf). apply Forall_cons in Ht as [_ Ht].
  unfold setReady. destruct (storeUpdate ok ns id (readyMutate now r) (with_tasks w rest)) as [b w1] eqn:Hu.
  destruct (storeUpdate_step _ _ _ _ _ _ _ (conj Hst (conj He Ht) : filed (with_tasks w rest)) Hu (readyMutate_keeps now r)) as (Hs & E1 & E2).
  cbn [with_tasks w_hc w_tasks] in E1, E2. eapply sound_keep; [exact Hw|..]; cbn [with_tasks w_hc w_tasks]; rewrite ?E1, ?E2.
  - by apply (from_refl keep_entry).
  - by apply (from_refl same_flag).
  - intros k i Hi. destruct (Hs k i Hi) as [? Hk]. split; [done|]. intros Hsi. by apply Hk.
  - intros t [H|H]%elem_of_app; [left; by apply elem_of_cons; right|]. apply list_elem_of_singleton in H as ->. by right.
  - intros id'. rewrite countb_app. cbn. lia.
  - intros id'. rewrite countb_app. cbn. lia.
Qed.

Lemma sound_promoteFailed w rest id :
  sound (with_tasks w (TPromoteFailed id :: rest)) → sound (with_hc (with_tasks w rest) (promoteFailed id (w_hc w))).
Proof.
  intros Hw. destruct (Hw) as (Hfl & Hp & Hf).
  assert (Hk : keeps (hc_instances (w_hc w)) (hc_instances (promoteFailed id (w_hc w)))).
  { apply (from_alter keep_entry); [done|]. intros h. split; [done|]. intros H. by cbn in H. }
  split; [|split].
  - apply (filed_keep _ _ Hfl); [exact (keeps_home _ _ Hfl Hk)|by apply store_step_same|].
    intros t H. left. by apply elem_of_cons; right.
  - eapply promote_keep; [exact Hfl|exact Hp|exact Hk|by apply store_step_same|]. intros id' h i Hh Hph _ _.
    cbn [with_hc with_tasks w_tasks w_hc countb promotes] in *. case_bool_decide as Hid; [|lia]. subst id'.
    cbn [promoteFailed with_instances hc_instances] in Hh. rewrite lookup_alter_eq in Hh.
    destruct (hc_instances (w_hc w) !! id); [|done]. injection Hh as <-. done.
  - eapply flip_keep; [exact Hf|by apply (from_alter same_flag)|]. intros id'. cbn. lia.
Qed.

Lemma sound_readyDone w rest id :
  sound (with_tasks w (TReadyDone id :: rest)) → sound (with_hc (with_tasks w rest) (readyDone id (w_hc w))).
Proof.
  intros Hw. destruct (Hw) as (Hfl & Hp & Hf).
  assert (Hk : keeps (hc_instances (w_hc w)) (hc_instances (readyDone id (w_hc w)))).
  { by apply (from_alter keep_entry). }
  split; [|split].
  - apply (filed_keep _ _ Hfl); [exact (keeps_home _ _ Hfl Hk)|by apply store_step_same|].
    intros t H. left. by apply elem_of_cons; right.
  - eapply promote_keep; [exact Hfl|exact Hp|exact Hk|by apply store_step_same|]. intros. cbn. lia.
  - intros id'. destruct (Hf id') as [H1 H2]. cbn [with_hc with_tasks w_tasks w_hc countb flips readyDone with_instances hc_instances] in *.
    pose proof (countb_nonneg (flips id') rest). destruct (decide (id = id')) as [<-|Hne].
    + rewrite bool_decide_true in H1, H2 by done. split; [lia|]. rewrite lookup_alter_eq. intros x.
      destruct (hc_instances (w_hc w) !! id); [|done]. intros [= <-]. cbn. lia.
    + rewrite bool_decide_false in H1, H2 by done. split; [lia|]. rewrite lookup_alter_ne by done. exact H2.
Qed.

Lemma sound_run now ok executed t w rest :
  sound (with_tasks w (t :: rest)) → sound (runTask now ok executed t (with_tasks w rest)).
Proof.
  intros Hw. destruct t as [id k p fresh|id k p|ns id|id|ns id r|id|i].
  - by apply sound_probe.
  - cbn [runTask]. apply sound_drop in Hw; [|done]. destruct (checkResult _ _ _) as [r|]; [|done].
    exact (sound_result _ now id r k Hw).
  - by apply sound_promote.
  - exact (sound_promoteFailed _ _ _ Hw).
  - by apply sound_setReady.
  - exact (sound_readyDone _ _ _ Hw).
  - by apply sound_drop in Hw.
Qed.

Lemma sound_add w svc i :
  sound w → i_Namespace i = home (i_ID i) →
  (hc_instances (w_hc w) !! i_ID i = None → ∀ t, t ∈ w_tasks w → promotes (i_ID i) t = false ∧ flips (i_ID i) t = false) →
  sound (with_hc w (AddInstance svc i (w_hc w))).
Proof.
  intros Hw Hns Hfresh. unfold AddInstance. destruct (hc_instances (w_hc w) !! i_ID i) as [h|] eqn:Hh.
  - eapply sound_keep; [exact Hw| | |apply store_step_same; [apply Hw|done]|by left|done|done].
    + eapply (from_insert keep_entry); [done|done|]. by split.
    + by eapply (from_insert same_flag).
  - destruct Hw as (Hfl & Hp & Hf). specialize (Hfresh eq_refl). set (x := mkInstanceHealth i svc _ _ _ _ _ _ _ _ _ _ _ _ _).
    split; [|split].
    + apply (filed_keep _ _ Hfl); [|by apply store_step_same|by left]. apply map_Forall_insert_2; [by split|apply Hfl].
    + intros id h j Hx. cbn [with_hc with_instances w_hc hc_instances] in Hx. destruct (decide (i_ID i = id)) as [<-|Hne].
      * rewrite lookup_insert_eq in Hx. by injection Hx as <-.
      * rewrite lookup_insert_ne in Hx by done. by apply Hp.
    + intros id. destruct (Hf id) as [H1 H2]. split; [done|]. intros h Hx. cbn [with_hc with_instances w_hc hc_instances] in Hx.
      destruct (decide (i_ID i = id)) as [<-|Hne].
      * rewrite lookup_insert_eq in Hx. injection Hx as <-. cbn. apply countb_none. intros t Ht. by apply Hfresh.
      * rewrite lookup_insert_ne in Hx by done. by apply H2.
Qed.

Lemma sound_step w ev w' : sound w → hstep True w ev w' → sound w'.
Proof.
  intros Hw Hs. destruct Hs as [svc i w Hi|id w|id w|w|w|id k p read w|now ok executed before t after w Hts|k new w Hn].
  - destruct (Hi I) as [H1 H2]. by apply sound_add.
  - eapply sound_keep; [exact Hw|by apply (from_delete keep_entry)|by apply (from_delete same_flag)|apply store_step_same; [apply Hw|done]|by left|done|done].
  - eapply sound_keep; [exact Hw|by apply (from_alter keep_entry)|by apply (from_alter same_flag)|apply store_step_same; [apply Hw|done]|by left|done|done].
  - eapply sound_keep; [exact Hw|by apply (from_refl keep_entry)|by apply (from_refl same_flag)|apply store_step_same; [apply Hw|done]|by left|done|done].
  - eapply sound_keep; [exact Hw|by apply (from_refl keep_entry)|by apply (from_refl same_flag)|apply store_step_same; [apply Hw|done]|by left|done|done].
  - unfold performHealthCheck. destruct (hc_instances (w_hc w) !! id) as [h|] eqn:Hh; [|done].
    eapply sound_keep; [exact Hw|by apply (from_refl keep_entry)|by apply (from_refl same_flag)|apply store_step_same; [apply Hw|done]|..];
      cbn [with_tasks w_tasks].
    + intros t [H|H]%elem_of_app; [by left|]. apply list_elem_of_singleton in H as ->. right. cbn [task_keyed].
      destruct (read && _); [|done]. destruct (w_store w !! _) as [i|] eqn:Hi; [|done].
      destruct Hw as ((Hst & He & _) & _). apply Hst, keyed_home in Hi. destruct (He _ _ Hh) as [E _]. cbn [snd] in Hi. by rewrite E in Hi.
    + intros id'. rewrite countb_app. cbn. lia.
    + intros id'. rewrite countb_app. cbn. lia.
  - apply sound_run, sound_perm; [done|]. rewrite Hts. by rewrite Permutation_middle.
  - eapply sound_keep; [exact Hw|by apply (from_refl keep_entry)|by apply (from_refl same_flag)| |by left|done|done].
    intros k' i'. cbn [w_store w_hc]. destruct (decide (k = k')) as [<-|Hne].
    + rewrite lookup_partial_alter_eq. intros ->. by apply Hn.
    + rewrite lookup_partial_alter_ne by done. intros Hi. split; [by apply Hw|]. intros ?. right. by exists i'.
Qed.

Lemma reachable_sound hist w : reachable True hist w → sound w.
Proof.
  induction 1 as [store Hk|]; [|by eapply sound_step]. split; [|split].
  - split; [by apply Hk|]. by split.
  - done.
  - intros id. split; [done|]. done.
Qed.
End World.

(** ** Properties of the health controller

    Whatever the interleaving of its goroutines, the controller writes an
    instance record only to promote a starting instance or to flip the readiness
    of a running one, on the evidence the thresholds ask for; no promotion is
    lost; readiness follows the probe; restarts of a slot are paced. *)

(** ** The verdict follows the probe *)

(** Runs the goroutines in turn until none is left; every store call succeeds
    and every probe answers [r]. *)
Fixpoint settle (fuel : nat) (now : Time) (r : bool) (w : world) : world :=
  match fuel, w_tasks w with
  | S n, t :: rest => settle n now r (runTask now true r t (with_tasks w rest))
  | _, _ => w
  end.

(** One readiness probe, run to its end. *)
Definition round (now : Time) (r : bool) (id : string) (p : Probe) (w : world) : world :=
  settle 5 now r (performHealthCheck id Readiness p true w).

Fixpoint rounds (times : list Time) (r : bool) (id : string) (p : Probe) (w : world) : world :=
  match times with [] => w | now :: times => rounds times r id p (round now r id p w) end.

(** A running instance under watch with no goroutine in flight. *)
Definition quiet (id : string) (w : world) (h : instanceHealth) (i : Instance) : Prop :=
  w_tasks w = [] ∧ hc_running (w_hc w) = true ∧ hc_instances (w_hc w) !! id = Some h ∧ ih_readyWriting h = false ∧
  i_ID (ih_instance h) = id ∧ w_store w !! (i_Namespace (ih_instance h), id) = Some i ∧
  i_ID i = id ∧ i_Namespace i = i_Namespace (ih_instance h) ∧ i_Status i = InstanceStatusRunning.

Definition counter (b : bool) (h : instanceHealth) : Z := if b then ih_readinessSuccesses h else ih_readinessFailures h.

Lemma readyMutate_flip now r i :
  i_Status i = InstanceStatusRunning → IsReady i ≠ r →
  readyMutate now r i = Some (with_verdict i InstanceStatusRunning (i_StatusMessage i) (i_LastTransitionAt i) r now).
Proof.
  intros Hs Hr. unfold readyMutate. rewrite (bool_decide_true (_ = InstanceStatusRunning)) by done. cbn [negb orb].
  replace (_ && _) with false; [done|]. symmetry. apply andb_false_iff. unfold IsReady in Hr.
  destruct (i_ReadyChangedAt i) as [t|]; [right; by apply bool_decide_eq_false|left]. apply bool_decide_eq_false. by intros [? ?].
Qed.

Lemma settle_cons n now r hc st t rest pub :
  settle (S n) now r (mkWorld hc st (t :: rest) pub) = settle n now r (runTask now true r t (mkWorld hc st rest pub)).
Proof. done. Qed.

Lemma settle_nil n now r hc st pub : settle n now r (mkWorld hc st [] pub) = mkWorld hc st [] pub.
Proof. by destruct n. Qed.

(** The record's refresh and the verdict. *)
Lemma round_verdict now r id p m store pub h i h2 tasks :
  m !! id = Some h → i_ID (ih_instance h) = id → store !! (i_Namespace (ih_instance h), id) = Some i →
  i_Status i = InstanceStatusRunning → ih_readyWriting h = false → knownProbe (pr_Type p) = true →
  readinessResult id r (with_ready (with_subject h i (ih_service h)) (IsReady i) false) = (h2, tasks) →
  round now r id p (mkWorld (mkHealthController m true) store [] pub) =
  settle 3 now r (mkWorld (mkHealthController (<[id := h2]> m) true) store tasks pub).
Proof.
  intros Hh Hid Hst Hs Hwr Hp Hr. unfold round, performHealthCheck. cbn [w_hc hc_instances hc_running w_store w_tasks].
  rewrite Hh, Hid, Hst. cbn [andb app]. unfold with_tasks. cbn [w_hc w_store w_tasks w_published].
  rewrite settle_cons. cbn [runTask refresh w_hc]. rewrite Hs. cbn [healthMonitoringTerminal].
  unfold with_instances. cbn [hc_instances hc_running w_store w_tasks w_published app]. rewrite (alter_alt_Some _ _ _ _ Hh).
  change (ih_readyWriting (with_subject h i (ih_service h))) with (ih_readyWriting h). rewrite Hwr.
  rewrite settle_cons. cbn [runTask w_hc hc_running w_store w_tasks w_published app]. unfold checkResult. rewrite Hp. cbn [negb].
  unfold updateHealthStatus. cbn [hc_instances]. rewrite lookup_insert_eq, Hr. unfold with_instances. cbn [hc_instances hc_running].
  by rewrite insert_insert_eq.
Qed.

(** The writes a verdict starts. *)
Lemma round_writes now r id ns m store pub i h2 (flip promote : bool) :
  m !! id = Some h2 → store !! (ns, id) = Some i → i_Status i = InstanceStatusRunning → (flip = true → IsReady i ≠ r) →
  ih_readyWriting h2 = flip →
  ∃ h3 i' pub', settle 3 now r (mkWorld (mkHealthController m true) store
      ((if flip then [TReady ns id r] else []) ++ (if promote then [TPromote ns id] else [])) pub) =
    mkWorld (mkHealthController (<[id := h3]> m) true) (<[(ns, id) := i']> store) [] pub' ∧
    ih_instance h3 = ih_instance h2 ∧ ih_service h3 = ih_service h2 ∧ (∀ b, counter b h3 = counter b h2) ∧
    ih_readyWriting h3 = false ∧
    i_ID i' = i_ID i ∧ i_Namespace i' = i_Namespace i ∧ i_Status i' = InstanceStatusRunning ∧
    IsReady i' = if flip then r else IsReady i.
Proof.
  intros Hh Hst Hs Hf Hw.
  assert (Hprom : ∀ j st, st !! (ns, id) = Some j → i_Status j = InstanceStatusRunning → ∀ tasks pub' hc,
    runTask now true r (TPromote ns id) (mkWorld hc st tasks pub') = mkWorld hc st tasks pub').
  { intros j st Hj Hsj tasks pub' hc. cbn [runTask]. unfold promoteToRunningOnReady, storeUpdate. cbn [w_store]. rewrite Hj.
    unfold promoteMutate. rewrite Hsj. done. }
  destruct flip; cbn [app].
  - rewrite settle_cons. cbn [runTask]. unfold setReady, storeUpdate. cbn [w_store]. rewrite Hst.
    rewrite readyMutate_flip by auto. set (i' := with_verdict _ _ _ _ _ _). unfold with_tasks. cbn [w_hc w_store w_tasks w_published].
    exists (with_ready h2 (ih_ready h2) false), i'. destruct promote; cbn [app].
    + rewrite settle_cons. rewrite (Hprom i') by (rewrite ?lookup_insert_eq; done). rewrite settle_cons. cbn [runTask settle].
      unfold with_hc, readyDone, with_instances. cbn [w_hc w_store w_tasks w_published hc_instances hc_running].
      rewrite (alter_alt_Some _ _ _ _ Hh). eexists. split; [done|]. repeat split; by intros [].
    + rewrite settle_cons. cbn [runTask]. unfold with_hc, readyDone, with_instances. cbn [w_hc w_store w_tasks w_published hc_instances hc_running].
      rewrite (alter_alt_Some _ _ _ _ Hh). rewrite settle_nil. eexists. split; [done|]. repeat split; by intros [].
  - exists h2, i, pub. rewrite insert_id by done. rewrite insert_id by done. split; [|done].
    destruct promote; [|by rewrite settle_nil]. rewrite settle_cons, (Hprom i) by done. by rewrite settle_nil.
Qed.

Lemma round_spec now r id p w h i :
  quiet id w h i → knownProbe (pr_Type p) = true →
  ∃ h' i', quiet id (round now r id p w) h' i' ∧ i_Namespace (ih_instance h') = i_Namespace (ih_instance h) ∧
    ih_service h' = ih_service h ∧ counter r h' = counter r h + 1 ∧
    IsReady i' = if negb (Bool.eqb (IsReady i) r) && (threshold (ih_service h) r <=? counter r h + 1) then r else IsReady i.
Proof.
  intros (Ht & Hrun & Hh & Hwr & Hid & Hst & Hii & Hin & Hs) Hp. destruct w as [[m run] store tasks pub].
  cbn [w_tasks w_hc hc_running hc_instances w_store] in *. subst tasks run.
  set (h1 := with_ready (with_subject h i (ih_service h)) (IsReady i) false).
  destruct (readinessResult id r h1) as [h2 tasks] eqn:Hr. erewrite round_verdict by done.
  destruct (readinessResult_spec _ _ _ _ _ Hr) as (E1 & E2 & E3 & E4 & _ & flip & -> & E6 & E7).
  cbn [h1 with_ready with_subject ih_instance ih_service ih_readyWriting ih_ready ih_readinessFailures ih_readinessSuccesses ih_promoted] in *.
  rewrite bool_decide_true in E7 by done. cbn [negb andb] in E7. rewrite orb_false_r in E6.
  assert (Hthr : (if r then ih_readinessSuccesses h + 1 else ih_readinessFailures h + 1) = counter r h + 1) by by destruct r.
  assert (Hc : counter r h2 = counter r h + 1) by (unfold counter in *; destruct r; [rewrite E4|rewrite E3]; done).
  rewrite Hthr in E7. rewrite <-E7, Hin.
  destruct (round_writes now r id (i_Namespace (ih_instance h)) (<[id := h2]> m) store pub i h2 flip (r && negb (ih_promoted h)))
    as (h3 & i' & pub' & -> & F1 & F2 & F3 & F4 & G1 & G2 & G3 & G4); [by rewrite lookup_insert_eq|done|done| |done|].
  { intros ->. symmetry in E7. apply andb_true_iff in E7 as [E7 _]. intros Heq. rewrite Heq in E7. by destruct r. }
  exists h3, i'. rewrite insert_insert_eq. split; [|rewrite F1, E2, F2, F3, E1; done].
  repeat split; cbn [w_hc hc_instances w_store].
  - by rewrite lookup_insert_eq.
  - done.
  - rewrite F1, E2. exact Hii.
  - rewrite F1, E2, Hin. by rewrite lookup_insert_eq.
  - congruence.
  - rewrite F1, E2. congruence.
  - done.
Qed.

Lemma rounds_spec times r id p w h i :
  quiet id w h i → knownProbe (pr_Type p) = true →
  ∃ h' i', quiet id (rounds times r id p w) h' i' ∧ i_Namespace (ih_instance h') = i_Namespace (ih_instance h) ∧
    (IsReady i = r ∨ times ≠ [] ∧ threshold (ih_service h) r ≤ counter r h + Z.of_nat (length times) → IsReady i' = r).
Proof.
  intros Hq Hp. revert w h i Hq. induction times as [|now times IH]; intros w h i Hq; cbn [rounds length].
  - exists h, i. split; [done|]. split; [done|]. by intros [|[? _]].
  - destruct (round_spec now r id p w h i Hq Hp) as (h1 & i1 & Hq1 & E0 & E1 & E2 & E3).
    destruct (IH _ _ _ Hq1) as (h' & i' & Hq' & E & Hr). exists h', i'. split; [done|]. split; [by rewrite E|]. intros Hor. apply Hr.
    rewrite E1, E2, E3. destruct (Bool.eqb (IsReady i) r) eqn:Hb; cbn [negb andb].
    { left. by apply Bool.eqb_prop. }
    destruct (Z.leb_spec (threshold (ih_service h) r) (counter r h + 1)); [by left|]. right.
    destruct Hor as [Hi|[_ Hor]]; [rewrite Hi in Hb; by destruct r|]. destruct times; [cbn [length] in Hor; lia|]. cbn [length] in *. split; [done|lia].
Qed.

(** ** Restart pacing *)

Lemma restartBackoff_spec (n : nat) : restartBackoff (Z.of_nat n) = Z.min (10 * 2 ^ Z.of_nat n * Second) (300 * Second).
Proof.
  unfold restartBackoff, ToUintNonNegative, maxBackoff. destruct (Z.ltb_spec (Z.of_nat n) 0); [lia|].
  destruct (Z.ltb_spec 5 (Z.of_nat n)).
  - assert (2 ^ 5 ≤ 2 ^ Z.of_nat n) by (apply Z.pow_le_mono_r; lia). replace (10 * Second * Z.shiftl 1 5) with (320 * Second) by done.
    unfold Second. destruct (Z.ltb_spec (300 * 1000000000) (320 * 1000000000)); lia.
  - do 6 (destruct n as [|n]; [done|]). lia.
Qed.

Lemma restartBackoff_max count : restartBackoff count ≤ maxBackoff.
Proof. unfold restartBackoff. destruct (Z.ltb_spec maxBackoff (10 * Second * Z.shiftl 1 (if 5 <? ToUintNonNegative count then 5 else ToUintNonNegative count))); lia. Qed.

(** What [AddInstance] seeds an entry with, and restart attempts that were put
    off keep. *)
Definition seeded (now : Time) (i : Instance) (h : instanceHealth) : Prop :=
  ih_lastRestartTime h = (if 0 <? restart_count i then i_CreatedAt i else 0) ∧
  (ih_healthRestartCount h = restart_count i ∨
   ih_healthRestartCount h = 0 ∧ healthBackoffResetWindow < Sub now (ih_lastRestartTime h)).

Lemma AddInstance_seeded now svc i c :
  hc_instances c !! i_ID i = None → ∃ h, hc_instances (AddInstance svc i c) !! i_ID i = Some h ∧ seeded now i h.
Proof.
  intros Hn. unfold AddInstance. rewrite Hn. cbn [with_instances hc_instances]. rewrite lookup_insert_eq.
  eexists. split; [done|]. split; [done|by left].
Qed.

Lemma livenessResult_seeded now running r i h :
  seeded now i h → (livenessResult now running r h).2 ≠ Some Restarted → seeded now i (livenessResult now running r h).1.
Proof.
  intros [H1 H2]. unfold livenessResult, restartInstanceWithBackoff. set (b := (_ && _)). destruct b; [|done]. cbn.
  destruct (negb _ && _); cbn; [|destruct running; cbn; [done|]]; intros _; (split; [done|]); destruct (_ && _) eqn:E; cbn; try done;
    right; (split; [done|]); apply andb_true_iff in E as [_ E]; apply Z.ltb_lt in E; exact E.
Qed.

Lemma restarted_gap now running i h :
  seeded now i h → (restartInstanceWithBackoff now running h).2 = Restarted → 0 < restart_count i → i_CreatedAt i ≠ 0 →
  restartBackoff (restart_count i) ≤ now - i_CreatedAt i.
Proof.
  intros [Hl Hc] Hr Hrc Hca. unfold restartInstanceWithBackoff in Hr. cbn [ih_lastRestartTime with_restarts] in Hr.
  assert (E : ih_lastRestartTime h = i_CreatedAt i) by (rewrite Hl; by destruct (Z.ltb_spec 0 (restart_count i)); [|lia]).
  rewrite E in Hr, Hc. unfold IsZero in Hr. destruct (Z.eqb_spec (i_CreatedAt i) 0); [done|]. cbn [negb andb] in Hr.
  rewrite andb_true_r in Hr. pose proof (restartBackoff_max (restart_count i)) as Hmax.
  assert (Hsub : ∀ d, 0 < d → d ≤ Sub now (i_CreatedAt i) → d ≤ now - i_CreatedAt i) by (unfold Sub, int64_min; intros; lia).
  assert (Hpos : 0 < restartBackoff (restart_count i)).
  { rewrite <-(Z2Nat.id (restart_count i)) by lia. rewrite restartBackoff_spec. unfold Second. 
    assert (0 < 2 ^ Z.of_nat (Z.to_nat (restart_count i))) by (apply Z.pow_pos_nonneg; lia). lia. }
  unfold maxBackoff, healthBackoffResetWindow, Second in *. destruct Hc as [Hc|[Hc Hw]].
  - rewrite Hc in Hr. destruct (Z.ltb_spec 0 (restart_count i)); [|lia]. cbn [andb] in Hr.
    destruct (Z.ltb_spec (600 * 1000000000) (Sub now (i_CreatedAt i))).
    + enough (300 * 1000000000 ≤ now - i_CreatedAt i) by lia. apply Hsub; lia.
    + destruct (Z.ltb_spec (Sub now (i_CreatedAt i)) (restartBackoff (restart_count i))); [done|]. by apply Hsub.
  - enough (300 * 1000000000 ≤ now - i_CreatedAt i) by lia. apply Hsub; lia.
Qed.

(** The restarts of one slot, newest first, and the instance that fills it:
    each restart replaces the instance by one that carries its count plus one. *)
Inductive slot : list Time → Instance → Prop :=
| slot_first i : restart_count i = 0 → slot [] i
| slot_restart ts i h now running i' :
    slot ts i → seeded now i h → (restartInstanceWithBackoff now running h).2 = Restarted → 0 < now →
    restart_count i' = restart_count i + 1 → now ≤ i_CreatedAt i' → slot (now :: ts) i'.

Lemma slot_count ts i : slot ts i → restart_count i = Z.of_nat (length ts).
Proof. induction 1 as [|ts i h now running i' _ IH _ _ _ E _]; [done|]. rewrite E, IH. cbn [length]. lia. Qed.

(** ** Claims *)

(** C24: whatever the interleaving of probes, goroutines and other writers, a step
    of the health controller changes an instance record in two ways only: it
    promotes a Starting one to Running after a readiness probe passed, or flips
    the readiness of a Running one after as many verdicts in a row as the
    probe's threshold asks for; it touches no other field, resurrects nothing,
    and republishes what it changed. *)
Theorem health_writes_guarded (home : string → string) (tidy : Prop) (hist : list hevent) (w : world) (now : Time)
    (ok executed : bool) (before after : list task) (t : task)
    (Hw : reachable home tidy hist w) (Ht : w_tasks w = before ++ t :: after) :
  let w' := runTask now ok executed t (with_tasks w (before ++ after)) in
  ∀ k, w_store w' !! k = w_store w !! k ∨
       k ∈ w_published w' ∧
       ∃ i i', w_store w !! k = Some i ∧ w_store w' !! k = Some i' ∧ verdict hist now k.2 i i'.
Proof.
  intros w' k. apply reachable_evidence in Hw as [_ Hts]. rewrite Ht in Hts. apply Forall_app in Hts as [_ [Hok _]%Forall_cons].
  destruct t as [id c p fresh|id c p|ns id|id|ns id r|id|i]; cbn [task_ok] in Hok; subst w'; cbn [runTask]; try by left.
  - destruct (refresh _ _ _). by left.
  - destruct (checkResult _ _ _); [|by left]. destruct (updateHealthStatus _ _ _ _ _). by left.
  - pose proof (storeUpdate_store hist now ok ns id (promoteMutate now) (with_tasks w (before ++ after))) as H.
    unfold promoteToRunningOnReady. destruct (storeUpdate _ _ _ _ _) as [b w1]. destruct (H) with (k := k) as [|(_ & ? & ?)]; [|left; by destruct b|right; by destruct b].
    intros i i'. unfold promoteMutate. case_bool_decide; [|done]. intros [= <-]. by apply v_promote.
  - pose proof (storeUpdate_store hist now ok ns id (readyMutate now r) (with_tasks w (before ++ after))) as H.
    unfold setReady. destruct (storeUpdate _ _ _ _ _) as [b w1]. destruct (H) with (k := k) as [|(_ & ? & ?)]; [|by left|by right].
    intros i i'. unfold readyMutate. case_bool_decide as Hs; cbn [negb orb]; [|done]. destruct (_ && _) eqn:Hb; [done|].
    intros [= <-]. apply v_flip; [done| |done]. apply andb_false_iff in Hb as [Hb|Hb]; apply bool_decide_eq_false in Hb; [left|by right].
    by apply eq_None_not_Some.
Qed.

(** C25: no promotion is lost and flips land one at a time, while the controller's
    callers keep three rules it does not check itself ([hstep] with [tidy]): an
    instance is added under its id's own namespace, and only when no goroutine
    about an earlier monitoring of that id is still to write; records are filed
    under their own key; and another writer makes a record Starting only while
    it is not monitored, or already Starting.  Then, in every interleaving, while
    a monitored instance is marked promoted but its record is still Starting, a
    goroutine is under way that either promotes it or clears the mark so that
    the next passing probe tries again; and a readiness write is in flight
    exactly while the entry says so, never two for one instance. *)
Theorem promotion_not_lost (home : string → string) (hist : list hevent) (w : world) (id : string) (h : instanceHealth)
    (Hw : reachable home True hist w) (Hh : hc_instances (w_hc w) !! id = Some h) :
  (∀ i, ih_promoted h = true → w_store w !! (home id, id) = Some i → i_Status i = InstanceStatusStarting →
     ∃ t, t ∈ w_tasks w ∧ (t = TPromote (home id) id ∨ t = TPromoteFailed id)) ∧
  countb (flips id) (w_tasks w) = (if ih_readyWriting h then 1 else 0).
Proof.
  apply reachable_sound in Hw as ((_ & _ & Hts) & Hp & Hf). split; [|by apply Hf].
  intros i Hpr Hi Hs. destruct (proj1 (countb_pos _ _) (Hp id h i Hh Hpr Hi Hs)) as (t & Ht & Hpt). exists t. split; [done|].
  eapply Forall_forall in Hts; [|done]. destruct t; cbn in Hpt; try done; apply bool_decide_eq_true in Hpt as ->; [left|by right].
  cbn in Hts. by subst.
Qed.

(** Readiness follows the probe: when a running instance's readiness probe
    gives the same answer for as many rounds as the threshold for that answer,
    and the store accepts the writes, its record says so, and the instance stays
    Running. *)
Theorem readiness_follows_probe (times : list Time) (r : bool) (id : string) (p : Probe) (w : world) (h : instanceHealth) (i : Instance)
    (Hq : quiet id w h i) (Hp : knownProbe (pr_Type p) = true) (Hc : 0 ≤ counter r h)
    (Hn : threshold (ih_service h) r ≤ Z.of_nat (length times)) :
  ∃ i', w_store (rounds times r id p w) !! (i_Namespace i, id) = Some i' ∧ i_Status i' = InstanceStatusRunning ∧ IsReady i' = r.
Proof.
  destruct (rounds_spec times r id p w h i Hq Hp) as (h' & i' & Hq' & E & Hr). exists i'.
  assert (Hthr : 0 < threshold (ih_service h) r).
  { unfold threshold, successThreshold, failureThreshold. destruct r, (probeOf _ _) as [q|]; try lia;
      [destruct (Z.ltb_spec 0 (pr_SuccessThreshold q))|destruct (Z.ltb_spec 0 (pr_FailureThreshold q))]; lia. }
  destruct Hq as (_ & _ & _ & _ & _ & _ & _ & Hin & _), Hq' as (_ & _ & _ & _ & _ & Hst & _ & _ & Hs). rewrite E, <-Hin in Hst.
  repeat split; [done|done|]. apply Hr. right. destruct times; [cbn in Hn; lia|]. split; [done|lia].
Qed.

(** Restarts of a slot are paced: between a restart and the next there are at
    least ten seconds doubled for every restart before, up to five minutes,
    however the probes fail and whoever watches the replacements. *)
Theorem restart_pacing (t1 t2 : Time) (ts : list Time) (i : Instance) (Hs : slot (t2 :: t1 :: ts) i) :
  Z.min (10 * 2 ^ Z.of_nat (length (t1 :: ts)) * Second) (300 * Second) ≤ t2 - t1.
Proof.
  inversion Hs as [|? i1 h now running i' Hs1 Hseed Hr Hpos Hc Hca]; subst.
  pose proof (slot_count _ _ Hs1) as Hn. inversion Hs1 as [|? i0 ? ? ? ? _ _ _ Hpos1 _ Hca1]; subst.
  rewrite <-restartBackoff_spec, <-Hn. cbn [length] in Hn. pose proof (restarted_gap _ _ _ _ Hseed Hr). lia.
Qed.

(** A replacement that comes under watch before its restart counter was
    carried over starts with none, and keeps none when the counter arrives: its
    restarts are not put off at all. *)
Theorem late_restart_count_ignored (c : healthController) (svc : HealthCheck) (early late : Instance) (now : Time)
    (Hid : i_ID early = i_ID late) (Hnew : hc_instances c !! i_ID late = None) (Hcount : restart_count early = 0) :
  ∃ h, hc_instances (AddInstance svc late (AddInstance svc early c)) !! i_ID late = Some h ∧ ih_instance h = late ∧
       (restartInstanceWithBackoff now true h).2 = Restarted.
Proof.
  unfold AddInstance at 2. rewrite Hid, Hnew, Hcount. unfold AddInstance. cbn [with_instances hc_instances].
  rewrite lookup_insert_eq. cbn [hc_instances]. rewrite insert_insert_eq. eexists. split; [cbn [with_instances hc_instances]; by rewrite lookup_insert_eq|]. by split.
Qed.

(** ** Examples *)

Definition demoRecord (st : InstanceStatus) (restarts : Z) : Instance :=
  {| i_ID := "u1"; i_Namespace := "default"; i_Name := "web-0"; i_ServiceName := "web"; i_ServiceID := "s1"; i_Status := st;
     i_StatusMessage := ""; i_IP := ""; i_ContainerID := "c1"; i_PID := 0; i_CreatedAt := 5000000000000 + restarts * 50000000000; i_UpdatedAt := 0;
     i_LastTransitionAt := None; i_Ready := true; i_ReadyChangedAt := None; i_ContainerEverCreatedAt := None;
     i_NextCreateAttemptAt := None; i_FailedAt := None; i_LastLogs := ""; i_Process := None; i_Resources := None;
     i_Environment := ∅; i_Metadata := Some (mkInstanceMetadata "" 1 None "" restarts) |}.

Definition demoProbe : Probe := mkProbe "http" 2 0.
Definition demoChecks : HealthCheck := Some (Some demoProbe, Some demoProbe).
Definition demoHome (id : string) : string := "default".

Definition demo0 (st : InstanceStatus) : world :=
  mkWorld NewController {[("default", "u1") := demoRecord st 0]} [] [].
Definition demo1 (st : InstanceStatus) : world :=
  with_hc (demo0 st) (AddInstance demoChecks (demoRecord st 0) (w_hc (demo0 st))).
Definition demo2 (st : InstanceStatus) : world := with_hc (demo1 st) (Start (w_hc (demo1 st))).
Definition demo3 (st : InstanceStatus) : world := performHealthCheck "u1" Readiness demoProbe true (demo2 st).
Definition demo4 (st : InstanceStatus) : world :=
  runTask 7 true true (TProbe "u1" Readiness demoProbe (Some (demoRecord st 0))) (with_tasks (demo3 st) []).
Definition demo5 (st : InstanceStatus) : world :=
  runTask 7 true true (TProbed "u1" Readiness demoProbe) (with_tasks (demo4 st) []).

Lemma health_demo_reachable : reachable demoHome True [EReady "u1" true; EAdd "u1" demoChecks] (demo5 InstanceStatusStarting).
Proof.
  assert (R0 : reachable demoHome True [] (demo0 InstanceStatusStarting)).
  { apply reach_init. intros _. apply map_Forall_singleton. by repeat split. }
  assert (R1 : reachable demoHome True ([EAdd "u1" demoChecks] ++ []) (demo1 InstanceStatusStarting)).
  { apply (reach_step _ _ _ _ _ _ R0). apply (st_add _ _ demoChecks (demoRecord InstanceStatusStarting 0)). intros _. split; [done|].
    intros _ t Ht. by apply elem_of_nil in Ht. }
  assert (R2 : reachable demoHome True ([] ++ [EAdd "u1" demoChecks]) (demo2 InstanceStatusStarting)).
  { apply (reach_step _ _ _ _ _ _ R1). apply st_start. }
  assert (R3 : reachable demoHome True ([] ++ [EAdd "u1" demoChecks]) (demo3 InstanceStatusStarting)).
  { apply (reach_step _ _ _ _ _ _ R2). apply st_probe. }
  assert (R4 : reachable demoHome True ([] ++ [EAdd "u1" demoChecks]) (demo4 InstanceStatusStarting)).
  { apply (reach_step _ _ _ _ _ _ R3). by apply (st_run _ _ 7 true true [] (TProbe "u1" Readiness demoProbe (Some (demoRecord InstanceStatusStarting 0))) []). }
  apply (reach_step _ _ _ _ [EReady "u1" true] _ R4). by apply (st_run _ _ 7 true true [] (TProbed "u1" Readiness demoProbe) []).
Qed.

Lemma health_writes_guarded_witness :
  w_tasks (demo5 InstanceStatusStarting) = [] ++ TPromote "default" "u1" :: [] ∧
  (w_store (runTask 8 true true (TPromote "default" "u1") (with_tasks (demo5 InstanceStatusStarting) ([] ++ [])))
     !! ("default", "u1") = w_store (demo5 InstanceStatusStarting) !! ("default", "u1") ∨
   ("default", "u1") ∈ w_published (runTask 8 true true (TPromote "default" "u1") (with_tasks (demo5 InstanceStatusStarting) ([] ++ []))) ∧
   ∃ i i', w_store (demo5 InstanceStatusStarting) !! ("default", "u1") = Some i ∧
     w_store (runTask 8 true true (TPromote "default" "u1") (with_tasks (demo5 InstanceStatusStarting) ([] ++ []))) !! ("default", "u1") = Some i' ∧
     verdict [EReady "u1" true; EAdd "u1" demoChecks] 8 "u1" i i').
Proof. split; [done|]. exact (health_writes_guarded _ _ _ _ 8 true true [] [] _ health_demo_reachable eq_refl ("default", "u1")). Defined.

Lemma promotion_not_lost_witness :
  ∃ h, hc_instances (w_hc (demo5 InstanceStatusStarting)) !! "u1" = Some h ∧ ih_promoted h = true ∧
    ∃ t, t ∈ w_tasks (demo5 InstanceStatusStarting) ∧ (t = TPromote "default" "u1" ∨ t = TPromoteFailed "u1").
Proof.
  eexists. split; [vm_compute; reflexivity|]. split; [done|].
  apply (proj1 (promotion_not_lost demoHome _ (demo5 InstanceStatusStarting) "u1" _ health_demo_reachable ltac:(vm_compute; reflexivity))
           (demoRecord InstanceStatusStarting 0)); [done|vm_compute; reflexivity|done].
Defined.

Lemma readiness_follows_probe_witness :
  ∃ i', w_store (rounds [7; 8] false "u1" demoProbe (demo2 InstanceStatusRunning)) !! ("default", "u1") = Some i' ∧
        i_Status i' = InstanceStatusRunning ∧ IsReady i' = false.
Proof.
  eapply (readiness_follows_probe [7; 8] false "u1" demoProbe (demo2 InstanceStatusRunning) _ (demoRecord InstanceStatusRunning 0));
    [repeat split; vm_compute; reflexivity|done|vm_compute; done|vm_compute; done].
Defined.

Lemma restart_pacing_witness : Z.min (10 * 2 ^ 1 * Second) (300 * Second) ≤ 5100000000000 - 5000000000000.
Proof.
  apply (restart_pacing 5000000000000 5100000000000 [] (demoRecord InstanceStatusRunning 2)).
  destruct (AddInstance_seeded 5100000000000 demoChecks (demoRecord InstanceStatusRunning 1) NewController eq_refl) as (h & Hh & Hs).
  eapply (slot_restart [5000000000000] (demoRecord InstanceStatusRunning 1) _ _ true); [|exact Hs| |done|done|done].
  - destruct (AddInstance_seeded 5000000000000 demoChecks (demoRecord InstanceStatusRunning 0) NewController eq_refl) as (h0 & Hh0 & Hs0).
    eapply (slot_restart [] (demoRecord InstanceStatusRunning 0) _ _ true); [by apply slot_first|exact Hs0| |done|done|done].
    vm_compute in Hh0. by injection Hh0 as <-.
  - vm_compute in Hh. by injection Hh as <-.
Defined.

Lemma late_restart_count_ignored_witness :
  ∃ h, hc_instances (AddInstance demoChecks (demoRecord InstanceStatusRunning 4)
                       (AddInstance demoChecks (demoRecord InstanceStatusStarting 0) NewController)) !! "u1" = Some h ∧
       ih_instance h = demoRecord InstanceStatusRunning 4 ∧ (restartInstanceWithBackoff 5000000000001 true h).2 = Restarted.
Proof.
  exact (late_restart_count_ignored NewController demoChecks (demoRecord InstanceStatusStarting 0) (demoRecord InstanceStatusRunning 4)
           5000000000001 eq_refl eq_refl eq_refl).
Defined.
