(* ===== verification/Scaling.v ===== *)
(** * The scaling controller (pkg/orchestrator/scaling/scaling_controller.go,
      pkg/types/scaling.go)

    Scaling operations are records of the store; the controller processes their
    creation events in order and drives a service's scale to the target, at once
    or in steps.  Each store call consumes one entry of a list of faults;
    [meanwhile] is what other writers do between a step's read of the service and
    its compare-and-swap write.  Timers are left out: a gradual operation is a
    sequence of ticks. *)

From stdpp Require Import pretty.
From S2P Require Import Prelude Types Release ReleaseService.

Inductive ScalingMode := ScalingModeImmediate | ScalingModeGradual.

Inductive ScalingOperationStatus :=
| ScalingOperationStatusInProgress
| ScalingOperationStatusCompleted
| ScalingOperationStatusFailed
| ScalingOperationStatusCancelled.

#[global] Instance ScalingMode_eq_dec : EqDecision ScalingMode.
Proof. solve_decision. Defined.
#[global] Instance ScalingOperationStatus_eq_dec : EqDecision ScalingOperationStatus.
Proof. solve_decision. Defined.

Record ScalingOperation := mkScalingOperation {
  so_ID : string;
  so_Namespace : string;
  so_ServiceName : string;
  so_CurrentScale : Z;
  so_TargetScale : Z;
  so_StepSize : Z;
  so_Interval : Z;
  so_StartTime : Time;
  so_EndTime : Time;
  so_Status : ScalingOperationStatus;
  so_Mode : ScalingMode;
  so_FailureReason : string;
}.

Record ScalingOperationParams := mkScalingParams {
  sc_CurrentScale : Z;
  sc_TargetScale : Z;
  sc_StepSize : Z;
  sc_IntervalSeconds : Z;
  sc_IsGradual : bool;
}.

Definition with_so_CurrentScale (op : ScalingOperation) (n : Z) : ScalingOperation :=
  mkScalingOperation (so_ID op) (so_Namespace op) (so_ServiceName op) n (so_TargetScale op) (so_StepSize op) (so_Interval op)
    (so_StartTime op) (so_EndTime op) (so_Status op) (so_Mode op) (so_FailureReason op).

Definition with_so_end (op : ScalingOperation) (st : ScalingOperationStatus) (at_ : Time) (reason : string) : ScalingOperation :=
  mkScalingOperation (so_ID op) (so_Namespace op) (so_ServiceName op) (so_CurrentScale op) (so_TargetScale op) (so_StepSize op)
    (so_Interval op) (so_StartTime op) at_ st (so_Mode op) reason.

Definition in_progress (op : ScalingOperation) : bool := bool_decide (so_Status op = ScalingOperationStatusInProgress).

Section Scaling.
Context {T DS : Type}.

Definition with_ss_Scale (s : StoredService T DS) (n : Z) (m : StoredMetadata) : StoredService T DS :=
  mkStoredService (ss_ID s) (ss_Template s) n (ss_Desired s) (ss_Discovery s) (ss_IngressCert s) (ss_Instances s)
    (ss_Status s) (ss_StatusReason s) (ss_StatusMessage s) (ss_Update s) (Some m).

(** The store, the keys of running gradual operations, and the calls that fail. *)
Record scaling := mkScaling {
  sx_services : gmap (string * string) (StoredService T DS);
  sx_ops : gmap (string * string) ScalingOperation;
  sx_active : gset string;
  sx_faults : list bool;
}.

(** ** Store calls *)

Definition spend (s : scaling) : scaling := mkScaling (sx_services s) (sx_ops s) (sx_active s) (tail (sx_faults s)).
Definition faulty (s : scaling) : bool := hd false (sx_faults s).

Definition getOp (ns id : string) (s : scaling) : scaling * option ScalingOperation :=
  (spend s, if faulty s then None else sx_ops s !! (ns, id)).

Definition getService (ns name : string) (s : scaling) : scaling * option (StoredService T DS) :=
  (spend s, if faulty s then None else sx_services s !! (ns, name)).

Definition putOp (op : ScalingOperation) (s : scaling) : scaling :=
  mkScaling (sx_services s) (<[(so_Namespace op, so_ID op) := op]> (sx_ops s)) (sx_active s) (sx_faults s).

(** [store.Update] and [store.Create]: whether the call succeeded. *)
Definition updateOp (op : ScalingOperation) (s : scaling) : scaling * bool :=
  if faulty s then (spend s, false)
  else match sx_ops s !! (so_Namespace op, so_ID op) with None => (spend s, false) | Some _ => (putOp op (spend s), true) end.

Definition createOp (op : ScalingOperation) (s : scaling) : scaling * bool :=
  if faulty s then (spend s, false)
  else match sx_ops s !! (so_Namespace op, so_ID op) with Some _ => (spend s, false) | None => (putOp op (spend s), true) end.

Definition updateService (ns name : string) (mutate : StoredService T DS → StoredService T DS) (s : scaling) : scaling * bool :=
  if faulty s then (spend s, false)
  else match sx_services s !! (ns, name) with
       | None => (spend s, false)
       | Some x => (mkScaling (<[(ns, name) := mutate x]> (sx_services s)) (sx_ops s) (sx_active s) (sx_faults (spend s)), true)
       end.

(** ** Operations *)

Definition CreateScalingOperation (now : Time) (ns name : string) (p : ScalingOperationParams) (s : scaling) : scaling * bool :=
  createOp (mkScalingOperation ("scale-" +:+ name +:+ "-" +:+ pretty now) ns name (sc_CurrentScale p) (sc_TargetScale p)
              (sc_StepSize p) (sc_IntervalSeconds p) now 0 ScalingOperationStatusInProgress
              (if sc_IsGradual p then ScalingModeGradual else ScalingModeImmediate) "") s.

Definition completeOperation (now : Time) (op : ScalingOperation) (s : scaling) : scaling * bool :=
  updateOp (with_so_end op ScalingOperationStatusCompleted now (so_FailureReason op)) s.

Definition failOperation (now : Time) (op : ScalingOperation) (reason : string) (s : scaling) : scaling * bool :=
  updateOp (with_so_end op ScalingOperationStatusFailed now reason) s.

(** Sets the scale; [before] is what a scale to zero remembers. *)
Definition setScale (target next : Z) (before : Z) (x : StoredService T DS) : StoredService T DS :=
  let m := metadata x in
  if ss_Scale x =? next then with_ss_Scale x (ss_Scale x) m
  else
    let m := if 0 <? target then with_last_scale m target else if 0 <? before then with_last_scale m before else m in
    with_ss_Scale x next (with_generations m (wrap64 (sm_Generation m + 1)) (sm_TemplateGeneration m)).

Definition executeImmediateScaling (now : Time) (op : ScalingOperation) (s : scaling) : scaling * bool :=
  let '(s, ok) := completeOperation now op s in
  if negb ok then (s, false)
  else
    let '(s, ok) := updateService (so_Namespace op) (so_ServiceName op)
                      (λ x, setScale (so_TargetScale op) (so_TargetScale op) (ss_Scale x) x) s in
    if ok then (s, true)
    else ((failOperation now (with_so_end op ScalingOperationStatusCompleted now (so_FailureReason op))
             "failed to update service scale" s).1, false).

Definition nextScale (op : ScalingOperation) (scale : Z) : Z :=
  if scale <? so_TargetScale op then Z.min (wrap64 (scale + so_StepSize op)) (so_TargetScale op)
  else Z.max (wrap64 (scale - so_StepSize op)) (so_TargetScale op).

(** [false] is an error, which ends the goroutine. *)
Definition processScalingStep (now : Time) (meanwhile : scaling → scaling) (op : ScalingOperation) (s : scaling) : scaling * bool :=
  let '(s, cur) := getOp (so_Namespace op) (so_ID op) s in
  match cur with
  | None => (s, false)
  | Some cur =>
      if negb (in_progress cur) then (s, true)
      else
        let '(s, svc) := getService (so_Namespace op) (so_ServiceName op) s in
        match svc with
        | None => (s, false)
        | Some svc =>
            let scale := ss_Scale svc in
            let '(s, cur) := if so_CurrentScale cur =? scale then (s, cur)
                             else let cur := with_so_CurrentScale cur scale in ((updateOp cur s).1, cur) in
            if scale =? so_TargetScale op then completeOperation now cur s
            else
              let next := nextScale op scale in
              let s := meanwhile s in
              let '(s, ok) := if scale =? next then (s, true)
                              else updateService (so_Namespace op) (so_ServiceName op)
                                     (setScale (so_TargetScale op) next (so_CurrentScale op)) s in
              if negb ok then (s, false)
              else if next =? so_TargetScale op then completeOperation now cur s
              else (s, true)
        end
  end.

(** One turn of the goroutine: a step, then a look at the operation; whether it
    goes on. *)
Definition gradualTurn (now : Time) (meanwhile : scaling → scaling) (op : ScalingOperation) (s : scaling) : scaling * bool :=
  let '(s, ok) := processScalingStep now meanwhile op s in
  if negb ok then (s, false)
  else
    let '(s, cur) := getOp (so_Namespace op) (so_ID op) s in
    (s, match cur with Some cur => in_progress cur | None => false end).

Definition opKey (op : ScalingOperation) : string := so_Namespace op +:+ "/" +:+ so_ServiceName op.

Definition with_sx_active (s : scaling) (a : gset string) : scaling := mkScaling (sx_services s) (sx_ops s) a (sx_faults s).

(** The goroutine over the ticks it gets; its key is released when it ends. *)
Fixpoint gradualLoop (ticks : list (Time * (scaling → scaling))) (op : ScalingOperation) (s : scaling) : scaling :=
  match ticks with
  | [] => s
  | (now, meanwhile) :: ticks =>
      let '(s, go) := gradualTurn now meanwhile op s in
      if go then gradualLoop ticks op s else with_sx_active s (sx_active s ∖ {[opKey op]})
  end.

(** [false]: an operation of this service is already running. *)
Definition startGradualScaling (op : ScalingOperation) (s : scaling) : scaling * bool :=
  if bool_decide (opKey op ∈ sx_active s) then (s, false) else (with_sx_active s (sx_active s ∪ {[opKey op]}), true).

(** A creation event; [Some] is the goroutine it started. *)
Definition processScalingOperationEvent (now : Time) (op : ScalingOperation) (s : scaling) : scaling * option ScalingOperation :=
  if negb (in_progress op) then (s, None)
  else match so_Mode op with
       | ScalingModeGradual => let '(s, ok) := startGradualScaling op s in (s, if ok then Some op else None)
       | ScalingModeImmediate => ((executeImmediateScaling now op s).1, None)
       end.

Definition GetActiveOperation (name : string) (ops : list ScalingOperation) : option ScalingOperation :=
  fold_left (λ acc op,
    if bool_decide (so_ServiceName op = name) && in_progress op then
      match acc with
      | None => Some op
      | Some a => if After (so_StartTime op) (so_StartTime a) then Some op else acc
      end
    else acc) ops None.

(** Recovery of one listed operation; [Some] is a goroutine to start. *)
Definition recoverOperation (now : Time) (op : ScalingOperation) (s : scaling) : scaling * option ScalingOperation :=
  if negb (in_progress op) then (s, None)
  else
    let '(s, svc) := getService (so_Namespace op) (so_ServiceName op) s in
    match svc with
    | None => ((failOperation now op "service not found during recovery" s).1, None)
    | Some svc =>
        if 3600 * Second <? Sub now (so_StartTime op)
        then ((failOperation now op "Operation timed out during server recovery" s).1, None)
        else if ss_Scale svc =? so_TargetScale op then ((completeOperation now op s).1, None)
        else match so_Mode op with
             | ScalingModeGradual =>
                 let '(s, ok) := startGradualScaling op s in
                 if ok then (s, Some op) else ((failOperation now op "Failed to recover" s).1, None)
             | ScalingModeImmediate =>
                 let '(s, ok) := executeImmediateScaling now op s in
                 if ok then (s, None) else ((failOperation now op "Failed to recover" s).1, None)
             end
    end.

Fixpoint recoverInProgressOperations (now : Time) (listed : list ScalingOperation) (s : scaling) : scaling * list ScalingOperation :=
  match listed with
  | [] => (s, [])
  | op :: listed =>
      let '(s, started) := recoverOperation now op s in
      let '(s, more) := recoverInProgressOperations now listed s in
      (s, match started with Some op => op :: more | None => more end)
  end.

Fixpoint checkOperationsAtTargetScale (now : Time) (listed : list ScalingOperation) (s : scaling) : scaling :=
  match listed with
  | [] => s
  | op :: listed =>
      if negb (in_progress op) then checkOperationsAtTargetScale now listed s
      else
        let '(s, svc) := getService (so_Namespace op) (so_ServiceName op) s in
        let s := match svc with
          | Some svc => if ss_Scale svc =? so_TargetScale op then (completeOperation now op s).1 else s
          | None => s
          end in
        checkOperationsAtTargetScale now listed s
  end.
End Scaling.

Arguments scaling : clear implicits.
