(* ===== verification/ScalingProps.v ===== *)
(** * Properties of the scaling controller

    A gradual operation moves the scale by whole steps towards its target, never
    past it, and completes exactly on arrival; immediate operations are applied
    in the order of their creation.  Two behaviours follow from the code that its
    comments rule out: a gradual operation undoes an immediate one created after
    it, and one that is recovered forgets the scale it started from. *)

From S2P Require Import Prelude Types Release ReleaseService Scaling.

Section Gradual.
Context {T DS : Type}.
Implicit Types (s : scaling T DS) (x : StoredService T DS) (op cur : ScalingOperation).

(** An operation under way, seen by its goroutine, with a reliable store. *)
Definition going op s x cur : Prop :=
  sx_faults s = [] ∧ sx_services s !! (so_Namespace op, so_ServiceName op) = Some x ∧
  sx_ops s !! (so_Namespace op, so_ID op) = Some cur ∧ in_progress cur = true ∧
  so_Namespace cur = so_Namespace op ∧ so_ID cur = so_ID op.

(** Steps stay within 64 bits. *)
Definition steppable op x : Prop :=
  1 ≤ so_StepSize op ∧ in_int64 (ss_Scale x + so_StepSize op) ∧ in_int64 (ss_Scale x - so_StepSize op).

(** Where [n] steps lead. *)
Definition towards (from target step : Z) (n : nat) : Z :=
  if from <? target then Z.min (from + Z.of_nat n * step) target else Z.max (from - Z.of_nat n * step) target.

Lemma nextScale_towards op x :
  steppable op x → nextScale op (ss_Scale x) = towards (ss_Scale x) (so_TargetScale op) (so_StepSize op) 1.
Proof.
  intros (_ & H1 & H2). unfold nextScale, towards. rewrite Z.mul_1_l. destruct (_ <? _); by rewrite wrap64_id.
Qed.

Definition moved op x : StoredService T DS :=
  if ss_Scale x =? so_TargetScale op then x
  else setScale (so_TargetScale op) (nextScale op (ss_Scale x)) (so_CurrentScale op) x.

Definition recorded (now : Time) op x cur : ScalingOperation :=
  let cur := if so_CurrentScale cur =? ss_Scale x then cur else with_so_CurrentScale cur (ss_Scale x) in
  if ss_Scale (moved op x) =? so_TargetScale op
  then with_so_end cur ScalingOperationStatusCompleted now (so_FailureReason cur) else cur.

Lemma setScale_scale target next before x : ss_Scale (setScale target next before x) = next.
Proof. unfold setScale. destruct (Z.eqb_spec (ss_Scale x) next); [done|]. done. Qed.

Lemma moved_scale op x :
  steppable op x → ss_Scale (moved op x) = towards (ss_Scale x) (so_TargetScale op) (so_StepSize op) 1.
Proof.
  intros Hs. unfold moved. destruct (Z.eqb_spec (ss_Scale x) (so_TargetScale op)) as [E|].
  - destruct Hs as [? _]. unfold towards. destruct (Z.ltb_spec (ss_Scale x) (so_TargetScale op)); lia.
  - rewrite setScale_scale. by apply nextScale_towards.
Qed.

Lemma spend_id s : sx_faults s = [] → spend s = s.
Proof. intros E. unfold spend. rewrite E. destruct s. cbn in *. by subst. Qed.

Lemma updateOp_ok op s : sx_faults s = [] → is_Some (sx_ops s !! (so_Namespace op, so_ID op)) → updateOp op s = (putOp op s, true).
Proof. intros Hf [o Ho]. unfold updateOp, faulty. rewrite Hf. cbn [hd]. by rewrite Ho, spend_id. Qed.

Lemma putOp_twice op op' s :
  so_Namespace op' = so_Namespace op → so_ID op' = so_ID op → putOp op' (putOp op s) = putOp op' s.
Proof. intros E1 E2. unfold putOp. cbn. by rewrite E1, E2, insert_insert_eq. Qed.

(** One turn of the goroutine. *)
Lemma turn_spec now op s x cur :
  going op s x cur → steppable op x →
  ∃ s', gradualTurn now id op s = (s', negb (ss_Scale (moved op x) =? so_TargetScale op)) ∧
    sx_faults s' = [] ∧ sx_active s' = sx_active s ∧
    sx_services s' = <[(so_Namespace op, so_ServiceName op) := moved op x]> (sx_services s) ∧
    sx_ops s' = <[(so_Namespace op, so_ID op) := recorded now op x cur]> (sx_ops s).
Proof.
  intros (Hf & Hx & Hc & Hp & En & Ei) Hs. unfold gradualTurn, processScalingStep, getOp, getService, faulty.
  rewrite spend_id, Hf, Hc by done. cbn [hd]. rewrite Hp. cbn [negb]. rewrite ?spend_id, Hx by done. cbn [hd].
  set (cur1 := if so_CurrentScale cur =? ss_Scale x then cur else with_so_CurrentScale cur (ss_Scale x)).
  assert (Hn1 : so_Namespace cur1 = so_Namespace op) by (unfold cur1; by destruct (_ =? _)).
  assert (Hi1 : so_ID cur1 = so_ID op) by (unfold cur1; by destruct (_ =? _)).
  assert (Hp1 : in_progress cur1 = true) by (unfold cur1; by destruct (_ =? _)).
  assert (Hup : (if so_CurrentScale cur =? ss_Scale x then (s, cur)
                 else ((updateOp (with_so_CurrentScale cur (ss_Scale x)) s).1, with_so_CurrentScale cur (ss_Scale x))) = (putOp cur1 s, cur1)).
  { unfold cur1. destruct (_ =? _).
    - f_equal. unfold putOp. rewrite En, Ei, insert_id by done. by destruct s.
    - rewrite updateOp_ok; [done|done|]. cbn. rewrite En, Ei, Hc. done. }
  rewrite Hup. set (s1 := putOp cur1 s).
  assert (Hf1 : sx_faults s1 = []) by done.
  assert (Hc1 : sx_ops s1 !! (so_Namespace op, so_ID op) = Some cur1) by (cbn; by rewrite Hn1, Hi1, lookup_insert_eq).
  assert (Hcomplete : ∀ s2, sx_faults s2 = [] → sx_ops s2 = sx_ops s1 →
    completeOperation now cur1 s2 = (putOp (with_so_end cur1 ScalingOperationStatusCompleted now (so_FailureReason cur1)) s2, true)).
  { intros s2 Hf2 Ho2. unfold completeOperation. apply updateOp_ok; [done|]. cbn. rewrite Hn1, Hi1, Ho2, Hc1. done. }
  unfold recorded. fold cur1. unfold moved. destruct (Z.eqb_spec (ss_Scale x) (so_TargetScale op)) as [Et|Et].
  - rewrite Hcomplete by done. cbn [negb]. rewrite Et, Z.eqb_refl. unfold faulty. cbn [negb].
    rewrite spend_id by done. cbn [putOp sx_faults sx_ops hd]. rewrite ?Hf, ?Hf1. cbn [hd]. cbn [with_so_end so_Namespace so_ID].
    rewrite Hn1, Hi1, lookup_insert_eq. eexists. split; [done|]. repeat split; [done|by rewrite insert_id|]. cbn.
    by rewrite Hn1, Hi1, insert_insert_eq.
  - set (next := nextScale op (ss_Scale x)). cbn [id].
    assert (Hne : (ss_Scale x =? next) = false).
    { apply Z.eqb_neq. unfold next. rewrite nextScale_towards by done. destruct Hs as [? _]. unfold towards.
      destruct (Z.ltb_spec (ss_Scale x) (so_TargetScale op)); lia. }
    rewrite Hne. unfold updateService, faulty. change (id s1) with s1. rewrite Hf1. cbn [hd]. change (sx_services s1) with (sx_services s). rewrite Hx.
    cbn [negb]. rewrite setScale_scale. set (s2 := mkScaling _ _ _ _).
    assert (Hf2 : sx_faults s2 = []) by (cbn; by rewrite Hf).
    destruct (Z.eqb_spec next (so_TargetScale op)).
    + rewrite Hcomplete by done. cbn [negb]. rewrite spend_id by done. cbn [putOp sx_faults sx_ops]. rewrite Hf2. cbn [hd with_so_end so_Namespace so_ID].
      rewrite Hn1, Hi1, lookup_insert_eq. eexists. split; [done|]. repeat split; [exact Hf2|]. cbn. by rewrite Hn1, Hi1, insert_insert_eq.
    + cbn [negb]. rewrite spend_id, Hf2 by done. cbn [hd]. change (sx_ops s2) with (sx_ops s1). rewrite Hc1, Hp1.
      eexists. split; [done|]. repeat split; [exact Hf2|]. cbn. by rewrite Hn1, Hi1.
Qed.

(** Every field but the scale, the generation and the restart hint is the
    same. *)
Definition same_spec x x' : Prop :=
  x' = mkStoredService (ss_ID x) (ss_Template x) (ss_Scale x') (ss_Desired x) (ss_Discovery x) (ss_IngressCert x) (ss_Instances x)
         (ss_Status x) (ss_StatusReason x) (ss_StatusMessage x) (ss_Update x) (ss_Metadata x') ∧
  metadata x' = mkStoredMetadata (sm_Generation (metadata x')) (sm_TemplateGeneration (metadata x))
         (sm_ObservedGeneration (metadata x)) (sm_LastNonZeroScale (metadata x')) (sm_DeletionTimestamp (metadata x))
         (sm_Finalizers (metadata x)) (sm_OwnedBy (metadata x)).

Lemma same_spec_refl x : same_spec x x.
Proof. split; [by destruct x|by destruct (metadata x)]. Qed.

Lemma setScale_spec target next before x : same_spec x (setScale target next before x).
Proof.
  unfold setScale, same_spec. destruct (_ =? _); [|destruct (0 <? target); [|destruct (0 <? before)]];
    (split; [done|]); cbn; by destruct (metadata x).
Qed.

Lemma same_spec_trans x y z : same_spec x y → same_spec y z → same_spec x z.
Proof.
  destruct x as [? ? ? ? ? ? ? ? ? ? ? mx], y as [? ? ? ? ? ? ? ? ? ? ? my], z as [? ? ? ? ? ? ? ? ? ? ? mz].
  unfold same_spec. cbn. intros [Ey My] [Ez Mz]. split; [congruence|]. rewrite Mz. rewrite My. done.
Qed.

Lemma towards_step a target step n :
  1 ≤ step → towards (towards a target step 1) target step n = towards a target step (S n).
Proof.
  intros Hs. unfold towards. destruct (Z.ltb_spec a target).
  - destruct (Z.ltb_spec (Z.min (a + Z.of_nat 1 * step) target) target); nia.
  - destruct (Z.ltb_spec (Z.max (a - Z.of_nat 1 * step) target) target); nia.
Qed.

Lemma towards_target target step n : 1 ≤ step → towards target target step n = target.
Proof. intros Hs. unfold towards. destruct (Z.ltb_spec target target); nia. Qed.

Definition roomy op x : Prop :=
  1 ≤ so_StepSize op ∧ in_int64 (ss_Scale x + so_StepSize op) ∧ in_int64 (ss_Scale x - so_StepSize op) ∧
  in_int64 (so_TargetScale op + so_StepSize op) ∧ in_int64 (so_TargetScale op - so_StepSize op).

Lemma roomy_moved op x : roomy op x → steppable op x ∧ roomy op (moved op x).
Proof.
  intros (H1 & H2 & H3 & H4 & H5). assert (Hs : steppable op x) by done. split; [done|]. split; [done|].
  rewrite (moved_scale op x Hs). unfold towards, in_int64 in *. rewrite Z.mul_1_l.
  destruct (Z.ltb_spec (ss_Scale x) (so_TargetScale op)); lia.
Qed.

Lemma recorded_key now op x cur : so_Namespace (recorded now op x cur) = so_Namespace cur ∧ so_ID (recorded now op x cur) = so_ID cur.
Proof. unfold recorded. by destruct (_ =? _), (_ =? _). Qed.

Lemma recorded_status now op x cur :
  in_progress cur = true →
  so_Status (recorded now op x cur) = if ss_Scale (moved op x) =? so_TargetScale op then ScalingOperationStatusCompleted else ScalingOperationStatusInProgress.
Proof. intros Hp%bool_decide_eq_true. unfold recorded. destruct (ss_Scale (moved op x) =? so_TargetScale op); [done|]. by destruct (_ =? _). Qed.

Lemma moved_spec op x : same_spec x (moved op x).
Proof. unfold moved. destruct (_ =? _); [apply same_spec_refl|apply setScale_spec]. Qed.

(** A step towards zero remembers the operation's own starting scale. *)
Lemma moved_hint op x :
  steppable op x → so_TargetScale op = 0 → 0 < ss_Scale x → 0 < so_CurrentScale op →
  sm_LastNonZeroScale (metadata (moved op x)) = so_CurrentScale op.
Proof.
  intros Hs Hz Hx Hc. pose proof (nextScale_towards op x Hs) as E. destruct Hs as [? _]. unfold towards in E. unfold moved, setScale.
  rewrite Hz in *. rewrite (proj2 (Z.eqb_neq (ss_Scale x) 0)) by lia. destruct (Z.ltb_spec (ss_Scale x) 0); [lia|].
  rewrite (proj2 (Z.eqb_neq (ss_Scale x) _)) by lia. cbn. by destruct (Z.ltb_spec 0 (so_CurrentScale op)); [|lia].
Qed.

(** A turn that does not arrive leaves the operation under way. *)
Lemma turn_goes now op s x cur :
  going op s x cur → steppable op x → ss_Scale (moved op x) ≠ so_TargetScale op →
  ∃ s', gradualTurn now id op s = (s', true) ∧ going op s' (moved op x) (recorded now op x cur) ∧ sx_active s' = sx_active s.
Proof.
  intros Hg Hs Hne. destruct (turn_spec now op s x cur Hg Hs) as (s' & Et & Hf & Ha & Hv & Ho). exists s'.
  destruct Hg as (_ & _ & _ & Hp & En & Ei). destruct (recorded_key now op x cur) as [K1 K2].
  split; [by rewrite Et, (proj2 (Z.eqb_neq _ _) Hne)|]. split; [|done].
  repeat split; [done|by rewrite Hv, lookup_insert_eq|by rewrite Ho, lookup_insert_eq| |congruence|congruence].
  apply bool_decide_eq_true. rewrite recorded_status by done. by rewrite (proj2 (Z.eqb_neq _ _) Hne).
Qed.

(** The goroutine with nobody else writing. *)
Definition undisturbed (ticks : list Time) : list (Time * (scaling T DS → scaling T DS)) := (λ t, (t, id)) <$> ticks.

Lemma loop_spec now ticks op s x cur :
  going op s x cur → roomy op x →
  let s' := gradualLoop (undisturbed (now :: ticks)) op s in
  let final := towards (ss_Scale x) (so_TargetScale op) (so_StepSize op) (S (length ticks)) in
  ∃ x' cur', sx_services s' !! (so_Namespace op, so_ServiceName op) = Some x' ∧ ss_Scale x' = final ∧ same_spec x x' ∧
    sx_ops s' !! (so_Namespace op, so_ID op) = Some cur' ∧
    so_Status cur' = (if final =? so_TargetScale op then ScalingOperationStatusCompleted else ScalingOperationStatusInProgress) ∧
    (final = so_TargetScale op → opKey op ∉ sx_active s').
Proof.
  revert now s x cur. induction ticks as [|t ticks IH]; intros now s x cur Hg Hr; destruct (roomy_moved op x Hr) as [Hs Hr'];
    destruct (turn_spec now op s x cur Hg Hs) as (s1 & Et & Hf & Ha & Hv & Ho); pose proof (moved_scale op x Hs) as Hm;
    cbn [undisturbed fmap list_fmap gradualLoop]; rewrite Et; pose proof Hg as Hg0; destruct Hg as (_ & _ & _ & Hp & En & Ei); destruct (Hr) as [Hstep _].
  - cbn [length]. rewrite <-Hm. destruct (Z.eqb_spec (ss_Scale (moved op x)) (so_TargetScale op)) as [E|E]; cbn [negb];
      exists (moved op x), (recorded now op x cur); cbn [with_sx_active sx_services sx_ops sx_active];
      (split; [by rewrite Hv, lookup_insert_eq|]); (split; [done|]); (split; [apply moved_spec|]);
      (split; [by rewrite Ho, lookup_insert_eq|]); (split; [|try done; set_solver]);
      rewrite recorded_status by done; by destruct (Z.eqb_spec (ss_Scale (moved op x)) (so_TargetScale op)).
  - destruct (Z.eqb_spec (ss_Scale (moved op x)) (so_TargetScale op)) as [E|E]; cbn [negb].
    + assert (Hfin : towards (ss_Scale x) (so_TargetScale op) (so_StepSize op) (S (length (t :: ticks))) = so_TargetScale op).
      { rewrite <-towards_step, <-Hm, E by done. by apply towards_target. }
      rewrite Hfin, Z.eqb_refl. exists (moved op x), (recorded now op x cur); cbn [with_sx_active sx_services sx_ops sx_active].
      split; [by rewrite Hv, lookup_insert_eq|]. split; [done|]. split; [apply moved_spec|]. split; [by rewrite Ho, lookup_insert_eq|].
      split; [rewrite recorded_status by done; by rewrite E, Z.eqb_refl|]. set_solver.
    + destruct (turn_goes now op s x cur Hg0 Hs E) as (s2 & Et2 & Hg2 & _). rewrite Et in Et2. injection Et2 as ->.
      destruct (IH t s2 (moved op x) (recorded now op x cur) Hg2 Hr') as (x' & cur' & H1 & H2 & H3 & H4).
      rewrite Hm, towards_step in H2, H4 by done. exists x', cur'. split; [done|]. split; [done|].
      split; [by eapply same_spec_trans; [apply moved_spec|]|]. done.
Qed.

(** ** Immediate operations *)

Lemma immediate_spec now op s x :
  sx_faults s = [] → sx_services s !! (so_Namespace op, so_ServiceName op) = Some x →
  is_Some (sx_ops s !! (so_Namespace op, so_ID op)) →
  executeImmediateScaling now op s =
  (mkScaling (<[(so_Namespace op, so_ServiceName op) := setScale (so_TargetScale op) (so_TargetScale op) (ss_Scale x) x]> (sx_services s))
     (<[(so_Namespace op, so_ID op) := with_so_end op ScalingOperationStatusCompleted now (so_FailureReason op)]> (sx_ops s))
     (sx_active s) [], true).
Proof.
  intros Hf Hx Ho. unfold executeImmediateScaling, completeOperation. rewrite updateOp_ok by done. cbn [negb].
  unfold updateService, faulty. cbn [putOp sx_faults sx_services]. rewrite Hf. cbn [hd]. rewrite Hx. unfold spend. cbn. by rewrite Hf.
Qed.

(** The creation events of a list of operations, in order. *)
Definition process_events (now : Time) (ops : list ScalingOperation) s : scaling T DS :=
  fold_left (λ s op, (processScalingOperationEvent now op s).1) ops s.

(** An immediate operation on the service [ns/name], stored. *)
Definition immediate_for (ns name : string) s op : Prop :=
  in_progress op = true ∧ so_Mode op = ScalingModeImmediate ∧ so_Namespace op = ns ∧ so_ServiceName op = name ∧
  is_Some (sx_ops s !! (ns, so_ID op)).

Lemma event_spec now ns name s x op :
  sx_faults s = [] → sx_services s !! (ns, name) = Some x → immediate_for ns name s op →
  (processScalingOperationEvent now op s).1 =
  mkScaling (<[(ns, name) := setScale (so_TargetScale op) (so_TargetScale op) (ss_Scale x) x]> (sx_services s))
     (<[(ns, so_ID op) := with_so_end op ScalingOperationStatusCompleted now (so_FailureReason op)]> (sx_ops s)) (sx_active s) [].
Proof.
  intros Hf Hx (Hp & Hm & Hns & Hn & Ho). unfold processScalingOperationEvent. rewrite Hp, Hm. cbn [negb].
  rewrite (immediate_spec now op s x) by (rewrite ?Hns, ?Hn; done). by rewrite Hns, Hn.
Qed.

Lemma events_spec now ns name ops s x :
  sx_faults s = [] → sx_services s !! (ns, name) = Some x → Forall (immediate_for ns name s) ops →
  ∃ x', sx_services (process_events now ops s) !! (ns, name) = Some x' ∧
    ss_Scale x' = default (ss_Scale x) (so_TargetScale <$> last ops) ∧ same_spec x x' ∧
    (∀ id o, sx_ops s !! (ns, id) = Some o → so_Status o = ScalingOperationStatusCompleted ∨ id ∈ so_ID <$> ops →
       ∃ o', sx_ops (process_events now ops s) !! (ns, id) = Some o' ∧ so_Status o' = ScalingOperationStatusCompleted).
Proof.
  revert s x. induction ops as [|op ops IH]; intros s x Hf Hx Hall.
  - exists x. split; [done|]. split; [done|]. split; [apply same_spec_refl|]. intros id o Ho [Hc|Hin]; [by exists o|by apply elem_of_nil in Hin].
  - apply Forall_cons in Hall as [Hop Hall]. unfold process_events. cbn [fold_left]. rewrite (event_spec now ns name s x op) by done.
    set (s1 := mkScaling _ _ _ _). destruct (IH s1 (setScale (so_TargetScale op) (so_TargetScale op) (ss_Scale x) x)) as (x' & H1 & H2 & H3 & H4).
    + done.
    + cbn. by rewrite lookup_insert_eq.
    + eapply Forall_impl; [exact Hall|]. intros o (? & ? & ? & ? & Ho). repeat split; try done. cbn.
      destruct (decide ((ns, so_ID op) = (ns, so_ID o))) as [->|]; [by rewrite lookup_insert_eq|by rewrite lookup_insert_ne].
    + exists x'. split; [exact H1|]. split; [|split; [by eapply same_spec_trans; [apply setScale_spec|]|]].
      * rewrite H2, setScale_scale. destruct ops as [|o ops]; [done|]. change (last (op :: o :: ops)) with (last (o :: ops)).
        destruct (last (o :: ops)) eqn:E; [done|]. by apply last_None in E.
      * intros id o Ho Hor. destruct (decide (id = so_ID op)) as [->|Hne].
        -- eapply H4; [cbn; by rewrite lookup_insert_eq|]. by left.
        -- apply (H4 id o); [cbn; rewrite lookup_insert_ne; congruence|]. destruct Hor as [|Hin]; [by left|right]. set_solver.
Qed.
End Gradual.

(** ** Claims *)

(** C31: undisturbed, a gradual operation converges without overshooting.  Let
    an operation in progress have a step of at least one and a service whose
    scale, like the target, is at least a step away from the ends of a 64-bit
    integer ([roomy]); let every store call of its goroutine succeed ([going])
    and nobody else write the service or the operation while it runs
    ([undisturbed]).  After [n] turns the scale has moved [n] whole steps towards
    the target and stopped there, so it reaches the target after as many steps
    as the distance needs; the operation is in progress exactly until then, its
    key is released with it, and every field of the service but the scale, the
    generation and the restart hint is the one it had. *)
Theorem gradual_scaling_converges {T DS : Type} (now : Time) (ticks : list Time) (op cur : ScalingOperation)
    (s : scaling T DS) (x : StoredService T DS) (Hg : going op s x cur) (Hr : roomy op x) :
  let s' := gradualLoop (undisturbed (now :: ticks)) op s in
  let n := S (length ticks) in
  ∃ x' cur', sx_services s' !! (so_Namespace op, so_ServiceName op) = Some x' ∧ same_spec x x' ∧
    ss_Scale x' = towards (ss_Scale x) (so_TargetScale op) (so_StepSize op) n ∧
    sx_ops s' !! (so_Namespace op, so_ID op) = Some cur' ∧
    (so_Status cur' = ScalingOperationStatusCompleted ↔ Z.abs (so_TargetScale op - ss_Scale x) ≤ Z.of_nat n * so_StepSize op) ∧
    (so_Status cur' = ScalingOperationStatusCompleted → ss_Scale x' = so_TargetScale op ∧ opKey op ∉ sx_active s').
Proof.
  destruct (loop_spec now ticks op s x cur Hg Hr) as (x' & cur' & H1 & H2 & H3 & H4 & H5 & H6). cbn zeta. exists x', cur'.
  split; [done|]. split; [done|]. split; [done|]. split; [done|].
  assert (Hiff : towards (ss_Scale x) (so_TargetScale op) (so_StepSize op) (S (length ticks)) = so_TargetScale op ↔
                 Z.abs (so_TargetScale op - ss_Scale x) ≤ Z.of_nat (S (length ticks)) * so_StepSize op).
  { unfold towards. destruct (Z.ltb_spec (ss_Scale x) (so_TargetScale op)); lia. }
  rewrite H5, H2. destruct (Z.eqb_spec (towards (ss_Scale x) (so_TargetScale op) (so_StepSize op) (S (length ticks))) (so_TargetScale op)) as [E|E].
  - split; [by rewrite <-Hiff|]. intros _. split; [done|by apply H6].
  - split; [rewrite <-Hiff; by split|done].
Qed.

(** Immediate operations are serialized: however many are created for a
    service, processing their events in order leaves it at the target of the
    last one, with every one of them completed and nothing else changed. *)
Theorem last_created_wins {T DS : Type} (now : Time) (ns name : string) (ops : list ScalingOperation) (final : ScalingOperation)
    (s : scaling T DS) (x : StoredService T DS)
    (Hf : sx_faults s = []) (Hx : sx_services s !! (ns, name) = Some x) (Hall : Forall (immediate_for ns name s) (ops ++ [final])) :
  ∃ x', sx_services (process_events now (ops ++ [final]) s) !! (ns, name) = Some x' ∧
    ss_Scale x' = so_TargetScale final ∧ same_spec x x' ∧
    ∀ op, op ∈ ops ++ [final] → ∃ o, sx_ops (process_events now (ops ++ [final]) s) !! (ns, so_ID op) = Some o ∧
      so_Status o = ScalingOperationStatusCompleted.
Proof.
  destruct (events_spec now ns name _ s x Hf Hx Hall) as (x' & H1 & H2 & H3 & H4). exists x'.
  rewrite last_snoc in H2. split; [done|]. split; [done|]. split; [done|]. intros op Hop. eapply Forall_forall in Hall as (_ & _ & _ & _ & [o Ho]); [|done].
  apply (H4 _ o); [done|]. right. by apply list_elem_of_fmap_2.
Qed.

(** A gradual operation undoes an immediate one created after it: the
    immediate operation completes at its own target, and the goroutine of the
    older operation then moves the scale back to the older target. *)
Theorem gradual_overrides_immediate {T DS : Type} (now : Time) (ticks : list Time) (old cur new : ScalingOperation)
    (s : scaling T DS) (x : StoredService T DS)
    (Hg : going old s x cur) (Hnew : immediate_for (so_Namespace old) (so_ServiceName old) s new) (Hids : so_ID new ≠ so_ID old)
    (Hroom : ∀ y : StoredService T DS, ss_Scale y = so_TargetScale new → roomy old y)
    (Hn : Z.abs (so_TargetScale old - so_TargetScale new) ≤ Z.of_nat (S (length ticks)) * so_StepSize old) :
  let s1 := (processScalingOperationEvent now new s).1 in
  (∃ y, sx_services s1 !! (so_Namespace old, so_ServiceName old) = Some y ∧ ss_Scale y = so_TargetScale new) ∧
  ∃ x', sx_services (gradualLoop (undisturbed (now :: ticks)) old s1) !! (so_Namespace old, so_ServiceName old) = Some x' ∧
    ss_Scale x' = so_TargetScale old.
Proof.
  destruct Hg as (Hf & Hx & Hc & Hp & En & Ei). rewrite (event_spec now _ _ s x new Hf Hx Hnew). cbn zeta.
  set (y := setScale _ _ _ _). set (s1 := mkScaling _ _ _ _). assert (Ey : ss_Scale y = so_TargetScale new) by apply setScale_scale.
  split; [exists y; split; [cbn; by rewrite lookup_insert_eq|done]|].
  assert (Hg1 : going old s1 y cur).
  { repeat split; try done; cbn; [by rewrite lookup_insert_eq|]. rewrite lookup_insert_ne by congruence. done. }
  destruct (loop_spec now ticks old s1 y cur Hg1 (Hroom y Ey)) as (x' & cur' & H1 & H2 & _). exists x'. split; [done|].
  rewrite H2, Ey. unfold towards. destruct (Z.ltb_spec (so_TargetScale new) (so_TargetScale old)); lia.
Qed.

(** A gradual scale to zero that is interrupted and recovered forgets the
    scale it started from: every step writes the scale it found into the
    operation's record, and the recovered operation takes that for the scale the
    user had, so the restart hint becomes an intermediate step. *)
Theorem recovered_gradual_forgets {T DS : Type} (t1 t2 t3 t4 : Time) (op cur : ScalingOperation) (s : scaling T DS) (x : StoredService T DS)
    (Hg : going op s x cur) (Hroom : roomy op x) (Hzero : so_TargetScale op = 0) (Hmode : so_Mode cur = ScalingModeGradual)
    (Hcur : so_CurrentScale op = ss_Scale x ∧ so_CurrentScale cur = ss_Scale x ∧ so_TargetScale cur = 0 ∧
            so_StepSize cur = so_StepSize op ∧ so_ServiceName cur = so_ServiceName op)
    (Hlong : 2 * so_StepSize op < ss_Scale x) (Hfresh : Sub t3 (so_StartTime cur) ≤ 3600 * Second) :
  let s2 := with_sx_active (gradualLoop (undisturbed [t1; t2]) op s) ∅ in
  ∃ found, sx_ops s2 !! (so_Namespace op, so_ID op) = Some found ∧
    (∃ y, sx_services s2 !! (so_Namespace op, so_ServiceName op) = Some y ∧ sm_LastNonZeroScale (metadata y) = ss_Scale x) ∧
    ∃ s3, recoverOperation t3 found s2 = (s3, Some found) ∧
      ∃ z, sx_services (gradualLoop (undisturbed [t4]) found s3) !! (so_Namespace op, so_ServiceName op) = Some z ∧
        sm_LastNonZeroScale (metadata z) = ss_Scale x - so_StepSize op.
Proof.
  destruct Hcur as (C1 & C2 & C3 & C4 & C5). destruct (roomy_moved op x Hroom) as [Hs Hroom1]. destruct (roomy_moved op _ Hroom1) as [Hs1 Hroom2].
  assert (Hstep := proj1 Hroom). pose proof (moved_scale op x Hs) as E1. pose proof (moved_scale op _ Hs1) as E2.
  rewrite Hzero in E1, E2. unfold towards in E1, E2. destruct (Z.ltb_spec (ss_Scale x) 0); [lia|].
  destruct (Z.ltb_spec (ss_Scale (moved op x)) 0); [lia|].
  destruct (turn_goes t1 op s x cur Hg Hs) as (s1 & T1 & Hg1 & _); [lia|].
  destruct (turn_goes t2 op s1 _ _ Hg1 Hs1) as (s2 & T2 & Hg2 & _); [lia|].
  cbn [undisturbed fmap list_fmap gradualLoop]. rewrite T1, T2.
  set (x1 := moved op x) in *. set (x2 := moved op x1) in *.
  assert (R1 : recorded t1 op x cur = cur).
  { unfold recorded. fold x1. rewrite C2, Z.eqb_refl, Hzero. by rewrite (proj2 (Z.eqb_neq _ _)) by lia. }
  rewrite R1 in Hg2. assert (R2 : recorded t2 op x1 cur = with_so_CurrentScale cur (ss_Scale x1)).
  { unfold recorded. fold x2. rewrite C2, Hzero. by rewrite !(proj2 (Z.eqb_neq _ _)) by lia. }
  rewrite R2 in Hg2. destruct Hg2 as (Hf & Hx & Hc & Hp & En & Ei). set (found := with_so_CurrentScale cur (ss_Scale x1)) in *.
  cbn [with_sx_active sx_ops sx_services]. exists found. split; [done|]. split.
  { exists x2. split; [done|]. rewrite <-C1. apply moved_hint; [done|done|lia|lia]. }
  assert (F : so_ServiceName found = so_ServiceName op ∧ so_TargetScale found = 0 ∧ so_StepSize found = so_StepSize op ∧
              so_Mode found = ScalingModeGradual ∧ so_StartTime found = so_StartTime cur ∧ so_CurrentScale found = ss_Scale x1) by done.
  clearbody found. destruct F as (F1 & F2 & F3 & F4 & F5 & F6).
  unfold recoverOperation. rewrite Hp, F1, F2, F4, F5, En. cbn [negb]. unfold getService, faulty. cbn [with_sx_active sx_faults sx_services].
  rewrite Hf, Hx. cbn [hd]. destruct (Z.ltb_spec (3600 * Second) (Sub t3 (so_StartTime cur))); [lia|].
  rewrite (proj2 (Z.eqb_neq (ss_Scale x2) 0)) by lia. unfold startGradualScaling. rewrite bool_decide_false by (cbn; set_solver).
  eexists. split; [done|]. set (s3 := with_sx_active _ (_ ∪ _)).
  assert (Hs3 : steppable found x2) by (destruct Hroom2 as (? & ? & ? & _); unfold steppable; by rewrite F3).
  assert (Hg3 : going found s3 x2 found) by (unfold going; cbn; by rewrite En, F1, Ei, Hf).
  destruct (turn_spec t4 found s3 x2 found Hg3 Hs3) as (s4 & T4 & _ & _ & Hv & _). rewrite T4.
  assert (Hz : sx_services s4 !! (so_Namespace op, so_ServiceName op) = Some (moved found x2)).
  { rewrite Hv. by rewrite En, F1, lookup_insert_eq. }
  exists (moved found x2). split; [by destruct (negb _)|]. rewrite moved_hint by (done || lia). lia.
Qed.

(** ** Examples *)

Definition demoOp (id : string) (from target : Z) (mode : ScalingMode) : ScalingOperation :=
  mkScalingOperation id "default" "web" from target 2 30 1000 0 ScalingOperationStatusInProgress mode "".

Definition demoSvc (n : Z) : StoredService unit unit :=
  mkStoredService "s1" tt n tt None (Some "edge") ["i1"; "i2"] ServiceStatusRunning "" "" None
    (Some (mkStoredMetadata 3 2 2 0 None [FinalizerTypeInstanceCleanup] None)).

Definition demoScaling (n : Z) (ops : list ScalingOperation) : scaling unit unit :=
  mkScaling {[("default", "web") := demoSvc n]} (list_to_map ((λ op, (("default", so_ID op), op)) <$> ops)) {["default/web"]} [].

Lemma gradual_scaling_converges_witness :
  ∃ x' cur', sx_services (gradualLoop (undisturbed [1; 2; 3]) (demoOp "a" 5 0 ScalingModeGradual)
      (demoScaling 5 [demoOp "a" 5 0 ScalingModeGradual])) !! ("default", "web") = Some x' ∧ same_spec (demoSvc 5) x' ∧
    ss_Scale x' = 0 ∧
    sx_ops (gradualLoop (undisturbed [1; 2; 3]) (demoOp "a" 5 0 ScalingModeGradual)
      (demoScaling 5 [demoOp "a" 5 0 ScalingModeGradual])) !! ("default", "a") = Some cur' ∧
    (so_Status cur' = ScalingOperationStatusCompleted ↔ 5 ≤ 6) ∧
    (so_Status cur' = ScalingOperationStatusCompleted → ss_Scale x' = 0 ∧
       "default/web" ∉ sx_active (gradualLoop (undisturbed [1; 2; 3]) (demoOp "a" 5 0 ScalingModeGradual)
                         (demoScaling 5 [demoOp "a" 5 0 ScalingModeGradual]))).
Proof.
  exact (gradual_scaling_converges 1 [2; 3] (demoOp "a" 5 0 ScalingModeGradual) (demoOp "a" 5 0 ScalingModeGradual)
           (demoScaling 5 [demoOp "a" 5 0 ScalingModeGradual]) (demoSvc 5)
           ltac:(repeat split; vm_compute; reflexivity) ltac:(repeat split; vm_compute; discriminate)).
Defined.

Lemma last_created_wins_witness :
  ∃ x', sx_services (process_events 9 ([demoOp "a" 1 0 ScalingModeImmediate] ++ [demoOp "b" 0 1 ScalingModeImmediate])
      (demoScaling 1 [demoOp "a" 1 0 ScalingModeImmediate; demoOp "b" 0 1 ScalingModeImmediate])) !! ("default", "web") = Some x' ∧
    ss_Scale x' = 1 ∧ same_spec (demoSvc 1) x' ∧
    ∀ op, op ∈ [demoOp "a" 1 0 ScalingModeImmediate] ++ [demoOp "b" 0 1 ScalingModeImmediate] →
      ∃ o, sx_ops (process_events 9 ([demoOp "a" 1 0 ScalingModeImmediate] ++ [demoOp "b" 0 1 ScalingModeImmediate])
        (demoScaling 1 [demoOp "a" 1 0 ScalingModeImmediate; demoOp "b" 0 1 ScalingModeImmediate])) !! ("default", so_ID op) = Some o ∧
        so_Status o = ScalingOperationStatusCompleted.
Proof.
  apply (last_created_wins 9 "default" "web" [demoOp "a" 1 0 ScalingModeImmediate] (demoOp "b" 0 1 ScalingModeImmediate)
           (demoScaling 1 [demoOp "a" 1 0 ScalingModeImmediate; demoOp "b" 0 1 ScalingModeImmediate]) (demoSvc 1));
    [reflexivity|vm_compute; reflexivity|].
  repeat constructor; vm_compute; eauto.
Defined.

Lemma gradual_overrides_immediate_witness :
  ∃ x', sx_services (gradualLoop (undisturbed [9; 10]) (demoOp "a" 1 4 ScalingModeGradual)
      (processScalingOperationEvent 9 (demoOp "b" 1 0 ScalingModeImmediate)
         (demoScaling 1 [demoOp "a" 1 4 ScalingModeGradual; demoOp "b" 1 0 ScalingModeImmediate])).1) !! ("default", "web") = Some x' ∧
    ss_Scale x' = 4.
Proof.
  apply (gradual_overrides_immediate 9 [10] (demoOp "a" 1 4 ScalingModeGradual) (demoOp "a" 1 4 ScalingModeGradual)
           (demoOp "b" 1 0 ScalingModeImmediate)
           (demoScaling 1 [demoOp "a" 1 4 ScalingModeGradual; demoOp "b" 1 0 ScalingModeImmediate]) (demoSvc 1)).
  - repeat split; vm_compute; reflexivity.
  - repeat split; vm_compute; eauto.
  - done.
  - intros y Hy. unfold roomy. rewrite Hy. repeat split; vm_compute; discriminate.
  - vm_compute. discriminate.
Defined.

Lemma recovered_gradual_forgets_witness :
  ∃ found, sx_ops (with_sx_active (gradualLoop (undisturbed [1; 2]) (demoOp "a" 5 0 ScalingModeGradual)
      (demoScaling 5 [demoOp "a" 5 0 ScalingModeGradual])) ∅) !! ("default", "a") = Some found ∧
    (∃ y, sx_services (with_sx_active (gradualLoop (undisturbed [1; 2]) (demoOp "a" 5 0 ScalingModeGradual)
      (demoScaling 5 [demoOp "a" 5 0 ScalingModeGradual])) ∅) !! ("default", "web") = Some y ∧ sm_LastNonZeroScale (metadata y) = 5) ∧
    ∃ s3, recoverOperation 3 found (with_sx_active (gradualLoop (undisturbed [1; 2]) (demoOp "a" 5 0 ScalingModeGradual)
      (demoScaling 5 [demoOp "a" 5 0 ScalingModeGradual])) ∅) = (s3, Some found) ∧
      ∃ z, sx_services (gradualLoop (undisturbed [4]) found s3) !! ("default", "web") = Some z ∧ sm_LastNonZeroScale (metadata z) = 3.
Proof.
  exact (recovered_gradual_forgets 1 2 3 4 (demoOp "a" 5 0 ScalingModeGradual) (demoOp "a" 5 0 ScalingModeGradual)
           (demoScaling 5 [demoOp "a" 5 0 ScalingModeGradual]) (demoSvc 5)
           ltac:(repeat split; vm_compute; reflexivity) ltac:(repeat split; vm_compute; discriminate) eq_refl eq_refl
           ltac:(repeat split) ltac:(vm_compute; reflexivity) ltac:(vm_compute; discriminate)).
Defined.
