(* ===== verification/Ingress.v ===== *)
(** * Ingress (pkg/networking/ingress/{router,client_ca,server}.go,
      internal/agent/ingressctl/controller.go, pkg/types/expose_validation.go)

    The route table, the per-host client-CA pools, the request gate of the two
    listeners, and the controller that rebuilds both tables from the services.
    Go's net and x509 packages (networks, certificate pools) are parameters; so is
    the order [sort.Slice] leaves routes of equal path length in.  Server
    certificates, ACME and the proxied exchange itself are not modelled. *)

From stdpp Require Import pretty.
From Stdlib Require Import Ascii.
From S2P Require Import Prelude Text Types Authz.

Definition normalizeHost (h : string) : string :=
  let h := match Cut ":" h with Some (a, _) => a | None => h end in
  ToLower (TrimPrefix h ".").

(** [net.JoinHostPort]. *)
Definition JoinHostPort (host : string) (port : Z) : string :=
  match Cut ":" host with
  | Some _ => "[" +:+ host +:+ "]:" +:+ pretty port
  | None => host +:+ ":" +:+ pretty port
  end.

(** ** Exposed services (pkg/types/service.go) *)

Record ExposeClientCert := mkExposeClientCert { cc_CASecret : string; cc_Mode : string }.

Record ExposeServiceTLS := mkExposeServiceTLS { tl_Secret : string; tl_Auto : bool; tl_Mode : string }.

Definition IsACME (t : option ExposeServiceTLS) : bool :=
  match t with
  | None => false
  | Some t =>
      bool_decide (tl_Mode t = "acme") || bool_decide (tl_Mode t = "auto") || (tl_Auto t && bool_decide (tl_Mode t = ""))
  end.

Record ServiceExpose := mkServiceExpose {
  ex_Port : string;
  ex_Host : string;
  ex_Path : string;
  ex_TLS : option ExposeServiceTLS;
  ex_AllowCIDRs : list string;
  ex_ClientCert : option ExposeClientCert;
}.

Record IngressService := mkIngressService {
  is_ID : string;
  is_Namespace : string;
  is_Name : string;
  is_Ports : list ServicePort;
  is_VIP : string;
  is_Expose : option ServiceExpose;
}.

Definition primaryServicePort (s : IngressService) : Z :=
  match is_Ports s with
  | [] => 0
  | p :: _ => if sp_TargetPort p =? 0 then sp_Port p else sp_TargetPort p
  end.

Section Ingress.
Context {Net IP Pool : Type}.
(** [net.ParseCIDR], [IPNet.Contains] and [CertPool.AppendCertsFromPEM]. *)
Context (ParseCIDR : string → option Net) (Contains : Net → IP → bool) (PoolFromPEM : string → option Pool).
Context (url_Parse : string → option (string * string)) (PathUnescape : string → string).

(** [ValidateExpose]. *)
Definition ValidateExpose (e : option ServiceExpose) : bool :=
  match e with
  | None => true
  | Some e =>
      (bool_decide (ex_Path e = "") || String.prefix "/" (ex_Path e)) &&
      (negb (IsACME (ex_TLS e)) || negb (bool_decide (ex_Host e = ""))) &&
      match ex_TLS e with
      | Some t =>
          negb (bool_decide (tl_Mode t = "manual")) ||
          (negb (bool_decide (tl_Secret t = "")) && negb (bool_decide (ex_Host e = "")))
      | None => true
      end &&
      forallb (λ c, match ParseCIDR c with Some _ => true | None => false end) (ex_AllowCIDRs e) &&
      match ex_ClientCert e with
      | None => true
      | Some cc =>
          negb (bool_decide (cc_CASecret cc = "")) &&
          (bool_decide (cc_Mode cc = "") || bool_decide (cc_Mode cc = "require")) &&
          negb (bool_decide (ex_Host e = ""))
      end
  end.

(** ** Routes (router.go) *)

Record Route := mkRoute {
  rt_Host : string;
  rt_Namespace : string;
  rt_Service : string;
  rt_Port : Z;
  rt_Path : string;
  rt_AllowCIDRs : list Net;
  rt_RequireClientCert : bool;
}.

(** Routes by host. *)
#[local] Abbreviation Router := (gmap string (list Route)).

Definition longer_path (a b : Route) : bool := bool_decide (String.length (rt_Path b) < String.length (rt_Path a))%nat.

Definition with_rt_Host (r : Route) (h : string) : Route :=
  mkRoute h (rt_Namespace r) (rt_Service r) (rt_Port r) (rt_Path r) (rt_AllowCIDRs r) (rt_RequireClientCert r).

Definition accepted (r : Route) : bool :=
  negb (bool_decide (normalizeHost (rt_Host r) = "")) && negb (bool_decide (rt_Service r = "")) && negb (rt_Port r =? 0).

Definition collectRoute (m : Router) (r : Route) : Router :=
  if accepted r then
    let h := normalizeHost (rt_Host r) in <[h := default [] (m !! h) ++ [with_rt_Host r h]]> m
  else m.

(** [sorted] is what [sort.Slice] makes of a host's routes. *)
Definition routerApply (sorted : list Route → list Route) (routes : list Route) : Router :=
  sorted <$> fold_left collectRoute routes ∅.

Definition path_matches (path : string) (r : Route) : bool :=
  bool_decide (rt_Path r = "") || String.prefix (rt_Path r) path.

Definition routerMatch (m : Router) (host path : string) : option Route :=
  List.find (path_matches path) (default [] (m !! normalizeHost host)).

(** [None] is an address that could not be parsed. *)
Definition PeerAllowed (r : Route) (peer : option IP) : bool :=
  match rt_AllowCIDRs r with
  | [] => true
  | nets => match peer with None => false | Some ip => existsb (λ n, Contains n ip) nets end
  end.

(** ** Client CAs (client_ca.go) *)

#[local] Abbreviation ClientCARegistry := (gmap string Pool).

Definition SetCA (host : string) (pool : Pool) (r : ClientCARegistry) : ClientCARegistry :=
  let h := normalizeHost host in if bool_decide (h = "") then r else <[h := pool]> r.

Definition ForgetCA (host : string) (r : ClientCARegistry) : ClientCARegistry := delete (normalizeHost host) r.

Definition HasPool (host : string) (r : ClientCARegistry) : bool := bool_decide (is_Some (r !! normalizeHost host)).

(** The pool a handshake for [sni] verifies the client against; [None] asks for
    no client certificate. *)
Definition ConfigFor (sni : string) (r : ClientCARegistry) : option Pool := r !! normalizeHost sni.

(** ** Requests (server.go) *)

Record Request := mkRequest {
  rq_SNI : option string;   (* [None] on the plain listener *)
  rq_Host : string;
  rq_Path : string;
  rq_Peer : option IP;
}.

Inductive response :=
| NotFound
| Forbidden
| ServiceUnavailable
| ChallengeReply (keyAuth : string)
| Proxied (r : Route) (target : string).

(** [None] lets the request through. *)
Definition mtlsGate (r : Route) (https hasPool : bool) : option response :=
  if negb (rt_RequireClientCert r) then None
  else if negb https then Some Forbidden
  else if negb hasPool then Some ServiceUnavailable
  else None.

Definition is_https (q : Request) : bool := match rq_SNI q with Some _ => true | None => false end.

Definition proxy (m : Router) (cas : ClientCARegistry) (Resolve : string → string → Z → option string) (q : Request) : response :=
  match routerMatch m (rq_Host q) (rq_Path q) with
  | None => NotFound
  | Some r =>
      if negb (PeerAllowed r (rq_Peer q)) then Forbidden
      else match mtlsGate r (is_https q) (HasPool (rt_Host r) cas) with
           | Some e => e
           | None =>
               match Resolve (rt_Namespace r) (rt_Service r) (rt_Port r) with
               | None => ServiceUnavailable
               | Some target => if bool_decide (target = "") then ServiceUnavailable else Proxied r target
               end
           end
  end.

Definition challengePrefix : string := "/.well-known/acme-challenge/".

Definition serve (m : Router) (cas : ClientCARegistry) (challenges : gmap string string)
    (Resolve : string → string → Z → option string) (q : Request) : response :=
  if negb (is_https q) && String.prefix challengePrefix (rq_Path q)
  then match challenges !! TrimPrefix (rq_Path q) challengePrefix with Some v => ChallengeReply v | None => NotFound end
  else proxy m cas Resolve q.

(** ** The controller (ingressctl/controller.go) *)

Definition parseAllowCIDRs (cidrs : list string) : list Net := omap ParseCIDR cidrs.

Record controller := mkController {
  ic_router : Router;
  ic_cas : ClientCARegistry;
  ic_snapshot : gmap string IngressService;
  ic_pushed : gmap string Z;        (* clientCAPushed: host to secret version *)
  ic_caHosts : gset string;
}.

(** A secret's data and version. *)
Definition secrets := string → string → option (gmap string string * Z).

Definition needsClientCert (e : ServiceExpose) : option string :=
  match ex_ClientCert e with
  | Some cc => if bool_decide (cc_CASecret cc = "") then None else Some (cc_CASecret cc)
  | None => None
  end.

Definition applyClientCert (secret : secrets) (s : IngressService) (host caSecret : string)
    (st : ClientCARegistry * gmap string Z) : ClientCARegistry * gmap string Z :=
  let '(cas, pushed) := st in
  match ParseResourceRefWithDefaults url_Parse PathUnescape caSecret ResourceTypeSecret (is_Namespace s) with
  | None => st
  | Some ref =>
      if negb (bool_decide (rr_Type ref = ResourceTypeSecret)) then st
      else match secret (rr_Namespace ref) (rr_Name ref) with
           | None => st
           | Some (data, version) =>
               let pem := default "" (data !! "ca.crt") in
               if bool_decide (pem = "") then st
               else if bool_decide (pushed !! host = Some version) then st
               else match PoolFromPEM pem with
                    | None => st
                    | Some pool => (SetCA host pool cas, <[host := version]> pushed)
                    end
           end
  end.

(** One service of the reconcile loop. *)
Definition routeOf (s : IngressService) : option Route :=
  match is_Expose s with
  | None => None
  | Some e =>
      if bool_decide (ex_Host e = "") || (primaryServicePort s =? 0) then None
      else Some (mkRoute (ex_Host e) (is_Namespace s) (is_Name s) (primaryServicePort s) (ex_Path e)
                   (parseAllowCIDRs (ex_AllowCIDRs e))
                   (match needsClientCert e with Some _ => true | None => false end))
  end.

Definition reconcileCA (secret : secrets) (st : ClientCARegistry * gmap string Z * gset string) (s : IngressService)
    : ClientCARegistry * gmap string Z * gset string :=
  match routeOf s, is_Expose s with
  | Some r, Some e =>
      match needsClientCert e with
      | Some ca => (applyClientCert secret s (ex_Host e) ca st.1, st.2 ∪ {[ex_Host e]})
      | None => st
      end
  | _, _ => st
  end.

Definition pruneClientCAs (previous current : gset string) (st : ClientCARegistry * gmap string Z) : ClientCARegistry * gmap string Z :=
  set_fold (λ h st, (ForgetCA h st.1, delete h st.2)) st (previous ∖ current).

(** [None]: the services could not be listed. *)
Definition reconcile (sorted : list Route → list Route) (secret : secrets) (listed : option (list IngressService)) (c : controller)
    : controller :=
  match listed with
  | None => c
  | Some svcs =>
      let '(cas, pushed, hosts) := fold_left (reconcileCA secret) svcs (ic_cas c, ic_pushed c, ∅) in
      let '(cas, pushed) := pruneClientCAs (ic_caHosts c) hosts (cas, pushed) in
      mkController (routerApply sorted (omap routeOf svcs)) cas
        (list_to_map (rev ((λ s, (is_Namespace s +:+ "/" +:+ is_Name s, s)) <$> svcs))) pushed hosts
  end.

(** [Resolve]; [healthy] is the data plane's cache, [fallback] a read of the store. *)
Definition resolve (reserved : list Z) (healthy : string → option (list (string * Z)))
    (fallback : string → string → option IngressService) (c : controller) (ns service : string) (port : Z) : option string :=
  if bool_decide (service = "") || (port =? 0) then None
  else match (match ic_snapshot c !! (ns +:+ "/" +:+ service) with Some s => Some s | None => fallback ns service end) with
       | None => None
       | Some s =>
           if negb (bool_decide (is_VIP s = "")) && negb (existsb (Z.eqb port) reserved) then Some (JoinHostPort (is_VIP s) port)
           else if bool_decide (is_ID s = "") then None
           else match healthy (is_ID s) with
                | Some ((ip, p) :: _) =>
                    let dial := if p =? 0 then port else p in
                    if bool_decide (ip = "") || (dial =? 0) then None else Some (JoinHostPort ip dial)
                | _ => None
                end
       end.
End Ingress.

Arguments Route : clear implicits.
Arguments response : clear implicits.
Arguments Request : clear implicits.
Arguments controller : clear implicits.
