(* ===== verification/IngressProps.v ===== *)
(** * Properties of ingress

    The route table answers with the longest matching path of the host.  A
    request that is proxied came from an allowed peer, for a route some listed
    service declares; when the route asks for client certificates and the
    handshake named its host, the client's certificate was verified.  A handshake
    that names another host gets past that check. *)

From Stdlib Require Import Ascii.
From S2P Require Import Prelude Text Types Authz Ipv4 Ingress.

Section Routes.
Context {Net : Type}.
Implicit Types (r : Route Net) (routes l : list (Route Net)).

(** What [sort.Slice] promises. *)
Definition sorts (sorted : list (Route Net) → list (Route Net)) : Prop :=
  ∀ l, sorted l ≡ₚ l ∧
    StronglySorted (λ a b, (String.length (rt_Path b) ≤ String.length (rt_Path a))%nat) (sorted l).

(** The route [r] of the table answers for a host and path. *)
Definition answers routes (host path : string) r : Prop :=
  ∃ r0, r0 ∈ routes ∧ accepted r0 = true ∧ normalizeHost (rt_Host r0) = normalizeHost host ∧
    path_matches path r0 = true ∧ r = with_rt_Host r0 (normalizeHost host).

Lemma collect_spec routes m h :
  default [] (fold_left collectRoute routes m !! h) =
  default [] (m !! h) ++ ((λ r, with_rt_Host r h) <$> List.filter (λ r, accepted r && bool_decide (normalizeHost (rt_Host r) = h)) routes).
Proof.
  revert m. induction routes as [|r routes IH]; intros m; cbn [fold_left List.filter fmap list_fmap]; [by rewrite app_nil_r|].
  rewrite IH. unfold collectRoute. destruct (accepted r); cbn [andb]; [|done].
  destruct (bool_decide_reflect (normalizeHost (rt_Host r) = h)) as [<-|Hne].
  - cbn zeta. rewrite lookup_insert_eq. cbn. by rewrite <-app_assoc.
  - cbn zeta. by rewrite lookup_insert_ne.
Qed.

Lemma find_first l (P : Route Net → bool) :
  StronglySorted (λ a b, (String.length (rt_Path b) ≤ String.length (rt_Path a))%nat) l →
  match List.find P l with
  | Some r => r ∈ l ∧ P r = true ∧ ∀ r', r' ∈ l → P r' = true → (String.length (rt_Path r') ≤ String.length (rt_Path r))%nat
  | None => ∀ r', r' ∈ l → P r' = false
  end.
Proof.
  induction 1 as [|r l Hs IH Hall]; cbn [List.find]; [by intros r' ?%elem_of_nil|].
  destruct (P r) eqn:Hr.
  - split; [by apply elem_of_cons; left|]. split; [done|]. intros r' [->|Hin]%elem_of_cons _; [done|].
    by eapply Forall_forall in Hall.
  - destruct (List.find P l) as [x|].
    + destruct IH as (H1 & H2 & H3). split; [by apply elem_of_cons; right|]. split; [done|].
      intros r' [->|Hin]%elem_of_cons Hp; [congruence|by apply H3].
    + intros r' [->|Hin]%elem_of_cons; [done|by apply IH].
Qed.

Lemma match_spec sorted routes host path :
  sorts sorted →
  match routerMatch (routerApply sorted routes) host path with
  | Some r => answers routes host path r ∧ ∀ r', answers routes host path r' → (String.length (rt_Path r') ≤ String.length (rt_Path r))%nat
  | None => ∀ r', ¬ answers routes host path r'
  end.
Proof.
  intros Hsort. set (l0 := default [] (fold_left collectRoute routes ∅ !! normalizeHost host)).
  assert (Hl0 : ∀ r, r ∈ l0 ↔ ∃ r0, r0 ∈ routes ∧ accepted r0 = true ∧ normalizeHost (rt_Host r0) = normalizeHost host ∧ r = with_rt_Host r0 (normalizeHost host)).
  { intros r. unfold l0. rewrite collect_spec, lookup_empty. cbn [default app]. rewrite list_elem_of_fmap. split.
    - intros (r0 & -> & Hin). apply elem_of_filterb in Hin as [Hb Hin]. apply andb_true_iff in Hb as [? Hb%bool_decide_eq_true]. by exists r0.
    - intros (r0 & Hin & Ha & Hh & ->). exists r0. split; [done|]. apply elem_of_filterb. split; [|done]. by rewrite Ha, bool_decide_true. }
  assert (Hcand : default [] (routerApply sorted routes !! normalizeHost host) ≡ₚ l0 ∧
    StronglySorted (λ a b, (String.length (rt_Path b) ≤ String.length (rt_Path a))%nat) (default [] (routerApply sorted routes !! normalizeHost host))).
  { unfold routerApply, l0. rewrite lookup_fmap. destruct (fold_left _ _ _ !! _) as [l|]; cbn; [apply Hsort|by split; [|constructor]]. }
  destruct Hcand as [Hperm Hss]. unfold routerMatch. pose proof (find_first _ (path_matches path) Hss) as Hf.
  assert (Hans : ∀ r, answers routes host path r ↔ r ∈ default [] (routerApply sorted routes !! normalizeHost host) ∧ path_matches path r = true).
  { intros r. rewrite Hperm, Hl0. split.
    - intros (r0 & ? & ? & ? & Hp & ->). split; [by exists r0|exact Hp].
    - intros [(r0 & ? & ? & ? & ->) Hp]. by exists r0. }
  destruct (List.find _ _) as [r|].
  - destruct Hf as (H1 & H2 & H3). rewrite Hans. split; [done|]. intros r' [? ?]%Hans. by apply H3.
  - intros r' [Hin Hp]%Hans. rewrite (Hf r' Hin) in Hp. done.
Qed.
End Routes.

Section Serving.
Context {Net IP Pool : Type}.
Context (ParseCIDR : string → option Net) (Contains : Net → IP → bool) (PoolFromPEM : string → option Pool).
Context (url_Parse : string → option (string * string)) (PathUnescape : string → string).

Lemma serve_Proxied m (cas : gmap string Pool) challenges Resolve (q : Request IP) r target :
  serve Contains m cas challenges Resolve q = Proxied r target →
  routerMatch m (rq_Host q) (rq_Path q) = Some r ∧ PeerAllowed Contains r (rq_Peer q) = true ∧
  (rt_RequireClientCert r = true → is_https q = true ∧ HasPool (rt_Host r) cas = true) ∧
  Resolve (rt_Namespace r) (rt_Service r) (rt_Port r) = Some target ∧ target ≠ "".
Proof.
  unfold serve. destruct (_ && _); [by destruct (challenges !! _)|]. unfold proxy.
  destruct (routerMatch m (rq_Host q) (rq_Path q)) as [r0|]; [|done].
  destruct (PeerAllowed _ _ _) eqn:Hp; cbn [negb]; [|done].
  destruct (mtlsGate _ _ _) as [e|] eqn:Hg.
  { unfold mtlsGate in Hg. destruct (rt_RequireClientCert r0), (is_https q), (HasPool (rt_Host r0) cas); cbn in Hg; by simplify_eq. }
  destruct (Resolve _ _ _) as [t|] eqn:Ht; [|done]. case_bool_decide; [done|]. intros [= <- <-].
  split; [done|]. split; [done|]. split; [|done]. intros Hreq. unfold mtlsGate in Hg. rewrite Hreq in Hg. cbn in Hg.
  by destruct (is_https q), (HasPool (rt_Host r0) cas).
Qed.

Lemma PeerAllowed_spec r (peer : option IP) :
  PeerAllowed Contains r peer = true →
  rt_AllowCIDRs r = [] ∨ ∃ ip n, peer = Some ip ∧ n ∈ rt_AllowCIDRs r ∧ Contains n ip = true.
Proof.
  unfold PeerAllowed. destruct (rt_AllowCIDRs r) as [|n0 l] eqn:E; [by left|]. destruct peer as [ip|]; [|done].
  intros H. right. apply existsb_exists in H as (n & Hin & Hc). exists ip, n. split; [done|]. split; [by apply list_elem_of_In|done].
Qed.

(** A validated allow list survives parsing whole. *)
Lemma parseAllow_valid e :
  ValidateExpose ParseCIDR (Some e) = true → (parseAllowCIDRs ParseCIDR (ex_AllowCIDRs e) = [] ↔ ex_AllowCIDRs e = []).
Proof.
  intros H. unfold ValidateExpose in H. apply andb_true_iff in H as [H _]. apply andb_true_iff in H as [_ H].
  unfold parseAllowCIDRs. destruct (ex_AllowCIDRs e) as [|c l]; [done|]. cbn in *. by destruct (ParseCIDR c).
Qed.

Lemma routeOf_spec s r :
  routeOf ParseCIDR s = Some r →
  ∃ e, is_Expose s = Some e ∧ rt_Host r = ex_Host e ∧ rt_Namespace r = is_Namespace s ∧ rt_Service r = is_Name s ∧
    rt_Path r = ex_Path e ∧ rt_AllowCIDRs r = parseAllowCIDRs ParseCIDR (ex_AllowCIDRs e) ∧
    rt_RequireClientCert r = bool_decide (is_Some (needsClientCert e)).
Proof.
  unfold routeOf. destruct (is_Expose s) as [e|]; [|done]. destruct (_ || _); [done|]. intros [= <-]. exists e. repeat split; cbn.
  destruct (needsClientCert e); [by rewrite bool_decide_true|by rewrite bool_decide_false by (intros [? [=]])].
Qed.

Lemma reconcile_router sorted secret svcs c :
  ic_router (reconcile ParseCIDR PoolFromPEM url_Parse PathUnescape sorted secret (Some svcs) c) =
  routerApply sorted (omap (routeOf ParseCIDR) svcs).
Proof. unfold reconcile. destruct (fold_left _ _ _) as [[cas pushed] hosts]. by destruct (pruneClientCAs _ _ _). Qed.
End Serving.

(** Whether a TLS connection comes up: a handshake whose name has a pool asks for
    a client certificate and checks it; [verifies] tells which pools the client's
    certificate verifies against. *)
Definition connected {IP Pool : Type} (cas : gmap string Pool) (verifies : Pool → bool) (q : Request IP) : bool :=
  match rq_SNI q with
  | None => true
  | Some sni => match ConfigFor sni cas with Some pool => verifies pool | None => true end
  end.

(** ** Claims *)

(** The router resolves a request to a declared route of its host whose path
    is a prefix of the request's, the longest such path, and to nothing exactly
    when no declared route matches, whatever order the sort leaves ties in. *)
Theorem match_longest_prefix {Net : Type} (sorted : list (Route Net) → list (Route Net)) (routes : list (Route Net)) (host path : string)
    (Hsort : sorts sorted) :
  match routerMatch (routerApply sorted routes) host path with
  | Some r => answers routes host path r ∧
              ∀ r', answers routes host path r' → (String.length (rt_Path r') ≤ String.length (rt_Path r))%nat
  | None => ∀ r', ¬ answers routes host path r'
  end.
Proof. by apply match_spec. Qed.

(** C26: a request is proxied only to a service the last reconcile listed, which
    declares the request's host and a prefix of its path; if the service has a
    validated allow list, the TCP peer is in one of its networks; if it asks for
    client certificates, the connection is TLS, and when the handshake named the
    same host, the client's certificate was verified against the host's pool. *)
Theorem proxied_is_admitted {Net IP Pool : Type} (ParseCIDR : string → option Net) (Contains : Net → IP → bool)
    (PoolFromPEM : string → option Pool) (url_Parse : string → option (string * string)) (PathUnescape : string → string)
    (sorted : list (Route Net) → list (Route Net)) (secret : secrets) (svcs : list IngressService) (c : controller Net Pool)
    (challenges : gmap string string) (Resolve : string → string → Z → option string) (verifies : Pool → bool)
    (q : Request IP) (r : Route Net) (target : string)
    (Hsort : sorts sorted)
    (Hconn : connected (ic_cas (reconcile ParseCIDR PoolFromPEM url_Parse PathUnescape sorted secret (Some svcs) c)) verifies q = true)
    (Hserve : serve Contains (ic_router (reconcile ParseCIDR PoolFromPEM url_Parse PathUnescape sorted secret (Some svcs) c))
                (ic_cas (reconcile ParseCIDR PoolFromPEM url_Parse PathUnescape sorted secret (Some svcs) c)) challenges Resolve q
              = Proxied r target) :
  ∃ s e, s ∈ svcs ∧ is_Expose s = Some e ∧ rt_Namespace r = is_Namespace s ∧ rt_Service r = is_Name s ∧
    normalizeHost (ex_Host e) = normalizeHost (rq_Host q) ∧ (ex_Path e = "" ∨ String.prefix (ex_Path e) (rq_Path q) = true) ∧
    (ValidateExpose ParseCIDR (Some e) = true → ex_AllowCIDRs e ≠ [] →
       ∃ cidr n ip, cidr ∈ ex_AllowCIDRs e ∧ ParseCIDR cidr = Some n ∧ rq_Peer q = Some ip ∧ Contains n ip = true) ∧
    (is_Some (needsClientCert e) →
       ∃ sni, rq_SNI q = Some sni ∧
         (normalizeHost sni = normalizeHost (rt_Host r) →
          ∃ pool, ic_cas (reconcile ParseCIDR PoolFromPEM url_Parse PathUnescape sorted secret (Some svcs) c) !! normalizeHost sni = Some pool ∧
            verifies pool = true)).
Proof.
  set (c' := reconcile _ _ _ _ _ _ _ _) in *. destruct (serve_Proxied _ _ _ _ _ _ _ _ Hserve) as (Hm & Hp & Hcert & _).
  unfold c' in Hm at 1. rewrite reconcile_router in Hm. pose proof (match_spec sorted (omap (routeOf ParseCIDR) svcs) (rq_Host q) (rq_Path q) Hsort) as Hs.
  rewrite Hm in Hs. destruct Hs as [(r0 & Hin & _ & Hhost & Hpath & ->) _]. apply list_elem_of_omap in Hin as (s & Hs & Hr0).
  destruct (routeOf_spec _ _ _ Hr0) as (e & He & E1 & E2 & E3 & E4 & E5 & E6). exists s, e. cbn [with_rt_Host rt_Namespace rt_Service rt_RequireClientCert rt_AllowCIDRs rt_Host] in *.
  rewrite <-E1, <-E2, <-E3. split_and!; try done.
  - unfold path_matches in Hpath. rewrite E4 in Hpath. apply orb_true_iff in Hpath as [H%bool_decide_eq_true|]; [by left|by right].
  - intros Hv Hne. apply PeerAllowed_spec in Hp as [Hp|(ip & n & Hpeer & Hn & Hc)]; cbn [with_rt_Host rt_AllowCIDRs] in *; rewrite E5 in *.
    + by apply (parseAllow_valid ParseCIDR e Hv) in Hp.
    + unfold parseAllowCIDRs in Hn. apply list_elem_of_omap in Hn as (cidr & ? & ?). by exists cidr, n, ip.
  - intros Hneed. rewrite E6, bool_decide_true in Hcert by done. destruct (Hcert eq_refl) as [Htls Hpool].
    unfold is_https in Htls. unfold connected in Hconn. destruct (rq_SNI q) as [sni|]; [|done]. exists sni. split; [done|]. intros Hsni.
    unfold HasPool in Hpool. apply bool_decide_eq_true in Hpool as [pool Hpool]. exists pool. unfold ConfigFor in Hconn.
    rewrite Hsni in *. by rewrite Hpool in Hconn.
Qed.

(** A client certificate requirement is not enforced for a handshake that
    names another host: when the handshake's name has no pool, the connection
    comes up without any certificate, and a request on it for the locked host is
    proxied. *)
Theorem other_sni_skips_mtls {Net IP Pool : Type} (Contains : Net → IP → bool) (m : gmap string (list (Route Net))) (cas : gmap string Pool)
    (challenges : gmap string string) (Resolve : string → string → Z → option string) (sni host path target : string)
    (peer : option IP) (r : Route Net)
    (Hroute : routerMatch m host path = Some r) (Hlocked : rt_RequireClientCert r = true) (Hpool : HasPool (rt_Host r) cas = true)
    (Hpeer : PeerAllowed Contains r peer = true) (Hup : Resolve (rt_Namespace r) (rt_Service r) (rt_Port r) = Some target)
    (Htarget : target ≠ "") (Hsni : HasPool sni cas = false) :
  let q := mkRequest (Some sni) host path peer in
  connected cas (λ _, false) q = true ∧ serve Contains m cas challenges Resolve q = Proxied r target.
Proof.
  intros q. unfold connected, serve, proxy, ConfigFor, q. cbn [rq_SNI rq_Host rq_Path rq_Peer is_https negb andb].
  apply bool_decide_eq_false in Hsni. rewrite (proj2 (eq_None_not_Some _) Hsni). split; [done|].
  rewrite Hroute, Hpeer. unfold mtlsGate. rewrite Hlocked, Hpool, Hup. cbn. by rewrite bool_decide_false.
Qed.

(** An allow list whose entries all fail to parse allows every peer. *)
Lemma unparsed_allow_list_open {Net IP : Type} (ParseCIDR : string → option Net) (Contains : Net → IP → bool) (cidrs : list string)
    (h ns svc path : string) (port : Z) (tls : bool) (peer : option IP) :
  Forall (λ c, ParseCIDR c = None) cidrs →
  PeerAllowed Contains (mkRoute h ns svc port path (parseAllowCIDRs ParseCIDR cidrs) tls) peer = true.
Proof.
  intros H. unfold PeerAllowed, parseAllowCIDRs. cbn [rt_AllowCIDRs]. replace (omap ParseCIDR cidrs) with (@nil Net); [done|].
  induction H as [|c l Hc _ IH]; [done|]. cbn. by rewrite Hc.
Qed.

(** ** Examples *)

#[global] Instance longer_path_sw {Net} : StrictWeak (@longer_path Net).
Proof.
  split; unfold longer_path.
  - intros a b H%bool_decide_eq_true. apply bool_decide_eq_false. lia.
  - intros a b c H1%bool_decide_eq_false H2%bool_decide_eq_false. apply bool_decide_eq_false. lia.
Qed.

(** A stable sort is one of the orders [sort.Slice] may produce. *)
Lemma stable_sorts {Net} : sorts (SliceStable (@longer_path Net)).
Proof.
  intros l. split; [apply SliceStable_perm|]. pose proof (SliceStable_sorted (@longer_path Net) l) as Hs.
  induction Hs as [|a r _ IH Ha]; constructor; [done|]. eapply Forall_impl; [exact Ha|]. intros b Hb.
  unfold not_after, longer_path in Hb. apply bool_decide_eq_false in Hb. lia.
Qed.

Definition demoExpose (path : string) (cert : option ExposeClientCert) : ServiceExpose :=
  mkServiceExpose "http" "App.example.com" path None ["10.0.0.0/8"] cert.

Definition demoServices : list IngressService :=
  [mkIngressService "s1" "default" "web" [mkServicePort "http" 80 8080 "tcp" 0] "10.96.0.2" (Some (demoExpose "" None));
   mkIngressService "s2" "default" "api" [mkServicePort "http" 80 0 "tcp" 0] "10.96.0.3"
     (Some (demoExpose "/api" (Some (mkExposeClientCert "edge-ca" ""))))].

Definition demoSecret : secrets := λ ns name, if bool_decide (name = "edge-ca") then Some ({["ca.crt" := "PEM"]}, 1) else None.
Definition demoPEM (pem : string) : option string := Some pem.
Definition demoURL (s : string) : option (string * string) := None.

Definition demoController : controller IPNet string :=
  reconcile ParseCIDR demoPEM demoURL id (SliceStable longer_path) demoSecret (Some demoServices) (mkController ∅ ∅ ∅ ∅ ∅).

Definition demoResolve : string → string → Z → option string := resolve [] (λ _, None) (λ _ _, None) demoController.

Definition demoVerifies (pool : string) : bool := bool_decide (pool = "PEM").

Definition demoRoute : Route IPNet := mkRoute "app.example.com" "default" "api" 80 "/api" [mkIPNet 167772160 8] true.

Lemma match_longest_prefix_witness :
  routerMatch (routerApply (SliceStable longer_path) (omap (routeOf ParseCIDR) demoServices)) "app.example.com:443" "/api/v1" = Some demoRoute ∧
  ∀ r', answers (omap (routeOf ParseCIDR) demoServices) "app.example.com:443" "/api/v1" r' →
    (String.length (rt_Path r') ≤ String.length (rt_Path demoRoute))%nat.
Proof.
  split; [vm_compute; reflexivity|].
  exact (proj2 (match_longest_prefix (SliceStable longer_path) (omap (routeOf ParseCIDR) demoServices) "app.example.com:443" "/api/v1" stable_sorts)).
Defined.

Lemma proxied_is_admitted_witness :
  ∃ s e, s ∈ demoServices ∧ is_Expose s = Some e ∧ rt_Namespace demoRoute = is_Namespace s ∧ rt_Service demoRoute = is_Name s ∧
    normalizeHost (ex_Host e) = "app.example.com" ∧ (ex_Path e = "" ∨ String.prefix (ex_Path e) "/api/v1" = true) ∧
    (ValidateExpose ParseCIDR (Some e) = true → ex_AllowCIDRs e ≠ [] →
       ∃ cidr n ip, cidr ∈ ex_AllowCIDRs e ∧ ParseCIDR cidr = Some n ∧ Some 167772161 = Some ip ∧ Contains n ip = true) ∧
    (is_Some (needsClientCert e) →
       ∃ sni, Some "app.example.com" = Some sni ∧
         (normalizeHost sni = normalizeHost (rt_Host demoRoute) →
          ∃ pool, ic_cas demoController !! normalizeHost sni = Some pool ∧ demoVerifies pool = true)).
Proof.
  apply (proxied_is_admitted ParseCIDR Contains demoPEM demoURL id (SliceStable longer_path) demoSecret demoServices (mkController ∅ ∅ ∅ ∅ ∅)
    ∅ demoResolve demoVerifies (mkRequest (Some "app.example.com") "app.example.com" "/api/v1" (Some 167772161))
    demoRoute "10.96.0.3:80" stable_sorts); vm_compute; reflexivity.
Defined.

Lemma other_sni_skips_mtls_witness :
  connected (ic_cas demoController) (λ _, false) (mkRequest (Some "other.example.com") "app.example.com" "/api/v1" (Some 167772161)) = true ∧
  serve Contains (ic_router demoController) (ic_cas demoController) ∅ demoResolve
    (mkRequest (Some "other.example.com") "app.example.com" "/api/v1" (Some 167772161)) = Proxied demoRoute "10.96.0.3:80".
Proof.
  apply (other_sni_skips_mtls Contains (ic_router demoController) (ic_cas demoController) ∅ demoResolve "other.example.com" "app.example.com"
           "/api/v1" "10.96.0.3:80" (Some 167772161) demoRoute); vm_compute; (reflexivity || discriminate).
Defined.
