(* ===== verification/Storage.v ===== *)
(** * Volumes and storage classes (pkg/orchestrator/volume/volume_controller.go,
      pkg/types/{volume,storageclass,snapshot}.go, pkg/storage/driverparams)

    The volume controller: provisioning with retries, reclaim, and the single
    default storage class.  Every call that leaves the controller (store or
    driver) is a tick.  An environment says, for each tick, whether the store
    fails, what the driver answers, and what everyone else (the API, the
    instance controller, the controller's other goroutines) did to the store and
    to the shared tables just before.  Writes, driver calls and events go to a
    log.  Timers are entries of a table, and firing one is a step.

    Labels, ownership stamps, snapshot schedules and the human-readable messages
    are left out.  Go's URL parser and [ParseMemory] are parameters. *)

From S2P Require Import Prelude Text Effects Types ResourceStore Authz.

Definition AccessModeRWO : string := "ReadWriteOnce".
Definition AccessModeROX : string := "ReadOnlyMany".
Definition AccessModeRWX : string := "ReadWriteMany".

Definition ReclaimPolicyRetain : string := "retain".
Definition ReclaimPolicyDelete : string := "delete".

Definition VolumeStatusPending : string := "Pending".
Definition VolumeStatusProvisioning : string := "Provisioning".
Definition VolumeStatusAvailable : string := "Available".
Definition VolumeStatusBound : string := "Bound".
Definition VolumeStatusReleased : string := "Released".
Definition VolumeStatusStalled : string := "Stalled".
Definition VolumeStatusFailed : string := "Failed".

#[local] Abbreviation params := (gmap string string).

Record Volume := mkVolume {
  v_ID : string;
  v_Name : string;
  v_Namespace : string;
  v_StorageClassName : string;
  v_Size : string;
  v_AccessMode : string;
  v_ReclaimPolicy : string;
  v_Parameters : params;
  v_DriverParameters : params;
  v_Handle : string;
  v_OwnerService : string;
  v_BoundNode : string;
  v_BoundClaim : string;
  v_Status : string;
  v_StatusReason : string;
  v_InitializedFor : gmap string Time;
  v_CreatedAt : Time;
  v_UpdatedAt : Time;
}.

Record StorageClass := mkStorageClass {
  sc_Name : string;
  sc_Driver : string;
  sc_Parameters : params;
  sc_ReclaimPolicy : string;
  sc_Default : bool;
  sc_CreatedAt : Time;
  sc_UpdatedAt : Time;
}.

Definition SnapshotPhasePending : string := "Pending".
Definition SnapshotPhaseCreating : string := "Creating".
Definition SnapshotPhaseReady : string := "Ready".
Definition SnapshotPhaseDeleting : string := "Deleting".
Definition SnapshotPhaseFailed : string := "Failed".

Record Snapshot := mkSnapshot {
  sn_ID : string;
  sn_Name : string;
  sn_Namespace : string;
  sn_SourceVolume : string;
  sn_Driver : string;
  sn_Handle : string;
  sn_Phase : string;
  sn_Reason : string;
  sn_CreatedAt : Time;
  sn_UpdatedAt : Time;
}.

Definition RestoreFromSnapshotParam : string := "rune.io/restoreFromSnapshot".

#[global] Instance Volume_eq_dec : EqDecision Volume.
Proof. solve_decision. Defined.
#[global] Instance StorageClass_eq_dec : EqDecision StorageClass.
Proof. solve_decision. Defined.
#[global] Instance Snapshot_eq_dec : EqDecision Snapshot.
Proof. solve_decision. Defined.

Definition with_v_status (v : Volume) (status reason : string) (now : Time) : Volume :=
  mkVolume (v_ID v) (v_Name v) (v_Namespace v) (v_StorageClassName v) (v_Size v) (v_AccessMode v) (v_ReclaimPolicy v)
    (v_Parameters v) (v_DriverParameters v) (v_Handle v) (v_OwnerService v) (v_BoundNode v) (v_BoundClaim v)
    status reason (v_InitializedFor v) (v_CreatedAt v) now.

Definition with_v_class (v : Volume) (class : string) : Volume :=
  mkVolume (v_ID v) (v_Name v) (v_Namespace v) class (v_Size v) (v_AccessMode v) (v_ReclaimPolicy v)
    (v_Parameters v) (v_DriverParameters v) (v_Handle v) (v_OwnerService v) (v_BoundNode v) (v_BoundClaim v)
    (v_Status v) (v_StatusReason v) (v_InitializedFor v) (v_CreatedAt v) (v_UpdatedAt v).

Definition with_v_handle (v : Volume) (handle : string) (dp : params) : Volume :=
  mkVolume (v_ID v) (v_Name v) (v_Namespace v) (v_StorageClassName v) (v_Size v) (v_AccessMode v) (v_ReclaimPolicy v)
    (v_Parameters v) dp handle (v_OwnerService v) (v_BoundNode v) (v_BoundClaim v)
    (v_Status v) (v_StatusReason v) (v_InitializedFor v) (v_CreatedAt v) (v_UpdatedAt v).

Definition with_sc_Default (c : StorageClass) (b : bool) (now : Time) : StorageClass :=
  mkStorageClass (sc_Name c) (sc_Driver c) (sc_Parameters c) (sc_ReclaimPolicy c) b (sc_CreatedAt c) now.

(** ** Drivers (pkg/storage/driver/driver.go)

    [None] is the context's nil class or volume. *)
Record OpContext := mkOpContext {
  oc_StorageClass : option StorageClass;
  oc_Volume : option Volume;
  oc_Parameters : params;
}.

Inductive driver_call :=
| CProvision (driver : string) (ctx : OpContext) (size : Z)
| CRestore (driver : string) (ctx : OpContext) (source : Snapshot) (size : Z)
| CDelete (driver : string) (ctx : OpContext) (handle : string)
| CSnapshot (driver : string) (ctx : OpContext) (handle : string) (snap : Snapshot)
| CDeleteSnapshot (driver : string) (ctx : OpContext) (handle : string).

Inductive EventLevel := EventLevelInfo | EventLevelError.

Inductive entry :=
| LCall (c : driver_call) (answer : option string)
| LVolume (v : Volume)
| LClass (c : StorageClass)
| LSnapshot (s : Snapshot)
| LRemoved (ns name : string)
| LEvent (level : EventLevel) (ns name reason : string).

(** ** The world *)

Record db := mkDb {
  d_volumes : gmap (string * string) Volume;
  d_classes : gmap string StorageClass;
  d_snapshots : gmap (string * string) Snapshot;
}.

(** The tables of the volume controller; a timer holds its volume's key and delay. *)
Record tables := mkTables {
  t_internalUpdates : gset string;
  t_internalSCUpdates : gset string;
  t_retries : gmap string Z;
  t_retryTimers : gmap string (string * string * Duration);
  t_drivers : gset string;
  t_stopped : bool;
}.

Record world := mkWorld {
  w_db : db;
  w_tables : tables;
  w_log : list entry;
  w_tick : nat;
}.

Record env := mkEnv {
  e_fault : nat → bool;
  e_now : nat → Time;
  e_answer : nat → driver_call → option string;
  e_driver : nat → string → bool;
  e_snapshots : string → bool;
  e_lookup : option (nat → string → string → string → option string);
  e_others : nat → db → tables → db * tables;
}.

Record Options := mkOptions {
  o_DefaultStorageClass : option string;
  o_PreserveOnDelete : bool;
  o_MaxProvisionAttempts : Z;
  o_ProvisionBaseBackoff : Duration;
  o_ProvisionMaxBackoff : Duration;
}.

(** What [NewController] keeps of the options. *)
Definition NewController (o : Options) : Options :=
  let base := if o_ProvisionBaseBackoff o <=? 0 then 2 * Second else o_ProvisionBaseBackoff o in
  let max := if o_ProvisionMaxBackoff o <=? 0 then 30 * Second else o_ProvisionMaxBackoff o in
  mkOptions (o_DefaultStorageClass o) (o_PreserveOnDelete o)
    (if o_MaxProvisionAttempts o <=? 0 then 5 else o_MaxProvisionAttempts o)
    base (if max <? base then base else max).

Definition log (x : entry) (w : world) : world := mkWorld (w_db w) (w_tables w) (w_log w ++ [x]) (w_tick w).
Definition with_volumes (f : gmap (string * string) Volume → gmap (string * string) Volume) (w : world) : world :=
  mkWorld (mkDb (f (d_volumes (w_db w))) (d_classes (w_db w)) (d_snapshots (w_db w))) (w_tables w) (w_log w) (w_tick w).
Definition with_classes (f : gmap string StorageClass → gmap string StorageClass) (w : world) : world :=
  mkWorld (mkDb (d_volumes (w_db w)) (f (d_classes (w_db w))) (d_snapshots (w_db w))) (w_tables w) (w_log w) (w_tick w).
Definition with_snapshots (f : gmap (string * string) Snapshot → gmap (string * string) Snapshot) (w : world) : world :=
  mkWorld (mkDb (d_volumes (w_db w)) (d_classes (w_db w)) (f (d_snapshots (w_db w)))) (w_tables w) (w_log w) (w_tick w).
Definition with_tables (f : tables → tables) (w : world) : world := mkWorld (w_db w) (f (w_tables w)) (w_log w) (w_tick w).

Definition with_internalUpdates (f : gset string → gset string) (t : tables) : tables :=
  mkTables (f (t_internalUpdates t)) (t_internalSCUpdates t) (t_retries t) (t_retryTimers t) (t_drivers t) (t_stopped t).
Definition with_internalSCUpdates (f : gset string → gset string) (t : tables) : tables :=
  mkTables (t_internalUpdates t) (f (t_internalSCUpdates t)) (t_retries t) (t_retryTimers t) (t_drivers t) (t_stopped t).
Definition with_retries (r : gmap string Z) (tm : gmap string (string * string * Duration)) (t : tables) : tables :=
  mkTables (t_internalUpdates t) (t_internalSCUpdates t) r tm (t_drivers t) (t_stopped t).
Definition with_drivers (f : gset string → gset string) (t : tables) : tables :=
  mkTables (t_internalUpdates t) (t_internalSCUpdates t) (t_retries t) (t_retryTimers t) (f (t_drivers t)) (t_stopped t).

#[local] Abbreviation io := (prog world).

Definition volumeKey (ns name : string) : string := ns +:+ "/" +:+ name.

(** ** Parameters *)

Definition mergeParameters (class vol : params) : params := vol ∪ class.

Definition reclaimParameters (class : option StorageClass) (vol : Volume) : params :=
  match class with
  | Some class => mergeParameters (sc_Parameters class) (v_Parameters vol)
  | None => if bool_decide (v_DriverParameters vol = ∅) then mergeParameters ∅ (v_Parameters vol)
            else mergeParameters (v_DriverParameters vol) (v_Parameters vol)
  end.

Definition splitNamespacedRef (ref : string) : string * string :=
  match Cut "/" ref with Some (ns, name) => (ns, name) | None => ("", "") end.

Definition eventLevelForVolumeStatus (status : string) : EventLevel :=
  if bool_decide (status = VolumeStatusFailed) || bool_decide (status = VolumeStatusStalled) then EventLevelError else EventLevelInfo.

Section Storage.
Context (url_Parse : string → option (string * string)) (PathUnescape : string → string).
Context (ParseMemory : string → option Z).

(** [driverparams.Resolve]: a value that is a secret reference is replaced. *)
Definition resolveOne (lookup : option (string → string → string → option string)) (ns value : string) : option string :=
  match ParseResourceRef url_Parse PathUnescape value with
  | None => Some value
  | Some ref =>
      if negb (bool_decide (rr_Type ref = ResourceTypeSecret)) then Some value
      else match lookup with
           | None => None
           | Some lookup =>
               let ns := if bool_decide (rr_Namespace ref = "") then ns else rr_Namespace ref in
               if bool_decide (ns = "") || bool_decide (rr_Name ref = "") || bool_decide (rr_Key ref = "") then None
               else lookup ns (rr_Name ref) (rr_Key ref)
           end
  end.

Definition Resolve (lookup : option (string → string → string → option string)) (ps : params) (ns : string) : option params :=
  list_to_map <$> mapM (λ kv, pair kv.1 <$> resolveOne lookup ns kv.2) (map_to_list ps).

(** [None]: the size does not parse or is negative. *)
Definition volumeSizeBytes (vol : Volume) : option Z :=
  if bool_decide (v_Size vol = "") then Some 0
  else match ParseMemory (v_Size vol) with Some n => if n <? 0 then None else Some n | None => None end.

Section Controller.
Context (env : env) (opts : Options).

(** ** Calls that leave the controller *)

Definition external {A} (f : nat → world → world * option A) : io A := λ w,
  let n := w_tick w in
  let '(d, t) := e_others env n (w_db w) (w_tables w) in
  f n (mkWorld d t (w_log w) (S n)).

(** A store call: [None] from [f] is the store's own error. *)
Definition storeCall {A} (f : world → world * option A) : io A :=
  external (λ n w, if e_fault env n then (w, None) else f w).

Definition getVolume (ns name : string) : io Volume := storeCall (λ w, (w, d_volumes (w_db w) !! (ns, name))).
Definition getClass (name : string) : io StorageClass := storeCall (λ w, (w, d_classes (w_db w) !! name)).
Definition getSnapshot (ns name : string) : io Snapshot := storeCall (λ w, (w, d_snapshots (w_db w) !! (ns, name))).

(** Listings come in the order of the names. *)
Definition sortedClasses (m : gmap string StorageClass) : list StorageClass :=
  SliceStable (λ a b, String.ltb (sc_Name a) (sc_Name b)) (map_to_list m).*2.
Definition listClasses : io (list StorageClass) := storeCall (λ w, (w, Some (sortedClasses (d_classes (w_db w))))).

Definition putVolume (v : Volume) : io unit := storeCall (λ w,
  match d_volumes (w_db w) !! (v_Namespace v, v_Name v) with
  | None => (w, None)
  | Some _ => (log (LVolume v) (with_volumes <[(v_Namespace v, v_Name v) := v]> w), Some tt)
  end).

Definition putClass (c : StorageClass) : io unit := storeCall (λ w,
  match d_classes (w_db w) !! sc_Name c with
  | None => (w, None)
  | Some _ => (log (LClass c) (with_classes <[sc_Name c := c]> w), Some tt)
  end).

Definition createClass (c : StorageClass) : io unit := storeCall (λ w,
  match d_classes (w_db w) !! sc_Name c with
  | Some _ => (w, None)
  | None => (log (LClass c) (with_classes <[sc_Name c := c]> w), Some tt)
  end).

Definition callDriver (c : driver_call) : io string :=
  external (λ n w, let a := e_answer env n c in (log (LCall c a) w, a)).

Definition now : io Time := gets (λ w, e_now env (w_tick w)).

(** [driver.New] on first use; drivers are cached. *)
Definition driverFor (name : string) : io unit := λ w,
  if bool_decide (name ∈ t_drivers (w_tables w)) then (w, Some tt)
  else if e_driver env (w_tick w) name then (with_tables (with_drivers (λ s, {[name]} ∪ s)) w, Some tt)
  else (w, None).

Definition resolveParams (ps : params) (ns : string) : io params := λ w,
  (w, Resolve (match e_lookup env with Some f => Some (f (w_tick w)) | None => None end) ps ns).

(** ** Storage classes *)

(** [None]: none or several are marked. *)
Definition the_default (all : list StorageClass) : option StorageClass :=
  match List.filter sc_Default all with [c] => Some c | _ => None end.

Definition findDefaultStorageClass : io StorageClass :=
  all ← listClasses; from_option (the_default all).

Definition resolveStorageClass (vol : Volume) : io StorageClass :=
  name ← (if bool_decide (v_StorageClassName vol = "") then def ← findDefaultStorageClass; mret (sc_Name def)
          else mret (v_StorageClassName vol));
  getClass name.

(** ** Provisioning *)

Definition markSelfUpdate (vol : Volume) : io unit :=
  modify (with_tables (with_internalUpdates (λ s, {[volumeKey (v_Namespace vol) (v_Name vol)]} ∪ s))).

(** The volume as the caller's pointer has it afterwards. *)
Definition updateStatus (vol : Volume) (status reason : string) : io Volume :=
  t ← now;
  let v := with_v_status vol status reason t in
  markSelfUpdate v;;
  putVolume v;;
  (if bool_decide (v_Status vol = status) then mret tt
   else modify (log (LEvent (eventLevelForVolumeStatus status) (v_Namespace v) (v_Name v) reason)));;
  mret v.

Definition markFailed (vol : Volume) (reason : string) : io unit := updateStatus vol VolumeStatusFailed reason;; mret tt.

Definition clearRetry (key : string) : io unit :=
  modify (with_tables (λ t, with_retries (delete key (t_retries t)) (delete key (t_retryTimers t)) t)).

Fixpoint doublings (n : nat) (d : Duration) : Duration :=
  match n with
  | O => d
  | S n => if d <? o_ProvisionMaxBackoff opts then doublings n (wrap64 (d * 2)) else d
  end.

Definition backoffFor (attempt : Z) : Duration :=
  let attempt := if attempt <? 1 then 1 else attempt in
  let d := doublings (Z.to_nat (attempt - 1)) (o_ProvisionBaseBackoff opts) in
  if o_ProvisionMaxBackoff opts <? d then o_ProvisionMaxBackoff opts else d.

Definition handleProvisionFail (vol : Volume) : io unit :=
  let key := volumeKey (v_Namespace vol) (v_Name vol) in
  attempts ← gets (λ w, default 0 (t_retries (w_tables w) !! key) + 1);
  if o_MaxProvisionAttempts opts <=? attempts then
    clearRetry key;;
    updateStatus vol VolumeStatusStalled "ProvisionRetriesExhausted";; mret tt
  else
    modify (with_tables (λ t, with_retries (<[key := attempts]> (t_retries t))
      (<[key := (v_Namespace vol, v_Name vol, backoffFor attempts)]> (t_retryTimers t)) t));;
    updateStatus vol VolumeStatusFailed "ProvisionFailedWillRetry";; mret tt.

Definition restoreFromSnapshot (target : Volume) (class : StorageClass) (merged : params) (ref : string) : io string :=
  let '(ns, name) := splitNamespacedRef ref in
  guardp (negb (bool_decide (ns = "") || bool_decide (name = "")));;
  snap ← getSnapshot ns name;
  guardp (bool_decide (sn_Phase snap = SnapshotPhaseReady));;
  guardp (bool_decide (sn_Driver snap = "") || bool_decide (sn_Driver snap = sc_Driver class));;
  size ← from_option (volumeSizeBytes target);
  resolved ← resolveParams merged (v_Namespace target);
  callDriver (CRestore (sc_Driver class) (mkOpContext (Some class) (Some target) resolved) snap size).

(** The part of [reconcile] after the driver is found. *)
Definition provision (vol : Volume) (class : StorageClass) : io unit :=
  let merged := mergeParameters (sc_Parameters class) (v_Parameters vol) in
  let key := volumeKey (v_Namespace vol) (v_Name vol) in
  vol ← (if bool_decide (v_Status vol = VolumeStatusProvisioning) then mret vol
         else updateStatus vol VolumeStatusProvisioning "");
  let ref := default "" (merged !! RestoreFromSnapshotParam) in
  if negb (bool_decide (ref = "")) then
    handle ← try (restoreFromSnapshot vol class merged ref);
    match handle with
    | None => handleProvisionFail vol
    | Some h =>
        clearRetry key;;
        updateStatus (with_v_handle vol h (v_DriverParameters vol)) VolumeStatusAvailable "";; mret tt
    end
  else
    match volumeSizeBytes vol with
    | None => markFailed vol "InvalidSize"
    | Some size =>
        resolved ← try (resolveParams merged (v_Namespace vol));
        match resolved with
        | None => markFailed vol "InvalidParameters"
        | Some resolved =>
            handle ← try (callDriver (CProvision (sc_Driver class) (mkOpContext (Some class) (Some vol) resolved) size));
            match handle with
            | None => handleProvisionFail vol
            | Some h =>
                clearRetry key;;
                updateStatus (with_v_handle vol h merged) VolumeStatusAvailable "";; mret tt
            end
        end
    end.

Definition reconcile (vol : Volume) : io unit :=
  let fresh := bool_decide (v_Status vol = "") || bool_decide (v_Status vol = VolumeStatusPending) in
  if negb fresh && negb (bool_decide (v_Status vol = VolumeStatusProvisioning)) then mret tt
  else
    (if fresh then clearRetry (volumeKey (v_Namespace vol) (v_Name vol)) else mret tt);;
    class ← try (resolveStorageClass vol);
    match class with
    | None => markFailed vol "StorageClassMissing"
    | Some class =>
        let vol := if bool_decide (v_StorageClassName vol = "") then with_v_class vol (sc_Name class) else vol in
        ok ← try (driverFor (sc_Driver class));
        match ok with
        | None => markFailed vol "DriverUnavailable"
        | Some _ => provision vol class
        end
    end.

(** What a timer does when it goes off. *)
Definition retryProvision (ns name : string) : io unit :=
  stopped ← gets (λ w, t_stopped (w_tables w));
  if (stopped : bool) then mret tt
  else
    modify (with_tables (λ t, with_retries (t_retries t) (delete (volumeKey ns name) (t_retryTimers t)) t));;
    v ← getVolume ns name;
    if negb (bool_decide (v_Status v = VolumeStatusFailed)) then mret tt
    else reconcile (with_v_status v VolumeStatusProvisioning (v_StatusReason v) (v_UpdatedAt v)).

(** The callback of a pending timer; errors are logged and dropped. *)
Definition fireTimer (key : string) : io unit :=
  timer ← gets (λ w, t_retryTimers (w_tables w) !! key);
  match timer with
  | Some (ns, name, _) => try (retryProvision ns name);; mret tt
  | None => mret tt
  end.

(** ** Reclaim *)

Definition handleDeleted (vol : Volume) : io unit :=
  if bool_decide (v_Handle vol = "") then mret tt
  else if negb (bool_decide (v_ReclaimPolicy vol = ReclaimPolicyDelete)) then mret tt
  else
    class ← try (resolveStorageClass vol);
    let driverName := match class with Some c => sc_Driver c | None => "" end in
    if bool_decide (driverName = "") then mret tt
    else if o_PreserveOnDelete opts && bool_decide (driverName = "local") then mret tt
    else
      driverFor driverName;;
      resolved ← resolveParams (reclaimParameters class vol) (v_Namespace vol);
      callDriver (CDelete driverName (mkOpContext class (Some vol) resolved) (v_Handle vol));;
      mret tt.

(** ** Events *)

Record VolumeEvent := mkVolumeEvent {
  ev_Type : WatchEventType;
  ev_Namespace : string;
  ev_Name : string;
  ev_Volume : option Volume;
}.

Definition isSelfUpdate (ev : VolumeEvent) : io bool := λ w,
  let key := volumeKey (ev_Namespace ev) (ev_Name ev) in
  match ev_Type ev with
  | WatchEventUpdated =>
      if bool_decide (key ∈ t_internalUpdates (w_tables w))
      then (with_tables (with_internalUpdates (λ s, s ∖ {[key]})) w, Some true) else (w, Some false)
  | _ => (w, Some false)
  end.

Definition handle (ev : VolumeEvent) : io unit :=
  match ev_Type ev with
  | WatchEventCreated | WatchEventUpdated => match ev_Volume ev with Some vol => reconcile vol | None => fail end
  | WatchEventDeleted => match ev_Volume ev with Some vol => handleDeleted vol | None => mret tt end
  end.

(** One turn of [run]; errors are logged and dropped. *)
Definition runEvent (ev : VolumeEvent) : io unit :=
  self ← isSelfUpdate ev;
  if (self : bool) then mret tt else try (handle ev);; mret tt.

(** ** The default storage class *)

Definition markSelfStorageClassUpdate (name : string) : io unit :=
  modify (with_tables (with_internalSCUpdates (λ s, {[name]} ∪ s))).

Definition setDefault (b : bool) (c : StorageClass) : io unit :=
  t ← now;
  markSelfStorageClassUpdate (sc_Name c);;
  putClass (with_sc_Default c b t).

(** The latest updated of the marked classes; ties by name. *)
Definition latest (w : option StorageClass) (c : StorageClass) : option StorageClass :=
  match w with
  | None => Some c
  | Some w => if After (sc_UpdatedAt c) (sc_UpdatedAt w) ||
                 ((sc_UpdatedAt c =? sc_UpdatedAt w) && String.ltb (sc_Name c) (sc_Name w))
              then Some c else Some w
  end.

Definition winnerOf (keep : string) (defaults : list StorageClass) : string :=
  if bool_decide (keep = "") then match fold_left latest defaults None with Some c => sc_Name c | None => "" end else keep.

Definition enforceDefaultStorageClassUniqueness (keep : string) : io unit :=
  all ← listClasses;
  let defaults := List.filter sc_Default all in
  if bool_decide (length defaults ≤ 1)%nat then mret tt
  else
    let winner := winnerOf keep defaults in
    each (λ c, if bool_decide (sc_Name c = winner) then mret tt else setDefault false c) defaults.

Definition applyDefaultStorageClassConfig : io unit :=
  match o_DefaultStorageClass opts with
  | None => mret tt
  | Some target =>
      if bool_decide (target = "") then
        all ← listClasses; each (setDefault false) (List.filter sc_Default all)
      else
        c ← getClass target; if sc_Default c then mret tt else setDefault true c
  end.

Definition builtIns (t : Time) : list StorageClass :=
  [ mkStorageClass "local" "local" ∅ ReclaimPolicyRetain true t t;
    mkStorageClass "local-host" "local-host" ∅ ReclaimPolicyRetain false t t ].

Definition seedBuiltInStorageClasses : io unit :=
  t ← now;
  each (λ c, existing ← try (getClass (sc_Name c));
             match existing with Some _ => mret tt | None => createClass c end) (builtIns t).

(** The part of [Start] before the watches. *)
Definition boot : io unit :=
  try seedBuiltInStorageClasses;;
  try applyDefaultStorageClassConfig;;
  try (enforceDefaultStorageClassUniqueness (default "" (o_DefaultStorageClass opts)));;
  mret tt.

Record ClassEvent := mkClassEvent {
  ce_Type : WatchEventType;
  ce_Name : string;
  ce_Class : option StorageClass;
}.

Definition isSelfStorageClassUpdate (ev : ClassEvent) : io bool := λ w,
  match ce_Type ev with
  | WatchEventUpdated =>
      if bool_decide (ce_Name ev ∈ t_internalSCUpdates (w_tables w))
      then (with_tables (with_internalSCUpdates (λ s, s ∖ {[ce_Name ev]})) w, Some true) else (w, Some false)
  | _ => (w, Some false)
  end.

(** One turn of [runStorageClassWatch]. *)
Definition runStorageClassEvent (ev : ClassEvent) : io unit :=
  self ← isSelfStorageClassUpdate ev;
  if (self : bool) then mret tt
  else match ce_Type ev, ce_Class ev with
       | WatchEventDeleted, _ | _, None => mret tt
       | _, Some c => if sc_Default c then try (enforceDefaultStorageClassUniqueness (sc_Name c));; mret tt else mret tt
       end.

(** [Stop]: pending timers go. *)
Definition Stop : io unit :=
  modify (with_tables (λ t, mkTables (t_internalUpdates t) (t_internalSCUpdates t) (t_retries t) ∅ (t_drivers t) true)).

(** One step of the controller's goroutines. *)
Inductive step :=
| SBoot
| SEvent (ev : VolumeEvent)
| STimer (key : string)
| SClassEvent (ev : ClassEvent)
| SStop.

Definition runStep (s : step) : io unit :=
  match s with
  | SBoot => boot
  | SEvent ev => runEvent ev
  | STimer key => fireTimer key
  | SClassEvent ev => runStorageClassEvent ev
  | SStop => Stop
  end.

Definition runs : list step → io unit := each runStep.
End Controller.
End Storage.
