(* ===== verification/StorageProps.v ===== *)
(** * The log of the volume controller, and its calls one by one

    Rules for assertions about the log, which other goroutines do not write, and
    the effect of each call in an environment that leaves the store alone. *)

From S2P Require Import Prelude Text Effects Types ResourceStore Authz Storage.

Definition logged (J : list entry → Prop) (w : world) : Prop := J (w_log w).

Section Log.
Context (url_Parse : string → option (string * string)) (PathUnescape : string → string).
Context (ParseMemory : string → option Z) (env : env) (opts : Options).
Context (J : list entry → Prop).

Lemma external_log {A} (f : nat → world → world * option A) (P : A → world → Prop) (X : world → Prop) :
  (∀ n w, logged J w → match f n w with (w', Some a) => P a w' | (w', None) => X w' end) →
  post (logged J) (external env f) P X.
Proof. intros H w Hw. unfold external. destruct (e_others _ _ _ _) as [d t]. by apply H. Qed.

Lemma storeCall_log {A} (f : world → world * option A) :
  (∀ w, logged J w → logged J (f w).1) → keeps (logged J) (storeCall env f).
Proof.
  intros H. apply external_log. intros n w Hw. destruct (e_fault env n); [done|].
  specialize (H w Hw). by destruct (f w) as [w' [a|]].
Qed.

Lemma getVolume_log ns name : keeps (logged J) (getVolume env ns name).
Proof. by apply storeCall_log. Qed.
Lemma getClass_log name : keeps (logged J) (getClass env name).
Proof. by apply storeCall_log. Qed.
Lemma getSnapshot_log ns name : keeps (logged J) (getSnapshot env ns name).
Proof. by apply storeCall_log. Qed.
Lemma listClasses_log : keeps (logged J) (listClasses env).
Proof. by apply storeCall_log. Qed.

Lemma tables_log f : keeps (logged J) (modify (with_tables f)).
Proof. by apply keeps_modify. Qed.
Lemma driverFor_log name : keeps (logged J) (driverFor env name).
Proof. intros w Hw. unfold driverFor. by break. Qed.
Lemma resolveParams_log ps ns : keeps (logged J) (resolveParams url_Parse PathUnescape env ps ns).
Proof. intros w Hw. unfold resolveParams. by break. Qed.
Lemma now_log : keeps (logged J) (now env).
Proof. apply keeps_gets. Qed.
Lemma markSelfUpdate_log vol : keeps (logged J) (markSelfUpdate vol).
Proof. apply tables_log. Qed.
Lemma clearRetry_log key : keeps (logged J) (clearRetry key).
Proof. apply tables_log. Qed.
Lemma isSelfUpdate_log ev : keeps (logged J) (isSelfUpdate ev).
Proof. intros w Hw. unfold isSelfUpdate. by break. Qed.
Lemma isSelfStorageClassUpdate_log ev : keeps (logged J) (isSelfStorageClassUpdate ev).
Proof. intros w Hw. unfold isSelfStorageClassUpdate. by break. Qed.
Lemma markSelfStorageClassUpdate_log name : keeps (logged J) (markSelfStorageClassUpdate name).
Proof. apply tables_log. Qed.
End Log.

#[export] Hint Resolve getVolume_log getClass_log getSnapshot_log listClasses_log tables_log driverFor_log resolveParams_log
  now_log markSelfUpdate_log clearRetry_log isSelfUpdate_log isSelfStorageClassUpdate_log markSelfStorageClassUpdate_log : rune.

(** ** What every entry of the log satisfies *)
Section Entries.
Context (url_Parse : string → option (string * string)) (PathUnescape : string → string).
Context (ParseMemory : string → option Z) (env : env) (opts : Options).
Context (K : entry → Prop).

#[local] Abbreviation all := (logged (Forall K)).

Lemma log_all x w : K x → all w → all (log x w).
Proof. intros Hx Hw. unfold logged, log. cbn. apply Forall_app. auto. Qed.

Lemma putVolume_all v : K (LVolume v) → keeps all (putVolume env v).
Proof. intros Hv. apply storeCall_log. intros w Hw. case_match; [|done]. by apply log_all. Qed.
Lemma putClass_all c : K (LClass c) → keeps all (putClass env c).
Proof. intros Hv. apply storeCall_log. intros w Hw. case_match; [|done]. by apply log_all. Qed.
Lemma createClass_all c : K (LClass c) → keeps all (createClass env c).
Proof. intros Hv. apply storeCall_log. intros w Hw. case_match; [done|]. by apply log_all. Qed.
Lemma callDriver_all c : (∀ a, K (LCall c a)) → keeps all (callDriver env c).
Proof.
  intros Hc. apply external_log. intros n w Hw. cbn.
  assert (all (log (LCall c (e_answer env n c)) w)) by by apply log_all. by case_match.
Qed.
Lemma event_all level ns name reason : K (LEvent level ns name reason) → keeps all (modify (log (LEvent level ns name reason))).
Proof. intros. apply keeps_modify. intros. by apply log_all. Qed.

Lemma updateStatus_all vol status reason :
  (∀ t, K (LVolume (with_v_status vol status reason t))) → (∀ l ns name r, K (LEvent l ns name r)) →
  keeps all (updateStatus env vol status reason).
Proof.
  intros Hv He. unfold updateStatus. keep; [by apply putVolume_all|by apply event_all].
Qed.
End Entries.

(** ** A quiet environment: no failures of the store, no other writers *)

Class Quiet (env : env) : Prop := {
  quiet_fault n : e_fault env n = false;
  quiet_others n d t : e_others env n d t = (d, t);
}.

(** The answers of the drivers, in order. *)
Definition answers (l : list entry) : list (option string) := omap (λ x, match x with LCall _ a => Some a | _ => None end) l.

Definition ticked (w : world) : world := mkWorld (w_db w) (w_tables w) (w_log w) (S (w_tick w)).

Section QuietCalls.
Context (url_Parse : string → option (string * string)) (PathUnescape : string → string).
Context (ParseMemory : string → option Z) (env : env) `{!Quiet env} (opts : Options).

Lemma storeCall_quiet {A} (f : world → world * option A) w : storeCall env f w = f (ticked w).
Proof. unfold storeCall, external, ticked. by rewrite quiet_others, quiet_fault. Qed.

Lemma callDriver_quiet c w :
  callDriver env c w = (log (LCall c (e_answer env (w_tick w) c)) (ticked w), e_answer env (w_tick w) c).
Proof. unfold callDriver, external, ticked. by rewrite quiet_others. Qed.

(** What a status write leaves alone. *)
Definition frame (w w' : world) : Prop :=
  d_classes (w_db w') = d_classes (w_db w) ∧ t_retries (w_tables w') = t_retries (w_tables w) ∧
  t_retryTimers (w_tables w') = t_retryTimers (w_tables w) ∧ t_stopped (w_tables w') = t_stopped (w_tables w) ∧
  answers (w_log w') = answers (w_log w).

Lemma updateStatus_quiet vol status reason w :
  is_Some (d_volumes (w_db w) !! (v_Namespace vol, v_Name vol)) →
  ∃ w' t, let v := with_v_status vol status reason t in
    updateStatus env vol status reason w = (w', Some v) ∧ frame w w' ∧
    d_volumes (w_db w') = <[(v_Namespace vol, v_Name vol) := v]> (d_volumes (w_db w)).
Proof.
  intros [r Hr]. unfold updateStatus, now, gets, putVolume, markSelfUpdate, modify, mbind, prog_bind. cbv beta iota.
  rewrite storeCall_quiet. cbn. rewrite Hr. cbn.
  case_bool_decide; cbn; eexists _, _; (split; [reflexivity|]); (split; [|done]); unfold frame; cbn; repeat split;
    unfold answers; rewrite !omap_app; cbn; by rewrite ?app_nil_r.
Qed.

Lemma resolveStorageClass_quiet vol class w :
  (if bool_decide (v_StorageClassName vol = "") then the_default (sortedClasses (d_classes (w_db w))) = Some class
   else sc_Name class = v_StorageClassName vol) →
  d_classes (w_db w) !! sc_Name class = Some class →
  ∃ n, resolveStorageClass env vol w = (mkWorld (w_db w) (w_tables w) (w_log w) n, Some class).
Proof.
  intros H1 H2. unfold resolveStorageClass, findDefaultStorageClass, getClass, listClasses.
  case_bool_decide; unfold mbind, prog_bind; rewrite ?storeCall_quiet; cbn; [rewrite H1; cbn|]; rewrite storeCall_quiet; cbn.
  - rewrite H2. by eexists.
  - rewrite <-H1, H2. by eexists.
Qed.
End QuietCalls.

(** ** Properties of the volume controller

    Whatever the environment does, storage is destroyed only on a deletion that
    asks for it, and a volume is shown as available only with the handle its
    driver just returned.  In a quiet environment provisioning settles within
    its budget of attempts, and enforcement leaves one default class. *)

Section Safety.
Context (url_Parse : string → option (string * string)) (PathUnescape : string → string).
Context (ParseMemory : string → option Z) (env : env) (opts : Options).

#[local] Abbreviation run_step := (runStep url_Parse PathUnescape ParseMemory env opts).
#[local] Abbreviation run := (runs url_Parse PathUnescape ParseMemory env opts).

(** ** Reclaim *)

(** A deletion that asks for its storage to be destroyed. *)
Definition asked (steps : list step) (d : string) (ctx : OpContext) (h : string) : Prop :=
  ∃ ns name vol, SEvent (mkVolumeEvent WatchEventDeleted ns name (Some vol)) ∈ steps ∧
    v_Handle vol = h ∧ h ≠ "" ∧ v_ReclaimPolicy vol = ReclaimPolicyDelete ∧ oc_Volume ctx = Some vol ∧
    (∃ class, oc_StorageClass ctx = Some class ∧ sc_Driver class = d) ∧
    (o_PreserveOnDelete opts = true → d ≠ "local").

Definition deletes_asked (steps : list step) (x : entry) : Prop :=
  match x with LCall (CDelete d ctx h) _ => asked steps d ctx h | _ => True end.

#[local] Abbreviation kept steps := (logged (Forall (deletes_asked steps))).

Lemma updateStatus_kept steps vol status reason : keeps (kept steps) (updateStatus env vol status reason).
Proof. by apply updateStatus_all. Qed.
#[local] Hint Resolve updateStatus_kept : rune.

Lemma handleProvisionFail_kept steps vol : keeps (kept steps) (handleProvisionFail env opts vol).
Proof. unfold handleProvisionFail. keep. Qed.
#[local] Hint Resolve handleProvisionFail_kept : rune.

Lemma callDriver_kept steps c : (∀ a, deletes_asked steps (LCall c a)) → keeps (kept steps) (callDriver env c).
Proof. apply callDriver_all. Qed.

Lemma resolveStorageClass_kept steps vol : keeps (kept steps) (resolveStorageClass env vol).
Proof. unfold resolveStorageClass, findDefaultStorageClass. keep. Qed.
#[local] Hint Resolve resolveStorageClass_kept : rune.

Lemma restoreFromSnapshot_kept steps vol class merged ref :
  keeps (kept steps) (restoreFromSnapshot url_Parse PathUnescape ParseMemory env vol class merged ref).
Proof. unfold restoreFromSnapshot. keep. by apply callDriver_kept. Qed.
#[local] Hint Resolve restoreFromSnapshot_kept : rune.

Lemma reconcile_kept steps vol : keeps (kept steps) (reconcile url_Parse PathUnescape ParseMemory env opts vol).
Proof.
  unfold reconcile, provision, markFailed. keep. by apply callDriver_kept.
Qed.
#[local] Hint Resolve reconcile_kept : rune.

Lemma handleDeleted_kept steps ns name vol :
  SEvent (mkVolumeEvent WatchEventDeleted ns name (Some vol)) ∈ steps →
  keeps (kept steps) (handleDeleted url_Parse PathUnescape env opts vol).
Proof.
  intros Hin. unfold handleDeleted. keep; bools; try done.
  apply callDriver_kept. intros ans. cbn. exists ns, name, vol.
  match goal with H : context [match ?c with Some _ => _ | None => "" end] |- _ => destruct c as [class|]; [|done] end.
  repeat split; try done; [by eexists|]. intros Hp Hd. by rewrite Hp, bool_decide_true in E2.
Qed.

Lemma setDefault_kept steps b c : keeps (kept steps) (setDefault env b c).
Proof. unfold setDefault. keep. by apply putClass_all. Qed.
#[local] Hint Resolve setDefault_kept : rune.

Lemma enforce_kept steps keepname : keeps (kept steps) (enforceDefaultStorageClassUniqueness env keepname).
Proof. unfold enforceDefaultStorageClassUniqueness. keep. Qed.
#[local] Hint Resolve enforce_kept : rune.

Lemma boot_kept steps : keeps (kept steps) (boot env opts).
Proof.
  unfold boot, seedBuiltInStorageClasses, applyDefaultStorageClassConfig. keep. by apply createClass_all.
Qed.

Lemma runStep_kept steps s : s ∈ steps → keeps (kept steps) (run_step s).
Proof.
  intros Hin. destruct s as [|[ty ns name vol]|key|[ty name c]|]; cbn.
  - apply boot_kept.
  - unfold runEvent, handle. cbn. keep. by eapply handleDeleted_kept.
  - unfold fireTimer, retryProvision. keep.
  - unfold runStorageClassEvent. keep.
  - apply tables_log.
Qed.

(** C8: In any environment, with any interleaving and any failures, the driver is
    asked to destroy storage only while handling the deletion of a volume whose
    own policy is "delete", with that volume's handle, through the driver of its
    storage class, and never for local volumes when they are to be preserved. *)
Theorem reclaim_only_when_asked steps w d ctx h a :
  w_log w = [] → LCall (CDelete d ctx h) a ∈ w_log (run steps w).1 → asked steps d ctx h.
Proof.
  intros Hw Hin. assert (Hk : kept steps (run steps w).1).
  { apply keeps_state; [|unfold logged; by rewrite Hw]. apply keeps_each. intros s Hs. by apply runStep_kept. }
  exact (proj1 (Forall_forall _ _) Hk _ Hin).
Qed.

(** ** Available volumes *)

(** What backs a row written as available: the call just before it. *)
Definition backed (before : list entry) (v : Volume) : Prop :=
  ∃ l c class ctx, before = l ++ [LCall c (Some (v_Handle v))] ∧
    oc_StorageClass ctx = Some class ∧ (v_StorageClassName v = "" → sc_Name class = "") ∧
    (∃ u, oc_Volume ctx = Some u ∧ v_ID u = v_ID v ∧ v_Namespace u = v_Namespace v ∧ v_Name u = v_Name v) ∧
    ((∃ size, c = CProvision (sc_Driver class) ctx size ∧
        v_DriverParameters v = mergeParameters (sc_Parameters class) (v_Parameters v)) ∨
     (∃ snap size, c = CRestore (sc_Driver class) ctx snap size ∧ sn_Phase snap = SnapshotPhaseReady)).

Definition all_backed (l : list entry) : Prop :=
  ∀ l1 v l2, l = l1 ++ LVolume v :: l2 → v_Status v = VolumeStatusAvailable → backed l1 v.

Lemma all_backed_snoc l x : all_backed l → (∀ v, x = LVolume v → v_Status v = VolumeStatusAvailable → backed l v) → all_backed (l ++ [x]).
Proof.
  intros Hl Hx l1 v l2 E Hs. destruct l2 as [|y l2 _] using rev_ind.
  - apply app_inj_tail in E as [-> ->]. by apply Hx.
  - rewrite app_comm_cons, app_assoc in E. apply app_inj_tail in E as [-> _]. by eapply Hl.
Qed.

#[local] Abbreviation sound := (logged all_backed).

Lemma log_sound x w : (∀ v, x = LVolume v → v_Status v = VolumeStatusAvailable → backed (w_log w) v) → sound w → sound (log x w).
Proof. intros Hx Hw. by apply all_backed_snoc. Qed.

Lemma event_sound level ns name reason : keeps sound (modify (log (LEvent level ns name reason))).
Proof. apply keeps_modify. intros w. by apply log_sound. Qed.

Lemma putVolume_sound v P :
  (∀ l, P l → v_Status v = VolumeStatusAvailable → backed l v) →
  post (λ w, sound w ∧ P (w_log w)) (putVolume env v) (λ _, sound) sound.
Proof.
  intros HP w [Hw Hp]. unfold putVolume, storeCall, external. destruct (e_others _ _ _ _). destruct (e_fault _ _); [done|].
  cbn. destruct (d_volumes _ !! _); [|done]. apply log_sound; [|done]. intros v' [= <-]. by apply HP.
Qed.

(** [P] is about the log before the write. *)
Lemma updateStatus_sound vol status reason P :
  (∀ l t, P l → status = VolumeStatusAvailable → backed l (with_v_status vol status reason t)) →
  post (λ w, sound w ∧ P (w_log w)) (updateStatus env vol status reason)
    (λ v w, sound w ∧ ∃ t, v = with_v_status vol status reason t) sound.
Proof.
  intros HP. unfold updateStatus.
  eapply post_bind with (R := λ _ w, sound w ∧ P (w_log w)); [by apply post_gets|intros t].
  eapply post_bind with (R := λ _ w, sound w ∧ P (w_log w)); [by apply post_modify|intros _].
  eapply post_bind with (R := λ _, sound); [by apply putVolume_sound; eauto|intros _].
  eapply post_bind with (R := λ _, sound); [|intros []; apply post_ret; by eauto].
  case_bool_decide; [by apply keeps_ret|apply event_sound].
Qed.

Lemma updateStatus_other vol status reason :
  status ≠ VolumeStatusAvailable → keeps sound (updateStatus env vol status reason).
Proof.
  intros Hs. eapply post_weaken; [by apply (updateStatus_sound vol status reason (λ _, True))|done|by intros ?? [? _]|done].
Qed.

Lemma handleProvisionFail_sound vol : keeps sound (handleProvisionFail env opts vol).
Proof. unfold handleProvisionFail. keep; by apply updateStatus_other. Qed.
#[local] Hint Resolve handleProvisionFail_sound : rune.

Lemma markFailed_sound vol reason : keeps sound (markFailed env vol reason).
Proof. unfold markFailed. keep. by apply updateStatus_other. Qed.
#[local] Hint Resolve markFailed_sound : rune.

Lemma callDriver_sound c :
  post sound (callDriver env c) (λ h w, sound w ∧ ∃ l, w_log w = l ++ [LCall c (Some h)]) sound.
Proof.
  apply external_log. intros n w Hw. cbn.
  assert (sound (log (LCall c (e_answer env n c)) w)) by by apply log_sound.
  destruct (e_answer env n c); [|done]. split; [done|]. by eexists.
Qed.

Lemma callDriver_keeps c : keeps sound (callDriver env c).
Proof. eapply post_weaken; [apply callDriver_sound|done|by intros ?? [? _]|done]. Qed.

Lemma resolveStorageClass_sound vol : keeps sound (resolveStorageClass env vol).
Proof. unfold resolveStorageClass, findDefaultStorageClass. keep. Qed.
#[local] Hint Resolve resolveStorageClass_sound : rune.

(** A restore ends with the driver's answer on a snapshot that was ready. *)
Lemma restoreFromSnapshot_sound vol class merged ref :
  post sound (restoreFromSnapshot url_Parse PathUnescape ParseMemory env vol class merged ref)
    (λ h w, sound w ∧ ∃ l ps snap size, sn_Phase snap = SnapshotPhaseReady ∧
       w_log w = l ++ [LCall (CRestore (sc_Driver class) (mkOpContext (Some class) (Some vol) ps) snap size) (Some h)]) sound.
Proof.
  unfold restoreFromSnapshot. destruct (splitNamespacedRef ref) as [ns name].
  eapply post_bind; [apply keeps_guard|intros []]. eapply post_bind; [apply getSnapshot_log|intros snap].
  eapply post_bind with (R := λ _ w, sound w ∧ sn_Phase snap = SnapshotPhaseReady).
  { apply post_guard; intros Hb w Hw; [by apply bool_decide_eq_true_1 in Hb|done]. }
  intros []. eapply post_bind with (R := λ _ w, sound w ∧ sn_Phase snap = SnapshotPhaseReady); [apply post_guard; tauto|intros []].
  eapply post_bind with (R := λ _ w, sound w ∧ sn_Phase snap = SnapshotPhaseReady); [apply post_from; tauto|intros size].
  eapply post_bind with (R := λ _ w, sound w ∧ sn_Phase snap = SnapshotPhaseReady).
  { intros w Hw. unfold resolveParams. destruct (Resolve _ _ _ _ _); tauto. }
  intros ps w [Hw Hs]. pose proof (callDriver_sound (CRestore (sc_Driver class) (mkOpContext (Some class) (Some vol) ps) snap size) w Hw) as Hc.
  destruct (callDriver _ _ w) as [w' [h|]]; [|done]. destruct Hc as [Hw' [l Hl]]. split; [done|]. by exists l, ps, snap, size.
Qed.

(** [provision] once the row says [Provisioning]. *)
Lemma available_sound vol h dp l0 :
  (∀ t, backed l0 (with_v_status (with_v_handle vol h dp) VolumeStatusAvailable "" t)) →
  post (λ w, sound w ∧ w_log w = l0)
    (clearRetry (volumeKey (v_Namespace vol) (v_Name vol));;
     updateStatus env (with_v_handle vol h dp) VolumeStatusAvailable "";; mret tt) (λ _, sound) sound.
Proof.
  intros Hb. eapply post_bind with (R := λ _ w, sound w ∧ w_log w = l0); [by apply post_modify|intros []].
  eapply post_bind; [apply (updateStatus_sound _ _ _ (λ l, l = l0)); by intros ? t -> _|].
  intros v. by apply post_ret; intros w [? _].
Qed.

Lemma provision_sound vol class :
  (v_StorageClassName vol = "" → sc_Name class = "") →
  keeps sound (provision url_Parse PathUnescape ParseMemory env opts vol class).
Proof.
  intros Hc. unfold provision.
  eapply post_bind with (R := λ v w, sound w ∧ v_ID v = v_ID vol ∧ v_Namespace v = v_Namespace vol ∧ v_Name v = v_Name vol ∧
    v_StorageClassName v = v_StorageClassName vol ∧ v_Parameters v = v_Parameters vol).
  { case_bool_decide; [by apply post_ret|].
    eapply post_weaken; [by apply (updateStatus_sound vol _ _ (λ _, True))|done| |done]. by intros v w [? [t ->]]. }
  intros v. apply post_pure. intros (Hid & Hns & Hname & Hcls & Hps). rewrite <-Hns, <-Hname. cbv zeta.
  destruct (negb _).
  - eapply post_bind with (R := λ h w, sound w ∧ ∀ h', h = Some h' → ∃ l ps snap size, sn_Phase snap = SnapshotPhaseReady ∧
      w_log w = l ++ [LCall (CRestore (sc_Driver class) (mkOpContext (Some class) (Some v) ps) snap size) (Some h')]).
    { apply post_try. eapply post_weaken; [apply restoreFromSnapshot_sound|done| |by split].
      intros h w [Hw Hl]. split; [done|]. by intros ? [= <-]. }
    intros [h|]; [|eapply post_weaken; [apply handleProvisionFail_sound|by intros ? [? _]|done..]].
    intros w [Hw Hl]. destruct (Hl h eq_refl) as (l & ps & snap & size & Hr & E).
    refine (available_sound v h _ (w_log w) _ w (conj Hw eq_refl)). intros t. rewrite E.
    exists l, (CRestore (sc_Driver class) (mkOpContext (Some class) (Some v) ps) snap size), class, (mkOpContext (Some class) (Some v) ps).
    cbn. rewrite Hcls. repeat split; try done; [by exists v|]. right. by exists snap, size.
  - destruct (volumeSizeBytes _ _) as [size|]; [|apply markFailed_sound].
    eapply post_bind; [apply keeps_try; auto with rune|]. intros [ps|]; [|apply markFailed_sound].
    eapply post_bind with (R := λ h w, sound w ∧ ∀ h', h = Some h' → ∃ l,
      w_log w = l ++ [LCall (CProvision (sc_Driver class) (mkOpContext (Some class) (Some v) ps) size) (Some h')]).
    { apply post_try. eapply post_weaken; [apply callDriver_sound|done| |by split].
      intros h w [Hw Hl]. split; [done|]. by intros ? [= <-]. }
    intros [h|]; [|eapply post_weaken; [apply handleProvisionFail_sound|by intros ? [? _]|done..]].
    intros w [Hw Hl]. destruct (Hl h eq_refl) as [l E].
    refine (available_sound v h _ (w_log w) _ w (conj Hw eq_refl)). intros t. rewrite E.
    exists l, (CProvision (sc_Driver class) (mkOpContext (Some class) (Some v) ps) size), class, (mkOpContext (Some class) (Some v) ps).
    cbn. rewrite Hcls, Hps. repeat split; try done; [by exists v|]. left. by exists size.
Qed.

Lemma reconcile_sound vol : keeps sound (reconcile url_Parse PathUnescape ParseMemory env opts vol).
Proof.
  unfold reconcile. keep.
  apply provision_sound. clear E. by case_bool_decide.
Qed.

Lemma runStep_sound s : keeps sound (run_step s).
Proof.
  assert (Hset : ∀ b c, keeps sound (setDefault env b c)).
  { intros b c. unfold setDefault. keep. apply storeCall_log. intros w Hw. case_match; [|done]. by apply log_sound. }
  assert (Henf : ∀ k, keeps sound (enforceDefaultStorageClassUniqueness env k)).
  { intros k. unfold enforceDefaultStorageClassUniqueness. keep. }
  pose proof reconcile_sound as Hrec.
  destruct s as [|[ty ns name vol]|key|[ty name c]|]; cbn.
  - unfold boot, seedBuiltInStorageClasses, applyDefaultStorageClassConfig. keep.
    apply storeCall_log. intros w Hw. case_match; [done|]. by apply log_sound.
  - unfold runEvent, handle, handleDeleted. cbn. keep. apply callDriver_keeps.
  - unfold fireTimer, retryProvision. keep.
  - unfold runStorageClassEvent. keep.
  - apply tables_log.
Qed.

(** In any environment, a row the controller writes as available carries the
    handle that the driver of its storage class returned in the call just before,
    made for this very volume: a provision, whose merged parameters the row then
    records, or a restore from a snapshot that was ready. *)
Theorem available_is_backed steps w l1 v l2 :
  w_log w = [] → w_log (run steps w).1 = l1 ++ LVolume v :: l2 → v_Status v = VolumeStatusAvailable → backed l1 v.
Proof.
  intros Hw E Hs. assert (Hk : sound (run steps w).1).
  { apply keeps_state; [|unfold logged; rewrite Hw; by intros [|] ?? ?]. apply keeps_each. intros s _. apply runStep_sound. }
  by eapply Hk.
Qed.
End Safety.

(** ** Provisioning settles within its budget

    A fresh volume in a quiet environment, whatever its driver answers: the
    controller asks at most [MaxProvisionAttempts] times, and ends with the
    volume available under the first handle it gets, or stalled. *)

Section Settles.
Context (url_Parse : string → option (string * string)) (PathUnescape : string → string).
Context (ParseMemory : string → option Z) (env : env) `{!Quiet env} (opts : Options).
Context (v0 : Volume) (class : StorageClass) (size : Z).

#[local] Abbreviation ns := (v_Namespace v0).
#[local] Abbreviation name := (v_Name v0).
#[local] Abbreviation key := (volumeKey (v_Namespace v0) (v_Name v0)).
#[local] Abbreviation maxn := (o_MaxProvisionAttempts opts).
#[local] Abbreviation merged := (mergeParameters (sc_Parameters class) (v_Parameters v0)).
#[local] Abbreviation timer w := (t_retryTimers (w_tables w) !! key).
#[local] Abbreviation row w := (d_volumes (w_db w) !! (ns, name)).

(** The volume and its class ask for a plain provision that can be attempted. *)
Record provisionable : Prop := {
  pr_size : volumeSizeBytes ParseMemory v0 = Some size;
  pr_restore : default "" (merged !! RestoreFromSnapshotParam) = "";
  pr_params w : ∃ ps, resolveParams url_Parse PathUnescape env merged ns w = (w, Some ps);
  pr_driver n : e_driver env n (sc_Driver class) = true;
}.

Definition same_spec (r : Volume) : Prop :=
  v_Namespace r = ns ∧ v_Name r = name ∧ v_Size r = v_Size v0 ∧ v_Parameters r = v_Parameters v0.

Definition outcome (k : Z) (a : option string) (r : Volume) (w : world) : Prop :=
  match a with
  | Some h => v_Status r = VolumeStatusAvailable ∧ v_Handle r = h ∧ timer w = None
  | None =>
      if maxn <=? k + 1 then v_Status r = VolumeStatusStalled ∧ timer w = None
      else v_Status r = VolumeStatusFailed ∧ t_retries (w_tables w) !! key = Some (k + 1) ∧
           timer w = Some (ns, name, backoffFor opts (k + 1))
  end.

(** The world after one more attempt. *)
Definition attempted (k : Z) (w w' : world) : Prop :=
  ∃ a r, answers (w_log w') = answers (w_log w) ++ [a] ∧ d_classes (w_db w') = d_classes (w_db w) ∧
    t_stopped (w_tables w') = t_stopped (w_tables w) ∧ row w' = Some r ∧ same_spec r ∧
    v_StorageClassName r = sc_Name class ∧ outcome k a r w'.

Lemma handleProvisionFail_quiet vol w k :
  same_spec vol → v_StorageClassName vol = sc_Name class → is_Some (row w) → default 0 (t_retries (w_tables w) !! key) = k →
  ∃ w' r, handleProvisionFail env opts vol w = (w', Some tt) ∧ answers (w_log w') = answers (w_log w) ∧
    d_classes (w_db w') = d_classes (w_db w) ∧ t_stopped (w_tables w') = t_stopped (w_tables w) ∧
    row w' = Some r ∧ same_spec r ∧ v_StorageClassName r = sc_Name class ∧ outcome k None r w'.
Proof.
  intros (Hns & Hname & Hsz & Hps) Hc Hrow Hk. unfold handleProvisionFail, outcome. rewrite Hns, Hname.
  unfold mbind at 1, prog_bind, gets. rewrite Hk. destruct (maxn <=? k + 1).
  - unfold clearRetry, modify, mbind, prog_bind. cbv beta iota.
    edestruct (updateStatus_quiet env vol VolumeStatusStalled "ProvisionRetriesExhausted") as (w' & t & -> & (F1 & F2 & F3 & F4 & F5) & Hv);
      [by rewrite Hns, Hname|]. eexists w', _. rewrite F1, F3, F4, F5, Hv, Hns, Hname. cbn. rewrite lookup_insert_eq, lookup_delete_eq.
    by repeat split.
  - unfold modify, mbind, prog_bind. cbv beta iota.
    edestruct (updateStatus_quiet env vol VolumeStatusFailed "ProvisionFailedWillRetry") as (w' & t & -> & (F1 & F2 & F3 & F4 & F5) & Hv);
      [by rewrite Hns, Hname|]. eexists w', _. rewrite F1, F2, F3, F4, F5, Hv, Hns, Hname. cbn. rewrite !lookup_insert_eq.
    by repeat split.
Qed.

Lemma provision_quiet vol w k :
  provisionable → same_spec vol → v_StorageClassName vol = sc_Name class → is_Some (row w) →
  default 0 (t_retries (w_tables w) !! key) = k →
  ∃ w', provision url_Parse PathUnescape ParseMemory env opts vol class w = (w', Some tt) ∧ attempted k w w'.
Proof.
  intros Hp (Hns & Hname & Hsz & Hps) Hc Hrow Hk. unfold provision. rewrite Hps.
  assert (∃ v w1, same_spec v ∧ v_StorageClassName v = sc_Name class ∧ is_Some (row w1) ∧ frame w w1 ∧
    (if bool_decide (v_Status vol = VolumeStatusProvisioning) then mret vol
     else updateStatus env vol VolumeStatusProvisioning "") w = (w1, Some v)) as (v & w1 & Hv & Hvc & Hrow1 & HF & E).
  { case_bool_decide; [by exists vol, w; repeat split|].
    edestruct (updateStatus_quiet env vol VolumeStatusProvisioning "") as (w1 & t & E & HF & Hv); [by rewrite Hns, Hname|].
    rewrite Hns, Hname in Hv. eexists _, w1. rewrite Hv, lookup_insert_eq. split; [|split; [|split; [|split; [exact HF|exact E]]]]; done. }
  unfold mbind at 1, prog_bind at 1. rewrite E. clear E. cbv zeta. rewrite (pr_restore Hp). cbn [bool_decide negb].
  rewrite bool_decide_true by done. cbn [negb]. destruct Hv as (Hvns & Hvname & Hvs & Hvp).
  replace (volumeSizeBytes ParseMemory v) with (volumeSizeBytes ParseMemory v0) by (unfold volumeSizeBytes; by rewrite Hvs).
  rewrite (pr_size Hp), Hvns. destruct (pr_params Hp w1) as [ps Eps].
  unfold mbind at 1, prog_bind at 1, try at 1. rewrite Eps. unfold mbind at 1, prog_bind at 1, try.
  rewrite callDriver_quiet by done. destruct HF as (F1 & F2 & F3 & F4 & F5).
  destruct (e_answer _ _ _) as [h|] eqn:Ea; cbv beta iota.
  - unfold clearRetry, modify, mbind, prog_bind. cbv beta iota.
    edestruct (updateStatus_quiet env (with_v_handle v h merged) VolumeStatusAvailable "") as (w' & t & -> & (G1 & G2 & G3 & G4 & G5) & Hv);
      [cbn; by rewrite Hvns, Hvname|]. exists w'. split; [done|]. eexists (Some h), _.
    rewrite G1, G4, G5, Hv. cbn. rewrite Hvns, Hvname, lookup_insert_eq. unfold answers. rewrite omap_app. fold (answers (w_log w1)).
    cbn. rewrite F1, F4, F5, G3, Hns, Hname. cbn. rewrite lookup_delete_eq. by repeat split.
  - match goal with |- context [handleProvisionFail _ _ _ ?w2] =>
      destruct (handleProvisionFail_quiet v w2 k) as (w' & r & -> & Q1 & Q2 & Q3 & Q4 & Q5 & Q6 & Q7) end;
      [done|done|done|cbn; by rewrite F2|]. exists w'. split; [done|]. exists None, r. rewrite Q1, Q2, Q3. cbn. unfold answers. rewrite omap_app.
    fold (answers (w_log w1)). cbn. rewrite F1, F4, F5. by split_and!.
Qed.

(** A failed attempt is on record and its timer is set. *)
Definition pending (k : Z) (w : world) : Prop :=
  t_stopped (w_tables w) = false ∧ d_classes (w_db w) !! sc_Name class = Some class ∧
  t_retries (w_tables w) !! key = Some k ∧ timer w = Some (ns, name, backoffFor opts k) ∧
  ∃ r, row w = Some r ∧ same_spec r ∧ v_StorageClassName r = sc_Name class ∧ v_Status r = VolumeStatusFailed.

#[local] Abbreviation fire := (fireTimer url_Parse PathUnescape ParseMemory env opts key).

Lemma reconcile_quiet vol w k :
  provisionable → same_spec vol → sc_Name class ≠ "" →
  (if bool_decide (v_StorageClassName vol = "") then the_default (sortedClasses (d_classes (w_db w))) = Some class
   else sc_Name class = v_StorageClassName vol) →
  d_classes (w_db w) !! sc_Name class = Some class → is_Some (row w) →
  (v_Status vol = VolumeStatusPending ∧ k = 0 ∨
   v_Status vol = VolumeStatusProvisioning ∧ default 0 (t_retries (w_tables w) !! key) = k) →
  ∃ w', reconcile url_Parse PathUnescape ParseMemory env opts vol w = (w', Some tt) ∧ attempted k w w'.
Proof.
  intros Hp Hs Hne Hcls Hclass Hrow Hst. pose proof Hs as (Hns & Hname & _ & _).
  unfold reconcile. rewrite Hns, Hname.
  assert (∃ w1, (if bool_decide (v_Status vol = "") || bool_decide (v_Status vol = VolumeStatusPending) then clearRetry key else mret tt) w = (w1, Some tt) ∧
    w_db w1 = w_db w ∧ w_log w1 = w_log w ∧ t_stopped (w_tables w1) = t_stopped (w_tables w) ∧
    default 0 (t_retries (w_tables w1) !! key) = k ∧
    negb (bool_decide (v_Status vol = "") || bool_decide (v_Status vol = VolumeStatusPending)) &&
      negb (bool_decide (v_Status vol = VolumeStatusProvisioning)) = false) as (w1 & E & Hdb & Hlog & Hstop & Hk & ->).
  { destruct Hst as [[-> ->]|[-> <-]]; cbn; eexists; (split; [reflexivity|]); cbn; by rewrite ?lookup_delete_eq. }
  unfold mbind at 1, prog_bind at 1. rewrite E. unfold mbind at 1, prog_bind at 1, try at 1. rewrite <-Hdb in Hcls, Hclass, Hrow.
  destruct (resolveStorageClass_quiet env vol class w1 Hcls Hclass) as [n ->]. cbv beta iota zeta.
  unfold mbind at 1, prog_bind at 1, try at 1, driverFor.
  set (vol' := if bool_decide _ then with_v_class _ _ else _).
  assert (same_spec vol' ∧ v_StorageClassName vol' = sc_Name class) as [Hs' Hc'].
  { subst vol'. destruct (bool_decide _); split; try done. }
  assert (∀ w2, w_db w2 = w_db w1 → w_log w2 = w_log w1 → t_stopped (w_tables w2) = t_stopped (w_tables w1) →
    t_retries (w_tables w2) = t_retries (w_tables w1) →
    ∃ w', provision url_Parse PathUnescape ParseMemory env opts vol' class w2 = (w', Some tt) ∧ attempted k w w') as Hgo.
  { intros w2 D L S R. destruct (provision_quiet vol' w2 k) as (w' & -> & a & r & A); [done|done|done|by rewrite D|by rewrite R|].
    exists w'. split; [done|]. exists a, r. by rewrite <-Hlog, <-Hdb, <-Hstop, <-L, <-D, <-S. }
  clear E Hcls. cbn. case_bool_decide; [by apply Hgo|]. rewrite (pr_driver Hp). by apply Hgo.
Qed.

Lemma fire_pending k w :
  provisionable → sc_Name class ≠ "" → pending k w → ∃ w', fire w = (w', Some tt) ∧ attempted k w w'.
Proof.
  intros Hp Hne (Hstop & Hclass & Hret & Ht & r & Hrow & Hs & Hc & Hst).
  unfold fireTimer. unfold mbind at 1, prog_bind at 1, gets. rewrite Ht. unfold mbind at 1, prog_bind at 1, try.
  unfold retryProvision. unfold mbind at 1, prog_bind at 1, gets. rewrite Hstop.
  unfold mbind at 1, prog_bind at 1, modify. unfold mbind at 1, prog_bind at 1, getVolume.
  rewrite storeCall_quiet by done. cbn. rewrite Hrow, Hst, bool_decide_true by done. cbn.
  edestruct (reconcile_quiet (with_v_status r VolumeStatusProvisioning (v_StatusReason r) (v_UpdatedAt r))) as (w' & -> & a & r' & A);
    [done|done|done|cbn; by rewrite Hc, bool_decide_false|done|done|right; cbn; by rewrite Hret|].
  exists w'. split; [done|]. by exists a, r'.
Qed.

Definition settled (base : list (option string)) (w : world) : Prop :=
  timer w = None ∧ ∃ r, row w = Some r ∧
    ((∃ j h, answers (w_log w) = base ++ replicate j None ++ [Some h] ∧ Z.of_nat j < maxn ∧
        v_Status r = VolumeStatusAvailable ∧ v_Handle r = h) ∨
     (answers (w_log w) = base ++ replicate (Z.to_nat maxn) None ∧ v_Status r = VolumeStatusStalled)).

Definition turns (n : nat) (w : world) : world := Nat.iter n (λ w, (fire w).1) w.

Lemma turns_S n w : turns (S n) w = turns n (fire w).1.
Proof. unfold turns. induction n as [|n IH]; [done|]. cbn in *. by rewrite IH. Qed.

Lemma turns_settled base n w : settled base w → turns n w = w.
Proof.
  intros [Ht _]. induction n as [|n IH]; [done|]. rewrite turns_S.
  unfold fireTimer, mbind, prog_bind, gets. rewrite Ht. cbn. exact IH.
Qed.

Lemma attempted_next base k w w' :
  0 ≤ k < maxn → answers (w_log w) = base ++ replicate (Z.to_nat k) None →
  d_classes (w_db w) !! sc_Name class = Some class → t_stopped (w_tables w) = false → attempted k w w' →
  settled base w' ∨ (k + 1 < maxn ∧ pending (k + 1) w' ∧ answers (w_log w') = base ++ replicate (Z.to_nat (k + 1)) None).
Proof.
  intros Hk Hb Hclass Hstop (a & r & A1 & A2 & A3 & A4 & A5 & A6 & A7). rewrite Hb in A1. unfold outcome in A7.
  assert (Hrep : replicate (Z.to_nat k) (@None string) ++ [None] = replicate (Z.to_nat (k + 1)) None).
  { rewrite <-replicate_S_end. f_equal. lia. }
  destruct a as [h|].
  - left. destruct A7 as (? & ? & ?). split; [done|]. exists r. split; [done|]. left. exists (Z.to_nat k), h.
    rewrite A1, <-app_assoc. split_and!; [done|lia|done..].
  - rewrite <-app_assoc, Hrep in A1. destruct (Z.leb_spec maxn (k + 1)).
    + left. destruct A7 as (? & ?). split; [done|]. exists r. split; [done|]. right. split; [|done].
      rewrite A1. do 2 f_equal. lia.
    + right. destruct A7 as (? & ? & ?). split; [lia|]. split; [|done]. unfold pending. rewrite A2, A3. split_and!; try done. by exists r.
Qed.

Lemma turns_settle n base k w :
  provisionable → sc_Name class ≠ "" → 0 < k < maxn → maxn ≤ k + Z.of_nat n → pending k w →
  answers (w_log w) = base ++ replicate (Z.to_nat k) None → settled base (turns n w).
Proof.
  intros Hp Hne. revert k w. induction n as [|n IH]; intros k w Hk Hn Hw Hb; [lia|].
  rewrite turns_S. destruct (fire_pending k w Hp Hne Hw) as (w' & -> & Ha).
  pose proof Hw as (Hstop & Hclass & _).
  edestruct (attempted_next base k w w') as [Hset|(? & Hp' & Hb')]; [lia|done..| |].
  - by rewrite (turns_settled base).
  - apply (IH (k + 1)); [lia|lia|done|done].
Qed.

(** The controller takes notice of the event. *)
Definition noticed (ty : WatchEventType) (w : world) : Prop :=
  ty = WatchEventCreated ∨ (ty = WatchEventUpdated ∧ key ∉ t_internalUpdates (w_tables w)).

(** C9: A volume that is created as pending, or set back to pending, settles when
    it can be provisioned at all and nobody interferes.  The first is
    [provisionable]: its size parses, its parameters merged with its class's ask
    for no restore and resolve, and the class's driver is present; the class is
    the one it names, or the default, and exists.  The second is [Quiet] (no
    store call fails and nobody else writes), a controller that is not stopped,
    and an event the controller does not take for its own write ([noticed]).
    Then the driver is asked to provision at most [MaxProvisionAttempts] times
    (once for the event and once per timer), whatever it answers; the row ends
    available with the first handle the driver returns, or stalled after that
    many refusals; and no timer is left. *)
Theorem provisioning_settles n ty w :
  provisionable → sc_Name class ≠ "" → 0 < maxn ≤ Z.of_nat n + 1 → v_Status v0 = VolumeStatusPending →
  (if bool_decide (v_StorageClassName v0 = "") then the_default (sortedClasses (d_classes (w_db w))) = Some class
   else sc_Name class = v_StorageClassName v0) →
  d_classes (w_db w) !! sc_Name class = Some class → row w = Some v0 → t_stopped (w_tables w) = false → noticed ty w →
  let event := SEvent (mkVolumeEvent ty ns name (Some v0)) in
  settled (answers (w_log w)) (turns n (runStep url_Parse PathUnescape ParseMemory env opts event w).1).
Proof.
  intros Hp Hne Hmax Hst Hcls Hclass Hrow Hstop Hty event.
  destruct (reconcile_quiet v0 w 0) as (w' & E & Ha); [done|done|done|done|done|by rewrite Hrow|by left|].
  assert ((runStep url_Parse PathUnescape ParseMemory env opts event w).1 = w') as ->.
  { cbv [event runStep runEvent mbind prog_bind isSelfUpdate try handle ev_Type ev_Volume ev_Namespace ev_Name].
    destruct Hty as [->|[-> Hm]]; [by rewrite E|]. by rewrite bool_decide_false, E. }
  edestruct (attempted_next (answers (w_log w)) 0 w w') as [Hset|(? & Hp' & Hb')]; [lia|by rewrite app_nil_r|done..| |].
  - by rewrite (turns_settled _ _ _ Hset).
  - apply (turns_settle n _ 1); [done|done|lia|lia|done|done].
Qed.
End Settles.

(** ** The default storage class

    Enforcement leaves exactly one marked class and touches nothing but the mark;
    which one is the named class, or the latest updated.  Booting re-creates a
    deleted built-in class and hands it the mark. *)

(** Records are filed under their own names. *)
Definition filed (m : gmap string StorageClass) : Prop := ∀ n c, m !! n = Some c → sc_Name c = n.

Lemma elem_of_sortedClasses m c : filed m → c ∈ sortedClasses m ↔ m !! sc_Name c = Some c.
Proof.
  intros Hf. unfold sortedClasses. rewrite elem_of_SliceStable, list_elem_of_fmap. split.
  - intros ([n c'] & -> & Hin%elem_of_map_to_list). cbn. by rewrite (Hf _ _ Hin).
  - intros H. exists (sc_Name c, c). split; [done|]. by apply elem_of_map_to_list.
Qed.

Lemma NoDup_sortedClasses m : filed m → NoDup (sc_Name <$> sortedClasses m).
Proof.
  intros Hf. unfold sortedClasses. rewrite (SliceStable_perm _ _). rewrite <-list_fmap_compose.
  replace ((sc_Name ∘ snd) <$> map_to_list m) with ((map_to_list m).*1); [apply NoDup_fst_map_to_list|].
  apply list_fmap_ext. intros i [n c] H%list_elem_of_lookup_2%elem_of_map_to_list. cbn. symmetry. by apply Hf.
Qed.

(** [n] names a marked class of [m]. *)
Definition marked (m : gmap string StorageClass) (n : string) : Prop := ∃ c, m !! n = Some c ∧ sc_Default c = true.

Definition unmarked_only (m m' : gmap string StorageClass) : Prop :=
  ∀ n, m' !! n = m !! n ∨ ∃ c t, m !! n = Some c ∧ m' !! n = Some (with_sc_Default c false t).

Section Defaults.
Context (env : env) `{!Quiet env} (opts : Options).

#[local] Abbreviation classes w := (d_classes (w_db w)).

Lemma setDefault_quiet b c w :
  is_Some (classes w !! sc_Name c) →
  ∃ w' t, setDefault env b c w = (w', Some tt) ∧ t = e_now env (w_tick w) ∧ classes w' = <[sc_Name c := with_sc_Default c b t]> (classes w).
Proof.
  intros [r Hr]. unfold setDefault, now, gets, markSelfStorageClassUpdate, modify, putClass, mbind, prog_bind.
  cbv beta iota. rewrite storeCall_quiet by done. cbn. rewrite Hr. by eexists _, _.
Qed.

(** The demotion loop over classes that are in the store. *)
Lemma demote_quiet winner ds w :
  NoDup (sc_Name <$> ds) → (∀ c, c ∈ ds → classes w !! sc_Name c = Some c) →
  ∃ w', each (λ c, if bool_decide (sc_Name c = winner) then mret tt else setDefault env false c) ds w = (w', Some tt) ∧
    ∀ n, (classes w' !! n = classes w !! n ∧ (n = winner ∨ n ∉ sc_Name <$> ds)) ∨
         (∃ c t, c ∈ ds ∧ sc_Name c = n ∧ n ≠ winner ∧ classes w' !! n = Some (with_sc_Default c false t)).
Proof.
  revert w. induction ds as [|c ds IH]; intros w Hnd Hin; [exists w; split; [done|]; left; split; [done|]; right; apply not_elem_of_nil|].
  cbn in Hnd. apply NoDup_cons in Hnd as [Hc Hnd]. cbn [each]. unfold mbind at 1, prog_bind at 1.
  assert (∃ w1, (if bool_decide (sc_Name c = winner) then mret tt else setDefault env false c) w = (w1, Some tt) ∧
    ((sc_Name c = winner ∧ classes w1 = classes w) ∨
     (sc_Name c ≠ winner ∧ ∃ t, classes w1 = <[sc_Name c := with_sc_Default c false t]> (classes w)))) as (w1 & -> & Hw1).
  { case_bool_decide; [exists w; tauto|]. destruct (setDefault_quiet false c w) as (w1 & t & -> & _ & Hw1); [by rewrite Hin by left|].
    exists w1. split; [done|]. right. eauto. }
  destruct (IH w1 Hnd) as (w' & -> & H).
  { intros d Hd. destruct Hw1 as [[_ ->]|[_ [t ->]]]; [apply Hin; by right|]. rewrite lookup_insert_ne; [apply Hin; by right|].
    intros E. apply Hc. rewrite E. by apply list_elem_of_fmap_2. }
  exists w'. split; [done|]. intros n. destruct (H n) as [[E Hn]|(d & t & Hd & <- & Hne & E)]; [|right; exists d, t; by rewrite elem_of_cons; auto].
  destruct (decide (sc_Name c = n)) as [<-|Hcn].
  - destruct Hw1 as [[Hwin Hw1]|[Hne [t Hw1]]].
    + left. rewrite Hw1 in E. by auto.
    + right. exists c, t. rewrite E, Hw1, lookup_insert_eq, elem_of_cons. auto.
  - left. rewrite E. split; [destruct Hw1 as [[_ ->]|[_ [t ->]]]; by rewrite ?lookup_insert_ne by done|].
    destruct Hn as [?|Hn]; [by left|]. right. cbn. rewrite elem_of_cons. intros [?|?]; [by subst|done].
Qed.

(** [latest] picks from the list, and nothing in the list comes before it. *)
Definition precedes (a b : StorageClass) : Prop :=
  sc_UpdatedAt b < sc_UpdatedAt a ∨ (sc_UpdatedAt a = sc_UpdatedAt b ∧ String.ltb (sc_Name a) (sc_Name b) = true).

Lemma latest_spec ds acc :
  (ds ≠ [] ∨ acc ≠ None) →
  ∃ c, fold_left latest ds acc = Some c ∧ (c ∈ ds ∨ acc = Some c) ∧ ∀ d, d ∈ ds ∨ acc = Some d → ¬ precedes d c.
Proof.
  assert (Hirr : ∀ c, ¬ precedes c c).
  { intros c [?|[_ H]]; [lia|]. pose proof (string_ltb_asym _ _ H). congruence. }
  assert (Htr : ∀ a b c, ¬ precedes a b → ¬ precedes b c → ¬ precedes a c).
  { unfold precedes. intros a b c H1 H2 H3.
    assert (sc_UpdatedAt a ≤ sc_UpdatedAt b) by (apply Z.nlt_ge; tauto).
    assert (sc_UpdatedAt b ≤ sc_UpdatedAt c) by (apply Z.nlt_ge; tauto).
    destruct H3 as [|[Hu H']]; [lia|]. assert (sc_UpdatedAt a = sc_UpdatedAt b ∧ sc_UpdatedAt b = sc_UpdatedAt c) as [? ?] by lia.
    destruct (String.ltb (sc_Name a) (sc_Name b)) eqn:Hab; [tauto|]. destruct (String.ltb (sc_Name b) (sc_Name c)) eqn:Hbc; [tauto|].
    pose proof (string_ltb_negtrans _ _ _ Hab Hbc). congruence. }
  revert acc. induction ds as [|x ds IH]; intros acc Hne.
  - destruct acc as [c|]; [|by destruct Hne]. exists c. split; [done|]. split; [by right|].
    intros d [?%elem_of_nil|[= ->]]; [done|apply Hirr].
  - cbn. destruct (IH (latest acc x)) as (c & E & Hc & Hmin).
    { right. unfold latest. by destruct acc; [case_match|]. }
    exists c. split; [done|]. unfold latest in *. destruct acc as [a|].
    + destruct (After _ _ || _) eqn:Hx.
      * split; [left; rewrite elem_of_cons; naive_solver|]. intros d [Hd|[= ->]]; [apply Hmin; apply elem_of_cons in Hd; naive_solver|].
        apply (Htr d x); [|by apply Hmin; right]. unfold precedes, After in *. intros Hp.
        apply orb_true_iff in Hx as [Hx|Hx]; [apply Z.ltb_lt in Hx; destruct Hp as [|[]]; lia|].
        apply andb_true_iff in Hx as [Hx1%Z.eqb_eq Hx2]. destruct Hp as [?|[_ Hp]]; [lia|].
        pose proof (string_ltb_asym _ _ Hp). congruence.
      * split; [destruct Hc; [left; by right|by right]|]. intros d [Hd|Hd]; [|by apply Hmin; right]. apply elem_of_cons in Hd as [->|Hd]; [|by apply Hmin; left].
        apply (Htr x a); [|by apply Hmin; right]. unfold precedes, After in *. apply orb_false_iff in Hx as [Hx1 Hx2].
        apply Z.ltb_ge in Hx1. intros [?|[Heq Hp]]; [lia|]. rewrite Heq, Z.eqb_refl, Hp in Hx2. done.
    + split; [left; rewrite elem_of_cons; naive_solver|]. intros d [Hd|Hd]; [|done]. apply Hmin. apply elem_of_cons in Hd. naive_solver.
Qed.

Lemma precedes_total a b : ¬ precedes a b → ¬ precedes b a → sc_Name a = sc_Name b.
Proof.
  unfold precedes. intros H1 H2. assert (sc_UpdatedAt a = sc_UpdatedAt b) as E by lia.
  apply string_ltb_total; apply not_true_is_false; auto.
Qed.

(** The marked class no other marked class comes before. *)
Definition first (m : gmap string StorageClass) (n : string) : Prop :=
  ∃ c, m !! n = Some c ∧ sc_Default c = true ∧ ∀ d, m !! sc_Name d = Some d → sc_Default d = true → ¬ precedes d c.

#[local] Abbreviation defaults w := (List.filter sc_Default (sortedClasses (classes w))).

Lemma elem_of_defaults w c : filed (classes w) → c ∈ defaults w ↔ classes w !! sc_Name c = Some c ∧ sc_Default c = true.
Proof. intros Hf. rewrite elem_of_filterb, elem_of_sortedClasses by done. tauto. Qed.

(** The winner of several marked classes is one of them, and the right one. *)
Lemma winnerOf_spec keep w :
  filed (classes w) → (keep = "" ∨ marked (classes w) keep) → (1 < length (defaults w))%nat →
  marked (classes w) (winnerOf keep (defaults w)) ∧
  ∀ n, n = winnerOf keep (defaults w) ↔ if bool_decide (keep = "") then first (classes w) n else n = keep.
Proof.
  intros Hf Hk Hlen. unfold winnerOf. case_bool_decide; [|by destruct Hk].
  destruct (latest_spec (defaults w) None) as (c & -> & Hc & Hmin); [left; by destruct (defaults w); cbn in *; [lia|]|].
  destruct Hc as [Hc|]; [|done]. apply elem_of_defaults in Hc as [Hc Hd]; [|done].
  assert (Hmin' : ∀ d, classes w !! sc_Name d = Some d → sc_Default d = true → ¬ precedes d c).
  { intros d H1 H2. apply Hmin. left. by apply elem_of_defaults. }
  split; [by exists c|]. intros n. split.
  - intros ->. by exists c.
  - intros (c' & Hc' & Hd' & Hmin2). pose proof (Hf _ _ Hc') as <-.
    apply precedes_total; [by apply Hmin'|by apply Hmin2].
Qed.

Lemma enforce_quiet keep w :
  enforceDefaultStorageClassUniqueness env keep w =
  if bool_decide (length (defaults w) ≤ 1)%nat then (ticked w, Some tt)
  else each (λ c, if bool_decide (sc_Name c = winnerOf keep (defaults w)) then mret tt else setDefault env false c) (defaults w) (ticked w).
Proof.
  unfold enforceDefaultStorageClassUniqueness, listClasses, mbind, prog_bind. rewrite storeCall_quiet by done. cbn -[each].
  by destruct (bool_decide _).
Qed.

(** When the store answers, enforcing the single default class leaves exactly
    one class marked: the named one, or without a name the latest updated, ties
    by name.  Every other marked class loses the mark, and nothing else of any
    class changes. *)
Theorem one_default_class keep w :
  filed (classes w) → (keep = "" ∨ marked (classes w) keep) →
  let w' := (enforceDefaultStorageClassUniqueness env keep w).1 in
  unmarked_only (classes w) (classes w') ∧
  ∀ n, marked (classes w') n ↔ if bool_decide (keep = "") then first (classes w) n else n = keep.
Proof.
  intros Hf Hk. rewrite enforce_quiet. case_bool_decide as Hlen; cbn -[each].
  - split; [by left|]. intros n.
    assert (Huniq : ∀ c d, c ∈ defaults w → d ∈ defaults w → c = d).
    { intros c d Hc Hd. destruct (defaults w) as [|x [|]]; cbn in *; [by apply elem_of_nil in Hc| |lia].
      apply list_elem_of_singleton in Hc, Hd. congruence. }
    case_bool_decide as Hke.
    + split.
      * intros (c & Hc & Hd). exists c. split_and!; [done..|]. intros d Hd1 Hd2.
        assert (c = d) as -> by (apply Huniq; rewrite elem_of_defaults by done; [by rewrite (Hf _ _ Hc)|done]).
        unfold precedes. intros [|[_ H]]; [lia|]. pose proof (string_ltb_asym _ _ H). congruence.
      * intros (c & Hc & Hd & _). by exists c.
    + destruct Hk as [|(k & Hk & Hkd)]; [done|]. split.
      * intros (c & Hc & Hd). rewrite <-(Hf _ _ Hc), <-(Hf _ _ Hk). f_equal.
        apply Huniq; rewrite elem_of_defaults by done; [by rewrite (Hf _ _ Hc)|by rewrite (Hf _ _ Hk)].
      * intros ->. by exists k.
  - destruct (winnerOf_spec keep w) as [Hw Hwin]; [done|done|cbn in Hlen; lia|].
    destruct (demote_quiet (winnerOf keep (defaults w)) (defaults w) (ticked w)) as (w' & E & H).
    { by apply NoDup_fmap_filterb, NoDup_sortedClasses. }
    { intros c Hc. by apply elem_of_defaults in Hc as [? _]. }
    cbn in E. rewrite E. cbn. split.
    + intros n. destruct (H n) as [[-> _]|(c & t & Hc & <- & _ & ->)]; [by left|]. right. exists c, t.
      by apply elem_of_defaults in Hc as [? _].
    + intros n. rewrite <-Hwin. split.
      * intros (c & Hc & Hd). destruct (H n) as [[E' [?|Hn]]|(d & t & _ & _ & _ & E')]; [done| |rewrite E' in Hc; by simplify_eq].
        rewrite E' in Hc. cbn in Hc. destruct Hn. rewrite <-(Hf _ _ Hc). apply list_elem_of_fmap_2.
        apply elem_of_defaults; [done|]. by rewrite (Hf _ _ Hc).
      * intros ->. destruct (H (winnerOf keep (defaults w))) as [[E' _]|(d & t & _ & _ & ? & _)]; [|done].
        destruct Hw as (c & Hc & Hd). exists c. by rewrite E'.
Qed.

(** A name that is not marked unmarks every class, when there are several. *)
Theorem unmarked_name_clears_all keep w :
  filed (classes w) → keep ≠ "" → ¬ marked (classes w) keep → (1 < length (defaults w))%nat →
  ∀ n, ¬ marked (classes (enforceDefaultStorageClassUniqueness env keep w).1) n.
Proof.
  intros Hf Hne Hk Hlen n. rewrite enforce_quiet, bool_decide_false by lia.
  unfold winnerOf. rewrite bool_decide_false by done.
  destruct (demote_quiet keep (defaults w) (ticked w)) as (w' & E & H).
  { by apply NoDup_fmap_filterb, NoDup_sortedClasses. }
  { intros c Hc. by apply elem_of_defaults in Hc as [? _]. }
  cbn in E. rewrite E. cbn. intros (c & Hc & Hd).
  destruct (H n) as [[E' [->|Hn]]|(d & t & _ & _ & _ & E')]; [|rewrite E' in Hc..].
  - apply Hk. exists c. by rewrite E' in Hc.
  - cbn in Hc. destruct Hn. rewrite <-(Hf _ _ Hc). apply list_elem_of_fmap_2. apply elem_of_defaults; [done|]. by rewrite (Hf _ _ Hc).
  - by simplify_eq.
Qed.

(** ** Booting *)

#[local] Abbreviation built_in t := (mkStorageClass "local" "local" ∅ ReclaimPolicyRetain true t t).
#[local] Abbreviation built_in_host t := (mkStorageClass "local-host" "local-host" ∅ ReclaimPolicyRetain false t t).

(** Seeding with "local" gone. *)
Lemma seed_quiet w :
  classes w !! "local" = None →
  ∃ w', seedBuiltInStorageClasses env w = (w', Some tt) ∧
    classes w' = (match classes w !! "local-host" with
                  | Some _ => <["local" := built_in (e_now env (w_tick w))]> (classes w)
                  | None => <["local-host" := built_in_host (e_now env (w_tick w))]> (<["local" := built_in (e_now env (w_tick w))]> (classes w))
                  end).
Proof.
  intros Hl. unfold seedBuiltInStorageClasses, builtIns, now, gets, each, mbind, prog_bind, try, getClass, createClass.
  cbv beta iota. rewrite storeCall_quiet by done. cbn -[storeCall]. rewrite Hl. rewrite storeCall_quiet by done. cbn -[storeCall]. rewrite Hl.
  rewrite storeCall_quiet by done. cbn -[storeCall]. rewrite lookup_insert_ne by done.
  destruct (classes w !! "local-host") eqn:E; [by eexists|].
  rewrite storeCall_quiet by done. cbn. rewrite lookup_insert_ne, E by done. by eexists.
Qed.

(** A restart gives the default away: when the built-in class "local" was
    deleted and an operator's class is the default, booting without a configured
    default re-creates "local", marked and newer than every other class, and the
    operator's class loses the mark. *)
Theorem boot_takes_default_back w :
  filed (classes w) → o_DefaultStorageClass opts = None → classes w !! "local" = None →
  (∀ n c, classes w !! n = Some c → sc_UpdatedAt c < e_now env (w_tick w)) →
  ∀ n, marked (classes (boot env opts w).1) n ↔ n = "local".
Proof.
  intros Hf Ho Hl Hold n. destruct (seed_quiet w Hl) as (w1 & E & Hw1).
  assert (Hlocal : classes w1 !! "local" = Some (built_in (e_now env (w_tick w)))).
  { rewrite Hw1. case_match; [by rewrite lookup_insert_eq|]. by rewrite lookup_insert_ne, lookup_insert_eq. }
  assert (Hrest : ∀ m c, classes w1 !! m = Some c → m = "local" ∨ (sc_Name c = m ∧ (sc_Default c = true → sc_UpdatedAt c < e_now env (w_tick w)))).
  { intros m c Hm. rewrite Hw1 in Hm. case_match; repeat (apply lookup_insert_Some in Hm as [[<- <-]|[? Hm]]);
      first [by left|by right|right; split; [by apply Hf|intros _; by eapply Hold]]. }
  assert (Hf1 : filed (classes w1)).
  { intros m c Hm. destruct (Hrest m c Hm) as [->|[? _]]; [rewrite Hlocal in Hm; by simplify_eq|done]. }
  unfold boot, applyDefaultStorageClassConfig. rewrite Ho. unfold mbind, prog_bind, try. rewrite E. cbn -[enforceDefaultStorageClassUniqueness].
  destruct (one_default_class "" w1 Hf1) as [_ H]; [by left|]. destruct (enforceDefaultStorageClassUniqueness _ _ w1) as [w2 r]. cbn in *.
  rewrite H. split.
  - intros (c & Hc & Hd & Hmin). destruct (Hrest n c Hc) as [?|[Hn Hlt]]; [done|]. exfalso. specialize (Hlt Hd).
    apply (Hmin (built_in (e_now env (w_tick w)))); [done|done|]. left. cbn. lia.
  - intros ->. eexists. split_and!; [exact Hlocal|done|]. intros d Hd Hdd [Hp|[Hp Hp']]; cbn in *.
    + destruct (Hrest _ _ Hd) as [Hn|[_ Hlt]]; [|specialize (Hlt Hdd); lia]. rewrite Hn, Hlocal in Hd. simplify_eq. cbn in *. lia.
    + destruct (Hrest _ _ Hd) as [Hn|[_ Hlt]]; [|specialize (Hlt Hdd); lia]. rewrite Hn in Hp'. done.
Qed.
End Defaults.

(** ** Delays, reclaim in full, and where handles get lost

    The back-off table; that a deletion which asks for it does destroy the
    storage; and the runs in which a provisioned volume's handle is recorded
    nowhere.  The example world at the end witnesses the theorems of this
    component. *)

(** ** Delays *)

Lemma doublings_min opts n d :
  0 < d → o_ProvisionMaxBackoff opts ≤ 2 ^ 62 →
  Z.min (doublings opts n d) (o_ProvisionMaxBackoff opts) = Z.min (d * 2 ^ Z.of_nat n) (o_ProvisionMaxBackoff opts).
Proof.
  intros Hd Hm. revert d Hd. induction n as [|n IH]; intros d Hd; [cbn; by rewrite Z.mul_1_r|].
  assert (0 < 2 ^ Z.of_nat n) by (apply Z.pow_pos_nonneg; lia).
  cbn [doublings]. rewrite Nat2Z.inj_succ, Z.pow_succ_r by lia. destruct (Z.ltb_spec d (o_ProvisionMaxBackoff opts)).
  - rewrite wrap64_id by (unfold in_int64, int64_min, int64_max; lia). rewrite IH by lia. f_equal. lia.
  - nia.
Qed.

(** The delay before retry [k] is the base delay doubled [k - 1] times, capped;
    the options as [NewController] completes them satisfy the hypotheses. *)
Theorem backoff_doubles opts k :
  0 < o_ProvisionBaseBackoff opts → o_ProvisionMaxBackoff opts ≤ 2 ^ 62 → 1 ≤ k →
  backoffFor opts k = Z.min (o_ProvisionBaseBackoff opts * 2 ^ (k - 1)) (o_ProvisionMaxBackoff opts).
Proof.
  intros Hb Hm Hk. unfold backoffFor. destruct (Z.ltb_spec k 1); [lia|].
  replace (2 ^ (k - 1)) with (2 ^ Z.of_nat (Z.to_nat (k - 1))) by (f_equal; lia).
  rewrite <-doublings_min by done. destruct (Z.ltb_spec (o_ProvisionMaxBackoff opts) (doublings opts (Z.to_nat (k - 1)) (o_ProvisionBaseBackoff opts))); lia.
Qed.

(** ** Reclaim *)
Section Reclaim.
Context (url_Parse : string → option (string * string)) (PathUnescape : string → string).
Context (env : env) `{!Quiet env} (opts : Options).

(** The storage of a deleted volume whose policy is "delete" is destroyed, when
    its class, its driver and its parameters are there and it is not to be
    preserved. *)
Theorem reclaim_happens vol class w :
  v_Handle vol ≠ "" → v_ReclaimPolicy vol = ReclaimPolicyDelete → v_StorageClassName vol ≠ "" →
  d_classes (w_db w) !! v_StorageClassName vol = Some class → sc_Driver class ≠ "" →
  (o_PreserveOnDelete opts = true → sc_Driver class ≠ "local") →
  (∀ n, e_driver env n (sc_Driver class) = true) →
  (∀ w, ∃ ps, resolveParams url_Parse PathUnescape env (mergeParameters (sc_Parameters class) (v_Parameters vol)) (v_Namespace vol) w = (w, Some ps)) →
  ∃ ps a, w_log (handleDeleted url_Parse PathUnescape env opts vol w).1 =
    w_log w ++ [LCall (CDelete (sc_Driver class) (mkOpContext (Some class) (Some vol) ps) (v_Handle vol)) a].
Proof.
  intros Hh Hpol Hn Hc Hd Hpre Hdrv Hps. unfold handleDeleted. rewrite bool_decide_false by done. rewrite (bool_decide_true (v_ReclaimPolicy vol = _)) by done. cbn [negb].
  unfold mbind at 1, prog_bind at 1, try, resolveStorageClass. rewrite bool_decide_false by done.
  unfold mbind at 1, prog_bind at 1, mret, prog_ret, getClass. rewrite storeCall_quiet by done. cbn -[driverFor resolveParams callDriver]. rewrite Hc.
  rewrite bool_decide_false by done.
  assert (o_PreserveOnDelete opts && bool_decide (sc_Driver class = "local") = false) as ->.
  { destruct (o_PreserveOnDelete opts); [|done]. cbn. apply bool_decide_eq_false_2. auto. }
  assert (∀ w, ∃ w', driverFor env (sc_Driver class) w = (w', Some tt) ∧ w_log w' = w_log w) as Hdf.
  { intros w'. unfold driverFor. rewrite Hdrv. case_bool_decide; by eexists. }
  unfold mbind at 1, prog_bind at 1. destruct (Hdf (ticked w)) as (w1 & -> & Hl).
  unfold mbind at 1, prog_bind at 1. destruct (Hps w1) as [ps E]. cbn [reclaimParameters]. rewrite E.
  unfold mbind, prog_bind. rewrite callDriver_quiet by done. cbn in Hl.
  destruct (e_answer _ _ _) eqn:Ea; cbn; rewrite Hl; by eexists _, _.
Qed.

(** A volume that asks for its storage to be destroyed keeps it when its class
    was deleted first: no driver is called, whatever parameters the volume
    recorded when it was provisioned. *)
Theorem missing_class_keeps_storage vol w :
  v_StorageClassName vol ≠ "" → d_classes (w_db w) !! v_StorageClassName vol = None →
  w_log (handleDeleted url_Parse PathUnescape env opts vol w).1 = w_log w.
Proof.
  intros Hn Hc. unfold handleDeleted. case_bool_decide; [done|]. case_bool_decide; [|done]. cbn [negb].
  unfold mbind, prog_bind, try, resolveStorageClass. rewrite bool_decide_false by done.
  unfold mbind, prog_bind, mret, prog_ret, getClass. rewrite storeCall_quiet by done. cbn. by rewrite Hc.
Qed.
End Reclaim.

(** ** An example world *)

Definition no_url : string → option (string * string) := λ _, None.
Definition one_k : string → option Z := λ _, Some 1024.

Definition fast_class : StorageClass := mkStorageClass "fast" "do-volume" {["region" := "nyc3"]} ReclaimPolicyRetain true 10 10.
Definition data_volume : Volume :=
  mkVolume "id-1" "data" "prod" "" "1Gi" AccessModeRWO ReclaimPolicyDelete ∅ ∅ "" "" "" "" VolumeStatusPending "" ∅ 10 10.

Definition start : world :=
  mkWorld (mkDb {[("prod", "data") := data_volume]} {["fast" := fast_class]} ∅) (mkTables ∅ ∅ ∅ ∅ ∅ false) [] 0.

(** The driver answers as listed, in the order of the ticks. *)
Definition example_env (fault : nat → bool) (answer : nat → option string) (others : nat → db → tables → db * tables) : env :=
  mkEnv fault (λ n, 100 + Z.of_nat n) (λ n _, answer n) (λ _ _, true) (λ _, true) None others.

Definition alone : nat → db → tables → db * tables := λ _ d t, (d, t).
Definition calm (answer : nat → option string) : env := example_env (λ _, false) answer alone.

#[global] Instance calm_quiet answer : Quiet (calm answer).
Proof. by split. Qed.

Definition stock : Options := NewController (mkOptions None false 0 0 0).
Definition created : step := SEvent (mkVolumeEvent WatchEventCreated "prod" "data" (Some data_volume)).

#[local] Abbreviation go env := (runs no_url id one_k env stock).

(** The row while the driver is asked. *)
Definition in_progress_volume : Volume := with_v_status (with_v_class data_volume "fast") VolumeStatusProvisioning "" 102.
Definition in_progress_context : OpContext := mkOpContext (Some fast_class) (Some in_progress_volume) (sc_Parameters fast_class).

(** A volume that is deleted while its driver provisions it leaves its storage
    behind: the handle is recorded nowhere, and the deletion, which sees no
    handle, asks no driver to destroy it, though the policy is "delete". *)
Theorem delete_during_provision_leaks h :
  let gone := λ n (d : db) (t : tables),
    (if bool_decide (n = 3%nat) then mkDb (delete ("prod", "data") (d_volumes d)) (d_classes d) (d_snapshots d) else d, t) in
  let env := example_env (λ _, false) (λ _, Some h) gone in
  let deleted := SEvent (mkVolumeEvent WatchEventDeleted "prod" "data" (Some in_progress_volume)) in
  v_ReclaimPolicy in_progress_volume = ReclaimPolicyDelete ∧
  d_volumes (w_db (go env [created] start).1) = ∅ ∧
  w_log (go env [created; deleted] start).1 =
    [LVolume in_progress_volume; LEvent EventLevelInfo "prod" "data" ""; LCall (CProvision "do-volume" in_progress_context 1024) (Some h)].
Proof. vm_compute. repeat split. Qed.

Definition updated (v : Volume) : step := SEvent (mkVolumeEvent WatchEventUpdated "prod" "data" (Some v)).

Definition failed_volume : Volume := with_v_status in_progress_volume VolumeStatusFailed "ProvisionFailedWillRetry" 104.
Definition retried_volume : Volume := with_v_status failed_volume VolumeStatusPending "" 200.

(** A retry whose success cannot be written back swallows the operator's next
    retry: the store refuses the write of the handle, the row still says "Failed"
    but no timer is left, and the update that sets it to "Pending" is taken for
    the controller's own and skipped. *)
Theorem lost_write_swallows_retry h :
  let env := example_env (λ n, bool_decide (n = 8%nat)) (λ n, if bool_decide (n = 3%nat) then None else Some h) alone in
  let w := (go env [created; updated in_progress_volume; updated failed_volume; STimer "prod/data"] start).1 in
  let w' := (go env [updated retried_volume] (with_volumes <[("prod", "data") := retried_volume]> w)).1 in
  answers (w_log w) = [None; Some h] ∧ d_volumes (w_db w) = {[("prod", "data") := failed_volume]} ∧
  t_retryTimers (w_tables w) = ∅ ∧
  w_log w' = w_log w ∧ d_volumes (w_db w') = {[("prod", "data") := retried_volume]} ∧ t_retryTimers (w_tables w') = ∅.
Proof. cbv zeta. split_and!; vm_compute; reflexivity. Qed.

(** ** Witnesses *)

Definition used_volume : Volume := with_v_handle (with_v_class data_volume "fast") "vol-1" (sc_Parameters fast_class).
Definition used_context : OpContext := mkOpContext (Some fast_class) (Some used_volume) (sc_Parameters fast_class).
Definition removed : step := SEvent (mkVolumeEvent WatchEventDeleted "prod" "data" (Some used_volume)).

Lemma calm_resolves answer w :
  resolveParams no_url id (calm answer) (sc_Parameters fast_class) "prod" w = (w, Some (sc_Parameters fast_class)).
Proof. vm_compute. reflexivity. Qed.

Lemma reclaim_only_when_asked_witness :
  LCall (CDelete "do-volume" used_context "vol-1") (Some "") ∈ w_log (go (calm (λ _, Some "")) [removed] start).1 ∧
  asked stock [removed] "do-volume" used_context "vol-1".
Proof.
  assert (H : LCall (CDelete "do-volume" used_context "vol-1") (Some "") ∈ w_log (go (calm (λ _, Some "")) [removed] start).1).
  { vm_compute. left. }
  split; [exact H|]. exact (reclaim_only_when_asked no_url id one_k (calm (λ _, Some "")) stock [removed] start _ _ _ _ eq_refl H).
Defined.

Definition available_volume : Volume :=
  with_v_status (with_v_handle in_progress_volume "vol-1" (sc_Parameters fast_class)) VolumeStatusAvailable "" 104.

Lemma available_is_backed_witness :
  backed [LVolume in_progress_volume; LEvent EventLevelInfo "prod" "data" "";
          LCall (CProvision "do-volume" in_progress_context 1024) (Some "vol-1")] available_volume.
Proof.
  apply (available_is_backed no_url id one_k (calm (λ _, Some "vol-1")) stock [created] start _ _
           [LEvent EventLevelInfo "prod" "data" ""]); vm_compute; reflexivity.
Defined.

Lemma provisioning_settles_witness :
  settled stock data_volume []
    (turns no_url id one_k (calm (λ n, if bool_decide (n = 3%nat) then None else Some "vol-1")) stock data_volume 4
       (runStep no_url id one_k (calm (λ n, if bool_decide (n = 3%nat) then None else Some "vol-1")) stock created start).1).
Proof.
  apply (provisioning_settles no_url id one_k (calm (λ n, if bool_decide (n = 3%nat) then None else Some "vol-1")) stock
           data_volume fast_class 1024 4 WatchEventCreated start); [| |split; vm_compute; congruence|reflexivity..|by left].
  - split; [reflexivity|reflexivity| |reflexivity]. intros w. exists (sc_Parameters fast_class). apply calm_resolves.
  - discriminate.
Defined.

Definition two_defaults : world :=
  mkWorld (mkDb ∅ {["fast" := fast_class; "slow" := mkStorageClass "slow" "nfs" ∅ ReclaimPolicyRetain true 5 5]} ∅)
    (mkTables ∅ ∅ ∅ ∅ ∅ false) [] 0.

Lemma two_defaults_filed : filed (d_classes (w_db two_defaults)).
Proof.
  intros n c H. unfold two_defaults in H. cbn [w_db d_classes] in H.
  apply lookup_insert_Some in H as [[<- <-]|[_ H]]; [done|]. by apply lookup_singleton_Some in H as [<- <-].
Qed.

Lemma one_default_class_witness :
  marked (d_classes (w_db (enforceDefaultStorageClassUniqueness (calm (λ _, None)) "slow" two_defaults).1)) "slow" ∧
  ¬ marked (d_classes (w_db (enforceDefaultStorageClassUniqueness (calm (λ _, None)) "slow" two_defaults).1)) "fast".
Proof.
  destruct (one_default_class (calm (λ _, None)) "slow" two_defaults two_defaults_filed) as [_ H]; [right; by eexists|].
  split; [by apply H|]. intros Hf%H. discriminate.
Defined.

Lemma unmarked_name_clears_all_witness :
  ∀ n, ¬ marked (d_classes (w_db (enforceDefaultStorageClassUniqueness (calm (λ _, None)) "gone" two_defaults).1)) n.
Proof.
  apply (unmarked_name_clears_all (calm (λ _, None)) "gone" two_defaults two_defaults_filed); [discriminate| |vm_compute; lia].
  intros (c & Hc & _). discriminate.
Defined.

Lemma boot_takes_default_back_witness :
  marked (d_classes (w_db (boot (calm (λ _, None)) stock start).1)) "local" ∧
  ¬ marked (d_classes (w_db (boot (calm (λ _, None)) stock start).1)) "fast".
Proof.
  pose proof (boot_takes_default_back (calm (λ _, None)) stock start) as H.
  assert (∀ n c, d_classes (w_db start) !! n = Some c → sc_Name c = n ∧ sc_UpdatedAt c = 10) as Hc.
  { intros n c. cbn. by intros [<- <-]%lookup_singleton_Some. }
  specialize (H (λ n c E, proj1 (Hc n c E)) eq_refl eq_refl).
  assert (∀ n c, d_classes (w_db start) !! n = Some c → sc_UpdatedAt c < e_now (calm (λ _, None)) (w_tick start)) as Hold.
  { intros n c E. rewrite (proj2 (Hc n c E)). reflexivity. }
  split; [by apply H|]. intros Hf%H; [discriminate|done].
Defined.

Lemma backoff_doubles_witness : backoffFor stock 3 = 8 * Second ∧ backoffFor stock 9 = 30 * Second.
Proof. split; rewrite backoff_doubles; vm_compute; congruence. Defined.

Lemma reclaim_happens_witness :
  ∃ ps a, w_log (handleDeleted no_url id (calm (λ _, Some "")) stock used_volume start).1 =
    [LCall (CDelete "do-volume" (mkOpContext (Some fast_class) (Some used_volume) ps) "vol-1") a].
Proof.
  apply (reclaim_happens no_url id (calm (λ _, Some "")) stock used_volume fast_class start); try discriminate; try reflexivity.
  intros w. exists (sc_Parameters fast_class). apply calm_resolves.
Defined.

Lemma missing_class_keeps_storage_witness :
  w_log (handleDeleted no_url id (calm (λ _, Some "")) stock used_volume (with_classes (λ _, ∅) start)).1 = [].
Proof.
  apply (missing_class_keeps_storage no_url id (calm (λ _, Some "")) stock used_volume (with_classes (λ _, ∅) start)); [discriminate|reflexivity].
Defined.
