(* ===== verification/Snapshots.v ===== *)
(** * Snapshots (pkg/orchestrator/volume/snapshot_controller.go,
      pkg/api/service/snapshot.go, pkg/store/repos/snapshot.go)

    The controller that takes and deletes snapshots, and the API handlers that
    hand it work.  Both run in the world of Storage; the controller's tables are
    its own, of which it uses the self-update marks and the driver cache.  The
    handlers take the answers of the admission gate and of the namespace check as
    arguments.  Labels, sizes and the scheduled flag are left out. *)

From S2P Require Import Prelude Text Effects Types ResourceStore Authz Names Storage.

#[local] Abbreviation io := (prog world).

Definition with_sn_phase (s : Snapshot) (phase reason : string) (now : Time) : Snapshot :=
  mkSnapshot (sn_ID s) (sn_Name s) (sn_Namespace s) (sn_SourceVolume s) (sn_Driver s) (sn_Handle s) phase reason (sn_CreatedAt s) now.
Definition with_sn_Driver (s : Snapshot) (driver : string) : Snapshot :=
  mkSnapshot (sn_ID s) (sn_Name s) (sn_Namespace s) (sn_SourceVolume s) driver (sn_Handle s) (sn_Phase s) (sn_Reason s) (sn_CreatedAt s) (sn_UpdatedAt s).
Definition with_sn_Handle (s : Snapshot) (handle : string) : Snapshot :=
  mkSnapshot (sn_ID s) (sn_Name s) (sn_Namespace s) (sn_SourceVolume s) (sn_Driver s) handle (sn_Phase s) (sn_Reason s) (sn_CreatedAt s) (sn_UpdatedAt s).

Section Snapshots.
Context (url_Parse : string → option (string * string)) (PathUnescape : string → string).
Context (env : env).

(** ** Store calls *)

Definition putSnapshot (s : Snapshot) : io unit := storeCall env (λ w,
  match d_snapshots (w_db w) !! (sn_Namespace s, sn_Name s) with
  | None => (w, None)
  | Some _ => (log (LSnapshot s) (with_snapshots <[(sn_Namespace s, sn_Name s) := s]> w), Some tt)
  end).

Definition createSnapshotRow (s : Snapshot) : io unit := storeCall env (λ w,
  match d_snapshots (w_db w) !! (sn_Namespace s, sn_Name s) with
  | Some _ => (w, None)
  | None => (log (LSnapshot s) (with_snapshots <[(sn_Namespace s, sn_Name s) := s]> w), Some tt)
  end).

Definition deleteSnapshotRow (ns name : string) : io unit := storeCall env (λ w,
  match d_snapshots (w_db w) !! (ns, name) with
  | None => (w, None)
  | Some _ => (log (LRemoved ns name) (with_snapshots (delete (ns, name)) w), Some tt)
  end).

(** ** The controller *)

Definition markSelfUpdate (s : Snapshot) : io unit :=
  modify (with_tables (with_internalUpdates (λ m, {[volumeKey (sn_Namespace s) (sn_Name s)]} ∪ m))).

Definition updateStatus (s : Snapshot) (phase reason : string) : io Snapshot :=
  t ← now env;
  let s := with_sn_phase s phase reason t in
  markSelfUpdate s;;
  putSnapshot s;;
  mret s.

Definition markFailed (s : Snapshot) (reason : string) : io unit := updateStatus s SnapshotPhaseFailed reason;; mret tt.

Definition removeRow (s : Snapshot) : io unit := deleteSnapshotRow (sn_Namespace s) (sn_Name s).

(** The part of [create] after the driver is found capable. *)
Definition take (s : Snapshot) (src : Volume) (class : StorageClass) : io unit :=
  let s := if bool_decide (sn_Driver s = "") then with_sn_Driver s (sc_Driver class) else s in
  s ← updateStatus s SnapshotPhaseCreating "";
  resolved ← try (resolveParams url_Parse PathUnescape env (mergeParameters (sc_Parameters class) (v_Parameters src)) (v_Namespace src));
  match resolved with
  | None => markFailed s "InvalidParameters"
  | Some resolved =>
      handle ← try (callDriver env (CSnapshot (sc_Driver class) (mkOpContext (Some class) (Some src) resolved) (v_Handle src) s));
      match handle with
      | None => markFailed s "SnapshotFailed"
      | Some h => updateStatus (with_sn_Handle s h) SnapshotPhaseReady "";; mret tt
      end
  end.

Definition create (s : Snapshot) : io unit :=
  src ← try (getVolume env (sn_Namespace s) (sn_SourceVolume s));
  match src with
  | None => markFailed s "SourceVolumeMissing"
  | Some src =>
      if bool_decide (v_Handle src = "") then markFailed s "SourceVolumeNotProvisioned"
      else if bool_decide (v_StorageClassName src = "") then markFailed s "StorageClassMissing"
      else
        class ← try (getClass env (v_StorageClassName src));
        match class with
        | None => markFailed s "StorageClassMissing"
        | Some class =>
            ok ← try (driverFor env (sc_Driver class));
            match ok with
            | None => markFailed s "DriverUnavailable"
            | Some _ => if negb (e_snapshots env (sc_Driver class)) then markFailed s "SnapshotsUnsupported" else take s src class
            end
        end
  end.

(** Missing rows leave the context's class and volume nil. *)
Definition snapshotOpContext (s : Snapshot) : io OpContext :=
  src ← try (getVolume env (sn_Namespace s) (sn_SourceVolume s));
  match src with
  | None => mret (mkOpContext None None ∅)
  | Some src =>
      class ← (if bool_decide (v_StorageClassName src = "") then mret None else try (getClass env (v_StorageClassName src)));
      mret (mkOpContext class (Some src) (reclaimParameters class src))
  end.

Definition delete (s : Snapshot) : io unit :=
  if bool_decide (sn_Handle s = "") || bool_decide (sn_Driver s = "") then removeRow s
  else
    ok ← try (driverFor env (sn_Driver s));
    match ok with
    | None => markFailed s "DriverUnavailable"
    | Some _ =>
        ctx ← snapshotOpContext s;
        resolved ← try (resolveParams url_Parse PathUnescape env (oc_Parameters ctx) (sn_Namespace s));
        match resolved with
        | None => markFailed s "InvalidParameters"
        | Some resolved =>
            r ← try (callDriver env (CDeleteSnapshot (sn_Driver s) (mkOpContext (oc_StorageClass ctx) (oc_Volume ctx) resolved) (sn_Handle s)));
            match r with
            | None => markFailed s "DeleteSnapshotFailed"
            | Some _ => removeRow s
            end
        end
    end.

Definition reconcile (s : Snapshot) : io unit :=
  if bool_decide (sn_Phase s = "") || bool_decide (sn_Phase s = SnapshotPhasePending) then create s
  else if bool_decide (sn_Phase s = SnapshotPhaseDeleting) then delete s
  else mret tt.

Record SnapshotEvent := mkSnapshotEvent {
  se_Type : WatchEventType;
  se_Namespace : string;
  se_Name : string;
  se_Snapshot : option Snapshot;
}.

Definition isSelfUpdate (ev : SnapshotEvent) : io bool := λ w,
  let key := volumeKey (se_Namespace ev) (se_Name ev) in
  match se_Type ev with
  | WatchEventUpdated =>
      if bool_decide (key ∈ t_internalUpdates (w_tables w))
      then (with_tables (with_internalUpdates (λ m, m ∖ {[key]})) w, Some true) else (w, Some false)
  | _ => (w, Some false)
  end.

Definition handle (ev : SnapshotEvent) : io unit :=
  match se_Type ev with
  | WatchEventCreated | WatchEventUpdated => match se_Snapshot ev with Some s => reconcile s | None => fail end
  | WatchEventDeleted => mret tt
  end.

(** One turn of [run]; errors are logged and dropped. *)
Definition runEvent (ev : SnapshotEvent) : io unit :=
  self ← isSelfUpdate ev;
  if (self : bool) then mret tt else try (handle ev);; mret tt.

(** ** The repository *)

Definition SnapshotRepo_Create (uuid : string) (s : Snapshot) : io Snapshot :=
  guardp (negb (bool_decide (sn_Namespace s = "") || bool_decide (sn_Name s = "") || negb (ValidateDNS1123Name (sn_Name s)) ||
                bool_decide (sn_SourceVolume s = "")));;
  t ← now env;
  let s := mkSnapshot (if bool_decide (sn_ID s = "") then uuid else sn_ID s) (sn_Name s) (sn_Namespace s) (sn_SourceVolume s)
             (sn_Driver s) (sn_Handle s) (if bool_decide (sn_Phase s = "") then SnapshotPhasePending else sn_Phase s) (sn_Reason s)
             (if IsZero (sn_CreatedAt s) then t else sn_CreatedAt s) t in
  createSnapshotRow s;; mret s.

Definition SnapshotRepo_Get (ns name : string) : io Snapshot :=
  guardp (negb (bool_decide (ns = "") || bool_decide (name = "")));; getSnapshot env ns name.

Definition SnapshotRepo_Update (s : Snapshot) : io unit :=
  guardp (negb (bool_decide (sn_Namespace s = "") || bool_decide (sn_Name s = "")));;
  cur ← getSnapshot env (sn_Namespace s) (sn_Name s);
  t ← now env;
  putSnapshot (mkSnapshot (if bool_decide (sn_ID s = "") then sn_ID cur else sn_ID s) (sn_Name s) (sn_Namespace s) (sn_SourceVolume s)
                 (sn_Driver s) (sn_Handle s) (sn_Phase s) (sn_Reason s) (sn_CreatedAt cur) t).

Definition SnapshotRepo_Delete (ns name : string) : io unit :=
  guardp (negb (bool_decide (ns = "") || bool_decide (name = "")));; deleteSnapshotRow ns name.

(** ** The API handlers *)

(** [nsOk]: the namespace check; [caps]: the capabilities of a driver the handler
    can build, [None] when it cannot. *)
Definition CreateSnapshot (nsOk : bool) (caps : string → option bool) (uuid : string) (s : Snapshot) : io Snapshot :=
  let s := mkSnapshot (sn_ID s) (sn_Name s) (NS (sn_Namespace s)) (sn_SourceVolume s) (sn_Driver s) (sn_Handle s) (sn_Phase s)
             (sn_Reason s) 0 0 in
  guardp nsOk;;
  guardp (negb (bool_decide (sn_SourceVolume s = "")));;
  src ← getVolume env (sn_Namespace s) (sn_SourceVolume s);
  s ← (if negb (bool_decide (sn_Driver s = "")) then mret s
       else
         class ← (if bool_decide (v_StorageClassName src = "") then mret None else try (getClass env (v_StorageClassName src)));
         match class with
         | None => mret s
         | Some class =>
             guardp (negb (bool_decide (caps (sc_Driver class) = Some false)));;
             mret (with_sn_Driver s (sc_Driver class))
         end);
  SnapshotRepo_Create uuid s.

Definition DeleteSnapshot (ns name : string) : io unit :=
  guardp (negb (bool_decide (name = "")));;
  s ← SnapshotRepo_Get (NS ns) name;
  if bool_decide (sn_Handle s = "") || bool_decide (sn_Phase s = SnapshotPhasePending) || bool_decide (sn_Phase s = SnapshotPhaseFailed)
  then SnapshotRepo_Delete (NS ns) name
  else SnapshotRepo_Update (with_sn_phase s SnapshotPhaseDeleting "" (sn_UpdatedAt s)).
End Snapshots.
