(* ===== verification/SnapshotProps.v ===== *)
(** * Properties of snapshots

    In any environment the controller drops a snapshot's row only after its
    driver deleted the snapshot, and shows a snapshot as ready only with the
    handle its driver returned.  A snapshot taken and deleted in peace leaves
    nothing behind; two ways through the API break that chain. *)

From S2P Require Import Prelude Text Effects Types ResourceStore Authz Names Storage StorageProps Snapshots.

Section Safety.
Context (url_Parse : string → option (string * string)) (PathUnescape : string → string) (env : env).

#[local] Abbreviation run := (each (runEvent url_Parse PathUnescape env)).

(** Why a row may go: its snapshot was being deleted, and the driver is done with
    it or never had it. *)
Definition deletable (events : list SnapshotEvent) (l : list entry) (ns name : string) : Prop :=
  ∃ ev s, ev ∈ events ∧ se_Snapshot ev = Some s ∧ sn_Namespace s = ns ∧ sn_Name s = name ∧ sn_Phase s = SnapshotPhaseDeleting ∧
    (sn_Handle s = "" ∨ sn_Driver s = "" ∨ ∃ ctx a, LCall (CDeleteSnapshot (sn_Driver s) ctx (sn_Handle s)) (Some a) ∈ l).

(** What shows a row as ready: a snapshot call that returned its handle. *)
Definition taken (l : list entry) (s : Snapshot) : Prop :=
  ∃ d ctx src s', LCall (CSnapshot d ctx (v_Handle src) s') (Some (sn_Handle s)) ∈ l ∧ oc_Volume ctx = Some src ∧ v_Handle src ≠ "" ∧
    sn_Namespace s' = sn_Namespace s ∧ sn_Name s' = sn_Name s ∧ sn_SourceVolume s' = sn_SourceVolume s.

Definition lawful (events : list SnapshotEvent) (l : list entry) : Prop :=
  (∀ ns name, LRemoved ns name ∈ l → deletable events l ns name) ∧
  (∀ s, LSnapshot s ∈ l → sn_Phase s = SnapshotPhaseReady → taken l s).

Lemma lawful_snoc events l x :
  lawful events l →
  (∀ ns name, x = LRemoved ns name → deletable events l ns name) →
  (∀ s, x = LSnapshot s → sn_Phase s = SnapshotPhaseReady → taken l s) → lawful events (l ++ [x]).
Proof.
  intros [H1 H2] Hx1 Hx2. split.
  - intros ns name [Hin|Hin]%elem_of_app.
    + destruct (H1 _ _ Hin) as (ev & s & ? & ? & ? & ? & ? & [?|[?|(ctx & a & ?)]]); exists ev, s; split_and!; auto.
      do 2 right. exists ctx, a. apply elem_of_app. by left.
    + apply list_elem_of_singleton in Hin. destruct (Hx1 ns name) as (ev & s & ? & ? & ? & ? & ? & [?|[?|(ctx & a & ?)]]); [done|..];
        exists ev, s; split_and!; auto. do 2 right. exists ctx, a. apply elem_of_app. by left.
  - intros s Hin Hr. assert (taken l s) as (d & ctx & src & s' & ? & ?).
    { apply elem_of_app in Hin as [?|Hin]; [auto|]. apply list_elem_of_singleton in Hin. auto. }
    exists d, ctx, src, s'. split; [apply elem_of_app; by left|done].
Qed.

#[local] Abbreviation ok events := (logged (lawful events)).

Lemma call_ok events c : keeps (ok events) (callDriver env c).
Proof.
  apply external_log. intros n w Hw. cbn.
  assert (ok events (log (LCall c (e_answer env n c)) w)) by by apply lawful_snoc. by case_match.
Qed.

(** A call whose answer is in the log afterwards. *)
Lemma call_answered events c :
  post (ok events) (callDriver env c) (λ h w, ok events w ∧ LCall c (Some h) ∈ w_log w) (ok events).
Proof.
  apply external_log. intros n w Hw. cbn.
  assert (ok events (log (LCall c (e_answer env n c)) w)) by by apply lawful_snoc.
  destruct (e_answer env n c); [|done]. split; [done|]. cbn. apply elem_of_app. right. by apply list_elem_of_singleton.
Qed.

Lemma putSnapshot_ok events s P :
  (∀ l, P l → sn_Phase s = SnapshotPhaseReady → taken l s) →
  post (λ w, ok events w ∧ P (w_log w)) (putSnapshot env s) (λ _, ok events) (ok events).
Proof.
  intros HP w [Hw Hp]. unfold putSnapshot, storeCall, external. destruct (e_others _ _ _ _). destruct (e_fault _ _); [done|].
  cbn. destruct (d_snapshots _ !! _); [|done]. apply lawful_snoc; [done|done|]. intros s' [= <-]. by apply HP.
Qed.

Lemma updateStatus_ok events s phase reason P :
  (∀ l t, P l → phase = SnapshotPhaseReady → taken l (with_sn_phase s phase reason t)) →
  post (λ w, ok events w ∧ P (w_log w)) (updateStatus env s phase reason)
    (λ s' w, ok events w ∧ ∃ t, s' = with_sn_phase s phase reason t) (ok events).
Proof.
  intros HP. unfold updateStatus.
  eapply post_bind with (R := λ _ w, ok events w ∧ P (w_log w)); [by apply post_gets|intros t].
  eapply post_bind with (R := λ _ w, ok events w ∧ P (w_log w)); [by apply post_modify|intros []].
  eapply post_bind with (R := λ _, ok events); [apply putSnapshot_ok; by eauto|intros []].
  apply post_ret. eauto.
Qed.

Lemma updateStatus_keeps events s phase reason :
  phase ≠ SnapshotPhaseReady →
  post (ok events) (updateStatus env s phase reason) (λ s' w, ok events w ∧ ∃ t, s' = with_sn_phase s phase reason t) (ok events).
Proof. intros Hp. eapply post_weaken; [by apply (updateStatus_ok events s phase reason (λ _, True))|done..]. Qed.

Lemma markFailed_ok events s reason : keeps (ok events) (markFailed env s reason).
Proof.
  eapply post_bind; [by apply updateStatus_keeps|]. intros s'. by apply post_ret; intros w [? _].
Qed.
#[local] Hint Resolve markFailed_ok : rune.

Lemma take_ok events s src class :
  v_Handle src ≠ "" → keeps (ok events) (take url_Parse PathUnescape env s src class).
Proof.
  intros Hh. unfold take. set (s1 := if bool_decide _ then with_sn_Driver _ _ else s).
  eapply post_bind; [by apply updateStatus_keeps|]. intros s2. apply post_pure. intros [t ->].
  eapply post_bind with (R := λ _, ok events); [apply keeps_try; auto with rune|]. intros [ps|]; [|apply markFailed_ok].
  set (c := CSnapshot _ _ _ _).
  eapply post_bind with (R := λ h w, ok events w ∧ ∀ h', h = Some h' → LCall c (Some h') ∈ w_log w).
  { apply post_try. eapply post_weaken; [apply call_answered|done| |by split]. intros h w [? ?]. split; [done|]. by intros ? [= <-]. }
  intros [h|]; [|eapply post_weaken; [apply markFailed_ok|by intros ? [? _]|done..]].
  eapply post_bind; [apply (updateStatus_ok _ _ _ _ (λ l, ∀ h', Some h = Some h' → LCall c (Some h') ∈ l))|].
  - intros l t' Hl _. unfold taken. eexists _, _, src, _. split; [apply Hl; reflexivity|]. subst s1. by destruct (bool_decide _).
  - intros s3. by apply post_ret; intros w [? _].
Qed.

Lemma create_ok events s : keeps (ok events) (create url_Parse PathUnescape env s).
Proof. unfold create. keep. bools. by apply take_ok. Qed.

Lemma deleteSnapshotRow_ok events ns name P :
  (∀ l, P l → deletable events l ns name) →
  post (λ w, ok events w ∧ P (w_log w)) (deleteSnapshotRow env ns name) (λ _, ok events) (ok events).
Proof.
  intros HP w [Hw Hp]. unfold deleteSnapshotRow, storeCall, external. destruct (e_others _ _ _ _). destruct (e_fault _ _); [done|].
  cbn. destruct (d_snapshots _ !! _); [|done]. apply lawful_snoc; [done| |done]. intros ? ? [= <- <-]. by apply HP.
Qed.

Lemma delete_ok events ev s :
  ev ∈ events → se_Snapshot ev = Some s → sn_Phase s = SnapshotPhaseDeleting → keeps (ok events) (delete url_Parse PathUnescape env s).
Proof.
  intros Hev Hs Hp. unfold delete. destruct (_ || _) eqn:Hn.
  { eapply post_weaken; [apply (deleteSnapshotRow_ok events (sn_Namespace s) (sn_Name s) (λ _, True))|done..].
    intros l _. exists ev, s. split_and!; try done. apply orb_true_iff in Hn as [?|?]; bools; auto. }
  eapply post_bind with (R := λ _, ok events); [apply keeps_try; auto with rune|]. intros [[]|]; [|apply markFailed_ok].
  eapply post_bind with (R := λ _, ok events); [unfold snapshotOpContext; keep|intros ctx].
  { apply keeps_bind; [destruct (bool_decide _); keep|keep]. }
  eapply post_bind with (R := λ _, ok events); [apply keeps_try; auto with rune|]. intros [ps|]; [|apply markFailed_ok].
  set (c := CDeleteSnapshot _ _ _).
  eapply post_bind with (R := λ r w, ok events w ∧ ∀ a, r = Some a → LCall c (Some a) ∈ w_log w).
  { apply post_try. eapply post_weaken; [apply call_answered|done| |by split]. intros h w [? ?]. split; [done|]. by intros ? [= <-]. }
  intros [a|]; [|eapply post_weaken; [apply markFailed_ok|by intros ? [? _]|done..]].
  eapply post_weaken; [apply (deleteSnapshotRow_ok events _ _ (λ l, LCall c (Some a) ∈ l))| |done|done].
  - intros l Hl. exists ev, s. split_and!; try done. do 2 right. by eexists _, _.
  - intros w [? H]. split; [done|]. by apply H.
Qed.

Lemma runEvent_ok events ev : ev ∈ events → keeps (ok events) (runEvent url_Parse PathUnescape env ev).
Proof.
  intros Hin. unfold runEvent.
  apply keeps_bind; [intros w Hw; unfold isSelfUpdate; by break|]. intros self. destruct self; [auto with rune|].
  apply keeps_bind; [|auto with rune]. apply keeps_try. unfold handle, reconcile.
  destruct (se_Type ev) eqn:?; [..|auto with rune]; (destruct (se_Snapshot ev) eqn:Hs; [|auto with rune]);
    (destruct (_ || _); [apply create_ok|]); (case_bool_decide; [by eapply delete_ok|auto with rune]).
Qed.

(** In any environment, the controller removes a snapshot's row only while
    handling its deletion, and only after its driver deleted the snapshot under
    its handle (or when it has no handle or driver); and a row it writes as ready
    carries the handle that a driver returned for that snapshot, taken of a
    volume with a handle. *)
Theorem snapshot_rows_lawful events w : w_log w = [] → lawful events (w_log (run events w).1).
Proof.
  intros Hw. apply (keeps_state (ok events)); [|unfold logged; rewrite Hw; split; by intros * ?%elem_of_nil].
  apply keeps_each. intros ev Hev. by apply runEvent_ok.
Qed.
End Safety.

(** ** A life in peace *)
Section Life.
Context (url_Parse : string → option (string * string)) (PathUnescape : string → string) (env : env) `{!Quiet env}.

Definition step_to (s : Snapshot) (w w' : world) : Prop :=
  w_db w' = mkDb (d_volumes (w_db w)) (d_classes (w_db w)) (<[(sn_Namespace s, sn_Name s) := s]> (d_snapshots (w_db w))) ∧
  t_internalUpdates (w_tables w') = {[volumeKey (sn_Namespace s) (sn_Name s)]} ∪ t_internalUpdates (w_tables w) ∧
  w_log w' = w_log w ++ [LSnapshot s].

Lemma snapshotStatus_quiet s phase reason w :
  is_Some (d_snapshots (w_db w) !! (sn_Namespace s, sn_Name s)) →
  ∃ w' t, updateStatus env s phase reason w = (w', Some (with_sn_phase s phase reason t)) ∧ step_to (with_sn_phase s phase reason t) w w'.
Proof.
  intros [r Hr]. unfold updateStatus, now, gets, markSelfUpdate, modify, putSnapshot, mbind, prog_bind. cbv beta iota.
  rewrite storeCall_quiet by done. cbn. rewrite Hr. by eexists _, _.
Qed.

(** The volume, its class and its driver are there and capable. *)
Record sourced (s : Snapshot) (src : Volume) (class : StorageClass) (d : db) : Prop := {
  so_volume : d_volumes d !! (sn_Namespace s, sn_SourceVolume s) = Some src;
  so_handle : v_Handle src ≠ "";
  so_named : v_StorageClassName src ≠ "";
  so_class : d_classes d !! v_StorageClassName src = Some class;
  so_driver n : e_driver env n (sc_Driver class) = true;
  so_named_driver : sc_Driver class ≠ "";
  so_capable : e_snapshots env (sc_Driver class) = true;
  so_params ns w : ∃ ps, resolveParams url_Parse PathUnescape env (mergeParameters (sc_Parameters class) (v_Parameters src)) ns w = (w, Some ps);
}.

Lemma driverFor_quiet name w : (∀ n, e_driver env n name = true) →
  ∃ t, driverFor env name w = (mkWorld (w_db w) t (w_log w) (w_tick w), Some tt) ∧ t_internalUpdates t = t_internalUpdates (w_tables w).
Proof.
  intros H. unfold driverFor. rewrite H. case_bool_decide; [exists (w_tables w); by destruct w|]. by eexists.
Qed.

(** Taking: the row goes through [Creating] to [Ready] with the driver's handle. *)
Lemma create_quiet s src class w :
  sourced s src class (w_db w) → sn_Driver s = "" → d_snapshots (w_db w) !! (sn_Namespace s, sn_Name s) = Some s →
  (∀ n c, is_Some (e_answer env n c)) →
  ∃ w' r s1 c h t, create url_Parse PathUnescape env s w = (w', Some tt) ∧
    r = with_sn_phase (with_sn_Handle s1 h) SnapshotPhaseReady "" t ∧
    sn_Phase s1 = SnapshotPhaseCreating ∧ sn_Driver r = sc_Driver class ∧ sn_Namespace r = sn_Namespace s ∧ sn_Name r = sn_Name s ∧
    sn_SourceVolume r = sn_SourceVolume s ∧ (∃ n, e_answer env n c = Some h) ∧
    w_db w' = mkDb (d_volumes (w_db w)) (d_classes (w_db w)) (<[(sn_Namespace s, sn_Name s) := r]> (d_snapshots (w_db w))) ∧
    t_internalUpdates (w_tables w') = {[volumeKey (sn_Namespace s) (sn_Name s)]} ∪ t_internalUpdates (w_tables w) ∧
    w_log w' = w_log w ++ [LSnapshot s1; LCall c (Some h); LSnapshot r] ∧
    ∃ ctx s2, c = CSnapshot (sc_Driver class) ctx (v_Handle src) s2.
Proof.
  intros H Hd Hrow Hans. unfold create, getVolume, getClass.
  unfold mbind at 1, prog_bind at 1, try at 1. rewrite storeCall_quiet by done. cbn -[storeCall driverFor]. rewrite (so_volume _ _ _ _ H).
  rewrite !bool_decide_false by apply H. unfold mbind at 1, prog_bind at 1, try at 1. rewrite storeCall_quiet by done. cbn -[driverFor]. rewrite (so_class _ _ _ _ H).
  unfold mbind at 1, prog_bind at 1, try at 1.
  destruct (driverFor_quiet (sc_Driver class) (ticked (ticked w)) (so_driver _ _ _ _ H)) as (tb & -> & Htb).
  rewrite (so_capable _ _ _ _ H). cbn [negb]. unfold take. rewrite bool_decide_true by done.
  unfold mbind at 1, prog_bind at 1.
  edestruct (snapshotStatus_quiet (with_sn_Driver s (sc_Driver class)) SnapshotPhaseCreating "") as (w1 & t1 & -> & D1 & M1 & L1); [cbn; by rewrite Hrow|].
  set (s1 := with_sn_phase _ _ _ t1) in *. unfold mbind at 1, prog_bind at 1, try at 1.
  destruct (so_params _ _ _ _ H (v_Namespace src) w1) as [ps ->].
  unfold mbind at 1, prog_bind at 1, try at 1. rewrite callDriver_quiet by done.
  set (c := CSnapshot _ _ _ _). destruct (Hans (w_tick w1) c) as [h Eh]. rewrite Eh. cbv beta iota.
  unfold mbind, prog_bind.
  edestruct (snapshotStatus_quiet (with_sn_Handle s1 h) SnapshotPhaseReady "") as (w2 & t2 & -> & D2 & M2 & L2);
    [cbn; rewrite D1; cbn; by rewrite lookup_insert_eq|].
  eexists w2, _, s1, c, h, t2. split; [done|]. split; [reflexivity|].
  rewrite D2, M2, L2. cbn in *. rewrite D1, M1, L1. cbn. rewrite Htb. cbn. split_and!; try done.
  - by eexists.
  - f_equal. by rewrite insert_insert_eq.
  - set_solver.
  - by rewrite <-!app_assoc.
  - by eexists _, _.
Qed.

(** Deleting: the driver is called with the row's handle, and the row goes. *)
Lemma delete_quiet s src class w :
  sourced s src class (w_db w) → sn_Driver s = sc_Driver class → sn_Handle s ≠ "" →
  is_Some (d_snapshots (w_db w) !! (sn_Namespace s, sn_Name s)) → (∀ n c, is_Some (e_answer env n c)) →
  ∃ w' ctx a, delete url_Parse PathUnescape env s w = (w', Some tt) ∧
    d_snapshots (w_db w') = base.delete (sn_Namespace s, sn_Name s) (d_snapshots (w_db w)) ∧
    w_log w' = w_log w ++ [LCall (CDeleteSnapshot (sc_Driver class) ctx (sn_Handle s)) (Some a); LRemoved (sn_Namespace s) (sn_Name s)].
Proof.
  intros H Hd Hh [r Hrow] Hans. unfold delete. rewrite Hd, !bool_decide_false by (done || apply H). cbn [orb].
  unfold mbind at 1, prog_bind at 1, try at 1.
  destruct (driverFor_quiet (sc_Driver class) w (so_driver _ _ _ _ H)) as (tb & -> & Htb).
  unfold mbind at 1, prog_bind at 1, snapshotOpContext, getVolume, getClass. unfold mbind at 1, prog_bind at 1, try at 1.
  rewrite storeCall_quiet by done. cbn -[storeCall]. rewrite (so_volume _ _ _ _ H).
  rewrite bool_decide_false by apply H. unfold mbind at 1, prog_bind at 1, try at 1. rewrite storeCall_quiet by done. cbn -[removeRow]. rewrite (so_class _ _ _ _ H).
  cbn [reclaimParameters oc_Parameters]. unfold mbind at 1, prog_bind at 1, try at 1.
  match goal with |- context [resolveParams _ _ _ _ _ ?w2] => destruct (so_params _ _ _ _ H (sn_Namespace s) w2) as [ps ->] end.
  unfold mbind at 1, prog_bind at 1, try at 1. rewrite callDriver_quiet by done. cbn -[removeRow].
  set (c := CDeleteSnapshot _ _ _). destruct (Hans (S (S (w_tick w))) c) as [a ->].
  unfold removeRow, deleteSnapshotRow. rewrite storeCall_quiet by done. cbn. rewrite Hrow.
  eexists _, _, a. split; [done|]. cbn. split; [done|]. by rewrite <-app_assoc.
Qed.

Lemma DeleteSnapshot_quiet ns name s w :
  ns ≠ "" → name ≠ "" → d_snapshots (w_db w) !! (ns, name) = Some s → sn_Namespace s = ns → sn_Name s = name →
  sn_Handle s ≠ "" → sn_Phase s = SnapshotPhaseReady →
  ∃ w' r t, DeleteSnapshot env ns name w = (w', Some tt) ∧
    r = mkSnapshot (sn_ID s) name ns (sn_SourceVolume s) (sn_Driver s) (sn_Handle s) SnapshotPhaseDeleting "" (sn_CreatedAt s) t ∧
    w_db w' = mkDb (d_volumes (w_db w)) (d_classes (w_db w)) (<[(ns, name) := r]> (d_snapshots (w_db w))) ∧
    w_tables w' = w_tables w ∧ w_log w' = w_log w ++ [LSnapshot r].
Proof.
  intros Hns Hname Hrow E1 E2 Hh Hp. unfold DeleteSnapshot, SnapshotRepo_Get, SnapshotRepo_Update, NS, getSnapshot.
  rewrite !bool_decide_false by done. cbn [orb negb guardp]. unfold mbind, prog_bind, mret, prog_ret. cbv beta iota.
  rewrite storeCall_quiet by done. cbn -[storeCall]. rewrite Hrow, Hp, bool_decide_false by done. cbn -[storeCall].
  rewrite E1, E2, !bool_decide_false by done. cbn -[storeCall]. rewrite storeCall_quiet by done. cbn -[storeCall]. rewrite Hrow.
  unfold now, gets, putSnapshot. cbn -[storeCall]. rewrite storeCall_quiet by done. cbn. rewrite Hrow.
  eexists _, _, _. split; [reflexivity|]. split; [|done]. f_equal. case_bool_decide; congruence.
Qed.

(** When store and drivers answer, a snapshot of a provisioned volume becomes
    ready with the handle its driver returned; and once the API is asked to delete
    it and the controller has seen the updates in order, its driver has been asked
    to delete exactly that handle and no row is left. *)
Theorem snapshot_lifecycle s src class w :
  sourced s src class (w_db w) → sn_Driver s = "" → sn_Phase s = SnapshotPhasePending → sn_Namespace s ≠ "" → sn_Name s ≠ "" →
  d_snapshots (w_db w) !! (sn_Namespace s, sn_Name s) = Some s →
  (∀ n c, ∃ h, e_answer env n c = Some h ∧ h ≠ "") →
  let ev ty s := mkSnapshotEvent ty (sn_Namespace s) (sn_Name s) (Some s) in
  let run := runEvent url_Parse PathUnescape env in
  ∃ creating ready deleting, sn_Phase ready = SnapshotPhaseReady ∧ sn_Phase deleting = SnapshotPhaseDeleting ∧
    let w' := ((run (ev WatchEventCreated s);; run (ev WatchEventUpdated creating);; run (ev WatchEventUpdated ready);;
                DeleteSnapshot env (sn_Namespace s) (sn_Name s);; run (ev WatchEventUpdated deleting)) w).1 in
    d_snapshots (w_db w') !! (sn_Namespace s, sn_Name s) = None ∧
    ∃ ctx ctx' s' a, w_log w' = w_log w ++
      [LSnapshot creating; LCall (CSnapshot (sc_Driver class) ctx (v_Handle src) s') (Some (sn_Handle ready)); LSnapshot ready;
       LSnapshot deleting; LCall (CDeleteSnapshot (sc_Driver class) ctx' (sn_Handle ready)) (Some a); LRemoved (sn_Namespace s) (sn_Name s)].
Proof.
  intros H Hd Hp Hns Hname Hrow Hans ev run.
  assert (Hans' : ∀ n c, is_Some (e_answer env n c)) by (intros n c; destruct (Hans n c) as (h & -> & _); done).
  destruct (create_quiet s src class w H Hd Hrow Hans') as (w1 & r & s1 & c & h & t & E1 & Hr & Hs1 & Hrd & Hrns & Hrname & Hrs & [n Hn] & D1 & M1 & L1 & ctx & s2 & ->).
  destruct (Hans n (CSnapshot (sc_Driver class) ctx (v_Handle src) s2)) as (h' & Hn' & Hh). rewrite Hn in Hn'. simplify_eq.
  set (r := with_sn_phase _ _ _ t) in *.
  assert (Hrun1 : run (ev WatchEventCreated s) w = (w1, Some tt)).
  { cbv [run ev runEvent mbind prog_bind isSelfUpdate handle reconcile try se_Type se_Snapshot]. rewrite Hp, orb_true_r, E1. done. }
  assert (Hs1n : sn_Namespace s1 = sn_Namespace s ∧ sn_Name s1 = sn_Name s) by done. destruct Hs1n as [Hs1ns Hs1name].
  assert (∃ w2, run (ev WatchEventUpdated s1) w1 = (w2, Some tt) ∧ w_db w2 = w_db w1 ∧ w_log w2 = w_log w1 ∧
    volumeKey (sn_Namespace s) (sn_Name s) ∉ t_internalUpdates (w_tables w2)) as (w2 & Hrun2 & D2 & L2 & M2).
  { cbv [run ev runEvent mbind prog_bind isSelfUpdate se_Type se_Namespace se_Name]. rewrite Hs1ns, Hs1name.
    rewrite bool_decide_true by (rewrite M1; set_solver). eexists. split; [done|]. cbn. split_and!; [done..|]. set_solver. }
  assert (Hrun3 : run (ev WatchEventUpdated r) w2 = (w2, Some tt)).
  { cbv [run ev runEvent mbind prog_bind isSelfUpdate se_Type se_Namespace se_Name]. rewrite Hrns, Hrname.
    rewrite bool_decide_false by done. done. }
  destruct (DeleteSnapshot_quiet (sn_Namespace s) (sn_Name s) r w2) as (w3 & r' & t' & E4 & Hr' & D4 & T4 & L4);
    [done|done|rewrite D2, D1; cbn; by rewrite lookup_insert_eq|done..|].
  destruct (delete_quiet r' src class w3) as (w4 & ctx' & a & E5 & D5 & L5).
  { destruct H. split; try done; subst r'; rewrite D4; cbn; rewrite D2, D1; [|done]. cbn. cbn in Hrs. by rewrite Hrs. }
  { by subst r'. } { by subst r'. } { rewrite D4. subst r'. cbn. by rewrite lookup_insert_eq. } { done. }
  assert (Hrun5 : run (ev WatchEventUpdated r') w3 = (w4, Some tt)).
  { assert (Hr'p : sn_Phase r' = SnapshotPhaseDeleting ∧ sn_Namespace r' = sn_Namespace s ∧ sn_Name r' = sn_Name s) by by subst r'. destruct Hr'p as (Hr'p & Hr'n & Hr'm).
    cbv [run ev runEvent mbind prog_bind isSelfUpdate se_Type se_Namespace se_Name]. rewrite Hr'n, Hr'm, T4, bool_decide_false by done.
    cbv [try handle reconcile se_Type se_Snapshot]. rewrite Hr'p. cbn [bool_decide orb].
    rewrite !bool_decide_false by done. cbn [orb]. rewrite bool_decide_true by done. by rewrite E5. }
  exists s1, r, r'. split; [done|]. split; [by subst r'|].
  unfold mbind, prog_bind. rewrite Hrun1, Hrun2, Hrun3, E4, Hrun5. cbn [fst]. split.
  - rewrite D5. subst r'. cbn. by rewrite lookup_delete_eq.
  - exists ctx, ctx', s2, a. rewrite L5, L4, L2, L1. subst r'. by rewrite <-!app_assoc.
Qed.

(** ** Where the chain breaks *)

(** A snapshot whose deletion failed at the driver is forgotten by the next
    request to delete it: the row goes at once, with its handle, and no driver is
    called. *)
Theorem failed_delete_forgets ns name s w :
  ns ≠ "" → name ≠ "" → d_snapshots (w_db w) !! (ns, name) = Some s → sn_Phase s = SnapshotPhaseFailed →
  d_snapshots (w_db (DeleteSnapshot env ns name w).1) = base.delete (ns, name) (d_snapshots (w_db w)) ∧
  w_log (DeleteSnapshot env ns name w).1 = w_log w ++ [LRemoved ns name].
Proof.
  intros Hns Hname Hrow Hp.
  assert (DeleteSnapshot env ns name w = (log (LRemoved ns name) (with_snapshots (base.delete (ns, name)) (ticked (ticked w))), Some tt)) as ->; [|done].
  unfold DeleteSnapshot, SnapshotRepo_Get, SnapshotRepo_Delete, NS, getSnapshot, deleteSnapshotRow.
  rewrite !bool_decide_false by done. cbn [orb negb guardp]. unfold mbind, prog_bind, mret, prog_ret. cbv beta iota.
  rewrite storeCall_quiet by done. cbn -[storeCall]. rewrite Hrow, Hp, orb_true_r. cbn -[storeCall].
  rewrite storeCall_quiet by done. cbn. by rewrite Hrow.
Qed.
End Life.

(** ** Examples and witnesses *)

Definition stored (s : Snapshot) : world :=
  mkWorld (mkDb {[("prod", "data") := used_volume]} {["fast" := fast_class]} {[("prod", "nightly") := s]}) (mkTables ∅ ∅ ∅ ∅ ∅ false) [] 0.

Definition nightly (driver handle phase : string) : Snapshot := mkSnapshot "sn-1" "nightly" "prod" "data" driver handle phase "" 10 10.

Definition snap_event (ty : WatchEventType) (s : Snapshot) : SnapshotEvent := mkSnapshotEvent ty (sn_Namespace s) (sn_Name s) (Some s).

(** A client that may create snapshots in its own namespace can have a driver
    delete a snapshot it does not own: the handle, driver and phase of the request
    are stored as given, and the deletion that follows calls the driver with them. *)
Theorem forged_snapshot_deletes h :
  let env := calm (λ _, Some "") in
  let forged := nightly "do-volume" h SnapshotPhaseReady in
  let w := (CreateSnapshot env true (λ _, Some true) "uuid" forged (with_snapshots (λ _, ∅) (stored forged))).1 in
  let deleting s := with_sn_phase s SnapshotPhaseDeleting "" 103 in
  h ≠ "" → ∃ row ctx, d_snapshots (w_db w) !! ("prod", "nightly") = Some row ∧
    LCall (CDeleteSnapshot "do-volume" ctx h) (Some "") ∈
      w_log ((DeleteSnapshot env "prod" "nightly";; runEvent no_url id env (snap_event WatchEventUpdated (deleting row))) w).1.
Proof.
  intros env forged w deleting Hh. destruct h as [|c h]; [done|].
  eexists _, (mkOpContext (Some fast_class) (Some used_volume) (sc_Parameters fast_class)). split; [vm_compute; reflexivity|].
  vm_compute. do 2 right. left.
Qed.

Lemma forged_snapshot_deletes_witness :
  ∃ row ctx, d_snapshots (w_db (CreateSnapshot (calm (λ _, Some "")) true (λ _, Some true) "uuid" (nightly "do-volume" "theirs" SnapshotPhaseReady)
      (with_snapshots (λ _, ∅) (stored (nightly "do-volume" "theirs" SnapshotPhaseReady)))).1) !! ("prod", "nightly") = Some row ∧
    LCall (CDeleteSnapshot "do-volume" ctx "theirs") (Some "") ∈
      w_log ((DeleteSnapshot (calm (λ _, Some "")) "prod" "nightly";;
        runEvent no_url id (calm (λ _, Some "")) (snap_event WatchEventUpdated (with_sn_phase row SnapshotPhaseDeleting "" 103)))
        (CreateSnapshot (calm (λ _, Some "")) true (λ _, Some true) "uuid" (nightly "do-volume" "theirs" SnapshotPhaseReady)
          (with_snapshots (λ _, ∅) (stored (nightly "do-volume" "theirs" SnapshotPhaseReady)))).1).1.
Proof. apply (forged_snapshot_deletes "theirs"). discriminate. Defined.

Lemma snapshot_rows_lawful_witness :
  lawful [snap_event WatchEventUpdated (nightly "do-volume" "snap-1" SnapshotPhaseDeleting)]
    (w_log (each (runEvent no_url id (calm (λ _, Some ""))) [snap_event WatchEventUpdated (nightly "do-volume" "snap-1" SnapshotPhaseDeleting)]
              (stored (nightly "do-volume" "snap-1" SnapshotPhaseDeleting))).1).
Proof. apply snapshot_rows_lawful. reflexivity. Defined.

Lemma pending_sourced :
  sourced no_url id (calm (λ _, Some "snap-1")) (nightly "" "" SnapshotPhasePending) used_volume fast_class (w_db (stored (nightly "" "" SnapshotPhasePending))).
Proof.
  split; try done. intros ns w. exists (sc_Parameters fast_class). vm_compute. reflexivity.
Qed.

Lemma snapshot_lifecycle_witness :
  ∃ creating ready deleting : Snapshot, sn_Phase ready = SnapshotPhaseReady ∧ sn_Phase deleting = SnapshotPhaseDeleting.
Proof.
  destruct (snapshot_lifecycle no_url id (calm (λ _, Some "snap-1")) (nightly "" "" SnapshotPhasePending) used_volume fast_class
              (stored (nightly "" "" SnapshotPhasePending)) pending_sourced) as (c & r & d & Hr & Hd & _); try done.
  - intros n c. exists "snap-1". done.
  - by exists c, r, d.
Defined.

Lemma failed_delete_forgets_witness :
  d_snapshots (w_db (DeleteSnapshot (calm (λ _, Some "")) "prod" "nightly" (stored (nightly "do-volume" "snap-1" SnapshotPhaseFailed))).1) =
    base.delete ("prod", "nightly") {[("prod", "nightly") := nightly "do-volume" "snap-1" SnapshotPhaseFailed]}.
Proof.
  apply (failed_delete_forgets (calm (λ _, Some "")) "prod" "nightly" (nightly "do-volume" "snap-1" SnapshotPhaseFailed)
           (stored (nightly "do-volume" "snap-1" SnapshotPhaseFailed))); done.
Defined.
