(* ===== verification/StorageApi.v ===== *)
(** * The storage API (pkg/api/service/{volume,volume_lint,storageclass,snapshot}.go,
      pkg/store/repos/{volume,storageclass}.go)

    The handlers and repositories through which clients write volumes and storage
    classes.  A request carries a [Volume] or [StorageClass]; what has no place on
    the wire is cleared by [protoToVolume].  The namespace check, the admission
    gate, the capabilities of the drivers the server can build, the allowlist of
    host paths and fresh uuids are arguments.  Reading handlers that only copy
    rows out are left out. *)

From S2P Require Import Prelude Text Effects Types ResourceStore Authz Names Storage Snapshots.

#[local] Abbreviation io := (prog world).
#[local] Abbreviation params := (gmap string string).

Definition with_v_bind (v : Volume) (node claim owner status : string) : Volume :=
  mkVolume (v_ID v) (v_Name v) (v_Namespace v) (v_StorageClassName v) (v_Size v) (v_AccessMode v) (v_ReclaimPolicy v)
    (v_Parameters v) (v_DriverParameters v) (v_Handle v) owner node claim status "" (v_InitializedFor v) (v_CreatedAt v) (v_UpdatedAt v).

(** The volume a request describes. *)
Definition protoToVolume (v : Volume) : Volume :=
  mkVolume (v_ID v) (v_Name v) (v_Namespace v) (v_StorageClassName v) (v_Size v) (v_AccessMode v) (v_ReclaimPolicy v)
    (v_Parameters v) ∅ (v_Handle v) (v_OwnerService v) (v_BoundNode v) (v_BoundClaim v) (v_Status v) (v_StatusReason v) ∅ 0 0.

Definition with_v_Namespace (v : Volume) (ns : string) : Volume :=
  mkVolume (v_ID v) (v_Name v) ns (v_StorageClassName v) (v_Size v) (v_AccessMode v) (v_ReclaimPolicy v)
    (v_Parameters v) (v_DriverParameters v) (v_Handle v) (v_OwnerService v) (v_BoundNode v) (v_BoundClaim v) (v_Status v)
    (v_StatusReason v) (v_InitializedFor v) (v_CreatedAt v) (v_UpdatedAt v).

Definition mergeStringMap (base overrides : params) : params := overrides ∪ base.

Definition accessModeSupported (mode : string) (supported : list string) : bool := bool_decide (mode ∈ supported).

(** A missing label reads as the empty string. *)
Definition matchLabels (labels selector : params) : bool :=
  forallb (λ kv, bool_decide (default "" (labels !! kv.1) = kv.2)) (map_to_list selector).

Definition fieldOf (v : Volume) (k : string) : option string :=
  if bool_decide (k = "name") || bool_decide (k = "metadata.name") then Some (v_Name v)
  else if bool_decide (k = "namespace") || bool_decide (k = "metadata.namespace") then Some (v_Namespace v)
  else if bool_decide (k = "status") || bool_decide (k = "status.phase") then Some (v_Status v)
  else if bool_decide (k = "storageClassName") || bool_decide (k = "spec.storageClassName") then Some (v_StorageClassName v)
  else if bool_decide (k = "ownerService") then Some (v_OwnerService v)
  else if bool_decide (k = "boundNode") then Some (v_BoundNode v)
  else None.

Definition matchVolumeFieldSelector (v : Volume) (sel : params) : bool :=
  forallb (λ kw, match fieldOf v kw.1 with Some got => bool_decide (got = kw.2) | None => false end) (map_to_list sel).

Section Api.
Context (env : env).

(** Reads and a write whose "not found" is told apart from other errors. *)
Definition lookupVolume (ns name : string) : io (option Volume) := storeCall env (λ w, (w, Some (d_volumes (w_db w) !! (ns, name)))).
Definition lookupClass (name : string) : io (option StorageClass) := storeCall env (λ w, (w, Some (d_classes (w_db w) !! name))).
Definition replaceClass (c : StorageClass) : io bool := storeCall env (λ w,
  match d_classes (w_db w) !! sc_Name c with
  | None => (w, Some false)
  | Some _ => (log (LClass c) (with_classes <[sc_Name c := c]> w), Some true)
  end).

(** ** Repositories *)

Definition createVolumeRow (v : Volume) : io unit := storeCall env (λ w,
  match d_volumes (w_db w) !! (v_Namespace v, v_Name v) with
  | Some _ => (w, None)
  | None => (log (LVolume v) (with_volumes <[(v_Namespace v, v_Name v) := v]> w), Some tt)
  end).

Definition deleteVolumeRow (ns name : string) : io unit := storeCall env (λ w,
  match d_volumes (w_db w) !! (ns, name) with
  | None => (w, None)
  | Some _ => (log (LRemoved ns name) (with_volumes (base.delete (ns, name)) w), Some tt)
  end).

Definition deleteClassRow (name : string) : io unit := storeCall env (λ w,
  match d_classes (w_db w) !! name with
  | None => (w, None)
  | Some _ => (with_classes (base.delete name) w, Some tt)
  end).

Definition VolumeRepo_Create (uuid : string) (v : Volume) : io Volume :=
  guardp (negb (bool_decide (v_Namespace v = "") || bool_decide (v_Name v = "") || negb (ValidateDNS1123Name (v_Name v)) ||
                bool_decide (v_StorageClassName v = "")));;
  let id := if bool_decide (v_ID v = "") then uuid else v_ID v in
  guardp (ValidateVolumeID id);;
  t ← now env;
  let v := mkVolume id (v_Name v) (v_Namespace v) (v_StorageClassName v) (v_Size v) (v_AccessMode v) (v_ReclaimPolicy v)
    (v_Parameters v) (v_DriverParameters v) (v_Handle v) (v_OwnerService v) (v_BoundNode v) (v_BoundClaim v)
    (if bool_decide (v_Status v = "") then VolumeStatusPending else v_Status v) (v_StatusReason v) (v_InitializedFor v)
    (if IsZero (v_CreatedAt v) then t else v_CreatedAt v) t in
  createVolumeRow v;; mret v.

Definition VolumeRepo_Get (ns name : string) : io Volume :=
  guardp (negb (bool_decide (ns = "") || bool_decide (name = "")));; getVolume env ns name.

Definition VolumeRepo_Update (v : Volume) : io Volume :=
  guardp (negb (bool_decide (v_Namespace v = "") || bool_decide (v_Name v = "")));;
  cur ← getVolume env (v_Namespace v) (v_Name v);
  let id := if bool_decide (v_ID v = "") then v_ID cur else v_ID v in
  guardp (bool_decide (id = v_ID cur));;
  t ← now env;
  let v := mkVolume id (v_Name v) (v_Namespace v) (v_StorageClassName v) (v_Size v) (v_AccessMode v) (v_ReclaimPolicy v)
    (v_Parameters v) (v_DriverParameters v) (v_Handle v) (v_OwnerService v) (v_BoundNode v) (v_BoundClaim v) (v_Status v)
    (v_StatusReason v) (v_InitializedFor v) (v_CreatedAt cur) t in
  putVolume env v;; mret v.

Definition VolumeRepo_Delete (ns name : string) : io unit :=
  guardp (negb (bool_decide (ns = "") || bool_decide (name = "")));; deleteVolumeRow ns name.

Definition StorageClassRepo_Create (c : StorageClass) : io StorageClass :=
  guardp (negb (bool_decide (sc_Name c = "") || negb (ValidateDNS1123Name (sc_Name c)) || bool_decide (sc_Driver c = "")));;
  t ← now env;
  let c := mkStorageClass (sc_Name c) (sc_Driver c) (sc_Parameters c) (sc_ReclaimPolicy c) (sc_Default c)
             (if IsZero (sc_CreatedAt c) then t else sc_CreatedAt c) t in
  createClass env c;; mret c.

Definition StorageClassRepo_Update (c : StorageClass) : io StorageClass :=
  guardp (negb (bool_decide (sc_Name c = "")));;
  cur ← getClass env (sc_Name c);
  t ← now env;
  let c := mkStorageClass (sc_Name c) (sc_Driver c) (sc_Parameters c) (sc_ReclaimPolicy c) (sc_Default c) (sc_CreatedAt cur) t in
  putClass env c;; mret c.

(** The volumes of the listed namespaces; one that cannot be listed is skipped. *)
Fixpoint VolumeRepo_ListAll (namespaces : list string) : io (list Volume) :=
  match namespaces with
  | [] => mret []
  | ns :: rest =>
      if bool_decide (ns = "") then VolumeRepo_ListAll rest
      else
        vs ← try (storeCall env (λ w, (w, Some (filter (λ v, v_Namespace v = ns) (map_to_list (d_volumes (w_db w))).*2))));
        more ← VolumeRepo_ListAll rest;
        mret (default [] vs ++ more)
  end.

(** ** Volumes *)

(** [caps]: the access modes of a driver the server can build; [hostPathOk]: the
    path is absolute and inside the allowlist.  A missing class is left to the
    controller. *)
Definition validateAgainstStorageClass (caps : string → option (list string)) (hostPathOk : string → bool) (v : Volume) : io unit :=
  if bool_decide (v_StorageClassName v = "") then mret tt
  else
    c ← lookupClass (v_StorageClassName v);
    match c with
    | None => mret tt
    | Some c =>
        match caps (sc_Driver c) with
        | None => mret tt
        | Some modes =>
            guardp (bool_decide (v_AccessMode v = "") || accessModeSupported (v_AccessMode v) modes);;
            if bool_decide (sc_Driver c = "local-host") then
              let hostPath := default "" (mergeStringMap (sc_Parameters c) (v_Parameters v) !! "hostPath") in
              guardp (negb (bool_decide (hostPath = "")) && hostPathOk hostPath)
            else mret tt
        end
    end.

Section VolumeHandlers.
Context (admitted : Volume → bool) (nsOk : string → bool) (caps : string → option (list string)) (hostPathOk : string → bool).

Definition CreateVolume (uuid : string) (req : Volume) : io Volume :=
  let v := with_v_Namespace (protoToVolume req) (NS (v_Namespace req)) in
  guardp (admitted v);;
  guardp (nsOk (v_Namespace v));;
  validateAgainstStorageClass caps hostPathOk v;;
  VolumeRepo_Create uuid v.

Definition UpdateVolume (req : Volume) : io Volume :=
  let v := with_v_Namespace (protoToVolume req) (NS (v_Namespace req)) in
  validateAgainstStorageClass caps hostPathOk v;;
  guardp (admitted v);;
  VolumeRepo_Update v.

Definition DeleteVolume (ns name : string) : io unit :=
  guardp (negb (bool_decide (name = "")));; VolumeRepo_Delete (NS ns) name.

Definition RetryProvisionVolume (ns name : string) : io Volume :=
  guardp (negb (bool_decide (name = "")));;
  v ← VolumeRepo_Get (NS ns) name;
  guardp (bool_decide (v_Status v = VolumeStatusFailed) || bool_decide (v_Status v = VolumeStatusStalled));;
  VolumeRepo_Update (with_v_status v VolumeStatusPending "" (v_UpdatedAt v)).

Definition DetachVolume (force : bool) (ns name : string) : io Volume :=
  guardp (negb (bool_decide (name = "")));;
  v ← VolumeRepo_Get (NS ns) name;
  guardp (force || negb (negb (bool_decide (v_BoundClaim v = "")) && bool_decide (v_Status v = VolumeStatusBound)));;
  VolumeRepo_Update (with_v_bind v "" "" "" (if bool_decide (v_Handle v = "") then VolumeStatusPending else VolumeStatusAvailable)).

Definition RestoreVolume (uuid snapshotNs snapshotName targetNs targetName storageClass : string) : io Volume :=
  guardp (negb (bool_decide (snapshotName = "")));;
  guardp (negb (bool_decide (targetName = "")));;
  let snapNS := NS snapshotNs in
  let targetNS := if bool_decide (targetNs = "") then snapNS else targetNs in
  let blank ps := mkVolume "" "" targetNS "" "" "" "" ps ∅ "" "" "" "" "" "" ∅ 0 0 in
  guardp (admitted (blank {[RestoreFromSnapshotParam := snapNS +:+ "/" +:+ snapshotName]}));;
  snap ← SnapshotRepo_Get env snapNS snapshotName;
  guardp (bool_decide (sn_Phase snap = SnapshotPhaseReady));;
  guardp (negb (bool_decide (sn_SourceVolume snap = "")));;
  src ← lookupVolume snapNS (sn_SourceVolume snap);
  let scName := if bool_decide (storageClass = "") then match src with Some s => v_StorageClassName s | None => storageClass end else storageClass in
  let ps := {[RestoreFromSnapshotParam := sn_Namespace snap +:+ "/" +:+ sn_Name snap]} ∪ match src with Some s => v_Parameters s | None => ∅ end in
  let from_src (f : Volume → string) := match src with Some s => f s | None => "" end in
  let target := mkVolume "" targetName targetNS scName (from_src v_Size) (from_src v_AccessMode) (from_src v_ReclaimPolicy) ps ∅ "" "" "" ""
                  VolumeStatusPending "" ∅ 0 0 in
  guardp (nsOk targetNS);;
  guardp (admitted target);;
  VolumeRepo_Create uuid target.
End VolumeHandlers.

(** ** Storage classes *)

(** A class that went away meanwhile is skipped. *)
Definition demote (c : StorageClass) : io unit :=
  cur ← lookupClass (sc_Name c);
  match cur with
  | None => mret tt
  | Some cur =>
      t ← now env;
      replaceClass (mkStorageClass (sc_Name c) (sc_Driver c) (sc_Parameters c) (sc_ReclaimPolicy c) false (sc_CreatedAt cur) t);;
      mret tt
  end.

Definition demoteOtherDefaults (keep : string) : io unit :=
  all ← listClasses env;
  each demote (List.filter (λ c, sc_Default c && negb (bool_decide (sc_Name c = keep))) all).

Definition protoToStorageClass (c : StorageClass) : StorageClass :=
  mkStorageClass (sc_Name c) (sc_Driver c) (sc_Parameters c) (sc_ReclaimPolicy c) (sc_Default c) 0 0.

Definition CreateStorageClass (req : StorageClass) : io StorageClass :=
  let c := protoToStorageClass req in
  (if sc_Default c then demoteOtherDefaults (sc_Name c) else mret tt);;
  StorageClassRepo_Create c.

Definition UpdateStorageClass (req : StorageClass) : io StorageClass :=
  let c := protoToStorageClass req in
  (if sc_Default c then demoteOtherDefaults (sc_Name c) else mret tt);;
  StorageClassRepo_Update c.

(** [namespaces]: the namespaces the store lists, [None] when it cannot. *)
Definition DeleteStorageClass (namespaces : option (list string)) (cascade : bool) (name : string) : io unit :=
  guardp (negb (bool_decide (name = "")));;
  (if cascade then mret tt
   else
     nss ← from_option namespaces;
     vs ← VolumeRepo_ListAll nss;
     guardp (negb (existsb (λ v, bool_decide (v_StorageClassName v = name)) vs)));;
  deleteClassRow name.
End Api.
