(* ===== verification/StorageApiProps.v ===== *)
(** * Properties of the storage API

    Whatever fails, the handlers never leave two default classes; a retry asked
    for through the API settles; detaching respects live bindings.  Four
    behaviours of the handlers lose something: the default class, the record of
    initialised data, and storage of others. *)

From S2P Require Import Prelude Text Effects Types ResourceStore Authz Names Storage StorageProps Snapshots StorageApi.

(** No other writers; the store may fail. *)
Class Alone (env : env) : Prop := alone_others n d t : e_others env n d t = (d, t).

#[global] Instance quiet_alone env : Quiet env → Alone env.
Proof. intros H n d t. apply quiet_others. Qed.

(** ** One default class *)
Section Defaults.
Context (env : env) `{!Alone env}.

#[local] Abbreviation classes w := (d_classes (w_db w)).

Definition one_marked (m : gmap string StorageClass) : Prop := ∀ a b, marked m a → marked m b → a = b.

(** The marks are among [S], and no name of [done] is marked. *)
Definition within (S : string → Prop) (done : list string) (w : world) : Prop :=
  filed (classes w) ∧ ∀ n, marked (classes w) n → S n ∧ n ∉ done.

Lemma storeCall_alone {A} (f : world → world * option A) P (Q : A → world → Prop) (X : world → Prop) :
  (∀ w, P w → X (ticked w) ∧ match f (ticked w) with (w', Some a) => Q a w' | (w', None) => X w' end) → post P (storeCall env f) Q X.
Proof.
  intros H w Hw. unfold storeCall, external. rewrite alone_others. change (mkWorld _ _ _ _) with (ticked w).
  destruct (H w Hw) as [Hx Hf]. by destruct (e_fault _ _).
Qed.

Lemma within_weaken S S' done done' w : (∀ n, S n → S' n) → done' ⊆ done → within S done w → within S' done' w.
Proof. intros HS Hd [Hf H]. split; [done|]. intros n Hn. destruct (H n Hn). split; [auto|]. set_solver. Qed.

Lemma within_insert S done c w w' :
  within S done w → classes w' = <[sc_Name c := c]> (classes w) → (sc_Default c = true → S (sc_Name c) ∧ sc_Name c ∉ done) →
  within S (if sc_Default c then done else sc_Name c :: done) w'.
Proof.
  intros [Hf H] E Hc. split.
  - rewrite E. intros n c' [[<- <-]|[_ ?]]%lookup_insert_Some; [done|by apply Hf].
  - intros n (c' & Hn & Hd). rewrite E in Hn. apply lookup_insert_Some in Hn as [[<- <-]|[Hne Hn]].
    + rewrite Hd. by apply Hc.
    + destruct (H n) as [? ?]; [by exists c'|]. split; [done|]. case_match; [done|]. rewrite elem_of_cons. intros [?|?]; [by subst|done].
Qed.

Lemma demote_within S done c :
  post (within S done) (demote env c) (λ _, within S (sc_Name c :: done)) (within S done).
Proof.
  unfold demote, lookupClass, replaceClass.
  eapply post_bind with (R := λ cur w, within S done w ∧ (cur = None → classes w !! sc_Name c = None)).
  { apply storeCall_alone. intros w Hw. split; [done|]. cbn. by split. }
  intros [cur|].
  - eapply post_bind with (R := λ _, within S done); [apply post_gets; by intros w [? _]|]. intros t.
    eapply post_bind with (R := λ _, within S (sc_Name c :: done)); [|intros b; by apply post_ret].
    apply storeCall_alone. intros w Hw. split; [done|]. cbn. destruct (classes w !! sc_Name c) eqn:E; cbn.
    + set (c' := mkStorageClass _ _ _ _ false _ t).
      apply (within_insert S done c' w); [done|done|done].
    + destruct Hw as [Hf H]. split; [done|]. intros n Hn. destruct (H n Hn). split; [done|].
      rewrite elem_of_cons. intros [->|?]; [|done]. destruct Hn as (? & Hn & _). cbn in Hn. congruence.
  - intros w [[Hf H] Hnone]. cbn. split; [done|]. intros n Hn. destruct (H n Hn). split; [done|].
    rewrite elem_of_cons. intros [->|?]; [|done]. destruct Hn as (? & Hn & _). rewrite Hnone in Hn by done. done.
Qed.

Lemma demote_each_within S done ds :
  post (within S done) (each (demote env) ds) (λ _, within S (reverse (sc_Name <$> ds) ++ done)) (within S []).
Proof.
  revert done. induction ds as [|c ds IH]; intros done; [by apply post_ret|]. cbn [each].
  eapply post_bind with (R := λ _, within S (sc_Name c :: done)).
  - eapply post_weaken; [apply demote_within|done|done|]. intros w. apply within_weaken; [done|set_solver].
  - intros []. eapply post_weaken; [apply IH|done| |done]. intros [] w. apply within_weaken; [done|]. rewrite fmap_cons, reverse_cons, <-app_assoc. done.
Qed.

(** Demotion leaves at most the kept name marked, and never marks anything. *)
Lemma demoteOtherDefaults_within S keep :
  post (within S []) (demoteOtherDefaults env keep) (λ _, within (λ n, S n ∧ n = keep) []) (within S []).
Proof.
  unfold demoteOtherDefaults, listClasses.
  eapply post_bind with (R := λ all w, within (λ n, S n ∧ (n = keep ∨ n ∈ sc_Name <$> List.filter (λ c, sc_Default c && negb (bool_decide (sc_Name c = keep))) all)) [] w).
  { apply storeCall_alone. intros w [Hf H]. split; [done|]. cbn. split; [done|]. intros n Hn. destruct (H n Hn) as [? ?]. split; [|done].
    split; [done|]. destruct (decide (n = keep)); [by left|right]. destruct Hn as (c & Hc & Hd). cbn in Hc. pose proof (Hf _ _ Hc) as <-.
    apply list_elem_of_fmap_2. apply elem_of_filterb. rewrite Hd, bool_decide_false by done. split; [done|]. by apply elem_of_sortedClasses. }
  intros all. eapply post_weaken; [apply demote_each_within|done| |].
  - intros [] w [Hf H]. split; [done|]. intros n Hn. destruct (H n Hn) as [[HS [->|Hin]] Hnot]; [split; [done|apply not_elem_of_nil]|].
    destruct Hnot. rewrite app_nil_r. by rewrite elem_of_reverse.
  - intros w. apply within_weaken; [tauto|done].
Qed.

Definition tidy (w : world) : Prop := filed (classes w) ∧ one_marked (classes w).

Lemma tidy_within w : tidy w → ∃ S, within S [] w ∧ ∀ a b, S a → S b → a = b.
Proof. intros [Hf H]. exists (marked (classes w)). split; [split; [done|]; intros n Hn; split; [done|apply not_elem_of_nil]|done]. Qed.

Lemma within_tidy S done w : (∀ a b, S a → S b → a = b) → within S done w → tidy w.
Proof. intros HS [Hf H]. split; [done|]. intros a b Ha Hb. apply HS; by apply H. Qed.

Lemma keep_ret {A} (P : world → Prop) (a : A) : post P (mret a) (λ _, P) P.
Proof. by apply post_ret. Qed.

(** The part common to both writing handlers; [write] may add the class itself. *)
Lemma write_tidy S (c : StorageClass) (write : prog world StorageClass) :
  (∀ a b, S a → S b → a = b) →
  (∀ S', (sc_Default c = true → ∀ n, S' n → n = sc_Name c) → (∀ a b, S' a → S' b → a = b) → post (within S' []) write (λ _, tidy) tidy) →
  post (within S []) ((if sc_Default c then demoteOtherDefaults env (sc_Name c) else mret tt);; write) (λ _, tidy) tidy.
Proof.
  intros HS Hw. destruct (sc_Default c) eqn:Hd.
  - eapply post_bind.
    + eapply post_weaken; [apply demoteOtherDefaults_within|done|intros ? ? Hx; exact Hx|]. intros w. by apply within_tidy.
    + intros []. apply Hw; [by intros _ n []|]. intros a b [_ ->] [_ ->]. done.
  - eapply post_bind; [eapply post_weaken; [apply keep_ret|done|intros ? ? Hx; exact Hx|intros w; by apply within_tidy]|].
    intros []. by apply Hw.
Qed.

Lemma insert_tidy S c w w' :
  (∀ a b, S a → S b → a = b) → (sc_Default c = true → ∀ n, S n → n = sc_Name c) →
  within S [] w → classes w' = <[sc_Name c := c]> (classes w) → tidy w'.
Proof.
  intros HS Hc [Hf H] E. split.
  - rewrite E. intros n c' [[<- <-]|[_ ?]]%lookup_insert_Some; [done|by apply Hf].
  - assert (Hm : ∀ n, marked (classes w') n → (sc_Default c = true ∧ n = sc_Name c) ∨ S n).
    { intros n (c' & Hn & Hd). rewrite E in Hn. apply lookup_insert_Some in Hn as [[<- <-]|[_ Hn]]; [by left|]. right. apply H. by exists c'. }
    intros a b Ha Hb. destruct (Hm a Ha) as [[Hd ->]|Sa], (Hm b Hb) as [[Hd' ->]|Sb]; [done|symmetry; by apply Hc|by apply Hc|by apply HS].
Qed.

Lemma create_tidy S c :
  (sc_Default c = true → ∀ n, S n → n = sc_Name c) → (∀ a b, S a → S b → a = b) →
  post (within S []) (StorageClassRepo_Create env c) (λ _, tidy) tidy.
Proof.
  intros Hc HS. unfold StorageClassRepo_Create, createClass.
  eapply post_bind with (R := λ _, within S []); [apply post_guard; [done|]; intros _ w; by apply within_tidy|]. intros [].
  eapply post_bind with (R := λ _, within S []); [by apply post_gets|]. intros t.
  eapply post_bind with (R := λ _, tidy); [|intros []; by apply post_ret].
  apply storeCall_alone. intros w Hw. split; [by apply (within_tidy S [])|]. cbn.
  destruct (classes w !! sc_Name c); cbn; [by apply (within_tidy S [])|]. match goal with |- context [LClass ?x] => by apply (insert_tidy S x w) end.
Qed.

Lemma update_tidy S c :
  (sc_Default c = true → ∀ n, S n → n = sc_Name c) → (∀ a b, S a → S b → a = b) →
  post (within S []) (StorageClassRepo_Update env c) (λ _, tidy) tidy.
Proof.
  intros Hc HS. unfold StorageClassRepo_Update, getClass, putClass.
  eapply post_bind with (R := λ _, within S []); [apply post_guard; [done|]; intros _ w; by apply within_tidy|]. intros [].
  eapply post_bind with (R := λ _, within S []).
  { apply storeCall_alone. intros w Hw. split; [by apply (within_tidy S [])|]. cbn. case_match; [done|]. by apply (within_tidy S []). }
  intros cur. eapply post_bind with (R := λ _, within S []); [by apply post_gets|]. intros t.
  eapply post_bind with (R := λ _, tidy); [|intros []; by apply post_ret].
  apply storeCall_alone. intros w Hw. split; [by apply (within_tidy S [])|]. cbn.
  destruct (classes w !! sc_Name c); cbn; [|by apply (within_tidy S [])]. match goal with |- context [LClass ?x] => by apply (insert_tidy S x w) end.
Qed.

Inductive class_request :=
| RCreate (c : StorageClass)
| RUpdate (c : StorageClass)
| RDelete (namespaces : option (list string)) (cascade : bool) (name : string).

(** A request; its error goes back to the client. *)
Definition serve (r : class_request) : prog world unit :=
  match r with
  | RCreate c => try (CreateStorageClass env c);; mret tt
  | RUpdate c => try (UpdateStorageClass env c);; mret tt
  | RDelete nss cascade name => try (DeleteStorageClass env nss cascade name);; mret tt
  end.

Lemma tidy_post (m : prog world StorageClass) :
  (∀ S, (∀ a b, S a → S b → a = b) → post (within S []) m (λ _, tidy) tidy) → keeps tidy m.
Proof. intros H w Hw. destruct (tidy_within w Hw) as (S & HS & Huniq). exact (H S Huniq w HS). Qed.

Lemma storeCall_tidy {A} (f : world → world * option A) : (∀ w, tidy w → tidy (f w).1) → keeps tidy (storeCall env f).
Proof.
  intros H. apply storeCall_alone. intros w Hw. split; [done|]. specialize (H (ticked w) Hw). by destruct (f (ticked w)) as [w' [a|]].
Qed.

Lemma ListAll_tidy nss : keeps tidy (VolumeRepo_ListAll env nss).
Proof.
  induction nss as [|ns nss IH]; [by apply keeps_ret|]. cbn [VolumeRepo_ListAll]. case_bool_decide; [done|].
  apply keeps_bind; [apply keeps_try; by apply storeCall_tidy|]. intros vs. apply keeps_bind; [done|]. intros more. apply keeps_ret.
Qed.

Lemma serve_tidy r : keeps tidy (serve r).
Proof.
  destruct r as [c|c|nss cascade name]; cbn [serve]; (apply keeps_bind; [apply keeps_try|auto with rune]).
  - apply tidy_post. intros S HS. apply write_tidy; [done|]. intros S' H1 H2. by apply create_tidy.
  - apply tidy_post. intros S HS. apply write_tidy; [done|]. intros S' H1 H2. by apply update_tidy.
  - unfold DeleteStorageClass. pose proof ListAll_tidy. keep. apply storeCall_tidy. intros w [Hf H1]. case_match; [|done]. cbn. split.
    + intros n c' Hc'. cbn in Hc'. apply lookup_delete_Some in Hc' as [_ Hc']. by apply Hf.
    + intros n n' (ca & Ha & Hda) (cb & Hb & Hdb). cbn in Ha, Hb. apply lookup_delete_Some in Ha as [_ Ha], Hb as [_ Hb].
      apply H1; by eexists.
Qed.

(** Whatever the store refuses, no sequence of requests to create, update or
    delete storage classes leaves two classes marked as default. *)
Theorem api_keeps_one_default requests w : tidy w → tidy (each serve requests w).1.
Proof. intros Hw. apply keeps_state; [|done]. apply keeps_each. intros r _. apply serve_tidy. Qed.
End Defaults.

Section Quiet.
Context (env : env) `{!Quiet env}.

(** ** Volumes *)

Lemma VolumeRepo_Get_quiet ns name v w :
  ns ≠ "" → name ≠ "" → d_volumes (w_db w) !! (ns, name) = Some v → VolumeRepo_Get env ns name w = (ticked w, Some v).
Proof.
  intros Hns Hname Hrow. unfold VolumeRepo_Get, getVolume. rewrite !bool_decide_false by done. cbn [orb negb guardp].
  unfold mbind, prog_bind, mret, prog_ret. cbv beta iota. rewrite storeCall_quiet by done. cbn. by rewrite Hrow.
Qed.

(** An update of a row under its own id replaces it and stamps the time. *)
Lemma VolumeRepo_Update_quiet v cur w :
  v_Namespace v ≠ "" → v_Name v ≠ "" → d_volumes (w_db w) !! (v_Namespace v, v_Name v) = Some cur → v_ID v = v_ID cur ∨ v_ID v = "" →
  ∃ w' t, let r := mkVolume (v_ID cur) (v_Name v) (v_Namespace v) (v_StorageClassName v) (v_Size v) (v_AccessMode v) (v_ReclaimPolicy v)
      (v_Parameters v) (v_DriverParameters v) (v_Handle v) (v_OwnerService v) (v_BoundNode v) (v_BoundClaim v) (v_Status v)
      (v_StatusReason v) (v_InitializedFor v) (v_CreatedAt cur) t in
    VolumeRepo_Update env v w = (w', Some r) ∧ w_tables w' = w_tables w ∧ w_log w' = w_log w ++ [LVolume r] ∧
    w_db w' = mkDb (<[(v_Namespace v, v_Name v) := r]> (d_volumes (w_db w))) (d_classes (w_db w)) (d_snapshots (w_db w)).
Proof.
  intros Hns Hname Hrow Hid. unfold VolumeRepo_Update, getVolume, putVolume, now, gets. rewrite (bool_decide_false (v_Namespace v = "")), (bool_decide_false (v_Name v = "")) by done. cbn [orb negb guardp].
  unfold mbind, prog_bind, mret, prog_ret. cbv beta iota. rewrite storeCall_quiet by done. cbn -[storeCall]. rewrite Hrow.
  assert ((if bool_decide (v_ID v = "") then v_ID cur else v_ID v) = v_ID cur) as -> by (case_bool_decide; naive_solver).
  rewrite bool_decide_true by done. cbn -[storeCall]. rewrite storeCall_quiet by done. cbn. rewrite Hrow. by eexists _, _.
Qed.

(** When the store answers, detaching without force refuses a volume that is
    bound and claimed, and changes nothing; otherwise, or with force, the bind
    fields are cleared, the status follows from whether there is a handle, and
    everything else of the row is as it was. *)
Theorem detach_respects_binding force ns name v w :
  ns ≠ "" → name ≠ "" → d_volumes (w_db w) !! (ns, name) = Some v → v_Namespace v = ns → v_Name v = name →
  let live := negb (bool_decide (v_BoundClaim v = "")) && bool_decide (v_Status v = VolumeStatusBound) in
  let w' := (DetachVolume env force ns name w).1 in
  if negb force && live then w_db w' = w_db w ∧ (DetachVolume env force ns name w).2 = None
  else ∃ r t, d_volumes (w_db w') = <[(ns, name) := r]> (d_volumes (w_db w)) ∧
    r = with_v_status (with_v_bind v "" "" "" (v_Status v)) (if bool_decide (v_Handle v = "") then VolumeStatusPending else VolumeStatusAvailable) "" t.
Proof.
  intros Hns Hname Hrow E1 E2 live.
  assert (DetachVolume env force ns name w = (guardp (force || negb live);; VolumeRepo_Update env (with_v_bind v "" "" ""
    (if bool_decide (v_Handle v = "") then VolumeStatusPending else VolumeStatusAvailable))) (ticked w)) as ->.
  { unfold DetachVolume, NS. rewrite !bool_decide_false by done. cbn [negb guardp]. unfold mbind, prog_bind, mret, prog_ret. cbv beta iota.
    by rewrite (VolumeRepo_Get_quiet ns name v w). }
  unfold mbind, prog_bind. destruct force, live; cbn [orb negb andb guardp]; try done;
    (destruct (VolumeRepo_Update_quiet (with_v_bind v "" "" "" (if bool_decide (v_Handle v = "") then VolumeStatusPending else VolumeStatusAvailable)) v (ticked w))
       as (w' & t & Hu & _ & _ & Hdb); [by subst..|by left|]; unfold mret, prog_ret; rewrite Hu; cbn; rewrite Hdb; cbn; eexists _, t;
     (split; [by rewrite E1, E2|]); unfold with_v_status, with_v_bind; cbn; by rewrite E1, E2).
Qed.

(** The API's retry and the controller together: a failed or stalled volume
    that is sent back to pending settles within a fresh budget of attempts. *)
Theorem retry_settles url_Parse PathUnescape ParseMemory opts class size n r w :
  let ns := v_Namespace r in let name := v_Name r in
  provisionable url_Parse PathUnescape ParseMemory env r class size → ns ≠ "" → name ≠ "" →
  sc_Name class ≠ "" → sc_Name class = v_StorageClassName r → d_classes (w_db w) !! sc_Name class = Some class →
  0 < o_MaxProvisionAttempts opts ≤ Z.of_nat n + 1 →
  v_Status r = VolumeStatusFailed ∨ v_Status r = VolumeStatusStalled →
  d_volumes (w_db w) !! (ns, name) = Some r → t_stopped (w_tables w) = false → volumeKey ns name ∉ t_internalUpdates (w_tables w) →
  ∃ w' v, RetryProvisionVolume env ns name w = (w', Some v) ∧
    let event := SEvent (mkVolumeEvent WatchEventUpdated ns name (Some v)) in
    settled opts v (answers (w_log w))
      (turns url_Parse PathUnescape ParseMemory env opts v n (runStep url_Parse PathUnescape ParseMemory env opts event w').1).
Proof.
  intros ns name Hp Hns Hname Hcn Hcls Hclass Hmax Hst Hrow Hstop Hmark.
  destruct (VolumeRepo_Update_quiet (with_v_status r VolumeStatusPending "" (v_UpdatedAt r)) r (ticked w)) as (w' & t & Hu & Ht & Hl & Hd);
    [done..|by left|]. cbn [v_Namespace v_Name with_v_status] in *. set (v := mkVolume _ _ _ _ _ _ _ _ _ _ _ _ _ _ _ _ _ t) in *.
  exists w', v. split.
  { unfold RetryProvisionVolume, NS. subst ns name. rewrite !bool_decide_false by done. cbn [negb guardp]. unfold mbind, prog_bind, mret, prog_ret. cbv beta iota.
    rewrite (VolumeRepo_Get_quiet _ _ r w) by done. cbv beta iota.
    assert (bool_decide (v_Status r = VolumeStatusFailed) || bool_decide (v_Status r = VolumeStatusStalled) = true) as ->
      by (destruct Hst as [-> | ->]; done). cbn [guardp]. unfold mret, prog_ret. exact Hu. }
  cbv zeta. replace (answers (w_log w)) with (answers (w_log w')).
  2: { rewrite Hl. unfold answers. rewrite omap_app. cbn. by rewrite app_nil_r. }
  apply (provisioning_settles url_Parse PathUnescape ParseMemory env opts v class size n WatchEventUpdated w'); try done.
  - by destruct Hp.
  - cbn. rewrite bool_decide_false; [done|]. by rewrite <-Hcls.
  - rewrite Hd. done.
  - rewrite Hd. cbn. by rewrite lookup_insert_eq.
  - by rewrite Ht.
  - right. by rewrite Ht.
Qed.
End Quiet.

(** ** What the handlers lose *)

(** In any environment, updating a volume through the API clears the record of
    which services initialised it and the parameters it was provisioned with:
    neither has a place in the request. *)
Theorem update_forgets_initialization env admitted caps hostPathOk req w r w' :
  UpdateVolume env admitted caps hostPathOk req w = (w', Some r) → v_InitializedFor r = ∅ ∧ v_DriverParameters r = ∅.
Proof.
  intros H. assert (Hp : post (λ _, True) (UpdateVolume env admitted caps hostPathOk req)
    (λ r _, v_InitializedFor r = ∅ ∧ v_DriverParameters r = ∅) (λ _, True)).
  { unfold UpdateVolume. eapply post_bind; [apply post_true|]. intros [].
    eapply post_bind; [apply post_true|]. intros []. unfold VolumeRepo_Update.
    eapply post_bind; [apply post_true|]. intros [].
    eapply post_bind; [apply post_true|]. intros cur.
    eapply post_bind; [apply post_true|]. intros [].
    eapply post_bind; [apply post_true|]. intros t.
    eapply post_bind; [apply post_true|]. intros []. by apply post_ret. }
  specialize (Hp w I). by rewrite H in Hp.
Qed.

Definition slow_class : StorageClass := mkStorageClass "slow" "nfs" ∅ ReclaimPolicyRetain false 5 5.
Definition two_classes : world :=
  mkWorld (mkDb ∅ {["fast" := fast_class; "slow" := slow_class]} ∅) (mkTables ∅ ∅ ∅ ∅ ∅ false) [] 0.

(** A refused request can cost the cluster its default class: creating a class
    that exists already, marked as default, fails after the class that was the
    default has been demoted. *)
Theorem refused_create_loses_default :
  let req := mkStorageClass "slow" "nfs" ∅ ReclaimPolicyRetain true 0 0 in
  let '(w, r) := CreateStorageClass (calm (λ _, None)) req two_classes in
  r = None ∧ the_default (sortedClasses (d_classes (w_db two_classes))) = Some fast_class ∧
  List.filter sc_Default (sortedClasses (d_classes (w_db w))) = [].
Proof. vm_compute. repeat split. Qed.

Definition forged_volume (h : string) : Volume :=
  mkVolume "id-2" "mine" "lab" "fast" "1Gi" AccessModeRWO ReclaimPolicyDelete ∅ ∅ h "" "" "" VolumeStatusAvailable "" ∅ 0 0.

(** A client that may create and delete volumes in its own namespace can have a
    driver destroy storage it does not own: the handle of the request is stored as
    given, and the reclaim of the volume calls the driver with it. *)
Theorem forged_volume_deletes h :
  let env := calm (λ _, Some "") in
  let '(w, r) := CreateVolume env (λ _, true) (λ _, true) (λ _, None) (λ _, true) "uuid" (forged_volume h) start in
  ∃ row ctx, r = Some row ∧ v_Handle row = h ∧
    let gone := SEvent (mkVolumeEvent WatchEventDeleted "lab" "mine" (Some row)) in
    h ≠ "" → LCall (CDelete "do-volume" ctx h) (Some "") ∈
      w_log ((DeleteVolume env "lab" "mine";; runStep no_url id one_k env stock gone) w).1.
Proof.
  destruct h as [|c h]; cbv zeta; [eexists _, (mkOpContext None None ∅); split; [vm_compute; reflexivity|done]|].
  eexists _, (mkOpContext (Some fast_class) (Some _) (sc_Parameters fast_class)). split; [vm_compute; reflexivity|].
  split; [reflexivity|]. intros _. vm_compute. do 2 right. left.
Qed.

(** ** Witnesses *)

Lemma api_keeps_one_default_witness :
  tidy (each (serve (calm (λ _, None))) [RCreate (mkStorageClass "third" "nfs" ∅ "" true 0 0); RDelete (Some []) false "fast"] start).1.
Proof.
  apply (api_keeps_one_default (calm (λ _, None))). split.
  - intros n c H. unfold start in H. cbn [w_db d_classes] in H. by apply lookup_singleton_Some in H as [<- <-].
  - intros a b (ca & Ha & _) (cb & Hb & _). unfold start in Ha, Hb. cbn [w_db d_classes] in Ha, Hb.
    apply lookup_singleton_Some in Ha as [<- _], Hb as [<- _]. reflexivity.
Defined.

Definition bound_volume : Volume := with_v_bind used_volume "node-1" "prod/db-0" "" VolumeStatusBound.
Definition holding (v : Volume) : world :=
  mkWorld (mkDb {[("prod", "data") := v]} {["fast" := fast_class]} ∅) (mkTables ∅ ∅ ∅ ∅ ∅ false) [] 0.

Lemma detach_respects_binding_witness :
  w_db (DetachVolume (calm (λ _, None)) false "prod" "data" (holding bound_volume)).1 = w_db (holding bound_volume) ∧
  (DetachVolume (calm (λ _, None)) false "prod" "data" (holding bound_volume)).2 = None.
Proof.
  apply (detach_respects_binding (calm (λ _, None)) false "prod" "data" bound_volume (holding bound_volume)); [discriminate..|reflexivity| |];
    reflexivity.
Defined.

Definition stalled_volume : Volume := with_v_status (with_v_class data_volume "fast") VolumeStatusStalled "ProvisionRetriesExhausted" 50.

Lemma retry_settles_witness :
  ∃ w' v, RetryProvisionVolume (calm (λ _, Some "vol-2")) "prod" "data" (holding stalled_volume) = (w', Some v) ∧
    settled stock v [] (turns no_url id one_k (calm (λ _, Some "vol-2")) stock v 4
      (runStep no_url id one_k (calm (λ _, Some "vol-2")) stock (SEvent (mkVolumeEvent WatchEventUpdated "prod" "data" (Some v))) w').1).
Proof.
  apply (retry_settles (calm (λ _, Some "vol-2")) no_url id one_k stock fast_class 1024 4 stalled_volume (holding stalled_volume));
    try discriminate; try reflexivity.
  - split; [reflexivity|reflexivity| |reflexivity]. intros w. exists (sc_Parameters fast_class). apply calm_resolves.
  - split; vm_compute; congruence.
  - by right.
Defined.

Lemma update_forgets_initialization_witness :
  ∃ r, (UpdateVolume (calm (λ _, None)) (λ _, true) (λ _, None) (λ _, true) bound_volume (holding bound_volume)).2 = Some r ∧
    v_InitializedFor r = ∅ ∧ v_DriverParameters r = ∅.
Proof.
  destruct (UpdateVolume (calm (λ _, None)) (λ _, true) (λ _, None) (λ _, true) bound_volume (holding bound_volume)) as [w' [r|]] eqn:E.
  - exists r. split; [reflexivity|]. exact (update_forgets_initialization _ _ _ _ _ _ _ _ E).
  - vm_compute in E. discriminate.
Defined.
