(* ===== verification/Mounts.v ===== *)
(** * Mounts (pkg/orchestrator/instance/{instance_mounts,volume_fs_ownership}.go,
      pkg/types/{volume,job,instance}.go)

    How an instance gets its secrets, configmaps and volumes before it starts, and
    the checks a service's mounts pass when it is cast.  The binder reads and
    writes volume rows in the environment of [Storage]: at every tick others may
    change them.  What the node agent, the secret repository, the file system and
    the caller's context answer is a [binder_env], also indexed by ticks. *)

From stdpp Require Import pretty.
From Stdlib Require Import Ascii.
From S2P Require Import Prelude Text Effects Types Names Storage StorageApi.

#[local] Abbreviation io := (prog world).
#[local] Abbreviation params := (gmap string string).

Record VolumeClaimTemplate := mkClaimTemplate {
  ct_StorageClassName : string;
  ct_Size : string;
  ct_AccessMode : string;
  ct_Parameters : params;
  ct_ReclaimPolicy : string;
}.

(** [mt_Claim] is the name of the claim. *)
Record VolumeMount := mkMount {
  mt_Name : string;
  mt_MountPath : string;
  mt_ReadOnly : bool;
  mt_SubPath : string;
  mt_Claim : option string;
  mt_ClaimTemplate : option VolumeClaimTemplate;
  mt_FSUser : option Z;
  mt_FSGroup : option Z;
  mt_FSMode : string;
}.

(** [SecretMount] and [ConfigmapMount] have the same shape: name, path, the name
    of the resource, and the projected keys. *)
Record SecretMount := mkSecretMount {
  sm_Name : string;
  sm_MountPath : string;
  sm_SecretName : string;
  sm_Items : list (string * string);
}.

Record ResolvedSecretMount := mkResolvedSecret {
  rs_Name : string;
  rs_MountPath : string;
  rs_Data : params;
  rs_Items : list (string * string);
}.

Record ResolvedVolumeMount := mkResolvedVolume {
  rv_Name : string;
  rv_MountPath : string;
  rv_Source : string;
  rv_VolumeName : string;
  rv_VolumeNamespace : string;
  rv_ReadOnly : bool;
  rv_SubPath : string;
}.

(** What mounting reads of a service and of an instance. *)
Record MountService := mkMountService {
  ms_ID : string;
  ms_Name : string;
  ms_Namespace : string;
  ms_SecretMounts : list SecretMount;
  ms_ConfigmapMounts : list SecretMount;
  ms_Volumes : list VolumeMount;
}.

Record MountInstance := mkMountInstance {
  mi_Name : string;
  mi_Namespace : string;
  mi_Ordinal : Z;
}.

(** ** Checks at cast time ([false] is a validation error) *)

Definition path_safe (name : string) : bool :=
  negb (bool_decide (name = ".") || bool_decide (name = "..") ||
        negb (all_chars (λ c, negb (bool_decide (c = "/"%char) || bool_decide (c = "\"%char) || bool_decide (c = "000"%char))) name)).

Definition blank (s : string) : bool := bool_decide (strip_spaces s = "").

Definition validVolumeAccessModes : list string := [AccessModeRWO; AccessModeROX; AccessModeRWX].
Definition validVolumeReclaimPolicies : list string := [ReclaimPolicyRetain; ReclaimPolicyDelete].

Definition validTemplate (ParseMemory : string → option Z) (ct : VolumeClaimTemplate) : bool :=
  negb (blank (ct_Size ct)) && bool_decide (is_Some (ParseMemory (ct_Size ct))) &&
  negb (bool_decide (ct_AccessMode ct = "")) && bool_decide (ct_AccessMode ct ∈ validVolumeAccessModes) &&
  (bool_decide (ct_ReclaimPolicy ct = "") || bool_decide (ct_ReclaimPolicy ct ∈ validVolumeReclaimPolicies)).

Definition validSource (ParseMemory : string → option Z) (m : VolumeMount) : bool :=
  match mt_Claim m, mt_ClaimTemplate m with
  | None, None => false
  | Some _, Some _ => false
  | Some name, None => negb (blank name)
  | None, Some ct => validTemplate ParseMemory ct
  end.

Fixpoint volumeMountsLoop (ParseMemory : string → option Z) (seenNames seenPaths : gset string) (mounts : list VolumeMount) : bool :=
  match mounts with
  | [] => true
  | m :: mounts =>
      negb (bool_decide (mt_Name m = "")) && negb (bool_decide (mt_Name m ∈ seenNames)) && path_safe (mt_Name m) &&
      negb (bool_decide (mt_MountPath m = "")) && IsAbs (mt_MountPath m) && negb (bool_decide (Clean (mt_MountPath m) = "/")) &&
      negb (bool_decide (mt_MountPath m ∈ seenPaths)) &&
      (bool_decide (mt_SubPath m = "") ||
       negb (IsAbs (mt_SubPath m)) && negb (bool_decide (".." ∈ Split "/"%char (mt_SubPath m)))) &&
      validSource ParseMemory m &&
      volumeMountsLoop ParseMemory ({[mt_Name m]} ∪ seenNames) ({[mt_MountPath m]} ∪ seenPaths) mounts
  end.

Definition ValidateVolumeMounts (ParseMemory : string → option Z) (mounts : list VolumeMount) : bool :=
  volumeMountsLoop ParseMemory ∅ ∅ mounts.

Definition systemMountBlocklist : list string :=
  ["/proc"; "/sys"; "/dev"; "/var/run/docker.sock"; "/run/docker.sock"; "/var/run/containerd.sock";
   "/run/containerd/containerd.sock"].

Definition blocked (clean : string) : bool :=
  existsb (λ b, bool_decide (clean = b) || String.prefix (b +:+ "/") clean) systemMountBlocklist.

(** The closure [check], over the paths of all mounts in order. *)
Fixpoint checkPaths (seen : gset string) (paths : list string) : bool :=
  match paths with
  | [] => true
  | mp :: paths =>
      if bool_decide (mp = "") then checkPaths seen paths
      else let clean := Clean mp in
           if blocked clean then false
           else if bool_decide (clean ∈ seen) then false
           else checkPaths ({[clean]} ∪ seen) paths
  end.

Definition ValidateMountPathConflicts (scale : Z) (vols : list VolumeMount) (secs cfgs : list SecretMount) : bool :=
  checkPaths ∅ ((mt_MountPath <$> vols) ++ (sm_MountPath <$> secs) ++ (sm_MountPath <$> cfgs)) &&
  negb ((1 <? scale) && existsb (λ m, bool_decide (is_Some (mt_Claim m))) vols).

Definition processRuntimeAllowedStorageClasses : list string := [""; "local"; "local-host"].

Definition ValidateProcessRuntimeVolumes (runtime : RuntimeType) (vols : list VolumeMount) : bool :=
  if negb (bool_decide (runtime = RuntimeTypeProcess)) then true
  else forallb (λ m, match mt_ClaimTemplate m with
                     | None => true
                     | Some ct => bool_decide (ct_StorageClassName ct ∈ processRuntimeAllowedStorageClasses)
                     end) vols.

(** ** Ownership of the mount root *)

Inductive fs_call := Chown (uid gid : Z) | Chmod (perm : Z).

(** [strconv.ParseUint(s, 8, 32)]. *)
Fixpoint octal_digits (acc : Z) (s : string) : option Z :=
  match s with
  | EmptyString => Some acc
  | String c s =>
      let d := Z.of_nat (Ascii.nat_of_ascii c) - 48 in
      if (0 <=? d) && (d <=? 7) then let acc := acc * 8 + d in if 2 ^ 32 <=? acc then None else octal_digits acc s else None
  end.
Definition ParseOctal (s : string) : option Z := if bool_decide (s = "") then None else octal_digits 0 s.

Definition ModePerm : Z := 511.

(** [info]: owner, group and mode of the path, unless it cannot be read; [ok]
    says which system calls succeed.  The calls made, and whether it failed. *)
Definition applyFSOwnership (info : option (Z * Z * Z)) (ok : fs_call → bool) (fsUser fsGroup : option Z) (fsMode : string)
    : list fs_call * bool :=
  if bool_decide (fsUser = None) && bool_decide (fsGroup = None) && bool_decide (fsMode = "") then ([], true)
  else match info with
  | None => ([], false)
  | Some (uid, gid, mode) =>
      let wantUID := default uid fsUser in
      let wantGID := default gid fsGroup in
      let chown := if negb (wantUID =? uid) || negb (wantGID =? gid) then [Chown wantUID wantGID] else [] in
      if negb (forallb ok chown) then (chown, false)
      else if bool_decide (fsMode = "") then (chown, true)
      else match ParseOctal fsMode with
      | None => (chown, false)
      | Some want =>
          let wantPerm := Z.land want ModePerm in
          let chmod := if negb (wantPerm =? Z.land mode ModePerm) then [Chmod wantPerm] else [] in
          (chown ++ chmod, forallb ok chmod)
      end
  end.

(** ** The binder *)

Definition MountKey (v : Volume) : string :=
  NS (v_Namespace v) +:+ "/" +:+ (if bool_decide (v_ID v = "") then v_Name v else v_ID v).

Definition with_v_binding (v : Volume) (node claim : string) (now : Time) : Volume :=
  mkVolume (v_ID v) (v_Name v) (v_Namespace v) (v_StorageClassName v) (v_Size v) (v_AccessMode v) (v_ReclaimPolicy v)
    (v_Parameters v) (v_DriverParameters v) (v_Handle v) (v_OwnerService v) node claim (v_Status v)
    (v_StatusReason v) (v_InitializedFor v) (v_CreatedAt v) now.

(** The answers of everything but the store.  [be_wired]: a [MountResolver] is
    set; it is set once and stays. *)
Record binder_env := mkBinderEnv {
  be_wired : nat → bool;
  be_target : nat → string → option string;
  be_nodeID : nat → string;
  be_cancelled : nat → bool;
  be_info : nat → string → option (Z * Z * Z);
  be_fs : nat → fs_call → bool;
  be_secret : nat → string → string → option params;
  be_configmap : nat → string → string → option params;
}.

(** How a wait ends.  [OutOfFuel] is not an end: the loop was cut off. *)
Inductive wait (A : Type) := Got (a : A) | NotReady | TimedOut | Cancelled | OutOfFuel.
Arguments Got {A} a.
Arguments NotReady {A}.
Arguments TimedOut {A}.
Arguments Cancelled {A}.
Arguments OutOfFuel {A}.

Definition Millisecond : Duration := 1000000.
Definition volumeReadyPollInterval : Duration := 2 * Second.
Definition volumeReadyTimeout : Duration := 60 * Second.
Definition mountTargetPollInterval : Duration := 500 * Millisecond.
Definition mountTargetTimeout : Duration := 45 * Second.

(** More rounds than the timeouts leave time for. *)
Definition readyRounds : nat := 32.
Definition targetRounds : nat := 92.

Definition is_ready (v : Volume) : bool :=
  bool_decide (v_Status v = VolumeStatusAvailable) || bool_decide (v_Status v = VolumeStatusBound).
Definition is_dead (v : Volume) : bool :=
  bool_decide (v_Status v = VolumeStatusStalled) || bool_decide (v_Status v = VolumeStatusFailed) ||
  bool_decide (v_Status v = VolumeStatusReleased).

(** The name of a claim template's volume for one replica. *)
Definition claimName (mount service : string) (ordinal : Z) : string := mount +:+ "-" +:+ service +:+ "-" +:+ pretty ordinal.

(** A claim's namespace and name: ["ns/name"], or a name of the service's own. *)
Definition claimRef (own name : string) : string * string :=
  match Cut "/" name with
  | Some (ns, rest) => if bool_decide (ns = "") then (own, name) else (ns, rest)
  | None => (own, name)
  end.

Definition templateRow (service : MountService) (m : VolumeMount) (tpl : VolumeClaimTemplate) (name : string) (ordinal : Z) (t : Time)
    : Volume :=
  mkVolume name name (ms_Namespace service) (ct_StorageClassName tpl) (ct_Size tpl) (ct_AccessMode tpl) (ct_ReclaimPolicy tpl)
    (ct_Parameters tpl) ∅ "" (ms_Namespace service +:+ "/" +:+ ms_Name service) ""
    (ms_Name service +:+ "/" +:+ mt_Name m +:+ "/" +:+ pretty ordinal) VolumeStatusPending "" ∅ t t.

Section Binder.
Context (env : env) (be : binder_env).

(** The select on the caller's context and a timer; fails when the context ends. *)
Definition pause : io unit := external env (λ n w, (w, if be_cancelled be n then None else Some tt)).

Fixpoint waitReadyLoop (fuel : nat) (deadline : Time) (ns name : string) : io (wait Volume) :=
  match fuel with
  | O => mret OutOfFuel
  | S fuel =>
      r ← try (getVolume env ns name);
      match r with
      | None => mret NotReady
      | Some vol =>
          if is_ready vol then mret (Got vol)
          else if is_dead vol then mret NotReady
          else t ← now env;
               if After t deadline then mret TimedOut
               else p ← try pause;
                    match p with None => mret Cancelled | Some _ => waitReadyLoop fuel deadline ns name end
      end
  end.

Definition waitForVolumeReady (ns name : string) : io (wait Volume) :=
  t ← now env; waitReadyLoop readyRounds (t + volumeReadyTimeout) ns name.

Fixpoint waitTargetLoop (fuel : nat) (deadline : Time) (key : string) : io (wait string) :=
  match fuel with
  | O => mret OutOfFuel
  | S fuel =>
      target ← gets (λ w, be_target be (w_tick w) key);
      if negb (bool_decide (default "" target = "")) then mret (Got (default "" target))
      else t ← now env;
           if After t deadline then mret TimedOut
           else p ← try pause;
                match p with None => mret Cancelled | Some _ => waitTargetLoop fuel deadline key end
  end.

Definition waitForMountTarget (vol : Volume) : io (wait string) :=
  t ← now env; waitTargetLoop targetRounds (t + mountTargetTimeout) (MountKey vol).

Definition got {A} (r : wait A) : io A := match r with Got a => mret a | _ => fail end.

(** A volume that exists is left alone, and so is one a racing call created. *)
Definition ensureClaimTemplateVolume (service : MountService) (m : VolumeMount) (tpl : VolumeClaimTemplate) (name : string) (ordinal : Z)
    : io unit :=
  let ns := ms_Namespace service in
  existing ← try (getVolume env ns name);
  match existing with
  | Some _ => mret tt
  | None =>
      guardp (ValidateVolumePathSegment name);;
      t ← now env;
      created ← try (createVolumeRow env (templateRow service m tpl name ordinal t));
      match created with Some _ => mret tt | None => getVolume env ns name;; mret tt end
  end.

(** The binding of the volume to this node and instance. *)
Definition bindVolume (service : MountService) (instance : MountInstance) (vol : Volume) : io Volume :=
  nodeID ← gets (λ w, be_nodeID be (w_tick w));
  let newClaim := ms_Namespace service +:+ "/" +:+ mi_Name instance in
  if bool_decide (nodeID = "") then mret vol
  else if bool_decide (v_BoundNode vol = nodeID) && bool_decide (v_BoundClaim vol = newClaim) then mret vol
  else t ← now env;
       let vol := with_v_binding vol nodeID newClaim t in
       putVolume env vol;; mret vol.

(** The namespace and name of the volume a mount asks for. *)
Definition mountRef (service : MountService) (instance : MountInstance) (m : VolumeMount) : string * string :=
  match mt_ClaimTemplate m with
  | Some _ => (ms_Namespace service, claimName (mt_Name m) (ms_Name service) (mi_Ordinal instance))
  | None => claimRef (ms_Namespace service) (default "" (mt_Claim m))
  end.

Definition resolveVolumeMount (service : MountService) (instance : MountInstance) (m : VolumeMount) : io ResolvedVolumeMount :=
  guardp (match mt_Claim m, mt_ClaimTemplate m with Some _, Some _ | None, None => false | _, _ => true end);;
  let '(ns, name) := mountRef service instance m in
  match mt_ClaimTemplate m with
  | Some tpl => ensureClaimTemplateVolume service m tpl name (mi_Ordinal instance)
  | None => mret tt
  end;;
  r ← waitForVolumeReady ns name;
  vol ← got r;
  vol ← bindVolume service instance vol;
  wired ← gets (λ w, be_wired be (w_tick w));
  source ← (if wired : bool then r ← waitForMountTarget vol; got r else mret (v_Handle vol));
  guardp (negb (bool_decide (source = "")));;
  fs ← gets (λ w, applyFSOwnership (be_info be (w_tick w) source) (be_fs be (w_tick w)) (mt_FSUser m) (mt_FSGroup m) (mt_FSMode m));
  guardp fs.2;;
  mret (mkResolvedVolume (mt_Name m) (mt_MountPath m) source name ns (mt_ReadOnly m) (mt_SubPath m)).

(** Reads of the secret and configmap repositories. *)
Definition readMount (read : nat → string → string → option params) (ns : string) (m : SecretMount) : io ResolvedSecretMount :=
  let name := if bool_decide (sm_SecretName m = "") then sm_Name m else sm_SecretName m in
  data ← external env (λ n w, (w, read n ns name));
  mret (mkResolvedSecret (sm_Name m) (sm_MountPath m) data (sm_Items m)).

(** The three lists the instance's metadata gets; what a failed resolution leaves
    of them is not modelled. *)
Definition resolveMounts (service : MountService) (instance : MountInstance)
    : io (list ResolvedSecretMount * list ResolvedSecretMount * list ResolvedVolumeMount) :=
  secrets ← mapM (readMount (be_secret be) (ms_Namespace service)) (ms_SecretMounts service);
  configmaps ← mapM (readMount (be_configmap be) (ms_Namespace service)) (ms_ConfigmapMounts service);
  volumes ← mapM (resolveVolumeMount service instance) (ms_Volumes service);
  mret (secrets, configmaps, volumes).
End Binder.
