(* ===== verification/MountsProps.v ===== *)
(** * What validated mounts are

    The cast-time checks of [Mounts] in terms of path segments. *)

From Stdlib Require Import Ascii.
From stdpp Require Import pretty.
From S2P Require Import Prelude Text Effects Types ResourceStore Names Storage StorageProps StorageApi Mounts.

#[local] Arguments String.append !_ _ : simpl nomatch.

Section Checks.
Context (ParseMemory : string → option Z).

(** One mount on its own. *)
Record mount_ok (m : VolumeMount) : Prop := {
  ok_name : mt_Name m ≠ "";
  ok_safe : path_safe (mt_Name m) = true;
  ok_abs : IsAbs (mt_MountPath m) = true;
  ok_root : segments (mt_MountPath m) ≠ [];
  ok_sub : mt_SubPath m = "" ∨ IsAbs (mt_SubPath m) = false ∧ ".." ∉ Split "/"%char (mt_SubPath m);
  ok_source : validSource ParseMemory m = true;
}.

Lemma Clean_root p : IsAbs p = true → Clean p = "/" ↔ segments p = [].
Proof. intros Hp. change "/" with (Clean "/"). by rewrite Clean_eq. Qed.

Lemma mount_ok_decided m :
  mount_ok m ↔
  negb (bool_decide (mt_Name m = "")) && path_safe (mt_Name m) &&
  negb (bool_decide (mt_MountPath m = "")) && IsAbs (mt_MountPath m) && negb (bool_decide (Clean (mt_MountPath m) = "/")) &&
  (bool_decide (mt_SubPath m = "") || negb (IsAbs (mt_SubPath m)) && negb (bool_decide (".." ∈ Split "/"%char (mt_SubPath m)))) &&
  validSource ParseMemory m = true.
Proof.
  rewrite !andb_true_iff, orb_true_iff, !negb_true_iff, !andb_true_iff, !negb_true_iff, !bool_decide_eq_false, bool_decide_eq_true. split.
  - intros [? ? Ha ? ? ?]. split_and!; try done; [by intros E; rewrite E in Ha|by rewrite Clean_root].
  - intros ((((((? & ?) & ?) & Ha) & Hr) & ?) & ?). split; try done. by rewrite <- Clean_root.
Qed.

Lemma volumeMountsLoop_spec names paths mounts :
  volumeMountsLoop ParseMemory names paths mounts = true ↔
  (∀ m, m ∈ mounts → mount_ok m) ∧
  NoDup (mt_Name <$> mounts) ∧ (∀ n, n ∈ mt_Name <$> mounts → n ∉ names) ∧
  NoDup (mt_MountPath <$> mounts) ∧ (∀ p, p ∈ mt_MountPath <$> mounts → p ∉ paths).
Proof.
  revert names paths. induction mounts as [|m mounts IH]; intros names paths.
  { split; [|done]. intros _. split_and!; try (by intros ? ?%elem_of_nil); apply NoDup_nil_2. }
  cbn [volumeMountsLoop fmap list_fmap]. rewrite !NoDup_cons.
  transitivity (mount_ok m ∧ mt_Name m ∉ names ∧ mt_MountPath m ∉ paths ∧
    volumeMountsLoop ParseMemory ({[mt_Name m]} ∪ names) ({[mt_MountPath m]} ∪ paths) mounts = true).
  { rewrite mount_ok_decided, !andb_true_iff, !negb_true_iff, !bool_decide_eq_false. tauto. }
  rewrite IH. setoid_rewrite elem_of_union. setoid_rewrite elem_of_singleton. setoid_rewrite elem_of_cons. clear IH. split.
  - intros (? & ? & ? & Hall & ? & Hn & ? & Hp). split_and!; try done; [naive_solver|..].
    + intros Hin. by destruct (Hn _ Hin); left.
    + intros n [->|Hin]; [done|]. intros ?. destruct (Hn _ Hin). by right.
    + intros Hin. by destruct (Hp _ Hin); left.
    + intros n [->|Hin]; [done|]. intros ?. destruct (Hp _ Hin). by right.
  - intros (Hall & [? ?] & Hn & [? ?] & Hp). split_and!; try done; [by apply Hall; left|by apply Hn; left|by apply Hp; left|by intros ? ?; apply Hall; right|..].
    + intros n Hin [->|?]; [done|]. apply (Hn n); [by right|done].
    + intros p Hin [->|?]; [done|]. apply (Hp p); [by right|done].
Qed.

Lemma ValidateVolumeMounts_spec mounts :
  ValidateVolumeMounts ParseMemory mounts = true ↔
  (∀ m, m ∈ mounts → mount_ok m) ∧ NoDup (mt_Name <$> mounts) ∧ NoDup (mt_MountPath <$> mounts).
Proof. unfold ValidateVolumeMounts. rewrite volumeMountsLoop_spec. set_solver. Qed.

Lemma checkPaths_spec seen paths :
  checkPaths seen paths = true ↔
  let used := List.filter (λ p, negb (bool_decide (p = ""))) paths in
  NoDup (Clean <$> used) ∧ (∀ p, p ∈ used → blocked (Clean p) = false ∧ Clean p ∉ seen).
Proof.
  revert seen. induction paths as [|p paths IH]; intros seen; cbn [checkPaths List.filter].
  { cbn. split; [|done]. intros _. split; [apply NoDup_nil_2|by intros ? ?%elem_of_nil]. }
  case_bool_decide as E; cbn [negb]; [apply IH|]. cbn [fmap list_fmap]. rewrite NoDup_cons.
  destruct (blocked (Clean p)) eqn:Hb.
  { split; [done|]. intros [_ H]. destruct (H p); [by left|congruence]. }
  case_bool_decide as Hs.
  { split; [done|]. intros [_ H]. destruct (H p); [by left|done]. }
  rewrite IH. cbn zeta. setoid_rewrite elem_of_union. setoid_rewrite elem_of_singleton. setoid_rewrite elem_of_cons. split.
  - intros [Hd H]. split_and!; [|done|].
    + intros (q & Hq & Hin)%list_elem_of_fmap. destruct (H q Hin) as [_ []]. by left.
    + intros q [->|Hin]; [done|]. destruct (H q Hin) as [? Hn]. split; [done|]. intros ?. apply Hn. by right.
  - intros [[Hn Hd] H]. split; [done|]. intros q Hin. split; [apply H; by right|]. intros [Hq|Hq].
    + apply Hn. apply list_elem_of_fmap. by exists q.
    + by apply (H q); [right|].
Qed.

(** A clean path is blocked when it is a system path or below one. *)
Lemma blocked_spec p :
  IsAbs p = true →
  blocked (Clean p) = true ↔ ∃ b, b ∈ systemMountBlocklist ∧ segments b `prefix_of` segments p.
Proof.
  intros Hp. unfold blocked. rewrite existsb_exists.
  assert (Hall : Forall (λ b, IsAbs b = true ∧ Clean b = b ∧ segments b ≠ []) systemMountBlocklist) by by repeat constructor.
  rewrite Forall_forall in Hall. setoid_rewrite <- list_elem_of_In.
  apply exist_proper. intros b. split; intros [Hin H]; (split; [done|]); destruct (Hall b Hin) as (Ha & Hc & Hne).
  - apply orb_true_iff in H as [H%bool_decide_eq_true_1|H].
    + rewrite <- Hc in H. apply Clean_eq in H; [|done..]. by rewrite H.
    + rewrite <- Hc in H. apply prefix_below in H as (k & _ & ->); [by exists k|done..].
  - apply orb_true_iff. destruct H as [[|x k] Hk].
    + left. apply bool_decide_eq_true. rewrite <- Hc. apply Clean_eq; [done..|]. by rewrite Hk, app_nil_r.
    + right. rewrite <- Hc. apply prefix_below; [done..|]. by exists (x :: k).
Qed.

(** A service whose mounts pass the cast-time checks mounts its volumes at
    pairwise different places, none of them the root, a system path or below one,
    under different names that are safe in a host path; and a service scaled
    beyond one replica has no claim, only templates. *)
Theorem validated_mounts_apart scale vols secs cfgs :
  ValidateVolumeMounts ParseMemory vols = true → ValidateMountPathConflicts scale vols secs cfgs = true →
  NoDup (mt_Name <$> vols) ∧ NoDup ((λ m, segments (mt_MountPath m)) <$> vols) ∧
  (∀ m, m ∈ vols → path_safe (mt_Name m) = true ∧ segments (mt_MountPath m) ≠ [] ∧
     (∀ b, b ∈ systemMountBlocklist → ¬ segments b `prefix_of` segments (mt_MountPath m)) ∧
     (1 < scale → is_Some (mt_ClaimTemplate m))).
Proof.
  rewrite ValidateVolumeMounts_spec. intros (Hok & Hn & _). unfold ValidateMountPathConflicts. intros [Hc Hs]%andb_true_iff.
  apply checkPaths_spec in Hc as [Hd Hb]. rewrite List.filter_app in Hd, Hb.
  assert (Hused : List.filter (λ p, negb (bool_decide (p = ""))) (mt_MountPath <$> vols) = mt_MountPath <$> vols).
  { apply filterb_all. intros p (m & -> & Hm)%list_elem_of_fmap. destruct (Hok m Hm) as [_ _ Ha _ _ _]. destruct (mt_MountPath m); done. }
  rewrite Hused in Hd, Hb. split; [done|]. split.
  - rewrite fmap_app in Hd. apply NoDup_app in Hd as [Hd _]. rewrite <- list_fmap_compose in Hd.
    apply NoDup_fmap_2_strong.
    + intros m m' Hm Hm' E. eapply (NoDup_key_inj (Clean ∘ mt_MountPath)); [exact Hd|done..|]. cbn.
      apply Clean_eq; [by destruct (Hok m Hm)|by destruct (Hok m' Hm')|done].
    + by apply NoDup_fmap_1 in Hn.
  - intros m Hm. destruct (Hok m Hm) as [? ? Ha ? _ Hsrc]. split_and!; [done..| |].
    + intros b Hbl Hpre. destruct (Hb (mt_MountPath m)) as [Hbf _].
      { apply elem_of_app. left. apply list_elem_of_fmap. by exists m. }
      enough (blocked (Clean (mt_MountPath m)) = true) by congruence. apply blocked_spec; [done|]. by exists b.
    + intros Hsc. apply negb_true_iff in Hs. rewrite (proj2 (Z.ltb_lt _ _) Hsc) in Hs. cbn in Hs. unfold validSource in Hsrc.
      destruct (mt_Claim m) eqn:Hcl, (mt_ClaimTemplate m); try done.
      assert (existsb (λ m, bool_decide (is_Some (mt_Claim m))) vols = true); [|congruence].
      apply existsb_exists. exists m. split; [by apply list_elem_of_In|]. rewrite Hcl. by apply bool_decide_eq_true.
Qed.
End Checks.

Definition data_mount : VolumeMount :=
  mkMount "data" "/var/lib/db" false "" None (Some (mkClaimTemplate "" "10Gi" Storage.AccessModeRWO ∅ "")) None None "".
Definition logs_mount : VolumeMount := mkMount "logs" "/var/lib/db/../log/" false "a/b" None (mt_ClaimTemplate data_mount) None None "".
Definition ten_gi (s : string) : option Z := if bool_decide (s = "10Gi") then Some (10 * 2 ^ 30) else None.

Lemma validated_mounts_apart_witness :
  NoDup ((λ m, segments (mt_MountPath m)) <$> [data_mount; logs_mount]) ∧
  ValidateMountPathConflicts 3 [data_mount; logs_mount] [mkSecretMount "s" "/var/lib/log/." "" []] [] = false.
Proof.
  split; [|reflexivity].
  destruct (validated_mounts_apart ten_gi 3 [data_mount; logs_mount] [mkSecretMount "s" "/etc/s" "" []] []) as (_ & H & _);
    [vm_compute; reflexivity..|exact H].
Defined.

(** ** What the binder guarantees

    Names of claim-template volumes, the two waits, and what resolving a mount
    writes. *)

#[local] Arguments String.append !_ _ : simpl nomatch.

(** ** Names of claim-template volumes *)

Lemma cut_last c a b x y : free c x = true → free c y = true → a +:+ String c x = b +:+ String c y → a = b ∧ x = y.
Proof.
  intros Hx Hy. revert b. induction a as [|d a IH]; intros [|e b]; cbn [String.append]; intros E.
  - by injection E as ->.
  - injection E as -> ->. rewrite free_app in Hx. cbn in Hx. by rewrite Ascii.eqb_refl, andb_false_r in Hx.
  - injection E as <- <-. rewrite free_app in Hy. cbn in Hy. by rewrite Ascii.eqb_refl, andb_false_r in Hy.
  - injection E as -> E. by destruct (IH b E) as [-> ->].
Qed.

Lemma string_app_inj_r a b c : a +:+ c = b +:+ c → a = b.
Proof.
  revert b. induction a as [|d a IH]; intros [|e b]; cbn [String.append]; intros E.
  - done.
  - apply (f_equal String.length) in E. cbn in E. rewrite string_app_length in E. lia.
  - apply (f_equal String.length) in E. cbn in E. rewrite string_app_length in E. lia.
  - injection E as -> E. by rewrite (IH b E).
Qed.

Lemma decimal_no_hyphen (z : Z) : 0 ≤ z → free "-"%char (pretty z) = true.
Proof.
  intros Hz. assert (Hgo : ∀ n s, free "-"%char s = true → free "-"%char (pretty_N_go n s) = true).
  { intros n. induction (N.lt_wf_0 n) as [n _ IH]; intros s Hs. destruct (decide (n = 0)%N) as [->|Hn]; [by rewrite pretty_N_go_0|].
    rewrite pretty_N_go_step by lia. apply IH; [apply N.div_lt; lia|]. cbn [free]. rewrite Hs.
    unfold pretty_N_char. by repeat case_match. }
  destruct z as [|p|p]; [done| |lia]. unfold pretty, pretty_Z, pretty, pretty_positive, pretty, pretty_N. case_decide; [done|]. by apply Hgo.
Qed.

(** Within a service, different mounts and different replicas get different
    claim-template volumes. *)
Theorem claim_names_distinct mount mount' service o o' :
  0 ≤ o → 0 ≤ o' → claimName mount service o = claimName mount' service o' → mount = mount' ∧ o = o'.
Proof.
  intros Ho Ho' E. unfold claimName in E. rewrite <- !(string_app_assoc mount), <- !(string_app_assoc mount') in E.
  rewrite <- !(string_app_assoc (mount +:+ _)), <- !(string_app_assoc (mount' +:+ _)) in E.
  rewrite !string_app_assoc in E. change ("-" +:+ pretty ?z) with (String "-"%char (pretty z)) in E.
  rewrite <- !string_app_assoc in E. apply cut_last in E as [E Ep]; [|by apply decimal_no_hyphen..].
  apply string_app_inj_r in E. apply string_app_inj_r in E. split; [done|]. by apply (inj pretty) in Ep.
Qed.

Section Waits.
Context (env : env) (be : binder_env).

(** ** The waits end *)

Lemma waitReadyLoop_ends fuel deadline ns name w :
  (∀ n, e_now env n ≤ e_now env (S n)) →
  (∀ i, (i < fuel)%nat → e_now env (w_tick w + 2 * i + 1) + volumeReadyPollInterval ≤ e_now env (w_tick w + 2 * i + 2)) →
  (0 < fuel)%nat → deadline < e_now env (w_tick w) + (Z.of_nat fuel - 1) * volumeReadyPollInterval →
  ∃ w' r, waitReadyLoop env be fuel deadline ns name w = (w', Some r) ∧ r ≠ OutOfFuel.
Proof.
  intros Hmono. revert w. induction fuel as [|fuel IH]; intros w Hpause Hpos Hd; [lia|]. cbn [waitReadyLoop].
  unfold mbind, prog_bind, try, getVolume, storeCall, external. destruct (e_others _ _ _ _) as [d t].
  destruct (e_fault env (w_tick w)); [by do 2 eexists|]. cbn [d_volumes w_db]. destruct (d_volumes d !! (ns, name)) as [v|]; [|by do 2 eexists].
  destruct (is_ready v); [by do 2 eexists|]. destruct (is_dead v); [by do 2 eexists|]. unfold now, gets. cbn [w_tick].
  destruct (After _ deadline) eqn:Ha; [by do 2 eexists|]. unfold pause, external. cbn [w_tick w_db w_tables w_log].
  destruct (e_others _ _ _ _) as [d' t']. destruct (be_cancelled be _); [by do 2 eexists|]. unfold After in Ha. bools.
  pose proof (Hmono (w_tick w)). pose proof (Hpause 0%nat ltac:(lia)) as H0.
  replace (w_tick w + 2 * 0 + 1)%nat with (S (w_tick w)) in H0 by lia. replace (w_tick w + 2 * 0 + 2)%nat with (S (S (w_tick w))) in H0 by lia.
  destruct fuel as [|fuel]; [lia|]. apply IH; cbn [w_tick]; [|lia|lia].
  intros i Hi. specialize (Hpause (S i) ltac:(lia)). replace (S (S (w_tick w)) + 2 * i + 1)%nat with (w_tick w + 2 * S i + 1)%nat by lia.
  by replace (S (S (w_tick w)) + 2 * i + 2)%nat with (w_tick w + 2 * S i + 2)%nat by lia.
Qed.

Lemma waitTargetLoop_ends fuel deadline key w :
  (∀ i, (i < fuel)%nat → e_now env (w_tick w + i) + mountTargetPollInterval ≤ e_now env (w_tick w + i + 1)) →
  (0 < fuel)%nat → deadline < e_now env (w_tick w) + (Z.of_nat fuel - 1) * mountTargetPollInterval →
  ∃ w' r, waitTargetLoop env be fuel deadline key w = (w', Some r) ∧ r ≠ OutOfFuel.
Proof.
  revert w. induction fuel as [|fuel IH]; intros w Hpause Hpos Hd; [lia|]. cbn [waitTargetLoop].
  unfold mbind, prog_bind, try, gets. destruct (negb _); [by do 2 eexists|]. unfold now, gets.
  destruct (After _ deadline) eqn:Ha; [by do 2 eexists|]. unfold pause, external.
  destruct (e_others _ _ _ _) as [d' t']. destruct (be_cancelled be _); [by do 2 eexists|]. unfold After in Ha. bools.
  pose proof (Hpause 0%nat ltac:(lia)) as H0. rewrite Nat.add_0_r, Nat.add_1_r in H0.
  destruct fuel as [|fuel]; [lia|]. apply IH; cbn [w_tick]; [|lia|lia].
  intros i Hi. specialize (Hpause (S i) ltac:(lia)). by replace (S (w_tick w) + i)%nat with (w_tick w + S i)%nat by lia.
Qed.

(** With a clock on which every pause lasts at least its interval, both waits
    end within their rounds, whatever else happens to the store meanwhile: the
    bound on the rounds of the model is never reached. *)
Theorem waits_end ns name vol w :
  (∀ n, e_now env n ≤ e_now env (S n)) →
  (∀ i, (i < readyRounds)%nat → e_now env (w_tick w + 2 * i + 1) + volumeReadyPollInterval ≤ e_now env (w_tick w + 2 * i + 2)) →
  (∀ i, (i < targetRounds)%nat → e_now env (w_tick w + i) + mountTargetPollInterval ≤ e_now env (w_tick w + i + 1)) →
  (∃ w' r, waitForVolumeReady env be ns name w = (w', Some r) ∧ r ≠ OutOfFuel) ∧
  (∃ w' r, waitForMountTarget env be vol w = (w', Some r) ∧ r ≠ OutOfFuel).
Proof.
  intros Hmono H1 H2. split.
  - apply waitReadyLoop_ends; [done..|unfold readyRounds; lia|].
    unfold readyRounds, volumeReadyTimeout, volumeReadyPollInterval, Second. lia.
  - apply waitTargetLoop_ends; [done..|unfold targetRounds; lia|].
    unfold targetRounds, mountTargetTimeout, mountTargetPollInterval, Second, Millisecond. lia.
Qed.

(** ** The wait sees the volume become ready *)

(** The world [k] ticks later when the waiting code writes nothing. *)
Fixpoint idle (k : nat) (w : world) : world :=
  match k with
  | O => w
  | S k => let '(d, t) := e_others env (w_tick w) (w_db w) (w_tables w) in idle k (mkWorld d t (w_log w) (S (w_tick w)))
  end.

Definition row (ns name : string) (w : world) : option Volume := d_volumes (w_db w) !! (ns, name).

Definition coming (v : Volume) : Prop := is_ready v = false ∧ is_dead v = false.

Lemma waitReadyLoop_sees fuel deadline ns name k v w :
  (k < fuel)%nat →
  (∀ i, (i ≤ k)%nat → e_fault env (w_tick w + 2 * i) = false) →
  (∀ i, (i < k)%nat → be_cancelled be (w_tick w + 2 * i + 1) = false ∧ e_now env (w_tick w + 2 * i + 1) ≤ deadline ∧
     ∃ u, row ns name (idle (2 * i + 1) w) = Some u ∧ coming u) →
  row ns name (idle (2 * k + 1) w) = Some v → is_ready v = true →
  waitReadyLoop env be fuel deadline ns name w = (idle (2 * k + 1) w, Some (Got v)).
Proof.
  revert k w. induction fuel as [|fuel IH]; intros k w Hk Hf Hc Hrow Hv; [lia|]. cbn [waitReadyLoop].
  unfold mbind, prog_bind, try, getVolume, storeCall, external. pose proof (Hf 0%nat ltac:(lia)) as Hf0. rewrite Nat.add_0_r in Hf0.
  destruct k as [|k].
  - cbn in Hrow. cbn [idle Nat.mul Nat.add]. destruct (e_others _ _ _ _) as [d t]. rewrite Hf0. unfold row in Hrow. cbn in Hrow |- *. by rewrite Hrow, Hv.
  - destruct (Hc 0%nat ltac:(lia)) as (Hcan & Hnow & u & Hu & Hr & Hd). replace (w_tick w + 2 * 0 + 1)%nat with (S (w_tick w)) in * by lia.
    cbn [Nat.mul Nat.add idle] in Hu. replace (2 * S k + 1)%nat with (S (S (2 * k + 1))) in * by lia. cbn [idle] in Hrow |- *.
    assert (Hc' : ∀ i, (i < k)%nat → be_cancelled be (S (S (w_tick w)) + 2 * i + 1) = false ∧ e_now env (S (S (w_tick w)) + 2 * i + 1) ≤ deadline ∧
      ∃ u, row ns name (idle (S (S (2 * i + 1))) w) = Some u ∧ coming u).
    { intros i Hi. replace (S (S (w_tick w)) + 2 * i + 1)%nat with (w_tick w + 2 * S i + 1)%nat by lia.
      replace (S (S (2 * i + 1))) with (2 * S i + 1)%nat by lia. apply Hc. lia. }
    cbn [idle] in Hc'. destruct (e_others _ _ _ _) as [d t]. rewrite Hf0. cbn [w_tick w_db w_tables w_log d_volumes] in *.
    unfold row in Hu. cbn in Hu. rewrite Hu, Hr, Hd. unfold now, gets. cbn [w_tick]. unfold After. rewrite (proj2 (Z.ltb_ge _ _) Hnow).
    unfold pause, external. cbn [w_tick w_db w_tables w_log]. destruct (e_others _ _ _ _) as [d' t']. rewrite Hcan.
    apply IH; [lia| |done|done|done]. intros i Hi. cbn [w_tick].
    replace (S (S (w_tick w)) + 2 * i)%nat with (w_tick w + 2 * S i)%nat by lia. apply Hf. lia.
Qed.

(** A volume another goroutine makes ready in time is found: when the row is
    still coming up at the first [k] reads and ready at the next, before the
    deadline, with no fault or cancellation, the wait returns that row and has
    written nothing. *)
Theorem wait_sees_ready ns name k v w :
  (k < readyRounds)%nat →
  (∀ i, (i ≤ k)%nat → e_fault env (w_tick w + 2 * i) = false) →
  (∀ i, (i < k)%nat → be_cancelled be (w_tick w + 2 * i + 1) = false ∧
     e_now env (w_tick w + 2 * i + 1) ≤ e_now env (w_tick w) + volumeReadyTimeout ∧
     ∃ u, row ns name (idle (2 * i + 1) w) = Some u ∧ coming u) →
  row ns name (idle (2 * k + 1) w) = Some v → is_ready v = true →
  waitForVolumeReady env be ns name w = (idle (2 * k + 1) w, Some (Got v)).
Proof. intros. by apply waitReadyLoop_sees. Qed.
End Waits.

(** ** What resolving a mount writes *)

Section Writes.
Context (env : env) (be : binder_env) (service : MountService) (instance : MountInstance) (m : VolumeMount).

#[local] Abbreviation ref := (mountRef service instance m).
#[local] Abbreviation claim := (ms_Namespace service +:+ "/" +:+ mi_Name instance).

(** [Seen] holds of every row the store may hold under a key: those it starts
    with, those others put there, the row of the mount's claim template, and rows
    with another binding.  What is proved of every such [Seen] is proved of the
    rows that were under the key while the mount was resolved. *)
Record covers (Seen : string * string → Volume → Prop) (w : world) : Prop := mkCovers {
  cv_start k v : d_volumes (w_db w) !! k = Some v → Seen k v;
  cv_others n d t k v : (∀ k v, d_volumes d !! k = Some v → Seen k v) →
    d_volumes (e_others env n d t).1 !! k = Some v → Seen k v;
  cv_template tpl t : mt_ClaimTemplate m = Some tpl →
    Seen (ms_Namespace service, ref.2) (templateRow service m tpl ref.2 (mi_Ordinal instance) t);
  cv_binding k v node t : Seen k v → Seen (v_Namespace v, v_Name v) (with_v_binding v node claim t);
}.

Context (Seen : string * string → Volume → Prop) (w0 : world) (Hseen : covers Seen w0).

(** The pending row of the mount's own claim template, or a row of the volume the
    mount names, ready, with nothing changed but its binding. *)
Definition lawful_write (x : entry) : Prop :=
  (∃ tpl t, mt_ClaimTemplate m = Some tpl ∧
     x = LVolume (templateRow service m tpl ref.2 (mi_Ordinal instance) t)) ∨
  (∃ v n t, Seen ref v ∧ is_ready v = true ∧ be_nodeID be n ≠ "" ∧ (w_tick w0 ≤ n)%nat ∧
     x = LVolume (with_v_binding v (be_nodeID be n) claim t)).

Record ok (w : world) : Prop := mkOk {
  ok_log : Forall lawful_write (w_log w);
  ok_rows k v : d_volumes (w_db w) !! k = Some v → Seen k v;
  ok_tick : (w_tick w0 ≤ w_tick w)%nat;
}.

Lemma external_ok {A} (f : nat → world → world * option A) (P : A → world → Prop) :
  (∀ n w, ok w → match f n w with (w', Some a) => P a w' | (w', None) => ok w' end) → post ok (external env f) P ok.
Proof.
  intros H w [Hl Hr Ht]. unfold external. destruct (e_others _ _ _ _) as [d t] eqn:E. apply H. split; cbn; [done| |lia].
  intros k v Hk. apply (cv_others _ _ Hseen (w_tick w) (w_db w) (w_tables w)); [exact Hr|by rewrite E].
Qed.

Lemma storeCall_ok {A} (f : world → world * option A) (P : A → world → Prop) :
  (∀ w, ok w → match f w with (w', Some a) => P a w' | (w', None) => ok w' end) → post ok (storeCall env f) P ok.
Proof. intros H. apply external_ok. intros n w Hw. destruct (e_fault env n); [done|]. by apply H. Qed.

Lemma getVolume_ok ns name : post ok (getVolume env ns name) (λ v w, ok w ∧ Seen (ns, name) v) ok.
Proof. apply storeCall_ok. intros w Hw. destruct (d_volumes _ !! _) as [v|] eqn:E; [split; [done|by apply Hw]|done]. Qed.

Lemma write_ok v w :
  lawful_write (LVolume v) → Seen (v_Namespace v, v_Name v) v → ok w →
  ok (log (LVolume v) (with_volumes <[(v_Namespace v, v_Name v) := v]> w)).
Proof.
  intros Hl Hs [H1 H2 H3]. split; cbn; [by apply Forall_app; auto| |done].
  intros k u. rewrite lookup_insert_Some. intros [[<- <-]|[_ ?]]; [done|by apply H2].
Qed.

Lemma pause_ok : keeps ok (pause env be).
Proof. apply external_ok. intros n w Hw. by destruct (be_cancelled be n). Qed.

Lemma createVolumeRow_ok v : lawful_write (LVolume v) → Seen (v_Namespace v, v_Name v) v → keeps ok (createVolumeRow env v).
Proof. intros Hv Hs. apply storeCall_ok. intros w Hw. destruct (_ !! _); [done|]. by apply write_ok. Qed.

Lemma putVolume_ok v : lawful_write (LVolume v) → Seen (v_Namespace v, v_Name v) v → keeps ok (putVolume env v).
Proof. intros Hv Hs. apply storeCall_ok. intros w Hw. destruct (_ !! _); [|done]. by apply write_ok. Qed.

Lemma now_ok : keeps ok (now env).
Proof. apply keeps_gets. Qed.

Lemma waitReadyLoop_ok fuel deadline ns name :
  post ok (waitReadyLoop env be fuel deadline ns name) (λ r w, ok w ∧ ∀ v, r = Got v → Seen (ns, name) v ∧ is_ready v = true) ok.
Proof.
  induction fuel as [|fuel IH]; cbn [waitReadyLoop]; [by apply post_ret|].
  eapply post_bind with (R := λ r w, ok w ∧ ∀ v, r = Some v → Seen (ns, name) v).
  { apply post_try. eapply post_weaken; [apply getVolume_ok|done|by intros v w [? ?]; split; [|intros ? [= <-]]|done]. }
  intros [v|]; apply post_pure; intros Hv; [|by apply post_ret].
  destruct (is_ready v) eqn:Hr; [apply post_ret; intros w Hw; split; [done|]; intros ? [= <-]; auto|].
  destruct (is_dead v); [by apply post_ret|]. eapply post_bind; [apply now_ok|]. intros t. destruct (After t deadline); [by apply post_ret|].
  eapply post_bind; [apply keeps_try, pause_ok|]. intros [[]|]; [apply IH|by apply post_ret].
Qed.

Lemma waitTargetLoop_ok fuel deadline key :
  post ok (waitTargetLoop env be fuel deadline key) (λ r w, ok w ∧ ∀ s, r = Got s → be_target be (w_tick w) key = Some s) ok.
Proof.
  induction fuel as [|fuel IH]; cbn [waitTargetLoop]; [by apply post_ret|].
  eapply post_bind with (R := λ o w, ok w ∧ o = be_target be (w_tick w) key); [by apply post_gets|]. intros o.
  destruct (negb _) eqn:E.
  - apply post_ret. intros w [Hw ->]. split; [done|]. intros s [= <-]. bools. by destruct (be_target be (w_tick w) key).
  - eapply post_weaken with (P' := ok); [|by intros w []|intros r w Hw; exact Hw|intros w Hw; exact Hw].
    eapply post_bind; [apply now_ok|]. intros t. destruct (After t deadline); [by apply post_ret|].
    eapply post_bind; [apply keeps_try, pause_ok|]. intros [[]|]; [apply IH|by apply post_ret].
Qed.

Lemma ensureClaimTemplateVolume_ok tpl :
  mt_ClaimTemplate m = Some tpl → keeps ok (ensureClaimTemplateVolume env service m tpl ref.2 (mi_Ordinal instance)).
Proof.
  intros Hm. assert (Hget : keeps ok (getVolume env (ms_Namespace service) ref.2)).
  { eapply post_weaken; [apply getVolume_ok|done|by intros v w []|done]. }
  unfold ensureClaimTemplateVolume. apply keeps_bind; [by apply keeps_try|]. intros [?|]; [apply keeps_ret|].
  apply keeps_bind; [apply keeps_guard|]. intros _. apply keeps_bind; [apply now_ok|]. intros t.
  apply keeps_bind; [apply keeps_try, createVolumeRow_ok; [left; eauto|by apply (cv_template _ _ Hseen)]|].
  intros [?|]; [apply keeps_ret|]. apply keeps_bind; [done|]. intros ?. apply keeps_ret.
Qed.

(** What survives of the row read: it was ready, and where its data is. *)
Definition binds (v v' : Volume) : Prop := is_ready v' = is_ready v ∧ v_Handle v' = v_Handle v ∧ MountKey v' = MountKey v.

Lemma bindVolume_ok v :
  Seen ref v → is_ready v = true → post ok (bindVolume env be service instance v) (λ v' w, ok w ∧ binds v v') ok.
Proof.
  intros Hs Hv. unfold bindVolume.
  eapply post_bind with (R := λ o w, ok w ∧ ∃ n, (w_tick w0 ≤ n)%nat ∧ o = be_nodeID be n).
  { apply post_gets. intros w Hw. split; [done|]. exists (w_tick w). split; [apply Hw|done]. }
  intros o. apply post_pure. intros (n & Hn0 & ->).
  case_bool_decide as Hn; [by apply post_ret|]. destruct (_ && _); [by apply post_ret|].
  eapply post_bind; [apply now_ok|]. intros t.
  eapply post_bind with (R := λ _, ok); [apply putVolume_ok; [right; by exists v, n, t|by apply (cv_binding _ _ Hseen ref v)]|].
  intros _. by apply post_ret.
Qed.

(** The source is the handle of a row of the volume the mount names, or the target
    the node reports for it at the end. *)
Definition resolved (rv : ResolvedVolumeMount) (w : world) : Prop :=
  (rv_VolumeNamespace rv, rv_VolumeName rv) = ref ∧ rv_Source rv ≠ "" ∧
  rv_Name rv = mt_Name m ∧ rv_MountPath rv = mt_MountPath m ∧ rv_SubPath rv = mt_SubPath m ∧ rv_ReadOnly rv = mt_ReadOnly m ∧
  ∃ v, Seen ref v ∧ is_ready v = true ∧ (rv_Source rv = v_Handle v ∨ be_target be (w_tick w) (MountKey v) = Some (rv_Source rv)).

Lemma got_ok {A} (r : wait A) (Q : A → world → Prop) :
  post (λ w, ok w ∧ ∀ a, r = Got a → Q a w) (got r) (λ a w, ok w ∧ Q a w) ok.
Proof. destruct r; [apply post_ret; intros w []; auto|apply post_fail; by intros w []..]. Qed.

Lemma resolveVolumeMount_ok : post ok (resolveVolumeMount env be service instance m) (λ rv w, ok w ∧ resolved rv w) ok.
Proof.
  unfold resolveVolumeMount. eapply post_bind with (R := λ _, ok); [apply keeps_guard|]. intros _.
  destruct ref as [ns name] eqn:Href.
  eapply post_bind with (R := λ _, ok).
  { destruct (mt_ClaimTemplate m) eqn:Ht; [|apply keeps_ret]. replace name with ref.2 by by rewrite Href.
    by apply ensureClaimTemplateVolume_ok. }
  intros _. eapply post_bind; [eapply post_bind; [apply now_ok|intros t; apply waitReadyLoop_ok]|]. intros r. rewrite <-Href.
  eapply post_bind; [apply (got_ok r (λ v _, Seen ref v ∧ is_ready v = true))|]. intros v. apply post_pure. intros [Hs Hv].
  eapply post_bind; [by apply bindVolume_ok|]. intros v'. apply post_pure. intros (B1 & B2 & B3).
  eapply post_bind with (R := λ _, ok); [apply keeps_gets|]. intros wired.
  eapply post_bind with (R := λ s w, ok w ∧ (s = v_Handle v' ∨ be_target be (w_tick w) (MountKey v') = Some s)).
  { destruct wired; [|apply post_ret; auto].
    eapply post_bind; [eapply post_bind; [apply now_ok|intros t; apply waitTargetLoop_ok]|]. intros r'.
    eapply post_weaken; [apply (got_ok r' (λ s w, be_target be (w_tick w) (MountKey v') = Some s))|done| |done]. intros s w [? ?]. auto. }
  intros source. eapply post_bind with (R := λ _ w, (ok w ∧ (source = v_Handle v' ∨ be_target be (w_tick w) (MountKey v') = Some source)) ∧ source ≠ "").
  { apply post_guard; [|by intros _ w []]. by intros Hne%negb_true_iff%bool_decide_eq_false_1 w Hw. }
  intros _. apply post_pure. intros Hne.
  set (R := λ w, ok w ∧ (source = v_Handle v' ∨ be_target be (w_tick w) (MountKey v') = Some source)).
  eapply post_bind with (R := λ _, R); [by apply post_gets|]. intros fs.
  eapply post_bind with (R := λ _, R); [by apply post_guard; [|intros _ w []]|]. intros _. apply post_ret. intros w [Hw Hsrc].
  split; [done|]. unfold resolved. cbn. split_and!; try done. exists v. split_and!; [done|done|]. by rewrite <-B2, <-B3.
Qed.
End Writes.

(** C23: In any environment, resolving a mount writes nothing but the pending row
    of its own claim template and bindings, to this node and instance, of ready
    rows of the volume the mount names; and what it returns has a non-empty source,
    the handle of such a row or the path the node reports for that volume when the
    resolution ends.  A row of the volume is whatever the store may have held under
    the volume's name meanwhile ([covers]), with other writers at work. *)
Theorem mount_resolution_safe env be service instance m Seen w :
  w_log w = [] → covers env service instance m Seen w →
  let '(w', r) := resolveVolumeMount env be service instance m w in
  Forall (lawful_write be service instance m Seen w) (w_log w') ∧
  ∀ rv, r = Some rv → resolved be service instance m Seen rv w'.
Proof.
  intros Hw Hs. pose proof (resolveVolumeMount_ok env be service instance m Seen w Hs w) as H.
  destruct (resolveVolumeMount _ _ _ _ _ w) as [w' [rv|]].
  - destruct H as [[Hl _ _] Hr]; [split; [by rewrite Hw|apply Hs|done]|]. split; [done|]. by intros ? [= <-].
  - destruct H as [Hl _ _]; [split; [by rewrite Hw|apply Hs|done]|]. done.
Qed.

(** ** Mounts at the edges

    The binder together with the volume controller, and what its writes do not
    protect: claims taken over, templates of two services that collide, bindings
    written over a concurrent change. *)

Section Quiet.
Context (env : env) `{!Quiet env} (be : binder_env) (node : string).
Context (Hunwired : ∀ n, be_wired be n = false) (Hnode : ∀ n, be_nodeID be n = node) (Hnamed : node ≠ "").

Lemma waitForVolumeReady_quiet ns name v w :
  row ns name w = Some v → is_ready v = true → waitForVolumeReady env be ns name w = (ticked w, Some (Got v)).
Proof.
  intros Hrow Hv. unfold waitForVolumeReady, now, gets. unfold mbind, prog_bind. cbn [waitReadyLoop readyRounds].
  unfold mbind, prog_bind, try, getVolume. rewrite storeCall_quiet by done. cbn [ticked w_db]. unfold row in Hrow. by rewrite Hrow, Hv.
Qed.

(** A claim of a ready volume resolves to its handle and leaves the volume bound
    to this instance. *)
Lemma claim_resolves service instance m name v w :
  mt_Claim m = Some name → mt_ClaimTemplate m = None →
  mountRef service instance m = (v_Namespace v, v_Name v) → row (v_Namespace v) (v_Name v) w = Some v → is_ready v = true → v_Handle v ≠ "" →
  mt_FSUser m = None → mt_FSGroup m = None → mt_FSMode m = "" →
  ∃ w' t, let v' := with_v_binding v node (ms_Namespace service +:+ "/" +:+ mi_Name instance) t in
    resolveVolumeMount env be service instance m w =
      (w', Some (mkResolvedVolume (mt_Name m) (mt_MountPath m) (v_Handle v) (v_Name v) (v_Namespace v) (mt_ReadOnly m) (mt_SubPath m))) ∧
    row (v_Namespace v) (v_Name v) w' = Some v'.
Proof.
  intros Hc Ht Href Hrow Hr Hh F1 F2 F3. unfold resolveVolumeMount. rewrite Href, Hc, Ht. cbn [guardp].
  unfold mbind, prog_bind, mret, prog_ret. rewrite (waitForVolumeReady_quiet _ _ v) by done. cbn [got]. unfold mret, prog_ret.
  unfold applyFSOwnership, bindVolume, gets, mbind, prog_bind, now, gets. rewrite Hnode, F1, F2, F3, bool_decide_false by done.
  destruct (bool_decide (v_BoundNode v = node) && _) eqn:E.
  - bools. unfold mret, prog_ret. rewrite Hunwired, bool_decide_false by done. eexists _, (v_UpdatedAt v). split; [done|]. unfold row, with_v_binding. cbn.
    unfold row in Hrow. rewrite Hrow. destruct v. cbn in *. by subst.
  - unfold putVolume. rewrite storeCall_quiet by done. cbn [ticked w_db v_Namespace v_Name with_v_binding]. unfold row in Hrow. rewrite Hrow.
    unfold mret, prog_ret. rewrite Hunwired. cbn [v_Handle with_v_binding]. rewrite bool_decide_false by done.
    eexists _, _. split; [reflexivity|]. unfold row. cbn. apply lookup_insert_eq.
Qed.

(** A volume held by one instance is handed to the next one that claims it,
    whatever its access mode: both run on the same data, and only the second
    binding is on record. *)
Theorem claim_taken_over service instance service' instance' m m' c c' v w :
  mt_Claim m = Some c → mt_ClaimTemplate m = None → mt_Claim m' = Some c' → mt_ClaimTemplate m' = None →
  mountRef service instance m = (v_Namespace v, v_Name v) → mountRef service' instance' m' = (v_Namespace v, v_Name v) →
  row (v_Namespace v) (v_Name v) w = Some v → is_ready v = true → v_Handle v ≠ "" → v_AccessMode v = AccessModeRWO →
  mt_FSUser m = None → mt_FSGroup m = None → mt_FSMode m = "" → mt_FSUser m' = None → mt_FSGroup m' = None → mt_FSMode m' = "" →
  ∃ w1 w2 r r' t, resolveVolumeMount env be service instance m w = (w1, Some r) ∧
    resolveVolumeMount env be service' instance' m' w1 = (w2, Some r') ∧ rv_Source r = rv_Source r' ∧
    row (v_Namespace v) (v_Name v) w2 = Some (with_v_binding v node (ms_Namespace service' +:+ "/" +:+ mi_Name instance') t).
Proof.
  intros H1 H2 H3 H4 R1 R2 Hrow Hr Hh _ F1 F2 F3 G1 G2 G3.
  destruct (claim_resolves service instance m c v w) as (w1 & t1 & E1 & Hrow1); [done..|].
  destruct (claim_resolves service' instance' m' c' (with_v_binding v node (ms_Namespace service +:+ "/" +:+ mi_Name instance) t1) w1)
    as (w2 & t2 & E2 & Hrow2); [done..|].
  exists w1, w2. do 2 eexists. exists t2. split_and!; [exact E1|exact E2|done|exact Hrow2].
Qed.
End Quiet.

(** ** The binder and the volume controller *)

Definition empty_store : world := mkWorld (mkDb ∅ {["fast" := fast_class]} ∅) (mkTables ∅ ∅ ∅ ∅ ∅ false) [] 0.

(** A node without a resolver, where nothing fails. *)
Definition node_1 : binder_env :=
  mkBinderEnv (λ _, false) (λ _ _, None) (λ _, "node-1") (λ _, false) (λ _ _, None) (λ _ _, true) (λ _ _ _, None) (λ _ _ _, None).

(** While the binder pauses at tick [k], the controller handles the event of the
    row the binder created. *)
Definition controller_at (k : nat) (ns name h : string) (n : nat) (d : db) (t : tables) : db * tables :=
  if bool_decide (n = k) then
    let ev := mkVolumeEvent WatchEventCreated ns name (d_volumes d !! (ns, name)) in
    let w := (runEvent no_url id one_k (calm (λ _, Some h)) stock ev (mkWorld d t [] 0)).1 in (w_db w, w_tables w)
  else (d, t).

Definition template_10Gi : VolumeClaimTemplate := mkClaimTemplate "fast" "10Gi" AccessModeRWO ∅ ReclaimPolicyDelete.
Definition templated (name path : string) : VolumeMount := mkMount name path false "" None (Some template_10Gi) None None "".
Definition db_service (name mount : string) : MountService := mkMountService "id" name "prod" [] [] [templated mount "/data"].
Definition replica (name : string) : MountInstance := mkMountInstance name "prod" 0.

Definition provisioned (h : string) (c : Ascii.ascii) : world * option ResolvedVolumeMount :=
  resolveVolumeMount (example_env (λ _, false) (λ _, None) (controller_at 3 "prod" "data-db-cache-0" (String c h))) node_1
    (db_service "cache" "data-db") (replica "cache-0") (templated "data-db" "/data") empty_store.

(** The binder creates a replica's volume, waits while the volume controller
    provisions it, and binds it: the first cast of a service with a claim
    template gets its data from one reconcile. *)
Theorem cast_provisions_and_binds c h :
  rv_Source <$> (provisioned h c).2 = Some (String c h) ∧
  ∃ v, row "prod" "data-db-cache-0" (provisioned h c).1 = Some v ∧ v_Status v = VolumeStatusAvailable ∧ v_Handle v = String c h ∧
    v_BoundNode v = "node-1" ∧ v_BoundClaim v = "prod/cache-0" ∧ v_OwnerService v = "prod/cache".
Proof. split; [vm_compute; reflexivity|]. eexists. split; [vm_compute; reflexivity|]. by repeat split. Qed.

(** Two services of one namespace share a volume when their mount and service
    names join to the same text: the second service's first replica is given the
    first one's data, and takes the binding. *)
Theorem claim_templates_collide c h :
  let r := resolveVolumeMount (calm (λ _, None)) node_1 (db_service "db-cache" "data") (replica "db-cache-0") (templated "data" "/data")
             (provisioned h c).1 in
  rv_Source <$> r.2 = Some (String c h) ∧
  ∃ v, row "prod" "data-db-cache-0" r.1 = Some v ∧ v_OwnerService v = "prod/cache" ∧ v_BoundClaim v = "prod/db-cache-0".
Proof. split; [vm_compute; reflexivity|]. eexists. split; [vm_compute; reflexivity|]. by repeat split. Qed.

(** ** Writes over a concurrent change *)

Definition ready_volume : Volume := with_v_status used_volume VolumeStatusAvailable "" 20.
Definition ready_world : world := with_volumes <[("prod", "data") := ready_volume]> start.
Definition claiming : VolumeMount := mkMount "data" "/data" false "" (Some "data") None None None "".

(** The binder writes the whole row it read: a volume that an operator detaches
    (or a controller marks) between the read and the write is put back as it was. *)
Theorem binding_overwrites status :
  let released := with_v_status ready_volume status "detached" 30 in
  let others := λ n (d : db) (t : tables),
    (if bool_decide (n = 1%nat) then mkDb (<[("prod", "data") := released]> (d_volumes d)) (d_classes d) (d_snapshots d) else d, t) in
  let r := resolveVolumeMount (example_env (λ _, false) (λ _, None) others) node_1 (db_service "cache" "x") (replica "cache-0") claiming ready_world in
  rv_Source <$> r.2 = Some "vol-1" ∧
  ∃ v, row "prod" "data" r.1 = Some v ∧ v_Status v = VolumeStatusAvailable ∧ v_StatusReason v = "".
Proof. split; [vm_compute; reflexivity|]. eexists. split; [vm_compute; reflexivity|]. by repeat split. Qed.

(** ** Witnesses *)

Lemma claim_names_distinct_witness : claimName "a" "b" 1 ≠ claimName "a" "b" 11.
Proof. intros E. destruct (claim_names_distinct "a" "a" "b" 1 11) as [_ H]; [lia..|exact E|]. discriminate H. Defined.

Definition paced_env : env := mkEnv (λ _, false) (λ n, Z.of_nat n * volumeReadyPollInterval) (λ _ _, None) (λ _ _, true) (λ _, true) None alone.

Lemma waits_end_witness : ∃ w' r, waitForVolumeReady paced_env node_1 "prod" "data" start = (w', Some r) ∧ r ≠ OutOfFuel.
Proof.
  destruct (waits_end paced_env node_1 "prod" "data" data_volume start) as [H _]; [..|exact H].
  - intros n. cbn [paced_env e_now]. unfold volumeReadyPollInterval, Second. lia.
  - intros i _. cbn [paced_env e_now start w_tick]. unfold volumeReadyPollInterval, Second. lia.
  - intros i _. cbn [paced_env e_now start w_tick]. unfold volumeReadyPollInterval, mountTargetPollInterval, Millisecond, Second. lia.
Defined.

Definition ready_later : nat → db → tables → db * tables := λ n d t,
  (if bool_decide (n = 3%nat) then w_db ready_world else d, t).

Lemma wait_sees_ready_witness :
  waitForVolumeReady (example_env (λ _, false) (λ _, None) ready_later) node_1 "prod" "data" start =
    (idle (example_env (λ _, false) (λ _, None) ready_later) 5 start, Some (Got ready_volume)).
Proof.
  apply (wait_sees_ready _ node_1 "prod" "data" 2 ready_volume start).
  - unfold readyRounds. lia.
  - reflexivity.
  - intros i Hi. split; [reflexivity|]. split; [cbn; unfold volumeReadyTimeout, Second; lia|].
    exists data_volume. assert (i = 0%nat ∨ i = 1%nat) as [-> | ->] by lia; split; [vm_compute; reflexivity|by split|vm_compute; reflexivity|by split].
  - vm_compute. reflexivity.
  - vm_compute. reflexivity.
Defined.

(** Rows the store may hold while the claim [data] is resolved alone. *)
Definition data_rows (k : string * string) (v : Volume) : Prop :=
  k = ("prod", "data") ∧ v_Namespace v = "prod" ∧ v_Name v = "data" ∧ v_Handle v = v_Handle ready_volume.

Lemma data_rows_covers : covers (calm (λ _, None)) (db_service "cache" "x") (replica "cache-0") claiming data_rows ready_world.
Proof.
  split.
  - intros k v. cbn. rewrite lookup_insert_Some. intros [[<- <-]|[Hne Hk]]; [done|]. apply lookup_singleton_Some in Hk as [? _]. done.
  - intros n d t k v H Hk. by apply H.
  - done.
  - intros k v node t (-> & E1 & E2 & E3). unfold data_rows. cbn. by rewrite E1, E2.
Qed.

Lemma mount_resolution_safe_witness :
  let '(w', r) := resolveVolumeMount (calm (λ _, None)) node_1 (db_service "cache" "x") (replica "cache-0") claiming ready_world in
  ∃ rv, r = Some rv ∧ length (w_log w') = 1%nat ∧
    ∃ v, data_rows ("prod", "data") v ∧
      (rv_Source rv = v_Handle v ∨ be_target node_1 (w_tick w') (MountKey v) = Some (rv_Source rv)).
Proof.
  pose proof (mount_resolution_safe (calm (λ _, None)) node_1 (db_service "cache" "x") (replica "cache-0") claiming data_rows ready_world
    eq_refl data_rows_covers) as H.
  destruct (resolveVolumeMount _ _ _ _ _ _) as [w' r] eqn:E. vm_compute in E. injection E as <- <-. destruct H as [_ H].
  destruct (H _ eq_refl) as (_ & _ & _ & _ & _ & _ & v & Hv & _ & Hs). eexists. split; [reflexivity|]. split; [reflexivity|]. by exists v.
Defined.

Lemma claim_taken_over_witness :
  ∃ w1 w2 r r' t,
    resolveVolumeMount (calm (λ _, None)) node_1 (db_service "cache" "x") (replica "cache-0") claiming ready_world = (w1, Some r) ∧
    resolveVolumeMount (calm (λ _, None)) node_1 (db_service "api" "x") (replica "api-0") claiming w1 = (w2, Some r') ∧ rv_Source r = rv_Source r' ∧
    row "prod" "data" w2 = Some (with_v_binding ready_volume "node-1" "prod/api-0" t).
Proof.
  apply (claim_taken_over (calm (λ _, None)) node_1 "node-1" (λ _, eq_refl) (λ _, eq_refl) ltac:(discriminate)
    (db_service "cache" "x") (replica "cache-0") (db_service "api" "x") (replica "api-0") claiming claiming "data" "data" ready_volume ready_world);
    try reflexivity; discriminate.
Defined.
