(* ===== verification/InitSteps.v ===== *)
(** * Init steps (pkg/types/init_step.go, pkg/orchestrator/instance/instance_init_steps.go)

    The one-shot commands a service runs before its main container: the checks at
    cast time, when a step runs, its attempts, and the mark it leaves on the
    volumes it prepared.  The volumes are rows of [Storage]'s world; the instance
    the controller works on is a pointer shared with the caller, so it is part of
    the state, and every write of it and every command run goes to a log. *)

From Stdlib Require Import Ascii.
From S2P Require Import Prelude Text Effects Types Status Names Storage Mounts.

#[local] Abbreviation params := (gmap string string).

Definition RunIfFreshVolume : string := "freshVolume".
Definition RunIfFileMissing : string := "fileMissing".
Definition RunIfAlways : string := "always".

Definition InitStepRestartOnFailure : string := "OnFailure".
Definition InitStepRestartNever : string := "Never".

Definition InitStepStatusPending : string := "Pending".
Definition InitStepStatusRunning : string := "Running".
Definition InitStepStatusSucceeded : string := "Succeeded".
Definition InitStepStatusFailed : string := "Failed".
Definition InitStepStatusSkipped : string := "Skipped".

Definition InitStepReasonNonZeroExit : string := "NonZeroExit".
Definition InitStepReasonTimeout : string := "Timeout".
Definition InitStepReasonRuntimeError : string := "RuntimeError".

Definition InstanceStatusInitializing : InstanceStatus := InstanceStatusOther "Initializing".

Record RunIf := mkRunIf { ri_Type : string; ri_Path : string; ri_Volume : string }.

(** [st_Volumes]: [None] inherits every volume of the service.  Of the security
    context, the seccomp profile: its type and localhost profile. *)
Record InitStep := mkInitStep {
  st_Name : string;
  st_Image : string;
  st_Command : string;
  st_Volumes : option (list string);
  st_SecretMounts : list string;
  st_ConfigmapMounts : list string;
  st_RunIf : RunIf;
  st_Timeout : Duration;
  st_RestartPolicy : string;
  st_Seccomp : option (string * string);
}.

Record InitStepState := mkInitStepState {
  is_Name : string;
  is_Status : string;
  is_ExitCode : Z;
  is_StartedAt : Time;
  is_FinishedAt : Time;
  is_Attempts : Z;
  is_Reason : string;
}.

(** ** Checks at cast time ([false] is a validation error) *)

Definition isDNS1123Label (s : string) : bool :=
  if bool_decide (String.length s = 0%nat) || bool_decide (63 < String.length s)%nat then false
  else if hyphen_at_end s then false
  else all_chars (λ c, alnum c || is_hyphen c) s.

Definition isPathWithinMount (filePath mountPath : string) : bool :=
  let filePath := Clean filePath in
  let mountPath := Clean mountPath in
  bool_decide (filePath = mountPath) || String.prefix (mountPath +:+ "/") filePath.

Definition Canonical (t : string) : string :=
  let l := ToLower t in
  if bool_decide (l = "runtimedefault") || bool_decide (l = "default") then "default" else l.

(** [SecurityContext.Validate]. *)
Definition validateSeccomp (sp : option (string * string)) : bool :=
  match sp with
  | None => true
  | Some (t, localhost) =>
      let t := Canonical t in
      if bool_decide (t ∈ [""; "default"; "unconfined"]) then bool_decide (localhost = "")
      else if bool_decide (t = "localhost") then negb (bool_decide (localhost = "")) && IsAbs localhost
      else false
  end.

(** The type of the clause; empty is [freshVolume]. *)
Definition runIfType (step : InitStep) : string :=
  if bool_decide (ri_Type (st_RunIf step) = "") then RunIfFreshVolume else ri_Type (st_RunIf step).

Definition no_path (step : InitStep) : bool :=
  bool_decide (ri_Path (st_RunIf step) = "") && bool_decide (ri_Volume (st_RunIf step) = "").

(** The volumes of the service, by name, with their mount paths. *)
Definition validateInitRunIf (step : InitStep) (parentVolumes : params) : bool :=
  let t := runIfType step in
  let filter := default [] (st_Volumes step) in
  let hasInherit := bool_decide (st_Volumes step = None) && negb (bool_decide (parentVolumes = ∅)) in
  let hasFilter := negb (bool_decide (filter = [])) in
  let path := ri_Path (st_RunIf step) in
  if bool_decide (t = RunIfFreshVolume) then (hasInherit || hasFilter) && no_path step
  else if bool_decide (t = RunIfFileMissing) then
    negb (bool_decide (path = "")) && IsAbs path && (hasInherit || hasFilter) &&
    (let volume := ri_Volume (st_RunIf step) in
     if negb (bool_decide (volume = "")) then
       match parentVolumes !! volume with
       | None => false
       | Some mountPath =>
           negb (hasFilter && negb (bool_decide (volume ∈ filter))) && isPathWithinMount path mountPath
       end
     else existsb (λ kv, negb (hasFilter && negb (bool_decide (kv.1 ∈ filter))) && isPathWithinMount path kv.2)
            (map_to_list parentVolumes))
  else if bool_decide (t = RunIfAlways) then no_path step
  else false.

Definition validStep (runtime : string) (parentVolumes : params) (secrets configmaps : list string) (step : InitStep) : bool :=
  negb (bool_decide (st_Name step = "")) && isDNS1123Label (st_Name step) &&
  (if bool_decide (runtime ∈ [""; "container"]) then negb (bool_decide (st_Image step = ""))
   else if bool_decide (runtime = "process") then bool_decide (st_Image step = "")
   else true) &&
  negb (bool_decide (st_Command step = "")) &&
  forallb (λ name, bool_decide (is_Some (parentVolumes !! name))) (default [] (st_Volumes step)) &&
  forallb (λ name, bool_decide (name ∈ secrets)) (st_SecretMounts step) &&
  forallb (λ name, bool_decide (name ∈ configmaps)) (st_ConfigmapMounts step) &&
  validateInitRunIf step parentVolumes &&
  bool_decide (st_RestartPolicy step ∈ [""; InitStepRestartOnFailure; InitStepRestartNever]) &&
  negb (st_Timeout step <? 0) &&
  validateSeccomp (st_Seccomp step).

Fixpoint initStepsLoop (seenName : gset string) (valid : InitStep → bool) (steps : list InitStep) : bool :=
  match steps with
  | [] => true
  | step :: steps =>
      negb (bool_decide (st_Name step ∈ seenName)) && valid step && initStepsLoop ({[st_Name step]} ∪ seenName) valid steps
  end.

(** A later mount of the same name overrides an earlier one. *)
Definition parentVolumes (vols : list VolumeMount) : params :=
  fold_left (λ acc v, <[mt_Name v := mt_MountPath v]> acc) vols ∅.

Definition validateInitSteps (runtime : string) (svc : MountService) (steps : list InitStep) : bool :=
  initStepsLoop ∅ (validStep runtime (parentVolumes (ms_Volumes svc)) (sm_Name <$> ms_SecretMounts svc) (sm_Name <$> ms_ConfigmapMounts svc)) steps.

(** ** The instance, the runner and the log *)

Record InitInstance := mkInitInstance {
  ii_Namespace : string;
  ii_VolumeMounts : list ResolvedVolumeMount;
  ii_Status : InstanceStatus;
  ii_InitStates : list InitStepState;
}.

(** Errors of [Runner.RunInit]. *)
Inductive run_error := ErrInitNotSupported | ErrDeadlineExceeded | ErrRun.

#[global] Instance run_error_eq_dec : EqDecision run_error.
Proof. solve_decision. Defined.

(** A command was run, with its timeout, exit code and error; the instance was
    written. *)
Inductive init_entry :=
| Ran (step : string) (timeout : Duration) (exit : Z) (err : option run_error)
| Saved (instance : InitInstance).

Record iworld := mkIworld {
  iw_world : world;
  iw_instance : InitInstance;
  iw_log : list init_entry;
}.

#[local] Abbreviation io := (prog iworld).

(** [ie_cancelled]: the caller's context has ended.  [ie_stat]: a path exists. *)
Record init_env := mkInitEnv {
  ie_run : nat → string → Z * option run_error;
  ie_cancelled : nat → bool;
  ie_stat : nat → string → bool;
}.

Definition initStepDefaultTimeout : Duration := 300 * Second.
Definition initStepOnFailureMaxAttempts : nat := 3.

Definition initStepServiceKey (svc : MountService) : string := ms_Namespace svc +:+ "/" +:+ ms_ID svc.

Definition selectInitVolumes (mounts : list ResolvedVolumeMount) (step : InitStep) (volumeFilter : string) : list ResolvedVolumeMount :=
  List.filter (λ vm,
    match st_Volumes step with None => true | Some names => bool_decide (rv_Name vm ∈ names) end &&
    (bool_decide (volumeFilter = "") || bool_decide (rv_Name vm = volumeFilter))) mounts.

(** The host path of a container path, through one mount; [None] when the mount
    does not hold it. *)
Definition hostPath (m : ResolvedVolumeMount) (path : string) : option string :=
  if bool_decide (rv_Source m = "") || bool_decide (rv_MountPath m = "") then None
  else match Rel (Clean (rv_MountPath m)) (Clean path) with
       | None => None
       | Some rel => if climbs rel then None else Some (Join [rv_Source m; rv_SubPath m; rel])
       end.

(** The namespace of a mount's volume, by default the instance's own. *)
Definition mountNamespace (own : string) (m : ResolvedVolumeMount) : string :=
  if bool_decide (rv_VolumeNamespace m = "") then own else rv_VolumeNamespace m.

Definition with_v_initialized (v : Volume) (key : string) (t : Time) : Volume :=
  mkVolume (v_ID v) (v_Name v) (v_Namespace v) (v_StorageClassName v) (v_Size v) (v_AccessMode v) (v_ReclaimPolicy v)
    (v_Parameters v) (v_DriverParameters v) (v_Handle v) (v_OwnerService v) (v_BoundNode v) (v_BoundClaim v) (v_Status v)
    (v_StatusReason v) (<[key := t]> (v_InitializedFor v)) (v_CreatedAt v) (v_UpdatedAt v).

Definition maxAttempts (step : InitStep) : nat :=
  if bool_decide (st_RestartPolicy step = InitStepRestartOnFailure) || bool_decide (st_RestartPolicy step = "")
  then initStepOnFailureMaxAttempts else 1.

Definition stepTimeout (step : InitStep) : Duration :=
  if 0 <? st_Timeout step then st_Timeout step else initStepDefaultTimeout.

Definition started (s : InitStepState) (attempt : Z) (now : Time) : InitStepState :=
  mkInitStepState (is_Name s) InitStepStatusRunning 0 now 0 attempt "".
Definition finished (s : InitStepState) (exit : Z) (now : Time) : InitStepState :=
  mkInitStepState (is_Name s) (is_Status s) exit (is_StartedAt s) now (is_Attempts s) (is_Reason s).
Definition marked (s : InitStepState) (status reason : string) : InitStepState :=
  mkInitStepState (is_Name s) status (is_ExitCode s) (is_StartedAt s) (is_FinishedAt s) (is_Attempts s) reason.

Section Run.
Context (env : env) (ie : init_env).

(** A program of [Storage]'s world. *)
Definition lift {A} (m : prog world A) : io A := λ w,
  let '(w', r) := m (iw_world w) in (mkIworld w' (iw_instance w) (iw_log w), r).

Definition note (x : init_entry) : io unit := modify (λ w, mkIworld (iw_world w) (iw_instance w) (iw_log w ++ [x])).

Definition setInstance (f : InitInstance → InitInstance) : io unit :=
  modify (λ w, mkIworld (iw_world w) (f (iw_instance w)) (iw_log w)).

Definition setStatus (status : InstanceStatus) : io unit :=
  setInstance (λ i, mkInitInstance (ii_Namespace i) (ii_VolumeMounts i) status (ii_InitStates i)).

(** Through the pointer into [InitStates]. *)
Definition setState (i : nat) (f : InitStepState → InitStepState) : io unit :=
  setInstance (λ inst, mkInitInstance (ii_Namespace inst) (ii_VolumeMounts inst) (ii_Status inst) (alter f i (ii_InitStates inst))).

Definition clock : io Time := lift (now env).

(** A write of the instance; its error is only logged. *)
Definition persistInitStates : io unit :=
  ok ← try (lift (storeCall env (λ w, (w, Some tt))));
  match ok with
  | Some _ => inst ← gets iw_instance; note (Saved inst)
  | None => mret tt
  end.

(** Whether a volume carries the service's mark.  A volume that cannot be read is
    passed over. *)
Fixpoint findMark (serviceKey own : string) (mounts : list ResolvedVolumeMount) : io bool :=
  match mounts with
  | [] => mret false
  | m :: mounts =>
      if bool_decide (rv_VolumeName m = "") then findMark serviceKey own mounts
      else let ns := mountNamespace own m in
           vol ← try (lift (getVolume env ns (rv_VolumeName m)));
           match vol with
           | None => findMark serviceKey own mounts
           | Some vol => if bool_decide (is_Some (v_InitializedFor vol !! serviceKey)) then mret true
                         else findMark serviceKey own mounts
           end
  end.

Definition fileExists (path : string) (mounts : list ResolvedVolumeMount) : io bool :=
  gets (λ w, existsb (λ m, match hostPath m path with Some full => ie_stat ie (w_tick (iw_world w)) full | None => false end) mounts).

Definition evaluateRunIf (step : InitStep) (serviceKey : string) : io bool :=
  inst ← gets iw_instance;
  let rt := runIfType step in
  if bool_decide (rt = RunIfAlways) then mret true
  else if bool_decide (rt = RunIfFreshVolume) then
    found ← findMark serviceKey (ii_Namespace inst) (selectInitVolumes (ii_VolumeMounts inst) step "");
    mret (negb found)
  else if bool_decide (rt = RunIfFileMissing) then
    found ← fileExists (ri_Path (st_RunIf step)) (selectInitVolumes (ii_VolumeMounts inst) step (ri_Volume (st_RunIf step)));
    mret (negb found)
  else mret true.

(** A write under the mount's namespace and the row's own name. *)
Definition putVolumeAt (ns : string) (v : Volume) : prog world unit := storeCall env (λ w,
  match d_volumes (w_db w) !! (ns, v_Name v) with
  | None => (w, None)
  | Some _ => (log (LVolume v) (with_volumes <[(ns, v_Name v) := v]> w), Some tt)
  end).

Definition markOne (own serviceKey : string) (t : Time) (m : ResolvedVolumeMount) : io unit :=
  if bool_decide (rv_VolumeName m = "") then mret tt
  else let ns := mountNamespace own m in
       vol ← try (lift (getVolume env ns (rv_VolumeName m)));
       match vol with
       | None => mret tt
       | Some vol => try (lift (putVolumeAt ns (with_v_initialized vol serviceKey t)));; mret tt
       end.

Definition markVolumesInitialized (step : InitStep) (serviceKey : string) : io unit :=
  inst ← gets iw_instance;
  t ← clock;
  each (markOne (ii_Namespace inst) serviceKey t) (selectInitVolumes (ii_VolumeMounts inst) step "").

(** One execution of the command. *)
Definition runInit (step : InitStep) : io (Z * option run_error) :=
  r ← lift (external env (λ n w, (w, Some (ie_run ie n (st_Name step)))));
  note (Ran (st_Name step) (stepTimeout step) r.1 r.2);; mret r.

Definition cancelled : io bool := gets (λ w, ie_cancelled ie (w_tick (iw_world w))).

(** How a command ended. *)
Inductive outcome := Success | Unsupported | Failure (reason : string).

Definition classify (r : Z * option run_error) : outcome :=
  match r with
  | (exit, None) => if exit =? 0 then Success else Failure InitStepReasonNonZeroExit
  | (_, Some ErrInitNotSupported) => Unsupported
  | (_, Some ErrDeadlineExceeded) => Failure InitStepReasonTimeout
  | (_, Some ErrRun) => Failure InitStepReasonRuntimeError
  end.

(** The state of step [i] in the end, written back. *)
Definition conclude (i : nat) (status : string) (reason : option string) (result : bool) : io bool :=
  setState i (λ s, marked s status (default (is_Reason s) reason));; persistInitStates;; mret result.

(** The attempts from number [attempt] on, [budget] of them; whether one succeeded. *)
Fixpoint executeLoop (budget : nat) (attempt : Z) (step : InitStep) (i : nat) : io bool :=
  match budget with
  | O => conclude i InitStepStatusFailed None false
  | S budget =>
      stop ← cancelled;
      if (stop : bool) then conclude i InitStepStatusFailed (Some InitStepReasonRuntimeError) false
      else
        t ← clock; setState i (λ s, started s attempt t);; persistInitStates;;
        r ← runInit step;
        t ← clock; setState i (λ s, finished s r.1 t);;
        match classify r with
        | Success => conclude i InitStepStatusSucceeded None true
        | Unsupported => conclude i InitStepStatusFailed (Some InitStepReasonRuntimeError) false
        | Failure reason =>
            setState i (λ s, marked s (is_Status s) reason);;
            if bool_decide (st_RestartPolicy step = InitStepRestartNever) then conclude i InitStepStatusFailed None false
            else match budget with
                 | O => conclude i InitStepStatusFailed None false
                 | S _ =>
                     conclude i InitStepStatusFailed None false;;
                     go ← lift (external env (λ n w, (w, Some (negb (ie_cancelled ie n)))));
                     if (go : bool) then executeLoop budget (attempt + 1) step i else mret false
                 end
        end
  end.

Definition executeInitStep (step : InitStep) (i : nat) : io bool := executeLoop (maxAttempts step) 1 step i.

(** The steps from index [i] on; fails when a step does. *)
Fixpoint initLoop (serviceKey : string) (i : nat) (steps : list InitStep) : io unit :=
  match steps with
  | [] => mret tt
  | step :: steps =>
      shouldRun ← evaluateRunIf step serviceKey;
      if (shouldRun : bool) then
        ok ← executeInitStep step i;
        if (ok : bool) then markVolumesInitialized step serviceKey;; initLoop serviceKey (S i) steps
        else setStatus InstanceStatusFailed;; persistInitStates;; fail
      else conclude i InitStepStatusSkipped None true;; initLoop serviceKey (S i) steps
  end.

Definition runInitSteps (svc : MountService) (steps : list InitStep) : io unit :=
  match steps with
  | [] => mret tt
  | _ =>
      setStatus InstanceStatusInitializing;; persistInitStates;;
      setInstance (λ i, mkInitInstance (ii_Namespace i) (ii_VolumeMounts i) (ii_Status i)
        ((λ step, mkInitStepState (st_Name step) InitStepStatusPending 0 0 0 0 "") <$> steps));;
      persistInitStates;;
      initLoop (initStepServiceKey svc) 0 steps
  end.
End Run.
