(* ===== verification/InitProps.v ===== *)
(** * What init steps guarantee

    The commands run are a trace of the declared steps; the marks decide what a
    later pass runs; the path checks stay inside the volume. *)

From Stdlib Require Import Ascii.
From S2P Require Import Prelude Text Effects Types Names Storage StorageProps Mounts MountsProps InitSteps.

(** ** Assertions the bookkeeping does not touch *)

Definition ticked_others (env : env) (w : iworld) : iworld :=
  let '(d, t) := e_others env (w_tick (iw_world w)) (w_db (iw_world w)) (w_tables (iw_world w)) in
  mkIworld (mkWorld d t (w_log (iw_world w)) (S (w_tick (iw_world w)))) (iw_instance w) (iw_log w).

Section Stable.
Context (env : env) (ie : init_env) (I : iworld → Prop).

Class Stable : Prop := {
  stable_tick w : I w → I (ticked_others env w);
  stable_instance w status states : I w →
    I (mkIworld (iw_world w) (mkInitInstance (ii_Namespace (iw_instance w)) (ii_VolumeMounts (iw_instance w)) status states) (iw_log w));
  stable_save w inst : I w → I (mkIworld (iw_world w) (iw_instance w) (iw_log w ++ [Saved inst]));
}.

Context {HS : Stable}.

Lemma lift_keeps {A} (f : nat → world → world * option A) :
  (∀ n w, (f n w).1 = w) → keeps I (lift (external env f)).
Proof.
  intros Hf w Hw. unfold lift, external. apply stable_tick in Hw. unfold ticked_others in Hw. destruct (e_others _ _ _ _) as [d t].
  specialize (Hf (w_tick (iw_world w)) (mkWorld d t (w_log (iw_world w)) (S (w_tick (iw_world w))))). destruct (f _ _) as [w' r]. cbn in Hf. subst. by destruct r.
Qed.

Lemma store_keeps {A} (f : world → world * option A) : (∀ w, (f w).1 = w) → keeps I (lift (storeCall env f)).
Proof. intros Hf. apply lift_keeps. intros n w. by destruct (e_fault env n). Qed.

(** Keeps [I] and does not fail. *)
Definition total {A} (m : prog iworld A) : Prop := post I m (λ _, I) (λ _, False).

Lemma total_ret {A} (a : A) : total (mret a).
Proof. by apply post_ret. Qed.
Lemma total_gets {A} (f : iworld → A) : total (gets f).
Proof. by apply post_gets. Qed.
Lemma total_try {A} (m : prog iworld A) : keeps I m → total (try m).
Proof. intros Hm. by apply post_try. Qed.
Lemma total_bind {A B} (m : prog iworld A) (f : A → prog iworld B) : total m → (∀ a, total (f a)) → total (m ≫= f).
Proof. apply post_bind. Qed.

Lemma clock_total : total (clock env).
Proof. intros w Hw. unfold clock, lift, now, gets. by destruct w. Qed.

Lemma read_total ns name : total (try (lift (getVolume env ns name))).
Proof. by apply total_try, store_keeps. Qed.

Lemma setStatus_total status : total (setStatus status).
Proof. apply post_modify. intros w Hw. by apply stable_instance. Qed.

Lemma setState_total i f : total (setState i f).
Proof. apply post_modify. intros w Hw. by apply stable_instance. Qed.

Lemma persist_total : total (persistInitStates env).
Proof.
  apply total_bind; [by apply total_try, store_keeps|]. intros [?|]; [|apply total_ret].
  apply total_bind; [apply total_gets|]. intros inst. apply post_modify. intros w Hw. by apply stable_save.
Qed.

Lemma conclude_total i status reason b : post I (conclude env i status reason b) (λ b' w, I w ∧ b' = b) (λ _, False).
Proof.
  eapply post_bind with (R := λ _, I); [apply setState_total|]. intros _.
  eapply post_bind with (R := λ _, I); [apply persist_total|]. intros _. by apply post_ret.
Qed.

Lemma findMark_total key own mounts : total (findMark env key own mounts).
Proof.
  induction mounts as [|m mounts IH]; cbn [findMark]; [apply total_ret|]. case_bool_decide; [done|].
  apply total_bind; [apply read_total|]. intros [v|]; [|done]. case_bool_decide; [apply total_ret|done].
Qed.

Lemma evaluateRunIf_total step key :
  post I (evaluateRunIf env ie step key) (λ b w, I w ∧ (b = false → runIfType step ≠ RunIfAlways)) (λ _, False).
Proof.
  unfold evaluateRunIf. eapply post_bind; [apply total_gets|]. intros inst. case_bool_decide; [by apply post_ret|].
  case_bool_decide; [eapply post_bind; [apply findMark_total|]; intros; by apply post_ret|].
  case_bool_decide; [eapply post_bind; [apply total_gets|]; intros; by apply post_ret|by apply post_ret].
Qed.
End Stable.

(** ** The commands run are a trace of the steps *)

(** The name and success of each command run. *)
Definition runs (l : list init_entry) : list (string * bool) :=
  omap (λ x, match x with Ran step _ exit err => Some (step, match classify (exit, err) with Success => true | _ => false end) | Saved _ => None end) l.

Lemma runs_saved l inst : runs (l ++ [Saved inst]) = runs l.
Proof. unfold runs. rewrite omap_app. by rewrite app_nil_r. Qed.

Lemma runs_ran l name timeout r : runs (l ++ [Ran name timeout r.1 r.2]) = runs l ++ [(name, match classify r with Success => true | _ => false end)].
Proof. unfold runs. rewrite omap_app. by destruct r. Qed.

(** In declaration order each step is skipped, or tried until it succeeds within
    its budget; a step that does not succeed is the last.  Steps that run always
    are not skipped. *)
Inductive trace : list InitStep → list (string * bool) → bool → Prop :=
| trace_done : trace [] [] true
| trace_skip s ss l b : runIfType s ≠ RunIfAlways → trace ss l b → trace (s :: ss) l b
| trace_ok s ss n l b : (n < maxAttempts s)%nat → trace ss l b →
    trace (s :: ss) (replicate n (st_Name s, false) ++ (st_Name s, true) :: l) b
| trace_failed s ss n : (n ≤ maxAttempts s)%nat → trace (s :: ss) (replicate n (st_Name s, false)) false.

(** Assertions about the commands run so far. *)
Class Traced (env : env) (A : list (string * bool) → iworld → Prop) : Prop := {
  traced_stable l :: Stable env (A l);
  traced_ran l w name timeout r : A l w →
    A (l ++ [(name, match classify r with Success => true | _ => false end)])
      (mkIworld (iw_world w) (iw_instance w) (iw_log w ++ [Ran name timeout r.1 r.2]));
}.

Section Execute.
Context (env : env) (ie : init_env) (A : list (string * bool) → iworld → Prop) `{!Traced env A}.

Lemma runInit_traced l step :
  post (A l) (runInit env ie step)
    (λ r, A (l ++ [(st_Name step, match classify r with Success => true | _ => false end)])) (λ _, False).
Proof.
  unfold runInit. eapply post_bind with (R := λ _, A l).
  { intros w Hw. unfold lift, external. apply (stable_tick env (A l)) in Hw. unfold ticked_others in Hw. by destruct (e_others _ _ _ _). }
  intros r. eapply post_bind with (R := λ _, A _); [|intros _; by apply post_ret]. apply post_modify. intros w Hw. by apply traced_ran.
Qed.

Lemma executeLoop_traced k a step i l :
  post (A l) (executeLoop env ie k a step i)
    (λ b w, ∃ n, (n + (if b then 1 else 0) ≤ k)%nat ∧
       A (l ++ replicate n (st_Name step, false) ++ (if b then [(st_Name step, true)] else [])) w) (λ _, False).
Proof.
  revert a l. induction k as [|k IH]; intros a l; cbn [executeLoop].
  { eapply post_weaken; [apply (conclude_total env (A l))|done| |done]. intros b w [Hw ->]. exists 0%nat. cbn. by rewrite app_nil_r. }
  assert (Hend : ∀ l' status reason n, l' = l ++ replicate n (st_Name step, false) → (n ≤ S k)%nat →
    post (A l') (conclude env i status reason false) (λ b w, ∃ n, (n + (if b then 1 else 0) ≤ S k)%nat ∧
       A (l ++ replicate n (st_Name step, false) ++ (if b then [(st_Name step, true)] else [])) w) (λ _, False)).
  { intros l' status reason n -> Hn. eapply post_weaken; [eapply (conclude_total env (A _))|done| |done]. intros b w [Hw ->].
    exists n. rewrite app_nil_r. split; [lia|done]. }
  eapply post_bind; [apply (total_gets (A l))|]. intros [|]; [apply (Hend l _ _ 0%nat); [cbn; by rewrite app_nil_r|lia]|].
  eapply post_bind; [apply (clock_total env (A l))|]. intros t. eapply post_bind; [apply (setState_total env (A l))|]. intros ?.
  eapply post_bind; [apply (persist_total env (A l))|]. intros ?. eapply post_bind; [apply runInit_traced|]. intros r.
  eapply post_bind; [eapply (clock_total env (A _))|]. intros t'. eapply post_bind; [eapply (setState_total env (A _))|]. intros ?. cbv beta.
  destruct (classify r) as [| |reason].
  - eapply post_weaken; [eapply (conclude_total env (A _))|done| |done]. intros b w [Hw ->]. exists 0%nat. split; [lia|done].
  - apply (Hend _ _ _ 1%nat); [done|lia].
  - eapply post_bind; [eapply (setState_total env (A _))|]. intros ?. case_bool_decide; [apply (Hend _ _ _ 1%nat); [done|lia]|].
    destruct k as [|k]; [apply (Hend _ _ _ 1%nat); [done|lia]|].
    eapply post_bind with (R := λ _, A (l ++ [(st_Name step, false)])).
    { eapply post_weaken; [eapply (conclude_total env (A _))|done| |done]. by intros b w [Hw ->]. }
    intros ?. eapply post_bind with (R := λ _, A (l ++ [(st_Name step, false)])).
    { intros w Hw. unfold lift, external. apply (stable_tick env (A _)) in Hw. unfold ticked_others in Hw. by destruct (e_others _ _ _ _). }
    intros [|].
    + eapply post_weaken; [apply IH|done| |done]. intros b w (n & Hn & Hw). exists (S n). split; [lia|]. by rewrite <- app_assoc in Hw.
    + apply post_ret. intros w Hw. exists 1%nat. rewrite app_nil_r. split; [lia|done].
Qed.
End Execute.

Definition ran (l : list (string * bool)) (w : iworld) : Prop := runs (iw_log w) = l.

#[global] Instance ran_traced env : Traced env ran.
Proof.
  split; [split|].
  - intros w Hw. unfold ticked_others. by destruct (e_others _ _ _ _).
  - by intros w status states Hw.
  - intros w inst Hw. unfold ran. cbn. by rewrite runs_saved.
  - intros l w name timeout r Hw. unfold ran. cbn. rewrite runs_ran. by rewrite Hw.
Qed.

Section Trace.
Context (env : env) (ie : init_env).

Lemma mark_ran l step key : total (ran l) (markVolumesInitialized env step key).
Proof.
  unfold markVolumesInitialized. apply total_bind; [apply total_gets|]. intros inst. apply total_bind; [apply clock_total|]. intros t.
  induction (selectInitVolumes _ _ _) as [|m ms IH]; [apply total_ret|]. apply total_bind; [|done].
  unfold markOne. case_bool_decide; [apply total_ret|]. apply total_bind; [apply read_total; apply _|]. intros [v|]; [|apply total_ret].
  apply total_bind; [|intros; apply total_ret]. apply total_try. intros w Hw. unfold lift, putVolumeAt, storeCall, external.
  destruct (e_others _ _ _ _) as [d t']. destruct (e_fault _ _); [done|]. cbn [w_db]. by destruct (d_volumes d !! _).
Qed.

Lemma initLoop_trace key i steps l :
  post (ran l) (initLoop env ie key i steps)
    (λ _ w, ∃ new, ran (l ++ new) w ∧ trace steps new true) (λ w, ∃ new, ran (l ++ new) w ∧ trace steps new false).
Proof.
  revert i l. induction steps as [|step steps IH]; intros i l; cbn [initLoop].
  { apply post_ret. intros w Hw. exists []. rewrite app_nil_r. split; [done|constructor]. }
  eapply post_bind; [eapply post_weaken; [apply (evaluateRunIf_total env ie (ran l))|done..|done]|]. intros [|]; apply post_pure; intros Hb.
  - eapply post_bind; [eapply post_weaken; [apply (executeLoop_traced env ie ran)|done..|done]|]. intros [|].
    + apply post_exists. intros n w [Hn Hw]. revert w Hw.
      eapply post_bind; [eapply post_weaken; [apply mark_ran|done..|done]|]. intros ?.
      eapply post_weaken; [apply IH|done|..]; intros w' H; [|destruct H as (new & Hnew & Htr)].
      * intros (new & Hnew & Htr). eexists. rewrite <- !app_assoc in Hnew. split; [exact Hnew|]. cbn. apply trace_ok; [lia|done].
      * eexists. rewrite <- !app_assoc in Hnew. split; [exact Hnew|]. cbn. apply trace_ok; [lia|done].
    + apply post_exists. intros n w [Hn Hw]. revert w Hw. rewrite app_nil_r.
      eapply post_bind; [eapply post_weaken; [eapply (setStatus_total env (ran _))|done..|done]|]. intros ?.
      eapply post_bind; [eapply post_weaken; [eapply (persist_total env (ran _))|done..|done]|]. intros ?.
      apply post_fail. intros w Hw. eexists. split; [exact Hw|]. apply trace_failed. lia.
  - eapply post_bind with (R := λ _, ran l).
    { eapply post_weaken; [apply (conclude_total env (ran l))|done| |done]. by intros b w [Hw _]. }
    intros ?. eapply post_weaken; [apply IH|done|..].
    + intros _ w (new & ? & ?). exists new. split; [done|]. constructor; auto.
    + intros w (new & ? & ?). exists new. split; [done|]. apply trace_skip; auto.
Qed.

(** C22: In any environment, the commands a pass runs are a trace of the declared
    steps: in order, each step skipped (unless it runs always) or tried at most
    three times, once when it may not be retried, until it succeeds; after a step
    that did not succeed nothing runs and the pass fails. *)
Theorem init_pass_is_trace svc steps w :
  let '(w', r) := runInitSteps env ie svc steps w in
  ∃ new, runs (iw_log w') = runs (iw_log w) ++ new ∧ trace steps new (bool_decide (is_Some r)).
Proof.
  assert (post (ran (runs (iw_log w))) (runInitSteps env ie svc steps)
    (λ _ w', ∃ new, ran (runs (iw_log w) ++ new) w' ∧ trace steps new true) (λ w', ∃ new, ran (runs (iw_log w) ++ new) w' ∧ trace steps new false)) as H.
  { destruct steps as [|s steps].
    { apply post_ret. intros w' Hw. exists []. rewrite app_nil_r. split; [done|constructor]. }
    unfold runInitSteps. eapply post_bind; [eapply post_weaken; [eapply (setStatus_total env (ran _))|done..|done]|]. intros ?.
    eapply post_bind; [eapply post_weaken; [eapply (persist_total env (ran _))|done..|done]|]. intros ?.
    eapply post_bind with (R := λ _, ran _); [apply post_modify; by intros|]. intros ?.
    eapply post_bind; [eapply post_weaken; [eapply (persist_total env (ran _))|done..|done]|]. intros ?. apply initLoop_trace. }
  specialize (H w eq_refl). destruct (runInitSteps _ _ _ _ w) as [w' [[]|]]; destruct H as (new & Hnew & Htr); by exists new.
Qed.
End Trace.

(** ** Marks *)

#[local] Abbreviation volumes := (gmap (string * string) Volume).

Definition same (d : volumes) (ns : string) (ms : list ResolvedVolumeMount) (l : list (string * bool)) (w : iworld) : Prop :=
  d_volumes (w_db (iw_world w)) = d ∧ ii_Namespace (iw_instance w) = ns ∧ ii_VolumeMounts (iw_instance w) = ms ∧ runs (iw_log w) = l.

(** Rows are stored under their own names. *)
Definition named (d : volumes) : Prop := ∀ ns name v, d !! (ns, name) = Some v → v_Name v = name.

Definition marked_at (key : string) (d : volumes) (k : string * string) : Prop :=
  ∃ v, d !! k = Some v ∧ is_Some (v_InitializedFor v !! key).

(** A mount of a volume the store has. *)
Definition anchor (ns : string) (d : volumes) (m : ResolvedVolumeMount) : Prop :=
  rv_VolumeName m ≠ "" ∧ is_Some (d !! (mountNamespace ns m, rv_VolumeName m)).

Definition has_mark (key ns : string) (d : volumes) (ms : list ResolvedVolumeMount) : Prop :=
  ∃ m, m ∈ ms ∧ rv_VolumeName m ≠ "" ∧ marked_at key d (mountNamespace ns m, rv_VolumeName m).

Definition grown (key : string) (d d' : volumes) : Prop :=
  (∀ k, is_Some (d !! k) → is_Some (d' !! k)) ∧ (∀ k, marked_at key d k → marked_at key d' k).

Lemma grown_refl key d : grown key d d.
Proof. by split. Qed.

Lemma grown_trans key d1 d2 d3 : grown key d1 d2 → grown key d2 d3 → grown key d1 d3.
Proof. intros [H1 H2] [H3 H4]. split; auto. Qed.

Lemma has_mark_grown key ns d d' ms : grown key d d' → has_mark key ns d ms → has_mark key ns d' ms.
Proof. intros [_ H] (m & ? & ? & ?). exists m. auto. Qed.

Section Marks.
Context (env : env) `{!Quiet env} (ie : init_env) (ns : string) (ms : list ResolvedVolumeMount) (key : string).

#[global] Instance same_traced d : Traced env (same d ns ms).
Proof.
  split; [split|].
  - intros w (? & ? & ? & ?). unfold ticked_others. by rewrite quiet_others.
  - by intros w status states (? & ? & ? & ?).
  - intros w inst (? & ? & ? & ?). split_and!; [done..|]. cbn. by rewrite runs_saved.
  - intros l w name timeout r (? & ? & ? & Hl). split_and!; [done..|]. cbn. rewrite runs_ran. by rewrite Hl.
Qed.

Lemma read_quiet d l k name :
  post (same d ns ms l) (try (lift (getVolume env k name))) (λ v w, same d ns ms l w ∧ v = d !! (k, name)) (λ _, False).
Proof.
  intros w (Hd & ? & ? & ?). unfold try, lift, getVolume. rewrite storeCall_quiet by done. cbn. by rewrite Hd.
Qed.

Lemma findMark_quiet d l mounts :
  post (same d ns ms l) (findMark env key ns mounts) (λ b w, same d ns ms l w ∧ (b = true ↔ has_mark key ns d mounts)) (λ _, False).
Proof.
  induction mounts as [|m mounts IH]; cbn [findMark].
  { apply post_ret. intros w Hw. split; [done|]. split; [done|]. by intros (? & ?%elem_of_nil & _). }
  assert (Hskip : ¬ (rv_VolumeName m ≠ "" ∧ marked_at key d (mountNamespace ns m, rv_VolumeName m)) →
    has_mark key ns d mounts ↔ has_mark key ns d (m :: mounts)).
  { intros Hn. unfold has_mark. setoid_rewrite elem_of_cons. naive_solver. }
  case_bool_decide as Hname.
  { eapply post_weaken; [apply IH|done| |done]. intros b w [? Hb]. split; [done|]. rewrite Hb. apply Hskip. tauto. }
  eapply post_bind; [apply read_quiet|]. intros v. apply post_pure. intros ->.
  destruct (d !! _) as [v|] eqn:Hv.
  - case_bool_decide as Hm.
    + apply post_ret. intros w Hw. split; [done|]. split; [|done]. intros _. exists m. split; [left|]. split; [done|]. by exists v.
    + eapply post_weaken; [apply IH|done| |done]. intros b w [? Hb]. split; [done|]. rewrite Hb. apply Hskip.
      intros (_ & v' & ? & ?). naive_solver.
  - eapply post_weaken; [apply IH|done| |done]. intros b w [? Hb]. split; [done|]. rewrite Hb. apply Hskip.
    intros (_ & v' & ? & ?). naive_solver.
Qed.

Lemma fresh_quiet d l step :
  runIfType step = RunIfFreshVolume →
  post (same d ns ms l) (evaluateRunIf env ie step key)
    (λ b w, same d ns ms l w ∧ (b = false ↔ has_mark key ns d (selectInitVolumes ms step ""))) (λ _, False).
Proof.
  intros Hf. unfold evaluateRunIf. eapply post_bind with (R := λ inst w, same d ns ms l w ∧ (ii_Namespace inst = ns ∧ ii_VolumeMounts inst = ms)).
  { apply post_gets. intros w Hw. split; [done|]. by destruct Hw as (? & ? & ? & ?). }
  intros inst. apply post_pure. intros [-> ->]. rewrite Hf. rewrite bool_decide_false, bool_decide_true by done.
  eapply post_bind; [apply findMark_quiet|]. intros b. apply post_pure. intros Hb. apply post_ret. intros w Hw. split; [done|].
  rewrite <- Hb. by destruct b.
Qed.

Lemma markOne_quiet d l t m :
  named d →
  post (same d ns ms l) (markOne env ns key t m)
    (λ _ w, ∃ d', same d' ns ms l w ∧ named d' ∧ grown key d d' ∧
       (anchor ns d m → marked_at key d' (mountNamespace ns m, rv_VolumeName m))) (λ _, False).
Proof.
  intros Hn. unfold markOne. case_bool_decide as Hname.
  { apply post_ret. intros w Hw. exists d. split_and!; [done..|apply grown_refl|]. by intros [? _]. }
  eapply post_bind; [apply read_quiet|]. intros v. apply post_pure. intros ->. destruct (d !! _) as [v|] eqn:Hv.
  2: { apply post_ret. intros w Hw. exists d. split_and!; [done..|apply grown_refl|]. intros [_ [? ?]]. naive_solver. }
  eapply post_bind with (R := λ _ w, same (<[(mountNamespace ns m, rv_VolumeName m) := with_v_initialized v key t]> d) ns ms l w).
  - intros w (Hd & ? & ? & ?). unfold try, lift, putVolumeAt. rewrite storeCall_quiet by done. cbn.
    rewrite (Hn _ _ _ Hv), Hd, Hv. unfold same. cbn. by rewrite Hd.
  - intros ?. apply post_ret. intros w Hw. eexists. split; [exact Hw|].
    assert (Hself : marked_at key (<[(mountNamespace ns m, rv_VolumeName m) := with_v_initialized v key t]> d) (mountNamespace ns m, rv_VolumeName m)).
    { eexists. split; [apply lookup_insert_eq|]. cbn. rewrite lookup_insert_eq. by eexists. }
    split_and!; [|split|done].
    + intros k name u. rewrite lookup_insert_Some. intros [[[= <- <-] <-]|[_ Hu]]; [cbn; by apply (Hn _ _ _ Hv)|by apply (Hn _ _ _ Hu)].
    + intros k Hk. rewrite lookup_insert_is_Some. destruct (decide ((mountNamespace ns m, rv_VolumeName m) = k)); auto.
    + intros k (u & Hu & Hm). destruct (decide ((mountNamespace ns m, rv_VolumeName m) = k)) as [<-|Hne]; [done|].
      exists u. by rewrite lookup_insert_ne.
Qed.

Lemma markVolumes_quiet d l step :
  named d →
  post (same d ns ms l) (markVolumesInitialized env step key)
    (λ _ w, ∃ d', same d' ns ms l w ∧ named d' ∧ grown key d d' ∧
       (∀ m, m ∈ selectInitVolumes ms step "" → anchor ns d m → has_mark key ns d' (selectInitVolumes ms step ""))) (λ _, False).
Proof.
  intros Hn. unfold markVolumesInitialized. eapply post_bind with (R := λ inst w, same d ns ms l w ∧ (ii_Namespace inst = ns ∧ ii_VolumeMounts inst = ms)).
  { apply post_gets. intros w Hw. split; [done|]. by destruct Hw as (? & ? & ? & ?). }
  intros inst. apply post_pure. intros [-> ->]. eapply post_bind; [apply (clock_total env (same d ns ms l))|]. intros t. cbv beta.
  generalize (selectInitVolumes ms step ""). intros mounts. revert d Hn. induction mounts as [|m mounts IH]; intros d Hn; cbn [each].
  { apply post_ret. intros w Hw. exists d. split_and!; [done..|apply grown_refl|]. by intros ? ?%elem_of_nil. }
  eapply post_bind; [by apply markOne_quiet|]. intros ?. apply post_exists. intros d1 w (Hw & Hn1 & Hg1 & Hm1). revert w Hw.
  eapply post_weaken; [by apply IH|done| |done]. intros ? w (d2 & ? & ? & Hg2 & Hm2). exists d2. split_and!; [done..|by eapply grown_trans|].
  intros m' [->|Hin]%elem_of_cons [Hname Hrow].
  - exists m. split; [left|]. split; [done|]. apply Hg2, Hm1. done.
  - destruct (Hm2 m' Hin) as (m2 & ? & ? & ?); [split; [done|by apply Hg1]|]. exists m2. split; [by right|done].
Qed.

(** ** What the marks decide *)

Lemma marked_skips d l i steps :
  (∀ step, step ∈ steps → runIfType step = RunIfFreshVolume ∧ has_mark key ns d (selectInitVolumes ms step "")) →
  post (same d ns ms l) (initLoop env ie key i steps) (λ _, same d ns ms l) (λ _, False).
Proof.
  revert i. induction steps as [|step steps IH]; intros i H; cbn [initLoop]; [by apply post_ret|].
  destruct (H step) as [Hf Hm]; [left|]. eapply post_bind; [by apply fresh_quiet|]. intros b. apply post_pure. intros Hb.
  rewrite (proj2 Hb Hm). eapply post_bind with (R := λ _, same d ns ms l).
  { eapply post_weaken; [apply (conclude_total env (same d ns ms l))|done| |done]. by intros ? w [? _]. }
  intros ?. apply IH. intros s Hs. apply H. by right.
Qed.

Lemma pass_marks d l i steps :
  named d →
  (∀ step, step ∈ steps → runIfType step = RunIfFreshVolume ∧ ∃ m, m ∈ selectInitVolumes ms step "" ∧ anchor ns d m) →
  post (same d ns ms l) (initLoop env ie key i steps)
    (λ _ w, ∃ d' l', same d' ns ms l' w ∧ ∀ step, step ∈ steps → has_mark key ns d' (selectInitVolumes ms step "")) (λ _, True).
Proof.
  intros Hn H.
  enough (post (same d ns ms l) (initLoop env ie key i steps) (λ _ w, ∃ d' l', same d' ns ms l' w ∧ grown key d d' ∧
    ∀ step, step ∈ steps → has_mark key ns d' (selectInitVolumes ms step "")) (λ _, True)) as Hp.
  { eapply post_weaken; [exact Hp|done| |done]. intros ? w (d' & l' & ? & _ & ?). eauto. }
  revert i d l Hn H. induction steps as [|step steps IH]; intros i d l Hn H; cbn [initLoop].
  { apply post_ret. intros w Hw. exists d, l. split_and!; [done|apply grown_refl|]. by intros ? ?%elem_of_nil. }
  destruct (H step) as (Hf & m & Hm & Ha); [left|].
  assert (H' : ∀ d', grown key d d' → ∀ s, s ∈ steps → runIfType s = RunIfFreshVolume ∧ ∃ m, m ∈ selectInitVolumes ms s "" ∧ anchor ns d' m).
  { intros d' [Hg _] s Hs. destruct (H s) as (? & m' & ? & ? & ?); [by right|]. split; [done|]. exists m'. split; [done|]. split; [done|]. auto. }
  eapply post_bind; [eapply post_weaken; [by apply fresh_quiet|done..|done]|]. intros b. apply post_pure. intros Hb. destruct b.
  - eapply post_bind; [eapply post_weaken; [apply (executeLoop_traced env ie (same d ns ms))|done..|done]|]. intros b.
    apply post_exists. intros n w [_ Hw]. revert w Hw. destruct b; cycle 1.
    { eapply post_bind; [eapply post_weaken; [eapply (setStatus_total env (same d ns ms _))|done..|done]|]. intros ?.
      eapply post_bind; [eapply post_weaken; [eapply (persist_total env (same d ns ms _))|done..|done]|]. intros ?. by apply post_fail. }
    eapply post_bind; [eapply post_weaken; [by apply markVolumes_quiet|done..|done]|]. intros ?. apply post_exists. intros d1 w (Hw & Hn1 & Hg1 & Hm1).
    revert w Hw. eapply post_weaken; [by apply IH, H'|done| |done]. intros ? w (d2 & l2 & ? & Hg2 & Hall). exists d2, l2.
    split_and!; [done|by eapply grown_trans|]. intros s [->|Hs]%elem_of_cons; [|by apply Hall].
    eapply has_mark_grown; [exact Hg2|]. by eapply Hm1.
  - eapply post_bind with (R := λ _, same d ns ms l).
    { eapply post_weaken; [apply (conclude_total env (same d ns ms l))|done| |done]. by intros ? w [? _]. }
    intros ?. eapply post_weaken; [by apply IH, H', grown_refl|done| |done]. intros ? w (d2 & l2 & ? & Hg2 & Hall). exists d2, l2.
    split_and!; [done..|]. intros s [->|Hs]%elem_of_cons; [|by apply Hall]. eapply has_mark_grown; [exact Hg2|]. by apply Hb.
Qed.

Lemma inherit_select step : st_Volumes step = None → selectInitVolumes ms step "" = ms.
Proof. intros Hv. unfold selectInitVolumes. rewrite Hv. by apply filterb_all. Qed.

Lemma first_only d l i step steps :
  named d → (∃ m, m ∈ ms ∧ anchor ns d m) →
  (∀ s, s ∈ step :: steps → runIfType s = RunIfFreshVolume ∧ st_Volumes s = None) →
  post (same d ns ms l) (initLoop env ie key i (step :: steps))
    (λ _ w, ∃ new, runs (iw_log w) = l ++ new ∧ Forall (λ r, r.1 = st_Name step) new)
    (λ w, ∃ new, runs (iw_log w) = l ++ new ∧ Forall (λ r, r.1 = st_Name step) new).
Proof.
  intros Hn (m & Hm & Ha) H. destruct (H step) as [Hf Hv]; [left|]. cbn [initLoop].
  assert (Hrest : ∀ d' l' i, has_mark key ns d' ms → post (same d' ns ms l') (initLoop env ie key i steps) (λ _, same d' ns ms l') (λ _, False)).
  { intros d' l' i' Hmk. apply marked_skips. intros s Hs. destruct (H s) as [? Hs']; [by right|]. split; [done|]. by rewrite inherit_select. }
  eapply post_bind; [eapply post_weaken; [by apply fresh_quiet|done..|done]|]. intros b. apply post_pure. intros Hb. destruct b.
  - eapply post_bind; [eapply post_weaken; [apply (executeLoop_traced env ie (same d ns ms))|done..|done]|]. intros b.
    apply post_exists. intros n w [_ Hw]. revert w Hw. set (new := replicate n _ ++ _).
    assert (Hnew : Forall (λ r, r.1 = st_Name step) new).
    { subst new. apply Forall_app. split; [by apply Forall_replicate|]. destruct b; by repeat constructor. }
    clearbody new. destruct b.
    + eapply post_bind; [eapply post_weaken; [by apply markVolumes_quiet|done..|done]|]. intros ?. apply post_exists. intros d1 w (Hw & _ & _ & Hm1).
      revert w Hw. rewrite inherit_select in Hm1 by done. eapply post_weaken; [apply Hrest; by eapply Hm1|done| |done].
      intros ? w (_ & _ & _ & Hl). by exists new.
    + eapply post_bind; [eapply post_weaken; [apply (setStatus_total env (same d ns ms (l ++ new)))|done..|done]|]. intros ?.
      eapply post_bind; [eapply post_weaken; [apply (persist_total env (same d ns ms (l ++ new)))|done..|done]|]. intros ?.
      apply post_fail. intros w (_ & _ & _ & Hl). by exists new.
  - eapply post_bind with (R := λ _, same d ns ms l).
    { eapply post_weaken; [apply (conclude_total env (same d ns ms l))|done| |done]. by intros ? w [? _]. }
    intros ?. eapply post_weaken; [apply Hrest|done| |done].
    + rewrite <- (inherit_select step) by done. by apply Hb.
    + intros ? w (_ & _ & _ & Hl). exists []. rewrite app_nil_r. by split.
Qed.
End Marks.

(** ** Init steps over several passes, and their path checks

    What a restart runs, which steps never run, and where a [fileMissing] check
    looks. *)

#[local] Arguments String.append !_ _ : simpl nomatch.

Section Passes.
Context (env : env) `{!Quiet env}.

Lemma pass_from_loop ie svc step steps d ns ms l Q X :
  post (same d ns ms l) (initLoop env ie (initStepServiceKey svc) 0 (step :: steps)) Q X →
  post (same d ns ms l) (runInitSteps env ie svc (step :: steps)) Q X.
Proof.
  intros H. pose proof (traced_stable (env := env) (A := same d ns ms)) as Hs. unfold runInitSteps.
  eapply post_bind; [eapply post_weaken; [apply (setStatus_total env (same d ns ms l))|done..|done]|]. intros ?.
  eapply post_bind; [eapply post_weaken; [apply (persist_total env (same d ns ms l))|done..|done]|]. intros ?.
  eapply post_bind with (R := λ _, same d ns ms l); [apply post_modify; by intros w (? & ? & ? & ?)|]. intros ?.
  eapply post_bind; [eapply post_weaken; [apply (persist_total env (same d ns ms l))|done..|done]|]. intros ?. exact H.
Qed.

Definition world_volumes (w : iworld) := d_volumes (w_db (iw_world w)).

Lemma same_here w : same (world_volumes w) (ii_Namespace (iw_instance w)) (ii_VolumeMounts (iw_instance w)) (runs (iw_log w)) w.
Proof. by split. Qed.

(** When the store answers, a service whose [freshVolume] steps all succeeded
    does not run them again: a later pass on the same volumes, of the same or of
    a new instance, runs no command, whatever the runner would answer. *)
Theorem restart_runs_nothing ie ie' svc steps w w1 w2 :
  named (world_volumes w) →
  (∀ step, step ∈ steps → runIfType step = RunIfFreshVolume ∧
     ∃ m, m ∈ selectInitVolumes (ii_VolumeMounts (iw_instance w)) step "" ∧ anchor (ii_Namespace (iw_instance w)) (world_volumes w) m) →
  runInitSteps env ie svc steps w = (w1, Some tt) →
  world_volumes w2 = world_volumes w1 → ii_Namespace (iw_instance w2) = ii_Namespace (iw_instance w) →
  ii_VolumeMounts (iw_instance w2) = ii_VolumeMounts (iw_instance w) →
  runs (iw_log (runInitSteps env ie' svc steps w2).1) = runs (iw_log w2).
Proof.
  intros Hn H Hrun Hd Hns Hms. destruct steps as [|step steps]; [done|].
  assert (∃ d' l', same d' (ii_Namespace (iw_instance w)) (ii_VolumeMounts (iw_instance w)) l' w1 ∧
    ∀ s, s ∈ step :: steps → has_mark (initStepServiceKey svc) (ii_Namespace (iw_instance w)) d' (selectInitVolumes (ii_VolumeMounts (iw_instance w)) s ""))
    as (d' & l' & (Hd' & _) & Hall).
  { pose proof (pass_from_loop ie svc step steps _ _ _ _ _ _ (pass_marks env ie _ _ _ _ _ 0 (step :: steps) Hn H) w (same_here w)) as Hp.
    by rewrite Hrun in Hp. }
  assert (same d' (ii_Namespace (iw_instance w)) (ii_VolumeMounts (iw_instance w)) (runs (iw_log w2)) w2) as Hs.
  { split_and!; [|done..]. unfold world_volumes in Hd. congruence. }
  pose proof (pass_from_loop ie' svc step steps _ _ _ _ _ _ (marked_skips env ie' _ _ _ _ (runs (iw_log w2)) 0 (step :: steps)
    (λ s Hin, conj (proj1 (H s Hin)) (Hall s Hin))) w2 Hs) as Hp.
  destruct (runInitSteps _ _ _ _ w2) as [w3 [[]|]]; [|done]. by destruct Hp as (_ & _ & _ & ?).
Qed.

(** A service with several default steps ([freshVolume], all volumes) runs only
    the first: the mark its success leaves is the service's, so every later step
    is skipped in the same pass, and in every pass after it. *)
Theorem later_fresh_steps_skipped ie svc step steps w :
  named (world_volumes w) →
  (∃ m, m ∈ ii_VolumeMounts (iw_instance w) ∧ anchor (ii_Namespace (iw_instance w)) (world_volumes w) m) →
  (∀ s, s ∈ step :: steps → runIfType s = RunIfFreshVolume ∧ st_Volumes s = None) →
  ∃ new, runs (iw_log (runInitSteps env ie svc (step :: steps) w).1) = runs (iw_log w) ++ new ∧ Forall (λ r, r.1 = st_Name step) new.
Proof.
  intros Hn Ha H.
  pose proof (pass_from_loop ie svc step steps _ _ _ _ _ _
    (first_only env ie _ _ (initStepServiceKey svc) _ (runs (iw_log w)) 0 step steps Hn Ha H) w (same_here w)) as Hp.
  by destruct (runInitSteps _ _ _ _ w) as [w' [?|]].
Qed.
End Passes.

(** ** Where a [fileMissing] check looks *)

Lemma hostPath_inside m path full :
  IsAbs (rv_Source m) = true → ".." ∉ Split "/"%char (rv_SubPath m) → IsAbs (rv_MountPath m) = true → IsAbs path = true →
  hostPath m path = Some full → segments (rv_Source m) `prefix_of` segments full.
Proof.
  intros Hs Hsub Hm Hp. unfold hostPath. destruct (_ || _); [done|]. destruct (Rel _ _) as [rel|] eqn:Hr; [|done].
  destruct (climbs rel) eqn:Hc; [done|]. intros [= <-]. apply Join_below; [done|].
  intros e [->|[->|?%elem_of_nil]%elem_of_cons]%elem_of_cons; [done| |done]. eapply Rel_inside; [..|exact Hr|done]; by apply Clean_abs.
Qed.

Lemma parentVolumes_lookup vols (acc : gmap string string) name path :
  fold_left (λ acc v, <[mt_Name v := mt_MountPath v]> acc) vols acc !! name = Some path →
  acc !! name = Some path ∨ ∃ v, v ∈ vols ∧ mt_Name v = name ∧ mt_MountPath v = path.
Proof.
  revert acc. induction vols as [|v vols IH]; intros acc; cbn [fold_left]; [by left|]. intros H. apply IH in H as [H|(v' & ? & ? & ?)].
  - apply lookup_insert_Some in H as [[? ?]|[_ ?]]; [|by left]. right. exists v. split; [left|done].
  - right. exists v'. split; [by right|done].
Qed.

(** A resolved mount of a declared one. *)
Definition resolves (v : VolumeMount) (r : ResolvedVolumeMount) : Prop :=
  rv_Name r = mt_Name v ∧ rv_MountPath r = mt_MountPath v ∧ rv_SubPath r = mt_SubPath v ∧ IsAbs (rv_Source r) = true.

Lemma within_hostPath v r path :
  resolves v r → IsAbs (mt_MountPath v) = true → segments (mt_MountPath v) ≠ [] → IsAbs path = true →
  isPathWithinMount path (mt_MountPath v) = true → is_Some (hostPath r path).
Proof.
  intros (_ & Hp & _ & Hs) Ha Hne Hpa Hw. unfold hostPath. rewrite Hp. rewrite !bool_decide_false; [|by intros E; rewrite E in Ha|by intros E; rewrite E in Hs].
  cbn [orb]. destruct (Rel_within (Clean (mt_MountPath v)) (Clean path)) as (rel & -> & Hc); [by apply Clean_abs..|].
  rewrite !segments_Clean in Hc by done. destruct Hc as [_ ->]; [by eexists|].
  unfold isPathWithinMount in Hw. apply orb_true_iff in Hw as [E%bool_decide_eq_true_1|E].
  - apply Clean_eq in E; [|done..]. by rewrite E.
  - apply prefix_below in E as (k & _ & ->); [by exists k|done..].
Qed.

(** A validated [fileMissing] step looks for its file: some mount of the step
    holds the path, so the command is not run for want of a place to look, and
    every host path it looks at lies inside its volume's source. *)
Theorem file_missing_checked ParseMemory runtime secrets configmaps vols rms step :
  ValidateVolumeMounts ParseMemory vols = true → Forall2 resolves vols rms →
  validStep runtime (parentVolumes vols) secrets configmaps step = true → runIfType step = RunIfFileMissing →
  let mounts := selectInitVolumes rms step (ri_Volume (st_RunIf step)) in
  (∃ m, m ∈ mounts ∧ is_Some (hostPath m (ri_Path (st_RunIf step)))) ∧
  (∀ m full, m ∈ mounts → hostPath m (ri_Path (st_RunIf step)) = Some full → segments (rv_Source m) `prefix_of` segments full).
Proof.
  intros Hv Hres Hstep Hfm mounts. apply ValidateVolumeMounts_spec in Hv as (Hok & Hnd & _).
  unfold validStep in Hstep. rewrite !andb_true_iff in Hstep. destruct Hstep as [[[[_ Hrun] _] _] _]. unfold validateInitRunIf in Hrun.
  rewrite Hfm in Hrun. cbn [bool_decide decide] in Hrun. rewrite bool_decide_false, bool_decide_true in Hrun by done.
  rewrite !andb_true_iff in Hrun. destruct Hrun as [[[_ Hpath] Hany] Hrun]. split.
  - assert (∃ name path, parentVolumes vols !! name = Some path ∧ isPathWithinMount (ri_Path (st_RunIf step)) path = true ∧
      (ri_Volume (st_RunIf step) = "" ∨ ri_Volume (st_RunIf step) = name) ∧
      (default [] (st_Volumes step) = [] ∨ name ∈ default [] (st_Volumes step))) as (name & path & Hl & Hw & Hvol & Hflt).
    { case_bool_decide as Hv; cbn [negb] in Hrun.
      - apply existsb_exists in Hrun as ([name path] & Hin & Hb). apply list_elem_of_In, elem_of_map_to_list in Hin. cbn in Hb. bools.
        exists name, path. split_and!; [done..|by left|]. destruct (decide (default [] (st_Volumes step) = [])); [by left|right].
        rewrite bool_decide_false in * by done. cbn in *. by bools.
      - destruct (_ !! _) as [path|] eqn:E; [|done]. bools. exists (ri_Volume (st_RunIf step)), path. split_and!; [done..|by right|].
        destruct (decide (default [] (st_Volumes step) = [])); [by left|right]. rewrite bool_decide_false in * by done. cbn in *. by bools. }
    apply parentVolumes_lookup in Hl as [?|(v & Hin & Hname & Hp)]; [done|]. apply list_elem_of_lookup in Hin as [i Hi].
    destruct (Forall2_lookup_l _ _ _ _ _ Hres Hi) as (r & Hr & Hrv). destruct (Hok v) as [_ _ Ha Hroot _ _]; [by eapply list_elem_of_lookup_2|].
    exists r. split; [|eapply within_hostPath; [exact Hrv|done..|by rewrite Hp]].
    apply elem_of_filterb. split; [|by eapply list_elem_of_lookup_2]. destruct Hrv as (-> & _). rewrite Hname. apply andb_true_iff. split.
    + destruct (st_Volumes step) as [names|]; [|done]. cbn in Hflt, Hany. apply bool_decide_eq_true. destruct Hflt as [->|?]; done.
    + apply orb_true_iff. destruct Hvol as [?|?]; [left|right]; by apply bool_decide_eq_true.
  - intros m full Hm. apply elem_of_filterb in Hm as [_ Hm]. apply list_elem_of_lookup in Hm as [i Hi].
    destruct (Forall2_lookup_r _ _ _ _ _ Hres Hi) as (v & Hvi & (_ & Hp & Hsub & Hs)).
    destruct (Hok v) as [_ _ Ha _ Hsp _]; [by eapply list_elem_of_lookup_2|]. apply hostPath_inside; [done|..|done]; rewrite ?Hp, ?Hsub; [|done].
    destruct Hsp as [->|[_ ?]]; [|done]. cbn. by intros ?%list_elem_of_singleton.
Qed.

(** ** Witnesses *)

Definition default_step (name : string) : InitStep :=
  mkInitStep name "busybox" "mkfs" None [] [] (mkRunIf "" "" "") 0 "" None.
Definition data_resolved : ResolvedVolumeMount := mkResolvedVolume "data" "/var/lib/db" "/mnt/vol-1" "data" "" false "".
Definition starting : iworld := mkIworld start (mkInitInstance "prod" [data_resolved] InstanceStatusPending []) [].
Definition all_succeed : init_env := mkInitEnv (λ _ _, (0, None)) (λ _, false) (λ _ _, false).
Definition db_owner : MountService := mkMountService "svc-1" "db" "prod" [] [] [].

Lemma start_named : named (world_volumes starting).
Proof. intros ns name v Hv. change (({[("prod", "data") := data_volume]} : gmap (string * string) Volume) !! (ns, name) = Some v) in Hv. apply lookup_singleton_Some in Hv as [[= <- <-] <-]. reflexivity. Qed.

Lemma start_anchored : anchor "prod" (world_volumes starting) data_resolved.
Proof. split; [discriminate|]. vm_compute. eexists. reflexivity. Qed.

Lemma restart_runs_nothing_witness :
  runs (iw_log (runInitSteps (calm (λ _, None)) all_succeed db_owner [default_step "format"] starting).1) = [("format", true)] ∧
  let w1 := (runInitSteps (calm (λ _, None)) all_succeed db_owner [default_step "format"] starting).1 in
  runs (iw_log (runInitSteps (calm (λ _, None)) all_succeed db_owner [default_step "format"] w1).1) = runs (iw_log w1).
Proof.
  split; [vm_compute; reflexivity|]. cbv zeta.
  eapply (restart_runs_nothing (calm (λ _, None)) all_succeed all_succeed db_owner [default_step "format"] starting).
  - exact start_named.
  - intros s [->|?%elem_of_nil]%elem_of_cons; [|done]. split; [reflexivity|]. exists data_resolved. split; [left|exact start_anchored].
  - apply (surjective_pairing (runInitSteps (calm (λ _, None)) all_succeed db_owner [default_step "format"] starting)).
  - reflexivity.
  - vm_compute. reflexivity.
  - vm_compute. reflexivity.
Defined.

Lemma later_fresh_steps_skipped_witness :
  let w1 := (runInitSteps (calm (λ _, None)) all_succeed db_owner [default_step "format"; default_step "restore"] starting).1 in
  runs (iw_log w1) = [("format", true)] ∧ ∃ new, runs (iw_log w1) = new ∧ Forall (λ r, r.1 = "format") new.
Proof.
  split; [vm_compute; reflexivity|].
  apply (later_fresh_steps_skipped (calm (λ _, None)) all_succeed db_owner (default_step "format") [default_step "restore"] starting).
  - exact start_named.
  - exists data_resolved. split; [left|exact start_anchored].
  - intros s [->|[->|?%elem_of_nil]%elem_of_cons]%elem_of_cons; [split; reflexivity..|done].
Defined.

Definition file_step : InitStep :=
  mkInitStep "seed" "busybox" "seed" None [] [] (mkRunIf "fileMissing" "/var/lib/db/./PG_VERSION" "") 0 "Never" None.

Lemma file_missing_checked_witness :
  hostPath data_resolved "/var/lib/db/./PG_VERSION" = Some "/mnt/vol-1/PG_VERSION" ∧
  ∃ m, m ∈ selectInitVolumes [data_resolved] file_step "" ∧ is_Some (hostPath m "/var/lib/db/./PG_VERSION").
Proof.
  split; [vm_compute; reflexivity|].
  apply (file_missing_checked ten_gi "container" [] [] [data_mount] [data_resolved] file_step).
  - vm_compute. reflexivity.
  - repeat constructor.
  - vm_compute. reflexivity.
  - reflexivity.
Defined.
