(* ===== verification/AgentVolumes.v ===== *)
(** * Volumes on a node (internal/agent/volumes/{subsystem,parked}.go)

    The agent that attaches and mounts the volumes bound to its node, and takes
    them down when they are not: what it tracks, the disks it had to leave
    attached ("parked") and the file that remembers them.  The store is
    [Storage]'s; the drivers and the host's mount table are an [agent_env], asked
    at ticks like the store.  Every driver call goes to a log with its tick, its
    parameters, the disk it is about and its answer.

    Maps are walked in the order of their keys.  The teardowns of [Stop] run one
    after the other: in the code they are concurrent but touch different volumes.
    Contexts' deadlines, messages and warnings are left out. *)

From Stdlib Require Import Ascii.
From S2P Require Import Prelude Text Effects Types ResourceStore Names Storage StorageApi Mounts.

#[local] Abbreviation params := (gmap string string).

Definition DefaultMountRoot : string := "/var/lib/rune/mounts".

(** A block device, by major and minor number. *)
Definition Dev := (Z * Z)%type.

(** [MountTable.Stack]: the devices mounted at a path, bottom first. *)
Inductive stack_answer := Stack (devs : list Dev) | StackUnsupported | StackError.

Record trackedMount := mkTracked {
  tm_Driver : string;
  tm_Handle : string;
  tm_Device : string;
  tm_Target : string;
  tm_OpCtx : OpContext;
  tm_RawParameters : params;
  tm_VolumeNS : string;
  tm_VolumeName : string;
  tm_VolumeID : string;
  tm_StorageClass : string;
}.

Record parkedRecord := mkParkedRecord {
  pr_Key : string;
  pr_Namespace : string;
  pr_Name : string;
  pr_VolumeID : string;
  pr_StorageClass : string;
  pr_Handle : string;
  pr_Device : string;
  pr_Target : string;
}.

(** [pd_m] is [None] for a disk loaded from the file. *)
Record parkedDisk := mkParkedDisk { pd_rec : parkedRecord; pd_m : option trackedMount }.

Inductive agent_call :=
| Attach (n : nat) (driver : string) (ctx : OpContext) (handle : string) (device : option string)
| Mount (n : nat) (driver : string) (ctx : OpContext) (handle device target : string) (got : option string)
| Unmount (n : nat) (driver : string) (ctx : OpContext) (device target : string) (ok : bool)
| Detach (n : nat) (driver : string) (ctx : OpContext) (handle device : string) (ok : bool).

Record aworld := mkAworld {
  aw_world : world;
  aw_mounts : gmap string trackedMount;
  aw_lastErr : gset string;
  aw_parked : gmap string parkedDisk;
  aw_file : list parkedRecord;
  aw_log : list agent_call;
}.

Record agent_env := mkAgentEnv {
  ae_lookup : nat → Volume → option string;
  ae_attach : nat → string → option string;
  ae_mount : nat → string → string → option string;
  ae_unmount : nat → string → bool;
  ae_detach : nat → string → bool;
  ae_stack : nat → string → stack_answer;
  ae_points : nat → Dev → option (list string);
  ae_device : nat → string → option Dev;
  ae_save : nat → bool;
}.

#[local] Abbreviation io := (prog aworld).

Section Agent.
Context (url_Parse : string → option (string * string)) (PathUnescape : string → string).
Context (env : env) (ae : agent_env) (NodeID MountRoot : string).

(** ** State *)

Definition liftS {A} (m : prog world A) : io A := λ w,
  let '(w', r) := m (aw_world w) in (mkAworld w' (aw_mounts w) (aw_lastErr w) (aw_parked w) (aw_file w) (aw_log w), r).

Definition with_mounts (f : gmap string trackedMount → gmap string trackedMount) (w : aworld) : aworld :=
  mkAworld (aw_world w) (f (aw_mounts w)) (aw_lastErr w) (aw_parked w) (aw_file w) (aw_log w).
Definition with_lastErr (f : gset string → gset string) (w : aworld) : aworld :=
  mkAworld (aw_world w) (aw_mounts w) (f (aw_lastErr w)) (aw_parked w) (aw_file w) (aw_log w).
Definition with_parked (f : gmap string parkedDisk → gmap string parkedDisk) (w : aworld) : aworld :=
  mkAworld (aw_world w) (aw_mounts w) (aw_lastErr w) (f (aw_parked w)) (aw_file w) (aw_log w).
Definition with_file (recs : list parkedRecord) (w : aworld) : aworld :=
  mkAworld (aw_world w) (aw_mounts w) (aw_lastErr w) (aw_parked w) recs (aw_log w).
Definition with_call (c : agent_call) (w : aworld) : aworld :=
  mkAworld (aw_world w) (aw_mounts w) (aw_lastErr w) (aw_parked w) (aw_file w) (aw_log w ++ [c]).

Definition tick : io nat := gets (λ w, w_tick (aw_world w)).

(** A driver call: it takes a tick, is logged, and fails when [ok] says so. *)
Definition callAgent {A} (answer : nat → A) (c : nat → A → agent_call) : io A :=
  n ← tick;
  liftS (external env (λ _ w, (w, Some tt)));;
  modify (with_call (c n (answer n)));;
  mret (answer n).

Definition MountTargetFor (w : aworld) (key : string) : option string := tm_Target <$> aw_mounts w !! key.
Definition MountErrorFor (w : aworld) (key : string) : bool := bool_decide (key ∈ aw_lastErr w).

(** ** Parked disks *)

Definition recordFor (id : string) (m : trackedMount) : parkedRecord :=
  mkParkedRecord id (tm_VolumeNS m) (tm_VolumeName m) (tm_VolumeID m) (tm_StorageClass m) (tm_Handle m) (tm_Device m) (tm_Target m).

(** Sorted by handle; a write that fails leaves the file as it was. *)
Definition saveParked : io unit := λ w,
  if ae_save ae (w_tick (aw_world w))
  then (with_file (SliceStable (λ a b, String.ltb (pr_Handle a) (pr_Handle b)) (pd_rec <$> (map_to_list (aw_parked w)).*2)) w, Some tt)
  else (w, Some tt).

Definition park (id : string) (m : trackedMount) : io unit :=
  modify (with_parked <[tm_Handle m := mkParkedDisk (recordFor id m) (Some m)]>);;
  modify (with_lastErr (λ s, {[id]} ∪ s));;
  saveParked.

Definition unpark (h : string) : io unit :=
  p ← gets aw_parked;
  modify (with_parked (base.delete h));;
  if bool_decide (is_Some (p !! h)) then saveParked else mret tt.

Definition loadParked : io unit :=
  recs ← gets aw_file;
  modify (with_parked (λ p, fold_left (λ p r, <[pr_Handle r := mkParkedDisk r None]> p) recs p)).

(** ** Parameters of the drivers *)

Definition shouldMount (vol : Volume) : bool :=
  bool_decide (v_BoundNode vol = NodeID) && negb (bool_decide (v_Handle vol = "")) && is_ready vol.

Definition buildOpContextRaw (vol : Volume) : io OpContext :=
  if bool_decide (v_StorageClassName vol = "") then mret (mkOpContext None (Some vol) (mergeParameters ∅ (v_Parameters vol)))
  else class ← try (liftS (getClass env (v_StorageClassName vol)));
       match class with
       | None => mret (mkOpContext None (Some vol)
           (if bool_decide (v_DriverParameters vol = ∅) then mergeParameters ∅ (v_Parameters vol)
            else mergeParameters (v_DriverParameters vol) (v_Parameters vol)))
       | Some class => mret (mkOpContext (Some class) (Some vol) (mergeParameters (sc_Parameters class) (v_Parameters vol)))
       end.

Definition with_params (ctx : OpContext) (ps : params) : OpContext := mkOpContext (oc_StorageClass ctx) (oc_Volume ctx) ps.

Definition resolveSecretsOnOpContext (vol : Volume) (ctx : OpContext) : io OpContext :=
  ps ← liftS (resolveParams url_Parse PathUnescape env (oc_Parameters ctx) (v_Namespace vol));
  mret (with_params ctx ps).

(** Fresh credentials when they resolve, else those of the mount. *)
Definition teardownOpContext (m : trackedMount) : io OpContext :=
  if bool_decide (tm_RawParameters m = ∅) || bool_decide (e_lookup env = None) then mret (tm_OpCtx m)
  else
    let ns := match oc_Volume (tm_OpCtx m) with
              | Some vol => if bool_decide (v_Namespace vol = "") then tm_VolumeNS m else v_Namespace vol
              | None => tm_VolumeNS m end in
    ps ← try (liftS (resolveParams url_Parse PathUnescape env (tm_RawParameters m) ns));
    mret (match ps with Some ps => with_params (tm_OpCtx m) ps | None => tm_OpCtx m end).

(** ** The mount table *)

Definition top (devs : list Dev) : option Dev := last devs.

(** What the table shows of a disk; [dev] is the path of its device. *)
Definition stillMounted (n : nat) (dev : string) : list string :=
  if bool_decide (dev = "") then []
  else match ae_device ae n dev with
       | None => []
       | Some d => default [] (ae_points ae n d)
       end.

(** The paths under the root where the disk is mounted: where it is visible, and
    where another is mounted over it. *)
Definition ownMounts (n : nat) (dev : string) : list string * list string :=
  if bool_decide (dev = "") then ([], [])
  else match ae_device ae n dev with
  | None => ([], [])
  | Some d =>
      match ae_points ae n d with
      | None => ([], [])
      | Some paths =>
          let stacked := omap (λ p, if String.prefix (MountRoot +:+ "/") p then
                                      match ae_stack ae n p with
                                      | Stack (x :: l) => Some (p, bool_decide (top (x :: l) = Some d))
                                      | _ => None
                                      end
                                    else None) paths in
          ((List.filter snd stacked).*1, (List.filter (λ x, negb x.2) stacked).*1)
      end
  end.

Definition buried (n : nat) (dev : string) : bool := negb (bool_decide ((ownMounts n dev).2 = [])).

(** Blocked, and whether for want of knowing the disk. *)
Inductive blocking := Free | OtherDisk | Unknown.

Definition unmountBlocked (n : nat) (dev path : string) : blocking :=
  if bool_decide (dev = "") then Free
  else match ae_device ae n dev with
  | None => match ae_stack ae n path with
            | StackUnsupported => Free
            | StackError => Unknown
            | Stack [] => Free
            | Stack _ => Unknown
            end
  | Some own => match ae_stack ae n path with
                | Stack (x :: l) => if bool_decide (top (x :: l) = Some own) then Free else OtherDisk
                | _ => Free
                end
  end.

Definition pathSafeKey (key : string) : bool :=
  match Split "/"%char key with
  | [a; b] => forallb (λ p, negb (bool_decide (p = "") || bool_decide (p = ".") || bool_decide (p = "..")) &&
                all_chars (λ c, negb (bool_decide (c = "\"%char) || bool_decide (c = "000"%char))) p) [a; b]
  | _ => false
  end.

Definition legacyTarget (n : nat) (vol : Volume) (dev : string) : option string :=
  if bool_decide (v_ID vol = "") || bool_decide (dev = "") then None
  else let legacy := Join [MountRoot; v_ID vol] in
       match ae_stack ae n legacy with
       | Stack (x :: l) =>
           match ae_device ae n dev with
           | None => None
           | Some own => if bool_decide (top (x :: l) = Some own) then Some legacy else None
           end
       | _ => None
       end.

(** Whether something is mounted at the namespace's directory. *)
Definition insideMount (n : nat) (dir : string) : bool := match ae_stack ae n dir with Stack (_ :: _) => true | _ => false end.

Definition mountTarget (n : nat) (vol : Volume) (key dev : string) : option string :=
  if negb (pathSafeKey key) then None
  else
    let target := Join [MountRoot; key] in
    let there := if bool_decide (dev = "") then None
                 else match ae_device ae n dev with
                      | None => None
                      | Some own => match ae_stack ae n target with
                                    | Stack (x :: l) => Some (bool_decide (top (x :: l) = Some own))
                                    | _ => None
                                    end
                      end in
    match there with
    | Some true => Some target
    | Some false => None
    | None =>
        match legacyTarget n vol dev with
        | Some legacy => Some legacy
        | None => if insideMount n (Join [MountRoot; NS (v_Namespace vol)]) then None else Some target
        end
    end.

(** ** Taking a volume down *)

Definition unmountLeftover (ctx : OpContext) (m : trackedMount) (p : string) : io unit :=
  if bool_decide (p = tm_Target m) then mret tt
  else callAgent (λ n, ae_unmount ae n p) (λ n ok, Unmount n (tm_Driver m) ctx (tm_Device m) p ok);; mret tt.

Definition unmountLeftovers (ctx : OpContext) (m : trackedMount) : io unit :=
  n ← tick; each (unmountLeftover ctx m) (ownMounts n (tm_Device m)).1.

(** Whether the disk is off the node, and whether there was no error. *)
Definition tearDown (m : trackedMount) : io (bool * bool) :=
  ctx ← teardownOpContext m;
  n ← tick;
  match unmountBlocked n (tm_Device m) (tm_Target m) with
  | Unknown => mret (false, false)
  | b =>
      unmounted ← match b with
                  | Free => callAgent (λ n, ae_unmount ae n (tm_Target m)) (λ n ok, Unmount n (tm_Driver m) ctx (tm_Device m) (tm_Target m) ok)
                  | _ => mret true
                  end;
      unmountLeftovers ctx m;;
      n ← tick;
      if negb (bool_decide (stillMounted n (tm_Device m) = [])) then mret (false, false)
      else
        detached ← callAgent (λ n, ae_detach ae n (tm_Handle m)) (λ n ok, Detach n (tm_Driver m) ctx (tm_Handle m) (tm_Device m) ok);
        mret (detached, detached && unmounted)
  end.

(** Whether there was no error. *)
Definition release (id : string) (m : trackedMount) : io bool :=
  r ← tearDown m;
  if negb r.1 then park id m;; mret r.2
  else unpark (tm_Handle m);; modify (with_lastErr (λ s, s ∖ {[id]}));; mret r.2.

(** ** Bringing a volume up *)

Definition bringUp (vol : Volume) (id : string) : io unit :=
  guardp (negb (bool_decide (v_StorageClassName vol = "")));;
  n ← tick;
  drv ← from_option (ae_lookup ae n vol);
  rawctx ← buildOpContextRaw vol;
  ctx ← resolveSecretsOnOpContext vol rawctx;
  let handle := v_Handle vol in
  attached ← callAgent (λ n, ae_attach ae n handle) (λ n dev, Attach n drv ctx handle dev);
  dev ← from_option attached;
  n ← tick;
  let detachUnused := (n ← tick;
    if bool_decide (stillMounted n dev = [])
    then callAgent (λ n, ae_detach ae n handle) (λ n ok, Detach n drv ctx handle dev ok);; mret tt
    else mret tt) in
  match mountTarget n vol id dev with
  | None => detachUnused;; fail
  | Some target =>
      got ← callAgent (λ n, ae_mount ae n handle target) (λ n got, Mount n drv ctx handle dev target got);
      match got with
      | None => detachUnused;; fail
      | Some got =>
          modify (with_mounts <[id := mkTracked drv handle dev got ctx (mergeParameters (oc_Parameters rawctx) ∅)
            (v_Namespace vol) (v_Name vol) (v_ID vol) (v_StorageClassName vol)]>);;
          unpark handle
      end
  end.

Definition recordBringUp (id : string) (m : io unit) : io unit :=
  r ← try m;
  match r with
  | Some _ => modify (with_lastErr (λ s, s ∖ {[id]}))
  | None => modify (with_lastErr (λ s, {[id]} ∪ s));; fail
  end.

(** ** Reconciling *)

Definition reconcile (vol : Volume) : io unit :=
  let id := MountKey vol in
  mounts ← gets aw_mounts;
  match mounts !! id with
  | None => if shouldMount vol then recordBringUp id (bringUp vol id) else mret tt
  | Some tracked =>
      if negb (shouldMount vol) then
        modify (with_mounts (base.delete id));; ok ← release id tracked; guardp ok
      else if negb (bool_decide (tm_Handle tracked = v_Handle vol)) then
        modify (with_mounts (base.delete id));; release id tracked;; recordBringUp id (bringUp vol id)
      else mret tt
  end.

Definition lookupTrackedID (ns name : string) (mounts : gmap string trackedMount) : string :=
  match List.find (λ kv, bool_decide (tm_VolumeNS kv.2 = ns) && bool_decide (tm_VolumeName kv.2 = name)) (map_to_list mounts) with
  | Some (id, _) => id
  | None => ""
  end.

(** [None] as the resource is a deletion without a body. *)
Definition handle (typ : WatchEventType) (ns name : string) (resource : option Volume) : io unit :=
  match typ with
  | WatchEventCreated | WatchEventUpdated =>
      match resource with Some vol => reconcile vol | None => fail end
  | WatchEventDeleted =>
      mounts ← gets aw_mounts;
      let id := match resource with Some vol => MountKey vol | None => lookupTrackedID ns name mounts end in
      match mounts !! id with
      | None => mret tt
      | Some m => modify (with_mounts (base.delete id));; ok ← release id m; guardp ok
      end
  end.

(** Every volume; errors do not stop the walk. *)
Definition initialReconcile : io unit :=
  vols ← liftS (storeCall env (λ w, (w, Some (map_to_list (d_volumes (w_db w))).*2)));
  each (λ vol, try (reconcile vol);; mret tt) vols.

Definition stillWanted (rec : parkedRecord) : io bool :=
  vol ← try (liftS (lookupVolume env (pr_Namespace rec) (pr_Name rec)));
  mret (match vol with
        | None => true
        | Some None => false
        | Some (Some vol) => bool_decide (v_Handle vol = pr_Handle rec) && shouldMount vol
        end).

Definition recordVolume (rec : parkedRecord) : Volume :=
  mkVolume (pr_VolumeID rec) (pr_Name rec) (pr_Namespace rec) (pr_StorageClass rec) "" "" "" ∅ ∅ (pr_Handle rec) "" "" "" "" "" ∅ 0 0.

Definition rebuildParked (rec : parkedRecord) : io trackedMount :=
  row ← try (liftS (getVolume env (pr_Namespace rec) (pr_Name rec)));
  let vol := match row with
             | Some vol => if bool_decide (v_Handle vol = pr_Handle rec) then vol else recordVolume rec
             | None => recordVolume rec
             end in
  n ← tick;
  drv ← from_option (ae_lookup ae n vol);
  raw ← buildOpContextRaw vol;
  ctx ← resolveSecretsOnOpContext vol raw;
  mret (mkTracked drv (pr_Handle rec) (pr_Device rec) (pr_Target rec) ctx (mergeParameters (oc_Parameters raw) ∅)
    (pr_Namespace rec) (pr_Name rec) (pr_VolumeID rec) (pr_StorageClass rec)).

(** One parked disk; what is rebuilt is kept in the entry. *)
Definition retryOne (h : string) (p : parkedDisk) : io unit :=
  wanted ← stillWanted (pd_rec p);
  if (wanted : bool) then mret tt
  else
    m ← match pd_m p with
        | Some m => mret m
        | None => m ← rebuildParked (pd_rec p);
                  modify (with_parked (alter (λ q, mkParkedDisk (pd_rec q) (Some m)) h));; mret m
        end;
    n ← tick;
    if buried n (tm_Device m) then mret tt
    else release (pr_Key (pd_rec p)) m;; mret tt.

Definition retryParked : io unit :=
  parked ← gets aw_parked;
  each (λ hp, try (retryOne hp.1 hp.2);; mret tt) (map_to_list parked).

(** ** The life of the subsystem *)

Definition Start : io unit := loadParked;; try initialReconcile;; mret tt.

Definition retryTick : io unit := retryParked;; try initialReconcile;; mret tt.

(** [live]: the shutdown context has not ended. *)
Definition Stop (live : bool) : io unit :=
  mounts ← gets aw_mounts;
  modify (with_mounts (λ _, ∅));;
  if live then
    each (λ im, r ← tearDown im.2; if negb r.1 then park im.1 im.2 else mret tt) (map_to_list mounts)
  else mret tt.
End Agent.
