(* ===== verification/AgentVolumesProps.v ===== *)
(** * What the volume agent guarantees

    Its driver calls against the host's mount table, and that no disk it left
    attached is forgotten. *)

From Stdlib Require Import Ascii.
From S2P Require Import Prelude Text Effects Types ResourceStore Names Storage StorageProps StorageApi Mounts MountsProps AgentVolumes.

#[local] Arguments String.append !_ _ : simpl nomatch.

(** ** Assertions about the agent's own state *)

Record agrees (w w' : aworld) : Prop := {
  agrees_mounts : aw_mounts w' = aw_mounts w;
  agrees_parked : aw_parked w' = aw_parked w;
  agrees_file : aw_file w' = aw_file w;
  agrees_log : aw_log w' = aw_log w;
  agrees_tick : (w_tick (aw_world w) ≤ w_tick (aw_world w'))%nat;
}.

(** Not about the store, the errors, or how late it is. *)
Class Calm (P : aworld → Prop) : Prop := calm_agrees w w' : agrees w w' → P w → P w'.

Section Calls.
Context (url_Parse : string → option (string * string)) (PathUnescape : string → string).
Context (env : env) (ae : agent_env) (NodeID MountRoot : string).

Lemma with_lastErr_calm (P : aworld → Prop) `{!Calm P} f : keeps P (modify (with_lastErr f)).
Proof. apply keeps_modify. intros w Hw. eapply calm_agrees; [|exact Hw]. by constructor. Qed.

Lemma read_calm {A} (P : aworld → Prop) `{!Calm P} (f : world → world * option A) :
  (∀ w, (f w).1 = w) → keeps P (liftS (storeCall env f)).
Proof.
  intros Hf w Hw. unfold liftS, storeCall, external. destruct (e_others _ _ _ _) as [d t].
  assert (Hok : ∀ w', w' = mkWorld d t (w_log (aw_world w)) (S (w_tick (aw_world w))) →
    P (mkAworld w' (aw_mounts w) (aw_lastErr w) (aw_parked w) (aw_file w) (aw_log w))).
  { intros w' ->. eapply calm_agrees; [|exact Hw]. constructor; cbn; [done..|lia]. }
  destruct (e_fault _ _); [by apply Hok|]. specialize (Hf (mkWorld d t (w_log (aw_world w)) (S (w_tick (aw_world w))))).
  destruct (f _) as [w' [a|]]; cbn in Hf; by apply Hok.
Qed.

Lemma resolveParams_calm (P : aworld → Prop) `{!Calm P} ps ns : keeps P (liftS (resolveParams url_Parse PathUnescape env ps ns)).
Proof.
  intros w Hw. unfold liftS, resolveParams.
  assert (P (mkAworld (aw_world w) (aw_mounts w) (aw_lastErr w) (aw_parked w) (aw_file w) (aw_log w))) by (eapply calm_agrees; [|exact Hw]; by constructor).
  by destruct (Resolve _ _ _ _ _).
Qed.

Lemma buildOpContextRaw_calm (P : aworld → Prop) `{!Calm P} vol : keeps P (buildOpContextRaw env vol).
Proof.
  unfold buildOpContextRaw. case_bool_decide; [apply keeps_ret|]. apply keeps_bind; [by apply keeps_try, read_calm|].
  intros [?|]; apply keeps_ret.
Qed.

Lemma resolveSecrets_calm (P : aworld → Prop) `{!Calm P} vol ctx : keeps P (resolveSecretsOnOpContext url_Parse PathUnescape env vol ctx).
Proof. apply keeps_bind; [by apply resolveParams_calm|]. intros ?. apply keeps_ret. Qed.

Lemma teardownOpContext_calm (P : aworld → Prop) `{!Calm P} m :
  post P (teardownOpContext url_Parse PathUnescape env m) (λ _, P) (λ _, False).
Proof.
  unfold teardownOpContext. destruct (_ || _); [by apply post_ret|]. eapply post_bind with (R := λ _, P); [|intros ?; by apply post_ret].
  apply post_try. by apply resolveParams_calm.
Qed.

Definition after_call (w : aworld) (d : db) (t : tables) (c : agent_call) : aworld :=
  mkAworld (mkWorld d t (w_log (aw_world w)) (S (w_tick (aw_world w)))) (aw_mounts w) (aw_lastErr w) (aw_parked w) (aw_file w) (aw_log w ++ [c]).

Lemma callAgent_post {A} (answer : nat → A) c (P : aworld → Prop) (Q : A → aworld → Prop) X :
  (∀ w d t, P w → let n := w_tick (aw_world w) in Q (answer n) (after_call w d t (c n (answer n)))) →
  post P (callAgent env answer c) Q X.
Proof.
  intros H w Hw. unfold callAgent, tick, gets, mbind, prog_bind, liftS, external, modify, mret, prog_ret.
  destruct (e_others _ _ _ _) as [d t]. cbn. exact (H w d t Hw).
Qed.

Lemma tick_post (P : aworld → Prop) X : post P tick (λ n w, P w ∧ w_tick (aw_world w) = n) X.
Proof. by apply post_gets. Qed.

(** ** Every driver call is safe on the host *)

(** When the call was made, or at an earlier look at the table, the path was not
    another disk's. *)
Definition safe_call (c : agent_call) : Prop :=
  match c with
  | Attach n drv ctx h dev => ∃ vol, shouldMount NodeID vol = true ∧ v_Handle vol = h
  | Mount n drv ctx h dev target got =>
      ∃ vol, shouldMount NodeID vol = true ∧ v_Handle vol = h ∧ mountTarget ae MountRoot n vol (MountKey vol) dev = Some target
  | Unmount n drv ctx dev target ok => ∃ n0, (n0 ≤ n)%nat ∧ unmountBlocked ae n0 dev target = Free
  | Detach n drv ctx h dev ok => stillMounted ae n dev = []
  end.

(** Everything tracked was mounted by a driver, at the place it reported. *)
Definition mounted_by (l : list agent_call) (m : trackedMount) : Prop :=
  ∃ n ctx target, Mount n (tm_Driver m) ctx (tm_Handle m) (tm_Device m) target (Some (tm_Target m)) ∈ l.

Definition sound (w : aworld) : Prop :=
  Forall safe_call (aw_log w) ∧ map_Forall (λ _, mounted_by (aw_log w)) (aw_mounts w).

#[local] Instance sound_calm : Calm sound.
Proof. intros w w' [E1 _ _ E4 _] [H1 H2]. split; [by rewrite E4|by rewrite E1, E4]. Qed.

Lemma mounted_by_app l l' m : mounted_by l m → mounted_by (l ++ l') m.
Proof. intros (n & ctx & t & H). exists n, ctx, t. apply elem_of_app. by left. Qed.

Lemma sound_call w d t c : sound w → safe_call c → sound (after_call w d t c).
Proof.
  intros [H1 H2] Hc. split; cbn; [by apply Forall_app; split; [|apply Forall_singleton]|].
  intros k m Hm. apply mounted_by_app. by apply (H2 k).
Qed.

Lemma own_mounts_free n dev p : p ∈ (ownMounts ae MountRoot n dev).1 → unmountBlocked ae n dev p = Free.
Proof.
  unfold ownMounts, unmountBlocked. case_bool_decide; [by intros ?%elem_of_nil|]. destruct (ae_device ae n dev) as [own|]; [|by intros ?%elem_of_nil].
  destruct (ae_points ae n own) as [paths|]; [|by intros ?%elem_of_nil]. cbn.
  intros ([q b] & -> & [Hb Hin]%elem_of_filterb)%list_elem_of_fmap. cbn in *. subst b. apply list_elem_of_omap in Hin as (p & _ & Hp).
  destruct (String.prefix _ p); [|done]. destruct (ae_stack ae n p) as [[|x l]| |] eqn:Hs; [done| |done..]. injection Hp as <- Hb.
  rewrite Hs, Hb. done.
Qed.

Lemma each_total {A B} (I : A → Prop) (f : B → prog A unit) l :
  (∀ x, x ∈ l → post I (f x) (λ _, I) (λ _, False)) → post I (each f l) (λ _, I) (λ _, False).
Proof.
  induction l as [|x l IH]; intros H; [by apply post_ret|].
  eapply post_bind; [apply H; left|]. intros ?. apply IH. intros y Hy. apply H. by right.
Qed.

Lemma tearDown_sound m : post sound (tearDown url_Parse PathUnescape env ae MountRoot m) (λ _, sound) (λ _, False).
Proof.
  unfold tearDown. eapply post_bind; [apply (teardownOpContext_calm sound)|]. intros ctx.
  eapply post_bind; [apply tick_post|]. intros n.
  assert (Hrest : ∀ b : bool, post sound (unmountLeftovers env ae MountRoot ctx m;; n ← tick;
    if negb (bool_decide (stillMounted ae n (tm_Device m) = [])) then mret (false, false)
    else detached ← callAgent env (λ n, ae_detach ae n (tm_Handle m)) (λ n ok, Detach n (tm_Driver m) ctx (tm_Handle m) (tm_Device m) ok);
         mret (detached, detached && b)) (λ _, sound) (λ _, False)).
  { intros b. eapply post_bind with (R := λ _, sound).
    - unfold unmountLeftovers. eapply post_bind; [apply tick_post|]. intros n0.
      eapply post_weaken; [apply (each_total (λ w, sound w ∧ (n0 ≤ w_tick (aw_world w))%nat))| | |done].
      + intros p Hp. unfold unmountLeftover. case_bool_decide; [by apply post_ret|].
        eapply post_bind with (R := λ _ w, sound w ∧ (n0 ≤ w_tick (aw_world w))%nat); [|intros ?; by apply post_ret].
        apply callAgent_post. intros w d t [Hw Hn]. split; [|cbn; lia]. apply sound_call; [done|]. exists n0. split; [done|]. by apply own_mounts_free.
      + intros w [Hw <-]. done.
      + by intros ? w [? _].
    - intros ?. eapply post_bind; [apply tick_post|]. intros n1. case_bool_decide as Hs; cbn [negb].
      + eapply post_bind with (R := λ _, sound); [|intros ?; by apply post_ret]. apply callAgent_post. intros w d t [Hw <-].
        by apply sound_call.
      + apply post_ret. by intros w [? _]. }
  destruct (unmountBlocked ae n (tm_Device m) (tm_Target m)) eqn:Hb.
  - eapply post_bind with (R := λ _, sound); [|intros ok; apply Hrest]. apply callAgent_post. intros w d t [Hw <-].
    apply sound_call; [done|]. by eexists.
  - eapply post_bind with (R := λ _, sound); [apply post_ret; by intros w [? _]|intros ok; apply Hrest].
  - apply post_ret. by intros w [? _].
Qed.

Lemma saveParked_calm (P : aworld → Prop) : (∀ w recs, P w → P (with_file recs w)) → post P (saveParked ae) (λ _, P) (λ _, False).
Proof. intros HP w Hw. unfold saveParked. destruct (ae_save _ _); [by apply HP|done]. Qed.

Lemma sound_file w recs : sound w → sound (with_file recs w).
Proof. done. Qed.

Lemma park_sound id m : post sound (park ae id m) (λ _, sound) (λ _, False).
Proof.
  unfold park. eapply post_bind with (R := λ _, sound); [by apply post_modify|]. intros ?.
  eapply post_bind with (R := λ _, sound); [by apply post_modify|]. intros ?. by apply saveParked_calm.
Qed.

Lemma unpark_sound h : post sound (unpark ae h) (λ _, sound) (λ _, False).
Proof.
  unfold unpark. eapply post_bind with (R := λ _, sound); [by apply post_gets|]. intros p.
  eapply post_bind with (R := λ _, sound); [by apply post_modify|]. intros ?. case_bool_decide; [by apply saveParked_calm|by apply post_ret].
Qed.

Lemma release_sound id m : post sound (release url_Parse PathUnescape env ae MountRoot id m) (λ _, sound) (λ _, False).
Proof.
  unfold release. eapply post_bind; [apply tearDown_sound|]. intros r. destruct (negb r.1).
  - eapply post_bind; [apply park_sound|]. intros ?. by apply post_ret.
  - eapply post_bind; [apply unpark_sound|]. intros ?. eapply post_bind with (R := λ _, sound); [by apply post_modify|]. intros ?. by apply post_ret.
Qed.

Lemma untrack_sound id : post sound (modify (with_mounts (base.delete id))) (λ _, sound) (λ _, False).
Proof. apply post_modify. intros w [H1 H2]. split; [done|]. cbn. by apply map_Forall_delete. Qed.

Lemma bringUp_sound vol :
  shouldMount NodeID vol = true → keeps sound (bringUp url_Parse PathUnescape env ae MountRoot vol (MountKey vol)).
Proof.
  intros Hsh. unfold bringUp. apply keeps_bind; [apply keeps_guard|]. intros ?. apply keeps_bind; [apply keeps_gets|]. intros n.
  apply keeps_bind; [apply keeps_from|]. intros drv. apply keeps_bind; [apply buildOpContextRaw_calm, _|]. intros raw.
  apply keeps_bind; [apply resolveSecrets_calm, _|]. intros ctx.
  apply keeps_bind; [apply callAgent_post; intros w d t Hw; apply sound_call; [done|by exists vol]|]. intros attached.
  apply keeps_bind; [apply keeps_from|]. intros dev.
  assert (Hdet : ∀ h, post sound (n ← tick; if bool_decide (stillMounted ae n dev = [])
    then callAgent env (λ n, ae_detach ae n h) (λ n ok, Detach n drv ctx h dev ok);; mret tt else mret tt) (λ _, sound) (λ _, False)).
  { intros h. eapply post_bind; [apply tick_post|]. intros n1. case_bool_decide; [|apply post_ret; by intros w [? _]].
    eapply post_bind with (R := λ _, sound); [|intros ?; by apply post_ret]. apply callAgent_post. intros w d t [Hw <-]. by apply sound_call. }
  eapply post_bind; [apply tick_post|]. intros n1. destruct (mountTarget ae MountRoot n1 vol (MountKey vol) dev) as [target|] eqn:Ht.
  - eapply post_bind with (R := λ got w, sound w ∧ (got = None ∨ ∃ n g, got = Some g ∧ Mount n drv ctx (v_Handle vol) dev target (Some g) ∈ aw_log w)).
    { apply callAgent_post. intros w d t [Hw <-]. split; [apply sound_call; [done|by exists vol]|].
      destruct (ae_mount ae _ _ _) as [g|]; [right|by left]. eexists _, g. split; [done|]. cbn. apply elem_of_app. right. by apply list_elem_of_singleton. }
    intros [g|]; cycle 1.
    { eapply post_bind; [eapply post_weaken; [apply Hdet|by intros w [? _]|done..]|]. intros ?. by apply post_fail. }
    eapply post_bind with (R := λ _, sound); [|intros ?; eapply post_weaken; [apply unpark_sound|done..]].
    apply post_modify. intros w [[H1 H2] [?|(n2 & g' & [= <-] & Hin)]]; [done|]. split; [done|]. cbn.
    apply map_Forall_insert_2; [|done]. by exists n2, ctx, target.
  - eapply post_bind; [eapply post_weaken; [apply Hdet|by intros w [? _]|done..]|]. intros ?. by apply post_fail.
Qed.

#[local] Abbreviation step_reconcile := (reconcile url_Parse PathUnescape env ae NodeID MountRoot).

Lemma recordBringUp_keeps (P : aworld → Prop) `{!Calm P} id m : keeps P m → keeps P (recordBringUp id m).
Proof.
  intros Hm. unfold recordBringUp. apply keeps_bind; [by apply keeps_try|]. intros [?|]; [by apply with_lastErr_calm|].
  apply keeps_bind; [by apply with_lastErr_calm|]. intros ?. apply keeps_fail.
Qed.

Lemma never_fails {A} (P : aworld → Prop) (m : prog aworld A) : post P m (λ _, P) (λ _, False) → keeps P m.
Proof. intros H. by eapply post_weaken; [exact H|done..|]. Qed.

Lemma agentReconcile_sound vol : keeps sound (step_reconcile vol).
Proof.
  unfold reconcile. apply keeps_bind; [apply keeps_gets|]. intros mounts. destruct (mounts !! MountKey vol) as [m|].
  - destruct (shouldMount NodeID vol) eqn:Hs; cbn [negb].
    + case_bool_decide; cbn [negb]; [apply keeps_ret|]. apply keeps_bind; [apply never_fails, untrack_sound|]. intros ?.
      apply keeps_bind; [apply never_fails, release_sound|]. intros ?. apply recordBringUp_keeps; [apply _|by apply bringUp_sound].
    + apply keeps_bind; [apply never_fails, untrack_sound|]. intros ?. apply keeps_bind; [apply never_fails, release_sound|]. intros ?. apply keeps_guard.
  - destruct (shouldMount NodeID vol) eqn:Hs; [|apply keeps_ret]. apply recordBringUp_keeps; [apply _|by apply bringUp_sound].
Qed.

Lemma handle_sound typ ns name res : keeps sound (handle url_Parse PathUnescape env ae NodeID MountRoot typ ns name res).
Proof.
  unfold handle. destruct typ; [destruct res; [apply agentReconcile_sound|apply keeps_fail]..|].
  apply keeps_bind; [apply keeps_gets|]. intros mounts. destruct (mounts !! _) as [m|]; [|apply keeps_ret].
  apply keeps_bind; [apply never_fails, untrack_sound|]. intros ?. apply keeps_bind; [apply never_fails, release_sound|]. intros ?. apply keeps_guard.
Qed.

Lemma initialReconcile_keeps (P : aworld → Prop) `{!Calm P} :
  (∀ vol, keeps P (step_reconcile vol)) → keeps P (initialReconcile url_Parse PathUnescape env ae NodeID MountRoot).
Proof.
  intros H. apply keeps_bind; [by apply read_calm|]. intros vols. apply keeps_each. intros vol _.
  apply keeps_bind; [by apply keeps_try|]. intros ?. apply keeps_ret.
Qed.

Lemma rebuildParked_calm (P : aworld → Prop) `{!Calm P} rec : keeps P (rebuildParked url_Parse PathUnescape env ae rec).
Proof.
  unfold rebuildParked. apply keeps_bind; [by apply keeps_try, read_calm|]. intros row. apply keeps_bind; [apply keeps_gets|]. intros n.
  apply keeps_bind; [apply keeps_from|]. intros drv. apply keeps_bind; [by apply buildOpContextRaw_calm|]. intros raw.
  apply keeps_bind; [by apply resolveSecrets_calm|]. intros ctx. apply keeps_ret.
Qed.

Lemma stillWanted_calm (P : aworld → Prop) `{!Calm P} rec : keeps P (stillWanted env NodeID rec).
Proof. apply keeps_bind; [by apply keeps_try, read_calm|]. intros ?. apply keeps_ret. Qed.

Lemma retryOne_keeps (P : aworld → Prop) `{!Calm P} h p :
  (∀ m, keeps P (modify (with_parked (alter (λ q, mkParkedDisk (pd_rec q) (Some m)) h)))) →
  (∀ id m, keeps P (release url_Parse PathUnescape env ae MountRoot id m)) →
  keeps P (retryOne url_Parse PathUnescape env ae NodeID MountRoot h p).
Proof.
  intros Ha Hr. unfold retryOne. apply keeps_bind; [by apply stillWanted_calm|]. intros [|]; [apply keeps_ret|].
  apply keeps_bind.
  { destruct (pd_m p); [apply keeps_ret|]. apply keeps_bind; [by apply rebuildParked_calm|]. intros m. apply keeps_bind; [apply Ha|]. intros ?. apply keeps_ret. }
  intros m. apply keeps_bind; [apply keeps_gets|]. intros n. destruct (buried _ _ _ _); [apply keeps_ret|].
  apply keeps_bind; [apply Hr|]. intros ?. apply keeps_ret.
Qed.

Lemma retryParked_keeps (P : aworld → Prop) : (∀ h p, keeps P (retryOne url_Parse PathUnescape env ae NodeID MountRoot h p)) →
  keeps P (retryParked url_Parse PathUnescape env ae NodeID MountRoot).
Proof.
  intros H. apply keeps_bind; [apply keeps_gets|]. intros parked. apply keeps_each. intros hp _.
  apply keeps_bind; [by apply keeps_try|]. intros ?. apply keeps_ret.
Qed.

Lemma retryTick_keeps (P : aworld → Prop) `{!Calm P} :
  (∀ vol, keeps P (step_reconcile vol)) → (∀ h p, keeps P (retryOne url_Parse PathUnescape env ae NodeID MountRoot h p)) →
  keeps P (retryTick url_Parse PathUnescape env ae NodeID MountRoot).
Proof.
  intros H1 H2. apply keeps_bind; [by apply retryParked_keeps|]. intros ?. apply keeps_bind; [by apply keeps_try, initialReconcile_keeps|].
  intros ?. apply keeps_ret.
Qed.

(** ** The run loop *)

Inductive agent_step :=
| SEvent (typ : WatchEventType) (ns name : string) (resource : option Volume)
| STick.

(** A step that fails is only logged. *)
Definition agentStep (s : agent_step) : prog aworld unit :=
  match s with
  | SEvent typ ns name res => try (handle url_Parse PathUnescape env ae NodeID MountRoot typ ns name res);; mret tt
  | STick => retryTick url_Parse PathUnescape env ae NodeID MountRoot
  end.

(** From start to shutdown. *)
Definition agentLife (steps : list agent_step) : prog aworld unit :=
  Start url_Parse PathUnescape env ae NodeID MountRoot;; each agentStep steps.

Lemma agentStep_keeps (P : aworld → Prop) `{!Calm P} s :
  (∀ vol, keeps P (step_reconcile vol)) → (∀ h p, keeps P (retryOne url_Parse PathUnescape env ae NodeID MountRoot h p)) →
  (∀ typ ns name res, keeps P (handle url_Parse PathUnescape env ae NodeID MountRoot typ ns name res)) → keeps P (agentStep s).
Proof.
  intros H1 H2 H3. destruct s; [|by apply retryTick_keeps]. apply keeps_bind; [by apply keeps_try|]. intros ?. apply keeps_ret.
Qed.

Lemma life_sound steps : keeps sound (agentLife steps).
Proof.
  apply keeps_bind; [apply keeps_bind; [apply keeps_bind; [apply keeps_gets|intros ?; by apply keeps_modify]|]; intros ?;
    apply keeps_bind; [apply keeps_try, initialReconcile_keeps; [apply _|apply agentReconcile_sound]|]; intros ?; apply keeps_ret|].
  intros ?. apply keeps_each. intros s _. apply agentStep_keeps; [apply _|apply agentReconcile_sound| |apply handle_sound].
  intros h p. apply retryOne_keeps; [apply _|intros m; by apply keeps_modify|]. intros id m. apply never_fails, release_sound.
Qed.

Lemma stop_sound live : keeps sound (Stop url_Parse PathUnescape env ae MountRoot live).
Proof.
  apply keeps_bind; [apply keeps_gets|]. intros mounts. apply keeps_bind.
  { apply keeps_modify. intros w [H1 H2]. split; [done|]. apply map_Forall_empty. }
  intros ?. destruct live; [|apply keeps_ret]. apply keeps_each. intros im _. apply keeps_bind; [apply never_fails, tearDown_sound|].
  intros r. destruct (negb r.1); [apply never_fails, park_sound|apply keeps_ret].
Qed.
End Calls.

(** ** What the mount table allows *)

Lemma Split_key key : pathSafeKey key = true → ".." ∉ Split "/"%char key.
Proof.
  unfold pathSafeKey. destruct (Split _ key) as [|a [|b [|? ?]]]; try done. cbn [forallb]. intros H. bools.
  intros [E|[E|?%elem_of_nil]%elem_of_cons]%elem_of_cons; [by subst..|done].
Qed.

Lemma MountKey_id vol : v_ID vol ≠ "" → MountKey vol = NS (v_Namespace vol) +:+ String "/" (v_ID vol).
Proof. intros H. unfold MountKey. by rewrite bool_decide_false. Qed.

Section Targets.
Context (ae : agent_env) (MountRoot : string).

Lemma mountTarget_inside n vol dev target :
  IsAbs MountRoot = true → mountTarget ae MountRoot n vol (MountKey vol) dev = Some target → segments MountRoot `prefix_of` segments target.
Proof.
  intros Ha. unfold mountTarget. destruct (pathSafeKey (MountKey vol)) eqn:Hk; [|done]. cbn [negb]. apply Split_key in Hk.
  assert (Ht : segments MountRoot `prefix_of` segments (Join [MountRoot; MountKey vol])).
  { apply Join_below; [done|]. by intros e ->%list_elem_of_singleton. }
  destruct (if bool_decide (dev = "") then _ else _) as [[|]|]; [by intros [= <-]|done|].
  unfold legacyTarget. destruct (bool_decide (v_ID vol = "")) eqn:Hid; cbn [orb]; [by case_match; [|intros [= <-]]|].
  assert (Hl : segments MountRoot `prefix_of` segments (Join [MountRoot; v_ID vol])).
  { apply Join_below; [done|]. intros e ->%list_elem_of_singleton. apply bool_decide_eq_false_1 in Hid. rewrite MountKey_id, Split_app in Hk by done.
    intros Hin. apply Hk. apply elem_of_app. by right. }
  repeat case_match; intros; by simplify_eq.
Qed.

Lemma legacyTarget_own n vol dev target own x l :
  legacyTarget ae MountRoot n vol dev = Some target → ae_device ae n dev = Some own →
  ae_stack ae n target = Stack (x :: l) → last (x :: l) = Some own.
Proof.
  unfold legacyTarget. intros H Hown Hs. destruct (_ || _); [done|]. rewrite Hown in H.
  destruct (ae_stack ae n (Join _)) as [[|y k]| |] eqn:Hst; try done. case_bool_decide as E; [|done]. injection H as <-.
  rewrite Hst in Hs. injection Hs as -> ->. exact E.
Qed.

(** Where the disk itself is known and the table can be read, what is visible at
    the target is that disk, or nothing. *)
Lemma mountTarget_own n vol dev target own x l :
  mountTarget ae MountRoot n vol (MountKey vol) dev = Some target → dev ≠ "" → ae_device ae n dev = Some own →
  ae_stack ae n target = Stack (x :: l) → last (x :: l) = Some own.
Proof.
  intros H Hd Hown Hs. unfold mountTarget in H. destruct (negb _); [done|]. rewrite bool_decide_false, Hown in H by done.
  destruct (ae_stack ae n (Join [MountRoot; MountKey vol])) as [[|y k]| |] eqn:Hst.
  2: { case_bool_decide as E; [|done]. injection H as <-. rewrite Hst in Hs. injection Hs as -> ->. exact E. }
  all: destruct (legacyTarget ae MountRoot n vol dev) as [legacy|] eqn:Hl; [injection H as <-; by eapply legacyTarget_own|];
    destruct (insideMount _ _ _); [done|]; injection H as <-; by rewrite Hst in Hs.
Qed.

Lemma unmount_own n dev path own x l :
  unmountBlocked ae n dev path = Free → dev ≠ "" → ae_device ae n dev = Some own → ae_stack ae n path = Stack (x :: l) → last (x :: l) = Some own.
Proof. unfold unmountBlocked. intros H Hd Ho Hs. rewrite Ho, Hs, bool_decide_false in H by done. by case_bool_decide. Qed.
End Targets.

(** The disk [dev] may be touched at [path] at tick [n]: when the table shows
    something there and the disk is known, it is the disk itself. *)
Definition not_another (ae : agent_env) (n : nat) (dev path : string) : Prop :=
  ∀ own x l, dev ≠ "" → ae_device ae n dev = Some own → ae_stack ae n path = Stack (x :: l) → last (x :: l) = Some own.

Definition host_safe (ae : agent_env) (NodeID MountRoot : string) (c : agent_call) : Prop :=
  match c with
  | Attach _ _ _ h _ => ∃ vol, v_BoundNode vol = NodeID ∧ v_Handle vol = h ∧ is_ready vol = true
  | Mount n _ _ h dev target _ => segments MountRoot `prefix_of` segments target ∧ not_another ae n dev target
  | Unmount n _ _ dev target _ => ∃ n0, (n0 ≤ n)%nat ∧ not_another ae n0 dev target
  | Detach n _ _ _ dev _ => ∀ d, dev ≠ "" → ae_device ae n dev = Some d → default [] (ae_points ae n d) = []
  end.

Lemma safe_is_host_safe ae NodeID MountRoot c : IsAbs MountRoot = true → safe_call ae NodeID MountRoot c → host_safe ae NodeID MountRoot c.
Proof.
  intros Ha. destruct c as [n drv ctx h dev|n drv ctx h dev target got|n drv ctx dev target ok|n drv ctx h dev ok]; cbn.
  - intros (vol & Hs & Hh). exists vol. unfold shouldMount in Hs. by bools.
  - intros (vol & Hs & Hh & Ht). split; [by eapply mountTarget_inside|]. intros own x l Hd Ho Hst. by eapply mountTarget_own.
  - intros (n0 & Hn & Hf). exists n0. split; [done|]. intros own x l Hd Ho Hst. by eapply unmount_own.
  - unfold stillMounted. intros H d Hd Ho. rewrite bool_decide_false, Ho in H by done. done.
Qed.

(** Whatever the store, the drivers and the mount table answer, over the whole
    life of the agent: it attaches only volumes bound to its node, mounts only
    below its root, never mounts over or unmounts another disk the table shows
    there, and never detaches a disk the table shows mounted anywhere; and what
    it reports as a volume's mount target is what a driver returned for its disk. *)
Theorem agent_calls_safe url_Parse PathUnescape env ae NodeID MountRoot steps live w :
  IsAbs MountRoot = true → aw_log w = [] → aw_mounts w = ∅ →
  let w' := ((agentLife url_Parse PathUnescape env ae NodeID MountRoot steps;; Stop url_Parse PathUnescape env ae MountRoot live) w).1 in
  let w1 := (agentLife url_Parse PathUnescape env ae NodeID MountRoot steps w).1 in
  Forall (host_safe ae NodeID MountRoot) (aw_log w') ∧
  (∀ key target, MountTargetFor w1 key = Some target →
     ∃ n drv ctx h dev asked, Mount n drv ctx h dev asked (Some target) ∈ aw_log w1).
Proof.
  intros Ha Hl Hm w' w1. assert (Hs : sound ae NodeID MountRoot w) by (split; [by rewrite Hl|by rewrite Hm; apply map_Forall_empty]). split.
  - assert (sound ae NodeID MountRoot w') as [Hs' _].
    { eapply keeps_state; [|exact Hs]. apply keeps_bind; [apply life_sound|]. intros ?. apply stop_sound. }
    eapply Forall_impl; [exact Hs'|]. intros c. by apply safe_is_host_safe.
  - assert (sound ae NodeID MountRoot w1) as [_ Hs1] by (eapply keeps_state; [apply life_sound|exact Hs]).
    intros key target. unfold MountTargetFor. destruct (aw_mounts w1 !! key) as [m|] eqn:E; [|done]. intros [= <-].
    destruct (Hs1 key m E) as (n & ctx & asked & Hin). eauto 10.
Qed.

(** ** No attached disk is forgotten

    A disk a driver mounted and nobody detached is tracked or parked, across
    events, retries, shutdown and restart. *)

(** The disks the calls leave on the node. *)
Definition after (s : gset string) (c : agent_call) : gset string :=
  match c with
  | Mount _ _ _ h _ _ (Some _) => {[h]} ∪ s
  | Detach _ _ _ h _ true => s ∖ {[h]}
  | _ => s
  end.
Definition attached (l : list agent_call) : gset string := fold_left after l ∅.

Lemma attached_snoc l c : attached (l ++ [c]) = after (attached l) c.
Proof. unfold attached. by rewrite fold_left_app. Qed.

Lemma attached_call w d t c : attached (aw_log (after_call w d t c)) = after (attached (aw_log w)) c.
Proof. apply attached_snoc. Qed.

Definition tracked (w : aworld) (h : string) : Prop := ∃ id m, aw_mounts w !! id = Some m ∧ tm_Handle m = h.

(** Every attached disk is parked, tracked, or answered for by [R]. *)
Definition acc (R : string → Prop) (w : aworld) : Prop :=
  ∀ h, h ∈ attached (aw_log w) → is_Some (aw_parked w !! h) ∨ tracked w h ∨ R h.

(** Entries are kept under their own handles, and the file lists them. *)
Definition keyed (w : aworld) : Prop := ∀ h p, aw_parked w !! h = Some p → pr_Handle (pd_rec p) = h.
Definition filed (w : aworld) : Prop := keyed w ∧ ∀ h, is_Some (aw_parked w !! h) → ∃ r, r ∈ aw_file w ∧ pr_Handle r = h.

#[local] Abbreviation fine R := (λ w, acc R w ∧ filed w).

#[global] Instance fine_calm R : Calm (fine R).
Proof. intros w w' [E1 E2 E3 E4 _]. unfold acc, filed, keyed, tracked. by rewrite E1, E2, E3, E4. Qed.


Section Parked.
Context (url_Parse : string → option (string * string)) (PathUnescape : string → string).
Context (env : env) (ae : agent_env) (NodeID MountRoot : string).
Context (Hsave : ∀ n, ae_save ae n = true).

Lemma saveParked_files R : post (λ w, acc R w ∧ keyed w) (saveParked ae) (λ _, fine R) (λ _, False).
Proof.
  intros w [Ha Hk]. unfold saveParked. rewrite Hsave. split; [done|]. split; [done|]. cbn. intros h [p Hp].
  exists (pd_rec p). split; [|by apply Hk]. apply elem_of_SliceStable, list_elem_of_fmap. exists p. split; [done|].
  apply list_elem_of_fmap. exists (h, p). split; [done|]. by apply elem_of_map_to_list.
Qed.

Lemma park_fine R id m : post (fine (λ h, h = tm_Handle m ∨ R h)) (park ae id m) (λ _, fine R) (λ _, False).
Proof.
  unfold park. eapply post_bind with (R := λ _ w, acc R w ∧ keyed w).
  - apply post_modify. intros w [Ha [Hk _]]. split.
    + intros h Hh. cbn. rewrite lookup_insert_is_Some. destruct (decide (tm_Handle m = h)) as [->|Hne]; [auto|].
      destruct (Ha h Hh) as [?|[?|[?|?]]]; auto; congruence.
    + intros h p. cbn. rewrite lookup_insert_Some. intros [[<- <-]|[_ ?]]; [done|by apply Hk].
  - intros ?. eapply post_bind with (R := λ _ w, acc R w ∧ keyed w); [by apply post_modify|]. intros ?. apply saveParked_files.
Qed.

Lemma unpark_fine R h :
  post (λ w, fine R w ∧ (h ∉ attached (aw_log w) ∨ tracked w h)) (unpark ae h) (λ _, fine R) (λ _, False).
Proof.
  unfold unpark. eapply post_bind with (R := λ p w, (fine R w ∧ (h ∉ attached (aw_log w) ∨ tracked w h)) ∧ aw_parked w = p); [by apply post_gets|].
  intros p. eapply post_bind with (R := λ _ w, acc R w ∧ keyed w ∧ (p !! h = None → filed w)).
  - apply post_modify. intros w [[[Ha [Hk Hf]] Hh] <-]. split_and!.
    + intros h' Hh'. cbn in *. destruct (decide (h = h')) as [<-|Hne]; [destruct Hh as [?|?]; [done|auto]|].
      destruct (Ha h' Hh') as [?|[?|?]]; [left; by rewrite lookup_delete_ne|right; left; assumption|right; right; assumption].
    + intros h' q. cbn. rewrite lookup_delete_Some. intros [_ ?]. by apply Hk.
    + intros Hn. unfold filed, keyed, with_parked. cbn. rewrite delete_id by done. split; assumption.
  - intros ?. case_bool_decide as Hp.
    + eapply post_weaken; [apply (saveParked_files R)| |done..]. by intros w (? & ? & _).
    + apply post_ret. intros w (? & ? & H). split; [done|]. apply H. by apply eq_None_not_Some.
Qed.

(** A call that mounts nothing. *)
Definition no_mount (c : agent_call) : Prop := match c with Mount _ _ _ _ _ _ (Some _) => False | _ => True end.

Lemma fine_call R w d t c : no_mount c → fine R w → fine R (after_call w d t c).
Proof.
  intros Hc [Ha Hf]. split; [|done]. intros h. rewrite attached_call. intros Hh. apply Ha.
  destruct c as [| ? ? ? ? ? ? [?|]| | ? ? ? ? ? []]; cbn in *; [done..|set_solver|done].
Qed.

Lemma tearDown_fine R m :
  post (fine R) (tearDown url_Parse PathUnescape env ae MountRoot m)
    (λ r w, fine R w ∧ (r.1 = true → tm_Handle m ∉ attached (aw_log w))) (λ _, False).
Proof.
  unfold tearDown. eapply post_bind; [apply (teardownOpContext_calm _ _ env (fine R))|]. intros ctx.
  eapply post_bind with (R := λ _, fine R); [by apply post_gets|]. intros n.
  assert (Hrest : ∀ b : bool, post (fine R) (unmountLeftovers env ae MountRoot ctx m;; n ← tick;
    if negb (bool_decide (stillMounted ae n (tm_Device m) = [])) then mret (false, false)
    else detached ← callAgent env (λ n, ae_detach ae n (tm_Handle m)) (λ n ok, Detach n (tm_Driver m) ctx (tm_Handle m) (tm_Device m) ok);
         mret (detached, detached && b)) (λ r w, fine R w ∧ (r.1 = true → tm_Handle m ∉ attached (aw_log w))) (λ _, False)).
  { intros b. eapply post_bind with (R := λ _, fine R).
    - unfold unmountLeftovers. eapply post_bind with (R := λ _, fine R); [by apply post_gets|]. intros n0.
      apply each_total. intros p _. unfold unmountLeftover. case_bool_decide; [by apply post_ret|].
      eapply post_bind with (R := λ _, fine R); [|intros ?; by apply post_ret]. apply callAgent_post. intros w d t Hw. by apply fine_call.
    - intros ?. eapply post_bind with (R := λ _, fine R); [by apply post_gets|]. intros n1. destruct (negb _); [by apply post_ret|].
      eapply post_bind with (R := λ r w, fine R w ∧ (r = true → tm_Handle m ∉ attached (aw_log w))); [|intros ?; by apply post_ret].
      apply callAgent_post. intros w d t Hw. split; [by apply fine_call|]. intros Hok. rewrite attached_call, Hok. cbn. set_solver. }
  destruct (unmountBlocked _ _ _ _); [|eapply post_bind with (R := λ _, fine R); [by apply post_ret|intros ok; apply Hrest]|by apply post_ret].
  eapply post_bind with (R := λ _, fine R); [|intros ok; apply Hrest]. apply callAgent_post. intros w d t Hw. by apply fine_call.
Qed.

Lemma fine_detached (R : string → Prop) h w : fine (λ h', h' = h ∨ R h') w → h ∉ attached (aw_log w) → fine R w.
Proof. intros [Ha Hf] Hn. split; [|done]. intros h' Hh. destruct (Ha h' Hh) as [?|[?|[->|?]]]; auto; done. Qed.

Lemma release_fine R id m :
  post (fine (λ h, h = tm_Handle m ∨ R h)) (release url_Parse PathUnescape env ae MountRoot id m) (λ _, fine R) (λ _, False).
Proof.
  unfold release. eapply post_bind; [apply tearDown_fine|]. intros [[|] ok]; cbn [fst snd negb].
  - eapply post_bind with (R := λ _, fine R).
    + eapply post_weaken; [apply (unpark_fine R)| |done..]. intros w [Hw Hn]. specialize (Hn eq_refl). split; [by eapply fine_detached|by left].
    + intros ?. eapply post_bind with (R := λ _, fine R); [by apply post_modify|]. intros ?. by apply post_ret.
  - eapply post_bind with (R := λ _, fine R); [|intros ?; by apply post_ret].
    eapply post_weaken; [apply (park_fine R)| |done..]. by intros w [? _].
Qed.

Definition nobody : string → Prop := λ _, False.


Lemma untrack_fine id m :
  post (λ w, fine nobody w ∧ aw_mounts w !! id = Some m) (modify (with_mounts (base.delete id)))
    (λ _ w, fine (λ h, h = tm_Handle m ∨ nobody h) w ∧ aw_mounts w !! id = None) (λ _, False).
Proof.
  apply post_modify. intros w [[Ha Hf] Hm]. split; [|cbn; apply lookup_delete_eq]. split; [|done].
  intros h Hh. destruct (Ha h Hh) as [?|[(id' & m' & Hm' & <-)|[]]]; [by left|].
  destruct (decide (id = id')) as [<-|Hne]; [right; right; left; congruence|].
  right. left. exists id', m'. split; [|done]. cbn. by rewrite lookup_delete_ne.
Qed.

Lemma untrack_release id m :
  post (λ w, fine nobody w ∧ aw_mounts w !! id = Some m)
    (modify (with_mounts (base.delete id));; release url_Parse PathUnescape env ae MountRoot id m) (λ _, fine nobody) (λ _, False).
Proof.
  eapply post_bind; [apply untrack_fine|]. intros ?. eapply post_weaken; [apply (release_fine nobody)| |done..]. by intros w [? _].
Qed.

(** Nothing is tracked under [id]. *)
Definition vacant (id : string) (w : aworld) : Prop := fine nobody w ∧ aw_mounts w !! id = None.

#[local] Instance vacant_calm id : Calm (vacant id).
Proof. intros w w' H [Hw Hm]. split; [by eapply fine_calm|]. destruct H as [-> _ _ _ _]. done. Qed.




#[local] Abbreviation step_reconcile := (reconcile url_Parse PathUnescape env ae NodeID MountRoot).


(** Taking a volume down leaves what is tracked alone. *)
Section Untouched.
Context (φ : gmap string trackedMount → Prop).

Definition tracks (w : aworld) : Prop := φ (aw_mounts w).

#[local] Instance tracks_calm : Calm tracks.
Proof. intros w w' [E _ _ _ _]. unfold tracks. by rewrite E. Qed.




End Untouched.











(** The next run of the agent: its memory is gone, the file and the node are not. *)
Definition restarted (w : aworld) : aworld := mkAworld (aw_world w) ∅ ∅ ∅ (aw_file w) (aw_log w).

End Parked.

(** ** The volume agent at the edges

    The agent with the volume controller and the instance controller's binder, and
    the disks it loses track of. *)

(** A node whose drivers and mount table answer as given. *)
Definition host (attach : string → option string) (mount : string → string → option string) (detach : nat → bool) : agent_env :=
  mkAgentEnv (λ _ _, Some "do-volume") (λ _ h, attach h) (λ _ h t, mount h t) (λ _ _, true) (λ n _, detach n)
    (λ _ _, Stack []) (λ _ _, Some []) (λ _ _, Some (8, 0)) (λ _, true).

Definition good_host : agent_env := host (λ _, Some "/dev/sda") (λ _ t, Some t) (λ _, true).

Definition idle_agent (w : world) : aworld := mkAworld w ∅ ∅ ∅ [] [].

#[local] Abbreviation life ae := (agentLife no_url id (calm (λ _, None)) ae "node-1" DefaultMountRoot).
#[local] Abbreviation stop ae := (Stop no_url id (calm (λ _, None)) ae DefaultMountRoot).

(** The agent starts on the node the binder bound the volume to. *)
Definition agent_after (h : string) (c : Ascii.ascii) : aworld := (life good_host [] (idle_agent (provisioned h c).1)).1.

(** The three parts together: the volume the controller provisioned and the binder
    bound to the node is mounted there by the agent, and the binder, which asks
    the agent, hands the instance the agent's path. *)
Theorem bound_volume_reaches_instance c h :
  let path := "/var/lib/rune/mounts/prod/data-db-cache-0" in
  MountTargetFor (agent_after h c) "prod/data-db-cache-0" = Some path ∧
  (let be := mkBinderEnv (λ _, true) (λ _, MountTargetFor (agent_after h c)) (λ _, "node-1") (λ _, false) (λ _ _, None) (λ _ _, true)
               (λ _ _ _, None) (λ _ _ _, None) in
   rv_Source <$> (resolveVolumeMount (calm (λ _, None)) be (db_service "cache" "data-db") (replica "cache-0") (templated "data-db" "/data")
                    (aw_world (agent_after h c))).2 = Some path).
Proof. split; vm_compute; reflexivity. Qed.

(** ** Disks that are lost *)

Definition mine (id name handle : string) : Volume :=
  mkVolume id name "prod" "fast" "1Gi" AccessModeRWO ReclaimPolicyRetain ∅ ∅ handle "" "node-1" "prod/i" VolumeStatusAvailable "" ∅ 1 1.

(** A disk whose mount fails and whose detach then fails is attached, but neither
    tracked nor parked: when its volume is released, no later event or retry
    detaches it. *)
Theorem failed_mount_leaks :
  let ae := host (λ _, Some "/dev/sda") (λ _ _, None) (λ n, negb (bool_decide (n = 4%nat))) in
  let vol := mine "id-1" "data" "vol-1" in
  let gone := SEvent WatchEventDeleted "prod" "data" (Some vol) in
  let w := (life ae [SEvent WatchEventCreated "prod" "data" (Some vol); gone; STick; STick] (idle_agent empty_store)).1 in
  aw_mounts w = ∅ ∧ aw_parked w = ∅ ∧
  ∃ ctx, aw_log w = [Attach 2 "do-volume" ctx "vol-1" (Some "/dev/sda");
                     Mount 3 "do-volume" ctx "vol-1" "/dev/sda" "/var/lib/rune/mounts/prod/id-1" None;
                     Detach 4 "do-volume" ctx "vol-1" "/dev/sda" false].
Proof. vm_compute. split; [reflexivity|]. split; [reflexivity|]. eexists. reflexivity. Qed.

(** A shutdown whose budget is spent drops what it tracks without recording it. *)
Theorem late_shutdown_forgets :
  let w := (life good_host [SEvent WatchEventCreated "prod" "data" (Some (mine "id-1" "data" "vol-1"))] (idle_agent empty_store)).1 in
  let w2 := (stop good_host false w).1 in
  attached (aw_log w2) = {["vol-1"]} ∧ aw_parked (loadParked (restarted w2)).1 = ∅.
Proof. split; vm_compute; reflexivity. Qed.

(** Two volumes of a namespace with the same id share one entry: each one's event
    takes the other's disk down, and the path of the first shows the second's
    disk. *)
Theorem shared_id_swaps_disks :
  let a := mine "x" "a" "vol-a" in
  let b := mine "x" "b" "vol-b" in
  let w := (life good_host [SEvent WatchEventCreated "prod" "a" (Some a); SEvent WatchEventCreated "prod" "b" (Some b)] (idle_agent empty_store)).1 in
  MountKey a = MountKey b ∧ attached (aw_log w) = {["vol-b"]} ∧ tm_Handle <$> aw_mounts w !! MountKey a = Some "vol-b" ∧
  is_Some (MountTargetFor w (MountKey a)).
Proof. vm_compute. split; [reflexivity|]. split; [reflexivity|]. split; [reflexivity|]. eexists. reflexivity. Qed.

(** ** Witnesses *)

Lemma agent_calls_safe_witness :
  Forall (host_safe good_host "node-1" DefaultMountRoot)
    (aw_log ((life good_host [SEvent WatchEventCreated "prod" "a" (Some (mine "x" "a" "vol-a"))];; stop good_host true) (idle_agent empty_store)).1).
Proof.
  apply (agent_calls_safe no_url id (calm (λ _, None)) good_host "node-1" DefaultMountRoot
    [SEvent WatchEventCreated "prod" "a" (Some (mine "x" "a" "vol-a"))] true (idle_agent empty_store)); reflexivity.
Defined.


