(* ===== verification/DependencyGraph.v ===== *)
(** * Dependency cycles (pkg/types/dependency_graph.go, pkg/api/service/service.go)

    The depth-first search that looks for cycles among services, and the two
    checks the API makes with the dependencies of the stored services.  Go walks
    the adjacency map in an arbitrary order: the order of the roots is an
    argument. *)

From stdpp Require Import relations.
From S2P Require Import Prelude Text Types Names.

Definition MakeDependencyNodeKey (namespace name : string) : string := namespace +:+ "/" +:+ name.

#[local] Abbreviation graph := (gmap string (list string)).

Definition successors (adj : graph) (u : string) : list string := default [] (adj !! u).

(** A node without a color is white. *)
Inductive Color := Gray | Black.

#[global] Instance Color_eq_dec : EqDecision Color.
Proof. solve_decision. Defined.

(** The stack grows at its end; an error is the path it prints. *)
Record search := mkSearch {
  color : gmap string Color;
  stack : list string;
  cycleErrs : list (list string);
}.

(** [NoFuel]: the model's bound on the depth was reached. *)
Inductive outcome := Found | Clear | NoFuel.

(** The position of the first occurrence, zero without one. *)
Fixpoint firstIndex (v : string) (l : list string) : option nat :=
  match l with [] => None | x :: l => if bool_decide (x = v) then Some 0%nat else S <$> firstIndex v l end.

Definition pathFrom (v : string) (l : list string) : list string := drop (default 0%nat (firstIndex v l)) l ++ [v].

Section Search.
Context (adj : graph).

Definition enter (u : string) (s : search) : search := mkSearch (<[u := Gray]> (color s)) (stack s ++ [u]) (cycleErrs s).
Definition leave (u : string) (s : search) : search := mkSearch (<[u := Black]> (color s)) (removelast (stack s)) (cycleErrs s).
Definition report (v : string) (s : search) : search := mkSearch (color s) (stack s) (cycleErrs s ++ [pathFrom v (stack s)]).

(** The loop over the neighbours of [u]. *)
Fixpoint visit (dfs : string → search → search * outcome) (u : string) (vs : list string) (s : search) : search * outcome :=
  match vs with
  | [] => (leave u s, Clear)
  | v :: vs =>
      match color s !! v with
      | Some Gray => (report v s, Found)
      | Some Black => visit dfs u vs s
      | None => match dfs v s with (s', Clear) => visit dfs u vs s' | r => r end
      end
  end.

Fixpoint dfs (fuel : nat) (u : string) (s : search) : search * outcome :=
  match fuel with
  | O => (s, NoFuel)
  | S fuel => visit (dfs fuel) u (successors adj u) (enter u s)
  end.

Definition nodes : gset string := dom adj ∪ list_to_set ((map_to_list adj).*2 ≫= id).

Fixpoint searchAll (roots : list string) (s : search) : search :=
  match roots with
  | [] => s
  | u :: roots => searchAll roots (match color s !! u with None => (dfs (size nodes) u s).1 | Some _ => s end)
  end.

Definition DetectDependencyCycles (roots : list string) : list (list string) := cycleErrs (searchAll roots (mkSearch ∅ [] [])).
End Search.

(** ** The checks of the API *)

(** What the checks read of a service. *)
Record Dependent := mkDependent {
  dr_Namespace : string;
  dr_Name : string;
  dr_Dependencies : list DependencyRef;
}.

(** The key of a service and the keys it depends on; an empty namespace is the
    default one, of a dependency the service's own. *)
Definition serviceKey (svc : Dependent) : string := MakeDependencyNodeKey (NS (dr_Namespace svc)) (dr_Name svc).
Definition depKeys (svc : Dependent) : list string :=
  (λ d, MakeDependencyNodeKey (if bool_decide (dep_Namespace d = "") then NS (dr_Namespace svc) else dep_Namespace d)
          (dep_Service d)) <$> dr_Dependencies svc.

(** The appends to [adj[from]]. *)
Definition addEdges (adj : graph) (from : string) (to : list string) : graph :=
  fold_left (λ adj v, <[from := successors adj from ++ [v]]> adj) to adj.

Definition indexServices (existing : list Dependent) : graph :=
  fold_left (λ adj svc, addEdges adj (serviceKey svc) (depKeys svc)) existing ∅.

Definition globalGraph (existing : list Dependent) (candidate : Dependent) : graph :=
  addEdges (<[serviceKey candidate := []]> (indexServices existing)) (serviceKey candidate) (depKeys candidate).

(** [true]: no cycle. *)
Definition validateGlobalDependencyCycles (existing : list Dependent) (candidate : Dependent) : bool :=
  let adj := globalGraph existing candidate in
  match DetectDependencyCycles adj (map_to_list adj).*1 with [] => true | _ => false end.

(** Whether the service declares a dependency on the target. *)
Definition dependsOnTarget (targetNamespace targetName : string) (svc : Dependent) : bool :=
  existsb (λ d,
    bool_decide ((if bool_decide (dep_Namespace d = "") then dr_Namespace svc else dep_Namespace d) = targetNamespace) &&
    bool_decide (dep_Service d = targetName)) (dr_Dependencies svc).

Definition findDependents (services : list Dependent) (targetNamespace targetName : string) : list Dependent :=
  List.filter (dependsOnTarget targetNamespace targetName) services.
