(* ===== verification/DependencyProps.v ===== *)
(** * The search finds a cycle exactly when there is one *)

From stdpp Require Import relations.
From S2P Require Import Prelude Text Types Names DependencyGraph.

Section Correct.
Context (adj : gmap string (list string)).

Definition edge (u v : string) : Prop := v ∈ successors adj u.
Definition walk (l : list string) : Prop := ∀ i x y, l !! i = Some x → l !! S i = Some y → edge x y.

(** A closed walk of at least one edge. *)
Definition cycle (p : list string) : Prop := walk p ∧ (2 ≤ length p)%nat ∧ head p = last p.

Definition black (s : search) (v : string) : Prop := color s !! v = Some Black.

(** What holds while no cycle has been found: the gray nodes are the stack, which
    is a walk; what is black is finished: closed and without cycles. *)
Record ongoing (s : search) : Prop := {
  on_gray v : color s !! v = Some Gray ↔ v ∈ stack s;
  on_walk : walk (stack s);
  on_closed u v : black s u → edge u v → black s v;
  on_acyclic u : black s u → ¬ tc edge u u;
  on_nodes : dom (color s) ⊆ nodes adj;
}.

Definition white (s : search) : nat := size (nodes adj ∖ dom (color s)).

Lemma edge_nodes u v : edge u v → u ∈ nodes adj ∧ v ∈ nodes adj.
Proof.
  unfold edge, successors, nodes. destruct (adj !! u) as [vs|] eqn:E; [|by intros ?%elem_of_nil]. cbn. intros Hv.
  split; apply elem_of_union; [left; by apply elem_of_dom_2 in E|right]. apply elem_of_list_to_set, list_elem_of_bind. exists vs. split; [done|].
  apply list_elem_of_fmap. exists (u, vs). split; [done|]. by apply elem_of_map_to_list.
Qed.

Lemma closed_reach s u v : ongoing s → black s u → rtc edge u v → black s v.
Proof. intros Hs Hu H. induction H as [|u w v Huw _ IH]; [done|]. apply IH. by eapply on_closed. Qed.

Lemma walk_app_r l k : walk (l ++ k) → walk k.
Proof.
  intros H i x y Hx Hy. apply (H (length l + i)%nat); [rewrite lookup_app_r by lia; by rewrite Nat.add_comm, Nat.add_sub|].
  rewrite lookup_app_r by lia. by replace (S (length l + i) - length l)%nat with (S i) by lia.
Qed.

Lemma walk_app_l l k : walk (l ++ k) → walk l.
Proof.
  intros H i x y Hx Hy. apply (H i); rewrite lookup_app_l; try done; by eapply lookup_lt_Some.
Qed.

Lemma walk_snoc l u v : walk (l ++ [u]) → edge u v → walk ((l ++ [u]) ++ [v]).
Proof.
  intros H Huv i x y Hx Hy. apply lookup_snoc_Some in Hy as [[Hi Hy]|[Hi ->]].
  - apply (H i); [|done]. rewrite lookup_app_l in Hx; [done|]. rewrite length_app in *. cbn in *. lia.
  - rewrite length_app in Hi. cbn in Hi. assert (i = length l) as -> by lia.
    rewrite lookup_app_l in Hx by (rewrite length_app; cbn; lia). apply lookup_snoc_Some in Hx as [[? _]|[_ ->]]; [lia|done].
Qed.

Lemma firstIndex_spec v l : v ∈ l → ∃ i, firstIndex v l = Some i ∧ l !! i = Some v.
Proof.
  induction l as [|x l IH]; [by intros ?%elem_of_nil|]. cbn [firstIndex]. case_bool_decide as E; [subst; by exists 0%nat|].
  intros [?|Hin]%elem_of_cons; [congruence|]. destruct (IH Hin) as (i & -> & Hi). by exists (S i).
Qed.

(** The reported path is a cycle. *)
Lemma pathFrom_cycle l u v : walk (l ++ [u]) → v ∈ l ++ [u] → edge u v → cycle (pathFrom v (l ++ [u])).
Proof.
  intros Hw Hv Huv. destruct (firstIndex_spec _ _ Hv) as (i & Hi & Hl). unfold pathFrom. rewrite Hi. cbn [default].
  assert (Hlt : (i < length (l ++ [u]))%nat) by by eapply lookup_lt_Some.
  split; [|split].
  - apply (walk_app_r (take i (l ++ [u]))). rewrite app_assoc, take_drop. by apply walk_snoc.
  - rewrite length_app, length_drop. cbn. lia.
  - rewrite last_snoc. rewrite (drop_S _ v) by done. done.
Qed.

Lemma walk_tc l i x j y : walk l → (i < j)%nat → l !! i = Some x → l !! j = Some y → tc edge x y.
Proof.
  intros Hw. revert y. induction j as [|j IH]; intros y Hij Hx Hy; [lia|].
  destruct (decide (i = j)) as [<-|Hne]; [apply tc_once; by eapply Hw|].
  destruct (lookup_lt_is_Some_2 l j) as [z Hz]; [apply lookup_lt_Some in Hy; lia|].
  eapply tc_r; [by apply IH; [lia|..]|]. by eapply Hw.
Qed.

Lemma cycle_tc p : cycle p → ∃ x, tc edge x x.
Proof.
  intros (Hw & Hlen & Hc). destruct p as [|x p] using rev_ind; [cbn in Hlen; lia|]. clear IHp. rewrite last_snoc in Hc. exists x.
  rewrite length_app in Hlen. cbn in Hlen. eapply (walk_tc _ 0 x (length p)); [done|lia|by rewrite <- head_lookup|].
  rewrite lookup_app_r, Nat.sub_diag by lia. done.
Qed.

(** ** One search *)

(** How a search that was fine ends. *)
Definition ends (s : search) (u : string) (r : search * outcome) : Prop :=
  match r with
  | (s', Clear) => ongoing s' ∧ stack s' = stack s ∧ cycleErrs s' = cycleErrs s ∧ black s' u ∧
      (∀ v, black s v → black s' v) ∧ dom (color s) ⊆ dom (color s')
  | (s', Found) => ∃ p, cycleErrs s' = cycleErrs s ++ [p] ∧ cycle p
  | (_, NoFuel) => False
  end.

Lemma white_mono s s' : dom (color s) ⊆ dom (color s') → (white s' ≤ white s)%nat.
Proof. intros H. unfold white. apply subseteq_size. set_solver. Qed.

Lemma leave_ongoing u s st :
  ongoing s → stack s = st ++ [u] → u ∉ st → (∀ v, edge u v → black s v) → ongoing (leave u s) ∧ stack (leave u s) = st.
Proof.
  intros Hs Hst Hu Hall. pose proof Hs as [Hg Hw Hc Ha Hn].
  assert (Hgu : color s !! u = Some Gray) by (apply Hg; rewrite Hst; apply elem_of_app; right; by apply list_elem_of_singleton).
  split; [|cbn; by rewrite Hst, removelast_last]. split.
  - intros v. cbn. rewrite Hst, removelast_last. destruct (decide (u = v)) as [<-|Hne]; [by rewrite lookup_insert_eq|].
    rewrite lookup_insert_ne, Hg, Hst by done. rewrite elem_of_app, list_elem_of_singleton. naive_solver.
  - cbn. rewrite Hst, removelast_last. rewrite Hst in Hw. by apply walk_app_l in Hw.
  - intros a b. unfold black. cbn. rewrite !lookup_insert_Some. intros [[<- _]|[Hne Hb]] Hab.
    + destruct (decide (u = b)); [by left|right; split; [done|by apply Hall]].
    + destruct (decide (u = b)); [by left|right; split; [done|by eapply Hc]].
  - intros a. unfold black at 1. cbn. rewrite lookup_insert_Some. intros [[<- _]|[Hne Hb]]; [|by apply Ha].
    assert (Hno : ¬ black s u) by (unfold black; congruence). intros Htc. apply Hno.
    inversion Htc as [? ? H1|? y ? H1 H2]; subst; [by apply Hall|]. eapply closed_reach; [done|by apply Hall|by apply tc_rtc].
  - cbn. rewrite dom_insert. apply elem_of_dom_2 in Hgu. set_solver.
Qed.

(** The specification of [dfs] with a given fuel. *)
Definition searches (f : nat) : Prop := ∀ u s,
  ongoing s → color s !! u = None → u ∈ nodes adj → walk (stack s ++ [u]) → (white s ≤ f)%nat → ends s u (dfs adj f u s).

Lemma visit_ends f u vs s st :
  searches f → ongoing s → stack s = st ++ [u] → u ∉ st → (white s ≤ f)%nat →
  (∀ v, v ∈ vs → edge u v) → (∀ v, edge u v → v ∈ vs ∨ black s v) →
  match visit (dfs adj f) u vs s with
  | (s', Clear) => ongoing s' ∧ stack s' = st ∧ cycleErrs s' = cycleErrs s ∧ black s' u ∧
      (∀ v, black s v → black s' v) ∧ dom (color s) ⊆ dom (color s')
  | (s', Found) => ∃ p, cycleErrs s' = cycleErrs s ++ [p] ∧ cycle p
  | (_, NoFuel) => False
  end.
Proof.
  intros Hf. revert s. induction vs as [|v vs IH]; intros s Hs Hst Hu Hw Hvs Hall; cbn [visit].
  { destruct (leave_ongoing u s st) as [H1 H2]; [done..|intros v Hv; destruct (Hall v Hv) as [?%elem_of_nil|?]; done|].
    split_and!; [done..|by apply lookup_insert_eq| |cbn; rewrite dom_insert; set_solver].
    intros w Hb. unfold black. cbn. rewrite lookup_insert_Some. destruct (decide (u = w)); auto. }
  assert (Huv : edge u v) by (apply Hvs; left).
  assert (Hvs' : ∀ w, w ∈ vs → edge u w) by (intros w Hw'; apply Hvs; by right).
  destruct (color s !! v) as [[|]|] eqn:Hc.
  - exists (pathFrom v (stack s)). split; [done|]. rewrite Hst. apply pathFrom_cycle; [rewrite <- Hst; apply Hs|rewrite <- Hst; by apply Hs|done].
  - apply IH; [done..|]. intros w Hw'. destruct (Hall w Hw') as [[->|?]%elem_of_cons|?]; auto.
  - assert (Hd : ends s v (dfs adj f v s)).
    { apply Hf; [done..|by apply edge_nodes in Huv as [_ ?]| |done]. rewrite Hst. apply walk_snoc; [rewrite <- Hst; apply Hs|done]. }
    destruct (dfs adj f v s) as [s' []]; cbn [ends] in Hd; [done| |done].
    destruct Hd as (H1 & H2 & H3 & H4 & H5 & H6). specialize (IH s' H1). rewrite H2, H3 in IH.
    specialize (IH Hst Hu). pose proof (white_mono s s' H6). specialize (IH ltac:(lia) Hvs').
    destruct (visit (dfs adj f) u vs s') as [s'' []].
    + apply IH. intros w Hw'. destruct (Hall w Hw') as [[->|?]%elem_of_cons|?]; auto.
    + destruct IH as (? & ? & ? & ? & ? & ?); [intros w Hw'; destruct (Hall w Hw') as [[->|?]%elem_of_cons|?]; auto|].
      split_and!; [done..|auto|set_solver].
    + apply IH. intros w Hw'. destruct (Hall w Hw') as [[->|?]%elem_of_cons|?]; auto.
Qed.

Lemma enter_ongoing u s :
  ongoing s → color s !! u = None → u ∈ nodes adj → walk (stack s ++ [u]) → ongoing (enter u s) ∧ (white (enter u s) < white s)%nat.
Proof.
  intros [Hg Hw Hc Ha Hn] Hu Hin Hwalk.
  assert (Hb : ∀ v, black (enter u s) v ↔ black s v).
  { intros v. unfold black. cbn. rewrite lookup_insert_Some. split; [intros [[_ ?]|[_ ?]]; done|]. intros Hv. right. split; [congruence|done]. }
  split; [split|].
  - intros v. cbn. rewrite elem_of_app, list_elem_of_singleton, lookup_insert_Some, <- Hg. destruct (decide (u = v)) as [<-|]; naive_solver.
  - done.
  - intros a b. rewrite !Hb. apply Hc.
  - intros a. rewrite Hb. apply Ha.
  - cbn. rewrite dom_insert. set_solver.
  - unfold white. cbn. apply subset_size. rewrite dom_insert. apply not_elem_of_dom in Hu. set_solver.
Qed.

Lemma dfs_ends f : searches f.
Proof.
  induction f as [|f IH]; intros u s Hs Hu Hin Hwalk Hf.
  - exfalso. assert (white s = 0)%nat as E by lia. unfold white in E. apply size_empty_inv in E. apply not_elem_of_dom in Hu. set_solver.
  - cbn [dfs]. destruct (enter_ongoing u s) as [H1 H2]; [done..|].
    assert (u ∉ stack s) by (intros Hst; apply Hs in Hst; congruence).
    pose proof (visit_ends f u (successors adj u) (enter u s) (stack s) IH H1 eq_refl ltac:(done) ltac:(lia) ltac:(done) ltac:(by left)) as Hv.
    destruct (visit _ _ _ _) as [s' []]; cbn [ends]; [done| |done].
    destruct Hv as (? & ? & ? & ? & Hb & Hd). split_and!; [done..| |].
    + intros v Hbv. apply Hb. unfold black. cbn. rewrite lookup_insert_ne; [done|]. intros ->. unfold black in Hbv. congruence.
    + cbn in Hd. rewrite dom_insert in Hd. set_solver.
Qed.

(** ** All the roots *)

Lemma visit_errs d u vs s : (∀ v s, cycleErrs s `prefix_of` cycleErrs (d v s).1) → cycleErrs s `prefix_of` cycleErrs (visit d u vs s).1.
Proof.
  intros Hd. revert s. induction vs as [|v vs IH]; intros s; cbn [visit]; [done|]. destruct (color s !! v) as [[|]|].
  - cbn. by eexists.
  - apply IH.
  - specialize (Hd v s). destruct (d v s) as [s' []]; cbn in *; [done| |done]. etrans; [exact Hd|apply IH].
Qed.

Lemma dfs_errs f u s : cycleErrs s `prefix_of` cycleErrs (dfs adj f u s).1.
Proof. revert u s. induction f as [|f IH]; intros u s; cbn [dfs]; [done|]. apply (visit_errs _ _ _ (enter u s)). apply IH. Qed.

Lemma searchAll_errs roots s : cycleErrs s `prefix_of` cycleErrs (searchAll adj roots s).
Proof.
  revert s. induction roots as [|u roots IH]; intros s; cbn [searchAll]; [done|]. etrans; [|apply IH]. destruct (color s !! u); [done|apply dfs_errs].
Qed.

Lemma searchAll_ends roots s :
  ongoing s → stack s = [] → cycleErrs s = [] → (∀ u, u ∈ roots → u ∈ nodes adj) →
  let s' := searchAll adj roots s in
  (cycleErrs s' = [] ∧ ongoing s' ∧ (∀ u, u ∈ roots → black s' u) ∧ (∀ u, black s u → black s' u)) ∨
  (∃ p errs, cycleErrs s' = p :: errs ∧ cycle p).
Proof.
  revert s. induction roots as [|u roots IH]; intros s Hs Hst He Hr; cbn [searchAll].
  { left. split_and!; [done..|by intros ? ?%elem_of_nil|done]. }
  assert (Hr' : ∀ v, v ∈ roots → v ∈ nodes adj) by (intros v Hv; apply Hr; by right).
  destruct (color s !! u) as [c|] eqn:Hc.
  - destruct (IH s) as [(H1 & H2 & H3 & H4)|?]; [done..| |by right]. left. split_and!; [done..| |done].
    intros v [->|?]%elem_of_cons; [|auto]. apply H4. destruct c; [|done]. apply Hs in Hc. rewrite Hst in Hc. by apply elem_of_nil in Hc.
  - pose proof (dfs_ends (size (nodes adj)) u s Hs Hc ltac:(apply Hr; left)) as Hd. rewrite Hst in Hd.
    specialize (Hd ltac:(intros [|i] x y; done)). specialize (Hd ltac:(unfold white; apply subseteq_size; set_solver)).
    destruct (dfs adj (size (nodes adj)) u s) as [s' []]; cbn [ends fst] in *; [| |done].
    + right. destruct Hd as (p & E & Hp). rewrite He in E. cbn in E. destruct (searchAll_errs roots s') as [k ->]. rewrite E. by exists p, k.
    + destruct Hd as (H1 & H2 & H3 & H4 & H5 & _). destruct (IH s') as [(G1 & G2 & G3 & G4)|?]; [done..|congruence|congruence|done| |by right].
      left. split_and!; [done..| |auto]. intros v [->|?]%elem_of_cons; auto.
Qed.

Lemma start_ongoing : ongoing (mkSearch ∅ [] []).
Proof.
  split; cbn; [|by intros [|?] ? ?|by intros ? ? ?|by intros ? ?|set_solver]. intros v. rewrite lookup_empty. split; [done|by intros ?%elem_of_nil].
Qed.
End Correct.

Lemma cycles_detected_raw adj roots :
  (∀ u, u ∈ roots ↔ u ∈ dom adj) →
  (DetectDependencyCycles adj roots = [] ↔ ∀ u, ¬ tc (edge adj) u u) ∧
  (∀ p errs, DetectDependencyCycles adj roots = p :: errs → cycle adj p).
Proof.
  intros Hr. unfold DetectDependencyCycles.
  destruct (searchAll_ends adj roots (mkSearch ∅ [] [])) as [(H1 & H2 & H3 & _)|(p & errs & E & Hp)]; [apply start_ongoing|done..| | |].
  - intros u Hu. apply Hr in Hu. unfold nodes. set_solver.
  - rewrite H1. split; [|done]. split; [|done]. intros _ u Htc. apply (on_acyclic adj _ H2 u); [|done]. apply H3, Hr.
    assert (Hout : ∀ v, edge adj u v → u ∈ dom adj).
    { intros v Hv. unfold edge, successors in Hv. destruct (adj !! u) eqn:Ea; [by apply elem_of_dom_2 in Ea|by apply elem_of_nil in Hv]. }
    inversion Htc; subst; eauto.
  - rewrite E. split; [|by intros ? ? [= <- <-]]. split; [done|]. intros Hno. destruct (cycle_tc adj p Hp) as [x Hx]. by destruct (Hno x).
Qed.

(** Whatever the order in which the services are visited, the search reports no
    cycle exactly when the dependencies have none, and the first path it reports
    is a cycle of dependencies. *)
Theorem cycles_detected adj roots :
  (∀ u, u ∈ roots ↔ u ∈ dom adj) →
  (DetectDependencyCycles adj roots = [] ↔ ∀ u, ¬ tc (edge adj) u u) ∧
  (∀ p errs, DetectDependencyCycles adj roots = p :: errs → cycle adj p).
Proof. apply cycles_detected_raw. Qed.

Definition demoAdj : gmap string (list string) := {["default/a" := ["default/b"]; "default/b" := ["default/c"]; "default/c" := ["default/b"]]}.

Lemma cycles_detected_witness :
  cycle demoAdj ["default/b"; "default/c"; "default/b"] ∧ ¬ (∀ u, ¬ tc (edge demoAdj) u u).
Proof.
  assert (Hr : ∀ u, u ∈ ["default/a"; "default/b"; "default/c"] ↔ u ∈ dom demoAdj).
  { intros u. unfold demoAdj. rewrite !dom_insert, dom_singleton. set_solver. }
  destruct (cycles_detected demoAdj ["default/a"; "default/b"; "default/c"] Hr) as [H1 H2].
  split; [apply (H2 _ []); vm_compute; reflexivity|]. intros H. apply H1 in H. vm_compute in H. discriminate.
Defined.

(** ** The check of the API *)

(** A stored service declares the dependency. *)
Definition depends (services : list Dependent) (u v : string) : Prop := ∃ svc, svc ∈ services ∧ serviceKey svc = u ∧ v ∈ depKeys svc.

Lemma successors_addEdges adj from to u :
  successors (addEdges adj from to) u = if bool_decide (u = from) then successors adj from ++ to else successors adj u.
Proof.
  unfold addEdges. revert adj. induction to as [|v to IH]; intros adj; cbn [fold_left].
  - case_bool_decide; subst; by rewrite ?app_nil_r.
  - rewrite IH. unfold successors at 1 3 4. case_bool_decide as E; [|by rewrite lookup_insert_ne]. rewrite lookup_insert_eq. cbn. by rewrite <- app_assoc.
Qed.

Lemma indexServices_snoc existing svc :
  indexServices (existing ++ [svc]) = addEdges (indexServices existing) (serviceKey svc) (depKeys svc).
Proof. unfold indexServices. by rewrite fold_left_app. Qed.

Lemma indexServices_edge existing u v : edge (indexServices existing) u v ↔ depends existing u v.
Proof.
  unfold edge, depends. induction existing as [|svc existing IH] using rev_ind.
  - unfold indexServices, successors. cbn. rewrite lookup_empty. cbn. split; [by intros ?%elem_of_nil|intros (? & ?%elem_of_nil & _); done].
  - rewrite indexServices_snoc, successors_addEdges. setoid_rewrite elem_of_app. setoid_rewrite list_elem_of_singleton.
    case_bool_decide as E; [subst; rewrite elem_of_app, IH|rewrite IH]; naive_solver.
Qed.

(** The services the check sees: the candidate in place of what has its key. *)
Definition replaced (existing : list Dependent) (candidate : Dependent) : list Dependent :=
  candidate :: filter (λ svc, serviceKey svc ≠ serviceKey candidate) existing.

Lemma globalGraph_edge existing candidate u v :
  edge (globalGraph existing candidate) u v ↔ depends (replaced existing candidate) u v.
Proof.
  unfold edge, globalGraph, replaced. rewrite successors_addEdges. unfold successors at 1. rewrite lookup_insert_eq. cbn [default app].
  unfold depends. setoid_rewrite elem_of_cons. setoid_rewrite list_elem_of_filter. case_bool_decide as E.
  - subst. naive_solver.
  - unfold successors. rewrite lookup_insert_ne by done. pose proof (indexServices_edge existing u v) as H. unfold edge, successors, depends in H.
    rewrite H. naive_solver.
Qed.

Lemma tc_ext {A} (R R' : A → A → Prop) x y : (∀ a b, R a b ↔ R' a b) → tc R x y ↔ tc R' x y.
Proof. intros H. split; induction 1; [apply tc_once|eapply tc_l|apply tc_once|eapply tc_l]; try done; by apply H. Qed.

Definition acyclic (services : list Dependent) : Prop := ∀ u, ¬ tc (depends services) u u.

Lemma dependency_check_iff existing candidate :
  validateGlobalDependencyCycles existing candidate = true ↔ acyclic (replaced existing candidate).
Proof.
  unfold validateGlobalDependencyCycles. set (adj := globalGraph existing candidate).
  assert (Hr : ∀ u, u ∈ (map_to_list adj).*1 ↔ u ∈ dom adj).
  { intros u. rewrite list_elem_of_fmap, elem_of_dom. split; [intros ([k x] & -> & H%elem_of_map_to_list); by exists x|].
    intros [x Hx]. exists (u, x). split; [done|]. by apply elem_of_map_to_list. }
  destruct (cycles_detected_raw adj _ Hr) as [H _]. unfold acyclic.
  assert (Hext : (∀ u, ¬ tc (edge adj) u u) ↔ (∀ u, ¬ tc (depends (replaced existing candidate)) u u)).
  { split; intros G u; specialize (G u); contradict G; revert G; apply tc_ext; intros a b; subst adj; first [apply globalGraph_edge|symmetry; apply globalGraph_edge]. }
  rewrite <- Hext, <- H. destruct (DetectDependencyCycles _ _); split; done.
Qed.

(** The check accepts a new or changed service exactly when the dependencies
    of the stored services, with the candidate's in place of those stored under
    its name, have no cycle. *)
Theorem dependency_check_exact existing candidate :
  validateGlobalDependencyCycles existing candidate = true ↔ acyclic (replaced existing candidate).
Proof. apply dependency_check_iff. Qed.

Definition loopAdj : gmap string (list string) := {["default/a" := ["default/a"]; "default/b" := ["default/a"]]}.

(** A search that ended at a cycle leaves its nodes marked as being visited
    and on the stack: of the graph where a depends on itself and b on a, whose one
    cycle is a, the search visiting a first also reports a path through b, which
    is no cycle. *)
Theorem spurious_cycle_reported :
  DetectDependencyCycles loopAdj ["default/a"; "default/b"] = [["default/a"; "default/a"]; ["default/a"; "default/b"; "default/a"]] ∧
  ¬ cycle loopAdj ["default/a"; "default/b"; "default/a"].
Proof.
  split; [vm_compute; reflexivity|]. intros [Hw _]. specialize (Hw 0%nat "default/a" "default/b" eq_refl eq_refl).
  unfold edge in Hw. vm_compute successors in Hw. apply list_elem_of_singleton in Hw. discriminate.
Qed.
