(* ===== verification/ServiceApi.v ===== *)
(** * The service API (pkg/api/service/service.go, pkg/orchestrator/orchestrator.go)

    The handlers that create, update, scale, restart and delete services, with
    the calls they make on the orchestrator and the service controller
    (pkg/orchestrator/service/service_controller.go), over the store the scaling
    controller works on.  The allocator of virtual addresses is the interface the
    handler declares; admission and the container runtime answer through the
    environment.  A handler answers with a value or a status code.  Every store
    call spends one entry of the fault list; a fault is reported by a text without
    the words the handlers take for absence.  Timestamps of the metadata, log
    lines and emitted events are left out. *)

From stdpp Require Import pretty.
From S2P Require Import Prelude Text Types Names Release ReleaseService Scaling DependencyGraph.

Inductive Code :=
| InvalidArgument | NotFound | FailedPrecondition | PermissionDenied | ResourceExhausted | Internal.

#[global] Instance Code_eq_dec : EqDecision Code.
Proof. solve_decision. Defined.

(** [VIPAllocator]: the address a service holds, and the call that gives it one. *)
Class VIPAllocator (V : Type) := {
  vip_of : V → string → option string;
  AllocateVIP : V → string → V * option string;
}.

(** ** What the store and the request hold *)

(** [types.DeletionOperation], the record clients poll. *)
Record DeletionOperation := mkDeletionOperation {
  do_ID : string;
  do_Namespace : string;
  do_ServiceName : string;
  do_TotalInstances : Z;
  do_Finalizers : list FinalizerType;
}.

Record DeletionRequest := mkDeletionRequest {
  dq_Name : string;
  dq_Namespace : string;
  dq_Force : bool;
  dq_DryRun : bool;
  dq_IgnoreNotFound : bool;
  dq_AbandonFinalizers : bool;
}.

Record DeletionResponse := mkDeletionResponse {
  dl_DeletionID : string;
  dl_Status : string;
  dl_Errors : list string;
  dl_Finalizers : list FinalizerType;
}.

Definition FinalizerTypeServiceDeregister : FinalizerType := "service-deregister".

(** An instance row, by what a restart reads and writes of it. *)
Record InstanceRow := mkInstanceRow {
  ir_ID : string;
  ir_Namespace : string;
  ir_ServiceName : string;
  ir_Status : InstanceStatus;
  ir_ContainerEverCreatedAt : option Time;
  ir_CreateAttempts : Z;
  ir_NextCreateAttemptAt : option Time;
}.

(** ** Events of the watch (service_controller.go) *)

Inductive WatchEventType := WatchEventCreated | WatchEventUpdated | WatchEventDeleted.

Definition isStatusOnlyChange {T DS} (svc : StoredService T DS) : bool :=
  match ss_Metadata svc with None => false | Some m => sm_ObservedGeneration m =? sm_Generation m end.

(** Whether an event on a service puts its key on the queue; [None]: the event
    carries no service. *)
Definition enqueueServiceEvent {T DS} (type : WatchEventType) (svc : option (StoredService T DS)) : bool :=
  match type, svc with WatchEventUpdated, Some svc => negb (isStatusOnlyChange svc) | _, _ => true end.

Section Api.
Context {T DS V : Type} `{EqDecision T, EqDecision DS} `{VIPAllocator V}.
Context (Runtime : T → RuntimeType) (Dependencies : DS → list DependencyRef) (hasClaimTemplate : DS → bool).

#[local] Abbreviation service := (StoredService T DS).

(** The store shared with the scaling controller, the namespaces, the allocator
    ([None]: not wired), instance rows, deletion records, and the keys put on the
    reconcile queue. *)
Record world := mkWorld {
  w_store : scaling T DS;
  w_namespaces : gset string;
  w_vips : option V;
  w_instances : list InstanceRow;
  w_deletions : list DeletionOperation;
  w_enqueued : list (string * string);
}.

(** [ae_docker]: a container runtime is available.  [ae_admit]: what admission
    answers, with whether the error is a denial.  [ae_meanwhile]: what others do
    between a handler's read and its write. *)
Record api_env := mkApiEnv {
  ae_uuid : string;
  ae_now : Time;
  ae_docker : bool;
  ae_admit : string → string → service → result bool unit;
  ae_meanwhile : world → world;
}.

(** A request that carries a service, converted or not convertible. *)
Record ServiceRequest := mkServiceRequest {
  rq_Namespace : string;
  rq_Name : string;
  rq_Service : option service;
}.

Definition services (w : world) : gmap (string * string) service := sx_services (w_store w).

(** ** The error monad *)

Definition api (A : Type) : Type := world → world * result Code A.

#[global] Instance api_ret : MRet api := λ A a w, (w, Ok a).
#[global] Instance api_bind : MBind api := λ A B f m w, match m w with (w', Ok a) => f a w' | (w', Err c) => (w', Err c) end.

Definition throw {A} (c : Code) : api A := λ w, (w, Err c).
Definition check (b : bool) (c : Code) : api unit := if b then mret tt else throw c.
Definition run (f : world → world) : api unit := λ w, (f w, Ok tt).
Definition with_store (w : world) (s : scaling T DS) : world :=
  mkWorld s (w_namespaces w) (w_vips w) (w_instances w) (w_deletions w) (w_enqueued w).
Definition with_instances (w : world) (l : list InstanceRow) : world :=
  mkWorld (w_store w) (w_namespaces w) (w_vips w) l (w_deletions w) (w_enqueued w).
Definition with_deletions (w : world) (l : list DeletionOperation) : world :=
  mkWorld (w_store w) (w_namespaces w) (w_vips w) (w_instances w) l (w_enqueued w).
Definition with_vips (w : world) (v : option V) : world :=
  mkWorld (w_store w) (w_namespaces w) v (w_instances w) (w_deletions w) (w_enqueued w).
Definition with_namespaces (w : world) (n : gset string) : world :=
  mkWorld (w_store w) n (w_vips w) (w_instances w) (w_deletions w) (w_enqueued w).
Definition enqueueService (key : string * string) (w : world) : world :=
  mkWorld (w_store w) (w_namespaces w) (w_vips w) (w_instances w) (w_deletions w) (w_enqueued w ++ [key]).

(** ** Store calls *)

(** Spends one entry of the fault list. *)
Definition fault : world → world * bool := λ w, (with_store w (spend (w_store w)), faulty (w_store w)).

Definition put (ns name : string) (svc : service) (w : world) : world :=
  with_store w (mkScaling (<[(ns, name) := svc]> (services w)) (sx_ops (w_store w)) (sx_active (w_store w)) (sx_faults (w_store w))).

Definition GetService (ns name : string) : api service := λ w,
  let '(w, bad) := fault w in
  if bad then (w, Err Internal)
  else match services w !! (ns, name) with None => (w, Err NotFound) | Some svc => (w, Ok svc) end.

(** The services of every namespace, by what the dependency checks read. *)
Definition dependent (ns name : string) (svc : service) : Dependent := mkDependent ns name (Dependencies (ss_Desired svc)).
Definition dependents (m : gmap (string * string) service) : list Dependent :=
  (λ kv : string * string * service, dependent kv.1.1 kv.1.2 kv.2) <$> map_to_list m.

Definition ListServices (c : Code) : api (list Dependent) := λ w,
  let '(w, bad) := fault w in if bad then (w, Err c) else (w, Ok (dependents (services w))).

(** [store.UpdateFunc]: a mutation that fails or skips writes nothing. *)
Definition updateFunc (ns name : string) (mutate : service → result Code (option service)) : api (option service) := λ w,
  let '(w, bad) := fault w in
  if bad then (w, Err Internal)
  else match services w !! (ns, name) with
       | None => (w, Err NotFound)
       | Some svc => match mutate svc with
                     | Err c => (w, Err c)
                     | Ok None => (w, Ok None)
                     | Ok (Some svc') => (put ns name svc' w, Ok (Some svc'))
                     end
       end.

(** ** The orchestrator *)

Inductive CreateError := CreateDenied | CreateExists | CreateFailed.

Definition orchestratorCreateService (env : api_env) (ns name : string) (svc : service) (w : world) : world * result CreateError service :=
  match ae_admit env ns name svc with
  | Err denied => (w, Err (if denied then CreateDenied else CreateFailed))
  | Ok _ =>
      let svc := seedMetadata svc in
      let '(w, bad) := fault w in
      if bad then (w, Err CreateFailed)
      else match services w !! (ns, name) with
           | Some _ => (w, Err CreateExists)
           | None => (put ns name svc w, Ok svc)
           end
  end.

Definition orchestratorUpdateService (env : api_env) (ns name : string) (svc : service) : api unit := λ w,
  match ae_admit env ns name svc with
  | Err denied => (w, Err (if denied then PermissionDenied else Internal))
  | Ok _ =>
      let '(w, bad) := fault w in
      if bad then (w, Err Internal)
      else match services w !! (ns, name) with
           | None => (w, Err Internal)
           | Some _ => (put ns name svc w, Ok tt)
           end
  end.

(** An error of the orchestrator whose text the handler does not look at. *)
Definition internal {A} (m : api A) : api A := λ w, match m w with (w, Err NotFound) => (w, Err Internal) | r => r end.

(** ** Creating and updating *)

Definition ensureNamespaceExists (ns : string) (ensure : bool) : api unit := λ w,
  if bool_decide (ns = "system") || bool_decide (ns = DefaultNamespace) then (w, Ok tt)
  else
    let '(w, bad) := fault w in
    if bad then (w, Err FailedPrecondition)
    else if bool_decide (ns ∈ w_namespaces w) then (w, Ok tt)
    else if ensure then
      if negb (ValidateDNS1123Name ns) then (w, Err FailedPrecondition)
      else let '(w, bad) := fault w in
      if bad then (w, Err FailedPrecondition) else (with_namespaces w ({[ns]} ∪ w_namespaces w), Ok tt)
    else (w, Err FailedPrecondition).

Definition with_ss_VIP (svc : service) (vip : string) : service :=
  let d := default (mkServiceDiscovery "" "" "") (ss_Discovery svc) in
  with_ss_Discovery svc (Some (mkServiceDiscovery (sd_Mode d) vip (sd_LocalityPreference d))).

(** The call on the allocator; [c] is the code an error is reported with. *)
Definition allocate (c : Code) (svc : service) : api service := λ w,
  match w_vips w with
  | None => (w, Ok svc)
  | Some v => match AllocateVIP v (ss_ID svc) with
              | (v', None) => (with_vips w (Some v'), Err c)
              | (v', Some vip) => (with_vips w (Some v'), Ok (with_ss_VIP svc vip))
              end
  end.

Definition ensureServiceDiscoveryVIP (svc : service) : api service :=
  if bool_decide (ss_ID svc = "") || negb (bool_decide (match ss_Discovery svc with Some d => sd_VIP d | None => "" end = ""))
  then mret svc else allocate Internal svc.

(** What [ProtoToService] keeps of the certificate state, which is the server's. *)
Definition ProtoToService (svc : service) : service :=
  mkStoredService (ss_ID svc) (ss_Template svc) (ss_Scale svc) (ss_Desired svc) (ss_Discovery svc) None (ss_Instances svc)
    (ss_Status svc) (ss_StatusReason svc) (ss_StatusMessage svc) (ss_Update svc) (ss_Metadata svc).

(** The record the update writes, before the counters move. *)
Definition updatedService (existing payload : service) : service :=
  mkStoredService (ss_ID existing) (ss_Template payload) (ss_Scale payload) (ss_Desired payload)
    (MergeServiceDiscovery (ss_Discovery existing) (ss_Discovery payload)) (ss_IngressCert payload) (ss_Instances payload)
    (ss_Status payload) (ss_StatusReason payload) (ss_StatusMessage payload) (ss_Update payload) (Some (metadata existing)).

Definition with_ss_Status (svc : service) (st : ServiceStatus) : service :=
  mkStoredService (ss_ID svc) (ss_Template svc) (ss_Scale svc) (ss_Desired svc) (ss_Discovery svc) (ss_IngressCert svc) (ss_Instances svc)
    st (ss_StatusReason svc) (ss_StatusMessage svc) (ss_Update svc) (ss_Metadata svc).

(** The generation counters and the status. *)
Definition stamp (force : bool) (existing updated : service) : service :=
  let m := metadata existing in
  if force || negb (same_hash existing updated) then
    let gen := wrap64 (sm_Generation m + 1) in
    with_ss_Status (with_ss_Metadata updated
      (with_generations m gen (if force || negb (same_template existing updated) then gen else sm_TemplateGeneration m)))
      ServiceStatusDeploying
  else with_ss_Status (with_ss_Metadata updated m) (ss_Status existing).

Definition UpdateService (env : api_env) (req : option ServiceRequest) (force : bool) : api service :=
  match req with
  | None => throw InvalidArgument
  | Some rq =>
      existing ← GetService (NS (rq_Namespace rq)) (rq_Name rq);
      match rq_Service rq with
      | None => throw InvalidArgument
      | Some proto =>
          updated ← ensureServiceDiscoveryVIP (updatedService existing (ProtoToService proto));
          all ← ListServices InvalidArgument;
          check (validateGlobalDependencyCycles all (dependent (rq_Namespace rq) (rq_Name rq) updated)) InvalidArgument;;
          let final := stamp force existing updated in
          run (ae_meanwhile env);;
          orchestratorUpdateService env (rq_Namespace rq) (rq_Name rq) final;;
          mret final
      end
  end.

(** The identity, metadata and status of a new service. *)
Definition newService (env : api_env) (payload : service) : service :=
  mkStoredService (if bool_decide (ss_ID payload = "") then ae_uuid env else ss_ID payload) (ss_Template payload) (ss_Scale payload)
    (ss_Desired payload) (ss_Discovery payload) (ss_IngressCert payload) (ss_Instances payload) ServiceStatusPending
    (ss_StatusReason payload) (ss_StatusMessage payload) (ss_Update payload)
    (Some (mkStoredMetadata 1 1 0 (if ss_Scale payload <? 1 then 1 else ss_Scale payload) None [] None)).

Definition needsDocker (svc : service) : bool :=
  bool_decide (Runtime (ss_Template svc) = "") || bool_decide (Runtime (ss_Template svc) = RuntimeTypeContainer).

(** The orchestrator's create; a name that is taken turns it into an update. *)
Definition persist (env : api_env) (req : option ServiceRequest) (ns name : string) (svc : service) : api service := λ w,
  match orchestratorCreateService env ns name svc w with
  | (w, Ok stored) => (w, Ok stored)
  | (w, Err CreateDenied) => (w, Err PermissionDenied)
  | (w, Err CreateExists) => UpdateService env req false w
  | (w, Err CreateFailed) => (w, Err Internal)
  end.

Definition CreateService (env : api_env) (req : option ServiceRequest) (ensure : bool) : api service :=
  match req with
  | None => throw InvalidArgument
  | Some rq =>
      match rq_Service rq with
      | None => throw InvalidArgument
      | Some proto =>
          let ns := NS (rq_Namespace rq) in
          ensureNamespaceExists ns ensure;;
          svc ← allocate ResourceExhausted (newService env (ProtoToService proto));
          all ← ListServices InvalidArgument;
          check (validateGlobalDependencyCycles all (dependent ns (rq_Name rq) svc)) InvalidArgument;;
          check (negb (needsDocker svc) || ae_docker env) FailedPrecondition;;
          run (ae_meanwhile env);;
          persist env req ns (rq_Name rq) svc
      end
  end.

(** ** Scaling and restarting *)

Definition recordScaling (now : Time) (ns name : string) (params : ScalingOperationParams) : api unit := λ w,
  let '(s, ok) := CreateScalingOperation now ns name params (w_store w) in (with_store w s, if ok then Ok tt else Err Internal).

(** [true]: an operation was recorded. *)
Definition ScaleService (env : api_env) (ns name : string) (scale : Z) (gradual : bool) (step interval : Z) : api bool :=
  check (negb (bool_decide (name = ""))) InvalidArgument;;
  check (0 <=? scale) InvalidArgument;;
  svc ← GetService (NS ns) name;
  if ss_Scale svc =? scale then mret false
  else
    let params := mkScalingParams (ss_Scale svc) scale (if gradual && (0 <? step) then step else 1)
                    (if gradual && (0 <? interval) then interval else 30) gradual in
    recordScaling (ae_now env) (NS ns) name params;;
    mret true.

Definition restamp (svc : service) : service :=
  let m := metadata svc in
  let gen := wrap64 (sm_Generation m + 1) in
  with_ss_Scale svc
    (if ss_Scale svc =? 0 then (if sm_LastNonZeroScale m <? 1 then 1 else sm_LastNonZeroScale m) else ss_Scale svc)
    (with_generations m gen gen).

Definition stuckInCreate (i : InstanceRow) : bool :=
  bool_decide (ir_ContainerEverCreatedAt i = None) &&
  (bool_decide (ir_Status i = InstanceStatusStalled) || bool_decide (ir_Status i = InstanceStatusFailed)).

Definition rearm (i : InstanceRow) : InstanceRow :=
  mkInstanceRow (ir_ID i) (ir_Namespace i) (ir_ServiceName i) InstanceStatusFailed (ir_ContainerEverCreatedAt i) 0 None.

(** One instance of the loop: its row is read again, and the write may fail. *)
Definition rearmOne (key : string * string) (w : world) : world :=
  let '(w, bad) := fault w in
  if bad then w
  else with_instances w ((λ i, if bool_decide ((ir_Namespace i, ir_ID i) = key) && stuckInCreate i then rearm i else i) <$> w_instances w).

(** A listing of the namespace [ns] returns the rows of the namespace [x]. *)
Definition listed (ns x : string) : bool :=
  bool_decide (ns = "") || bool_decide (ns = "all") || bool_decide (ns = "*") || bool_decide (x = ns).

Definition rearmStuckInCreateInstances (ns name : string) (w : world) : world :=
  let '(w, bad) := fault w in
  if bad then w
  else fold_left (λ w key, rearmOne key w)
         ((λ i, (ir_Namespace i, ir_ID i)) <$>
            List.filter (λ i, listed ns (ir_Namespace i) && bool_decide (ir_ServiceName i = name) && stuckInCreate i) (w_instances w)) w.

(** The generation clients wait for, and the scale. *)
Definition RestartService (ns name : string) : api (Z * Z) :=
  check (negb (bool_decide (name = ""))) InvalidArgument;;
  fresh ← updateFunc (NS ns) name (λ svc, if bool_decide (ss_Status svc = ServiceStatusDeleted) then Err Internal else Ok (Some (restamp svc)));
  run (rearmStuckInCreateInstances (NS ns) name);;
  match fresh with
  | Some svc => mret (sm_TemplateGeneration (metadata svc), ss_Scale svc)
  | None => throw Internal
  end.

(** ** Deleting *)

Definition determineFinalizerTypes (svc : service) : list FinalizerType :=
  [FinalizerTypeInstanceCleanup] ++ (if hasClaimTemplate (ss_Desired svc) then [FinalizerTypeVolumeCleanup] else []) ++ [FinalizerTypeServiceDeregister].

Definition deletionFinalizerList (svc : service) : list FinalizerType :=
  [FinalizerTypeInstanceCleanup] ++ (if hasClaimTemplate (ss_Desired svc) then [FinalizerTypeVolumeCleanup] else []).

Definition validateDeletionRequest (svc : service) : list string :=
  (match sm_DeletionTimestamp (metadata svc) with Some _ => ["is already being deleted"] | None => [] end) ++
  (if bool_decide (ss_Status svc = ServiceStatusDeleted) then ["is already deleted"] else []).

Definition inProgressDeletionResponse (ns name : string) (w : world) : world * DeletionResponse :=
  let '(w, bad) := fault w in
  let resp := mkDeletionResponse ("delete-" +:+ ns +:+ "-" +:+ name) "in_progress" [] [] in
  (w, if bad then resp
      else match List.find (λ op, bool_decide (do_Namespace op = ns) && bool_decide (do_ServiceName op = name)) (w_deletions w) with
           | Some op => mkDeletionResponse (do_ID op) "in_progress" [] (do_Finalizers op)
           | None => resp
           end).

Definition inProgress (ns name : string) : api DeletionResponse := λ w, let '(w, r) := inProgressDeletionResponse ns name w in (w, Ok r).

(** The operation record: best effort. *)
Definition createDeletionOperation (op : DeletionOperation) (w : world) : world :=
  let '(w, bad) := fault w in
  if bad || existsb (λ o, bool_decide (do_Namespace o = do_Namespace op) && bool_decide (do_ID o = do_ID op)) (w_deletions w) then w
  else with_deletions w (w_deletions w ++ [op]).

Definition handleRealDeletion (env : api_env) (ns name : string) (svc : service) : api DeletionResponse :=
  match sm_DeletionTimestamp (metadata svc) with
  | Some _ => inProgress ns name
  | None =>
      check (bool_decide (validateDeletionRequest svc = [])) Internal;;
      internal (updateFunc ns name (λ fresh,
        match sm_DeletionTimestamp (metadata fresh) with
        | Some _ => Ok None
        | None => Ok (Some (tombstone (ae_now env) (deletionFinalizerList svc) fresh))
        end));;
      let id := "delete-" +:+ ns +:+ "-" +:+ name +:+ "-" +:+ pretty (ae_now env) in
      run (createDeletionOperation (mkDeletionOperation id ns name (ss_Scale svc) (determineFinalizerTypes svc)));;
      run (enqueueService (ns, name));;
      mret (mkDeletionResponse id "in_progress" [] (determineFinalizerTypes svc))
  end.

Definition handleDryRunDeletion (svc : service) : DeletionResponse :=
  match validateDeletionRequest svc with
  | [] => mkDeletionResponse "dry-run" "dry_run" [] (determineFinalizerTypes svc)
  | errs => mkDeletionResponse "dry-run" "failed" errs (determineFinalizerTypes svc)
  end.

(** The error is a validation error, which the handler reports as a failed
    precondition. *)
Definition abandonable (svc : service) : bool :=
  match sm_DeletionTimestamp (metadata svc) with
  | None => false
  | Some _ => negb (bool_decide (head (sm_Finalizers (metadata svc)) = Some FinalizerTypeInstanceCleanup))
  end.

(** The finalizers a real run clears. *)
Definition clearFinalizers (ns name : string) : api (list FinalizerType) := λ w,
  let abandoned := sm_Finalizers (default no_metadata (services w !! (ns, name) ≫= ss_Metadata)) in
  match internal (updateFunc ns name (λ fresh,
          if negb (abandonable fresh) then Err FailedPrecondition
          else match sm_Finalizers (metadata fresh) with
               | [] => Ok None
               | _ => Ok (Some (with_ss_Metadata fresh (with_teardown (metadata fresh) (sm_DeletionTimestamp (metadata fresh)) [])))
               end)) w with
  | (w, Ok _) => (w, Ok abandoned)
  | (w, Err c) => (w, Err c)
  end.

(** The listing of the owned volumes only adds to the message. *)
Definition abandonFinalizers (ns name : string) (svc : service) (dryRun : bool) : api DeletionResponse :=
  check (abandonable svc) FailedPrecondition;;
  abandoned ← (if dryRun then mret (sm_Finalizers (metadata svc)) else clearFinalizers ns name);
  resp ← inProgress ns name;
  run (λ w, match abandoned with [] => w | _ => let '(w, _) := fault w in if dryRun then w else enqueueService (ns, name) w end);;
  mret (mkDeletionResponse (dl_DeletionID resp) (if dryRun then "dry_run" else dl_Status resp) [] []).

(** [serviceController.DeleteService]: the API reports a missing service as an
    internal error, also when absence was to be ignored. *)
Definition controllerDeleteService (env : api_env) (req : DeletionRequest) : api DeletionResponse := λ w,
  let '(w, bad) := fault w in
  match services w !! (dq_Namespace req, dq_Name req) with
  | Some svc =>
      if bad then (w, Err Internal)
      else if dq_AbandonFinalizers req then abandonFinalizers (dq_Namespace req) (dq_Name req) svc (dq_DryRun req) w
      else if dq_DryRun req then (w, Ok (handleDryRunDeletion svc))
      else handleRealDeletion env (dq_Namespace req) (dq_Name req) svc w
  | None => (w, Err Internal)
  end.

Definition DeleteService (env : api_env) (req : DeletionRequest) : api DeletionResponse :=
  check (negb (bool_decide (dq_Name req = ""))) InvalidArgument;;
  let ns := NS (dq_Namespace req) in
  (if dq_IgnoreNotFound req then mret tt else GetService ns (dq_Name req);; mret tt);;
  (if dq_Force req || dq_AbandonFinalizers req then mret tt
   else all ← ListServices Internal; check (bool_decide (findDependents all ns (dq_Name req) = [])) FailedPrecondition);;
  controllerDeleteService env
    (mkDeletionRequest (dq_Name req) ns (dq_Force req) (dq_DryRun req) (dq_IgnoreNotFound req) (dq_AbandonFinalizers req)).
End Api.
