(* ===== verification/ServiceApiProps.v ===== *)
(** * Reasoning about the service API

    Postconditions of handlers, what the calls leave of the stored services, and
    the dependencies of a store after a write. *)

From Stdlib Require Import Ascii.
From stdpp Require Import relations.
From S2P Require Import Prelude Text Types EventCodec OrderedLog OrderedLogProps Ipv4 Vip VipProps Release ReleaseService Scaling.
From S2P Require Import Names DependencyGraph DependencyProps ServiceApi.

Section Facts.
Context {T DS V : Type} `{EqDecision T, EqDecision DS} `{VIPAllocator V}.
#[local] Abbreviation world := (world (T := T) (DS := DS) (V := V)).
#[local] Abbreviation api := (api (T := T) (DS := DS) (V := V)).
#[local] Abbreviation service := (StoredService T DS).
Implicit Types (w : world).

(** ** Postconditions: [Q] of the answer, [X] when an error is returned *)

Definition triple {A} (P : world → Prop) (m : api A) (Q : A → world → Prop) (X : world → Prop) : Prop :=
  ∀ w, P w → match m w with (w', Ok a) => Q a w' | (w', Err _) => X w' end.

Lemma triple_ret {A} (P : world → Prop) (a : A) Q X : (∀ w, P w → Q a w) → triple P (mret a) Q X.
Proof. intros HQ w Hw. exact (HQ w Hw). Qed.

Lemma triple_throw {A} (P : world → Prop) c (Q : A → world → Prop) (X : world → Prop) : (∀ w, P w → X w) → triple P (throw c) Q X.
Proof. intros HX w Hw. exact (HX w Hw). Qed.

Lemma triple_bind {A B} P (m : api A) (f : A → api B) Q R X : triple P m R X → (∀ a, triple (R a) (f a) Q X) → triple P (m ≫= f) Q X.
Proof. intros Hm Hf w Hw. specialize (Hm w Hw). unfold mbind, api_bind. destruct (m w) as [w' [a|c]]; [exact (Hf a w' Hm)|done]. Qed.

Lemma triple_check (P : world → Prop) b c (Q : unit → world → Prop) (X : world → Prop) :
  (b = true → ∀ w, P w → Q tt w) → (∀ w, P w → X w) → triple P (check b c) Q X.
Proof. intros HQ HX w Hw. unfold check. destruct b; [by apply HQ|exact (HX w Hw)]. Qed.

Lemma triple_pure {A} (φ : Prop) (P : world → Prop) (m : api A) Q X : (φ → triple P m Q X) → triple (λ w, P w ∧ φ) m Q X.
Proof. intros Hm w [Hw Hφ]. exact (Hm Hφ w Hw). Qed.

Lemma triple_run (P : world → Prop) f (Q : unit → world → Prop) X : (∀ w, P w → Q tt (f w)) → triple P (run f) Q X.
Proof. intros HQ w Hw. exact (HQ w Hw). Qed.

(** A handler that answered did all its steps. *)
Lemma bind_Ok {A B} (m : api A) (f : A → api B) w w' b :
  (m ≫= f) w = (w', Ok b) ↔ ∃ a w1, m w = (w1, Ok a) ∧ f a w1 = (w', Ok b).
Proof.
  unfold mbind, api_bind. destruct (m w) as [w1 [a|c]]; split; [intros Hf; by exists a, w1|by intros (? & ? & [= -> ->] & ?)|done|by intros (? & ? & ? & ?)].
Qed.

Lemma check_Ok b c w w' u : check (V := V) b c w = (w', Ok u) ↔ b = true ∧ w' = w.
Proof. unfold check. destruct b; cbn; split; [by intros [= <- <-]|intros [_ ->]; by destruct u|done|by intros [? _]]. Qed.

(** ** What the calls leave alone *)

(** Neither the rows nor the addresses changed. *)
Definition untouched w w' : Prop := services w' = services w ∧ w_vips w' = w_vips w.

(** The rows of [w'] were rows of [w] with the same identity, template, desired
    state and address. *)
Definition tended w w' : Prop :=
  w_vips w' = w_vips w ∧
  ∀ k x', services w' !! k = Some x' → ∃ x, services w !! k = Some x ∧ ss_ID x' = ss_ID x ∧ ss_Template x' = ss_Template x ∧
    ss_Desired x' = ss_Desired x ∧ ss_Discovery x' = ss_Discovery x.

#[global] Instance untouched_preorder : PreOrder untouched.
Proof. split; [by intros w|]. intros w1 w2 w3 [H1 H2] [H3 H4]. split; congruence. Qed.

#[global] Instance tended_preorder : PreOrder tended.
Proof.
  split; [intros w; split; [done|]; intros k x Hx; by exists x|]. intros w1 w2 w3 [E12 H12] [E23 H23]. split; [congruence|]. intros k x Hx.
  destruct (H23 k x Hx) as (y & Hy & ? & ? & ? & ?). destruct (H12 k y Hy) as (z & Hz & ? & ? & ? & ?). exists z. split_and!; congruence.
Qed.

Lemma untouched_tended w w' : untouched w w' → tended w w'.
Proof. intros [Es Ev]. split; [done|]. rewrite Es. intros k x Hx. by exists x. Qed.

Section Moves.
Context (R : world → world → Prop) `{!PreOrder R}.

(** [m] changes the world by [R] only. *)
Definition moves {A} (m : api A) : Prop := ∀ w, R w (m w).1.

Lemma moves_ret {A} (a : A) : moves (mret a).
Proof. intros w. change (R w w). reflexivity. Qed.

Lemma moves_throw {A} c : moves (throw (A := A) c).
Proof. intros w. change (R w w). reflexivity. Qed.

Lemma moves_bind {A B} (m : api A) (f : A → api B) : moves m → (∀ a, moves (f a)) → moves (m ≫= f).
Proof.
  intros Hm Hf w. unfold mbind, api_bind. specialize (Hm w). destruct (m w) as [w' [a|c]]; [|done]. etrans; [exact Hm|apply Hf].
Qed.

Lemma moves_check b c : moves (check b c).
Proof. unfold check. destruct b; [apply moves_ret|apply moves_throw]. Qed.

Lemma moves_run f : (∀ w, R w (f w)) → moves (run f).
Proof. intros Hf w. apply Hf. Qed.

Lemma moves_internal {A} (m : api A) : moves m → moves (internal m).
Proof. intros Hm w. specialize (Hm w). unfold internal. by destruct (m w) as [w' [a|[]]]. Qed.

Lemma moves_if {A} (b : bool) (m m' : api A) : moves m → moves m' → moves (if b then m else m').
Proof. by destruct b. Qed.
End Moves.

Lemma moves_weaken {A} (R R' : world → world → Prop) (m : api A) : (∀ w w', R w w' → R' w w') → moves R m → moves R' m.
Proof. intros HR Hm w. apply HR, Hm. Qed.

Lemma updateFunc_tended ns name (mutate : service → result Code (option service)) :
  (∀ x x', mutate x = Ok (Some x') →
     ss_ID x' = ss_ID x ∧ ss_Template x' = ss_Template x ∧ ss_Desired x' = ss_Desired x ∧ ss_Discovery x' = ss_Discovery x) →
  moves tended (updateFunc ns name mutate).
Proof.
  intros Hm w. unfold updateFunc, fault. set (u := with_store w (spend (w_store w))). assert (Hu : tended w u) by by apply untouched_tended.
  destruct (faulty _); [done|]. destruct (services u !! (ns, name)) as [x|] eqn:E; [|done].
  destruct (mutate x) as [[x'|]|c] eqn:Em; [|done..]. etrans; [exact Hu|]. split; [done|]. intros k y. unfold put, services at 1. cbn.
  rewrite lookup_insert_Some. intros [[<- <-]|[_ Hy]]; [exists x; split; [done|by apply Hm]|by exists y].
Qed.

Lemma GetService_untouched ns name : moves untouched (GetService ns name).
Proof. intros w. unfold GetService, fault. destruct (faulty _); [done|]. by destruct (_ !! _). Qed.

Lemma GetService_Ok ns name w w' x : GetService ns name w = (w', Ok x) → services w !! (ns, name) = Some x ∧ untouched w w'.
Proof. unfold GetService, fault. destruct (faulty _); [done|]. destruct (_ !! _) eqn:E; [|done]. by intros [= <- <-]. Qed.

Lemma ensureNamespace_untouched ns e : moves untouched (ensureNamespaceExists ns e).
Proof. intros w. unfold ensureNamespaceExists, fault. by repeat case_match. Qed.

Lemma ListServices_untouched deps c : moves untouched (ListServices deps c).
Proof. intros w. unfold ListServices, fault. by case_match. Qed.

Lemma rearmOne_untouched key w : untouched w (rearmOne key w).
Proof. unfold rearmOne, fault. by case_match. Qed.

Lemma rearmAll_untouched keys w : untouched w (fold_left (λ w key, rearmOne key w) keys w).
Proof. revert w. induction keys as [|k keys IH]; intros w; [done|]. cbn [fold_left]. etrans; [apply (rearmOne_untouched k)|apply IH]. Qed.

Lemma rearm_untouched ns name w : untouched w (rearmStuckInCreateInstances ns name w).
Proof. unfold rearmStuckInCreateInstances, fault. destruct (faulty _); [done|]. etrans; [|apply rearmAll_untouched]. done. Qed.

Lemma inProgress_untouched ns name : moves untouched (inProgress ns name).
Proof. intros w. unfold inProgress, inProgressDeletionResponse, fault. by repeat case_match. Qed.

Lemma recordScaling_untouched now ns name params : moves untouched (recordScaling now ns name params).
Proof.
  intros w. unfold recordScaling, CreateScalingOperation. set (op := mkScalingOperation _ _ _ _ _ _ _ _ _ _ _ _).
  assert (E : sx_services (createOp op (w_store w)).1 = services w) by (unfold createOp; case_match; [done|]; by case_match).
  destruct (createOp op (w_store w)) as [s' ok]. split; [exact E|done].
Qed.

Lemma createDeletion_untouched op w : untouched w (createDeletionOperation op w).
Proof. unfold createDeletionOperation, fault. by case_match. Qed.

Lemma allocate_services c (x : service) w : services (allocate c x w).1 = services w.
Proof. unfold allocate. destruct (w_vips w) as [v|]; [|done]. by destruct (AllocateVIP v (ss_ID x)) as [v' [ip|]]. Qed.

Lemma ensureVIP_services (x : service) w : services (ensureServiceDiscoveryVIP x w).1 = services w.
Proof. unfold ensureServiceDiscoveryVIP. case_match; [done|apply allocate_services]. Qed.

(** ** Handlers that only tend to rows *)

#[local] Hint Resolve tended_preorder untouched_preorder : core.
#[local] Hint Resolve moves_ret moves_throw moves_check : core.

Lemma tending {A} (m : api A) : moves untouched m → moves tended m.
Proof. apply moves_weaken, untouched_tended. Qed.

Lemma restart_tends ns name : moves tended (RestartService ns name).
Proof.
  unfold RestartService. apply moves_bind; auto. intros _. apply moves_bind; [done|apply updateFunc_tended; intros x x'; case_match; [done|]; by intros [= <-]|].
  intros fresh. apply moves_bind; [done|apply tending, moves_run; apply rearm_untouched|]. intros _. destruct fresh; auto.
Qed.

Lemma scale_tends env ns name scale g step i : moves tended (ScaleService env ns name scale g step i).
Proof.
  unfold ScaleService. do 2 (apply moves_bind; auto; intros _). apply moves_bind; [done|apply tending, GetService_untouched|]. intros x.
  apply moves_if; auto. apply moves_bind; [done|apply tending, recordScaling_untouched|auto].
Qed.

Lemma handleReal_tends claims env ns name x : moves tended (handleRealDeletion claims env ns name x).
Proof.
  unfold handleRealDeletion. case_match; [apply tending, inProgress_untouched|]. apply moves_bind; auto. intros _.
  apply moves_bind; [done| |intros _].
  { apply moves_internal, updateFunc_tended. intros y y'. case_match; [done|]. intros [= <-]. unfold tombstone. by case_match. }
  apply moves_bind; [done|apply tending, moves_run; apply createDeletion_untouched|]. intros _.
  apply moves_bind; [done|by apply tending, moves_run|auto].
Qed.

Lemma clear_tends ns name : moves tended (clearFinalizers ns name).
Proof.
  intros w. unfold clearFinalizers. match goal with |- context [internal ?m w] => assert (Hm : moves tended (internal m)) end.
  { apply moves_internal, updateFunc_tended. intros y y'. case_match; [done|]. case_match; [done|]. by intros [= <-]. }
  specialize (Hm w). by destruct (internal _ w) as [w' [a|c]].
Qed.

Lemma abandon_tends ns name x dry : moves tended (abandonFinalizers ns name x dry).
Proof.
  unfold abandonFinalizers. apply moves_bind; auto. intros _. apply moves_bind; [done|destruct dry; [auto|apply clear_tends]|]. intros l.
  apply moves_bind; [done|apply tending, inProgress_untouched|]. intros resp.
  apply moves_bind; [done|apply tending, moves_run; intros w; destruct l; [done|]; by destruct dry|auto].
Qed.

Lemma delete_tends deps claims env req : moves tended (DeleteService deps claims env req).
Proof.
  unfold DeleteService. apply moves_bind; auto. intros _. apply moves_bind; [done| |intros _].
  { apply moves_if; auto. apply moves_bind; [done|apply tending, GetService_untouched|auto]. }
  apply moves_bind; [done| |intros _].
  { apply moves_if; auto. apply moves_bind; [done|apply tending, ListServices_untouched|auto]. }
  intros w. unfold controllerDeleteService, fault. set (u := with_store w (spend (w_store w))). assert (Hu : tended w u) by by apply untouched_tended.
  destruct (services u !! _) as [x|]; [|done]. destruct (faulty _); [done|]. cbn [dq_AbandonFinalizers dq_DryRun].
  etrans; [exact Hu|]. destruct (dq_AbandonFinalizers req); [apply abandon_tends|]. destruct (dq_DryRun req); [reflexivity|apply handleReal_tends].
Qed.
End Facts.

(** ** Dependencies of a store *)

Section Dependencies.
Context {T DS : Type} (Dependencies : DS → list DependencyRef).
#[local] Abbreviation rows := (gmap (string * string) (StoredService T DS)).
Implicit Types (m : rows).

(** The rows of [m'] were rows of [m], with the same dependencies. *)
Definition calm m m' : Prop :=
  ∀ k x', m' !! k = Some x' → ∃ x, m !! k = Some x ∧ Dependencies (ss_Desired x') = Dependencies (ss_Desired x).

#[global] Instance calm_preorder : PreOrder calm.
Proof.
  split; [intros m k x Hx; by exists x|]. intros m1 m2 m3 H12 H23 k x Hx. destruct (H23 k x Hx) as (y & Hy & E).
  destruct (H12 k y Hy) as (z & Hz & E'). exists z. split; [done|]. congruence.
Qed.

Lemma tended_calm {V} (w w' : world (T := T) (DS := DS) (V := V)) : tended w w' → calm (services w) (services w').
Proof. intros [_ Ht] k x' Hx'. destruct (Ht k x' Hx') as (x & Hx & _ & _ & E & _). exists x. by rewrite E. Qed.

Lemma calm_insert m k x x' : m !! k = Some x → Dependencies (ss_Desired x') = Dependencies (ss_Desired x) → calm m (<[k := x']> m).
Proof. intros Hx E j y. rewrite lookup_insert_Some. intros [[<- <-]|[_ Hy]]; [by exists x|by exists y]. Qed.

Lemma elem_of_dependents m svc :
  svc ∈ dependents Dependencies m ↔ ∃ ns name x, m !! (ns, name) = Some x ∧ svc = dependent Dependencies ns name x.
Proof.
  unfold dependents. rewrite list_elem_of_fmap. split.
  - intros ([[ns name] x] & -> & Hx%elem_of_map_to_list). by exists ns, name, x.
  - intros (ns & name & x & Hx & ->). exists ((ns, name), x). split; [done|]. by apply elem_of_map_to_list.
Qed.

(** Namespaces are not empty and have no separator, so keys tell services apart. *)
Definition keyed m : Prop := ∀ (ns name : string), is_Some (m !! (ns, name)) → ns ≠ "" ∧ free "/"%char ns = true.
Definition sound m : Prop := keyed m ∧ acyclic (dependents Dependencies m).

Lemma key_inj ns ns' name name' :
  free "/"%char ns = true → free "/"%char ns' = true → MakeDependencyNodeKey ns name = MakeDependencyNodeKey ns' name' → ns = ns' ∧ name = name'.
Proof. unfold MakeDependencyNodeKey. exact (cut_inj "/"%char ns ns' name name'). Qed.

Lemma NS_id ns : ns ≠ "" → NS ns = ns.
Proof. intros Hne. unfold NS. by rewrite bool_decide_false. Qed.

Lemma acyclic_sub l l' : (∀ u v, depends l' u v → depends l u v) → acyclic l → acyclic l'.
Proof.
  intros Hsub Hl u Hu. apply (Hl u). clear Hl. assert (Hgen : ∀ a b, tc (depends l') a b → tc (depends l) a b); [|by apply Hgen].
  intros a b Hab. induction Hab; [apply tc_once; by apply Hsub|eapply tc_l; [by apply Hsub|done]].
Qed.

Lemma calm_sound m m' : calm m m' → sound m → sound m'.
Proof.
  intros Hc [Hk Ha]. split.
  - intros ns name [x' Hx']. destruct (Hc _ _ Hx') as (x & Hx & _). apply (Hk ns name). by exists x.
  - revert Ha. apply acyclic_sub. intros u v (svc & (ns & name & x' & Hx' & ->)%elem_of_dependents & Hu & Hv).
    destruct (Hc _ _ Hx') as (x & Hx & E). exists (dependent Dependencies ns name x). split; [apply elem_of_dependents; by exists ns, name, x|].
    split; [exact Hu|]. unfold depKeys in *. cbn in *. by rewrite <- E.
Qed.

(** A row whose dependencies passed the check against an earlier state. *)
Lemma sound_insert m m' ns name x :
  sound m → calm m m' → ns ≠ "" → free "/"%char ns = true →
  acyclic (replaced (dependents Dependencies m) (dependent Dependencies ns name x)) → sound (<[(ns, name) := x]> m').
Proof.
  intros Hm Hc Hns Hf Ha. destruct (calm_sound m m' Hc Hm) as [Hk' _]. destruct Hm as [Hk _]. split.
  - intros ns' name'. rewrite lookup_insert_is_Some. intros [[= <- <-]|[_ Hx']]; [done|by apply (Hk' ns' name')].
  - revert Ha. apply acyclic_sub. intros u v (svc & (ns' & name' & y & Hy & ->)%elem_of_dependents & Hu & Hv). unfold replaced.
    apply lookup_insert_Some in Hy as [[[= <- <-] <-]|[Hne Hy]]; [eexists; split; [left|done]|].
    destruct (Hc _ _ Hy) as (z & Hz & E). exists (dependent Dependencies ns' name' z). split; [|split; [exact Hu|unfold depKeys in *; cbn in *; by rewrite <- E]].
    right. apply list_elem_of_filter. split; [|apply elem_of_dependents; by exists ns', name', z]. intros Heq. apply Hne.
    destruct (Hk ns' name') as [Hne' Hf']; [by exists z|]. unfold serviceKey in Heq. cbn in Heq. rewrite !NS_id in Heq by done.
    apply key_inj in Heq as [-> ->]; done.
Qed.
End Dependencies.

(** ** The dependencies stored through the API never form a cycle *)

Section Acyclic.
Context {T DS V : Type} `{EqDecision T, EqDecision DS} `{VIPAllocator V}.
Context (Runtime : T → RuntimeType) (Dependencies : DS → list DependencyRef) (hasClaimTemplate : DS → bool).
#[local] Abbreviation world := (world (T := T) (DS := DS) (V := V)).
#[local] Abbreviation api_env := (api_env (T := T) (DS := DS) (V := V)).
#[local] Abbreviation calm := (calm (T := T) Dependencies).
#[local] Abbreviation sound := (sound (T := T) Dependencies).
#[local] Abbreviation dependents := (dependents (T := T) Dependencies).
Implicit Types (w : world).

Definition Sound w : Prop := sound (services w).

(** What other writers do meanwhile: rows change or go, their dependencies stay. *)
Definition calm_env (env : api_env) : Prop := ∀ w, calm (services w) (services (ae_meanwhile env w)).

Definition plain_namespace (req : option (ServiceRequest (T := T) (DS := DS))) : Prop :=
  match req with Some rq => free "/"%char (rq_Namespace rq) = true | None => True end.

(** The list the check worked on is what an earlier state held. *)
Definition checked (all : list Dependent) w : Prop := ∃ m, all = dependents m ∧ sound m ∧ calm m (services w).

Lemma checked_sound all w : checked all w → Sound w.
Proof. intros (m & _ & Hm & Hc). by eapply calm_sound. Qed.

Lemma ListServices_checked c : triple Sound (ListServices Dependencies c) checked Sound.
Proof.
  intros w Hw. unfold ListServices, fault. cbn. destruct (faulty _); [done|]. by exists (services w).
Qed.

Lemma same_triple {A} (m : api A) : (∀ w, services (m w).1 = services w) → triple Sound m (λ _ : A, Sound) Sound.
Proof. intros Hm w Hw. specialize (Hm w). destruct (m w) as [w' [a|c]]; cbn in Hm; unfold Sound; by rewrite Hm. Qed.

(** The write, after the check. *)
Lemma put_checked all w ns name x :
  checked all w → ns ≠ "" → free "/"%char ns = true →
  validateGlobalDependencyCycles all (dependent Dependencies ns name x) = true → Sound (put ns name x w).
Proof.
  intros (m & -> & Hm & Hc) Hns Hf Hv. apply (dependency_check_iff _ _) in Hv. unfold Sound, services. cbn. by eapply sound_insert.
Qed.

Lemma deps_VIP (x : StoredService T DS) vip : ss_Desired (with_ss_VIP x vip) = ss_Desired x.
Proof. done. Qed.

Lemma deps_stamp force (e u : StoredService T DS) : ss_Desired (stamp force e u) = ss_Desired u.
Proof. unfold stamp. by case_match. Qed.

Lemma deps_seed (x : StoredService T DS) : ss_Desired (seedMetadata x) = ss_Desired x.
Proof. done. Qed.

Lemma orchestratorUpdate_sound env all ns name x :
  free "/"%char ns = true → validateGlobalDependencyCycles all (dependent Dependencies ns name x) = true →
  triple (checked all) (orchestratorUpdateService env ns name x) (λ _, Sound) Sound.
Proof.
  intros Hf Hv w Hw. unfold orchestratorUpdateService, fault. destruct (ae_admit env ns name x); [|by eapply checked_sound].
  cbn. destruct (faulty _); [by eapply checked_sound|]. destruct (sx_services (w_store w) !! (ns, name)) as [y|] eqn:E; [|by eapply checked_sound].
  apply (put_checked all); [done| |done..].
  apply checked_sound in Hw as [Hk _]. by apply (Hk ns name); exists y.
Qed.

Lemma orchestratorCreate_sound env all ns name x w :
  ns ≠ "" → free "/"%char ns = true → validateGlobalDependencyCycles all (dependent Dependencies ns name x) = true → checked all w →
  Sound (orchestratorCreateService env ns name x w).1.
Proof.
  intros Hns Hf Hv Hw. unfold orchestratorCreateService, fault. destruct (ae_admit env ns name x); [|by eapply checked_sound].
  cbn. destruct (faulty _); [by eapply checked_sound|]. destruct (sx_services (w_store w) !! (ns, name)); [by eapply checked_sound|].
  by apply (put_checked all).
Qed.

Lemma meanwhile_checked env all : calm_env env → triple (checked all) (run (ae_meanwhile env)) (λ _ : unit, checked all) Sound.
Proof. intros Henv. apply triple_run. intros w (m & -> & Hm & Hc). exists m. split_and!; [done..|]. etrans; [exact Hc|apply Henv]. Qed.

Lemma update_sound env req force :
  calm_env env → plain_namespace req → triple Sound (UpdateService Dependencies env req force) (λ _, Sound) Sound.
Proof.
  intros Henv Hf. unfold UpdateService. destruct req as [rq|]; [|by apply triple_throw].
  eapply triple_bind; [apply same_triple; intros w; apply GetService_untouched|]. intros existing.
  destruct (rq_Service rq) as [proto|]; [|by apply triple_throw].
  eapply triple_bind; [apply same_triple; intros w; apply ensureVIP_services|]. intros updated.
  eapply triple_bind; [apply ListServices_checked|]. intros all.
  eapply triple_bind; [apply (triple_check _ _ _ (λ _ w, checked all w ∧ validateGlobalDependencyCycles all
    (dependent Dependencies (rq_Namespace rq) (rq_Name rq) (stamp force existing updated)) = true)); [|by apply checked_sound]|].
  { intros Hv w Hw. split; [done|]. unfold dependent in *. by rewrite deps_stamp. }
  intros []. apply triple_pure. intros Hv.
  eapply triple_bind; [by apply meanwhile_checked|]. intros [].
  eapply triple_bind; [by apply orchestratorUpdate_sound|]. intros []. by apply triple_ret.
Qed.

Lemma create_sound env req ensure :
  calm_env env → plain_namespace req → triple Sound (CreateService Runtime Dependencies env req ensure) (λ _, Sound) Sound.
Proof.
  intros Henv Hf. pose proof (update_sound env req false Henv Hf) as Hu. unfold CreateService. destruct req as [rq|]; [|by apply triple_throw].
  destruct (rq_Service rq) as [proto|]; [|by apply triple_throw].
  eapply triple_bind; [apply same_triple; intros w; apply ensureNamespace_untouched|]. intros [].
  eapply triple_bind; [apply same_triple; intros w; apply allocate_services|]. intros svc.
  eapply triple_bind; [apply ListServices_checked|]. intros all.
  eapply triple_bind; [apply (triple_check _ _ _ (λ _ w, checked all w ∧ validateGlobalDependencyCycles all
    (dependent Dependencies (NS (rq_Namespace rq)) (rq_Name rq) svc) = true)); [by intros Hv w Hw|by apply checked_sound]|].
  intros []. apply triple_pure. intros Hv.
  eapply triple_bind; [apply (triple_check _ _ _ (λ _, checked all)); [done|by apply checked_sound]|]. intros [].
  eapply triple_bind; [by apply meanwhile_checked|]. intros [] w Hw.
  assert (Hns : NS (rq_Namespace rq) ≠ "" ∧ free "/"%char (NS (rq_Namespace rq)) = true) by (unfold NS; case_bool_decide; done).
  destruct Hns as [Hns Hfr]. unfold persist. pose proof (orchestratorCreate_sound env all _ _ _ w Hns Hfr Hv Hw) as Hc.
  destruct (orchestratorCreateService env (NS (rq_Namespace rq)) (rq_Name rq) svc w) as [w' [x|[]]]; [done..| |done]. by apply Hu.
Qed.

(** ** Histories *)

(** One call of the API, or a write of the other controllers. *)
Inductive api_step : world → world → Prop :=
| create_step w env req ensure : calm_env env → plain_namespace req → api_step w (CreateService Runtime Dependencies env req ensure w).1
| update_step w env req force : calm_env env → plain_namespace req → api_step w (UpdateService Dependencies env req force w).1
| scale_step w env ns name scale g step i : api_step w (ScaleService env ns name scale g step i w).1
| restart_step w ns name : api_step w (RestartService ns name w).1
| delete_step w env req : api_step w (DeleteService Dependencies hasClaimTemplate env req w).1
| other_step w w' : calm (services w) (services w') → api_step w w'.

Lemma triple_state {A} (m : api A) w : triple Sound m (λ _ : A, Sound) Sound → Sound w → Sound (m w).1.
Proof. intros Hm Hw. specialize (Hm w Hw). by destruct (m w) as [w' [a|c]]. Qed.

Lemma api_step_sound w w' : api_step w w' → Sound w → Sound w'.
Proof.
  intros Hs Hw. destruct Hs; [apply triple_state; [by apply create_sound|done]|apply triple_state; [by apply update_sound|done]|..];
    (eapply calm_sound; [|exact Hw]); [apply tended_calm, scale_tends|apply tended_calm, restart_tends|apply tended_calm, delete_tends|done].
Qed.

(** C10: Through any history of API calls, with every error and with other
    controllers writing in between (they leave dependencies alone), the
    dependencies of the stored services have no cycle. *)
Theorem api_keeps_acyclic w w' :
  rtc api_step w w' → Sound w → acyclic (dependents (services w')).
Proof.
  intros Hs Hw. assert (Hw' : Sound w') by (induction Hs; [done|by eauto using api_step_sound]). apply Hw'.
Qed.
End Acyclic.

(** ** Addresses of services (pkg/api/service/service.go with pkg/networking/vip/allocator.go)

    What the handlers need of the allocator, as laws of the interface; the
    allocator of pkg/networking/vip meets them while its log commits; and the
    rows the API writes carry the address the allocator holds for them. *)

(** What the API relies on: an allocation is recorded, kept, and its own. *)
Class VIPAllocatorLaws (V : Type) `{VIPAllocator V} := {
  vip_good : V → Prop;
  allocate_good v id : vip_good v → vip_good (AllocateVIP v id).1;
  allocate_holds v id v' ip : vip_good v → AllocateVIP v id = (v', Some ip) → vip_of v' id = Some ip;
  allocate_keeps v id id' ip : vip_good v → vip_of v id' = Some ip → vip_of (AllocateVIP v id).1 id' = Some ip;
  vip_distinct v a b ip : vip_good v → vip_of v a = Some ip → vip_of v b = Some ip → a = b;
}.

(** ** The allocator over the ordered log *)

Section Instance.
Context (Marshal : ClusterNetwork → bytes) (Unmarshal : bytes → result string ClusterNetwork).
Context (opMarshal : vip_op → result string bytes).
Context (json_roundtrip : ∀ cn, Unmarshal (Marshal cn) = Ok cn).
Context (json_nonempty : ∀ cn, Marshal cn ≠ []).

Definition held (a : Allocator) (id : string) : option string := reprint <$> cn_AllocatedVIPs (b_mem (a_olog a)) !! id.

(** [Allocate] followed by [net.IP.String], the log committing. *)
Definition assign (a : Allocator) (id : string) : Allocator * option string :=
  match Vip.Allocate opMarshal a id None accepting with
  | (a', Ok (Some ip)) => (a', Some (IP_String ip))
  | (a', Ok None) => (a', Some "<nil>")
  | (a', Err _) => (a', None)
  end.

#[export] Instance log_allocator : VIPAllocator Allocator := {| vip_of := held; AllocateVIP := assign |}.

(** The mirror is the record the database holds. *)
Definition in_step (a : Allocator) : Prop :=
  registered Marshal Unmarshal (a_olog a) ∧ stored Unmarshal (b_db (a_olog a)) = Ok (b_mem (a_olog a)) ∧ cn_ok (b_mem (a_olog a)).

Lemma propose_err_mem b op b' e :
  registered Marshal Unmarshal b → Propose vip_OpType opMarshal b op None accepting = (b', Err e) → b_mem b' = b_mem b.
Proof.
  intros Hreg. unfold Propose. destruct (b_closed b); [by intros [= <- _]|]. rewrite (Hreg op).
  destruct (opMarshal op) as [x|]; [|by intros [= <- _]]. unfold proposeTxn. rewrite applier_run.
  change (seen Unmarshal accepting (b_db b)) with (stored Unmarshal (b_db b)). cbn [bd_writes accepting hd bd_event bd_seq bd_commit].
  destruct (stored Unmarshal (b_db b)) as [cur|]; [|by intros [= <- _]]. destruct (effect op cur) as [[cn|]|] eqn:Ee; [| |by intros [= <- _]].
  - destruct (encode_state Marshal (wrapU64 (b_lastSeq b + 1)) op [state_mutation Marshal cn]) as [raw Hraw]; [right; by exists cn|].
    by destruct (encodeEvent _).
  - destruct (encode_state Marshal (wrapU64 (b_lastSeq b + 1)) op []) as [raw Hraw]; [by left|]. by destruct (encodeEvent _).
Qed.

(** A proposed allocation keeps the mirror in step and every address held. *)
Lemma propose_allocate a sid :
  in_step a → cn_AllocatedVIPs (b_mem (a_olog a)) !! sid = None →
  let a' := (propose opMarshal a (allocateOp sid) None accepting).1 in
  in_step a' ∧ ∀ id ip, cn_AllocatedVIPs (b_mem (a_olog a)) !! id = Some ip → cn_AllocatedVIPs (b_mem (a_olog a')) !! id = Some ip.
Proof.
  intros (Hreg & Hst & Hok) Hnone. unfold propose.
  pose proof (propose_effect Marshal Unmarshal opMarshal json_roundtrip json_nonempty (a_olog a) (allocateOp sid) None accepting Hreg) as Hp.
  destruct (Propose _ _ _ _ _ _) as [b' [s|e]] eqn:E; destruct Hp as [Hreg' Hp]; cbn.
  - destruct Hp as (_ & _ & cur & Hcur & Hp). change (seen Unmarshal accepting ?d) with (stored Unmarshal d) in Hcur. rewrite Hst in Hcur. apply Ok_inj in Hcur as <-. destruct Hp as [(_ & Hs & Hm)|(cn & He & Hs & Hm)].
    + rewrite Hm. split; [|done]. unfold in_step. cbn. by rewrite Hs, Hm.
    + split; [unfold in_step; cbn; rewrite Hs, Hm; split_and!; [done..|]; by apply (effect_ok (allocateOp sid) (b_mem (a_olog a)))|]. rewrite Hm.
      cbn [effect] in He. case_bool_decide; [done|]. rewrite Hnone in He. destruct (pickIP _ _ _) as [[ip0 free]|]; [|done]. injection He as <-. cbn.
      intros id ip Hid. rewrite lookup_insert_ne; [done|]. intros ->. congruence.
  - destruct Hp as [Hd _]. pose proof (propose_err_mem _ _ _ _ Hreg E) as Hm. rewrite Hm. split; [|done]. unfold in_step. cbn. by rewrite Hd, Hm.
Qed.

Lemma assign_state a sid :
  (assign a sid).1 = a ∨
  cn_AllocatedVIPs (b_mem (a_olog a)) !! sid = None ∧ (assign a sid).1 = (propose opMarshal a (allocateOp sid) None accepting).1.
Proof.
  unfold assign, Vip.Allocate. case_bool_decide; [by left|]. destruct (_ !! sid) as [ip|] eqn:E; [left; by destruct (ParseIP ip)|right]. split; [done|].
  destruct (propose _ _ _ _ _) as [a' [s|e]]; [|done]. cbn. destruct (cn_AllocatedVIPs (b_mem (a_olog a')) !! sid) as [ip|]; [|done]. by destruct (ParseIP ip).
Qed.

Lemma assign_held a sid a' ip : assign a sid = (a', Some ip) → held a' sid = Some ip.
Proof.
  unfold assign, Vip.Allocate, held, reprint. case_bool_decide; [done|]. destruct (_ !! sid) as [x|] eqn:E.
  - destruct (ParseIP x) as [z|] eqn:Ez; intros [= <- <-]; rewrite E; cbn; by rewrite Ez.
  - destruct (propose _ _ _ _ _) as [b [s|e]]; [|done]. destruct (cn_AllocatedVIPs (b_mem (a_olog b)) !! sid) as [x|] eqn:Ex; [|done].
    destruct (ParseIP x) as [z|] eqn:Ez; intros [= <- <-]; rewrite Ex; cbn; by rewrite Ez.
Qed.

Lemma held_distinct a s1 s2 ip : in_step a → held a s1 = Some ip → held a s2 = Some ip → s1 = s2.
Proof.
  intros (_ & _ & Hok) H1 H2. unfold held in *. destruct (cn_AllocatedVIPs _ !! s1) as [x|] eqn:E1; [|done].
  destruct (cn_AllocatedVIPs _ !! s2) as [y|] eqn:E2; [|done]. cbn in *. destruct Hok as [Hz|[n Hok]]; [by rewrite Hz in E1|].
  destruct (no_range _ _ Hok x) as (zx & -> & Hx); [right; by exists s1|]. destruct (no_range _ _ Hok y) as (zy & -> & Hy); [right; by exists s2|].
  unfold reprint in *. rewrite ParseIP_String in H1 by by eapply usable_range. rewrite ParseIP_String in H2 by by eapply usable_range.
  apply (no_inj _ _ Hok s1 s2 (IP_String zx)); [done|]. congruence.
Qed.

(** The allocator meets the laws. *)
#[export] Instance log_allocator_laws : VIPAllocatorLaws Allocator.
Proof.
  refine {| vip_good := in_step |}; cbn.
  - intros a sid Ha. destruct (assign_state a sid) as [->|[Hn ->]]; [done|by apply propose_allocate].
  - intros a sid a' ip _. apply assign_held.
  - intros a sid id ip Ha Hid. unfold held in *. destruct (assign_state a sid) as [->|[Hn ->]]; [done|].
    destruct (cn_AllocatedVIPs (b_mem (a_olog a)) !! id) as [x|] eqn:E; [|done].
    destruct (propose_allocate a sid Ha Hn) as [_ Hk]. by rewrite (Hk id x E).
  - apply held_distinct.
Defined.
End Instance.

(** ** The rows and the allocator agree *)

Section Rows.
Context {T DS V : Type} `{EqDecision T, EqDecision DS} `{VIPAllocatorLaws V}.
Context (Runtime : T → RuntimeType) (Dependencies : DS → list DependencyRef) (hasClaimTemplate : DS → bool).
#[local] Abbreviation world := (world (T := T) (DS := DS) (V := V)).
#[local] Abbreviation service := (StoredService T DS).
Implicit Types (w : world) (x : service).

Definition address x : string := match ss_Discovery x with Some d => sd_VIP d | None => "" end.

(** The address of a row is the one the allocator holds for its identity. *)
Definition backed (v : V) x : Prop := address x ≠ "" → vip_of v (ss_ID x) = Some (address x).

Definition agree w : Prop := ∀ v, w_vips w = Some v → vip_good v ∧ ∀ k x, services w !! k = Some x → backed v x.

(** [agree], with a record that is about to be written. *)
Definition ready x w : Prop := agree w ∧ ∀ v, w_vips w = Some v → backed v x.

Lemma ready_same x y w : ss_ID y = ss_ID x → address y = address x → ready x w → ready y w.
Proof. intros Ei Ea [Hw Hx]. split; [done|]. intros v Hv. unfold backed. rewrite Ei, Ea. by apply Hx. Qed.

Lemma untouched_agree w w' : untouched w w' → agree w → agree w'.
Proof. intros [Es Ev] Hw v. rewrite Ev, Es. apply Hw. Qed.

Lemma untouched_ready x w w' : untouched w w' → ready x w → ready x w'.
Proof. intros Hu [Hw Hx]. split; [by eapply untouched_agree|]. destruct Hu as [_ ->]. done. Qed.

Lemma tended_agree w w' : tended w w' → agree w → agree w'.
Proof.
  intros [Ev Ht] Hw v. rewrite Ev. intros Hv. destruct (Hw v Hv) as [Hg Hrows]. split; [done|]. intros k x' Hx'.
  destruct (Ht k x' Hx') as (x & Hx & Ei & _ & _ & Ed). unfold backed, address. rewrite Ei, Ed. by apply (Hrows k).
Qed.

(** What other writers do: addresses stay held, rows keep theirs. *)
Definition steady w w' : Prop :=
  (∀ v', w_vips w' = Some v' → ∃ v, w_vips w = Some v ∧ (vip_good v → vip_good v') ∧ ∀ id ip, vip_of v id = Some ip → vip_of v' id = Some ip) ∧
  ∀ k x', services w' !! k = Some x' → ∃ x, services w !! k = Some x ∧ ss_ID x' = ss_ID x ∧ address x' = address x.

Lemma steady_ready x w w' : steady w w' → ready x w → ready x w'.
Proof.
  intros [Hv Ht] [Hw Hx]. assert (Hb : ∀ v v' y, (∀ id ip, vip_of v id = Some ip → vip_of v' id = Some ip) → backed v y → backed v' y).
  { intros v v' y Hk Hy Ha. by apply Hk, Hy. }
  split.
  - intros v' E. destruct (Hv v' E) as (v & E' & Hg & Hk). destruct (Hw v E') as [G Hrows]. split; [by apply Hg|]. intros k y' Hy'.
    destruct (Ht k y' Hy') as (y & Hy & Ei & Ea). unfold backed. rewrite Ei, Ea. by apply (Hb v v' y Hk), (Hrows k).
  - intros v' E. destruct (Hv v' E) as (v & E' & Hg & Hk). by apply (Hb v v'), Hx.
Qed.

Definition steady_env (env : api_env (T := T) (DS := DS) (V := V)) : Prop := ∀ w, steady w (ae_meanwhile env w).

(** ** Handlers *)

Lemma put_agree ns name x w : ready x w → agree (put ns name x w).
Proof.
  intros [Hw Hx] v Hv. cbn in Hv. destruct (Hw v Hv) as [Hg Hrows]. split; [done|]. intros k y. unfold services. cbn. rewrite lookup_insert_Some.
  intros [[_ <-]|[_ Hy]]; [by apply Hx|by apply (Hrows k)].
Qed.

Lemma untouched_triple {A} (m : api A) : moves untouched m → triple agree m (λ _ : A, agree) agree.
Proof. intros Hm w Hw. specialize (Hm w). destruct (m w) as [w' [a|c]]; by eapply untouched_agree. Qed.

Lemma untouched_triple_ready {A} x (m : api A) : moves untouched m → triple (ready x) m (λ _ : A, ready x) agree.
Proof.
  intros Hm w Hw. specialize (Hm w). destruct (m w) as [w' [a|c]]; [by eapply untouched_ready|]. eapply untouched_agree; [done|apply Hw].
Qed.

Lemma GetService_ready ns name : triple agree (GetService ns name) (λ x, ready x) agree.
Proof.
  intros w Hw. pose proof (GetService_untouched ns name w) as Hu. destruct (GetService ns name w) as [w' [x|c]] eqn:E; [|by eapply untouched_agree].
  apply GetService_Ok in E as [Hx _]. eapply untouched_ready; [exact Hu|]. split; [done|]. intros v Hv. destruct (Hw v Hv) as [_ Hrows]. by apply (Hrows (ns, name)).
Qed.

Lemma allocate_ready c x : triple agree (allocate c x) (λ y w, ready y w ∧ ss_ID y = ss_ID x) agree.
Proof.
  intros w Hw. unfold allocate. destruct (w_vips w) as [v|] eqn:Ev; [|split; [|done]; split; [done|congruence]].
  destruct (Hw v Ev) as [Hg Hrows]. pose proof (allocate_good v (ss_ID x) Hg) as Hg'. pose proof (allocate_keeps v (ss_ID x)) as Hk.
  pose proof (allocate_holds v (ss_ID x)) as Hh. destruct (AllocateVIP v (ss_ID x)) as [v' [ip|]]; cbn in *.
  - assert (Ha : agree (with_vips w (Some v'))).
    { intros u [= <-]. split; [done|]. intros k y Hy Hne. apply Hk; [done|]. by apply (Hrows k). }
    split; [|done]. split; [done|]. intros u [= <-] _. by apply Hh.
  - intros u [= <-]. split; [done|]. intros k y Hy Hne. apply Hk; [done|]. by apply (Hrows k).
Qed.

Lemma merge_address e p : (match MergeServiceDiscovery e p with Some d => sd_VIP d | None => "" end) = match e with Some d => sd_VIP d | None => "" end.
Proof. destruct e as [e|], p as [p|]; cbn; try done; repeat case_bool_decide; cbn; done. Qed.

Lemma ensure_ready existing payload :
  triple (ready existing) (ensureServiceDiscoveryVIP (updatedService existing payload)) (λ y w, ready y w ∧ ss_ID y = ss_ID existing) agree.
Proof.
  intros w Hw. unfold ensureServiceDiscoveryVIP. destruct (bool_decide (ss_ID _ = "") || _).
  - split; [|done]. revert Hw. apply ready_same; [done|]. apply merge_address.
  - apply (allocate_ready Internal (updatedService existing payload)), Hw.
Qed.

Lemma stamp_same force e u : ss_ID (stamp force e u) = ss_ID u ∧ address (stamp force e u) = address u.
Proof. unfold stamp, address. by case_match. Qed.

Lemma ready_agree x w : ready x w → agree w.
Proof. by intros [? _]. Qed.

Lemma update_agree env req force : steady_env env → triple agree (UpdateService Dependencies env req force) (λ _, agree) agree.
Proof.
  intros Henv. unfold UpdateService. destruct req as [rq|]; [|by apply triple_throw].
  eapply triple_bind; [apply GetService_ready|]. intros existing. destruct (rq_Service rq) as [proto|]; [|apply triple_throw; apply ready_agree].
  eapply triple_bind; [apply ensure_ready|]. intros updated. apply triple_pure. intros _.
  eapply triple_bind; [apply untouched_triple_ready, ListServices_untouched|]. intros all.
  eapply triple_bind; [apply untouched_triple_ready, moves_check, untouched_preorder|]. intros [].
  eapply triple_bind; [apply (triple_run _ _ (λ _ : unit, ready updated)); intros w; apply steady_ready, Henv|]. intros [].
  apply (triple_bind _ _ _ _ (λ _ : unit, agree)); [|intros []; by apply triple_ret]. intros w Hw. unfold orchestratorUpdateService, fault.
  destruct (ae_admit _ _ _ _); [|by eapply ready_agree]. set (u := with_store w (spend (w_store w))).
  assert (Hu : ready (stamp force existing updated) u).
  { destruct (stamp_same force existing updated) as [E1 E2]. eapply ready_same; [exact E1|exact E2|]. revert Hw. by apply untouched_ready. }
  destruct (faulty _); [by eapply ready_agree|]. destruct (services u !! _); [by apply put_agree|by eapply ready_agree].
Qed.

Lemma create_agree env req ensure : steady_env env → triple agree (CreateService Runtime Dependencies env req ensure) (λ _, agree) agree.
Proof.
  intros Henv. pose proof (update_agree env req false Henv) as Hup. unfold CreateService. destruct req as [rq|]; [|by apply triple_throw].
  destruct (rq_Service rq) as [proto|]; [|by apply triple_throw].
  eapply triple_bind; [apply untouched_triple, ensureNamespace_untouched|]. intros [].
  eapply triple_bind; [apply allocate_ready|]. intros svc. apply triple_pure. intros _.
  eapply triple_bind; [apply untouched_triple_ready, ListServices_untouched|]. intros all.
  do 2 (eapply triple_bind; [apply untouched_triple_ready, moves_check, untouched_preorder|]; intros []).
  eapply triple_bind; [apply (triple_run _ _ (λ _ : unit, ready svc)); intros w; apply steady_ready, Henv|]. intros [] w Hw.
  unfold persist, orchestratorCreateService, fault. destruct (ae_admit _ _ _ _) as [|[]]; [|by eapply ready_agree..].
  set (u := with_store w (spend (w_store w))). assert (Hu : ready svc u) by by eapply untouched_ready.
  destruct (faulty _); [by eapply ready_agree|]. destruct (services u !! _); [apply Hup; by eapply ready_agree|].
  apply put_agree. by apply (ready_same svc).
Qed.

Inductive address_step : world → world → Prop :=
| address_create w env req ensure : steady_env env → address_step w (CreateService Runtime Dependencies env req ensure w).1
| address_update w env req force : steady_env env → address_step w (UpdateService Dependencies env req force w).1
| address_scale w env ns name scale g step i : address_step w (ScaleService env ns name scale g step i w).1
| address_restart w ns name : address_step w (RestartService ns name w).1
| address_delete w env req : address_step w (DeleteService Dependencies hasClaimTemplate env req w).1
| address_other w w' : steady w w' → address_step w w'.

Lemma triple_agree {A} (m : api A) w : triple agree m (λ _ : A, agree) agree → agree w → agree (m w).1.
Proof. intros Hm Hw. specialize (Hm w Hw). by destruct (m w) as [w' [a|c]]. Qed.

Lemma steady_agree w w' : steady w w' → agree w → agree w'.
Proof.
  intros [Hv Ht] Hw v' E. destruct (Hv v' E) as (v & E' & Hg & Hk). destruct (Hw v E') as [G Hrows]. split; [by apply Hg|].
  intros k x' Hx' Ha. destruct (Ht k x' Hx') as (x & Hx & Ei & Ea). rewrite Ei, Ea in *. by apply Hk, (Hrows k).
Qed.

Lemma address_step_agree w w' : address_step w w' → agree w → agree w'.
Proof.
  intros Hs Hw. destruct Hs; [apply triple_agree; [by apply create_agree|done]|apply triple_agree; [by apply update_agree|done]|..|by eapply steady_agree];
    (eapply tended_agree; [|exact Hw]); [apply scale_tends|apply restart_tends|apply delete_tends].
Qed.

(** C29: The address of every stored service is the one the allocator holds for the
    service's identity, and services with one address have one identity, through
    any history of API calls, whatever store call of them fails, and of other
    writers that keep the identity and address of a row and what the allocator
    holds.  The allocator is one that meets [VIPAllocatorLaws]; the one over the
    ordered log does so as long as its commits succeed. *)
Theorem addresses_not_shared w w' v :
  rtc address_step w w' → agree w → w_vips w' = Some v →
  (∀ k x, services w' !! k = Some x → address x ≠ "" → vip_of v (ss_ID x) = Some (address x)) ∧
  (∀ k1 k2 x1 x2, services w' !! k1 = Some x1 → services w' !! k2 = Some x2 → address x1 ≠ "" →
     address x1 = address x2 → ss_ID x1 = ss_ID x2).
Proof.
  intros Hs Hw Hv. assert (Hw' : agree w') by (induction Hs; [done|by eauto using address_step_agree]).
  destruct (Hw' v Hv) as [Hg Hrows]. split; [exact Hrows|]. intros k1 k2 x1 x2 H1 H2 Hne E.
  pose proof (Hrows k1 x1 H1 Hne) as B1. pose proof (Hrows k2 x2 H2) as B2. unfold backed in B2. rewrite <- E in B2.
  apply (vip_distinct v _ _ (address x1)); [done..|]. by apply B2.
Qed.
End Rows.
