(* ===== verification/ServiceApiEdges.v ===== *)
(** * What the handlers of the service API do

    The counters an update moves, what a restart and a deletion leave, and the
    requests the handlers answer wrongly. *)

From stdpp Require Import relations.
From S2P Require Import Prelude Text Types EventCodec OrderedLog Ipv4 Vip VipProps Release ReleaseService Scaling Names.
From S2P Require Import DependencyGraph DependencyProps ServiceApi ServiceApiProps.

Section Handlers.
Context {T DS V : Type} `{EqDecision T, EqDecision DS} `{VIPAllocator V}.
Context (Runtime : T → RuntimeType) (Dependencies : DS → list DependencyRef) (hasClaimTemplate : DS → bool).
#[local] Abbreviation world := (world (T := T) (DS := DS) (V := V)).
#[local] Abbreviation service := (StoredService T DS).
Implicit Types (w : world) (x : service).

Lemma same_hash_iff x y :
  same_hash x y = true ↔
  ss_Template x = ss_Template y ∧ ss_Scale x = ss_Scale y ∧ ss_Desired x = ss_Desired y ∧ discoveryWithoutVIP (ss_Discovery x) = discoveryWithoutVIP (ss_Discovery y).
Proof. unfold same_hash, same_template. rewrite !andb_true_iff, !bool_decide_eq_true. tauto. Qed.

Lemma ensureVIP_same x w w' y :
  ensureServiceDiscoveryVIP x w = (w', Ok y) →
  ss_ID y = ss_ID x ∧ (address x ≠ "" → address y = address x) ∧ same_hash x y = true ∧ same_template x y = true ∧ ss_Metadata y = ss_Metadata x.
Proof.
  assert (Hd : ∀ d v, discoveryWithoutVIP (Some (mkServiceDiscovery (sd_Mode (default (mkServiceDiscovery "" "" "") d)) v
                        (sd_LocalityPreference (default (mkServiceDiscovery "" "" "") d)))) = discoveryWithoutVIP d) by by intros [].
  assert (Hx : same_hash x x = true ∧ same_template x x = true) by (rewrite same_hash_iff; split; [done|by apply bool_decide_true]).
  unfold ensureServiceDiscoveryVIP. destruct (bool_decide (ss_ID x = "") || _) eqn:E; [intros [= <- <-]; destruct Hx; by split_and!|]. apply orb_false_elim in E as [_ E]. bools.
  unfold allocate. destruct (w_vips w) as [v|]; [|intros [= <- <-]; destruct Hx; by split_and!].
  destruct (AllocateVIP v (ss_ID x)) as [v' [ip|]]; [|done]. intros [= <- <-].
  split_and!; [done|by intros []| |by apply bool_decide_true|done]. apply same_hash_iff. split_and!; [done..|]. symmetry. apply Hd.
Qed.

(** The counters and the status of what an update writes. *)
Definition advanced (force : bool) (old new : service) : Prop :=
  let gen := wrap64 (sm_Generation (metadata old) + 1) in
  let changed := force || negb (same_hash old new) in
  sm_Generation (metadata new) = (if changed then gen else sm_Generation (metadata old)) ∧
  sm_TemplateGeneration (metadata new) = (if force || negb (same_template old new) then gen else sm_TemplateGeneration (metadata old)) ∧
  ss_Status new = (if changed then ServiceStatusDeploying else ss_Status old).

Lemma stamp_advanced force old x : advanced force old (stamp force old x) ∧ same_hash x (stamp force old x) = true.
Proof.
  assert (Hs : ∀ y, same_hash old (stamp force old y) = same_hash old y ∧ same_template old (stamp force old y) = same_template old y)
    by (intros y; unfold stamp, same_hash, same_template; by case_match).
  destruct (Hs x) as [E1 E2]. split; [|unfold stamp, same_hash, same_template; case_match; cbn; by rewrite !bool_decide_true].
  unfold advanced. rewrite E1, E2. unfold stamp. destruct force; [done|]. cbn [orb]. destruct (same_hash old x) eqn:Eh; [|done]. cbn.
  assert (same_template old x = true) as -> by (unfold same_hash in Eh; by bools). done.
Qed.

Lemma stamp_kept force old x :
  let m := metadata (stamp force old x) in
  sm_DeletionTimestamp m = sm_DeletionTimestamp (metadata old) ∧ sm_Finalizers m = sm_Finalizers (metadata old) ∧
  sm_ObservedGeneration m = sm_ObservedGeneration (metadata old) ∧ sm_LastNonZeroScale m = sm_LastNonZeroScale (metadata old) ∧ sm_OwnedBy m = sm_OwnedBy (metadata old).
Proof. unfold stamp. by case_match. Qed.

(** An update that succeeds keeps the identity, the address, the marks of a
    teardown and the counters of the controllers; the generation moves by one
    exactly when the update is forced or the desired state changed, the template
    generation exactly when it is forced or the template changed, so that an
    update of the scale alone replaces no instance; and the answer is what is
    stored. *)
Theorem update_counters env rq force w w' x :
  UpdateService Dependencies env (Some rq) force w = (w', Ok x) →
  ∃ old, services w !! (NS (rq_Namespace rq), rq_Name rq) = Some old ∧
    ss_ID x = ss_ID old ∧ (address old ≠ "" → address x = address old) ∧ advanced force old x ∧
    sm_DeletionTimestamp (metadata x) = sm_DeletionTimestamp (metadata old) ∧ sm_Finalizers (metadata x) = sm_Finalizers (metadata old) ∧
    sm_ObservedGeneration (metadata x) = sm_ObservedGeneration (metadata old) ∧
    services w' !! (rq_Namespace rq, rq_Name rq) = Some x.
Proof.
  unfold UpdateService. rewrite bind_Ok. intros (old & w1 & H1 & HX). apply GetService_Ok in H1 as [Hold _].
  destruct (rq_Service rq) as [proto|]; [|done]. apply bind_Ok in HX as (up & w2 & H2 & HX). apply ensureVIP_same in H2 as (Ei & Ea & _).
  apply bind_Ok in HX as (all & w3 & _ & HX). apply bind_Ok in HX as ([] & w4 & _ & HX). apply bind_Ok in HX as ([] & w5 & _ & HX).
  apply bind_Ok in HX as ([] & w6 & H6 & [= <- <-]). exists old. split; [done|].
  destruct (stamp_same force old up) as [E1 E2]. destruct (stamp_kept force old up) as (K1 & K2 & K3 & _).
  rewrite E1, E2, Ei. split_and!; [done| |apply stamp_advanced|done..|].
  - intros Hne. unfold address in Ea. cbn in Ea. rewrite merge_address in Ea. exact (Ea Hne).
  - unfold orchestratorUpdateService, fault in H6. destruct (ae_admit _ _ _ _); [|done]. destruct (faulty _); [done|].
    destruct (services _ !! _) in H6; [|done]. injection H6 as <-. unfold services, put. cbn. by rewrite lookup_insert_eq.
Qed.

(** ** Restart *)

Lemma updateFunc_Ok ns name (mutate : service → result Code (option service)) w w' x :
  updateFunc ns name mutate w = (w', Ok (Some x)) →
  ∃ old, services w !! (ns, name) = Some old ∧ mutate old = Ok (Some x) ∧ services w' = <[(ns, name) := x]> (services w).
Proof.
  unfold updateFunc, fault. destruct (faulty _); [done|]. change (services (with_store w (spend (w_store w)))) with (services w).
  destruct (services w !! (ns, name)) as [old|] eqn:E; [|done]. destruct (mutate old) as [[y|]|] eqn:Em; [|done..].
  intros [= <- <-]. by exists old.
Qed.

(** A restart answers with the generation and the scale it stored: both
    counters stand at the next generation, so that every instance is outdated;
    the scale is the one before, or for a stopped service the remembered one, and
    is never zero; and the watch event of the write is not dropped as a status
    echo, as long as the reconciler is not ahead of the counter. *)
Theorem restart_stamps ns name w w' g n :
  RestartService ns name w = (w', Ok (g, n)) →
  ∃ old new, services w !! (NS ns, name) = Some old ∧ services w' !! (NS ns, name) = Some new ∧
    g = wrap64 (sm_Generation (metadata old) + 1) ∧ sm_Generation (metadata new) = g ∧ sm_TemplateGeneration (metadata new) = g ∧
    ss_Scale new = n ∧ n ≠ 0 ∧ (ss_Scale old ≠ 0 → n = ss_Scale old) ∧ ss_Template new = ss_Template old ∧ ss_Desired new = ss_Desired old ∧
    (0 ≤ sm_ObservedGeneration (metadata old) ≤ sm_Generation (metadata old) → sm_Generation (metadata old) < int64_max →
     enqueueServiceEvent WatchEventUpdated (Some new) = true).
Proof.
  unfold RestartService. rewrite bind_Ok. intros ([] & w1 & [_ ->]%check_Ok & HX). apply bind_Ok in HX as (fresh & w2 & H2 & HX).
  apply bind_Ok in HX as ([] & w3 & [= <-] & HX). destruct fresh as [x|]; [|done]. injection HX as <- <- <-.
  apply updateFunc_Ok in H2 as (old & Hold & Hm & Hs). case_match; [done|]. injection Hm as <-. exists old, (restamp old).
  assert (Hu : services (rearmStuckInCreateInstances (NS ns) name w2) = services w2) by apply rearm_untouched.
  rewrite Hu, Hs, lookup_insert_eq. split_and!; try done.
  - cbn. destruct (ss_Scale old =? 0) eqn:E; bools; [|done]. case_match; bools; lia.
  - intros Hne. cbn. by apply Z.eqb_neq in Hne as ->.
  - intros Hobs Hmax. cbn. apply negb_true_iff, Z.eqb_neq. rewrite wrap64_id; [lia|]. unfold in_int64, int64_min, int64_max in *. lia.
Qed.

(** ** Deletion *)

Lemma delete_needs_row env req w : services w !! (NS (dq_Namespace req), dq_Name req) = None → ∃ c, (DeleteService Dependencies hasClaimTemplate env req w).2 = Err c.
Proof.
  intros Hnone. destruct (DeleteService _ _ _ _ w) as [w' [r|c]] eqn:E; [|by exists c]. exfalso. revert E. unfold DeleteService.
  rewrite bind_Ok. intros ([] & w1 & [_ ->]%check_Ok & HX). apply bind_Ok in HX as ([] & w2 & H2 & HX). apply bind_Ok in HX as ([] & w3 & H3 & HX).
  assert (Hu2 : untouched w w2).
  { destruct (dq_IgnoreNotFound req); [by injection H2 as <-|]. apply bind_Ok in H2 as (y & w4 & H4 & [= <-]). by apply GetService_Ok in H4 as [_ ?]. }
  assert (Hu3 : untouched w2 w3).
  { destruct (_ || _); [by injection H3 as <-|]. apply bind_Ok in H3 as (all & w4 & H4 & [_ ->]%check_Ok).
    pose proof (ListServices_untouched Dependencies Internal w2) as Hl. by rewrite H4 in Hl. }
  destruct (transitivity Hu2 Hu3) as [Es _]. revert HX. unfold controllerDeleteService, fault. cbn [dq_Namespace dq_Name].
  change (services (with_store w3 (spend (w_store w3)))) with (services w3). by rewrite Es, Hnone.
Qed.

(** [ignore_not_found] is not honoured: whatever its value, deleting a service
    that does not exist is answered with an error. *)
Theorem ignore_not_found_fails env req w :
  services w !! (NS (dq_Namespace req), dq_Name req) = None → dq_IgnoreNotFound req = true →
  ∃ c, (DeleteService Dependencies hasClaimTemplate env req w).2 = Err c.
Proof. intros Hnone _. by apply delete_needs_row. Qed.

Lemma handleReal_Ok env ns name x w w' r :
  handleRealDeletion hasClaimTemplate env ns name x w = (w', Ok r) → services w !! (ns, name) = Some x →
  ∃ new, services w' !! (ns, name) = Some new ∧ is_Some (sm_DeletionTimestamp (metadata new)).
Proof.
  intros E Hx. unfold handleRealDeletion in E. destruct (sm_DeletionTimestamp (metadata x)) as [ts|] eqn:Ets.
  - pose proof (inProgress_untouched ns name w) as Hu. rewrite E in Hu. cbn in Hu. destruct Hu as [-> _]. exists x. by rewrite Ets.
  - apply bind_Ok in E as ([] & w1 & [_ ->]%check_Ok & E). apply bind_Ok in E as (fresh & w2 & H2 & E). apply bind_Ok in E as ([] & w3 & [= <-] & E).
    apply bind_Ok in E as ([] & w4 & [= <-] & [= <- <-]).
    assert (Es : services (enqueueService (ns, name) (createDeletionOperation
       (mkDeletionOperation ("delete-" +:+ ns +:+ "-" +:+ name +:+ "-" +:+ pretty.pretty (ae_now env)) ns name (ss_Scale x) (determineFinalizerTypes hasClaimTemplate x)) w2)) = services w2)
      by apply createDeletion_untouched.
    rewrite Es. revert H2. unfold internal, updateFunc, fault. destruct (faulty _); [done|].
    change (services (with_store w (spend (w_store w)))) with (services w). rewrite Hx, Ets. intros [= <- _].
    exists (tombstone (ae_now env) (deletionFinalizerList hasClaimTemplate x) x). unfold services, put. cbn. rewrite lookup_insert_eq.
    unfold tombstone. rewrite Ets. cbn. by eexists.
Qed.

(** A deletion that is neither forced nor a dry run succeeds only when no
    stored service declares a dependency on the service, and leaves the record
    marked for teardown, not gone. *)
Theorem delete_guarded env req w w' r :
  DeleteService Dependencies hasClaimTemplate env req w = (w', Ok r) →
  dq_Force req = false → dq_AbandonFinalizers req = false → dq_DryRun req = false →
  let key := (NS (dq_Namespace req), dq_Name req) in
  (∀ ns name x, services w !! (ns, name) = Some x → dependsOnTarget key.1 key.2 (dependent Dependencies ns name x) = false) ∧
  ∃ new, services w' !! key = Some new ∧ is_Some (sm_DeletionTimestamp (metadata new)).
Proof.
  intros E Hf Ha Hdry key. unfold DeleteService in E. apply bind_Ok in E as ([] & w1 & [_ ->]%check_Ok & E). apply bind_Ok in E as ([] & w2 & H2 & E).
  assert (Hu : untouched w w2).
  { destruct (dq_IgnoreNotFound req); [by injection H2 as <-|]. apply bind_Ok in H2 as (y & w4 & H4 & [= <-]). by apply GetService_Ok in H4 as [_ ?]. }
  rewrite Hf, Ha in E. cbn [orb] in E. apply bind_Ok in E as ([] & w3 & H3 & E). apply bind_Ok in H3 as (all & w4 & H4 & [Hd ->]%check_Ok).
  assert (Hall : all = dependents Dependencies (services w) ∧ services w4 = services w).
  { revert H4. unfold ListServices, fault. destruct (faulty _); [done|]. intros [= <- <-]. destruct Hu as [Es _]. unfold services in *. cbn. by rewrite Es. }
  destruct Hall as [-> Es]. split.
  - intros ns name x Hx. apply bool_decide_eq_true_1 in Hd. destruct (dependsOnTarget key.1 key.2 _) eqn:Ed; [|done]. exfalso.
    assert (Hin : dependent Dependencies ns name x ∈ findDependents (dependents Dependencies (services w)) key.1 key.2).
    { unfold findDependents. apply list_elem_of_In, filter_In. split; [|done]. apply list_elem_of_In, elem_of_dependents. by exists ns, name, x. }
    unfold key in Hin. cbn in Hin. rewrite Hd in Hin. by apply elem_of_nil in Hin.
  - revert E. unfold controllerDeleteService, fault. cbn [dq_Namespace dq_Name dq_AbandonFinalizers dq_DryRun]. rewrite ?Ha, ?Hdry.
    change (services (with_store w4 (spend (w_store w4)))) with (services w4). destruct (services w4 !! _) as [x|] eqn:Ex; [|done].
    destruct (faulty _); [done|]. intros E. by eapply handleReal_Ok.
Qed.
End Handlers.

(** ** The service API on concrete requests

    Requests the handlers answer wrongly, with the allocator of
    pkg/networking/vip on a range of five usable addresses, and the witnesses of
    the theorems. *)

#[local] Existing Instance log_allocator.
#[local] Existing Instance log_allocator_laws.
#[local] Instance vips : VIPAllocator Allocator := log_allocator sampleOpMarshal.
#[local] Instance vips_laws : VIPAllocatorLaws Allocator :=
  log_allocator_laws sampleMarshalNetwork sampleUnmarshalNetwork sampleOpMarshal sample_roundtrip sample_nonempty.

#[local] Instance DependencyRef_eq_dec : EqDecision DependencyRef.
Proof. solve_decision. Defined.

(** The template is the runtime, the rest of the desired state the dependencies. *)
#[local] Abbreviation service := (StoredService string (list DependencyRef)).
#[local] Abbreviation cluster := (world (T := string) (DS := list DependencyRef) (V := Allocator)).
#[local] Abbreviation create := (CreateService (V := Allocator) (id : string → RuntimeType) id).
#[local] Abbreviation update := (UpdateService (V := Allocator) (T := string) id).
#[local] Abbreviation delete := (DeleteService (V := Allocator) (T := string) id (λ _ : list DependencyRef, false)).

Definition payload (id : string) (scale : Z) (deps : list string) : service :=
  mkStoredService id "container" scale ((λ d, mkDependencyRef d "" "" "") <$> deps) None None [] ServiceStatusPending "" "" None None.

Definition request (ns name : string) (svc : service) : option ServiceRequest := Some (mkServiceRequest ns name (Some svc)).

Definition calmly (uuid : string) : api_env (T := string) (DS := list DependencyRef) (V := Allocator) := mkApiEnv uuid 100 true (λ _ _ _, Ok tt) id.
Definition meanwhile (uuid : string) (f : cluster → cluster) : api_env := mkApiEnv uuid 100 true (λ _ _ _, Ok tt) f.

Definition fresh_cluster : cluster := mkWorld (mkScaling ∅ ∅ ∅ []) ∅ (Some booted) [] [] [].

Definition row (ns name : string) (w : cluster) : option service := services w !! (ns, name).

(** A create that is refused keeps the address it was given, under an identity
    nothing else knows: five creates refused for their dependencies use up the
    range, and the next create, a valid one, is answered with exhaustion although
    no service is stored. *)
Theorem refused_creates_exhaust_addresses :
  let refused := λ uuid, create (calmly uuid) (request "" "loop" (payload "" 1 ["loop"])) false in
  let w := fold_left (λ w uuid, (refused uuid w).1) ["u1"; "u2"; "u3"; "u4"; "u5"] fresh_cluster in
  (∀ uuid, uuid ∈ ["u1"; "u2"; "u3"; "u4"; "u5"] → (refused uuid fresh_cluster).2 = Err InvalidArgument) ∧
  services w = ∅ ∧ (create (calmly "u6") (request "" "web" (payload "" 1 [])) false w).2 = Err ResourceExhausted ∧
  is_ok (create (calmly "u6") (request "" "web" (payload "" 1 [])) false fresh_cluster).2 = true.
Proof.
  split_and!; [|vm_compute; reflexivity..]. intros uuid Hu. repeat (apply elem_of_cons in Hu as [->|Hu]; [vm_compute; reflexivity|]). by apply elem_of_nil in Hu.
Qed.

(** The identity of a new service is what the client says, unchecked: two
    services created with one identity are stored under one address. *)
Theorem chosen_identity_shares_address :
  let w := (create (calmly "u2") (request "" "b" (payload "x" 1 [])) false (create (calmly "u1") (request "" "a" (payload "x" 1 [])) false fresh_cluster).1).1 in
  address <$> row "default" "a" w = Some "10.96.0.2" ∧ address <$> row "default" "b" w = Some "10.96.0.2".
Proof. split; vm_compute; reflexivity. Qed.

(** An update without a namespace reads the service of the default namespace
    and writes to the empty one, so it fails; and so does creating a second time,
    without a namespace, what the first create stored. *)
Theorem update_needs_namespace :
  let req := request "" "web" (payload "" 1 []) in
  let w := (create (calmly "u1") req false fresh_cluster).1 in
  is_Some (row "default" "web" w) ∧ (update (calmly "u2") req true w).2 = Err Internal ∧ (create (calmly "u2") req false w).2 = Err Internal ∧
  is_ok (create (calmly "u2") (request "default" "web" (payload "" 1 [])) false w).2 = true.
Proof. split_and!; [eexists|..]; vm_compute; reflexivity. Qed.

(** The check of the dependencies and the write are not one step: of two
    services that depend on each other and are created at the same time, both are
    stored. *)
Theorem concurrent_creates_make_cycle :
  let second := create (calmly "u2") (request "" "b" (payload "" 1 ["a"])) false in
  let first := create (meanwhile "u1" (λ w, (second w).1)) (request "" "a" (payload "" 1 ["b"])) false fresh_cluster in
  is_ok first.2 = true ∧ is_Some (row "default" "a" first.1) ∧ is_Some (row "default" "b" first.1) ∧
  depends (dependents id (services first.1)) "default/a" "default/b" ∧ depends (dependents id (services first.1)) "default/b" "default/a".
Proof.
  split_and!; [vm_compute; reflexivity|eexists; vm_compute; reflexivity|eexists; vm_compute; reflexivity|..].
  - eexists (mkDependent "default" "a" [mkDependencyRef "b" "" "" ""]). split; [|split; [reflexivity|left]].
    apply elem_of_dependents. exists "default", "a". eexists. split; [vm_compute; reflexivity|reflexivity].
  - eexists (mkDependent "default" "b" [mkDependencyRef "a" "" "" ""]). split; [|split; [reflexivity|left]].
    apply elem_of_dependents. exists "default", "b". eexists. split; [vm_compute; reflexivity|reflexivity].
Qed.

Definition web (scale : Z) : option ServiceRequest := request "default" "web" (payload "" scale []).

(** The scaling controller's write of a scale. *)
Definition scaled (n : Z) (w : cluster) : cluster := with_store w (updateService "default" "web" (setScale n n 0) (w_store w)).1.

(** An update writes back the record it read: a scaling that ran in between is
    undone, and the counter then repeats the generation the scaling had used, so
    that a reconciler which saw that generation takes the update for its own
    echo. *)
Theorem update_undoes_scaling :
  let w := (create (calmly "u1") (web 1) false fresh_cluster).1 in
  let between := scaled 5 w in
  let after := (update (meanwhile "u2" (scaled 5)) (request "default" "web" (mkStoredService "" "process" 1 [] None None [] ServiceStatusPending "" "" None None)) false w).1 in
  (ss_Scale <$> row "default" "web" between = Some 5) ∧ (ss_Scale <$> row "default" "web" after = Some 1) ∧
  (sm_Generation ∘ metadata <$> row "default" "web" between = Some 2) ∧ (sm_Generation ∘ metadata <$> row "default" "web" after = Some 2).
Proof. split_and!; vm_compute; reflexivity. Qed.

(** An update does not remember the scale: a service created at one, updated
    to five and then to zero restarts at one, not at the last scale it had. *)
Theorem update_forgets_scale :
  let w := (update (calmly "u3") (web 0) false (update (calmly "u2") (web 5) false (create (calmly "u1") (web 1) false fresh_cluster).1).1).1 in
  ss_Scale <$> row "default" "web" w = Some 0 ∧ (RestartService "default" "web" w).2 = Ok (4, 1).
Proof. split; vm_compute; reflexivity. Qed.

(** An update is accepted on a service that is being torn down, and its status
    leaves the deleted state, which is what restarts check. *)
Theorem update_during_teardown :
  let w := (create (calmly "u1") (web 1) false fresh_cluster).1 in
  let gone := (delete (calmly "u1") (mkDeletionRequest "web" "" false false false false) w).1 in
  let after := (update (calmly "u2") (web 2) false gone) in
  (RestartService "default" "web" gone).2 = Err Internal ∧ is_ok after.2 = true ∧
  (sm_DeletionTimestamp ∘ metadata <$> row "default" "web" after.1 = Some (Some 100)) ∧ is_ok (RestartService "default" "web" after.1).2 = true.
Proof. split_and!; vm_compute; reflexivity. Qed.

(** ** Witnesses *)

Lemma fresh_sound : Sound id fresh_cluster.
Proof. split; [intros ns name [x Hx]; change ((∅ : gmap _ service) !! (ns, name) = Some x) in Hx; by rewrite lookup_empty in Hx|]. intros u Hu. inversion Hu as [? ? (x & Hx & _)|? ? ? (x & Hx & _)]; by apply elem_of_nil in Hx. Qed.

Lemma api_keeps_acyclic_witness :
  let w := (update (calmly "u3") (request "default" "a" (payload "" 1 ["b"])) false
             (create (calmly "u2") (request "" "b" (payload "" 1 ["a"])) false (create (calmly "u1") (request "" "a" (payload "" 1 [])) false fresh_cluster).1).1).1 in
  is_Some (row "default" "b" w) ∧ acyclic (dependents id (services w)).
Proof.
  split; [eexists; vm_compute; reflexivity|].
  apply (api_keeps_acyclic (id : string → RuntimeType) id (λ _, false) fresh_cluster); [|exact fresh_sound].
  eapply rtc_l; [apply (create_step _ _ _ fresh_cluster (calmly "u1") (request "" "a" (payload "" 1 [])) false); [intros w k x Hx; by exists x|reflexivity]|].
  eapply rtc_l; [apply (create_step _ _ _ _ (calmly "u2") (request "" "b" (payload "" 1 ["a"])) false); [intros w k x Hx; by exists x|reflexivity]|].
  apply rtc_once. apply (update_step _ _ _ _ (calmly "u3") (request "default" "a" (payload "" 1 ["b"])) false); [intros w k x Hx; by exists x|reflexivity].
Defined.

Lemma fresh_agree : agree fresh_cluster.
Proof.
  intros v [= <-]. split; [|intros k x Hx; change ((∅ : gmap _ service) !! k = Some x) in Hx; by rewrite lookup_empty in Hx]. split; [apply booted_registered|]. split; [vm_compute; reflexivity|]. right. exists bootedNet.
  assert (b_mem (a_olog booted) = bootedNetwork) as -> by (vm_compute; reflexivity). apply bootedNetwork_ok.
Qed.

Lemma steady_calmly uuid : steady_env (calmly uuid).
Proof. intros w. split; [intros v Hv; by exists v|]. intros k x Hx. by exists x. Qed.

Definition two_services : cluster :=
  (create (calmly "u2") (request "" "b" (payload "" 1 [])) false (create (calmly "u1") (request "" "a" (payload "" 1 [])) false fresh_cluster).1).1.

Lemma addresses_not_shared_witness :
  address <$> row "default" "a" two_services = Some "10.96.0.2" ∧ address <$> row "default" "b" two_services = Some "10.96.0.3" ∧
  match w_vips two_services with Some v => held v "u2" | None => None end = Some "10.96.0.3" ∧
  ∀ v k x, w_vips two_services = Some v → services two_services !! k = Some x → address x ≠ "" → vip_of v (ss_ID x) = Some (address x).
Proof.
  split; [vm_compute; reflexivity|]. split; [vm_compute; reflexivity|].
  split; [vm_compute; reflexivity|]. intros v k x Hv.
  apply (addresses_not_shared (id : string → RuntimeType) id (λ _, false) fresh_cluster two_services v); [|exact fresh_agree|exact Hv].
  eapply rtc_l; [apply (address_create _ _ _ fresh_cluster (calmly "u1") (request "" "a" (payload "" 1 [])) false); apply steady_calmly|].
  apply rtc_once. apply (address_create _ _ _ _ (calmly "u2") (request "" "b" (payload "" 1 [])) false); apply steady_calmly.
Defined.

Definition one_service : cluster := (create (calmly "u1") (web 1) false fresh_cluster).1.

(** What a computed answer is read by. *)
Definition answer {A B} (f : A → B) (r : cluster * result Code A) : option B := match r.2 with Ok a => Some (f a) | Err _ => None end.

Lemma update_counters_witness :
  ∃ old x, row "default" "web" one_service = Some old ∧ advanced false old x ∧
    (ss_Scale x, sm_Generation (metadata x), sm_TemplateGeneration (metadata x)) = (3, 2, 1).
Proof.
  assert (Hr : answer (λ x, (ss_Scale x, sm_Generation (metadata x), sm_TemplateGeneration (metadata x))) (update (calmly "u2") (web 3) false one_service) = Some (3, 2, 1))
    by (vm_compute; reflexivity).
  destruct (update (calmly "u2") (web 3) false one_service) as [w' [x|c]] eqn:E; [|discriminate Hr].
  destruct (update_counters id (calmly "u2") (mkServiceRequest "default" "web" (Some (payload "" 3 []))) false one_service w' x E) as (old & H1 & _ & _ & H2 & _).
  exists old, x. split; [exact H1|]. split; [exact H2|]. unfold answer in Hr. cbn [snd] in Hr. congruence.
Defined.

Lemma restart_stamps_witness :
  ∃ old new : service, row "default" "web" one_service = Some old ∧ sm_Generation (metadata new) = 2 ∧ sm_TemplateGeneration (metadata new) = 2 ∧ ss_Scale new = 1.
Proof.
  assert (Hr : answer id (RestartService "" "web" one_service) = Some (2, 1)) by (vm_compute; reflexivity).
  destruct (RestartService "" "web" one_service) as [w' [[g n]|c]] eqn:E; [|discriminate Hr]. injection Hr as -> ->.
  destruct (restart_stamps "" "web" one_service w' 2 1 E) as (old & new & H1 & _ & _ & H3 & H4 & H5 & _).
  exists old, new. split; [exact H1|]. split; [exact H3|]. split; [exact H4|exact H5].
Defined.

Lemma ignore_not_found_fails_witness :
  ∃ c, (delete (calmly "u1") (mkDeletionRequest "web" "" false false true false) fresh_cluster).2 = Err c.
Proof. apply (ignore_not_found_fails id (λ _, false) (calmly "u1") (mkDeletionRequest "web" "" false false true false) fresh_cluster); reflexivity. Defined.

Lemma delete_guarded_witness :
  (delete (calmly "u3") (mkDeletionRequest "web" "" false false false false) (create (calmly "u2") (request "" "b" (payload "" 1 ["web"])) false one_service).1).2 = Err FailedPrecondition ∧
  ∃ new, row "default" "web" (delete (calmly "u3") (mkDeletionRequest "web" "" false false false false) one_service).1 = Some new ∧ is_Some (sm_DeletionTimestamp (metadata new)).
Proof.
  split; [vm_compute; reflexivity|].
  assert (Hr : answer (λ _, tt) (delete (calmly "u3") (mkDeletionRequest "web" "" false false false false) one_service) = Some tt) by (vm_compute; reflexivity).
  destruct (delete (calmly "u3") (mkDeletionRequest "web" "" false false false false) one_service) as [w' [r|c]] eqn:E; [|discriminate Hr].
  exact (proj2 (delete_guarded id (λ _, false) (calmly "u3") (mkDeletionRequest "web" "" false false false false) one_service w' r E eq_refl eq_refl eq_refl)).
Defined.
