(* ===== verification/ScalingWatch.v ===== *)
(** * Watching a scaling (pkg/api/service/service.go)

    The counts and the bounded problem list sent to a client that waits for a
    scaling, the test for completion, and the loop that ends the stream.  An entry
    of the problem list is the instance it is printed from. *)

From S2P Require Import Prelude Types.

Definition has (st : InstanceStatus) (i : Instance) : bool := bool_decide (i_Status i = st).

(** The instances of a service that are not deleted. *)
Definition getServiceInstances (serviceID : string) (all : list Instance) : list Instance :=
  List.filter (λ i, bool_decide (i_ServiceID i = serviceID) && negb (has InstanceStatusDeleted i)) all.

Record instanceSummary := mkSummary {
  su_running : Z;
  su_pending : Z;
  su_failed : Z;
  su_stalled : Z;
  su_terminating : Z;
  su_live : Z;
  su_problems : list Instance;
}.

Definition maxProblemsInStream : nat := 3.

Definition countOne (s : instanceSummary) (i : Instance) : instanceSummary :=
  let 'mkSummary r p f st t l pr := s in
  match i_Status i with
  | InstanceStatusRunning => mkSummary (r + 1) p f st t (l + 1) pr
  | InstanceStatusPending | InstanceStatusStarting | InstanceStatusCreated => mkSummary r (p + 1) f st t (l + 1) pr
  | InstanceStatusFailed => mkSummary r p (f + 1) st t l pr
  | InstanceStatusStalled => mkSummary r p f (st + 1) t l pr
  | InstanceStatusTerminating => mkSummary r p f st (t + 1) (l + 1) pr
  | _ => s
  end.

Definition appendProblem (s : instanceSummary) (i : Instance) : instanceSummary :=
  if (maxProblemsInStream <=? length (su_problems s))%nat then s
  else mkSummary (su_running s) (su_pending s) (su_failed s) (su_stalled s) (su_terminating s) (su_live s) (su_problems s ++ [i]).

(** Starting, with restarts behind it. *)
Definition struggling (i : Instance) : bool :=
  (has InstanceStatusStarting i || has InstanceStatusPending i || has InstanceStatusCreated i) &&
  match i_Metadata i with Some m => 0 <? im_RestartCount m | None => false end.

Definition problemPass (f : Instance → bool) (instances : list Instance) (s : instanceSummary) : instanceSummary :=
  fold_left (λ s i, if f i then appendProblem s i else s) instances s.

Definition summarizeInstances (instances : list Instance) : instanceSummary :=
  let s := fold_left countOne instances (mkSummary 0 0 0 0 0 0 []) in
  let s := problemPass (has InstanceStatusStalled) instances s in
  let s := problemPass (has InstanceStatusFailed) instances s in
  let s := problemPass (has InstanceStatusTerminating) instances s in
  problemPass struggling instances s.

Definition isScalingComplete (scale : Z) (summary : instanceSummary) (targetScale : Z) : bool :=
  if targetScale =? 0 then su_live summary =? 0 else (scale =? targetScale) && (su_running summary =? targetScale).

(** ** The stream *)

(** What one tick of the clock finds. *)
Inductive tick :=
| CtxDone
| LookupFails
| Tick (scale : Z) (instances : list Instance) (sendFails : bool).

Inductive watchEnd := ScalingDone | ClientGone | WatchError | StillWatching.

Definition requiredCompletions : nat := 2.

(** How the stream ends and how many messages it sent. *)
Fixpoint watchLoop (target : Z) (completions : nat) (ticks : list tick) : watchEnd * nat :=
  match ticks with
  | [] => (StillWatching, 0%nat)
  | CtxDone :: _ => (ClientGone, 0%nat)
  | LookupFails :: _ => (WatchError, 0%nat)
  | Tick scale instances sendFails :: ticks =>
      if sendFails then (WatchError, 0%nat)
      else if isScalingComplete scale (summarizeInstances instances) target then
        if (requiredCompletions <=? S completions)%nat then (ScalingDone, 1%nat)
        else let '(r, n) := watchLoop target (S completions) ticks in (r, S n)
      else let '(r, n) := watchLoop target 0 ticks in (r, S n)
  end.

Definition WatchScaling (target : Z) (ticks : list tick) : watchEnd * nat := watchLoop target 0 ticks.

(** ** What the summary says *)

Definition live (i : Instance) : bool :=
  has InstanceStatusRunning i || has InstanceStatusPending i || has InstanceStatusStarting i || has InstanceStatusCreated i || has InstanceStatusTerminating i.
Definition severity (instances : list Instance) : list Instance :=
  List.filter (has InstanceStatusStalled) instances ++ List.filter (has InstanceStatusFailed) instances ++
  List.filter (has InstanceStatusTerminating) instances ++ List.filter struggling instances.

Lemma counts_fold instances s :
  fold_left countOne instances s =
  mkSummary (su_running s + countb (has InstanceStatusRunning) instances)
    (su_pending s + countb (λ i, has InstanceStatusPending i || has InstanceStatusStarting i || has InstanceStatusCreated i) instances)
    (su_failed s + countb (has InstanceStatusFailed) instances) (su_stalled s + countb (has InstanceStatusStalled) instances)
    (su_terminating s + countb (has InstanceStatusTerminating) instances) (su_live s + countb live instances) (su_problems s).
Proof.
  revert s. induction instances as [|i l IH]; intros [r p f st t lv pr]; cbn [fold_left countb]; [cbn; by rewrite !Z.add_0_r|].
  rewrite IH. unfold countOne, live, has. destruct (i_Status i); repeat first [rewrite bool_decide_true by done|rewrite bool_decide_false by done]; cbn; f_equal; lia.
Qed.

Lemma problems_fold f instances s :
  problemPass f instances s =
  mkSummary (su_running s) (su_pending s) (su_failed s) (su_stalled s) (su_terminating s) (su_live s)
    (su_problems s ++ take (3 - length (su_problems s)) (List.filter f instances)).
Proof.
  unfold problemPass. revert s. induction instances as [|i l IH]; intros s; cbn [fold_left List.filter].
  { rewrite take_nil, app_nil_r. by destruct s. }
  rewrite IH. destruct (f i); [|done]. unfold appendProblem, maxProblemsInStream. destruct (Nat.leb_spec 3 (length (su_problems s))) as [Hl|Hl].
  - by replace (3 - length (su_problems s))%nat with 0%nat by lia.
  - cbn [su_running su_pending su_failed su_stalled su_terminating su_live su_problems]. rewrite length_app. cbn [length].
    replace (3 - length (su_problems s))%nat with (S (3 - (length (su_problems s) + 1))) by lia. cbn [take]. by rewrite <- app_assoc.
Qed.

Lemma take_more {A} (n : nat) (k l : list A) : take n k ++ take (n - length (take n k)) l = take n (k ++ l).
Proof. rewrite take_app, length_take. f_equal. f_equal. lia. Qed.

Lemma summarize_eq instances :
  summarizeInstances instances =
  mkSummary (countb (has InstanceStatusRunning) instances)
    (countb (λ i, has InstanceStatusPending i || has InstanceStatusStarting i || has InstanceStatusCreated i) instances)
    (countb (has InstanceStatusFailed) instances) (countb (has InstanceStatusStalled) instances) (countb (has InstanceStatusTerminating) instances)
    (countb live instances) (take 3 (severity instances)).
Proof.
  unfold summarizeInstances. rewrite counts_fold, !problems_fold. unfold severity. cbn [su_running su_pending su_failed su_stalled su_terminating su_live su_problems].
  cbn [app length]. change (3 - 0)%nat with 3%nat. by rewrite !take_more, <- !app_assoc.
Qed.

(** The stream's counts are those of the instances by status, at most three
    problems are listed and they are the most severe ones in the order stalled,
    failed, terminating, struggling; a drain is complete exactly when no instance
    is pending, created, starting, running or terminating, and any other scaling
    exactly when the desired scale and the running instances are at the target. *)
Theorem scaling_summary_exact scale instances target :
  summarizeInstances instances =
    mkSummary (countb (has InstanceStatusRunning) instances)
      (countb (λ i, has InstanceStatusPending i || has InstanceStatusStarting i || has InstanceStatusCreated i) instances)
      (countb (has InstanceStatusFailed) instances) (countb (has InstanceStatusStalled) instances) (countb (has InstanceStatusTerminating) instances)
      (countb live instances) (take 3 (severity instances)) ∧
  (isScalingComplete scale (summarizeInstances instances) target = true ↔
   if target =? 0 then ∀ i, i ∈ instances → live i = false else scale = target ∧ countb (has InstanceStatusRunning) instances = target).
Proof.
  split; [apply summarize_eq|]. unfold isScalingComplete. rewrite summarize_eq. cbn [su_live su_running]. destruct (target =? 0).
  - rewrite Z.eqb_eq. split.
    + intros Hc i Hi. destruct (live i) eqn:E; [|done]. assert (0 < countb live instances) by (apply countb_pos; by exists i). lia.
    + apply countb_none.
  - rewrite andb_true_iff, !Z.eqb_eq. done.
Qed.

(** ** When the stream ends *)

Definition completes (target : Z) (t : tick) : Prop :=
  match t with Tick scale instances false => isScalingComplete scale (summarizeInstances instances) target = true | _ => False end.

Lemma watchLoop_done target c ticks n :
  (c ≤ 1)%nat → watchLoop target c ticks = (ScalingDone, n) →
  (c = 1%nat ∧ n = 1%nat ∧ ∃ t, ticks !! 0%nat = Some t ∧ completes target t) ∨
  (∃ k t1 t2, n = S (S k) ∧ ticks !! k = Some t1 ∧ ticks !! S k = Some t2 ∧ completes target t1 ∧ completes target t2).
Proof.
  revert c n. induction ticks as [|t ticks IH]; intros c n Hc; [done|]. destruct t as [| |scale instances [|]]; cbn [watchLoop]; [done..|].
  destruct (isScalingComplete _ _ _) eqn:E.
  - destruct c as [|[|c]]; [|intros [= <-]; left; split_and!; [done..|]; by exists (Tick scale instances false)|lia]. cbn [requiredCompletions Nat.leb].
    destruct (watchLoop target 1 ticks) as [r m] eqn:El. intros [= -> <-]. right. destruct (IH 1%nat m ltac:(lia) El) as [(_ & -> & t & Ht & Hd)|(k & t1 & t2 & -> & H1 & H2 & H3)].
    + exists 0%nat, (Tick scale instances false), t. done.
    + by exists (S k), t1, t2.
  - destruct (watchLoop target 0 ticks) as [r m] eqn:El. intros [= -> <-]. right. destruct (IH 0%nat m ltac:(lia) El) as [(? & _)|(k & t1 & t2 & -> & H1 & H2 & H3)]; [done|].
    by exists (S k), t1, t2.
Qed.

Lemma watchLoop_finds target c ticks k t1 t2 :
  (c ≤ 1)%nat → ticks !! k = Some t1 → ticks !! S k = Some t2 → completes target t1 → completes target t2 →
  (watchLoop target c ticks).1 ≠ StillWatching ∧ ((watchLoop target c ticks).2 ≤ S (S k))%nat.
Proof.
  revert c k. induction ticks as [|t ticks IH]; intros c k Hc H1 H2 H3 H4; [done|].
  destruct t as [| |scale instances [|]]; cbn [watchLoop]; [split; [done|cbn; lia]..|].
  destruct k as [|k].
  - cbn in H1. injection H1 as <-. cbn in H2. cbn in H3. rewrite H3. destruct c as [|[|c]]; [|split; [done|cbn; lia]|lia]. cbn [requiredCompletions Nat.leb].
    destruct ticks as [|t ticks]; [done|]. cbn in H2. injection H2 as ->. destruct t2 as [| |sc l [|]]; [done..|]. cbn in H4. cbn [watchLoop]. rewrite H4. cbn. split; [done|lia].
  - cbn in H1, H2. destruct (isScalingComplete _ _ _).
    + destruct c as [|[|c]]; [|split; [done|cbn; lia]|lia]. cbn [requiredCompletions Nat.leb]. destruct (IH 1%nat k ltac:(lia) H1 H2 H3 H4) as [Ha Hb].
      destruct (watchLoop target 1 ticks) as [r m]. cbn in *. split; [done|lia].
    + destruct (IH 0%nat k ltac:(lia) H1 H2 H3 H4) as [Ha Hb]. destruct (watchLoop target 0 ticks) as [r m]. cbn in *. split; [done|lia].
Qed.

(** The stream reports success only after the scaling was found complete at two
    successive ticks, and once it is found complete twice in a row the stream ends
    there at the latest. *)
Theorem watch_waits_for_two target ticks :
  (∀ n, WatchScaling target ticks = (ScalingDone, n) →
     ∃ k t1 t2, n = S (S k) ∧ ticks !! k = Some t1 ∧ ticks !! S k = Some t2 ∧ completes target t1 ∧ completes target t2) ∧
  (∀ k t1 t2, ticks !! k = Some t1 → ticks !! S k = Some t2 → completes target t1 → completes target t2 →
     (WatchScaling target ticks).1 ≠ StillWatching ∧ ((WatchScaling target ticks).2 ≤ S (S k))%nat).
Proof.
  split.
  - intros n Hn. destruct (watchLoop_done target 0 ticks n ltac:(lia) Hn) as [(? & _)|?]; done.
  - intros k t1 t2. apply watchLoop_finds. lia.
Qed.
