(* ===== verification/Creation.v ===== *)
(** * Creating and restarting instances (pkg/orchestrator/instance/{instance_lifecycle,instance_failure}.go)

    The create pipeline, its retries on the same record, the failure bookkeeping
    and the restart that preserves the failed container.  The world is the stored
    rows and the containers on the host; a tick counts the calls, and the
    environment answers each call by its tick: the store, the runner and the three
    preparations (environment, mounts, init steps), which are modelled on their
    own.  [others] is what other writers do to the rows before a store call.
    Events and the log snapshot are left out. *)

From S2P Require Import Prelude Text Effects Types Status.

(** [types.Instance], by what the pipeline reads and writes. *)
Record Inst := mkInst {
  in_ID : string;
  in_Namespace : string;
  in_Name : string;
  in_Ordinal : Z;
  in_ServiceName : string;
  in_Generation : Z;
  in_Status : InstanceStatus;
  in_StatusReason : string;
  in_StatusMessage : string;
  in_LastTransitionAt : option Time;
  in_ContainerID : string;
  in_EverCreatedAt : option Time;
  in_Attempts : Z;
  in_NextAttemptAt : option Time;
  in_FailedAt : option Time;
  in_FailureReason : string;
  in_RestartCount : Z;
}.

(** [types.Service]: the template generation, whether there is a readiness probe,
    the restart policy and whether a teardown has begun. *)
Record Spec := mkSpec {
  sp_Namespace : string;
  sp_ServiceName : string;
  sp_TemplateGeneration : Z;
  sp_Readiness : bool;
  sp_RestartPolicy : string;
  sp_Deleting : bool;
}.

Definition RestartPolicyAlways : string := "Always".
Definition RestartPolicyOnFailure : string := "OnFailure".
Definition RestartPolicyNever : string := "Never".

Inductive RestartReason := RestartReasonManual | RestartReasonHealthCheckFailure | RestartReasonUpdate | RestartReasonFailure.

Definition RestartReason_string (r : RestartReason) : string :=
  match r with
  | RestartReasonManual => "manual"
  | RestartReasonHealthCheckFailure => "health-check-failure"
  | RestartReasonUpdate => "update"
  | RestartReasonFailure => "failure"
  end.

(** ** Fields *)

Definition applyInstanceStatus (now : Time) (st : InstanceStatus) (reason message : string) (i : Inst) : Inst :=
  mkInst (in_ID i) (in_Namespace i) (in_Name i) (in_Ordinal i) (in_ServiceName i) (in_Generation i) st reason message
    (if negb (bool_decide (in_Status i = st)) || bool_decide (in_LastTransitionAt i = None) then Some now else in_LastTransitionAt i)
    (in_ContainerID i) (in_EverCreatedAt i) (in_Attempts i) (in_NextAttemptAt i) (in_FailedAt i) (in_FailureReason i) (in_RestartCount i).

Definition with_status (st : InstanceStatus) (message : string) (i : Inst) : Inst :=
  mkInst (in_ID i) (in_Namespace i) (in_Name i) (in_Ordinal i) (in_ServiceName i) (in_Generation i) st (in_StatusReason i) message
    (in_LastTransitionAt i) (in_ContainerID i) (in_EverCreatedAt i) (in_Attempts i) (in_NextAttemptAt i) (in_FailedAt i)
    (in_FailureReason i) (in_RestartCount i).

Definition with_container (c : string) (i : Inst) : Inst :=
  mkInst (in_ID i) (in_Namespace i) (in_Name i) (in_Ordinal i) (in_ServiceName i) (in_Generation i) (in_Status i) (in_StatusReason i)
    (in_StatusMessage i) (in_LastTransitionAt i) c (in_EverCreatedAt i) (in_Attempts i) (in_NextAttemptAt i) (in_FailedAt i)
    (in_FailureReason i) (in_RestartCount i).

Definition with_ever (now : Time) (i : Inst) : Inst :=
  mkInst (in_ID i) (in_Namespace i) (in_Name i) (in_Ordinal i) (in_ServiceName i) (in_Generation i) (in_Status i) (in_StatusReason i)
    (in_StatusMessage i) (in_LastTransitionAt i) (in_ContainerID i)
    (match in_EverCreatedAt i with None => Some now | t => t end) (in_Attempts i) (in_NextAttemptAt i) (in_FailedAt i)
    (in_FailureReason i) (in_RestartCount i).

Definition with_attempts (n : Z) (next : option Time) (i : Inst) : Inst :=
  mkInst (in_ID i) (in_Namespace i) (in_Name i) (in_Ordinal i) (in_ServiceName i) (in_Generation i) (in_Status i) (in_StatusReason i)
    (in_StatusMessage i) (in_LastTransitionAt i) (in_ContainerID i) (in_EverCreatedAt i) n next (in_FailedAt i)
    (in_FailureReason i) (in_RestartCount i).

Definition with_failure (failedAt : option Time) (reason : string) (i : Inst) : Inst :=
  mkInst (in_ID i) (in_Namespace i) (in_Name i) (in_Ordinal i) (in_ServiceName i) (in_Generation i) (in_Status i) (in_StatusReason i)
    (in_StatusMessage i) (in_LastTransitionAt i) (in_ContainerID i) (in_EverCreatedAt i) (in_Attempts i) (in_NextAttemptAt i) failedAt
    reason (in_RestartCount i).

Definition with_restarts (n : Z) (i : Inst) : Inst :=
  mkInst (in_ID i) (in_Namespace i) (in_Name i) (in_Ordinal i) (in_ServiceName i) (in_Generation i) (in_Status i) (in_StatusReason i)
    (in_StatusMessage i) (in_LastTransitionAt i) (in_ContainerID i) (in_EverCreatedAt i) (in_Attempts i) (in_NextAttemptAt i) (in_FailedAt i)
    (in_FailureReason i) n.

(** ** Failures (instance_failure.go) *)

Definition maxCreateAttempts : Z := 6.
Definition createBaseBackoff : Duration := 30 * Second.
Definition createMaxBackoff : Duration := 300 * Second.

(** The loop of [createBackoffFor]; [n] is the number of turns left. *)
Fixpoint doubled (n : nat) (d : Duration) : Duration :=
  match n with O => d | S n => if d <? createMaxBackoff then doubled n (d * 2) else d end.

Definition createBackoffFor (attempt : Z) : Duration :=
  let attempt := if attempt <? 1 then 1 else attempt in
  let d := doubled (Z.to_nat (attempt - 1)) createBaseBackoff in
  if createMaxBackoff <? d then createMaxBackoff else d.

Definition classifyCreateError (msg : string) : string :=
  if Contains msg "StorageClassMissing" then "StorageClassMissing"
  else if Contains msg "InvalidParameters" then "VolumeInvalidParameters"
  else if Contains msg "ProvisionRetriesExhausted" then "VolumeProvisionStalled"
  else if Contains msg "volume " && Contains msg "is not ready" then "VolumeNotReady"
  else if Contains msg "resolve volume mount" || Contains msg "not yet mounted" then "VolumeNotReady"
  else if Contains msg "resolve secret" then "SecretNotFound"
  else if Contains msg "resolve config" then "ConfigmapNotFound"
  else if Contains msg "prepare environment variables" then "EnvResolveFailed"
  else if Contains msg "init steps failed" then "InitStepFailed"
  else if Contains msg "get runner" then "RunnerUnavailable"
  else if Contains msg "failed to create instance:" then "RunnerCreateError"
  else if Contains msg "failed to start instance" then "RunnerStartError"
  else "CreateFailed".

(** What a failed attempt does to the fresh record. *)
Definition failedAttempt (now : Time) (reason message : string) (fresh : Inst) : Inst :=
  let n := in_Attempts fresh + 1 in
  let fresh := with_failure (in_FailedAt fresh) reason fresh in
  if maxCreateAttempts <=? n then with_attempts n None (applyInstanceStatus now InstanceStatusStalled reason message fresh)
  else with_attempts n (Some (now + createBackoffFor n)) (applyInstanceStatus now InstanceStatusFailed reason message fresh).

(** ** The world *)

(** Calls on the runner and the data plane, with the tick they were made at.
    [CAttempt] marks the start of an attempt on a record. *)
Inductive ccall :=
| CAttempt (n : nat) (id : string)
| CCreate (n : nat) (id : string) (container : option string)
| CStart (n : nat) (id : string) (ok : bool)
| CRemove (n : nat) (id container : string) (ok : bool)
| CStop (n : nat) (id : string) (status : option InstanceStatus)
| CRepublish (n : nat) (status : option InstanceStatus)
| CDrain (n : nat) (wasServing : bool).

Record cworld := mkCworld {
  cw_rows : gmap (string * string) Inst;
  cw_containers : gmap string string;
  cw_tick : nat;
  cw_log : list ccall;
}.

(** Errors of the preparations and the runner are their texts; a missing container
    is one the host does not have. *)
Record create_env := mkCreateEnv {
  ce_now : nat → Time;
  ce_store : nat → bool;
  ce_others : nat → gmap (string * string) Inst → gmap (string * string) Inst;
  ce_runner : nat → option string;
  ce_envVars : nat → option string;
  ce_mounts : nat → option string;
  ce_init : nat → option string;
  ce_create : nat → result string string;
  ce_start : nat → option string;
  ce_status : nat → option (InstanceStatus * string);
  ce_remove : nat → option string;
  ce_uuid : nat → string;
  ce_service : nat → option Spec;
}.

Section Creation.
Context (env : create_env).

#[local] Abbreviation io := (prog cworld).

Definition tick : io nat := λ w, (mkCworld (cw_rows w) (cw_containers w) (S (cw_tick w)) (cw_log w), Some (cw_tick w)).
Definition ask {A} (f : create_env → nat → A) : io A := n ← tick; mret (f env n).
Definition log (c : nat → ccall) : io unit := n ← tick; modify (λ w, mkCworld (cw_rows w) (cw_containers w) (cw_tick w) (cw_log w ++ [c n])).
(** The call is logged with the status the instance's record has at that moment
    (for a publication: what the endpoints are computed from). *)
Definition logRow (k : string * string) (c : nat → option InstanceStatus → ccall) : io unit :=
  rows ← gets cw_rows; log (λ n, c n (in_Status <$> rows !! k)).
Definition setRows (f : gmap (string * string) Inst → gmap (string * string) Inst) : io unit :=
  modify (λ w, mkCworld (f (cw_rows w)) (cw_containers w) (cw_tick w) (cw_log w)).
Definition setContainers (f : gmap string string → gmap string string) : io unit :=
  modify (λ w, mkCworld (cw_rows w) (f (cw_containers w)) (cw_tick w) (cw_log w)).

(** ** Store calls *)

(** Others write, then the call succeeds or not. *)
Definition access : io bool := n ← tick; setRows (ce_others env n);; mret (ce_store env n).

Definition key (i : Inst) : string * string := (in_Namespace i, in_ID i).

Definition storeCreate (i : Inst) : io unit :=
  ok ← access; guardp ok;; rows ← gets cw_rows; guardp (negb (bool_decide (is_Some (rows !! key i))));; setRows (<[key i := i]>).

Definition storeUpdate (i : Inst) : io unit :=
  ok ← access; guardp ok;; rows ← gets cw_rows; guardp (bool_decide (is_Some (rows !! key i)));; setRows (<[key i := i]>).

(** [None] from the mutation skips the write. *)
Definition storeUpdateFunc (k : string * string) (f : Inst → option Inst) : io (option Inst) :=
  ok ← access; guardp ok;; rows ← gets cw_rows; fresh ← from_option (rows !! k);
  match f fresh with None => mret None | Some j => setRows (<[k := j]>);; mret (Some j) end.

Definition storeGet (k : string * string) : io Inst := ok ← access; guardp ok;; rows ← gets cw_rows; from_option (rows !! k).

(** ** The attempt *)

(** The caller's copy afterwards. *)
Definition recordCreateFailure (i : Inst) (message reason : string) : io Inst :=
  now ← ask ce_now;
  r ← try (storeUpdateFunc (key i) (λ fresh, Some (failedAttempt now reason message fresh)));
  mret (match r with Some (Some j) => j | _ => i end).

Definition failAttempt (i : Inst) (message : string) : io (Inst * bool) :=
  j ← recordCreateFailure i message (classifyCreateError message); mret (j, false).

Definition persistContainerID (i : Inst) : io unit :=
  if bool_decide (in_ContainerID i = "") then mret tt
  else try (storeUpdateFunc (key i) (λ fresh, Some (with_container (in_ContainerID i) fresh)));; mret tt.

(** The last part: the container is running. *)
Definition finishCreate (svc : Spec) (i : Inst) : io (Inst * bool) :=
  now ← ask ce_now;
  let i := if sp_Readiness svc then applyInstanceStatus now InstanceStatusStarting "" "Waiting for readiness probe" i
           else applyInstanceStatus now InstanceStatusRunning "" "Created successfully" i in
  let i := with_attempts 0 None i in
  try (storeUpdate i);;
  logRow (key i) CRepublish;;
  mret (i, true).

(** From the runner's create on. *)
Definition launch (svc : Spec) (i : Inst) : io (Inst * bool) :=
  n ← tick;
  match ce_create env n with
  | Err e =>
      log (λ n, CCreate n (in_ID i) None);;
      failAttempt i ("failed to create instance: " +:+ e)
  | Ok c =>
      setContainers (<[c := in_ID i]>);;
      log (λ n, CCreate n (in_ID i) (Some c));;
      now ← ask ce_now;
      let i := with_ever now (with_container c i) in
      persistContainerID i;;
      started ← ask ce_start;
      log (λ n, CStart n (in_ID i) (bool_decide (started = None)));;
      match started with
      | Some e => failAttempt i ("failed to start instance: " +:+ e)
      | None => finishCreate svc i
      end
  end.

Definition runCreateAttempt (svc : Spec) (i : Inst) : io (Inst * bool) :=
  r ← ask ce_runner;
  match r with Some e => failAttempt i ("failed to get runner for service: " +:+ e) | None =>
  e ← ask ce_envVars;
  match e with Some e => failAttempt i ("failed to prepare environment variables: " +:+ e) | None =>
  m ← ask ce_mounts;
  match m with Some e => failAttempt i ("failed to resolve secret and config mounts: " +:+ e) | None =>
  s ← ask ce_init;
  match s with Some e => failAttempt i ("init steps failed: " +:+ e) | None =>
  let i := with_status InstanceStatusStarting (in_StatusMessage i) i in
  try (storeUpdate i);;
  launch svc i
  end end end end.

Definition newInst (svc : Spec) (uuid name : string) (ordinal : Z) : Inst :=
  mkInst uuid (sp_Namespace svc) name ordinal (sp_ServiceName svc) (sp_TemplateGeneration svc) InstanceStatusPending "" "" None "" None 0 None None "" 0.

(** Fails when the record cannot be created; otherwise the instance and whether it
    came up. *)
Definition CreateInstance (svc : Spec) (name : string) (ordinal : Z) : io (Inst * bool) :=
  uuid ← ask ce_uuid;
  let i := newInst svc uuid name ordinal in
  storeCreate i;;
  log (λ n, CAttempt n uuid);;
  runCreateAttempt svc i.

(** ** Retrying on the same record *)

(** Removing a container: nothing to remove counts as removed. *)
Definition removeContainer (i : Inst) : io (option string) :=
  n ← tick;
  there ← gets (λ w, cw_containers w !! in_ContainerID i);
  match there, ce_remove env n with
  | Some _, Some e => log (λ n, CRemove n (in_ID i) (in_ContainerID i) false);; mret (Some e)
  | _, _ => setContainers (base.delete (in_ContainerID i));; log (λ n, CRemove n (in_ID i) (in_ContainerID i) true);; mret None
  end.

Definition notRemoved (i : Inst) (e : string) : string := "remove container " +:+ in_ContainerID i +:+ " from failed attempt: " +:+ e.
Definition stillRunning (i : Inst) : string :=
  "container " +:+ in_ContainerID i +:+ " from a failed start attempt is running; stop or remove it to let the instance retry".

(** [Err]: the reason and the text. *)
Definition removeFailedAttemptContainer (i : Inst) : io (result (string * string) Inst) :=
  r ← ask ce_runner;
  match r with Some e => mret (Err ("PreviousContainerRemoveFailed", notRemoved i e)) | None =>
  st ← ask ce_status;
  if bool_decide (st = Some (InstanceStatusRunning, in_ContainerID i)) then mret (Err ("PreviousContainerRunning", stillRunning i))
  else
    removed ← removeContainer i;
    mret (match removed with Some e => Err ("PreviousContainerRemoveFailed", notRemoved i e) | None => Ok (with_container "" i) end)
  end.

Definition RetryCreateInstance (svc : Spec) (i : Inst) : io (Inst * bool) :=
  now ← ask ce_now;
  let i := with_attempts (in_Attempts i) None (applyInstanceStatus now InstanceStatusPending "" "" i) in
  storeUpdate i;;
  log (λ n, CAttempt n (in_ID i));;
  if bool_decide (in_ContainerID i = "") then runCreateAttempt svc i
  else
    r ← removeFailedAttemptContainer i;
    match r with
    | Err (reason, message) => j ← recordCreateFailure i message reason; mret (j, false)
    | Ok i => runCreateAttempt svc i
    end.

(** The branch of the reconciler for a record whose create never succeeded
    (reconciler/sync.go). *)
Definition stuck (i : Inst) : bool :=
  bool_decide (in_EverCreatedAt i = None) &&
  (bool_decide (in_Status i = InstanceStatusStalled) || bool_decide (in_Status i = InstanceStatusFailed)).

Definition due (now : Time) (i : Inst) : bool :=
  bool_decide (in_Status i = InstanceStatusFailed) && match in_NextAttemptAt i with Some t => negb (Before now t) | None => true end.

Definition reconcileStuck (svc : Spec) (i : Inst) : io unit :=
  if negb (stuck i) then mret tt
  else if negb (bool_decide (in_Status i = InstanceStatusFailed)) then mret tt
  else now ← ask ce_now; if due now i then try (RetryCreateInstance svc i);; mret tt else mret tt.

(** ** Restarting *)

Definition restartAllowed (policy : string) (reason : RestartReason) : bool :=
  match reason with
  | RestartReasonManual => true
  | _ =>
      let policy := if bool_decide (policy = "") then RestartPolicyAlways else policy in
      if bool_decide (policy = RestartPolicyNever) then false
      else if bool_decide (policy = RestartPolicyOnFailure) then
        match reason with RestartReasonFailure | RestartReasonHealthCheckFailure => true | _ => false end
      else true
  end.

(** The tombstone of a container that ran. *)
Definition markFailed (now : Time) (reason : RestartReason) (i : Inst) : Inst :=
  with_failure (Some now) (RestartReason_string reason)
    (with_status InstanceStatusFailed ("Preserved for postmortem after " +:+ RestartReason_string reason) i).

Definition markInstanceFailedInPlace (i : Inst) (reason : RestartReason) : io unit :=
  now ← ask ce_now; storeUpdateFunc (key i) (λ fresh, Some (markFailed now reason fresh));; mret tt.

(** The flip to Terminating, before the container is stopped. *)
Definition withdrawForRestart (i cur : Inst) : io unit :=
  let wasServing := bool_decide (in_Status cur = InstanceStatusRunning) in
  (if wasServing then
     try (storeUpdateFunc (key i) (λ fresh,
       if bool_decide (in_Status fresh = InstanceStatusRunning)
       then Some (with_status InstanceStatusTerminating "Restarting; draining connections" fresh) else None));;
     logRow (key i) CRepublish
   else mret tt);;
  log (λ n, CDrain n wasServing).

(** [true]: something was restarted; a failure is an error. *)
Definition RestartInstance (i : Inst) (reason : RestartReason) : io bool :=
  cur ← storeGet (key i);
  svc ← ask ce_service;
  if stuck cur then
    svc ← from_option svc;
    if sp_Deleting svc then mret false
    else r ← RetryCreateInstance svc (with_attempts 0 (in_NextAttemptAt cur) cur); guardp r.2;; mret true
  else if bool_decide (in_Status cur = InstanceStatusDeleted) || bool_decide (in_Status cur = InstanceStatusFailed) then mret false
  else
    svc ← from_option svc;
    if sp_Deleting svc then mret false
    else if negb (restartAllowed (sp_RestartPolicy svc) reason) then mret false
    else
      r ← ask ce_runner; guardp (bool_decide (r = None));;
      withdrawForRestart i cur;;
      logRow (key i) (λ n, CStop n (in_ID i));;
      try (markInstanceFailedInPlace i reason);;
      replacement ← CreateInstance svc (in_Name i) (in_Ordinal i);
      guardp replacement.2;;
      try (storeUpdate (with_restarts (in_RestartCount i + 1) replacement.1));;
      mret true.
End Creation.
