(* ===== verification/CreationProps.v ===== *)
(** * The create pipeline: bounded attempts, no container left behind *)

From S2P Require Import Prelude Text Effects Types Status Creation.

(** ** Delays *)

Lemma doubled_spec n d : 0 < d → Z.min (doubled n d) createMaxBackoff = Z.min (d * 2 ^ Z.of_nat n) createMaxBackoff.
Proof.
  revert d. induction n as [|n IH]; intros d Hd; cbn [doubled]; [by rewrite Z.mul_1_r|].
  rewrite Nat2Z.inj_succ, Z.pow_succ_r by lia. destruct (Z.ltb_spec d createMaxBackoff).
  - rewrite IH by lia. f_equal. ring.
  - rewrite !Z.min_r; [done|nia|done].
Qed.

(** The delay after an attempt doubles from thirty seconds and stays at five
    minutes. *)
Theorem create_backoff n : 1 ≤ n → createBackoffFor n = Z.min (createBaseBackoff * 2 ^ (n - 1)) createMaxBackoff.
Proof.
  intros Hn. unfold createBackoffFor. assert (n <? 1 = false) as -> by (apply Z.ltb_ge; lia). cbn zeta.
  pose proof (doubled_spec (Z.to_nat (n - 1)) createBaseBackoff ltac:(done)) as E. rewrite Z2Nat.id in E by lia. rewrite <- E. destruct (Z.ltb_spec createMaxBackoff (doubled (Z.to_nat (n - 1)) createBaseBackoff)); lia.
Qed.

Lemma createBackoff_pos n : createBaseBackoff ≤ createBackoffFor n.
Proof.
  unfold createBackoffFor. set (m := if n <? 1 then 1 else n). assert (1 ≤ m) by (unfold m; destruct (Z.ltb_spec n 1); lia).
  pose proof (doubled_spec (Z.to_nat (m - 1)) createBaseBackoff ltac:(done)) as E. assert (1 ≤ 2 ^ Z.of_nat (Z.to_nat (m - 1))) by (apply (Z.pow_le_mono_r 2 0); lia).
  assert (createBaseBackoff ≤ createMaxBackoff) by done. assert (0 < createBaseBackoff) by done.
  destruct (Z.ltb_spec createMaxBackoff (doubled (Z.to_nat (m - 1)) createBaseBackoff)); nia.
Qed.

(** ** Reasons *)

Lemma prefix_app_l a b s : String.prefix a s = true → String.prefix a (s +:+ b) = true.
Proof. revert s. induction a as [|c a IH]; intros [|d s]; [by destruct b|done|done|]. change (String d s +:+ b) with (String d (s +:+ b)). cbn. destruct (Ascii.ascii_dec c d); [apply IH|done]. Qed.

Lemma Contains_app_l s t sub : Contains s sub = true → Contains (s +:+ t) sub = true.
Proof.
  induction s as [|c s IH]; cbn [Contains].
  - rewrite orb_false_r. intros Hp. destruct sub; [by destruct t|done].
  - change (String c s +:+ t) with (String c (s +:+ t)). cbn [Contains]. rewrite !orb_true_iff. intros [Hp|Hc]; [|right; by apply IH].
    left. by apply (prefix_app_l _ t (String c s)).
Qed.

(** A mount that fails is never reported as a missing configmap: the text the
    error is wrapped in already names secrets. *)
Theorem configmap_mount_misreported e :
  classifyCreateError ("failed to resolve secret and config mounts: " +:+ e) ≠ "ConfigmapNotFound".
Proof.
  assert (Hs : Contains ("failed to resolve secret and config mounts: " +:+ e) "resolve secret" = true) by by apply Contains_app_l.
  unfold classifyCreateError. rewrite Hs. by repeat case_match.
Qed.

(** ** One record *)

Section Record.
Context (env : create_env) (ns id : string).
#[local] Abbreviation k := (ns, id).
#[local] Abbreviation io := (prog cworld).

(** The store answers, others leave the record alone, and the runtime's container
    identifiers are not empty. *)
Context (store_answers : ∀ n, ce_store env n = true) (left_alone : ∀ n m, ce_others env n m !! k = m !! k).
Context (named : ∀ n, ce_create env n ≠ Ok "").

Definition is_attempt (c : ccall) : bool := match c with CAttempt _ i => bool_decide (i = id) | _ => false end.
Definition attempts (w : cworld) : Z := countb is_attempt (cw_log w).

(** The containers of the instance are at most the recorded one. *)
Definition tracked (w : cworld) (c : string) : Prop := ∀ x, cw_containers w !! x = Some id → x = c ∧ x ≠ "".
Definition none_left (w : cworld) : Prop := ∀ x, cw_containers w !! x ≠ Some id.

(** Between attempts. *)
Definition settled (w : cworld) : Prop :=
  ∃ r, cw_rows w !! k = Some r ∧ key r = k ∧ tracked w (in_ContainerID r) ∧
    match in_EverCreatedAt r with
    | Some _ => attempts w ≤ maxCreateAttempts
    | None => attempts w = in_Attempts r ∧ 1 ≤ in_Attempts r ∧
        (in_Attempts r < maxCreateAttempts ∧ in_Status r = InstanceStatusFailed ∨ in_Attempts r = maxCreateAttempts ∧ in_Status r = InstanceStatusStalled)
    end.

(** During an attempt: the row, with the counter not yet moved. *)
Definition trying (a : Z) (w : cworld) : Prop :=
  0 ≤ a < maxCreateAttempts ∧ attempts w = a + 1 ∧
  ∃ r, cw_rows w !! k = Some r ∧ key r = k ∧ in_Attempts r = a ∧ in_EverCreatedAt r = None.

(** The row names every container of the instance. *)
Definition named_in_row (w : cworld) : Prop := ∀ r, cw_rows w !! k = Some r → tracked w (in_ContainerID r).

(** The caller's copy. *)
Definition copy (a : Z) (i : Inst) : Prop := key i = k ∧ in_Attempts i = a.

(** What depends on neither the tick nor entries that are no attempts. *)
Definition same (w w' : cworld) : Prop :=
  cw_rows w' !! k = cw_rows w !! k ∧ cw_containers w' = cw_containers w ∧ attempts w' = attempts w.

Lemma same_trying a w w' : same w w' → trying a w → trying a w'.
Proof. intros (E1 & E2 & E3) (Ha & Hn & r & Hr). split; [done|]. split; [congruence|]. exists r. by rewrite E1. Qed.

Lemma same_tracked c w w' : same w w' → tracked w c → tracked w' c.
Proof. intros (_ & E & _) Ht. unfold tracked. by rewrite E. Qed.

Lemma same_named w w' : same w w' → named_in_row w → named_in_row w'.
Proof. intros Hs Hn r Hr. destruct Hs as (E1 & E2 & E3) eqn:E. rewrite E1 in Hr. eapply same_tracked; [exact Hs|by apply Hn]. Qed.

Lemma same_none w w' : same w w' → none_left w → none_left w'.
Proof. intros (_ & E & _) Hn. unfold none_left. by rewrite E. Qed.

Lemma same_settled w w' : same w w' → settled w → settled w'.
Proof. intros (E1 & E2 & E3) (r & Hr). exists r. unfold tracked in *. by rewrite E1, E2, E3. Qed.

Lemma attempts_snoc l c : countb is_attempt (l ++ [c]) = countb is_attempt l + (if is_attempt c then 1 else 0).
Proof. rewrite countb_app. cbn. by rewrite Z.add_0_r. Qed.

Definition calls_same {A} (m : io A) : Prop := ∀ w, same w (m w).1 ∧ is_Some (m w).2.

Lemma tick_same : calls_same tick.
Proof. intros w. by split; [|eexists]. Qed.

Lemma ask_same {A} (f : create_env → nat → A) : calls_same (ask env f).
Proof. intros w. by split; [|eexists]. Qed.

Lemma attempts_log c w : attempts (log c w).1 = attempts w + (if is_attempt (c (cw_tick w)) then 1 else 0).
Proof. apply (attempts_snoc (cw_log w) (c (cw_tick w))). Qed.

Lemma log_same c : (∀ n, is_attempt (c n) = false) → calls_same (log c).
Proof. intros Hc w. split; [|by eexists]. split; [done|]. split; [done|]. by rewrite attempts_log, Hc, Z.add_0_r. Qed.

Lemma logRow_same k' c : (∀ n s, is_attempt (c n s) = false) → calls_same (logRow k' c).
Proof. intros Hc w. by apply (log_same (λ n, c n (in_Status <$> cw_rows w !! k'))). Qed.

(** Assertions that survive such calls. *)
Class Stable (P : cworld → Prop) : Prop := stable w w' : same w w' → P w → P w'.
#[local] Instance trying_stable a : Stable (trying a).
Proof. intros w w'. apply same_trying. Qed.
#[local] Instance settled_stable : Stable settled.
Proof. intros w w'. apply same_settled. Qed.
#[local] Instance named_stable : Stable named_in_row.
Proof. intros w w'. apply same_named. Qed.
#[local] Instance tracked_stable c : Stable (λ w, tracked w c).
Proof. intros w w'. apply same_tracked. Qed.
#[local] Instance none_stable : Stable none_left.
Proof. intros w w'. apply same_none. Qed.
#[local] Instance and_stable P Q : Stable P → Stable Q → Stable (λ w, P w ∧ Q w).
Proof. intros HP HQ w w' Hs [Hp Hq]. split; [by eapply HP|by eapply HQ]. Qed.

Lemma post_same {A B} (P : cworld → Prop) `{!Stable P} (m : io A) (f : A → io B) Q X :
  calls_same m → (∀ a, post P (f a) Q X) → post P (m ≫= f) Q X.
Proof.
  intros Hm Hf w Hw. destruct (Hm w) as [Hs [a Ha]]. unfold mbind, prog_bind. destruct (m w) as [w' r]. cbn in *. subst r. apply Hf. by eapply stable.
Qed.

Lemma post_ask {A B} (P : cworld → Prop) `{!Stable P} (f : create_env → nat → A) (m : A → io B) Q X :
  (∀ n, post P (m (f env n)) Q X) → post P (ask env f ≫= m) Q X.
Proof. intros Hm w Hw. apply Hm. by eapply stable; [|exact Hw]. Qed.

(** ** Store calls *)

Lemma access_ok w : same w (access env w).1 ∧ (access env w).2 = Some true.
Proof. unfold access, tick, setRows, mbind, prog_bind. cbn. rewrite store_answers. split; [|done]. split; [apply left_alone|done]. Qed.

Lemma update_row (f : Inst → option Inst) w r :
  cw_rows w !! k = Some r →
  ∃ w', storeUpdateFunc env k f w = (w', Some (f r)) ∧ cw_containers w' = cw_containers w ∧ attempts w' = attempts w ∧
    cw_rows w' !! k = Some (default r (f r)).
Proof.
  intros Hr. unfold storeUpdateFunc. unfold mbind at 1, prog_bind at 1. destruct (access_ok w) as [(E1 & E2 & E3) Ea]. destruct (access env w) as [w1 o]. cbn in *. subst o.
  unfold mbind, prog_bind, guardp, gets, from_option, mret, prog_ret. cbn. rewrite E1, Hr. destruct (f r) as [j|]; cbn.
  - eexists. split; [reflexivity|]. cbn. rewrite lookup_insert_eq. done.
  - exists w1. rewrite E1. done.
Qed.

Lemma write_row i w r :
  key i = k → cw_rows w !! k = Some r →
  ∃ w', storeUpdate env i w = (w', Some tt) ∧ cw_containers w' = cw_containers w ∧ attempts w' = attempts w ∧ cw_rows w' !! k = Some i.
Proof.
  intros Hk Hr. unfold storeUpdate. unfold mbind at 1, prog_bind at 1. destruct (access_ok w) as [(E1 & E2 & E3) Ea]. destruct (access env w) as [w1 o]. cbn in *. subst o.
  unfold mbind, prog_bind, guardp, gets, mret, prog_ret. cbn. rewrite Hk, bool_decide_true by (rewrite E1; by eexists). cbn. eexists. split; [reflexivity|]. cbn. by rewrite lookup_insert_eq.
Qed.

Lemma create_row i w :
  key i = k → cw_rows w !! k = None →
  ∃ w', storeCreate env i w = (w', Some tt) ∧ cw_containers w' = cw_containers w ∧ attempts w' = attempts w ∧ cw_rows w' !! k = Some i.
Proof.
  intros Hk Hr. unfold storeCreate. unfold mbind at 1, prog_bind at 1. destruct (access_ok w) as [(E1 & E2 & E3) Ea]. destruct (access env w) as [w1 o]. cbn in *. subst o.
  unfold mbind, prog_bind, guardp, gets, mret, prog_ret. cbn. rewrite Hk, bool_decide_false by (rewrite E1, Hr; by intros []). cbn. eexists. split; [reflexivity|]. cbn. by rewrite lookup_insert_eq.
Qed.

(** ** The attempt *)

Lemma failedAttempt_settles now reason message r :
  in_EverCreatedAt r = None → 0 ≤ in_Attempts r < maxCreateAttempts →
  let j := failedAttempt now reason message r in
  key j = key r ∧ in_ContainerID j = in_ContainerID r ∧ in_EverCreatedAt j = None ∧ in_Attempts j = in_Attempts r + 1 ∧
  (in_Attempts j < maxCreateAttempts ∧ in_Status j = InstanceStatusFailed ∨ in_Attempts j = maxCreateAttempts ∧ in_Status j = InstanceStatusStalled).
Proof.
  intros He Ha. unfold failedAttempt. cbn [in_Attempts with_failure]. destruct (Z.leb_spec maxCreateAttempts (in_Attempts r + 1)); cbn; (split_and!; try done); [right|left]; (split; [lia|done]).
Qed.

Lemma record_settles a i message reason :
  copy a i → post (λ w, trying a w ∧ named_in_row w) (recordCreateFailure env i message reason) (λ _, settled) settled.
Proof.
  intros [Hk _]. unfold recordCreateFailure. apply post_same; [apply _|apply ask_same|]. intros now w [(Ha & Hn & r & Hr & Hkr & Hra & He) Ht].
  unfold mbind, prog_bind, try. rewrite Hk. destruct (update_row (λ fresh, Some (failedAttempt now reason message fresh)) w r Hr) as (w' & -> & Ec & En & Erow).
  cbn. destruct (failedAttempt_settles now reason message r He ltac:(lia)) as (K1 & K2 & K3 & K4 & K5). exists (failedAttempt now reason message r).
  split; [done|]. split; [congruence|]. split; [unfold tracked; rewrite Ec, K2; by apply Ht|]. rewrite K3. split; [lia|]. split; [lia|done].
Qed.

Lemma fail_settles a i message : copy a i → post (λ w, trying a w ∧ named_in_row w) (failAttempt env i message) (λ _, settled) settled.
Proof. intros Hc. unfold failAttempt. eapply post_bind; [by apply (record_settles a)|]. intros j. by apply post_ret. Qed.

(** A post-condition after a write that always succeeds. *)
Lemma post_try_write {B} (P P' : cworld → Prop) j (f : option unit → io B) Q X :
  key j = k → (∀ w, P w → is_Some (cw_rows w !! k)) →
  (∀ w w', P w → cw_containers w' = cw_containers w → attempts w' = attempts w → cw_rows w' !! k = Some j → P' w') →
  post P' (f (Some tt)) Q X → post P (try (storeUpdate env j) ≫= f) Q X.
Proof.
  intros Hk Hrow Hstep Hf w Hw. destruct (Hrow w Hw) as [r Hr]. destruct (write_row j w r Hk Hr) as (w' & E & Ec & En & Er).
  unfold mbind, prog_bind, try. rewrite E. apply Hf. by eapply Hstep.
Qed.

Lemma trying_row a w : trying a w → is_Some (cw_rows w !! k).
Proof. intros (_ & _ & r & Hr & _). by exists r. Qed.

Lemma finish_settles a svc i :
  key i = k → is_Some (in_EverCreatedAt i) → post (λ w, trying a w ∧ tracked w (in_ContainerID i)) (finishCreate env svc i) (λ _, settled) settled.
Proof.
  intros Hk Hev. unfold finishCreate. apply post_same; [apply _|apply ask_same|]. intros now.
  set (j := with_attempts 0 None _).
  assert (Hj : key j = k ∧ in_ContainerID j = in_ContainerID i ∧ is_Some (in_EverCreatedAt j)) by (unfold j; by destruct (sp_Readiness svc)).
  destruct Hj as (Hkj & Hcj & Hej). apply (post_try_write _ settled); [done|intros w [Hw _]; by eapply trying_row| |].
  - intros w w' [(Ha & Hn & _) Ht] Ec En Er. exists j. split; [done|]. split; [done|]. split; [unfold tracked; by rewrite Ec, Hcj|].
    destruct Hej as [t ->]. unfold maxCreateAttempts in *. lia.
  - apply post_same; [apply _|by apply logRow_same|]. intros []. by apply post_ret.
Qed.

Lemma persist_tracks a c i :
  key i = k → in_ContainerID i = c → c ≠ "" →
  post (λ w, trying a w ∧ tracked w c) (persistContainerID env i) (λ _ w, (trying a w ∧ named_in_row w) ∧ tracked w c) (λ _, False).
Proof.
  intros Hk Hc Hne w [(Ha & Hn & r & Hr & Hkr & Hra & He) Ht]. unfold persistContainerID. rewrite bool_decide_false by congruence.
  unfold mbind, prog_bind, try. rewrite Hk. destruct (update_row (λ fresh, Some (with_container (in_ContainerID i) fresh)) w r Hr) as (w' & -> & Ec & En & Er).
  cbn in *. assert (Ht' : tracked w' c) by (unfold tracked; by rewrite Ec). split; [split|done].
  - split; [done|]. split; [lia|]. by exists (with_container (in_ContainerID i) r).
  - intros q Hq. rewrite Er in Hq. injection Hq as <-. cbn. by rewrite Hc.
Qed.

Lemma launch_settles a svc i : key i = k → in_Attempts i = a → post (λ w, trying a w ∧ none_left w) (launch env svc i) (λ _, settled) settled.
Proof.
  intros Hk Hi. assert (Hid : in_ID i = id) by by injection Hk. unfold launch. apply post_same; [apply _|apply tick_same|]. intros n.
  destruct (ce_create env n) as [c|e] eqn:Ec.
  - assert (Hcne : c ≠ "") by (intros ->; by apply (named n)).
    apply (post_bind _ _ _ _ (λ _ w, trying a w ∧ tracked w c)).
    { intros w [Hw Hnone]. split; [exact Hw|]. intros x. cbn. rewrite lookup_insert_Some. intros [[<- _]|[_ Hx]]; [done|]. by apply Hnone in Hx. }
    intros []. apply post_same; [apply _|by apply log_same|]. intros []. apply post_same; [apply _|apply ask_same|]. intros now.
    set (j := with_ever now (with_container c i)). assert (Hkj : key j = k) by done. assert (Hcj : in_ContainerID j = c) by done.
    assert (Hej : is_Some (in_EverCreatedAt j)) by (unfold j; cbn; by destruct (in_EverCreatedAt i); eexists).
    eapply post_bind; [eapply post_weaken; [by apply (persist_tracks a c j)|done|done|done]|]. intros [].
    apply post_same; [apply _|apply ask_same|]. intros started. apply post_same; [apply _|by apply log_same|]. intros []. destruct started as [e|].
    + eapply post_weaken; [apply (fail_settles a j); split; [done|exact Hi]|by intros w [? _]|done|done].
    + eapply post_weaken; [by apply (finish_settles a svc j)|intros w [[? _] ?]; by rewrite Hcj|done|done].
  - apply post_same; [apply _|by apply log_same|]. intros []. eapply post_weaken; [by apply (fail_settles a i)| |done|done].
    intros w [Hw Hnone]. split; [done|]. intros r _ x Hx. by apply Hnone in Hx.
Qed.

Lemma run_settles a svc i : copy a i → in_EverCreatedAt i = None → post (λ w, trying a w ∧ none_left w) (runCreateAttempt env svc i) (λ _, settled) settled.
Proof.
  intros Hc He. assert (Hfail : ∀ m, post (λ w, trying a w ∧ none_left w) (failAttempt env i m) (λ _, settled) settled).
  { intros m. eapply post_weaken; [by apply (fail_settles a i)| |done|done]. intros w [Hw Hnone]. split; [done|]. intros r _ x Hx. by apply Hnone in Hx. }
  unfold runCreateAttempt. do 4 (apply post_same; [apply _|apply ask_same|]; intros [e|]; [apply Hfail|]).
  destruct Hc as [Hk Hi]. set (j := with_status _ _ _). apply (post_try_write _ (λ w, trying a w ∧ none_left w)); [exact Hk|intros w [Hw _]; by eapply trying_row| |].
  - intros w w' [(Ha & Hn & r & Hr & Hkr & Hra & Her) Hnone] Ec En Er. split; [|unfold none_left; by rewrite Ec].
    split; [done|]. split; [lia|]. exists j. split_and!; done.
  - by apply launch_settles.
Qed.

(** ** Passes of the reconciler *)

Lemma log_attempt a w :
  0 ≤ a < maxCreateAttempts → attempts w = a → (∃ r, cw_rows w !! k = Some r ∧ key r = k ∧ in_Attempts r = a ∧ in_EverCreatedAt r = None) →
  trying a (log (λ n, CAttempt n id) w).1.
Proof.
  intros Ha Hn Hr. split; [done|]. split; [|exact Hr]. rewrite attempts_log. cbn. rewrite bool_decide_true by done. lia.
Qed.

Lemma remove_none i w :
  in_ID i = id → tracked w (in_ContainerID i) →
  match removeFailedAttemptContainer env i w with
  | (w', Some (Ok j)) => j = with_container "" i ∧ none_left w' ∧ cw_rows w' !! k = cw_rows w !! k ∧ attempts w' = attempts w
  | (w', Some (Err _)) => same w w'
  | (_, None) => False
  end.
Proof.
  intros Hid Ht. unfold removeFailedAttemptContainer, ask, tick, mbind, prog_bind, mret, prog_ret. cbn. destruct (ce_runner env (cw_tick w)); [done|]. cbn.
  case_bool_decide; [done|]. unfold removeContainer, tick, gets, mbind, prog_bind, mret, prog_ret. cbn.
  destruct (cw_containers w !! in_ContainerID i) as [o|] eqn:E; [destruct (ce_remove env _) as [e|]|]; cbn.
  - split; [done|]. split; [done|]. unfold attempts. cbn. rewrite attempts_snoc. cbn. lia.
  - split; [done|]. split; [|split; [done|]].
    + intros x. cbn. rewrite lookup_delete_Some. intros [Hne Hx]. by apply Ht in Hx as [-> _].
    + unfold attempts. cbn. rewrite attempts_snoc. cbn. lia.
  - split; [done|]. split; [|split; [done|]].
    + intros x. cbn. rewrite lookup_delete_Some. intros [Hne Hx]. by apply Ht in Hx as [-> _].
    + unfold attempts. cbn. rewrite attempts_snoc. cbn. lia.
Qed.

(** Between attempts the row can be retried. *)
Lemma retried_settles svc i :
  in_EverCreatedAt i = None → in_Attempts i < maxCreateAttempts →
  post (λ w, settled w ∧ cw_rows w !! k = Some i) (RetryCreateInstance env svc i) (λ _, settled) settled.
Proof.
  intros He Hlt w [(r & Hr & Hkr & Ht & Hst) Hi]. rewrite Hi in Hr. injection Hr as <-. rewrite He in Hst. destruct Hst as (Hn & Hpos & _).
  assert (Hid : in_ID i = id) by by injection Hkr. set (a := in_Attempts i). unfold RetryCreateInstance. unfold mbind at 1, prog_bind at 1.
  destruct (ask_same ce_now w) as [Hs [now Hnow]]. destruct (ask env ce_now w) as [w1 o]. cbn in Hs, Hnow. subst o. destruct Hs as (E1 & E2 & E3).
  set (j := with_attempts _ None _). assert (Hkj : key j = k) by done. unfold mbind at 1, prog_bind at 1.
  destruct (write_row j w1 i Hkj ltac:(congruence)) as (w2 & E & Ec & En & Er). rewrite E. unfold mbind at 1, prog_bind at 1.
  assert (Htry : trying a (log (λ n, CAttempt n (in_ID j)) w2).1) by (change (in_ID j) with (in_ID i); rewrite Hid; apply log_attempt; [unfold a; lia|unfold a; lia|by exists j]).
  assert (Ht2 : tracked (log (λ n, CAttempt n (in_ID j)) w2).1 (in_ContainerID j)) by (intros x Hx; change (cw_containers w2 !! x = Some id) in Hx; rewrite Ec, E2 in Hx; by apply Ht).
  assert (Hrow : cw_rows (log (λ n, CAttempt n (in_ID j)) w2).1 !! k = Some j) by exact Er.
  destruct (log _ w2) as [w3 o] eqn:El. assert (o = Some tt) as -> by (injection El; congruence). cbn [fst] in *. case_bool_decide as Hc.
  - apply (run_settles a svc j); [done|done|]. split; [done|]. intros x Hx. apply Ht2 in Hx as [-> Hx]. by rewrite Hc in Hx.
  - pose proof (remove_none j w3 Hid Ht2) as Hrm. unfold mbind at 1, prog_bind at 1.
    destruct (removeFailedAttemptContainer env j w3) as [w4 [[q|[reason message]]|]]; [| |done].
    + destruct Hrm as (-> & Hnone & Erow & Eatt). apply (run_settles a svc (with_container "" j)); [done|done|]. split; [|done].
      destruct Htry as (Ha & Hnn & q & Hq). split; [done|]. split; [lia|]. exists q. by rewrite Erow.
    + assert (Hpre : trying a w4 ∧ named_in_row w4).
      { split; [by eapply same_trying|]. eapply same_named; [done|]. intros q Hq. rewrite Hrow in Hq. by injection Hq as <-. }
      pose proof (record_settles a j message reason ltac:(done) w4 Hpre) as Hset. unfold mbind, prog_bind.
      destruct (recordCreateFailure env j message reason w4) as [w5 [x|]]; exact Hset.
Qed.

Lemma get_row w r : cw_rows w !! k = Some r → same w (storeGet env k w).1 ∧ (storeGet env k w).2 = Some r.
Proof.
  intros Hr. destruct (access_ok w) as [Hs Ea]. unfold storeGet, mbind, prog_bind. destruct (access env w) as [w1 o]. cbn in *. subst o. destruct Hs as (E1 & E2).
  cbn. unfold from_option, gets. by rewrite E1, Hr.
Qed.

(** The reconciler's turn on the record: it reads it and retries it when due. *)
Definition pass (svc : Spec) : io unit := try (r ← storeGet env k; reconcileStuck env svc r);; mret tt.

Lemma pass_settles svc : keeps settled (pass svc).
Proof.
  unfold pass. apply (post_bind _ _ _ _ (λ _, settled)); [apply post_try|intros ?; by apply post_ret]. intros w Hw. pose proof Hw as (r & Hr & Hkr & Ht & Hst).
  destruct (get_row w r Hr) as [Hs Eg]. unfold mbind, prog_bind. destruct (storeGet env k w) as [w1 o]. cbn in *. subst o.
  assert (Hw1 : settled w1) by by eapply same_settled. assert (Hr1 : cw_rows w1 !! k = Some r) by (destruct Hs as [-> _]; done).
  unfold reconcileStuck. destruct (stuck r) eqn:Est; [|done]. cbn [negb]. case_bool_decide as Hf; [|done]. cbn [negb].
  apply andb_true_iff in Est as [He _]. apply bool_decide_eq_true_1 in He.
  assert (Hlt : in_Attempts r < maxCreateAttempts) by (rewrite He in Hst; destruct Hst as (_ & _ & [[]|[_ Hs']]); [done|congruence]).
  match goal with |- let (_, _) := ?m w1 in _ => enough (Hp : post (λ w, settled w ∧ cw_rows w !! k = Some r) m (λ _, settled) settled) by exact (Hp w1 (conj Hw1 Hr1)) end.
  apply post_same; [|apply ask_same|].
  { intros a b (E1 & E2 & E3) [Ha Hb]. split; [by eapply same_settled|congruence]. }
  intros now. destruct (due now r); [|by apply post_ret; intros ? []].
  apply (post_bind _ _ _ _ (λ _, settled)); [apply post_try; by apply retried_settles|]. intros ?. by apply post_ret.
Qed.

(** A record not yet created. *)
Definition unborn (w : cworld) : Prop := cw_rows w !! k = None ∧ none_left w ∧ attempts w = 0 ∧ ce_uuid env (cw_tick w) = id.

Lemma create_settles svc name ordinal :
  sp_Namespace svc = ns → post unborn (CreateInstance env svc name ordinal) (λ _, settled) settled.
Proof.
  intros Hns w (Hrow & Hnone & Hn & Hid). unfold CreateInstance. unfold mbind at 1, prog_bind at 1. unfold ask, tick, mbind at 1, prog_bind at 1, mret, prog_ret. cbn. rewrite Hid.
  set (w0 := mkCworld _ _ _ _). set (i := newInst svc id name ordinal). assert (Hk : key i = k) by (unfold key; cbn; by rewrite Hns).
  destruct (create_row i w0 Hk Hrow) as (w2 & E & E2 & E3 & Hrow2). unfold mbind at 1, prog_bind at 1. rewrite E. unfold mbind at 1, prog_bind at 1.
  assert (Htry : trying 0 (log (λ n, CAttempt n id) w2).1) by (apply log_attempt; [done|by rewrite E3|by exists i]).
  assert (Hnone2 : none_left (log (λ n, CAttempt n id) w2).1) by (intros x Hx; change (cw_containers w2 !! x = Some id) in Hx; rewrite E2 in Hx; by apply Hnone in Hx).
  destruct (log _ w2) as [w3 o] eqn:El. assert (o = Some tt) as -> by (injection El; congruence). cbn [fst] in *.
  exact (run_settles 0 svc i ltac:(done) eq_refl w3 (conj Htry Hnone2)).
Qed.

(** A run: the record is created, then the reconciler passes any number of times. *)
Definition run (svc : Spec) (name : string) (ordinal : Z) (later : list Spec) : io unit :=
  try (CreateInstance env svc name ordinal);; each pass later.

Lemma run_keeps svc name ordinal later w : sp_Namespace svc = ns → unborn w → settled (run svc name ordinal later w).1.
Proof.
  intros Hns Hw. assert (Hp : post unborn (run svc name ordinal later) (λ _, settled) settled).
  { apply (post_bind _ _ _ _ (λ _, settled)); [apply post_try; by apply create_settles|]. intros _. apply (keeps_each settled). intros x _. apply pass_settles. }
  specialize (Hp w Hw). by destruct (run svc name ordinal later w) as [w' [x|]].
Qed.

(** ** An early pass, and a pass that succeeds *)

Lemma get_tick w r : cw_rows w !! k = Some r → cw_tick (storeGet env k w).1 = S (cw_tick w) ∧ cw_log (storeGet env k w).1 = cw_log w.
Proof. intros Hr. unfold storeGet, access, setRows, modify, tick, mbind, prog_bind. cbn. rewrite store_answers. unfold gets, from_option. cbn. by rewrite left_alone, Hr. Qed.

Lemma early_same svc w r t :
  cw_rows w !! k = Some r → in_NextAttemptAt r = Some t → ce_now env (S (cw_tick w)) < t → same w (pass svc w).1 ∧ cw_log (pass svc w).1 = cw_log w.
Proof.
  intros Hr Ht Hlt. destruct (get_row w r Hr) as [(E1 & E2 & E3) Eg]. pose proof (get_tick w r Hr) as [Et El].
  unfold pass, try. unfold mbind, prog_bind. destruct (storeGet env k w) as [w1 o]. cbn in *. subst o.
  unfold reconcileStuck. destruct (stuck r); [|by cbn]. cbn [negb]. case_bool_decide as Hf; [|by cbn]. unfold ask, tick, mbind, prog_bind. cbn.
  rewrite Et. unfold due. rewrite Hf, Ht. cbn. assert (Before (ce_now env (S (cw_tick w))) t = true) as -> by (unfold Before; lia). by cbn.
Qed.

(** Nothing goes wrong: the preparations succeed, the runtime creates, starts and
    removes, and the container of a failed attempt is not running. *)
Definition healthy : Prop :=
  ∀ n, ce_runner env n = None ∧ ce_envVars env n = None ∧ ce_mounts env n = None ∧ ce_init env n = None ∧
    (∃ c, ce_create env n = Ok c) ∧ ce_start env n = None ∧ ce_remove env n = None ∧ (∀ c, ce_status env n ≠ Some (InstanceStatusRunning, c)).

Definition up (svc : Spec) (w : cworld) : Prop :=
  ∃ r, cw_rows w !! k = Some r ∧ is_Some (in_EverCreatedAt r) ∧ in_Attempts r = 0 ∧ in_NextAttemptAt r = None ∧
    in_Status r = (if sp_Readiness svc then InstanceStatusStarting else InstanceStatusRunning) ∧ cw_containers w !! in_ContainerID r = Some id.

Definition present (w : cworld) : Prop := is_Some (cw_rows w !! k).
Definition holding (c : string) (w : cworld) : Prop := is_Some (cw_rows w !! k) ∧ cw_containers w !! c = Some id.

#[local] Instance up_stable svc : Stable (up svc).
Proof. intros w w' (E1 & E2 & E3) (r & Hr). exists r. by rewrite E1, E2. Qed.
#[local] Instance present_stable : Stable present.
Proof. intros w w' (E1 & E2 & E3). unfold present. by rewrite E1. Qed.
#[local] Instance holding_stable c : Stable (holding c).
Proof. intros w w' (E1 & E2 & E3). unfold holding. by rewrite E1, E2. Qed.

Lemma finish_up svc i :
  key i = k → is_Some (in_EverCreatedAt i) → post (holding (in_ContainerID i)) (finishCreate env svc i) (λ r w, r.2 = true ∧ up svc w) (λ _, False).
Proof.
  intros Hk Hev. unfold finishCreate. apply post_same; [apply _|apply ask_same|]. intros now. set (j := with_attempts 0 None _).
  assert (Hj : key j = k ∧ in_ContainerID j = in_ContainerID i ∧ is_Some (in_EverCreatedAt j) ∧
    in_Status j = (if sp_Readiness svc then InstanceStatusStarting else InstanceStatusRunning)) by (unfold j; by destruct (sp_Readiness svc)).
  destruct Hj as (Hkj & Hcj & Hej & Hsj). apply (post_try_write _ (up svc)); [done|by intros w []| |].
  - intros w w' [_ Hc] Ec En Er. exists j. split_and!; [done|done|by unfold j|by unfold j|done|]. by rewrite Ec, Hcj.
  - apply post_same; [apply _|by apply logRow_same|]. intros []. by apply post_ret.
Qed.

Lemma persist_holds c i : key i = k → post (holding c) (persistContainerID env i) (λ _, holding c) (λ _, False).
Proof.
  intros Hk. unfold persistContainerID. case_bool_decide; [by apply post_ret|]. intros w [[r Hr] Hc]. unfold mbind, prog_bind, try. rewrite Hk.
  destruct (update_row (λ fresh, Some (with_container (in_ContainerID i) fresh)) w r Hr) as (w' & -> & Ec & _ & Er). cbn. split; [by rewrite Er|by rewrite Ec].
Qed.

Lemma launch_up svc i : healthy → key i = k → post present (launch env svc i) (λ r w, r.2 = true ∧ up svc w) (λ _, False).
Proof.
  intros Hh Hk. assert (Hid : in_ID i = id) by by injection Hk. unfold launch. apply post_same; [apply _|apply tick_same|]. intros n.
  destruct (Hh n) as (_ & _ & _ & _ & [c ->] & _). apply (post_bind _ _ _ _ (λ _, holding c)).
  { intros w Hw. split; [exact Hw|]. cbn. by rewrite Hid, lookup_insert_eq. }
  intros []. apply post_same; [apply _|by apply log_same|]. intros []. apply post_same; [apply _|apply ask_same|]. intros now.
  set (j := with_ever now (with_container c i)). apply (post_bind _ _ _ _ (λ _, holding c)); [by apply persist_holds|]. intros [].
  apply post_ask; [apply _|]. intros m. destruct (Hh m) as (_ & _ & _ & _ & _ & -> & _).
  apply post_same; [apply _|by apply log_same|]. intros []. apply (finish_up svc j); [done|]. cbn. by destruct (in_EverCreatedAt i); eexists.
Qed.

Lemma run_up svc i : healthy → key i = k → post present (runCreateAttempt env svc i) (λ r w, r.2 = true ∧ up svc w) (λ _, False).
Proof.
  intros Hh Hk. unfold runCreateAttempt.
  apply post_ask; [apply _|]. intros n. destruct (Hh n) as (-> & _). apply post_ask; [apply _|]. intros n1. destruct (Hh n1) as (_ & -> & _).
  apply post_ask; [apply _|]. intros n2. destruct (Hh n2) as (_ & _ & -> & _). apply post_ask; [apply _|]. intros n3. destruct (Hh n3) as (_ & _ & _ & -> & _).
  apply (post_try_write _ present); [exact Hk|done| |by apply launch_up]. intros w w' _ _ _ Er. unfold present. by rewrite Er.
Qed.

Lemma remove_ok i : healthy → post present (removeFailedAttemptContainer env i) (λ r w, r = Ok (with_container "" i) ∧ present w) (λ _, False).
Proof.
  intros Hh. unfold removeFailedAttemptContainer. apply post_ask; [apply _|]. intros n. destruct (Hh n) as (-> & _).
  apply post_ask; [apply _|]. intros n1. destruct (Hh n1) as (_ & _ & _ & _ & _ & _ & _ & Hst). rewrite bool_decide_false by apply Hst.
  apply (post_bind _ _ _ _ (λ r w, r = None ∧ present w)); [|intros r; apply post_ret; by intros w [-> Hw]].
  unfold removeContainer. apply post_same; [apply _|apply tick_same|]. intros m. destruct (Hh m) as (_ & _ & _ & _ & _ & _ & -> & _).
  intros w Hw. unfold mbind at 1, prog_bind at 1, gets. by destruct (cw_containers w !! in_ContainerID i).
Qed.

Lemma retry_up svc i : healthy → key i = k → post present (RetryCreateInstance env svc i) (λ r w, r.2 = true ∧ up svc w) (λ _, False).
Proof.
  intros Hh Hk. unfold RetryCreateInstance. apply post_same; [apply _|apply ask_same|]. intros now. set (j := with_attempts _ _ _). assert (Hkj : key j = k) by exact Hk.
  apply (post_bind _ _ _ _ (λ _, present)). { intros w [r Hr]. destruct (write_row j w r Hkj Hr) as (w' & -> & _ & _ & Er). by exists j. }
  intros []. apply (post_bind _ _ _ _ (λ _, present)); [by intros w Hw|]. intros []. case_bool_decide; [by apply run_up|].
  eapply post_bind; [by apply remove_ok|]. intros q w [-> Hw]. by apply (run_up svc (with_container "" j)).
Qed.

Lemma pass_up svc w r :
  healthy → cw_rows w !! k = Some r → key r = k → stuck r = true → due (ce_now env (S (cw_tick w))) r = true → up svc (pass svc w).1.
Proof.
  intros Hh Hr Hk Hst Hdue. destruct (get_row w r Hr) as [(E1 & E2 & E3) Eg]. pose proof (get_tick w r Hr) as [Et El].
  unfold pass, try. unfold mbind, prog_bind. destruct (storeGet env k w) as [w1 o]. cbn in *. subst o. unfold reconcileStuck. rewrite Hst. cbn [negb].
  assert (Hf : bool_decide (in_Status r = InstanceStatusFailed) = true) by by apply andb_true_iff in Hdue as [-> _]. rewrite Hf. unfold ask, tick, mbind, prog_bind. cbn. rewrite Et, Hdue.
  unfold try. set (w2 := mkCworld _ _ _ _). assert (Hp : present w2) by (unfold present; cbn; by rewrite E1, Hr).
  pose proof (retry_up svc r Hh Hk w2 Hp) as Hup. by destruct (RetryCreateInstance env svc r w2) as [w3 [x|]]; [destruct Hup|].
Qed.
End Record.

(** ** The record over its life *)

(** The store answers, no other writer touches the record, and the runtime never
    hands out an empty container identifier. *)
Record quiet (env : create_env) (ns id : string) : Prop := mkQuiet {
  q_store n : ce_store env n = true;
  q_alone n m : ce_others env n m !! (ns, id) = m !! (ns, id);
  q_named n : ce_create env n ≠ Ok "";
}.

(** C38: With a store that always answers and no other writer on the record
    ([quiet]), whatever else fails (pulls, containers, probes, init steps), from a
    record not yet created ([unborn]) and however often the reconciler passes, at
    most six attempts are made; after a pass a record whose create never
    succeeded is Stalled exactly when the attempts are used up and Failed
    before. *)
Theorem create_attempts_bounded env ns id svc name ordinal later w :
  quiet env ns id → sp_Namespace svc = ns → unborn env ns id w →
  let w' := (run env ns id svc name ordinal later w).1 in
  attempts id w' ≤ maxCreateAttempts ∧
  ∃ r, cw_rows w' !! (ns, id) = Some r ∧
    (in_EverCreatedAt r = None → in_Status r = if attempts id w' =? maxCreateAttempts then InstanceStatusStalled else InstanceStatusFailed).
Proof.
  intros [Hs Ha Hn] Hns Hw w'. destruct (run_keeps env ns id Hs Ha Hn svc name ordinal later w Hns Hw) as (r & Hr & _ & _ & Hst). fold w' in Hr, Hst.
  split; [|exists r; split; [done|]]; destruct (in_EverCreatedAt r); [done| |done|intros _].
  - destruct Hst as (-> & _ & [[Hlt _]|[-> _]]); [apply Z.lt_le_incl, Hlt|done].
  - destruct Hst as (-> & _ & [[Hlt ->]|[-> ->]]); [|done]. by rewrite (proj2 (Z.eqb_neq _ _)) by lia.
Qed.

(** At every point between passes the only container of the instance is the one
    its record names: no attempt leaves a container behind. *)
Theorem no_container_left_behind env ns id svc name ordinal later w c :
  quiet env ns id → sp_Namespace svc = ns → unborn env ns id w →
  let w' := (run env ns id svc name ordinal later w).1 in
  cw_containers w' !! c = Some id → ∃ r, cw_rows w' !! (ns, id) = Some r ∧ in_ContainerID r = c.
Proof.
  intros [Hs Ha Hn] Hns Hw w' Hc. destruct (run_keeps env ns id Hs Ha Hn svc name ordinal later w Hns Hw) as (r & Hr & _ & Ht & _).
  exists r. split; [done|]. by destruct (Ht c Hc) as [-> _].
Qed.

(** Before its next attempt is due the record is left alone. *)
Theorem backoff_respected env ns id svc w r t :
  quiet env ns id → cw_rows w !! (ns, id) = Some r → in_NextAttemptAt r = Some t → ce_now env (S (cw_tick w)) < t →
  let w' := (pass env ns id svc w).1 in
  cw_rows w' !! (ns, id) = Some r ∧ cw_containers w' = cw_containers w ∧ cw_log w' = cw_log w.
Proof.
  intros [Hs Ha Hn] Hr Ht Hlt w'. destruct (early_same env ns id Hs Ha svc w r t Hr Ht Hlt) as [(E1 & E2 & _) El]. split; [|done]. unfold w'. by rewrite E1.
Qed.

(** Once nothing is in the way any more, the first pass that is due brings the
    record up: counters cleared, the container present, waiting for the readiness
    probe when there is one. *)
Theorem due_pass_recovers env ns id svc w r :
  quiet env ns id → healthy env → cw_rows w !! (ns, id) = Some r → key r = (ns, id) → stuck r = true →
  due (ce_now env (S (cw_tick w))) r = true → up ns id svc (pass env ns id svc w).1.
Proof. intros [Hs Ha Hn] Hh. by apply pass_up. Qed.

(** A failure puts the next attempt at the backoff of the count it reached. *)
Theorem failure_schedules now reason message i :
  in_Attempts i + 1 < maxCreateAttempts →
  in_NextAttemptAt (failedAttempt now reason message i) = Some (now + createBackoffFor (in_Attempts i + 1)) ∧
  due now (failedAttempt now reason message i) = false.
Proof.
  intros Hlt. unfold failedAttempt. cbn [in_Attempts with_failure]. rewrite (proj2 (Z.leb_gt _ _)) by lia. split; [done|].
  unfold due. cbn. pose proof (createBackoff_pos (in_Attempts i + 1)). unfold createBaseBackoff in *. assert (0 < Second) by done.
  unfold Before. rewrite (proj2 (Z.ltb_lt _ _)) by lia. done.
Qed.

(** ** Concrete runs *)

(** Calls are ten minutes apart; the parameters say which store calls, creates and
    starts fail. *)
Definition sample_env (store : nat → bool) (start : nat → option string) : create_env :=
  mkCreateEnv (λ n, Z.of_nat n * (600 * Second)) store (λ _ m, m) (λ _, None) (λ _, None) (λ _, None) (λ _, None)
    (λ n, Ok ("c" +:+ String (Ascii.ascii_of_nat (n + 64)) "")) start (λ _, None) (λ _, None) (λ _, "u") (λ _, Some (mkSpec "prod" "web" 1 false "Always" false)).
Definition sample_spec : Spec := mkSpec "prod" "web" 1 false "Always" false.
Definition empty_world : cworld := mkCworld ∅ ∅ 0 [].

Lemma sample_quiet start ns id : quiet (sample_env (λ _, true) start) ns id.
Proof. by constructor. Qed.

Lemma sample_unborn store start : unborn (sample_env store start) "prod" "u" empty_world.
Proof. repeat split; try done. Qed.

Lemma create_attempts_bounded_witness :
  let w' := (run (sample_env (λ _, true) (λ _, Some "refused")) "prod" "u" sample_spec "web-0" 0 (replicate 9 sample_spec) empty_world).1 in
  attempts "u" w' ≤ maxCreateAttempts ∧ attempts "u" w' = 6.
Proof.
  intros w'. split; [|by vm_compute]. apply (create_attempts_bounded (sample_env (λ _, true) (λ _, Some "refused")) "prod" "u" sample_spec "web-0" 0 (replicate 9 sample_spec) empty_world); [apply sample_quiet|done|apply sample_unborn].
Defined.

Lemma no_container_left_behind_witness :
  let w' := (run (sample_env (λ _, true) (λ _, Some "refused")) "prod" "u" sample_spec "web-0" 0 [sample_spec] empty_world).1 in
  size (cw_containers w') = 1%nat ∧
  ∀ c, cw_containers w' !! c = Some "u" → ∃ r, cw_rows w' !! ("prod", "u") = Some r ∧ in_ContainerID r = c.
Proof.
  intros w'. split; [by vm_compute|]. intros c. apply (no_container_left_behind (sample_env (λ _, true) (λ _, Some "refused")) "prod" "u" sample_spec "web-0" 0 [sample_spec] empty_world c); [apply sample_quiet|done|apply sample_unborn].
Defined.

Lemma backoff_respected_witness :
  ∃ r, let w := mkCworld {[("prod", "u") := r]} ∅ 0 [] in let w' := (pass (sample_env (λ _, true) (λ _, None)) "prod" "u" sample_spec w).1 in
  in_Status r = InstanceStatusFailed ∧ cw_rows w' !! ("prod", "u") = Some r ∧ cw_log w' = [].
Proof.
  exists (with_attempts 1 (Some (700 * Second)) (with_status InstanceStatusFailed "" (newInst sample_spec "u" "web-0" 0))). intros w w'. split; [done|].
  destruct (backoff_respected (sample_env (λ _, true) (λ _, None)) "prod" "u" sample_spec w
    (with_attempts 1 (Some (700 * Second)) (with_status InstanceStatusFailed "" (newInst sample_spec "u" "web-0" 0))) (700 * Second)) as (E1 & _ & E3); [apply sample_quiet|by vm_compute|done|done|].
  by split.
Defined.

Lemma due_pass_recovers_witness :
  ∃ r, let w := mkCworld {[("prod", "u") := r]} {["old" := "u"]} 0 [] in
  in_ContainerID r = "old" ∧ up "prod" "u" sample_spec (pass (sample_env (λ _, true) (λ _, None)) "prod" "u" sample_spec w).1 ∧
  cw_containers (pass (sample_env (λ _, true) (λ _, None)) "prod" "u" sample_spec w).1 !! "old" = None.
Proof.
  exists (with_container "old" (with_attempts 5 (Some (600 * Second)) (with_status InstanceStatusFailed "" (newInst sample_spec "u" "web-0" 0)))). intros w.
  split; [done|]. split; [|by vm_compute].
  eapply (due_pass_recovers (sample_env (λ _, true) (λ _, None)) "prod" "u" sample_spec w); [apply sample_quiet|intros n; by split_and!; [..|eexists| | |]|by vm_compute|done|by vm_compute|by vm_compute].
Defined.

Lemma failure_schedules_witness : due 0 (failedAttempt 0 "RunnerStartError" "no" (newInst sample_spec "u" "web-0" 0)) = false.
Proof. apply (failure_schedules 0 "RunnerStartError" "no" (newInst sample_spec "u" "web-0" 0)). done. Defined.

Lemma create_backoff_witness : createBackoffFor 5 = createMaxBackoff.
Proof. rewrite (create_backoff 5); [done|lia]. Defined.

(** When the write that records the container fails and the start fails after it,
    the record does not name the container: the retry makes a second one, and the
    first stays on the host although the record has the other. *)
Definition lost_persist : create_env := sample_env (λ n, negb (Nat.eqb n 11)) (λ n, if Nat.ltb n 14 then Some "refused" else None).

Theorem lost_persist_leaks :
  let w' := (run lost_persist "prod" "u" sample_spec "web-0" 0 [sample_spec] empty_world).1 in
  ∃ r a b, cw_rows w' !! ("prod", "u") = Some r ∧ in_Status r = InstanceStatusRunning ∧ a ≠ b ∧ in_ContainerID r = b ∧
    cw_containers w' !! a = Some "u" ∧ cw_containers w' !! b = Some "u".
Proof. intros w'. eexists _, "cH", "cZ". split; [by vm_compute|]. split_and!; by vm_compute. Qed.

(** ** Restarting an instance: the failed container is kept *)

(** A manual restart always goes ahead; otherwise [Never] refuses and [OnFailure]
    asks for a failure.  An unknown policy acts as [Always]. *)
Theorem restart_policy policy reason :
  restartAllowed policy reason = true ↔
  reason = RestartReasonManual ∨
  policy ≠ RestartPolicyNever ∧ (policy = RestartPolicyOnFailure → reason = RestartReasonFailure ∨ reason = RestartReasonHealthCheckFailure).
Proof.
  unfold restartAllowed, RestartPolicyNever, RestartPolicyOnFailure, RestartPolicyAlways. destruct reason; [naive_solver|..];
    (destruct (decide (policy = "")) as [->|He]; [naive_solver|]; rewrite (bool_decide_false _ He); cbn zeta; repeat case_bool_decide; naive_solver).
Qed.

Section Frame.
Context (env : create_env) (k : string * string) (r : Inst) (L : list ccall).
Context (left_alone : ∀ n m, ce_others env n m !! k = m !! k).

(** The row of the old instance stays, and the log only grows. *)
Definition kept (w : cworld) : Prop := cw_rows w !! k = Some r ∧ L `prefix_of` cw_log w.

Lemma tick_keeps : keeps kept tick.
Proof. by intros w Hw. Qed.
Lemma ask_keeps {A} (f : create_env → nat → A) : keeps kept (ask env f).
Proof. by intros w Hw. Qed.
Lemma log_keeps c : keeps kept (log c).
Proof. intros w [Hw Hl]. split; [exact Hw|]. by apply prefix_app_r. Qed.
Lemma logRow_keeps k' c : keeps kept (logRow k' c).
Proof. intros w [Hw Hl]. split; [exact Hw|]. by apply prefix_app_r. Qed.
Lemma containers_keep f : keeps kept (setContainers f).
Proof. by intros w Hw. Qed.
Lemma access_keeps : keeps kept (access env).
Proof. intros w [Hw Hl]. split; [exact (eq_trans (left_alone (cw_tick w) (cw_rows w)) Hw)|exact Hl]. Qed.
Lemma insert_keeps k' j : k' ≠ k → keeps kept (setRows <[k' := j]>).
Proof. intros Hne w [Hw Hl]. split; [exact (eq_trans (lookup_insert_ne _ _ _ _ Hne) Hw)|exact Hl]. Qed.
End Frame.

Create HintDb frame.
#[local] Hint Resolve tick_keeps ask_keeps log_keeps logRow_keeps containers_keep access_keeps insert_keeps keeps_ret keeps_fail keeps_gets keeps_guard keeps_from : frame.

(** One construct at a time. *)
Ltac frame :=
  repeat first
    [ solve [eauto with frame]
    | lazymatch goal with
      | |- keeps _ (_ ≫= _) => apply keeps_bind; [|intros ?]
      | |- keeps _ (try _) => apply keeps_try
      | |- keeps _ (match ?x with _ => _ end) => destruct x
      end ].

Section Other.
Context (env : create_env) (k : string * string) (r : Inst) (L : list ccall).
Context (left_alone : ∀ n m, ce_others env n m !! k = m !! k).
#[local] Abbreviation kept := (kept k r L).

Lemma storeCreate_keeps i : key i ≠ k → keeps kept (storeCreate env i).
Proof. intros Hk. unfold storeCreate. frame. Qed.

Lemma storeUpdate_keeps i : key i ≠ k → keeps kept (storeUpdate env i).
Proof. intros Hk. unfold storeUpdate. frame. Qed.

Lemma storeUpdateFunc_keeps k' f : k' ≠ k → keeps kept (storeUpdateFunc env k' f).
Proof. intros Hk. unfold storeUpdateFunc. frame. Qed.
End Other.

#[local] Hint Resolve storeCreate_keeps storeUpdate_keeps storeUpdateFunc_keeps : frame.

Section Replace.
Context (env : create_env) (k : string * string) (r : Inst) (L : list ccall).
Context (left_alone : ∀ n m, ce_others env n m !! k = m !! k).
#[local] Abbreviation kept := (kept k r L).

Lemma record_keeps i m s : key i ≠ k → keeps kept (recordCreateFailure env i m s).
Proof. intros Hk. unfold recordCreateFailure. frame. Qed.

Lemma persist_keeps i : key i ≠ k → keeps kept (persistContainerID env i).
Proof. intros Hk. unfold persistContainerID. frame. Qed.

(** The instance the caller gets back has the same key when it came up. *)
Definition came_up (res : Inst * bool) (w : cworld) : Prop := kept w ∧ (res.2 = true → key res.1 ≠ k).

Lemma fail_frames i m : key i ≠ k → post kept (failAttempt env i m) came_up kept.
Proof. intros Hk. unfold failAttempt. eapply post_bind; [by apply record_keeps|]. intros j. by apply post_ret. Qed.

Lemma frame_step {A B} (m : prog cworld A) (f : A → prog cworld B) Q X : keeps kept m → (∀ w, kept w → X w) → (∀ a, post kept (f a) Q X) → post kept (m ≫= f) Q X.
Proof. intros Hm HX Hf. eapply post_bind; [eapply post_weaken; [exact Hm|done|done|exact HX]|exact Hf]. Qed.

Ltac step := apply frame_step; [frame|done|intros ?].

Lemma finish_frames svc i : key i ≠ k → post kept (finishCreate env svc i) came_up kept.
Proof.
  intros Hk. unfold finishCreate. step. set (j := with_attempts _ _ _). assert (Hj : key j ≠ k) by (unfold j; by destruct (sp_Readiness svc)).
  step. step. apply post_ret. by intros w Hw.
Qed.

Lemma launch_frames svc i : key i ≠ k → post kept (launch env svc i) came_up kept.
Proof.
  intros Hk. unfold launch. step. destruct (ce_create env _) as [c|e].
  - do 3 step. set (j := with_ever _ _). assert (Hj : key j ≠ k) by exact Hk. apply frame_step; [by apply persist_keeps|done|]. intros []. do 2 step.
    case_match; [by apply fail_frames|by apply finish_frames].
  - step. by apply fail_frames.
Qed.

Lemma run_frames svc i : key i ≠ k → post kept (runCreateAttempt env svc i) came_up kept.
Proof. intros Hk. unfold runCreateAttempt. do 4 (step; case_match; [by apply fail_frames|]). step. by apply launch_frames. Qed.

Lemma create_frames svc name ordinal : (∀ n, (sp_Namespace svc, ce_uuid env n) ≠ k) → post kept (CreateInstance env svc name ordinal) came_up kept.
Proof.
  intros Hid w Hw. unfold CreateInstance, mbind at 1, prog_bind at 1, ask, tick, mbind at 1, prog_bind at 1, mret, prog_ret. cbn.
  specialize (Hid (cw_tick w)). set (i := newInst _ _ _ _). assert (Hk : key i ≠ k) by exact Hid.
  match goal with |- let (_, _) := ?m ?w0 in _ => enough (Hp : post kept m came_up kept) by exact (Hp w0 Hw) end. do 2 step. by apply run_frames.
Qed.
End Replace.

Definition ticked (w : cworld) : cworld := mkCworld (cw_rows w) (cw_containers w) (S (cw_tick w)) (cw_log w).

Lemma ask_run {A B} env (g : create_env → nat → A) (f : A → prog cworld B) w : (ask env g ≫= f) w = f (g env (cw_tick w)) (ticked w).
Proof. done. Qed.

Section Restart.
Context (env : create_env) (svc : Spec) (i cur : Inst) (reason : RestartReason).
#[local] Abbreviation k := (in_Namespace i, in_ID i).
Context (store_answers : ∀ n, ce_store env n = true) (left_alone : ∀ n m, ce_others env n m !! k = m !! k).

Definition withdrawn (cur : Inst) : Inst := with_status InstanceStatusTerminating "Restarting; draining connections" cur.

Lemma func_row (f : Inst → option Inst) w r :
  cw_rows w !! k = Some r →
  ∃ w', storeUpdateFunc env k f w = (w', Some (f r)) ∧ cw_rows w' !! k = Some (default r (f r)) ∧ cw_log w' = cw_log w.
Proof.
  intros Hr. unfold storeUpdateFunc, access, setRows, modify, tick, mbind, prog_bind, mret, prog_ret. cbn. rewrite store_answers. unfold gets, from_option. cbn. rewrite left_alone, Hr. cbn.
  destruct (f r) as [j|]; (eexists; split; [reflexivity|]); cbn; [by rewrite lookup_insert_eq|by rewrite left_alone].
Qed.

(** The withdrawal flips the row before the container is touched. *)
Lemma withdraw_row w :
  cw_rows w !! k = Some cur →
  ∃ w' l, withdrawForRestart env i cur w = (w', Some tt) ∧ cw_log w' = cw_log w ++ l ∧
    if bool_decide (in_Status cur = InstanceStatusRunning) then cw_rows w' !! k = Some (withdrawn cur) ∧ ∃ a b, l = [CRepublish a (Some InstanceStatusTerminating); CDrain b true]
    else cw_rows w' !! k = Some cur ∧ ∃ b, l = [CDrain b false].
Proof.
  intros Hr. unfold withdrawForRestart. case_bool_decide as Hs; [|eexists _, [CDrain _ _]; split; [reflexivity|]; split; [reflexivity|]; split; [exact Hr|by eexists]].
  unfold try, mbind, prog_bind. fold (key i). change (key i) with k. destruct (func_row (λ fresh, if bool_decide (in_Status fresh = InstanceStatusRunning) then Some (withdrawn fresh) else None) w cur Hr) as (w' & E & Er & El).
  unfold withdrawn in E at 1. rewrite E. rewrite bool_decide_true in Er by done. eexists _, [CRepublish _ _; CDrain _ _]. split; [reflexivity|].
  cbn. rewrite El, <- app_assoc. split; [reflexivity|]. split; [exact Er|]. change (key i) with k. rewrite Er. by eexists _, _.
Qed.

(** What a restart that goes ahead requires. *)
Record restarts (w : cworld) : Prop := mkRestarts {
  rs_row : cw_rows w !! k = Some cur;
  rs_not_stuck : stuck cur = false;
  rs_alive : in_Status cur ≠ InstanceStatusDeleted ∧ in_Status cur ≠ InstanceStatusFailed;
  rs_service n : ce_service env n = Some svc;
  rs_live : sp_Deleting svc = false;
  rs_allowed : restartAllowed (sp_RestartPolicy svc) reason = true;
  rs_runner n : ce_runner env n = None;
  rs_fresh n : (sp_Namespace svc, ce_uuid env n) ≠ k;
}.

(** The calls before the replacement, with the status the record has at each. *)
Definition first_calls (l : list ccall) : Prop :=
  ∃ a b c, l = if bool_decide (in_Status cur = InstanceStatusRunning)
               then [CRepublish a (Some InstanceStatusTerminating); CDrain b true; CStop c (in_ID i) (Some InstanceStatusTerminating)]
               else [CDrain b false; CStop c (in_ID i) (Some (in_Status cur))].

Lemma restart_frames w :
  restarts w → ∃ t l, first_calls l ∧
    kept k (markFailed t reason (if bool_decide (in_Status cur = InstanceStatusRunning) then withdrawn cur else cur)) (cw_log w ++ l) (RestartInstance env i reason w).1.
Proof.
  intros [Hr Hst [Hd Hf] Hsvc Hlive Hok Hrun Hid]. unfold RestartInstance.
  destruct (get_row env (in_Namespace i) (in_ID i) store_answers left_alone w cur Hr) as [(E1 & _) Eg]. pose proof (get_tick env (in_Namespace i) (in_ID i) store_answers left_alone w cur Hr) as [_ El].
  change (key i) with k. destruct (storeGet env k w) as [w1 o] eqn:Ew. cbn in E1, Eg, El. subst o. rewrite (bind_run _ _ _ _ _ Ew), ask_run, Hst, Hsvc.
  rewrite (bool_decide_false _ Hd), (bool_decide_false _ Hf). cbn [orb]. rewrite (bind_run (from_option (Some svc)) _ _ _ svc eq_refl), Hlive, Hok. cbn [negb].
  rewrite ask_run, Hrun, (bool_decide_true (@None string = None) eq_refl). rewrite (bind_run (guardp true) _ _ _ tt eq_refl). set (w2 := ticked _). assert (Hr2 : cw_rows w2 !! k = Some cur) by (cbn; by rewrite E1).
  destruct (withdraw_row w2 Hr2) as (w3 & l & E3 & Hl & Hrow). rewrite (bind_run _ _ _ _ _ E3). cbn in Hl. rewrite El in Hl.
  set (old := if bool_decide (in_Status cur = InstanceStatusRunning) then withdrawn cur else cur).
  assert (Hold : cw_rows w3 !! k = Some old ∧ ∀ c, first_calls (l ++ [CStop c (in_ID i) (Some (in_Status old))])).
  { unfold old, first_calls. destruct (bool_decide (in_Status cur = InstanceStatusRunning)); [destruct Hrow as [Hrow (a & b & ->)]|destruct Hrow as [Hrow [b ->]]]; (split; [done|]); intros c; [by exists a, b, c|by exists 0%nat, b, c]. }
  destruct Hold as [Hold Hfirst].
  set (L := l ++ [CStop (cw_tick w3) (in_ID i) (Some (in_Status old))]). set (w4 := (logRow k (λ n, CStop n (in_ID i)) w3).1).
  assert (E4 : logRow k (λ n, CStop n (in_ID i)) w3 = (w4, Some tt)) by done. rewrite (bind_run _ _ _ _ _ E4).
  assert (Hl4 : cw_log w4 = cw_log w ++ L) by (change (cw_log w3 ++ [CStop (cw_tick w3) (in_ID i) (in_Status <$> cw_rows w3 !! k)] = cw_log w ++ L); unfold L; by rewrite Hold, Hl, <- app_assoc). assert (Hr4 : cw_rows w4 !! k = Some old) by exact Hold.
  set (t := ce_now env (cw_tick w4)). destruct (func_row (λ fresh, Some (markFailed t reason fresh)) (ticked w4) old Hr4) as (w5 & E5 & Hr5 & Hl5).
  assert (Em : markInstanceFailedInPlace env i reason w4 = (w5, Some tt)) by (unfold markInstanceFailedInPlace; rewrite ask_run; fold t; change (key i) with k; by rewrite (bind_run _ _ _ _ _ E5)).
  assert (Et : try (markInstanceFailedInPlace env i reason) w4 = (w5, Some (Some tt))) by (unfold try; by rewrite Em). rewrite (bind_run _ _ _ _ _ Et).
  exists t, L. split; [apply Hfirst|]. assert (Hk5 : kept k (markFailed t reason old) (cw_log w ++ L) w5) by (split; [exact Hr5|]; rewrite Hl5; cbn [cw_log ticked]; by rewrite Hl4).
  match goal with |- kept _ _ _ (?m w5).1 => enough (Hp : keeps (kept k (markFailed t reason old) (cw_log w ++ L)) m) by by apply keeps_state end.
  eapply post_bind; [by apply create_frames|]. intros [j ok] w6 [Hw6 Hj]. cbn [fst snd] in *. destruct ok; [|exact Hw6].
  rewrite (bind_run (guardp true) _ _ _ tt eq_refl). specialize (Hj eq_refl).
  match goal with |- let (_, _) := ?m w6 in _ => enough (Hp : keeps (kept k (markFailed t reason old) (cw_log w ++ L)) m) by exact (Hp w6 Hw6) end.
  assert (Hjr : key (with_restarts (in_RestartCount i + 1) j) ≠ k) by exact Hj. frame.
Qed.
End Restart.

(** C39: With a store that always answers and no other writer on the record
    ([quiet]), a restart that goes ahead ([restarts]) withdraws the instance
    from its endpoints, drains, and only then stops the container: a running
    instance's record is already Terminating, so no endpoint, when the endpoints
    are published and when the container is stopped, and one that was not
    running is drained and stopped under the status it had.  Whatever becomes of
    the replacement, the record stays as a tombstone with the reason of the
    restart that still names the container. *)
Theorem restart_preserves env svc i cur reason w :
  quiet env (in_Namespace i) (in_ID i) → restarts env svc i cur reason w →
  let w' := (RestartInstance env i reason w).1 in
  (∃ t old, cw_rows w' !! (in_Namespace i, in_ID i) = Some old ∧ in_Status old = InstanceStatusFailed ∧ in_FailedAt old = Some t ∧
     in_FailureReason old = RestartReason_string reason ∧ in_ContainerID old = in_ContainerID cur ∧ in_RestartCount old = in_RestartCount cur) ∧
  ∃ l rest, first_calls i cur l ∧ cw_log w' = cw_log w ++ l ++ rest.
Proof.
  intros [Hs Ha _] Hr w'. destruct (restart_frames env svc i cur reason Hs Ha w Hr) as (t & l & Hl & Hrow & [rest Hlog]). split.
  - exists t. eexists. split; [exact Hrow|]. by destruct (bool_decide _).
  - exists l, rest. split; [done|]. unfold w'. by rewrite Hlog, app_assoc.
Qed.

(** A tombstone, a deleted record, a service being deleted and a policy that
    refuses all leave everything as it was, without an error. *)
Theorem restart_refused env i cur svc reason w :
  quiet env (in_Namespace i) (in_ID i) → cw_rows w !! (in_Namespace i, in_ID i) = Some cur → stuck cur = false → (∀ n, ce_service env n = Some svc) →
  in_Status cur = InstanceStatusDeleted ∨ in_Status cur = InstanceStatusFailed ∨ sp_Deleting svc = true ∨ restartAllowed (sp_RestartPolicy svc) reason = false →
  let '(w', r) := RestartInstance env i reason w in
  r = Some false ∧ cw_rows w' !! (in_Namespace i, in_ID i) = Some cur ∧ cw_containers w' = cw_containers w ∧ cw_log w' = cw_log w.
Proof.
  intros [Hs Ha _] Hr Hst Hsvc Hwhy. unfold RestartInstance. destruct (get_row env _ _ Hs Ha w cur Hr) as [(E1 & E2 & _) Eg]. destruct (get_tick env _ _ Hs Ha w cur Hr) as [_ El].
  change (key i) with (in_Namespace i, in_ID i). destruct (storeGet env _ w) as [w1 o] eqn:Ew. cbn in E1, E2, Eg, El. subst o. rewrite Hr in E1.
  rewrite (bind_run _ _ _ _ _ Ew), ask_run, Hst, Hsvc. destruct (bool_decide (in_Status cur = InstanceStatusDeleted) || bool_decide (in_Status cur = InstanceStatusFailed)) eqn:Eq; [done|].
  apply orb_false_iff in Eq as [Hd%bool_decide_eq_false Hf%bool_decide_eq_false]. rewrite (bind_run (from_option (Some svc)) _ _ _ svc eq_refl).
  destruct (sp_Deleting svc); [done|]. destruct Hwhy as [?|[?|[?|Hno]]]; [done..|]. by rewrite Hno.
Qed.

Definition sample_old : Inst := with_container "c1" (with_ever 1 (with_restarts 4 (with_status InstanceStatusRunning "" (newInst sample_spec "o" "web-0" 0)))).
Definition sample_world : cworld := mkCworld {[("prod", "o") := sample_old]} {["c1" := "o"]} 0 [].

Lemma restart_refused_witness :
  (RestartInstance (sample_env (λ _, true) (λ _, None)) (with_status InstanceStatusDeleted "" sample_old) RestartReasonManual
     (mkCworld {[("prod", "o") := with_status InstanceStatusDeleted "" sample_old]} ∅ 0 [])).2 = Some false.
Proof.
  pose proof (restart_refused (sample_env (λ _, true) (λ _, None)) (with_status InstanceStatusDeleted "" sample_old) (with_status InstanceStatusDeleted "" sample_old) sample_spec RestartReasonManual
    (mkCworld {[("prod", "o") := with_status InstanceStatusDeleted "" sample_old]} ∅ 0 [])) as H.
  destruct (RestartInstance _ _ _ _) as [w' r] eqn:E. destruct H as [-> _]; [apply sample_quiet|by vm_compute|done|done|by left|done].
Defined.

Lemma restart_preserves_witness :
  let w' := (RestartInstance (sample_env (λ _, true) (λ _, None)) sample_old RestartReasonFailure sample_world).1 in
  (∃ old t, cw_rows w' !! ("prod", "o") = Some old ∧ in_Status old = InstanceStatusFailed ∧ in_FailedAt old = Some t ∧ in_ContainerID old = "c1") ∧
  ∃ a b c rest, cw_log w' =
    CRepublish a (Some InstanceStatusTerminating) :: CDrain b true :: CStop c "o" (Some InstanceStatusTerminating) :: rest.
Proof.
  intros w'. destruct (restart_preserves (sample_env (λ _, true) (λ _, None)) sample_spec sample_old sample_old RestartReasonFailure sample_world)
    as [(t & old & H1 & H2 & H3 & _ & H5 & _) (l & rest & (a & b & c & Hl) & Hlog)].
  - apply sample_quiet.
  - constructor; [by vm_compute|by vm_compute|by split|done|done|by vm_compute|done|by intros n [=]].
  - split; [exists old, t; split; [exact H1|]; split; [exact H2|]; split; [exact H3|exact H5]|].
    exists a, b, c, rest. rewrite Hl in Hlog. exact Hlog.
Defined.

(** The restart counter of the slot is written only when the replacement's first
    attempt succeeds: after one failed start the replacement comes up with the
    counter at zero, and the slot looks as if it had never restarted. *)
Theorem restart_count_lost :
  let env := sample_env (λ _, true) (λ n, if Nat.ltb n 25 then Some "refused" else None) in
  let w1 := RestartInstance env sample_old RestartReasonHealthCheckFailure sample_world in
  let w2 := (pass env "prod" "u" sample_spec w1.1).1 in
  in_RestartCount sample_old = 4 ∧ w1.2 = None ∧
  ∃ r, cw_rows w2 !! ("prod", "u") = Some r ∧ in_Status r = InstanceStatusRunning ∧ in_RestartCount r = 0.
Proof. intros env w1 w2. split; [done|]. split; [by vm_compute|]. eexists. split; [by vm_compute|]. by vm_compute. Qed.

(** Without the failed start the counter goes from four to five. *)
Example restart_count_kept :
  let env := sample_env (λ _, true) (λ _, None) in
  let w1 := RestartInstance env sample_old RestartReasonHealthCheckFailure sample_world in
  w1.2 = Some true ∧ in_RestartCount <$> cw_rows w1.1 !! ("prod", "u") = Some 5.
Proof. by vm_compute. Qed.
