(* ===== verification/SessionProps.v ===== *)
(** * Sessions: what is accepted, what a rotation leaves, and replays *)

From Stdlib Require Import Ascii.
From S2P Require Import Prelude Text Effects Types Release Authz Sessions.

(** ** Listings *)

Lemma elem_of_listing {A} (m : gmap string A) x : x ∈ listing m ↔ ∃ k, m !! k = Some x.
Proof.
  unfold listing. rewrite list_elem_of_fmap. setoid_rewrite elem_of_SliceStable. split.
  - intros ([k y] & -> & Hk). exists k. by apply elem_of_map_to_list in Hk.
  - intros [k Hk]. exists (k, x). split; [done|]. by apply elem_of_map_to_list.
Qed.

Lemma find_elem {A} (f : A → bool) l x : List.find f l = Some x → x ∈ l ∧ f x = true.
Proof. intros H. destruct (List.find_some _ _ H) as [Hin Hf]. split; [by apply list_elem_of_In|done]. Qed.

Lemma find_listing_none {A} (f : A → bool) (m : gmap string A) : (∀ k x, m !! k = Some x → f x = false) → List.find f (listing m) = None.
Proof.
  intros H. destruct (List.find f (listing m)) as [x|] eqn:E; [|done]. destruct (find_elem _ _ _ E) as [Hin Hf].
  apply elem_of_listing in Hin as [k Hk]. by rewrite (H k x Hk) in Hf.
Qed.

Lemma find_listing_unique {A} (f : A → bool) (m : gmap string A) k x :
  m !! k = Some x → f x = true → (∀ k' y, m !! k' = Some y → f y = true → k' = k) → List.find f (listing m) = Some x.
Proof.
  intros Hk Hf Hu. destruct (List.find f (listing m)) as [y|] eqn:E.
  - destruct (find_elem _ _ _ E) as [Hin Hy]. apply elem_of_listing in Hin as [k' Hk']. rewrite (Hu k' y Hk' Hy) in Hk'. congruence.
  - exfalso. assert (Hin : x ∈ listing m) by (apply elem_of_listing; by exists k). apply list_elem_of_In in Hin. by rewrite (List.find_none _ _ E x Hin) in Hf.
Qed.

(** ** What a lookup accepts, whatever the store and other writers do *)

Section Accepted.
Context (sha256 : string → string) (env : session_env).

(** A stored token of that secret, not revoked, and not expired by a clock reading
    taken between tick [start] and now. *)
Definition accepted (start : nat) (secret : string) (t : Token) (w : sworld) : Prop :=
  has_prefix (TrimSpace secret) = true ∧ (∃ k, sw_tokens w !! k = Some t) ∧ tk_SecretHash t = sha256 (TrimSpace secret) ∧
  tk_Revoked t = false ∧
  ∃ n, (start ≤ n < sw_tick w)%nat ∧ ∀ e, tk_ExpiresAt t = Some e → se_now env n < e.

Definition since (start : nat) (w : sworld) : Prop := (start ≤ sw_tick w)%nat.

Lemma List_lists start : post (since start) (List env) (λ l w, l = listing (sw_tokens w) ∧ since start w) (λ _, True).
Proof.
  intros w Hw. unfold List, access, guardp, gets, mbind, prog_bind. cbn. destruct (se_store env (sw_tick w)); [|done].
  split; [done|]. by apply Nat.le_le_succ_r.
Qed.

Lemma lookup_accepted start secret :
  post (since start) (lookupBySecret sha256 env secret) (λ t, accepted start secret t) (λ _, True).
Proof.
  unfold lookupBySecret. cbn zeta. destruct (has_prefix (TrimSpace secret)) eqn:Hp; [|by intros w _].
  apply (post_bind _ _ _ _ (λ _, since start)); [by intros w|]. intros _.
  eapply post_bind; [apply List_lists|]. intros l w [-> Hw]. unfold ask, tick, mbind, prog_bind, from_option. cbn.
  destruct (List.find _ _) as [t|] eqn:Ef; [|done]. destruct (find_elem _ _ _ Ef) as [Hin [Hh Hl]%andb_true_iff]. cbn. split; [done|].
  split; [by apply elem_of_listing in Hin|]. split; [by apply bool_decide_eq_true in Hh|]. unfold live in Hl. apply andb_true_iff in Hl as [Hr He]. split; [by destruct (tk_Revoked t)|].
  exists (sw_tick w). split; [unfold since in Hw; cbn in *; lia|]. intros e E. rewrite E in He. unfold After in He. lia.
Qed.

Lemma bearer_accepted start secret :
  post (since start) (FindRequestBearer sha256 env secret) (λ t w, accepted start secret t w ∧ tk_Kind t ≠ TokenKindRefresh) (λ _, True).
Proof.
  unfold FindRequestBearer. eapply post_bind; [apply lookup_accepted|]. intros t. case_bool_decide; [by intros w _|]. intros w Hw. by split.
Qed.

Lemma grant_accepted start secret :
  post (since start) (FindRefreshGrant sha256 env secret) (λ t w, accepted start secret t w ∧ tk_Kind t = TokenKindRefresh) (λ _, True).
Proof.
  unfold FindRefreshGrant. eapply post_bind; [apply lookup_accepted|]. intros t. case_bool_decide; [|by intros w _]. intros w Hw. by split.
Qed.
End Accepted.

(** A request is authenticated only by a stored token of the secret presented, not
    revoked, not expired at the time of the check, and never by a refresh grant. *)
Theorem bearer_is_live sha256 env secret w t w' :
  FindRequestBearer sha256 env secret w = (w', Some t) → accepted sha256 env (sw_tick w) secret t w' ∧ tk_Kind t ≠ TokenKindRefresh.
Proof. intros E. pose proof (bearer_accepted sha256 env (sw_tick w) secret w (le_n _)) as H. by rewrite E in H. Qed.

(** ** A quiet store *)

Record still (env : session_env) : Prop := mkStill {
  st_store n : se_store env n = true;
  st_tokens n m : se_tokens env n m = m;
  st_users n m : se_users env n m = m;
}.

Definition ticked (w : sworld) : sworld :=
  mkSworld (sw_tokens w) (sw_users w) (sw_policies w) (sw_grace w) (sw_enroll w) (sw_handoff w) (S (sw_tick w)).

(** The secret and the hash minted at a tick. *)
Definition minted (env : session_env) (n : nat) : string := TokenSecretPrefix +:+ se_uuid env n +:+ "." +:+ se_uuid env (S n).

Lemma minted_prefix env n : has_prefix (minted env n) = true.
Proof. apply prefix_spec. by eexists. Qed.

(** What is known of SHA-256 and of the identifiers drawn from a tick on: hashes
    are not empty, identifiers have no blanks, and identifiers and the hashes of
    minted secrets do not collide with those in the store or with one another. *)
Record fresh (sha256 : string → string) (env : session_env) (w : sworld) : Prop := mkFresh {
  fr_nonempty s : sha256 s ≠ "";
  fr_ids n : (sw_tick w ≤ n)%nat → sw_tokens w !! se_uuid env n = None;
  fr_hash n k t : (sw_tick w ≤ n)%nat → sw_tokens w !! k = Some t → tk_SecretHash t ≠ sha256 (minted env n) ∧ tk_PrevSecretHash t ≠ sha256 (minted env n);
  fr_uuid n m : n ≠ m → se_uuid env n ≠ se_uuid env m;
  fr_minted n m : n ≠ m → sha256 (minted env n) ≠ sha256 (minted env m);
  fr_trim n : TrimSpace (minted env n) = minted env n;
}.

(** Rows under their identifier, with hashes of their own. *)
Record tidy (w : sworld) : Prop := mkTidy {
  td_key k t : sw_tokens w !! k = Some t → tk_ID t = k;
  td_set k t : sw_tokens w !! k = Some t → tk_SecretHash t ≠ "";
  td_hash k k' t t' : sw_tokens w !! k = Some t → sw_tokens w !! k' = Some t' → tk_SecretHash t = tk_SecretHash t' → k = k';
  td_prev k k' t t' : sw_tokens w !! k = Some t → sw_tokens w !! k' = Some t' → tk_PrevSecretHash t ≠ tk_SecretHash t';
  td_prevs k k' t t' : sw_tokens w !! k = Some t → sw_tokens w !! k' = Some t' → tk_PrevSecretHash t = tk_PrevSecretHash t' → tk_PrevSecretHash t ≠ "" → k = k';
}.

Section Quiet.
Context (sha256 : string → string) (env : session_env) (Hst : still env).

Lemma env_run {A B} (g : session_env → nat → A) (f : A → prog sworld B) w : (ask env g ≫= f) w = f (g env (sw_tick w)) (ticked w).
Proof. done. Qed.

Lemma access_run w : access env w = (ticked w, Some true).
Proof. destruct Hst as [Hs Ht Hu]. unfold access, tick, setTokens, setUsers, modify, mbind, prog_bind, mret, prog_ret. cbn. by rewrite Hs, Ht, Hu. Qed.

Lemma List_run w : List env w = (ticked w, Some (listing (sw_tokens w))).
Proof. unfold List. by rewrite (bind_run _ _ _ _ _ (access_run w)). Qed.

Definition matches (now : Time) (s : string) (t : Token) : bool := bool_decide (tk_SecretHash t = hashSecret sha256 s) && live now t.

Lemma lookup_run secret w :
  lookupBySecret sha256 env secret w =
    if has_prefix (TrimSpace secret) then (ticked (ticked w), List.find (matches (se_now env (S (sw_tick w))) (TrimSpace secret)) (listing (sw_tokens w)))
    else (w, None).
Proof.
  unfold lookupBySecret. cbn zeta. destruct (has_prefix (TrimSpace secret)); [|done]. rewrite (bind_run (guardp true) _ _ _ tt eq_refl), (bind_run _ _ _ _ _ (List_run w)), env_run.
  unfold from_option, matches. cbn [sw_tick ticked]. by destruct (List.find _ _).
Qed.

Lemma newSecret_run {B} (f : string → prog sworld B) w : (newSecret env ≫= f) w = f (minted env (sw_tick w)) (ticked (ticked w)).
Proof. done. Qed.

Definition with_tokens (f : gmap string Token → gmap string Token) (w : sworld) : sworld :=
  mkSworld (f (sw_tokens w)) (sw_users w) (sw_policies w) (sw_grace w) (sw_enroll w) (sw_handoff w) (sw_tick w).
Definition with_grace (f : gmap string graceEntry → gmap string graceEntry) (w : sworld) : sworld :=
  mkSworld (sw_tokens w) (sw_users w) (sw_policies w) (f (sw_grace w)) (sw_enroll w) (sw_handoff w) (sw_tick w).

(** The token issued at a tick. *)
Definition issued (name sid sty desc : string) (ttl : Duration) (kind : TokenKind) (n : nat) : Token :=
  mkToken (se_uuid env (3 + n)) name sid sty desc (se_now env (2 + n)) (if 0 <? ttl then Some (se_now env (2 + n) + ttl) else None)
    false (sha256 (minted env n)) kind "" None.

Definition later (n : nat) (w : sworld) : sworld :=
  mkSworld (sw_tokens w) (sw_users w) (sw_policies w) (sw_grace w) (sw_enroll w) (sw_handoff w) (n + sw_tick w).

Lemma issue_run name sid sty desc ttl kind w :
  sw_tokens w !! se_uuid env (3 + sw_tick w) = None →
  issue sha256 env name sid sty desc ttl kind w =
    (with_tokens (<[se_uuid env (3 + sw_tick w) := issued name sid sty desc ttl kind (sw_tick w)]>) (later 5 w),
     Some (issued name sid sty desc ttl kind (sw_tick w), minted env (sw_tick w))).
Proof.
  intros Hid. unfold issue. rewrite newSecret_run, !env_run. rewrite (bind_run _ _ _ _ _ (access_run _)), (bind_run (guardp true) _ _ _ tt eq_refl).
  unfold gets, mbind at 1, prog_bind at 1. cbn [sw_tokens ticked]. change (se_uuid env (sw_tick (ticked (ticked (ticked w))))) with (se_uuid env (3 + sw_tick w)). rewrite Hid, bool_decide_false by by intros []. done.
Qed.

Lemma update_run t w : is_Some (sw_tokens w !! tk_ID t) → Update env t w = (with_tokens (<[tk_ID t := t]>) (ticked w), Some tt).
Proof.
  intros Ht. unfold Update. rewrite (bind_run _ _ _ _ _ (access_run _)), (bind_run (guardp true) _ _ _ tt eq_refl). unfold gets, mbind at 1, prog_bind at 1. cbn [sw_tokens ticked].
  by rewrite bool_decide_true.
Qed.

Lemma rotate_secret_run g ttl w :
  is_Some (sw_tokens w !! tk_ID g) →
  RotateGrantSecret sha256 env g ttl w =
    (with_tokens (<[tk_ID g := rotated (se_now env (2 + sw_tick w)) ttl (sha256 (minted env (sw_tick w))) g]>) (later 4 w), Some (minted env (sw_tick w))).
Proof.
  intros Hg. unfold RotateGrantSecret. rewrite newSecret_run, env_run. cbn [sw_tick ticked].
  erewrite bind_run; [|apply update_run; exact Hg]. done.
Qed.

Lemma revoke_run id t w :
  sw_tokens w !! id = Some t → tk_ID t = id → Revoke env id w = (with_tokens (<[id := with_revoked t]>) (later 2 w), Some tt).
Proof.
  intros Ht Hid. assert (E : Get env id w = (ticked w, Some t)).
  { unfold Get. rewrite (bind_run _ _ _ _ _ (access_run _)), (bind_run (guardp true) _ _ _ tt eq_refl). unfold gets, mbind at 1, prog_bind at 1. cbn [sw_tokens ticked]. by rewrite Ht. }
  unfold Revoke. rewrite (bind_run _ _ _ _ _ E). rewrite update_run; [|cbn; rewrite Hid; by eexists]. cbn. by rewrite Hid.
Qed.

(** ** A rotation *)

Definition successor (m : Manager) (n : nat) : Out :=
  mkOut (minted env (3 + n)) (minted env (8 + n)) (if 0 <? mg_AccessTTL m then Some (se_now env (5 + n) + mg_AccessTTL m) else None).

Definition rotated_tokens (m : Manager) (n : nat) (g : Token) (tokens : gmap string Token) : gmap string Token :=
  <[tk_ID g := rotated (se_now env (10 + n)) (mg_RefreshTTL m) (sha256 (minted env (8 + n))) g]>
    (<[se_uuid env (6 + n) := issued "access" (tk_SubjectID g) (tk_SubjectType g) "" (mg_AccessTTL m) TokenKindAccess (3 + n)]> tokens).

Definition rotated_grace (m : Manager) (n : nat) (s : string) (grace : gmap string graceEntry) : gmap string graceEntry :=
  base.filter (λ kv, After (se_now env n) (ge_graceExp kv.2) = false)
    (<[sha256 (TrimSpace s) := mkGrace (successor m n) (se_now env n + mg_GraceWindow m)]> grace).

Lemma rotate_run m s w g :
  tidy w → fresh sha256 env w → sw_tokens w !! tk_ID g = Some g → tk_Kind g = TokenKindRefresh →
  has_prefix (TrimSpace s) = true → tk_SecretHash g = sha256 (TrimSpace s) → live (se_now env (2 + sw_tick w)) g = true →
  Rotate sha256 env m s w =
    (with_grace (rotated_grace m (sw_tick w) s) (with_tokens (rotated_tokens m (sw_tick w) g) (later 12 w)), Some (successor m (sw_tick w), ResultOK)).
Proof.
  intros Htd Hfr Hg Hk Hp Hh Hl. unfold Rotate. rewrite env_run.
  assert (Ef : FindRefreshGrant sha256 env s (ticked w) = (later 3 w, Some g)).
  { unfold FindRefreshGrant. erewrite bind_run; [|rewrite lookup_run, Hp; f_equal; apply (find_listing_unique _ _ (tk_ID g)); [exact Hg| |]].
    - rewrite Hk. by rewrite bool_decide_true.
    - unfold matches, hashSecret. rewrite Hh, bool_decide_true by done. exact Hl.
    - intros k t Ht [Hm _]%andb_true_iff. apply bool_decide_eq_true in Hm. apply (td_hash _ Htd k (tk_ID g) t g); [done|done|]. by rewrite Hm, Hh. }
  rewrite (bind_run _ _ _ _ _ (try_run _ _ _ _ Ef)). unfold rotateGrant, issueAccess, IssueAccess.
  assert (Hid : sw_tokens w !! se_uuid env (6 + sw_tick w) = None) by (apply (fr_ids _ _ _ Hfr); lia).
  erewrite bind_run; [|apply try_run; erewrite bind_run; [|apply issue_run; exact Hid]; reflexivity]. cbn zeta match.
  set (w1 := with_tokens _ (later 5 (later 3 w))). assert (Hg1 : is_Some (sw_tokens w1 !! tk_ID g)).
  { cbn. rewrite lookup_insert_ne; [by eexists|]. intros E. change (se_uuid env (6 + sw_tick w) = tk_ID g) in E. rewrite E in Hid. by rewrite Hg in Hid. }
  erewrite bind_run; [|apply try_run, rotate_secret_run; exact Hg1]. done.
Qed.

(** ** The store after a rotation *)

Section After.
Context (m : Manager) (s : string) (w : sworld) (g : Token).
#[local] Abbreviation n := (sw_tick w).
#[local] Abbreviation H := (sha256 (TrimSpace s)).
Context (Htd : tidy w) (Hfr : fresh sha256 env w) (Hg : sw_tokens w !! tk_ID g = Some g) (Hh : tk_SecretHash g = H).

Definition new_grant : Token := rotated (se_now env (10 + n)) (mg_RefreshTTL m) (sha256 (minted env (8 + n))) g.
Definition new_access : Token := issued "access" (tk_SubjectID g) (tk_SubjectType g) "" (mg_AccessTTL m) TokenKindAccess (3 + n).
Definition rotated_world : sworld := with_grace (rotated_grace m n s) (with_tokens (rotated_tokens m n g) (later 12 w)).

Lemma access_id_fresh : se_uuid env (6 + n) ≠ tk_ID g.
Proof. intros E. pose proof (fr_ids _ _ _ Hfr (6 + n) ltac:(lia)) as Hn. rewrite E in Hn. congruence. Qed.

Lemma rotated_lookup k t :
  sw_tokens rotated_world !! k = Some t →
  k = tk_ID g ∧ t = new_grant ∨ k = se_uuid env (6 + n) ∧ t = new_access ∨ k ≠ tk_ID g ∧ sw_tokens w !! k = Some t.
Proof.
  cbn. unfold rotated_tokens. rewrite lookup_insert_Some. intros [[<- <-]|[Hne Hk]]; [by left|right].
  rewrite lookup_insert_Some in Hk. destruct Hk as [[<- <-]|[_ Hk]]; [by left|]. by right.
Qed.

(** Hashes minted from here on are new. *)
Lemma minted_new i k t : sw_tokens w !! k = Some t → tk_SecretHash t ≠ sha256 (minted env (i + n)) ∧ tk_PrevSecretHash t ≠ sha256 (minted env (i + n)).
Proof. apply (fr_hash _ _ _ Hfr). lia. Qed.

Lemma secret_new i : H ≠ sha256 (minted env (i + n)).
Proof. rewrite <- Hh. by apply (minted_new i (tk_ID g)). Qed.

Lemma rotated_tidy : tidy rotated_world.
Proof.
  pose proof (fr_nonempty _ _ _ Hfr) as Hne. pose proof (fr_minted _ _ _ Hfr (8 + n) (3 + n) ltac:(lia)) as Hmm.
  assert (Hm3 : ∀ k t, sw_tokens w !! k = Some t → tk_SecretHash t ≠ sha256 (minted env (3 + n)) ∧ tk_PrevSecretHash t ≠ sha256 (minted env (3 + n))) by apply minted_new.
  assert (Hm8 : ∀ k t, sw_tokens w !! k = Some t → tk_SecretHash t ≠ sha256 (minted env (8 + n)) ∧ tk_PrevSecretHash t ≠ sha256 (minted env (8 + n))) by apply minted_new.
  pose proof (secret_new 3) as Hs3. pose proof (secret_new 8) as Hs8. pose proof access_id_fresh as Hia.
  constructor.
  - intros k t [[-> ->]|[[-> ->]|[_ Hk]]]%rotated_lookup; [done|done|by apply (td_key _ Htd)].
  - intros k t [[-> ->]|[[-> ->]|[_ Hk]]]%rotated_lookup; [apply Hne|apply Hne|by apply (td_set _ Htd k)].
  - intros k k' t t' [[-> ->]|[[-> ->]|[Hn Hk]]]%rotated_lookup [[-> ->]|[[-> ->]|[Hn' Hk']]]%rotated_lookup E; cbn in E;
      [done|done|by destruct (Hm8 _ _ Hk')|by symmetry in E|done|by destruct (Hm3 _ _ Hk')|by destruct (Hm8 _ _ Hk)|by destruct (Hm3 _ _ Hk)|by eapply (td_hash _ Htd)].
  - intros k k' t t' [[-> ->]|[[-> ->]|[Hn Hk]]]%rotated_lookup [[-> ->]|[[-> ->]|[Hn' Hk']]]%rotated_lookup; cbn; rewrite ?Hh;
      [done|done| |by intros ?%eq_sym%Hne|by intros ?%eq_sym%Hne| |by apply (Hm8 _ _ Hk)|by apply (Hm3 _ _ Hk)|by eapply (td_prev _ Htd)].
    + intros E. apply Hn'. by apply (td_hash _ Htd k' (tk_ID g) t' g); [| |congruence].
    + intros E. by apply (td_set _ Htd k' t').
  - intros k k' t t' [[-> ->]|[[-> ->]|[Hn Hk]]]%rotated_lookup [[-> ->]|[[-> ->]|[Hn' Hk']]]%rotated_lookup; cbn; rewrite ?Hh; try done.
    + intros E _. destruct (td_prev _ Htd k' (tk_ID g) t' g); [done|done|congruence].
    + intros E _. destruct (td_prev _ Htd k (tk_ID g) t g); [done|done|congruence].
    + by apply (td_prevs _ Htd).
Qed.

(** The rotated secret matches no token any more; the grant remembers it. *)
Lemma rotated_forgotten k t : sw_tokens rotated_world !! k = Some t → tk_SecretHash t ≠ H.
Proof.
  intros [[-> ->]|[[-> ->]|[Hn Hk]]]%rotated_lookup; cbn.
  - apply not_eq_sym, (secret_new 8).
  - apply not_eq_sym, (secret_new 3).
  - intros E. apply Hn. apply (td_hash _ Htd k (tk_ID g) t g); [done|done|congruence].
Qed.

Lemma rotated_grant : sw_tokens rotated_world !! tk_ID g = Some new_grant.
Proof. apply lookup_insert_eq. Qed.

Lemma rotated_access : sw_tokens rotated_world !! se_uuid env (6 + n) = Some new_access.
Proof. cbn. unfold rotated_tokens. rewrite lookup_insert_ne by apply not_eq_sym, access_id_fresh. apply lookup_insert_eq. Qed.

Lemma rotated_in_grace : 0 ≤ mg_GraceWindow m → sw_grace rotated_world !! H = Some (mkGrace (successor m n) (se_now env n + mg_GraceWindow m)).
Proof. intros Hgw. cbn. unfold rotated_grace. apply map_lookup_filter_Some. split; [apply lookup_insert_eq|]. cbn. unfold After. lia. Qed.
End After.

(** ** Replays *)

Lemma not_a_grant s w :
  has_prefix (TrimSpace s) = true → (∀ k t, sw_tokens w !! k = Some t → tk_SecretHash t = sha256 (TrimSpace s) → tk_Revoked t = true) →
  FindRefreshGrant sha256 env s (ticked w) = (later 3 w, None).
Proof.
  intros Hp Hno. unfold FindRefreshGrant. apply bind_fails. rewrite lookup_run, Hp. f_equal. apply find_listing_none. intros k t Ht. unfold matches, live, hashSecret.
  case_bool_decide as E; [|done]. by rewrite (Hno k t Ht E).
Qed.

Lemma replay_served m s w e :
  has_prefix (TrimSpace s) = true → (∀ k t, sw_tokens w !! k = Some t → tk_SecretHash t ≠ sha256 (TrimSpace s)) →
  sw_grace w !! sha256 (TrimSpace s) = Some e → se_now env (sw_tick w) < ge_graceExp e →
  Rotate sha256 env m s w = (later 3 w, Some (ge_out e, ResultOK)).
Proof.
  intros Hp Hno He Hlt. unfold Rotate. rewrite env_run, (bind_run _ _ _ _ _ (try_run _ _ _ _ (not_a_grant s w Hp ltac:(intros; exfalso; by eapply Hno)))).
  unfold replay, gets. cbn zeta. unfold mbind at 1, prog_bind at 1. cbn [sw_grace later]. unfold hashSecret. rewrite He.
  assert (Before (se_now env (sw_tick w)) (ge_graceExp e) = true) as -> by (unfold Before; lia). done.
Qed.

(** Past the window: the entry is dropped. *)
Definition stale (s : string) (w : sworld) : Prop := ∀ e, sw_grace w !! sha256 (TrimSpace s) = Some e → ge_graceExp e ≤ se_now env (sw_tick w).

Lemma replay_falls m s w :
  has_prefix (TrimSpace s) = true → (∀ k t, sw_tokens w !! k = Some t → tk_SecretHash t = sha256 (TrimSpace s) → tk_Revoked t = true) → stale s w →
  Rotate sha256 env m s w =
    (g ← try (FindRefreshGrantByPrevHash sha256 env s);
     match g with Some g => try (Revoke env (tk_ID g));; mret (no_out, ResultBreach) | None => mret (no_out, ResultInvalid) end)
    (with_grace (base.delete (sha256 (TrimSpace s))) (later 3 w)).
Proof.
  intros Hp Hno Hst'. unfold Rotate. rewrite env_run, (bind_run _ _ _ _ _ (try_run _ _ _ _ (not_a_grant s w Hp Hno))).
  unfold replay, gets. cbn zeta. unfold mbind at 1, prog_bind at 1. cbn [sw_grace later]. unfold hashSecret. destruct (sw_grace w !! sha256 (TrimSpace s)) as [e|] eqn:E.
  - assert (Before (se_now env (sw_tick w)) (ge_graceExp e) = false) as -> by (pose proof (Hst' e E); unfold Before; lia). done.
  - unfold with_grace. cbn. rewrite delete_id by done. done.
Qed.

Lemma by_prev_run s w :
  has_prefix (TrimSpace s) = true →
  FindRefreshGrantByPrevHash sha256 env s w =
    (ticked w, List.find (λ t, bool_decide (tk_Kind t = TokenKindRefresh) && negb (tk_Revoked t) && bool_decide (tk_PrevSecretHash t = sha256 (TrimSpace s))) (listing (sw_tokens w))).
Proof.
  intros Hp. unfold FindRefreshGrantByPrevHash. cbn zeta. rewrite Hp, (bind_run (guardp true) _ _ _ tt eq_refl), (bind_run _ _ _ _ _ (List_run w)). unfold from_option. by destruct (List.find _ _).
Qed.

Lemma replay_breach m s w g :
  tidy w → has_prefix (TrimSpace s) = true → (∀ k t, sw_tokens w !! k = Some t → tk_SecretHash t ≠ sha256 (TrimSpace s)) → stale s w →
  sha256 (TrimSpace s) ≠ "" →
  sw_tokens w !! tk_ID g = Some g → tk_Kind g = TokenKindRefresh → tk_Revoked g = false → tk_PrevSecretHash g = sha256 (TrimSpace s) →
  Rotate sha256 env m s w =
    (with_tokens (<[tk_ID g := with_revoked g]>) (with_grace (base.delete (sha256 (TrimSpace s))) (later 6 w)), Some (no_out, ResultBreach)).
Proof.
  intros Htd Hp Hno Hst' Hne Hg Hk Hr Hprev. rewrite replay_falls; [|done|intros; exfalso; by eapply Hno|done].
  set (w1 := with_grace _ _). assert (E : FindRefreshGrantByPrevHash sha256 env s w1 = (ticked w1, Some g)).
  { rewrite by_prev_run by done. f_equal. apply (find_listing_unique _ _ (tk_ID g)); [exact Hg| |].
    - rewrite Hk, Hr, Hprev, !bool_decide_true by done. done.
    - intros k t Ht [[_ _]%andb_true_iff Hpv%bool_decide_eq_true]%andb_true_iff. apply (td_prevs _ Htd k (tk_ID g) t g); [done|done|congruence|congruence]. }
  rewrite (bind_run _ _ _ _ _ (try_run _ _ _ _ E)). erewrite bind_run; [|apply try_run, (revoke_run (tk_ID g) g); done]. done.
Qed.

Lemma replay_invalid m s w :
  has_prefix (TrimSpace s) = true → (∀ k t, sw_tokens w !! k = Some t → tk_SecretHash t = sha256 (TrimSpace s) → tk_Revoked t = true) → stale s w →
  (∀ k t, sw_tokens w !! k = Some t → tk_PrevSecretHash t ≠ sha256 (TrimSpace s)) →
  (Rotate sha256 env m s w).2 = Some (no_out, ResultInvalid).
Proof.
  intros Hp Hno Hst' Hprev. rewrite replay_falls by done. set (w1 := with_grace _ _).
  assert (E : FindRefreshGrantByPrevHash sha256 env s w1 = (ticked w1, None)).
  { rewrite by_prev_run by done. f_equal. apply find_listing_none. intros k t Ht. by rewrite (bool_decide_false _ (Hprev k t Ht)), andb_false_r. }
  by rewrite (bind_run _ _ _ _ _ (try_run _ _ _ _ E)).
Qed.
End Quiet.

(** ** The life of a rotated secret *)

(** A live grant [g] whose current secret is [s]. *)
Record holds (sha256 : string → string) (env : session_env) (s : string) (g : Token) (w : sworld) : Prop := mkHolds {
  hd_still : still env;
  hd_tidy : tidy w;
  hd_fresh : fresh sha256 env w;
  hd_row : sw_tokens w !! tk_ID g = Some g;
  hd_kind : tk_Kind g = TokenKindRefresh;
  hd_prefix : has_prefix (TrimSpace s) = true;
  hd_hash : tk_SecretHash g = sha256 (TrimSpace s);
  hd_live : live (se_now env (2 + sw_tick w)) g = true;
}.

(** C15: Let the store be quiet (no call fails and nobody else writes: [still]), its
    rows have identifiers and hashes of their own ([tidy]), and new identifiers
    and hashes of new secrets not collide with those or with one another
    ([fresh]).  Rotating the secret of a live grant then hands out a successor.
    If nothing happens after that but time passing ([later]), above all no
    further rotation, a replay of the old secret within the grace window returns
    that same successor and issues nothing; the first replay after the window
    revokes the grant, and a rotation by the successor's own refresh secret right
    after it is refused too.  (A rotation in between, a revocation undone by a
    concurrent rotation and the grace record's survival are
    [old_secret_undetected], [rotation_undoes_revocation] and
    [grace_outlives_revocation].) *)
Theorem replayed_secret_revokes sha256 env m s g w d :
  holds sha256 env s g w → 0 ≤ mg_GraceWindow m → sw_grace w !! sha256 (minted env (8 + sw_tick w)) = None →
  ∃ w1 out, Rotate sha256 env m s w = (w1, Some (out, ResultOK)) ∧
  let w2 := later d w1 in
  if se_now env (sw_tick w2) <? se_now env (sw_tick w) + mg_GraceWindow m
  then (Rotate sha256 env m s w2).2 = Some (out, ResultOK) ∧ sw_tokens (Rotate sha256 env m s w2).1 = sw_tokens w1
  else ∃ w3, Rotate sha256 env m s w2 = (w3, Some (no_out, ResultBreach)) ∧ tk_Revoked <$> sw_tokens w3 !! tk_ID g = Some true ∧
    (Rotate sha256 env m (out_Refresh out) w3).2 = Some (no_out, ResultInvalid).
Proof.
  intros [Hst Htd Hfr Hg Hk Hp Hh Hl] Hgw Hnew. exists (rotated_world sha256 env m s w g), (successor env m (sw_tick w)).
  split; [by apply rotate_run|]. cbn zeta. set (w1 := rotated_world sha256 env m s w g).
  pose proof (rotated_in_grace sha256 env m s w g Hgw) as Hgr. pose proof (rotated_forgotten sha256 env m s w g Htd Hfr Hg Hh) as Hno. fold w1 in Hgr, Hno.
  destruct (Z.ltb_spec (se_now env (sw_tick (later d w1))) (se_now env (sw_tick w) + mg_GraceWindow m)) as [Hlt|Hge].
  - by rewrite (replay_served sha256 env Hst m s (later d w1) _ Hp Hno Hgr Hlt).
  - assert (Hrot : tidy w1) by by apply rotated_tidy. assert (Htd2 : tidy (later d w1)) by (destruct Hrot; by constructor).
    assert (Hstale : stale sha256 env s (later d w1)) by (intros e He; change (sw_grace w1 !! sha256 (TrimSpace s) = Some e) in He; rewrite Hgr in He; by injection He as <-).
    assert (Hrev : tk_Revoked g = false) by (unfold live in Hl; by destruct (tk_Revoked g)).
    pose proof (replay_breach sha256 env Hst m s (later d w1) (new_grant sha256 env m w g) Htd2 Hp Hno Hstale (fr_nonempty _ _ _ Hfr _) (rotated_grant sha256 env m s w g) Hk Hrev Hh) as E.
    eexists. split; [exact E|]. split; [cbn; by rewrite lookup_insert_eq|].
    set (w3 := with_tokens _ _). assert (Hlook : ∀ k t, sw_tokens w3 !! k = Some t →
      k = tk_ID g ∧ t = with_revoked (new_grant sha256 env m w g) ∨ k ≠ tk_ID g ∧ sw_tokens w1 !! k = Some t).
    { intros k t. cbn. rewrite lookup_insert_Some. intros [[<- <-]|[Hne Hk']]; [by left|right]. split; [by apply not_eq_sym|exact Hk']. }
    cbn [out_Refresh successor]. apply replay_invalid; [done|..]; rewrite ?(fr_trim _ _ _ Hfr); [apply minted_prefix|..].
    + intros k t [[-> ->]|[Hne Hk']]%Hlook Eh; [done|]. exfalso. apply Hne. by apply (td_hash _ Hrot k (tk_ID g) t (new_grant sha256 env m w g)); [|apply rotated_grant|].
    + intros e He. exfalso. change (base.delete (sha256 (TrimSpace s)) (rotated_grace sha256 env m (sw_tick w) s (sw_grace w)) !! sha256 (TrimSpace (minted env (8 + sw_tick w))) = Some e) in He. rewrite (fr_trim _ _ _ Hfr) in He. apply lookup_delete_Some in He as [_ He]. unfold rotated_grace in He. apply map_lookup_filter_Some in He as [He _].
      rewrite lookup_insert_ne in He; [congruence|]. rewrite <- Hh. by apply (fr_hash _ _ _ Hfr (8 + sw_tick w) (tk_ID g) g ltac:(lia) Hg).
    + intros k t [[-> ->]|[Hne Hk']]%Hlook; [cbn; by apply (fr_hash _ _ _ Hfr (8 + sw_tick w) (tk_ID g) g ltac:(lia) Hg)|].
      apply (td_prev _ Hrot k (tk_ID g) t (new_grant sha256 env m w g)); [done|apply rotated_grant].
Qed.

(** The successor's access token authenticates the grant's subject until it expires. *)
Theorem access_authenticates sha256 env m s g w :
  holds sha256 env s g w → 0 < mg_AccessTTL m → se_now env (13 + sw_tick w) < se_now env (5 + sw_tick w) + mg_AccessTTL m →
  ∃ w1 out tok, Rotate sha256 env m s w = (w1, Some (out, ResultOK)) ∧
    (FindRequestBearer sha256 env (out_Access out) w1).2 = Some tok ∧ tk_SubjectID tok = tk_SubjectID g ∧ tk_SubjectType tok = tk_SubjectType g ∧
    tk_ExpiresAt tok = out_AccessExp out.
Proof.
  intros [Hst Htd Hfr Hg Hk Hp Hh Hl] Httl Hlt. set (w1 := rotated_world sha256 env m s w g). exists w1, (successor env m (sw_tick w)), (new_access sha256 env m w g).
  split; [by apply rotate_run|]. split; [|done]. assert (Hrot : tidy w1) by by apply rotated_tidy.
  assert (E : lookupBySecret sha256 env (minted env (3 + sw_tick w)) w1 = (later 2 w1, Some (new_access sha256 env m w g))).
  { rewrite lookup_run by done. rewrite (fr_trim _ _ _ Hfr). rewrite minted_prefix. f_equal.
    apply (find_listing_unique _ _ (se_uuid env (6 + sw_tick w))); [by apply rotated_access| |].
    - unfold matches, live, hashSecret, new_access, issued. cbn [tk_SecretHash tk_Revoked tk_ExpiresAt negb andb]. rewrite bool_decide_true by done.
      assert (0 <? mg_AccessTTL m = true) as -> by lia. cbn. unfold After. apply Z.ltb_lt. exact Hlt.
    - intros k t Ht [Eh%bool_decide_eq_true _]%andb_true_iff. apply (td_hash _ Hrot k (se_uuid env (6 + sw_tick w)) t (new_access sha256 env m w g)); [done|by apply rotated_access|done]. }
  unfold FindRequestBearer. cbn [out_Access successor]. by rewrite (bind_run _ _ _ _ _ E).
Qed.

(** ** The sweep *)

Section Sweep.
Context (env : session_env) (Hst : still env).

Lemma delete_run id w : is_Some (sw_tokens w !! id) → Delete env id w = (with_tokens (base.delete id) (ticked w), Some tt).
Proof.
  intros Ht. unfold Delete. rewrite (bind_run _ _ _ _ _ (access_run env Hst _)), (bind_run (guardp true) _ _ _ tt eq_refl). unfold gets, mbind at 1, prog_bind at 1. cbn [sw_tokens ticked].
  by rewrite bool_decide_true.
Qed.

Lemma deleteExpired_run now l w :
  NoDup (tk_ID <$> l) → (∀ t, t ∈ l → sw_tokens w !! tk_ID t = Some t) →
  ∃ w', deleteExpired env now l w = (w', Some tt) ∧ ∀ k, sw_tokens w' !! k = if existsb (λ t, bool_decide (tk_ID t = k) && expired now t) l then None else sw_tokens w !! k.
Proof.
  revert w. induction l as [|t l IH]; intros w Hnd Hin; [by exists w|]. cbn [fmap list_fmap] in Hnd. apply NoDup_cons in Hnd as [Hnot Hnd]. cbn [deleteExpired existsb].
  assert (Ht : sw_tokens w !! tk_ID t = Some t) by (apply Hin; left). destruct (expired now t) eqn:Ex.
  - rewrite (bind_run _ _ _ _ _ (delete_run (tk_ID t) w ltac:(by eexists))). destruct (IH (with_tokens (base.delete (tk_ID t)) (ticked w)) Hnd) as (w' & E & Hw').
    { intros u Hu. cbn. rewrite lookup_delete_ne; [apply Hin; by right|]. intros Eq. apply Hnot. rewrite Eq. by apply list_elem_of_fmap_2. }
    exists w'. split; [done|]. intros k. rewrite (Hw' k). cbn [sw_tokens with_tokens ticked]. case_bool_decide as Hk; cbn [andb orb]; [|by rewrite lookup_delete_ne]. subst k. rewrite lookup_delete_eq. by case_match.
  - rewrite (bind_run (mret tt) _ w w tt eq_refl). destruct (IH w Hnd) as (w' & E & Hw'); [intros u Hu; apply Hin; by right|]. exists w'. split; [done|]. intros k. by rewrite (Hw' k), andb_false_r.
Qed.
End Sweep.

Lemma listing_ids w : tidy w → NoDup (tk_ID <$> listing (sw_tokens w)).
Proof.
  intros Htd. unfold listing. set (l := SliceStable _ _). assert (Hp : l ≡ₚ map_to_list (sw_tokens w)) by apply SliceStable_perm.
  assert (E : tk_ID <$> l.*2 = l.*1).
  { rewrite <- list_fmap_compose. apply list_fmap_ext. intros i [k t] Hi. cbn. apply (td_key _ Htd), elem_of_map_to_list. rewrite <- Hp. by apply list_elem_of_lookup_2 in Hi. }
  rewrite E, Hp. apply NoDup_fst_map_to_list.
Qed.

(** The sweep deletes exactly the tokens whose expiry has passed; revoked ones stay. *)
Theorem sweep_exact env now w :
  still env → tidy w →
  ∃ w', DeleteExpiredTokens env now w = (w', Some tt) ∧ sw_tokens w' = base.filter (λ kv, expired now kv.2 = false) (sw_tokens w).
Proof.
  intros Hst Htd. unfold DeleteExpiredTokens. rewrite (bind_run _ _ _ _ _ (List_run env Hst w)).
  destruct (deleteExpired_run env Hst now (listing (sw_tokens w)) (ticked w) (listing_ids w Htd)) as (w' & E & Hw').
  { intros t [k Hk]%elem_of_listing. by rewrite (td_key _ Htd k t Hk). }
  exists w'. split; [done|]. apply map_eq. intros k. rewrite (Hw' k). apply option_eq. intros t. rewrite map_lookup_filter_Some. cbn [sw_tokens ticked snd].
  destruct (existsb _ _) eqn:Ex.
  - apply existsb_exists in Ex as (u & Hu & [Hid%bool_decide_eq_true Hexp]%andb_true_iff). apply list_elem_of_In, elem_of_listing in Hu as [k' Hk']. rewrite (td_key _ Htd _ _ Hk') in Hid. subst k'.
    split; [done|]. intros [Ht Hf]. congruence.
  - split; [|by intros []]. intros Ht. split; [done|]. destruct (expired now t) eqn:He; [|done]. exfalso. apply not_true_iff_false in Ex. apply Ex, existsb_exists. exists t.
    split; [apply list_elem_of_In, elem_of_listing; by exists k|]. by rewrite (td_key _ Htd k t Ht), bool_decide_true.
Qed.

(** ** What the API issues *)

Lemma issue_post sha256 env name sid sty desc ttl kind (P : sworld → Prop) :
  post P (issue sha256 env name sid sty desc ttl kind)
    (λ r w, tk_Kind r.1 = kind ∧ tk_SubjectID r.1 = sid ∧ tk_Revoked r.1 = false ∧ (0 < ttl → is_Some (tk_ExpiresAt r.1)) ∧ sw_tokens w !! tk_ID r.1 = Some r.1) (λ _, True).
Proof.
  unfold issue. do 3 (apply (post_bind _ _ _ _ (λ _ _, True)); [by intros w _|]; intros ?). cbn zeta. apply (post_bind _ _ _ _ (λ _ _, True)); [apply post_true|]. intros ok.
  apply (post_bind _ _ _ _ (λ _ _, True)); [apply post_true|]. intros _. apply (post_bind _ _ _ _ (λ _ _, True)); [apply post_true|]. intros tokens.
  apply (post_bind _ _ _ _ (λ _ _, True)); [apply post_true|]. intros _ w _. cbn -[Z.ltb]. split_and!; [done..| |apply lookup_insert_eq]. intros Ht. assert (0 <? ttl = true) as -> by lia. by eexists.
Qed.

Lemma post_some {A B} (a : A) (f : A → prog sworld B) P Q X : post P (f a) Q X → post P (from_option (Some a) ≫= f) Q X.
Proof. done. Qed.

(** A token created through the API is a static bearer or a refresh grant, never an
    access token, and a grant always expires. *)
Theorem created_kinds sha256 env rq w r w' :
  CreateToken sha256 env rq w = (w', Some (Reply r)) →
  (tk_Kind r.1 = TokenKindStatic ∨ tk_Kind r.1 = TokenKindRefresh ∧ is_Some (tk_ExpiresAt r.1)) ∧ sw_tokens w' !! tk_ID r.1 = Some r.1.
Proof.
  intros E. set (Q := λ (x : reply (Token * string)%type) w, match x with Reply r =>
    (tk_Kind r.1 = TokenKindStatic ∨ tk_Kind r.1 = TokenKindRefresh ∧ is_Some (tk_ExpiresAt r.1)) ∧ sw_tokens w !! tk_ID r.1 = Some r.1 | Panics => True end).
  enough (Hp : post (λ _, True) (CreateToken sha256 env rq) Q (λ _, True)) by (specialize (Hp w I); by rewrite E in Hp).
  assert (Hi : ∀ kind sty u, kind = TokenKindStatic ∨ kind = TokenKindRefresh → post (λ _, True) (issueFor sha256 env rq kind sty u) (λ r, Q (Reply r)) (λ _, True)).
  { intros kind sty u [-> | ->]; unfold issueFor; (eapply post_weaken; [apply (issue_post _ _ _ _ _ _ _ _ (λ _, True))|done| |done]); intros a v (Hk & _ & _ & Hx & Hrow); cbn; (split; [|done]); [by left|right].
    split; [done|]. apply Hx. destruct (Z.leb_spec (wrap64 (ct_TtlSeconds rq * Second)) 0); [done|lia]. }
  unfold CreateToken. destruct (subjectTypeOf (ct_SubjectType rq)) as [sty|]; [|by intros v _]. apply post_some. destruct (kindOf (ct_Kind rq)) as [kind|] eqn:Hkind; [|by intros v _]. apply post_some.
  assert (Hkd : kind = TokenKindStatic ∨ kind = TokenKindRefresh) by (unfold kindOf in Hkind; repeat case_match; simplify_eq; auto).
  do 3 (apply (post_bind _ _ _ _ (λ _ _, True)); [apply post_true|]; intros ?).
  repeat case_match; [eapply post_bind; [by apply Hi|]; intros x; by apply post_ret| |by apply post_ret].
  apply (post_bind _ _ _ _ (λ _ _, True)); [apply post_true|]. intros u. eapply post_bind; [by apply Hi|]. intros x. by apply post_ret.
Qed.

(** ** Enrollment *)

Inductive enroll_op := EPut (c : string) (e : enrollEntry) | ETake (c : string).

Definition is_put (c : string) (o : enroll_op) : bool := match o with EPut d _ => bool_decide (d = c) | ETake _ => false end.

(** The number of times the code is redeemed in a run. *)
Fixpoint redeemed (env : session_env) (c : string) (ops : list enroll_op) (w : sworld) : Z :=
  match ops with
  | [] => 0
  | EPut d e :: ops => redeemed env c ops (enroll_put env d e w).1
  | ETake d :: ops =>
      let '(w', r) := enroll_take env d w in
      (match r with Some (Some _) => if bool_decide (d = c) then 1 else 0 | _ => 0 end) + redeemed env c ops w'
  end.

Lemma enroll_put_map env d e w :
  sw_enroll (enroll_put env d e w).1 = <[d := e]> (base.filter (λ kv, After (se_now env (sw_tick w)) (en_expiry kv.2) = false) (sw_enroll w)).
Proof. done. Qed.

Definition without_code (c : string) (w : sworld) : sworld :=
  mkSworld (sw_tokens w) (sw_users w) (sw_policies w) (sw_grace w) (base.delete c (sw_enroll w)) (sw_handoff w) (sw_tick w).

Lemma enroll_take_run env d w :
  enroll_take env d w = match sw_enroll w !! d with
    | None => (w, Some None)
    | Some e => (ticked (without_code d w), Some (if After (se_now env (sw_tick w)) (en_expiry e) then None else Some e))
    end.
Proof. unfold enroll_take, gets, mbind at 1, prog_bind at 1. by destruct (sw_enroll w !! d). Qed.

(** An enrollment code is redeemed at most as often as it was issued. *)
Theorem codes_single_use env c ops w :
  redeemed env c ops w ≤ countb (is_put c) ops + (if bool_decide (is_Some (sw_enroll w !! c)) then 1 else 0).
Proof.
  revert w. induction ops as [|[d e|d] ops IH]; intros w; cbn [redeemed countb is_put].
  - by case_bool_decide.
  - specialize (IH (enroll_put env d e w).1). revert IH. rewrite enroll_put_map. case_bool_decide as Hs; case_bool_decide as Hd; try (case_bool_decide; lia).
    assert (is_Some (sw_enroll w !! c)).
    { destruct Hs as [x Hx]. apply lookup_insert_Some in Hx as [[? _]|[_ Hx]]; [done|]. apply map_lookup_filter_Some in Hx as [Hx _]. by exists x. }
    rewrite bool_decide_true by done. lia.
  - rewrite enroll_take_run. destruct (sw_enroll w !! d) as [e|] eqn:E; [|specialize (IH w); lia].
    specialize (IH (ticked (without_code d w))). cbn [sw_enroll ticked without_code] in IH. destruct (decide (d = c)) as [->|Hne].
    + rewrite lookup_delete_eq, bool_decide_false in IH by by intros []. rewrite (bool_decide_true (c = c)), bool_decide_true by (done || by (rewrite E; eexists)). destruct (After _ _); lia.
    + rewrite lookup_delete_ne in IH by done. rewrite (bool_decide_false _ Hne). destruct (After _ _); lia.
Qed.

Section Redeem.
Context (sha256 : string → string) (env : session_env) (Hst : still env).

Definition row (u : User) (w : sworld) : Prop := sw_users w !! us_ID u = Some u.

Lemma access_row u : keeps (row u) (access env).
Proof. intros w Hw. rewrite (access_run env Hst). exact Hw. Qed.

Lemma updateUser_row u : post (λ _, True) (updateUser env u) (λ _, row u) (λ _, True).
Proof. intros w _. unfold updateUser. rewrite (bind_run _ _ _ _ _ (access_run env Hst w)), (bind_run (guardp true) _ _ _ tt eq_refl). unfold gets, mbind, prog_bind. cbn. case_bool_decide; [|done]. apply lookup_insert_eq. Qed.

Lemma ensurePolicies_row ps u :
  post (row u) (ensurePolicies env u ps) (λ u' w, row u' w ∧ us_ID u' = us_ID u ∧ us_Policies u ⊆ us_Policies u' ∧ ∀ p, p ∈ ps → p ≠ "" → p ∈ us_Policies u') (λ _, True).
Proof.
  revert u. induction ps as [|p ps IH]; intros u; cbn [ensurePolicies]; [apply post_ret; intros w Hw; split_and!; [done|done|done|by intros ? ?%not_elem_of_nil]|].
  apply (post_bind _ _ _ _ (λ v w, row v w ∧ us_ID v = us_ID u ∧ us_Policies u ⊆ us_Policies v ∧ (p ≠ "" → p ∈ us_Policies v))).
  - case_bool_decide; [by apply post_ret|]. unfold ensureUserHasPolicy. case_bool_decide; [by apply post_ret|]. eapply post_bind; [eapply post_weaken; [apply updateUser_row|done|done|done]|].
    intros []. apply post_ret. intros w Hw. cbn. split_and!; [done|done|set_solver|set_solver].
  - intros v w (Hv & Hid & Hsub & Hp). pose proof (IH v w Hv) as H. destruct (ensurePolicies env v ps w) as [w' [u'|]]; [|done]. destruct H as (H1 & H2 & H3 & H4).
    split_and!; [done|congruence|set_solver|]. intros q [->|Hq]%elem_of_cons Hne; [by apply H3, Hp|by apply H4].
Qed.

Lemma resolveSubject_row name : post (λ w, ∀ k u, sw_users w !! k = Some u → us_ID u = k) (resolveSubject env name) (λ u, row u) (λ _, True).
Proof.
  intros w Hkey. unfold resolveSubject. assert (E : ∃ w' r, GetByNameOrID env name w = (w', Some r) ∧ sw_users w' = sw_users w ∧ ∀ u, r = Ok u → row u w).
  { unfold GetByNameOrID. rewrite (bind_run _ _ _ _ _ (access_run env Hst w)). cbn [negb]. unfold gets, mbind at 1, prog_bind at 1. cbn [sw_users ticked]. destruct (sw_users w !! name) as [u|] eqn:Eu.
    - eexists _, _. split; [reflexivity|]. split; [done|]. intros ? [= <-]. unfold row. by rewrite (Hkey name u Eu).
    - rewrite (bind_run _ _ _ _ _ (access_run env Hst (ticked w))). cbn [negb]. unfold mbind, prog_bind. cbn [sw_users ticked]. eexists _, _. split; [reflexivity|]. split; [done|].
      intros u Hu. destruct (List.find _ _) as [v|] eqn:Ef; [|done]. injection Hu as ->. apply find_elem in Ef as [[k Hk]%elem_of_listing _]. unfold row. by rewrite (Hkey k u Hk). }
  destruct E as (w' & r & E & Ew & Hr). rewrite (bind_run _ _ _ _ _ E). destruct r as [u|[]]; [cbn; unfold row; rewrite Ew; by apply Hr| |done].
  unfold createUser. destruct (negb _); [|done]. rewrite (bind_run (guardp true) _ _ _ tt eq_refl), (env_run env), (bind_run _ _ _ _ _ (access_run env Hst _)), (bind_run (guardp true) _ _ _ tt eq_refl).
  unfold gets, mbind at 1, prog_bind at 1. case_bool_decide; [done|]. cbn [negb guardp]. rewrite (bind_run (mret tt) _ _ _ tt eq_refl). unfold mbind at 1, prog_bind at 1. cbn [setUsers modify].
  rewrite (bind_run _ _ _ _ _ (access_run env Hst _)), (bind_run (guardp true) _ _ _ tt eq_refl). unfold mbind, prog_bind, from_option. cbn. rewrite lookup_insert_eq. cbn. unfold row. cbn. apply lookup_insert_eq.
Qed.

Lemma ask_row {A} u (f : session_env → nat → A) : keeps (row u) (ask env f).
Proof. by intros w Hw. Qed.
Lemma setTokens_row u f : keeps (row u) (setTokens f).
Proof. by intros w Hw. Qed.
Lemma setGrace_row u f : keeps (row u) (setGrace f).
Proof. by intros w Hw. Qed.
#[local] Hint Resolve access_row ask_row setTokens_row setGrace_row : rune.

Lemma issue_row u name sid sty desc ttl kind : keeps (row u) (issue sha256 env name sid sty desc ttl kind).
Proof. unfold issue, newSecret. keep. Qed.

Lemma rotate_row u m s : keeps (row u) (Rotate sha256 env m s).
Proof.
  unfold Rotate, FindRefreshGrant, lookupBySecret, List, rotateGrant, issueAccess, IssueAccess, issue, RotateGrantSecret, newSecret, replay, FindRefreshGrantByPrevHash, List, Revoke, Get, Update, gcGraceLocked. keep.
Qed.
End Redeem.

(** Redeeming a code takes an entry that has not expired, and afterwards the subject
    it answers for holds every policy the code was issued with. *)
Theorem redeem_grants_policies sha256 env m c grantName w w' r :
  still env → (∀ k u, sw_users w !! k = Some u → us_ID u = k) → RedeemEnrollment sha256 env m c grantName w = (w', Some r) →
  ∃ e u, sw_enroll w !! c = Some e ∧ se_now env (sw_tick w) ≤ en_expiry e ∧ sw_users w' !! rd_SubjectID r = Some u ∧
    ∀ p, p ∈ en_policies e → p ≠ "" → p ∈ us_Policies u.
Proof.
  intros Hst Hkey E. unfold RedeemEnrollment in E. unfold mbind at 1, prog_bind at 1 in E. rewrite enroll_take_run in E. destruct (sw_enroll w !! c) as [e|] eqn:Ee; [|done].
  destruct (After (se_now env (sw_tick w)) (en_expiry e)) eqn:Ha; [done|]. exists e. rewrite (bind_run (from_option (Some e)) _ _ _ e eq_refl) in E.
  set (w1 := ticked (without_code c w)) in E. set (Q := λ (r : Redeemed) w, ∃ u, sw_users w !! rd_SubjectID r = Some u ∧ ∀ p, p ∈ en_policies e → p ≠ "" → p ∈ us_Policies u).
  match type of E with ?prog w1 = _ => enough (Hp : post (λ w, ∀ k u, sw_users w !! k = Some u → us_ID u = k) prog Q (λ _, True)) end.
  { specialize (Hp w1 Hkey). rewrite E in Hp. destruct Hp as [u Hu]. exists u. split; [done|]. split; [unfold After in Ha; lia|done]. }
  eapply post_bind; [by apply resolveSubject_row|]. intros u. eapply post_bind; [by apply ensurePolicies_row|]. intros v. cbn zeta.
  set (P := λ w, row v w ∧ ∀ p, p ∈ en_policies e → p ≠ "" → p ∈ us_Policies v).
  assert (Hkeep : ∀ A (q : prog sworld A), keeps (row v) q → keeps P q).
  { intros A q Hq x [Hx Hy]. specialize (Hq x Hx). destruct (q x) as [x' [a|]]; exact (conj Hq Hy). }
  assert (HQ : ∀ w r, P w → rd_SubjectID r = us_ID v → Q r w) by (intros x rr [Hx Hy] Hs; exists v; rewrite Hs; exact (conj Hx Hy)).
  apply (post_bind _ _ _ _ (λ _, P)); [|]; [|intros g].
  { intros x (H1 & _ & _ & H4). pose proof (Hkeep _ _ (issue_row sha256 env Hst v (if bool_decide (TrimSpace grantName = "") then "enrolled" else grantName) (us_ID v) (en_subjectType e) "" (match m with Some m => mg_RefreshTTL m | None => DefaultRefreshTTL end) TokenKindRefresh) x (conj H1 H4)) as Hi.
    unfold IssueRefreshGrant. destruct (issue _ _ _ _ _ _ _ _ x) as [x' [g|]]; [exact Hi|exact I]. }
  destruct m as [m|]; [|apply post_ret; intros x Hx; apply (HQ _ _ Hx); reflexivity].
  apply (post_bind _ _ _ _ (λ _, P)); [|]; [|intros [out res]].
  { intros x Hx. pose proof (Hkeep _ _ (rotate_row sha256 env Hst v m g.2) x Hx) as Hi. destruct (Rotate _ _ _ _ x) as [x' [y|]]; [exact Hi|exact I]. }
  apply post_ret. intros x Hx. destruct res; apply (HQ _ _ Hx); reflexivity.
Qed.

(** ** Concrete sessions *)

(** Identifiers spell their tick; the clock runs ten seconds per call from an hour. *)
Definition tick_name (n : nat) : string := String (ascii_of_nat (n + 33)) "".
Definition sample_sha (s : string) : string := "#" +:+ s.
Definition sample_clock (n : nat) : Time := Hour + Z.of_nat n * (10 * Second).
Definition sample_session (store : nat → bool) (others : nat → gmap string Token → gmap string Token) : session_env :=
  mkSessionEnv sample_clock store tick_name (λ n, Some (tick_name n)) others (λ _ m, m) (λ _ _, true).
(** A clock of one second per call. *)
Definition wide_grace : session_env := mkSessionEnv (λ n, Hour + Z.of_nat n * Second) (λ _, true) tick_name (λ _, None) (λ _ m, m) (λ _ m, m) (λ _ _, true).
Definition calm : session_env := sample_session (λ _, true) (λ _ m, m).

Definition sample_grant : Token := mkToken "g" "cli" "alice" "user" "" 0 (Some (2 * Hour)) false (sample_sha "rune_a.b") TokenKindRefresh "" None.
Definition sample_start : sworld := mkSworld {["g" := sample_grant]} ∅ ∅ ∅ ∅ ∅ 0.

(** Identifiers of growing length, for the hypotheses about all ticks. *)
Fixpoint letters (n : nat) : string := match n with O => "u" | S n => String "i" (letters n) end.
Definition growing : session_env := mkSessionEnv sample_clock (λ _, true) letters (λ _, None) (λ _ m, m) (λ _ m, m) (λ _ _, true).

Lemma growing_still : still growing.
Proof. by constructor. Qed.

Fixpoint solid (s : string) : bool := match s with EmptyString => true | String c s => negb (is_space c) && solid s end.

Lemma trimRight_solid s : solid s = true → trimRight s = s.
Proof. induction s as [|c s IH]; [done|]. cbn. rewrite andb_true_iff. intros [Hc Hs]. rewrite (IH Hs). destruct s; [by destruct (is_space c)|done]. Qed.

Lemma TrimSpace_solid s : solid s = true → TrimSpace s = s.
Proof.
  intros Hs. unfold TrimSpace. assert (trimLeft s = s) as ->; [|by apply trimRight_solid]. destruct s as [|c s]; [done|]. cbn in *. apply andb_true_iff in Hs as [Hc _]. by destruct (is_space c).
Qed.

Lemma solid_app a b : solid (a +:+ b) = solid a && solid b.
Proof. induction a as [|c a IH]; [done|]. change (String c a +:+ b) with (String c (a +:+ b)). cbn. by rewrite IH, andb_assoc. Qed.

Lemma letters_solid n : solid (letters n) = true.
Proof. induction n; [done|]. cbn. done. Qed.

Lemma letters_length n : String.length (letters n) = S n.
Proof. induction n as [|n IH]; [done|]. cbn. by rewrite IH. Qed.

Lemma growing_fresh m : (∀ n, m !! letters n = None) → (∀ k t, m !! k = Some t → (String.length (tk_SecretHash t) ≤ 9)%nat ∧ (String.length (tk_PrevSecretHash t) ≤ 8)%nat) →
  ∀ us ps gr en ho, fresh sample_sha growing (mkSworld m us ps gr en ho 0).
Proof.
  intros Hm Hs us ps gr en ho. assert (Hlen : ∀ n, String.length (sample_sha (minted growing n)) = (10 + n + n)%nat).
  { intros n. unfold sample_sha, minted. rewrite !string_app_length. cbn. rewrite !letters_length. lia. }
  assert (Hinj : ∀ n, minted growing n = TrimSpace (minted growing n)).
  { intros n. rewrite TrimSpace_solid; [done|]. unfold minted. rewrite !solid_app. cbn [growing se_uuid]. by rewrite !letters_solid. }
  constructor; [done| | |..].
  - intros n _. apply Hm.
  - intros n k t _ Ht. destruct (Hs k t Ht). split; intros E; apply (f_equal String.length) in E; rewrite Hlen in E; lia.
  - intros n n' Hne E. apply Hne. apply (f_equal String.length) in E. cbn in E. rewrite !letters_length in E. lia.
  - intros n n' Hne E. apply Hne. apply (f_equal String.length) in E. rewrite !Hlen in E. lia.
  - intros n. by rewrite <- Hinj.
Qed.

Lemma sample_holds : holds sample_sha growing "rune_a.b" sample_grant sample_start.
Proof.
  assert (Hrow : ∀ k t, sw_tokens sample_start !! k = Some t → k = "g" ∧ t = sample_grant) by (intros k t Ht; change (({["g" := sample_grant]} : gmap string Token) !! k = Some t) in Ht; by apply lookup_singleton_Some in Ht as [<- <-]).
  constructor; [done| | |by vm_compute..].
  - constructor; [by intros k t [-> ->]%Hrow|by intros k t [-> ->]%Hrow|by intros k k' t t' [-> ->]%Hrow [-> ->]%Hrow|by intros k k' t t' [-> ->]%Hrow [-> ->]%Hrow|by intros k k' t t' [-> ->]%Hrow [-> ->]%Hrow].
  - apply growing_fresh; [intros [|n]; by apply lookup_singleton_ne|]. intros k t [<- <-]%lookup_singleton_Some. by split; apply Nat.leb_le.
Qed.

Lemma replayed_secret_revokes_witness :
  ∃ w1 out w3, Rotate sample_sha growing New "rune_a.b" sample_start = (w1, Some (out, ResultOK)) ∧
    Rotate sample_sha growing New "rune_a.b" (later 60 w1) = (w3, Some (no_out, ResultBreach)) ∧
    (Rotate sample_sha growing New (out_Refresh out) w3).2 = Some (no_out, ResultInvalid).
Proof.
  destruct (replayed_secret_revokes sample_sha growing New "rune_a.b" sample_grant sample_start 60) as (w1 & out & E & H); [apply sample_holds|done|done|].
  assert (Et : sw_tick w1 = 12%nat) by (transitivity (sw_tick (Rotate sample_sha growing New "rune_a.b" sample_start).1); [by rewrite E|by vm_compute]).
  cbn [later sw_tick] in H. rewrite Et in H. destruct (Z.ltb_spec (se_now growing (60 + 12)) (se_now growing (sw_tick sample_start) + mg_GraceWindow New)) as [Hlt|_]; [by vm_compute in Hlt|].
  destruct H as (w3 & E3 & _ & E4). exists w1, out, w3. split; [exact E|]. split; [exact E3|exact E4].
Defined.

Lemma access_authenticates_witness :
  ∃ w1 out tok, Rotate sample_sha growing New "rune_a.b" sample_start = (w1, Some (out, ResultOK)) ∧
    (FindRequestBearer sample_sha growing (out_Access out) w1).2 = Some tok ∧ tk_SubjectID tok = "alice".
Proof.
  destruct (access_authenticates sample_sha growing New "rune_a.b" sample_grant sample_start) as (w1 & out & tok & E1 & E2 & E3 & _); [apply sample_holds|done|done|].
  exists w1, out, tok. split; [exact E1|]. split; [exact E2|exact E3].
Defined.

Lemma bearer_is_live_witness :
  ∃ w' t, FindRequestBearer sample_sha calm " rune_x" (mkSworld {["s" := mkToken "s" "ci" "bob" "service" "" 0 None false "#rune_x" TokenKindStatic "" None]} ∅ ∅ ∅ ∅ ∅ 0) = (w', Some t) ∧
    tk_Kind t ≠ TokenKindRefresh.
Proof.
  eexists _, _. split; [by vm_compute|]. apply (bearer_is_live sample_sha calm " rune_x" (mkSworld {["s" := mkToken "s" "ci" "bob" "service" "" 0 None false "#rune_x" TokenKindStatic "" None]} ∅ ∅ ∅ ∅ ∅ 0) _
    (mkSworld {["s" := mkToken "s" "ci" "bob" "service" "" 0 None false "#rune_x" TokenKindStatic "" None]} ∅ ∅ ∅ ∅ ∅ 2)). by vm_compute.
Defined.

Lemma sweep_exact_witness : ∃ w', DeleteExpiredTokens growing (3 * Hour) sample_start = (w', Some tt) ∧ sw_tokens w' = ∅.
Proof.
  destruct (sweep_exact growing (3 * Hour) sample_start) as (w' & E & H); [done|apply sample_holds|]. exists w'. split; [exact E|]. rewrite H. by vm_compute.
Defined.

Definition sample_enrolled : sworld :=
  mkSworld ∅ {["a" := mkUser "a" "alice" ["readonly"]]} {["readonly" := mkPolicy "1" "readonly" "" [] true; "cast" := mkPolicy "2" "cast" "" [] true]} ∅ {["enr_k" := mkEnroll "alice" "user" ["cast"] (2 * Hour)]} ∅ 0.

Lemma redeem_grants_policies_witness :
  ∃ w' r u, RedeemEnrollment sample_sha growing (Some New) "enr_k" "" sample_enrolled = (w', Some r) ∧
    sw_users w' !! rd_SubjectID r = Some u ∧ "cast" ∈ us_Policies u.
Proof.
  destruct (RedeemEnrollment sample_sha growing (Some New) "enr_k" "" sample_enrolled) as [w' [r|]] eqn:E; [|by vm_compute in E].
  destruct (redeem_grants_policies sample_sha growing (Some New) "enr_k" "" sample_enrolled w' r) as (e & u & H1 & _ & H3 & H4); [apply growing_still| |exact E|].
  { intros k v Hk. change (({["a" := mkUser "a" "alice" ["readonly"]]} : gmap string User) !! k = Some v) in Hk. by apply lookup_singleton_Some in Hk as [<- <-]. }
  exists w', r, u. split; [reflexivity|]. split; [exact H3|]. clear E H3. apply H4; [|done]. change (({["enr_k" := mkEnroll "alice" "user" ["cast"] (2 * Hour)]} : gmap string enrollEntry) !! "enr_k" = Some e) in H1.
  apply lookup_singleton_Some in H1 as [_ <-]. by left.
Defined.

Lemma created_kinds_witness :
  ∃ w' r, CreateToken sample_sha calm (mkCreateToken "laptop" "" "alice" "" "refresh" [] "" 0) sample_enrolled = (w', Some (Reply r)) ∧ is_Some (tk_ExpiresAt r.1).
Proof.
  assert (H : ∀ w' r, CreateToken sample_sha calm (mkCreateToken "laptop" "" "alice" "" "refresh" [] "" 0) sample_enrolled = (w', Some (Reply r)) →
    tk_Kind r.1 = TokenKindRefresh → is_Some (tk_ExpiresAt r.1)).
  { intros w' r E Hk. destruct (created_kinds sample_sha calm (mkCreateToken "laptop" "" "alice" "" "refresh" [] "" 0) sample_enrolled r w' E) as [[Hs|[_ Hx]] _]; [congruence|exact Hx]. }
  eexists _, _. split; [by vm_compute|]. eapply H; by vm_compute.
Defined.

(** A secret two rotations old is merely invalid: only the last one is remembered,
    so its reuse past the grace window revokes nothing. *)
Theorem old_secret_undetected :
  let w1 := Rotate sample_sha calm New "rune_a.b" sample_start in
  let w2 := Rotate sample_sha calm New (out_Refresh (successor calm New 0)) w1.1 in
  let r := Rotate sample_sha calm New "rune_a.b" (later 60 w2.1) in
  (λ o, o.2) <$> w2.2 = Some ResultOK ∧ r.2 = Some (no_out, ResultInvalid) ∧ tk_Revoked <$> sw_tokens r.1 !! "g" = Some false.
Proof. by vm_compute. Qed.

(** A revocation that lands between the lookup and the write of a rotation is
    overwritten: the grant comes back to life with a new secret. *)
Theorem rotation_undoes_revocation :
  let env := sample_session (λ _, true) (λ n m, if Nat.eqb n 7 then with_revoked <$> m else m) in
  let r := Rotate sample_sha env New "rune_a.b" sample_start in
  (λ o, o.2) <$> r.2 = Some ResultOK ∧ tk_Revoked <$> sw_tokens r.1 !! "g" = Some false ∧
  (λ o, o.2) <$> (Rotate sample_sha env New (out_Refresh (successor calm New 0)) r.1).2 = Some ResultOK.
Proof. by vm_compute. Qed.

(** Within the grace window a replay is served without looking at the grant: after
    the operator has revoked it, the old secret still yields a working access token. *)
Theorem grace_outlives_revocation :
  let w1 := Rotate sample_sha wide_grace New "rune_a.b" sample_start in
  let w2 := Revoke wide_grace "g" w1.1 in
  let r := Rotate sample_sha wide_grace New "rune_a.b" w2.1 in
  tk_Revoked <$> sw_tokens w2.1 !! "g" = Some true ∧
  r.2 = Some (successor wide_grace New 0, ResultOK) ∧
  tk_SubjectID <$> (FindRequestBearer sample_sha wide_grace (out_Access (successor wide_grace New 0)) r.1).2 = Some "alice".
Proof. by vm_compute. Qed.

(** The first rotation moves a grant's expiry to the manager's window, whatever
    window it was issued with: one hour becomes thirty days. *)
Theorem rotation_widens_window :
  let w1 := CreateToken sample_sha calm (mkCreateToken "laptop" "" "alice" "" "refresh" [] "" 3600) sample_enrolled in
  ∃ t s t', w1.2 = Some (Reply (t, s)) ∧ tk_ExpiresAt t = Some (tk_IssuedAt t + Hour) ∧
    sw_tokens (Rotate sample_sha calm New s w1.1).1 !! tk_ID t = Some t' ∧ tk_ExpiresAt t' = Some (tk_IssuedAt t + DefaultRefreshTTL + 130 * Second).
Proof. eexists _, _, _. split; [by vm_compute|]. split; [by vm_compute|]. split; [by vm_compute|]. by vm_compute. Qed.

(** A store failure while the subject is looked up is taken for success: the handler
    goes on with a nil user. *)
Theorem create_token_panics :
  (CreateToken sample_sha (sample_session (λ n, negb (Nat.eqb n 0)) (λ _ m, m)) (mkCreateToken "ci" "" "alice" "" "" [] "" 0) sample_enrolled).2 = Some Panics.
Proof. by vm_compute. Qed.
