(* ===== verification/GateProps.v ===== *)
(** * The API gate: what a call that passes has shown *)

From Stdlib Require Import Ascii.
From S2P Require Import Prelude Text Effects Types Names Release Authz Sessions SessionProps ApiGate.

(** ** Grants *)

(** The user the policies are looked up for, and a rule of one of its policies. *)
Definition granted (w : sworld) (subject : string) (r : Requirement) (ns : string) : Prop :=
  ∃ u p pol rl, List.find (λ u, bool_decide (us_ID u = subject) || bool_decide (us_Name u = subject)) (listing (sw_users w)) = Some u ∧
    p ∈ us_Policies u ∧ sw_policies w !! p = Some pol ∧ rl ∈ po_Rules pol ∧ ruleGrants (Authz.rq_Resource r) (rq_Verb r) ns rl = true.

Definition same_store (w w' : sworld) : Prop := sw_tokens w' = sw_tokens w ∧ sw_users w' = sw_users w ∧ sw_policies w' = sw_policies w.

Section Gate.
Context (sha256 : string → string) (env : session_env) (isLocalhost : string → bool) (o : Options).

Lemma evaluate_run s r v ns w :
  ∃ a, evaluatePolicies env s r v ns w = (ticked w, Some a) ∧ (a = Ok true → granted w s (mkRequirement r v) ns).
Proof.
  eexists. split; [reflexivity|]. cbn. destruct (se_store env (sw_tick w)); [|done]. destruct (List.find _ _) as [u|] eqn:Eu; [|done]. intros [= H].
  apply existsb_exists in H as (p & Hp%list_elem_of_In & H). destruct (se_policy env (sw_tick w) p); [|done]. destruct (sw_policies w !! p) as [pol|] eqn:Epol; [|done].
  apply existsb_exists in H as (rl & Hr%list_elem_of_In & H). exists u, p, pol, rl. done.
Qed.

Lemma checkAll_run s ns l w :
  ∃ w' a, checkAll env s ns l w = (w', Some a) ∧ same_store w w' ∧ (sw_tick w ≤ sw_tick w')%nat ∧ (a = Ok tt → ∀ r, r ∈ l → granted w s r ns).
Proof.
  revert w. induction l as [|r l IH]; intros w; cbn [checkAll]; [exists w, (Ok tt); split; [done|]; split; [done|]; split; [done|]; by intros _ ? ?%not_elem_of_nil|].
  destruct (evaluate_run s (Authz.rq_Resource r) (rq_Verb r) ns w) as (a & E & Ha). rewrite (bind_run _ _ _ _ _ E). destruct a as [[]|e]; [|eexists _, _; split_and!; [done..|cbn; lia|done]..].
  destruct (IH (ticked w)) as (w' & a & E' & Hs & Ht & Hl). exists w', a. split; [done|]. split; [exact Hs|].
  split; [cbn in Ht; lia|]. intros Hok q [->|Hq]%elem_of_cons; [destruct r; by apply Ha|by apply Hl].
Qed.

Lemma auth_post start bearer :
  op_EnableAuth o = true →
  post (since start) (authFunc sha256 env o bearer)
    (λ a w, ∀ ai, a = Ok ai → ∃ secret tok, bearer = Some secret ∧ accepted sha256 env start secret tok w ∧ tk_Kind tok ≠ TokenKindRefresh ∧
       ai = Some (mkAuthInfo (tk_SubjectID tok) (tk_SubjectType tok))) (λ _, False).
Proof.
  intros Ho. unfold authFunc. rewrite Ho. cbn [negb]. destruct bearer as [secret|]; [|by intros w _].
  apply (post_bind _ _ _ _ (λ t w, ∀ tok, t = Some tok → accepted sha256 env start secret tok w ∧ tk_Kind tok ≠ TokenKindRefresh)).
  - apply post_try. eapply post_weaken; [apply bearer_accepted|done|by intros t w H ? [= <-]|done].
  - intros [tok|] w H; [|done]. intros ai [= <-]. destruct (H tok eq_refl). by exists secret, tok.
Qed.
End Gate.

(** C14: A unary call that reaches its handler with authentication on, and is not one of
    the four public methods, carried a bearer (no refresh grant) that is stored,
    not revoked, and not expired by the clock as it was read while the call was
    handled; and one of its subject's policies grants the method's verb in the
    namespace the request names.  Making a storage class the default also needs
    set-default. *)
Theorem gate_sound sha256 env isLocalhost o c w w' ai :
  op_EnableAuth o = true → isPublicMethod (cl_Method c) = false →
  unaryChain sha256 env isLocalhost o c w = (w', Some (Ok ai)) →
  ∃ secret tok, cl_Bearer c = Some secret ∧ accepted sha256 env (sw_tick w) secret tok w' ∧ tk_Kind tok ≠ TokenKindRefresh ∧
    ai = Some (mkAuthInfo (tk_SubjectID tok) (tk_SubjectType tok)) ∧ tk_SubjectID tok ≠ "" ∧
    ∀ r, r ∈ actionOf (cl_Method c) :: extraRBACRequirements (cl_Method c) (cl_Request c) → granted w' (tk_SubjectID tok) r (extractNamespace (cl_Request c)).
Proof.
  intros Ho Hpub E. unfold unaryChain, authUnaryInterceptor in E. rewrite Ho, Hpub in E. cbn [negb orb] in E.
  pose proof (auth_post sha256 env o (sw_tick w) (cl_Bearer c) Ho w (le_n _)) as Ha. unfold mbind at 1, prog_bind at 1 in E. destruct (authFunc sha256 env o (cl_Bearer c) w) as [w1 [[ai1|e]|]]; [|done|done].
  destruct (Ha ai1 eq_refl) as (secret & tok & Hb & Hacc & Hk & ->). destruct (adminUnaryInterceptor isLocalhost o c); [|done].
  unfold rbacUnaryInterceptor in E. rewrite Ho, Hpub in E. cbn [negb orb subjectOf ai_SubjectID] in E. case_bool_decide as Hs; [done|].
  destruct (checkAll_run env (tk_SubjectID tok) (extractNamespace (cl_Request c)) (actionOf (cl_Method c) :: extraRBACRequirements (cl_Method c) (cl_Request c)) w1) as (w2 & res & Ec & (St & Su & Sp) & Hlt & Hg).
  rewrite (bind_run _ _ _ _ _ Ec) in E. destruct res as [[]|e]; [|done]. injection E as <- <-. exists secret, tok. split; [done|].
  split; [destruct Hacc as (A1 & A2 & A3 & A4 & n & Hn & A5); unfold accepted; rewrite St; split_and!; [done..|]; exists n; split; [lia|done]|]. split; [done|]. split; [done|]. split; [done|]. intros r Hr. unfold granted. rewrite Su, Sp. by apply Hg.
Qed.

(** Bootstrapping is reachable from a local peer only, authentication on or off. *)
Theorem bootstrap_is_local sha256 env isLocalhost o c w w' ai :
  unaryChain sha256 env isLocalhost o c w = (w', Some (Ok ai)) → HasSuffix (cl_Method c) bootstrapMethod = true →
  ∃ p, cl_Peer c = Some p ∧ isLocalhost p = true.
Proof.
  intros E Hb. unfold unaryChain, mbind at 1, prog_bind at 1 in E. destruct (authUnaryInterceptor _ _ _ _ _) as [w1 [[ai1|e]|]]; [|done|done].
  destruct (adminUnaryInterceptor isLocalhost o c) as [[]|] eqn:Ea; [|done]. unfold adminUnaryInterceptor in Ea. rewrite Hb in Ea. destruct (cl_Peer c) as [p|]; [|done]. exists p. by destruct (isLocalhost p).
Qed.

(** ** Refresh grants open no gate *)

Section NoRefresh.
Context (sha256 : string → string) (env : session_env) (Hst : still env).

Lemma refresh_no_bearer secret g w :
  tidy w → sw_tokens w !! tk_ID g = Some g → tk_Kind g = TokenKindRefresh → tk_SecretHash g = sha256 (TrimSpace secret) →
  ∃ w', FindRequestBearer sha256 env secret w = (w', None).
Proof.
  intros Htd Hg Hk Hh. pose proof (bearer_accepted sha256 env (sw_tick w) secret w (le_n _)) as H.
  assert (Ew : sw_tokens (FindRequestBearer sha256 env secret w).1 = sw_tokens w).
  { unfold FindRequestBearer, mbind, prog_bind. rewrite lookup_run by done. destruct (has_prefix _); [|done]. destruct (List.find _ _) as [t|]; [|done]. by destruct (bool_decide _). }
  destruct (FindRequestBearer sha256 env secret w) as [w' [t|]]; [|by exists w']. exfalso. cbn in Ew. destruct H as [(_ & [k' Hk'] & Hh' & _) Hkind]. rewrite Ew in Hk'.
  assert (k' = tk_ID g) as -> by (eapply (td_hash _ Htd); [exact Hk'|exact Hg|congruence]). congruence.
Qed.
End NoRefresh.

(** The secret of a stored refresh grant, live or not, passes none of the gates:
    unary calls outside the public methods, streams, the dashboard's transcoder and
    the exec bridge. *)
Theorem refresh_opens_no_gate sha256 env isLocalhost o secret g w :
  still env → tidy w → op_EnableAuth o = true →
  sw_tokens w !! tk_ID g = Some g → tk_Kind g = TokenKindRefresh → tk_SecretHash g = sha256 (TrimSpace secret) →
  (∀ m req peer, isPublicMethod m = false → (unaryChain sha256 env isLocalhost o (mkCall m req peer (Some secret)) w).2 = Some (Err GateUnauthenticated)) ∧
  (∀ m, (streamChain sha256 env o m (Some secret) w).2 = Some (Err GateUnauthenticated)) ∧
  (uiAccess sha256 env secret w).2 = Some (Some 401).
Proof.
  intros Hst Htd Ho Hg Hk Hh. destruct (refresh_no_bearer sha256 env Hst secret g w Htd Hg Hk Hh) as [w' E].
  assert (Ea : authFunc sha256 env o (Some secret) w = (w', Some (Err GateUnauthenticated))).
  { unfold authFunc. rewrite Ho. cbn [negb]. by rewrite (bind_run _ _ _ _ _ (try_run _ _ _ _ E)). }
  split_and!.
  - intros m req peer Hpub. unfold unaryChain, authUnaryInterceptor. cbn [cl_Method cl_Bearer]. rewrite Ho, Hpub. cbn [negb orb]. by rewrite (bind_run _ _ _ _ _ Ea).
  - intros m. unfold streamChain. by rewrite (bind_run _ _ _ _ _ Ea).
  - unfold uiAccess. case_bool_decide; [done|]. by rewrite (bind_run _ _ _ _ _ (try_run _ _ _ _ E)).
Qed.

(** ** Seeding the built-in policies *)

Definition grants (rules : list PolicyRule) (resource verb ns : string) : bool := existsb (ruleGrants resource verb ns) rules.

Lemma addVerbs_existsb (f : string → bool) want have : existsb f (addVerbs have want) = existsb f have || existsb f want.
Proof.
  unfold addVerbs. revert have. induction want as [|v want IH]; intros have; cbn [fold_left existsb]; [by rewrite orb_false_r|]. rewrite IH. case_bool_decide as Hv.
  - destruct (f v) eqn:Ef; [|done]. assert (existsb f have = true) as -> by (apply existsb_exists; exists v; split; [by apply list_elem_of_In|done]). done.
  - rewrite existsb_app. cbn. by rewrite orb_false_r, orb_assoc.
Qed.

Lemma mergeRule_grants want have r v ns : grants (mergeRule have want) r v ns = grants have r v ns || ruleGrants r v ns want.
Proof.
  unfold grants. induction have as [|h have IH]; cbn [mergeRule existsb]; [by rewrite orb_false_r|]. unfold sameTarget.
  case_bool_decide as Hr; case_bool_decide as Hn; cbn [andb existsb]; [|by rewrite IH, orb_assoc..].
  assert (E : ruleGrants r v ns (mkPolicyRule (ru_Resource h) (addVerbs (ru_Verbs h) (ru_Verbs want)) (ru_Namespace h)) = ruleGrants r v ns h || ruleGrants r v ns want).
  { unfold ruleGrants. cbn [ru_Resource ru_Verbs ru_Namespace]. rewrite addVerbs_existsb, Hr, Hn. by destruct (existsb _ (ru_Verbs h)), (existsb _ (ru_Verbs want)), (_ || bool_decide (ru_Resource want = r)), (_ || bool_decide (ru_Namespace want = ns)). }
  rewrite E. by destruct (ruleGrants r v ns h), (ruleGrants r v ns want), (existsb _ have).
Qed.

Lemma mergeRules_grants want have r v ns : grants (mergeRules have want) r v ns = grants have r v ns || grants want r v ns.
Proof.
  unfold mergeRules. revert have. induction want as [|x want IH]; intros have; cbn [fold_left]; [by rewrite orb_false_r|]. rewrite IH, mergeRule_grants. cbn. by rewrite orb_assoc.
Qed.

(** What a policy grants after it was seeded with [d]. *)
Definition seeded (old : option Policy) (d : Policy) (r v ns : string) : bool :=
  match old with
  | None => grants (po_Rules d) r v ns
  | Some p => grants (po_Rules p) r v ns || (po_Builtin p && grants (po_Rules d) r v ns)
  end.

Definition named_rows (w : sworld) : Prop := ∀ k p, sw_policies w !! k = Some p → po_Name p = k.

Section Seed.
Context (env : session_env) (Hst : still env).

Lemma policyGet_run name w : policyGet env name w = (ticked w, sw_policies w !! name).
Proof. unfold policyGet. rewrite (bind_run _ _ _ _ _ (access_run env Hst w)), (bind_run (guardp true) _ _ _ tt eq_refl). unfold gets, mbind, prog_bind, from_option. cbn. by destruct (sw_policies w !! name). Qed.

Definition with_policies (f : gmap string Policy → gmap string Policy) (w : sworld) : sworld :=
  mkSworld (sw_tokens w) (sw_users w) (f (sw_policies w)) (sw_grace w) (sw_enroll w) (sw_handoff w) (sw_tick w).

Lemma policyUpdate_run p w : is_Some (sw_policies w !! po_Name p) → policyUpdate env p w = (with_policies (<[po_Name p := p]>) (ticked w), Some tt).
Proof.
  intros Hp. unfold policyUpdate. rewrite (bind_run _ _ _ _ _ (access_run env Hst w)), (bind_run (guardp true) _ _ _ tt eq_refl). unfold gets, mbind, prog_bind. cbn [sw_policies ticked]. by rewrite bool_decide_true.
Qed.

Lemma policyCreate_run p w :
  ValidateDNS1123Name (po_Name p) = true → sw_policies w !! po_Name p = None →
  ∃ id, policyCreate env p w = (with_policies (<[po_Name p := mkPolicy id (po_Name p) (po_Description p) (po_Rules p) (po_Builtin p)]>) (ticked (ticked w)),
    Some (mkPolicy id (po_Name p) (po_Description p) (po_Rules p) (po_Builtin p))).
Proof.
  intros Hv Hn. exists (se_uuid env (sw_tick w)). unfold policyCreate. rewrite Hv, (bind_run (guardp true) _ _ _ tt eq_refl), (env_run env). cbn zeta.
  rewrite (bind_run _ _ _ _ _ (access_run env Hst _)), (bind_run (guardp true) _ _ _ tt eq_refl). unfold gets, mbind at 1, prog_bind at 1. cbn [sw_policies ticked po_Name]. rewrite Hn, bool_decide_false by by intros []. done.
Qed.

Lemma named_insert k p w : po_Name p = k → named_rows w → named_rows (with_policies (<[k := p]>) w).
Proof. intros Hk Hnm j q Hq. change (<[k := p]> (sw_policies w) !! j = Some q) in Hq. apply lookup_insert_Some in Hq as [[<- <-]|[_ Hq]]; [done|by apply Hnm]. Qed.

Lemma seedOne_run d w :
  named_rows w → ValidateDNS1123Name (po_Name d) = true →
  ∃ w' p, seedOne env d w = (w', Some tt) ∧ named_rows w' ∧ sw_policies w' !! po_Name d = Some p ∧
    (∀ r v ns, grants (po_Rules p) r v ns = seeded (sw_policies w !! po_Name d) d r v ns) ∧ ∀ k, k ≠ po_Name d → sw_policies w' !! k = sw_policies w !! k.
Proof.
  intros Hnm Hv. unfold seedOne. rewrite (bind_run _ _ _ _ _ (try_run _ _ _ _ (policyGet_run (po_Name d) w))). destruct (sw_policies w !! po_Name d) as [old|] eqn:Eo; cbn [seeded].
  - destruct (po_Builtin old); cbn [negb]; [|exists (ticked w), old; split; [done|]; split; [done|]; split; [done|]; split; [|done]; intros; by rewrite andb_false_l, orb_false_r].
    pose proof (Hnm _ _ Eo) as Hname. cbn [mergePolicyRules]. case_bool_decide as Hch; cbn [negb].
    + exists (ticked w), old. split; [done|]. split; [done|]. split; [done|]. split; [|done]. intros r v ns. pose proof (mergeRules_grants (po_Rules d) (po_Rules old) r v ns) as Hm. rewrite Hch in Hm. exact Hm.
    + rewrite policyUpdate_run by (cbn; rewrite Hname, Eo; by eexists). eexists _, _. split; [reflexivity|]. cbn [po_Name sw_policies with_policies]. rewrite Hname.
      split; [by apply named_insert|split; [apply lookup_insert_eq|split; [intros r v ns; exact (mergeRules_grants (po_Rules d) (po_Rules old) r v ns)|intros k Hk; by rewrite lookup_insert_ne]]].
  - destruct (policyCreate_run d (ticked w) Hv Eo) as [id E]. rewrite (bind_run _ _ _ _ _ E). eexists _, _. split; [reflexivity|]. cbn [sw_policies with_policies ticked].
    split; [by apply named_insert|split; [apply lookup_insert_eq|split; [done|intros k Hk; by rewrite lookup_insert_ne]]].
Qed.

Lemma seed_run l w :
  named_rows w → NoDup (po_Name <$> l) → (∀ d, d ∈ l → ValidateDNS1123Name (po_Name d) = true) →
  ∃ w', each (seedOne env) l w = (w', Some tt) ∧ named_rows w' ∧ (∀ k, k ∉ po_Name <$> l → sw_policies w' !! k = sw_policies w !! k) ∧
    ∀ d, d ∈ l → ∃ p, sw_policies w' !! po_Name d = Some p ∧ ∀ r v ns, grants (po_Rules p) r v ns = seeded (sw_policies w !! po_Name d) d r v ns.
Proof.
  revert w. induction l as [|d l IH]; intros w Hnm Hnd Hv; cbn [each]; [exists w; split; [done|]; split; [done|]; split; [done|]; by intros ? ?%not_elem_of_nil|].
  cbn in Hnd. apply NoDup_cons in Hnd as [Hnot Hnd]. destruct (seedOne_run d w Hnm (Hv d ltac:(left))) as (w1 & p & E & Hnm1 & Hp & Hg & Hother). rewrite (bind_run _ _ _ _ _ E).
  destruct (IH w1 Hnm1 Hnd) as (w' & E' & Hnm' & Hout & Hin); [intros x Hx; apply Hv; by right|]. exists w'. split; [done|]. split; [done|]. split.
  - intros k Hk. cbn in Hk. apply not_elem_of_cons in Hk as [Hk1 Hk2]. by rewrite Hout, Hother.
  - intros x [->|Hx]%elem_of_cons; [exists p; by rewrite Hout|]. destruct (Hin x Hx) as (q & Hq & Hgq). exists q. split; [done|]. intros r v ns. rewrite Hgq, Hother; [done|]. intros Eq. apply Hnot. rewrite <- Eq. by apply list_elem_of_fmap_2.
Qed.
End Seed.

(** At start every built-in policy comes to grant what it granted before and, unless
    an operator took it over, all of its built-in rules, exactly; no other policy
    changes. *)
Theorem seeding_exact env w :
  still env → named_rows w →
  ∃ w', SeedBuiltinPolicies env w = (w', Some tt) ∧ (∀ k, k ∉ po_Name <$> builtins → sw_policies w' !! k = sw_policies w !! k) ∧
    ∀ d, d ∈ builtins → ∃ p, sw_policies w' !! po_Name d = Some p ∧ ∀ r v ns, grants (po_Rules p) r v ns = seeded (sw_policies w !! po_Name d) d r v ns.
Proof.
  intros Hst Hnm. destruct (seed_run env Hst builtins w Hnm) as (w' & E & _ & Hout & Hin).
  - apply (bool_decide_eq_true_1 (NoDup _)). by vm_compute.
  - intros d Hd. apply (proj1 (Forall_forall (λ d, ValidateDNS1123Name (po_Name d) = true) builtins)); [|done]. repeat constructor; by vm_compute.
  - by exists w'.
Qed.

(** ** Bootstrapping once *)

(** While root holds a token that is not revoked, a bootstrap is refused and changes
    nothing. *)
Theorem bootstrap_refused sha256 env w root tok k :
  still env → List.find (λ u, bool_decide (us_Name u = "root")) (listing (sw_users w)) = Some root →
  sw_tokens w !! k = Some tok → tk_SubjectID tok = us_ID root → tk_Revoked tok = false →
  ∃ w', AdminBootstrap sha256 env w = (w', Some (Err AlreadyBootstrapped)) ∧ same_store w w'.
Proof.
  intros Hst Hroot Ht Hs Hr. unfold AdminBootstrap, GetByName.
  assert (E : GetByName env "root" w = (ticked w, Some (Ok root))).
  { unfold GetByName. rewrite (bind_run _ _ _ _ _ (access_run env Hst w)). cbn [negb]. unfold gets, mbind, prog_bind. cbn [sw_users ticked]. by rewrite Hroot. }
  fold (GetByName env "root"). rewrite (bind_run _ _ _ _ _ E). erewrite bind_run; [|rewrite (bind_run _ _ _ _ _ (try_run _ _ _ _ (List_run env Hst (ticked w)))); reflexivity].
  assert (existsb (λ t, bool_decide (tk_SubjectID t = us_ID root) && negb (tk_Revoked t)) (listing (sw_tokens (ticked w))) = true) as ->.
  { apply existsb_exists. exists tok. split; [apply list_elem_of_In, elem_of_listing; by exists k|]. by rewrite bool_decide_true, Hr. }
  eexists. split; [reflexivity|]. done.
Qed.

(** ** Concrete calls *)

Definition policy_rows (l : list Policy) : gmap string Policy := list_to_map ((λ p, (po_Name p, p)) <$> l).

Definition static_token (id sid secret : string) : Token := mkToken id "t" sid "user" "" 0 None false (sample_sha secret) TokenKindStatic "" None.

(** One user per built-in policy, each with a token, and a refresh grant. *)
Definition gate_world : sworld :=
  mkSworld (<["g" := sample_grant]> (list_to_map ((λ p, ("t-" +:+ po_Name p, static_token ("t-" +:+ po_Name p) ("u-" +:+ po_Name p) ("rune_" +:+ po_Name p))) <$> builtins)))
    (list_to_map ((λ p, ("u-" +:+ po_Name p, mkUser ("u-" +:+ po_Name p) (po_Name p) [po_Name p])) <$> builtins))
    (policy_rows builtins) ∅ ∅ ∅ 0.

Definition secured : Options := mkOptions true false.
Definition local_only (p : string) : bool := bool_decide (p = "127.0.0.1").
Definition plain (ns : string) : Request := mkRequest ns [] false.
Definition call_as (policy method ns : string) : Call := mkCall method (plain ns) (Some "127.0.0.1") (Some ("rune_" +:+ policy)).
Definition passes (policy method ns : string) : bool :=
  match (unaryChain sample_sha growing local_only secured (call_as policy method ns) gate_world).2 with Some (Ok _) => true | _ => false end.

Lemma gate_sound_witness :
  ∃ w' ai, unaryChain sample_sha growing local_only secured (call_as "readonly" "/rune.api.ServiceService/GetService" "prod") gate_world = (w', Some (Ok ai)) ∧
    granted w' "u-readonly" (mkRequirement "services" "get") "prod".
Proof.
  assert (H : ∀ w' ai, unaryChain sample_sha growing local_only secured (call_as "readonly" "/rune.api.ServiceService/GetService" "prod") gate_world = (w', Some (Ok ai)) →
    subjectOf ai = "u-readonly" → granted w' "u-readonly" (mkRequirement "services" "get") "prod").
  { intros w' ai E Hs. destruct (gate_sound sample_sha growing local_only secured (call_as "readonly" "/rune.api.ServiceService/GetService" "prod") gate_world w' ai) as (secret & tok & _ & _ & _ & -> & _ & Hg); [done|by vm_compute|exact E|].
    cbn in Hs. rewrite Hs in Hg. apply (Hg (mkRequirement "services" "get")). by left. }
  eexists _, _. split; [by vm_compute|]. eapply H; [by vm_compute|by vm_compute].
Defined.

Lemma bootstrap_is_local_witness :
  ∃ w' ai, unaryChain sample_sha growing local_only secured (mkCall bootstrapMethod (plain "") (Some "127.0.0.1") None) gate_world = (w', Some (Ok ai)) ∧
    ∃ p, Some "127.0.0.1" = Some p ∧ local_only p = true.
Proof.
  eexists _, _. split; [by vm_compute|].
  eapply (bootstrap_is_local sample_sha growing local_only secured (mkCall bootstrapMethod (plain "") (Some "127.0.0.1") None) gate_world); by vm_compute.
Defined.

Lemma refresh_opens_no_gate_witness :
  (streamChain sample_sha growing secured "/rune.api.ExecService/StreamExec" (Some "rune_a.b") sample_start).2 = Some (Err GateUnauthenticated) ∧
  (uiAccess sample_sha growing "rune_a.b" sample_start).2 = Some (Some 401).
Proof.
  destruct (refresh_opens_no_gate sample_sha growing local_only secured "rune_a.b" sample_grant sample_start) as (_ & H2 & H3); [apply growing_still|apply sample_holds|done|by vm_compute|done|by vm_compute|].
  split; [apply H2|exact H3].
Defined.

Lemma seeding_exact_witness : ∃ w' p, SeedBuiltinPolicies growing sample_start = (w', Some tt) ∧ sw_policies w' !! "cast" = Some p ∧ grants (po_Rules p) "services" "create" "prod" = true.
Proof.
  destruct (seeding_exact growing sample_start) as (w' & E & _ & H); [apply growing_still|by intros k p Hp|].
  destruct (H castPolicy) as (p & Hp & Hg); [by do 4 right; left|]. exists w', p. split; [exact E|]. split; [exact Hp|]. rewrite Hg. by vm_compute.
Defined.

Lemma bootstrap_refused_witness :
  ∃ w', AdminBootstrap sample_sha growing gate_world = (w', Some (Err AlreadyBootstrapped)) ∧ same_store gate_world w'.
Proof.
  apply (bootstrap_refused sample_sha growing gate_world (mkUser "u-root" "root" ["root"]) (static_token "t-root" "u-root" "rune_root") "t-root"); [apply growing_still|by vm_compute|by vm_compute|done|done].
Defined.

(** No built-in policy below admin passes any call of the namespace service: its
    methods are missing from the table and fall to the wildcard, although the cast
    policy grants get, list and create on namespaces. *)
Theorem namespace_calls_admin_only x ns p :
  p ∈ builtins → po_Name p ≠ "root" → po_Name p ≠ "admin" →
  let a := methodToAction ("/rune.api.NamespaceService/" +:+ x) in grants (po_Rules p) a.1 a.2 ns = false.
Proof.
  intros Hp Hr Ha a. assert (Ea : a = ("*", "*")) by reflexivity. rewrite Ea. cbn [fst snd].
  apply list_elem_of_In in Hp. cbn in Hp. destruct Hp as [<-|[<-|[<-|[<-|[<-|[]]]]]]; done.
Qed.

Lemma namespace_calls_admin_only_witness :
  passes "cast" "/rune.api.NamespaceService/CreateNamespace" "prod" = false ∧
  grants (po_Rules castPolicy) "namespaces" "create" "prod" = true ∧
  (let a := methodToAction ("/rune.api.NamespaceService/" +:+ "CreateNamespace") in grants (po_Rules castPolicy) a.1 a.2 "prod" = false).
Proof. split; [by vm_compute|]. split; [by vm_compute|]. apply namespace_calls_admin_only; [by do 4 right; left|done|done]. Defined.

(** A stream is authorized with no namespace, so a subject all of whose rules name
    one opens none, not even in that namespace. *)
Theorem scoped_grants_open_no_stream sha256 env o m bearer w :
  op_EnableAuth o = true →
  (∀ k pol rl, sw_policies w !! k = Some pol → rl ∈ po_Rules pol → ru_Namespace rl ≠ "" ∧ ru_Namespace rl ≠ "*") →
  ∀ w' ai, streamChain sha256 env o m bearer w ≠ (w', Some (Ok ai)).
Proof.
  intros Ho Hns w' ai E. unfold streamChain, mbind at 1, prog_bind at 1 in E.
  assert (Ew : sw_policies (authFunc sha256 env o bearer w).1 = sw_policies w).
  { apply (keeps_state (λ v, sw_policies v = sw_policies w) (authFunc sha256 env o bearer) w); [|done]. unfold authFunc, FindRequestBearer, lookupBySecret, List, access. keep; by intros v Hv. }
  destruct (authFunc sha256 env o bearer w) as [w1 [[ai1|e]|]]; [|done|done]. cbn in Ew. unfold rbacStreamInterceptor in E. rewrite Ho in E. cbn [negb] in E. destruct (bool_decide _); [done|].
  destruct (checkAll_run env (subjectOf ai1) "" [actionOf m] w1) as (w2 & res & Ec & _ & _ & Hg). rewrite (bind_run _ _ _ _ _ Ec) in E. destruct res as [[]|]; [|done].
  destruct (Hg eq_refl (actionOf m) ltac:(left)) as (u & p & pol & rl & _ & _ & Hpol & Hrl & Hgr). rewrite Ew in Hpol. destruct (Hns p pol rl Hpol Hrl) as [H1 H2].
  unfold ruleGrants in Hgr. rewrite (bool_decide_false _ H1), (bool_decide_false _ H2) in Hgr. rewrite !andb_true_iff in Hgr. by destruct Hgr as [_ Hgr].
Qed.

Definition scoped_world : sworld :=
  mkSworld {["t" := static_token "t" "u" "rune_s"]} {["u" := mkUser "u" "dev" ["team"]]} {["team" := mkPolicy "" "team" "" [mkPolicyRule "*" ["*"] "dev"] false]} ∅ ∅ ∅ 0.

Lemma scoped_grants_open_no_stream_witness :
  (unaryChain sample_sha growing local_only secured (mkCall "/rune.api.ServiceService/DeleteService" (plain "dev") None (Some "rune_s")) scoped_world).2 = Some (Ok (Some (mkAuthInfo "u" "user"))) ∧
  ∀ w' ai, streamChain sample_sha growing secured "/rune.api.LogService/GetLogs" (Some "rune_s") scoped_world ≠ (w', Some (Ok ai)).
Proof.
  split; [by vm_compute|]. apply (scoped_grants_open_no_stream sample_sha growing secured "/rune.api.LogService/GetLogs" (Some "rune_s") scoped_world); [done|]. intros k pol rl Hk Hr.
  change (({["team" := mkPolicy "" "team" "" [mkPolicyRule "*" ["*"] "dev"] false]} : gmap string Policy) !! k = Some pol) in Hk. apply lookup_singleton_Some in Hk as [_ <-].
  cbn in Hr. apply list_elem_of_singleton in Hr as ->. done.
Defined.

(** Reading the log history takes a verb no reader has: the comment on the table
    says a logs reader needs no new policy. *)
Theorem logs_reader_cannot_query :
  passes "readonly" "/rune.api.ObserveService/GetCapabilities" "prod" = false ∧ passes "readwrite" "/rune.api.ObserveService/GetCapabilities" "prod" = false ∧
  grants (po_Rules readonlyPolicy) "logs" "get" "prod" = true.
Proof. by vm_compute. Qed.

(** Without a peer address the restriction of admin calls to local callers does not
    apply. *)
Theorem admin_gate_open_without_peer :
  adminUnaryInterceptor local_only secured (mkCall "/rune.api.AdminService/PolicyDelete" (plain "") None None) = Ok tt ∧
  adminUnaryInterceptor local_only secured (mkCall "/rune.api.AdminService/PolicyDelete" (plain "") (Some "10.0.0.7") None) = Err GatePermissionDenied.
Proof. by vm_compute. Qed.

(** A bootstrap works again as soon as root's tokens are revoked, although the
    cluster has other administrators. *)
Theorem bootstrap_after_revocation :
  let w1 := Revoke growing "t-root" gate_world in
  passes "admin" "/rune.api.AdminService/UserList" "" = true ∧
  match AdminBootstrap sample_sha growing w1.1 with (_, Some (Ok (tok, _))) => bool_decide (tk_SubjectID tok = "u-root") | _ => false end = true.
Proof. by vm_compute. Qed.

(** A failed listing is taken for a missing user: the name is created a second time,
    and the new user is the one its policies are looked up for when it sorts first. *)
Theorem user_created_twice :
  let env := mkSessionEnv sample_clock (λ n, negb (Nat.eqb n 0)) (λ _, "a") (λ _, None) (λ _ m, m) (λ _ m, m) (λ _ _, true) in
  let w1 := UserCreate env "cast" [] gate_world in
  us_ID <$> w1.2 = Some "a" ∧ length (List.filter (λ u, bool_decide (us_Name u = "cast")) (listing (sw_users w1.1))) = 2%nat.
Proof. by vm_compute. Qed.

(** The subject of a token is matched against names too: a user named like another
    user's identifier takes over its authorization. *)
Theorem name_shadows_identifier :
  let w := mkSworld (sw_tokens gate_world) (<["a" := mkUser "a" "u-readonly" ["root"]]> (sw_users gate_world)) (sw_policies gate_world) ∅ ∅ ∅ 0 in
  passes "readonly" "/rune.api.SecretService/DeleteSecret" "prod" = false ∧
  (unaryChain sample_sha growing local_only secured (call_as "readonly" "/rune.api.SecretService/DeleteSecret" "prod") w).2 = Some (Ok (Some (mkAuthInfo "u-readonly" "user"))).
Proof. by vm_compute. Qed.
