(* ===== verification/Dataplane.v ===== *)
(** * The node's data plane (internal/agent/dataplane, pkg/networking/{endpoints,localinstances})

    The operations that publish endpoint sets and node tables through the
    ordered log, the cache and the table a node builds from them, the policy
    index, the listeners on the services' addresses and what a connection to one
    of them does, and the reconciler that follows the service rows.

    The JSON of the two payloads is a parameter.  Sockets, netlink and the dialer
    answer through arguments; the bytes of an accepted connection, draining and
    the metrics are not modelled. *)

From S2P Require Import Prelude Text Types Status Ipv4 Policy Endpoints EventCodec OrderedLog ReleaseService.
From Stdlib Require Import Ascii.

#[local] Open Scope Z_scope.

(** ** Published records (pkg/types) *)

Record ServiceEndpoints := mkServiceEndpoints { se_ServiceID : string; se_Endpoints : list Endpoint }.
Record LocalInstances := mkLocalInstances { li_NodeID : string; li_Instances : gmap string InstanceIdentity }.

(** The operations of both packages: a record replaced, a record removed. *)
Inductive net_op :=
| updateEndpoints (ServiceID : string) (Endpoints : list Endpoint)
| deleteEndpoints (ServiceID : string)
| updateInstances (NodeID : string) (Instances : gmap string InstanceIdentity)
| deleteInstances (NodeID : string).

Definition OpUpdateEndpoints : bytes := bytes_of "endpoints.update".
Definition OpDeleteEndpoints : bytes := bytes_of "endpoints.delete".
Definition OpUpdateLocalInstances : bytes := bytes_of "local_instances.update".
Definition OpDeleteLocalInstances : bytes := bytes_of "local_instances.delete".

Definition net_OpType (op : net_op) : bytes :=
  match op with
  | updateEndpoints _ _ => OpUpdateEndpoints
  | deleteEndpoints _ => OpDeleteEndpoints
  | updateInstances _ _ => OpUpdateLocalInstances
  | deleteInstances _ => OpDeleteLocalInstances
  end.

Definition epPrefix : bytes := bytes_of "endpoints/".
Definition liPrefix : bytes := bytes_of "local_instances/".
Definition epType : bytes := bytes_of "endpoints".
Definition liType : bytes := bytes_of "local_instances".

Definition ErrServiceIDRequired : string := "endpoints: service ID required".
Definition ErrNodeIDRequired : string := "localinstances: node ID required".
Definition ErrUnexpectedOp : string := "unexpected op type".

(** A Go string read back from its bytes. *)
Fixpoint text_of (b : bytes) : string :=
  match b with
  | [] => EmptyString
  | z :: b => String (ascii_of_nat (Z.to_nat z)) (text_of b)
  end.

Section Dataplane.
Context (MarshalEps : ServiceEndpoints → bytes) (UnmarshalEps : bytes → result string ServiceEndpoints).
Context (MarshalLi : LocalInstances → bytes) (UnmarshalLi : bytes → result string LocalInstances).

(** ** Appliers

    [as_net] is the type assertion on the operation. *)

Section Appliers.
Context {M Op : Type} (as_net : Op → option net_op).

Notation answer := (M * result string (list Mutation))%type.

(** [tx.Set] of one record and its mutation. *)
Definition putRecord (m : M) (prefix rtype : bytes) (name : string) (payload : bytes) : txn answer :=
  TSet (prefix ++ bytes_of name) payload (λ r, TRet (m,
    match r with
    | Err e => Err e
    | Ok _ => Ok [mkMutation MutationPut rtype [] (bytes_of name) payload]
    end)).

Definition deleteRecord (m : M) (prefix rtype : bytes) (name : string) : txn answer :=
  TDel (prefix ++ bytes_of name) (λ r, TRet (m,
    match r with
    | Err e => Err e
    | Ok _ => Ok [mkMutation MutationDelete rtype [] (bytes_of name) []]
    end)).

Definition applyUpdateEndpoints : Applier M Op := λ op m,
  match as_net op with
  | Some (updateEndpoints id eps) =>
      if bool_decide (id = "") then TRet (m, Err ErrServiceIDRequired)
      else putRecord m epPrefix epType id (MarshalEps (mkServiceEndpoints id eps))
  | _ => TRet (m, Err ErrUnexpectedOp)
  end.

Definition applyDeleteEndpoints : Applier M Op := λ op m,
  match as_net op with
  | Some (deleteEndpoints id) =>
      if bool_decide (id = "") then TRet (m, Err ErrServiceIDRequired)
      else deleteRecord m epPrefix epType id
  | _ => TRet (m, Err ErrUnexpectedOp)
  end.

Definition applyUpdateInstances : Applier M Op := λ op m,
  match as_net op with
  | Some (updateInstances node insts) =>
      if bool_decide (node = "") then TRet (m, Err ErrNodeIDRequired)
      else putRecord m liPrefix liType node (MarshalLi (mkLocalInstances node insts))
  | _ => TRet (m, Err ErrUnexpectedOp)
  end.

Definition applyDeleteInstances : Applier M Op := λ op m,
  match as_net op with
  | Some (deleteInstances node) =>
      if bool_decide (node = "") then TRet (m, Err ErrNodeIDRequired)
      else deleteRecord m liPrefix liType node
  | _ => TRet (m, Err ErrUnexpectedOp)
  end.

(** [Register] of one type, tolerating a registration that is already there. *)
Definition registerType (b : Backend M Op) (t : bytes) (a : Applier M Op) : result LogError (Backend M Op) :=
  match OrderedLog.Register b t a with
  | Err ErrAlreadyRegistered => Ok b
  | r => r
  end.

Definition registerEndpoints (b : Backend M Op) : result LogError (Backend M Op) :=
  rbind (registerType b OpUpdateEndpoints applyUpdateEndpoints)
    (λ b, registerType b OpDeleteEndpoints applyDeleteEndpoints).

Definition registerLocalInstances (b : Backend M Op) : result LogError (Backend M Op) :=
  rbind (registerType b OpUpdateLocalInstances applyUpdateInstances)
    (λ b, registerType b OpDeleteLocalInstances applyDeleteInstances).

(** The publishers refuse an empty identifier before proposing. *)
Context (OpType : Op → bytes) (opMarshal : Op → result string bytes) (as_op : net_op → Op).

Definition publisherPropose (b : Backend M Op) (op : net_op) (ctxErr : option string) (x : badger)
    : Backend M Op * result LogError unit :=
  let refused := match op with
    | updateEndpoints id _ | deleteEndpoints id => if bool_decide (id = "") then Some ErrServiceIDRequired else None
    | updateInstances n _ | deleteInstances n => if bool_decide (n = "") then Some ErrNodeIDRequired else None
    end in
  match refused with
  | Some e => (b, Err (ErrLogOther e))
  | None =>
      let '(b, r) := Propose OpType opMarshal b (as_op op) ctxErr x in
      (b, match r with Ok _ => Ok tt | Err e => Err e end)
  end.

(** [EndpointPublisher] (internal/agent/dns/wire.go): an empty set removes the
    record. *)
Definition PublishServiceEndpoints (b : Backend M Op) (service : option Service) (eps : list Endpoint)
    (ctxErr : option string) (x : badger) : Backend M Op * result LogError unit :=
  match service with
  | None => (b, Ok tt)
  | Some s =>
      if bool_decide (s_ID s = "") then (b, Ok tt)
      else match eps with
           | [] => publisherPropose b (deleteEndpoints (s_ID s)) ctxErr x
           | _ => publisherPropose b (updateEndpoints (s_ID s) eps) ctxErr x
           end
  end.

Definition PublishLocalInstances (b : Backend M Op) (nodeID : string) (table : gmap string InstanceIdentity)
    (ctxErr : option string) (x : badger) : Backend M Op * result LogError unit :=
  if bool_decide (nodeID = "") then (b, Ok tt)
  else if bool_decide (table = ∅) then publisherPropose b (deleteInstances nodeID) ctxErr x
  else publisherPropose b (updateInstances nodeID table) ctxErr x.
End Appliers.

(** ** The endpoint cache (cache.go) *)

Notation Cache := (gmap string (list Endpoint)).

(** An empty set stays as an explicit marker. *)
Definition Cache_Set (serviceID : string) (eps : list Endpoint) (c : Cache) : Cache := <[serviceID := eps]> c.
Definition Cache_Delete (serviceID : string) (c : Cache) : Cache := base.delete serviceID c.
Definition Cache_Get (c : Cache) (serviceID : string) : option (list Endpoint) := c !! serviceID.

Definition Cache_Healthy (c : Cache) (serviceID : string) : option (list Endpoint) :=
  match Cache_Get c serviceID with
  | None => None
  | Some all => Some (List.filter ep_Healthy all)
  end.

Record ServiceSummary := mkServiceSummary { sm_ServiceID : string; sm_Total : Z; sm_Healthy : Z }.

(** [Cache.Snapshot], sorted by service. *)
Definition Cache_Snapshot (c : Cache) : list ServiceSummary :=
  SliceStable (λ a b, String.ltb (sm_ServiceID a) (sm_ServiceID b))
    ((λ kv : string * list Endpoint,
        mkServiceSummary kv.1 (Z.of_nat (length kv.2)) (countb ep_Healthy kv.2)) <$> map_to_list c).

(** ** Selection (selection.go)

    [rng] is [rand.Intn]; [None] is the nil generator.  No result is also what
    an index out of range would be, which [Intn] never returns. *)

Definition LocalityNone : string := "".
Definition LocalityPreferLocal : string := "prefer-local".
Definition LocalityLocalOnly : string := "local-only".
Definition metaNodeID : string := "node_id".

Definition filterLocal (eps : list Endpoint) (nodeID : string) : list Endpoint :=
  if bool_decide (nodeID = "") then []
  else List.filter (λ e, bool_decide (ep_Metadata e !! metaNodeID = Some nodeID)) eps.

Definition pickEndpoint (eps : list Endpoint) (rng : option (Z → Z)) : option Endpoint :=
  match rng with
  | None => eps !! 0%nat
  | Some Intn => eps !! Z.to_nat (Intn (Z.of_nat (length eps)))
  end.

Definition selectEndpoint (healthy : list Endpoint) (pref localNodeID : string) (rng : option (Z → Z)) : option Endpoint :=
  match healthy with
  | [] => None
  | _ =>
      let local := filterLocal healthy localNodeID in
      if bool_decide (pref = LocalityLocalOnly) then
        match local with [] => None | _ => pickEndpoint local rng end
      else if bool_decide (pref = LocalityPreferLocal) then
        match local with [] => pickEndpoint healthy rng | _ => pickEndpoint local rng end
      else pickEndpoint healthy rng
  end.

(** ** Services as the data plane reads them *)

Record svc := mkSvc { sv_Service : Service; sv_Discovery : option ServiceDiscovery }.

Definition sv_ID (s : svc) : string := s_ID (sv_Service s).
Definition sv_VIP (s : svc) : string := from_option sd_VIP "" (sv_Discovery s).

(** ** The policy index (dataplane.go) *)

Notation ident := (string * string)%type.   (* namespace, name *)

Record serviceMeta := mkServiceMeta { mt_ident : ident; mt_portNames : gmap Z (list string) }.

Definition addPortName (m : gmap Z (list string)) (p : ServicePort) : gmap Z (list string) :=
  if bool_decide (sp_Name p = "") || (sp_Port p <=? 0) then m
  else <[sp_Port p := default [] (m !! sp_Port p) ++ [sp_Name p]]> m.

Definition metaOf (s : Service) : serviceMeta :=
  let name := if bool_decide (s_Name s = "") then s_ID s else s_Name s in
  mkServiceMeta (s_Namespace s, name) (fold_left addPortName (s_Ports s) ∅).

Record policies := mkPolicies {
  pl_policies : gmap string Compiled;
  pl_svcMeta : gmap string serviceMeta;
  pl_policyByName : gmap ident Compiled;
}.

Definition syncPolicy (s : option Service) (p : policies) : policies :=
  match s with
  | None => p
  | Some s =>
      if bool_decide (s_ID s = "") then p
      else
        let compiled := Compile (Some s) in
        let meta := metaOf s in
        let byName := match pl_svcMeta p !! s_ID s with
          | Some prev =>
              if bool_decide (mt_ident prev = mt_ident meta) then pl_policyByName p
              else base.delete (mt_ident prev) (pl_policyByName p)
          | None => pl_policyByName p
          end in
        let metas := <[s_ID s := meta]> (pl_svcMeta p) in
        match compiled with
        | None => mkPolicies (base.delete (s_ID s) (pl_policies p)) metas (base.delete (mt_ident meta) byName)
        | Some c => mkPolicies (<[s_ID s := c]> (pl_policies p)) metas (<[mt_ident meta := c]> byName)
        end
  end.

Definition dropPolicy (serviceID : string) (p : policies) : policies :=
  let '(metas, byName) := match pl_svcMeta p !! serviceID with
    | Some meta => (base.delete serviceID (pl_svcMeta p), base.delete (mt_ident meta) (pl_policyByName p))
    | None => (pl_svcMeta p, pl_policyByName p)
    end in
  mkPolicies (base.delete serviceID (pl_policies p)) metas byName.

Definition HasIngressRules (c : option Compiled) : bool := from_option c_hasIngress false c.
Definition HasEgressRules (c : option Compiled) : bool := from_option c_hasEgress false c.

Definition zero_meta : serviceMeta := mkServiceMeta ("", "") ∅.

Definition PolicyFor (p : policies) (serviceID : string) : option Compiled := pl_policies p !! serviceID.

Definition evaluatePolicy (p : policies) (table : LocalInstancesTable) (serviceID : string)
    (srcIP dstIP : option Z) (port : Z) (proto : string) : Result :=
  let peer := PeerInfoFor table srcIP in
  let dstPolicy := pl_policies p !! serviceID in
  let dst := default zero_meta (pl_svcMeta p !! serviceID) in
  let srcPolicy := match pi_Identity peer with
    | Some i => if pi_SameNode peer then pl_policyByName p !! (id_Namespace i, id_Service i) else None
    | None => None
    end in
  let ingress := EvaluateIngress dstPolicy peer port proto in
  if HasEgressRules srcPolicy then
    let res := EvaluateEgress srcPolicy
      {| t_Service := (mt_ident dst).2; t_Namespace := (mt_ident dst).1; t_Port := port;
         t_PortNames := default [] (mt_portNames dst !! port); t_IP := dstIP |} proto in
    match res_Decision res with
    | DecisionDeny => res
    | DecisionAllow => if HasIngressRules dstPolicy then ingress else res
    | DecisionNoPolicy => ingress
    end
  else ingress.

(** ** Configuration and state *)

Inductive Mode := ModeProduction | ModeDev.

#[global] Instance Mode_eq_dec : EqDecision Mode.
Proof. solve_decision. Defined.

Definition DefaultStaleBudget : Duration := 30 * Second.

Record Config := mkConfig {
  cf_HasStore : bool;
  cf_VIPResolver : option (string → result string (option Z));
  cf_Node : option string;
  cf_Mode : Mode;
  cf_ReservedHostPorts : list Z;
  cf_StaleBudget : Duration;
}.

(** What the sockets and netlink answer: whether a listen on
    (protocol, address, port), an address added to or removed from loopback
    succeeds. *)
Record net_env := mkNetEnv {
  ne_listen : string → string → Z → bool;
  ne_addrAdd : string → bool;
  ne_addrDel : string → bool;
}.

Notation listenerKey := (string * Z * string)%type.   (* service, port, protocol *)

Record listener := mkListener {
  ln_namespace : string;
  ln_servicePort : Z;
  ln_targetPort : Z;
  ln_addr : string * Z;
  ln_pref : string;
  ln_localNode : string;
}.

Record ProxyManager := mkProxyManager {
  pm_stopped : bool;
  pm_listeners : gmap listenerKey listener;
  pm_services : gmap string svc;
}.

(** [localVIPHost]: the reference counts; [vh_lo] are the addresses on loopback. *)
Record localVIPHost := mkLocalVIPHost { vh_refs : gmap string Z; vh_lo : gset string }.

Record Subsystem := mkSubsystem {
  d_cache : Cache;
  d_localInstances : LocalInstancesTable;
  d_lastEvent : Time;
  d_policies : policies;
  d_proxy : ProxyManager;
  d_vipHost : localVIPHost;
  d_svcRegistered : gmap string string;
  d_started : bool;
  d_stopped : bool;
}.

(** [New], without the registration of the operations. *)
Definition newConfig (cfg : Config) : Config :=
  mkConfig (cf_HasStore cfg) (cf_VIPResolver cfg) (cf_Node cfg) (cf_Mode cfg) (cf_ReservedHostPorts cfg)
    (if cf_StaleBudget cfg <=? 0 then DefaultStaleBudget else cf_StaleBudget cfg).

Definition newSubsystem (cfg : Config) : Subsystem :=
  mkSubsystem ∅ (NewLocalInstancesTable (default "" (cf_Node cfg))) 0 (mkPolicies ∅ ∅ ∅) (mkProxyManager false ∅ ∅)
    (mkLocalVIPHost ∅ ∅) ∅ false false.

Definition with_view (st : Subsystem) (c : Cache) (t : LocalInstancesTable) : Subsystem :=
  mkSubsystem c t (d_lastEvent st) (d_policies st) (d_proxy st) (d_vipHost st) (d_svcRegistered st) (d_started st) (d_stopped st).
Definition with_policies (st : Subsystem) (p : policies) : Subsystem :=
  mkSubsystem (d_cache st) (d_localInstances st) (d_lastEvent st) p (d_proxy st) (d_vipHost st) (d_svcRegistered st)
    (d_started st) (d_stopped st).
Definition with_proxy (st : Subsystem) (pm : ProxyManager) : Subsystem :=
  mkSubsystem (d_cache st) (d_localInstances st) (d_lastEvent st) (d_policies st) pm (d_vipHost st) (d_svcRegistered st)
    (d_started st) (d_stopped st).
Definition with_vips (st : Subsystem) (h : localVIPHost) (reg : gmap string string) : Subsystem :=
  mkSubsystem (d_cache st) (d_localInstances st) (d_lastEvent st) (d_policies st) (d_proxy st) h reg (d_started st) (d_stopped st).
Definition with_run (st : Subsystem) (last : Time) (started stopped : bool) : Subsystem :=
  mkSubsystem (d_cache st) (d_localInstances st) last (d_policies st) (d_proxy st) (d_vipHost st) (d_svcRegistered st)
    started stopped.

(** ** Freshness *)

Definition fresh (cfg : Config) (now : Time) (st : Subsystem) : bool :=
  if IsZero (d_lastEvent st) then false else Sub now (d_lastEvent st) <=? cf_StaleBudget cfg.

Definition markFresh (now : Time) (st : Subsystem) : Subsystem := with_run st now (d_started st) (d_stopped st).

(** ** Loopback addresses (vip_host_linux.go)

    A nil address is ignored. *)

Definition addLoopbackVIP (env : net_env) (key : string) (lo : gset string) : option (gset string) :=
  if ne_addrAdd env key then Some ({[key]} ∪ lo) else None.

Definition vip_add (env : net_env) (ip : option Z) (h : localVIPHost) : localVIPHost * bool :=
  match ip with
  | None => (h, true)
  | Some z =>
      let key := IP_String z in
      let n := default 0 (vh_refs h !! key) in
      if 0 <? n then (mkLocalVIPHost (<[key := n + 1]> (vh_refs h)) (vh_lo h), true)
      else match addLoopbackVIP env key (vh_lo h) with
           | None => (h, false)
           | Some lo => (mkLocalVIPHost (<[key := 1]> (vh_refs h)) lo, true)
           end
  end.

Definition vip_remove (env : net_env) (ip : option Z) (h : localVIPHost) : localVIPHost :=
  match ip with
  | None => h
  | Some z =>
      let key := IP_String z in
      let n := default 0 (vh_refs h !! key) in
      if n <=? 1 then
        mkLocalVIPHost (base.delete key (vh_refs h)) (if ne_addrDel env key then vh_lo h ∖ {[key]} else vh_lo h)
      else mkLocalVIPHost (<[key := n - 1]> (vh_refs h)) (vh_lo h)
  end.

(** ** Listeners (proxy.go) *)

Definition PortReserved (reserved : list Z) (port : Z) : bool := existsb (λ r, r =? port) reserved.

Definition normalizeProtocol (p : string) : string := if bool_decide (ToLower p = "udp") then "udp" else "tcp".

Definition bindIPFor (cfg : Config) (s : svc) : result string Z :=
  if bool_decide (cf_Mode cfg = ModeDev) then Ok 2130706433   (* 127.0.0.1 *)
  else if bool_decide (sv_VIP s = "") then Err "service has no VIP"
  else match ParseIP (sv_VIP s) with
       | None => Err "service has invalid VIP"
       | Some ip => Ok ip
       end.

Definition openListener (env : net_env) (cfg : Config) (s : svc) (p : ServicePort) (proto : string) (bindIP : Z)
    : option listener :=
  if ne_listen env proto (IP_String bindIP) (sp_Port p) then
    Some {| ln_namespace := s_Namespace (sv_Service s); ln_servicePort := sp_Port p;
            ln_targetPort := if sp_TargetPort p =? 0 then sp_Port p else sp_TargetPort p;
            ln_addr := (IP_String bindIP, sp_Port p);
            ln_pref := from_option sd_LocalityPreference "" (sv_Discovery s);
            ln_localNode := default "" (cf_Node cfg) |}
  else None.

Definition portKey (id : string) (p : ServicePort) : listenerKey := (id, sp_Port p, normalizeProtocol (sp_Protocol p)).

(** The loop over the ports: the keys wanted, and the listeners opened so far
    also when a port fails. *)
Fixpoint openPorts (env : net_env) (cfg : Config) (s : svc) (bindIP : Z) (ports : list ServicePort)
    (want : gset listenerKey) (lns : gmap listenerKey listener)
    : gmap listenerKey listener * result string (gset listenerKey) :=
  match ports with
  | [] => (lns, Ok want)
  | p :: ports =>
      if PortReserved (cf_ReservedHostPorts cfg) (sp_Port p) then openPorts env cfg s bindIP ports want lns
      else
        let key := portKey (sv_ID s) p in
        let want := {[key]} ∪ want in
        match lns !! key with
        | Some _ => openPorts env cfg s bindIP ports want lns
        | None =>
            match openListener env cfg s p key.2 bindIP with
            | None => (lns, Err "listen failed")
            | Some ln => openPorts env cfg s bindIP ports want (<[key := ln]> lns)
            end
        end
  end.

Definition Proxy_Register (env : net_env) (cfg : Config) (s : svc) (pm : ProxyManager) : ProxyManager * result string unit :=
  if pm_stopped pm then (pm, Err "dataplane: proxy stopped")
  else if bool_decide (sv_ID s = "") then (pm, Err "dataplane: service has no ID")
  else match bindIPFor cfg s with
  | Err e => (pm, Err e)
  | Ok bindIP =>
      let services := <[sv_ID s := s]> (pm_services pm) in
      match openPorts env cfg s bindIP (s_Ports (sv_Service s)) ∅ (pm_listeners pm) with
      | (lns, Err e) => (mkProxyManager false lns services, Err e)
      | (lns, Ok want) =>
          (mkProxyManager false (base.filter (λ kl : listenerKey * listener, kl.1.1.1 ≠ sv_ID s ∨ kl.1 ∈ want) lns) services, Ok tt)
      end
  end.

Definition Proxy_Unregister (serviceID : string) (pm : ProxyManager) : ProxyManager :=
  mkProxyManager (pm_stopped pm) (base.filter (λ kl : listenerKey * listener, kl.1.1.1 ≠ serviceID) (pm_listeners pm))
    (base.delete serviceID (pm_services pm)).

Definition Proxy_Shutdown (pm : ProxyManager) : ProxyManager := mkProxyManager true ∅ (pm_services pm).

(** ** Connections *)

(** The label of the connection counter. *)
Inductive label :=
| stale_watch | policy_denied | no_endpoints | no_local_endpoint | dial_failed | write_failed | ok_no_reply | reply_failed | connected.

(** [listener.endpointPort]. *)
Definition endpointPort (l : listener) (ep : Endpoint) : Z := if 0 <? ln_targetPort l then ln_targetPort l else ep_Port ep.

(** What the handlers do before they dial: the refusal, or the target. *)
Definition route (cfg : Config) (now : Time) (rng : option (Z → Z)) (st : Subsystem) (serviceID : string) (l : listener)
    (src dst : option Z) (proto : string) : label + (string * Z) :=
  if negb (fresh cfg now st) then inl stale_watch
  else
    let res := evaluatePolicy (d_policies st) (d_localInstances st) serviceID src dst (ln_servicePort l) proto in
    if bool_decide (res_Decision res = DecisionDeny) then inl policy_denied
    else match Cache_Healthy (d_cache st) serviceID with
    | None | Some [] => inl no_endpoints
    | Some healthy =>
        match selectEndpoint healthy (ln_pref l) (ln_localNode l) rng with
        | None => inl no_local_endpoint
        | Some ep => inr (ep_IP ep, endpointPort l ep)
        end
    end.

(** The label counted, and the target dialled if it came to that. *)
Definition handleTCP (cfg : Config) (now : Time) (rng : option (Z → Z)) (dials : string * Z → bool) (st : Subsystem)
    (serviceID : string) (l : listener) (src dst : option Z) : label * option (string * Z) :=
  match route cfg now rng st serviceID l src dst "tcp" with
  | inl r => (r, None)
  | inr target => (if dials target then connected else dial_failed, Some target)
  end.

(** The upstream socket's answers to one datagram. *)
Record udp_env := mkUdpEnv { ue_dials : bool; ue_writes : bool; ue_replies : bool; ue_returns : bool }.

Definition handleUDP (cfg : Config) (now : Time) (rng : option (Z → Z)) (env : string * Z → udp_env) (st : Subsystem)
    (serviceID : string) (l : listener) (src dst : option Z) : label * option (string * Z) :=
  match route cfg now rng st serviceID l src dst "udp" with
  | inl r => (r, None)
  | inr target =>
      let e := env target in
      (if negb (ue_dials e) then dial_failed
       else if negb (ue_writes e) then write_failed
       else if negb (ue_replies e) then ok_no_reply
       else if negb (ue_returns e) then reply_failed
       else connected, Some target)
  end.

(** [listener.deniedBy]. *)
Definition deniedBy (serviceID : string) (res : Result) : string :=
  if bool_decide (nn_Name (res_PolicyOwner res) = "") then serviceID else nn_Name (res_PolicyOwner res).

(** ** Services (dataplane.go, service_reconciler.go, vip_resolver.go) *)

Definition RegisterService (env : net_env) (cfg : Config) (s : option svc) (st : Subsystem) : Subsystem * result string unit :=
  match s with
  | None => (st, Err "dataplane: nil service")
  | Some s =>
      let st := with_policies st (syncPolicy (Some (sv_Service s)) (d_policies st)) in
      let '(pm, r) := Proxy_Register env cfg s (d_proxy st) in (with_proxy st pm, r)
  end.

Definition UnregisterService (serviceID : string) (st : Subsystem) : Subsystem :=
  with_proxy st (Proxy_Unregister serviceID (d_proxy st)).

Definition enrichServiceVIP (s : svc) (resolver : option (string → result string (option Z))) : result string svc :=
  if bool_decide (sv_ID s = "") then Ok s
  else if negb (bool_decide (sv_VIP s = "")) then Ok s
  else match resolver with
  | None => Err "no VIP and no resolver configured"
  | Some f =>
      match f (sv_ID s) with
      | Err e => Err e
      | Ok None => Err "nil VIP"
      | Ok (Some ip) =>
          let d := default (mkServiceDiscovery "" "" "") (sv_Discovery s) in
          Ok (mkSvc (sv_Service s) (Some (mkServiceDiscovery (sd_Mode d) (IP_String ip) (sd_LocalityPreference d))))
      end
  end.

(** The listeners and the address of a registration under another address. *)
Definition releaseOld (env : net_env) (cfg : Config) (serviceID oldVIP : string) (st : Subsystem) : Subsystem :=
  let st := UnregisterService serviceID st in
  let h := if negb (bool_decide (oldVIP = "")) && bool_decide (cf_Mode cfg = ModeProduction)
           then vip_remove env (ParseIP oldVIP) (d_vipHost st) else d_vipHost st in
  with_vips st h (base.delete serviceID (d_svcRegistered st)).

Definition registerServiceDataplane (env : net_env) (cfg : Config) (s : svc) (st : Subsystem) : Subsystem * result string unit :=
  let newVIP := sv_VIP s in
  let registered := d_svcRegistered st !! sv_ID s in
  let needVIPAdd := negb (bool_decide (registered = Some newVIP)) in
  let st := match registered with
    | Some oldVIP => if bool_decide (oldVIP = newVIP) then st else releaseOld env cfg (sv_ID s) oldVIP st
    | None => st
    end in
  let added :=
    if needVIPAdd && bool_decide (cf_Mode cfg = ModeProduction) && negb (bool_decide (newVIP = "")) then
      match ParseIP newVIP with
      | None => Err "invalid VIP"
      | Some ip =>
          let '(h, ok) := vip_add env (Some ip) (d_vipHost st) in
          if ok then Ok (with_vips st h (d_svcRegistered st)) else Err "add loopback VIP"
      end
    else Ok st in
  match added with
  | Err e => (st, Err e)
  | Ok st =>
      let '(st, r) := RegisterService env cfg (Some s) st in
      match r with
      | Err e =>
          (if needVIPAdd && negb (bool_decide (newVIP = "")) then
             with_vips st (vip_remove env (ParseIP newVIP) (d_vipHost st)) (d_svcRegistered st)
           else st, Err e)
      | Ok _ => (with_vips st (d_vipHost st) (<[sv_ID s := newVIP]> (d_svcRegistered st)), Ok tt)
      end
  end.

(** The state, the row written back to the store, and the outcome. *)
Definition reconcileOneService (env : net_env) (cfg : Config) (s : option svc) (backfillStore : bool) (st : Subsystem)
    : Subsystem * option svc * result string unit :=
  match s with
  | None => (st, None, Ok tt)
  | Some s =>
      if bool_decide (sv_ID s = "") then (st, None, Ok tt)
      else
        let st := with_policies st (syncPolicy (Some (sv_Service s)) (d_policies st)) in
        if bool_decide (s_Ports (sv_Service s) = []) then (st, None, Ok tt)
        else match enrichServiceVIP s (cf_VIPResolver cfg) with
        | Err e => (st, None, Err e)
        | Ok s' =>
            let written := if backfillStore && bool_decide (sv_VIP s = "") && negb (bool_decide (sv_VIP s' = ""))
                              && cf_HasStore cfg then Some s' else None in
            let '(st, r) := registerServiceDataplane env cfg s' st in (st, written, r)
        end
  end.

Definition unregisterServiceDataplane (env : net_env) (cfg : Config) (s : option svc) (st : Subsystem) : Subsystem :=
  match s with
  | None => st
  | Some s =>
      let registered := d_svcRegistered st !! sv_ID s in
      let st := with_vips st (d_vipHost st) (base.delete (sv_ID s) (d_svcRegistered st)) in
      let st := UnregisterService (sv_ID s) st in
      let st := with_policies st (dropPolicy (sv_ID s) (d_policies st)) in
      match registered with
      | Some vip =>
          if negb (bool_decide (vip = "")) && bool_decide (cf_Mode cfg = ModeProduction) then
            with_vips st (vip_remove env (ParseIP vip) (d_vipHost st)) (d_svcRegistered st)
          else st
      | None => st
      end
  end.

(** [store.WatchEvent] on a service row; [None] is a resource that is none. *)
Inductive serviceEvent := svcCreated (s : option svc) | svcUpdated (s : option svc) | svcDeleted (s : option svc).

Definition handleServiceWatchEvent (env : net_env) (cfg : Config) (ev : serviceEvent) (st : Subsystem)
    : Subsystem * option svc :=
  match ev with
  | svcDeleted s => (unregisterServiceDataplane env cfg s st, None)
  | svcCreated None | svcUpdated None => (st, None)
  | svcCreated (Some s) | svcUpdated (Some s) =>
      if bool_decide (s_Status (sv_Service s) = ServiceStatusDeleted) then
        (unregisterServiceDataplane env cfg (Some s) st, None)
      else let '(st, written, _) := reconcileOneService env cfg (Some s) true st in (st, written)
  end.

(** [rows] is the listing; [None] when it fails. *)
Definition reconcileServicesFromStore (env : net_env) (cfg : Config) (rows : option (list svc)) (st : Subsystem)
    : Subsystem * result string unit :=
  if negb (cf_HasStore cfg) then (st, Ok tt)
  else match rows with
  | None => (st, Err "list services")
  | Some rows => (fold_left (λ st s, (reconcileOneService env cfg (Some s) false st).1.1) rows st, Ok tt)
  end.

(** [order] lists the registrations as Go happens to range over them. *)
Definition teardownServiceVIPs (env : net_env) (cfg : Config) (order : gmap string string → list (string * string))
    (st : Subsystem) : Subsystem :=
  let h := if bool_decide (cf_Mode cfg = ModeProduction) then
      fold_left (λ h (kv : string * string), if bool_decide (kv.2 = "") then h else vip_remove env (ParseIP kv.2) h)
        (order (d_svcRegistered st)) (d_vipHost st)
    else d_vipHost st in
  with_vips st h ∅.

(** ** Following the log (dataplane.go) *)

Section Log.
Context (order : gmap string (gmap string InstanceIdentity) → list (string * gmap string InstanceIdentity)).

Notation view := (Cache * LocalInstancesTable)%type.

Definition applyEndpointsMutation (m : Mutation) (c : Cache) : Cache :=
  if mut_Kind m =? MutationDelete then Cache_Delete (text_of (mut_Name m)) c
  else if mut_Kind m =? MutationPut then
    match UnmarshalEps (mut_Payload m) with
    | Ok se => Cache_Set (se_ServiceID se) (se_Endpoints se) c
    | Err _ => c
    end
  else c.

Definition applyLocalInstancesMutation (m : Mutation) (t : LocalInstancesTable) : LocalInstancesTable :=
  if mut_Kind m =? MutationDelete then (Remove order (text_of (mut_Name m)) t).1
  else if mut_Kind m =? MutationPut then
    match UnmarshalLi (mut_Payload m) with
    | Ok li => (Apply order (li_NodeID li) (li_Instances li) t).1
    | Err _ => t
    end
  else t.

Definition applyMutation (v : view) (m : Mutation) : view :=
  if bool_decide (mut_ResourceType m = epType) then (applyEndpointsMutation m v.1, v.2)
  else if bool_decide (mut_ResourceType m = liType) then (v.1, applyLocalInstancesMutation m v.2)
  else v.

Definition applyEvent (v : view) (ev : Event) : view := fold_left applyMutation (ev_Mutations ev) v.

(** [hydrate] from a snapshot, on top of what is there. *)
Definition hydrateEndpoint (c : Cache) (kv : bytes * bytes) : Cache :=
  match UnmarshalEps kv.2 with Ok se => Cache_Set (se_ServiceID se) (se_Endpoints se) c | Err _ => c end.

Definition hydrateInstances (t : LocalInstancesTable) (kv : bytes * bytes) : LocalInstancesTable :=
  match UnmarshalLi kv.2 with Ok li => (Apply order (li_NodeID li) (li_Instances li) t).1 | Err _ => t end.

Definition hydrate (d : db) (v : view) : view :=
  (fold_left hydrateEndpoint (Range d epPrefix) v.1, fold_left hydrateInstances (Range d liPrefix) v.2).

(** [consume] on one event: the view, the position and the clock. *)
Definition consumeEvent (now : Time) (ev : Event) (cur : Z) (st : Subsystem) : Subsystem * Z :=
  let v := applyEvent (d_cache st, d_localInstances st) ev in
  (markFresh now (with_view st v.1 v.2), ev_Seq ev).

(** One round of [watchLoop]: the answer of the subscription, and what a
    re-hydration reads. *)
Inductive watchAnswer := subscribed | compacted (snap : option (db * Z)) | failed.

Definition watchRound (now : Time) (a : watchAnswer) (cur : Z) (st : Subsystem) : Subsystem * Z :=
  match a with
  | subscribed => (markFresh now st, cur)
  | compacted None | failed => (st, cur)
  | compacted (Some (d, seq)) =>
      let v := hydrate d (d_cache st, d_localInstances st) in (markFresh now (with_view st v.1 v.2), seq)
  end.

(** [Start] up to the two goroutines: the position to watch from. *)
Definition Start (env : net_env) (cfg : Config) (now : Time) (snap : option (db * Z)) (rows : option (list svc))
    (watch_ok : bool) (st : Subsystem) : Subsystem * result string Z :=
  if d_started st then (st, Err "dataplane: already started")
  else
    let st := with_run st (d_lastEvent st) true (d_stopped st) in
    match snap with
    | None => (st, Err "dataplane: hydrate")
    | Some (d, seq) =>
        let v := hydrate d (d_cache st, d_localInstances st) in
        let st := markFresh now (with_view st v.1 v.2) in
        let st := if cf_HasStore cfg then (reconcileServicesFromStore env cfg rows st).1 else st in
        if cf_HasStore cfg && negb watch_ok then (st, Err "dataplane: service watch") else (st, Ok seq)
    end.
End Log.

Definition Stop (env : net_env) (cfg : Config) (order : gmap string string → list (string * string)) (st : Subsystem) : Subsystem :=
  if negb (d_started st) || d_stopped st then st
  else
    let st := with_run st (d_lastEvent st) (d_started st) true in
    let st := teardownServiceVIPs env cfg order st in
    with_proxy st (Proxy_Shutdown (d_proxy st)).

(** ** Reconnecting *)

Record backoff := mkBackoff { bo_cur : Duration; bo_min : Duration; bo_max : Duration }.

Definition DefaultReconnectMinDelay : Duration := 200000000.
Definition DefaultReconnectMaxDelay : Duration := 5 * Second.

Definition reconnectDelay : backoff := mkBackoff DefaultReconnectMinDelay DefaultReconnectMinDelay DefaultReconnectMaxDelay.

Definition backoff_next (b : backoff) : Duration * backoff :=
  let c := bo_cur b * 2 in (bo_cur b, mkBackoff (if bo_max b <? c then bo_max b else c) (bo_min b) (bo_max b)).

Definition backoff_reset (b : backoff) : backoff := mkBackoff (bo_min b) (bo_min b) (bo_max b).

End Dataplane.
