(* ===== verification/DataplaneProps.v ===== *)
(** * The data plane: the policy index, the addresses and the listeners

    The index the reconciler keeps decides a connection as the written policies
    of the services it knows; a listener is open for each unreserved port of a
    registered service, and the loopback addresses are counted exactly. *)

From S2P Require Import Prelude Types Status Ipv4 Policy PolicyProps Endpoints ReleaseService Dataplane.

#[local] Open Scope Z_scope.

(** ** The policy index *)

Definition ident_of (s : Service) : string * string := mt_ident (metaOf s).

(** No two known services are addressed alike, and none lacks an identifier. *)
Definition idents_unique (known : gmap string Service) : Prop :=
  ∀ id id' s s', known !! id = Some s → known !! id' = Some s' → ident_of s = ident_of s' → id = id'.

(** The index is the one of the known services. *)
Record index_ok (known : gmap string Service) (p : policies) : Prop := {
  ix_unique : idents_unique known;
  ix_ids : ∀ id s, known !! id = Some s → s_ID s = id ∧ id ≠ "";
  ix_policies : ∀ id, pl_policies p !! id = known !! id ≫= (λ s, Compile (Some s));
  ix_meta : ∀ id, pl_svcMeta p !! id = metaOf <$> known !! id;
  ix_names : ∀ i c, pl_policyByName p !! i = Some c ↔
    ∃ id s, known !! id = Some s ∧ ident_of s = i ∧ Compile (Some s) = Some c;
}.

Definition known_sync (s : Service) (known : gmap string Service) : gmap string Service :=
  if bool_decide (s_ID s = "") then known else <[s_ID s := s]> known.

(** The service takes no address another known one has. *)
Definition ident_free (s : Service) (known : gmap string Service) : Prop :=
  ∀ id s', known !! id = Some s' → id ≠ s_ID s → ident_of s' ≠ ident_of s.

Lemma index_ok_empty : index_ok ∅ (mkPolicies ∅ ∅ ∅).
Proof.
  split; try done. intros i c. split; [done|]. by intros (id & s & H & _).
Qed.

Lemma known_sync_unique s known :
  idents_unique known → ident_free s known → idents_unique (<[s_ID s := s]> known).
Proof.
  intros Hu Hf id id' x x' [[<- <-]|[Hn Hx]]%lookup_insert_Some [[<- <-]|[Hn' Hx']]%lookup_insert_Some Heq; try done.
  - exfalso. by apply (Hf id' x').
  - exfalso. by apply (Hf id x).
  - by eapply Hu.
Qed.

(** What is left of the name index once the slot of the old name is freed. *)
Lemma freed_names known p s i c :
  index_ok known p →
  let byName := match pl_svcMeta p !! s_ID s with
    | Some prev => if bool_decide (mt_ident prev = ident_of s) then pl_policyByName p
                   else base.delete (mt_ident prev) (pl_policyByName p)
    | None => pl_policyByName p
    end in
  i ≠ ident_of s →
  byName !! i = Some c ↔ ∃ id x, known !! id = Some x ∧ id ≠ s_ID s ∧ ident_of x = i ∧ Compile (Some x) = Some c.
Proof.
  intros Hok byName Hi. subst byName.
  assert (away : (∀ j x, known !! j = Some x → j = s_ID s → ident_of x = i → False) →
    (∃ id x, known !! id = Some x ∧ ident_of x = i ∧ Compile (Some x) = Some c) ↔
    ∃ id x, known !! id = Some x ∧ id ≠ s_ID s ∧ ident_of x = i ∧ Compile (Some x) = Some c).
  { intros Hn. split; intros (j & x & Hx & H); exists j, x; [|intuition]. destruct H. eauto 6. } rewrite (ix_meta _ _ Hok).
  destruct (known !! s_ID s) as [prev|] eqn:Hp; cbn [fmap option_fmap option_map].
  - change (mt_ident (metaOf prev)) with (ident_of prev). case_bool_decide as Hid.
    + rewrite (ix_names _ _ Hok). apply away. intros j x Hx -> He. apply Hi. congruence.
    + destruct (decide (i = ident_of prev)) as [->|Hne].
      * rewrite lookup_delete_eq. split; [done|]. intros (id & x & Hx & Hn & He & _).
        by destruct Hn; apply (ix_unique _ _ Hok id (s_ID s) x prev).
      * rewrite lookup_delete_ne by done. rewrite (ix_names _ _ Hok). apply away. intros j x Hx -> He. congruence.
  - rewrite (ix_names _ _ Hok). apply away. intros j x Hx -> He. congruence.
Qed.

Lemma syncPolicy_ok known p s :
  index_ok known p → ident_free s known → index_ok (known_sync s known) (syncPolicy (Some s) p).
Proof.
  intros Hok Hf. unfold syncPolicy, known_sync. case_bool_decide as Hid; [done|].
  assert (Hnames := λ i c, freed_names known p s i c Hok). cbv zeta in Hnames.
  change (mt_ident (metaOf s)) with (ident_of s). set (byName := match pl_svcMeta p !! s_ID s with Some _ => _ | None => _ end) in *.
  assert (Hids : ∀ id x, <[s_ID s:=s]> known !! id = Some x → s_ID x = id ∧ id ≠ "").
  { intros id x [[<- <-]|[? ?]]%lookup_insert_Some; [done|by eapply (ix_ids _ _ Hok)]. }
  assert (Hmeta : ∀ id, <[s_ID s:=metaOf s]> (pl_svcMeta p) !! id = metaOf <$> <[s_ID s:=s]> known !! id).
  { intros id. destruct (decide (id = s_ID s)) as [->|]; [by rewrite !lookup_insert_eq|].
    rewrite !lookup_insert_ne by done. apply (ix_meta _ _ Hok). }
  assert (Hother : ∀ i c, i ≠ ident_of s → byName !! i = Some c ↔
    ∃ id x, <[s_ID s:=s]> known !! id = Some x ∧ ident_of x = i ∧ Compile (Some x) = Some c).
  { intros i c Hi. rewrite (Hnames i c Hi). split.
    - intros (id & x & Hx & Hn & He & Hc). exists id, x. by rewrite lookup_insert_ne.
    - intros (id & x & [[<- <-]|[? ?]]%lookup_insert_Some & He & Hc); [done|]. exists id, x. done. }
  assert (Hself : ∀ id x, <[s_ID s:=s]> known !! id = Some x → ident_of x = ident_of s → x = s).
  { intros id x [[<- <-]|[Hn Hx]]%lookup_insert_Some He; [done|]. by destruct (Hf id x). }
  destruct (Compile (Some s)) as [c0|] eqn:Hc; split; cbn [pl_policies pl_svcMeta pl_policyByName];
    try done; try (by apply known_sync_unique; [apply (ix_unique _ _ Hok)|]).
  - intros id. destruct (decide (id = s_ID s)) as [->|]; [by rewrite !lookup_insert_eq|].
    rewrite !lookup_insert_ne by done. apply (ix_policies _ _ Hok).
  - intros i c. destruct (decide (i = ident_of s)) as [->|Hi]; [|by rewrite lookup_insert_ne, Hother].
    rewrite lookup_insert_eq. split.
    + intros [= <-]. exists (s_ID s), s. by rewrite lookup_insert_eq.
    + intros (id & x & Hx & He & Hcx). apply Hself in Hx as ->; [|done]. congruence.
  - intros id. destruct (decide (id = s_ID s)) as [->|]; [by rewrite lookup_delete_eq, lookup_insert_eq|].
    rewrite lookup_insert_ne, lookup_delete_ne by done. apply (ix_policies _ _ Hok).
  - intros i c. destruct (decide (i = ident_of s)) as [->|Hi]; [|by rewrite lookup_delete_ne, Hother].
    rewrite lookup_delete_eq. split; [done|]. intros (id & x & Hx & He & Hcx). apply Hself in Hx as ->; [|done]. congruence.
Qed.

Lemma dropPolicy_ok known p id : index_ok known p → index_ok (base.delete id known) (dropPolicy id p).
Proof.
  intros Hok. unfold dropPolicy. rewrite (ix_meta _ _ Hok).
  assert (Hpol : ∀ j, base.delete id (pl_policies p) !! j = base.delete id known !! j ≫= (λ s, Compile (Some s))).
  { intros j. destruct (decide (j = id)) as [->|]; [by rewrite !lookup_delete_eq|].
    rewrite !lookup_delete_ne by done. apply (ix_policies _ _ Hok). }
  assert (Hu : idents_unique (base.delete id known)).
  { intros a b x y [_ Ha]%lookup_delete_Some [_ Hb]%lookup_delete_Some. by apply (ix_unique _ _ Hok). }
  assert (Hids : ∀ j s, base.delete id known !! j = Some s → s_ID s = j ∧ j ≠ "").
  { intros j s [_ Hj]%lookup_delete_Some. by apply (ix_ids _ _ Hok). }
  destruct (known !! id) as [s|] eqn:Hs; cbn [fmap option_fmap option_map]; split; try done; cbn [pl_svcMeta pl_policyByName].
  - intros j. destruct (decide (j = id)) as [->|]; [by rewrite !lookup_delete_eq|].
    rewrite !lookup_delete_ne by done. apply (ix_meta _ _ Hok).
  - intros i c. change (mt_ident (metaOf s)) with (ident_of s). rewrite lookup_delete_Some, (ix_names _ _ Hok). split.
    + intros [Hne (j & x & Hj & He & Hc)]. exists j, x. split; [|done]. apply lookup_delete_Some. split; [|done]. congruence.
    + intros (j & x & [Hne Hj]%lookup_delete_Some & He & Hc). split; [|eauto].
      intros Hi. subst i. by destruct Hne; apply (ix_unique _ _ Hok id j s x).
  - intros j. rewrite (ix_meta _ _ Hok). by rewrite (delete_id known).
  - intros i c. rewrite (ix_names _ _ Hok). by rewrite (delete_id known).
Qed.

(** ** What the index decides *)

Lemma portNames_lookup ports m port :
  default [] (fold_left addPortName ports m !! port) = default [] (m !! port) ++ names_of (portNamesOf ports) port.
Proof.
  revert m. induction ports as [|p ports IH]; intros m; cbn [fold_left portNamesOf]; [by rewrite app_nil_r|].
  rewrite IH. unfold addPortName, portNamesOf, names_of. cbn [omap list_omap].
  destruct (bool_decide (sp_Name p = "") || (sp_Port p <=? 0)); [done|]. cbn [omap list_omap].
  cbn [fst snd]. destruct (sp_Port p =? port) eqn:E; bools.
  - subst port. rewrite lookup_insert_eq. cbn. by rewrite <- app_assoc.
  - by rewrite lookup_insert_ne.
Qed.

(** The destination of a connection, as egress rules see it. *)
Definition target_of (known : gmap string Service) (id : string) (dst : option Z) (port : Z) : EgressTarget :=
  match known !! id with
  | Some s => mkEgressTarget (ident_of s).2 (ident_of s).1 port (port_names s port) dst
  | None => mkEgressTarget "" "" port [] dst
  end.

(** The known service a source address on this node belongs to. *)
Definition source_service (known : gmap string Service) (table : LocalInstancesTable) (src : option Z) (s : Service) : Prop :=
  ∃ i id, pi_Identity (PeerInfoFor table src) = Some i ∧ pi_SameNode (PeerInfoFor table src) = true ∧
    known !! id = Some s ∧ ident_of s = (id_Namespace i, id_Service i).

Definition egress_closed (known : gmap string Service) (table : LocalInstancesTable) (id : string) (src dst : option Z)
    (port : Z) (proto : string) : Prop :=
  ∃ s, source_service known table src s ∧ egress_rules s ≠ [] ∧
    ∀ r, r ∈ egress_rules s → ¬ egress_admits (target_of known id dst port) proto r.

Definition ingress_closed (known : gmap string Service) (table : LocalInstancesTable) (id : string) (src : option Z)
    (port : Z) (proto : string) : Prop :=
  ∃ s, known !! id = Some s ∧ ingress_rules s ≠ [] ∧
    ∀ r, r ∈ ingress_rules s → ¬ ingress_admits s (PeerInfoFor table src) port proto r.

Lemma has_rules s :
  HasEgressRules (Compile (Some s)) = negb (bool_decide (egress_rules s = [])) ∧
  HasIngressRules (Compile (Some s)) = negb (bool_decide (ingress_rules s = [])).
Proof.
  pose proof (Compile_rules s) as Hc. destruct (Compile (Some s)) as [c|]; cbn.
  - by destruct Hc as (_ & -> & -> & _).
  - by destruct Hc as [-> ->].
Qed.

(** The target the index hands to the source's policy is the destination. *)
Lemma index_target known p id dst port :
  index_ok known p →
  let meta := default zero_meta (pl_svcMeta p !! id) in
  mkEgressTarget (mt_ident meta).2 (mt_ident meta).1 port (default [] (mt_portNames meta !! port)) dst =
  target_of known id dst port.
Proof.
  intros Hok. rewrite (ix_meta _ _ Hok). unfold target_of. destruct (known !! id) as [s|]; [|done].
  cbn. by rewrite portNames_lookup, lookup_empty.
Qed.

(** The policy found for a source address is the one of its service. *)
Lemma index_source known p table src :
  index_ok known p →
  let peer := PeerInfoFor table src in
  let found := match pi_Identity peer with
    | Some i => if pi_SameNode peer then pl_policyByName p !! (id_Namespace i, id_Service i) else None
    | None => None
    end in
  (∃ s, source_service known table src s ∧ found = Compile (Some s)) ∨
  ((∀ s, ¬ source_service known table src s) ∧ found = None).
Proof.
  intros Hok peer found. unfold source_service. fold peer. subst found.
  destruct (pi_Identity peer) as [i|] eqn:Hi; cycle 1.
  { right. split; [|done]. by intros s (i & id & ? & _). }
  destruct (pi_SameNode peer) eqn:Hn; cycle 1.
  { right. split; [|done]. by intros s (i' & id & _ & ? & _). }
  set (key := (id_Namespace i, id_Service i)).
  destruct (decide (map_Exists (λ _ s, ident_of s = key) known)) as [(id & s & Hs & He)|Hno].
  - left. exists s. split; [by exists i, id|].
    destruct (pl_policyByName p !! key) as [c|] eqn:Hc.
    + apply (ix_names _ _ Hok) in Hc as (id' & s' & Hs' & He' & Hc').
      assert (id' = id) as -> by (eapply (ix_unique _ _ Hok); [done|done|congruence]). congruence.
    + destruct (Compile (Some s)) as [c|] eqn:Hcs; [|done]. exfalso.
      assert (pl_policyByName p !! key = Some c) by (apply (ix_names _ _ Hok); eauto). congruence.
  - right. split.
    + intros s (i' & id & [= <-] & _ & Hs & He). apply Hno. by exists id, s.
    + destruct (pl_policyByName p !! key) as [c|] eqn:Hc; [|done]. exfalso.
      apply (ix_names _ _ Hok) in Hc as (id & s & Hs & He & _). apply Hno. by exists id, s.
Qed.

(** The index denies exactly what a written policy closes: the source's egress
    rules, or the destination's ingress rules. *)
Lemma evaluatePolicy_spec known p table id src dst port proto :
  index_ok known p →
  res_Decision (evaluatePolicy p table id src dst port proto) = DecisionDeny ↔
  egress_closed known table id src dst port proto ∨ ingress_closed known table id src port proto.
Proof.
  intros Hok. unfold evaluatePolicy, egress_closed, ingress_closed.
  pose proof (index_target known p id dst port Hok) as Ht. cbv zeta in Ht. rewrite Ht. clear Ht.
  set (t := target_of known id dst port). rewrite (ix_policies _ _ Hok).
  assert (Hing : res_Decision (EvaluateIngress (known !! id ≫= (λ s, Compile (Some s))) (PeerInfoFor table src) port proto) = DecisionDeny
    ↔ ∃ s, known !! id = Some s ∧ ingress_rules s ≠ [] ∧
      ∀ r, r ∈ ingress_rules s → ¬ ingress_admits s (PeerInfoFor table src) port proto r).
  { destruct (known !! id) as [s|]; cbn [mbind option_bind]; [|naive_solver].
    destruct (ingress_decides s (PeerInfoFor table src) port proto) as (_ & _ & Hd & _). rewrite Hd. naive_solver. }
  pose proof (index_source known p table src Hok) as Hs. cbv zeta in Hs.
  destruct Hs as [(s & Hs & ->)|(Hno & ->)]; cycle 1.
  { cbn [HasEgressRules from_option]. rewrite Hing. naive_solver. }
  assert (Huniq : ∀ s', source_service known table src s' → s' = s).
  { intros s' (i' & id' & Hi' & _ & Hs' & He'). destruct Hs as (i & id2 & Hi & _ & Hs & He). rewrite Hi in Hi'. injection Hi' as <-.
    assert (id' = id2) as -> by (eapply (ix_unique _ _ Hok); [done|done|congruence]). congruence. }
  rewrite (proj1 (has_rules s)). destruct (egress_decides s t proto) as (Hn & Ha & Hd & _).
  case_bool_decide as Hr; cbn [negb].
  { rewrite Hing. split; [by right|]. intros [(s' & ->%Huniq & ? & _)|?]; done. }
  destruct (res_Decision (EvaluateEgress (Compile (Some s)) t proto)) eqn:Hres.
  - assert (Hopen : ¬ (∃ s', source_service known table src s' ∧ egress_rules s' ≠ [] ∧
      ∀ r, r ∈ egress_rules s' → ¬ egress_admits t proto r)).
    { intros (s' & ->%Huniq & _ & Hcl). destruct (proj1 Ha eq_refl) as (r & Hin & Had). by apply (Hcl r). }
    enough (res_Decision (if HasIngressRules (known !! id ≫= (λ s, Compile (Some s)))
      then EvaluateIngress (known !! id ≫= (λ s, Compile (Some s))) (PeerInfoFor table src) port proto
      else EvaluateEgress (Compile (Some s)) t proto) = DecisionDeny ↔
      res_Decision (EvaluateIngress (known !! id ≫= (λ s, Compile (Some s))) (PeerInfoFor table src) port proto) = DecisionDeny) as ->.
    { rewrite Hing. naive_solver. }
    destruct (HasIngressRules _) eqn:Hi; [done|]. rewrite Hres. split; [done|]. rewrite Hing.
    intros (s2 & Hs2 & Hne & _). rewrite Hs2 in Hi. cbn [mbind option_bind] in Hi. rewrite (proj2 (has_rules s2)) in Hi.
    by case_bool_decide.
  - rewrite Hres. split; [|done]. intros _. left. destruct (proj1 Hd eq_refl) as [_ Hcl]. by exists s.
  - destruct (proj1 Hn eq_refl). done.
Qed.

(** ** Connections *)

(** [rand.Intn] returns an index below its bound. *)
Definition rng_ok (rng : option (Z → Z)) : Prop := ∀ f n, rng = Some f → 0 < n → 0 ≤ f n < n.

Definition on_node (node : string) (ep : Endpoint) : Prop := node ≠ "" ∧ ep_Metadata ep !! metaNodeID = Some node.

(** The endpoints a locality preference leaves to choose from. *)
Definition candidate (eps : list Endpoint) (pref node : string) (ep : Endpoint) : Prop :=
  ep ∈ eps ∧ ep_Healthy ep = true ∧ (pref = LocalityLocalOnly → on_node node ep) ∧
  (pref = LocalityPreferLocal → on_node node ep ∨ ∀ e, e ∈ eps → ep_Healthy e = true → ¬ on_node node e).

Lemma elem_filterLocal eps node e : e ∈ filterLocal eps node ↔ e ∈ eps ∧ on_node node e.
Proof.
  unfold filterLocal, on_node. case_bool_decide as Hn; [set_solver|].
  rewrite elem_of_filterb, bool_decide_eq_true. naive_solver.
Qed.

Lemma pickEndpoint_in eps rng : rng_ok rng → eps ≠ [] → ∃ ep, pickEndpoint eps rng = Some ep ∧ ep ∈ eps.
Proof.
  intros Hr Hne. assert (0 < Z.of_nat (length eps)) as Hlen by (destruct eps; [done|simpl; lia]).
  assert (∃ k, pickEndpoint eps rng = eps !! k ∧ (k < length eps)%nat) as (k & -> & Hk).
  { destruct rng as [f|]; cbn [pickEndpoint]; [|exists 0%nat; split; [done|lia]].
    specialize (Hr f _ eq_refl Hlen). eexists. split; [done|]. lia. }
  destruct (lookup_lt_is_Some_2 eps k Hk) as [ep Hep]. exists ep. eauto using list_elem_of_lookup_2.
Qed.

Lemma filter_nil_none {A} (f : A → bool) l : List.filter f l = [] → ∀ x, x ∈ l → f x ≠ true.
Proof. intros Hn x Hx Hf. assert (x ∈ List.filter f l) as Hin by (by apply elem_of_filterb). rewrite Hn in Hin. set_solver. Qed.

(** Selection returns a candidate, and fails only when there is none. *)
Lemma selectEndpoint_spec eps pref node rng :
  rng_ok rng → List.filter ep_Healthy eps ≠ [] →
  match selectEndpoint (List.filter ep_Healthy eps) pref node rng with
  | Some ep => candidate eps pref node ep
  | None => pref = LocalityLocalOnly ∧ ∀ ep, ¬ candidate eps pref node ep
  end.
Proof.
  intros Hr Hne. unfold selectEndpoint. set (healthy := List.filter ep_Healthy eps) in *.
  assert (Hh : ∀ e, e ∈ healthy ↔ ep_Healthy e = true ∧ e ∈ eps) by (intros; apply elem_of_filterb).
  assert (Hl : ∀ e, e ∈ filterLocal healthy node ↔ e ∈ healthy ∧ on_node node e) by (intros; apply elem_filterLocal).
  assert (Hpick : ∀ l, l ≠ [] → (∀ e, e ∈ l → candidate eps pref node e) →
    match pickEndpoint l rng with Some ep => candidate eps pref node ep
    | None => pref = LocalityLocalOnly ∧ ∀ ep, ¬ candidate eps pref node ep end).
  { intros l Hln Hc. destruct (pickEndpoint_in l rng Hr Hln) as (ep & -> & Hin). by apply Hc. }
  assert (Hloc : ∀ e, e ∈ filterLocal healthy node → candidate eps pref node e).
  { intros e [[? ?]%Hh ?]%Hl. split_and!; auto. }
  destruct healthy as [|h0 hs]; [done|]. set (h := h0 :: hs) in *.
  case_bool_decide as H1; [|case_bool_decide as H2].
  - destruct (filterLocal h node) as [|l0 ls] eqn:El; [|by apply Hpick].
    split; [done|]. intros ep (Hin & Hep & Hlo & _). assert (Hx : ep ∈ []) by (apply Hl; rewrite Hh; auto). set_solver.
  - destruct (filterLocal h node) as [|l0 ls] eqn:El; [|by apply Hpick].
    apply Hpick; [done|]. intros e [He Hin]%Hh. split_and!; [done|done|done|]. intros _. right. intros e' He' Hh' Hn.
    assert (Hx : e' ∈ []) by (apply Hl; rewrite Hh; auto). set_solver.
  - apply Hpick; [done|]. intros e [He Hin]%Hh. by split_and!.
Qed.

(** What the policies of the known services leave open. *)
Definition open_to known table id src dst port proto : Prop :=
  ¬ egress_closed known table id src dst port proto ∧ ¬ ingress_closed known table id src port proto.

Lemma route_spec cfg now rng st known id l src dst proto :
  index_ok known (d_policies st) → rng_ok rng →
  let opened := open_to known (d_localInstances st) id src dst (ln_servicePort l) proto in
  let eps := default [] (d_cache st !! id) in
  match route cfg now rng st id l src dst proto with
  | inl stale_watch => fresh cfg now st = false
  | inl policy_denied => fresh cfg now st = true ∧ ¬ opened
  | inl no_endpoints => fresh cfg now st = true ∧ opened ∧ ∀ ep, ep ∈ eps → ep_Healthy ep = false
  | inl no_local_endpoint => fresh cfg now st = true ∧ opened ∧ ln_pref l = LocalityLocalOnly ∧
      ∀ ep, ep ∈ eps → ep_Healthy ep = true → ¬ on_node (ln_localNode l) ep
  | inl _ => False
  | inr (ip, port) => fresh cfg now st = true ∧ opened ∧
      ∃ ep, candidate eps (ln_pref l) (ln_localNode l) ep ∧ ip = ep_IP ep ∧ port = endpointPort l ep
  end.
Proof.
  intros Hok Hr. cbv zeta. unfold route, open_to. destruct (fresh cfg now st) eqn:Hf; cbn [negb]; [|done].
  pose proof (evaluatePolicy_spec known (d_policies st) (d_localInstances st) id src dst (ln_servicePort l) proto Hok) as He.
  case_bool_decide as Hd; [tauto|].
  assert (Ho : open_to known (d_localInstances st) id src dst (ln_servicePort l) proto) by (unfold open_to; tauto).
  unfold Cache_Healthy, Cache_Get. destruct (d_cache st !! id) as [eps|]; cbn [default]; cycle 1.
  { split_and!; try apply Ho; [done|]. intros ep Hin. set_solver. }
  destruct (List.filter ep_Healthy eps) as [|h hs] eqn:Eh.
  { split_and!; try apply Ho; [done|]. intros ep Hin. pose proof (filter_nil_none _ _ Eh ep Hin). by destruct (ep_Healthy ep). }
  pose proof (selectEndpoint_spec eps (ln_pref l) (ln_localNode l) rng Hr ltac:(by rewrite Eh)) as Hs. rewrite Eh in Hs.
  destruct (selectEndpoint (h :: hs) (ln_pref l) (ln_localNode l) rng) as [ep|].
  - split_and!; try apply Ho; [done|]. exists ep. done.
  - destruct Hs as [Hp Hn]. split_and!; try apply Ho; [done|done|]. intros ep Hin Hh Hon. apply (Hn ep).
    split_and!; [done|done|done|]. by left.
Qed.

(** ** Loopback addresses *)

(** The loopback entry of an address text; none for a text that is no address. *)
Definition vip_key (vip : string) : option string := IP_String <$> ParseIP vip.

Definition holds (key : string) (vip : string) : Z := if bool_decide (vip_key vip = Some key) then 1 else 0.

(** How many registrations share an address. *)
Definition holders (reg : gmap string string) (key : string) : Z :=
  Z.of_nat (size (base.filter (λ kv : string * string, vip_key kv.2 = Some key) reg)).

Record counts (f : string → Z) (h : localVIPHost) : Prop := {
  ct_refs : ∀ key, default 0 (vh_refs h !! key) = f key;
  ct_lo : ∀ key n, vh_refs h !! key = Some n → 0 < n ∧ key ∈ vh_lo h;
}.

Lemma counts_ext f g h : (∀ key, f key = g key) → counts f h → counts g h.
Proof. intros Hfg [Hr Hl]. split; [|done]. intros key. by rewrite Hr, Hfg. Qed.

Lemma counts_nonneg f h key : counts f h → 0 ≤ f key.
Proof.
  intros [Hr Hl]. rewrite <- Hr. destruct (vh_refs h !! key) as [n|] eqn:E; simpl; [|lia].
  destruct (Hl _ _ E). lia.
Qed.

Lemma vip_key_some z vip : ParseIP vip = Some z → vip_key vip = Some (IP_String z).
Proof. intros H. unfold vip_key. by rewrite H. Qed.

Lemma vip_add_counts env vip h h' f :
  counts f h → vip_add env (ParseIP vip) h = (h', true) → counts (λ key, f key + holds key vip) h'.
Proof.
  intros Hc. unfold vip_add. destruct (ParseIP vip) as [z|] eqn:Hz; cycle 1.
  { intros [= <-]. eapply counts_ext; [|done]. intros key. unfold holds, vip_key. rewrite Hz. cbn [fmap option_fmap option_map]. rewrite bool_decide_eq_false_2 by done. lia. }
  assert (Hh : ∀ key, holds key vip = if bool_decide (key = IP_String z) then 1 else 0).
  { intros key. unfold holds. rewrite (vip_key_some z) by done. repeat case_bool_decide; naive_solver. }
  set (k := IP_String z) in *. rewrite (ct_refs _ _ Hc). pose proof (counts_nonneg f h k Hc) as Hnn.
  assert (Hlo : ∀ lo, vh_lo h ⊆ lo → k ∈ lo → ∀ n, n = f k + 1 →
    counts (λ key, f key + holds key vip) (mkLocalVIPHost (<[k := n]> (vh_refs h)) lo)).
  { intros lo Hsub Hin n ->. split; cbn [vh_refs vh_lo].
    - intros key. rewrite Hh. case_bool_decide as E; [subst key; by rewrite lookup_insert_eq|].
      rewrite lookup_insert_ne by done. rewrite (ct_refs _ _ Hc). lia.
    - intros key m [[<- <-]|[Hn Hm]]%lookup_insert_Some; [split; [lia|done]|].
      destruct (ct_lo _ _ Hc _ _ Hm). split; [done|set_solver]. }
  destruct (0 <? f k) eqn:E; bools.
  - intros [= <-]. apply Hlo; [done| |done]. destruct (vh_refs h !! k) as [n|] eqn:En.
    + by destruct (ct_lo _ _ Hc _ _ En).
    + pose proof (ct_refs _ _ Hc k) as H. rewrite En in H. simpl in H. lia.
  - unfold addLoopbackVIP. destruct (ne_addrAdd env k); [|done]. intros [= <-]. apply Hlo; [set_solver|set_solver|lia].
Qed.

Lemma vip_remove_counts env vip h f :
  counts f h → (∀ key, holds key vip ≤ f key) → counts (λ key, f key - holds key vip) (vip_remove env (ParseIP vip) h).
Proof.
  intros Hc Hle. unfold vip_remove. destruct (ParseIP vip) as [z|] eqn:Hz; cycle 1.
  { eapply counts_ext; [|done]. intros key. unfold holds, vip_key. rewrite Hz. cbn [fmap option_fmap option_map]. rewrite bool_decide_eq_false_2 by done. lia. }
  assert (Hh : ∀ key, holds key vip = if bool_decide (key = IP_String z) then 1 else 0).
  { intros key. unfold holds. rewrite (vip_key_some z) by done. repeat case_bool_decide; naive_solver. }
  set (k := IP_String z) in *. rewrite (ct_refs _ _ Hc). pose proof (Hle k) as Hk. rewrite Hh, bool_decide_eq_true_2 in Hk by done.
  destruct (f k <=? 1) eqn:E; bools; split; cbn [vh_refs vh_lo].
  - intros key. rewrite Hh. case_bool_decide as Ek; [subst key; rewrite lookup_delete_eq; simpl; lia|].
    rewrite lookup_delete_ne by done. rewrite (ct_refs _ _ Hc). lia.
  - intros key n [Hn Hm]%lookup_delete_Some. destruct (ct_lo _ _ Hc _ _ Hm). split; [done|]. case_match; set_solver.
  - intros key. rewrite Hh. case_bool_decide as Ek; [subst key; by rewrite lookup_insert_eq|].
    rewrite lookup_insert_ne by done. rewrite (ct_refs _ _ Hc). lia.
  - intros key n [[<- <-]|[Hn Hm]]%lookup_insert_Some; [|by apply (ct_lo _ _ Hc)]. split; [lia|].
    destruct (vh_refs h !! k) as [n|] eqn:En; [by destruct (ct_lo _ _ Hc _ _ En)|].
    pose proof (ct_refs _ _ Hc k) as H. rewrite En in H. simpl in H. lia.
Qed.

Lemma holders_insert reg id vip key :
  reg !! id = None → holders (<[id := vip]> reg) key = holders reg key + holds key vip.
Proof.
  intros Hn. unfold holders, holds. case_bool_decide as Hv.
  - rewrite map_filter_insert_True by done. rewrite map_size_insert_None; [lia|].
    apply map_lookup_filter_None. by left.
  - rewrite map_filter_insert_False by done. rewrite delete_id by done. lia.
Qed.

Lemma holders_delete reg id vip key :
  reg !! id = Some vip → holders (base.delete id reg) key = holders reg key - holds key vip.
Proof.
  intros Hs. rewrite <- (insert_delete_id reg id vip Hs) at 2. rewrite holders_insert by apply lookup_delete_eq. lia.
Qed.

Lemma holds_le reg id vip key : reg !! id = Some vip → holds key vip ≤ holders reg key.
Proof.
  intros Hs. pose proof (holders_delete reg id vip key Hs) as H. unfold holders in *. lia.
Qed.

(** The references are the registrations. *)
Definition vips_ok (st : Subsystem) : Prop := counts (holders (d_svcRegistered st)) (d_vipHost st).

Lemma vips_ok_new cfg : vips_ok (newSubsystem cfg).
Proof. split; done. Qed.

Section Production.
Context (env : net_env) (cfg : Config) (Hmode : cf_Mode cfg = ModeProduction).

(** Only the named parts of the state are read. *)
Lemma vips_ok_same st st' :
  d_vipHost st' = d_vipHost st → d_svcRegistered st' = d_svcRegistered st → vips_ok st → vips_ok st'.
Proof. unfold vips_ok. by intros -> ->. Qed.

Lemma RegisterService_frame s st :
  d_vipHost (RegisterService env cfg s st).1 = d_vipHost st ∧
  d_svcRegistered (RegisterService env cfg s st).1 = d_svcRegistered st.
Proof. unfold RegisterService. destruct s as [s|]; [|done]. by destruct (Proxy_Register _ _ _ _). Qed.

(** A registration given up and its address released. *)
Lemma released_ok st st' id vip :
  vips_ok st → d_svcRegistered st !! id = Some vip →
  d_svcRegistered st' = base.delete id (d_svcRegistered st) →
  d_vipHost st' = (if negb (bool_decide (vip = "")) then vip_remove env (ParseIP vip) (d_vipHost st) else d_vipHost st) →
  vips_ok st'.
Proof.
  intros Hok Hs Hreg Hh. unfold vips_ok. rewrite Hreg.
  eapply counts_ext; [intros key; symmetry; by apply holders_delete|]. rewrite Hh.
  destruct (bool_decide_reflect (vip = "")) as [->|]; cbn [negb].
  - eapply counts_ext; [|done]. intros key. unfold holds. rewrite bool_decide_eq_false_2 by done. lia.
  - apply vip_remove_counts; [done|]. intros key. by eapply holds_le.
Qed.

Lemma registerServiceDataplane_vips s st :
  vips_ok st → vips_ok (registerServiceDataplane env cfg s st).1.
Proof.
  intros Hok. unfold registerServiceDataplane. cbv zeta.
  destruct (bool_decide_reflect (d_svcRegistered st !! sv_ID s = Some (sv_VIP s))) as [Hsame|Hdiff]; cbn [negb andb].
  - rewrite Hsame, bool_decide_eq_true_2 by done. destruct (RegisterService_frame (Some s) st) as [Hh Hr].
    destruct (RegisterService env cfg (Some s) st) as [st1 [u|e]]; cbn [fst] in *; [|by eapply vips_ok_same].
    eapply vips_ok_same; [exact Hh| |done]. cbn. by rewrite Hr, insert_id.
  - set (st0 := match d_svcRegistered st !! sv_ID s with Some _ => _ | None => _ end).
    assert (vips_ok st0 ∧ d_svcRegistered st0 !! sv_ID s = None) as [Hok0 Hnone].
    { subst st0. destruct (d_svcRegistered st !! sv_ID s) as [old|] eqn:Ho; [|done].
      rewrite bool_decide_eq_false_2 by congruence. split; [|apply lookup_delete_eq].
      eapply released_ok; [exact Hok|exact Ho|done|]. unfold releaseOld. cbn. by rewrite Hmode, andb_true_r. }
    clearbody st0. clear Hok Hdiff st. rename st0 into st, Hok0 into Hok. rewrite bool_decide_eq_true_2 by done. cbn [andb].
    destruct (bool_decide_reflect (sv_VIP s = "")) as [Hempty|Hne]; cbn [negb].
    + destruct (RegisterService_frame (Some s) st) as [Hh Hr].
      destruct (RegisterService env cfg (Some s) st) as [st1 [u|e]] eqn:E; cbn [fst] in *; [|by eapply vips_ok_same].
      exfalso. revert E. unfold RegisterService, Proxy_Register, bindIPFor. rewrite Hmode.
      destruct (pm_stopped _), (bool_decide (sv_ID s = "")); cbn; try done.
      rewrite (bool_decide_eq_true_2 (sv_VIP s = "")) by done. done.
    + destruct (ParseIP (sv_VIP s)) as [ip|] eqn:Hip; [|done].
      destruct (vip_add env (Some ip) (d_vipHost st)) as [h ok] eqn:Ha. destruct ok; [|done].
      rewrite <- Hip in Ha. pose proof (vip_add_counts _ _ _ _ _ Hok Ha) as Hc.
      destruct (RegisterService_frame (Some s) (with_vips st h (d_svcRegistered st))) as [Hh Hr].
      destruct (RegisterService env cfg (Some s) (with_vips st h (d_svcRegistered st))) as [st1 [u|e]]; cbn [fst] in *; unfold vips_ok; cbn [with_vips d_vipHost d_svcRegistered].
      * rewrite Hh, Hr. cbn [with_vips d_vipHost d_svcRegistered].
        eapply counts_ext; [|exact Hc]. intros key. by rewrite holders_insert.
      * rewrite Hh, Hr, <- Hip. cbn [with_vips d_vipHost d_svcRegistered].
        eapply counts_ext; [|apply vip_remove_counts; [exact Hc|]]; intros key; cbn beta; [lia|].
        unfold holders. lia.
Qed.

Lemma reconcileOneService_vips s backfill st : vips_ok st → vips_ok (reconcileOneService env cfg s backfill st).1.1.
Proof.
  intros Hok. unfold reconcileOneService. destruct s as [s|]; [|done]. destruct (bool_decide (sv_ID s = "")); [done|].
  destruct (bool_decide (s_Ports (sv_Service s) = [])); [done|]. destruct (enrichServiceVIP _ _) as [s'|]; [|done].
  pose proof (registerServiceDataplane_vips s' (with_policies st (syncPolicy (Some (sv_Service s)) (d_policies st))) Hok) as H.
  by destruct (registerServiceDataplane _ _ _ _).
Qed.

Lemma unregister_vips s st : vips_ok st → vips_ok (unregisterServiceDataplane env cfg s st).
Proof.
  intros Hok. unfold unregisterServiceDataplane. destruct s as [s|]; [|done].
  destruct (d_svcRegistered st !! sv_ID s) as [vip|] eqn:Hv.
  - eapply released_ok; [exact Hok|exact Hv| |]; rewrite Hmode, andb_true_r;
      destruct (bool_decide (vip = "")); done.
  - eapply vips_ok_same; [..|exact Hok]; cbn; [done|by rewrite delete_id].
Qed.

Lemma watchEvent_vips ev st : vips_ok st → vips_ok (handleServiceWatchEvent env cfg ev st).1.
Proof.
  intros Hok. destruct ev as [[s|]|[s|]|s]; cbn [handleServiceWatchEvent fst]; try done; try by apply unregister_vips.
  all: case_bool_decide; [by apply unregister_vips|].
  all: pose proof (reconcileOneService_vips (Some s) true st Hok) as Hv;
    by destruct (reconcileOneService _ _ _ _ _) as [[? ?] ?].
Qed.

(** Shutting down gives every reference back. *)
Lemma teardown_vips order st :
  (∀ m : gmap string string, order m ≡ₚ map_to_list m) → vips_ok st →
  vh_refs (d_vipHost (teardownServiceVIPs env cfg order st)) = ∅ ∧ d_svcRegistered (teardownServiceVIPs env cfg order st) = ∅.
Proof.
  intros Ho Hok. split; [|done]. unfold teardownServiceVIPs. cbn. rewrite bool_decide_eq_true_2 by done.
  set (step := λ h (kv : string * string), if bool_decide (kv.2 = "") then h else vip_remove env (ParseIP kv.2) h).
  enough (∀ l reg h, l ≡ₚ map_to_list reg → counts (holders reg) h → counts (λ _, 0) (fold_left step l h)) as H.
  { specialize (H _ _ _ (Ho _) Hok) as [Hr Hl]. apply map_eq. intros key. rewrite lookup_empty.
    destruct (vh_refs _ !! key) as [n|] eqn:E; [|done]. destruct (Hl _ _ E). specialize (Hr key). rewrite E in Hr. simpl in Hr. lia. }
  clear. induction l as [|[id vip] l IH]; intros reg h Hp Hc; cbn [fold_left].
  { symmetry in Hp. apply Permutation_nil_r, map_to_list_empty_iff in Hp. subst reg. eapply counts_ext; [|done]. done. }
  assert (Hid : reg !! id = Some vip) by (apply elem_of_map_to_list; rewrite <- Hp; set_solver).
  apply (IH (base.delete id reg)).
  - apply (Permutation_cons_inv (a := (id, vip))). rewrite Hp. symmetry. by apply map_to_list_delete.
  - eapply counts_ext; [intros key; symmetry; by apply holders_delete|]. unfold step. cbn [snd].
    case_bool_decide as Hv.
    + eapply counts_ext; [|exact Hc]. intros key. unfold holds. rewrite bool_decide_eq_false_2 by (subst; done). lia.
    + apply vip_remove_counts; [done|]. intros key. by eapply holds_le.
Qed.
End Production.

(** ** Following the service rows *)

Lemma known_sync_twice s known : known_sync s (known_sync s known) = known_sync s known.
Proof. unfold known_sync. case_bool_decide; [done|]. by rewrite insert_insert_eq. Qed.

Lemma ident_free_sync s known : ident_free s known → ident_free s (known_sync s known).
Proof.
  unfold known_sync. case_bool_decide; [done|]. intros Hf id s' [[<- <-]|[Hn Hs]]%lookup_insert_Some Hne; [done|by apply (Hf id)].
Qed.

(** Syncing again changes nothing the index is about. *)
Lemma syncPolicy_again s known p : index_ok (known_sync s known) p → ident_free s known → index_ok (known_sync s known) (syncPolicy (Some s) p).
Proof.
  intros Hok Hf. rewrite <- known_sync_twice. apply syncPolicy_ok; [done|by apply ident_free_sync].
Qed.

Lemma RegisterService_policies env cfg s st :
  d_policies (RegisterService env cfg (Some s) st).1 = syncPolicy (Some (sv_Service s)) (d_policies st).
Proof. unfold RegisterService. by destruct (Proxy_Register _ _ _ _). Qed.

(** Whatever becomes of the addresses and listeners, the policies are the old
    ones or the old ones with this service's synced. *)
Lemma registerServiceDataplane_policies env cfg s st :
  let p := d_policies (registerServiceDataplane env cfg s st).1 in
  p = d_policies st ∨ p = syncPolicy (Some (sv_Service s)) (d_policies st).
Proof.
  cbv zeta. unfold registerServiceDataplane. cbv zeta.
  set (st0 := match d_svcRegistered st !! sv_ID s with Some _ => _ | None => _ end).
  assert (d_policies st0 = d_policies st) as <-.
  { subst st0. destruct (d_svcRegistered st !! sv_ID s); [|done]. by case_bool_decide. }
  clearbody st0. set (added := if _ : bool then _ else _).
  assert (Hadd : match added with Ok st1 => d_policies st1 = d_policies st0 | Err _ => True end).
  { subst added. repeat case_match; simplify_eq; done. }
  destruct added as [st1|e]; [|by left]. rewrite <- Hadd. right. rewrite <- (RegisterService_policies env cfg).
  destruct (RegisterService env cfg (Some s) st1) as [st2 [u|e]]; cbn [fst]; [done|].
  by destruct (negb _ && negb _).
Qed.

Lemma enrich_service s f s' : enrichServiceVIP s f = Ok s' → sv_Service s' = sv_Service s.
Proof.
  unfold enrichServiceVIP. repeat case_match; intros [= <-]; done.
Qed.

Lemma reconcileOneService_index env cfg s backfill known st :
  index_ok known (d_policies st) → ident_free (sv_Service s) known →
  index_ok (known_sync (sv_Service s) known) (d_policies (reconcileOneService env cfg (Some s) backfill st).1.1).
Proof.
  intros Hok Hf. unfold reconcileOneService. destruct (bool_decide_reflect (sv_ID s = "")) as [He|He].
  { unfold known_sync. rewrite bool_decide_eq_true_2 by done. done. }
  pose proof (syncPolicy_ok _ _ _ Hok Hf) as Hs.
  destruct (bool_decide (s_Ports (sv_Service s) = [])); [done|].
  destruct (enrichServiceVIP s (cf_VIPResolver cfg)) as [s'|] eqn:Hen; [|done]. apply enrich_service in Hen.
  pose proof (registerServiceDataplane_policies env cfg s' (with_policies st (syncPolicy (Some (sv_Service s)) (d_policies st)))) as H.
  cbv zeta in H. rewrite Hen in H. destruct (registerServiceDataplane _ _ _ _) as [st1 r]. cbn [fst] in *.
  destruct H as [-> | ->]; [done|]. by apply syncPolicy_again.
Qed.

Lemma unregister_index env cfg s known st :
  index_ok known (d_policies st) →
  index_ok (base.delete (sv_ID s) known) (d_policies (unregisterServiceDataplane env cfg (Some s) st)).
Proof.
  intros Hok%(dropPolicy_ok _ _ (sv_ID s)). unfold unregisterServiceDataplane.
  destruct (d_svcRegistered st !! sv_ID s); [|done]. by destruct (negb _ && _).
Qed.

(** The services the node knows after an event, and when an event respects the
    uniqueness of names. *)
Definition known_event (ev : serviceEvent) (known : gmap string Service) : gmap string Service :=
  match ev with
  | svcCreated (Some s) | svcUpdated (Some s) =>
      if bool_decide (s_Status (sv_Service s) = ServiceStatusDeleted) then base.delete (sv_ID s) known
      else known_sync (sv_Service s) known
  | svcDeleted (Some s) => base.delete (sv_ID s) known
  | _ => known
  end.

Definition event_free (ev : serviceEvent) (known : gmap string Service) : Prop :=
  match ev with
  | svcCreated (Some s) | svcUpdated (Some s) => ident_free (sv_Service s) known
  | _ => True
  end.

Lemma watchEvent_index env cfg ev known st :
  index_ok known (d_policies st) → event_free ev known →
  index_ok (known_event ev known) (d_policies (handleServiceWatchEvent env cfg ev st).1).
Proof.
  intros Hok Hf. destruct ev as [[s|]|[s|]|[s|]]; cbn [handleServiceWatchEvent known_event event_free fst] in *; try done;
    try by apply unregister_index.
  all: case_bool_decide; [by apply unregister_index|].
  all: pose proof (reconcileOneService_index env cfg s true known st Hok Hf) as Hv;
    by destruct (reconcileOneService _ _ _ _ _) as [[? ?] ?].
Qed.

(** Everything that moves the state, in any order: the events of the service
    watch, the rows listed at the start, and whatever the log brings.  Each step
    meets its own sockets and netlink. *)
Inductive dp_step (cfg : Config) : gmap string Service * Subsystem → gmap string Service * Subsystem → Prop :=
| dp_event env ev known st :
    event_free ev known → dp_step cfg (known, st) (known_event ev known, (handleServiceWatchEvent env cfg ev st).1)
| dp_row env s known st :
    ident_free (sv_Service s) known →
    dp_step cfg (known, st) (known_sync (sv_Service s) known, (reconcileOneService env cfg (Some s) false st).1.1)
| dp_log c t now known st : dp_step cfg (known, st) (known, markFresh now (with_view st c t)).

Definition dp_reachable (cfg : Config) (known : gmap string Service) (st : Subsystem) : Prop :=
  rtc (dp_step cfg) (∅, newSubsystem cfg) (known, st).

Lemma dp_invariant cfg known st :
  dp_reachable cfg known st → index_ok known (d_policies st) ∧ (cf_Mode cfg = ModeProduction → vips_ok st).
Proof.
  unfold dp_reachable. set (inv := λ x : gmap string Service * Subsystem,
    index_ok x.1 (d_policies x.2) ∧ (cf_Mode cfg = ModeProduction → vips_ok x.2)).
  assert (Hpres : ∀ x y, dp_step cfg x y → inv x → inv y).
  { intros x y [] [Hi Hv]; unfold inv; cbn [fst snd] in *.
    - split; [by apply watchEvent_index|]. intros Hm. apply watchEvent_vips; auto.
    - split; [by apply reconcileOneService_index|]. intros Hm. apply reconcileOneService_vips; auto.
    - done. }
  assert (Hinv : inv (∅, newSubsystem cfg)) by (split; [apply index_ok_empty|intros _; apply vips_ok_new]).
  intros H. change (inv (known, st)). revert H Hinv. generalize (∅ : gmap string Service, newSubsystem cfg), (known, st).
  induction 1; eauto.
Qed.

(** ** Properties *)

(** C11: A connection is dialled only if the node's copy of the log is fresh and
    the written policies of the services it knows leave the connection open (the
    egress rules of the source's service and the ingress rules of the
    destination, whatever became of addresses and listeners), and then to the
    address of a healthy endpoint cached for the listener's service that the
    locality preference allows, on the listener's target port; and each refusal
    says which of these was missing: stale, denied, no healthy endpoint, or no
    local one where only local ones are wanted. *)
Theorem connection_exact cfg known st now rng id l src dst proto :
  dp_reachable cfg known st → rng_ok rng →
  let opened := open_to known (d_localInstances st) id src dst (ln_servicePort l) proto in
  let eps := default [] (d_cache st !! id) in
  match route cfg now rng st id l src dst proto with
  | inl stale_watch => fresh cfg now st = false
  | inl policy_denied => fresh cfg now st = true ∧ ¬ opened
  | inl no_endpoints => fresh cfg now st = true ∧ opened ∧ ∀ ep, ep ∈ eps → ep_Healthy ep = false
  | inl no_local_endpoint => fresh cfg now st = true ∧ opened ∧ ln_pref l = LocalityLocalOnly ∧
      ∀ ep, ep ∈ eps → ep_Healthy ep = true → ¬ on_node (ln_localNode l) ep
  | inl _ => False
  | inr (ip, port) => fresh cfg now st = true ∧ opened ∧
      ∃ ep, candidate eps (ln_pref l) (ln_localNode l) ep ∧ ip = ep_IP ep ∧ port = endpointPort l ep
  end.
Proof. intros [Hi _]%dp_invariant Hr. by apply route_spec. Qed.

(** C19: In production, after any history of service events, failed listens and
    failed address changes included, the reference count of a loopback address
    is the number of registered services with that address, and an address some
    registered service has is on loopback; shutting down gives every reference
    back. *)
Theorem vip_references_exact cfg known st :
  dp_reachable cfg known st → cf_Mode cfg = ModeProduction →
  (∀ key, default 0 (vh_refs (d_vipHost st) !! key) = holders (d_svcRegistered st) key) ∧
  (∀ id vip z, d_svcRegistered st !! id = Some vip → ParseIP vip = Some z → IP_String z ∈ vh_lo (d_vipHost st)) ∧
  (∀ env order, (∀ m : gmap string string, order m ≡ₚ map_to_list m) →
     vh_refs (d_vipHost (teardownServiceVIPs env cfg order st)) = ∅).
Proof.
  intros [_ Hv]%dp_invariant Hm. specialize (Hv Hm). split_and!.
  - apply (ct_refs _ _ Hv).
  - intros id vip z Hid Hz. pose proof (holds_le _ _ _ (IP_String z) Hid) as Hle.
    unfold holds in Hle. rewrite bool_decide_eq_true_2 in Hle by (by apply vip_key_some).
    pose proof (ct_refs _ _ Hv (IP_String z)) as Hr. destruct (vh_refs (d_vipHost st) !! IP_String z) as [n|] eqn:E.
    + by destruct (ct_lo _ _ Hv _ _ E).
    + simpl in Hr. lia.
  - intros env order Ho. by apply (teardown_vips env cfg Hm).
Qed.

(** ** Listeners *)

Definition unreserved (cfg : Config) (p : ServicePort) : Prop := PortReserved (cf_ReservedHostPorts cfg) (sp_Port p) = false.

(** The listener a port asks for. *)
Definition wanted (cfg : Config) (s : svc) (bindIP : Z) (k : string * Z * string) (ln : listener) : Prop :=
  ∃ p, p ∈ s_Ports (sv_Service s) ∧ unreserved cfg p ∧ k = portKey (sv_ID s) p ∧
    ln_namespace ln = s_Namespace (sv_Service s) ∧ ln_addr ln = (IP_String bindIP, sp_Port p) ∧ ln_servicePort ln = sp_Port p ∧
    ln_targetPort ln = (if sp_TargetPort p =? 0 then sp_Port p else sp_TargetPort p) ∧
    ln_pref ln = from_option sd_LocalityPreference "" (sv_Discovery s) ∧ ln_localNode ln = default "" (cf_Node cfg).

Lemma openPorts_spec env cfg s bindIP ports want lns :
  ports ⊆ s_Ports (sv_Service s) →
  let '(lns', r) := openPorts env cfg s bindIP ports want lns in
  (∀ k ln, lns !! k = Some ln → lns' !! k = Some ln) ∧
  (∀ k ln, lns' !! k = Some ln → lns !! k = Some ln ∨ wanted cfg s bindIP k ln) ∧
  match r with
  | Err _ => True
  | Ok want' => (∀ k, k ∈ want' ↔ k ∈ want ∨ ∃ p, p ∈ ports ∧ unreserved cfg p ∧ k = portKey (sv_ID s) p) ∧
      (∀ p, p ∈ ports → unreserved cfg p → is_Some (lns' !! portKey (sv_ID s) p))
  end.
Proof.
  revert want lns. induction ports as [|p ports IH]; intros want lns Hsub; cbn [openPorts]; [set_solver|].
  assert (Hsub' : ports ⊆ s_Ports (sv_Service s)) by set_solver. set (k0 := portKey (sv_ID s) p).
  destruct (PortReserved (cf_ReservedHostPorts cfg) (sp_Port p)) eqn:Hres.
  { specialize (IH want lns Hsub'). destruct (openPorts _ _ _ _ _ _ _) as [lns' [want'|e]]; [|done].
    destruct IH as (H1 & H2 & H3 & H4). split_and!; [done|done| |].
    - intros k. rewrite H3. unfold unreserved in *. set_solver by congruence.
    - intros p' [->|Hp]%elem_of_cons Hu; [|by apply H4]. unfold unreserved in Hu. congruence. }
  assert (Hstep : ∀ lns1, (∀ k ln, lns !! k = Some ln → lns1 !! k = Some ln) → is_Some (lns1 !! k0) →
    (∀ k ln, lns1 !! k = Some ln → lns !! k = Some ln ∨ wanted cfg s bindIP k ln) →
    let '(lns', r) := openPorts env cfg s bindIP ports ({[k0]} ∪ want) lns1 in
    (∀ k ln, lns !! k = Some ln → lns' !! k = Some ln) ∧
    (∀ k ln, lns' !! k = Some ln → lns !! k = Some ln ∨ wanted cfg s bindIP k ln) ∧
    match r with
    | Err _ => True
    | Ok want' => (∀ k, k ∈ want' ↔ k ∈ want ∨ ∃ p', p' ∈ p :: ports ∧ unreserved cfg p' ∧ k = portKey (sv_ID s) p') ∧
        (∀ p', p' ∈ p :: ports → unreserved cfg p' → is_Some (lns' !! portKey (sv_ID s) p'))
    end).
  { intros lns1 Hmono [ln0 Hk0] Hw. specialize (IH ({[k0]} ∪ want) lns1 Hsub').
    destruct (openPorts _ _ _ _ _ _ _) as [lns' r]. destruct IH as (H1 & H2 & H3). split_and!; [auto| |].
    - intros k ln [Hl|Hl]%H2; auto.
    - destruct r as [want'|e]; [|done]. destruct H3 as [H3 H4]. split.
      + intros k. rewrite H3, elem_of_union, elem_of_singleton. split.
        * intros [[->|?]|(p' & ? & ? & ?)]; [|by left|right; exists p'; set_solver].
          right. exists p. split; [set_solver|done].
        * intros [?|(p' & [->|?]%elem_of_cons & ? & ->)]; [auto|auto|right; eauto].
      + intros p' [->|Hp]%elem_of_cons Hu; [|by apply H4]. exists ln0. by apply H1. }
  destruct (lns !! k0) as [ln|] eqn:Hk; [apply Hstep; [done|by eexists|auto]|].
  unfold openListener. change (portKey (sv_ID s) p).2 with k0.2. destruct (ne_listen env _ _ _); cbv zeta; [|auto].
  apply Hstep.
  - intros k ln Hl. rewrite lookup_insert_ne; [done|]. congruence.
  - rewrite lookup_insert_eq. by eexists.
  - intros k ln [[<- <-]|[_ Hl]]%lookup_insert_Some; [|by left]. right. exists p. split_and!; try done. set_solver.
Qed.

(** Registering a service opens a listener for each of its unreserved ports,
    closes those of ports it no longer has, leaves the ones that were open as
    they were and never touches another service's; when a listen fails nothing
    is closed. *)
Theorem register_exact env cfg s pm pm' r :
  Proxy_Register env cfg s pm = (pm', r) →
  (∀ k, k.1.1 ≠ sv_ID s → pm_listeners pm' !! k = pm_listeners pm !! k) ∧
  (∀ k ln, pm_listeners pm !! k = Some ln → r ≠ Ok tt → pm_listeners pm' !! k = Some ln) ∧
  (r = Ok tt →
    (∀ k, k.1.1 = sv_ID s → is_Some (pm_listeners pm' !! k) ↔
       ∃ p, p ∈ s_Ports (sv_Service s) ∧ unreserved cfg p ∧ k = portKey (sv_ID s) p) ∧
    ∃ bindIP, bindIPFor cfg s = Ok bindIP ∧
    ∀ k ln, k.1.1 = sv_ID s → pm_listeners pm' !! k = Some ln →
      pm_listeners pm !! k = Some ln ∨ pm_listeners pm !! k = None ∧ wanted cfg s bindIP k ln).
Proof.
  unfold Proxy_Register. destruct (pm_stopped pm); [by intros [= <- <-]|].
  destruct (bool_decide (sv_ID s = "")); [by intros [= <- <-]|].
  destruct (bindIPFor cfg s) as [bindIP|e]; [|by intros [= <- <-]].
  pose proof (openPorts_spec env cfg s bindIP (s_Ports (sv_Service s)) ∅ (pm_listeners pm) ltac:(done)) as H.
  destruct (openPorts _ _ _ _ _ _ _) as [lns' rr]. destruct H as (H1 & H2 & H3).
  assert (Hother : ∀ k, k.1.1 ≠ sv_ID s → lns' !! k = pm_listeners pm !! k).
  { intros k Hk. destruct (pm_listeners pm !! k) as [ln|] eqn:El; [by apply H1|].
    destruct (lns' !! k) as [ln|] eqn:E; [|done]. apply H2 in E as [?|(p & _ & _ & -> & _)]; [congruence|done]. }
  destruct rr as [want|e]; intros [= <- <-]; cbn [pm_listeners]; cycle 1.
  { split_and!; [done|auto|done]. }
  destruct H3 as [H3 H4]. split_and!; [|done|].
  - intros k Hk. rewrite <- Hother by done. destruct (lns' !! k) as [ln|] eqn:E.
    + apply map_lookup_filter_Some. split; [done|]. by left.
    + apply map_lookup_filter_None. by left.
  - intros _. split.
    + intros k Hk. split.
      * intros [ln [_ [Hn|Hw]]%map_lookup_filter_Some]; [done|]. cbn in Hw. apply H3 in Hw. set_solver.
      * intros (p & Hp & Hu & ->). destruct (H4 p Hp Hu) as [ln Hln]. exists ln. apply map_lookup_filter_Some.
        split; [done|]. right. apply H3. right. eauto.
    + exists bindIP. split; [done|]. intros k ln Hk [Hl _]%map_lookup_filter_Some.
      destruct (pm_listeners pm !! k) as [ln'|] eqn:E; [left; by rewrite <- (H1 _ _ E)|].
      apply H2 in Hl as [?|?]; [congruence|by right].
Qed.

(** ** Behaviours the comments do not say *)

(** A listener that stays open keeps the target port, the namespace and the
    locality it was opened with: a changed target port never takes effect. *)
Theorem kept_listener_keeps_target env cfg s pm pm' p ln :
  Proxy_Register env cfg s pm = (pm', Ok tt) →
  p ∈ s_Ports (sv_Service s) → unreserved cfg p →
  pm_listeners pm !! portKey (sv_ID s) p = Some ln → pm_listeners pm' !! portKey (sv_ID s) p = Some ln.
Proof.
  intros Hr Hp Hu Hln. destruct (register_exact _ _ _ _ _ _ Hr) as (_ & _ & H). destruct (H eq_refl) as [Hports (b & _ & Hk)].
  destruct (proj2 (Hports (portKey (sv_ID s) p) eq_refl)) as [ln' Hln']; [eauto|].
  destruct (Hk (portKey (sv_ID s) p) _ eq_refl Hln') as [?|[? _]]; congruence.
Qed.

(** The row written back is the one the event carried with the address put in. *)
Theorem backfill_writes_event_row env cfg s st st' row r :
  reconcileOneService env cfg (Some s) true st = (st', Some row, r) →
  sv_VIP s = "" ∧ sv_VIP row ≠ "" ∧ sv_Service row = sv_Service s.
Proof.
  unfold reconcileOneService. destruct (bool_decide (sv_ID s = "")); [done|].
  destruct (bool_decide (s_Ports (sv_Service s) = [])); [done|].
  destruct (enrichServiceVIP s (cf_VIPResolver cfg)) as [s'|] eqn:He; [|done].
  destruct (registerServiceDataplane _ _ _ _) as [st1 r1]. cbn [andb].
  destruct (bool_decide_reflect (sv_VIP s = "")); cbn [andb]; [|done].
  destruct (bool_decide_reflect (sv_VIP s' = "")); cbn [andb negb]; [done|]. destruct (cf_HasStore cfg); [|done].
  intros [= _ <- _]. split_and!; [done|done|by eapply enrich_service].
Qed.

(** ** A sample node *)

Definition plainService (id name ns : string) (ports : list ServicePort) (status : ServiceStatus)
    (policy : option ServiceNetworkPolicy) : Service :=
  mkService id name ns "" ∅ 1 ports (mkResources "" "") false false policy [] [] status "" "" "container" None None None None None.

Definition httpPort (target : Z) : ServicePort := mkServicePort "http" 80 target "tcp" 0.
Definition onlyApi : ServiceNetworkPolicy := mkNetworkPolicy [mkIngressRule [mkPeer "api" "" ∅ ""] []] [].
Definition web (vip : string) (status : ServiceStatus) (ports : list ServicePort) : svc :=
  mkSvc (plainService "web-id" "web" "prod" ports status (Some onlyApi)) (Some (mkServiceDiscovery "" vip "")).

Definition sampleConfig (mode : Mode) : Config := mkConfig true None (Some "a") mode [443] (30 * Second).
Definition allWorks : net_env := mkNetEnv (λ _ _ _, true) (λ _, true) (λ _, true).

Definition webEndpoint : Endpoint := mkEndpoint "web-1" "172.17.0.2" 8080 "TCP" {[metaNodeID := "a"]} true.
Definition sampleTable : LocalInstancesTable :=
  (Apply map_to_list "a" {["172.17.0.3" := mkIdentity "api-1" "api" "prod"]} (NewLocalInstancesTable "a")).1.

Definition webCreated : serviceEvent := svcCreated (Some (web "10.96.0.5" ServiceStatusRunning [httpPort 8080])).
Definition sampleState : Subsystem :=
  markFresh 5 (with_view (handleServiceWatchEvent allWorks (sampleConfig ModeProduction) webCreated
    (newSubsystem (sampleConfig ModeProduction))).1 {["web-id" := [webEndpoint]]} sampleTable).
Definition sampleKnown : gmap string Service := known_event webCreated ∅.

Lemma sample_reachable : dp_reachable (sampleConfig ModeProduction) sampleKnown sampleState.
Proof.
  refine (rtc_l _ _ _ _ (dp_event _ allWorks webCreated _ _ _) _); [done|]. apply rtc_once, dp_log.
Qed.

Definition webListener : listener := mkListener "prod" 80 8080 ("10.96.0.5", 80) "" "a".

Lemma connection_exact_witness :
  pm_listeners (d_proxy sampleState) !! ("web-id", 80, "tcp") = Some webListener ∧
  route (sampleConfig ModeProduction) 6 (Some (λ _, 0)) sampleState "web-id" webListener (Some 2886795267) (Some 174063621) "tcp"
    = inr ("172.17.0.2", 8080) ∧
  route (sampleConfig ModeProduction) 6 (Some (λ _, 0)) sampleState "web-id" webListener (Some 2886795268) (Some 174063621) "tcp"
    = inl policy_denied ∧
  open_to sampleKnown sampleTable "web-id" (Some 2886795267) (Some 174063621) 80 "tcp".
Proof.
  assert (Hrng : rng_ok (Some (λ _ : Z, 0))) by (intros f n [= <-] ?; lia).
  split; [vm_compute; reflexivity|].
  assert (Hroute : route (sampleConfig ModeProduction) 6 (Some (λ _, 0)) sampleState "web-id" webListener (Some 2886795267) (Some 174063621) "tcp"
    = inr ("172.17.0.2", 8080)) by (vm_compute; reflexivity).
  split; [exact Hroute|]. split; [vm_compute; reflexivity|].
  pose proof (connection_exact (sampleConfig ModeProduction) sampleKnown sampleState 6 (Some (λ _, 0)) "web-id" webListener
    (Some 2886795267) (Some 174063621) "tcp" sample_reachable Hrng) as H. cbv zeta in H. rewrite Hroute in H.
  destruct H as (_ & Ho & _). exact Ho.
Defined.

Lemma vip_references_exact_witness :
  d_svcRegistered sampleState !! "web-id" = Some "10.96.0.5" ∧ "10.96.0.5" ∈ vh_lo (d_vipHost sampleState).
Proof.
  assert (Hreg : d_svcRegistered sampleState !! "web-id" = Some "10.96.0.5") by (vm_compute; reflexivity).
  split; [exact Hreg|].
  exact (proj1 (proj2 (vip_references_exact _ _ _ sample_reachable eq_refl)) "web-id" "10.96.0.5" 174063621 Hreg
    ltac:(vm_compute; reflexivity)).
Defined.

Definition emptyProxy : ProxyManager := mkProxyManager false ∅ ∅.
Definition webRegistered : ProxyManager :=
  (Proxy_Register allWorks (sampleConfig ModeProduction) (web "10.96.0.5" ServiceStatusRunning [httpPort 8080]) emptyProxy).1.

Lemma register_exact_witness :
  is_Some (pm_listeners webRegistered !! ("web-id", 80, "tcp")) ∧ pm_listeners webRegistered !! ("web-id", 443, "tcp") = None.
Proof.
  destruct (register_exact allWorks (sampleConfig ModeProduction) (web "10.96.0.5" ServiceStatusRunning [httpPort 8080]) emptyProxy
    webRegistered (Ok tt)) as (_ & _ & H); [vm_compute; reflexivity|].
  split; [|vm_compute; reflexivity].
  apply (proj1 (H eq_refl) ("web-id", 80, "tcp") eq_refl). exists (httpPort 8080).
  split; [apply list_elem_of_singleton; reflexivity|]. split; vm_compute; reflexivity.
Defined.

(** The new target port 9090 is ignored. *)
Lemma kept_listener_keeps_target_witness :
  pm_listeners (Proxy_Register allWorks (sampleConfig ModeProduction) (web "10.96.0.5" ServiceStatusRunning [httpPort 9090]) webRegistered).1
    !! ("web-id", 80, "tcp") = Some webListener.
Proof.
  refine (kept_listener_keeps_target allWorks (sampleConfig ModeProduction) (web "10.96.0.5" ServiceStatusRunning [httpPort 9090])
    webRegistered _ (httpPort 9090) webListener _ _ _ _).
  - vm_compute. reflexivity.
  - apply list_elem_of_singleton. reflexivity.
  - vm_compute. reflexivity.
  - vm_compute. reflexivity.
Defined.

Definition resolving : Config := mkConfig true (Some (λ _, Ok (Some 174063621))) (Some "a") ModeProduction [] (30 * Second).

Lemma backfill_writes_event_row_witness :
  ∃ st row r, reconcileOneService allWorks resolving (Some (web "" ServiceStatusRunning [httpPort 0])) true (newSubsystem resolving) = (st, Some row, r)
    ∧ sv_VIP row ≠ "" ∧ sv_Service row = sv_Service (web "" ServiceStatusRunning [httpPort 0]).
Proof.
  eexists _, _, _. split; [vm_compute; reflexivity|].
  refine (proj2 (backfill_writes_event_row allWorks resolving _ (newSubsystem resolving) _ _ _ _)). vm_compute. reflexivity.
Defined.

(** The listing at the start registers a service whose row says deleted. *)
Theorem deleted_row_registered :
  d_svcRegistered (reconcileServicesFromStore allWorks (sampleConfig ModeProduction)
    (Some [web "10.96.0.5" ServiceStatusDeleted [httpPort 8080]]) (newSubsystem (sampleConfig ModeProduction))).1
    !! "web-id" = Some "10.96.0.5".
Proof. vm_compute. reflexivity. Qed.

(** The second port's listen fails: the first port's listener stays, its address
    is taken off loopback, and the service counts as not registered. *)
Definition onlyPort80 : net_env := mkNetEnv (λ _ _ port, port =? 80) (λ _, true) (λ _, true).

Theorem failed_port_leaves_listener :
  let st := (handleServiceWatchEvent onlyPort80 (sampleConfig ModeProduction)
    (svcCreated (Some (web "10.96.0.5" ServiceStatusRunning [httpPort 8080; mkServicePort "metrics" 9100 0 "" 0])))
    (newSubsystem (sampleConfig ModeProduction))).1 in
  pm_listeners (d_proxy st) !! ("web-id", 80, "tcp") = Some webListener ∧
  vh_lo (d_vipHost st) = ∅ ∧ d_svcRegistered st = ∅.
Proof. split_and!; vm_compute; reflexivity. Qed.

(** In dev mode nothing is added to loopback, but a failed registration removes
    the service's address from it, whoever put it there. *)
Theorem dev_failure_removes_address :
  let st := with_vips (newSubsystem (sampleConfig ModeDev)) (mkLocalVIPHost ∅ {["10.96.0.5"]}) ∅ in
  vh_lo (d_vipHost (handleServiceWatchEvent onlyPort80 (sampleConfig ModeDev)
    (svcCreated (Some (web "10.96.0.5" ServiceStatusRunning [mkServicePort "metrics" 9100 0 "" 0]))) st).1) = ∅.
Proof. vm_compute. reflexivity. Qed.
