(* ===== verification/DataplaneLogProps.v ===== *)
(** * The data plane's copy of the log

    The published records as a map per kind, the appliers that keep the log's
    database in that form, and the node's cache and table as a replica: hydrated
    from a snapshot and fed the events of a subscription, they are the records
    the log holds. *)

From S2P Require Import Prelude Text Types Ipv4 Policy PolicyProps Endpoints EventCodec OrderedLog OrderedLogProps WatchProps.
From S2P Require Import ReleaseService Dataplane DataplaneProps.
From Stdlib Require Import Ascii.

#[local] Open Scope Z_scope.
#[local] Arguments lex _ _ : simpl never.
#[local] Arguments eventKey _ : simpl never.
#[local] Arguments HasPrefix _ _ : simpl never.
#[local] Arguments PutUint64 _ : simpl never.

(** ** Keys *)

Lemma text_of_bytes s : text_of (bytes_of s) = s.
Proof.
  induction s as [|c s IH]; [done|]. cbn [bytes_of text_of]. rewrite IH. f_equal.
  rewrite Nat2Z.id. apply ascii_nat_embedding.
Qed.

Lemma bytes_of_inj s t : bytes_of s = bytes_of t → s = t.
Proof. intros H. by rewrite <- (text_of_bytes s), H, text_of_bytes. Qed.

Lemma HasPrefix_first k p q x y : HasPrefix k (x :: p) = true → HasPrefix k (y :: q) = true → x = y.
Proof. unfold HasPrefix. destruct k as [|z k]; [done|]. intros [? _]%andb_prop [? _]%andb_prop. bools. congruence. Qed.

(** ** Records under a prefix

    A kind of record: its key prefix, how one is written, how one is read. *)

Record kind (A : Type) := mkKind {
  kd_prefix : bytes;
  kd_write : string → A → bytes;
  kd_read : bytes → option (string * A);
}.
Arguments kd_prefix {A}. Arguments kd_write {A}. Arguments kd_read {A}. Arguments mkKind {A}.

Section Kind.
Context {A : Type} (K : kind A).
Context (Hread : ∀ name a, name ≠ "" → kd_read K (kd_write K name a) = Some (name, a)).

(** The database holds exactly the records of [m], each under its name. *)
Definition holds_records (d : db) (m : gmap string A) : Prop :=
  m !! "" = None ∧
  ∀ k raw, HasPrefix k (kd_prefix K) = true → d !! k = Some raw ↔
    ∃ name a, k = kd_prefix K ++ bytes_of name ∧ m !! name = Some a ∧ raw = kd_write K name a.

Lemma records_same d d' m :
  (∀ k, HasPrefix k (kd_prefix K) = true → d' !! k = d !! k) → holds_records d m → holds_records d' m.
Proof. intros Heq [He H]. split; [done|]. intros k raw Hk. by rewrite Heq, H. Qed.

Lemma records_put d m name a :
  name ≠ "" → holds_records d m → holds_records (<[kd_prefix K ++ bytes_of name := kd_write K name a]> d) (<[name := a]> m).
Proof.
  intros Hn [He H]. split; [by rewrite lookup_insert_ne|]. intros k raw Hk.
  destruct (decide (k = kd_prefix K ++ bytes_of name)) as [->|Hne].
  - rewrite lookup_insert_eq. split.
    + intros [= <-]. exists name, a. by rewrite lookup_insert_eq.
    + intros (n & x & ->%app_inv_head%bytes_of_inj & Hx & ->). rewrite lookup_insert_eq in Hx. by injection Hx as <-.
  - rewrite lookup_insert_ne by done. rewrite H by done.
    split; intros (n & x & -> & Hx & ->); exists n, x; (split; [done|]); (split; [|done]).
    + rewrite lookup_insert_ne; [done|]. congruence.
    + rewrite lookup_insert_ne in Hx; [done|]. congruence.
Qed.

Lemma records_delete d m name :
  holds_records d m → holds_records (delete (kd_prefix K ++ bytes_of name) d) (delete name m).
Proof.
  intros [He H]. split; [by apply lookup_delete_None; right|]. intros k raw Hk. rewrite lookup_delete_Some, H by done. split.
  - intros [Hne (n & x & -> & Hx & ->)]. exists n, x. split; [done|]. split; [|done].
    apply lookup_delete_Some. split; [congruence|done].
  - intros (n & x & -> & [Hne Hx]%lookup_delete_Some & ->). split; [|by exists n, x].
    intros Heq%app_inv_head%bytes_of_inj. done.
Qed.

(** Reading a range back: the records, over whatever was there. *)
Definition readInto (c : gmap string A) (kv : bytes * bytes) : gmap string A :=
  match kd_read K kv.2 with Some (name, a) => <[name := a]> c | None => c end.

Lemma lex_prefix p x : lex (p ++ x) p = false.
Proof. rewrite <- (app_nil_r p) at 2. rewrite lex_app. by destruct x. Qed.

Lemma elem_of_Range d k v p : (k, v) ∈ Range d p ↔ HasPrefix k p = true ∧ d !! k = Some v.
Proof.
  unfold Range, scan. rewrite elem_of_SliceStable, elem_of_filterb, elem_of_map_to_list. cbn [fst snd]. split.
  - intros [[? _]%andb_prop ?]. done.
  - intros [Hp Hd]. split; [|done]. rewrite Hp. destruct (HasPrefix_split _ _ Hp) as [x ->]. by rewrite lex_prefix.
Qed.

Lemma readInto_fold l c name :
  (∃ kv a, kv ∈ l ∧ kd_read K kv.2 = Some (name, a) ∧ fold_left readInto l c !! name = Some a) ∨
  ((∀ kv a, kv ∈ l → kd_read K kv.2 ≠ Some (name, a)) ∧ fold_left readInto l c !! name = c !! name).
Proof.
  revert c. induction l as [|kv l IH]; intros c; cbn [fold_left]; [right; set_solver|].
  destruct (IH (readInto c kv)) as [(kv' & a & Hin & Hr & Hl)|[Hno Hl]].
  { left. exists kv', a. set_solver. }
  rewrite Hl. unfold readInto. destruct (kd_read K kv.2) as [[n a]|] eqn:Hr.
  - destruct (decide (n = name)) as [->|Hne].
    + left. exists kv, a. rewrite lookup_insert_eq. set_solver.
    + right. rewrite lookup_insert_ne by done. split; [|done]. intros kv' x [->|Hin]%elem_of_cons; [congruence|by apply Hno].
  - right. split; [|done]. intros kv' x [->|Hin]%elem_of_cons; [congruence|by apply Hno].
Qed.

Lemma hydrate_records d m c : holds_records d m → fold_left readInto (Range d (kd_prefix K)) c = m ∪ c.
Proof.
  intros [He H]. apply map_eq. intros name. destruct (readInto_fold (Range d (kd_prefix K)) c name) as [([k v] & a & Hin & Hr & ->)|[Hno ->]].
  - apply elem_of_Range in Hin as [Hp Hd]. apply H in Hd as (n & x & -> & Hx & ->); [|done].
    cbn [snd] in Hr. rewrite Hread in Hr by (intros ->; congruence). injection Hr as -> ->. symmetry. by apply lookup_union_Some_l.
  - destruct (m !! name) as [a|] eqn:Hm; [|by rewrite lookup_union_r]. exfalso.
    assert (Hp : HasPrefix (kd_prefix K ++ bytes_of name) (kd_prefix K) = true) by apply HasPrefix_app.
    apply (Hno (kd_prefix K ++ bytes_of name, kd_write K name a) a); [|apply Hread; intros ->; congruence].
    apply elem_of_Range. split; [done|]. apply H; [done|]. eauto.
Qed.
End Kind.

(** ** The replica *)

Section Mirror.
Context (MarshalEps : ServiceEndpoints → bytes) (UnmarshalEps : bytes → result string ServiceEndpoints).
Context (MarshalLi : LocalInstances → bytes) (UnmarshalLi : bytes → result string LocalInstances).
Context (json_endpoints : ∀ x, UnmarshalEps (MarshalEps x) = Ok x).
Context (json_instances : ∀ x, UnmarshalLi (MarshalLi x) = Ok x).
Context (order : gmap string (gmap string InstanceIdentity) → list (string * gmap string InstanceIdentity)).
Context (order_ranges : ranges order).

Notation view := (gmap string (list Endpoint) * LocalInstancesTable)%type.
Notation applyMut := (applyMutation UnmarshalEps UnmarshalLi order).

Definition ep_kind : kind (list Endpoint) :=
  mkKind epPrefix (λ id eps, MarshalEps (mkServiceEndpoints id eps))
    (λ raw, match UnmarshalEps raw with Ok se => Some (se_ServiceID se, se_Endpoints se) | Err _ => None end).
Definition li_kind : kind (gmap string InstanceIdentity) :=
  mkKind liPrefix (λ node insts, MarshalLi (mkLocalInstances node insts))
    (λ raw, match UnmarshalLi raw with
            | Ok li => if bool_decide (li_NodeID li = "") then None else Some (li_NodeID li, li_Instances li)
            | Err _ => None
            end).

(** The records a log holds: endpoint sets by service, instances by node. *)
Record published := mkPublished {
  pb_endpoints : gmap string (list Endpoint);
  pb_instances : gmap string (gmap string InstanceIdentity);
}.

Definition publishes (d : db) (v : published) : Prop :=
  holds_records ep_kind d (pb_endpoints v) ∧ holds_records li_kind d (pb_instances v).

(** The cache and the table are those records. *)
Definition mirrors (r : view) (v : published) : Prop :=
  r.1 = pb_endpoints v ∧ tb_nodes r.2 = pb_instances v ∧ derived r.2.

Lemma ep_read name a : name ≠ "" → kd_read ep_kind (kd_write ep_kind name a) = Some (name, a).
Proof. cbn. by rewrite json_endpoints. Qed.
Lemma li_read name a : name ≠ "" → kd_read li_kind (kd_write li_kind name a) = Some (name, a).
Proof. intros Hn. cbn. rewrite json_instances. cbn. by rewrite bool_decide_eq_false_2. Qed.

Lemma ep_not_reserved x : HasPrefix (epPrefix ++ x) keyPrefix = false.
Proof. reflexivity. Qed.
Lemma li_not_reserved x : HasPrefix (liPrefix ++ x) keyPrefix = false.
Proof. reflexivity. Qed.

(** Neither kind's keys are the other's, nor the log's own. *)
Lemma kinds_apart k : HasPrefix k epPrefix = true → HasPrefix k liPrefix = false ∧ HasPrefix k keyPrefix = false.
Proof. intros [x ->]%HasPrefix_split. split; reflexivity. Qed.
Lemma kinds_apart' k : HasPrefix k liPrefix = true → HasPrefix k epPrefix = false ∧ HasPrefix k keyPrefix = false.
Proof. intros [x ->]%HasPrefix_split. split; reflexivity. Qed.

(** A change to other keys leaves the records alone. *)
Lemma publishes_same d d' v :
  (∀ k, HasPrefix k epPrefix = true ∨ HasPrefix k liPrefix = true → d' !! k = d !! k) → publishes d v → publishes d' v.
Proof. intros H [He Hl]. split; (eapply records_same; [|done]); auto. Qed.

Lemma publishes_log d v key raw : HasPrefix key keyPrefix = true → publishes d v → publishes (<[key := raw]> d) v.
Proof.
  intros Hk. apply publishes_same. intros k Hkk. apply lookup_insert_ne. intros ->.
  destruct Hkk as [H|H]; [apply kinds_apart in H as [_ H]|apply kinds_apart' in H as [_ H]]; congruence.
Qed.

(** *** Hydration *)

Lemma hydrateInstances_fold l t :
  derived t →
  tb_nodes (fold_left (hydrateInstances UnmarshalLi order) l t) = fold_left (readInto li_kind) l (tb_nodes t) ∧
  derived (fold_left (hydrateInstances UnmarshalLi order) l t).
Proof.
  revert t. induction l as [|kv l IH]; intros t Hd; cbn [fold_left]; [done|].
  assert (derived (hydrateInstances UnmarshalLi order t kv) ∧
    tb_nodes (hydrateInstances UnmarshalLi order t kv) = readInto li_kind (tb_nodes t) kv) as [Hd' <-]; [|by apply IH].
  unfold hydrateInstances, readInto, li_kind. cbn [kd_read]. destruct (UnmarshalLi kv.2) as [li|]; [|done].
  destruct (run_op_inv order t (OpApply (li_NodeID li) (li_Instances li)) order_ranges Hd) as (Hn & _ & Hdd).
  cbn [run_op record_op] in *. split; [done|]. rewrite Hn. by case_bool_decide.
Qed.
(** Hydrating lays the snapshot's records over what is there. *)
Lemma hydrate_over d v c t :
  publishes d v → derived t →
  (hydrate UnmarshalEps UnmarshalLi order d (c, t)).1 = pb_endpoints v ∪ c ∧
  tb_nodes (hydrate UnmarshalEps UnmarshalLi order d (c, t)).2 = pb_instances v ∪ tb_nodes t ∧
  derived (hydrate UnmarshalEps UnmarshalLi order d (c, t)).2.
Proof.
  intros [He Hl] Hd. unfold hydrate. cbn [fst snd]. destruct (hydrateInstances_fold (Range d liPrefix) t Hd) as [Hn Hd'].
  pose proof (hydrate_records ep_kind ep_read d (pb_endpoints v) c He) as <-.
  pose proof (hydrate_records li_kind li_read d (pb_instances v) (tb_nodes t) Hl) as <-.
  change (kd_prefix ep_kind) with epPrefix. change (kd_prefix li_kind) with liPrefix.
  split_and!; [|done|done]. generalize (Range d epPrefix). intros l.
  revert c. induction l as [|kv l IH]; intros c; cbn [fold_left]; [done|]. rewrite IH. f_equal.
  unfold hydrateEndpoint, readInto, Cache_Set. cbn. by destruct (UnmarshalEps kv.2).
Qed.

Lemma hydrate_mirrors d v local :
  publishes d v → mirrors (hydrate UnmarshalEps UnmarshalLi order d (∅, NewLocalInstancesTable local)) v.
Proof.
  intros Hp. destruct (hydrate_over d v ∅ (NewLocalInstancesTable local) Hp (new_table_derived local)) as (H1 & H2 & H3).
  split_and!; [by rewrite H1, (right_id_L ∅ (∪))|by rewrite H2; cbn; rewrite (right_id_L ∅ (∪))|done].
Qed.
(** *** What an applier owes the replicas

    From a database that holds records it leaves one that holds records, and its
    mutations take a replica of the first to a replica of the second. *)

Section Appliers.
Context {M Op : Type} (as_net : Op → option net_op).

Definition feeds (a : Applier M Op) : Prop :=
  ∀ x op m d m' muts d' v, run_txn x (a op m) d = ((m', Ok muts), d') → publishes d v →
  ∃ v', publishes d' v' ∧ ∀ r, mirrors r v → mirrors (fold_left applyMut muts r) v'.

(** A record transaction that succeeds made its one write. *)
Lemma putRecord_run x (m : M) prefix rtype name payload d m' muts d' :
  run_txn x (putRecord m prefix rtype name payload) d = ((m', Ok muts), d') →
  m' = m ∧ muts = [mkMutation MutationPut rtype [] (bytes_of name) payload] ∧ d' = <[prefix ++ bytes_of name := payload]> d.
Proof.
  unfold putRecord. cbn [run_txn]. destruct (HasPrefix _ _); [done|]. destruct (hd None _); [done|]. by intros [= <- <- <-].
Qed.

Lemma deleteRecord_run x (m : M) prefix rtype name d m' muts d' :
  run_txn x (deleteRecord m prefix rtype name) d = ((m', Ok muts), d') →
  m' = m ∧ muts = [mkMutation MutationDelete rtype [] (bytes_of name) []] ∧ d' = delete (prefix ++ bytes_of name) d.
Proof.
  unfold deleteRecord. cbn [run_txn]. destruct (HasPrefix _ _); [done|]. destruct (hd None _); [done|]. by intros [= <- <- <-].
Qed.

(** An applier of something else: other keys, other mutations. *)
Lemma other_feeds (a : Applier M Op) :
  (∀ x op m d k, HasPrefix k epPrefix = true ∨ HasPrefix k liPrefix = true → (run_txn x (a op m) d).2 !! k = d !! k) →
  (∀ x op m d muts mu, (run_txn x (a op m) d).1.2 = Ok muts → mu ∈ muts → mut_ResourceType mu ≠ epType ∧ mut_ResourceType mu ≠ liType) →
  feeds a.
Proof.
  intros Hk Hm x op m d m' muts d' v Hrun Hp. specialize (Hk x op m d). specialize (Hm x op m d muts). rewrite Hrun in Hk, Hm. cbn in *.
  exists v. split; [by eapply publishes_same|]. intros r Hr. assert (fold_left applyMut muts r = r) as ->; [|done].
  clear -Hm. specialize (λ mu, Hm mu eq_refl). induction muts as [|mu muts IH]; cbn [fold_left]; [done|].
  destruct (Hm mu) as [H1 H2]; [set_solver|]. unfold applyMutation at 2. rewrite !bool_decide_eq_false_2 by done. apply IH. set_solver.
Qed.

Lemma mutate_endpoints k n p r :
  applyMut r (mkMutation k epType [] n p) = (applyEndpointsMutation UnmarshalEps (mkMutation k epType [] n p) r.1, r.2).
Proof. unfold applyMutation. by rewrite bool_decide_eq_true_2. Qed.

Lemma mutate_instances k n p r :
  applyMut r (mkMutation k liType [] n p) = (r.1, applyLocalInstancesMutation UnmarshalLi order (mkMutation k liType [] n p) r.2).
Proof. unfold applyMutation. rewrite bool_decide_eq_false_2 by done. by rewrite bool_decide_eq_true_2. Qed.

Lemma put_endpoints_feeds id eps d v :
  id ≠ "" → publishes d v →
  let v' := mkPublished (<[id := eps]> (pb_endpoints v)) (pb_instances v) in
  let payload := MarshalEps (mkServiceEndpoints id eps) in
  publishes (<[epPrefix ++ bytes_of id := payload]> d) v' ∧
  ∀ r, mirrors r v → mirrors (applyMut r (mkMutation MutationPut epType [] (bytes_of id) payload)) v'.
Proof.
  intros Hid [He Hl]. cbv zeta. split; [split|].
  - by apply (records_put ep_kind).
  - eapply records_same; [|exact Hl]. intros k Hk. apply lookup_insert_ne. intros <-.
    apply kinds_apart' in Hk as [Hk _]. by rewrite HasPrefix_app in Hk.
  - intros [c t] (Hc & Ht & Hd). rewrite mutate_endpoints. unfold applyEndpointsMutation. cbn in *.
    rewrite json_endpoints. split_and!; cbn; try done. unfold Cache_Set. by rewrite Hc.
Qed.

Lemma delete_endpoints_feeds id d v :
  publishes d v →
  let v' := mkPublished (delete id (pb_endpoints v)) (pb_instances v) in
  publishes (delete (epPrefix ++ bytes_of id) d) v' ∧
  ∀ r, mirrors r v → mirrors (applyMut r (mkMutation MutationDelete epType [] (bytes_of id) [])) v'.
Proof.
  intros [He Hl]. cbv zeta. split; [split|].
  - by apply (records_delete ep_kind).
  - eapply records_same; [|exact Hl]. intros k Hk. apply lookup_delete_ne. intros <-.
    apply kinds_apart' in Hk as [Hk _]. by rewrite HasPrefix_app in Hk.
  - intros [c t] (Hc & Ht & Hd). rewrite mutate_endpoints. unfold applyEndpointsMutation. cbn in *.
    rewrite text_of_bytes. split_and!; cbn; try done. unfold Cache_Delete. by rewrite Hc.
Qed.

Lemma put_instances_feeds node insts d v :
  node ≠ "" → publishes d v →
  let v' := mkPublished (pb_endpoints v) (<[node := insts]> (pb_instances v)) in
  let payload := MarshalLi (mkLocalInstances node insts) in
  publishes (<[liPrefix ++ bytes_of node := payload]> d) v' ∧
  ∀ r, mirrors r v → mirrors (applyMut r (mkMutation MutationPut liType [] (bytes_of node) payload)) v'.
Proof.
  intros Hn [He Hl]. cbv zeta. split; [split|].
  - eapply records_same; [|exact He]. intros k Hk. apply lookup_insert_ne. intros <-.
    apply kinds_apart in Hk as [Hk _]. by rewrite HasPrefix_app in Hk.
  - by apply (records_put li_kind).
  - intros [c t] (Hc & Ht & Hd). rewrite mutate_instances. unfold applyLocalInstancesMutation. cbn -[Apply] in *. rewrite json_instances. cbn -[Apply].
    destruct (run_op_inv order t (OpApply node insts) order_ranges Hd) as (Hnodes & _ & Hd').
    cbn [run_op record_op] in *. rewrite bool_decide_eq_false_2 in Hnodes by done.
    split_and!; [exact Hc| |exact Hd']. cbn [snd pb_instances]. by rewrite Hnodes, Ht.
Qed.

Lemma delete_instances_feeds node d v :
  publishes d v →
  let v' := mkPublished (pb_endpoints v) (delete node (pb_instances v)) in
  publishes (delete (liPrefix ++ bytes_of node) d) v' ∧
  ∀ r, mirrors r v → mirrors (applyMut r (mkMutation MutationDelete liType [] (bytes_of node) [])) v'.
Proof.
  intros [He Hl]. cbv zeta. split; [split|].
  - eapply records_same; [|exact He]. intros k Hk. apply lookup_delete_ne. intros <-.
    apply kinds_apart in Hk as [Hk _]. by rewrite HasPrefix_app in Hk.
  - by apply (records_delete li_kind).
  - intros [c t] (Hc & Ht & Hd). rewrite mutate_instances. unfold applyLocalInstancesMutation. cbn -[Remove] in *. rewrite text_of_bytes.
    destruct (run_op_inv order t (OpRemove node) order_ranges Hd) as (Hnodes & _ & Hd').
    cbn [run_op record_op] in *. split_and!; [exact Hc| |exact Hd']. cbn [snd pb_instances]. by rewrite Hnodes, Ht.
Qed.

Ltac net_applier op_lemma run_lemma :=
  intros x op m d m' muts d' v; unfold applyUpdateEndpoints, applyDeleteEndpoints, applyUpdateInstances, applyDeleteInstances;
  destruct (as_net op) as [[id eps|id|node insts|node]|]; try done; case_bool_decide; try done;
  intros (_ & -> & ->)%run_lemma Hp; eexists; apply op_lemma; done.

Lemma applyUpdateEndpoints_feeds : feeds (applyUpdateEndpoints MarshalEps as_net).
Proof. net_applier put_endpoints_feeds putRecord_run. Qed.
Lemma applyDeleteEndpoints_feeds : feeds (applyDeleteEndpoints as_net).
Proof. net_applier delete_endpoints_feeds deleteRecord_run. Qed.
Lemma applyUpdateInstances_feeds : feeds (applyUpdateInstances MarshalLi as_net).
Proof. net_applier put_instances_feeds putRecord_run. Qed.
Lemma applyDeleteInstances_feeds : feeds (applyDeleteInstances as_net).
Proof. net_applier delete_instances_feeds deleteRecord_run. Qed.
End Appliers.
(** *** The log from a snapshot on *)

Section Follow.
Context {M Op : Type} (OpType : Op → bytes) (opMarshal : Op → result string bytes).
Implicit Types b : Backend M Op.

Notation applyEv := (applyEvent UnmarshalEps UnmarshalLi order).

Definition all_feed b : Prop := ∀ t a, b_appliers b !! t = Some a → feeds a.

(** [evs] are the events after sequence [n], and take a replica of [v0] to one
    of the records [v] the database holds. *)
Record follows (v0 : published) (n : Z) b (evs : list Event) (v : published) : Prop := {
  fo_log : log_inv b;
  fo_ok : appliers_ok b;
  fo_feed : all_feed b;
  fo_records : publishes (b_db b) v;
  fo_seqs : ev_Seq <$> evs = seqZ (n + 1) (b_lastSeq b - n);
  fo_from : 0 ≤ n ≤ b_lastSeq b;
  fo_replica : ∀ r, mirrors r v0 → mirrors (fold_left applyEv evs r) v;
  fo_events : ∀ ev raw, ev ∈ evs → b_db b !! eventKey (ev_Seq ev) = Some raw → decodeEvent raw = Ok ev;
}.

(** What a committed proposal does to the database and to the channels. *)
Lemma Propose_feeds b op ctxErr x v :
  log_inv b → appliers_ok b → all_feed b → publishes (b_db b) v → b_lastSeq b + 1 < 2 ^ 64 →
  let b' := (Propose OpType opMarshal b op ctxErr x).1 in
  same_log (with_db b (b_db b) (b_lastSeq b) (b_minSeq b) (b_mem b')) b' ∧ b_chans b' = b_chans b ∨
  ∃ m' muts d' raw v', let ev := mkLogEvent (b_lastSeq b + 1) (OpType op) muts in
    let min := if b_minSeq b =? 0 then b_lastSeq b + 1 else b_minSeq b in
    b_closed b = false ∧ b' = publish (with_db b d' (b_lastSeq b + 1) min m') ev ∧ log_ok d' (b_lastSeq b + 1) min ∧
    d' !! eventKey (b_lastSeq b + 1) = Some raw ∧ decodeEvent raw = Ok ev ∧
    (∀ s, 1 ≤ s ≤ b_lastSeq b → d' !! eventKey s = b_db b !! eventKey s) ∧
    publishes d' v' ∧ ∀ r, mirrors r v → mirrors (fold_left applyMut muts r) v'.
Proof.
  intros Hok Happ Hfeed Hp Hlt. cbv zeta.
  destruct (Propose_spec OpType opMarshal b op ctxErr x Hok Hlt) as [(m' & e & -> & _)|(m' & muts & d1 & raw & Hacc & ->)]; [by left|].
  destruct (committed_ok OpType opMarshal b op ctxErr x m' muts d1 raw Hok Hlt Happ Hacc) as (Hok' & Hraw & Hdec & Hold).
  destruct Hacc as (Ecl & _ & _ & _ & _ & _ & a & Ea & Er & _).
  destruct (Hfeed _ _ Ea _ _ _ _ _ _ _ _ Er Hp) as (v' & Hp' & Hmir).
  right. exists m', muts, (committed_db b d1 raw), raw, v'. split; [done|]. split; [reflexivity|]. split_and!; try done.
  apply publishes_log; [reflexivity|]. apply publishes_log; [|done]. apply event_reserved, eventKey_prefix.
Qed.

(** A successful proposal leaves what its applier's transaction leaves, but
    for the log's own keys; a failed one leaves the database as it was. *)
Lemma Propose_records b op ctxErr x a v v' :
  b_appliers b !! OpType op = Some a → publishes (b_db b) v →
  (∀ m' muts d', run_txn x (a op (b_mem b)) (b_db b) = ((m', Ok muts), d') → publishes d' v') →
  let '(b', r) := Propose OpType opMarshal b op ctxErr x in publishes (b_db b') (if is_ok r then v' else v).
Proof.
  intros Ha Hp Hrun. unfold Propose. destruct (b_closed b); [done|].
  destruct (b_appliers b !! OpType op) as [a0|]; [|done]. injection Ha as ->.
  destruct (opMarshal op); [|done]. destruct ctxErr; [done|]. unfold proposeTxn.
  destruct (run_txn x (a op (b_mem b)) (b_db b)) as [[m' r] d1] eqn:Er. destruct r as [muts|e]; [|done].
  destruct (encodeEvent _) as [raw|]; [|done]. destruct (bd_event x); [done|]. destruct (bd_seq x); [done|]. destruct (bd_commit x); [done|].
  match goal with |- context [OrderedLog.publish ?y ?e] => destruct (publish_log y e) as (Hd & _) end.
  cbn [is_ok]. rewrite Hd. cbn [with_db b_db]. apply publishes_log; [reflexivity|]. apply publishes_log; [|by eapply Hrun].
  apply event_reserved, eventKey_prefix.
Qed.

(** A step that commits nothing: same records, same events, the channel sent
    nothing. *)
Lemma quiet_step v0 n b b' evs v :
  follows v0 n b evs v → log_inv b' → appliers_ok b' → b_appliers b' = b_appliers b → b_lastSeq b' = b_lastSeq b →
  (∀ k, HasPrefix k eventKeyPrefix = false → b_db b' !! k = b_db b !! k) →
  (∀ s raw, 1 ≤ s ≤ b_lastSeq b → b_db b' !! eventKey s = Some raw → b_db b !! eventKey s = Some raw) →
  follows v0 n b' evs v.
Proof.
  intros [H1 H2 H3 H4 H5 H6 H7 H8] Hlog Hok Ha Hl Hdb Hev. split; rewrite ?Hl; try done.
  - unfold all_feed. by rewrite Ha.
  - eapply publishes_same; [|exact H4]. intros k Hk. apply Hdb. destruct (HasPrefix k eventKeyPrefix) eqn:E; [|done].
    apply event_reserved in E. destruct Hk as [Hk|Hk]; [apply kinds_apart in Hk as [_ Hk]|apply kinds_apart' in Hk as [_ Hk]]; congruence.
  - intros ev raw Hin Hraw. apply (H8 ev raw Hin). apply Hev; [|done].
    assert (ev_Seq ev ∈ ev_Seq <$> evs) as Hs by (by apply list_elem_of_fmap_2). rewrite H5, elem_of_seqZ in Hs. lia.
Qed.

Lemma same_log_quiet v0 n b b' evs v : follows v0 n b evs v → same_log b b' → follows v0 n b' evs v.
Proof.
  intros Hf Hs. pose proof (same_log_inv b b' Hs (fo_log _ _ _ _ _ Hf)) as Hi.
  pose proof (same_log_appliers b b' Hs (fo_ok _ _ _ _ _ Hf)) as Ho. destruct Hs as (Hd & _ & Hl & _ & Ha & _).
  apply (quiet_step v0 n b); try done; intros; by rewrite <- Hd || by rewrite Hd.
Qed.

(** What the channel was sent, against all events. *)
Definition channel_step (b b' : Backend M Op) (more : list Event) : Prop :=
  ∀ id c, subs_ok b → b_chans b !! id = Some c →
    (ch_closed c = false → ∀ l, b_subs b = Some l → id ∈ l) →
    ∃ c', b_chans b' !! id = Some c' ∧ (ch_closed c' = false → ch_closed c = false ∧ ch_sent c' = ch_sent c ++ more).

Lemma channel_same b b' : b_chans b' = b_chans b → channel_step b b' [].
Proof. intros He id c _ Hc _. exists c. rewrite He, app_nil_r. done. Qed.

Lemma log_step_follows b b' v0 n evs v :
  log_step OpType opMarshal b b' → follows v0 n b evs v →
  ∃ more v', follows v0 n b' (evs ++ more) v' ∧ channel_step b b' more.
Proof.
  intros Hstep Hf. assert (Hq : same_log b b' → channel_step b b' [] →
    ∃ more v', follows v0 n b' (evs ++ more) v' ∧ channel_step b b' more).
  { intros Hs Hc. exists [], v. rewrite app_nil_r. split; [by eapply same_log_quiet|done]. }
  destruct Hstep as [b op ctxErr x Hlt|b from|b id|b id|b|b].
  - destruct (Propose_feeds b op ctxErr x v (fo_log _ _ _ _ _ Hf) (fo_ok _ _ _ _ _ Hf) (fo_feed _ _ _ _ _ Hf) (fo_records _ _ _ _ _ Hf) Hlt)
      as [[Hs Hch]|(m' & muts & d' & raw & v' & Hcl & -> & Hok' & Hraw & Hdec & Hold & Hp' & Hmir)].
    + exists [], v. rewrite app_nil_r. split; [|by apply channel_same]. eapply same_log_quiet; [|exact Hs]. by destruct Hf; split.
    + set (ev := mkLogEvent _ _ muts) in *. set (b1 := with_db b d' _ _ m').
      destruct (publish_log b1 ev) as (Hd & _ & Hl & Hm & Ha & _). destruct Hf as [H1 H2 H3 H4 H5 H6 H7 H8].
      exists [ev], v'. split.
      * split; unfold log_inv, appliers_ok, all_feed; rewrite ?Hd, ?Hl, ?Hm, ?Ha; cbn; try done; [|lia| |].
        -- rewrite fmap_app, H5. cbn. replace (b_lastSeq b + 1 - n) with (b_lastSeq b - n + 1) by lia.
           rewrite seqZ_app by lia. f_equal. unfold seqZ. simpl. f_equal. lia.
        -- intros r Hr. rewrite fold_left_app. cbn. apply Hmir. by apply H7.
        -- intros e rw [He|He]%elem_of_app Hrw.
           ++ apply (H8 e rw He). rewrite <- Hold; [done|].
              assert (ev_Seq e ∈ ev_Seq <$> evs) as Hs by (by apply list_elem_of_fmap_2). rewrite H5, elem_of_seqZ in Hs. lia.
           ++ apply list_elem_of_singleton in He as ->. cbn in Hrw. rewrite Hraw in Hrw. by injection Hrw as <-.
      * intros id c Hsubs Hc Hopen. destruct (ch_closed c) eqn:Ec.
        -- exists c. split; [by apply publish_closed|]. congruence.
        -- destruct (b_subs b) as [l|] eqn:El; [|by rewrite (proj1 Hsubs El) in Hcl].
           destruct (proj2 Hsubs l El) as [Hnd _].
           destruct (publish_self b1 ev id c l El Hnd (Hopen eq_refl l eq_refl) Hc Ec) as [Hc' _].
           eexists. split; [exact Hc'|]. unfold delivered. by destruct (_ <? _).
  - apply Hq; [apply Watch_log|]. intros id c _ Hc _. exists c. rewrite app_nil_r. split; [|done].
    unfold Watch. repeat case_match; cbn; try done. by apply lookup_app_l_Some.
  - apply Hq; [unfold watchGoroutine; repeat case_match; try done; eapply same_log_trans; [apply with_chans_log|apply removeSub_log]|].
    intros i c _ Hc _. unfold watchGoroutine. destruct (b_chans b !! id) as [k|] eqn:Ek; [|by exists c; rewrite app_nil_r].
    destruct (ch_goroutine k); [|by exists c; rewrite app_nil_r]. set (b1 := with_chans b _ _ _).
    destruct (decide (id = i)) as [->|Hne].
    + destruct (removeSub_self b1 i (mkChannel (ch_sent k) (ch_recv k) (ch_from k) (ch_closed k) false)) as (c' & Hc' & Hcc & _).
      { cbn. apply list_lookup_insert_eq. by eapply lookup_lt_Some. }
      exists c'. split; [done|]. congruence.
    + exists c. rewrite removeSub_other by done. cbn. rewrite list_lookup_insert_ne, app_nil_r by done. done.
  - apply Hq; [unfold receive; by repeat case_match|].
    intros i c _ Hc _. unfold receive. destruct (b_chans b !! id) as [k|] eqn:Ek; [|by exists c; rewrite app_nil_r].
    case_bool_decide; [|by exists c; rewrite app_nil_r]. cbn. destruct (decide (id = i)) as [->|Hne].
    + rewrite list_lookup_insert_eq by (by eapply lookup_lt_Some). rewrite Hc in Ek. injection Ek as <-.
      eexists. split; [done|]. cbn. by rewrite app_nil_r.
    + exists c. rewrite list_lookup_insert_ne, app_nil_r by done. done.
  - destruct (pruneOnce_spec b (fo_log _ _ _ _ _ Hf)) as (d' & Heq & Hok' & Hkeep & Hrest). rewrite Heq.
    exists [], v. rewrite app_nil_r. split; [|by apply channel_same].
    apply (quiet_step v0 n b); try done; [by destruct Hf|]. intros s raw Hs Hraw. cbn in Hraw. rewrite <- Hkeep; [done| |done].
    destruct (decide (prune_floor b ≤ s)); [done|]. exfalso.
    rewrite (events_below d' (b_lastSeq b) (prune_floor b) s Hok') in Hraw by lia. done.
  - exists [], v. rewrite app_nil_r. unfold Close. destruct (b_closed b); (split; [|by apply channel_same]); [done|].
    apply (quiet_step v0 n b); try done; by destruct Hf.
Qed.

Lemma log_steps_follow b b' v0 n evs v :
  rtc (log_step OpType opMarshal) b b' → follows v0 n b evs v → ∃ more v', follows v0 n b' (evs ++ more) v'.
Proof.
  intros Hs. revert evs v. induction Hs as [b|b b1 b' Hstep _ IH]; intros evs v Hf; [exists [], v; by rewrite app_nil_r|].
  destruct (log_step_follows _ _ _ _ _ _ Hstep Hf) as (m1 & v1 & Hf1 & _). destruct (IH _ _ Hf1) as (m2 & v2 & Hf2).
  exists (m1 ++ m2), v2. by rewrite app_assoc.
Qed.

(** A watched channel is sent everything that is committed while it is open. *)
Lemma log_steps_channel b b' v0 n evs v id c :
  rtc (log_step OpType opMarshal) b b' → follows v0 n b evs v → watch_inv id n b →
  b_chans b !! id = Some c → (ch_closed c = false → ch_sent c = evs) →
  ∃ evs' v' c', follows v0 n b' evs' v' ∧ b_chans b' !! id = Some c' ∧ (ch_closed c' = false → ch_sent c' = evs').
Proof.
  intros Hs. revert evs v c. induction Hs as [b|b b1 b' Hstep _ IH]; intros evs v c Hf Hw Hc Hsent; [by exists evs, v, c|].
  destruct (log_step_follows _ _ _ _ _ _ Hstep Hf) as (m1 & v1 & Hf1 & Hch).
  destruct Hw as (Hw1 & Hw2 & Hsubs & c0 & Hc0 & Hs0). rewrite Hc in Hc0. injection Hc0 as <-.
  destruct (Hch id c Hsubs Hc) as (c1 & Hc1 & Hs1); [intros Ho; by apply (so_open _ _ _ _ Hs0 Ho)|].
  apply (IH (evs ++ m1) v1 c1); [done| |done|].
  - eapply log_step_watch; [exact Hstep|]. split_and!; try done. by exists c.
  - intros Ho. destruct (Hs1 Ho) as [Ho' ->]. by rewrite Hsent.
Qed.

(** Two lists of events with the same sequence numbers, both the persisted
    ones, are the same. *)
Lemma events_agree d last min evs evs' a k :
  log_ok d last min → 1 ≤ a → min ≤ a → a + k = last + 1 →
  ev_Seq <$> evs = seqZ a k → ev_Seq <$> evs' = seqZ a k →
  (∀ ev raw, ev ∈ evs → d !! eventKey (ev_Seq ev) = Some raw → decodeEvent raw = Ok ev) →
  (∀ ev raw, ev ∈ evs' → d !! eventKey (ev_Seq ev) = Some raw → decodeEvent raw = Ok ev) → evs = evs'.
Proof.
  intros Hok Ha Hmin Hsum Hs Hs' He He'. apply list_eq. intros i.
  assert (Hi : ev_Seq <$> evs !! i = ev_Seq <$> evs' !! i) by (by rewrite <- !list_lookup_fmap, Hs, Hs').
  destruct (evs !! i) as [e|] eqn:E, (evs' !! i) as [e'|] eqn:E'; try done. cbn in Hi. injection Hi as Hi.
  assert (Hin : ev_Seq e ∈ seqZ a k) by (rewrite <- Hs; apply list_elem_of_fmap_2; by eapply list_elem_of_lookup_2).
  apply elem_of_seqZ in Hin. destruct (lo_present _ _ _ Hok (ev_Seq e)) as [raw Hraw]; [lia|lia|].
  assert (Hd : decodeEvent raw = Ok e) by (eapply He; [by eapply list_elem_of_lookup_2|done]).
  rewrite Hi in Hraw. rewrite (He' e' raw) in Hd; [congruence|by eapply list_elem_of_lookup_2|done].
Qed.

(** Subscribing at the snapshot's sequence delivers the events since. *)
Lemma Watch_follows v0 n b evs v b1 id :
  follows v0 n b evs v → subs_ok b → b_lastSeq b - n ≤ o_WatchBuffer (b_opts b) → Watch b n = (b1, Ok id) →
  follows v0 n b1 evs v ∧ watch_inv id n b1 ∧ ∃ c, b_chans b1 !! id = Some c ∧ ch_closed c = false ∧ ch_sent c = evs.
Proof.
  intros Hf Hsubs Hbuf Hw. pose proof (fo_log _ _ _ _ _ Hf) as Hok. pose proof (fo_from _ _ _ _ _ Hf) as Hn.
  assert (Hmin : b_minSeq b = 0 ∨ b_minSeq b ≤ n + 1).
  { revert Hw. unfold Watch. destruct (b_closed b); [done|]. destruct (lo_range _ _ _ Hok) as [Hr Hl].
    destruct ((0 <? b_minSeq b) && (wrapU64 (n + 1) <? b_minSeq b)) eqn:E; [done|]. intros _.
    apply andb_false_iff in E as [E|E]; bools; [left; lia|]. unfold wrapU64 in E.
    pose proof (Z.mod_le (n + 1) (2 ^ 64)). right. lia. }
  destruct (Watch_spec b n b1 id Hok Hn ltac:(lia) Hw) as (c & l & Hl & Hid & -> & Hcl & _ & _ & Hfr & Hseqs & Hevs).
  rewrite Z.min_l in Hfr, Hseqs by lia.
  assert (Hc : (b_chans b ++ [c]) !! id = Some c) by (rewrite Hid; by apply list_lookup_middle).
  split; [eapply same_log_quiet; [exact Hf|apply with_chans_log]|]. split.
  - split_and!; [done|by destruct Hf|rewrite Hid; by apply subs_ok_snoc|]. exists c. split; [done|]. split; cbn; try done.
    + rewrite Hseqs. f_equal. lia.
    + lia.
    + intros _. split; [lia|]. intros ? [= <-]. set_solver.
  - exists c. split; [done|]. split; [done|].
    destruct (decide (b_lastSeq b = n)) as [He|Hne].
    { rewrite He, Z.sub_diag in Hseqs. pose proof (fo_seqs _ _ _ _ _ Hf) as Hs. rewrite He, Z.sub_diag in Hs.
      rewrite seqZ_nil in Hseqs, Hs by lia. apply fmap_nil_inv in Hseqs, Hs. congruence. }
    pose proof (lo_zero _ _ _ Hok). destruct (lo_range _ _ _ Hok).
    eapply (events_agree (b_db b) (b_lastSeq b) (b_minSeq b) _ _ (n + 1)); [done|lia|lia| |exact Hseqs|apply Hf|exact Hevs|apply Hf]. lia.
Qed.

(** A node that starts: it reads a snapshot, others keep writing, it subscribes
    at the snapshot's sequence, and everything goes on. *)
Section Replica.
Context (b0 b1 b2 b3 : Backend M Op) (v0 : published) (d : db) (seq : Z) (id : nat) (local : string).
Context (Hlog : log_inv b0) (Happ : appliers_ok b0) (Hsubs : subs_ok b0).
Context (Hfeed : all_feed b0) (Hrec : publishes (b_db b0) v0).
Context (Hsnap : Snapshot b0 None = Ok (d, seq)) (Hbefore : rtc (log_step OpType opMarshal) b0 b1).
Context (Hbuf : b_lastSeq b1 - seq ≤ o_WatchBuffer (b_opts b1)).
Context (Hwatch : Watch b1 seq = (b2, Ok id)) (Hafter : rtc (log_step OpType opMarshal) b2 b3).

Definition caught_up (c : channel) : view :=
  fold_left applyEv (ch_sent c) (hydrate UnmarshalEps UnmarshalLi order d (∅, NewLocalInstancesTable local)).

Lemma start_follows : follows v0 seq b0 [] v0 ∧ d = b_db b0.
Proof.
  revert Hsnap. unfold Snapshot. destruct (b_closed b0); [done|]. intros [= <- <-]. split; [|done].
  destruct (lo_range _ _ _ Hlog). split; try done; [by rewrite Z.sub_diag|lia|set_solver].
Qed.

Lemma steps_subs b b' evs v :
  rtc (log_step OpType opMarshal) b b' → follows v0 seq b evs v → subs_ok b → subs_ok b'.
Proof.
  intros Hs. revert evs v. induction Hs as [|b b' b'' Hstep _ IH]; intros evs v Hf Hsb; [done|].
  destruct (log_step_follows _ _ _ _ _ _ Hstep Hf) as (more & v' & Hf' & _).
  apply (IH _ _ Hf'). eapply log_step_subs; [apply Hf|apply Hf|exact Hstep|done].
Qed.

Lemma replica_spec :
  ∃ c v, b_chans b3 !! id = Some c ∧ publishes (b_db b3) v ∧ (ch_closed c = false → mirrors (caught_up c) v).
Proof.
  destruct start_follows as [Hf Hd].
  destruct (log_steps_follow _ _ _ _ _ _ Hbefore Hf) as (evs & v1 & Hf1). cbn [app] in Hf1.
  pose proof (steps_subs _ _ _ _ Hbefore Hf Hsubs) as Hsubs1.
  destruct (Watch_follows _ _ _ _ _ _ _ Hf1 Hsubs1 Hbuf Hwatch) as (Hf2 & Hw & c & Hc & Hcl & Hsent).
  destruct (log_steps_channel _ _ _ _ _ _ _ _ Hafter Hf2 Hw Hc (λ _, Hsent)) as (evs' & v' & c' & Hf3 & Hc' & Hs').
  exists c', v'. split; [done|]. split; [apply Hf3|]. intros Ho. unfold caught_up. rewrite (Hs' Ho). apply Hf3.
  apply hydrate_mirrors. by rewrite Hd.
Qed.

(** C12: A node's endpoint cache and identity table are a replica of the log.  The
    node hydrates from a snapshot, then watches from the snapshot's sequence,
    while any writers, other watchers, sweeps and cancellations go on in between
    and afterwards; as long as what was written before the subscription fits the
    watch buffer and its channel is still open, applying what the channel was
    sent leaves exactly the endpoint sets and node tables whose records the
    log's database holds at that point, deletions included. *)
Theorem replica_follows_log :
  ∃ c v, b_chans b3 !! id = Some c ∧ publishes (b_db b3) v ∧ (ch_closed c = false → mirrors (caught_up c) v).
Proof. exact replica_spec. Qed.

(** What such a node dials is published: the record the log holds for the
    listener's service lists the endpoint, healthy and allowed by locality. *)
Theorem dialled_is_published cfg known st c now rng sid l src dst proto ip port :
  dp_reachable cfg known st → rng_ok rng → b_chans b3 !! id = Some c → ch_closed c = false →
  d_cache st = (caught_up c).1 → route cfg now rng st sid l src dst proto = inr (ip, port) →
  ∃ eps ep, b_db b3 !! (epPrefix ++ bytes_of sid) = Some (MarshalEps (mkServiceEndpoints sid eps)) ∧
    candidate eps (ln_pref l) (ln_localNode l) ep ∧ ip = ep_IP ep ∧ port = endpointPort l ep.
Proof.
  intros [Hi _]%dp_invariant Hr Hc Ho Hcache Hroute.
  destruct replica_spec as (c' & v & Hc' & [He _] & Hm). rewrite Hc in Hc'. injection Hc' as <-.
  destruct (Hm Ho) as [Hcv _]. pose proof (route_spec cfg now rng st known sid l src dst proto Hi Hr) as Hs. cbv zeta in Hs.
  rewrite Hroute in Hs. destruct Hs as (_ & _ & ep & Hcand & -> & ->). rewrite Hcache, Hcv in Hcand.
  destruct (pb_endpoints v !! sid) as [eps|] eqn:Hsid; [|by destruct Hcand as [Hin _]; set_solver].
  exists eps, ep. split; [|done]. apply He; [apply HasPrefix_app|]. by exists sid, eps.
Qed.
End Replica.

(** The orchestrator's publisher on the log is the publishing of Endpoints.v:
    a call that succeeds replaces the service's set, an empty one removing the
    record, and one that fails leaves every record as it was. *)
Theorem publisher_refines (as_net : Op → option net_op) (as_op : net_op → Op) b service eps ctxErr x v :
  (∀ o, OpType (as_op o) = net_OpType o) → (∀ o, as_net (as_op o) = Some o) →
  b_appliers b !! OpUpdateEndpoints = Some (applyUpdateEndpoints MarshalEps as_net) →
  b_appliers b !! OpDeleteEndpoints = Some (applyDeleteEndpoints as_net) →
  publishes (b_db b) v →
  let '(b', r) := PublishServiceEndpoints OpType opMarshal as_op b (Some service) eps ctxErr x in
  publishes (b_db b') (mkPublished (PublishService (is_ok r) service eps (pb_endpoints v)).1 (pb_instances v)).
Proof.
  intros Htype Hnet Hup Hdel Hp. unfold PublishServiceEndpoints, PublishService.
  case_bool_decide as Hid; [by destruct v|]. unfold publisherPropose. destruct eps as [|e eps].
  - rewrite bool_decide_eq_false_2 by done.
    pose proof (Propose_records b (as_op (deleteEndpoints (s_ID service))) ctxErr x (applyDeleteEndpoints as_net) v
      (mkPublished (delete (s_ID service) (pb_endpoints v)) (pb_instances v))) as H.
    rewrite Htype in H. specialize (H Hdel Hp). cbn [net_OpType] in H.
    destruct (Propose _ _ _ _ _ _) as [b' r]. destruct r; cbn [is_ok negb] in *; [|destruct v]; apply H; clear -Hid Hnet Hp order;
      unfold applyDeleteEndpoints; rewrite Hnet, bool_decide_eq_false_2 by done;
      intros m' muts d' (_ & _ & ->)%deleteRecord_run; by apply delete_endpoints_feeds.
  - rewrite bool_decide_eq_false_2 by done.
    pose proof (Propose_records b (as_op (updateEndpoints (s_ID service) (e :: eps))) ctxErr x (applyUpdateEndpoints MarshalEps as_net) v
      (mkPublished (<[s_ID service := e :: eps]> (pb_endpoints v)) (pb_instances v))) as H.
    rewrite Htype in H. specialize (H Hup Hp). cbn [net_OpType] in H.
    destruct (Propose _ _ _ _ _ _) as [b' r]. destruct r; cbn [is_ok negb] in *; [|destruct v]; apply H; clear -Hid Hnet Hp json_endpoints order;
      unfold applyUpdateEndpoints; rewrite Hnet, bool_decide_eq_false_2 by done;
      intros m' muts d' (_ & _ & ->)%putRecord_run; by apply put_endpoints_feeds.
Qed.

(** Hydrating again after a compaction only adds: what was deleted meanwhile
    stays in the cache and in the table. *)
Theorem rehydrate_keeps_deleted d v st now sid eps node insts seq cur :
  publishes d v → derived (d_localInstances st) →
  d_cache st !! sid = Some eps → pb_endpoints v !! sid = None →
  tb_nodes (d_localInstances st) !! node = Some insts → pb_instances v !! node = None →
  let st' := (watchRound UnmarshalEps UnmarshalLi order now (compacted (Some (d, seq))) cur st).1 in
  d_cache st' !! sid = Some eps ∧ tb_nodes (d_localInstances st') !! node = Some insts.
Proof.
  intros Hp Hd Hs Hn Hns Hnn. cbv zeta. cbn [watchRound fst markFresh with_run with_view d_cache d_localInstances].
  destruct (hydrate_over d v (d_cache st) (d_localInstances st) Hp Hd) as (-> & -> & _).
  by rewrite !lookup_union_r.
Qed.
End Follow.
End Mirror.

(** ** A sample log

    A writer that publishes and removes the endpoints of one service; records
    are written as one number. *)

#[global] Instance Endpoint_countable : Countable Endpoint.
Proof.
  refine (inj_countable' (λ e, (ep_InstanceID e, ep_IP e, ep_Port e, ep_Protocol e, ep_Metadata e, ep_Healthy e))
    (λ '(a, b, c, d, e, f), mkEndpoint a b c d e f) _). by intros [].
Defined.

#[global] Instance InstanceIdentity_eq_dec : EqDecision InstanceIdentity.
Proof. solve_decision. Defined.
#[global] Instance InstanceIdentity_countable : Countable InstanceIdentity.
Proof.
  refine (inj_countable' (λ i, (id_InstanceID i, id_Service i, id_Namespace i)) (λ '(a, b, c), mkIdentity a b c) _). by intros [].
Defined.

Definition writeEps (x : ServiceEndpoints) : bytes := [Zpos (encode (se_ServiceID x, se_Endpoints x))].
Definition readEps (b : bytes) : result string ServiceEndpoints :=
  match b with
  | [Zpos p] => match decode (A := string * list Endpoint) p with Some (i, e) => Ok (mkServiceEndpoints i e) | None => Err "" end
  | _ => Err ""
  end.
Definition writeLi (x : LocalInstances) : bytes := [Zpos (encode (li_NodeID x, li_Instances x))].
Definition readLi (b : bytes) : result string LocalInstances :=
  match b with
  | [Zpos p] =>
      match decode (A := string * gmap string InstanceIdentity) p with Some (i, e) => Ok (mkLocalInstances i e) | None => Err "" end
  | _ => Err ""
  end.

Lemma readEps_write x : readEps (writeEps x) = Ok x.
Proof. unfold readEps, writeEps. rewrite countable.decode_encode. by destruct x. Qed.
Lemma readLi_write x : readLi (writeLi x) = Ok x.
Proof. unfold readLi, writeLi. rewrite countable.decode_encode. by destruct x. Qed.

(** [true] publishes the sample endpoint, [false] removes it. *)
Definition writerOp (op : bool) : net_op := if op then updateEndpoints "web-id" [webEndpoint] else deleteEndpoints "web-id".
Definition writerType (op : bool) : bytes := net_OpType (writerOp op).
Definition writerMarshal (op : bool) : result string bytes := Ok (if op then [1] else [0]).
Definition writerNet (op : bool) : option net_op := Some (writerOp op).

Definition writerLog : Backend unit bool :=
  match registerEndpoints writeEps writerNet (NewBadgerBackend ∅ (mkOptions 8 0 0 0) tt) with
  | Ok b => b
  | Err _ => NewBadgerBackend ∅ (mkOptions 8 0 0 0) tt
  end.

Definition write (op : bool) (b : Backend unit bool) : Backend unit bool := (Propose writerType writerMarshal b op None accepting).1.

Lemma writer_appliers t a :
  b_appliers writerLog !! t = Some a → a = applyUpdateEndpoints writeEps writerNet ∨ a = applyDeleteEndpoints writerNet.
Proof.
  change (b_appliers writerLog) with (<[OpDeleteEndpoints := applyDeleteEndpoints writerNet]>
    (<[OpUpdateEndpoints := applyUpdateEndpoints writeEps writerNet]> ∅) : gmap bytes (Applier unit bool)).
  intros [[_ <-]|[_ [[_ <-]|[_ ?]]%lookup_insert_Some]]%lookup_insert_Some; [by right|by left|done].
Qed.

Lemma writer_ok : appliers_ok writerLog.
Proof.
  intros t a Ha%writer_appliers x op m d muts H.
  destruct (run_txn x (a op m) d) as [[m' r] d'] eqn:E. cbn in H. subst r.
  destruct Ha as [-> | ->], op; cbn [run_txn] in E; try discriminate E;
    [apply putRecord_run in E as (_ & -> & _)|apply deleteRecord_run in E as (_ & -> & _)];
    apply Forall_singleton; split; vm_compute; intuition congruence.
Qed.

Lemma writer_feeds order : all_feed writeEps readEps writeLi readLi order writerLog.
Proof.
  intros t a [-> | ->]%writer_appliers.
  - apply applyUpdateEndpoints_feeds, readEps_write.
  - apply applyDeleteEndpoints_feeds.
Qed.

Lemma writer_records : publishes writeEps readEps writeLi readLi (b_db writerLog) (mkPublished ∅ ∅).
Proof. split; (split; [done|]); intros k raw _; (split; [done|]); by intros (n & x & _ & ? & _). Qed.

(** One write between the node's snapshot and its subscription, two after. *)
Definition nodeWatching : Backend unit bool := (Watch (write true writerLog) 0).1.
Definition nodeLater : Backend unit bool := write true (write false nodeWatching).

Lemma writer_log_ok : log_inv writerLog ∧ subs_ok writerLog.
Proof.
  split; [apply log_ok_empty|]. split; [done|]. intros l H. vm_compute in H. injection H as <-. split; [constructor|set_solver].
Qed.

Lemma later_steps : rtc (log_step writerType writerMarshal) nodeWatching nodeLater.
Proof.
  refine (rtc_l _ _ _ _ (step_propose _ _ nodeWatching false None accepting _) _); [vm_compute; reflexivity|].
  refine (rtc_once _ _ (step_propose _ _ _ true None accepting _)). vm_compute. reflexivity.
Qed.

Lemma sample_order : ranges map_to_list.
Proof. by intros ?. Qed.

Notation sampleReplica := (caught_up readEps readLi map_to_list (∅ : db) "a").

Lemma replica_follows_log_witness :
  ∃ c v, b_chans nodeLater !! 0%nat = Some c ∧ publishes writeEps readEps writeLi readLi (b_db nodeLater) v ∧
    ch_closed c = false ∧ (sampleReplica c).1 = pb_endpoints v ∧ pb_endpoints v !! "web-id" = Some [webEndpoint].
Proof.
  destruct (replica_follows_log writeEps readEps writeLi readLi readEps_write readLi_write map_to_list sample_order
    writerType writerMarshal writerLog (write true writerLog) nodeWatching nodeLater (mkPublished ∅ ∅) ∅ 0 0%nat "a"
    (proj1 writer_log_ok) writer_ok (proj2 writer_log_ok) (writer_feeds map_to_list) writer_records) as (c & v & Hc & Hp & Hm).
  - reflexivity.
  - refine (rtc_once _ _ (step_propose _ _ writerLog true None accepting _)). vm_compute. reflexivity.
  - vm_compute. congruence.
  - vm_compute. reflexivity.
  - exact later_steps.
  - exists c, v. assert (Hcl : ch_closed <$> b_chans nodeLater !! 0%nat = Some false) by (vm_compute; reflexivity).
    assert (Hw : (λ c, (sampleReplica c).1 !! "web-id") <$> b_chans nodeLater !! 0%nat = Some (Some [webEndpoint]))
      by (vm_compute; reflexivity).
    rewrite Hc in Hcl, Hw. cbn [fmap option_fmap option_map] in Hcl, Hw. injection Hcl as Hcl. injection Hw as Hw.
    destruct (Hm Hcl) as [Heq _]. rewrite Heq in Hw. exact (conj Hc (conj Hp (conj Hcl (conj Heq Hw)))).
Defined.

Definition sampleChannel : channel := default (mkChannel [] 0 0 true false) (b_chans nodeLater !! 0%nat).
Definition replicaState : Subsystem :=
  markFresh 5 (with_view (handleServiceWatchEvent allWorks (sampleConfig ModeProduction) webCreated
    (newSubsystem (sampleConfig ModeProduction))).1 (sampleReplica sampleChannel).1 sampleTable).

Lemma dialled_is_published_witness :
  ∃ eps ep, b_db nodeLater !! (epPrefix ++ bytes_of "web-id") = Some (writeEps (mkServiceEndpoints "web-id" eps)) ∧
    candidate eps "" "a" ep ∧ "172.17.0.2" = ep_IP ep ∧ 8080 = endpointPort webListener ep.
Proof.
  refine (dialled_is_published writeEps readEps writeLi readLi readEps_write readLi_write map_to_list sample_order
    writerType writerMarshal writerLog (write true writerLog) nodeWatching nodeLater (mkPublished ∅ ∅) ∅ 0 0%nat "a"
    (proj1 writer_log_ok) writer_ok (proj2 writer_log_ok) (writer_feeds map_to_list) writer_records _ _ _ _ later_steps
    (sampleConfig ModeProduction) sampleKnown replicaState sampleChannel 6 None "web-id" webListener (Some 2886795267)
    (Some 174063621) "tcp" _ _ _ _ _ _ _ _).
  - reflexivity.
  - refine (rtc_once _ _ (step_propose _ _ writerLog true None accepting _)). vm_compute. reflexivity.
  - vm_compute. congruence.
  - vm_compute. reflexivity.
  - refine (rtc_l _ _ _ _ (dp_event _ allWorks webCreated _ _ _) _); [done|]. apply rtc_once, dp_log.
  - intros f n [=].
  - vm_compute. reflexivity.
  - vm_compute. reflexivity.
  - reflexivity.
  - vm_compute. reflexivity.
Defined.

Definition staleNode : Subsystem :=
  with_view (newSubsystem (sampleConfig ModeProduction)) {["web-id" := [webEndpoint]]} sampleTable.

Lemma rehydrate_keeps_deleted_witness :
  d_cache (watchRound readEps readLi map_to_list 9 (compacted (Some (b_db writerLog, 0))) 7 staleNode).1 !! "web-id"
    = Some [webEndpoint].
Proof.
  refine (proj1 (rehydrate_keeps_deleted writeEps readEps writeLi readLi readEps_write readLi_write map_to_list sample_order
    (b_db writerLog) (mkPublished ∅ ∅) staleNode 9 "web-id" [webEndpoint] "a" {["172.17.0.3" := mkIdentity "api-1" "api" "prod"]} 0 7
    writer_records _ _ _ _ _)).
  - exact (proj2 (proj2 (run_op_inv map_to_list _ (OpApply "a" {["172.17.0.3" := mkIdentity "api-1" "api" "prod"]}) sample_order
      (new_table_derived "a")))).
  - reflexivity.
  - reflexivity.
  - vm_compute. reflexivity.
  - reflexivity.
Defined.

Definition netLog : Backend unit net_op :=
  match registerEndpoints writeEps Some (NewBadgerBackend ∅ (mkOptions 8 0 0 0) tt) with
  | Ok b => b
  | Err _ => NewBadgerBackend ∅ (mkOptions 8 0 0 0) tt
  end.

Lemma publisher_refines_witness :
  publishes writeEps readEps writeLi readLi
    (b_db (PublishServiceEndpoints net_OpType (λ _, Ok [1]) id netLog
      (Some (sv_Service (web "" ServiceStatusRunning []))) [webEndpoint] None accepting).1)
    (mkPublished {["web-id" := [webEndpoint]]} ∅).
Proof.
  pose proof (publisher_refines writeEps readEps writeLi readLi readEps_write map_to_list net_OpType (λ _, Ok [1]) Some id netLog
    (sv_Service (web "" ServiceStatusRunning [])) [webEndpoint] None accepting (mkPublished ∅ ∅)
    (λ _, eq_refl) (λ _, eq_refl) eq_refl eq_refl) as H.
  assert (Hr : (PublishServiceEndpoints net_OpType (λ _, Ok [1]) id netLog
      (Some (sv_Service (web "" ServiceStatusRunning []))) [webEndpoint] None accepting).2 = Ok tt) by (vm_compute; reflexivity).
  destruct (PublishServiceEndpoints _ _ _ _ _ _ _ _) as [b' r]. cbn [snd fst] in *. subst r. cbn [is_ok] in H. apply H.
  split; (split; [reflexivity|]); intros k raw _; (split; [discriminate|]); intros (n & x & _ & Hx & _); discriminate Hx.
Defined.
