(* ===== verification/Dns.v ===== *)
(** * The node's resolver (internal/agent/dns)

    The authoritative answers for <service>.<namespace>.rune, the lookup of a
    service's address with its one-second memory, the forwarding of everything
    else, and that a resolved name is the address the data plane's listeners of
    that service are bound to.  Sockets and the exchange with an upstream answer
    through arguments. *)

From S2P Require Import Prelude Text Types Ipv4 Policy ReleaseService Dataplane DataplaneProps.
From Stdlib Require Import Ascii.

#[local] Open Scope Z_scope.

(** ** Names and messages *)

Definition DefaultBindAddr : string := "127.0.0.123:53".
Definition Zone : string := "rune.".
Definition DefaultTTL : Z := 5.

Inductive qtype := TypeA | TypeAAAA | TypeANY | TypeOther.
Inductive rcode := RcodeSuccess | RcodeFormatError | RcodeServerFailure | RcodeNameError.

Record question := mkQuestion { q_Name : string; q_Qtype : qtype }.

(** An A record of an answer: owner name, TTL, address. *)
Record dnsA := mkDnsA { a_Name : string; a_Ttl : Z; a_A : Z }.

Record reply := mkReply { rp_Rcode : rcode; rp_Authoritative : bool; rp_Answer : list dnsA }.

(** [strings.TrimSuffix]. *)
Definition TrimSuffix (s suffix : string) : string :=
  if HasSuffix s suffix then String.substring 0 (String.length s - String.length suffix) s else s.

Definition splitName (name : string) : option (string * string) :=
  let trimmed := TrimSuffix name ("." +:+ Zone) in
  if bool_decide (trimmed = name) then None
  else match Split "." trimmed with
       | [svc; ns] => if bool_decide (svc = "") || bool_decide (ns = "") then None else Some (svc, ns)
       | _ => None
       end.

(** ** The store's zone (wire.go) *)

Record storeZoneCacheEntry := mkEntry { ze_ips : list Z; ze_ok : bool; ze_expires : Time }.

Definition storeZoneTTL : Duration := Second.

Definition discoveryVIP (s : svc) : option Z := if bool_decide (sv_VIP s = "") then None else ParseIP (sv_VIP s).

(** One uncached lookup: [get] is the store's read, [None] for any error;
    [vips] the allocator, absent when no source is wired. *)
Definition resolve (get : string → string → option svc) (vips : option (string → result string (option Z)))
    (ns name : string) : list Z * bool :=
  match get ns name with
  | None => ([], false)
  | Some s =>
      match discoveryVIP s with
      | Some vip => ([vip], true)
      | None =>
          match vips with
          | Some f =>
              if bool_decide (sv_ID s = "") then ([], false)
              else match f (sv_ID s) with Ok (Some ip) => ([ip], true) | _ => ([], false) end
          | None => ([], false)
          end
      end
  end.

Definition LookupA (get : string → string → option svc) (vips : option (string → result string (option Z))) (now : Time)
    (ns name : string) (cache : gmap string storeZoneCacheEntry) : gmap string storeZoneCacheEntry * (list Z * bool) :=
  let key := ns +:+ "/" +:+ name in
  let miss :=
    let '(ips, ok) := resolve get vips ns name in
    (<[key := mkEntry ips ok (now + storeZoneTTL)]> cache, (ips, ok)) in
  match cache !! key with
  | Some e => if Before now (ze_expires e) then (cache, (ze_ips e, ze_ok e)) else miss
  | None => miss
  end.

(** ** Answering (dns.go) *)

(** [zone] is [ZoneProvider.LookupA] at the time of the query. *)
Definition handleZone (fresh : bool) (ttl : Z) (zone : string → string → list Z * bool) (q : question) (name : string) : reply :=
  if negb fresh then mkReply RcodeServerFailure false []
  else match q_Qtype q with
  | TypeAAAA | TypeANY | TypeOther => mkReply RcodeSuccess true []
  | TypeA =>
      match splitName name with
      | None => mkReply RcodeNameError true []
      | Some (svc, ns) =>
          match zone ns svc with
          | (_, false) | ([], _) => mkReply RcodeNameError true []
          | (ips, true) => mkReply RcodeSuccess true ((λ ip, mkDnsA (q_Name q) ttl ip) <$> ips)
          end
      end
  end.

(** The first upstream that answers; [exchange] is one query to one upstream. *)
Fixpoint handleForward (exchange : string → option reply) (upstreams : list string) : reply :=
  match upstreams with
  | [] => mkReply RcodeServerFailure false []
  | u :: ups => match exchange u with Some r => r | None => handleForward exchange ups end
  end.

(** A request is its questions. *)
Definition handle (fresh : bool) (ttl : Z) (zone : string → string → list Z * bool) (exchange : string → option reply)
    (upstreams : list string) (questions : list question) : reply :=
  match questions with
  | [] => mkReply RcodeFormatError false []
  | q :: _ =>
      let name := ToLower (q_Name q) in
      if HasSuffix name ("." +:+ Zone) || bool_decide (name = Zone) then handleZone fresh ttl zone q name
      else handleForward exchange upstreams
  end.

(** ** Upstreams and bind addresses *)

(** [net.SplitHostPort] of a text without brackets: exactly one colon. *)
Definition SplitHostPort (addr : string) : option (string * string) :=
  match Split ":" addr with [host; port] => Some (host, port) | _ => None end.

Definition bindIPSet (addrs : list string) : gset Z :=
  list_to_set (omap (λ addr, ParseIP (match SplitHostPort addr with Some (host, _) => host | None => addr end)) addrs).

(** [servers] and [port] are the parsed resolv.conf, [None] when it is not
    readable. *)
Definition parseResolvConf (conf : option (list string * string)) (skip : gset Z) : option (list string) :=
  match conf with
  | None => None
  | Some (servers, port) =>
      Some (omap (λ srv, match ParseIP srv with
                         | Some ip => if bool_decide (ip ∈ skip) then None else Some (srv +:+ ":" +:+ port)
                         | None => Some (srv +:+ ":" +:+ port)
                         end) servers)
  end.

(** [ResolvConfUpstreams]. *)
Definition ResolvConfUpstreams (ownBindAddrs : list string) (conf : option (list string * string)) : list string :=
  default [] (parseResolvConf conf (bindIPSet ownBindAddrs)).

(** The new list and whether it was taken; an empty one is an error that keeps
    the previous. *)
Definition refreshUpstreams (provider : option (list string)) (bindAddrs : list string) (conf : option (list string * string))
    (upstreams : list string) : list string * bool :=
  let ups := match provider with Some ups => Some ups | None => parseResolvConf conf (bindIPSet bindAddrs) end in
  match ups with
  | None | Some [] => (upstreams, false)
  | Some ups => (ups, true)
  end.

(** The bind loop of [Start]: the addresses served; [None] when there is none. *)
Definition bindAll (udp tcp : string → bool) (addrs : list string) : option (list string) :=
  match List.filter (λ a, udp a && tcp a) addrs with [] => None | l => Some l end.

(** [FilterBindable]: the addresses that bind, in order without repetition, and
    those that do not. *)
Fixpoint FilterBindable (probe : string → bool) (seen : gset string) (addrs : list string) : list string * list string :=
  match addrs with
  | [] => ([], [])
  | a :: addrs =>
      if bool_decide (a = "") || bool_decide (a ∈ seen) then FilterBindable probe seen addrs
      else
        let '(ok, skipped) := FilterBindable probe ({[a]} ∪ seen) addrs in
        if probe a then (a :: ok, skipped) else (ok, a :: skipped)
  end.

(** ** The memory is at most a second old *)

Record lookup := mkLookup { lk_get : string → string → option svc; lk_vips : option (string → result string (option Z)); lk_now : Time; lk_ns : string; lk_name : string }.

Definition run_lookup (cache : gmap string storeZoneCacheEntry) (l : lookup) : gmap string storeZoneCacheEntry :=
  (LookupA (lk_get l) (lk_vips l) (lk_now l) (lk_ns l) (lk_name l) cache).1.

(** Every entry is what some earlier lookup of its key found in the store. *)
Definition entries_seen (past : list lookup) (cache : gmap string storeZoneCacheEntry) : Prop :=
  ∀ key e, cache !! key = Some e → ∃ l, l ∈ past ∧ key = lk_ns l +:+ "/" +:+ lk_name l ∧
    (ze_ips e, ze_ok e) = resolve (lk_get l) (lk_vips l) (lk_ns l) (lk_name l) ∧ ze_expires e = lk_now l + storeZoneTTL.

Lemma run_lookup_seen past cache l : entries_seen past cache → entries_seen (past ++ [l]) (run_lookup cache l).
Proof.
  intros Hs. assert (Hold : entries_seen (past ++ [l]) cache).
  { intros key e He. destruct (Hs key e He) as (l' & ? & ?). exists l'. set_solver. }
  unfold run_lookup, LookupA. destruct (resolve (lk_get l) (lk_vips l) (lk_ns l) (lk_name l)) as [ips ok] eqn:Hr.
  set (key := lk_ns l +:+ "/" +:+ lk_name l).
  assert (Hmiss : entries_seen (past ++ [l]) (<[key := mkEntry ips ok (lk_now l + storeZoneTTL)]> cache)).
  { intros k e [[<- <-]|[_ He]]%lookup_insert_Some; [|by apply Hold]. exists l. split; [set_solver|]. by rewrite Hr. }
  destruct (cache !! key) as [e|]; [|done]. by destruct (Before (lk_now l) (ze_expires e)).
Qed.

Lemma run_lookups_seen ls : entries_seen ls (fold_left run_lookup ls ∅).
Proof.
  enough (∀ past cache, entries_seen past cache → entries_seen (past ++ ls) (fold_left run_lookup ls cache)) as H
    by by apply (H [] ∅).
  induction ls as [|l ls IH]; intros past cache Hs; cbn [fold_left]; [by rewrite app_nil_r|].
  rewrite (cons_middle l), app_assoc. by apply IH, run_lookup_seen.
Qed.

(** After any lookups over any changing store, an answer is what the store and
    the allocator said in some lookup of the same name less than a second
    earlier, or what they say now. *)
Theorem lookup_recent past l :
  (∀ p, p ∈ past → lk_now p ≤ lk_now l) →
  let '(_, answer) := LookupA (lk_get l) (lk_vips l) (lk_now l) (lk_ns l) (lk_name l) (fold_left run_lookup past ∅) in
  ∃ p, p ∈ past ++ [l] ∧ lk_now l - Second < lk_now p ≤ lk_now l ∧
    lk_ns p +:+ "/" +:+ lk_name p = lk_ns l +:+ "/" +:+ lk_name l ∧
    answer = resolve (lk_get p) (lk_vips p) (lk_ns p) (lk_name p).
Proof.
  intros Hmono. pose proof (run_lookups_seen past) as Hs. unfold LookupA.
  set (key := lk_ns l +:+ "/" +:+ lk_name l). set (cache := fold_left run_lookup past ∅) in *.
  assert (Hmiss : ∃ p, p ∈ past ++ [l] ∧ lk_now l - Second < lk_now p ≤ lk_now l ∧ lk_ns p +:+ "/" +:+ lk_name p = key ∧
    resolve (lk_get l) (lk_vips l) (lk_ns l) (lk_name l) = resolve (lk_get p) (lk_vips p) (lk_ns p) (lk_name p)).
  { exists l. split; [set_solver|]. unfold Second. split; [lia|done]. }
  destruct (resolve (lk_get l) (lk_vips l) (lk_ns l) (lk_name l)) as [ips ok].
  destruct (cache !! key) as [e|] eqn:He; [|done].
  destruct (Before (lk_now l) (ze_expires e)) eqn:Hb; [|done].
  destruct (Hs key e He) as (p & Hp & Hk & Hr & Hx). exists p. split; [set_solver|].
  unfold Before in Hb. rewrite Hx in Hb. unfold storeZoneTTL in Hb. bools. specialize (Hmono p Hp). split; [lia|]. by rewrite Hr.
Qed.

(** ** Names *)

Lemma HasSuffix_app a b : HasSuffix (a +:+ b) b = true.
Proof.
  induction a as [|c a IH].
  - change ("" +:+ b) with b. by destruct b; cbn [HasSuffix]; rewrite bool_decide_eq_true_2.
  - change (String c a +:+ b) with (String c (a +:+ b)). cbn [HasSuffix]. by rewrite IH, orb_true_r.
Qed.

Lemma substring_app a b : String.substring 0 (String.length a) (a +:+ b) = a.
Proof.
  induction a as [|c a IH]; [by destruct b|]. change (String c a +:+ b) with (String c (a +:+ b)).
  cbn [String.length String.substring]. by rewrite IH.
Qed.

Lemma TrimSuffix_app a b : TrimSuffix (a +:+ b) b = a.
Proof.
  unfold TrimSuffix. rewrite HasSuffix_app, string_app_length.
  replace (String.length a + String.length b - String.length b)%nat with (String.length a) by lia. apply substring_app.
Qed.

(** The name of a service in the zone. *)
Definition zoneName (svc ns : string) : string := (svc +:+ String "." ns) +:+ ("." +:+ Zone).

(** A label: not empty, without dots, in lower case. *)
Definition label_ok (s : string) : Prop := s ≠ "" ∧ free "." s = true ∧ ToLower s = s.

Lemma splitName_zone svc ns : label_ok svc → label_ok ns → splitName (zoneName svc ns) = Some (svc, ns).
Proof.
  intros (Hs & Hsf & _) (Hn & Hnf & _). unfold splitName, zoneName. rewrite TrimSuffix_app. cbv zeta.
  rewrite bool_decide_eq_false_2.
  2: { intros Heq. apply (f_equal String.length) in Heq. rewrite (string_app_length (svc +:+ String "." ns) ("." +:+ Zone)) in Heq.
       change (String.length ("." +:+ Zone)) with 6%nat in Heq. lia. }
  rewrite Split_cut, (Split_free _ ns) by done. by rewrite !bool_decide_eq_false_2.
Qed.

Lemma ToLower_app a b : ToLower (a +:+ b) = ToLower a +:+ ToLower b.
Proof.
  induction a as [|c a IH]; [done|]. change (String c a +:+ b) with (String c (a +:+ b)). cbn [ToLower]. by rewrite IH.
Qed.

Lemma ToLower_zone svc ns : label_ok svc → label_ok ns → ToLower (zoneName svc ns) = zoneName svc ns.
Proof.
  intros (_ & _ & Hs) (_ & _ & Hn). unfold zoneName. rewrite !ToLower_app, Hs. cbn [ToLower]. by rewrite Hn.
Qed.

(** A split name is one service's name in the zone, and labels do not mix. *)
Lemma handle_zone_name fresh ttl zone exchange ups q rest svc ns :
  label_ok svc → label_ok ns → ToLower (q_Name q) = zoneName svc ns →
  handle fresh ttl zone exchange ups (q :: rest) = handleZone fresh ttl zone q (zoneName svc ns).
Proof.
  intros Hs Hn Hq. unfold handle. rewrite Hq. unfold zoneName at 1. by rewrite HasSuffix_app.
Qed.

(** What an A query for a service's name answers: when the state counts as
    fresh, exactly the addresses the zone has for it, and a name error when it
    has none; when it does not, a server failure. *)
Theorem zone_answers fresh ttl zone exchange ups q rest svc ns :
  label_ok svc → label_ok ns → ToLower (q_Name q) = zoneName svc ns → q_Qtype q = TypeA →
  let r := handle fresh ttl zone exchange ups (q :: rest) in
  (fresh = false → r = mkReply RcodeServerFailure false []) ∧
  (fresh = true →
    (rp_Rcode r = RcodeSuccess ↔ ∃ ips, zone ns svc = (ips, true) ∧ ips ≠ [] ∧ a_A <$> rp_Answer r = ips) ∧
    (rp_Rcode r = RcodeSuccess ∨ rp_Rcode r = RcodeNameError) ∧
    ∀ a, a ∈ rp_Answer r → a_Name a = q_Name q ∧ a_Ttl a = ttl).
Proof.
  intros Hs Hn Hq Ht. cbv zeta. rewrite (handle_zone_name _ _ _ _ _ _ _ svc ns) by done.
  unfold handleZone. rewrite Ht, splitName_zone by done. destruct fresh; [split; [done|]|split; [done|done]]. intros _.
  destruct (zone ns svc) as [[|ip ips] [|]]; cbn [negb rp_Rcode rp_Answer].
  - split; [|split; [by right|set_solver]]. split; [done|]. by intros (? & [= <-] & ? & _).
  - split; [|split; [by right|set_solver]]. split; [done|]. by intros (? & [=] & _).
  - split; [|split; [by left|]].
    + split; [|done]. intros _. exists (ip :: ips). split; [done|]. split; [done|].
      rewrite <- list_fmap_compose. apply list_fmap_id.
    + intros a (x & -> & _)%list_elem_of_fmap. done.
  - split; [|split; [by right|set_solver]]. split; [done|]. by intros (? & [=] & _).
Qed.

(** ** The name and the listener *)

(** C20: A service's name resolves to the address its listeners are bound to.  In
    production, when the store's row of a service has an address and the data
    plane has registered that row from scratch, an A query for the name that
    looks the row up answers exactly that address, and on it a listener is open
    for every port of the service that the ingress does not own, dialling the
    port's target. *)
Theorem name_reaches_listener env cfg get vips now cache s ns name q rest exchange ups pm pm' ip p :
  cf_Mode cfg = ModeProduction → label_ok name → label_ok ns →
  get ns name = Some s → sv_VIP s ≠ "" → ParseIP (sv_VIP s) = Some ip →
  cache !! (ns +:+ "/" +:+ name) = None →
  (∀ k, k.1.1 = sv_ID s → pm_listeners pm !! k = None) → Proxy_Register env cfg s pm = (pm', Ok tt) →
  p ∈ s_Ports (sv_Service s) → PortReserved (cf_ReservedHostPorts cfg) (sp_Port p) = false →
  ToLower (q_Name q) = zoneName name ns → q_Qtype q = TypeA →
  a_A <$> rp_Answer (handle true DefaultTTL (λ n m, (LookupA get vips now n m cache).2) exchange ups (q :: rest)) = [ip] ∧
  ∃ ln p', pm_listeners pm' !! portKey (sv_ID s) p = Some ln ∧ ln_addr ln = (IP_String ip, sp_Port p) ∧
    p' ∈ s_Ports (sv_Service s) ∧ portKey (sv_ID s) p' = portKey (sv_ID s) p ∧
    ln_targetPort ln = if sp_TargetPort p' =? 0 then sp_Port p' else sp_TargetPort p'.
Proof.
  intros Hm Hname Hns Hget Hvip Hip Hmiss Hno Hreg Hp Hu Hq Ht. split.
  - rewrite (handle_zone_name _ _ _ _ _ _ _ name ns) by done. unfold handleZone. cbn [negb].
    rewrite Ht, splitName_zone by done. unfold LookupA. rewrite Hmiss. unfold resolve. rewrite Hget.
    unfold discoveryVIP. rewrite bool_decide_eq_false_2, Hip by done. done.
  - destruct (register_exact _ _ _ _ _ _ Hreg) as (_ & _ & H). destruct (H eq_refl) as [Hports (b & Hb & Hk)].
    destruct (proj2 (Hports (portKey (sv_ID s) p) eq_refl)) as [ln Hln]; [by exists p|].
    destruct (Hk (portKey (sv_ID s) p) ln eq_refl Hln) as [Ho|(_ & p' & Hp' & _ & Hkey & _ & Haddr & Hsp & Htp & _)].
    { by rewrite (Hno (portKey (sv_ID s) p)) in Ho. }
    assert (b = ip) as ->.
    { unfold bindIPFor in Hb. rewrite Hm, (bool_decide_eq_false_2 (ModeProduction = ModeDev)),
        (bool_decide_eq_false_2 (sv_VIP s = "")), Hip in Hb by done. by apply Ok_inj in Hb. }
    exists ln, p'. split; [done|]. split; [|split_and!; [done|done|exact Htp]].
    rewrite Haddr. f_equal. unfold portKey in Hkey. congruence.
Qed.

(** ** Behaviours the comments do not say *)

(** An unknown name of another type is no name error: AAAA queries for names
    that do not exist succeed with no answer. *)
Theorem unknown_name_succeeds ttl zone exchange ups q rest svc ns :
  label_ok svc → label_ok ns → ToLower (q_Name q) = zoneName svc ns → q_Qtype q = TypeAAAA → zone ns svc = ([], false) →
  handle true ttl zone exchange ups (q :: rest) = mkReply RcodeSuccess true [].
Proof.
  intros Hs Hn Hq Ht _. rewrite (handle_zone_name _ _ _ _ _ _ _ svc ns) by done. unfold handleZone. by rewrite Ht.
Qed.

(** A failed read of the store is answered as a name that does not exist, and
    remembered as one for a second. *)
Theorem failed_read_is_name_error vips now ns name cache exchange ups q rest :
  label_ok name → label_ok ns → cache !! (ns +:+ "/" +:+ name) = None →
  ToLower (q_Name q) = zoneName name ns → q_Qtype q = TypeA →
  let read := LookupA (λ _ _, None) vips now ns name cache in
  rp_Rcode (handle true DefaultTTL (λ n m, (LookupA (λ _ _, None) vips now n m cache).2) exchange ups (q :: rest)) = RcodeNameError ∧
  ∀ get later, now ≤ later < now + Second → (LookupA get vips later ns name read.1).2 = ([], false).
Proof.
  intros Hname Hns Hmiss Hq Ht. cbv zeta. split.
  - rewrite (handle_zone_name _ _ _ _ _ _ _ name ns) by done. unfold handleZone. cbn [negb].
    rewrite Ht, splitName_zone by done. unfold LookupA. rewrite Hmiss. done.
  - intros get later Hl. assert ((LookupA (λ _ _, None) vips now ns name cache).1 =
      <[ns +:+ "/" +:+ name := mkEntry [] false (now + storeZoneTTL)]> cache) as -> by (unfold LookupA; by rewrite Hmiss).
    unfold LookupA. rewrite lookup_insert_eq. unfold Before, storeZoneTTL. cbn [ze_expires].
    by rewrite (proj2 (Z.ltb_lt _ _)) by lia.
Qed.

(** ** Witnesses *)

Definition webQuery : question := mkQuestion "Web.prod.rune." TypeA.
Definition webRow : svc := web "10.96.0.5" ServiceStatusRunning [httpPort 8080].
Definition webStore (ns name : string) : option svc := if bool_decide (ns = "prod") && bool_decide (name = "web") then Some webRow else None.

Lemma web_labels : label_ok "web" ∧ label_ok "prod".
Proof. split; (split; [discriminate|split; reflexivity]). Qed.

Lemma lookup_recent_witness :
  (LookupA webStore None 1000000001 "prod" "web" (run_lookup ∅ (mkLookup webStore None 5 "prod" "web"))).2 = ([174063621], true) ∧
  ∃ p, p ∈ [mkLookup webStore None 5 "prod" "web"; mkLookup webStore None 1000000001 "prod" "web"] ∧ 1 < lk_now p.
Proof.
  split; [vm_compute; reflexivity|].
  pose proof (lookup_recent [mkLookup webStore None 5 "prod" "web"] (mkLookup webStore None 1000000001 "prod" "web")
    ltac:(intros p ->%list_elem_of_singleton; vm_compute; congruence)) as H.
  destruct (LookupA _ _ _ _ _ _) as [c a]. destruct H as (p & Hp & Hl & _). exists p. split; [exact Hp|].
  unfold Second in Hl. cbn in Hl. lia.
Defined.

Lemma zone_answers_witness :
  rp_Rcode (handle true 5 (λ n m, (LookupA webStore None 5 n m ∅).2) (λ _, None) [] [webQuery]) = RcodeSuccess.
Proof.
  destruct (zone_answers true 5 (λ n m, (LookupA webStore None 5 n m ∅).2) (λ _, None) [] webQuery [] "web" "prod"
    (proj1 web_labels) (proj2 web_labels) ltac:(vm_compute; reflexivity) eq_refl) as [_ H].
  apply (proj1 (H eq_refl)). exists [174063621]. split; [vm_compute; reflexivity|]. split; [discriminate|]. vm_compute. reflexivity.
Defined.

Lemma name_reaches_listener_witness :
  a_A <$> rp_Answer (handle true DefaultTTL (λ n m, (LookupA webStore None 5 n m ∅).2) (λ _, None) [] [webQuery]) = [174063621] ∧
  ∃ ln, pm_listeners webRegistered !! ("web-id", 80, "tcp") = Some ln ∧ ln_addr ln = ("10.96.0.5", 80) ∧ ln_targetPort ln = 8080.
Proof.
  destruct (name_reaches_listener allWorks (sampleConfig ModeProduction) webStore None 5 ∅ webRow "prod" "web" webQuery [] (λ _, None) []
    emptyProxy webRegistered 174063621 (httpPort 8080)) as [H (ln & p' & Hln & Ha & Hp & _ & Ht)].
  - reflexivity.
  - apply web_labels.
  - apply web_labels.
  - vm_compute. reflexivity.
  - discriminate.
  - vm_compute. reflexivity.
  - reflexivity.
  - reflexivity.
  - vm_compute. reflexivity.
  - apply list_elem_of_singleton. reflexivity.
  - vm_compute. reflexivity.
  - vm_compute. reflexivity.
  - reflexivity.
  - split; [exact H|]. exists ln. split; [exact Hln|]. split; [exact Ha|].
    apply list_elem_of_singleton in Hp. subst p'. exact Ht.
Defined.

Lemma unknown_name_succeeds_witness :
  handle true 5 (λ _ _, ([], false)) (λ _, None) [] [mkQuestion "nosuch.prod.rune." TypeAAAA] = mkReply RcodeSuccess true [].
Proof.
  refine (unknown_name_succeeds 5 (λ _ _, ([], false)) (λ _, None) [] (mkQuestion "nosuch.prod.rune." TypeAAAA) [] "nosuch" "prod" _
    (proj2 web_labels) _ eq_refl eq_refl); [|vm_compute; reflexivity].
  split; [discriminate|split; reflexivity].
Defined.

Lemma failed_read_is_name_error_witness :
  (LookupA webStore None 7 "prod" "web" (LookupA (λ _ _, None) None 5 "prod" "web" ∅).1).2 = ([], false).
Proof.
  refine (proj2 (failed_read_is_name_error None 5 "prod" "web" ∅ (λ _, None) [] webQuery [] (proj1 web_labels) (proj2 web_labels)
    eq_refl _ eq_refl) webStore 7 _); [vm_compute; reflexivity|unfold Second; lia].
Defined.
