(* ===== verification/Secrets.v ===== *)
(** * Secrets (pkg/store/repos/{secret,audit}.go, pkg/crypto/{encryption,kek,util}.go, pkg/api/service/secret.go)

    A secret is stored sealed under a key of its own, which is stored sealed under
    the master key (KEK); every write leaves a version row behind.  The repository
    runs on the Badger store of ResourceStore.v.  AES-GCM, JSON and SHA-256 are
    parameters ([secret_lib]); base64 is written out.  Every effect takes a tick
    and the environment answers it: the clock, random bytes, whether Badger's read
    and commit work, and what other writers do to the store before a call.  Byte
    slices are strings.  A secret's engine, rotation and data keys, which none of
    this code reads, and log lines are left out; an error's text is its
    constructor. *)

From stdpp Require Import pretty.
From Stdlib Require Import Ascii.
From S2P Require Import Prelude Text Types ResourceStore Names Release.

(** ** Data (types/secret.go, types/audit.go, store_options.go) *)

(** [map[string]string]; [None] is the nil map. *)
Definition Data := option (gmap string string).

Definition entries (d : Data) : gmap string string := default ∅ d.

Record Secret := mkSecret {
  sc_ID : string;
  sc_Name : string;
  sc_Namespace : string;
  sc_Type : string;
  sc_Data : Data;
  sc_Version : Z;
  sc_CreatedAt : Time;
  sc_UpdatedAt : Time;
  sc_OwnedBy : option OwnedBy;
}.

Record StoredSecret := mkStored {
  st_Name : string;
  st_Namespace : string;
  st_Version : Z;
  st_CreatedAt : Time;
  st_UpdatedAt : Time;
  st_Ciphertext : string;
  st_WrappedDEK : string;
  st_OwnedBy : option OwnedBy;
}.

Record Limits := mkLimits { li_MaxObjectBytes : Z; li_MaxKeyNameLength : Z }.

Inductive KEKSource := KEKSourceFile | KEKSourceEnv | KEKSourceGenerated | KEKSourceOther (s : string).

Record KEKOptions := mkKEKOptions {
  ko_Source : KEKSource;
  ko_FilePath : string;
  ko_EnvVar : string;
  ko_GenerateIfMissing : bool;
}.

Inductive SecretError :=
| EInvalidSecret | EBadName | EKeyTooLong (k : string) | ETooLarge
| ERandom | EKeyLength | ETooShort | EOpen | EUnmarshal
| ENoKEKOptions | EKEKPath | EKEKRead | EKEKBase64 | EKEKEnv | EKEKSource | EKEKMkdir | EKEKWrite
| EStore (e : StoreError) | EVersion (n : Z) | ENamespace.

Inductive AuditOutcome := AuditOutcomeSuccess | AuditOutcomeError.

(** The message of an event: none, a text, or an error's text. *)
Inductive note := NoNote | Note (s : string) | Cause (e : SecretError).

Record AuditEvent := mkAudit {
  au_Actor : string;
  au_Action : string;
  au_ResourceRef : string;
  au_Namespace : string;
  au_Outcome : AuditOutcome;
  au_Message : note;
  au_Metadata : list (string * string);
}.

(** [tokenBucket], in billionths of a token; [refill] is billionths per nanosecond. *)
Record tokenBucket := mkBucket { tb_capacity : Z; tb_tokens : Z; tb_refill : Z; tb_last : Time }.

(** ** Base64 (encoding/base64, StdEncoding) *)

Module Base64.
Definition alphabet : string := "ABCDEFGHIJKLMNOPQRSTUVWXYZabcdefghijklmnopqrstuvwxyz0123456789+/".
Definition pad : ascii := "="%char.

Definition byte (c : ascii) : N := N_of_ascii c.
Definition char (n : N) : ascii := default "A"%char (String.get (N.to_nat n) alphabet).

Fixpoint index_in (c : ascii) (s : string) : option N :=
  match s with
  | EmptyString => None
  | String c' s => if Ascii.eqb c c' then Some 0%N else (λ n, (1 + n)%N) <$> index_in c s
  end.
Definition value (c : ascii) : option N := index_in c alphabet.

Fixpoint EncodeToString (s : string) : string :=
  match s with
  | String a (String b (String c rest)) =>
      let v := (byte a * 65536 + byte b * 256 + byte c)%N in
      String (char (v / 262144)) (String (char (v / 4096 mod 64)) (String (char (v / 64 mod 64)) (String (char (v mod 64))
        (EncodeToString rest))))
  | String a (String b EmptyString) =>
      let v := (byte a * 65536 + byte b * 256)%N in
      String (char (v / 262144)) (String (char (v / 4096 mod 64)) (String (char (v / 64 mod 64)) (String pad EmptyString)))
  | String a EmptyString =>
      let v := (byte a * 65536)%N in
      String (char (v / 262144)) (String (char (v / 4096 mod 64)) (String pad (String pad EmptyString)))
  | EmptyString => EmptyString
  end.

Definition is_newline (c : ascii) : bool := bool_decide (c = "010"%char) || bool_decide (c = "013"%char).

Fixpoint strip_newlines (s : string) : string :=
  match s with
  | EmptyString => EmptyString
  | String c s => if is_newline c then strip_newlines s else String c (strip_newlines s)
  end.

(** The quanta of an input without line breaks; padding ends it. *)
Fixpoint quanta (s : string) : option string :=
  match s with
  | EmptyString => Some EmptyString
  | String a (String b (String c (String d rest))) =>
      x ← value a; y ← value b;
      if bool_decide (c = pad) then
        (if bool_decide (d = pad) && bool_decide (rest = "")
         then Some (String (ascii_of_N ((x * 262144 + y * 4096) / 65536)) EmptyString) else None)
      else
        z ← value c;
        if bool_decide (d = pad) then
          (let v := (x * 262144 + y * 4096 + z * 64)%N in
           if bool_decide (rest = "") then Some (String (ascii_of_N (v / 65536)) (String (ascii_of_N (v / 256 mod 256)) EmptyString))
           else None)
        else
          u ← value d; out ← quanta rest;
          let v := (x * 262144 + y * 4096 + z * 64 + u)%N in
          Some (String (ascii_of_N (v / 65536)) (String (ascii_of_N (v / 256 mod 256)) (String (ascii_of_N (v mod 256)) out)))
  | _ => None
  end.

Definition DecodeString (s : string) : option string := quanta (strip_newlines s).
End Base64.

(** ** Parameters and the world *)

Section Secrets.
Context {D : Type}.

(** JSON of the stored row and of the data, AES-256-GCM, and the hash of a
    secret's JSON. *)
Record secret_lib := mkSecretLib {
  sl_Marshal : StoredSecret → result string D;
  sl_MarshalVersion : string → Time → StoredSecret → result string D;
  sl_Unmarshal : D → result string StoredSecret;
  sl_UnmarshalVersion : D → result string (string * Time * StoredSecret);
  sl_Generic : D → result string D;                              (* through an empty interface *)
  sl_MarshalData : Data → string;
  sl_UnmarshalData : string → option Data;
  sl_Seal : string → string → string → string → string;         (* key, nonce, plaintext, aad *)
  sl_Open : string → string → string → string → option string;  (* key, nonce, ciphertext, aad *)
  sl_Hash : string → Data → string;
}.

Record secret_env := mkSecretEnv {
  xe_now : nat → Time;
  xe_random : nat → nat → option string;
  xe_readable : nat → bool;
  xe_commits : nat → bool;
  xe_file : nat → bool;
  xe_getenv : string → string;
  xe_others : nat → BadgerStore StoredSecret D → BadgerStore StoredSecret D;
}.

(** [SecretRepo]'s options. *)
Record repo_config := mkRepoConfig { rc_kekOpts : option KEKOptions; rc_limits : Limits }.

Record xworld := mkXworld {
  xw_store : BadgerStore StoredSecret D;
  xw_kekOnce : bool;
  xw_kek : string;
  xw_kekErr : option SecretError;
  xw_files : gmap string string;
  xw_namespaces : gset string;
  xw_audit : list AuditEvent;
  xw_limiter : tokenBucket;
  xw_tick : nat;
}.

Definition with_store (s : BadgerStore StoredSecret D) (w : xworld) : xworld :=
  mkXworld s (xw_kekOnce w) (xw_kek w) (xw_kekErr w) (xw_files w) (xw_namespaces w) (xw_audit w) (xw_limiter w) (xw_tick w).
Definition with_kek (once : bool) (kek : string) (err : option SecretError) (w : xworld) : xworld :=
  mkXworld (xw_store w) once kek err (xw_files w) (xw_namespaces w) (xw_audit w) (xw_limiter w) (xw_tick w).
Definition with_files (f : gmap string string) (w : xworld) : xworld :=
  mkXworld (xw_store w) (xw_kekOnce w) (xw_kek w) (xw_kekErr w) f (xw_namespaces w) (xw_audit w) (xw_limiter w) (xw_tick w).
Definition with_namespaces (n : gset string) (w : xworld) : xworld :=
  mkXworld (xw_store w) (xw_kekOnce w) (xw_kek w) (xw_kekErr w) (xw_files w) n (xw_audit w) (xw_limiter w) (xw_tick w).
Definition with_audit (l : list AuditEvent) (w : xworld) : xworld :=
  mkXworld (xw_store w) (xw_kekOnce w) (xw_kek w) (xw_kekErr w) (xw_files w) (xw_namespaces w) l (xw_limiter w) (xw_tick w).
Definition with_limiter (b : tokenBucket) (w : xworld) : xworld :=
  mkXworld (xw_store w) (xw_kekOnce w) (xw_kek w) (xw_kekErr w) (xw_files w) (xw_namespaces w) (xw_audit w) b (xw_tick w).
Definition ticked (w : xworld) : xworld :=
  mkXworld (xw_store w) (xw_kekOnce w) (xw_kek w) (xw_kekErr w) (xw_files w) (xw_namespaces w) (xw_audit w) (xw_limiter w) (S (xw_tick w)).

(** A program returns a value or an error, and its effects stay either way. *)
Definition io (E A : Type) : Type := xworld → xworld * result E A.

#[global] Instance io_ret {E} : MRet (io E) := λ A a w, (w, Ok a).
#[global] Instance io_bind {E} : MBind (io E) := λ A B f m w, match m w with (w', Ok a) => f a w' | (w', Err e) => (w', Err e) end.

Definition throw {E A} (e : E) : io E A := λ w, (w, Err e).
Definition check {E} (b : bool) (e : E) : io E unit := if b then mret tt else throw e.
Definition gets {E A} (f : xworld → A) : io E A := λ w, (w, Ok (f w)).
Definition modify {E} (f : xworld → xworld) : io E unit := λ w, (f w, Ok tt).
Definition attempt {E E' A} (m : io E A) : io E' (result E A) := λ w, let '(w', r) := m w in (w', Ok r).
Definition lift {E A} (r : result E A) : io E A := λ w, (w, r).

Context (lib : secret_lib) (env : secret_env) (cfg : repo_config).

(** The next answer of the environment. *)
Definition ask {E A} (f : nat → A) : io E A := λ w, (ticked w, Ok (f (xw_tick w))).

(** ** Key material (crypto/util.go, encryption.go) *)

Definition RandomBytes (n : nat) : io SecretError string :=
  o ← ask (λ t, xe_random env t n);
  match o with Some b => mret b | None => throw ERandom end.

Definition NewAEADCipher (key : string) : io SecretError string :=
  check (bool_decide (String.length key = 32%nat)) EKeyLength;; mret key.

Definition NonceSize : nat := 12.

Definition Encrypt (key plaintext aad : string) : io SecretError string :=
  nonce ← RandomBytes NonceSize; mret (nonce +:+ sl_Seal lib key nonce plaintext aad).

Definition Decrypt (key data aad : string) : result SecretError string :=
  if bool_decide (String.length data < NonceSize)%nat then Err ETooShort
  else match sl_Open lib key (String.substring 0 NonceSize data) (string_drop NonceSize data) aad with
       | Some pt => Ok pt
       | None => Err EOpen
       end.

(** ** The master key (crypto/kek.go) *)

Definition is_blank (c : ascii) : bool :=
  bool_decide (c = " "%char) || bool_decide (c = "010"%char) || bool_decide (c = "013"%char) || bool_decide (c = "009"%char).

Fixpoint trimStart (s : string) : string :=
  match s with String c rest => if is_blank c then trimStart rest else s | EmptyString => s end.

Fixpoint trimEnd (s : string) : string :=
  match s with
  | EmptyString => EmptyString
  | String c rest => match trimEnd rest with
                     | EmptyString => if is_blank c then EmptyString else String c EmptyString
                     | rest => String c rest
                     end
  end.

Definition trimSpaceBytes (b : string) : string := trimEnd (trimStart b).

Fixpoint last_slash (i : nat) (path : string) (last : option nat) : option nat :=
  match path with
  | EmptyString => last
  | String c path => last_slash (S i) path (if bool_decide (c = "/"%char) then Some i else last)
  end.

Definition dirOf (path : string) : string :=
  match last_slash 0 path None with
  | Some (S i) => String.substring 0 (S i) path
  | _ => "."
  end.

Definition decodeB64Key (v : string) : io SecretError string :=
  match Base64.DecodeString v with
  | None => throw EKEKBase64
  | Some key => check (bool_decide (String.length key = 32%nat)) EKeyLength;; mret key
  end.

Definition randomKey (n : nat) : io SecretError string := RandomBytes n.

(** [os.MkdirAll] of [dirOf path] and [os.WriteFile], either of which can fail. *)
Definition generateAndPersistKEK (path : string) : io SecretError string :=
  key ← randomKey 32;
  made ← ask (xe_file env);
  check made EKEKMkdir;;
  written ← ask (xe_file env);
  check written EKEKWrite;;
  modify (λ w, with_files (<[path := Base64.EncodeToString key]> (xw_files w)) w);;
  mret key.

Definition LoadOrGenerateKEK (opts : KEKOptions) : io SecretError string :=
  match ko_Source opts with
  | KEKSourceFile =>
      check (negb (bool_decide (ko_FilePath opts = ""))) EKEKPath;;
      read ← ask (xe_file env);
      check read EKEKRead;;
      file ← gets (λ w, xw_files w !! ko_FilePath opts);
      match file with
      | None => if ko_GenerateIfMissing opts then generateAndPersistKEK (ko_FilePath opts) else throw EKEKRead
      | Some b64 => decodeB64Key (trimSpaceBytes b64)
      end
  | KEKSourceEnv =>
      check (negb (bool_decide (ko_EnvVar opts = ""))) EKEKEnv;;
      let val := xe_getenv env (ko_EnvVar opts) in
      if bool_decide (val = "") then
        if ko_GenerateIfMissing opts && negb (bool_decide (ko_FilePath opts = ""))
        then generateAndPersistKEK (ko_FilePath opts) else throw EKEKEnv
      else decodeB64Key val
  | KEKSourceGenerated => randomKey 32
  | KEKSourceOther _ => throw EKEKSource
  end.

(** ** The repository (store/repos/secret.go) *)

(** The body of [kekOnce.Do] runs at the first call only. *)
Definition ensureKEK : io SecretError string :=
  once ← gets xw_kekOnce;
  (if once : bool then mret tt
   else
     modify (λ w, with_kek true (xw_kek w) (xw_kekErr w) w);;
     kek ← gets xw_kek;
     if bool_decide (String.length kek = 32%nat) then mret tt
     else match rc_kekOpts cfg with
          | None => modify (λ w, with_kek true (xw_kek w) (Some ENoKEKOptions) w)
          | Some opts =>
              r ← attempt (LoadOrGenerateKEK opts);
              modify (λ w, match r with Ok k => with_kek true k None w | Err e => with_kek true "" (Some e) w end)
          end);;
  err ← gets xw_kekErr;
  match err with Some e => throw e | None => gets xw_kek end.

Definition dataAD (ns name : string) (version : Z) : string := ns +:+ "|" +:+ name +:+ "|" +:+ pretty version.
Definition dekAD (ns name : string) (version : Z) : string := dataAD ns name version +:+ "|dek".

(** The loop over the map, in whatever order the runtime ranges it. *)
Fixpoint validateEntries (limits : Limits) (total : Z) (l : list (string * string)) : result SecretError unit :=
  match l with
  | [] => Ok tt
  | (k, v) :: l =>
      if li_MaxKeyNameLength limits <? Z.of_nat (String.length k) then Err (EKeyTooLong k)
      else let total := total + Z.of_nat (String.length v) in
           if li_MaxObjectBytes limits <? total then Err ETooLarge else validateEntries limits total l
  end.

Definition validateSecretData (data : Data) : result SecretError unit :=
  validateEntries (rc_limits cfg) 0 (map_to_list (entries data)).

Definition encryptSecret (s : Secret) (version : Z) : io SecretError StoredSecret :=
  let pt := sl_MarshalData lib (sc_Data s) in
  dek ← RandomBytes 32;
  aead ← NewAEADCipher dek;
  ct ← Encrypt aead pt (dataAD (sc_Namespace s) (sc_Name s) version);
  kek ← ensureKEK;
  kekAEAD ← NewAEADCipher kek;
  wrapped ← Encrypt kekAEAD dek (dekAD (sc_Namespace s) (sc_Name s) version);
  mret (mkStored (sc_Name s) (sc_Namespace s) version (sc_CreatedAt s) (sc_UpdatedAt s) ct wrapped (sc_OwnedBy s)).

Definition decryptSecret (rec : StoredSecret) : io SecretError Secret :=
  kek ← ensureKEK;
  kekAEAD ← NewAEADCipher kek;
  dek ← lift (Decrypt kekAEAD (st_WrappedDEK rec) (dekAD (st_Namespace rec) (st_Name rec) (st_Version rec)));
  aead ← NewAEADCipher dek;
  pt ← lift (Decrypt aead (st_Ciphertext rec) (dataAD (st_Namespace rec) (st_Name rec) (st_Version rec)));
  match sl_UnmarshalData lib pt with
  | None => throw EUnmarshal
  | Some data =>
      mret (mkSecret "" (st_Name rec) (st_Namespace rec) "static" data (st_Version rec) (st_CreatedAt rec) (st_UpdatedAt rec)
              (st_OwnedBy rec))
  end.

(** A call to Badger: other writers first, then the operation. *)
Definition call {A} (f : nat → BadgerStore StoredSecret D → BadgerStore StoredSecret D * result StoreError A)
    : io SecretError A := λ w,
  let '(s, r) := f (xw_tick w) (xe_others env (xw_tick w) (xw_store w)) in
  (ticked (with_store s w), match r with Ok a => Ok a | Err e => Err (EStore e) end).

Definition coreCreate (ns name : string) (rec : StoredSecret) : io SecretError unit := call (λ t,
  ResourceStore.Create (sl_Marshal lib) (sl_MarshalVersion lib) (xe_readable env t) (xe_commits env t) (xe_now env t)
    ResourceTypeSecret ns name rec).
Definition coreGet (ns name : string) : io SecretError StoredSecret := call (λ t s,
  (s, ResourceStore.Get (sl_Unmarshal lib) (xe_readable env t) ResourceTypeSecret ns name s)).
Definition coreUpdate (source : EventSource) (ns name : string) (rec : StoredSecret) : io SecretError unit := call (λ t,
  ResourceStore.Update (sl_Marshal lib) (sl_MarshalVersion lib) (xe_readable env t) (xe_commits env t) (xe_now env t) source
    ResourceTypeSecret ns name rec).
Definition coreDelete (ns name : string) : io SecretError unit := call (λ t,
  ResourceStore.Delete (sl_Generic lib) (xe_readable env t) (xe_commits env t) ResourceTypeSecret ns name).
Definition coreList (ns : string) : io SecretError (list StoredSecret) := call (λ t s,
  (s, ResourceStore.ListResources (sl_Unmarshal lib) (sl_Generic lib) ResourceTypeSecret ns s)).
(** [GetHistory], each resource read back by [historyToStored]. *)
Definition coreHistory (ns name : string) : io SecretError (list StoredSecret) := call (λ t s,
  (s, match ResourceStore.GetHistory (sl_UnmarshalVersion lib) ResourceTypeSecret ns name s with
      | Ok l => Ok (l.*2)
      | Err e => Err e
      end)).

(** [Create] fills the times in the caller's secret, which it returns.  The
    identifier it may also fill is never stored. *)
Definition Create (s : Secret) : io SecretError Secret :=
  check (negb (bool_decide (sc_Name s = "") || bool_decide (sc_Namespace s = ""))) EInvalidSecret;;
  check (ValidateDNS1123Name (sc_Name s)) EBadName;;
  lift (validateSecretData (sc_Data s));;
  now ← ask (xe_now env);
  let s := mkSecret (sc_ID s) (sc_Name s) (sc_Namespace s) (sc_Type s) (sc_Data s) (sc_Version s)
             (if IsZero (sc_CreatedAt s) then now else sc_CreatedAt s) now (sc_OwnedBy s) in
  rec ← encryptSecret s 1;
  coreCreate (sc_Namespace s) (sc_Name s) rec;;
  mret s.

Definition Get (ns name : string) : io SecretError Secret := stored ← coreGet ns name; decryptSecret stored.

Definition Update (source : EventSource) (ns name : string) (s : Secret) : io SecretError unit :=
  cur ← Get ns name;
  let next := wrap64 (sc_Version cur + 1) in
  check (ValidateDNS1123Name (sc_Name s)) EBadName;;
  lift (validateSecretData (sc_Data s));;
  now ← ask (xe_now env);
  let s := mkSecret (sc_ID s) (sc_Name s) (sc_Namespace s) (sc_Type s) (sc_Data s) (sc_Version s) (sc_CreatedAt cur) now (sc_OwnedBy s) in
  rec ← encryptSecret s next;
  coreUpdate source ns name rec.

Definition Delete (ns name : string) : io SecretError unit := coreDelete ns name.

Fixpoint decryptAll (l : list StoredSecret) : io SecretError (list Secret) :=
  match l with
  | [] => mret []
  | rec :: l => s ← decryptSecret rec; rest ← decryptAll l; mret (s :: rest)
  end.

(** The inner loop for one [i]: [x] is [out[i]], [l] the elements after it. *)
Fixpoint exchange (x : Secret) (l : list Secret) : Secret * list Secret :=
  match l with
  | [] => (x, [])
  | y :: l => if sc_Version x <? sc_Version y then let '(p, l) := exchange y l in (p, x :: l)
              else let '(p, l) := exchange x l in (p, y :: l)
  end.

Fixpoint sortFrom (n : nat) (l : list Secret) : list Secret :=
  match n, l with
  | S n, x :: l => let '(p, l) := exchange x l in p :: sortFrom n l
  | _, _ => l
  end.

Definition sortVersions (l : list Secret) : list Secret := sortFrom (length l) l.

Definition ListVersions (ns name : string) : io SecretError (list Secret) :=
  hist ← coreHistory ns name; out ← decryptAll hist; mret (sortVersions out).

Definition GetVersionN (ns name : string) (version : Z) : io SecretError Secret :=
  versions ← ListVersions ns name;
  match List.find (λ s, sc_Version s =? version) versions with
  | Some s => mret s
  | None => throw (EVersion version)
  end.

Definition Rollback (source : EventSource) (ns name : string) (toVersion : Z) : io SecretError Secret :=
  prior ← GetVersionN ns name toVersion;
  Update source ns name (mkSecret "" name ns (sc_Type prior) (sc_Data prior) 0 0 0 None);;
  Get ns name.

Definition List (ns : string) : io SecretError (list Secret) := storedList ← coreList ns; decryptAll storedList.

(** ** The rate limiter (api/service/secret.go) *)

Definition token : Z := 1000000000.
Definition newTokenBucket (capacity refillRate now : Z) : tokenBucket :=
  mkBucket (capacity * token) (capacity * token) refillRate now.

(** [Allow] at a clock reading; the floating point arithmetic is taken exact. *)
Definition allowAt (now : Time) (b : tokenBucket) : tokenBucket * bool :=
  let elapsed := Sub now (tb_last b) in
  let b := if 0 <? elapsed
           then mkBucket (tb_capacity b) (Z.min (tb_capacity b) (tb_tokens b + elapsed * tb_refill b)) (tb_refill b) now
           else b in
  if tb_tokens b <? token then (b, false)
  else (mkBucket (tb_capacity b) (tb_tokens b - token) (tb_refill b) (tb_last b), true).

(** ** The service (api/service/secret.go) *)

Inductive Code := InvalidArgument | NotFound | FailedPrecondition | ResourceExhausted | Internal.

(** What a handler ends with besides a response. *)
Inductive failure := Status (c : Code) | NilDereference.

Definition EventSourceAPI : EventSource := "api".

(** The secret of a request, and of a response. *)
Record SecretMsg := mkSecretMsg { ms_Name : string; ms_Namespace : string; ms_Type : string; ms_Data : Data }.

Record ProtoSecret := mkProto {
  pt_Name : string;
  pt_Namespace : string;
  pt_Type : string;
  pt_Version : Z;
  pt_CreatedAt : Time;
  pt_UpdatedAt : Time;
  pt_DataKeys : list string;
  pt_Data : Data;
}.

Definition ToInt32NonNegative (n : Z) : Z := if n <? 0 then 0 else if 2147483647 <? n then 2147483647 else n.

Definition sortedKeys (d : Data) : list string := SliceStable String.ltb (map_to_list (entries d)).*1.

Definition toProtoSecret (s : Secret) (reveal : bool) : ProtoSecret :=
  mkProto (sc_Name s) (sc_Namespace s) (sc_Type s) (ToInt32NonNegative (sc_Version s)) (sc_CreatedAt s) (sc_UpdatedAt s)
    (sortedKeys (sc_Data s)) (if reveal then sc_Data s else None).

Definition MakeAuditRef (namespace name : string) : string :=
  if bool_decide (namespace = "") then name
  else if bool_decide (name = "") then ""
  else TrimSpace namespace +:+ "/" +:+ TrimSpace name.

Definition actorFromContext (subject : string) : string := if bool_decide (subject = "") then "anonymous" else subject.

Definition hashPrefix (typ : string) (d : Data) : string := String.substring 0 8 (sl_Hash lib typ d).

Definition keyCount (d : Data) : string := pretty (Z.of_nat (size (entries d))).

Section Service.
Context (subject : string).   (* the authenticated subject of the call *)

(** An event the store does not take is lost. *)
Definition emitAudit {E} (action namespace name : string) (outcome : AuditOutcome) (msg : note) (meta : list (string * string)) : io E unit :=
  kept ← ask (λ t, xe_readable env t && xe_commits env t);
  modify (λ w, if kept : bool
               then with_audit (xw_audit w ++ [mkAudit (actorFromContext subject) action (MakeAuditRef namespace name) namespace outcome msg meta]) w
               else w).

(** A repository call whose error is audited and answered with [code]. *)
Definition orElse {A} (m : io SecretError A) (action namespace name : string) (msg : SecretError → note) (meta : list (string * string))
    (code : Code) : io failure A :=
  r ← attempt m;
  match r with
  | Ok a => mret a
  | Err e => emitAudit action namespace name AuditOutcomeError (msg e) meta;; throw (Status code)
  end.

Definition Allow : io failure unit :=
  now ← ask (xe_now env);
  b ← gets xw_limiter;
  let '(b', ok) := allowAt now b in
  modify (with_limiter b');;
  check ok (Status ResourceExhausted).

Definition ensureNamespaceExists (ns : string) (ensure : bool) : io SecretError unit :=
  if bool_decide (ns = "system") || bool_decide (ns = DefaultNamespace) then mret tt
  else
    readable ← ask (xe_readable env);
    check readable ENamespace;;
    known ← gets (λ w, bool_decide (ns ∈ xw_namespaces w));
    if known : bool then mret tt
    else
      check (ensure && ValidateDNS1123Name ns) ENamespace;;
      written ← ask (λ t, xe_readable env t && xe_commits env t);
      check written ENamespace;;
      modify (λ w, with_namespaces ({[ns]} ∪ xw_namespaces w) w).

Definition desired (ns name typ : string) (d : Data) : Secret := mkSecret "" name ns typ d 0 0 0 None.

Definition UpdateSecret (req : option SecretMsg) : io failure (option ProtoSecret) :=
  match req with
  | None => throw (Status InvalidArgument)
  | Some m =>
      let namespace := NS (ms_Namespace m) in
      current ← orElse (Get namespace (ms_Name m)) "update" namespace (ms_Name m) (λ _, Note "secret not found") [] NotFound;
      if bool_decide (sc_Type current = ms_Type m) && bool_decide (sc_Data current = ms_Data m)
      then mret (Some (toProtoSecret current false))
      else
        orElse (Update EventSourceAPI namespace (ms_Name m) (desired namespace (ms_Name m) (ms_Type m) (ms_Data m)))
          "update" namespace (ms_Name m) Cause [] Internal;;
        got ← attempt (Get namespace (ms_Name m));
        let meta := [("oldHash", hashPrefix (sc_Type current) (sc_Data current)); ("newHash", hashPrefix (ms_Type m) (ms_Data m));
                     ("keyCount", keyCount (ms_Data m))] ++
                    match got with Ok g => [("version", pretty (sc_Version g))] | Err _ => [] end in
        emitAudit "update" namespace (ms_Name m) AuditOutcomeSuccess NoNote meta;;
        mret (match got with Ok g => Some (toProtoSecret g false) | Err _ => None end)
  end.

(** The text of the error is searched; the caller chooses the key it quotes. *)
Definition IsAlreadyExistsError (e : SecretError) : bool :=
  match e with
  | EStore SEExists => true
  | EKeyTooLong s | EStore (SESerialize s) => Contains s "already exists"
  | _ => false
  end.

(** The request's secret is read for a log line before it is tested for nil. *)
Definition CreateSecret (req : option SecretMsg) (ensure : bool) : io failure (option ProtoSecret) :=
  match req with
  | None => throw NilDereference
  | Some m =>
      now ← ask (xe_now env);
      let sec := mkSecret "" (ms_Name m) (NS (ms_Namespace m)) (ms_Type m) (ms_Data m) 1 now now None in
      orElse (ensureNamespaceExists (sc_Namespace sec) ensure) "create" (sc_Namespace sec) (sc_Name sec) Cause [] FailedPrecondition;;
      r ← attempt (Create sec);
      match r with
      | Err e =>
          if IsAlreadyExistsError e then UpdateSecret (Some m)
          else emitAudit "create" (sc_Namespace sec) (sc_Name sec) AuditOutcomeError (Cause e) [];; throw (Status Internal)
      | Ok sec =>
          emitAudit "create" (sc_Namespace sec) (sc_Name sec) AuditOutcomeSuccess NoNote
            [("version", pretty (sc_Version sec)); ("keyCount", keyCount (sc_Data sec))];;
          mret (Some (toProtoSecret sec false))
      end
  end.

Definition GetSecret (ns name : string) : io failure ProtoSecret :=
  Allow;;
  sec ← orElse (Get ns name) "get" (NS ns) name Cause [] NotFound;
  emitAudit "get" (sc_Namespace sec) (sc_Name sec) AuditOutcomeSuccess NoNote [];;
  mret (toProtoSecret sec false).

(** [merged]: the current entries, the ones to set, less the keys to unset. *)
Definition mergeData (current : Data) (set : gmap string string) (unset : list string) : gmap string string :=
  fold_left (λ m k, delete k m) unset (set ∪ entries current).

(** The keys of [unset] that were there when their turn came. *)
Fixpoint removedKeys (m : gmap string string) (unset : list string) : list string :=
  match unset with
  | [] => []
  | k :: rest => match m !! k with Some _ => k :: removedKeys (delete k m) rest | None => removedKeys m rest end
  end.

(** The whole of it runs under the secret's patch lock. *)
Definition PatchSecret (ns name : string) (set : gmap string string) (unset : list string) : io failure (option ProtoSecret) :=
  check (negb (bool_decide (name = ""))) (Status InvalidArgument);;
  check (negb (bool_decide (set = ∅) && bool_decide (unset = []))) (Status InvalidArgument);;
  let namespace := NS ns in
  current ← orElse (Get namespace name) "patch" namespace name (λ _, Note "secret not found") [] NotFound;
  let merged := Some (mergeData (sc_Data current) set unset) in
  let removed := removedKeys (set ∪ entries (sc_Data current)) unset in
  if bool_decide (sc_Data current = merged) then mret (Some (toProtoSecret current false))
  else
    orElse (Update EventSourceAPI namespace name (desired namespace name (sc_Type current) merged)) "patch" namespace name Cause [] Internal;;
    got ← attempt (Get namespace name);
    let meta := [("oldHash", hashPrefix (sc_Type current) (sc_Data current)); ("newHash", hashPrefix (sc_Type current) merged);
                 ("keyCount", keyCount merged); ("set", JoinWith "," (SliceStable String.ltb (map_to_list set).*1));
                 ("unset", JoinWith "," (SliceStable String.ltb removed))] ++
                match got with Ok g => [("version", pretty (sc_Version g))] | Err _ => [] end in
    emitAudit "patch" namespace name AuditOutcomeSuccess NoNote meta;;
    mret (match got with Ok g => Some (toProtoSecret g false) | Err _ => None end).

Definition DeleteSecret (ns name : string) : io failure unit :=
  orElse (Delete ns name) "delete" (NS ns) name Cause [] Internal;;
  emitAudit "delete" (NS ns) name AuditOutcomeSuccess NoNote [].

Definition ListSecrets (ns : string) : io failure (list ProtoSecret) :=
  Allow;;
  r ← attempt (List (NS ns));
  match r with
  | Ok l => mret ((λ s, toProtoSecret s false) <$> l)
  | Err _ => throw (Status Internal)
  end.

Definition RevealSecret (ns name : string) : io failure ProtoSecret :=
  Allow;;
  check (negb (bool_decide (name = ""))) (Status InvalidArgument);;
  sec ← orElse (Get ns name) "reveal" (NS ns) name Cause [] NotFound;
  emitAudit "reveal" (sc_Namespace sec) (sc_Name sec) AuditOutcomeSuccess NoNote
    [("version", pretty (sc_Version sec)); ("keyCount", keyCount (sc_Data sec))];;
  mret (toProtoSecret sec true).

Definition ListSecretVersions (ns name : string) : io failure (list ProtoSecret) :=
  Allow;;
  check (negb (bool_decide (name = ""))) (Status InvalidArgument);;
  versions ← orElse (ListVersions ns name) "list-versions" (NS ns) name Cause [] NotFound;
  emitAudit "list-versions" (NS ns) name AuditOutcomeSuccess NoNote [("count", pretty (Z.of_nat (length versions)))];;
  mret ((λ s, toProtoSecret s false) <$> versions).

Definition RevealSecretVersion (ns name : string) (version : Z) : io failure ProtoSecret :=
  Allow;;
  check (negb (bool_decide (name = ""))) (Status InvalidArgument);;
  check (0 <? version) (Status InvalidArgument);;
  sec ← orElse (GetVersionN ns name version) "reveal-version" (NS ns) name Cause [("version", pretty version)] NotFound;
  emitAudit "reveal-version" (sc_Namespace sec) (sc_Name sec) AuditOutcomeSuccess NoNote
    [("version", pretty (sc_Version sec)); ("keyCount", keyCount (sc_Data sec))];;
  mret (toProtoSecret sec true).

Definition RollbackSecret (ns name : string) (toVersion : Z) : io failure ProtoSecret :=
  check (negb (bool_decide (name = ""))) (Status InvalidArgument);;
  check (0 <? toVersion) (Status InvalidArgument);;
  cur ← orElse (Get ns name) "rollback" (NS ns) name Cause [] NotFound;
  if toVersion =? sc_Version cur then
    emitAudit "rollback" (sc_Namespace cur) (sc_Name cur) AuditOutcomeError (Note "rollback target equals current head")
      [("toVersion", pretty toVersion)];;
    throw (Status FailedPrecondition)
  else
    rolled ← orElse (Rollback EventSourceAPI ns name toVersion) "rollback" (NS ns) name Cause [("toVersion", pretty toVersion)] Internal;
    emitAudit "rollback" (sc_Namespace rolled) (sc_Name rolled) AuditOutcomeSuccess NoNote
      [("fromVersion", pretty (sc_Version cur)); ("toVersion", pretty toVersion); ("newVersion", pretty (sc_Version rolled))];;
    mret (toProtoSecret rolled false).
End Service.
End Secrets.

Arguments secret_lib : clear implicits.
Arguments secret_env : clear implicits.
Arguments xworld : clear implicits.
Arguments io : clear implicits.
