(* ===== verification/SecretProps.v ===== *)
(** * Theorems about secrets

    Base64 round trip and the master key across restarts; what a sealed row opens
    to and that it opens nowhere else; create, read, patch and roll back on the
    Badger store; the limits, the audit trail and the rate limiter. *)

From stdpp Require Import pretty.
From Stdlib Require Import Ascii.
From S2P Require Import Prelude Text Types ResourceStore ResourceStoreProps Names Release Secrets.

#[local] Arguments String.append !_ _ : simpl nomatch.

(** ** Base64 *)

(** Linear arithmetic with division by constants. *)
Ltac divs := zify; Z.to_euclidean_division_equations; lia.

Section Base64.
Import Base64.

Lemma value_char n : (n < 64)%N → value (char n) = Some n.
Proof.
  intros Hn. assert (H : forallb (λ i, bool_decide (value (char (N.of_nat i)) = Some (N.of_nat i))) (seq 0 64) = true) by by vm_compute.
  rewrite forallb_forall in H. specialize (H (N.to_nat n)). rewrite N2Nat.id, bool_decide_eq_true in H. apply H, in_seq. lia.
Qed.

Lemma char_plain n : (n < 64)%N → char n ≠ pad ∧ is_newline (char n) = false.
Proof.
  intros Hn. assert (H : forallb (λ i, negb (bool_decide (char (N.of_nat i) = pad)) && negb (is_newline (char (N.of_nat i)))) (seq 0 64) = true) by by vm_compute.
  rewrite forallb_forall in H. specialize (H (N.to_nat n)). rewrite N2Nat.id in H.
  specialize (H ltac:(apply in_seq; lia)). bools. done.
Qed.

Lemma byte_small a : (byte a < 256)%N.
Proof. apply N_ascii_bounded. Qed.

Lemma ascii_byte a : ascii_of_N (byte a) = a.
Proof. apply ascii_N_embedding. Qed.

(** Induction three bytes at a time. *)
Lemma triple_ind (P : string → Prop) :
  P "" → (∀ a, P (String a "")) → (∀ a b, P (String a (String b ""))) →
  (∀ a b c s, P s → P (String a (String b (String c s)))) → ∀ s, P s.
Proof.
  intros H0 H1 H2 H3 s. remember (String.length s) as n eqn:Hn. revert s Hn. induction (lt_wf n) as [n _ IH]. intros s ->.
  destruct s as [|a [|b [|c s]]]; [done|done|done|]. apply H3. eapply IH; [|done]. simpl. lia.
Qed.

Lemma char_no_newline n : (n < 64)%N → is_newline (char n) = false.
Proof. intros H. by apply char_plain. Qed.

Lemma char_no_pad n : (n < 64)%N → bool_decide (char n = pad) = false.
Proof. intros H. apply bool_decide_eq_false. by apply char_plain. Qed.

Lemma strip_char n s : (n < 64)%N → strip_newlines (String (char n) s) = String (char n) (strip_newlines s).
Proof. intros H. cbn [strip_newlines]. by rewrite char_no_newline. Qed.

(** The sextets of three bytes are below 64 and give the bytes back. *)
Lemma sextets v : (v < 16777216)%N →
  ((v / 262144 < 64) ∧ (v / 4096 mod 64 < 64) ∧ (v / 64 mod 64 < 64) ∧ (v mod 64 < 64) ∧
   v / 262144 * 262144 + v / 4096 mod 64 * 4096 + v / 64 mod 64 * 64 + v mod 64 = v)%N.
Proof. intros H. repeat split; divs. Qed.

Lemma three_bytes a b c :
  let v := (byte a * 65536 + byte b * 256 + byte c)%N in
  (v < 16777216)%N ∧ ascii_of_N (v / 65536) = a ∧ ascii_of_N (v / 256 mod 256) = b ∧ ascii_of_N (v mod 256) = c.
Proof.
  intros v. pose proof (byte_small a). pose proof (byte_small b). pose proof (byte_small c). split; [lia|].
  replace (v / 65536)%N with (byte a) by (subst v; divs). replace (v / 256 mod 256)%N with (byte b) by (subst v; divs).
  replace (v mod 256)%N with (byte c) by (subst v; divs). by rewrite !ascii_byte.
Qed.

Lemma quanta_full x y z u s : (x < 64)%N → (y < 64)%N → (z < 64)%N → (u < 64)%N →
  quanta (String (char x) (String (char y) (String (char z) (String (char u) s)))) =
  (out ← quanta s; let v := (x * 262144 + y * 4096 + z * 64 + u)%N in
   Some (String (ascii_of_N (v / 65536)) (String (ascii_of_N (v / 256 mod 256)) (String (ascii_of_N (v mod 256)) out)))).
Proof. intros. cbn [quanta]. by rewrite !value_char, !char_no_pad. Qed.

Lemma quanta_two x y z : (x < 64)%N → (y < 64)%N → (z < 64)%N →
  quanta (String (char x) (String (char y) (String (char z) (String pad "")))) =
  let v := (x * 262144 + y * 4096 + z * 64)%N in Some (String (ascii_of_N (v / 65536)) (String (ascii_of_N (v / 256 mod 256)) "")).
Proof. intros. cbn [quanta]. rewrite !value_char, !char_no_pad by done. done. Qed.

Lemma quanta_one x y : (x < 64)%N → (y < 64)%N →
  quanta (String (char x) (String (char y) (String pad (String pad "")))) = Some (String (ascii_of_N ((x * 262144 + y * 4096) / 65536)) "").
Proof. intros. cbn [quanta]. rewrite !value_char by done. done. Qed.

Lemma quanta_encode s : strip_newlines (EncodeToString s) = EncodeToString s ∧ quanta (EncodeToString s) = Some s.
Proof.
  induction s as [|a|a b|a b c s [IHs IHq]] using triple_ind; [done| | |].
  - destruct (three_bytes a zero zero) as (Hv & Ha & _ & _). change (byte zero) with 0%N in *.
    replace (byte a * 65536 + 0 * 256 + 0)%N with (byte a * 65536)%N in * by lia.
    cbn [EncodeToString]. set (v := (byte a * 65536)%N) in *. destruct (sextets v Hv) as (H1 & H2 & H3 & H4 & H5).
    rewrite !strip_char by done. split; [done|]. rewrite quanta_one by done.
    replace (_ + _)%N with v by (subst v; pose proof (byte_small a); divs). by rewrite Ha.
  - destruct (three_bytes a b zero) as (Hv & Ha & Hb & _). change (byte zero) with 0%N in *.
    replace (byte a * 65536 + byte b * 256 + 0)%N with (byte a * 65536 + byte b * 256)%N in * by lia.
    cbn [EncodeToString]. set (v := (byte a * 65536 + byte b * 256)%N) in *. destruct (sextets v Hv) as (H1 & H2 & H3 & H4 & H5).
    rewrite !strip_char by done. split; [done|]. rewrite quanta_two by done. cbv zeta.
    replace (_ + _ + _)%N with v by (subst v; pose proof (byte_small a); pose proof (byte_small b); divs). by rewrite Ha, Hb.
  - destruct (three_bytes a b c) as (Hv & Ha & Hb & Hc). cbn [EncodeToString].
    set (v := (byte a * 65536 + byte b * 256 + byte c)%N) in *. destruct (sextets v Hv) as (H1 & H2 & H3 & H4 & H5).
    rewrite !strip_char, IHs by done. split; [done|]. rewrite quanta_full, IHq by done. cbn. by rewrite H5, Ha, Hb, Hc.
Qed.

(** No blank at either end of an encoding. *)
Lemma char_not_blank n : (n < 64)%N → is_blank (char n) = false.
Proof.
  intros Hn. assert (H : forallb (λ i, negb (is_blank (char (N.of_nat i)))) (seq 0 64) = true) by by vm_compute.
  rewrite forallb_forall in H. specialize (H (N.to_nat n)). rewrite N2Nat.id in H. specialize (H ltac:(apply in_seq; lia)). by bools.
Qed.

Fixpoint unblank (s : string) : bool := match s with EmptyString => true | String c s => negb (is_blank c) && unblank s end.

Lemma trim_unblank s : unblank s = true → trimSpaceBytes s = s.
Proof.
  intros H. unfold trimSpaceBytes. assert (Hs : trimStart s = s) by (destruct s as [|c s]; [done|]; cbn in *; bools; by match goal with E : is_blank c = _ |- _ => rewrite E end).
  rewrite Hs. clear Hs. induction s as [|c s IH]; [done|]. cbn in *. bools. rewrite IH by done. destruct s; [|done].
  by match goal with E : is_blank c = _ |- _ => rewrite E end.
Qed.

Lemma encode_unblank s : unblank (EncodeToString s) = true.
Proof.
  induction s as [|a|a b|a b c s IH] using triple_ind; [done| | |]; cbn [EncodeToString unblank].
  - pose proof (byte_small a). rewrite !char_not_blank by divs. done.
  - pose proof (byte_small a). pose proof (byte_small b). rewrite !char_not_blank by divs. done.
  - pose proof (byte_small a). pose proof (byte_small b). pose proof (byte_small c). rewrite !char_not_blank by divs. done.
Qed.

(** The decoder undoes the encoder, line breaks or not. *)
Lemma base64_round s : DecodeString (EncodeToString s) = Some s.
Proof. unfold DecodeString. destruct (quanta_encode s) as [-> ->]. done. Qed.
End Base64.

(** ** The libraries' laws *)

Section Laws.
Context {D : Type} (lib : secret_lib D) (env : secret_env D) (cfg : repo_config).

(** JSON decodes what it encoded, and what it decoded encodes and decodes to
    itself; AES-GCM opens exactly what was sealed. *)
Record laws : Prop := mkLaws {
  lw_row v : ∃ d, sl_Marshal lib v = Ok d ∧ sl_Unmarshal lib d = Ok v;
  lw_version id now v : ∃ d, sl_MarshalVersion lib id now v = Ok d ∧ sl_UnmarshalVersion lib d = Ok (id, now, v);
  lw_again p d : sl_UnmarshalData lib p = Some d → sl_UnmarshalData lib (sl_MarshalData lib d) = Some d;
  lw_open k n p a : sl_Open lib k n (sl_Seal lib k n p a) a = Some p;
  lw_sound k n c a p : sl_Open lib k n c a = Some p → c = sl_Seal lib k n p a;
}.

(** Data whose keys and values survive JSON (valid UTF-8). *)
Definition textual (d : Data) : Prop := sl_UnmarshalData lib (sl_MarshalData lib d) = Some d.

(** Badger and the random source work and nobody else writes. *)
Record quiet : Prop := mkQuiet {
  qu_read n : xe_readable env n = true;
  qu_commit n : xe_commits env n = true;
  qu_random n k : ∃ b, xe_random env n k = Some b ∧ String.length b = k;
  qu_others n s : xe_others env n s = s;
}.

(** The repository has its master key. *)
Record unlocked (kek : string) (w : xworld D) : Prop := mkUnlocked {
  un_err : xw_kekErr w = None;
  un_kek : xw_kek w = kek;
  un_len : String.length kek = 32%nat;
}.

(** What a read may change: the once flag and the clock. *)
Record reads (w w' : xworld D) : Prop := mkReads {
  rd_store : xw_store w' = xw_store w;
  rd_kek : xw_kek w' = xw_kek w;
  rd_err : xw_kekErr w' = xw_kekErr w;
  rd_files : xw_files w' = xw_files w;
  rd_audit : xw_audit w' = xw_audit w;
  rd_ns : xw_namespaces w' = xw_namespaces w;
  rd_limiter : xw_limiter w' = xw_limiter w;
  rd_tick : (xw_tick w ≤ xw_tick w')%nat;
}.

#[global] Instance reads_preorder : PreOrder reads.
Proof. split; [by intros w|]. intros w1 w2 w3 [] []. split; first [congruence|lia]. Qed.

Lemma reads_unlocked kek w w' : reads w w' → unlocked kek w → unlocked kek w'.
Proof. intros [] []. split; congruence. Qed.

Lemma reads_tick w : reads w (ticked w).
Proof. split; [done..|]. cbn. lia. Qed.

Lemma iobind_run {E A B} (m : io D E A) (f : A → io D E B) w w' a : m w = (w', Ok a) → (m ≫= f) w = f a w'.
Proof. intros H. unfold mbind, io_bind. by rewrite H. Qed.

Lemma attempt_run {E E' A} (m : io D E A) w w' r : m w = (w', r) → attempt (E' := E') m w = (w', Ok r).
Proof. intros H. unfold attempt. by rewrite H. Qed.

Definition opened (w : xworld D) : xworld D := with_kek true (xw_kek w) (xw_kekErr w) w.

Lemma reads_opened w : reads w (opened w).
Proof. by split. Qed.

Lemma ensureKEK_run kek w : unlocked kek w → ensureKEK env cfg w = (opened w, Ok kek).
Proof.
  intros [He Hk Hl]. unfold ensureKEK, gets, modify, mbind, io_bind, mret, io_ret, opened, with_kek. destruct w as [st [] k er fs ns au li ti]; cbn in *; subst; cbn; [done|].
  by rewrite Hl.
Qed.

Lemma substring_take a b : String.substring 0 (String.length a) (a +:+ b) = a.
Proof. induction a as [|c a IH]; cbn; [by destruct b|]. by rewrite IH. Qed.

Lemma string_drop_app a b : string_drop (String.length a) (a +:+ b) = b.
Proof. induction a as [|c a IH]; [done|]. exact IH. Qed.

Lemma Decrypt_nonce key nonce c aad :
  String.length nonce = NonceSize → Decrypt lib key (nonce +:+ c) aad = match sl_Open lib key nonce c aad with Some p => Ok p | None => Err EOpen end.
Proof.
  intros Hn. unfold Decrypt. rewrite string_app_length. rewrite bool_decide_eq_false_2 by lia. rewrite <- Hn, substring_take, string_drop_app. done.
Qed.

Lemma NewAEADCipher_run key (w : xworld D) : String.length key = 32%nat → NewAEADCipher key w = (w, Ok key).
Proof. intros H. unfold NewAEADCipher. rewrite bool_decide_eq_true_2 by done. done. Qed.

(** ** Rows *)

(** A row sealed for a secret at a version. *)
Record sealed (kek : string) (s : Secret) (version : Z) (rec : StoredSecret) : Prop := mkSealed {
  se_fields : rec = mkStored (sc_Name s) (sc_Namespace s) version (sc_CreatedAt s) (sc_UpdatedAt s) (st_Ciphertext rec) (st_WrappedDEK rec) (sc_OwnedBy s);
  se_keys : ∃ dek n1 n2, String.length dek = 32%nat ∧ String.length n1 = NonceSize ∧ String.length n2 = NonceSize ∧
    st_Ciphertext rec = n1 +:+ sl_Seal lib dek n1 (sl_MarshalData lib (sc_Data s)) (dataAD (sc_Namespace s) (sc_Name s) version) ∧
    st_WrappedDEK rec = n2 +:+ sl_Seal lib kek n2 dek (dekAD (sc_Namespace s) (sc_Name s) version);
}.

(** What [decryptSecret] makes of it. *)
Definition plain (s : Secret) (version : Z) : Secret :=
  mkSecret "" (sc_Name s) (sc_Namespace s) "static" (sc_Data s) version (sc_CreatedAt s) (sc_UpdatedAt s) (sc_OwnedBy s).

Lemma RandomBytes_run n w : quiet → ∃ b, RandomBytes env n w = (ticked w, Ok b) ∧ String.length b = n.
Proof.
  intros Hq. destruct (qu_random Hq (xw_tick w) n) as (b & E & Hl). exists b. split; [|done].
  unfold RandomBytes, ask, mbind, io_bind. by rewrite E.
Qed.

Lemma Encrypt_run key p aad w : quiet → ∃ n, Encrypt lib env key p aad w = (ticked w, Ok (n +:+ sl_Seal lib key n p aad)) ∧ String.length n = NonceSize.
Proof. intros Hq. destruct (RandomBytes_run NonceSize w Hq) as (n & E & Hl). exists n. split; [|done]. unfold Encrypt. by rewrite (iobind_run _ _ _ _ _ E). Qed.

Lemma encrypt_run kek s v w : quiet → unlocked kek w →
  ∃ w' rec, encryptSecret lib env cfg s v w = (w', Ok rec) ∧ reads w w' ∧ sealed kek s v rec.
Proof.
  intros Hq Hu. destruct (RandomBytes_run 32 w Hq) as (dek & E1 & Hdek).
  destruct (Encrypt_run dek (sl_MarshalData lib (sc_Data s)) (dataAD (sc_Namespace s) (sc_Name s) v) (ticked w) Hq) as (n1 & E2 & Hn1).
  assert (Hu' : unlocked kek (ticked (ticked w))) by (eapply reads_unlocked; [etrans; apply reads_tick|exact Hu]).
  destruct (Encrypt_run kek dek (dekAD (sc_Namespace s) (sc_Name s) v) (opened (ticked (ticked w))) Hq) as (n2 & E3 & Hn2).
  eexists _, _. split; [|split].
  - unfold encryptSecret. rewrite (iobind_run _ _ _ _ _ E1), (iobind_run _ _ _ _ _ (NewAEADCipher_run dek _ Hdek)), (iobind_run _ _ _ _ _ E2).
    rewrite (iobind_run _ _ _ _ _ (ensureKEK_run _ _ Hu')), (iobind_run _ _ _ _ _ (NewAEADCipher_run kek _ (un_len _ _ Hu))), (iobind_run _ _ _ _ _ E3). reflexivity.
  - do 2 (etrans; [apply reads_tick|]). etrans; [apply reads_opened|apply reads_tick].
  - split; [done|]. exists dek, n1, n2. done.
Qed.

Lemma decrypt_run kek s v rec w : laws → textual (sc_Data s) → unlocked kek w → sealed kek s v rec →
  decryptSecret lib env cfg rec w = (opened w, Ok (plain s v)).
Proof.
  intros HL Ht Hu [Hf (dek & n1 & n2 & Hd & H1 & H2 & Hc & Hw)]. unfold decryptSecret.
  rewrite (iobind_run _ _ _ _ _ (ensureKEK_run _ _ Hu)), (iobind_run _ _ _ _ _ (NewAEADCipher_run kek _ (un_len _ _ Hu))).
  assert (En : st_Name rec = sc_Name s ∧ st_Namespace rec = sc_Namespace s ∧ st_Version rec = v ∧ st_CreatedAt rec = sc_CreatedAt s ∧
               st_UpdatedAt rec = sc_UpdatedAt s ∧ st_OwnedBy rec = sc_OwnedBy s) by (rewrite Hf; done).
  destruct En as (-> & -> & -> & -> & -> & ->). rewrite Hw, Hc, !Decrypt_nonce, (lw_open HL) by done.
  erewrite (iobind_run (lift _)) by done. rewrite (iobind_run _ _ _ _ _ (NewAEADCipher_run dek _ Hd)), Decrypt_nonce, (lw_open HL) by done.
  erewrite (iobind_run (lift _)) by done. rewrite Ht. done.
Qed.

(** ** What a row is bound to *)

Lemma cut_right c a b x y : free c x = true → free c y = true → a +:+ String c x = b +:+ String c y → a = b ∧ x = y.
Proof.
  intros Hx Hy. revert b. induction a as [|d a IH]; intros [|e b] H; cbn in H; [by injection H|injection H as <- H|injection H as <- H|].
  - subst x. rewrite free_app in Hx. cbn in Hx. by rewrite Ascii.eqb_refl, andb_false_r in Hx.
  - subst y. rewrite free_app in Hy. cbn in Hy. by rewrite Ascii.eqb_refl, andb_false_r in Hy.
  - injection H as <- H. destruct (IH _ H) as [-> ->]. done.
Qed.

Lemma dekAD_inj ns name v ns' name' v' : free "|" name = true → free "|" name' = true →
  dekAD ns name v = dekAD ns' name' v' → ns = ns' ∧ name = name' ∧ v = v'.
Proof.
  intros Hn Hn' H. assert (Ha : ∀ a b z, dataAD a b z = (a +:+ String "|" b) +:+ String "|" (pretty z)) by (intros; by rewrite string_app_assoc).
  unfold dekAD in H. apply (cut_right "|" _ _ "dek" "dek") in H as [H _]; [|done..]. rewrite !Ha in H.
  apply (cut_right "|") in H as [H Hv]; [|by apply pretty_Z_free..]. apply (cut_right "|") in H as [-> ->]; [|done..]. by apply (inj pretty) in Hv.
Qed.

Lemma dns_no_bar name : ValidateDNS1123Name name = true → free "|" name = true.
Proof.
  unfold ValidateDNS1123Name. intros H. destruct (_ || _); [done|]. destruct (hyphen_at_end name); [done|].
  destruct (all_chars _ name) eqn:E; [|done]. by eapply all_chars_free in E.
Qed.

Lemma decrypt_opens kek rec w w' s : unlocked kek w → decryptSecret lib env cfg rec w = (w', Ok s) →
  w' = opened w ∧ ∃ dek p, Decrypt lib kek (st_WrappedDEK rec) (dekAD (st_Namespace rec) (st_Name rec) (st_Version rec)) = Ok dek ∧
    Decrypt lib dek (st_Ciphertext rec) (dataAD (st_Namespace rec) (st_Name rec) (st_Version rec)) = Ok p ∧
    sl_UnmarshalData lib p = Some (sc_Data s) ∧
    s = mkSecret "" (st_Name rec) (st_Namespace rec) "static" (sc_Data s) (st_Version rec) (st_CreatedAt rec) (st_UpdatedAt rec) (st_OwnedBy rec).
Proof.
  intros Hu. unfold decryptSecret.
  rewrite (iobind_run _ _ _ _ _ (ensureKEK_run _ _ Hu)), (iobind_run _ _ _ _ _ (NewAEADCipher_run kek _ (un_len _ _ Hu))).
  unfold lift, NewAEADCipher, check, mbind, io_bind, mret, io_ret, throw. destruct (Decrypt lib kek _ _) as [dek|] eqn:E1; [|done].
  destruct (bool_decide _); [|done]. destruct (Decrypt lib dek _ _) as [p|] eqn:E2; [|done]. destruct (sl_UnmarshalData lib p) as [d|] eqn:E3; [|done].
  intros [= <- <-]. split; [done|]. by exists dek, p.
Qed.

(** The wrapped key [c], sealed under a key and associated data, is also what
    another key or other associated data seal. *)
Definition forgery (c kek a kek' a' : string) : Prop :=
  (kek, a) ≠ (kek', a') ∧ ∃ n x dek dek', String.length n = NonceSize ∧ c = n +:+ x ∧
    x = sl_Seal lib kek n dek a ∧ x = sl_Seal lib kek' n dek' a'.

Lemma Decrypt_open key nonce c aad p : String.length nonce = NonceSize → Decrypt lib key (nonce +:+ c) aad = Ok p → sl_Open lib key nonce c aad = Some p.
Proof. intros Hn. rewrite Decrypt_nonce by done. by destruct (sl_Open _ _ _ _ _) as [q|]; [intros [= ->]|]. Qed.

Lemma moved_row kek s v rec kek' rec' w w' out :
  laws → sealed kek s v rec → unlocked kek' w → free "|" (sc_Name s) = true → free "|" (st_Name rec') = true →
  st_WrappedDEK rec' = st_WrappedDEK rec → decryptSecret lib env cfg rec' w = (w', Ok out) →
  (kek' = kek ∧ st_Namespace rec' = sc_Namespace s ∧ st_Name rec' = sc_Name s ∧ st_Version rec' = v) ∨
  forgery (st_WrappedDEK rec) kek (dekAD (sc_Namespace s) (sc_Name s) v)
    kek' (dekAD (st_Namespace rec') (st_Name rec') (st_Version rec')).
Proof.
  intros HL [_ (dek & n1 & n2 & Hd & H1 & H2 & Hc & Hw)] Hu Hf Hf' Heq H.
  apply (decrypt_opens kek') in H as (_ & dek' & p & E & _); [|done]. rewrite Heq, Hw in E. apply Decrypt_open in E; [|done]. apply (lw_sound HL) in E.
  destruct (decide ((kek, dekAD (sc_Namespace s) (sc_Name s) v) = (kek', dekAD (st_Namespace rec') (st_Name rec') (st_Version rec')))) as [e|Hne].
  - left. injection e as -> e. apply dekAD_inj in e as (-> & -> & ->); done.
  - right. split; [done|]. by exists n2, (sl_Seal lib kek n2 dek (dekAD (sc_Namespace s) (sc_Name s) v)), dek, dek'.
Qed.

(** ** The rows of a secret in the store *)

Definition opens (kek : string) (rec : StoredSecret) (s : Secret) : Prop :=
  ∃ s0 v, sealed kek s0 v rec ∧ textual (sc_Data s0) ∧ s = plain s0 v.

Definition db (w : xworld D) : gmap string D := bs_db (xw_store w).
Definition head_key (ns name : string) : string := MakeKey ResourceTypeSecret ns name.
Definition version_key (ns name : string) (now : Time) : string := MakeVersionKey ResourceTypeSecret ns name ("v" +:+ pretty now).

(** The head of a secret, and its version rows, newest key first. *)
Definition holds (kek : string) (d : gmap string D) (ns name : string) (s : Secret) : Prop :=
  ∃ x rec, d !! head_key ns name = Some x ∧ sl_Unmarshal lib x = Ok rec ∧ opens kek rec s.

Definition version_row (kek : string) (kv : string * D) (s : Secret) : Prop :=
  ∃ id t rec, sl_UnmarshalVersion lib kv.2 = Ok (id, t, rec) ∧ opens kek rec s.

Definition recorded (kek : string) (d : gmap string D) (ns name : string) (l : list Secret) : Prop :=
  Forall2 (version_row kek) (rev (scanPrefix (MakeVersionPrefix ResourceTypeSecret ns name) d)) l.

Lemma opens_run kek rec s w : laws → unlocked kek w → opens kek rec s → decryptSecret lib env cfg rec w = (opened w, Ok s).
Proof. intros HL Hu (s0 & v & Hs & Ht & ->). by apply (decrypt_run kek). Qed.

Lemma call_quiet {A} (f : nat → BadgerStore StoredSecret D → BadgerStore StoredSecret D * result StoreError A) w : quiet →
  call env f w = let '(s, r) := f (xw_tick w) (xw_store w) in (ticked (with_store s w), match r with Ok a => Ok a | Err e => Err (EStore e) end).
Proof. intros Hq. unfold call. by rewrite (qu_others Hq). Qed.

Lemma reads_same w : reads w (ticked (with_store (xw_store w) w)).
Proof. split; [done..|]. cbn. lia. Qed.

Lemma Get_run kek ns name s w : laws → quiet → unlocked kek w → holds kek (db w) ns name s →
  ∃ w', Get lib env cfg ns name w = (w', Ok s) ∧ reads w w'.
Proof.
  intros HL Hq Hu (x & rec & Hx & Hr & Ho). unfold Get.
  assert (E : coreGet lib env ns name w = (ticked (with_store (xw_store w) w), Ok rec)).
  { unfold coreGet. rewrite call_quiet by done. unfold ResourceStore.Get, txGet. rewrite (qu_read Hq). cbn. change (bs_db _ !! _) with (db w !! head_key ns name). by rewrite Hx, Hr. }
  rewrite (iobind_run _ _ _ _ _ E). set (w1 := ticked _). assert (Hu1 : unlocked kek w1) by (by eapply reads_unlocked; [apply reads_same|]).
  rewrite (opens_run kek _ s) by done. eexists. split; [done|]. etrans; [apply reads_same|apply reads_opened].
Qed.

Lemma decodeAll_rows {B} (f : D → result string B) l xs : Forall2 (λ kv x, f kv.2 = Ok x) l xs → decodeAll f l = Ok xs.
Proof. induction 1 as [|[k d] x l xs E _ IH]; [done|]. cbn in *. by rewrite E, IH. Qed.

Lemma decryptAll_run kek recs l w : laws → unlocked kek w → Forall2 (opens kek) recs l →
  ∃ w', decryptAll lib env cfg recs w = (w', Ok l) ∧ reads w w'.
Proof.
  intros HL Hu H. revert w Hu. induction H as [|rec s recs l Ho _ IH]; intros w Hu; [by exists w|]. cbn [decryptAll].
  rewrite (iobind_run _ _ _ _ _ (opens_run kek _ s w HL Hu Ho)). destruct (IH (opened w)) as (w' & E & Hr); [by eapply reads_unlocked; [apply reads_opened|]|].
  rewrite (iobind_run _ _ _ _ _ E). exists w'. split; [done|]. by etrans; [apply reads_opened|].
Qed.

Lemma ListVersions_run kek ns name l w : laws → quiet → unlocked kek w → recorded kek (db w) ns name l →
  ∃ w', ListVersions lib env cfg ns name w = (w', Ok (sortVersions l)) ∧ reads w w'.
Proof.
  intros HL Hq Hu Hr. unfold ListVersions.
  assert (∃ h, Forall2 (λ kv x, sl_UnmarshalVersion lib kv.2 = Ok x) (rev (scanPrefix (MakeVersionPrefix ResourceTypeSecret ns name) (db w))) h ∧ Forall2 (opens kek) (h.*2) l) as (h & Hh & Ho).
  { unfold recorded in Hr. induction Hr as [|kv s rows l (id & t & rec & E & Ho) _ (h & Hh & Hos)]; [by exists []|]. exists ((id, t, rec) :: h). split; by constructor. }
  assert (E : coreHistory lib env ns name w = (ticked (with_store (xw_store w) w), Ok (h.*2))).
  { unfold coreHistory. rewrite call_quiet by done. unfold GetHistory. change (bs_db (xw_store w)) with (db w). by rewrite (decodeAll_rows _ _ _ Hh). }
  rewrite (iobind_run _ _ _ _ _ E). set (w1 := ticked _). assert (Hu1 : unlocked kek w1) by (by eapply reads_unlocked; [apply reads_same|]).
  destruct (decryptAll_run kek _ _ w1 HL Hu1 Ho) as (w2 & E2 & Hr2). rewrite (iobind_run _ _ _ _ _ E2). exists w2. split; [done|]. etrans; [apply reads_same|done].
Qed.

(** *** The exchange sort *)

Lemma exchange_perm x l : let '(p, k) := exchange x l in p :: k ≡ₚ x :: l.
Proof.
  revert x. induction l as [|y l IH]; intros x; [by cbn|]. cbn. destruct (_ <? _).
  - specialize (IH y). destruct (exchange y l) as [p k]. etrans; [apply perm_swap|]. by rewrite IH.
  - specialize (IH x). destruct (exchange x l) as [p k]. etrans; [apply perm_swap|]. rewrite IH. apply perm_swap.
Qed.

Lemma exchange_max x l : let '(p, k) := exchange x l in sc_Version x ≤ sc_Version p ∧ Forall (λ y, sc_Version y ≤ sc_Version p) k.
Proof.
  revert x. induction l as [|y l IH]; intros x; [cbn; by split|]. cbn. destruct (Z.ltb_spec (sc_Version x) (sc_Version y)) as [H|H].
  - specialize (IH y). destruct (exchange y l) as [p k]. destruct IH as [Hp Hk]. split; [lia|]. constructor; [lia|done].
  - specialize (IH x). destruct (exchange x l) as [p k]. destruct IH as [Hp Hk]. split; [lia|]. constructor; [lia|done].
Qed.

Lemma sortFrom_perm n l : sortFrom n l ≡ₚ l.
Proof.
  revert l. induction n as [|n IH]; intros [|x l]; try done. cbn. pose proof (exchange_perm x l) as H. destruct (exchange x l) as [p k]. by rewrite IH.
Qed.

Definition newer (a b : Secret) : Prop := sc_Version b ≤ sc_Version a.

Lemma sortFrom_sorted n l : (length l ≤ n)%nat → StronglySorted newer (sortFrom n l).
Proof.
  revert l. induction n as [|n IH]; intros [|x l] Hl; try by (cbn in *; try lia; constructor).
  cbn. pose proof (exchange_perm x l) as Hp. pose proof (exchange_max x l) as Hm. destruct (exchange x l) as [p k]. destruct Hm as [_ Hm].
  assert (length k = length l) by (apply Permutation_length in Hp; cbn in Hp; lia). constructor; [apply IH; cbn in Hl; lia|].
  by rewrite sortFrom_perm.
Qed.

Lemma sortVersions_spec l : sortVersions l ≡ₚ l ∧ StronglySorted newer (sortVersions l).
Proof. split; [apply sortFrom_perm|by apply sortFrom_sorted]. Qed.

(** ** Writes *)

(** What a write leaves alone besides the database. *)
Record writes (w w' : xworld D) : Prop := mkWrites {
  wr_kek : xw_kek w' = xw_kek w;
  wr_err : xw_kekErr w' = xw_kekErr w;
  wr_audit : xw_audit w' = xw_audit w;
  wr_tick : (xw_tick w ≤ xw_tick w')%nat;
}.

Lemma reads_writes w w' : reads w w' → writes w w'.
Proof. by intros []. Qed.

#[global] Instance writes_preorder : PreOrder writes.
Proof. split; [by intros w|]. intros w1 w2 w3 [] []. split; first [congruence|lia]. Qed.

Lemma writes_unlocked kek w w' : writes w w' → unlocked kek w → unlocked kek w'.
Proof. intros [] []. split; congruence. Qed.

(** The two rows a write after a tick leaves for a record. *)
Definition put (t0 : nat) (ns name : string) (rec : StoredSecret) (d d' : gmap string D) : Prop :=
  ∃ x y now id t, sl_Unmarshal lib x = Ok rec ∧ sl_UnmarshalVersion lib y = Ok (id, t, rec) ∧
    (∃ n, (t0 ≤ n)%nat ∧ now = xe_now env n) ∧ d' = <[version_key ns name now := y]> (<[head_key ns name := x]> d).

Lemma coreCreate_run ns name rec w : laws → quiet → db w !! head_key ns name = None →
  ∃ w', coreCreate lib env ns name rec w = (w', Ok tt) ∧ writes w w' ∧ put (xw_tick w) ns name rec (db w) (db w').
Proof.
  intros HL Hq Hn. destruct (lw_row HL rec) as (x & Ex & Ux). destruct (lw_version HL ("v" +:+ pretty (xe_now env (xw_tick w))) (xe_now env (xw_tick w)) rec) as (y & Ey & Uy).
  eexists. split; [|split].
  - unfold coreCreate. rewrite call_quiet by done. unfold ResourceStore.Create, txCreate, putVersion. rewrite Ex, (qu_read Hq), (qu_commit Hq). cbn [negb].
    change (bs_db (xw_store w) !! MakeKey ResourceTypeSecret ns name) with (db w !! head_key ns name). rewrite Hn, Ey. reflexivity.
  - split; [done..|]. cbn. lia.
  - exists x, y, (xe_now env (xw_tick w)), ("v" +:+ pretty (xe_now env (xw_tick w))), (xe_now env (xw_tick w)). split; [done|]. split; [done|]. split; [eauto|]. unfold db. cbn. by rewrite emit_db.
Qed.

Lemma coreUpdate_run source ns name rec w : laws → quiet → is_Some (db w !! head_key ns name) →
  ∃ w', coreUpdate lib env source ns name rec w = (w', Ok tt) ∧ writes w w' ∧ put (xw_tick w) ns name rec (db w) (db w').
Proof.
  intros HL Hq [z Hz]. destruct (lw_row HL rec) as (x & Ex & Ux). destruct (lw_version HL ("v" +:+ pretty (xe_now env (xw_tick w))) (xe_now env (xw_tick w)) rec) as (y & Ey & Uy).
  eexists. split; [|split].
  - unfold coreUpdate. rewrite call_quiet by done. unfold ResourceStore.Update, txUpdate, putVersion. rewrite Ex, (qu_read Hq), (qu_commit Hq). cbn [negb].
    change (bs_db (xw_store w) !! MakeKey ResourceTypeSecret ns name) with (db w !! head_key ns name). rewrite Hz, Ey. reflexivity.
  - split; [done..|]. cbn. lia.
  - exists x, y, (xe_now env (xw_tick w)), ("v" +:+ pretty (xe_now env (xw_tick w))), (xe_now env (xw_tick w)). split; [done|]. split; [done|]. split; [eauto|]. unfold db. cbn. by rewrite emit_db.
Qed.

Lemma head_not_version ns name ns' name' v : MakeVersionKey ResourceTypeSecret ns name v ≠ MakeKey ResourceTypeSecret ns' name'.
Proof. unfold MakeVersionKey, MakeKey. intros H. apply (f_equal (λ s, String.get 6 s)) in H. done. Qed.

Lemma put_holds kek t0 ns name rec s d d' : put t0 ns name rec d d' → opens kek rec s → holds kek d' ns name s.
Proof.
  intros (x & y & now & id & t & Hx & _ & _ & ->) Ho. exists x, rec. rewrite lookup_insert_ne by apply head_not_version. by rewrite lookup_insert_eq.
Qed.

(** A clock reading to come names a version that is not there yet. *)
Definition fresh_versions (t0 : nat) (ns name : string) (d : gmap string D) : Prop := ∀ n, (t0 ≤ n)%nat → d !! version_key ns name (xe_now env n) = None.

Lemma put_later t0 t1 ns name rec d d' : (t0 ≤ t1)%nat → put t1 ns name rec d d' → put t0 ns name rec d d'.
Proof. intros Ht (x & y & now & id & t & H1 & H2 & (n & Hn & Hx) & H3). exists x, y, now, id, t. repeat split; [done..| |done]. exists n. split; [lia|done]. Qed.

Lemma scan_insert prefix k (y : D) (d : gmap string D) : d !! k = None → String.prefix prefix k = true → scanPrefix prefix (<[k := y]> d) ≡ₚ (k, y) :: scanPrefix prefix d.
Proof.
  intros Hn Hp. unfold scanPrefix. rewrite !SliceStable_perm. transitivity (List.filter (λ kv : string * D, String.prefix prefix kv.1) ((k, y) :: map_to_list d)).
  - apply filter_perm. by rewrite map_to_list_insert.
  - cbn. by rewrite Hp.
Qed.

Lemma scan_insert_other prefix k (y : D) (d : gmap string D) : String.prefix prefix k = false → scanPrefix prefix (<[k := y]> d) ≡ₚ scanPrefix prefix d.
Proof.
  intros Hp. unfold scanPrefix. rewrite !SliceStable_perm.
  rewrite (filter_perm _ _ ((k, y) :: map_to_list (base.delete k d))) by (rewrite <- (insert_delete_eq d k); apply map_to_list_insert, lookup_delete_eq).
  cbn. rewrite Hp. destruct (d !! k) as [z|] eqn:E; [|by rewrite delete_id].
  rewrite (filter_perm _ (map_to_list d) ((k, z) :: map_to_list (base.delete k d))); [cbn; by rewrite Hp|].
  by rewrite map_to_list_delete.
Qed.

Lemma put_recorded kek t0 ns name rec s l d d' : ns ≠ "all" → ns ≠ "*" → put t0 ns name rec d d' → opens kek rec s → fresh_versions t0 ns name d →
  recorded kek d ns name l → ∃ l', recorded kek d' ns name l' ∧ l' ≡ₚ s :: l.
Proof.
  intros Ha Hs (x & y & now & id & t & _ & Hy & (n & Hn & ->) & ->) Ho Hf Hr. unfold recorded in *. set (pre := MakeVersionPrefix _ _ _) in *.
  assert (Hpre : pre = "secret-versions/" +:+ ns +:+ "/" +:+ name +:+ "/") by (unfold pre, MakeVersionPrefix; by rewrite !bool_decide_eq_false_2).
  set (k := version_key ns name (xe_now env n)). assert (Hk : String.prefix pre k = true).
  { apply prefix_spec. exists ("v" +:+ pretty (xe_now env n)). rewrite Hpre. unfold k, version_key, MakeVersionKey, ResourceTypeSecret. by rewrite !string_app_assoc. }
  assert (Hh : String.prefix pre (head_key ns name) = false) by (rewrite Hpre; done).
  assert (Hp : rev (scanPrefix pre (<[k := y]> (<[head_key ns name := x]> d))) ≡ₚ (k, y) :: rev (scanPrefix pre d)).
  { rewrite <- !Permutation_rev, scan_insert; [|rewrite lookup_insert_ne; [by apply Hf|by intros e; symmetry in e; apply head_not_version in e]|done]. by rewrite scan_insert_other. }
  assert (H2 : Forall2 (version_row kek) ((k, y) :: rev (scanPrefix pre d)) (s :: l)) by (constructor; [by exists id, t, rec|done]).
  destruct (Permutation_Forall2 (Permutation_sym Hp) H2) as (l' & Hl & H'). by exists l'.
Qed.

Lemma asks_run {E A B} (f : nat → A) (g : A → io D E B) w : (ask f ≫= g) w = g (f (xw_tick w)) (ticked w).
Proof. done. Qed.

Lemma check_run {E B} (e : E) (g : unit → io D E B) w b : b = true → (check b e ≫= g) w = g tt w.
Proof. by intros ->. Qed.

Lemma lift_run {E A B} (a : A) (g : A → io D E B) w : (lift (Ok a) ≫= g) w = g a w.
Proof. done. Qed.

(** What [Update] leaves: the data at the next version. *)
Definition updated (cur s : Secret) (now : Time) : Secret :=
  mkSecret "" (sc_Name s) (sc_Namespace s) "static" (sc_Data s) (wrap64 (sc_Version cur + 1)) (sc_CreatedAt cur) now (sc_OwnedBy s).

Lemma Update_run kek source ns name s cur w : laws → quiet → unlocked kek w → holds kek (db w) ns name cur →
  ValidateDNS1123Name (sc_Name s) = true → validateSecretData cfg (sc_Data s) = Ok tt → textual (sc_Data s) →
  ∃ w' rec t, Update lib env cfg source ns name s w = (w', Ok tt) ∧ writes w w' ∧ put (xw_tick w) ns name rec (db w) (db w') ∧ opens kek rec (updated cur s (xe_now env t)).
Proof.
  intros HL Hq Hu Hh Hn Hv Ht. unfold Update. destruct (Get_run kek _ _ _ w HL Hq Hu Hh) as (w1 & E1 & R1). rewrite (iobind_run _ _ _ _ _ E1).
  cbv zeta. rewrite check_run, Hv, lift_run, asks_run by done. set (s' := mkSecret _ _ _ _ _ _ _ _ _). assert (Hu1 : unlocked kek (ticked w1)) by (by eapply reads_unlocked; [etrans; [exact R1|apply reads_tick]|]).
  destruct (encrypt_run kek s' (wrap64 (sc_Version cur + 1)) (ticked w1) Hq Hu1) as (w2 & rec & E2 & R2 & Hs). rewrite (iobind_run _ _ _ _ _ E2).
  assert (R : reads w w2) by (etrans; [exact R1|]; etrans; [apply reads_tick|exact R2]).
  assert (Hdb : db w2 = db w) by (unfold db; by rewrite (rd_store _ _ R)).
  destruct (coreUpdate_run source ns name rec w2 HL Hq) as (w3 & E3 & W3 & Hp); [rewrite Hdb; destruct Hh as (x & ? & Hx & _); by exists x|].
  exists w3, rec, (xw_tick w1). split; [exact E3|]. split; [etrans; [by apply reads_writes|done]|]. rewrite <- Hdb. split; [eapply put_later; [apply (rd_tick _ _ R)|done]|]. exists s', (wrap64 (sc_Version cur + 1)). done.
Qed.

Lemma Create_run kek s w : laws → quiet → unlocked kek w → db w !! head_key (sc_Namespace s) (sc_Name s) = None → sc_Namespace s ≠ "" →
  ValidateDNS1123Name (sc_Name s) = true → validateSecretData cfg (sc_Data s) = Ok tt → textual (sc_Data s) →
  ∃ w' rec s' t, Create lib env cfg s w = (w', Ok s') ∧ writes w w' ∧ put (xw_tick w) (sc_Namespace s) (sc_Name s) rec (db w) (db w') ∧
    opens kek rec (mkSecret "" (sc_Name s) (sc_Namespace s) "static" (sc_Data s) 1 (if IsZero (sc_CreatedAt s) then xe_now env t else sc_CreatedAt s) (xe_now env t) (sc_OwnedBy s)).
Proof.
  intros HL Hq Hu Hnone Hns Hn Hv Ht. unfold Create.
  rewrite check_run; [|rewrite !bool_decide_eq_false_2; [done|done|intros e; by rewrite e in Hn]].
  rewrite check_run, Hv, lift_run, asks_run by done. cbv zeta. set (s' := mkSecret _ _ _ _ _ _ _ _ _). assert (Hu1 : unlocked kek (ticked w)) by (by eapply reads_unlocked; [apply reads_tick|]).
  destruct (encrypt_run kek s' 1 (ticked w) Hq Hu1) as (w2 & rec & E2 & R2 & Hs). rewrite (iobind_run _ _ _ _ _ E2).
  assert (R : reads w w2) by (etrans; [apply reads_tick|exact R2]). assert (Hdb : db w2 = db w) by (unfold db; by rewrite (rd_store _ _ R)).
  destruct (coreCreate_run (sc_Namespace s) (sc_Name s) rec w2 HL Hq) as (w3 & E3 & W3 & Hp); [by rewrite Hdb|].
  change (sc_Namespace s') with (sc_Namespace s). change (sc_Name s') with (sc_Name s). rewrite (iobind_run _ _ _ _ _ E3).
  exists w3, rec, s', (xw_tick w). split; [done|]. split; [etrans; [by apply reads_writes|done]|]. rewrite <- Hdb. split; [eapply put_later; [apply (rd_tick _ _ R)|done]|]. exists s', 1. done.
Qed.

(** Data read from a row can be written again. *)
Lemma recorded_textual kek d ns name l s : laws → recorded kek d ns name l → s ∈ l → textual (sc_Data s) ∧ sc_Type s = "static".
Proof.
  intros HL Hr Hin. apply list_elem_of_lookup in Hin as [i Hi]. destruct (Forall2_lookup_r _ _ _ _ _ Hr Hi) as (kv & _ & id & t & rec & _ & s0 & v & _ & Ht & ->). done.
Qed.
End Laws.

Arguments textual {D} lib d.

(** ** The repository *)

Section Repository.
Context {D : Type} (lib : secret_lib D) (env : secret_env D) (cfg : repo_config).

Theorem created_reads_back kek s w :
  laws lib → quiet env → unlocked kek w → db w !! head_key (sc_Namespace s) (sc_Name s) = None →
  sc_Namespace s ≠ "" → ValidateDNS1123Name (sc_Name s) = true → validateSecretData cfg (sc_Data s) = Ok tt → textual lib (sc_Data s) →
  ∃ w1 w2 s1 s2, Create lib env cfg s w = (w1, Ok s1) ∧ Get lib env cfg (sc_Namespace s) (sc_Name s) w1 = (w2, Ok s2) ∧
    sc_Data s2 = sc_Data s ∧ sc_Version s2 = 1 ∧ sc_OwnedBy s2 = sc_OwnedBy s ∧ (Create lib env cfg s w2).2 = Err (EStore SEExists).
Proof.
  intros HL Hq Hu Hnone Hns Hn Hv Ht. destruct (Create_run lib env cfg kek s w HL Hq Hu Hnone Hns Hn Hv Ht) as (w1 & rec & s1 & t & E1 & W1 & Hp & Ho).
  pose proof (put_holds lib env kek _ _ _ _ _ _ _ Hp Ho) as Hh. assert (Hu1 : unlocked kek w1) by by eapply writes_unlocked.
  destruct (Get_run lib env cfg kek _ _ _ w1 HL Hq Hu1 Hh) as (w2 & E2 & R2). exists w1, w2, s1. eexists. split; [exact E1|]. split; [exact E2|].
  do 3 (split; [done|]). unfold Create. rewrite check_run by (rewrite !bool_decide_eq_false_2; [done|done|intros e; by rewrite e in Hn]).
  rewrite check_run, Hv, lift_run, asks_run by done. cbv zeta. set (s' := mkSecret _ _ _ _ _ _ _ _ _).
  assert (Hu2 : unlocked kek (ticked w2)) by (by eapply reads_unlocked; [etrans; [exact R2|apply reads_tick]|]).
  destruct (encrypt_run lib env cfg kek s' 1 (ticked w2) Hq Hu2) as (w3 & rec' & E3 & R3 & _). rewrite (iobind_run _ _ _ _ _ E3).
  unfold mbind, io_bind, coreCreate. rewrite call_quiet by done. unfold ResourceStore.Create, txCreate.
  destruct (lw_row lib HL rec') as (x & -> & _). rewrite (qu_read env Hq). cbn [negb].
  destruct Hh as (y & ? & Hy & _). assert (Hdb : bs_db (xw_store w3) = db w1) by (rewrite (rd_store _ _ R3); cbn; by rewrite (rd_store _ _ R2)).
  change (MakeKey ResourceTypeSecret (sc_Namespace s') (sc_Name s')) with (head_key (sc_Namespace s) (sc_Name s)). by rewrite Hdb, Hy.
Qed.

(** Rolling back to a version of the history writes that version's data as the
    next version and keeps every version there was. *)
Theorem rollback_appends kek source ns name n prior cur l w :
  laws lib → quiet env → unlocked kek w → ns ≠ "all" → ns ≠ "*" → ValidateDNS1123Name name = true → fresh_versions env (xw_tick w) ns name (db w) →
  holds lib kek (db w) ns name cur → recorded lib kek (db w) ns name l →
  List.find (λ s, sc_Version s =? n) (sortVersions l) = Some prior → validateSecretData cfg (sc_Data prior) = Ok tt →
  ∃ w' new l', Rollback lib env cfg source ns name n w = (w', Ok new) ∧
    sc_Data new = sc_Data prior ∧ sc_Version new = wrap64 (sc_Version cur + 1) ∧ sc_CreatedAt new = sc_CreatedAt cur ∧
    holds lib kek (db w') ns name new ∧ recorded lib kek (db w') ns name l' ∧ l' ≡ₚ new :: l ∧
    StronglySorted newer (sortVersions l').
Proof.
  intros HL Hq Hu Ha Hs Hn Hf Hh Hr Hfind Hv. unfold Rollback, GetVersionN.
  destruct (ListVersions_run lib env cfg kek ns name l w HL Hq Hu Hr) as (w1 & E1 & R1).
  erewrite (iobind_run (ListVersions _ _ _ _ _ ≫= _)); [|rewrite (iobind_run _ _ _ _ _ E1), Hfind; reflexivity].
  assert (Hin : prior ∈ l) by (apply find_some in Hfind as [Hin _]; apply list_elem_of_In in Hin; by rewrite (proj1 (sortVersions_spec l)) in Hin).
  destruct (recorded_textual lib kek _ _ _ _ _ HL Hr Hin) as [Ht _].
  assert (Hdb1 : db w1 = db w) by (unfold db; by rewrite (rd_store _ _ R1)). assert (Hu1 : unlocked kek w1) by by eapply reads_unlocked.
  set (s := mkSecret _ _ _ _ _ _ _ _ _). destruct (Update_run lib env cfg kek source ns name s cur w1 HL Hq Hu1) as (w2 & rec & t & E2 & W2 & Hp & Ho); [by rewrite Hdb1|done..|].
  rewrite (iobind_run _ _ _ _ _ E2). rewrite Hdb1 in Hp. apply (put_later lib env _ _ _ _ _ _ _ (rd_tick _ _ R1)) in Hp. assert (Hh2 : holds lib kek (db w2) ns name (updated cur s (xe_now env t))) by by eapply put_holds.
  destruct (Get_run lib env cfg kek ns name _ w2 HL Hq (writes_unlocked _ _ _ W2 Hu1) Hh2) as (w3 & E3 & R3). assert (Hdb3 : db w3 = db w2) by (unfold db; by rewrite (rd_store _ _ R3)).
  destruct (put_recorded lib env kek _ ns name rec _ l _ _ Ha Hs Hp Ho Hf Hr) as (l' & Hr' & Hl').
  eexists w3, _, l'. split; [exact E3|]. rewrite Hdb3. do 5 (split; [done|]). split; [done|]. apply sortVersions_spec.
Qed.

(** *** Merging a patch *)

Lemma unset_lookup (m : gmap string string) (unset : list string) k :
  fold_left (λ m k, base.delete k m) unset m !! k = if bool_decide (k ∈ unset) then None else m !! k.
Proof.
  revert m. induction unset as [|u unset IH]; intros m; [by rewrite bool_decide_eq_false_2 by apply not_elem_of_nil|]. cbn [fold_left]. rewrite IH.
  destruct (decide (k = u)) as [->|Hne].
  - rewrite (bool_decide_eq_true_2 (u ∈ u :: unset)) by left. rewrite lookup_delete_eq. by case_bool_decide.
  - rewrite lookup_delete_ne by done. destruct (decide (k ∈ unset)) as [Hin|Hin]; [rewrite !bool_decide_eq_true_2; [done|by right|done]|].
    rewrite !bool_decide_eq_false_2; [done|by intros [?|?]%elem_of_cons|done].
Qed.

Lemma mergeData_lookup current set unset k :
  mergeData current set unset !! k = if bool_decide (k ∈ unset) then None else match set !! k with Some v => Some v | None => entries current !! k end.
Proof.
  unfold mergeData. rewrite unset_lookup. case_bool_decide; [done|]. rewrite lookup_union. destruct (set !! k), (entries current !! k); done.
Qed.

Lemma emitAudit_run {E} subject action ns name o msg meta (w : xworld D) : quiet env →
  emitAudit (E := E) env subject action ns name o msg meta w =
  (with_audit (xw_audit w ++ [mkAudit (actorFromContext subject) action (MakeAuditRef ns name) ns o msg meta]) (ticked w), Ok tt).
Proof. intros Hq. unfold emitAudit. rewrite asks_run, (qu_read env Hq), (qu_commit env Hq). done. Qed.

Lemma orElse_ok {A} subject (m : io D SecretError A) action ns name msg meta code w w' a : m w = (w', Ok a) →
  orElse env subject m action ns name msg meta code w = (w', Ok a).
Proof. intros E. unfold orElse. by rewrite (iobind_run _ _ _ _ _ (attempt_run (E' := failure) _ _ _ _ E)). Qed.

(** A patch sets the keys it names, removes the ones it unsets and leaves the
    others; it writes one version, and none when nothing changes. *)
Theorem patch_exact kek subject ns name set unset cur w :
  laws lib → quiet env → unlocked kek w → holds lib kek (db w) (NS ns) name cur →
  name ≠ "" → set ≠ ∅ ∨ unset ≠ [] → ValidateDNS1123Name name = true →
  let merged := mergeData (sc_Data cur) set unset in
  validateSecretData cfg (Some merged) = Ok tt → textual lib (Some merged) →
  ∃ w' new, PatchSecret lib env cfg subject ns name set unset w = (w', Ok (Some (toProtoSecret new false))) ∧
    holds lib kek (db w') (NS ns) name new ∧
    (∀ k, entries (sc_Data new) !! k =
       if bool_decide (k ∈ unset) then None else match set !! k with Some v => Some v | None => entries (sc_Data cur) !! k end) ∧
    (if decide (sc_Data cur = Some merged) then new = cur ∧ db w' = db w ∧ xw_audit w' = xw_audit w
     else sc_Version new = wrap64 (sc_Version cur + 1) ∧ length (xw_audit w') = S (length (xw_audit w))).
Proof.
  intros HL Hq Hu Hh Hname Hwork Hn merged Hv Ht. unfold PatchSecret. rewrite check_run by by rewrite bool_decide_eq_false_2.
  rewrite check_run by (destruct Hwork; [rewrite bool_decide_eq_false_2|rewrite (bool_decide_eq_false_2 (unset = [])), andb_false_r]; done).
  cbv zeta. destruct (Get_run lib env cfg kek _ _ _ w HL Hq Hu Hh) as (w1 & E1 & R1). rewrite (iobind_run _ _ _ _ _ (orElse_ok subject _ _ _ _ _ _ _ _ _ _ E1)).
  fold merged. assert (Hdb1 : db w1 = db w) by (unfold db; by rewrite (rd_store _ _ R1)). assert (Hu1 : unlocked kek w1) by by eapply reads_unlocked.
  destruct (decide (sc_Data cur = Some merged)) as [Hsame|Hdiff].
  - rewrite bool_decide_eq_true_2 by done. exists w1, cur. split; [done|]. rewrite Hdb1. split; [done|]. split; [|by rewrite (rd_audit _ _ R1)].
    intros k. rewrite <- (mergeData_lookup (sc_Data cur) set unset k). fold merged. by rewrite Hsame.
  - rewrite bool_decide_eq_false_2 by done. set (s := desired _ _ _ _).
    destruct (Update_run lib env cfg kek EventSourceAPI (NS ns) name s cur w1 HL Hq Hu1) as (w2 & rec & t & E2 & W2 & Hp & Ho); [by rewrite Hdb1|done..|].
    rewrite (iobind_run _ _ _ _ _ (orElse_ok subject _ _ _ _ _ _ _ _ _ _ E2)). assert (Hh2 : holds lib kek (db w2) (NS ns) name (updated cur s (xe_now env t))) by by eapply put_holds.
    destruct (Get_run lib env cfg kek _ name _ w2 HL Hq (writes_unlocked _ _ _ W2 Hu1) Hh2) as (w3 & E3 & R3). assert (Hdb3 : db w3 = db w2) by (unfold db; by rewrite (rd_store _ _ R3)).
    rewrite (iobind_run _ _ _ _ _ (attempt_run _ _ _ _ E3)). rewrite (iobind_run _ _ _ _ _ (emitAudit_run _ _ _ _ _ _ _ _ Hq)).
    eexists _, _. split; [reflexivity|]. unfold db at 1. cbn. change (bs_db (xw_store w3)) with (db w3). rewrite Hdb3. split; [done|]. split; [intros k; apply mergeData_lookup|].
    split; [done|]. rewrite length_app, (rd_audit _ _ R3), (wr_audit _ _ W2), (rd_audit _ _ R1). cbn. lia.
Qed.
End Repository.

(** ** Frames *)

Section Frames.
Context {D : Type} (lib : secret_lib D) (env : secret_env D) (cfg : repo_config).

(** Every run of [m] is related to where it started; every value it returns is in [Q]. *)
Definition frames {E A} (R : relation (xworld D)) (m : io D E A) : Prop := ∀ w, R w (m w).1.
Definition yields {E A} (Q : A → Prop) (m : io D E A) : Prop := ∀ w w' a, m w = (w', Ok a) → Q a.

Section Rules.
Context (R : relation (xworld D)) `{!PreOrder R}.

Lemma frames_ret {E A} (a : A) : frames R (mret a : io D E A).
Proof. intros w. by cbn. Qed.

Lemma frames_throw {E A} (e : E) : frames R (throw e : io D E A).
Proof. intros w. by cbn. Qed.

Lemma frames_lift {E A} (r : result E A) : frames R (lift r).
Proof. intros w. by cbn. Qed.

Lemma frames_gets {E A} (f : xworld D → A) : frames R (gets f : io D E A).
Proof. intros w. by cbn. Qed.

Lemma frames_check {E} b (e : E) : frames R (check b e).
Proof. destruct b; intros w; by cbn. Qed.

Lemma frames_bind {E A B} (m : io D E A) (f : A → io D E B) : frames R m → (∀ a, frames R (f a)) → frames R (m ≫= f).
Proof.
  intros Hm Hf w. specialize (Hm w). unfold mbind, io_bind. destruct (m w) as [w' [a|e]]; [|done]. cbn in Hm. etrans; [exact Hm|apply Hf].
Qed.

Lemma frames_attempt {E E' A} (m : io D E A) : frames R m → frames R (attempt (E' := E') m).
Proof. intros Hm w. specialize (Hm w). unfold attempt. by destruct (m w) as [w' r]. Qed.
End Rules.

Lemma yields_bind {E A B} Q (m : io D E A) (f : A → io D E B) : (∀ a, yields Q (f a)) → yields Q (m ≫= f).
Proof. intros Hf w w' b. unfold mbind, io_bind. destruct (m w) as [w1 [a|e]]; [apply Hf|done]. Qed.

Lemma yields_ret {E A} (Q : A → Prop) (a : A) : Q a → yields Q (mret a : io D E A).
Proof. intros H w w' a' [= _ <-]. done. Qed.

Lemma yields_throw {E A} (Q : A → Prop) (e : E) : yields Q (throw e : io D E A).
Proof. by intros w w' a. Qed.
End Frames.

#[export] Hint Resolve yields_ret yields_throw : rune.

(** Walks a program under a frame, leaving its calls. *)
Ltac frame :=
  repeat first
    [ progress intros
    | solve [eauto with rune]
    | match goal with
      | |- frames _ (_ ≫= _) => apply frames_bind; [apply _| |]
      | |- frames _ (attempt _) => apply frames_attempt
      | |- frames _ (mret _) => apply frames_ret; apply _
      | |- frames _ (throw _) => apply frames_throw; apply _
      | |- frames _ (lift _) => apply frames_lift; apply _
      | |- frames _ (gets _) => apply frames_gets; apply _
      | |- frames _ (check _ _) => apply frames_check; apply _
      | |- yields _ (_ ≫= _) => apply yields_bind
      end
    | match goal with
      | |- frames _ (match ?x with _ => _ end) => destruct x
      | |- yields _ (match ?x with _ => _ end) => destruct x
      end ].

(** The world after a step differs at most in what [R] lets go. *)
Definition same_store {D} : relation (xworld D) := λ w w', xw_store w' = xw_store w.
Definition same_audit {D} : relation (xworld D) := λ w w', xw_audit w' = xw_audit w.

#[export] Instance same_store_preorder {D} : PreOrder (same_store (D := D)).
Proof. split; [by intros w|]. intros w1 w2 w3. unfold same_store. congruence. Qed.
#[export] Instance same_audit_preorder {D} : PreOrder (same_audit (D := D)).
Proof. split; [by intros w|]. intros w1 w2 w3. unfold same_audit. congruence. Qed.

Section Kept.
Context {D : Type} (lib : secret_lib D) (env : secret_env D) (cfg : repo_config).

(** What the key material touches is neither the store nor the audit trail. *)
Section Local.
Context (R : relation (xworld D)) `{!PreOrder R}.
Context (R_tick : ∀ w, R w (ticked w)) (R_kek : ∀ o k e w, R w (with_kek o k e w)) (R_files : ∀ f w, R w (with_files f w)).

Lemma local_ask {E A} (f : nat → A) : frames R (ask f : io D E A).
Proof. intros w. apply R_tick. Qed.

Lemma local_ensureKEK : frames R (ensureKEK env cfg).
Proof.
  unfold ensureKEK, LoadOrGenerateKEK, generateAndPersistKEK, randomKey, RandomBytes, decodeB64Key.
  frame; try apply local_ask; try (intros w; cbn; first [apply R_kek|apply R_files]). intros w. cbn. destruct a1; apply R_kek.
Qed.

Lemma local_encrypt s v : frames R (encryptSecret lib env cfg s v).
Proof. unfold encryptSecret, Encrypt, RandomBytes, NewAEADCipher. frame; try apply local_ask; apply local_ensureKEK. Qed.

Lemma local_decrypt rec : frames R (decryptSecret lib env cfg rec).
Proof. unfold decryptSecret, NewAEADCipher. frame. apply local_ensureKEK. Qed.
End Local.

Lemma audit_call {A} (f : nat → BadgerStore StoredSecret D → BadgerStore StoredSecret D * result StoreError A) : frames same_audit (call env f).
Proof. intros w. unfold call. destruct (f _ _) as [s r]. done. Qed.

#[local] Ltac kept_by R := (apply _ || (intros; unfold R; reflexivity)).

Lemma audit_decrypt rec : frames same_audit (decryptSecret lib env cfg rec).
Proof. apply local_decrypt; kept_by @same_audit. Qed.

Lemma audit_Get ns name : frames same_audit (Get lib env cfg ns name).
Proof. unfold Get, coreGet. frame; [apply audit_call|apply audit_decrypt]. Qed.

Lemma store_decrypt rec : frames same_store (decryptSecret lib env cfg rec).
Proof. apply local_decrypt; kept_by @same_store. Qed.

Lemma store_encrypt s v : frames same_store (encryptSecret lib env cfg s v).
Proof. apply local_encrypt; kept_by @same_store. Qed.

(** A refused write: an error leaves the store as it was. *)
Definition refuses {E A} (m : io D E A) : Prop := ∀ w, is_ok (m w).2 = false → xw_store (m w).1 = xw_store w.

Lemma refuses_bind {E A B} (m : io D E A) (f : A → io D E B) : frames same_store m → (∀ a, refuses (f a)) → refuses (m ≫= f).
Proof.
  intros Hm Hf w. specialize (Hm w). unfold mbind, io_bind, same_store in *. destruct (m w) as [w' [a|e]]; [|done].
  cbn in Hm. intros H. etrans; [by apply Hf|done].
Qed.

Lemma refuses_call {A} (f : nat → BadgerStore StoredSecret D → BadgerStore StoredSecret D * result StoreError A) :
  (∀ n s, xe_others env n s = s) → (∀ n s, is_ok (f n s).2 = false → (f n s).1 = s) → refuses (call env f).
Proof.
  intros Ho Hf w. unfold call. rewrite Ho. specialize (Hf (xw_tick w) (xw_store w)). destruct (f _ _) as [s [a|e]]; [done|]. intros _. by apply Hf.
Qed.

Lemma refuses_ret {E A B} (m : io D E A) (f : A → B) : refuses m → refuses (m ≫= λ a, mret (f a)).
Proof. intros Hm w. specialize (Hm w). unfold mbind, io_bind. destruct (m w) as [w' [a|e]]; [done|exact Hm]. Qed.

Lemma store_Get ns name : (∀ n s, xe_others env n s = s) → frames same_store (Get lib env cfg ns name).
Proof.
  intros Ho. unfold Get, coreGet. frame; [|apply store_decrypt]. intros w. unfold call. by rewrite Ho.
Qed.

Lemma store_ask {E A} (f : nat → A) : frames same_store (ask f : io D E A).
Proof. by intros w. Qed.

(** A write that fails, for whatever reason, writes nothing: not the head, not a
    version row. *)
Theorem refused_writes_nothing source ns name s w :
  (∀ n st, xe_others env n st = st) →
  (is_ok (Create lib env cfg s w).2 = false → xw_store (Create lib env cfg s w).1 = xw_store w) ∧
  (is_ok (Update lib env cfg source ns name s w).2 = false → xw_store (Update lib env cfg source ns name s w).1 = xw_store w) ∧
  (is_ok (Delete lib env ns name w).2 = false → xw_store (Delete lib env ns name w).1 = xw_store w).
Proof.
  intros Ho. assert (HC : refuses (Create lib env cfg s)).
  { unfold Create. repeat (apply refuses_bind; [frame; first [apply store_ask|apply store_encrypt]|intros ?]; cbv zeta).
    apply (refuses_ret _ (λ _, _)). apply refuses_call; [done|]. intros n st. unfold ResourceStore.Create.
    destruct (txCreate _ _ _ _ _ _ _ _); [|done]. by destruct (negb _). }
  assert (HU : refuses (Update lib env cfg source ns name s)).
  { unfold Update. apply refuses_bind; [by apply store_Get|intros cur]. cbv zeta. repeat (apply refuses_bind; [frame; first [apply store_ask|apply store_encrypt]|intros ?]; cbv zeta).
    apply refuses_call; [done|]. intros n st. unfold ResourceStore.Update.
    destruct (txUpdate _ _ _ _ _ _ _ _); [|done]. by destruct (negb _). }
  assert (HD : refuses (Delete lib env ns name)).
  { apply refuses_call; [done|]. intros n st. unfold ResourceStore.Delete. destruct (negb _); [done|].
    destruct (_ !! _); [|done]. destruct (sl_Generic _ _); [|done]. by destruct (negb _). }
  split; [apply HC|split; [apply HU|apply HD]].
Qed.
End Kept.

(** ** The service *)

Section Handlers.
Context {D : Type} (lib : secret_lib D) (env : secret_env D) (cfg : repo_config) (subject : string).

Definition hidden (p : ProtoSecret) : Prop := pt_Data p = None.
Definition hidden_opt (o : option ProtoSecret) : Prop := ∀ p, o = Some p → hidden p.

Lemma hidden_some s : hidden_opt (Some (toProtoSecret s false)).
Proof. by intros p [= <-]. Qed.

Lemma hidden_got {E} (r : result E Secret) : hidden_opt (match r with Ok g => Some (toProtoSecret g false) | Err _ => None end).
Proof. destruct r; [apply hidden_some|done]. Qed.

Lemma hidden_list (l : list Secret) : Forall hidden ((λ s, toProtoSecret s false) <$> l).
Proof. apply Forall_fmap, Forall_true. done. Qed.

Lemma UpdateSecret_hides req : yields hidden_opt (UpdateSecret lib env cfg subject req).
Proof. unfold UpdateSecret. frame; apply yields_ret; [apply hidden_some|apply hidden_got]. Qed.

(** Only the two reveal calls return a secret's values: every other response
    carries its keys alone. *)
Theorem only_reveal_returns_values :
  (∀ req ensure, yields hidden_opt (CreateSecret lib env cfg subject req ensure)) ∧
  (∀ req, yields hidden_opt (UpdateSecret lib env cfg subject req)) ∧
  (∀ ns name set unset, yields hidden_opt (PatchSecret lib env cfg subject ns name set unset)) ∧
  (∀ ns name, yields hidden (GetSecret lib env cfg subject ns name)) ∧
  (∀ ns name n, yields hidden (RollbackSecret lib env cfg subject ns name n)) ∧
  (∀ ns, yields (Forall hidden) (ListSecrets lib env cfg ns)) ∧
  (∀ ns name, yields (Forall hidden) (ListSecretVersions lib env cfg subject ns name)).
Proof.
  repeat split; intros.
  - unfold CreateSecret. frame; try apply UpdateSecret_hides; apply yields_ret, hidden_some.
  - apply UpdateSecret_hides.
  - unfold PatchSecret. frame; apply yields_ret; [apply hidden_some|apply hidden_got].
  - unfold GetSecret. frame. by apply yields_ret.
  - unfold RollbackSecret. frame; by apply yields_ret.
  - unfold ListSecrets. frame. apply yields_ret, hidden_list.
  - unfold ListSecretVersions. frame. apply yields_ret, hidden_list.
Qed.

(** The event [RevealSecret] leaves: one for a secret that was or could not be
    read, none for a call refused before the read. *)
Definition reveal_events (ns name : string) (r : result failure ProtoSecret) (e : AuditEvent) : Prop :=
  au_Actor e = actorFromContext subject ∧ au_Action e = "reveal" ∧
  match r with
  | Ok p => au_Outcome e = AuditOutcomeSuccess ∧ au_ResourceRef e = MakeAuditRef (pt_Namespace p) (pt_Name p)
  | Err _ => au_Outcome e = AuditOutcomeError ∧ au_ResourceRef e = MakeAuditRef (NS ns) name
  end.

Lemma audit_Allow : frames same_audit (Allow env).
Proof. unfold Allow. frame; by intros w. Qed.

Lemma emitAudit_kept {E} action ns name o msg meta (w : xworld D) :
  (∀ n, xe_readable env n = true) → (∀ n, xe_commits env n = true) →
  emitAudit (E := E) env subject action ns name o msg meta w =
  (with_audit (xw_audit w ++ [mkAudit (actorFromContext subject) action (MakeAuditRef ns name) ns o msg meta]) (ticked w), Ok tt).
Proof. intros Hr Hc. unfold emitAudit. rewrite asks_run, Hr, Hc. done. Qed.

Theorem reveal_audited ns name w :
  (∀ n, xe_readable env n = true) → (∀ n, xe_commits env n = true) →
  let '(w', r) := RevealSecret lib env cfg subject ns name w in
  match r with
  | Err (Status ResourceExhausted) | Err (Status InvalidArgument) => xw_audit w' = xw_audit w
  | _ => ∃ e, xw_audit w' = xw_audit w ++ [e] ∧ reveal_events ns name r e
  end.
Proof.
  intros Hr Hc. unfold RevealSecret. unfold mbind at 1, io_bind at 1. pose proof (audit_Allow w) as Ha. unfold same_audit in Ha. destruct (Allow env w) as [w1 [[]|e]] eqn:Ea; cbn in Ha.
  2:{ assert (e = Status ResourceExhausted) as ->; [|exact Ha]. revert Ea. unfold Allow. rewrite asks_run. unfold gets, modify, mbind, io_bind. cbn.
      destruct (allowAt _ _) as [b []]; [done|]. by intros [= _ <-]. }
  destruct (bool_decide (name = "")) eqn:En; [exact Ha|]. cbn [negb]. rewrite check_run by done.
  pose proof (audit_Get lib env cfg ns name w1) as Hg. unfold same_audit in Hg.
  unfold orElse. destruct (Get lib env cfg ns name w1) as [w2 [s|e]] eqn:Eg; cbn in Hg.
  - erewrite iobind_run by (erewrite iobind_run by exact (attempt_run _ _ _ _ Eg); reflexivity).
    rewrite (iobind_run _ _ _ _ _ (emitAudit_kept _ _ _ _ _ _ _ Hr Hc)). cbn. eexists. split; [by rewrite Hg, Ha|]. done.
  - unfold mbind at 1, io_bind at 1. rewrite (iobind_run _ _ _ _ _ (attempt_run (E' := failure) _ _ _ _ Eg)), (iobind_run _ _ _ _ _ (emitAudit_kept _ _ _ _ _ _ _ Hr Hc)).
    cbn. eexists. split; [by rewrite Hg, Ha|]. done.
Qed.
End Handlers.

(** ** The limits *)

Section Limits.
Fixpoint value_bytes (l : list (string * string)) : Z :=
  match l with [] => 0 | kv :: l => Z.of_nat (String.length kv.2) + value_bytes l end.

Lemma value_bytes_nonneg l : 0 ≤ value_bytes l.
Proof. induction l as [|[k v] l IH]; cbn [value_bytes]; lia. Qed.

Lemma value_bytes_perm l k : l ≡ₚ k → value_bytes l = value_bytes k.
Proof. induction 1; cbn [value_bytes]; lia. Qed.

Definition long_key (li : Limits) (kv : string * string) : Prop := li_MaxKeyNameLength li < Z.of_nat (String.length kv.1).

Lemma validateEntries_spec li total l : total ≤ li_MaxObjectBytes li →
  match validateEntries li total l with
  | Ok _ => Forall (λ kv, ¬ long_key li kv) l ∧ total + value_bytes l ≤ li_MaxObjectBytes li
  | Err (EKeyTooLong k) => ∃ v, (k, v) ∈ l ∧ long_key li (k, v)
  | Err e => e = ETooLarge ∧ li_MaxObjectBytes li < total + value_bytes l
  end.
Proof.
  revert total. induction l as [|[k v] l IH]; intros total Ht; cbn [validateEntries]; [split; [done|cbn [value_bytes]; lia]|].
  destruct (Z.ltb_spec (li_MaxKeyNameLength li) (Z.of_nat (String.length k))) as [Hk|Hk]; [exists v; split; [left|exact Hk]|].
  cbn [value_bytes]. pose proof (value_bytes_nonneg l). cbv zeta. cbn [snd].
  destruct (Z.ltb_spec (li_MaxObjectBytes li) (total + Z.of_nat (String.length v))) as [Hv|Hv]; [split; [done|lia]|].
  specialize (IH _ Hv). destruct (validateEntries _ _ l) as [[]|[]]; try (destruct IH as [IH ?]; split; [done|lia]).
  - destruct IH as [IH ?]. split; [|lia]. constructor; [unfold long_key; cbn; lia|done].
  - destruct IH as (v' & Hin & Hl). exists v'. split; [by right|done].
Qed.

(** C18: The check accepts exactly the data within the limits, in whatever order the
    map is ranged; a key it names is too long, and it speaks of the size only
    when the size is exceeded. *)
Theorem limits_exact cfg d l :
  0 ≤ li_MaxObjectBytes (rc_limits cfg) → l ≡ₚ map_to_list (entries d) →
  let within := (∀ k v, entries d !! k = Some v → Z.of_nat (String.length k) ≤ li_MaxKeyNameLength (rc_limits cfg)) ∧
                value_bytes (map_to_list (entries d)) ≤ li_MaxObjectBytes (rc_limits cfg) in
  (validateEntries (rc_limits cfg) 0 l = Ok tt ↔ within) ∧ (validateSecretData cfg d = Ok tt ↔ within) ∧
  match validateEntries (rc_limits cfg) 0 l with
  | Ok _ => True
  | Err (EKeyTooLong k) => is_Some (entries d !! k) ∧ li_MaxKeyNameLength (rc_limits cfg) < Z.of_nat (String.length k)
  | Err e => e = ETooLarge ∧ li_MaxObjectBytes (rc_limits cfg) < value_bytes (map_to_list (entries d))
  end.
Proof.
  intros H0 Hp within. set (li := rc_limits cfg) in *.
  assert (Hiff : ∀ k, k ≡ₚ map_to_list (entries d) → validateEntries li 0 k = Ok tt ↔ within).
  { intros k Hk. pose proof (validateEntries_spec li 0 k H0) as Hs. rewrite (value_bytes_perm _ _ Hk) in Hs.
    assert (Hall : Forall (λ kv, ¬ long_key li kv) k ↔ ∀ x v, entries d !! x = Some v → Z.of_nat (String.length x) ≤ li_MaxKeyNameLength li).
    { rewrite Hk, Forall_forall. split; [intros H x v Hx; specialize (H (x, v)); rewrite elem_of_map_to_list in H; specialize (H Hx); unfold long_key in H; cbn in H; lia|].
      intros H [x v] Hx%elem_of_map_to_list. specialize (H x v Hx). unfold long_key. cbn. lia. }
    unfold within. destruct (validateEntries li 0 k) as [[]|e].
    - rewrite <- Hall. destruct Hs. split; [intros _; split; [done|lia]|done].
    - split; [done|]. intros [Hw Hb]. exfalso. rewrite <- Hall in Hw. destruct e; try (destruct Hs; lia). destruct Hs as (v & Hin & Hl). rewrite Forall_forall in Hw. by apply (Hw _ Hin). }
  split; [by apply Hiff|]. split; [by apply Hiff|]. pose proof (validateEntries_spec li 0 l H0) as Hs. rewrite (value_bytes_perm _ _ Hp) in Hs.
  destruct (validateEntries li 0 l) as [[]|[]]; try done; try (destruct Hs; split; [done|lia]).
  destruct Hs as (v & Hin & Hl). split; [|exact Hl]. exists v. apply elem_of_map_to_list. by rewrite <- Hp.
Qed.
End Limits.

(** ** The master key *)

Section MasterKey.
Context {D : Type} (env : secret_env D).

(** The file system and the random source work. *)
Record disk_works : Prop := mkDisk {
  di_file n : xe_file env n = true;
  di_random n k : ∃ b, xe_random env n k = Some b ∧ String.length b = k;
}.

Lemma randomKey_run n (w : xworld D) : disk_works → ∃ b, randomKey env n w = (ticked w, Ok b) ∧ String.length b = n.
Proof.
  intros Hd. destruct (di_random Hd (xw_tick w) n) as (b & E & Hl). exists b. split; [|done]. unfold randomKey, RandomBytes. by rewrite asks_run, E.
Qed.

Lemma generate_run path (w : xworld D) : disk_works →
  ∃ w' k, generateAndPersistKEK env path w = (w', Ok k) ∧ String.length k = 32%nat ∧ xw_files w' = <[path := Base64.EncodeToString k]> (xw_files w).
Proof.
  intros Hd. destruct (randomKey_run 32 w Hd) as (k & E & Hl). unfold generateAndPersistKEK. eexists _, k.
  rewrite (iobind_run _ _ _ _ _ E), asks_run, check_run, asks_run, check_run by apply (di_file Hd). split; [reflexivity|]. done.
Qed.

(** C17: A master key that was generated into a file is the one every later start
    loads from it, base64 and all. *)
Theorem kek_survives_restart opts w :
  disk_works → ko_Source opts = KEKSourceFile → ko_FilePath opts ≠ "" → ko_GenerateIfMissing opts = true →
  xw_files w !! ko_FilePath opts = None →
  ∃ w1 k, LoadOrGenerateKEK env opts w = (w1, Ok k) ∧ String.length k = 32%nat ∧
    ∀ w2, xw_files w2 !! ko_FilePath opts = xw_files w1 !! ko_FilePath opts → (LoadOrGenerateKEK env opts w2).2 = Ok k.
Proof.
  intros Hd Hs Hp Hg Hn. unfold LoadOrGenerateKEK. rewrite Hs.
  destruct (generate_run (ko_FilePath opts) (ticked w) Hd) as (w1 & k & E & Hk & Hf). exists w1, k.
  rewrite check_run, asks_run, (di_file Hd) by by rewrite bool_decide_eq_false_2. split; [|split; [done|]].
  - unfold gets, mbind, io_bind. cbn. by rewrite Hn, Hg.
  - intros w2 H2. rewrite check_run, asks_run, (di_file Hd) by by rewrite bool_decide_eq_false_2. unfold gets, mbind, io_bind. cbn.
    rewrite H2, Hf, lookup_insert_eq. rewrite trim_unblank by apply encode_unblank. unfold decodeB64Key. rewrite base64_round.
    rewrite check_run by by rewrite Hk. done.
Qed.

(** A generated key is written to no file, whatever path is configured. *)
Lemma generated_not_persisted opts w : ko_Source opts = KEKSourceGenerated → xw_files (LoadOrGenerateKEK env opts w).1 = xw_files w.
Proof. intros Hs. unfold LoadOrGenerateKEK, randomKey, RandomBytes. rewrite Hs, asks_run. by destruct (xe_random _ _ _). Qed.
End MasterKey.

(** ** The rate limiter *)

Section Limiter.

Definition runAllow (times : list Time) (b : tokenBucket) : tokenBucket * list bool :=
  fold_left (λ '(b, out) now, let '(b, ok) := allowAt now b in (b, out ++ [ok])) times (b, []).

(** Credit left, in the bucket's unit, plus what was let through. *)
Definition let_through (out : list bool) : Z := countb id out * token.

Record metered (b : tokenBucket) : Prop := mkMetered { mt_low : 0 ≤ tb_tokens b; mt_high : tb_tokens b ≤ tb_capacity b; mt_refill : 0 ≤ tb_refill b }.

Lemma allowAt_step now b : metered b → tb_last b ≤ now →
  let '(b', ok) := allowAt now b in
  metered b' ∧ tb_capacity b' = tb_capacity b ∧ tb_refill b' = tb_refill b ∧ tb_last b ≤ tb_last b' ≤ now ∧
  tb_tokens b' + (if ok : bool then token else 0) ≤ tb_tokens b + tb_refill b * (tb_last b' - tb_last b).
Proof.
  intros [Hlow Hc Hr] Hl. unfold allowAt. cbv zeta. assert (Hs : Sub now (tb_last b) ≤ now - tb_last b) by (unfold Sub, int64_min, int64_max; lia).
  destruct (Z.ltb_spec 0 (Sub now (tb_last b))) as [H|H]; cbn [tb_tokens tb_capacity tb_refill tb_last]; (match goal with |- context [?x <? token] => destruct (Z.ltb_spec x token) end; cbn; unfold token in *; repeat split; cbn; nia).
Qed.

Lemma runAllow_bound times b out :
  metered b → StronglySorted Z.le (tb_last b :: times) →
  let '(b', out') := fold_left (λ '(b, out) now, let '(b, ok) := allowAt now b in (b, out ++ [ok])) times (b, out) in
  metered b' ∧ tb_tokens b' + let_through out' ≤ tb_tokens b + let_through out + tb_refill b * (tb_last b' - tb_last b) ∧
  tb_last b ≤ tb_last b' ≤ List.last times (tb_last b) ∧
  tb_capacity b' = tb_capacity b ∧ tb_refill b' = tb_refill b.
Proof.
  revert b out. induction times as [|now times IH]; intros b out Hm Hs; [cbn; repeat split; first [apply Hm|lia]|].
  apply StronglySorted_inv in Hs as [Hs Hall]. inversion_clear Hall as [|? ? Hnow Hrest]. pose proof (allowAt_step now b Hm Hnow) as Hstep.
  cbn [fold_left]. destruct (allowAt now b) as [b1 ok]. destruct Hstep as (Hm1 & Ec & Er & Hl1 & Hb).
  assert (Hs1 : StronglySorted Z.le (tb_last b1 :: times)).
  { apply StronglySorted_inv in Hs as [Hs Hn]. constructor; [done|]. eapply Forall_impl; [exact Hn|]. cbn. lia. }
  specialize (IH b1 (out ++ [ok]) Hm1 Hs1). destruct (fold_left _ times _) as [b' out']. destruct IH as (Hm' & IH1 & IH2 & IH3 & IH4).
  assert (Ho : let_through (out ++ [ok]) = let_through out + (if ok then token else 0)) by (unfold let_through; rewrite countb_app; destruct ok; cbn; lia).
  rewrite Ho, Er in IH1. split; [done|]. split; [nia|]. split; [|split; congruence]. split; [lia|]. etrans; [apply IH2|].
  destruct times as [|t times]; cbn; [lia|]. apply Z.eq_le_incl. clear. revert t. induction times as [|u times IH]; intros t; [done|apply IH].
Qed.

(** Up to a last reading of the clock the limiter lets through at most its
    capacity and what it refills in that time; and it does not refuse a call that
    comes a token's refill after the last. *)
Theorem limiter_bound b times :
  metered b → token ≤ tb_capacity b → StronglySorted Z.le (tb_last b :: times) →
  let '(b', out) := runAllow times b in
  let_through out ≤ tb_capacity b + tb_refill b * (List.last times (tb_last b) - tb_last b) ∧
  ∀ now, token ≤ tb_refill b * Sub now (tb_last b') → (allowAt now b').2 = true.
Proof.
  intros Hm Hcap Hs. pose proof (runAllow_bound times b [] Hm Hs) as H. unfold runAllow. destruct (fold_left _ times _) as [b' out]. destruct H as (Hm' & H1 & H2 & H3 & H4).
  change (let_through []) with 0 in H1. destruct Hm, Hm'. split; [nia|]. intros now Hn. unfold allowAt. cbv zeta. rewrite H4.
  destruct (Z.ltb_spec 0 (Sub now (tb_last b'))) as [Hp|Hp]; [|unfold token in *; nia]. cbn [tb_tokens]. rewrite (proj2 (Z.ltb_ge _ _)); [done|]. rewrite H3. lia.
Qed.
End Limiter.

(** C16: What a sealed row is bound to: a row that carries another row's wrapped key
    opens only under the master key, for the namespace, the name and the version
    it was sealed for; if it opens as anything else, this very wrapped key is a
    forgery: AES-GCM seals the same bytes under the other master key, or with the
    other row's associated data. *)
Theorem row_bound_to_its_secret {D} (lib : secret_lib D) env cfg kek s v rec kek' rec' w w' out :
  laws lib → sealed lib kek s v rec → unlocked kek' w → ValidateDNS1123Name (sc_Name s) = true → ValidateDNS1123Name (st_Name rec') = true →
  st_WrappedDEK rec' = st_WrappedDEK rec → decryptSecret lib env cfg rec' w = (w', Ok out) →
  (kek' = kek ∧ sc_Namespace out = sc_Namespace s ∧ sc_Name out = sc_Name s ∧ sc_Version out = v) ∨
  forgery lib (st_WrappedDEK rec) kek (dekAD (sc_Namespace s) (sc_Name s) v)
    kek' (dekAD (sc_Namespace out) (sc_Name out) (sc_Version out)).
Proof.
  intros HL Hs Hu Hn Hn' He Hd. pose proof (decrypt_opens lib env cfg kek' rec' w w' out Hu Hd) as (_ & dek & p & _ & _ & _ & Ho).
  rewrite Ho. cbn. eapply moved_row; eauto using dns_no_bar.
Qed.

(** ** Samples *)

Section Samples.

Fixpoint rep (n : nat) : string := match n with O => "" | S n => String "k" (rep n) end.

Lemma rep_length n : String.length (rep n) = n.
Proof. induction n; [done|]. cbn. by f_equal. Qed.

(** Rows kept as they are, data with the one key [k], and a cipher that writes
    its key, nonce and associated data before the plaintext. *)
Definition row_doc : Type := option (string * Time) * StoredSecret.

Definition toy_frame (k n a : string) : string := k +:+ n +:+ a.

Definition toy : secret_lib row_doc := mkSecretLib
  (λ v, Ok (None, v)) (λ id t v, Ok (Some (id, t), v))
  (λ d, Ok d.2) (λ d, match d with (Some (id, t), v) => Ok (id, t, v) | _ => Err "not a version" end)
  (λ d, Ok d)
  (λ d, match d with Some m => default "null" (m !! "k") | None => "null" end)
  (λ p, if bool_decide (p = "null") then Some None else Some (Some {["k" := p]}))
  (λ k n p a, toy_frame k n a +:+ p)
  (λ k n c a, if String.prefix (toy_frame k n a) c then Some (string_drop (String.length (toy_frame k n a)) c) else None)
  (λ typ d, typ +:+ default "" (entries d !! "k") +:+ "--------").

Lemma toy_laws : laws toy.
Proof.
  split.
  - intros v. by exists (None, v).
  - intros id t v. by exists (Some (id, t), v).
  - intros p d. cbn. destruct (bool_decide_reflect (p = "null")) as [->|Hp]; intros [= <-]; [done|]. rewrite lookup_singleton_eq. cbn. by rewrite bool_decide_eq_false_2.
  - intros k n p a. cbn. rewrite (proj2 (prefix_spec _ _)) by by exists p. by rewrite string_drop_app.
  - intros k n c a p. cbn. destruct (String.prefix _ c) eqn:E; [|done]. apply prefix_spec in E as [t ->]. rewrite string_drop_app. by intros [= ->].
Qed.

Definition toy_env (now : Time) : secret_env row_doc :=
  mkSecretEnv (λ n, now) (λ _ n, Some (rep n)) (λ _, true) (λ _, true) (λ _, true) (λ _, "") (λ _ s, s).

Lemma toy_quiet now : quiet (toy_env now).
Proof. split; try done. intros n k. exists (rep k). split; [done|apply rep_length]. Qed.

Definition toy_cfg : repo_config := mkRepoConfig None (mkLimits 100 10).
Definition toy_world : xworld row_doc := mkXworld NewBadgerStore true (rep 32) None ∅ ∅ [] (newTokenBucket 20 20 0) 0.

Lemma toy_unlocked : unlocked (rep 32) toy_world.
Proof. done. Qed.

Definition owner : OwnedBy := mkOwnedBy "shop" 1 "cli".
Definition db_secret (v : string) (o : option OwnedBy) : Secret := mkSecret "" "db" "prod" "static" (Some {["k" := v]}) 1 0 0 o.

Lemma created_reads_back_witness :
  ∃ w1 w2 s1 s2, Create toy (toy_env 5) toy_cfg (db_secret "v" (Some owner)) toy_world = (w1, Ok s1) ∧ Get toy (toy_env 5) toy_cfg "prod" "db" w1 = (w2, Ok s2) ∧
    sc_Data s2 = Some {["k" := "v"]} ∧ sc_Version s2 = 1 ∧ sc_OwnedBy s2 = Some owner ∧
    (Create toy (toy_env 5) toy_cfg (db_secret "v" (Some owner)) w2).2 = Err (EStore SEExists).
Proof.
  apply (created_reads_back toy (toy_env 5) toy_cfg (rep 32) (db_secret "v" (Some owner)) toy_world toy_laws (toy_quiet 5) toy_unlocked); by vm_compute.
Defined.

(** The world after the sample was created. *)
Definition stored_world : xworld row_doc := (Create toy (toy_env 5) toy_cfg (db_secret "v" (Some owner)) toy_world).1.

Lemma stored_world_spec : unlocked (rep 32) stored_world ∧ ∃ s1, sc_Data s1 = Some {["k" := "v"]} ∧ sc_Version s1 = 1 ∧
  holds toy (rep 32) (db stored_world) "prod" "db" s1 ∧ recorded toy (rep 32) (db stored_world) "prod" "db" [s1].
Proof.
  destruct (Create_run toy (toy_env 5) toy_cfg (rep 32) (db_secret "v" (Some owner)) toy_world toy_laws (toy_quiet 5) toy_unlocked) as (w1 & rec & s1 & t & E & W & Hp & Ho); [by vm_compute..|].
  assert (Hw : stored_world = w1) by (unfold stored_world; by rewrite E). rewrite Hw.
  assert (Hr : recorded toy (rep 32) (db toy_world) "prod" "db" []) by constructor.
  destruct (put_recorded toy (toy_env 5) (rep 32) _ "prod" "db" rec _ [] _ _ ltac:(done) ltac:(done) Hp Ho) as (l & Hl & Hperm); [by intros n _; vm_compute|done|].
  apply Permutation_singleton_r in Hperm as ->. split; [by eapply writes_unlocked|].
  eexists. split; [|split; [|split; [by eapply put_holds|exact Hl]]]; done.
Qed.

Lemma rollback_appends_witness :
  ∃ w' new l', Rollback toy (toy_env 7) toy_cfg EventSourceAPI "prod" "db" 1 stored_world = (w', Ok new) ∧
    sc_Data new = Some {["k" := "v"]} ∧ sc_Version new = 2 ∧ length l' = 2%nat ∧ StronglySorted newer (sortVersions l').
Proof.
  destruct stored_world_spec as (Hu & s1 & Hd & Hv & Hh & Hr).
  destruct (rollback_appends toy (toy_env 7) toy_cfg (rep 32) EventSourceAPI "prod" "db" 1 s1 s1 [s1] stored_world
    toy_laws (toy_quiet 7) Hu ltac:(done) ltac:(done) ltac:(by vm_compute) ltac:(by intros n _; vm_compute) Hh Hr ltac:(cbn; by rewrite Hv) ltac:(rewrite Hd; by vm_compute))
    as (w' & new & l' & E & H1 & H2 & _ & _ & _ & H3 & H4).
  exists w', new, l'. split; [exact E|]. split; [by rewrite H1|]. split; [by rewrite H2, Hv|]. split; [by rewrite H3|done].
Defined.

Lemma patch_exact_witness :
  ∃ w' new, PatchSecret toy (toy_env 7) toy_cfg "alice" "prod" "db" {["k" := "w"]} ["x"] stored_world = (w', Ok (Some (toProtoSecret new false))) ∧
    entries (sc_Data new) !! "k" = Some "w" ∧ entries (sc_Data new) !! "x" = None.
Proof.
  destruct stored_world_spec as (Hu & s1 & Hd & Hv & Hh & Hr).
  destruct (patch_exact toy (toy_env 7) toy_cfg (rep 32) "alice" "prod" "db" {["k" := "w"]} ["x"] s1 stored_world
    toy_laws (toy_quiet 7) Hu Hh ltac:(done) ltac:(by right) ltac:(by vm_compute) ltac:(rewrite Hd; by vm_compute) ltac:(rewrite Hd; by vm_compute))
    as (w' & new & E & _ & Hk & _).
  exists w', new. split; [exact E|]. rewrite !Hk, Hd. clear. split; vm_compute; reflexivity.
Defined.

Definition sample_stored : StoredSecret := mkStored "db" "prod" 1 0 0
  (rep 12 +:+ sl_Seal toy (rep 32) (rep 12) "v" (dataAD "prod" "db" 1)) (rep 12 +:+ sl_Seal toy (rep 32) (rep 12) (rep 32) (dekAD "prod" "db" 1)) None.

Lemma row_bound_to_its_secret_witness :
  (rep 32 = rep 32 ∧ "prod" = "prod" ∧ "db" = "db" ∧ 1 = 1) ∨
  forgery toy (st_WrappedDEK sample_stored) (rep 32) (dekAD "prod" "db" 1) (rep 32) (dekAD "prod" "db" 1).
Proof.
  refine (row_bound_to_its_secret toy (toy_env 5) toy_cfg (rep 32) (db_secret "v" None) 1 sample_stored (rep 32) sample_stored toy_world
    (opened toy_world) (mkSecret "" "db" "prod" "static" (Some {["k" := "v"]}) 1 0 0 None) toy_laws _ toy_unlocked _ _ _ _); try (by vm_compute).
  split; [done|]. exists (rep 32), (rep 12), (rep 12). done.
Defined.

Lemma refused_writes_nothing_witness : xw_store (Create toy (toy_env 5) toy_cfg (db_secret "v" None) stored_world).1 = xw_store stored_world.
Proof. apply (refused_writes_nothing toy (toy_env 5) toy_cfg EventSourceAPI "prod" "db" (db_secret "v" None) stored_world); [done|by vm_compute]. Defined.

Lemma reveal_audited_witness :
  let '(w', r) := RevealSecret toy (toy_env 5) toy_cfg "alice" "prod" "nosuch" stored_world in
  match r with
  | Err (Status ResourceExhausted) | Err (Status InvalidArgument) => xw_audit w' = xw_audit stored_world
  | _ => ∃ e, xw_audit w' = xw_audit stored_world ++ [e] ∧ reveal_events "alice" "prod" "nosuch" r e
  end.
Proof. by apply (reveal_audited toy (toy_env 5) toy_cfg "alice" "prod" "nosuch" stored_world). Defined.

Lemma limits_exact_witness : validateSecretData toy_cfg (Some {["k" := "v"]}) = Ok tt.
Proof.
  apply (proj1 (proj2 (limits_exact toy_cfg (Some {["k" := "v"]}) (map_to_list (entries (Some {["k" := "v"]}))) ltac:(done) (Permutation_refl _)))).
  split; [|by vm_compute]. intros k v. cbn. rewrite lookup_singleton_Some. intros [<- <-]. cbn. lia.
Defined.

Definition file_kek : KEKOptions := mkKEKOptions KEKSourceFile "/var/lib/rune/kek" "" true.

Lemma toy_disk now : disk_works (toy_env now).
Proof. split; [done|]. intros n k. exists (rep k). split; [done|apply rep_length]. Qed.

Lemma kek_survives_restart_witness :
  ∃ w1 k, LoadOrGenerateKEK (toy_env 5) file_kek toy_world = (w1, Ok k) ∧ String.length k = 32%nat ∧
    ∀ w2, xw_files w2 !! "/var/lib/rune/kek" = xw_files w1 !! "/var/lib/rune/kek" → (LoadOrGenerateKEK (toy_env 5) file_kek w2).2 = Ok k.
Proof. by apply (kek_survives_restart (toy_env 5) file_kek toy_world (toy_disk 5)). Defined.

Lemma limiter_bound_witness :
  let '(b', out) := runAllow [0; 0; 1000000000] (newTokenBucket 2 1 0) in
  let_through out ≤ 2 * token + 1 * (1000000000 - 0) ∧ ∀ now, token ≤ tb_refill (newTokenBucket 2 1 0) * Sub now (tb_last b') → (allowAt now b').2 = true.
Proof. apply (limiter_bound (newTokenBucket 2 1 0) [0; 0; 1000000000]); [by split|done|]. repeat (apply SSorted_cons; [|by repeat constructor]). apply SSorted_nil. Defined.

(** ** Findings *)

Fixpoint repj (n : nat) : string := match n with O => "" | S n => String "j" (repj n) end.

(** A clock that moves, and a random source that gives other bytes. *)
Definition moving_env : secret_env row_doc :=
  mkSecretEnv (λ n, 100 + Z.of_nat n) (λ _ n, Some (rep n)) (λ _, true) (λ _, true) (λ _, true) (λ _, "") (λ _ s, s).
Definition next_start : secret_env row_doc :=
  mkSecretEnv (λ n, 100 + Z.of_nat n) (λ _ n, Some (repj n)) (λ _, true) (λ _, true) (λ _, true) (λ _, "") (λ _ s, s).

Definition env_kek : KEKOptions := mkKEKOptions KEKSourceEnv "/var/lib/rune/kek" "RUNE_MASTER_KEY" true.

(** With the variable unset the key is generated and persisted, but the next
    start does not read the file: it generates another over it. *)
Lemma env_kek_regenerated :
  let '(w1, k1) := LoadOrGenerateKEK moving_env env_kek toy_world in
  let '(w2, k2) := LoadOrGenerateKEK next_start env_kek w1 in
  k1 = Ok (rep 32) ∧ xw_files w1 !! "/var/lib/rune/kek" = Some (Base64.EncodeToString (rep 32)) ∧
  k2 = Ok (repj 32) ∧ xw_files w2 !! "/var/lib/rune/kek" = Some (Base64.EncodeToString (repj 32)).
Proof. by vm_compute. Qed.

(** With a generated key every repository makes its own: what one stores, another
    of the same process cannot open. *)
Definition generated_cfg : repo_config := mkRepoConfig (Some (mkKEKOptions KEKSourceGenerated "/var/lib/rune/kek" "" true)) (mkLimits 100 10).

Lemma generated_key_per_repository :
  let '(w1, r1) := Create toy moving_env generated_cfg (db_secret "v" None) (with_kek false "" None toy_world) in
  is_ok r1 = true ∧ is_ok (Get toy moving_env generated_cfg "prod" "db" w1).2 = true ∧
  (Get toy next_start generated_cfg "prod" "db" (with_kek false "" None w1)).2 = Err EOpen.
Proof. by vm_compute. Qed.

Definition msg (ns typ v : string) : SecretMsg := mkSecretMsg "db" ns typ (Some {["k" := v]}).

Definition then_ {E A} (m : io row_doc E A) (w : xworld row_doc) : xworld row_doc := (m w).1.

(** Two versions, a delete and a new secret of the same name. *)
Definition recreated_world : xworld row_doc :=
  then_ (CreateSecret toy moving_env toy_cfg "alice" (Some (msg "system" "static" "new")) false)
  (then_ (DeleteSecret toy moving_env "alice" "system" "db")
  (then_ (UpdateSecret toy moving_env toy_cfg "alice" (Some (msg "system" "static" "old2")))
  (then_ (CreateSecret toy moving_env toy_cfg "alice" (Some (msg "system" "static" "old1")) false) toy_world))).

(** The version rows of a deleted secret stay, and a new secret of its name can
    be rolled back to what they held. *)
Lemma deleted_versions_return :
  pt_Version <$> (match (GetSecret toy moving_env toy_cfg "alice" "system" "db" recreated_world).2 with Ok p => Some p | _ => None end) = Some 1 ∧
  (match (RevealSecret toy moving_env toy_cfg "alice" "system" "db" (then_ (RollbackSecret toy moving_env toy_cfg "alice" "system" "db" 2) recreated_world)).2 with
   | Ok p => pt_Data p | _ => None end) = Some {["k" := "old2"]}.
Proof. by vm_compute. Qed.

(** A patch, and a rollback, leave the secret without the release that owned it. *)
Lemma patch_drops_owner :
  (match (Get toy moving_env toy_cfg "prod" "db" stored_world).2 with Ok s => sc_OwnedBy s | _ => None end) = Some owner ∧
  (match (Get toy moving_env toy_cfg "prod" "db" (then_ (PatchSecret toy moving_env toy_cfg "alice" "prod" "db" {["k" := "w"]} []) stored_world)).2 with
   | Ok s => bool_decide (sc_OwnedBy s = None) | _ => false end) = true ∧
  (match (Get toy moving_env toy_cfg "prod" "db" (then_ (Rollback toy moving_env toy_cfg EventSourceAPI "prod" "db" 1) stored_world)).2 with
   | Ok s => bool_decide (sc_OwnedBy s = None) | _ => false end) = true.
Proof. by vm_compute. Qed.

(** A secret created without a namespace is not found without one. *)
Lemma namespace_defaults_on_create_only :
  let w := then_ (CreateSecret toy moving_env toy_cfg "alice" (Some (msg "" "static" "v")) false) toy_world in
  is_ok (GetSecret toy moving_env toy_cfg "alice" "default" "db" w).2 = true ∧
  (GetSecret toy moving_env toy_cfg "alice" "" "db" w).2 = Err (Status NotFound) ∧
  is_ok (UpdateSecret toy moving_env toy_cfg "alice" (Some (msg "" "static" "v2")) w).2 = true.
Proof. by vm_compute. Qed.

(** The same data without a type is written again, each time. *)
Lemma untyped_update_rewrites :
  let w := then_ (CreateSecret toy moving_env toy_cfg "alice" (Some (msg "system" "" "v")) false) toy_world in
  match (UpdateSecret toy moving_env toy_cfg "alice" (Some (msg "system" "" "v")) w).2 with
  | Ok (Some p) => pt_Version p = 2
  | _ => False
  end.
Proof. by vm_compute. Qed.

(** A request without a secret is not answered with its error. *)
Lemma create_nil_panics subject ensure w : (CreateSecret toy moving_env toy_cfg subject None ensure w).2 = Err NilDereference.
Proof. done. Qed.

(** A version asked for in every namespace is looked for by namespace: the name
    is taken for one. *)
Lemma every_namespace_reads_by_name :
  (match (RevealSecretVersion toy moving_env toy_cfg "alice" "*" "system" 2 recreated_world).2 with
   | Ok p => Some (pt_Namespace p, pt_Name p, pt_Data p) | _ => None end) = Some ("system", "db", Some {["k" := "old2"]}).
Proof. by vm_compute. Qed.
End Samples.
